(* ===== verification/_CoqProject ===== *)
-Q . S2P
Prelude.v
Float64.v
Cpu.v
PriorityQueue.v
Event.v
SchedulerHostSingle.v
Packet.v
ThreadPolicies.v
RoundPolicy.v
Rounds.v
HostSteal.v
RouterQueue.v
Router.v
Descriptor.v
Timer.v
TimerFd.v
EventD.v
ByteQueue.v
Channel.v
Futex.v
Socket.v
Udp.v
CompatSocket.v
SocketWorld.v
Inet.v
NetworkInterface.v
InterfaceSafety.v
Epoll.v
EpollNotify.v
EpollSafety.v
EpollCalls.v
Buddy.v
BuddyLists.v
BuddyPool.v
CString.v
ShmFile.v
ShmAllocator.v
ShmSafety.v
Reno.v
Condition.v
ConditionSafety.v
ConditionRuns.v
Blocking.v
Tally.v
