(* ===== verification/Prelude.v ===== *)
(** * Phantom: a verification library for the simulator core (root file)

    Phantom (src/phantom) is a discrete-event network simulator: it runs real
    programs as processes of virtual hosts, intercepts their system calls and
    answers them from models of descriptors, routers and clocks.  This library
    models the C part of that core and proves what makes it correct.  The
    repository also holds two earlier versions (src/shadow_v1.14.0,
    src/shadow_enhanced), which are not modelled.  Paths below are relative to
    src/phantom/src/main.

    ** How the program works, and which file models which part

    A worker thread asks its scheduler policy for the next event before the
    end of the round, executes it on the destination host (unless the host's
    virtual CPU is busy), and the event's task runs descriptors, system calls
    and packets, which push further events.

    - [Float64] - IEEE doubles for the code that computes with them, over the
      binary64 format of the Standard Library.
    - [Cpu] (host/cpu.c) - the virtual CPU that delays the events of a busy
      host.
    - [PriorityQueue] (utility/priority_queue.c) - the binary heap with a hash
      table from entries to the addresses of their heap slots, so that the
      dangling addresses of a heap that moved are visible.
    - [Event] (core/work/event.c, counters of host/host.c) - events, their
      order and their execution as a list of actions.
    - [SchedulerHostSingle] (core/scheduler/scheduler_policy_host_single.c) -
      a queue per host, lists of hosts per thread, rounds; [step] is the
      relation that interleaves registrations, pushes, pops and rounds.
    - [ThreadPolicies] (scheduler_policy_thread_single.c, _perhost.c,
      _perthread.c) - one queue per thread, with or without mailboxes; the
      class [Implements] relates a policy to the executable specification
      [Spec] of what the scheduler relies on.
    - [RoundPolicy] (the calls of scheduler_policy.h) - the class
      [RoundPolicy], what a round needs of a policy, with its instances for the
      host-single and thread-single policies.
    - [Rounds] (scheduler.c, core/worker.c, core/controller.c, the main loop of
      core/manager.c) - the simulation's rounds: worker threads interleave
      pops, tasks and packets in any order, for any lawful policy.
    - [HostSteal] (scheduler_policy_host_steal.c) - the policy whose threads
      take hosts from each other, as interleaved atomic sections of their pops.
    - [Packet] (routing/packet.c, payload.c) - packets and shared payloads in
      a store with reference counts; a use after free is [None].
    - [RouterQueue] (routing/router_queue_*.c) - the three queue managers
      behind the class [QueueManagerLaws], which says who owns the references.
    - [Router] (routing/router.c) - the router, for any lawful queue manager.
    - [Descriptor] (host/descriptor/descriptor.c, host/status_listener.c) -
      status bits, listeners, and the notification loop over a world that
      callbacks may rewrite.
    - [Timer] (host/descriptor/timer.c) - timers and the callbacks they give
      to the scheduler, with a relation that interleaves calls, time and
      callbacks.
    - [TimerFd] (host/syscall/timerfd.c, protected.c) - the timer system calls
      and the timer that bounds a blocking call.
    - [EventD] (host/descriptor/eventd.c, host/syscall/eventfd.c) - counters.
    - [ByteQueue] (utility/byte_queue.rs) - the chunked byte buffer, behind
      the class [QueueLaws].
    - [Channel] (host/descriptor/channel.c, socketpair and pipe in
      host/syscall) - linked channels in a store, for any lawful byte queue.
    - [Futex] (host/futex.c, futex_table.c, syscall/futex.c) - futexes over
      the world of listeners.
    - [Socket] (host/descriptor/socket.c) - what sockets share: names and the
      queues of packets, as references into the store, with their sizes.
    - [Udp] (host/descriptor/udp.c) - datagrams over [Socket].
    - [CompatSocket] (compat_socket.c, utility/tagged_ptr.c,
      host/network_queuing_disciplines.c) - tagged pointers to sockets,
      dispatch through a table of operations with the laws [SocketLaws], and
      the queues of sockets that want to send, with the laws
      [DisciplineLaws].
    - [SocketWorld] - the account of who owns the references to packets and
      sockets, which the interface's operations keep.
    - [Inet] (worker_sendPacket of core/worker.c, utility/random.c) - loss,
      latency and the copy that arrives.
    - [NetworkInterface] (host/network_interface.c) - token buckets, refills,
      the table of associations, receiving and sending, for any lawful
      sockets, disciplines and router queues.
    - [InterfaceSafety] - the invariant of the interface, and the relation
      that interleaves its operations with the rest of its host.
    - [Reno] (host/descriptor/tcp_cong_reno.c) - the congestion window of TCP.
    - [Tally] (host/descriptor/tcp_retransmit_tally.cc) - what a TCP socket
      believes is lost: sorted vectors of ranges of sequence numbers.
    - [Epoll] (host/descriptor/epoll.c, what it calls of descriptor/mod.rs) -
      epoll instances over the world of descriptors and listeners; the
      callback of an instance's listener is the instance's own function.
    - [EpollNotify] - the agreement of tables, watches and statuses, and that
      it survives a status change that runs through nested instances.
    - [EpollSafety] - sequences of operations on instances, and the abstract
      registrations that they refine.
    - [EpollCalls] (host/syscall/epoll.c) - the epoll system calls.
    - [Condition] (host/syscall_condition.c, and of host/thread.c and
      host/process.c what blocks, continues and exits) - the conditions of
      blocked threads over the world of descriptors, files and futexes.
    - [ConditionSafety] - conditions, listeners and objects seen alike, the
      invariant of their references, and releasing a condition.
    - [ConditionRuns] - what each step does to the invariant: blocking, status
      changes, wake-ups, tasks, exits.
    - [Blocking] - runs of these steps in any order.
    - [Buddy] (shmem/buddy.c, buddy.h, shmem_util.c) - the buddy allocator over
      the words of its pool, with packed control blocks.
    - [BuddyLists] - the free lists as segments of memory, and what inserting
      and removing a block does to them.
    - [BuddyPool] - the tiling of a pool that the allocator implements, and a
      client that writes into its blocks as it likes.
    - [CString] - decimal numbers and the C library's string functions.
    - [ShmFile] (shmem/shmem_file.c, shmem_cleanup.c) - shared memory files
      and the removal of those whose process is gone.
    - [ShmAllocator] (shmem/shmem_allocator.c) - blocks in pools or in files of
      their own, and how they cross to other processes.
    - [ShmSafety] - the invariant of the allocator over sequences of
      operations, and the round trip of a block through another process.

    ** Conventions

    A C integer is a [Z] with the wrap-around of its type ([u32], [u64],
    [i32]) written where the source can overflow; enumerations and structures
    are inductive types and records with the source's names.  [option] is
    failure: [None] is a failed assertion, a panic or an access to freed
    memory.  Objects that the code shares by pointer live in finite maps by
    address (packets, events, listeners, channels, futexes).  Callbacks, the
    memory of the managed process, numbers of the descriptor table, the
    iteration order of a hash table and [realloc]'s choice of an address are
    parameters, with their documented behaviour as named hypotheses where a
    theorem needs it.  Loops that are not structural carry fuel: the sift
    loops of the heap move one level per step, CoDel's loop drops a packet per
    step, the byte queue moves a byte or makes a chunk per step; the theorems
    are about the results for the fuel the definitions use, so running out is
    excluded.

    ** What the theorems show

    - Rounds: whatever the interleaving, no call fails, every host runs its
      events in time order ([rounds_safe]), every accepted event is run or lies
      at the end time ([rounds_complete]), windows move to exactly the first
      waiting event ([round_window]) and are finitely many
      ([rounds_terminate]); packets within the lookahead are not postponed.
    - Scheduling: no interleaving violates the policy's assertions or puts an
      event before its host's past ([scheduler_safe]); a pop gives the least
      event before the barrier and loses no host; pushes, next-event times and
      the heap underneath are exact ([drain_sorted], [push_correct],
      [pop_correct]); the event order is total and decides the order of
      execution whatever the order of insertion.  The three thread policies
      answer alike any sequence of calls with thread numbers below 2^32 in
      which no round begins with events in a mailbox
      ([thread_policies_equivalent]), and
      lose no event in their mailboxes, provided a thread asks for its next
      time between rounds, which the scheduler does not ensure
      ([mailbox_policies_lose_event]).  Stealing threads never run a host
      twice or lose one ([steal_safe]), complete every round
      ([steal_round_complete]), and never wait for each other for ever
      ([steal_pop_returns]).
    - Network: packets and payloads are never used after free nor leaked: the
      account [held] says that every reference count is exactly the number of
      its owners ([packet_store_safe]; a payload whose copy into a process
      fails stays locked); copies, header accessors and the three queues do
      what they promise; a router loses nothing without dropping it by its
      rules ([router_conservation]); Reno's handlers always return, with
      a window that never wraps or reaches zero; the retransmission tally,
      whenever it counts anew, reports exactly what it was told to be lost and
      neither acknowledged nor sent again, for sequence numbers that have not
      wrapped and fit a signed integer ([tally_sound]; the loop of a
      subtraction does at most two rounds per range and a third at its end).
    - Descriptors: timers expire exactly on time, under any interleaving of
      non-negative settings they keep one live callback and a readable bit that mirrors the unread
      expirations; eventfds conserve their counter; a pair of channels refines
      two bounded queues, and aborts exactly when an end of a pipe is used in
      the wrong direction; a byte queue refines a list; a status change calls
      exactly the listeners it concerns.
    - Sockets: packets leave a socket's queues in order, control packets
      first; the byte counts are exact and no reference is lost
      ([socket_buffers_safe]); a datagram arrives as it was sent
      ([udp_datagram_roundtrip]).
    - Interfaces: whatever the interleaving with the rest of the host, every
      reference to a packet or a socket is accounted for; receiving succeeds,
      and sending does where what waits is local or routable
      ([interface_safe]); what leaves the queues and what is taken from the
      router stays within the bandwidth once bootstrapping is over, a packet
      counting as at most one MTU ([interface_rate_limit]; the ghost fields
      [sent] and [received] record every packet, whatever the bucket says); a refill is on its way
      while a bucket has room ([interface_refills_pending]); an association
      changes the destination of exactly its packets
      ([associate_demultiplexes]); a packet is lost or copied by the rules of
      its path ([worker_sendPacket_correct]).
    - Epoll: an instance is readable exactly when it has something to report,
      and a level-triggered watch is reported exactly while its event is
      present, through any nesting of instances ([epoll_ready]); the calls
      implement epoll_ctl, but for the result of an unknown operation, and
      epoll_wait ([epoll_control_refines], [epoll_wait_returns]) and report in a fair order
      ([epoll_getEvents_order]).  The fuel of [notify] is the nesting depth;
      the rank of an object that the theorems assume says that instances do
      not watch each other in a circle.
    - Blocked threads: no allowed sequence of blocking calls, status changes,
      wake-ups, tasks and exits fails, and every reference is accounted for
      ([conditions_safe]); a thread that waits for a status has a task
      whenever the status is there, if it has been absent at some time since
      the thread blocked ([no_lost_wakeup]; [blocked_while_present] is the
      other case); a task continues its thread exactly when its own flag, the
      futex or the status says so, and nothing is left of the condition then
      ([task_outcome]).
    - Shared memory: no use of a pool with requests of at most twice its size
      makes an operation fail, gives memory out twice or changes what others
      have written ([heap_safe]); such an allocation takes the smallest block that is large enough
      ([buddy_alloc_refines]) and freeing everything gives the new pool back
      ([all_freed_restores]); the same for allocations, frees and
      writes over all pools and large blocks, with what destroying an
      allocator does after them ([shm_alloc_safe]); a block is the same bytes in every process
      ([shm_block_crosses]); cleaning up removes exactly what dead processes
      left ([cleanup_exact]).  The fuel of a list scan is the number of words
      of the memory, of a split or join loop the number of orders left.
    - System calls: settings, waits and wakes have their effect, refusals have
      none and come in a fixed order.
    - Places where the code does not do what it means to are theorems as well:
      [codel_control_law_in_past], [timer_negative_seconds],
      [empty_datagram_not_readable], [unreadable_buffer_is_sent],
      [channel_waiters_not_woken], [futex_zero_timeout_blocks],
      [thread_ids_are_truncated], [oversized_packet_underpaid],
      [loopback_consumes_bandwidth], [edge_wait_does_not_block],
      [unknown_operation_ignored], [buddy_alloc_too_large],
      [only_first_pool], [destroyNoShmDelete_reads_freed],
      [exit_before_task], [timeout_lost], [blocked_while_present],
      [sacked_upper_half].

    ** What is not modelled

    Native processes and threads (ptrace, preload, their IPC), files, logging,
    configuration and capture are I/O; topology rests on an external graph
    library; the Rust parts are another language, except the byte queue.
    Performance timers, allocation counters, log messages and the magic
    numbers of [MAGIC_ASSERT] are left out everywhere.  Locks are left out
    where one operation holds them throughout; the interleavings modelled are
    those of whole operations.

    ** Plan

    Next comes TCP, which will be another table of socket operations for
    [CompatSocket]. *)

From stdpp Require Export base tactics list numbers option gmap fin_maps sets strings.
From stdpp Require Export sorting.
From Stdlib Require Export ZArith Lia.

Global Open Scope Z_scope.

#[global] Arguments Nat.div : simpl never.
#[global] Arguments Nat.modulo : simpl never.
#[global] Arguments Nat.mul : simpl never.
#[global] Arguments Nat.sub : simpl nomatch.

(** ** Machine integers

    A C integer is a [Z] together with the wrap-around of its type, written
    out where the source can overflow. *)

Definition wrap (w z : Z) : Z := z mod 2 ^ w.
Definition u8 (z : Z) : Z := wrap 8 z.
Definition u16 (z : Z) : Z := wrap 16 z.
Definition u32 (z : Z) : Z := wrap 32 z.
Definition u64 (z : Z) : Z := wrap 64 z.
Definition swrap (w z : Z) : Z := (z + 2 ^ (w - 1)) mod 2 ^ w - 2 ^ (w - 1).
Definition i32 (z : Z) : Z := swrap 32 z.
Definition i64 (z : Z) : Z := swrap 64 z.

Definition UINT32_MAX : Z := 2 ^ 32 - 1.
Definition UINT64_MAX : Z := 2 ^ 64 - 1.
Definition INT32_MAX : Z := 2 ^ 31 - 1.

(** Byte order of a little-endian machine (arpa/inet.h). *)
Definition bswap16 (z : Z) : Z :=
  Z.lor (Z.shiftl (Z.land z 255) 8) (Z.land (Z.shiftr z 8) 255).
Definition bswap32 (z : Z) : Z :=
  Z.lor (Z.shiftl (bswap16 (Z.land z 65535)) 16) (bswap16 (Z.land (Z.shiftr z 16) 65535)).
Definition htons : Z → Z := bswap16.
Definition ntohs : Z → Z := bswap16.
Definition htonl : Z → Z := bswap32.
Definition ntohl : Z → Z := bswap32.

(** ** Bit flags *)

Definition has_flag (flags bit : Z) : bool := negb (Z.land flags bit =? 0).
Definition set_flags (flags bits : Z) : Z := Z.lor flags bits.
Definition clear_flags (flags bits : Z) : Z := Z.ldiff flags bits.

(** ** Error numbers (asm-generic/errno.h) *)

Definition EBADF : Z := 9.
Definition EAGAIN : Z := 11.
Definition EWOULDBLOCK : Z := EAGAIN.
Definition EFAULT : Z := 14.
Definition EINVAL : Z := 22.
Definition EPIPE : Z := 32.
Definition ENOSYS : Z := 38.
Definition ETIMEDOUT : Z := 110.

(** ** Simulation time (src/phantom/src/main/core/support/definitions.h) *)

Definition SIMTIME_INVALID : Z := UINT64_MAX.
Definition SIMTIME_MAX : Z := UINT64_MAX - 1.
Definition SIMTIME_ONE_MICROSECOND : Z := 1000.
Definition SIMTIME_ONE_MILLISECOND : Z := 1000000.
Definition SIMTIME_ONE_SECOND : Z := 1000000000.
Definition EMULATED_TIME_OFFSET : Z := 946684800 * SIMTIME_ONE_SECOND.
Definition EMULATED_TIME_TO_SIMULATED_TIME (emtime : Z) : Z := u64 (emtime - EMULATED_TIME_OFFSET).

(** ** Facts about machine integers *)

Lemma wrap_small w z : 0 ≤ z < 2 ^ w → wrap w z = z.
Proof. apply Z.mod_small. Qed.

Lemma wrap_range w z : 0 ≤ w → 0 ≤ wrap w z < 2 ^ w.
Proof. intros. apply Z.mod_pos_bound. by apply Z.pow_pos_nonneg. Qed.

Lemma u32_small z : 0 ≤ z < 2 ^ 32 → u32 z = z.
Proof. apply wrap_small. Qed.

Lemma u64_small z : 0 ≤ z < 2 ^ 64 → u64 z = z.
Proof. apply wrap_small. Qed.

Lemma u32_range z : 0 ≤ u32 z < 2 ^ 32.
Proof. by apply wrap_range. Qed.

Lemma u64_range z : 0 ≤ u64 z < 2 ^ 64.
Proof. by apply wrap_range. Qed.

Lemma i32_range z : - 2 ^ 31 ≤ i32 z < 2 ^ 31.
Proof.
  unfold i32, swrap. pose proof (Z.mod_pos_bound (z + 2 ^ (32 - 1)) (2 ^ 32) ltac:(done)) as H.
  change (2 ^ 31) with (2 ^ (32 - 1)). lia.
Qed.

Lemma i32_small z : - 2 ^ 31 ≤ z < 2 ^ 31 → i32 z = z.
Proof. intros H. unfold i32, swrap. change (2 ^ (32 - 1)) with (2 ^ 31). rewrite Z.mod_small; [lia|]. change (2 ^ 32) with (2 ^ 31 + 2 ^ 31). lia. Qed.

(** Normal forms for sums in modular arithmetic. *)
Lemma u64_add_l a b : u64 (u64 a + b) = u64 (a + b).
Proof. unfold u64, wrap. apply Zplus_mod_idemp_l. Qed.

Lemma u64_sub_l a b : u64 (u64 a - b) = u64 (a - b).
Proof. unfold u64, wrap. apply Zminus_mod_idemp_l. Qed.

Lemma u32_add_l a b : u32 (u32 a + b) = u32 (a + b).
Proof. unfold u32, wrap. apply Zplus_mod_idemp_l. Qed.

Create HintDb width.
Create Rewrite HintDb wrap.
#[export] Hint Rewrite u64_add_l u64_sub_l u32_add_l : wrap.
#[export] Hint Resolve u32_range u64_range : width.

(** Drops the wrap-around of terms [lia] can bound. *)
Ltac wrap_lia :=
  repeat first [ rewrite u64_small in * by lia | rewrite u32_small in * by lia ]; try lia.

(** Case analysis on the integer comparisons of the goal, innermost first. *)
Ltac no_test t := lazymatch t with context [if _ then _ else _] => fail | _ => idtac end.

Ltac compare_cases :=
  repeat (match goal with
          | |- context [?a <? ?b] => no_test a; no_test b; destruct (Z.ltb_spec a b)
          | |- context [?a <=? ?b] => no_test a; no_test b; destruct (Z.leb_spec a b)
          | |- context [?a =? ?b] => no_test a; no_test b; destruct (Z.eqb_spec a b)
          end; cbv beta iota).

(** Inclusions between concatenations of lists. *)
Ltac solve_app_sub := let x := fresh in intros x; rewrite ?elem_of_app, ?elem_of_cons; clear; tauto.

(** ** Facts about flags *)

Lemma has_flag_testbit flags k : 0 ≤ k → has_flag flags (2 ^ k) = Z.testbit flags k.
Proof.
  intros Hk. unfold has_flag. destruct (Z.testbit flags k) eqn:E.
  - apply negb_true_iff, Z.eqb_neq. intros H0.
    apply (f_equal (λ z, Z.testbit z k)) in H0.
    rewrite Z.land_spec, Z.bits_0, E, Z.pow2_bits_true in H0 by done. done.
  - apply negb_false_iff, Z.eqb_eq. apply Z.bits_inj_0. intros n.
    rewrite Z.land_spec, Z.pow2_bits_eqb by done.
    destruct (Z.eqb_spec k n) as [->|]; [by rewrite E|apply andb_false_r].
Qed.

Lemma has_flag_set f j k : 0 ≤ j → 0 ≤ k →
  has_flag (set_flags f (2 ^ j)) (2 ^ k) = (j =? k) || has_flag f (2 ^ k).
Proof.
  intros. rewrite !has_flag_testbit by done. unfold set_flags.
  rewrite Z.lor_spec, Z.pow2_bits_eqb by done. apply orb_comm.
Qed.

Lemma has_flag_set_same f bits : bits ≠ 0 → has_flag (set_flags f bits) bits = true.
Proof.
  intros Hb. unfold has_flag, set_flags. rewrite Z.land_lor_distr_l, Z.land_diag.
  apply negb_true_iff, Z.eqb_neq. intros [_ ?]%Z.lor_eq_0_iff. done.
Qed.

Lemma has_flag_clear f j k : 0 ≤ j → 0 ≤ k →
  has_flag (clear_flags f (2 ^ j)) (2 ^ k) = negb (j =? k) && has_flag f (2 ^ k).
Proof.
  intros. rewrite !has_flag_testbit by done. unfold clear_flags.
  rewrite Z.ldiff_spec, Z.pow2_bits_eqb by done. apply andb_comm.
Qed.

(** ** Record update

    [r <| f := v |>] replaces field [f] of [r].  A record type [R] that wants
    it declares the one instance [eta := fun r => Build_R (f1 r) ... (fn r)]. *)

Class Eta (R : Type) := eta : R → R.
Class Setter {R T : Type} (f : R → T) := set_field : (T → T) → R → R.
Global Arguments set_field {R T} f {_} _ _.

Ltac solve_setter :=
  lazymatch goal with
  | |- @Setter ?R ?T ?f =>
      let g := fresh "g" in let r := fresh "r" in
      intros g r;
      lazymatch constr:(@eta R _) with
      | @eta _ ?inst =>
          let h := eval red in (inst r) in
          lazymatch eval pattern (f r) in h with
          | ?k _ => let v := eval cbv beta in (k (g (f r))) in exact v
          end
      end
  end.

#[export] Hint Extern 1 (Setter _) => solve_setter : typeclass_instances.

Declare Scope field_scope.
Delimit Scope field_scope with field.
Notation "r <| f := v |>" := (set_field f (λ _, v) r)
  (at level 1, f at next level, v at level 200, left associativity,
   format "r  <| f  :=  v |>").
