(* ===== verification/Float64.v ===== *)
(** * IEEE-754 binary64 arithmetic

    The C [double] (glib's [gdouble]) of the sources, as the executable
    specification of the Standard Library ([SpecFloat] at precision 53 and
    exponent bound 1024, rounding to nearest even), with the conversions and
    the libm functions the sources call. *)

From S2P Require Import Prelude.
From Stdlib Require Import Floats.SpecFloat.

Module F64.

Definition double : Type := spec_float.

Definition of_Z (z : Z) : double := binary_normalize 53 1024 z 0 false.
Definition add : double → double → double := SFadd 53 1024.
Definition mul : double → double → double := SFmul 53 1024.
Definition div : double → double → double := SFdiv 53 1024.
Definition sqrt : double → double := SFsqrt 53 1024.
Definition gtb (x y : double) : bool := SFltb y x.
Definition leb (x y : double) : bool := SFleb x y.
Definition eqb (x y : double) : bool := SFeqb x y.

(** Integer part, rounded toward zero; [None] for infinities and NaN. *)
Definition trunc (x : double) : option Z :=
  match x with
  | S754_zero _ => Some 0
  | S754_finite s m e =>
      let a := if 0 <=? e then Zpos m * 2 ^ e else Zpos m / 2 ^ (- e) in
      Some (if s then - a else a)
  | _ => None
  end.

(** The C conversion to [uint64_t]; [None] where the conversion is undefined. *)
Definition to_u64 (x : double) : option Z :=
  z ← trunc x; if (0 <=? z) && (z <? 2 ^ 64) then Some z else None.

(** [round(3)]: to the nearest integer, halfway cases away from zero. *)
Definition round (x : double) : double :=
  match x with
  | S754_finite s m e =>
      if 0 <=? e then x
      else
        let a := (Zpos m + 2 ^ (- e - 1)) / 2 ^ (- e) in
        binary_normalize 53 1024 (if s then - a else a) 0 s
  | _ => x
  end.

(** [ceil(3)] *)
Definition ceil (x : double) : double :=
  match x with
  | S754_finite s m e =>
      if 0 <=? e then x
      else binary_normalize 53 1024 (- ((if s then Zpos m else - Zpos m) / 2 ^ (- e))) 0 s
  | _ => x
  end.

End F64.
