(* ===== verification/Cpu.v ===== *)
(** * The virtual CPU of a host (src/phantom/src/main/host/cpu.c)

    Execution delays accumulate in [timeCPUAvailable]; the host's events are
    blocked while the accumulated delay exceeds the threshold. *)

From S2P Require Import Prelude Float64.

Module Cpu.

Record CPU := mkCPU {
  frequencyKHz : Z;
  rawFrequencyKHz : Z;
  frequencyRatio : F64.double;
  threshold : Z;
  precision : Z;
  now : Z;
  timeCPUAvailable : Z;
}.

#[export] Instance cpu_eta : Eta CPU := fun c =>
  mkCPU (frequencyKHz c) (rawFrequencyKHz c) (frequencyRatio c) (threshold c) (precision c)
    (now c) (timeCPUAvailable c).

(** [None]: a [utility_assert] fails. *)
Definition cpu_new (frequencyKHz rawFrequencyKHz threshold precision : Z) : option CPU :=
  if (0 <? frequencyKHz) && (0 <? rawFrequencyKHz) then
    Some {| frequencyKHz := frequencyKHz;
            rawFrequencyKHz := rawFrequencyKHz;
            frequencyRatio := F64.div (F64.of_Z rawFrequencyKHz) (F64.of_Z frequencyKHz);
            threshold := if 0 <? threshold then u64 (threshold * SIMTIME_ONE_MICROSECOND)
                         else SIMTIME_INVALID;
            precision := if 0 <? precision then u64 (precision * SIMTIME_ONE_MICROSECOND)
                         else SIMTIME_INVALID;
            now := 0;
            timeCPUAvailable := 0 |}
  else None.

Definition cpu_getDelay (c : CPU) : Z :=
  let builtUpDelay := u64 (timeCPUAvailable c - now c) in
  if threshold c <? builtUpDelay then builtUpDelay else 0.

Definition cpu_isBlocked (c : CPU) : bool :=
  if threshold c =? SIMTIME_INVALID then false else 0 <? cpu_getDelay c.

Definition cpu_updateTime (c : CPU) (t : Z) : CPU :=
  c <| now := t |> <| timeCPUAvailable := Z.max (timeCPUAvailable c) t |>.

(** The delay after rounding to the CPU's precision. *)
Definition round_to_precision (p adjustedDelay : Z) : Z :=
  if p =? SIMTIME_INVALID then adjustedDelay
  else
    let remainder := adjustedDelay mod p in
    let adjustedDelay := u64 (adjustedDelay - remainder) in
    let halfPrecision := p / 2 in
    if halfPrecision <=? remainder then u64 (adjustedDelay + p) else adjustedDelay.

(** [None]: the scaled delay does not fit 64 bits (undefined conversion). *)
Definition cpu_addDelay (c : CPU) (delay : Z) : option CPU :=
  adjustedDelay ← F64.to_u64 (F64.mul (frequencyRatio c) (F64.of_Z delay));
  Some (c <| timeCPUAvailable :=
               u64 (timeCPUAvailable c + round_to_precision (precision c) adjustedDelay) |>).

(** ** Specification *)

(** The CPU never becomes available before the current time, and all times are
    64-bit. *)
Definition time_ok (c : CPU) : Prop :=
  0 ≤ now c ≤ timeCPUAvailable c ∧ timeCPUAvailable c < 2 ^ 64.

Lemma getDelay_ok c :
  time_ok c →
  cpu_getDelay c = if threshold c <? timeCPUAvailable c - now c
                   then timeCPUAvailable c - now c else 0.
Proof. intros [? ?]. unfold cpu_getDelay. rewrite u64_small by lia. done. Qed.

(** After the clock advances to an event's time, the CPU is blocked exactly
    when the delay built up beyond that time exceeds the threshold; the delay
    reported then is that built-up delay (no 64-bit underflow), and retrying
    the event after it finds the CPU free. *)
Theorem updateTime_blocked c t :
  time_ok c → 0 ≤ t < 2 ^ 64 → 0 ≤ threshold c →
  let c' := cpu_updateTime c t in
  time_ok c' ∧
  (cpu_isBlocked c' = true ↔
     threshold c ≠ SIMTIME_INVALID ∧ threshold c < timeCPUAvailable c - t) ∧
  (cpu_isBlocked c' = true → cpu_getDelay c' = timeCPUAvailable c - t) ∧
  cpu_isBlocked (cpu_updateTime c' (t + cpu_getDelay c')) = false.
Proof.
  intros [Hn Ht] Htime Hth c'.
  assert (Hok : time_ok c') by (unfold c', time_ok; simpl; lia).
  assert (Hd : cpu_getDelay c' = if threshold c <? timeCPUAvailable c - t
                                 then timeCPUAvailable c - t else 0).
  { rewrite getDelay_ok by done. unfold c'; simpl.
    destruct (Z.max_spec (timeCPUAvailable c) t) as [[? ->]|[? ->]]; [|done].
    destruct (Z.ltb_spec (threshold c) (t - t)), (Z.ltb_spec (threshold c) (timeCPUAvailable c - t));
      lia. }
  assert (Hb : cpu_isBlocked c' = true ↔
    threshold c ≠ SIMTIME_INVALID ∧ threshold c < timeCPUAvailable c - t).
  { unfold cpu_isBlocked. rewrite Hd. simpl.
    destruct (Z.eqb_spec (threshold c) SIMTIME_INVALID); [split; [done|tauto]|].
    destruct (Z.ltb_spec (threshold c) (timeCPUAvailable c - t)).
    - rewrite Z.ltb_lt. split; [auto|lia].
    - split; [done|lia]. }
  split_and!; [done|done| |].
  - intros [_ Hlt]%Hb. rewrite Hd. by apply Z.ltb_lt in Hlt as ->.
  - unfold cpu_isBlocked. simpl. destruct (threshold c =? SIMTIME_INVALID); [done|].
    apply Z.ltb_ge. rewrite getDelay_ok.
    + rewrite Hd. simpl.
      destruct (Z.ltb_spec (threshold c) (timeCPUAvailable c - t)); case_match eqn:E;
        try lia; apply Z.ltb_lt in E; lia.
    + unfold time_ok; simpl. rewrite Hd. destruct (threshold c <? _); lia.
Qed.

Lemma updateTime_blocked_witness :
  ∃ c, cpu_new 1000 1000 5 1 = Some c ∧
    (c0 ← cpu_addDelay c 20000; Some (cpu_isBlocked (cpu_updateTime c0 10000))) = Some true ∧
    cpu_isBlocked (cpu_updateTime (cpu_updateTime c 10) (10 + cpu_getDelay (cpu_updateTime c 10)))
      = false.
Proof.
  eexists. split; [reflexivity|split; [vm_compute; reflexivity|]].
  eapply (updateTime_blocked (mkCPU 1000 1000 _ 5000 1000 0 0) 10);
    [split; simpl; lia|lia|simpl; lia].
Defined.

(** For the even precisions [cpu_new] produces, rounding a delay gives a
    multiple of the precision, and no other multiple is nearer to the delay;
    a delay half way between two multiples is rounded up. *)
Theorem round_to_precision_nearest p d k :
  0 < p < 2 ^ 63 → Z.even p = true → 0 ≤ d < 2 ^ 63 →
  ∃ n, round_to_precision p d = n * p ∧ Z.abs (n * p - d) ≤ Z.abs (k * p - d) ∧
       (2 * (d mod p) = p → d < n * p).
Proof.
  intros Hp [h Hh]%Z.even_spec Hd. unfold round_to_precision.
  destruct (Z.eqb_spec p SIMTIME_INVALID) as [->|_]; [unfold SIMTIME_INVALID, UINT64_MAX in *; lia|].
  pose proof (Z.div_mod d p ltac:(lia)) as Hdm. pose proof (Z.mod_pos_bound d p ltac:(lia)).
  assert (p / 2 = h) as -> by (subst p; rewrite Z.mul_comm; apply Z.div_mul; lia).
  assert (0 ≤ d / p) by (apply Z.div_pos; lia).
  assert (0 ≤ p * (d / p)) by (apply Z.mul_nonneg_nonneg; lia).
  rewrite (u64_small (d - d mod p)) by lia.
  assert (Hnear : k ≤ d / p ∧ k * p ≤ p * (d / p) ∨ d / p + 1 ≤ k ∧ p * (d / p) + p ≤ k * p).
  { destruct (Z.le_gt_cases k (d / p)) as [Hle|Hle].
    - left. split; [done|]. rewrite (Z.mul_comm p). apply Z.mul_le_mono_nonneg_r; lia.
    - right. split; [lia|]. replace (p * (d / p) + p) with ((d / p + 1) * p) by lia.
      apply Z.mul_le_mono_nonneg_r; lia. }
  destruct (Z.leb_spec h (d mod p)).
  - exists (d / p + 1). rewrite u64_small by lia. split_and!; lia.
  - exists (d / p). split_and!; lia.
Qed.

Lemma round_to_precision_nearest_witness :
  ∃ n, round_to_precision 200000 1234567 = n * 200000 ∧
    Z.abs (n * 200000 - 1234567) ≤ Z.abs (7 * 200000 - 1234567).
Proof.
  destruct (round_to_precision_nearest 200000 1234567 7) as (n & Hn & Hle & _);
    [lia|reflexivity|lia|].
  exists n. by split.
Defined.

End Cpu.
