(* ===== verification/PriorityQueue.v ===== *)
(** * The binary-heap priority queue (src/phantom/src/main/utility/priority_queue.c)

    The queue keeps an array of [gpointer] entries arranged as a binary heap
    and a hash table from each entry to the address of the array slot that
    holds it.  The table stores addresses, so it goes stale when [g_renew]
    moves the array; a slot address is modelled as the block it points into
    together with the slot's index, and the allocator that decides whether the
    block moves is a parameter.  Indices are natural numbers: the code's
    32-bit indices agree with them while the queue holds fewer than [2^31]
    entries. *)

From S2P Require Import Prelude.

Module PQ.

Definition INITIAL_SIZE : nat := 100.

(** A slot address: the heap block and the index within it. *)
Abbreviation slot := (Z * nat)%type.

Record PriorityQueue := mkPQ {
  heapBlock : Z;              (* address of the block [heap] points to *)
  heap : list Z;              (* the [heapSize] slots of that block *)
  map : gmap Z slot;
  size : nat;
  heapSize : nat;
}.

#[export] Instance pq_eta : Eta PriorityQueue := fun q =>
  mkPQ (heapBlock q) (heap q) (map q) (size q) (heapSize q).

Section Operations.

(** [compareFunc] closes over [compareData]; [hasFreeFunc] says whether a
    [freeFunc] was given; [g_renew] returns the block a reallocation of the
    given block to the given number of slots ends up in. *)
Context (compareFunc : Z → Z → Z) (hasFreeFunc : bool) (g_renew : Z → nat → Z).

Definition priorityqueue_new (block : Z) : PriorityQueue :=
  mkPQ block (replicate INITIAL_SIZE 0) ∅ 0 INITIAL_SIZE.

(** Also returns the entries passed to [freeFunc], in order. *)
Definition priorityqueue_clear (q : PriorityQueue) : PriorityQueue * list Z :=
  let freed := if hasFreeFunc then take (size q) (heap q) else [] in
  let slots :=
    if hasFreeFunc then replicate (size q) 0 ++ drop (size q) (heap q) else heap q in
  (q <| heap := slots |> <| size := 0%nat |> <| map := ∅ |>, freed).

Definition priorityqueue_getLength (q : PriorityQueue) : nat := size q.

Definition priorityqueue_isEmpty (q : PriorityQueue) : bool := (size q =? 0)%nat.

Definition _priorityqueue_refresh_map (q : PriorityQueue) : PriorityQueue :=
  q <| map := foldl (λ m i, <[heap q !!! i := (heapBlock q, i)]> m) ∅ (seq 0 (size q)) |>.

Definition _priorityqueue_swap_entries (q : PriorityQueue) (i j : nat) : PriorityQueue :=
  let pi := heap q !!! i in
  let pj := heap q !!! j in
  q <| heap := <[j := pi]> (<[i := pj]> (heap q)) |>
    <| map := <[pj := (heapBlock q, i)]> (<[pi := (heapBlock q, j)]> (map q)) |>.

Definition _priorityqueue_entry_smaller (q : PriorityQueue) (i j : nat) : bool :=
  compareFunc (heap q !!! i) (heap q !!! j) <? 0.

(** [while ((index > 0) && smaller(index, (index-1)/2))]; the index at least
    halves, so [index] iterations are enough fuel. *)
Fixpoint heapify_up_loop (fuel : nat) (q : PriorityQueue) (index : nat) : PriorityQueue * nat :=
  match fuel with
  | O => (q, index)
  | S fuel =>
      let parent := ((index - 1) / 2)%nat in
      if (0 <? index)%nat && _priorityqueue_entry_smaller q index parent
      then heapify_up_loop fuel (_priorityqueue_swap_entries q index parent) parent
      else (q, index)
  end.

Definition _priorityqueue_heapify_up (q : PriorityQueue) (index : nat) : PriorityQueue * nat :=
  heapify_up_loop index q index.

(** The child that [heapify_down] compares with its parent. *)
Definition smaller_child (q : PriorityQueue) (index : nat) : nat :=
  let child := (2 * index + 1)%nat in
  if (child + 1 <? size q)%nat && _priorityqueue_entry_smaller q (child + 1) child
  then (child + 1)%nat else child.

(** [while ((child = 2*index+1) < size)]; the index grows on every iteration. *)
Fixpoint heapify_down_loop (fuel : nat) (q : PriorityQueue) (index : nat) : PriorityQueue * nat :=
  match fuel with
  | O => (q, index)
  | S fuel =>
      if (2 * index + 1 <? size q)%nat then
        let child := smaller_child q index in
        if _priorityqueue_entry_smaller q child index
        then heapify_down_loop fuel (_priorityqueue_swap_entries q index child) child
        else (q, index)
      else (q, index)
  end.

Definition _priorityqueue_heapify_down (q : PriorityQueue) (index : nat) : PriorityQueue * nat :=
  heapify_down_loop (size q) q index.

(** [g_renew] of the heap to [n] slots, followed by the refresh of the map
    when the block moved. *)
Definition resize_heap (q : PriorityQueue) (n : nat) : PriorityQueue :=
  let oldheap := heapBlock q in
  let q := q <| heapSize := n |> in
  let q := q <| heapBlock := g_renew oldheap n |> <| heap := resize n 0 (heap q) |> in
  if negb (heapBlock q =? oldheap) then _priorityqueue_refresh_map q else q.

(** [None]: the pointer difference [oldentry - q->heap] would be taken between
    two different blocks, which is undefined. *)
Definition priorityqueue_push (q : PriorityQueue) (data : Z) : option (PriorityQueue * bool) :=
  let q := if (heapSize q <=? size q)%nat then resize_heap q (heapSize q * 2) else q in
  match map q !! data with
  | Some (block, oldindex) =>
      if block =? heapBlock q then
        let '(q, i) := _priorityqueue_heapify_down q oldindex in
        let '(q, _) := _priorityqueue_heapify_up q i in
        Some (q, false)
      else None
  | None =>
      let index := size q in
      let q := q <| heap := <[index := data]> (heap q) |>
                 <| map := <[data := (heapBlock q, index)]> (map q) |>
                 <| size := S (size q) |> in
      let '(q, _) := _priorityqueue_heapify_up q index in
      Some (q, true)
  end.

(** [0] stands for [NULL]. *)
Definition priorityqueue_peek (q : PriorityQueue) : Z :=
  if (0 <? size q)%nat then heap q !!! 0%nat else 0.

(** [None]: [*entry] would be read through an address of a dead block. *)
Definition priorityqueue_find (q : PriorityQueue) (data : Z) : option Z :=
  match map q !! data with
  | None => Some 0
  | Some (block, i) => if block =? heapBlock q then heap q !! i else None
  end.

Definition priorityqueue_pop (q : PriorityQueue) : PriorityQueue * Z :=
  if (0 <? size q)%nat then
    let data := heap q !!! 0%nat in
    let q := _priorityqueue_swap_entries q 0 (size q - 1) in
    let q := q <| map := delete data (map q) |> <| size := (size q - 1)%nat |> in
    let '(q, _) := _priorityqueue_heapify_down q 0 in
    let q :=
      if (INITIAL_SIZE <? heapSize q)%nat && (size q * 4 <? heapSize q)%nat
      then resize_heap q (heapSize q / 2) else q in
    (q, data)
  else (q, 0).

(** The client loop [while (!isEmpty(q)) ... pop(q)]. *)
Fixpoint drain_loop (fuel : nat) (q : PriorityQueue) : list Z :=
  match fuel with
  | O => []
  | S fuel =>
      if priorityqueue_isEmpty q then []
      else let '(q, data) := priorityqueue_pop q in data :: drain_loop fuel q
  end.

Definition drain (q : PriorityQueue) : list Z := drain_loop (size q) q.

End Operations.

(** ** Specification *)

(** The entries of the queue, in array order. *)
Definition elements (q : PriorityQueue) : list Z := take (size q) (heap q).

(** Well-formedness: the array has the recorded capacity, and the map sends
    exactly the stored entries to the current address of their slot. *)
Record wf (q : PriorityQueue) : Prop := {
  wf_length : length (heap q) = heapSize q;
  wf_size : (size q ≤ heapSize q)%nat;
  wf_capacity : (0 < heapSize q)%nat;
  wf_map : ∀ p e, map q !! p = Some e ↔
    ∃ i, (i < size q)%nat ∧ heap q !! i = Some p ∧ e = (heapBlock q, i);
}.

(** What a comparison function promises the queue: its sign decides a total
    preorder.  It may report equal keys as smaller. *)
Class HeapCompare (compareFunc : Z → Z → Z) (le : Z → Z → Prop) : Prop := {
  hc_trans : ∀ a b c, le a b → le b c → le a c;
  hc_smaller : ∀ a b, compareFunc a b < 0 → le a b;
  hc_not_smaller : ∀ a b, 0 ≤ compareFunc a b → le b a;
}.

(** Heap order of the first [n] slots of [h]. *)
Definition ordered (le : Z → Z → Prop) (n : nat) (h : list Z) : Prop :=
  ∀ i, (0 < i < n)%nat → le (h !!! ((i - 1) / 2)%nat) (h !!! i).

Definition heap_ordered (le : Z → Z → Prop) (q : PriorityQueue) : Prop :=
  ordered le (size q) (heap q).

(** ** Swapping two slots *)

Section Swap.

Definition swapped (i j : nat) (h : list Z) : list Z :=
  <[j := h !!! i]> (<[i := h !!! j]> h).

Definition swap_index (i j k : nat) : nat :=
  if (k =? i)%nat then j else if (k =? j)%nat then i else k.

Lemma swap_entries_heap q i j :
  heap (_priorityqueue_swap_entries q i j) = swapped i j (heap q).
Proof. reflexivity. Qed.

Lemma length_swapped i j h : length (swapped i j h) = length h.
Proof. unfold swapped. by rewrite !length_insert. Qed.

Lemma swapped_lookup i j k (h : list Z) :
  (i < length h)%nat → (j < length h)%nat →
  swapped i j h !! k = h !! swap_index i j k.
Proof.
  intros Hi Hj. unfold swapped, swap_index.
  destruct (Nat.eqb_spec k i) as [->|Hki].
  - destruct (decide (i = j)) as [->|Hij].
    + rewrite list_lookup_insert_eq by (rewrite length_insert; done).
      symmetry. by apply list_lookup_lookup_total_lt.
    + rewrite list_lookup_insert_ne by done.
      rewrite list_lookup_insert_eq by done.
      symmetry. by apply list_lookup_lookup_total_lt.
  - destruct (Nat.eqb_spec k j) as [->|Hkj].
    + rewrite list_lookup_insert_eq by (rewrite length_insert; done).
      symmetry. by apply list_lookup_lookup_total_lt.
    + by rewrite !list_lookup_insert_ne by done.
Qed.

Lemma swapped_lookup_total i j k (h : list Z) :
  (i < length h)%nat → (j < length h)%nat →
  swapped i j h !!! k = h !!! swap_index i j k.
Proof. intros Hi Hj. by rewrite !list_lookup_total_alt, swapped_lookup. Qed.

Lemma swap_index_lt i j k n :
  (i < n)%nat → (j < n)%nat → (k < n)%nat ↔ (swap_index i j k < n)%nat.
Proof.
  intros Hi Hj. unfold swap_index.
  destruct (Nat.eqb_spec k i), (Nat.eqb_spec k j); lia.
Qed.

Lemma swap_index_invol i j k : swap_index i j (swap_index i j k) = k.
Proof.
  unfold swap_index.
  destruct (Nat.eqb_spec k i) as [->|].
  - destruct (Nat.eqb_spec j i) as [->|]; [done|]. by rewrite Nat.eqb_refl.
  - destruct (Nat.eqb_spec k j) as [->|]; [by rewrite Nat.eqb_refl|].
    destruct (Nat.eqb_spec k i), (Nat.eqb_spec k j); congruence.
Qed.

#[local] Instance swap_index_inj i j : Inj (=) (=) (swap_index i j).
Proof. intros a b H. by rewrite <-(swap_index_invol i j a), H, swap_index_invol. Qed.

Lemma take_swapped_perm i j n h :
  (i < n)%nat → (j < n)%nat → (n ≤ length h)%nat →
  take n (swapped i j h) ≡ₚ take n h.
Proof.
  intros Hi Hj Hn. apply Permutation_inj. split.
  - by rewrite !length_take, length_swapped.
  - exists (swap_index i j). split; [apply _|]. intros k.
    destruct (decide (k < n)%nat) as [Hk|Hk].
    + rewrite !lookup_take_lt; [|by apply swap_index_lt|done].
      apply swapped_lookup; lia.
    + rewrite !lookup_take_ge; [done| |lia].
      enough (¬ (swap_index i j k < n)%nat) by lia. by rewrite <-swap_index_lt.
Qed.

End Swap.

Lemma wf_slots_lt q : wf q → (size q ≤ length (heap q))%nat.
Proof. intros Hw. rewrite (wf_length _ Hw). apply (wf_size _ Hw). Qed.

(** The entries are pairwise distinct. *)
Lemma wf_inj q i j p :
  wf q → (i < size q)%nat → (j < size q)%nat →
  heap q !! i = Some p → heap q !! j = Some p → i = j.
Proof.
  intros Hw Hi Hj Hpi Hpj.
  assert (Ei : map q !! p = Some (heapBlock q, i)) by (apply (wf_map _ Hw); eauto).
  assert (Ej : map q !! p = Some (heapBlock q, j)) by (apply (wf_map _ Hw); eauto).
  congruence.
Qed.

Lemma wf_NoDup q : wf q → NoDup (elements q).
Proof.
  intros Hw. apply NoDup_alt. intros i j p Hi Hj. unfold elements in *.
  apply lookup_take_Some in Hi as [Hi ?], Hj as [Hj ?]. by eapply wf_inj.
Qed.

Lemma elements_lookup q p :
  wf q → p ∈ elements q ↔ is_Some (map q !! p).
Proof.
  intros Hw. unfold elements. rewrite list_elem_of_lookup. split.
  - intros [i [Hi ?]%lookup_take_Some].
    exists (heapBlock q, i). apply (wf_map _ Hw). eauto.
  - intros [e (i & ? & ? & ?)%(wf_map _ Hw)]. exists i. by apply lookup_take_Some.
Qed.

Lemma wf_map_Some q p e :
  wf q → map q !! p = Some e →
  ∃ i, e = (heapBlock q, i) ∧ (i < size q)%nat ∧ heap q !! i = Some p.
Proof. intros Hw (i & ? & ? & ->)%(wf_map _ Hw). eauto. Qed.

Lemma swap_entries_wf q i j :
  wf q → (i < size q)%nat → (j < size q)%nat → wf (_priorityqueue_swap_entries q i j).
Proof.
  intros Hw Hi Hj. pose proof (wf_slots_lt _ Hw) as Hlen.
  destruct (lookup_lt_is_Some_2 (heap q) i) as [pi Hpi]; [lia|].
  destruct (lookup_lt_is_Some_2 (heap q) j) as [pj Hpj]; [lia|].
  constructor.
  - rewrite swap_entries_heap, length_swapped. apply (wf_length _ Hw).
  - apply (wf_size _ Hw).
  - apply (wf_capacity _ Hw).
  - intros p e. rewrite swap_entries_heap. simpl.
    setoid_rewrite swapped_lookup; [|lia|lia].
    rewrite (list_lookup_total_correct _ _ _ Hpi), (list_lookup_total_correct _ _ _ Hpj).
    assert (Hpe : map q !! p = Some e ↔ ∃ k, (k < size q)%nat ∧ heap q !! k = Some p ∧
                    e = (heapBlock q, k)) by apply (wf_map _ Hw).
    destruct (decide (p = pj)) as [->|Hnj]; [|destruct (decide (p = pi)) as [->|Hni]].
    + rewrite lookup_insert_eq. split.
      * intros [= <-]. exists i. unfold swap_index. rewrite Nat.eqb_refl. eauto.
      * intros (k & Hk & Hl & ->). f_equal. f_equal.
        apply swap_index_inj with i j. apply (wf_inj q _ _ pj); auto.
        -- by apply swap_index_lt.
        -- by apply swap_index_lt.
        -- unfold swap_index. by rewrite Nat.eqb_refl.
    + rewrite lookup_insert_ne, lookup_insert_eq by done. split.
      * intros [= <-]. exists j. unfold swap_index. rewrite Nat.eqb_refl.
        destruct (Nat.eqb_spec j i) as [->|]; [congruence|]. eauto.
      * intros (k & Hk & Hl & ->). f_equal. f_equal.
        apply swap_index_inj with i j. apply (wf_inj q _ _ pi); auto.
        -- by apply swap_index_lt.
        -- by apply swap_index_lt.
        -- unfold swap_index. rewrite Nat.eqb_refl.
           destruct (Nat.eqb_spec j i) as [->|]; [congruence|done].
    + rewrite !lookup_insert_ne by done. rewrite Hpe. clear Hpe. split.
      * intros (k & Hk & Hl & ->). exists k. unfold swap_index.
        destruct (Nat.eqb_spec k i) as [->|]; [congruence|].
        destruct (Nat.eqb_spec k j) as [->|]; [congruence|]. eauto.
      * intros (k & Hk & Hl & ->). exists k. unfold swap_index in Hl.
        destruct (Nat.eqb_spec k i) as [->|]; [congruence|].
        destruct (Nat.eqb_spec k j) as [->|]; [congruence|]. eauto.
Qed.

(** ** Reallocation *)

Lemma refresh_map_lookup (f : nat → Z) (b : Z) n p e :
  (∀ i j, (i < n)%nat → (j < n)%nat → f i = f j → i = j) →
  foldl (λ (m : gmap Z slot) i, <[f i := (b, i)]> m) ∅ (seq 0 n) !! p = Some e ↔
  ∃ i, (i < n)%nat ∧ f i = p ∧ e = (b, i).
Proof.
  induction n as [|n IH]; intros Hinj.
  - simpl. rewrite lookup_empty. split; [done|]. intros (? & ? & _). lia.
  - rewrite seq_S, foldl_app. simpl.
    specialize (IH ltac:(intros; apply Hinj; auto with lia)).
    destruct (decide (f n = p)) as [Hp|Hp].
    + rewrite Hp, lookup_insert_eq. split.
      * intros [= <-]. exists n. auto with lia.
      * intros (i & Hi & Hip & ->). f_equal. f_equal. apply Hinj; [lia..|congruence].
    + rewrite lookup_insert_ne by done. rewrite IH. split.
      * intros (i & ? & ? & ?). exists i. auto with lia.
      * intros (i & ? & Hip & ?). exists i. split; [|done].
        destruct (decide (i = n)) as [->|]; [congruence|lia].
Qed.

(** The array agrees with [h] on the live slots. *)
Lemma refresh_map_wf q :
  length (heap q) = heapSize q → (size q ≤ heapSize q)%nat → (0 < heapSize q)%nat →
  NoDup (elements q) → wf (_priorityqueue_refresh_map q).
Proof.
  intros Hlen Hsz Hcap Hnd. constructor; simpl; auto.
  intros p e. rewrite refresh_map_lookup.
  - split; intros (i & Hi & Hp & He); exists i; (split; [done|split; [|done]]).
    + subst p. apply list_lookup_lookup_total_lt. lia.
    + by apply list_lookup_total_correct.
  - intros i j Hi Hj Hij.
    rewrite NoDup_alt in Hnd.
    apply (Hnd i j (heap q !!! i)); unfold elements; apply lookup_take_Some; (split; [|lia]).
    + apply list_lookup_lookup_total_lt. lia.
    + rewrite Hij. apply list_lookup_lookup_total_lt. lia.
Qed.

Lemma take_resize_slots n m (h : list Z) :
  (n ≤ length h)%nat → (n ≤ m)%nat → take n (resize m 0 h) = take n h.
Proof. intros. by rewrite take_resize_le, resize_le by lia. Qed.

Section Realloc.
Context (g_renew : Z → nat → Z).

Lemma resize_heap_elements q n :
  wf q → (size q ≤ n)%nat → elements (resize_heap g_renew q n) = elements q.
Proof.
  intros Hw Hn. pose proof (wf_slots_lt _ Hw). unfold resize_heap, elements.
  destruct (negb _); simpl; by apply take_resize_slots.
Qed.

Lemma resize_heap_size q n : size (resize_heap g_renew q n) = size q.
Proof. unfold resize_heap. by destruct (negb _). Qed.

Lemma resize_heap_heapSize q n : heapSize (resize_heap g_renew q n) = n.
Proof. unfold resize_heap. by destruct (negb _). Qed.

Lemma resize_heap_lookup q n i :
  wf q → (size q ≤ n)%nat → (i < size q)%nat →
  heap (resize_heap g_renew q n) !!! i = heap q !!! i.
Proof.
  intros Hw Hn Hi. rewrite !list_lookup_total_alt. f_equal.
  pose proof (f_equal (λ l, l !! i) (resize_heap_elements q n Hw Hn)) as E.
  unfold elements in E. rewrite resize_heap_size in E.
  by rewrite !lookup_take_lt in E by done.
Qed.

(** Whether or not the block moves, the map ends up pointing into the
    current block. *)
Lemma resize_heap_wf q n :
  wf q → (size q ≤ n)%nat → (0 < n)%nat → wf (resize_heap g_renew q n).
Proof.
  intros Hw Hn Hpos. pose proof (wf_slots_lt _ Hw).
  pose proof (resize_heap_elements q n Hw Hn) as He.
  unfold resize_heap in *. destruct (Z.eqb_spec (g_renew (heapBlock q) n) (heapBlock q)) as [E|E];
    simpl in *; rewrite ?E, ?Z.eqb_refl in *; simpl in *.
  - constructor; simpl; rewrite ?length_resize; auto.
    intros p e. rewrite (wf_map _ Hw).
    split; intros (i & Hi & Hp & He'); exists i; (split; [done|split; [|congruence]]).
    + apply (f_equal (λ l, l !! i)) in He. unfold elements in He; simpl in He.
      rewrite !lookup_take_lt in He by done. congruence.
    + apply (f_equal (λ l, l !! i)) in He. unfold elements in He; simpl in He.
      rewrite !lookup_take_lt in He by done. congruence.
  - apply Z.eqb_neq in E. rewrite E in *. simpl in *.
    apply refresh_map_wf; simpl; rewrite ?length_resize; auto.
    unfold elements in *; simpl in *. rewrite He. by apply wf_NoDup.
Qed.

End Realloc.

(** ** The sift loops *)

Section Sift.
Context (compareFunc : Z → Z → Z).

Abbreviation smaller := (_priorityqueue_entry_smaller compareFunc).
Abbreviation up_loop := (heapify_up_loop compareFunc).
Abbreviation down_loop := (heapify_down_loop compareFunc).

Lemma parent_lt i : (0 < i)%nat → ((i - 1) / 2 < i)%nat.
Proof. intros. apply Nat.Div0.div_lt_upper_bound; lia. Qed.

Lemma parent_child i j : (0 < j)%nat →
  ((j - 1) / 2 = i ↔ j = 2 * i + 1 ∨ j = 2 * i + 2)%nat.
Proof.
  intros. pose proof (Nat.div_mod_eq (j - 1) 2).
  pose proof (Nat.mod_upper_bound (j - 1) 2 ltac:(lia)). lia.
Qed.

(** With at least [index] fuel the loop computes one unfolding of itself. *)
Lemma up_loop_fuel n m q i :
  (i ≤ n)%nat → (i ≤ m)%nat → up_loop n q i = up_loop m q i.
Proof.
  revert m q i. induction n as [|n IH]; intros m q i Hn Hm.
  - assert (i = 0)%nat as -> by lia. by destruct m.
  - destruct m as [|m]; simpl.
    + by assert (i = 0)%nat as -> by lia.
    + destruct (Nat.ltb_spec 0 i); simpl; [|done].
      destruct (smaller _ _ _); [|done].
      pose proof (parent_lt i ltac:(lia)). apply IH; lia.
Qed.

Lemma smaller_child_cases q i :
  (2 * i + 1 < size q)%nat →
  smaller_child compareFunc q i = (2 * i + 1)%nat ∨
  smaller_child compareFunc q i = (2 * i + 2)%nat ∧ (2 * i + 2 < size q)%nat.
Proof.
  intros Hi. unfold smaller_child. destruct (Nat.ltb_spec (2 * i + 1 + 1) (size q)); simpl; [|auto].
  destruct (smaller _ _ _); [right|left]; lia.
Qed.

Lemma down_loop_fuel n m q i :
  (size q - i ≤ n)%nat → (size q - i ≤ m)%nat → down_loop n q i = down_loop m q i.
Proof.
  revert m q i. induction n as [|n IH]; intros m q i Hn Hm.
  - destruct m; simpl; [done|]. destruct (Nat.ltb_spec (2 * i + 1) (size q)); [lia|done].
  - destruct m as [|m]; simpl.
    + destruct (Nat.ltb_spec (2 * i + 1) (size q)); [lia|done].
    + destruct (Nat.ltb_spec (2 * i + 1) (size q)) as [Hi|]; [|done].
      destruct (smaller _ _ _); [|done].
      pose proof (smaller_child_cases q i Hi). apply IH; simpl; lia.
Qed.

(** What a sift keeps: well-formedness, the counters, the block and the
    multiset of entries. *)
Definition same_entries (q q' : PriorityQueue) : Prop :=
  wf q' ∧ size q' = size q ∧ heapSize q' = heapSize q ∧ heapBlock q' = heapBlock q ∧
  elements q' ≡ₚ elements q.

Lemma same_entries_refl q : wf q → same_entries q q.
Proof. intros Hw. by split_and!. Qed.

Lemma same_entries_trans q1 q2 q3 :
  same_entries q1 q2 → same_entries q2 q3 → same_entries q1 q3.
Proof.
  intros (W1 & S1 & C1 & B1 & E1) (W2 & S2 & C2 & B2 & E2).
  split_and!; [done|congruence..|by rewrite E2].
Qed.

Lemma swap_same_entries q i j :
  wf q → (i < size q)%nat → (j < size q)%nat →
  same_entries q (_priorityqueue_swap_entries q i j).
Proof.
  intros Hw Hi Hj. split_and!; [by apply swap_entries_wf|done..|].
  unfold elements. apply take_swapped_perm; auto. by apply wf_slots_lt.
Qed.

Lemma up_loop_same n q i :
  wf q → (i < size q)%nat →
  same_entries q (up_loop n q i).1 ∧ ((up_loop n q i).2 < size q)%nat.
Proof.
  revert q i. induction n as [|n IH]; intros q i Hw Hi; simpl.
  - split; [by apply same_entries_refl|done].
  - destruct (Nat.ltb_spec 0 i) as [H0|]; simpl; [|by split; [apply same_entries_refl|]].
    destruct (smaller _ _ _); [|by split; [apply same_entries_refl|]].
    pose proof (parent_lt i H0) as Hp.
    pose proof (swap_same_entries q i _ Hw Hi (Nat.lt_trans _ _ _ Hp Hi)) as Hs.
    destruct (IH _ ((i - 1) / 2)%nat (proj1 Hs)) as [H1 H2]; [simpl; lia|].
    split; [by eapply same_entries_trans|done].
Qed.

Lemma down_loop_same n q i :
  wf q → (i < size q)%nat →
  same_entries q (down_loop n q i).1 ∧ ((down_loop n q i).2 < size q)%nat.
Proof.
  revert q i. induction n as [|n IH]; intros q i Hw Hi; simpl.
  - split; [by apply same_entries_refl|done].
  - destruct (Nat.ltb_spec (2 * i + 1) (size q)) as [Hc|];
      [|by split; [apply same_entries_refl|]].
    destruct (smaller _ _ _); [|by split; [apply same_entries_refl|]].
    assert (Hch : (smaller_child compareFunc q i < size q)%nat)
      by (pose proof (smaller_child_cases q i Hc); lia).
    pose proof (swap_same_entries q i _ Hw Hi Hch) as Hs.
    destruct (IH _ (smaller_child compareFunc q i) (proj1 Hs)) as [H1 H2]; [done|].
    split; [by eapply same_entries_trans|done].
Qed.

(** ** Heap order through the sift loops *)

Context (le : Z → Z → Prop) `{!HeapCompare compareFunc le}.

Lemma smaller_le q i j : smaller q i j = true → le (heap q !!! i) (heap q !!! j).
Proof. unfold _priorityqueue_entry_smaller. intros ?%Z.ltb_lt. by eapply hc_smaller. Qed.

Lemma not_smaller_le q i j : smaller q i j = false → le (heap q !!! j) (heap q !!! i).
Proof. unfold _priorityqueue_entry_smaller. intros ?%Z.ltb_ge. by eapply hc_not_smaller. Qed.

Lemma le_refl a : le a a.
Proof.
  destruct (Z.lt_ge_cases (compareFunc a a) 0); [by eapply hc_smaller|by eapply hc_not_smaller].
Qed.

(** Order with the entry at [i] unconstrained against both its parent and its
    children, but its parent below its children. *)
Definition free_at (n : nat) (h : list Z) (i : nat) : Prop :=
  (∀ j, (0 < j < n)%nat → ((j - 1) / 2)%nat ≠ i → j ≠ i → le (h !!! ((j - 1) / 2)%nat) (h !!! j)) ∧
  (∀ j, (0 < j < n)%nat → ((j - 1) / 2)%nat = i → (0 < i)%nat →
        le (h !!! ((i - 1) / 2)%nat) (h !!! j)).

(** Order with the entry at [i] unconstrained only against its parent. *)
Definition free_above (n : nat) (h : list Z) (i : nat) : Prop :=
  (∀ j, (0 < j < n)%nat → j ≠ i → le (h !!! ((j - 1) / 2)%nat) (h !!! j)) ∧
  (∀ j, (0 < j < n)%nat → ((j - 1) / 2)%nat = i → (0 < i)%nat →
        le (h !!! ((i - 1) / 2)%nat) (h !!! j)).

Definition parent_ok (h : list Z) (i : nat) : Prop :=
  (0 < i)%nat → le (h !!! ((i - 1) / 2)%nat) (h !!! i).

Lemma free_above_ordered n h i :
  free_above n h i → parent_ok h i → ordered le n h.
Proof.
  intros [H1 _] Hp j Hj. destruct (decide (j = i)) as [->|]; [apply Hp; lia|by apply H1].
Qed.

(** Reads of a swapped array at the two slots and elsewhere. *)
Lemma swapped_l i j h :
  (i < length h)%nat → (j < length h)%nat → swapped i j h !!! i = h !!! j.
Proof. intros. rewrite swapped_lookup_total by done. unfold swap_index. by rewrite Nat.eqb_refl. Qed.

Lemma swapped_r i j h :
  (i < length h)%nat → (j < length h)%nat → swapped i j h !!! j = h !!! i.
Proof.
  intros. rewrite swapped_lookup_total by done. unfold swap_index. rewrite Nat.eqb_refl.
  by destruct (Nat.eqb_spec j i) as [->|].
Qed.

Lemma swapped_ne i j k h :
  (i < length h)%nat → (j < length h)%nat → k ≠ i → k ≠ j → swapped i j h !!! k = h !!! k.
Proof.
  intros. rewrite swapped_lookup_total by done. unfold swap_index.
  by destruct (Nat.eqb_spec k i), (Nat.eqb_spec k j).
Qed.

Ltac read_swapped := repeat first
  [ rewrite swapped_l by lia | rewrite swapped_r by lia | rewrite swapped_ne by lia ].

(** One step of each loop on the array. *)
Lemma swapped_up n h i p :
  (n ≤ length h)%nat → (i < n)%nat → (0 < i)%nat → ((i - 1) / 2)%nat = p →
  le (h !!! i) (h !!! p) → free_above n h i → free_above n (swapped i p h) p.
Proof.
  intros Hn Hi H0 Hp Hle [H1 H2]. pose proof (parent_lt i H0). rewrite Hp in *. split.
  - intros j Hj Hjp. destruct (decide (j = i)) as [->|Hji].
    { rewrite Hp. by read_swapped. }
    pose proof (H1 j Hj Hji). pose proof (parent_lt j (proj1 Hj)).
    destruct (decide ((j - 1) / 2 = i)%nat) as [E|E].
    { rewrite E. read_swapped. by apply H2. }
    destruct (decide ((j - 1) / 2 = p)%nat) as [E'|E'].
    { rewrite E' in *. read_swapped. by eapply hc_trans. }
    by read_swapped.
  - intros j Hj Hjp Hp0. pose proof (parent_lt p Hp0).
    assert (le (h !!! ((p - 1) / 2)%nat) (h !!! p)) by (apply H1; lia).
    destruct (decide (j = i)) as [->|Hji]; read_swapped; [done|].
    pose proof (parent_lt j (proj1 Hj)). rewrite (swapped_ne i p j) by lia.
    eapply hc_trans; [done|]. rewrite <-Hjp. by apply H1.
Qed.

Lemma swapped_down n h i c :
  (n ≤ length h)%nat → (i < n)%nat → (0 < c < n)%nat → ((c - 1) / 2)%nat = i →
  (∀ j, (0 < j < n)%nat → ((j - 1) / 2)%nat = i → le (h !!! c) (h !!! j)) →
  free_at n h i → free_at n (swapped i c h) c.
Proof.
  intros Hn Hi Hc Hpc Hmin [H1 H2]. pose proof (parent_lt c (proj1 Hc)). split.
  - intros j Hj Hjc Hjc'. pose proof (parent_lt j (proj1 Hj)).
    destruct (decide (j = i)) as [->|Hji].
    { read_swapped. apply H2; lia. }
    destruct (decide ((j - 1) / 2 = i)%nat) as [E|E].
    { rewrite E. read_swapped. by apply Hmin. }
    read_swapped. by apply H1.
  - intros j Hj Hjc H0. pose proof (parent_lt j (proj1 Hj)). rewrite Hpc. read_swapped.
    rewrite <-Hjc. apply H1; lia.
Qed.

Lemma up_loop_ordered n q i :
  wf q → (i < size q)%nat → (i ≤ n)%nat → free_above (size q) (heap q) i →
  ordered le (size q) (heap (up_loop n q i).1).
Proof.
  revert q i. induction n as [|n IH]; intros q i Hw Hi Hn Hf.
  { assert (i = 0)%nat as -> by lia. apply (free_above_ordered _ _ 0); [done|]. intros ?; lia. }
  simpl. destruct (Nat.ltb_spec 0 i) as [H0|H0]; simpl.
  2: { apply (free_above_ordered _ _ i); [done|]. intros ?; lia. }
  destruct (smaller q i _) eqn:Hs.
  2: { apply (free_above_ordered _ _ i); [done|]. intros _. by apply not_smaller_le in Hs. }
  pose proof (parent_lt i H0) as Hp. apply smaller_le in Hs.
  pose proof (wf_slots_lt _ Hw) as Hlen.
  apply (IH (_priorityqueue_swap_entries q i ((i - 1) / 2))); [|simpl; lia..|].
  - apply swap_entries_wf; auto; lia.
  - by apply swapped_up.
Qed.

Lemma smaller_child_parent q i :
  (2 * i + 1 < size q)%nat →
  let c := smaller_child compareFunc q i in (0 < c < size q)%nat ∧ ((c - 1) / 2)%nat = i.
Proof.
  intros Hi c. pose proof (smaller_child_cases q i Hi). fold c in H.
  split; [lia|]. apply parent_child; lia.
Qed.

Lemma smaller_child_min q i j :
  (0 < j < size q)%nat → ((j - 1) / 2)%nat = i →
  le (heap q !!! smaller_child compareFunc q i) (heap q !!! j).
Proof.
  intros Hj Hji. apply parent_child in Hji; [|lia]. unfold smaller_child.
  destruct (Nat.ltb_spec (2 * i + 1 + 1) (size q)) as [H|H]; simpl.
  - destruct (smaller q _ _) eqn:Hs; [apply smaller_le in Hs|apply not_smaller_le in Hs].
    + destruct Hji as [->| ->]; [done|].
      replace (2 * i + 1 + 1)%nat with (2 * i + 2)%nat by lia. apply le_refl.
    + destruct Hji as [->| ->]; [apply le_refl|].
      by replace (2 * i + 2)%nat with (2 * i + 1 + 1)%nat by lia.
  - assert (j = 2 * i + 1)%nat as -> by lia. apply le_refl.
Qed.

Lemma free_at_above n h i :
  (∀ j, (0 < j < n)%nat → ((j - 1) / 2)%nat = i → le (h !!! i) (h !!! j)) →
  free_at n h i → free_above n h i.
Proof.
  intros Hc [H1 H2]. split; [|done]. intros j Hj Hji.
  destruct (decide ((j - 1) / 2 = i)%nat) as [E|E]; [rewrite E; auto|auto].
Qed.

Lemma down_loop_ordered n q i :
  wf q → (i < size q)%nat → (size q - i ≤ n)%nat → free_at (size q) (heap q) i →
  let '(q', i') := down_loop n q i in
  free_above (size q) (heap q') i' ∧ (parent_ok (heap q) i → parent_ok (heap q') i').
Proof.
  revert q i. induction n as [|n IH]; intros q i Hw Hi Hn Hf; [lia|]. simpl.
  destruct (Nat.ltb_spec (2 * i + 1) (size q)) as [Hc|Hc].
  2: { split; [|done]. apply free_at_above; [|done]. intros j Hj ?%parent_child; lia. }
  destruct (smaller_child_parent q i Hc) as [Hcl Hcp].
  destruct (smaller q _ i) eqn:Hs; [apply smaller_le in Hs|apply not_smaller_le in Hs].
  2: { split; [|done]. apply free_at_above; [|done]. intros j Hj Hji.
       eapply hc_trans; [exact Hs|]. by apply smaller_child_min. }
  set (c := smaller_child compareFunc q i) in *.
  pose proof (parent_lt c (proj1 Hcl)). pose proof (wf_slots_lt _ Hw).
  pose proof (IH (_priorityqueue_swap_entries q i c) c) as IHs. simpl in IHs.
  destruct (down_loop n _ c) as [q' i'].
  destruct IHs as [IH1 IH2]; [apply swap_entries_wf; auto; lia|lia|lia| |].
  - apply swapped_down; auto. intros. by apply smaller_child_min.
  - split; [done|]. intros _. apply IH2. intros _. rewrite Hcp.
    change (le (swapped i c (heap q) !!! i) (swapped i c (heap q) !!! c)). by read_swapped.
Qed.

End Sift.

(** ** The operations *)

Section Api.
Context (compareFunc : Z → Z → Z) (g_renew : Z → nat → Z).

Abbreviation push := (priorityqueue_push compareFunc g_renew).
Abbreviation pop := (priorityqueue_pop compareFunc g_renew).

(** Room for one more entry, grown if needed. *)
Definition grown (q : PriorityQueue) : PriorityQueue :=
  if (heapSize q <=? size q)%nat then resize_heap g_renew q (heapSize q * 2) else q.

Lemma grown_spec q :
  wf q →
  wf (grown q) ∧ size (grown q) = size q ∧ (size (grown q) < heapSize (grown q))%nat ∧
  elements (grown q) = elements q.
Proof.
  intros Hw. pose proof (wf_size _ Hw). pose proof (wf_capacity _ Hw). unfold grown.
  destruct (Nat.leb_spec (heapSize q) (size q)); [|done].
  rewrite resize_heap_size, resize_heap_heapSize, resize_heap_elements by (done || lia).
  split_and!; [apply resize_heap_wf; (done || lia)|done|lia|done].
Qed.

Lemma grown_ordered (le : Z → Z → Prop) q :
  wf q → heap_ordered le q → heap_ordered le (grown q).
Proof.
  intros Hw Ho. destruct (grown_spec q Hw) as (_ & Hs & _).
  unfold heap_ordered in *. rewrite Hs. intros j Hj. specialize (Ho j Hj).
  pose proof (parent_lt j (proj1 Hj)). pose proof (wf_size _ Hw). unfold grown.
  destruct (Nat.leb_spec (heapSize q) (size q)); [|done].
  by rewrite !resize_heap_lookup by (done || lia).
Qed.

Definition inserted (q : PriorityQueue) (data : Z) : PriorityQueue :=
  q <| heap := <[size q := data]> (heap q) |>
    <| map := <[data := (heapBlock q, size q)]> (map q) |> <| size := S (size q) |>.

Lemma inserted_wf q data :
  wf q → (size q < heapSize q)%nat → map q !! data = None → wf (inserted q data).
Proof.
  intros Hw Hlt Hnone. pose proof (wf_length _ Hw). constructor; simpl.
  - by rewrite length_insert.
  - lia.
  - lia.
  - intros p e. destruct (decide (p = data)) as [->|Hne].
    + rewrite lookup_insert_eq. split.
      * intros [= <-]. exists (size q). rewrite list_lookup_insert_eq by lia. split_and!; [lia|done..].
      * intros (i & Hi & Hl & ->). destruct (decide (i = size q)) as [->|]; [done|].
        rewrite list_lookup_insert_ne in Hl by done.
        assert (map q !! data = Some (heapBlock q, i)) 
          by (apply (wf_map _ Hw); exists i; split_and!; [lia|done..]).
        congruence.
    + rewrite lookup_insert_ne by done. rewrite (wf_map _ Hw).
      split; intros (i & Hi & Hl & ->); exists i.
      * rewrite list_lookup_insert_ne by lia. split_and!; [lia|done..].
      * destruct (decide (i = size q)) as [->|].
        -- rewrite list_lookup_insert_eq in Hl by lia. congruence.
        -- rewrite list_lookup_insert_ne in Hl by done. split_and!; [lia|done..].
Qed.

Lemma inserted_elements q data :
  wf q → (size q < heapSize q)%nat → elements (inserted q data) ≡ₚ data :: elements q.
Proof.
  intros Hw Hlt. pose proof (wf_length _ Hw). unfold elements, inserted; simpl.
  rewrite (take_S_r _ (size q) data) by (apply list_lookup_insert_eq; lia).
  rewrite take_insert_ge by lia. by rewrite <-Permutation_cons_append.
Qed.

(** The push of an entry already in the queue. *)
Lemma push_old q i :
  wf q → (i < size q)%nat →
  let '(q1, i1) := _priorityqueue_heapify_down compareFunc q i in
  same_entries q (_priorityqueue_heapify_up compareFunc q1 i1).1.
Proof.
  intros Hw Hi. unfold _priorityqueue_heapify_down.
  pose proof (down_loop_same compareFunc (size q) q i Hw Hi) as [Hs Hlt].
  destruct (heapify_down_loop _ _ _ _) as [q1 i1]. simpl in *.
  destruct (up_loop_same compareFunc i1 q1 i1) as [Hs' _].
  - apply Hs.
  - by replace (size q1) with (size q) by (symmetry; apply Hs).
  - by eapply same_entries_trans.
Qed.

(** A push never follows a dangling address, keeps the queue well-formed, and
    adds the entry exactly when it was not there. *)
Lemma push_spec q data :
  wf q →
  ∃ q', push q data = Some (q', bool_decide (data ∉ elements q)) ∧ wf q' ∧
    elements q' ≡ₚ (if decide (data ∈ elements q) then elements q else data :: elements q).
Proof.
  intros Hw. unfold push. fold (grown q).
  destruct (grown_spec q Hw) as (Hwg & Hsg & Hroom & Heg).
  rewrite <-Heg. clear Heg Hsg Hw. generalize dependent (grown q). clear q. intros q Hw Hroom.
  pose proof (elements_lookup q data Hw) as Hin.
  destruct (map q !! data) as [e|] eqn:Hm.
  - assert (Hd : data ∈ elements q) by (apply Hin; eauto).
    rewrite decide_True, bool_decide_false by (done || intros ?; done).
    apply wf_map_Some in Hm as (i & -> & Hi & Hl); [|done].
    rewrite Z.eqb_refl. pose proof (push_old q i Hw Hi) as Hs.
    destruct (_priorityqueue_heapify_down compareFunc q i) as [q1 i1].
    destruct (_priorityqueue_heapify_up compareFunc q1 i1) as [q2 i2].
    destruct Hs as (? & _ & _ & _ & ?). eauto.
  - rewrite decide_False, bool_decide_true by (rewrite Hin; intros [? ?]; done).
    fold (inserted q data).
    destruct (up_loop_same compareFunc (size q) (inserted q data) (size q)) as [Hs _].
    + by apply inserted_wf.
    + simpl; lia.
    + unfold _priorityqueue_heapify_up.
      destruct (heapify_up_loop _ _ _ _) as [q2 i2]. destruct Hs as (? & _ & _ & _ & He).
      eexists. split_and!; [done..|]. rewrite He. by apply inserted_elements.
Qed.

Lemma elements_total q i : wf q → (i < size q)%nat → heap q !!! i ∈ elements q.
Proof.
  intros Hw Hi. apply list_elem_of_lookup. exists i. unfold elements.
  apply lookup_take_Some. split; [|done].
  apply list_lookup_lookup_total_lt. pose proof (wf_slots_lt _ Hw). lia.
Qed.

Section Order.
Context (le le0 : Z → Z → Prop) `{!HeapCompare compareFunc le} `{!Transitive le0}.

(** [le] agrees with [le0] except on pairs that involve [data]. *)
Definition agree_except (data : Z) (q : PriorityQueue) : Prop :=
  ∀ x y, x ∈ elements q → y ∈ elements q → x ≠ data → y ≠ data → le0 x y → le x y.

Lemma agree_pair data q j k :
  wf q → agree_except data q → (j < size q)%nat → (k < size q)%nat →
  heap q !!! j ≠ data → heap q !!! k ≠ data →
  le0 (heap q !!! j) (heap q !!! k) → le (heap q !!! j) (heap q !!! k).
Proof. intros Hw Ha. intros. apply Ha; auto using elements_total. Qed.

Lemma other_slots q i data j :
  wf q → (i < size q)%nat → heap q !! i = Some data →
  (j < size q)%nat → j ≠ i → heap q !!! j ≠ data.
Proof.
  intros Hw Hi Hl Hj Hji Hd. apply Hji. apply (wf_inj q _ _ data); auto.
  rewrite <-Hd. apply list_lookup_lookup_total_lt. pose proof (wf_slots_lt _ Hw). lia.
Qed.

Lemma old_entry_free q data i :
  wf q → heap_ordered le0 q → agree_except data q →
  (i < size q)%nat → heap q !! i = Some data → free_at le (size q) (heap q) i.
Proof.
  intros Hw Ho Ha Hi Hl.
  pose proof (other_slots q i data) as Hne.
  split; intros j Hj; pose proof (parent_lt j (proj1 Hj)).
  - intros Hpj Hji. apply (agree_pair data); [done|done|lia|lia|apply Hne; (done || lia)|apply Hne; (done || lia)|by apply Ho].
  - intros Hpj H0. pose proof (parent_lt i H0).
    apply (agree_pair data); [done|done|lia|lia|apply Hne; (done || lia)|apply Hne; (done || lia)|].
    transitivity (heap q !!! i); [by apply Ho|]. rewrite <-Hpj at 1. by apply Ho.
Qed.

Lemma new_entry_free q data :
  wf q → (size q < heapSize q)%nat → heap_ordered le0 q → agree_except data q →
  map q !! data = None → free_above le (S (size q)) (heap (inserted q data)) (size q).
Proof.
  intros Hw Hroom Ho Ha Hm. pose proof (wf_length _ Hw).
  assert (Hne : ∀ j, (j < size q)%nat → heap q !!! j ≠ data).
  { intros j Hj Hd. assert (is_Some (map q !! data)) as [? ?]; [|congruence].
    apply elements_lookup; [done|]. rewrite <-Hd. by apply elements_total. }
  split; simpl; intros j Hj; pose proof (parent_lt j (proj1 Hj)).
  - intros Hjs. rewrite !list_lookup_total_insert_ne by lia.
    apply (agree_pair data); [done|done|lia|lia|apply Hne; lia|apply Hne; lia|apply Ho; lia].
  - intros. lia.
Qed.

(** A push restores heap order when only the pushed entry's key may have
    changed since the order was last established. *)
Lemma push_ordered q data q' b :
  wf q → heap_ordered le0 q → agree_except data q →
  push q data = Some (q', b) → heap_ordered le q'.
Proof.
  intros Hw Ho Ha. unfold push. fold (grown q).
  destruct (grown_spec q Hw) as (Hwg & Hsg & Hroom & Heg).
  pose proof (grown_ordered le0 q Hw Ho) as Hog.
  unfold agree_except in Ha. rewrite <-Heg in Ha. fold (agree_except data (grown q)) in Ha.
  clear Heg Hsg Hw Ho. generalize dependent (grown q). clear q. intros q Ha Hw Hroom Ho.
  destruct (map q !! data) as [e|] eqn:Hm.
  - apply wf_map_Some in Hm as (i & -> & Hi & Hl); [|done]. rewrite Z.eqb_refl.
    unfold _priorityqueue_heapify_down, _priorityqueue_heapify_up.
    pose proof (down_loop_same compareFunc (size q) q i Hw Hi) as [(Hw1 & Hs1 & _) Hi1].
    pose proof (down_loop_ordered compareFunc le (size q) q i Hw Hi ltac:(lia)
      (old_entry_free q data i Hw Ho Ha Hi Hl)) as Hd.
    destruct (heapify_down_loop _ _ _ _) as [q1 i1]. simpl in *. rewrite <-Hs1 in Hi1, Hd.
    pose proof (up_loop_ordered compareFunc le i1 q1 i1 Hw1 Hi1 ltac:(lia) (proj1 Hd)) as Hup.
    destruct (up_loop_same compareFunc i1 q1 i1 Hw1 Hi1) as [(_ & Hs2 & _) _].
    destruct (heapify_up_loop _ _ _ _) as [q2 i2]. simpl in *.
    intros [= <- <-]. unfold heap_ordered. by rewrite Hs2.
  - fold (inserted q data). unfold _priorityqueue_heapify_up.
    pose proof (inserted_wf q data Hw Hroom Hm) as Hwi.
    assert (Hsl : (size q < size (inserted q data))%nat) by (simpl; lia).
    pose proof (up_loop_ordered compareFunc le (size q) (inserted q data) (size q) Hwi Hsl
      ltac:(lia) (new_entry_free q data Hw Hroom Ho Ha Hm)) as Hup.
    destruct (up_loop_same compareFunc (size q) (inserted q data) (size q) Hwi Hsl)
      as [(_ & Hs2 & _) _].
    destruct (heapify_up_loop _ _ _ _) as [q2 i2]. simpl in *.
    intros [= <- <-]. unfold heap_ordered. by rewrite Hs2.
Qed.

(** The root is a least entry. *)
Lemma root_least q i : wf q → heap_ordered le q → (i < size q)%nat → le (heap q !!! 0%nat) (heap q !!! i).
Proof.
  intros Hw Ho. induction i as [i IH] using lt_wf_ind. intros Hi.
  destruct (decide (i = 0)%nat) as [->|H0]; [by eapply le_refl|].
  pose proof (parent_lt i ltac:(lia)). eapply hc_trans; [apply (IH ((i - 1) / 2)%nat); lia|].
  apply Ho. lia.
Qed.

End Order.

(** ** Pop *)

(** The queue after the last entry took the root's place. *)
Definition removed (q : PriorityQueue) : PriorityQueue :=
  let q' := _priorityqueue_swap_entries q 0 (size q - 1) in
  q' <| map := delete (heap q !!! 0%nat) (map q') |> <| size := (size q' - 1)%nat |>.

Definition shrunk (q : PriorityQueue) : PriorityQueue :=
  if (INITIAL_SIZE <? heapSize q)%nat && (size q * 4 <? heapSize q)%nat
  then resize_heap g_renew q (heapSize q / 2) else q.

Lemma pop_unfold q :
  (0 < size q)%nat →
  pop q = (shrunk (_priorityqueue_heapify_down compareFunc (removed q) 0).1, heap q !!! 0%nat).
Proof.
  intros Hs. unfold priorityqueue_pop. destruct (Nat.ltb_spec 0 (size q)); [|lia].
  fold (removed q). unfold removed, shrunk. by destruct (_priorityqueue_heapify_down _ _ _).
Qed.

Lemma shrunk_spec q :
  wf q → wf (shrunk q) ∧ size (shrunk q) = size q ∧ elements (shrunk q) = elements q.
Proof.
  intros Hw. unfold shrunk, INITIAL_SIZE.
  destruct (Nat.ltb_spec 100 (heapSize q)); simpl; [|done].
  destruct (Nat.ltb_spec (size q * 4) (heapSize q)); simpl; [|done].
  pose proof (Nat.div_mod_eq (heapSize q) 2). pose proof (Nat.mod_upper_bound (heapSize q) 2).
  rewrite resize_heap_size, resize_heap_elements by (done || lia).
  split_and!; [apply resize_heap_wf; (done || lia)|done..].
Qed.

Lemma shrunk_ordered (le : Z → Z → Prop) q :
  wf q → heap_ordered le q → heap_ordered le (shrunk q).
Proof.
  intros Hw Ho. destruct (shrunk_spec q Hw) as (_ & Hs & _).
  unfold heap_ordered in *. rewrite Hs. intros j Hj. specialize (Ho j Hj).
  pose proof (parent_lt j (proj1 Hj)). unfold shrunk, INITIAL_SIZE.
  destruct (Nat.ltb_spec 100 (heapSize q)); simpl; [|done].
  destruct (Nat.ltb_spec (size q * 4) (heapSize q)); simpl; [|done].
  pose proof (Nat.div_mod_eq (heapSize q) 2). pose proof (Nat.mod_upper_bound (heapSize q) 2).
  by rewrite !resize_heap_lookup by (done || lia).
Qed.

Lemma removed_wf q : wf q → (0 < size q)%nat → wf (removed q).
Proof.
  intros Hw Hs. pose proof (swap_entries_wf q 0 (size q - 1) Hw Hs ltac:(lia)) as Hw'.
  pose proof (wf_slots_lt _ Hw) as Hlen.
  assert (Hlast : heap (_priorityqueue_swap_entries q 0 (size q - 1)) !! (size q - 1)%nat
                  = Some (heap q !!! 0%nat)).
  { rewrite swap_entries_heap, list_lookup_lookup_total_lt by (rewrite length_swapped; lia).
    by rewrite swapped_r by lia. }
  constructor; [apply (wf_length _ Hw')|pose proof (wf_size _ Hw'); simpl in *; lia
               |apply (wf_capacity _ Hw')|].
  intros p e. unfold removed. set (q' := _priorityqueue_swap_entries q 0 (size q - 1)) in *.
  cbn [map size heap heapBlock set_field]. rewrite lookup_delete_Some, (wf_map _ Hw'). split.
  - intros (Hne & i & Hi & Hl & He). exists i. split_and!; [|done..].
    destruct (decide (i = size q - 1)%nat) as [->|]; [congruence|simpl in *; lia].
  - intros (i & Hi & Hl & He). split; [|exists i; split_and!; [lia|done..]].
    intros <-. assert (i = size q - 1)%nat; [|simpl in *; lia].
    apply (wf_inj q' _ _ (heap q !!! 0%nat)); auto; simpl in *; lia.
Qed.

Lemma removed_elements q :
  wf q → (0 < size q)%nat → elements q ≡ₚ heap q !!! 0%nat :: elements (removed q).
Proof.
  intros Hw Hs. pose proof (wf_slots_lt _ Hw).
  destruct (swap_same_entries q 0 (size q - 1) Hw Hs ltac:(lia)) as (_ & _ & _ & _ & He).
  rewrite <-He. unfold elements, removed. rewrite swap_entries_heap.
  cbn [size heap set_field _priorityqueue_swap_entries].
  replace (take (size q)) with (take (A:=Z) (S (size q - 1))) by (f_equal; lia).
  rewrite (take_S_r _ _ (heap q !!! 0%nat)); [by rewrite <-Permutation_cons_append|].
  rewrite list_lookup_lookup_total_lt by (rewrite length_swapped; lia).
  by rewrite swapped_r by lia.
Qed.

Lemma pop_spec q :
  wf q → (0 < size q)%nat →
  let '(q', data) := pop q in
  wf q' ∧ size q' = (size q - 1)%nat ∧ elements q ≡ₚ data :: elements q'.
Proof.
  intros Hw Hs. rewrite pop_unfold by done. unfold _priorityqueue_heapify_down.
  pose proof (removed_wf q Hw Hs) as Hwr. rewrite (removed_elements q Hw Hs).
  assert (same_entries (removed q)
    (heapify_down_loop compareFunc (size (removed q)) (removed q) 0).1) as (Hw1 & Hs1 & _ & _ & He).
  { destruct (decide (size (removed q) = 0)%nat) as [E|E].
    - rewrite E. simpl. by apply same_entries_refl.
    - apply down_loop_same; [done|lia]. }
  destruct (shrunk_spec _ Hw1) as (? & Hs2 & ->). split_and!; [done| |by rewrite He].
  by rewrite Hs2, Hs1.
Qed.

Section PopOrder.
Context (le : Z → Z → Prop) `{!HeapCompare compareFunc le}.

Lemma removed_free q :
  wf q → (0 < size q)%nat → heap_ordered le q → free_at le (size (removed q)) (heap (removed q)) 0.
Proof.
  intros Hw Hs Ho. pose proof (wf_slots_lt _ Hw). unfold removed. simpl. split.
  - intros j Hj Hpj Hj0. pose proof (parent_lt j ltac:(lia)).
    change (le (swapped 0 (size q - 1) (heap q) !!! ((j - 1) / 2)%nat)
               (swapped 0 (size q - 1) (heap q) !!! j)).
    rewrite !swapped_ne by lia. apply Ho. lia.
  - intros. lia.
Qed.

Lemma pop_ordered q :
  wf q → (0 < size q)%nat → heap_ordered le q →
  heap_ordered le (pop q).1 ∧ ∀ p, p ∈ elements q → le (pop q).2 p.
Proof.
  intros Hw Hs Ho. rewrite pop_unfold by done. simpl. split.
  - unfold _priorityqueue_heapify_down. pose proof (removed_wf q Hw Hs) as Hwr.
    destruct (decide (size (removed q) = 0)%nat) as [E|E].
    { rewrite E. simpl. apply shrunk_ordered; [done|]. intros j Hj. lia. }
    assert (Hr0 : (0 < size (removed q))%nat) by lia.
    pose proof (down_loop_same compareFunc (size (removed q)) _ 0 Hwr Hr0) as [(Hw1 & Hs1 & _) _].
    pose proof (down_loop_ordered compareFunc le (size (removed q)) _ 0 Hwr Hr0 ltac:(lia)
      (removed_free q Hw Hs Ho)) as Hd.
    destruct (heapify_down_loop _ _ _ _) as [q1 i1]. simpl in *. destruct Hd as [Hd1 Hd2].
    apply shrunk_ordered; [done|]. unfold heap_ordered. rewrite Hs1.
    apply (free_above_ordered le _ _ i1); [done|]. apply Hd2. intros ?; lia.
  - intros p [i [Hl Hi]%lookup_take_Some]%list_elem_of_lookup.
    rewrite <-(list_lookup_total_correct _ _ _ Hl). by apply root_least.
Qed.

Lemma drain_loop_spec n q :
  wf q → (size q ≤ n)%nat → heap_ordered le q →
  drain_loop compareFunc g_renew n q ≡ₚ elements q ∧
  StronglySorted le (drain_loop compareFunc g_renew n q).
Proof.
  revert q. induction n as [|n IH]; intros q Hw Hn Ho.
  - unfold elements. replace (size q) with 0%nat by lia. simpl. split; [done|constructor].
  - simpl. unfold priorityqueue_isEmpty. destruct (Nat.eqb_spec (size q) 0) as [E|E].
    { unfold elements. rewrite E. simpl. split; [done|constructor]. }
    pose proof (pop_spec q Hw ltac:(lia)) as Hp. pose proof (pop_ordered q Hw ltac:(lia) Ho) as Hpo.
    destruct (pop q) as [q' data]. destruct Hp as (Hw' & Hs' & He), Hpo as [Ho' Hmin]. simpl in *.
    specialize (IH q' Hw' ltac:(lia) Ho'). destruct IH as [IHp IHs].
    split; [by rewrite He, IHp|].
    constructor; [done|]. apply Forall_forall. intros x Hx. apply Hmin.
    rewrite He, <-IHp. by constructor.
Qed.

End PopOrder.

End Api.

(** [NULL] from a peek means an empty queue when no entry is [NULL]. *)
Lemma peek_cases q :
  wf q → 0 ∉ elements q →
  (priorityqueue_peek q = 0 ∧ elements q = []) ∨
  (priorityqueue_peek q ≠ 0 ∧ (0 < size q)%nat ∧ priorityqueue_peek q ∈ elements q ∧
   priorityqueue_peek q = heap q !!! 0%nat).
Proof.
  intros Hw H0. unfold priorityqueue_peek. destruct (Nat.ltb_spec 0 (size q)) as [Hs|Hs].
  - right. pose proof (elements_total q 0 Hw Hs). split_and!; [congruence|done..].
  - left. split; [done|]. unfold elements. by replace (size q) with 0%nat by lia.
Qed.

Lemma elements_length q : wf q → size q = length (elements q).
Proof. intros Hw. unfold elements. pose proof (wf_slots_lt _ Hw). rewrite length_take. lia. Qed.

(** [find] never follows a dangling address. *)
Lemma find_elements q data : wf q → priorityqueue_find q data = Some (if decide (data ∈ elements q) then data else 0).
Proof.
  intros Hw. unfold priorityqueue_find. destruct (map q !! data) as [[b i]|] eqn:Hm.
  - destruct (proj1 (wf_map _ Hw _ _) Hm) as (i' & Hi & Hl & [= -> ->]). rewrite Z.eqb_refl, Hl.
    rewrite decide_True; [done|]. unfold elements. apply list_elem_of_lookup. exists i'. by apply lookup_take_Some.
  - rewrite decide_False; [done|]. unfold elements. intros [i [Hl Hi]%lookup_take_Some]%list_elem_of_lookup.
    assert (map q !! data = Some (heapBlock q, i)) by (apply (wf_map _ Hw); by exists i). congruence.
Qed.

(** ** Properties *)

(** C16: draining a well-formed, heap-ordered queue with repeated pops yields
    every entry exactly once, in ascending order of the comparison function,
    whatever the allocator does to the array. *)
Theorem drain_sorted compareFunc g_renew le `{!HeapCompare compareFunc le} q :
  wf q → heap_ordered le q →
  drain compareFunc g_renew q ≡ₚ elements q ∧
  StronglySorted le (drain compareFunc g_renew q) ∧ NoDup (drain compareFunc g_renew q).
Proof.
  intros Hw Ho. unfold drain.
  destruct (drain_loop_spec compareFunc g_renew le (size q) q Hw ltac:(lia) Ho) as [Hp Hs].
  split_and!; [done..|]. rewrite Hp. by apply wf_NoDup.
Qed.

(** A push never uses a stale slot address; it adds the entry and returns
    TRUE if it was absent, keeps the entries and returns FALSE if it was
    present, and in both cases restores heap order even when the key of the
    pushed entry (and only that one) changed since the last operation. *)
Theorem push_correct compareFunc g_renew le le0 q data :
  HeapCompare compareFunc le → Transitive le0 →
  wf q → heap_ordered le0 q → agree_except le le0 data q →
  ∃ q', priorityqueue_push compareFunc g_renew q data
          = Some (q', bool_decide (data ∉ elements q)) ∧
    wf q' ∧ heap_ordered le q' ∧
    elements q' ≡ₚ (if decide (data ∈ elements q) then elements q else data :: elements q).
Proof.
  intros ? ? Hw Ho Ha. destruct (push_spec compareFunc g_renew q data Hw) as (q' & Hp & Hw' & He).
  exists q'. split_and!; [done|done| |done]. exact (push_ordered _ _ le le0 q data q' _ Hw Ho Ha Hp).
Qed.

(** A pop of a non-empty queue returns a least entry, removes exactly that
    entry, and leaves the queue well-formed and heap-ordered; find then no
    longer sees it. *)
Theorem pop_correct compareFunc g_renew le q :
  HeapCompare compareFunc le → wf q → heap_ordered le q → (0 < size q)%nat →
  let '(q', data) := priorityqueue_pop compareFunc g_renew q in
  wf q' ∧ heap_ordered le q' ∧ elements q ≡ₚ data :: elements q' ∧
  (∀ p, p ∈ elements q → le data p) ∧ priorityqueue_peek q = data ∧
  priorityqueue_find q' data = Some 0.
Proof.
  intros ? Hw Ho Hs.
  pose proof (pop_spec compareFunc g_renew q Hw Hs) as Hp.
  pose proof (pop_ordered compareFunc g_renew le q Hw Hs Ho) as [Ho' Hmin].
  pose proof (pop_unfold compareFunc g_renew q Hs) as Hu.
  destruct (priorityqueue_pop _ _ _) as [q' data]. destruct Hp as (Hw' & _ & He).
  split_and!; try done.
  - unfold priorityqueue_peek. destruct (Nat.ltb_spec 0 (size q)); [|lia]. congruence.
  - unfold priorityqueue_find. destruct (map q' !! data) eqn:Hm; [|done].
    exfalso. pose proof (wf_NoDup q Hw) as Hnd. rewrite He in Hnd.
    apply NoDup_cons in Hnd as [Hnd _]. apply Hnd, elements_lookup; eauto.
Qed.

(** The sift loops terminate for every comparison function, also one that
    is no order at all: one more unit of fuel than used changes nothing, so
    each satisfies the equation of the C [while] loop. *)
Theorem sift_loop_equations compareFunc q i :
  _priorityqueue_heapify_up compareFunc q i =
    (let p := ((i - 1) / 2)%nat in
     if (0 <? i)%nat && _priorityqueue_entry_smaller compareFunc q i p
     then _priorityqueue_heapify_up compareFunc (_priorityqueue_swap_entries q i p) p
     else (q, i)) ∧
  _priorityqueue_heapify_down compareFunc q i =
    (if (2 * i + 1 <? size q)%nat then
       let c := smaller_child compareFunc q i in
       if _priorityqueue_entry_smaller compareFunc q c i
       then _priorityqueue_heapify_down compareFunc (_priorityqueue_swap_entries q i c) c
       else (q, i)
     else (q, i)).
Proof.
  unfold _priorityqueue_heapify_up, _priorityqueue_heapify_down. split.
  - rewrite (up_loop_fuel _ i (S i)) by lia. cbn [heapify_up_loop].
    destruct (Nat.ltb_spec 0 i) as [H|H]; simpl; [|done].
    destruct (_priorityqueue_entry_smaller _ _ _ _); [|done].
    pose proof (parent_lt i H). apply up_loop_fuel; lia.
  - rewrite (down_loop_fuel _ (size q) (S (size q))) by lia. cbn [heapify_down_loop].
    destruct (Nat.ltb_spec (2 * i + 1) (size q)); [|done].
    destruct (_priorityqueue_entry_smaller _ _ _ _); [|done].
    apply down_loop_fuel; simpl; lia.
Qed.

(** ** Witnesses *)

(** Integers compared by their difference, and an allocator that always moves. *)
Definition sub_compare (a b : Z) : Z := a - b.
Definition moving_renew (b : Z) (n : nat) : Z := b + 4096.

#[export] Instance sub_compare_heap : HeapCompare sub_compare Z.le.
Proof. constructor; unfold sub_compare; lia. Qed.

(** The queue that results from pushing the entries of [l] in order. *)
Definition push_all compareFunc g_renew (block : Z) (l : list Z) : option PriorityQueue :=
  foldl (λ acc d, acc ≫= λ q, fst <$> priorityqueue_push compareFunc g_renew q d)
    (Some (priorityqueue_new block)) l.

Lemma new_wf b : wf (priorityqueue_new b).
Proof.
  constructor; simpl; [done|unfold INITIAL_SIZE; lia..|].
  intros p e. rewrite lookup_empty. split; [done|]. intros (i & ? & _). lia.
Qed.

Lemma new_ordered b le : heap_ordered le (priorityqueue_new b).
Proof. intros i Hi. simpl in Hi. lia. Qed.

Lemma push_all_ok compareFunc g_renew le `{!HeapCompare compareFunc le} block l q :
  push_all compareFunc g_renew block l = Some q → wf q ∧ heap_ordered le q.
Proof.
  revert q. unfold push_all. induction l as [|d l IH] using rev_ind; intros q.
  { intros [= <-]. split; [apply new_wf|apply new_ordered]. }
  rewrite foldl_app. simpl. destruct (foldl _ _ l) as [q0|]; [|done]. simpl.
  destruct (IH q0 eq_refl) as [Hw Ho].
  destruct (push_spec compareFunc g_renew q0 d Hw) as (q1 & Hp & Hw1 & _).
  rewrite Hp. intros [= <-]. split; [done|].
  assert (Htr : Transitive le) by (intros x y z; apply hc_trans).
  refine (push_ordered compareFunc g_renew le le q0 d q1 _ Hw Ho _ Hp).
  by intros x y _ _ _ _.
Qed.

(** A hundred and five entries, so that the array is reallocated on the way. *)
Definition sample : list Z := (λ k, (k * 37) `mod` 211 + 1) <$> seqZ 0 105.

Lemma drain_sorted_witness :
  ∃ q, push_all sub_compare moving_renew 4096 sample = Some q ∧ heapBlock q = 8192 ∧
    StronglySorted Z.le (drain sub_compare moving_renew q).
Proof.
  destruct (push_all sub_compare moving_renew 4096 sample) as [q|] eqn:E; [|by vm_compute in E].
  exists q. destruct (push_all_ok _ _ Z.le _ _ _ E) as [Hw Ho]. split; [done|split].
  - apply (f_equal (fmap heapBlock)) in E. vm_compute in E.
    injection E as E'. symmetry. exact E'.
  - exact (proj1 (proj2 (drain_sorted sub_compare moving_renew Z.le q Hw Ho))).
Defined.

Lemma push_correct_witness :
  ∃ q q', push_all sub_compare moving_renew 4096 [5; 3; 9] = Some q ∧
    priorityqueue_push sub_compare moving_renew q 3 = Some (q', false) ∧ heap_ordered Z.le q'.
Proof.
  destruct (push_all sub_compare moving_renew 4096 [5; 3; 9]) as [q|] eqn:E; [|by vm_compute in E].
  destruct (push_all_ok _ _ Z.le _ _ _ E) as [Hw Ho]. exists q.
  destruct (push_correct sub_compare moving_renew Z.le Z.le q 3 _ _ Hw Ho) as (q' & Hp & _ & Ho' & _).
  { by intros x y _ _ _ _. }
  exists q'. split; [done|split; [|done]]. rewrite Hp. f_equal. f_equal.
  vm_compute in E. injection E as <-. reflexivity.
Defined.

Lemma pop_correct_witness :
  ∃ q, push_all sub_compare moving_renew 4096 [5; 3; 9] = Some q ∧ (priorityqueue_pop sub_compare moving_renew q).2 = 3 ∧
    wf (priorityqueue_pop sub_compare moving_renew q).1.
Proof.
  destruct (push_all sub_compare moving_renew 4096 [5; 3; 9]) as [q|] eqn:E; [|by vm_compute in E].
  destruct (push_all_ok _ _ Z.le _ _ _ E) as [Hw Ho].
  assert (Hs : (0 < size q)%nat).
  { apply (f_equal (fmap size)) in E. vm_compute in E.
    injection E as E'.
    assert (E2 : size q = 3%nat) by (symmetry; exact E'). lia. }
  pose proof (pop_correct sub_compare moving_renew Z.le q _ Hw Ho Hs) as H.
  exists q. destruct (priorityqueue_pop _ _ q) as [q' d] eqn:Eq. simpl.
  split; [done|split; [|apply H]].
  vm_compute in E. injection E as <-. vm_compute in Eq. congruence.
Defined.

End PQ.
