(* ===== verification/Event.v ===== *)
(** * Events and their total order
    (src/phantom/src/main/core/work/event.c, and the counters and identity of
    a host from src/phantom/src/main/host/host.c)

    An event is a task bound to a destination host and a simulation time.  The
    comparison function of the event queues orders events by time, destination
    host id, source host id and creation number, which is what makes a
    simulation deterministic. *)

From S2P Require Import Prelude Float64 Cpu PriorityQueue.

Module Host.

(** The parts of a host the event core uses. *)
Record Host := mkHost {
  params_id : Z;
  eventIDCounter : Z;
  packetIDCounter : Z;
  packetPriorityCounter : F64.double;
  cpu : Cpu.CPU;
}.

#[export] Instance host_eta : Eta Host := fun h =>
  mkHost (params_id h) (eventIDCounter h) (packetIDCounter h) (packetPriorityCounter h) (cpu h).

#[export] Instance host_inhabited : Inhabited Host :=
  populate (mkHost 0 0 0 (F64.of_Z 0) (Cpu.mkCPU 1 1 (F64.of_Z 1) SIMTIME_INVALID SIMTIME_INVALID 0 0)).

Definition host_getNewEventID (h : Host) : Host * Z :=
  (h <| eventIDCounter := u64 (eventIDCounter h + 1) |>, eventIDCounter h).

Definition host_getNewPacketID (h : Host) : Host * Z :=
  (h <| packetIDCounter := u64 (packetIDCounter h + 1) |>, packetIDCounter h).

Definition host_getNextPacketPriority (h : Host) : Host * F64.double :=
  let p := F64.add (packetPriorityCounter h) (F64.of_Z 1) in
  (h <| packetPriorityCounter := p |>, p).

Definition host_compare (na nb : Host) : Z :=
  if params_id nb <? params_id na then 1
  else if params_id na <? params_id nb then -1 else 0.

(** [None] stands for a [NULL] host. *)
Definition host_isEqual (a b : option Host) : bool :=
  match a, b with
  | None, None => true
  | Some a, Some b => host_compare a b =? 0
  | _, _ => false
  end.

End Host.

Module Ev.
Import Host.

(** [srcHost], [dstHost] and [task] are addresses. *)
Record Event := mkEvent {
  srcHost : Z;
  dstHost : Z;
  task : Z;
  time : Z;
  srcHostEventID : Z;
  referenceCount : Z;
}.

#[export] Instance event_eta : Eta Event := fun e =>
  mkEvent (srcHost e) (dstHost e) (task e) (time e) (srcHostEventID e) (referenceCount e).

#[export] Instance event_inhabited : Inhabited Event := populate (mkEvent 0 0 0 0 0 0).

(** The hosts of the simulation, by address. *)
Abbreviation hosts := (gmap Z Host).

(** Takes an event id from the source host; the caller takes the reference on
    the task that [event_new_] counts. *)
Definition event_new_ (hs : hosts) (task time srcHost dstHost : Z) : hosts * Event :=
  let '(h, id) := host_getNewEventID (hs !!! srcHost) in
  (<[srcHost := h]> hs,
   {| srcHost := srcHost; dstHost := dstHost; task := task; time := time;
      srcHostEventID := id; referenceCount := 1 |}).

Definition event_ref (e : Event) : Event := e <| referenceCount := referenceCount e + 1 |>.

(** [None]: the last reference is gone, the event is freed and its task
    released. *)
Definition event_unref (e : Event) : option Event :=
  let e := e <| referenceCount := referenceCount e - 1 |> in
  if referenceCount e <=? 0 then None else Some e.

Definition event_getTime (e : Event) : Z := time e.
Definition event_getHost (e : Event) : Z := dstHost e.
Definition event_setTime (e : Event) (t : Z) : Event := e <| time := t |>.

Definition event_compare (hs : hosts) (a b : Event) : Z :=
  if time b <? time a then 1
  else if time a <? time b then -1
  else
    let cmpresult := host_compare (hs !!! dstHost a) (hs !!! dstHost b) in
    if 0 <? cmpresult then 1
    else if cmpresult <? 0 then -1
    else
      let cmpresult := host_compare (hs !!! srcHost a) (hs !!! srcHost b) in
      if 0 <? cmpresult then 1
      else if cmpresult <? 0 then -1
      else if srcHostEventID b <? srcHostEventID a then 1
      else if srcHostEventID a <? srcHostEventID b then -1
      else 0.

(** What executing an event does to its surroundings, in order. *)
Inductive action :=
  | HostLock (host : Z)
  | SetActiveHost (host : option Z)
  | AddVirtualProcessingDelay (host delay : Z)
  | ScheduleTask (task host delay : Z)
  | ContinueExecutionTimer (host : Z)
  | TaskExecute (task host : Z)
  | StopExecutionTimer (host : Z)
  | HostUnlock (host : Z).

Definition event_execute (hs : hosts) (e : Event) : hosts * list action :=
  let dst := dstHost e in
  let h := hs !!! dst in
  let h := h <| cpu := Cpu.cpu_updateTime (cpu h) (time e) |> in
  let body :=
    if Cpu.cpu_isBlocked (cpu h) then
      let cpuDelay := Cpu.cpu_getDelay (cpu h) in
      [AddVirtualProcessingDelay dst cpuDelay; ScheduleTask (task e) dst cpuDelay]
    else
      [ContinueExecutionTimer dst; TaskExecute (task e) dst; StopExecutionTimer dst] in
  (<[dst := h]> hs,
   [HostLock dst; SetActiveHost (Some dst)] ++ body ++ [SetActiveHost None; HostUnlock dst]).

(** Events live in memory; the queues hold their addresses. *)
Abbreviation events := (gmap Z Event).

Definition event_compare_at (hs : hosts) (es : events) (a b : Z) : Z :=
  event_compare hs (es !!! a) (es !!! b).

(** ** Specification *)

(** The sort key of an event, and its lexicographic order. *)
Definition key : Type := Z * Z * Z * Z.

Definition event_key (hs : hosts) (e : Event) : key :=
  (time e, params_id (hs !!! dstHost e), params_id (hs !!! srcHost e), srcHostEventID e).

Definition key_le (a b : key) : Prop :=
  let '(t1, d1, s1, n1) := a in
  let '(t2, d2, s2, n2) := b in
  t1 < t2 ∨ t1 = t2 ∧ (d1 < d2 ∨ d1 = d2 ∧ (s1 < s2 ∨ s1 = s2 ∧ n1 ≤ n2)).

Definition event_le (hs : hosts) (es : events) (a b : Z) : Prop :=
  key_le (event_key hs (es !!! a)) (event_key hs (es !!! b)).

#[export] Instance key_le_trans : Transitive key_le.
Proof. intros [[[? ?] ?] ?] [[[? ?] ?] ?] [[[? ?] ?] ?]. unfold key_le. lia. Qed.

#[export] Instance key_le_antisymm : AntiSymm (=) key_le.
Proof.
  intros [[[t d] s] n] [[[t' d'] s'] n'] H1 H2. unfold key_le in *.
  assert (t = t') by lia. assert (d = d') by lia. assert (s = s') by lia. assert (n = n') by lia.
  congruence.
Qed.

Lemma event_compare_key hs a b :
  (event_compare hs a b < 0 ↔ ¬ key_le (event_key hs b) (event_key hs a)) ∧
  (event_compare hs a b = 0 ↔ event_key hs a = event_key hs b) ∧
  (0 < event_compare hs a b ↔ ¬ key_le (event_key hs a) (event_key hs b)).
Proof.
  unfold event_compare, host_compare, event_key, key_le.
  set (da := params_id (hs !!! dstHost a)). set (db := params_id (hs !!! dstHost b)).
  set (sa := params_id (hs !!! srcHost a)). set (sb := params_id (hs !!! srcHost b)).
  cbv beta iota.
  compare_cases; split_and!; split; intros Hx;
    first [lia | f_equal; [f_equal; [f_equal|]|]; lia | exfalso; injection Hx; lia].
Qed.

#[export] Instance event_heap_compare hs es :
  PQ.HeapCompare (event_compare_at hs es) (event_le hs es).
Proof.
  constructor; unfold event_compare_at, event_le.
  - intros a b c. apply key_le_trans.
  - intros a b Hlt. pose proof (event_compare_key hs (es !!! a) (es !!! b)) as (Hk & _ & _).
    apply Hk in Hlt. unfold key_le, event_key in *. lia.
  - intros a b Hge. pose proof (event_compare_key hs (es !!! a) (es !!! b)) as (Hk & _ & _).
    destruct (Z.lt_ge_cases (event_compare hs (es !!! a) (es !!! b)) 0); [lia|].
    unfold key_le, event_key in *. lia.
Qed.

(** Heap order by event key means key order of the drained events. *)
Lemma sorted_keys hs es l :
  StronglySorted (event_le hs es) l →
  StronglySorted key_le ((λ p, event_key hs (es !!! p)) <$> l).
Proof.
  induction 1 as [|p l _ IH Hp]; simpl; constructor; [done|].
  apply Forall_fmap. by eapply Forall_impl.
Qed.

(** ** Properties *)

(** C35: the order of delivery does not depend on the order in which events
    were pushed, on where the events and the queue live in memory, or on the
    allocator: two queues whose events have the same keys deliver them in the
    same key sequence, by ascending time, destination, source and number. *)
Theorem event_order_deterministic hs es1 es2 r1 r2 q1 q2 :
  let keys es := fmap (λ p, event_key hs (es !!! p)) in
  PQ.wf q1 → PQ.heap_ordered (event_le hs es1) q1 →
  PQ.wf q2 → PQ.heap_ordered (event_le hs es2) q2 →
  keys es1 (PQ.elements q1) ≡ₚ keys es2 (PQ.elements q2) →
  keys es1 (PQ.drain (event_compare_at hs es1) r1 q1) =
    keys es2 (PQ.drain (event_compare_at hs es2) r2 q2) ∧
  StronglySorted key_le (keys es1 (PQ.drain (event_compare_at hs es1) r1 q1)).
Proof.
  intros keys Hw1 Ho1 Hw2 Ho2 Hp. unfold PQ.drain.
  destruct (PQ.drain_loop_spec (event_compare_at hs es1) r1 _ (PQ.size q1) q1 Hw1 ltac:(lia) Ho1)
    as [Hp1 Hs1%sorted_keys].
  destruct (PQ.drain_loop_spec (event_compare_at hs es2) r2 _ (PQ.size q2) q2 Hw2 ltac:(lia) Ho2)
    as [Hp2 Hs2%sorted_keys].
  split; [|done]. apply (StronglySorted_unique key_le); [done..|].
  unfold keys. by rewrite Hp1, Hp2.
Qed.

(** C27: [event_compare] is zero exactly for events with the same key, is
    antisymmetric, and its negative results are transitive; so the time, host
    ids and creation number decide every pair of distinct events. *)
Theorem event_compare_total_order hs a b c :
  (event_compare hs a b = 0 ↔ event_key hs a = event_key hs b) ∧
  event_compare hs a b = - event_compare hs b a ∧
  (event_compare hs a b < 0 → event_compare hs b c < 0 → event_compare hs a c < 0) ∧
  (time a < time b → event_compare hs a b = -1).
Proof.
  destruct (event_compare_key hs a b) as (Hab & Hab0 & _).
  destruct (event_compare_key hs b c) as (Hbc & _ & _).
  destruct (event_compare_key hs a c) as (Hac & _ & _).
  split_and!; [done| | |].
  - unfold event_compare, host_compare. compare_cases; lia.
  - rewrite Hab, Hbc, Hac. unfold key_le, event_key. lia.
  - intros Hlt. unfold event_compare. compare_cases; lia.
Qed.

(** Executing an event advances the destination's CPU clock to the event's
    time, runs the task exactly when the CPU is not blocked, otherwise
    reschedules the same task on the same host after the (positive) CPU delay,
    and does either inside the host's lock with the host active. *)
Theorem event_execute_correct hs e :
  let dst := dstHost e in
  let c := Cpu.cpu_updateTime (cpu (hs !!! dst)) (time e) in
  0 ≤ Cpu.threshold c →
  let '(hs', acts) := event_execute hs e in
  cpu (hs' !!! dst) = c ∧
  (∀ h, h ≠ dst → hs' !! h = hs !! h) ∧
  ∃ body, acts = [HostLock dst; SetActiveHost (Some dst)] ++ body ++ [SetActiveHost None; HostUnlock dst] ∧
    (Cpu.cpu_isBlocked c = false → ∃ pre post, body = pre ++ [TaskExecute (task e) dst] ++ post) ∧
    (Cpu.cpu_isBlocked c = true →
       ScheduleTask (task e) dst (Cpu.cpu_getDelay c) ∈ body ∧ 0 < Cpu.cpu_getDelay c ∧
       TaskExecute (task e) dst ∉ body).
Proof.
  intros dst c Hth. unfold event_execute. fold dst. simpl. fold c.
  split; [by rewrite lookup_total_insert_eq|].
  split; [intros h Hh; by rewrite lookup_insert_ne|].
  eexists. split; [reflexivity|]. split.
  - intros ->. by exists [ContinueExecutionTimer dst], [StopExecutionTimer dst].
  - intros Hb. rewrite Hb. split_and!; [set_solver| |].
    + unfold Cpu.cpu_isBlocked in Hb. case_match; [done|]. by apply Z.ltb_lt.
    + intros Hin. repeat (apply elem_of_cons in Hin as [?|Hin]; [done|]). by apply elem_of_nil in Hin.
Qed.

(** ** Witnesses *)

Definition sample_hosts : hosts :=
  {[ 100 := inhabitant <| params_id := 1 |>; 200 := inhabitant <| params_id := 2 |> ]}.

Definition ev (src dst t n : Z) : Event := mkEvent src dst 7 t n 1.

(** The same four events at different addresses. *)
Definition sample_events1 : events :=
  {[ 1 := ev 100 100 50 0; 2 := ev 100 200 50 1; 3 := ev 200 100 50 0; 4 := ev 100 200 20 2 ]}.
Definition sample_events2 : events :=
  {[ 31 := ev 100 200 20 2; 32 := ev 200 100 50 0; 33 := ev 100 100 50 0; 34 := ev 100 200 50 1 ]}.

Lemma event_order_deterministic_witness :
  ∃ q1 q2,
    PQ.push_all (event_compare_at sample_hosts sample_events1) (λ b _, b) 1 [2; 1; 4; 3] = Some q1 ∧
    PQ.push_all (event_compare_at sample_hosts sample_events2) (λ b _, b + 1) 9 [31; 32; 33; 34]
      = Some q2 ∧
    (λ p, event_key sample_hosts (sample_events1 !!! p)) <$>
      PQ.drain (event_compare_at sample_hosts sample_events1) (λ b _, b) q1 =
    (λ p, event_key sample_hosts (sample_events2 !!! p)) <$>
      PQ.drain (event_compare_at sample_hosts sample_events2) (λ b _, b + 1) q2.
Proof.
  destruct (PQ.push_all (event_compare_at sample_hosts sample_events1) (λ b _, b) 1 [2; 1; 4; 3])
    as [q1|] eqn:E1; [|by vm_compute in E1].
  destruct (PQ.push_all (event_compare_at sample_hosts sample_events2) (λ b _, b + 1) 9 [31; 32; 33; 34])
    as [q2|] eqn:E2; [|by vm_compute in E2].
  exists q1, q2. split; [done|split; [done|]].
  destruct (PQ.push_all_ok _ _ _ _ _ _ E1) as [Hw1 Ho1].
  destruct (PQ.push_all_ok _ _ _ _ _ _ E2) as [Hw2 Ho2].
  refine (proj1 (event_order_deterministic sample_hosts sample_events1 sample_events2
    (λ b _, b) (λ b _, b + 1) q1 q2 Hw1 Ho1 Hw2 Ho2 _)).
  vm_compute in E1, E2. injection E1 as <-. injection E2 as <-.
  apply (bool_decide_unpack _). vm_compute. reflexivity.
Defined.

Lemma event_execute_correct_witness :
  let hs := <[ 100 := inhabitant <| cpu := Cpu.mkCPU 1 1 (F64.of_Z 1) 5 SIMTIME_INVALID 0 90 |> ]>
              sample_hosts in
  ScheduleTask 7 100 40 ∈ (event_execute hs (ev 100 100 50 0)).2.
Proof.
  intros hs.
  pose proof (event_execute_correct hs (ev 100 100 50 0)) as H.
  destruct (event_execute hs (ev 100 100 50 0)) as [hs' acts].
  destruct H as (_ & _ & body & -> & _ & Hb); [vm_compute; discriminate|].
  destruct (Hb eq_refl) as [Hin _].
  apply elem_of_app. right. apply elem_of_app. left. exact Hin.
Defined.

End Ev.
