(* ===== verification/SchedulerHostSingle.v ===== *)
(** * The host-single scheduling policy
    (src/phantom/src/main/core/scheduler/scheduler_policy_host_single.c)

    Each host has its own event queue and each worker thread a fixed set of
    hosts.  A round of the simulation runs every event before the round's
    barrier; a thread runs all such events of one host before it moves on to
    the next.  An event for another host is delayed to the barrier, so that it
    cannot arrive in the receiver's past.

    Each operation locks the one event queue it touches; the definitions below
    are the atomic steps this yields.  Performance timers are left out. *)

From S2P Require Import Prelude Float64 Cpu PriorityQueue Event.

Module Sched.
Import Host Ev.

Record HostSingleQueueData := mkQData {
  pq : PQ.PriorityQueue;
  lastEventTime : Z;
  nPushed : Z;
  nPopped : Z;
}.

#[export] Instance qdata_eta : Eta HostSingleQueueData := fun q =>
  mkQData (pq q) (lastEventTime q) (nPushed q) (nPopped q).

Record HostSingleThreadData := mkTData {
  allHosts : option (list Z);
  unprocessedHosts : list Z;
  processedHosts : list Z;
  currentBarrier : Z;
}.

#[export] Instance tdata_eta : Eta HostSingleThreadData := fun t =>
  mkTData (allHosts t) (unprocessedHosts t) (processedHosts t) (currentBarrier t).

(** The policy's tables, with the memory the queues point into. *)
Record HostSinglePolicyData := mkPolicy {
  hosts_mem : hosts;
  events_mem : events;
  hostToQueueDataMap : gmap Z HostSingleQueueData;
  threadToThreadDataMap : gmap Z HostSingleThreadData;
  hostToThreadMap : gmap Z Z;
}.

#[export] Instance policy_eta : Eta HostSinglePolicyData := fun d =>
  mkPolicy (hosts_mem d) (events_mem d) (hostToQueueDataMap d) (threadToThreadDataMap d)
    (hostToThreadMap d).

Section Operations.
Context (g_renew : Z → nat → Z).

Definition _hostsinglethreaddata_new : HostSingleThreadData := mkTData None [] [] 0.

(** [block] is the address of the new queue's array. *)
Definition _hostsinglequeuedata_new (block : Z) : HostSingleQueueData :=
  mkQData (PQ.priorityqueue_new block) 0 0 0.

(** [self] is the calling thread. *)
Definition _schedulerpolicyhostsingle_addHost (d : HostSinglePolicyData)
    (block host randomThread self : Z) : HostSinglePolicyData :=
  let d := match hostToQueueDataMap d !! host with
           | None => d <| hostToQueueDataMap :=
                            <[host := _hostsinglequeuedata_new block]> (hostToQueueDataMap d) |>
           | Some _ => d
           end in
  let assignedThread := if negb (randomThread =? 0) then randomThread else self in
  let tdata := default _hostsinglethreaddata_new (threadToThreadDataMap d !! assignedThread) in
  let tdata := tdata <| unprocessedHosts := unprocessedHosts tdata ++ [host] |> in
  d <| threadToThreadDataMap := <[assignedThread := tdata]> (threadToThreadDataMap d) |>
    <| hostToThreadMap := <[host := assignedThread]> (hostToThreadMap d) |>.

Definition _schedulerpolicyhostsingle_getHosts (d : HostSinglePolicyData) (self : Z)
    : HostSinglePolicyData * option (list Z) :=
  match threadToThreadDataMap d !! self with
  | None => (d, None)
  | Some tdata =>
      match unprocessedHosts tdata, processedHosts tdata with
      | [], processed => (d, Some processed)
      | unprocessed, [] => (d, Some unprocessed)
      | unprocessed, processed =>
          let all := processed ++ unprocessed in
          (d <| threadToThreadDataMap :=
                  <[self := tdata <| allHosts := Some all |>]> (threadToThreadDataMap d) |>,
           Some all)
      end
  end.

(** [None]: no queue for the destination (a failed assertion). *)
Definition _schedulerpolicyhostsingle_push (d : HostSinglePolicyData)
    (event srcHost dstHost barrier : Z) : option HostSinglePolicyData :=
  let e := events_mem d !!! event in
  let d := if negb (srcHost =? dstHost) && (event_getTime e <? barrier)
           then d <| events_mem := <[event := event_setTime e barrier]> (events_mem d) |>
           else d in
  qdata ← hostToQueueDataMap d !! dstHost;
  '(pq', _) ← PQ.priorityqueue_push (event_compare_at (hosts_mem d) (events_mem d)) g_renew
                (pq qdata) event;
  let qdata := qdata <| pq := pq' |> <| nPushed := u64 (nPushed qdata + 1) |> in
  Some (d <| hostToQueueDataMap := <[dstHost := qdata]> (hostToQueueDataMap d) |>).

(** The start of a round: last round's processed hosts become unprocessed. *)
Definition enter_barrier (tdata : HostSingleThreadData) (barrier : Z) : HostSingleThreadData :=
  if currentBarrier tdata <? barrier then
    let tdata := tdata <| currentBarrier := barrier |> in
    match unprocessedHosts tdata, processedHosts tdata with
    | [], _ :: _ =>
        tdata <| unprocessedHosts := processedHosts tdata |>
              <| processedHosts := unprocessedHosts tdata |>
    | _, _ =>
        tdata <| unprocessedHosts := unprocessedHosts tdata ++ processedHosts tdata |>
              <| processedHosts := [] |>
    end
  else tdata.

(** The next event of one queue before the barrier, if any.  [None]: the event
    lies before the host's last one (a failed assertion). *)
Definition pop_queue (hs : hosts) (es : events) (qdata : HostSingleQueueData) (barrier : Z)
    : option (HostSingleQueueData * option Z) :=
  let nextEvent := PQ.priorityqueue_peek (pq qdata) in
  let eventTime := if negb (nextEvent =? 0) then event_getTime (es !!! nextEvent)
                   else SIMTIME_INVALID in
  if negb (nextEvent =? 0) && (eventTime <? barrier) then
    if lastEventTime qdata <=? eventTime then
      let qdata := qdata <| lastEventTime := eventTime |> in
      let '(pq', nextEvent) :=
        PQ.priorityqueue_pop (event_compare_at hs es) g_renew (pq qdata) in
      Some (qdata <| pq := pq' |> <| nPopped := u64 (nPopped qdata + 1) |>, Some nextEvent)
    else None
  else Some (qdata, None).

(** [while (!g_queue_is_empty(unprocessedHosts))]: every iteration that does
    not return moves one host out of the list. *)
Fixpoint pop_loop (d : HostSinglePolicyData) (unprocessed processed : list Z) (barrier : Z)
    : option (HostSinglePolicyData * list Z * list Z * option Z) :=
  match unprocessed with
  | [] => Some (d, [], processed, None)
  | host :: rest =>
      qdata ← hostToQueueDataMap d !! host;
      '(qdata, nextEvent) ← pop_queue (hosts_mem d) (events_mem d) qdata barrier;
      let d := d <| hostToQueueDataMap := <[host := qdata]> (hostToQueueDataMap d) |> in
      match nextEvent with
      | Some event => Some (d, unprocessed, processed, Some event)
      | None => pop_loop d rest (processed ++ [host]) barrier
      end
  end.

Definition _schedulerpolicyhostsingle_pop (d : HostSinglePolicyData) (self barrier : Z)
    : option (HostSinglePolicyData * option Z) :=
  match threadToThreadDataMap d !! self with
  | None => Some (d, None)
  | Some tdata =>
      let tdata := enter_barrier tdata barrier in
      '(d, unprocessed, processed, event) ←
        pop_loop d (unprocessedHosts tdata) (processedHosts tdata) barrier;
      let tdata := tdata <| unprocessedHosts := unprocessed |> <| processedHosts := processed |> in
      Some (d <| threadToThreadDataMap := <[self := tdata]> (threadToThreadDataMap d) |>, event)
  end.

(** One host's contribution to the search; [None]: the host has no queue. *)
Definition _schedulerpolicyhostsingle_findMinTime (d : HostSinglePolicyData)
    (nextEventTime : option Z) (host : Z) : option Z :=
  t ← nextEventTime;
  qdata ← hostToQueueDataMap d !! host;
  let event := PQ.priorityqueue_peek (pq qdata) in
  Some (if negb (event =? 0) then Z.min t (event_getTime (events_mem d !!! event)) else t).

Definition _schedulerpolicyhostsingle_getNextTime (d : HostSinglePolicyData) (self : Z) : option Z :=
  match threadToThreadDataMap d !! self with
  | None => Some SIMTIME_MAX
  | Some tdata =>
      let t := foldl (_schedulerpolicyhostsingle_findMinTime d) (Some SIMTIME_MAX)
                 (unprocessedHosts tdata) in
      foldl (_schedulerpolicyhostsingle_findMinTime d) t (processedHosts tdata)
  end.

Definition schedulerpolicyhostsingle_new (hs : hosts) (es : events) : HostSinglePolicyData :=
  mkPolicy hs es ∅ ∅ ∅.

(** ** The policy as a transition system

    A state is the barrier of the current round with the policy's data.  A
    worker pushes events it has just created: for its own host not before the
    host's last event, for another host at any time. *)
Inductive step : Z * HostSinglePolicyData → Z * HostSinglePolicyData → Prop :=
  | step_addHost B d block host randomThread self :
      step (B, d) (B, _schedulerpolicyhostsingle_addHost d block host randomThread self)
  | step_create B d event e :
      (∀ h q, hostToQueueDataMap d !! h = Some q → event ∉ PQ.elements (pq q)) →
      step (B, d) (B, d <| events_mem := <[event := e]> (events_mem d) |>)
  | step_push B d d' event src dst :
      event ≠ 0 →
      (∀ h q, hostToQueueDataMap d !! h = Some q → event ∉ PQ.elements (pq q)) →
      (src = dst → ∀ q, hostToQueueDataMap d !! dst = Some q →
         lastEventTime q ≤ time (events_mem d !!! event)) →
      _schedulerpolicyhostsingle_push d event src dst B = Some d' →
      step (B, d) (B, d')
  | step_pop B d d' self r :
      _schedulerpolicyhostsingle_pop d self B = Some (d', r) →
      step (B, d) (B, d')
  | step_round B B' d : B ≤ B' ≤ SIMTIME_MAX → step (B, d) (B', d).

End Operations.

(** ** The invariant *)

(** A host's queue in a round with barrier [B]: no queued event lies before
    the last event the host ran, which lies within the round. *)
Record queue_ok (B : Z) (hs : hosts) (es : events) (q : HostSingleQueueData) : Prop := {
  qo_wf : PQ.wf (pq q);
  qo_ordered : PQ.heap_ordered (event_le hs es) (pq q);
  qo_null : 0 ∉ PQ.elements (pq q);
  qo_last : 0 ≤ lastEventTime q ≤ B;
  qo_future : ∀ p, p ∈ PQ.elements (pq q) → lastEventTime q ≤ time (es !!! p);
}.

Definition queues_ok (B : Z) (d : HostSinglePolicyData) : Prop :=
  ∀ h q, hostToQueueDataMap d !! h = Some q → queue_ok B (hosts_mem d) (events_mem d) q.

(** Every host a thread runs has a queue. *)
Definition threads_ok (d : HostSinglePolicyData) : Prop :=
  ∀ t td h, threadToThreadDataMap d !! t = Some td →
    h ∈ unprocessedHosts td ++ processedHosts td → is_Some (hostToQueueDataMap d !! h).

Definition inv (s : Z * HostSinglePolicyData) : Prop :=
  0 ≤ s.1 ≤ SIMTIME_MAX ∧ queues_ok s.1 s.2 ∧ threads_ok s.2.

(** The two runs of the event memory agree on the events of a queue. *)
Lemma queue_ok_mem B hs es event e q :
  event ∉ PQ.elements (pq q) → queue_ok B hs es q → queue_ok B hs (<[event := e]> es) q.
Proof.
  intros Hne [Hw Ho Hnull Hl Hf].
  assert (Hsame : ∀ p, p ∈ PQ.elements (pq q) → <[event := e]> es !!! p = es !!! p).
  { intros p Hp. rewrite lookup_total_insert_ne; [done|]. by intros ->. }
  constructor; [done| |done|done|].
  - intros i Hi. pose proof (PQ.parent_lt i (proj1 Hi)). unfold event_le.
    rewrite !Hsame by (apply PQ.elements_total; [done|lia]). by apply Ho.
  - intros p Hp. rewrite Hsame by done. by apply Hf.
Qed.

Lemma queue_ok_later B B' hs es q : B ≤ B' → queue_ok B hs es q → queue_ok B' hs es q.
Proof. intros HB [? ? ? ? ?]. constructor; auto; lia. Qed.

Lemma new_queue_ok B hs es block : 0 ≤ B → queue_ok B hs es (_hostsinglequeuedata_new block).
Proof.
  intros. constructor; simpl; [apply PQ.new_wf|apply PQ.new_ordered| |lia|].
  - unfold PQ.elements. simpl. apply not_elem_of_nil.
  - intros p Hp. unfold PQ.elements in Hp. simpl in Hp. by apply elem_of_nil in Hp.
Qed.

Section Proofs.
Context (g_renew : Z → nat → Z).

(** Replacing one queue by a good one keeps the tables good. *)
Lemma insert_queues_ok B d h q :
  queues_ok B d → queue_ok B (hosts_mem d) (events_mem d) q →
  queues_ok B (d <| hostToQueueDataMap := <[h := q]> (hostToQueueDataMap d) |>).
Proof.
  intros Hqs Hq h' q'. simpl. destruct (decide (h = h')) as [->|].
  - rewrite lookup_insert_eq. by intros [= <-].
  - rewrite lookup_insert_ne by done. apply Hqs.
Qed.

Lemma insert_threads_ok d h q :
  threads_ok d → threads_ok (d <| hostToQueueDataMap := <[h := q]> (hostToQueueDataMap d) |>).
Proof.
  intros Ht t td h' Htd Hin. simpl in *. destruct (decide (h = h')) as [->|].
  - rewrite lookup_insert_eq. eauto.
  - rewrite lookup_insert_ne by done. eauto.
Qed.

Lemma addHost_inv B d block host randomThread self :
  inv (B, d) → inv (B, _schedulerpolicyhostsingle_addHost d block host randomThread self).
Proof.
  intros (HB & Hq & Ht). unfold _schedulerpolicyhostsingle_addHost.
  set (d1 := match hostToQueueDataMap d !! host with None => _ | Some _ => d end).
  assert (Hd1 : queues_ok B d1 ∧ threads_ok d1 ∧ is_Some (hostToQueueDataMap d1 !! host)).
  { unfold d1. destruct (hostToQueueDataMap d !! host) eqn:E; [by rewrite E|].
    split_and!; [apply insert_queues_ok; [done|apply new_queue_ok; simpl in HB; lia]|by apply insert_threads_ok|].
    simpl. rewrite lookup_insert_eq. eauto. }
  clearbody d1. destruct Hd1 as (Hq1 & Ht1 & Hh). split; [done|split; [done|]].
  intros t td h. simpl. set (a := if negb _ then _ else _).
  destruct (decide (a = t)) as [<-|].
  - rewrite lookup_insert_eq. intros [= <-] Hin. simpl in Hin.
    rewrite !elem_of_app, list_elem_of_singleton in Hin.
    destruct (threadToThreadDataMap d1 !! a) as [td|] eqn:E; simpl in Hin.
    + assert (h = host ∨ h ∈ unprocessedHosts td ++ processedHosts td) as [->|Hold]
        by (rewrite elem_of_app; tauto); [done|by eapply Ht1].
    + rewrite !elem_of_nil in Hin. by assert (h = host) as -> by tauto.
  - rewrite lookup_insert_ne by done. apply Ht1.
Qed.

(** A push into a good queue, of an event not before the host's last one. *)
Lemma queue_push_ok B hs es q event :
  queue_ok B hs es q → event ≠ 0 → lastEventTime q ≤ time (es !!! event) →
  ∃ pq' b, PQ.priorityqueue_push (event_compare_at hs es) g_renew (pq q) event = Some (pq', b) ∧
    PQ.elements pq' ≡ₚ (if decide (event ∈ PQ.elements (pq q)) then PQ.elements (pq q)
                        else event :: PQ.elements (pq q)) ∧
    ∀ n, queue_ok B hs es (q <| pq := pq' |> <| nPushed := n |>).
Proof.
  intros [Hw Ho Hnull Hl Hf] H0 Ht.
  destruct (PQ.push_spec (event_compare_at hs es) g_renew (pq q) event Hw) as (pq' & Hp & Hw' & He).
  assert (Htr : Transitive (event_le hs es)) by (intros x y z; apply PQ.hc_trans).
  exists pq', (bool_decide (event ∉ PQ.elements (pq q))). split_and!; [done..|].
  intros n. constructor; simpl; [done| | |done|].
  - refine (PQ.push_ordered _ _ _ _ _ _ _ _ Hw Ho _ Hp). by intros x y _ _ _ _.
  - rewrite He. case_decide; [done|]. by rewrite not_elem_of_cons.
  - intros p. rewrite He. case_decide; [apply Hf|].
    intros [->|?]%elem_of_cons; auto.
Qed.

Lemma push_inv B d event src dst q :
  inv (B, d) → event ≠ 0 →
  (∀ h q, hostToQueueDataMap d !! h = Some q → event ∉ PQ.elements (pq q)) →
  hostToQueueDataMap d !! dst = Some q →
  (src = dst → lastEventTime q ≤ time (events_mem d !!! event)) →
  ∃ d' q', _schedulerpolicyhostsingle_push g_renew d event src dst B = Some d' ∧ inv (B, d') ∧
    hostToQueueDataMap d' = <[dst := q']> (hostToQueueDataMap d) ∧
    PQ.elements (pq q') ≡ₚ event :: PQ.elements (pq q) ∧
    time (events_mem d' !!! event) =
      (if decide (src = dst) then time (events_mem d !!! event)
       else Z.max B (time (events_mem d !!! event))).
Proof.
  intros (HB & Hqs & Hts) H0 Hfresh Hdst Hlocal.
  unfold _schedulerpolicyhostsingle_push, event_getTime.
  set (e := events_mem d !!! event). set (adj := negb (src =? dst) && (time e <? B)).
  set (d1 := if adj then _ else d).
  assert (Hd1 : queues_ok B d1 ∧ threads_ok d1 ∧ hostToQueueDataMap d1 = hostToQueueDataMap d ∧
    time (events_mem d1 !!! event) = (if decide (src = dst) then time e else Z.max B (time e))).
  { unfold d1, adj. destruct (Z.eqb_spec src dst), (Z.ltb_spec (time e) B); simpl; split_and!;
      try done; rewrite ?decide_True, ?decide_False by done; try done; try (fold e; lia).
    - intros h q' Hq'. simpl in *. apply queue_ok_mem; eauto.
    - by rewrite lookup_total_insert_eq; simpl; lia. }
  clearbody d1. destruct Hd1 as (Hqs1 & Hts1 & Hmap & Htime).
  assert (Hdst1 : hostToQueueDataMap d1 !! dst = Some q) by congruence.
  rewrite Hdst1. simpl.
  assert (Hq1 : queue_ok B (hosts_mem d1) (events_mem d1) q) by by apply (Hqs1 dst).
  destruct (queue_push_ok B _ _ q event Hq1 H0) as (pq' & b & Hp & He & Hok).
  { rewrite Htime. pose proof (qo_last _ _ _ _ Hq1). case_decide; [auto|lia]. }
  rewrite Hp. simpl. do 2 eexists. split; [reflexivity|]. split; [|split_and!].
  - split; [done|split; [apply insert_queues_ok; auto|by apply insert_threads_ok]].
  - simpl. by rewrite Hmap.
  - simpl. rewrite He. rewrite decide_False by eauto. done.
  - done.
Qed.

(** No event of the host is due before [B]. *)
Definition idle (B : Z) (d : HostSinglePolicyData) (h : Z) : Prop :=
  ∃ q, hostToQueueDataMap d !! h = Some q ∧
    ∀ p, p ∈ PQ.elements (pq q) → B ≤ time (events_mem d !!! p).

(** [q'] is [q] with its least event [ev] taken out and recorded. *)
Definition popped (B : Z) (hs : hosts) (es : events) (q q' : HostSingleQueueData) (ev : Z) : Prop :=
  PQ.elements (pq q) ≡ₚ ev :: PQ.elements (pq q') ∧
  (∀ p, p ∈ PQ.elements (pq q) → event_le hs es ev p) ∧
  lastEventTime q ≤ time (es !!! ev) < B ∧
  lastEventTime q' = time (es !!! ev).

Lemma event_le_time hs es a b : event_le hs es a b → time (es !!! a) ≤ time (es !!! b).
Proof. unfold event_le, key_le, event_key. lia. Qed.

Lemma pop_queue_ok B hs es q :
  B ≤ SIMTIME_INVALID → queue_ok B hs es q →
  ∃ q' r, pop_queue g_renew hs es q B = Some (q', r) ∧ queue_ok B hs es q' ∧
    match r with
    | Some ev => popped B hs es q q' ev
    | None => q' = q ∧ ∀ p, p ∈ PQ.elements (pq q) → B ≤ time (es !!! p)
    end.
Proof.
  intros HB Hok. destruct Hok as [Hw Ho Hnull Hl Hf] eqn:Eok. clear Eok. unfold pop_queue, event_getTime.
  destruct (PQ.peek_cases (pq q) Hw Hnull) as [[-> Hemp]|(Hne & Hs & Hin & Hroot)].
  { exists q, None. split; [done|split; [done|]]. rewrite Hemp. split; [done|].
    by intros p ?%elem_of_nil. }
  apply Z.eqb_neq in Hne. rewrite Hne. apply Z.eqb_neq in Hne. cbn [negb andb].
  pose proof (PQ.pop_spec (event_compare_at hs es) g_renew (pq q) Hw Hs) as Hp.
  pose proof (PQ.pop_ordered (event_compare_at hs es) g_renew _ (pq q) Hw Hs Ho)
    as [Ho' Hmin].
  pose proof (PQ.pop_unfold (event_compare_at hs es) g_renew (pq q) Hs) as Hu.
  destruct (PQ.priorityqueue_pop _ _ _) as [pq' ev]. destruct Hp as (Hw' & _ & He).
  assert (ev = PQ.priorityqueue_peek (pq q)) as Hev by congruence. rewrite <-Hev in *. simpl in *.
  destruct (Z.ltb_spec (time (es !!! ev)) B) as [Hlt|Hge].
  - pose proof (Hf ev Hin) as Hle. apply Z.leb_le in Hle as ->.
    do 2 eexists. split; [reflexivity|]. split.
    + constructor; simpl; [done|done| |split; [|lia]|].
      * intros H0. apply Hnull. rewrite He. by right.
      * pose proof (Hf ev Hin). lia.
      * intros p Hp. apply (event_le_time hs). apply Hmin. rewrite He. by right.
    + split_and!; [done|done|by apply Hf|done|done].
  - exists q, None. split; [done|split; [done|]]. split; [done|].
    intros p Hp. etransitivity; [exact Hge|]. apply (event_le_time hs). by apply Hmin.
Qed.

Lemma reinsert_queue d h q :
  hostToQueueDataMap d !! h = Some q →
  d <| hostToQueueDataMap := <[h := q]> (hostToQueueDataMap d) |> = d.
Proof. intros. destruct d. simpl in *. by rewrite insert_id. Qed.

(** How a search leaves the tables. *)
Definition loop_result (B : Z) (d d1 : HostSinglePolicyData) (u : list Z) (r : option Z) : Prop :=
  match r with
  | None => u = [] ∧ d1 = d
  | Some ev => ∃ h rest q q', u = h :: rest ∧ hostToQueueDataMap d !! h = Some q ∧
      d1 = d <| hostToQueueDataMap := <[h := q']> (hostToQueueDataMap d) |> ∧
      queue_ok B (hosts_mem d) (events_mem d) q' ∧ popped B (hosts_mem d) (events_mem d) q q' ev
  end.

Lemma pop_loop_ok B d unprocessed processed :
  B ≤ SIMTIME_INVALID → queues_ok B d →
  (∀ h, h ∈ unprocessed → is_Some (hostToQueueDataMap d !! h)) →
  ∃ d' skipped u r,
    pop_loop g_renew d unprocessed processed B = Some (d', u, processed ++ skipped, r) ∧
    unprocessed = skipped ++ u ∧ (∀ h, h ∈ skipped → idle B d h) ∧
    loop_result B d d' u r.
Proof.
  intros HB Hqs. revert processed. induction unprocessed as [|h rest IH]; intros processed Hh.
  { exists d, [], [], None. rewrite app_nil_r. split_and!; try done. by intros h ?%elem_of_nil. }
  destruct (Hh h ltac:(by left)) as [q Hq]. simpl. rewrite Hq. simpl.
  destruct (pop_queue_ok B _ _ q HB (Hqs h q Hq)) as (q' & r & -> & Hok & Hr). simpl.
  destruct r as [ev|].
  - do 4 eexists. split; [rewrite (app_nil_r processed); reflexivity|].
    split; [reflexivity|]. split; [by intros ? ?%elem_of_nil|]. by exists h, rest, q, q'.
  - destruct Hr as [-> Hidle]. rewrite reinsert_queue by done.
    destruct (IH (processed ++ [h])) as (d' & skipped & u & r & Hloop & -> & Hsk & Hr).
    { intros h' Hin. apply Hh. by right. }
    exists d', (h :: skipped), u, r. rewrite Hloop, <-app_assoc. split_and!; [done|done| |done].
    intros h' [->|?]%elem_of_cons; [by exists q|by apply Hsk].
Qed.

Lemma enter_barrier_perm td B :
  unprocessedHosts (enter_barrier td B) ++ processedHosts (enter_barrier td B) ≡ₚ
  unprocessedHosts td ++ processedHosts td.
Proof.
  unfold enter_barrier. destruct (currentBarrier td <? B); [|done].
  destruct (unprocessedHosts td) as [|x xs] eqn:E1, (processedHosts td) as [|y ys] eqn:E2;
    simpl; rewrite ?E1, ?E2; simpl; by rewrite ?app_nil_r.
Qed.

Lemma loop_result_tables B d d1 u r :
  queues_ok B d → loop_result B d d1 u r →
  queues_ok B d1 ∧ events_mem d1 = events_mem d ∧ hosts_mem d1 = hosts_mem d ∧
  threadToThreadDataMap d1 = threadToThreadDataMap d ∧
  (∀ h, is_Some (hostToQueueDataMap d !! h) → is_Some (hostToQueueDataMap d1 !! h)).
Proof.
  intros Hqs Hr. destruct r as [ev|].
  - destruct Hr as (h & rest & q & q' & _ & Hq & -> & Hok & _).
    split_and!; [by apply insert_queues_ok|done..|].
    intros h' Hh'. simpl. destruct (decide (h = h')) as [->|].
    + rewrite lookup_insert_eq. eauto.
    + by rewrite lookup_insert_ne.
  - destruct Hr as [_ ->]. by split_and!.
Qed.

Lemma pop_inv B d self :
  inv (B, d) →
  ∃ d' r, _schedulerpolicyhostsingle_pop g_renew d self B = Some (d', r) ∧ inv (B, d') ∧
    events_mem d' = events_mem d ∧ hosts_mem d' = hosts_mem d ∧
    ∀ td, threadToThreadDataMap d !! self = Some td →
      ∃ td', threadToThreadDataMap d' !! self = Some td' ∧
        unprocessedHosts td' ++ processedHosts td' ≡ₚ unprocessedHosts td ++ processedHosts td ∧
        match r with
        | Some ev => ∃ h q q', h ∈ unprocessedHosts td' ∧
            hostToQueueDataMap d !! h = Some q ∧
            hostToQueueDataMap d' = <[h := q']> (hostToQueueDataMap d) ∧ popped B (hosts_mem d) (events_mem d) q q' ev
        | None => hostToQueueDataMap d' = hostToQueueDataMap d ∧ unprocessedHosts td' = [] ∧
            ∀ h, h ∈ unprocessedHosts (enter_barrier td B) → idle B d h
        end.
Proof.
  intros (HB & Hqs & Hts). unfold _schedulerpolicyhostsingle_pop. simpl in HB.
  destruct (threadToThreadDataMap d !! self) as [td|] eqn:Htd.
  2: { exists d, None. by split_and!. }
  pose proof (enter_barrier_perm td B) as Hperm. set (tb := enter_barrier td B) in *.
  assert (Hin : ∀ h, h ∈ unprocessedHosts tb ++ processedHosts tb → is_Some (hostToQueueDataMap d !! h)).
  { intros h. rewrite Hperm. by eapply Hts. }
  destruct (pop_loop_ok B d (unprocessedHosts tb) (processedHosts tb))
    as (d1 & skipped & u & r & Hloop & Hu & Hsk & Hr).
  { unfold SIMTIME_MAX, SIMTIME_INVALID in *. lia. }
  { done. }
  { intros h Hh. apply Hin, elem_of_app. auto. }
  rewrite Hloop. simpl. do 2 eexists. split; [reflexivity|].
  destruct (loop_result_tables B d d1 u r Hqs Hr) as (Hqs1 & He1 & Hh1 & Ht1 & Hs1).
  assert (Hperm' : u ++ processedHosts tb ++ skipped ≡ₚ unprocessedHosts td ++ processedHosts td).
  { rewrite <-Hperm, Hu, (Permutation_app_comm (processedHosts tb)), !app_assoc.
    by rewrite (Permutation_app_comm u). }
  split; [|split; [done|split; [done|]]].
  - split; [done|split; [done|]]. intros t td0 h. simpl. rewrite Ht1.
    destruct (decide (self = t)) as [<-|].
    + rewrite lookup_insert_eq. intros [= <-]. simpl. rewrite Hperm'. intros Hh.
      apply Hs1. by eapply Hts.
    + rewrite lookup_insert_ne by done. intros ? ?. apply Hs1. by eapply Hts.
  - intros td0 [= <-]. simpl. rewrite lookup_insert_eq. eexists. split; [reflexivity|].
    split; [done|]. simpl. destruct r as [ev|].
    + destruct Hr as (h & rest & q & q' & -> & Hq & -> & _ & Hp).
      exists h, q, q'. split_and!; [by left|done..].
    + destruct Hr as [-> ->]. split_and!; [done|done|].
      rewrite app_nil_r in Hu. intros h Hh. apply Hsk. rewrite <-Hu. exact Hh.
Qed.

Lemma create_inv B d event e :
  (∀ h q, hostToQueueDataMap d !! h = Some q → event ∉ PQ.elements (pq q)) →
  inv (B, d) → inv (B, d <| events_mem := <[event := e]> (events_mem d) |>).
Proof.
  intros Hf (HB & Hqs & Hts). split; [done|split; [|done]].
  intros h q Hq. simpl in *. apply queue_ok_mem; eauto.
Qed.

Lemma step_inv s s' : inv s → step g_renew s s' → inv s'.
Proof.
  intros Hi Hs. destruct Hs as [B d block host rt self|B d event e Hf|B d d' event src dst H0 Hf Hl Hp
    |B d d' self r Hp|B B' d HB].
  - by apply addHost_inv.
  - by apply create_inv.
  - destruct (hostToQueueDataMap d !! dst) as [q|] eqn:Hq.
    + destruct (push_inv B d event src dst q Hi H0 Hf Hq) as (d'' & _ & Hp' & Hi' & _); [auto|].
      congruence.
    + unfold _schedulerpolicyhostsingle_push in Hp.
      assert (E : hostToQueueDataMap (if negb (src =? dst) && (event_getTime (events_mem d !!! event) <? B)
        then d <| events_mem := <[event := event_setTime (events_mem d !!! event) B]> (events_mem d) |>
        else d) = hostToQueueDataMap d) by (by destruct (_ && _)).
      by rewrite E, Hq in Hp.
  - destruct (pop_inv B d self Hi) as (d'' & r' & Hp' & Hi' & _). congruence.
  - destruct Hi as (HB0 & Hqs & Hts). cbn [fst snd] in *. destruct HB.
    split; [simpl; lia|split; [|done]].
    intros h q Hq. apply (queue_ok_later B); [done|]. by apply Hqs with h.
Qed.

Lemma steps_inv s s' : rtc (step g_renew) s s' → inv s → inv s'.
Proof. induction 1; eauto using step_inv. Qed.

Lemma init_inv hs es : inv (0, schedulerpolicyhostsingle_new hs es).
Proof.
  split; [unfold SIMTIME_MAX, UINT64_MAX; simpl; lia|split].
  - intros h q. simpl. by rewrite lookup_empty.
  - intros t td h. simpl. by rewrite lookup_empty.
Qed.

(** The times of the events queued for the hosts of a thread. *)
Definition thread_times (d : HostSinglePolicyData) (td : HostSingleThreadData) (t : Z) : Prop :=
  ∃ h q p, h ∈ unprocessedHosts td ++ processedHosts td ∧ hostToQueueDataMap d !! h = Some q ∧
    p ∈ PQ.elements (pq q) ∧ t = time (events_mem d !!! p).

Lemma findMinTime_ok B d hs m :
  queues_ok B d → (∀ h, h ∈ hs → is_Some (hostToQueueDataMap d !! h)) →
  ∃ t, foldl (_schedulerpolicyhostsingle_findMinTime d) (Some m) hs = Some t ∧ t ≤ m ∧
    (∀ h q p, h ∈ hs → hostToQueueDataMap d !! h = Some q → p ∈ PQ.elements (pq q) →
       t ≤ time (events_mem d !!! p)) ∧
    (t = m ∨ ∃ h q p, h ∈ hs ∧ hostToQueueDataMap d !! h = Some q ∧
       p ∈ PQ.elements (pq q) ∧ t = time (events_mem d !!! p)).
Proof.
  intros Hqs. revert m. induction hs as [|h hs IH]; intros m Hh.
  { exists m. split_and!; [done|lia| |by left]. by intros h q p ?%elem_of_nil. }
  destruct (Hh h ltac:(by left)) as [q Hq]. simpl. rewrite Hq. simpl. unfold event_getTime.
  destruct (Hqs h q Hq) as [Hw Ho Hnull _ _].
  destruct (PQ.peek_cases (pq q) Hw Hnull) as [[-> Hemp]|(Hne & Hs & Hin & Hroot)]; simpl.
  - destruct (IH m) as (t & -> & Hle & Hmin & Hex); [intros; apply Hh; by right|].
    exists t. split_and!; [done|done| |].
    + intros h' q' p [->|Hin]%elem_of_cons Hq' Hp; [|by eapply Hmin].
      assert (q' = q) as -> by congruence. rewrite Hemp in Hp. by apply elem_of_nil in Hp.
    + destruct Hex as [?|(h' & q' & p & ? & ?)]; [by left|right]. exists h', q', p.
      split; [by right|done].
  - apply Z.eqb_neq in Hne. rewrite Hne. simpl.
    set (ev := PQ.priorityqueue_peek (pq q)) in *.
    destruct (IH (m `min` time (events_mem d !!! ev))) as (t & -> & Hle & Hmin & Hex);
      [intros; apply Hh; by right|].
    exists t. split_and!; [done|lia| |].
    + intros h' q' p [->|Hin']%elem_of_cons Hq' Hp; [|by eapply Hmin].
      assert (q' = q) as -> by congruence.
      pose proof Hp as [i [Hl Hi]%lookup_take_Some]%list_elem_of_lookup.
      pose proof (PQ.root_least (event_compare_at (hosts_mem d) (events_mem d)) _ (pq q) i Hw Ho Hi)
        as Hr%event_le_time.
      rewrite (list_lookup_total_correct _ _ _ Hl), <-Hroot in Hr. lia.
    + destruct Hex as [->|(h' & q' & p & ? & ?)].
      * destruct (Z.min_spec m (time (events_mem d !!! ev))) as [[_ ->]|[_ ->]]; [by left|right].
        exists h, q, ev. split_and!; [by left|done..].
      * right. exists h', q', p. split; [by right|done].
Qed.

Lemma getNextTime_ok B d self td :
  inv (B, d) → threadToThreadDataMap d !! self = Some td →
  ∃ t, _schedulerpolicyhostsingle_getNextTime d self = Some t ∧
    (∀ t', thread_times d td t' → t ≤ t') ∧ t ≤ SIMTIME_MAX ∧
    (t = SIMTIME_MAX ∨ thread_times d td t).
Proof.
  intros (_ & Hqs & Hts) Htd. unfold _schedulerpolicyhostsingle_getNextTime. rewrite Htd.
  destruct (findMinTime_ok B d (unprocessedHosts td) SIMTIME_MAX) as (t1 & -> & Hle1 & Hmin1 & Hex1);
    [done|intros; eapply Hts; [done|]; apply elem_of_app; auto|].
  destruct (findMinTime_ok B d (processedHosts td) t1) as (t2 & -> & Hle2 & Hmin2 & Hex2);
    [done|intros; eapply Hts; [done|]; apply elem_of_app; auto|].
  exists t2. split_and!; [done| |lia|].
  - intros t' (h & q & p & [Hin|Hin]%elem_of_app & Hq & Hp & ->); [|by eapply Hmin2].
    transitivity t1; [done|by eapply Hmin1].
  - unfold thread_times. destruct Hex2 as [->|(h & q & p & ? & ? & ? & ?)].
    + destruct Hex1 as [->|(h & q & p & ? & ? & ? & ?)]; [by left|right].
      exists h, q, p. rewrite elem_of_app. auto.
    + right. exists h, q, p. rewrite elem_of_app. auto.
Qed.

(** ** Properties *)

(** C3: from the empty policy, no interleaving of host registrations, event
    creations, pushes, pops and rounds over any number of threads reaches a
    state in which a pop fails the assertion that a host's events never go
    back in time, or finds a host without a queue; and a push to a registered
    host succeeds and leaves the event at or after the host's last event. *)
Theorem scheduler_safe hs es B d :
  rtc (step g_renew) (0, schedulerpolicyhostsingle_new hs es) (B, d) →
  (∀ self, is_Some (_schedulerpolicyhostsingle_pop g_renew d self B)) ∧
  (∀ event src dst q, event ≠ 0 →
     (∀ h q', hostToQueueDataMap d !! h = Some q' → event ∉ PQ.elements (pq q')) →
     hostToQueueDataMap d !! dst = Some q →
     (src = dst → lastEventTime q ≤ time (events_mem d !!! event)) →
     ∃ d', _schedulerpolicyhostsingle_push g_renew d event src dst B = Some d' ∧
       lastEventTime q ≤ time (events_mem d' !!! event)).
Proof.
  intros Hreach.
  pose proof (steps_inv _ _ Hreach (init_inv hs es)) as Hinv.
  split.
  - intros self. destruct (pop_inv B d self Hinv) as (d' & r & -> & _). eauto.
  - intros event src dst q H0 Hf Hq Hl.
    destruct (push_inv B d event src dst q Hinv H0 Hf Hq Hl) as (d' & q' & Hp & _ & _ & _ & Ht).
    exists d'. split; [done|]. rewrite Ht. case_decide; [auto|].
    destruct Hinv as (_ & Hqs & _). pose proof (qo_last _ _ _ _ (Hqs dst q Hq)). simpl in *. lia.
Qed.

(** C12: a pop hands the thread the least event of one of its hosts, before
    the barrier and not before that host's last event, and takes exactly this
    event out of exactly this host's queue; it returns NULL only when every
    host it still had to process this round has no event before the barrier.
    Either way no host is lost from or added to the thread. *)
Theorem scheduler_pop_correct B d self td :
  inv (B, d) → threadToThreadDataMap d !! self = Some td →
  ∃ d' r td', _schedulerpolicyhostsingle_pop g_renew d self B = Some (d', r) ∧
    threadToThreadDataMap d' !! self = Some td' ∧
    unprocessedHosts td' ++ processedHosts td' ≡ₚ unprocessedHosts td ++ processedHosts td ∧
    match r with
    | Some ev => ∃ h q q', h ∈ unprocessedHosts td' ∧ hostToQueueDataMap d !! h = Some q ∧
        hostToQueueDataMap d' = <[h := q']> (hostToQueueDataMap d) ∧ popped B (hosts_mem d) (events_mem d) q q' ev
    | None => hostToQueueDataMap d' = hostToQueueDataMap d ∧ unprocessedHosts td' = [] ∧
        ∀ h, h ∈ unprocessedHosts (enter_barrier td B) → idle B d h
    end.
Proof.
  intros Hi Htd. destruct (pop_inv B d self Hi) as (d' & r & Hp & _ & _ & _ & H).
  destruct (H td Htd) as (td' & ? & ? & ?). by exists d', r, td'.
Qed.

(** A push for another host moves the event to the barrier if it lies
    before it and leaves its time alone otherwise; a push to the own host
    never changes the time.  The event lands in the destination's queue and in
    no other. *)
Theorem scheduler_push_correct B d event src dst q :
  inv (B, d) → event ≠ 0 →
  (∀ h q', hostToQueueDataMap d !! h = Some q' → event ∉ PQ.elements (pq q')) →
  hostToQueueDataMap d !! dst = Some q →
  (src = dst → lastEventTime q ≤ time (events_mem d !!! event)) →
  ∃ d' q', _schedulerpolicyhostsingle_push g_renew d event src dst B = Some d' ∧
    hostToQueueDataMap d' = <[dst := q']> (hostToQueueDataMap d) ∧
    PQ.elements (pq q') ≡ₚ event :: PQ.elements (pq q) ∧
    time (events_mem d' !!! event) =
      (if decide (src = dst) then time (events_mem d !!! event)
       else Z.max B (time (events_mem d !!! event))).
Proof.
  intros Hi H0 Hf Hq Hl.
  destruct (push_inv B d event src dst q Hi H0 Hf Hq Hl) as (d' & q' & ? & _ & ? & ? & ?).
  by exists d', q'.
Qed.

(** The next event time a thread reports is the minimum over the events
    of all its hosts, processed and unprocessed, and SIMTIME_MAX when it has
    none. *)
Theorem scheduler_getNextTime_min B d self td :
  inv (B, d) → threadToThreadDataMap d !! self = Some td →
  ∃ t, _schedulerpolicyhostsingle_getNextTime d self = Some t ∧
    (∀ t', thread_times d td t' → t ≤ t') ∧ t ≤ SIMTIME_MAX ∧
    (t = SIMTIME_MAX ∨ thread_times d td t).
Proof. apply getNextTime_ok. Qed.

End Proofs.

(** ** Witnesses *)

Definition nomove (b : Z) (n : nat) : Z := b.

Definition demo_events : events := {[ 11 := ev 100 100 5 0; 12 := ev 100 200 3 1 ]}.

(** Two hosts on thread 1. *)
Definition demo0 : HostSinglePolicyData :=
  _schedulerpolicyhostsingle_addHost
    (_schedulerpolicyhostsingle_addHost (schedulerpolicyhostsingle_new sample_hosts demo_events)
       500 100 0 1) 600 200 0 1.

Lemma demo0_reach : rtc (step nomove) (0, schedulerpolicyhostsingle_new sample_hosts demo_events)
  (10, demo0).
Proof.
  eapply rtc_l; [apply step_addHost|]. eapply rtc_l; [apply step_addHost|].
  apply rtc_once. apply (step_round _ 0 10). by vm_compute.
Qed.

Lemma demo0_inv : inv (10, demo0).
Proof. exact (steps_inv nomove _ _ demo0_reach (init_inv _ _)). Qed.

Lemma demo0_empty_queues :
  map_Forall (λ _ q, PQ.elements (pq q) = []) (hostToQueueDataMap demo0).
Proof.
  apply map_Forall_to_list. vm_compute map_to_list. repeat constructor.
Qed.

Lemma demo0_fresh event : ∀ h q, hostToQueueDataMap demo0 !! h = Some q → event ∉ PQ.elements (pq q).
Proof. intros h q Hq. rewrite (demo0_empty_queues h q Hq). apply not_elem_of_nil. Qed.

Lemma scheduler_safe_witness :
  is_Some (_schedulerpolicyhostsingle_pop nomove demo0 1 10) ∧
  ∃ d', _schedulerpolicyhostsingle_push nomove demo0 12 100 200 10 = Some d' ∧
    0 ≤ time (events_mem d' !!! 12).
Proof.
  destruct (scheduler_safe nomove _ _ _ _ demo0_reach) as [Hpop Hpush]. split; [apply Hpop|].
  destruct (Hpush 12 100 200 (_hostsinglequeuedata_new 600)) as (d' & Hp & Ht);
    [done|apply demo0_fresh|reflexivity|done|].
  exists d'. split; [exact Hp|exact Ht].
Defined.

Lemma scheduler_push_correct_witness :
  ∃ d', _schedulerpolicyhostsingle_push nomove demo0 12 100 200 10 = Some d' ∧
    time (events_mem d' !!! 12) = 10.
Proof.
  destruct (scheduler_push_correct nomove 10 demo0 12 100 200 (_hostsinglequeuedata_new 600))
    as (d' & q' & Hp & _ & _ & Ht);
    [exact demo0_inv|done|apply demo0_fresh|reflexivity|done|].
  exists d'. split; [exact Hp|exact Ht].
Defined.

Lemma scheduler_pop_correct_witness :
  ∃ td d' r, threadToThreadDataMap demo0 !! 1 = Some td ∧
    _schedulerpolicyhostsingle_pop nomove demo0 1 10 = Some (d', r) ∧ r = None.
Proof.
  destruct (threadToThreadDataMap demo0 !! 1) as [td|] eqn:E; [|by vm_compute in E].
  destruct (scheduler_pop_correct nomove 10 demo0 1 td demo0_inv E) as (d' & r & td' & Hp & _).
  exists td, d', r. split; [done|split; [done|]].
  apply (f_equal (fmap snd)) in Hp. vm_compute in Hp. congruence.
Defined.

Lemma scheduler_getNextTime_min_witness :
  ∃ t, _schedulerpolicyhostsingle_getNextTime demo0 1 = Some t ∧ t ≤ SIMTIME_MAX.
Proof.
  destruct (threadToThreadDataMap demo0 !! 1) as [td|] eqn:E; [|by vm_compute in E].
  destruct (scheduler_getNextTime_min 10 demo0 1 td demo0_inv E) as (t & Ht & _ & Hle & _).
  exists t. by split.
Defined.

End Sched.
