(* ===== verification/Packet.v ===== *)
(** * Packets and payloads
    (src/phantom/src/main/routing/packet.c, packet.h, packet.minimal.h,
    payload.c, and the protocol constants of host/protocol.h)

    Packets are reference-counted records that live in a store, indexed by
    their address; payloads are shared between the copies of a packet and are
    counted separately, under a lock.  [None] is the result of a failed
    assertion, a panic, a deadlock or an access the C standard leaves
    undefined. *)

From stdpp Require Import pretty.
From S2P Require Import Prelude Float64 Cpu PriorityQueue Event.

Module Pkt.
Import Host.

(** ** Constants *)

Inductive ProtocolType := PNONE | PLOCAL | PTCP | PUDP.

#[export] Instance ProtocolType_eq_dec : EqDecision ProtocolType.
Proof. solve_decision. Defined.

Definition PTCP_NONE : Z := 0.
Definition PTCP_RST : Z := 2.
Definition PTCP_SYN : Z := 4.
Definition PTCP_ACK : Z := 8.
Definition PTCP_SACK : Z := 16.
Definition PTCP_FIN : Z := 32.
Definition PTCP_DUPACK : Z := 64.

Definition PDS_NONE : Z := 0.
Definition PDS_SND_CREATED : Z := Z.shiftl 1 1.
Definition PDS_SND_TCP_ENQUEUE_THROTTLED : Z := Z.shiftl 1 2.
Definition PDS_SND_TCP_ENQUEUE_RETRANSMIT : Z := Z.shiftl 1 3.
Definition PDS_SND_TCP_DEQUEUE_RETRANSMIT : Z := Z.shiftl 1 4.
Definition PDS_SND_TCP_RETRANSMITTED : Z := Z.shiftl 1 5.
Definition PDS_SND_SOCKET_BUFFERED : Z := Z.shiftl 1 6.
Definition PDS_SND_INTERFACE_SENT : Z := Z.shiftl 1 7.
Definition PDS_INET_SENT : Z := Z.shiftl 1 8.
Definition PDS_INET_DROPPED : Z := Z.shiftl 1 9.
Definition PDS_ROUTER_ENQUEUED : Z := Z.shiftl 1 10.
Definition PDS_ROUTER_DEQUEUED : Z := Z.shiftl 1 11.
Definition PDS_ROUTER_DROPPED : Z := Z.shiftl 1 12.
Definition PDS_RCV_INTERFACE_RECEIVED : Z := Z.shiftl 1 13.
Definition PDS_RCV_INTERFACE_DROPPED : Z := Z.shiftl 1 14.
Definition PDS_RCV_SOCKET_PROCESSED : Z := Z.shiftl 1 15.
Definition PDS_RCV_SOCKET_DROPPED : Z := Z.shiftl 1 16.
Definition PDS_RCV_TCP_ENQUEUE_UNORDERED : Z := Z.shiftl 1 17.
Definition PDS_RCV_SOCKET_BUFFERED : Z := Z.shiftl 1 18.
Definition PDS_RCV_SOCKET_DELIVERED : Z := Z.shiftl 1 19.
Definition PDS_DESTROYED : Z := Z.shiftl 1 20.

Definition CONFIG_HEADER_SIZE_UDPIPETH : Z := 42.
Definition CONFIG_HEADER_SIZE_TCPIPETH : Z := 66.
Definition INADDR_LOOPBACK : Z := 2130706433.

(** ** Data *)

Record PacketLocalHeader := mkLocal {
  l_flags : Z; l_sourceDescriptorHandle : Z; l_destinationDescriptorHandle : Z; l_port : Z }.

Record PacketUDPHeader := mkUDP {
  u_flags : Z; u_sourceIP : Z; u_sourcePort : Z; u_destinationIP : Z; u_destinationPort : Z }.

Record PacketTCPHeader := mkTCP {
  flags : Z;
  sourceIP : Z;
  sourcePort : Z;
  destinationIP : Z;
  destinationPort : Z;
  sequence : Z;
  acknowledgment : Z;
  selectiveACKs : list Z;  (* a NULL list is the empty list *)
  window : Z;
  timestampValue : Z;
  timestampEcho : Z;
}.

#[export] Instance tcpheader_eta : Eta PacketTCPHeader := fun h =>
  mkTCP (flags h) (sourceIP h) (sourcePort h) (destinationIP h) (destinationPort h) (sequence h)
    (acknowledgment h) (selectiveACKs h) (window h) (timestampValue h) (timestampEcho h).

(** What [packet->header] points to; the C code casts according to [protocol]. *)
Inductive Header :=
  | HNull
  | HLocal (h : PacketLocalHeader)
  | HUDP (h : PacketUDPHeader)
  | HTCP (h : PacketTCPHeader).

Record Packet := mkPacket {
  referenceCount : Z;
  hostID : Z;
  packetID : Z;
  protocol : ProtocolType;
  header : Header;
  payload : Z;             (* an address, 0 for NULL *)
  priority : F64.double;
  allStatus : Z;
  orderedStatus : list Z;
}.

#[export] Instance packet_eta : Eta Packet := fun p =>
  mkPacket (referenceCount p) (hostID p) (packetID p) (protocol p) (header p) (payload p)
    (priority p) (allStatus p) (orderedStatus p).

#[export] Instance packet_inhabited : Inhabited Packet :=
  populate (mkPacket 0 0 0 PNONE HNull 0 (F64.of_Z 0) 0 []).

Record Payload := mkPayload {
  lock : bool;
  p_referenceCount : Z;
  data : list Z;           (* empty when data is NULL *)
  p_length : Z;
}.

#[export] Instance payload_eta : Eta Payload := fun p =>
  mkPayload (lock p) (p_referenceCount p) (data p) (p_length p).

(** The allocated packets and payloads.  [next] is an address no allocation
    has returned yet. *)
Record Store := mkStore {
  next : Z;
  packets : gmap Z Packet;
  payloads : gmap Z Payload;
}.

#[export] Instance store_eta : Eta Store := fun s => mkStore (next s) (packets s) (payloads s).

Definition empty_store : Store := mkStore 1 ∅ ∅.

(** ** Payloads (payload.c) *)

Section PayloadOps.

(** The memory of the managed process, reached through its thread.  A read
    gives the bytes or fails; a write gives the new memory and an error number,
    0 for success. *)
Context {Mem : Type} (process_readPtr : Mem → Z → Z → option (list Z))
  (process_writePtr : Mem → Z → list Z → Mem * Z).

(** Returns 0 (NULL) when the data cannot be read. *)
Definition payload_new (st : Store) (mem : Mem) (src dataLength : Z) : Store * Z :=
  let fresh pl := (st <| next := next st + 1 |> <| payloads := <[next st := pl]> (payloads st) |>,
                   next st) in
  if negb (src =? 0) && (0 <? dataLength) then
    match process_readPtr mem src dataLength with
    | Some bytes => fresh (mkPayload false 1 bytes dataLength)
    | None => (st, 0)
    end
  else fresh (mkPayload false 1 [] 0).

(** Locking a locked mutex blocks forever. *)
Definition _payload_lock (pl : Payload) : option Payload :=
  if lock pl then None else Some (pl <| lock := true |>).

Definition _payload_unlock (pl : Payload) : option Payload :=
  if lock pl then Some (pl <| lock := false |>) else None.

Definition set_payload_at (st : Store) (a : Z) (pl : Payload) : Store :=
  st <| payloads := <[a := pl]> (payloads st) |>.

Definition _payload_free (st : Store) (a : Z) : Store :=
  st <| payloads := delete a (payloads st) |>.

Definition payload_ref (st : Store) (a : Z) : option Store :=
  pl ← payloads st !! a;
  pl ← _payload_lock pl;
  pl ← _payload_unlock (pl <| p_referenceCount := u32 (p_referenceCount pl + 1) |>);
  Some (set_payload_at st a pl).

Definition payload_unref (st : Store) (a : Z) : option Store :=
  pl ← payloads st !! a;
  pl ← _payload_lock pl;
  let pl := pl <| p_referenceCount := u32 (p_referenceCount pl - 1) |> in
  let needsFree := p_referenceCount pl =? 0 in
  pl ← _payload_unlock pl;
  let st := set_payload_at st a pl in
  Some (if needsFree then _payload_free st a else st).

Definition payload_getLength (st : Store) (a : Z) : option Z :=
  pl ← payloads st !! a;
  pl ← _payload_lock pl;
  let len := p_length pl in
  _ ← _payload_unlock pl;
  Some len.

(** The bytes [data[offset .. offset+len)]. *)
Definition slice (l : list Z) (offset len : Z) : list Z :=
  take (Z.to_nat len) (drop (Z.to_nat offset) l).

(** Copies into the managed process.  On a failed write the function returns
    early: the payload stays locked. *)
Definition payload_getData (st : Store) (mem : Mem) (a offset dest destLength : Z)
    : option (Store * Mem * Z) :=
  pl ← payloads st !! a;
  pl ← _payload_lock pl;
  if negb (offset <=? p_length pl) then None else
  let targetLength := p_length pl - offset in
  let copyLength := Z.min targetLength destLength in
  if 0 <? copyLength then
    let '(mem, err) := process_writePtr mem dest (slice (data pl) offset copyLength) in
    if negb (err =? 0) then Some (set_payload_at st a pl, mem, - err)
    else pl ← _payload_unlock pl; Some (set_payload_at st a pl, mem, copyLength)
  else pl ← _payload_unlock pl; Some (set_payload_at st a pl, mem, copyLength).

(** Copies into a buffer of the simulator; returns the bytes copied. *)
Definition payload_getDataShadow (st : Store) (a offset destLength : Z)
    : option (Store * list Z * Z) :=
  pl ← payloads st !! a;
  pl ← _payload_lock pl;
  if negb (offset <=? p_length pl) then None else
  let targetLength := p_length pl - offset in
  let copyLength := Z.min targetLength destLength in
  let bytes := if 0 <? copyLength then slice (data pl) offset copyLength else [] in
  pl ← _payload_unlock pl;
  Some (set_payload_at st a pl, bytes, copyLength).

(** ** Packets (packet.c) *)

Definition set_packet_at (st : Store) (a : Z) (p : Packet) : Store :=
  st <| packets := <[a := p]> (packets st) |>.

Definition update_packet (st : Store) (a : Z) (f : Packet → option Packet) : option Store :=
  p ← packets st !! a; p ← f p; Some (set_packet_at st a p).

Definition alloc_packet (st : Store) (p : Packet) : Store * Z :=
  (st <| next := next st + 1 |> <| packets := <[next st := p]> (packets st) |>, next st).

Definition packet_new (st : Store) (host : Host) : Store * Host * Z :=
  let '(host, id) := host_getNewPacketID host in
  let '(st, a) :=
    alloc_packet st (mkPacket 1 (params_id host) id PNONE HNull 0 (F64.of_Z 0) 0 []) in
  (st, host, a).

Definition packet_setPayload (st : Store) (mem : Mem) (host : Host) (a src payloadLength : Z)
    : option (Store * Host) :=
  p ← packets st !! a;
  if (src =? 0) || negb (payload p =? 0) then None else
  let '(st, pl) := payload_new st mem src payloadLength in
  let '(host, prio) := host_getNextPacketPriority host in
  Some (set_packet_at st a (p <| payload := pl |> <| priority := prio |>), host).

Definition packet_copy (st : Store) (a : Z) : option (Store * Z) :=
  p ← packets st !! a;
  let copy := mkPacket 1 (hostID p) (packetID p) PNONE HNull 0 (F64.of_Z 0) 0 [] in
  '(st, copy) ← (if negb (payload p =? 0) then
      st ← payload_ref st (payload p);
      Some (st, copy <| payload := payload p |> <| priority := priority p |>)
    else Some (st, copy));
  let copy := copy <| allStatus := allStatus p |> <| orderedStatus := orderedStatus p |>
                   <| protocol := protocol p |> in
  hd ← match header p, protocol p with
       | HNull, _ => Some HNull
       | HLocal h, PLOCAL => Some (HLocal h)
       | HUDP h, PUDP => Some (HUDP h)
       | HTCP h, PTCP => Some (HTCP h)
       | _, _ => None
       end;
  Some (alloc_packet st (copy <| header := hd |>)).

Definition packet_ref (st : Store) (a : Z) : option Store :=
  update_packet st a (λ p, Some (p <| referenceCount := u32 (referenceCount p + 1) |>)).

Definition _packet_free (st : Store) (a : Z) : option Store :=
  p ← packets st !! a;
  _ ← (if decide (protocol p = PTCP) then
         match header p with HTCP _ => Some tt | _ => None end
       else Some tt);
  st ← (if negb (payload p =? 0) then payload_unref st (payload p) else Some st);
  Some (st <| packets := delete a (packets st) |>).

Definition packet_setPriority (st : Store) (a : Z) (value : F64.double) : option Store :=
  update_packet st a (λ p, Some (p <| priority := value |>)).

Definition tcp_sequence (p : Packet) : option Z :=
  match protocol p, header p with PTCP, HTCP h => Some (sequence h) | _, _ => None end.

Definition packet_compareTCPSequence (p1 p2 : Packet) : option Z :=
  sequence1 ← tcp_sequence p1;
  sequence2 ← tcp_sequence p2;
  Some (if sequence1 <? sequence2 then -1 else if sequence2 <? sequence1 then 1 else 0).

(** The assertion the three [packet_set...] functions share. *)
Definition no_header (p : Packet) : bool :=
  match header p, protocol p with HNull, PNONE => true | _, _ => false end.

Definition packet_setLocal (st : Store) (a fl src dst port : Z) : option Store :=
  update_packet st a (λ p,
    if no_header p && (0 <? port) then
      Some (p <| header := HLocal (mkLocal fl src dst port) |> <| protocol := PLOCAL |>)
    else None).

Definition addresses_given (sip sport dip dport : Z) : bool :=
  negb (sip =? 0) && negb (sport =? 0) && negb (dip =? 0) && negb (dport =? 0).

Definition packet_setUDP (st : Store) (a fl sip sport dip dport : Z) : option Store :=
  update_packet st a (λ p,
    if no_header p && addresses_given sip sport dip dport then
      Some (p <| header := HUDP (mkUDP fl sip sport dip dport) |> <| protocol := PUDP |>)
    else None).

Definition packet_setTCP (st : Store) (a fl sip sport dip dport seq : Z) : option Store :=
  update_packet st a (λ p,
    if no_header p && addresses_given sip sport dip dport then
      Some (p <| header := HTCP (mkTCP fl sip sport dip dport seq 0 [] 0 0 0) |>
              <| protocol := PTCP |>)
    else None).

Definition packet_updateTCP (st : Store) (a ack : Z) (sacks : list Z) (win tsval tsecho : Z)
    : option Store :=
  update_packet st a (λ p,
    match protocol p, header p with
    | PTCP, HTCP h =>
        let h := if (0 <? List.length sacks)%nat
                 then h <| flags := set_flags (flags h) PTCP_SACK |> <| selectiveACKs := sacks |>
                 else h in
        Some (p <| header := HTCP (h <| acknowledgment := ack |> <| window := win |>
                                     <| timestampValue := tsval |> <| timestampEcho := tsecho |>) |>)
    | _, _ => None
    end).

Definition packet_getPayloadLength (st : Store) (p : Packet) : option Z :=
  if negb (payload p =? 0) then len ← payload_getLength st (payload p); Some (u32 len)
  else Some 0.

Definition packet_getPriority (p : Packet) : F64.double := priority p.

Definition packet_getHeaderSize (p : Packet) : Z :=
  if decide (protocol p = PUDP) then CONFIG_HEADER_SIZE_UDPIPETH
  else if decide (protocol p = PTCP) then CONFIG_HEADER_SIZE_TCPIPETH else 0.

Definition packet_getDestinationIP (p : Packet) : option Z :=
  match protocol p, header p with
  | PLOCAL, _ => Some (htonl INADDR_LOOPBACK)
  | PUDP, HUDP h => Some (u_destinationIP h)
  | PTCP, HTCP h => Some (destinationIP h)
  | _, _ => None
  end.

Definition packet_getDestinationPort (p : Packet) : option Z :=
  match protocol p, header p with
  | PLOCAL, HLocal h => Some (l_port h)
  | PUDP, HUDP h => Some (u_destinationPort h)
  | PTCP, HTCP h => Some (destinationPort h)
  | _, _ => None
  end.

Definition packet_getSourceIP (p : Packet) : option Z :=
  match protocol p, header p with
  | PLOCAL, _ => Some (htonl INADDR_LOOPBACK)
  | PUDP, HUDP h => Some (u_sourceIP h)
  | PTCP, HTCP h => Some (sourceIP h)
  | _, _ => None
  end.

Definition packet_getSourcePort (p : Packet) : option Z :=
  match protocol p, header p with
  | PLOCAL, HLocal h => Some (l_port h)
  | PUDP, HUDP h => Some (u_sourcePort h)
  | PTCP, HTCP h => Some (sourcePort h)
  | _, _ => None
  end.

Definition packet_getProtocol (p : Packet) : ProtocolType := protocol p.

Definition packet_copyPayload (st : Store) (mem : Mem) (p : Packet) (offset dest destLength : Z)
    : option (Store * Mem * Z) :=
  if negb (payload p =? 0) then payload_getData st mem (payload p) offset dest destLength
  else Some (st, mem, 0).

Definition packet_copyPayloadShadow (st : Store) (p : Packet) (offset destLength : Z)
    : option (Store * list Z * Z) :=
  if negb (payload p =? 0) then payload_getDataShadow st (payload p) offset destLength
  else Some (st, [], 0).

Definition packet_getTCPHeader (p : Packet) : option PacketTCPHeader :=
  match protocol p, header p with PTCP, HTCP h => Some h | _, _ => None end.

Definition packet_copyTCPSelectiveACKs (p : Packet) : option (list Z) :=
  h ← packet_getTCPHeader p; Some (selectiveACKs h).

Definition packet_getDeliveryStatus (p : Packet) : Z := allStatus p.

End PayloadOps.

(** ** Rendering and delivery status *)

Section Status.

(** [address_ipToNewString], which calls the C library's [inet_ntop], and
    whether trace messages are logged ([worker_isFiltered(LOGLEVEL_TRACE)] is
    false). *)
Context (address_ipToNewString : Z → string) (traceOn : bool).

Local Open Scope string_scope.
Local Open Scope list_scope.
Local Open Scope Z_scope.

Definition protocol_toString (t : ProtocolType) : string :=
  match t with PLOCAL => "LOCAL" | PUDP => "UDP" | PTCP => "TCP" | PNONE => "UNKNOWN" end.

Definition _packet_deliveryStatusToAscii (status : Z) : string :=
  if status =? PDS_NONE then "NONE"
  else if status =? PDS_SND_CREATED then "SND_CREATED"
  else if status =? PDS_SND_TCP_ENQUEUE_THROTTLED then "SND_TCP_ENQUEUE_THROTTLED"
  else if status =? PDS_SND_TCP_ENQUEUE_RETRANSMIT then "SND_TCP_ENQUEUE_RETRANSMIT"
  else if status =? PDS_SND_TCP_DEQUEUE_RETRANSMIT then "SND_TCP_DEQUEUE_RETRANSMIT"
  else if status =? PDS_SND_TCP_RETRANSMITTED then "SND_TCP_RETRANSMITTED"
  else if status =? PDS_SND_SOCKET_BUFFERED then "SND_SOCKET_BUFFERED"
  else if status =? PDS_SND_INTERFACE_SENT then "SND_INTERFACE_SENT"
  else if status =? PDS_INET_SENT then "INET_SENT"
  else if status =? PDS_INET_DROPPED then "INET_DROPPED"
  else if status =? PDS_ROUTER_ENQUEUED then "ROUTER_ENQUEUED"
  else if status =? PDS_ROUTER_DEQUEUED then "ROUTER_DEQUEUED"
  else if status =? PDS_ROUTER_DROPPED then "ROUTER_DROPPED"
  else if status =? PDS_RCV_INTERFACE_RECEIVED then "RCV_INTERFACE_RECEIVED"
  else if status =? PDS_RCV_INTERFACE_DROPPED then "RCV_INTERFACE_DROPPED"
  else if status =? PDS_RCV_SOCKET_PROCESSED then "RCV_SOCKET_PROCESSED"
  else if status =? PDS_RCV_SOCKET_DROPPED then "RCV_SOCKET_DROPPED"
  else if status =? PDS_RCV_TCP_ENQUEUE_UNORDERED then "RCV_TCP_ENQUEUE_UNORDERED"
  else if status =? PDS_RCV_SOCKET_BUFFERED then "RCV_SOCKET_BUFFERED"
  else if status =? PDS_RCV_SOCKET_DELIVERED then "RCV_SOCKET_DELIVERED"
  else if status =? PDS_DESTROYED then "PDS_DESTROYED"
  else "UKNOWN".

(** The loop over the selective acknowledgements; -1 stands for unset. *)
Fixpoint sack_loop (sacks : list Z) (firstSack lastSack : Z) : string * Z * Z :=
  match sacks with
  | [] => ("", firstSack, lastSack)
  | x :: rest =>
      let seq := i32 x in
      if firstSack =? -1 then sack_loop rest seq lastSack
      else if (lastSack =? -1) || (seq =? i32 (lastSack + 1)) then sack_loop rest firstSack seq
      else
        let '(s, f, l) := sack_loop rest seq (-1) in
        (pretty firstSack +:+ "-" +:+ pretty lastSack +:+ " " +:+ s, f, l)
  end.

Definition sacks_toString (sacks : list Z) : string :=
  let '(s, firstSack, lastSack) := sack_loop sacks (-1) (-1) in
  s +:+ (if negb (firstSack =? -1)
         then pretty firstSack +:+ (if negb (lastSack =? -1) then "-" +:+ pretty lastSack else "")
         else "NA").

Definition tcp_flags_toString (fl : Z) : string :=
  if negb (has_flag fl PTCP_NONE) then
    " header=" +:+ (if has_flag fl PTCP_RST then "RST" else "")
      +:+ (if has_flag fl PTCP_SYN then "SYN" else "")
      +:+ (if has_flag fl PTCP_FIN then "FIN" else "")
      +:+ (if has_flag fl PTCP_ACK then "ACK" else "")
      +:+ (if has_flag fl PTCP_DUPACK then "DUPACK" else "")
  else "".

(** The status loop pops each entry and pushes it back. *)
Fixpoint status_loop (n : nat) (queue : list Z) : string * list Z :=
  match n, queue with
  | S n', status :: queue =>
      let '(s, queue) := status_loop n' (queue ++ [status]) in
      (_packet_deliveryStatusToAscii status +:+ (match n' with O => "" | _ => "," end) +:+ s, queue)
  | _, _ => ("", queue)
  end.

Definition header_toString (p : Packet) (payloadLength : Z) : option string :=
  match protocol p, header p with
  | PLOCAL, HLocal h =>
      Some (pretty (l_sourceDescriptorHandle h) +:+ " -> " +:+ pretty (l_destinationDescriptorHandle h)
            +:+ " bytes=" +:+ pretty payloadLength)
  | PUDP, HUDP h =>
      Some (address_ipToNewString (u_sourceIP h) +:+ ":" +:+ pretty (ntohs (u_sourcePort h))
            +:+ " -> " +:+ address_ipToNewString (u_destinationIP h) +:+ ":"
            +:+ pretty (ntohs (u_destinationPort h)) +:+ " bytes=" +:+ pretty payloadLength)
  | PTCP, HTCP h =>
      Some (address_ipToNewString (sourceIP h) +:+ ":" +:+ pretty (ntohs (sourcePort h)) +:+ " -> "
            +:+ address_ipToNewString (destinationIP h) +:+ ":" +:+ pretty (ntohs (destinationPort h))
            +:+ " seq=" +:+ pretty (sequence h) +:+ " ack=" +:+ pretty (acknowledgment h) +:+ " sack="
            +:+ sacks_toString (selectiveACKs h)
            +:+ " window=" +:+ pretty (window h) +:+ " bytes=" +:+ pretty payloadLength
            +:+ tcp_flags_toString (flags h)
            +:+ " tsval=" +:+ pretty (timestampValue h) +:+ " tsechoreply=" +:+ pretty (timestampEcho h))
  | _, _ => None
  end.

Definition packet_toString (st : Store) (p : Packet) : option (Packet * string) :=
  payloadLength ← packet_getPayloadLength st p;
  hdr ← header_toString p payloadLength;
  let statusLength := List.length (orderedStatus p) in
  let '(statuses, queue) := status_loop statusLength (orderedStatus p) in
  Some (p <| orderedStatus := queue |>,
        "packetID=" +:+ pretty (hostID p) +:+ ":" +:+ pretty (packetID p) +:+ " " +:+ hdr
        +:+ (if (0 <? statusLength)%nat then " status=" else "") +:+ statuses).

Definition packet_addDeliveryStatus (st : Store) (a status : Z) : option Store :=
  p ← packets st !! a;
  let p := p <| allStatus := set_flags (allStatus p) status |> in
  if traceOn then
    '(p, _) ← packet_toString st (p <| orderedStatus := orderedStatus p ++ [status] |>);
    Some (set_packet_at st a p)
  else Some (set_packet_at st a p).

Definition packet_unref (st : Store) (a : Z) : option Store :=
  st ← update_packet st a (λ p, Some (p <| referenceCount := u32 (referenceCount p - 1) |>));
  p ← packets st !! a;
  if referenceCount p =? 0 then
    st ← packet_addDeliveryStatus st a PDS_DESTROYED;
    _packet_free st a
  else Some st.

End Status.

(** ** The store invariant *)

(** The packets that hold payload [b]. *)
Definition holders (b : Z) (m : gmap Z Packet) : Z :=
  Z.of_nat (size (filter (λ kv, payload kv.2 = b) m)).

(** The header the protocol says. *)
Definition header_ok (p : Packet) : Prop :=
  match protocol p, header p with
  | PNONE, HNull | PLOCAL, HLocal _ | PUDP, HUDP _ | PTCP, HTCP _ => True
  | _, _ => False
  end.

Definition packet_ok (n a : Z) (p : Packet) : Prop :=
  0 < a < n ∧ header_ok p ∧ 0 < referenceCount p < 2 ^ 32.

(** The count of a payload is the number of its holders, a payload without
    holders is not allocated, and nobody is inside a critical section. *)
Definition payload_ok (n : Z) (m : gmap Z Packet) (b : Z) (pl : option Payload) : Prop :=
  match pl with
  | Some pl => 0 < b < n ∧ lock pl = false ∧ p_length pl = Z.of_nat (List.length (data pl)) ∧
               p_referenceCount pl = holders b m ∧ 0 < holders b m
  | None => b ≠ 0 → holders b m = 0
  end.

Record wf (st : Store) : Prop := {
  wf_next : 0 < next st;
  wf_size : Z.of_nat (size (packets st)) < 2 ^ 32;
  wf_packets : map_Forall (packet_ok (next st)) (packets st);
  wf_payloads : ∀ b, payload_ok (next st) (packets st) b (payloads st !! b);
}.

Definition holds (b : Z) (p : Packet) : Z := if decide (payload p = b) then 1 else 0.

Lemma holders_fresh b m a p : m !! a = None → holders b (<[a:=p]> m) = holds b p + holders b m.
Proof.
  intros Ha. unfold holders, holds. destruct (decide (payload p = b)).
  - rewrite map_filter_insert_True by done.
    rewrite map_size_insert_None by (apply map_lookup_filter_None; by left). lia.
  - rewrite map_filter_insert_False by done. by rewrite delete_id.
Qed.

Lemma holders_remove b m a p :
  m !! a = Some p → holders b m = holds b p + holders b (delete a m).
Proof.
  intros Ha. rewrite <-(insert_delete_id m a p) at 1 by done.
  apply holders_fresh, lookup_delete_eq.
Qed.

Lemma holders_update b m a p p' :
  m !! a = Some p → holders b (<[a:=p']> m) = holders b m - holds b p + holds b p'.
Proof.
  intros Ha. rewrite (holders_remove b m a p Ha), <-insert_delete_eq.
  rewrite holders_fresh by apply lookup_delete_eq. lia.
Qed.

Lemma holders_update_same b m a p p' :
  m !! a = Some p → payload p' = payload p → holders b (<[a:=p']> m) = holders b m.
Proof. intros Ha E. rewrite (holders_update b m a p p' Ha). unfold holds. rewrite E. lia. Qed.

Lemma holders_le b m : 0 ≤ holders b m ≤ Z.of_nat (size m).
Proof.
  unfold holders. split; [lia|]. apply inj_le. apply map_size_filter.
Qed.

Lemma holders_pos b m a p : m !! a = Some p → payload p = b → 0 < holders b m.
Proof.
  intros Ha E. rewrite (holders_remove b m a p Ha). unfold holds.
  rewrite decide_True by done. pose proof (holders_le b (delete a m)). lia.
Qed.

Lemma holders_inv b m : 0 < holders b m → ∃ a p, m !! a = Some p ∧ payload p = b.
Proof.
  intros H. destruct (decide (filter (λ kv : Z * Packet, payload kv.2 = b) m = ∅)) as [E|E].
  - unfold holders in H. rewrite E, map_size_empty in H. lia.
  - apply map_choose in E as (a & p & Hf). apply map_lookup_filter_Some in Hf. eauto.
Qed.

(** A live packet's payload is live. *)
Lemma payload_live st a p :
  wf st → packets st !! a = Some p → payload p ≠ 0 →
  ∃ pl, payloads st !! payload p = Some pl ∧ lock pl = false.
Proof.
  intros Hwf Ha Hn. pose proof (wf_payloads _ Hwf (payload p)) as H. unfold payload_ok in H.
  destruct (payloads st !! payload p) as [pl|]; [by exists pl; destruct H as (_ & ? & _)|].
  pose proof (holders_pos _ _ _ _ Ha eq_refl). specialize (H Hn). lia.
Qed.

(** Updating one packet without touching its payload keeps the invariant. *)
Lemma update_wf st a p p' :
  wf st → packets st !! a = Some p → payload p' = payload p →
  header_ok p' → 0 < referenceCount p' < 2 ^ 32 → wf (set_packet_at st a p').
Proof.
  intros Hwf Ha E Hh Hr. destruct Hwf as [Hn Hs Hp Hl]. split; simpl; [done| | |].
  - rewrite map_size_insert_Some by eauto. done.
  - apply map_Forall_insert_2; [|done]. split; [apply (Hp _ _ Ha)|done].
  - intros b. specialize (Hl b). unfold payload_ok in *.
    destruct (payloads st !! b); rewrite (holders_update_same b _ _ p) by done; done.
Qed.

Lemma header_packet_ok st a p : wf st → packets st !! a = Some p → header_ok p.
Proof. intros Hwf Ha. apply (wf_packets _ Hwf a p Ha). Qed.

Lemma lock_unlock pl : lock pl = false → pl <| lock := true |> <| lock := false |> = pl.
Proof. by destruct pl; cbn; intros ->. Qed.

Lemma payload_ref_unfold st b pl :
  payloads st !! b = Some pl → lock pl = false →
  payload_ref st b = Some (set_payload_at st b
    (pl <| p_referenceCount := u32 (p_referenceCount pl + 1) |>)).
Proof. intros Hb Hk. unfold payload_ref. rewrite Hb. simpl. destruct pl; simpl in *. by subst. Qed.

Lemma payload_unref_unfold st b pl :
  payloads st !! b = Some pl → lock pl = false →
  payload_unref st b = Some (
    let pl' := pl <| p_referenceCount := u32 (p_referenceCount pl - 1) |> in
    if p_referenceCount pl' =? 0 then st <| payloads := delete b (payloads st) |>
    else set_payload_at st b pl').
Proof.
  intros Hb Hk. unfold payload_unref. rewrite Hb. simpl. destruct pl; simpl in *. subst. simpl.
  destruct (_ =? 0); [|done]. unfold _payload_free, set_payload_at. cbn.
  by rewrite delete_insert_eq.
Qed.

Lemma payload_getLength_unfold st b pl :
  payloads st !! b = Some pl → lock pl = false → payload_getLength st b = Some (p_length pl).
Proof. intros Hb Hk. unfold payload_getLength. rewrite Hb. simpl. by destruct pl; simpl in *; subst. Qed.

(** ** Allocation, sharing and release keep the invariant *)

Lemma alloc_wf st p :
  wf st → Z.of_nat (size (packets st)) + 1 < 2 ^ 32 → payload p = 0 →
  header_ok p → referenceCount p = 1 → wf (fst (alloc_packet st p)).
Proof.
  intros [Hn Hs Hp Hl] Hsz E Hh Hr. unfold alloc_packet. cbn.
  assert (Hf : packets st !! next st = None).
  { destruct (packets st !! next st) eqn:E1; [|done]. destruct (Hp _ _ E1) as [? _]. lia. }
  split; cbn; [lia| | |].
  - rewrite map_size_insert_None by done. lia.
  - apply map_Forall_insert_2; [|intros b q Hb].
    + repeat split; [lia|lia|done|lia|lia].
    + destruct (Hp b q Hb) as (? & ? & ?). repeat split; try done; lia.
  - intros b. specialize (Hl b). unfold payload_ok in *. rewrite holders_fresh by done.
    unfold holds. rewrite E.
    destruct (payloads st !! b) as [pl|].
    + destruct Hl as (? & ? & ? & ? & ?).
      rewrite decide_False, Z.add_0_l by lia. split_and!; try done; lia.
    + intros Hb. rewrite decide_False by done. by rewrite Z.add_0_l, Hl.
Qed.

(** A copy that shares payload [b] is counted. *)
Lemma share_wf st p pl :
  wf st → Z.of_nat (size (packets st)) + 1 < 2 ^ 32 →
  payloads st !! payload p = Some pl → payload p ≠ 0 → header_ok p → referenceCount p = 1 →
  wf (fst (alloc_packet (set_payload_at st (payload p)
    (pl <| p_referenceCount := u32 (p_referenceCount pl + 1) |>)) p)).
Proof.
  intros [Hn Hs Hp Hl] Hsz Hpl Hnz Hh Hr. unfold alloc_packet, set_payload_at. cbn.
  assert (Hf : packets st !! next st = None).
  { destruct (packets st !! next st) eqn:E1; [|done]. destruct (Hp _ _ E1) as [? _]. lia. }
  split; cbn; [lia| | |].
  - rewrite map_size_insert_None by done. lia.
  - apply map_Forall_insert_2; [|intros b q Hb].
    + repeat split; [lia|lia|done|lia|lia].
    + destruct (Hp b q Hb) as (? & ? & ?). repeat split; try done; lia.
  - intros b. specialize (Hl b). unfold payload_ok in *. rewrite holders_fresh by done.
    unfold holds. destruct (decide (payload p = b)) as [<-|Hne].
    + rewrite lookup_insert_eq. rewrite Hpl in Hl. destruct pl as [k rc dt len]; cbn in *.
      pose proof (holders_le (payload p) (packets st)).
      destruct Hl as (? & ? & ? & -> & ?). rewrite u32_small by lia. split_and!; try done; lia.
    + rewrite lookup_insert_ne by done. rewrite Z.add_0_l.
      destruct (payloads st !! b); [|done].
      destruct Hl as (? & ? & ?). split_and!; try done; lia.
Qed.

(** Setting the payload of a packet that had none. *)
Lemma attach_wf st a p p' n pl :
  wf st → packets st !! a = Some p → payload p = 0 → header p' = header p →
  protocol p' = protocol p → referenceCount p' = referenceCount p → payload p' = next st →
  lock pl = false → p_length pl = Z.of_nat (List.length (data pl)) → p_referenceCount pl = 1 →
  n = next st + 1 →
  wf (set_packet_at (mkStore n (packets st) (<[next st := pl]> (payloads st))) a p').
Proof.
  intros [Hn Hs Hp Hl] Ha E Eh Ep Er Epl Hk Hlen Hrc ->. unfold set_packet_at. cbn.
  assert (H0 : holders (next st) (packets st) = 0).
  { specialize (Hl (next st)). unfold payload_ok in Hl.
    destruct (payloads st !! next st); [lia|apply Hl; lia]. }
  destruct (Hp a p Ha) as (? & Hhd & ?).
  split; cbn; [lia| | |].
  - by rewrite map_size_insert_Some by eauto.
  - apply map_Forall_insert_2; [|intros b q Hb].
    + unfold packet_ok, header_ok in *. rewrite Eh, Ep, Er. split; [lia|done].
    + destruct (Hp b q Hb) as (? & ? & ?). repeat split; try done; lia.
  - intros b. specialize (Hl b). unfold payload_ok in *.
    rewrite (holders_update b _ a p p' Ha). unfold holds. rewrite E, Epl.
    destruct (decide (next st = b)) as [<-|Hne].
    + rewrite lookup_insert_eq, H0, decide_False by lia. split_and!; try done; lia.
    + rewrite lookup_insert_ne by done. destruct (payloads st !! b).
      * destruct Hl as (? & ? & ? & ? & ?).
        rewrite decide_False, Z.sub_0_r, Z.add_0_r by lia. split_and!; try done; lia.
      * intros Hb. rewrite decide_False by done. specialize (Hl Hb). lia.
Qed.

(** Deleting a packet that holds no payload. *)
Lemma delete_wf st a p :
  wf st → packets st !! a = Some p → payload p = 0 →
  wf (st <| packets := delete a (packets st) |>).
Proof.
  intros [Hn Hs Hp Hl] Ha E. split; cbn; [done| | |].
  - rewrite map_size_delete_Some by eauto. lia.
  - by apply map_Forall_delete.
  - intros b. specialize (Hl b). unfold payload_ok in *.
    rewrite (holders_remove b _ a p Ha) in Hl. unfold holds in Hl. rewrite E in Hl.
    destruct (payloads st !! b).
    + rewrite decide_False, Z.add_0_l in Hl by lia. done.
    + intros Hb. by rewrite decide_False, Z.add_0_l in Hl by done; apply Hl.
Qed.

(** Deleting a packet and giving up its share of payload [b]. *)
Lemma release_wf st a p pl :
  wf st → packets st !! a = Some p → payloads st !! payload p = Some pl → payload p ≠ 0 →
  wf (let pl' := pl <| p_referenceCount := u32 (p_referenceCount pl - 1) |> in
      (if p_referenceCount pl' =? 0 then st <| payloads := delete (payload p) (payloads st) |>
       else set_payload_at st (payload p) pl') <| packets := delete a (packets st) |>).
Proof.
  intros [Hn Hs Hp Hl] Ha Hpl Hnz.
  pose proof (Hl (payload p)) as Hb. rewrite Hpl in Hb. cbn in Hb.
  destruct Hb as (Hlt & Hk & Hlen & Hrc & Hpos).
  pose proof (holders_remove (payload p) _ a p Ha) as Hrem. unfold holds in Hrem.
  rewrite decide_True in Hrem by done.
  pose proof (holders_le (payload p) (packets st)).
  destruct pl as [k rc dt len]; cbn in *. subst k rc len. rewrite u32_small by lia.
  assert (Hoth : ∀ b, b ≠ payload p → holders b (delete a (packets st)) = holders b (packets st)).
  { intros b Hb. rewrite (holders_remove b _ a p Ha). unfold holds.
    by rewrite decide_False by congruence. }
  assert (Hpk : map_Forall (packet_ok (next st)) (delete a (packets st))) by by apply map_Forall_delete.
  assert (Hsz : Z.of_nat (size (delete a (packets st))) < 2 ^ 32)
    by (rewrite map_size_delete_Some by eauto; lia).
  destruct (Z.eqb_spec (holders (payload p) (packets st) - 1) 0);
    split; try done; intros b; specialize (Hl b); cbn;
    (destruct (decide (b = payload p)) as [->|Hne];
     [ rewrite ?lookup_delete_eq, ?lookup_insert_eq; cbn
     | rewrite ?lookup_delete_ne, ?lookup_insert_ne by done; unfold payload_ok; by rewrite Hoth ]).
  - lia.
  - split_and!; try done; lia.
Qed.

(** No payload of [st'] is new or has another content than in [st]. *)
Definition same_payloads (st st' : Store) : Prop :=
  ∀ c pl', payloads st' !! c = Some pl' →
  ∃ pl, payloads st !! c = Some pl ∧ p_length pl' = p_length pl ∧ data pl' = data pl.

(** ** The operations as steps of the store *)

Section Steps.
Context {Mem : Type} (process_readPtr : Mem → Z → Z → option (list Z))
  (process_writePtr : Mem → Z → list Z → Mem * Z)
  (address_ipToNewString : Z → string) (traceOn : bool).

Inductive op :=
  | ONew (host : Host)
  | OSetPayload (mem : Mem) (host : Host) (a src len : Z)
  | OCopy (a : Z)
  | ORef (a : Z)
  | OUnref (a : Z)
  | OSetPriority (a : Z) (v : F64.double)
  | OSetLocal (a fl src dst port : Z)
  | OSetUDP (a fl sip sport dip dport : Z)
  | OSetTCP (a fl sip sport dip dport seq : Z)
  | OUpdateTCP (a ack : Z) (sacks : list Z) (win tsval tsecho : Z)
  | OAddDeliveryStatus (a status : Z)
  | OCopyPayload (mem : Mem) (a offset dest len : Z)
  | OCopyPayloadShadow (a offset len : Z).

Definition exec (st : Store) (o : op) : option Store :=
  match o with
  | ONew host => Some (packet_new st host).1.1
  | OSetPayload mem host a src len =>
      r ← packet_setPayload process_readPtr st mem host a src len; Some r.1
  | OCopy a => r ← packet_copy st a; Some r.1
  | ORef a => packet_ref st a
  | OUnref a => packet_unref address_ipToNewString traceOn st a
  | OSetPriority a v => packet_setPriority st a v
  | OSetLocal a fl src dst port => packet_setLocal st a fl src dst port
  | OSetUDP a fl sip sport dip dport => packet_setUDP st a fl sip sport dip dport
  | OSetTCP a fl sip sport dip dport seq => packet_setTCP st a fl sip sport dip dport seq
  | OUpdateTCP a ack sacks win tsval tsecho => packet_updateTCP st a ack sacks win tsval tsecho
  | OAddDeliveryStatus a status => packet_addDeliveryStatus address_ipToNewString traceOn st a status
  | OCopyPayload mem a offset dest len =>
      p ← packets st !! a; r ← packet_copyPayload process_writePtr st mem p offset dest len; Some r.1.1
  | OCopyPayloadShadow a offset len =>
      p ← packets st !! a; r ← packet_copyPayloadShadow st p offset len; Some r.1.1
  end.

(** The bytes that a reader of a payload gets. *)
Definition readable (pl : Payload) (offset len : Z) : list Z := slice (data pl) offset (Z.min (p_length pl - offset) len).

(** The process takes the bytes of the payload, if there are any. *)
Definition write_succeeds (mem : Mem) (pl : Payload) (offset dest len : Z) : bool :=
  negb (0 <? Z.min (p_length pl - offset) len) || ((process_writePtr mem dest (readable pl offset len)).2 =? 0).

(** What a client must respect: it uses live packets, sets a header or a
    payload once, and a trace line is only written for a packet with a
    header.  The two bounds keep the 32-bit counters from wrapping.  A write
    into a process succeeds: after a failed one the payload stays locked, see
    [packet_store_safe]. *)
Definition traceable (p : Packet) : bool := negb traceOn || negb (no_header p).

Definition with_packet (st : Store) (a : Z) (f : Packet → bool) : bool :=
  match packets st !! a with Some p => f p | None => false end.

Definition allowed (st : Store) (o : op) : bool :=
  match o with
  | ONew _ => Z.of_nat (size (packets st)) + 1 <? 2 ^ 32
  | OSetPayload _ _ a src _ => with_packet st a (λ p, (payload p =? 0) && negb (src =? 0))
  | OCopy a => with_packet st a (λ _, Z.of_nat (size (packets st)) + 1 <? 2 ^ 32)
  | ORef a => with_packet st a (λ p, referenceCount p <? UINT32_MAX)
  | OUnref a => with_packet st a traceable
  | OSetPriority a _ => with_packet st a (λ _, true)
  | OSetLocal a _ _ _ port => with_packet st a (λ p, no_header p && (0 <? port))
  | OSetUDP a _ sip sport dip dport | OSetTCP a _ sip sport dip dport _ =>
      with_packet st a (λ p, no_header p && addresses_given sip sport dip dport)
  | OUpdateTCP a _ _ _ _ _ => with_packet st a (λ p, bool_decide (protocol p = PTCP))
  | OAddDeliveryStatus a _ => with_packet st a traceable
  | OCopyPayload mem a offset dest len => with_packet st a (λ p,
      match payloads st !! payload p with
      | Some pl => (offset <=? p_length pl) && write_succeeds mem pl offset dest len
      | None => true
      end)
  | OCopyPayloadShadow a offset _ => with_packet st a (λ p,
      match payloads st !! payload p with
      | Some pl => offset <=? p_length pl
      | None => true
      end)
  end.

Definition step (st st' : Store) : Prop :=
  ∃ o, allowed st o = true ∧ exec st o = Some st'.

Hypothesis read_length : ∀ mem src n bytes,
  0 < n → process_readPtr mem src n = Some bytes → Z.of_nat (List.length bytes) = n.

(** *** Helper lemmas *)

Lemma status_loop_rotates n l q :
  n = List.length l → (status_loop n (l ++ q)).2 = q ++ l.
Proof.
  intros ->. revert q. induction l as [|x l IH]; intros q; [by rewrite app_nil_r|].
  simpl. rewrite <-app_assoc. specialize (IH (q ++ [x])).
  destruct (status_loop _ _) as [s r]. simpl in *. by rewrite IH, <-app_assoc.
Qed.

Lemma set_orderedStatus_id p : p <| orderedStatus := orderedStatus p |> = p.
Proof. by destruct p. Qed.

Lemma packet_length_ok st a p :
  wf st → packets st !! a = Some p → is_Some (packet_getPayloadLength st p).
Proof.
  intros Hwf Ha. unfold packet_getPayloadLength. destruct (Z.eqb_spec (payload p) 0); [by eexists|].
  destruct (payload_live st a p Hwf Ha) as (pl & Hb & Hk); [done|]. simpl.
  rewrite (payload_getLength_unfold _ _ _ Hb Hk). by eexists.
Qed.

Lemma packet_toString_pure st p :
  is_Some (packet_getPayloadLength st p) → header_ok p → protocol p ≠ PNONE →
  ∃ s, packet_toString address_ipToNewString st p = Some (p, s).
Proof.
  intros [len Hlen] Hh Hn. unfold packet_toString. rewrite Hlen. simpl.
  assert (is_Some (header_toString address_ipToNewString p len)) as [hd ->].
  { unfold header_toString, header_ok in *. destruct (protocol p), (header p); try done; by eexists. }
  simpl. pose proof (status_loop_rotates (List.length (orderedStatus p)) (orderedStatus p) [] eq_refl) as E.
  rewrite app_nil_r in E. destruct (status_loop _ _) as [s q]. simpl in E. subst q.
  eexists. by rewrite set_orderedStatus_id.
Qed.

Lemma header_ok_no_header p : header_ok p → no_header p = bool_decide (protocol p = PNONE).
Proof. unfold header_ok, no_header. by destruct (protocol p), (header p). Qed.

Lemma addDeliveryStatus_ok st a p status :
  packets st !! a = Some p → is_Some (packet_getPayloadLength st p) → header_ok p →
  traceable p = true →
  ∃ q, packet_addDeliveryStatus address_ipToNewString traceOn st a status
         = Some (set_packet_at st a (p <| allStatus := set_flags (allStatus p) status |>
                                       <| orderedStatus := q |>)).
Proof.
  intros Ha Hlen Hh Ht. unfold packet_addDeliveryStatus. rewrite Ha. simpl.
  unfold traceable in Ht. destruct traceOn; [|by eexists; destruct p].
  set (p' := _ <| orderedStatus := _ |>).
  destruct (packet_toString_pure st p') as (s & E); [done|done| |rewrite E; by eexists].
  rewrite (header_ok_no_header p Hh) in Ht. cbn. by case_bool_decide.
Qed.

(** Freeing the packet at [a], whose count is spent, gives up its share. *)
Lemma packet_free_ok st a p p' :
  wf st → packets st !! a = Some p → payload p' = payload p → header_ok p' →
  ∃ st', _packet_free (set_packet_at st a p') a = Some st' ∧ wf st' ∧
    packets st' = delete a (packets st) ∧ same_payloads st st'.
Proof.
  intros Hwf Ha Epl Hh. unfold _packet_free. cbn. rewrite lookup_insert_eq. simpl.
  assert ((if decide (protocol p' = PTCP) then
    match header p' with HTCP _ => Some tt | _ => None end else Some tt) = Some tt) as ->.
  { unfold header_ok in Hh. case_decide; [|done]. by destruct (protocol p'), (header p'). }
  simpl. rewrite Epl. destruct (Z.eqb_spec (payload p) 0) as [E|E]; simpl.
  - eexists. split; [done|]. pose proof (delete_wf st a p Hwf Ha E) as H.
    unfold set_packet_at. cbn in *. rewrite delete_insert_eq. split_and!; [done|done|].
    by intros c pl; exists pl.
  - destruct (payload_live st a p Hwf Ha) as (pl & Hb & Hk); [done|].
    rewrite (payload_unref_unfold (set_packet_at st a p') _ _ Hb Hk).
    simpl. eexists. split; [done|].
    pose proof (release_wf st a p pl Hwf Ha Hb E) as H. cbn in H.
    unfold set_packet_at. cbn in *. destruct (_ =? 0); cbn; rewrite delete_insert_eq;
      (split_and!; [done|done|intros c pl'; cbn]).
    + rewrite lookup_delete_Some. intros [_ ?]. by exists pl'.
    + rewrite lookup_insert_Some. intros [[<- <-]|[_ ?]]; [by exists pl|by exists pl'].
Qed.

(** What is left of packet [p] at [a] after one reference is given back. *)
Definition unref_result (m : gmap Z Packet) (a : Z) (p : Packet) : gmap Z Packet :=
  if referenceCount p =? 1 then delete a m
  else <[a := p <| referenceCount := referenceCount p - 1 |>]> m.

Lemma packet_unref_ok st a p :
  wf st → packets st !! a = Some p → traceable p = true →
  ∃ st', packet_unref address_ipToNewString traceOn st a = Some st' ∧ wf st' ∧
    packets st' = unref_result (packets st) a p ∧ same_payloads st st'.
Proof.
  intros Hwf Ha Ht. unfold packet_unref, update_packet, unref_result. rewrite Ha. cbn.
  rewrite lookup_insert_eq. cbn.
  destruct (wf_packets _ Hwf a p Ha) as (Hlt & Hh & Hr).
  rewrite u32_small by lia.
  destruct (Z.eqb_spec (referenceCount p - 1) 0) as [E|E].
  2: { rewrite (proj2 (Z.eqb_neq _ 1)) by lia. eexists. split_and!; [done| |done|].
       - eapply update_wf; try done; cbn; lia.
       - by intros c pl; exists pl. }
  rewrite (proj2 (Z.eqb_eq _ 1)) by lia.
  set (p0 := p <| referenceCount := _ |>).
  destruct (addDeliveryStatus_ok (set_packet_at st a p0) a p0 PDS_DESTROYED) as (q & ->);
    [apply lookup_insert_eq|exact (packet_length_ok st a p Hwf Ha)|done|done|].
  set (p1 := _ <| orderedStatus := q |>). simpl.
  replace (set_packet_at (set_packet_at st a p0) a p1) with (set_packet_at st a p1)
    by (unfold set_packet_at; cbn; by rewrite insert_insert_eq).
  by apply (packet_free_ok st a p p1).
Qed.

Lemma with_packet_true st a f :
  with_packet st a f = true → ∃ p, packets st !! a = Some p ∧ f p = true.
Proof. unfold with_packet. destruct (packets st !! a) as [p|]; [by exists p|done]. Qed.

Lemma update_packet_ok st a p p' f :
  wf st → packets st !! a = Some p → f p = Some p' → payload p' = payload p → header_ok p' →
  0 < referenceCount p' < 2 ^ 32 → ∃ st', update_packet st a f = Some st' ∧ wf st'.
Proof.
  intros Hwf Ha Hf E Hh Hr. unfold update_packet. rewrite Ha. simpl. rewrite Hf. simpl.
  eexists. split; [done|]. by eapply update_wf.
Qed.

Lemma packet_setPayload_ok st mem host a src len p :
  wf st → packets st !! a = Some p → payload p = 0 → src ≠ 0 →
  ∃ st' host', packet_setPayload process_readPtr st mem host a src len = Some (st', host') ∧ wf st'.
Proof.
  intros Hwf Ha E Hs. unfold packet_setPayload. rewrite Ha. simpl.
  rewrite E, (proj2 (Z.eqb_neq src 0)) by done. simpl.
  destruct (wf_packets _ Hwf a p Ha) as (Hlt & Hh & Hr).
  unfold payload_new. rewrite (proj2 (Z.eqb_neq src 0)) by done. cbn [negb andb].
  destruct (Z.ltb_spec 0 len).
  - destruct (process_readPtr mem src len) as [bytes|] eqn:Er; simpl.
    + do 2 eexists. split; [done|]. apply (attach_wf st a p); try done.
      cbn. by rewrite (read_length _ _ _ _ H Er).
    + do 2 eexists. split; [done|]. eapply update_wf; cbn; try done; lia.
  - do 2 eexists. split; [done|]. by apply (attach_wf st a p).
Qed.

(** The fields a copy shares with its original. *)
Definition copy_of (p : Packet) : Packet :=
  p <| referenceCount := 1 |>
    <| priority := if payload p =? 0 then F64.of_Z 0 else priority p |>.

Lemma copy_header p :
  header_ok p →
  (match header p, protocol p with
   | HNull, _ => Some HNull
   | HLocal h, PLOCAL => Some (HLocal h)
   | HUDP h, PUDP => Some (HUDP h)
   | HTCP h, PTCP => Some (HTCP h)
   | _, _ => None
   end) = Some (header p).
Proof. unfold header_ok. by destruct (header p), (protocol p). Qed.

Lemma packet_copy_unfold st a p :
  wf st → packets st !! a = Some p →
  ∃ st0, packet_copy st a = Some (alloc_packet st0 (copy_of p)) ∧
    packets st0 = packets st ∧ next st0 = next st ∧
    st0 = (if payload p =? 0 then st else
             match payloads st !! payload p with
             | Some pl => set_payload_at st (payload p)
                            (pl <| p_referenceCount := u32 (p_referenceCount pl + 1) |>)
             | None => st
             end).
Proof.
  intros Hwf Ha. unfold packet_copy. rewrite Ha. cbn.
  pose proof (copy_header p (header_packet_ok st a p Hwf Ha)) as Eh.
  unfold copy_of. destruct (Z.eqb_spec (payload p) 0) as [E|E]; cbn.
  - rewrite Eh. cbn. exists st. split; [|done]. do 2 f_equal. destruct p; cbn in *. by rewrite E.
  - destruct (payload_live st a p Hwf Ha) as (pl & Hb & Hk); [done|].
    rewrite (payload_ref_unfold _ _ _ Hb Hk), Hb. cbn. rewrite Eh. cbn.
    exists (set_payload_at st (payload p)
              (pl <| p_referenceCount := u32 (p_referenceCount pl + 1) |>)).
    split; [by destruct p|done].
Qed.

Lemma packet_copy_ok st a p :
  wf st → packets st !! a = Some p → Z.of_nat (size (packets st)) + 1 < 2 ^ 32 →
  ∃ r, packet_copy st a = Some r ∧ wf r.1.
Proof.
  intros Hwf Ha Hs. destruct (packet_copy_unfold st a p Hwf Ha) as (st0 & E & _ & _ & ->).
  eexists. split; [exact E|]. pose proof (header_packet_ok st a p Hwf Ha) as Hh.
  destruct (Z.eqb_spec (payload p) 0) as [E0|E0].
  - apply alloc_wf; try done.
  - destruct (payload_live st a p Hwf Ha) as (pl & Hb & Hk); [done|]. rewrite Hb.
    by apply (share_wf st (copy_of p) pl).
Qed.

Lemma getDataShadow_ok st b pl offset len :
  payloads st !! b = Some pl → lock pl = false → offset ≤ p_length pl →
  payload_getDataShadow st b offset len =
    Some (st, if 0 <? Z.min (p_length pl - offset) len
              then slice (data pl) offset (Z.min (p_length pl - offset) len) else [],
          Z.min (p_length pl - offset) len).
Proof.
  intros Hb Hk Ho. unfold payload_getDataShadow. rewrite Hb. destruct pl as [k rc dt n]; cbn in *.
  subst k. cbn. rewrite (proj2 (Z.leb_le _ _)) by done. cbn. do 3 f_equal.
  destruct st; cbn in *.
  change (mkStore next0 packets0 (<[b := mkPayload false rc dt n]> payloads0) =
          mkStore next0 packets0 payloads0).
  by rewrite insert_id.
Qed.

Lemma set_payload_same st b pl : payloads st !! b = Some pl → set_payload_at st b pl = st.
Proof.
  intros Hb. unfold set_payload_at. destruct st; cbn in *.
  change (mkStore next0 packets0 (<[b := pl]> payloads0) = mkStore next0 packets0 payloads0).
  by rewrite insert_id.
Qed.

Lemma locked pl : lock pl = false → _payload_lock pl = Some (pl <| lock := true |>).
Proof. intros Hk. unfold _payload_lock. by rewrite Hk. Qed.

Lemma getData_ok st mem b pl offset dest len :
  payloads st !! b = Some pl → lock pl = false → offset ≤ p_length pl → write_succeeds mem pl offset dest len = true →
  ∃ r, payload_getData process_writePtr st mem b offset dest len = Some r ∧ r.1.1 = st.
Proof.
  intros Hb Hk Ho Hw. unfold payload_getData. rewrite Hb. cbn. rewrite (locked _ Hk). cbn.
  rewrite (proj2 (Z.leb_le _ _)) by done. cbn. unfold write_succeeds, readable in Hw. destruct (0 <? _).
  - cbn in Hw. apply Z.eqb_eq in Hw. destruct (process_writePtr _ _ _) as [mem' err]. cbn in Hw. subst err. cbn.
    rewrite (lock_unlock _ Hk). cbn. eexists. split; [done|]. by apply set_payload_same.
  - rewrite (lock_unlock _ Hk). cbn. eexists. split; [done|]. by apply set_payload_same.
Qed.

(** A failed write returns its error and leaves the payload locked. *)
Lemma getData_fails st mem b pl offset dest len :
  payloads st !! b = Some pl → lock pl = false → offset ≤ p_length pl → write_succeeds mem pl offset dest len = false →
  ∃ st', payload_getData process_writePtr st mem b offset dest len =
           Some (st', (process_writePtr mem dest (readable pl offset len)).1,
                 - (process_writePtr mem dest (readable pl offset len)).2) ∧
    payload_ref st' b = None ∧ payload_unref st' b = None ∧ payload_getLength st' b = None.
Proof.
  intros Hb Hk Ho Hw. unfold payload_getData. rewrite Hb. cbn. rewrite (locked _ Hk). cbn.
  rewrite (proj2 (Z.leb_le _ _)) by done. cbn. unfold write_succeeds in Hw. apply orb_false_iff in Hw as [Hw1 Hw2].
  apply negb_false_iff in Hw1. rewrite Hw1. unfold readable in *. destruct (process_writePtr _ _ _) as [mem' err]. cbn in *.
  rewrite Hw2. cbn. eexists. split; [done|]. unfold payload_ref, payload_unref, payload_getLength. cbn. by rewrite lookup_insert_eq.
Qed.

Lemma packet_copyPayloadShadow_ok st a p offset len :
  wf st → packets st !! a = Some p →
  match payloads st !! payload p with Some pl => offset <=? p_length pl | None => true end = true →
  ∃ r, packet_copyPayloadShadow st p offset len = Some r ∧ r.1.1 = st.
Proof.
  intros Hwf Ha Ho. unfold packet_copyPayloadShadow.
  destruct (Z.eqb_spec (payload p) 0); [by eexists|]. cbn.
  destruct (payload_live st a p Hwf Ha) as (pl & Hb & Hk); [done|]. rewrite Hb in Ho.
  apply Z.leb_le in Ho. rewrite (getDataShadow_ok _ _ _ _ _ Hb Hk Ho). by eexists.
Qed.

(** Every allowed operation succeeds and keeps the invariant. *)
Lemma exec_ok st o : wf st → allowed st o = true → ∃ st', exec st o = Some st' ∧ wf st'.
Proof.
  intros Hwf Hal. destruct o; cbn [allowed exec] in *.
  1: { eexists. split; [done|]. unfold packet_new. cbn. apply Z.ltb_lt in Hal.
       exact (alloc_wf st (mkPacket 1 _ _ PNONE HNull 0 _ 0 []) Hwf Hal eq_refl I eq_refl). }
  all: apply with_packet_true in Hal as (p & Ha & Hf);
    pose proof (wf_packets _ Hwf a p Ha) as (Hlt & Hh & Hr).
  1: { apply andb_true_iff in Hf as [E1%Z.eqb_eq E2%negb_true_iff%Z.eqb_neq].
       destruct (packet_setPayload_ok st mem host a src len p Hwf Ha E1 E2) as (? & ? & -> & ?). eauto. }
  1: { apply Z.ltb_lt in Hf. destruct (packet_copy_ok st a p Hwf Ha Hf) as (? & -> & ?). eauto. }
  1: { apply Z.ltb_lt in Hf. unfold UINT32_MAX in Hf. eapply update_packet_ok; try done; cbn.
       rewrite u32_small by lia. lia. }
  1: destruct (packet_unref_ok st a p Hwf Ha Hf) as (? & -> & ? & _); by eauto.
  1: by eapply update_packet_ok.
  1-3: eapply update_packet_ok; [done|done|by rewrite Hf|done|done|exact Hr].
  1: { apply bool_decide_eq_true in Hf. unfold header_ok in Hh. rewrite Hf in Hh.
       destruct (header p) eqn:Eh; try done.
       eapply update_packet_ok; [done|done|by rewrite Hf, Eh|done| |done].
       unfold header_ok. cbn. by rewrite Hf. }
  1: { destruct (addDeliveryStatus_ok st a p status) as (q & ->);
         [done|by eapply packet_length_ok|done|done|].
       eexists. split; [done|]. by eapply update_wf. }
  1: { rewrite Ha. cbn. unfold packet_copyPayload. destruct (Z.eqb_spec (payload p) 0); [cbn; eauto|]. cbn.
       destruct (payload_live st a p Hwf Ha) as (pl & Hb & Hk); [done|]. rewrite Hb in Hf.
       apply andb_true_iff in Hf as [Ho%Z.leb_le Hw].
       destruct (getData_ok st mem (payload p) pl offset dest len Hb Hk Ho Hw) as (r & -> & Er). cbn. rewrite Er. eauto. }
  1: { destruct (packet_copyPayloadShadow_ok st a p offset len Hwf Ha Hf) as (r & E & Er).
       rewrite Ha. cbn. rewrite E. cbn. rewrite Er. eauto. }
Qed.

Lemma empty_wf : wf empty_store.
Proof.
  split; cbn; [done|by rewrite map_size_empty|apply map_Forall_empty|].
  intros b. rewrite lookup_empty. cbn. intros. unfold holders. by rewrite map_filter_empty, map_size_empty.
Qed.

Lemma steps_wf st st' : rtc step st st' → wf st → wf st'.
Proof.
  induction 1 as [|st st1 st2 (o & Hal & E) _ IH]; [done|]. intros Hwf. apply IH.
  destruct (exec_ok st o Hwf Hal) as (st' & E' & Hwf'). congruence.
Qed.

(** *** Properties *)

(** C21: after any sequence of packet operations that respects the client
    contract, and in which every write of a payload into a process succeeded,
    every further allowed operation succeeds: no assertion, panic, miscast
    header, dead payload or locked mutex is met.  A payload is allocated exactly
    as long as some live packet holds it, and its count is the number of these
    packets.  A copy into a process whose write fails returns the error but
    leaves the payload locked: after that nothing can refer to it, release it or
    ask for its length. *)
Theorem packet_store_safe st :
  rtc step empty_store st →
  (∀ o, allowed st o = true → is_Some (exec st o)) ∧
  (∀ b, b ≠ 0 → is_Some (payloads st !! b) ↔ ∃ a p, packets st !! a = Some p ∧ payload p = b) ∧
  (∀ b pl, payloads st !! b = Some pl → p_referenceCount pl = holders b (packets st)) ∧
  (∀ mem a p pl offset dest len, packets st !! a = Some p → payload p ≠ 0 → payloads st !! payload p = Some pl →
     offset ≤ p_length pl → write_succeeds mem pl offset dest len = false →
     ∃ st', packet_copyPayload process_writePtr st mem p offset dest len =
              Some (st', (process_writePtr mem dest (readable pl offset len)).1,
                    - (process_writePtr mem dest (readable pl offset len)).2) ∧
       payload_ref st' (payload p) = None ∧ payload_unref st' (payload p) = None ∧
       payload_getLength st' (payload p) = None).
Proof.
  intros Hr. pose proof (steps_wf _ _ Hr empty_wf) as Hwf. split_and!.
  - intros o Ho. destruct (exec_ok st o Hwf Ho) as (st' & -> & _). by eexists.
  - intros b Hb. pose proof (wf_payloads _ Hwf b) as H. split.
    + intros [pl E]. rewrite E in H. apply holders_inv, H.
    + intros (a & p & Ha & E). destruct (payloads st !! b); [by eexists|].
      specialize (H Hb). pose proof (holders_pos b _ a p Ha E). lia.
  - intros b pl E. pose proof (wf_payloads _ Hwf b) as H. rewrite E in H. apply H.
  - intros mem a p pl offset dest len Ha Hne Hb Ho Hw. unfold packet_copyPayload. rewrite (proj2 (Z.eqb_neq _ 0)) by done. cbn.
    apply getData_fails; try done. destruct (payload_live st a p Hwf Ha Hne) as (pl' & Hb' & Hk). congruence.
Qed.

End Steps.

(** A copy is a fresh packet with the id, protocol, header, delivery
    history and payload of its original, its own reference count, and the
    original's priority when it carries a payload; the original and every
    other packet stay as they are, and the payload has one more holder. *)
Theorem packet_copy_correct st a p :
  wf st → packets st !! a = Some p → Z.of_nat (size (packets st)) + 1 < 2 ^ 32 →
  ∃ st' c, packet_copy st a = Some (st', c) ∧ packets st !! c = None ∧
    packets st' = <[c := copy_of p]> (packets st) ∧
    (∀ b, b ≠ payload p → payloads st' !! b = payloads st !! b) ∧
    (∀ pl, payload p ≠ 0 → payloads st !! payload p = Some pl →
       payloads st' !! payload p =
         Some (pl <| p_referenceCount := holders (payload p) (packets st) + 1 |>)).
Proof.
  intros Hwf Ha Hs. destruct (packet_copy_unfold st a p Hwf Ha) as (st0 & E & Ep & En & E0).
  exists (alloc_packet st0 (copy_of p)).1, (next st). unfold alloc_packet in *. rewrite En, Ep in *.
  split_and!; [done| |done| |].
  - destruct (packets st !! next st) eqn:E1; [|done].
    destruct (wf_packets _ Hwf _ _ E1) as [? _]. lia.
  - intros b Hb. cbn. rewrite E0. destruct (_ =? 0); [done|].
    destruct (payloads st !! payload p); [|done]. cbn. by rewrite lookup_insert_ne.
  - intros pl Hn Hpl. cbn. rewrite E0, (proj2 (Z.eqb_neq _ 0)), Hpl by done. cbn.
    rewrite lookup_insert_eq. pose proof (wf_payloads _ Hwf (payload p)) as H.
    rewrite Hpl in H. cbn in H. destruct H as (_ & _ & _ & -> & ?).
    pose proof (holders_le (payload p) (packets st)). by rewrite u32_small by lia.
Qed.

(** What the getters return, all at once. *)
Definition endpoints (p : Packet) : option (Z * Z * Z * Z) :=
  sip ← packet_getSourceIP p; sport ← packet_getSourcePort p;
  dip ← packet_getDestinationIP p; dport ← packet_getDestinationPort p;
  Some (sip, sport, dip, dport).

(** The getters read back what [packet_setUDP] and [packet_setTCP] wrote;
    [packet_updateTCP] changes the acknowledgement, window and timestamps of a
    TCP packet, replaces the selective acknowledgements and raises the SACK
    flag only for a non-empty list, and keeps addresses and sequence number.
    A header is never set twice. *)
Theorem packet_header_roundtrip st a p sip sport dip dport seq fl ack sacks win tsv tse :
  packets st !! a = Some p → no_header p = true → addresses_given sip sport dip dport = true →
  (∃ q, packet_setUDP st a fl sip sport dip dport = Some (set_packet_at st a q) ∧
        endpoints q = Some (sip, sport, dip, dport) ∧ packet_getHeaderSize q = 42) ∧
  (∃ q q', packet_setTCP st a fl sip sport dip dport seq = Some (set_packet_at st a q) ∧
     endpoints q = Some (sip, sport, dip, dport) ∧ packet_getHeaderSize q = 66 ∧
     packet_updateTCP (set_packet_at st a q) a ack sacks win tsv tse = Some (set_packet_at st a q') ∧
     endpoints q' = Some (sip, sport, dip, dport) ∧
     packet_setUDP (set_packet_at st a q) a fl sip sport dip dport = None ∧
     packet_getTCPHeader q' = Some (mkTCP (if (0 <? List.length sacks)%nat then Z.lor fl PTCP_SACK else fl)
                       sip sport dip dport seq ack sacks win tsv tse)).
Proof.
  intros Ha Hn Hg. split.
  - eexists. unfold packet_setUDP, update_packet. rewrite Ha. cbn. rewrite Hn, Hg. by cbn.
  - eexists (_ : Packet), (_ : Packet). unfold packet_setTCP, packet_setUDP, packet_updateTCP, update_packet.
    rewrite Ha. cbn. rewrite Hn, Hg. cbn. split_and!; [done|done|done| | | |].
    + rewrite lookup_insert_eq. cbn. unfold set_packet_at. cbn. by rewrite insert_insert_eq.
    + by destruct sacks.
    + by rewrite lookup_insert_eq.
    + by destruct sacks.
Qed.

(** Reading a payload copies the bytes from the offset to the end of the
    payload or of the buffer, whichever comes first, and leaves the store as
    it was.  When the write into the managed process fails, the error is
    returned but the payload stays locked: no later operation on it returns. *)
Theorem payload_getData_correct {Mem} (writePtr : Mem → Z → list Z → Mem * Z) st mem b pl offset dest n :
  payloads st !! b = Some pl → lock pl = false → 0 ≤ offset ≤ p_length pl → 0 ≤ n →
  let k := Z.min (p_length pl - offset) n in
  let bytes := slice (data pl) offset k in
  (k = 0 → payload_getData writePtr st mem b offset dest n = Some (st, mem, 0)) ∧
  (0 < k → ∀ mem', writePtr mem dest bytes = (mem', 0) →
     payload_getData writePtr st mem b offset dest n = Some (st, mem', k)) ∧
  (0 < k → ∀ mem' err, writePtr mem dest bytes = (mem', err) → err ≠ 0 →
     ∃ st', payload_getData writePtr st mem b offset dest n = Some (st', mem', - err) ∧
       payload_ref st' b = None ∧ payload_unref st' b = None ∧ payload_getLength st' b = None ∧
       payload_getDataShadow st' b offset n = None).
Proof.
  intros Hb Hk Ho Hn k bytes.
  assert (Hst : ∀ m, set_payload_at st b (mkPayload false (p_referenceCount pl) (data pl) m)
                     = st <| payloads := <[b := mkPayload false (p_referenceCount pl) (data pl) m]>
                                           (payloads st) |>) by done.
  assert (Hid : set_payload_at st b pl = st).
  { unfold set_payload_at. destruct st; cbn in *.
    change (mkStore next0 packets0 (<[b := pl]> payloads0) = mkStore next0 packets0 payloads0).
    by rewrite insert_id. }
  unfold payload_getData. rewrite Hb. cbn.
  assert (Hlock : _payload_lock pl = Some (pl <| lock := true |>)) by (unfold _payload_lock; by rewrite Hk).
  rewrite Hlock. cbn. rewrite (proj2 (Z.leb_le _ _)) by lia. cbn. fold k.
  split_and!.
  - intros ->. cbn. by rewrite lock_unlock, Hid.
  - intros Hpos mem' E. rewrite (proj2 (Z.ltb_lt 0 k)) by done. fold bytes. rewrite E. cbn.
    by rewrite lock_unlock, Hid.
  - intros Hpos mem' err E Herr. rewrite (proj2 (Z.ltb_lt 0 k)) by done. fold bytes. rewrite E.
    rewrite (proj2 (Z.eqb_neq err 0)) by done. cbn. eexists. split; [done|].
    unfold payload_ref, payload_unref, payload_getLength, payload_getDataShadow. cbn.
    by rewrite lookup_insert_eq.
Qed.

(** The rendering of selective acknowledgements conflates a gap of one with a
    full range: 6 is missing from the first list only. *)
Example sacks_gap_hidden : sacks_toString [5; 7] = sacks_toString [5; 6; 7].
Proof. reflexivity. Qed.

(** ** What a component that holds references relies on *)

Lemma count_occ_cons_app (a : Z) l x :
  count_occ Z.eq_dec (a :: l) x = (count_occ Z.eq_dec [a] x + count_occ Z.eq_dec l x)%nat.
Proof. cbn. by destruct (Z.eq_dec a x). Qed.

(** Permutations of concatenated lists of addresses. *)
Ltac solve_app_perm :=
  apply (Permutation_count_occ Z.eq_dec); let x := fresh in intros x;
  rewrite ?count_occ_app;
  repeat match goal with |- context [count_occ _ (?a :: ?l) _] =>
    lazymatch l with [] => fail | _ => rewrite (count_occ_cons_app a l) end end;
  rewrite ?count_occ_app; lia.

Section Held.
Context (address_ipToNewString : Z → string) (traceOn : bool).

(** The bytes a packet takes on the wire, computed in 32 bits. *)
Definition packet_size (st : Store) (a : Z) : option Z :=
  p ← packets st !! a; len ← packet_getPayloadLength st p;
  Some (u32 (len + packet_getHeaderSize p)).

(** What does not change while a packet travels. *)
Definition packet_view (st : Store) (a : Z) : option (Z * ProtocolType * Header) :=
  p ← packets st !! a; len ← packet_getPayloadLength st p; Some (len, protocol p, header p).

Lemma same_size st st' a : packet_view st' a = packet_view st a → packet_size st' a = packet_size st a.
Proof.
  unfold packet_view, packet_size. destruct (packets st !! a) as [p|], (packets st' !! a) as [p'|]; cbn; try done.
  - destruct (packet_getPayloadLength st p), (packet_getPayloadLength st' p'); cbn; try done.
    intros [= -> E _]. unfold packet_getHeaderSize. by rewrite E.
  - by destruct (packet_getPayloadLength st p).
  - by destruct (packet_getPayloadLength st' p').
Qed.

Definition count (l : list Z) (a : Z) : Z := Z.of_nat (count_occ Z.eq_dec l a).

(** 0 for an address without a packet. *)
Definition refcount (st : Store) (a : Z) : Z :=
  match packets st !! a with Some p => referenceCount p | None => 0 end.

(** [l] lists the references to packets, with multiplicity: every count is
    right, so no packet is leaked. *)
Record held (st : Store) (l : list Z) : Prop := {
  held_wf : wf st;
  held_exact : ∀ a, refcount st a = count l a;
  held_trace : ∀ a p, packets st !! a = Some p → traceable traceOn p = true;
}.

(** The packets of [l] look the same in both stores. *)
Definition same_sizes (st st' : Store) (l : list Z) : Prop :=
  Forall (λ a, packet_view st' a = packet_view st a) l.

Lemma same_sizes_all st st' l : (∀ b, packet_view st' b = packet_view st b) → same_sizes st st' l.
Proof. intros H. by apply Forall_true. Qed.

Lemma same_sizes_trans st st1 st2 l1 l2 :
  same_sizes st st1 l1 → same_sizes st1 st2 l2 → l2 ⊆ l1 → same_sizes st st2 l2.
Proof.
  unfold same_sizes. rewrite !Forall_forall. intros H1 H2 Hs a Ha. rewrite H2 by done. auto.
Qed.

Lemma same_sizes_sub st st' l1 l2 : same_sizes st st' l1 → l2 ⊆ l1 → same_sizes st st' l2.
Proof. unfold same_sizes. rewrite !Forall_forall. eauto. Qed.

(** The packets an operation is not about look the same afterwards. *)
Definition same_views (st st' : Store) : Prop :=
  ∀ a, is_Some (packets st !! a) → is_Some (packets st' !! a) ∧ packet_view st' a = packet_view st a.

#[export] Instance same_views_preorder : PreOrder same_views.
Proof.
  split; [by intros st a|]. intros st1 st2 st3 H1 H2 a Ha. destruct (H1 a Ha) as [Ha1 E1].
  destruct (H2 a Ha1) as [Ha2 E2]. by rewrite E2.
Qed.

Lemma view_packet st st' a p :
  wf st → packet_view st' a = packet_view st a → packets st !! a = Some p →
  ∃ p', packets st' !! a = Some p' ∧ protocol p' = protocol p ∧ header p' = header p.
Proof.
  intros Hwf Hv Ha. unfold packet_view in Hv. rewrite Ha in Hv. cbn in Hv.
  destruct (packet_length_ok st a p Hwf Ha) as [n En]. rewrite En in Hv. cbn in Hv.
  destruct (packets st' !! a) as [p'|]; [|done]. cbn in Hv. exists p'. split; [done|].
  destruct (packet_getPayloadLength st' p'); [|done]. by injection Hv.
Qed.

Lemma all_views st st' : wf st → (∀ b, packet_view st' b = packet_view st b) → same_views st st'.
Proof.
  intros Hwf Hv a [p Ha]. split; [|done]. destruct (view_packet st st' a p Hwf (Hv a) Ha) as (p' & E & _). by eexists.
Qed.

Lemma count_cons a b l : count (a :: l) b = (if decide (a = b) then 1 else 0) + count l b.
Proof. unfold count. simpl. destruct (Z.eq_dec a b), (decide (a = b)); try done; lia. Qed.

Lemma count_pos l a : a ∈ l → 0 < count l a.
Proof. intros H%list_elem_of_In. apply (count_occ_In Z.eq_dec) in H. unfold count. lia. Qed.

Lemma count_Permutation l l' a : l ≡ₚ l' → count l a = count l' a.
Proof. intros H. unfold count. f_equal. by apply Permutation_count_occ. Qed.

Lemma count_not_in l a : a ∉ l → count l a = 0.
Proof. intros H. unfold count. rewrite (proj1 (count_occ_not_In Z.eq_dec l a)); [done|]. by rewrite <-list_elem_of_In. Qed.

Lemma count_length l a : count l a ≤ Z.of_nat (List.length l).
Proof. unfold count. pose proof (count_occ_bound Z.eq_dec a l). lia. Qed.

Lemma count_app l l' a : count (l ++ l') a = count l a + count l' a.
Proof. unfold count. rewrite count_occ_app. lia. Qed.

Lemma held_Permutation st l l' : l ≡ₚ l' → held st l → held st l'.
Proof. intros H [Hwf Hl Ht]. split; [done| |done]. intros a. by rewrite <-(count_Permutation l l' a H). Qed.

Lemma held_in st l a :
  held st l → a ∈ l →
  ∃ p, packets st !! a = Some p ∧ 0 < count l a ≤ referenceCount p ∧ traceable traceOn p = true.
Proof.
  intros [_ He Ht] Ha. specialize (He a). pose proof (count_pos l a Ha). unfold refcount in He.
  destruct (packets st !! a) as [p|] eqn:E; [|lia]. exists p. split; [done|]. split; [lia|by eapply Ht].
Qed.

(** Every packet is referenced. *)
Lemma held_live st l a p : held st l → packets st !! a = Some p → a ∈ l ∧ referenceCount p = count l a.
Proof.
  intros [Hwf He _] Ha. specialize (He a). unfold refcount in He. rewrite Ha in He. split; [|done].
  destruct (wf_packets _ Hwf a p Ha) as (_ & _ & ?). apply list_elem_of_In, (count_occ_In Z.eq_dec).
  unfold count in He. lia.
Qed.

Lemma held_bound st l a p :
  held st l → packets st !! a = Some p → Z.of_nat (List.length l) < UINT32_MAX → referenceCount p < UINT32_MAX.
Proof. intros Hh Ha Hl. destruct (held_live _ _ _ _ Hh Ha) as [_ ->]. pose proof (count_length l a). lia. Qed.

Lemma held_number st l : held st l → Z.of_nat (size (packets st)) ≤ Z.of_nat (List.length l).
Proof.
  intros Hh. rewrite <-size_dom. apply inj_le, submseteq_length, NoDup_submseteq; [apply NoDup_elements|].
  intros a [p Ha]%elem_of_elements%elem_of_dom. by eapply held_live.
Qed.

Lemma live_size st a p : wf st → packets st !! a = Some p → is_Some (packet_size st a).
Proof.
  intros Hwf Ha. unfold packet_size. rewrite Ha. simpl.
  destruct (packet_length_ok st a p Hwf Ha) as [n ->]. by eexists.
Qed.

(** A packet looks the same as long as its payload's bytes, its protocol and
    its header do not change. *)
Lemma size_preserved st st' a p p' :
  wf st → wf st' → same_payloads st st' → packets st !! a = Some p → packets st' !! a = Some p' →
  payload p' = payload p → protocol p' = protocol p → header p' = header p → packet_view st' a = packet_view st a.
Proof.
  intros Hwf Hwf' Hs Ha Ha' Ep Er Eh. unfold packet_view. rewrite Ha, Ha'. simpl.
  assert (packet_getPayloadLength st' p' = packet_getPayloadLength st p) as ->; [|by rewrite Er, Eh].
  unfold packet_getPayloadLength. rewrite Ep. destruct (Z.eqb_spec (payload p) 0) as [|Hn]; [done|].
  destruct (payload_live st a p Hwf Ha Hn) as (pl & Hb & Hk).
  destruct (payload_live st' a p' Hwf' Ha') as (pl' & Hb' & Hk'); [by rewrite Ep|].
  rewrite Ep in Hb'. destruct (Hs _ _ Hb') as (pl0 & E0 & Elen & _). simplify_eq.
  by rewrite (payload_getLength_unfold _ _ _ Hb Hk), (payload_getLength_unfold _ _ _ Hb' Hk'), Elen.
Qed.

(** Changing one packet's count or status. *)
Lemma update_size st a p p' b :
  wf st → wf (set_packet_at st a p') → packets st !! a = Some p → payload p' = payload p →
  protocol p' = protocol p → header p' = header p → packet_view (set_packet_at st a p') b = packet_view st b.
Proof.
  intros Hwf Hwf' Ha Ep Er Eh. destruct (packets st !! b) as [q|] eqn:Eb.
  - destruct (decide (a = b)) as [<-|Hne].
    + eapply (size_preserved _ _ _ p p'); try done; [by intros c pl; exists pl|apply lookup_insert_eq].
    + eapply (size_preserved _ _ _ q q); try done; [by intros c pl; exists pl|].
      cbn. by rewrite lookup_insert_ne.
  - assert (a ≠ b) by congruence. unfold packet_view. cbn. rewrite lookup_insert_ne by done.
    by rewrite Eb.
Qed.

(** A packet whose count becomes that of another list. *)
Lemma held_set st l l' a p p' :
  held st l → packets st !! a = Some p → payload p' = payload p → protocol p' = protocol p →
  header p' = header p → 0 < referenceCount p' < 2 ^ 32 → referenceCount p' = count l' a →
  (∀ b, a ≠ b → count l' b = count l b) → held (set_packet_at st a p') l'.
Proof.
  intros [Hwf He Ht] Ha Ep Er Eh Hr Ec Hb. destruct (wf_packets _ Hwf a p Ha) as (? & Hh & _). split.
  - eapply update_wf; try done. unfold header_ok in *. by rewrite Er, Eh.
  - intros b. unfold refcount. cbn. destruct (decide (a = b)) as [<-|Hne]; [by rewrite lookup_insert_eq|].
    rewrite lookup_insert_ne by done. rewrite Hb by done. apply He.
  - intros b q. cbn. destruct (decide (a = b)) as [<-|Hne]; [|rewrite lookup_insert_ne by done; apply Ht].
    rewrite lookup_insert_eq. intros [= <-]. specialize (Ht a p Ha). unfold traceable, no_header in *. by rewrite Er, Eh.
Qed.

Lemma held_update st l a p p' :
  held st l → packets st !! a = Some p → payload p' = payload p → protocol p' = protocol p →
  header p' = header p → referenceCount p' = referenceCount p → held (set_packet_at st a p') l.
Proof.
  intros Hh Ha Ep Er Eh Erc. destruct (wf_packets _ (held_wf _ _ Hh) a p Ha) as (_ & _ & ?).
  destruct (held_live _ _ _ _ Hh Ha) as [_ Ec]. eapply held_set; try done; by rewrite Erc.
Qed.

(** Taking a reference. *)
Lemma held_ref st l a p :
  held st l → packets st !! a = Some p → referenceCount p < UINT32_MAX →
  ∃ st', packet_ref st a = Some st' ∧ held st' (a :: l) ∧
    (∀ b, packet_view st' b = packet_view st b) ∧ payloads st' = payloads st ∧
    packets st' = <[a := p <| referenceCount := referenceCount p + 1 |>]> (packets st).
Proof.
  intros Hh Ha Hlt. unfold UINT32_MAX in Hlt. unfold packet_ref, update_packet. rewrite Ha. cbn.
  pose proof (held_wf _ _ Hh) as Hwf. destruct (wf_packets _ Hwf a p Ha) as (? & ? & ?).
  destruct (held_live _ _ _ _ Hh Ha) as [_ Ec].
  rewrite u32_small by lia. set (p' := p <| referenceCount := _ |>).
  assert (Hh' : held (set_packet_at st a p') (a :: l)).
  { eapply (held_set st l); try done; [cbn; lia|cbn; rewrite count_cons, decide_True by done; lia|].
    intros b Hb. by rewrite count_cons, decide_False by done. }
  eexists. split; [done|]. split_and!; [done|intros b; by eapply update_size; try done; apply Hh'|done|done].
Qed.

(** Recording a status. *)
Lemma held_mark st l a status :
  held st l → a ∈ l →
  ∃ st' p q, packet_addDeliveryStatus address_ipToNewString traceOn st a status = Some st' ∧
    held st' l ∧ (∀ b, packet_view st' b = packet_view st b) ∧ packets st !! a = Some p ∧
    st' = set_packet_at st a (p <| allStatus := set_flags (allStatus p) status |> <| orderedStatus := q |>).
Proof.
  intros Hh Ha. pose proof (held_wf _ _ Hh) as Hwf. destruct (held_in _ _ _ Hh Ha) as (p & Hp & ? & Ht).
  destruct (wf_packets _ Hwf a p Hp) as (? & ? & ?).
  destruct (addDeliveryStatus_ok address_ipToNewString traceOn st a p status) as (q & ->);
    [done|by eapply packet_length_ok|done|done|].
  set (p' := _ <| orderedStatus := q |>).
  assert (Hh' : held (set_packet_at st a p') l) by by eapply held_update.
  exists (set_packet_at st a p'), p, q. split_and!; try done. intros b. by eapply update_size; try done; apply Hh'.
Qed.

Lemma held_status st l a status :
  held st l → a ∈ l →
  ∃ st', packet_addDeliveryStatus address_ipToNewString traceOn st a status = Some st' ∧
    held st' l ∧ ∀ b, packet_view st' b = packet_view st b.
Proof. intros Hh Ha. destruct (held_mark st l a status Hh Ha) as (st' & p & q & ? & ? & ? & _). by exists st'. Qed.

(** Giving a reference back. *)
Lemma held_unref st l a :
  held st (a :: l) →
  ∃ st', packet_unref address_ipToNewString traceOn st a = Some st' ∧ held st' l ∧
    same_sizes st st' l.
Proof.
  intros Hh. pose proof (held_wf _ _ Hh) as Hwf.
  destruct (held_in _ _ a Hh) as (p & Ha & Hc & Ht); [left|].
  destruct (packet_unref_ok address_ipToNewString traceOn st a p Hwf Ha Ht)
    as (st' & E & Hwf' & Hpk & Hsp).
  destruct (held_live _ _ _ _ Hh Ha) as [_ Ec]. rewrite count_cons, decide_True in Ec by done.
  assert (Hne : ∀ b, a ≠ b → packets st' !! b = packets st !! b).
  { intros b Hb. rewrite Hpk. unfold unref_result.
    case_match; by rewrite ?lookup_delete_ne, ?lookup_insert_ne by done. }
  assert (Hself : packets st' !! a = if referenceCount p =? 1 then None
                                     else Some (p <| referenceCount := referenceCount p - 1 |>)).
  { rewrite Hpk. unfold unref_result. by case_match; rewrite ?lookup_delete_eq, ?lookup_insert_eq. }
  exists st'. split; [done|]. split; [split; [done| |]|].
  - intros b. destruct (decide (a = b)) as [<-|Hb].
    + unfold refcount. rewrite Hself. destruct (Z.eqb_spec (referenceCount p) 1); cbn; lia.
    + unfold refcount. rewrite Hne by done. pose proof (held_exact _ _ Hh b) as He. unfold refcount in He.
      by rewrite He, count_cons, decide_False.
  - intros b q. destruct (decide (a = b)) as [<-|Hb]; [|rewrite Hne by done; apply Hh].
    rewrite Hself. case_match; [done|]. intros [= <-]. exact Ht.
  - apply Forall_forall. intros b Hb. destruct (held_in _ _ b Hh) as (q & Hq & _); [by right|].
    destruct (decide (a = b)) as [<-|Hab]; [|by apply (size_preserved _ _ _ q q); rewrite ?Hne].
    simplify_eq. pose proof (count_pos l a Hb). rewrite (proj2 (Z.eqb_neq _ 1)) in Hself by lia. by eapply size_preserved.
Qed.

(** A copy is one more packet, which looks like its original. *)
Lemma held_copy st l a :
  held st l → a ∈ l → Z.of_nat (List.length l) < UINT32_MAX →
  ∃ st' c, packet_copy st a = Some (st', c) ∧ held st' (c :: l) ∧ same_views st st' ∧
    packet_view st' c = packet_view st a ∧ c ∉ l.
Proof.
  intros Hh Ha Hl. pose proof (held_wf _ _ Hh) as Hwf. destruct (held_in _ _ _ Hh Ha) as (p & Hp & _ & Ht).
  pose proof (held_number _ _ Hh) as Hsz. unfold UINT32_MAX in Hl.
  destruct (packet_copy_ok st a p Hwf Hp ltac:(lia)) as ([st' c] & E & Hwf'). cbn in Hwf'.
  destruct (packet_copy_unfold st a p Hwf Hp) as (st0 & E' & Ep & En & E0). rewrite E in E'. injection E' as -> ->.
  assert (Hc : packets st !! next st = None).
  { destruct (packets st !! next st) eqn:E1; [|done]. destruct (wf_packets _ Hwf _ _ E1) as [? _]. lia. }
  assert (Hnc : next st ∉ l) by (intros Hin; destruct (held_in _ _ _ Hh Hin) as (q & Hq & _); congruence).
  unfold alloc_packet in *. cbn in *. rewrite En in *. set (st' := st0 <| next := next st + 1 |> <| packets := <[next st := copy_of p]> (packets st0) |>) in *.
  assert (Hpk : packets st' = <[next st := copy_of p]> (packets st)) by (unfold st'; cbn; by rewrite Ep).
  assert (Hpl : same_payloads st st').
  { intros b pl. unfold st'. cbn. rewrite E0. destruct (_ =? 0); [by exists pl|].
    destruct (payloads st !! payload p) as [q|] eqn:Epl; [|by exists pl]. cbn.
    destruct (decide (payload p = b)) as [<-|Hne]; [|rewrite lookup_insert_ne by done; by exists pl].
    rewrite lookup_insert_eq. intros [= <-]. by exists q. }
  assert (Hv : ∀ b q, packets st !! b = Some q → packet_view st' b = packet_view st b).
  { intros b q Hq. apply (size_preserved _ _ _ q q); try done. rewrite Hpk, lookup_insert_ne by congruence. done. }
  exists st', (next st). split; [done|]. split; [split; [done| |]|split; [|split; [|done]]].
  - intros b. unfold refcount. rewrite Hpk, count_cons. destruct (decide (next st = b)) as [<-|Hne].
    + rewrite lookup_insert_eq. pose proof (held_exact _ _ Hh (next st)) as He. unfold refcount in He.
      rewrite Hc in He. by rewrite <-He.
    + rewrite lookup_insert_ne by done. apply (held_exact _ _ Hh).
  - intros b q. rewrite Hpk. destruct (decide (next st = b)) as [<-|Hne]; [|rewrite lookup_insert_ne by done; apply Hh].
    rewrite lookup_insert_eq. by intros [= <-].
  - intros b [q Hq]. split; [|by eapply Hv]. rewrite Hpk, lookup_insert_ne by congruence. by eexists.
  - assert (packet_view st' a = packet_view st a) as <- by by eapply Hv. unfold packet_view.
    assert (packets st' !! a = Some p) as -> by (rewrite Hpk, lookup_insert_ne by congruence; done).
    rewrite Hpk, lookup_insert_eq. done.
Qed.


(** The list of references of a concrete store. *)
Lemma held_check st l :
  wf st → map_Forall (λ a p, referenceCount p = count l a ∧ traceable traceOn p = true) (packets st) →
  Forall (λ a, is_Some (packets st !! a)) l → held st l.
Proof.
  intros Hwf Hp Hl. split; [done| |intros a p Ha; by apply (Hp a p)]. intros a. unfold refcount.
  destruct (packets st !! a) as [p|] eqn:E; [by apply (Hp a p)|]. unfold count.
  rewrite (proj1 (count_occ_not_In Z.eq_dec l a)); [done|]. rewrite <-list_elem_of_In. intros Ha.
  rewrite Forall_forall in Hl. destruct (Hl a Ha). congruence.
Qed.

Lemma held_empty : held empty_store [].
Proof. apply held_check; [exact empty_wf|apply map_Forall_empty|by apply Forall_nil]. Qed.

End Held.

(** ** Witnesses *)

Definition demo_readPtr (mem : list Z) (src n : Z) : option (list Z) :=
  Some (take (Z.to_nat n) (mem ++ replicate (Z.to_nat n) 0)).

(** The address space a write of the managed process can reach ends at 100. *)
Definition demo_writePtr (mem : list Z) (dest : Z) (bytes : list Z) : list Z * Z :=
  if dest <? 100 then (bytes, 0) else (mem, EFAULT).

Definition demo_host : Host := default inhabitant (Ev.sample_hosts !! 100).

Lemma pkt_demo_step st o st' :
  allowed demo_writePtr false st o = true →
  exec demo_readPtr demo_writePtr (λ _, EmptyString) false st o = Some st' →
  step demo_readPtr demo_writePtr (λ _, EmptyString) false st st'.
Proof. by exists o. Qed.

Definition run_ops (st : Store) (l : list op) : option Store :=
  foldr (λ o k st, if allowed demo_writePtr false st o
                   then st' ← exec demo_readPtr demo_writePtr (λ _, EmptyString) false st o; k st'
                   else None) Some l st.

Lemma run_ops_steps l st st' :
  run_ops st l = Some st' → rtc (step demo_readPtr demo_writePtr (λ _, EmptyString) false) st st'.
Proof.
  revert st. induction l as [|o l IH]; intros st E; cbn in E; [by injection E as ->|].
  destruct (allowed demo_writePtr false st o) eqn:Ha; [|done].
  destruct (exec _ _ _ _ st o) as [st1|] eqn:Ex; [|done].
  eapply rtc_l; [by eapply pkt_demo_step|]. by apply IH.
Qed.

(** A packet with a payload of three bytes, and a copy of it. *)
Definition demo_ops : list op :=
  [ ONew demo_host; OSetUDP 1 0 10 20 30 40; OSetPayload [1; 2; 3] demo_host 1 77 3; OCopy 1;
    OCopyPayload [] 1 1 50 10 ].

Definition demo_store : Store := default empty_store (run_ops empty_store demo_ops).

Lemma demo_store_reach : rtc (step demo_readPtr demo_writePtr (λ _, EmptyString) false) empty_store demo_store.
Proof. apply (run_ops_steps demo_ops). by vm_compute. Qed.

Lemma demo_read_length mem src n bytes :
  0 < n → demo_readPtr mem src n = Some bytes → Z.of_nat (List.length bytes) = n.
Proof.
  intros Hn [= <-]. rewrite length_take, length_app, length_replicate. lia.
Qed.

Lemma packet_store_safe_witness :
  rtc (step demo_readPtr demo_writePtr (λ _, EmptyString) false) empty_store demo_store ∧
  is_Some (exec demo_readPtr demo_writePtr (λ _, EmptyString) false demo_store (OUnref 1)) ∧
  ∃ pl, payloads demo_store !! 2 = Some pl ∧ p_referenceCount pl = 2.
Proof.
  destruct (packet_store_safe demo_readPtr demo_writePtr (λ _, EmptyString) false demo_read_length
              demo_store demo_store_reach) as (Hex & Hlive & Hcnt & _).
  split; [exact demo_store_reach|split; [by apply Hex|]].
  destruct (payloads demo_store !! 2) as [pl|] eqn:E; [|by vm_compute in E].
  exists pl. split; [done|]. rewrite (Hcnt 2 pl E). by vm_compute.
Defined.

Lemma demo_store_wf : wf demo_store.
Proof. exact (steps_wf _ _ _ _ demo_read_length _ _ demo_store_reach empty_wf). Qed.

Lemma demo_held : held false demo_store [1; 3].
Proof. apply held_check; [exact demo_store_wf| |]; apply (bool_decide_unpack _); by vm_compute. Qed.

Lemma packet_copy_correct_witness :
  ∃ st' c, packet_copy demo_store 1 = Some (st', c) ∧ packets demo_store !! c = None.
Proof.
  destruct (packets demo_store !! 1) as [p|] eqn:E; [|by vm_compute in E].
  destruct (packet_copy_correct demo_store 1 p demo_store_wf E) as (st' & c & ? & ? & _);
    [by vm_compute|by exists st', c].
Defined.

Definition demo_fresh : Store := (packet_new empty_store demo_host).1.1.

Lemma packet_header_roundtrip_witness :
  ∃ q, packet_setUDP demo_fresh 1 0 10 20 30 40 = Some (set_packet_at demo_fresh 1 q) ∧
       endpoints q = Some (10, 20, 30, 40).
Proof.
  destruct (packets demo_fresh !! 1) as [p|] eqn:E; [|by vm_compute in E].
  destruct (packet_header_roundtrip demo_fresh 1 p 10 20 30 40 7 0 9 [5; 6] 100 1 2 E)
    as ((q & ? & ? & _) & _); [|done|by exists q].
  vm_compute in E. by injection E as <-.
Defined.

Lemma payload_getData_correct_witness :
  payload_getData demo_writePtr demo_store [] 2 1 50 10 = Some (demo_store, [2; 3], 2) ∧
  ∃ st', payload_getData demo_writePtr demo_store [] 2 1 200 10 = Some (st', [], - EFAULT) ∧
         payload_getLength st' 2 = None.
Proof.
  destruct (payloads demo_store !! 2) as [pl|] eqn:E; [|by vm_compute in E].
  assert (lock pl = false ∧ p_length pl = 3 ∧ data pl = [1; 2; 3]) as (Hk & Hl & Hd)
    by (vm_compute in E; by injection E as <-).
  pose proof (payload_getData_correct demo_writePtr demo_store [] 2 pl 1 50 10 E Hk) as Hok.
  pose proof (payload_getData_correct demo_writePtr demo_store [] 2 pl 1 200 10 E Hk) as Hbad.
  rewrite Hl, Hd in Hok, Hbad. split.
  - by apply Hok.
  - destruct Hbad as (_ & _ & Hbad); [lia|lia|].
    destruct (Hbad ltac:(done) [] EFAULT) as (st' & ? & _ & _ & ? & _); [done|done|by exists st'].
Defined.

End Pkt.
