(* ===== verification/ThreadPolicies.v ===== *)
(** * The thread policies
    (src/phantom/src/main/core/scheduler/scheduler_policy_thread_single.c,
    scheduler_policy_thread_perhost.c, scheduler_policy_thread_perthread.c)

    Three policies that keep one event queue per worker thread.  The first
    pushes into it directly under a lock.  The other two let a thread push
    into a mailbox of the receiving thread, one per sending host or per
    sending thread, which the receiver empties between rounds.  The last part
    states what the policies promise to the scheduler as an executable
    specification, and shows that all three implement it. *)

From S2P Require Import Prelude Float64 Cpu PriorityQueue Event SchedulerHostSingle.

Module Threads.
Import Host Ev.

(** The queue with its counters is the record of the host-single policy: the
    four files declare the same fields. *)
Abbreviation QueueData := Sched.HostSingleQueueData.
#[local] Existing Instances Sched.qdata_eta PQ.pq_eta.

(** A host table entry as a thread id: [GPOINTER_TO_UINT] keeps 32 bits, and
    [NULL] (no entry) is zero. *)
Definition thread_id (hostToThreadMap : gmap Z Z) (host : Z) : Z :=
  u32 (default 0 (hostToThreadMap !! host)).

(** ** The operations of a policy (scheduler_policy.h)

    The events' memory is shared with the caller; [block] is the address of a
    queue the call may have to allocate. *)
Record SchedulerPolicy (D : Type) := mkPolicyOps {
  new : D;
  addHost : D → Z → Z → Z → Z → D;
  getAssignedHosts : D → Z → option (list Z);
  push : hosts → events → D → Z → Z → Z → Z → Z → Z → option (events * D);
  pop : hosts → events → D → Z → Z → option (D * option Z);
  getNextTime : hosts → events → D → Z → option (D * Z);
}.
Arguments new {D}. Arguments addHost {D}. Arguments getAssignedHosts {D}.
Arguments push {D}. Arguments pop {D}. Arguments getNextTime {D}.

Section Operations.
Context (g_renew : Z → nat → Z).

(** Events for a host of another thread are delayed to the barrier. *)
Definition delay_event (es : events) (event srcThread dstThread barrier : Z) : events :=
  let eventTime := event_getTime (es !!! event) in
  if negb (srcThread =? dstThread) && (eventTime <? barrier)
  then <[event := event_setTime (es !!! event) barrier]> es else es.

(** [priorityqueue_push(qdata->pq, event); qdata->nPushed++] *)
Definition push_queue (hs : hosts) (es : events) (qdata : QueueData) (event : Z) : option QueueData :=
  '(pq', _) ← PQ.priorityqueue_push (event_compare_at hs es) g_renew (Sched.pq qdata) event;
  Some (qdata <| Sched.pq := pq' |> <| Sched.nPushed := u64 (Sched.nPushed qdata + 1) |>).

(** The time of the first event, at most [SIMTIME_MAX]. *)
Definition peek_time (es : events) (qdata : QueueData) : Z :=
  let event := PQ.priorityqueue_peek (Sched.pq qdata) in
  if negb (event =? 0) then Z.min SIMTIME_MAX (event_getTime (es !!! event)) else SIMTIME_MAX.

(** ** One queue for each thread (scheduler_policy_thread_single.c) *)

(** The queue and its counters are fields of the structure itself. *)
Record ThreadSingleThreadData := mkSingle {
  assignedHosts2 : list Z;
  single_queue : QueueData;
}.

#[export] Instance single_eta : Eta ThreadSingleThreadData := fun t =>
  mkSingle (assignedHosts2 t) (single_queue t).

Record ThreadSinglePolicyData := mkSinglePolicy {
  single_threads : gmap Z ThreadSingleThreadData;
  single_hosts : gmap Z Z;
}.

#[export] Instance single_policy_eta : Eta ThreadSinglePolicyData := fun d =>
  mkSinglePolicy (single_threads d) (single_hosts d).

Definition _threadsinglethreaddata_new (block : Z) : ThreadSingleThreadData :=
  mkSingle [] (Sched._hostsinglequeuedata_new block).

Definition _schedulerpolicythreadsingle_addHost (d : ThreadSinglePolicyData)
    (block host randomThread self : Z) : ThreadSinglePolicyData :=
  let assignedThread := if negb (randomThread =? 0) then randomThread else self in
  let tdata := default (_threadsinglethreaddata_new block) (single_threads d !! assignedThread) in
  let tdata := tdata <| assignedHosts2 := assignedHosts2 tdata ++ [host] |> in
  d <| single_threads := <[assignedThread := tdata]> (single_threads d) |>
    <| single_hosts := <[host := assignedThread]> (single_hosts d) |>.

Definition _schedulerpolicythreadsingle_getHosts (d : ThreadSinglePolicyData) (self : Z)
    : option (list Z) :=
  assignedHosts2 <$> single_threads d !! self.

(** [None]: the destination's thread has no data (a failed assertion). *)
Definition _schedulerpolicythreadsingle_push (hs : hosts) (es : events)
    (d : ThreadSinglePolicyData) (event srcHost dstHost barrier : Z)
    : option (events * ThreadSinglePolicyData) :=
  let srcThread := thread_id (single_hosts d) srcHost in
  let dstThread := thread_id (single_hosts d) dstHost in
  let es := delay_event es event srcThread dstThread barrier in
  tdata ← single_threads d !! dstThread;
  q ← push_queue hs es (single_queue tdata) event;
  Some (es, d <| single_threads := <[dstThread := tdata <| single_queue := q |>]> (single_threads d) |>).

Definition _schedulerpolicythreadsingle_pop (hs : hosts) (es : events) (d : ThreadSinglePolicyData)
    (self barrier : Z) : option (ThreadSinglePolicyData * option Z) :=
  match single_threads d !! self with
  | None => Some (d, None)
  | Some tdata =>
      '(q, nextEvent) ← Sched.pop_queue g_renew hs es (single_queue tdata) barrier;
      Some (d <| single_threads := <[self := tdata <| single_queue := q |>]> (single_threads d) |>,
            nextEvent)
  end.

Definition _schedulerpolicythreadsingle_getNextTime (es : events) (d : ThreadSinglePolicyData)
    (self : Z) : Z :=
  match single_threads d !! self with
  | None => SIMTIME_MAX
  | Some tdata => peek_time es (single_queue tdata)
  end.

Definition schedulerpolicythreadsingle_new : ThreadSinglePolicyData := mkSinglePolicy ∅ ∅.

Definition threadsingle : SchedulerPolicy ThreadSinglePolicyData := {|
  new := schedulerpolicythreadsingle_new;
  addHost := _schedulerpolicythreadsingle_addHost;
  getAssignedHosts := _schedulerpolicythreadsingle_getHosts;
  push hs es d block event src dst barrier self :=
    _schedulerpolicythreadsingle_push hs es d event src dst barrier;
  pop := _schedulerpolicythreadsingle_pop;
  getNextTime hs es d self := Some (d, _schedulerpolicythreadsingle_getNextTime es d self);
|}.

(** ** Queues with mailboxes (scheduler_policy_thread_perhost.c,
    scheduler_policy_thread_perthread.c)

    The two files differ in what identifies a mailbox of the receiving
    thread: [mailbox_key srcHost srcThread]. *)
Section Mailboxes.
Context (mailbox_key : Z → Z → Z).
(** The order in which the hash table gives its keys. *)
Context (keys : gmap Z PQ.PriorityQueue → list Z).

Record MailThreadData := mkMail {
  assignedHosts : list Z;
  qdata : QueueData;
  toPQueueMap : gmap Z PQ.PriorityQueue;
}.

#[export] Instance mail_eta : Eta MailThreadData := fun t =>
  mkMail (assignedHosts t) (qdata t) (toPQueueMap t).

Record MailPolicyData := mkMailPolicy {
  threadToThreadDataMap : gmap Z MailThreadData;
  hostToThreadMap : gmap Z Z;
}.

#[export] Instance mail_policy_eta : Eta MailPolicyData := fun d =>
  mkMailPolicy (threadToThreadDataMap d) (hostToThreadMap d).

Definition mailthreaddata_new (block : Z) : MailThreadData :=
  mkMail [] (Sched._hostsinglequeuedata_new block) ∅.

Definition mailpolicy_addHost (d : MailPolicyData) (block host randomThread self : Z) : MailPolicyData :=
  let assignedThread := if negb (randomThread =? 0) then randomThread else self in
  let tdata := default (mailthreaddata_new block) (threadToThreadDataMap d !! assignedThread) in
  let tdata := tdata <| assignedHosts := assignedHosts tdata ++ [host] |> in
  d <| threadToThreadDataMap := <[assignedThread := tdata]> (threadToThreadDataMap d) |>
    <| hostToThreadMap := <[host := assignedThread]> (hostToThreadMap d) |>.

Definition mailpolicy_getHosts (d : MailPolicyData) (self : Z) : option (list Z) :=
  assignedHosts <$> threadToThreadDataMap d !! self.

(** The part of a push that delivers the event to the receiving thread. *)
Definition deliver (hs : hosts) (es : events) (tdata : MailThreadData)
    (block event srcHost srcThread dstThread self : Z) : option MailThreadData :=
  if dstThread =? self then
    q ← push_queue hs es (qdata tdata) event;
    Some (tdata <| qdata := q |>)
  else
    let key := mailbox_key srcHost srcThread in
    let futureEvents := default (PQ.priorityqueue_new block) (toPQueueMap tdata !! key) in
    '(futureEvents, _) ← PQ.priorityqueue_push (event_compare_at hs es) g_renew futureEvents event;
    Some (tdata <| toPQueueMap := <[key := futureEvents]> (toPQueueMap tdata) |>).

Definition mailpolicy_push (hs : hosts) (es : events) (d : MailPolicyData)
    (block event srcHost dstHost barrier self : Z) : option (events * MailPolicyData) :=
  let srcThread := thread_id (hostToThreadMap d) srcHost in
  let dstThread := thread_id (hostToThreadMap d) dstHost in
  let es := delay_event es event srcThread dstThread barrier in
  tdata ← threadToThreadDataMap d !! dstThread;
  tdata ← deliver hs es tdata block event srcHost srcThread dstThread self;
  Some (es, d <| threadToThreadDataMap := <[dstThread := tdata]> (threadToThreadDataMap d) |>).

Definition mailpolicy_pop (hs : hosts) (es : events) (d : MailPolicyData) (self barrier : Z)
    : option (MailPolicyData * option Z) :=
  match threadToThreadDataMap d !! self with
  | None => Some (d, None)
  | Some tdata =>
      '(q, nextEvent) ← Sched.pop_queue g_renew hs es (qdata tdata) barrier;
      Some (d <| threadToThreadDataMap := <[self := tdata <| qdata := q |>]> (threadToThreadDataMap d) |>,
            nextEvent)
  end.

(** [while(!priorityqueue_isEmpty(futureEvents))]; every iteration takes an
    event out. *)
Fixpoint drain_mailbox (fuel : nat) (hs : hosts) (es : events)
    (futureEvents : PQ.PriorityQueue) (q : QueueData) : option (PQ.PriorityQueue * QueueData) :=
  if PQ.priorityqueue_isEmpty futureEvents then Some (futureEvents, q)
  else match fuel with
       | O => None
       | S fuel =>
           let '(futureEvents, event) :=
             PQ.priorityqueue_pop (event_compare_at hs es) g_renew futureEvents in
           q ← push_queue hs es q event;
           drain_mailbox fuel hs es futureEvents q
       end.

Fixpoint drain_mailboxes (hs : hosts) (es : events) (values : list Z) (tdata : MailThreadData)
    : option MailThreadData :=
  match values with
  | [] => Some tdata
  | key :: values =>
      futureEvents ← toPQueueMap tdata !! key;
      '(futureEvents, q) ←
        drain_mailbox (PQ.priorityqueue_getLength futureEvents) hs es futureEvents (qdata tdata);
      drain_mailboxes hs es values
        (tdata <| qdata := q |> <| toPQueueMap := <[key := futureEvents]> (toPQueueMap tdata) |>)
  end.

Definition mailpolicy_getNextTime (hs : hosts) (es : events) (d : MailPolicyData) (self : Z)
    : option (MailPolicyData * Z) :=
  match threadToThreadDataMap d !! self with
  | None => Some (d, SIMTIME_MAX)
  | Some tdata =>
      tdata ← drain_mailboxes hs es (keys (toPQueueMap tdata)) tdata;
      Some (d <| threadToThreadDataMap := <[self := tdata]> (threadToThreadDataMap d) |>,
            peek_time es (qdata tdata))
  end.

Definition mailpolicy_new : MailPolicyData := mkMailPolicy ∅ ∅.

Definition mailpolicy : SchedulerPolicy MailPolicyData := {|
  new := mailpolicy_new;
  addHost := mailpolicy_addHost;
  getAssignedHosts := mailpolicy_getHosts;
  push := mailpolicy_push;
  pop := mailpolicy_pop;
  getNextTime := mailpolicy_getNextTime;
|}.

End Mailboxes.

(** *** A mailbox for each sending host. *)

Definition _schedulerpolicythreadperhost_addHost := mailpolicy_addHost.
Definition _schedulerpolicythreadperhost_getHosts := mailpolicy_getHosts.
Definition _schedulerpolicythreadperhost_push := mailpolicy_push (λ srcHost srcThread, srcHost).
Definition _schedulerpolicythreadperhost_pop := mailpolicy_pop.
Definition _schedulerpolicythreadperhost_getNextTime := mailpolicy_getNextTime.

Definition threadperhost (keys : gmap Z PQ.PriorityQueue → list Z) : SchedulerPolicy MailPolicyData := {|
  new := mailpolicy_new;
  addHost := _schedulerpolicythreadperhost_addHost;
  getAssignedHosts := _schedulerpolicythreadperhost_getHosts;
  push := _schedulerpolicythreadperhost_push;
  pop := _schedulerpolicythreadperhost_pop;
  getNextTime := _schedulerpolicythreadperhost_getNextTime keys;
|}.

(** *** A mailbox for each sending thread. *)

Definition _schedulerpolicythreadperthread_addHost := mailpolicy_addHost.
Definition _schedulerpolicythreadperthread_getHosts := mailpolicy_getHosts.
Definition _schedulerpolicythreadperthread_push := mailpolicy_push (λ srcHost srcThread, srcThread).
Definition _schedulerpolicythreadperthread_pop := mailpolicy_pop.
Definition _schedulerpolicythreadperthread_getNextTime := mailpolicy_getNextTime.

Definition threadperthread (keys : gmap Z PQ.PriorityQueue → list Z) : SchedulerPolicy MailPolicyData := {|
  new := mailpolicy_new;
  addHost := _schedulerpolicythreadperthread_addHost;
  getAssignedHosts := _schedulerpolicythreadperthread_getHosts;
  push := _schedulerpolicythreadperthread_push;
  pop := _schedulerpolicythreadperthread_pop;
  getNextTime := _schedulerpolicythreadperthread_getNextTime keys;
|}.

End Operations.

(** ** The scheduler's calls

    What worker threads do between them, in the order in which it happens. *)
Inductive call :=
  | AddHost (block host randomThread self : Z)
  | Create (event : Z) (e : Event)
  | Push (block event srcHost dstHost self : Z)
  | Pop (self : Z)
  | GetNextTime (self : Z)
  | Round (barrier : Z).

(** What a call returns: an event or [NULL], a time, or nothing. *)
Inductive answer := AEvent (e : option Z) | ATime (t : Z) | ANone.

Record Machine (D : Type) := mkMachine { m_barrier : Z; m_events : events; m_data : D }.
Arguments mkMachine {D}. Arguments m_barrier {D}. Arguments m_events {D}. Arguments m_data {D}.

Definition do_call {D} (P : SchedulerPolicy D) (hs : hosts) (m : Machine D) (c : call)
    : option (Machine D * answer) :=
  let '(mkMachine B es d) := m in
  match c with
  | AddHost block host randomThread self =>
      Some (mkMachine B es (addHost P d block host randomThread self), ANone)
  | Create event e => Some (mkMachine B (<[event := e]> es) d, ANone)
  | Push block event src dst self =>
      '(es, d) ← push P hs es d block event src dst B self; Some (mkMachine B es d, ANone)
  | Pop self => '(d, r) ← pop P hs es d self B; Some (mkMachine B es d, AEvent r)
  | GetNextTime self => '(d, t) ← getNextTime P hs es d self; Some (mkMachine B es d, ATime t)
  | Round barrier => Some (mkMachine barrier es d, ANone)
  end.

Fixpoint run_with {S : Type} (f : S → call → option (S * answer)) (s : S) (cs : list call)
    : option (S * list answer) :=
  match cs with
  | [] => Some (s, [])
  | c :: cs => '(s, a) ← f s c; '(s, answers) ← run_with f s cs; Some (s, a :: answers)
  end.

Definition run {D} (P : SchedulerPolicy D) (hs : hosts) : list call → option (Machine D * list answer) :=
  run_with (do_call P hs) (mkMachine 0 ∅ (new P)).

(** ** Specification

    Each thread has a set of waiting events, wherever they are stored, and the
    time of its last event. *)
Record SpecThread := mkSpecThread {
  s_hosts : list Z;
  s_waiting : list Z;
  s_last : Z;
  (** whether events may wait in a mailbox *)
  s_mail : bool;
}.

#[export] Instance spec_thread_eta : Eta SpecThread := fun t =>
  mkSpecThread (s_hosts t) (s_waiting t) (s_last t) (s_mail t).

Record Spec := mkSpec {
  s_barrier : Z;
  s_events : events;
  s_threads : gmap Z SpecThread;
  s_thread_of : gmap Z Z;
}.

#[export] Instance spec_eta : Eta Spec := fun s =>
  mkSpec (s_barrier s) (s_events s) (s_threads s) (s_thread_of s).

#[export] Instance key_le_dec a b : Decision (key_le a b).
Proof. destruct a as [[[? ?] ?] ?], b as [[[? ?] ?] ?]. unfold key_le. apply _. Defined.

#[export] Instance event_le_dec hs es a b : Decision (event_le hs es a b).
Proof. unfold event_le. apply _. Defined.

(** The least of a list of events. *)
Fixpoint least (hs : hosts) (es : events) (l : list Z) : option Z :=
  match l with
  | [] => None
  | p :: l => match least hs es l with
              | None => Some p
              | Some q => if decide (event_le hs es p q) then Some p else Some q
              end
  end.

Definition earliest (es : events) (l : list Z) : Z :=
  foldr (λ p t, Z.min (time (es !!! p)) t) SIMTIME_MAX l.

(** Events are told apart by their source and creation number. *)
Definition same_id (hs : hosts) (a b : Event) : Prop :=
  params_id (hs !!! srcHost a) = params_id (hs !!! srcHost b) ∧ srcHostEventID a = srcHostEventID b.

#[export] Instance same_id_dec hs a b : Decision (same_id hs a b).
Proof. unfold same_id. apply _. Defined.

Definition waits (event : Z) (s : Spec) : Prop :=
  map_Exists (λ _ st, event ∈ s_waiting st) (s_threads s).

#[export] Instance waits_dec event s : Decision (waits event s).
Proof. unfold waits. apply _. Defined.

(** What a worker may push: it runs the source host, the event is new, no
    event that waits has its id, and it is not in the worker's past. *)
Definition may_push (hs : hosts) (s : Spec) (event src self : Z) (st : SpecThread) : Prop :=
  event ≠ 0 ∧ is_Some (s_events s !! event) ∧ ¬ waits event s ∧ s_thread_of s !! src = Some self ∧
  s_last st ≤ time (s_events s !!! event).

#[export] Instance may_push_dec hs s event src self st : Decision (may_push hs s event src self st).
Proof. unfold may_push. apply _. Defined.

(** [None]: a call outside of the protocol - a thread id of [2 ^ 32] or more, an
    event that is known or in the thread's past, a host of another thread, a round
    with an earlier barrier, or one that begins while a mailbox holds events. *)
Definition spec_call (hs : hosts) (s : Spec) (c : call) : option (Spec * answer) :=
  match c with
  | AddHost block host randomThread self =>
      let t := if decide (randomThread = 0) then self else randomThread in
      if decide (0 < t < 2 ^ 32) then
        let st := default (mkSpecThread [] [] 0 false) (s_threads s !! t) in
        Some (s <| s_threads := <[t := st <| s_hosts := s_hosts st ++ [host] |>]> (s_threads s) |>
                <| s_thread_of := <[host := t]> (s_thread_of s) |>, ANone)
      else None
  | Create event e =>
      if decide (waits event s) then None
      else Some (s <| s_events := <[event := e]> (s_events s) |>, ANone)
  | Push block event src dst self =>
      me ← s_threads s !! self;
      t ← s_thread_of s !! dst;
      st ← s_threads s !! t;
      if decide (may_push hs s event src self me ∧
                 Forall (λ p, ¬ same_id hs (s_events s !!! event) (s_events s !!! p)) (s_waiting st)) then
        let e := s_events s !!! event in
        let e' := if decide (t = self) then e else e <| time := Z.max (s_barrier s) (time e) |> in
        Some (s <| s_events := <[event := e']> (s_events s) |>
                <| s_threads := <[t := st <| s_waiting := event :: s_waiting st |>
                                          <| s_mail := s_mail st || bool_decide (t ≠ self) |>]>
                                  (s_threads s) |>, ANone)
      else None
  | Pop self =>
      match s_threads s !! self with
      | None => Some (s, AEvent None)
      | Some st =>
          match least hs (s_events s) (s_waiting st) with
          | Some p =>
              if decide (time (s_events s !!! p) < s_barrier s) then
                Some (s <| s_threads := <[self := st <| s_waiting := filter (λ q, q ≠ p) (s_waiting st) |>
                                                     <| s_last := time (s_events s !!! p) |>]>
                                          (s_threads s) |>, AEvent (Some p))
              else Some (s, AEvent None)
          | None => Some (s, AEvent None)
          end
      end
  | GetNextTime self =>
      match s_threads s !! self with
      | None => Some (s, ATime SIMTIME_MAX)
      | Some st => Some (s <| s_threads := <[self := st <| s_mail := false |>]> (s_threads s) |>,
                         ATime (earliest (s_events s) (s_waiting st)))
      end
  | Round barrier =>
      if decide (s_barrier s ≤ barrier ≤ SIMTIME_MAX ∧ map_Forall (λ _ st, s_mail st = false) (s_threads s))
      then Some (s <| s_barrier := barrier |>, ANone) else None
  end.

Definition spec_init : Spec := mkSpec 0 ∅ ∅ ∅.

Definition run_spec (hs : hosts) : list call → option (Spec * list answer) :=
  run_with (spec_call hs) spec_init.

(** ** A thread and its specification *)

(** [hosts], the queue [q] and the events [mail] of the mailboxes hold the
    state [st]. *)
Record thread_rel (B : Z) (hs : hosts) (es : events) (st : SpecThread)
    (ahosts : list Z) (q : QueueData) (mail : list Z) : Prop := mkRel {
  tr_hosts : s_hosts st = ahosts;
  tr_queue : Sched.queue_ok B hs es q;
  tr_waiting : s_waiting st ≡ₚ PQ.elements (Sched.pq q) ++ mail;
  tr_last : s_last st = Sched.lastEventTime q;
  tr_mail : ∀ p, p ∈ mail → p ≠ 0 ∧ B ≤ time (es !!! p);
  tr_nomail : s_mail st = false → mail = [];
  tr_nodup : NoDup (s_waiting st);
  tr_ids : ∀ p p', p ∈ s_waiting st → p' ∈ s_waiting st → same_id hs (es !!! p) (es !!! p') → p = p';
}.

Lemma thread_rel_mem B hs es st ah q mail event e :
  event ∉ s_waiting st → thread_rel B hs es st ah q mail → thread_rel B hs (<[event := e]> es) st ah q mail.
Proof.
  intros Hn [Hh Hq Hw Hl Hm Hnm Hnd Hid].
  assert (Hsame : ∀ p, p ∈ s_waiting st → <[event := e]> es !!! p = es !!! p).
  { intros p Hp. rewrite lookup_total_insert_ne; [done|]. by intros ->. }
  constructor; try done.
  - apply Sched.queue_ok_mem; [|done]. intros Hin. apply Hn. rewrite Hw. apply elem_of_app. by left.
  - intros p Hp. rewrite Hsame; [by apply Hm|]. rewrite Hw. apply elem_of_app. by right.
  - intros p p' Hp Hp'. rewrite !Hsame by done. by apply Hid.
Qed.

Lemma thread_rel_perm B hs es st ah q mail mail' :
  mail ≡ₚ mail' → thread_rel B hs es st ah q mail → thread_rel B hs es st ah q mail'.
Proof.
  intros Hp [Hh Hq Hw Hl Hm Hnm Hnd Hid]. constructor; try done.
  - by rewrite Hw, Hp.
  - intros p Hin. apply Hm. by rewrite Hp.
  - intros E. rewrite (Hnm E) in Hp. symmetry. by apply Permutation_nil_l.
Qed.

(** Adding an event whose id is new keeps the ids apart. *)
Lemma waiting_cons (hs : hosts) (es : events) event l :
  event ∉ l → NoDup l → (∀ p p', p ∈ l → p' ∈ l → same_id hs (es !!! p) (es !!! p') → p = p') →
  Forall (λ p, ¬ same_id hs (es !!! event) (es !!! p)) l →
  NoDup (event :: l) ∧
  (∀ p p', p ∈ event :: l → p' ∈ event :: l → same_id hs (es !!! p) (es !!! p') → p = p').
Proof.
  intros Hn Hnd Hid Hf. rewrite Forall_forall in Hf. split; [by constructor|].
  intros p p' [->|Hp]%elem_of_cons [->|Hp']%elem_of_cons Hs; try done; auto.
  - by destruct (Hf p' Hp').
  - destruct (Hf p Hp). destruct Hs as [H1 H2]. by split.
Qed.

Section Proofs.
Context (g_renew : Z → nat → Z).

Lemma push_queue_ok B hs es q event :
  Sched.queue_ok B hs es q → event ≠ 0 → event ∉ PQ.elements (Sched.pq q) →
  Sched.lastEventTime q ≤ time (es !!! event) →
  ∃ q', push_queue g_renew hs es q event = Some q' ∧ Sched.queue_ok B hs es q' ∧
    Sched.lastEventTime q' = Sched.lastEventTime q ∧
    PQ.elements (Sched.pq q') ≡ₚ event :: PQ.elements (Sched.pq q).
Proof.
  intros Hq H0 Hn Ht. destruct (Sched.queue_push_ok g_renew B hs es q event Hq H0 Ht) as (pq' & b & E & He & Hok).
  unfold push_queue. rewrite E. cbn. eexists. split; [done|]. split; [apply Hok|]. split; [done|].
  cbn. by rewrite He, decide_False.
Qed.

Lemma push_main_rel B hs es st ah q mail event b :
  thread_rel B hs es st ah q mail → event ≠ 0 → event ∉ s_waiting st →
  s_last st ≤ time (es !!! event) →
  Forall (λ p, ¬ same_id hs (es !!! event) (es !!! p)) (s_waiting st) →
  (b = false → mail = []) →
  ∃ q', push_queue g_renew hs es q event = Some q' ∧
    thread_rel B hs es (st <| s_waiting := event :: s_waiting st |> <| s_mail := b |>) ah q' mail.
Proof.
  intros [Hh Hq Hw Hl Hm Hnm Hnd Hid] H0 Hn Ht Hf Hb.
  destruct (push_queue_ok B hs es q event Hq H0) as (q' & -> & Hq' & Hl' & He).
  { intros Hin. apply Hn. rewrite Hw. apply elem_of_app. by left. }
  { lia. }
  destruct (waiting_cons hs es event _ Hn Hnd Hid Hf) as [Hnd' Hid'].
  exists q'. split; [done|]. constructor; cbn; try done.
  - by rewrite He, Hw.
  - congruence.
Qed.

Lemma push_mail_rel B hs es st ah q mail event :
  thread_rel B hs es st ah q mail → event ≠ 0 → event ∉ s_waiting st →
  B ≤ time (es !!! event) →
  Forall (λ p, ¬ same_id hs (es !!! event) (es !!! p)) (s_waiting st) →
  thread_rel B hs es (st <| s_waiting := event :: s_waiting st |> <| s_mail := true |>) ah q (event :: mail).
Proof.
  intros [Hh Hq Hw Hl Hm Hnm Hnd Hid] H0 Hn Ht Hf.
  destruct (waiting_cons hs es event _ Hn Hnd Hid Hf) as [Hnd' Hid'].
  constructor; cbn; try done.
  - by rewrite Hw, Permutation_middle.
  - intros p [->|Hp]%elem_of_cons; [done|by apply Hm].
Qed.

Lemma deliver_one_rel B hs es st ah q mail event :
  thread_rel B hs es st ah q (event :: mail) →
  ∃ q', push_queue g_renew hs es q event = Some q' ∧ thread_rel B hs es st ah q' mail.
Proof.
  intros [Hh Hq Hw Hl Hm Hnm Hnd Hid]. destruct (Hm event ltac:(left)) as [H0 Ht].
  pose proof (Sched.qo_last _ _ _ _ Hq).
  assert (Hnd' : NoDup (event :: PQ.elements (Sched.pq q) ++ mail)) by (by rewrite Permutation_middle, <-Hw).
  apply NoDup_cons in Hnd' as [Hn _].
  destruct (push_queue_ok B hs es q event Hq H0) as (q' & -> & Hq' & Hl' & He).
  { intros Hin. apply Hn, elem_of_app. by left. }
  { lia. }
  exists q'. split; [done|]. constructor; try done.
  - by rewrite He, Hw, <-Permutation_middle.
  - congruence.
  - intros p Hp. apply Hm. by right.
  - intros E. by specialize (Hnm E).
Qed.

(** *** The least waiting event *)

Lemma event_le_total hs es a b : event_le hs es a b ∨ event_le hs es b a.
Proof. unfold event_le, event_key, key_le. lia. Qed.

Lemma least_spec hs es l :
  match least hs es l with
  | None => l = []
  | Some p => p ∈ l ∧ ∀ q, q ∈ l → event_le hs es p q
  end.
Proof.
  induction l as [|p l IH]; cbn [least]; [done|].
  assert (Hr : event_le hs es p p) by (destruct (event_le_total hs es p p); done).
  destruct (least hs es l) as [q|]; [|subst; split; [left|by intros q ->%list_elem_of_singleton]].
  destruct IH as [Hq Hmin]. case_decide as Hle.
  - split; [left|]. intros r [->|Hr']%elem_of_cons; [done|]. unfold event_le in *. etransitivity; eauto.
  - split; [by right|]. intros r [->|Hr']%elem_of_cons; [by destruct (event_le_total hs es p q)|auto].
Qed.

Lemma same_key_same_id hs es a b :
  event_le hs es a b → event_le hs es b a → same_id hs (es !!! a) (es !!! b).
Proof.
  intros H1 H2. pose proof (key_le_antisymm _ _ H1 H2) as E. unfold event_key in E.
  injection E as _ _ E1 E2. by split.
Qed.

Lemma filter_absent (p : Z) (l : list Z) : p ∉ l → filter (λ q, q ≠ p) l = l.
Proof.
  induction l as [|q l IH]; intros Hn; [done|]. apply not_elem_of_cons in Hn as [Hne Hn].
  rewrite filter_cons_True by congruence. by rewrite IH.
Qed.

Lemma filter_out (p : Z) (l r : list Z) : l ≡ₚ p :: r → NoDup l → filter (λ q, q ≠ p) l ≡ₚ r.
Proof.
  intros Hp Hnd. rewrite Hp. rewrite Hp in Hnd. apply NoDup_cons in Hnd as [Hn _].
  rewrite filter_cons_False by (intros H; by apply H). by rewrite filter_absent.
Qed.

Lemma pop_rel B hs es st ah q mail :
  B ≤ SIMTIME_MAX → thread_rel B hs es st ah q mail →
  ∃ q' r, Sched.pop_queue g_renew hs es q B = Some (q', r) ∧
    match least hs es (s_waiting st) with
    | Some p => if decide (time (es !!! p) < B)
                then r = Some p ∧
                  thread_rel B hs es (st <| s_waiting := filter (λ q, q ≠ p) (s_waiting st) |>
                                         <| s_last := time (es !!! p) |>) ah q' mail
                else r = None ∧ q' = q
    | None => r = None ∧ q' = q
    end.
Proof.
  intros HB [Hh Hq Hw Hl Hm Hnm Hnd Hid].
  destruct (Sched.pop_queue_ok g_renew B hs es q) as (q' & r & E & Hq' & Hr).
  { unfold SIMTIME_MAX, SIMTIME_INVALID in *. lia. }
  { done. }
  exists q', r. split; [done|]. pose proof (least_spec hs es (s_waiting st)) as Hmin.
  destruct r as [p|].
  - destruct Hr as (He & Hle & [Hlast HltB] & Hl').
    assert (Hwp : s_waiting st ≡ₚ p :: PQ.elements (Sched.pq q') ++ mail) by (by rewrite Hw, He).
    assert (Hin : p ∈ s_waiting st) by (rewrite Hwp; left).
    destruct (least hs es (s_waiting st)) as [p'|]; [|by rewrite Hmin in Hin; apply elem_of_nil in Hin].
    destruct Hmin as [Hin' Hmin].
    assert (p' = p) as ->.
    { pose proof (Sched.event_le_time _ _ _ _ (Hmin p Hin)) as Ht.
      pose proof Hin' as Hin2. rewrite Hw in Hin2. apply elem_of_app in Hin2 as [Hq2|Hm2].
      - apply Hid; [done..|]. apply same_key_same_id; auto.
      - apply Hm in Hm2. lia. }
    rewrite decide_True by done. split; [done|].
    pose proof (filter_out p _ _ Hwp Hnd) as Hf.
    constructor; cbn; try done.
    + apply NoDup_filter, Hnd.
    + intros a b [_ Ha]%list_elem_of_filter [_ Hb]%list_elem_of_filter. by apply Hid.
  - destruct Hr as [-> Hge]. destruct (least hs es (s_waiting st)) as [p|]; [|done].
    destruct Hmin as [Hin _]. rewrite decide_False; [done|].
    rewrite Hw in Hin. apply elem_of_app in Hin as [Hin|Hin]; [apply Hge in Hin|apply Hm in Hin]; lia.
Qed.

Lemma thread_rel_round B B' hs es st ah q mail :
  B ≤ B' → s_mail st = false → thread_rel B hs es st ah q mail → thread_rel B' hs es st ah q mail.
Proof.
  intros HB Hf [Hh Hq Hw Hl Hm Hnm Hnd Hid]. constructor; try done.
  - by eapply Sched.queue_ok_later.
  - rewrite (Hnm Hf). by intros p ?%elem_of_nil.
Qed.

Lemma drained_rel B hs es st ah q :
  thread_rel B hs es st ah q [] → thread_rel B hs es (st <| s_mail := false |>) ah q [].
Proof. intros [Hh Hq Hw Hl Hm Hnm Hnd Hid]. by constructor. Qed.

Lemma new_thread_rel B hs es block :
  0 ≤ B → thread_rel B hs es (mkSpecThread [] [] 0 false) [] (Sched._hostsinglequeuedata_new block) [].
Proof.
  intros HB. constructor; cbn; try done.
  - by apply Sched.new_queue_ok.
  - by intros p ?%elem_of_nil.
  - constructor.
  - by intros p p' ?%elem_of_nil.
Qed.

Lemma add_host_rel B hs es st ah q mail host :
  thread_rel B hs es st ah q mail →
  thread_rel B hs es (st <| s_hosts := s_hosts st ++ [host] |>) (ah ++ [host]) q mail.
Proof. intros [Hh Hq Hw Hl Hm Hnm Hnd Hid]. constructor; cbn; try done. by rewrite Hh. Qed.

Lemma earliest_spec (es : events) (l : list Z) :
  (∀ p, p ∈ l → earliest es l ≤ time (es !!! p)) ∧ earliest es l ≤ SIMTIME_MAX ∧
  (earliest es l = SIMTIME_MAX ∨ ∃ p, p ∈ l ∧ earliest es l = time (es !!! p)).
Proof.
  induction l as [|p l (IH1 & IH2 & IH3)].
  { cbn. split_and!; [by intros p ?%elem_of_nil|lia|by left]. }
  change (earliest es (p :: l)) with (Z.min (time (es !!! p)) (earliest es l)).
  split_and!; [|lia|].
  - intros r [->|Hr]%elem_of_cons; [lia|]. specialize (IH1 r Hr). lia.
  - destruct (Z.min_spec (time (es !!! p)) (earliest es l)) as [[_ ->]|[_ ->]].
    + right. exists p. split; [left|done].
    + destruct IH3 as [->|(r & Hr & ->)]; [by left|right; exists r; split; [by right|done]].
Qed.

Lemma peek_time_ok B hs es q l :
  Sched.queue_ok B hs es q → l ≡ₚ PQ.elements (Sched.pq q) → peek_time es q = earliest es l.
Proof.
  intros [Hwf Ho Hnull _ _] Hw. unfold peek_time, event_getTime.
  destruct (earliest_spec es l) as (H1 & H2 & H3).
  destruct (PQ.peek_cases (Sched.pq q) Hwf Hnull) as [[-> Hemp]|(Hne & Hs & Hin & Hroot)]; cbn.
  { rewrite Hemp in Hw. symmetry in Hw. apply Permutation_nil_l in Hw. by rewrite <-Hw. }
  apply Z.eqb_neq in Hne. rewrite Hne. cbn.
  pose proof (H1 (PQ.priorityqueue_peek (Sched.pq q)) ltac:(by rewrite Hw)).
  destruct H3 as [E|(p & Hp & E)]; [lia|].
  enough (time (es !!! PQ.priorityqueue_peek (Sched.pq q)) ≤ time (es !!! p)) by lia.
  apply (Sched.event_le_time hs). rewrite Hroot. rewrite Hw in Hp.
  apply list_elem_of_lookup in Hp as [i [Hl1 Hi]%lookup_take_Some].
  rewrite <-(list_lookup_total_correct _ _ _ Hl1).
  by apply (PQ.root_least (event_compare_at hs es) _ (Sched.pq q)).
Qed.

Lemma peek_time_rel B hs es st ah q :
  thread_rel B hs es st ah q [] → peek_time es q = earliest es (s_waiting st).
Proof.
  intros [_ Hq Hw _ _ _ _ _]. rewrite app_nil_r in Hw. by apply (peek_time_ok B hs).
Qed.

(** ** A policy and its specification *)

(** A policy is related to the specification thread by thread; [R] is the
    relation of one thread's data. *)
Section Tables.
Context (hs : hosts) {T : Type} (R : Z → events → SpecThread → T → Prop).

Record tables_rel (s : Spec) (threads : gmap Z T) (hostmap : gmap Z Z) : Prop := mkTables {
  tb_threads : map_Forall2 (λ _, R (s_barrier s) (s_events s)) (s_threads s) threads;
  tb_hosts : s_thread_of s = hostmap;
  tb_ids : map_Forall (λ _ t, 0 < t < 2 ^ 32) hostmap;
  tb_barrier : 0 ≤ s_barrier s ≤ SIMTIME_MAX;
}.

Lemma tables_lookup s threads hm t st :
  tables_rel s threads hm → s_threads s !! t = Some st →
  ∃ td, threads !! t = Some td ∧ R (s_barrier s) (s_events s) st td.
Proof.
  intros [H _ _ _] E. specialize (H t). rewrite E in H. inversion H; subst. by eexists.
Qed.

Lemma tables_lookup_None s threads hm t :
  tables_rel s threads hm → s_threads s !! t = None → threads !! t = None.
Proof. intros [H _ _ _] E. specialize (H t). rewrite E in H. by inversion H. Qed.

Lemma tables_id s threads hm host t :
  tables_rel s threads hm → s_thread_of s !! host = Some t → thread_id hm host = t.
Proof.
  intros [_ <- Hid _] E. unfold thread_id. rewrite E. cbn. apply u32_small.
  specialize (Hid host t E). cbn in Hid. lia.
Qed.

Lemma tables_insert s threads hm t st td :
  tables_rel s threads hm → R (s_barrier s) (s_events s) st td →
  tables_rel (s <| s_threads := <[t := st]> (s_threads s) |>) (<[t := td]> threads) hm.
Proof.
  intros [H Hh Hid HB] Hr. split; try done. cbn. by apply map_Forall2_insert_2.
Qed.

(** Memory that no thread looks at may change. *)
Class Frames : Prop := frames B es st td event e :
  event ∉ s_waiting st → R B es st td → R B (<[event := e]> es) st td.

Lemma tables_mem `{!Frames} s threads hm event e :
  tables_rel s threads hm → ¬ waits event s →
  tables_rel (s <| s_events := <[event := e]> (s_events s) |>) threads hm.
Proof.
  intros [Hth Hh Hid HB] Hn. split; try done. cbn. intros t.
  specialize (Hth t). inversion Hth as [st td Hr E1 E2|E1 E2]; constructor.
  apply frames; [|done]. intros Hin. apply Hn. exists t, st. by split.
Qed.

Lemma tables_round s threads hm B' :
  (∀ es st td, s_mail st = false → R (s_barrier s) es st td → R B' es st td) →
  tables_rel s threads hm → s_barrier s ≤ B' ≤ SIMTIME_MAX →
  map_Forall (λ _ st, s_mail st = false) (s_threads s) →
  tables_rel (s <| s_barrier := B' |>) threads hm.
Proof.
  intros Hround [H Hh Hid HB] HB' Hall. split; cbn; try done; [|lia]. intros t. specialize (H t).
  inversion H as [st td Hr E1 E2|E1 E2]; constructor. apply Hround; [|done]. by eapply Hall.
Qed.

Lemma tables_addHost s threads hm t host st td :
  tables_rel s threads hm → 0 < t < 2 ^ 32 → R (s_barrier s) (s_events s) st td →
  tables_rel (s <| s_threads := <[t := st]> (s_threads s) |> <| s_thread_of := <[host := t]> (s_thread_of s) |>)
    (<[t := td]> threads) (<[host := t]> hm).
Proof.
  intros [H Hh Hid HB] Ht Hr. split; try done; cbn.
  - by apply map_Forall2_insert_2.
  - by rewrite Hh.
  - by apply map_Forall_insert_2.
Qed.

Lemma tables_init : tables_rel spec_init ∅ ∅.
Proof.
  split; cbn; try done. apply map_Forall2_empty.
Qed.

End Tables.

(** ** The interface *)

(** What a thread policy promises the scheduler: a relation to the
    specification that holds at the start and is kept by every call the
    specification allows, with the same answer. *)
Class Implements {D} (P : SchedulerPolicy D) (hs : hosts) (rel : Spec → D → Prop) : Prop := {
  impl_new : rel spec_init (new P);
  impl_call s d c s' a : rel s d → spec_call hs s c = Some (s', a) →
    ∃ d', do_call P hs (mkMachine (s_barrier s) (s_events s) d) c =
            Some (mkMachine (s_barrier s') (s_events s') d', a) ∧ rel s' d';
}.

(** A push the specification allows, seen from the memory. *)
Lemma delay_event_spec es event t self B :
  is_Some (es !! event) →
  delay_event es event self t B =
    <[event := if decide (t = self) then es !!! event
               else (es !!! event) <| time := Z.max B (time (es !!! event)) |>]> es.
Proof.
  intros [e E]. unfold delay_event, event_getTime, event_setTime.
  rewrite (lookup_total_correct _ _ _ E). case_decide as Ht.
  - subst. rewrite Z.eqb_refl. cbn. by rewrite insert_id.
  - destruct (Z.eqb_spec self t); [congruence|]. cbn.
    destruct (Z.ltb_spec (time e) B); [by rewrite Z.max_l by lia|].
    rewrite Z.max_r by lia. rewrite insert_id; [done|]. rewrite E. by destruct e.
Qed.

Record push_allowed (hs : hosts) (s : Spec) (event src dst self t : Z) (me st : SpecThread) : Prop := {
  pa_me : s_threads s !! self = Some me;
  pa_t : s_thread_of s !! dst = Some t;
  pa_src : s_thread_of s !! src = Some self;
  pa_st : s_threads s !! t = Some st;
  pa_null : event ≠ 0;
  pa_mem : is_Some (s_events s !! event);
  pa_new : ¬ waits event s;
  pa_past : s_last me ≤ time (s_events s !!! event);
  pa_ids : Forall (λ p, ¬ same_id hs (s_events s !!! event) (s_events s !!! p)) (s_waiting st);
}.

(** The memory after the push, and the event in it. *)
Definition pushed_events (s : Spec) (event t self : Z) : events :=
  delay_event (s_events s) event self t (s_barrier s).

Lemma spec_push_inv hs s block event src dst self s' a :
  spec_call hs s (Push block event src dst self) = Some (s', a) →
  ∃ t me st, push_allowed hs s event src dst self t me st ∧ a = ANone ∧
    s' = s <| s_events := pushed_events s event t self |>
           <| s_threads := <[t := st <| s_waiting := event :: s_waiting st |>
                                     <| s_mail := s_mail st || bool_decide (t ≠ self) |>]> (s_threads s) |>.
Proof.
  cbn [spec_call].
  destruct (s_threads s !! self) as [me|] eqn:E1; [|done]. cbn [mbind option_bind].
  destruct (s_thread_of s !! dst) as [t|] eqn:E2; [|done]. cbn [mbind option_bind].
  destruct (s_threads s !! t) as [st|] eqn:E3; [|done]. cbn [mbind option_bind].
  case_decide as Hd; [|done]. destruct Hd as [(H0 & Hm & Hw & Hsrc & Hp) Hids].
  intros [= <- <-]. exists t, me, st. split; [by split|]. split; [done|].
  unfold pushed_events. by rewrite delay_event_spec.
Qed.

Lemma waits_not event s t st : ¬ waits event s → s_threads s !! t = Some st → event ∉ s_waiting st.
Proof. intros Hn E Hin. apply Hn. by exists t, st. Qed.

Lemma pushed_facts hs s event src dst self t me st :
  push_allowed hs s event src dst self t me st →
  let es := pushed_events s event t self in
  (∃ e, es = <[event := e]> (s_events s)) ∧
  (t = self → st = me ∧ s_last st ≤ time (es !!! event)) ∧
  (t ≠ self → s_barrier s ≤ time (es !!! event)) ∧
  Forall (λ p, ¬ same_id hs (es !!! event) (es !!! p)) (s_waiting st).
Proof.
  intros [E1 E2 E3 E4 H0 Hm Hn Hp Hids]. cbn zeta. unfold pushed_events.
  rewrite delay_event_spec by done. rewrite lookup_total_insert_eq. split_and!.
  - by eexists.
  - intros ->. rewrite decide_True by done. split; [congruence|]. assert (st = me) as -> by congruence. done.
  - intros Hne. rewrite decide_False by done. cbn. lia.
  - rewrite Forall_forall in *. intros p Hin. specialize (Hids p Hin).
    rewrite lookup_total_insert_ne by (intros <-; by apply (waits_not _ _ _ _ Hn E4)).
    by destruct (decide (t = self)).
Qed.

(** ** The policy with one queue per thread *)

Definition single_thread_rel (hs : hosts) (B : Z) (es : events) (st : SpecThread)
    (td : ThreadSingleThreadData) : Prop :=
  thread_rel B hs es st (assignedHosts2 td) (single_queue td) [].

Definition single_rel (hs : hosts) (s : Spec) (d : ThreadSinglePolicyData) : Prop :=
  tables_rel (single_thread_rel hs) s (single_threads d) (single_hosts d).

#[local] Instance single_frames hs : Frames (single_thread_rel hs).
Proof. intros B es st td event e Hn H. by apply thread_rel_mem. Qed.

Lemma single_push hs s d event src dst self t me st :
  push_allowed hs s event src dst self t me st → single_rel hs s d →
  ∃ d', _schedulerpolicythreadsingle_push g_renew hs (s_events s) d event src dst (s_barrier s) =
          Some (pushed_events s event t self, d') ∧
    single_rel hs (s <| s_events := pushed_events s event t self |>
                     <| s_threads := <[t := st <| s_waiting := event :: s_waiting st |>
                                       <| s_mail := s_mail st || bool_decide (t ≠ self) |>]> (s_threads s) |>) d'.
Proof.
  intros Ha Hr. destruct (pushed_facts _ _ _ _ _ _ _ _ _ Ha) as ((e & Ee) & Hown & Hother & Hids).
  destruct Ha as [E1 E2 E3 E4 H0 Hm Hn Hp _].
  unfold _schedulerpolicythreadsingle_push.
  rewrite (tables_id _ _ _ _ _ _ Hr E3), (tables_id _ _ _ _ _ _ Hr E2).
  fold (pushed_events s event t self). set (es := pushed_events s event t self) in *.
  destruct (tables_lookup _ _ _ _ t st Hr E4) as (td & -> & Htd). cbn [mbind option_bind].
  pose proof (waits_not _ _ _ _ Hn E4) as Hnw.
  apply (thread_rel_mem _ _ _ _ _ _ _ event e) in Htd; [|done]. rewrite <-Ee in Htd.
  destruct (push_main_rel _ _ es st _ _ [] event (s_mail st || bool_decide (t ≠ self)) Htd H0 Hnw)
    as (q' & -> & Hrel); [|done|done|].
  { destruct (decide (t = self)) as [->|Hne]; [by apply Hown|].
    pose proof (Hother Hne). pose proof (Sched.qo_last _ _ _ _ (tr_queue _ _ _ _ _ _ _ Htd)).
    rewrite (tr_last _ _ _ _ _ _ _ Htd). lia. }
  cbn [mbind option_bind]. eexists. split; [done|].
  refine (tables_insert (single_thread_rel hs) (s <| s_events := es |>) (single_threads d) (single_hosts d) t
           _ (td <| single_queue := q' |>) _ Hrel).
  rewrite Ee. by apply (tables_mem (single_thread_rel hs)).
Qed.

Lemma single_reinsert (d : ThreadSinglePolicyData) t td :
  single_threads d !! t = Some td →
  d <| single_threads := <[t := td <| single_queue := single_queue td |>]> (single_threads d) |> = d.
Proof. intros. destruct d, td. cbn in *. by rewrite insert_id. Qed.

Lemma single_pop hs s d self s' a :
  single_rel hs s d → spec_call hs s (Pop self) = Some (s', a) →
  ∃ d', do_call (threadsingle g_renew) hs (mkMachine (s_barrier s) (s_events s) d) (Pop self) =
        Some (mkMachine (s_barrier s') (s_events s') d', a) ∧ single_rel hs s' d'.
Proof.
  intros Hr Hc. cbn in Hc |- *. unfold _schedulerpolicythreadsingle_pop.
  destruct (s_threads s !! self) as [st|] eqn:E.
  2:{ injection Hc as <- <-. rewrite (tables_lookup_None _ _ _ _ self Hr E). cbn. by eexists. }
  destruct (tables_lookup _ _ _ _ self st Hr E) as (td & Etd & Htd). rewrite Etd.
  destruct (pop_rel _ _ _ _ _ _ _ (proj2 (tb_barrier _ _ _ _ Hr)) Htd) as (q' & r & -> & Hpop). cbn.
  destruct (least hs (s_events s) (s_waiting st)) as [p|]; [case_decide|].
  + destruct Hpop as [-> Hrel]. injection Hc as <- <-. eexists. split; [done|].
    exact (tables_insert (single_thread_rel hs) s (single_threads d) (single_hosts d) self
              _ (td <| single_queue := q' |>) Hr Hrel).
  + destruct Hpop as [-> ->]. injection Hc as <- <-. eexists. split; [done|].
    by rewrite (single_reinsert _ _ _ Etd).
  + destruct Hpop as [-> ->]. injection Hc as <- <-. eexists. split; [done|].
    by rewrite (single_reinsert _ _ _ Etd).
Qed.

Lemma single_next hs s d self s' a :
  single_rel hs s d → spec_call hs s (GetNextTime self) = Some (s', a) →
  ∃ d', do_call (threadsingle g_renew) hs (mkMachine (s_barrier s) (s_events s) d) (GetNextTime self) =
          Some (mkMachine (s_barrier s') (s_events s') d', a) ∧ single_rel hs s' d'.
Proof.
  intros Hr Hc. cbn in Hc |- *. unfold _schedulerpolicythreadsingle_getNextTime.
  destruct (s_threads s !! self) as [st|] eqn:E.
  2:{ injection Hc as <- <-. rewrite (tables_lookup_None _ _ _ _ self Hr E). by eexists. }
  destruct (tables_lookup _ _ _ _ self st Hr E) as (td & Etd & Htd). rewrite Etd.
  injection Hc as <- <-. exists d. rewrite (peek_time_rel _ _ _ _ _ _ Htd). split; [done|].
  pose proof (tables_insert (single_thread_rel hs) s (single_threads d) (single_hosts d) self
                _ td Hr (drained_rel _ _ _ _ _ _ Htd)) as Hi.
  by rewrite (insert_id _ _ _ Etd) in Hi.
Qed.

Lemma assigned_thread randomThread self :
  (if negb (randomThread =? 0) then randomThread else self) =
  (if decide (randomThread = 0) then self else randomThread).
Proof. destruct (Z.eqb_spec randomThread 0); by case_decide. Qed.

#[export] Instance threadsingle_implements hs : Implements (threadsingle g_renew) hs (single_rel hs).
Proof.
  constructor; [apply tables_init|]. intros s d c s' a Hr Hc. destruct c as [block host rt self|event e|block event src dst self|self|self|B'].
  - cbn in Hc. case_decide as Ht; [|done]. injection Hc as <- <-. cbn. eexists. split; [done|].
    unfold _schedulerpolicythreadsingle_addHost. rewrite assigned_thread.
    apply tables_addHost; [done..|]. unfold single_thread_rel. cbn. apply add_host_rel.
    set (t := if decide (rt = 0) then self else rt) in *.
    destruct (s_threads s !! t) as [st|] eqn:E.
    + destruct (tables_lookup _ _ _ _ t st Hr E) as (td & -> & Htd). done.
    + rewrite (tables_lookup_None _ _ _ _ t Hr E). cbn. apply new_thread_rel, (tb_barrier _ _ _ _ Hr).
  - cbn in Hc. case_decide as Hw; [done|]. injection Hc as <- <-. cbn. eexists. split; [done|].
    by apply (tables_mem (single_thread_rel hs)).
  - apply spec_push_inv in Hc as (t & me & st & Ha & -> & ->).
    destruct (single_push hs s d _ _ _ _ _ _ _ Ha Hr) as (d' & E & Hr'). cbn. rewrite E. cbn. by eexists.
  - by apply single_pop.
  - by apply single_next.
  - cbn in Hc. case_decide as Hd; [|done]. destruct Hd as [HB Hall]. injection Hc as <- <-.
    exists d. split; [done|]. apply tables_round; try done.
    intros es st td Hm Hrel. apply (thread_rel_round (s_barrier s)); [lia|done|done].
Qed.

(** ** The policies with mailboxes *)

Definition mail_events (m : gmap Z PQ.PriorityQueue) : list Z :=
  concat ((λ kb, PQ.elements kb.2) <$> map_to_list m).

Lemma mail_events_insert m k b : mail_events (<[k := b]> m) ≡ₚ PQ.elements b ++ mail_events (delete k m).
Proof.
  unfold mail_events. rewrite <-insert_delete_eq, map_to_list_insert by apply lookup_delete_eq. done.
Qed.

Lemma mail_events_lookup m k b :
  m !! k = Some b → mail_events m ≡ₚ PQ.elements b ++ mail_events (delete k m).
Proof. intros E. rewrite <-(insert_id m k b E) at 1. apply mail_events_insert. Qed.

Lemma mail_events_empty m : (∀ k b, m !! k = Some b → PQ.elements b = []) → mail_events m = [].
Proof.
  intros He. unfold mail_events. apply concat_nil_Forall, Forall_fmap, Forall_forall.
  intros [k b] Hin%elem_of_map_to_list. by apply (He k).
Qed.

Definition mail_thread_rel (hs : hosts) (B : Z) (es : events) (st : SpecThread)
    (td : MailThreadData) : Prop :=
  map_Forall (λ _, PQ.wf) (toPQueueMap td) ∧
  thread_rel B hs es st (assignedHosts td) (qdata td) (mail_events (toPQueueMap td)).

Definition mail_rel (hs : hosts) (s : Spec) (d : MailPolicyData) : Prop :=
  tables_rel (mail_thread_rel hs) s (threadToThreadDataMap d) (hostToThreadMap d).

#[local] Instance mail_frames hs : Frames (mail_thread_rel hs).
Proof. intros B es st td event e Hn [Hb H]. split; [done|]. by apply thread_rel_mem. Qed.

(** A mailbox is emptied into the queue. *)
Lemma drain_mailbox_rel B hs es st ah rest fuel : ∀ box q,
  PQ.wf box → (PQ.size box ≤ fuel)%nat → thread_rel B hs es st ah q (PQ.elements box ++ rest) →
  ∃ box' q', drain_mailbox g_renew fuel hs es box q = Some (box', q') ∧ PQ.wf box' ∧
    PQ.elements box' = [] ∧ thread_rel B hs es st ah q' rest.
Proof.
  assert (Hempty : ∀ box q, PQ.size box = 0%nat → PQ.wf box →
    thread_rel B hs es st ah q (PQ.elements box ++ rest) →
    PQ.elements box = [] ∧ thread_rel B hs es st ah q rest).
  { intros box q E Hw Hr. assert (PQ.elements box = []) as E' by (unfold PQ.elements; by rewrite E).
    by rewrite E' in Hr. }
  induction fuel as [|fuel IH]; intros box q Hw Hf Hr; cbn [drain_mailbox]; unfold PQ.priorityqueue_isEmpty.
  { destruct (Nat.eqb_spec (PQ.size box) 0); [|lia].
    destruct (Hempty box q) as [? ?]; [done..|]. by exists box, q. }
  destruct (Nat.eqb_spec (PQ.size box) 0).
  { destruct (Hempty box q) as [? ?]; [done..|]. by exists box, q. }
  pose proof (PQ.pop_spec (event_compare_at hs es) g_renew box Hw ltac:(lia)) as Hp.
  destruct (PQ.priorityqueue_pop _ _ box) as [box1 event]. destruct Hp as (Hw1 & Hs1 & He).
  apply (thread_rel_perm _ _ _ _ _ _ _ (event :: PQ.elements box1 ++ rest)) in Hr; [|by rewrite He].
  destruct (deliver_one_rel _ _ _ _ _ _ _ _ Hr) as (q1 & -> & Hr1). cbn [mbind option_bind].
  apply IH; [done|lia|done].
Qed.

Lemma drain_mailboxes_rel B hs es st ks : ∀ td,
  mail_thread_rel hs B es st td → (∀ k, k ∈ ks → is_Some (toPQueueMap td !! k)) →
  ∃ td', drain_mailboxes g_renew hs es ks td = Some td' ∧ mail_thread_rel hs B es st td' ∧
    ∀ k b, toPQueueMap td' !! k = Some b → PQ.elements b = [] ∨ ((k ∉ ks) ∧ toPQueueMap td !! k = Some b).
Proof.
  induction ks as [|k ks IH]; intros td [Hb Hr] Hk.
  { exists td. split; [done|]. split; [by split|]. intros k b E. right. split; [apply not_elem_of_nil|done]. }
  cbn [drain_mailboxes]. destruct (Hk k ltac:(left)) as [box Ebox]. rewrite Ebox. cbn [mbind option_bind].
  pose proof (Hb k box Ebox) as Hw. cbn in Hw.
  apply (thread_rel_perm _ _ _ _ _ _ _ _ (mail_events_lookup _ _ _ Ebox)) in Hr.
  destruct (drain_mailbox_rel _ _ _ _ _ _ (PQ.priorityqueue_getLength box) _ _ Hw ltac:(done) Hr)
    as (box' & q' & -> & Hw' & He' & Hr'). cbn [mbind option_bind].
  destruct (IH (td <| qdata := q' |> <| toPQueueMap := <[k := box']> (toPQueueMap td) |>))
    as (td' & -> & Hrel & Hall).
  - split; cbn; [by apply map_Forall_insert_2|].
    eapply thread_rel_perm; [symmetry; apply mail_events_insert|]. by rewrite He'.
  - intros k' Hin. cbn. destruct (decide (k = k')) as [->|Hne]; [rewrite lookup_insert_eq; by eexists|].
    rewrite lookup_insert_ne by done. apply Hk. by right.
  - exists td'. split; [done|]. split; [done|]. intros k' b E. destruct (Hall k' b E) as [?|[Hn E']]; [by left|].
    cbn in E'. destruct (decide (k = k')) as [->|Hne].
    + rewrite lookup_insert_eq in E'. left. congruence.
    + rewrite lookup_insert_ne in E' by done. right. split; [|done]. by rewrite not_elem_of_cons.
Qed.

Section MailProofs.
Context (mailbox_key : Z → Z → Z) (keys : gmap Z PQ.PriorityQueue → list Z).
Hypothesis keys_all : ∀ m k, k ∈ keys m ↔ is_Some (m !! k).

Lemma mailbox_push_rel hs B es st td block event k :
  mail_thread_rel hs B es st td → event ≠ 0 → event ∉ s_waiting st → B ≤ time (es !!! event) →
  Forall (λ p, ¬ same_id hs (es !!! event) (es !!! p)) (s_waiting st) →
  ∃ box b, PQ.priorityqueue_push (event_compare_at hs es) g_renew
             (default (PQ.priorityqueue_new block) (toPQueueMap td !! k)) event = Some (box, b) ∧
    mail_thread_rel hs B es (st <| s_waiting := event :: s_waiting st |> <| s_mail := true |>)
      (td <| toPQueueMap := <[k := box]> (toPQueueMap td) |>).
Proof.
  intros [Hb Hr] H0 Hn Ht Hids. set (old := default _ _).
  assert (PQ.wf old ∧ mail_events (toPQueueMap td) ≡ₚ
            PQ.elements old ++ mail_events (delete k (toPQueueMap td))) as [Hw Hperm].
  { unfold old. destruct (toPQueueMap td !! k) as [box|] eqn:E.
    - split; [by apply (Hb k)|by apply mail_events_lookup].
    - split; [apply PQ.new_wf|]. cbn. by rewrite delete_id. }
  destruct (PQ.push_spec (event_compare_at hs es) g_renew old event Hw) as (box & -> & Hw' & He).
  eexists box, _. split; [done|]. split; cbn; [by apply map_Forall_insert_2|].
  eapply thread_rel_perm; [|by apply push_mail_rel]. rewrite mail_events_insert, He, decide_False, Hperm; [done|].
  intros Hin. apply Hn. rewrite (tr_waiting _ _ _ _ _ _ _ Hr), Hperm, !elem_of_app. auto.
Qed.

Lemma deliver_rel hs s td block event src dst self t me st :
  push_allowed hs s event src dst self t me st →
  let es := pushed_events s event t self in
  mail_thread_rel hs (s_barrier s) es st td →
  ∃ td', deliver g_renew mailbox_key hs es td block event src self t self = Some td' ∧
    mail_thread_rel hs (s_barrier s) es
      (st <| s_waiting := event :: s_waiting st |> <| s_mail := s_mail st || bool_decide (t ≠ self) |>) td'.
Proof.
  intros Ha es Hrel. destruct (pushed_facts _ _ _ _ _ _ _ _ _ Ha) as (_ & Hown & Hother & Hids).
  destruct Ha as [E1 E2 E3 E4 H0 Hm Hn Hp _]. pose proof (waits_not _ _ _ _ Hn E4) as Hnw.
  fold es in Hown, Hother, Hids. unfold deliver. destruct (Z.eqb_spec t self) as [Ht|Hne].
  - destruct Hrel as [Hb Hr].
    destruct (push_main_rel _ _ es st _ _ _ event (s_mail st || bool_decide (t ≠ self)) Hr H0 Hnw)
      as (q' & -> & Hr'); [by apply Hown|done| |].
    { rewrite bool_decide_false by auto. rewrite orb_false_r. apply (tr_nomail _ _ _ _ _ _ _ Hr). }
    cbn. eexists. split; [done|]. by split.
  - destruct (mailbox_push_rel hs (s_barrier s) es st td block event (mailbox_key src self) Hrel H0 Hnw
               (Hother Hne) Hids) as (box & b & -> & Hr').
    cbn. eexists. split; [done|]. by rewrite bool_decide_true, orb_true_r by done.
Qed.

Lemma mail_push hs s d block event src dst self t me st :
  push_allowed hs s event src dst self t me st → mail_rel hs s d →
  ∃ d', mailpolicy_push g_renew mailbox_key hs (s_events s) d block event src dst (s_barrier s) self =
          Some (pushed_events s event t self, d') ∧
    mail_rel hs (s <| s_events := pushed_events s event t self |>
                   <| s_threads := <[t := st <| s_waiting := event :: s_waiting st |>
                                     <| s_mail := s_mail st || bool_decide (t ≠ self) |>]> (s_threads s) |>) d'.
Proof.
  intros Ha Hr. destruct (pushed_facts _ _ _ _ _ _ _ _ _ Ha) as ((e & Ee) & _ & _ & _).
  pose proof (pa_new _ _ _ _ _ _ _ _ _ Ha) as Hn. pose proof (pa_st _ _ _ _ _ _ _ _ _ Ha) as E4.
  unfold mailpolicy_push.
  rewrite (tables_id _ _ _ _ _ _ Hr (pa_src _ _ _ _ _ _ _ _ _ Ha)),
    (tables_id _ _ _ _ _ _ Hr (pa_t _ _ _ _ _ _ _ _ _ Ha)).
  fold (pushed_events s event t self). set (es := pushed_events s event t self) in *.
  destruct (tables_lookup _ _ _ _ t st Hr E4) as (td & -> & Htd). cbn [mbind option_bind].
  apply (mail_frames _ _ _ _ _ event e) in Htd; [|by apply (waits_not _ _ _ _ Hn E4)].
  rewrite <-Ee in Htd.
  destruct (deliver_rel hs s td block event src dst self t me st Ha Htd) as (td' & E & Hrel).
  fold es in E. rewrite E. cbn [mbind option_bind]. eexists. split; [done|].
  refine (tables_insert (mail_thread_rel hs) (s <| s_events := es |>) (threadToThreadDataMap d)
           (hostToThreadMap d) t _ td' _ Hrel).
  rewrite Ee. by apply (tables_mem (mail_thread_rel hs)).
Qed.

Lemma mail_reinsert (d : MailPolicyData) t td :
  threadToThreadDataMap d !! t = Some td →
  d <| threadToThreadDataMap := <[t := td <| qdata := qdata td |>]> (threadToThreadDataMap d) |> = d.
Proof. intros. destruct d, td. cbn in *. by rewrite insert_id. Qed.

Lemma mail_pop hs s d self s' a :
  mail_rel hs s d → spec_call hs s (Pop self) = Some (s', a) →
  ∃ d', do_call (mailpolicy g_renew mailbox_key keys) hs (mkMachine (s_barrier s) (s_events s) d) (Pop self) =
        Some (mkMachine (s_barrier s') (s_events s') d', a) ∧ mail_rel hs s' d'.
Proof.
  intros Hr Hc. cbn in Hc |- *. unfold mailpolicy_pop.
  destruct (s_threads s !! self) as [st|] eqn:E.
  2:{ injection Hc as <- <-. rewrite (tables_lookup_None _ _ _ _ self Hr E). cbn. by eexists. }
  destruct (tables_lookup _ _ _ _ self st Hr E) as (td & Etd & [Hb Htd]). rewrite Etd.
  destruct (pop_rel _ _ _ _ _ _ _ (proj2 (tb_barrier _ _ _ _ Hr)) Htd) as (q' & r & -> & Hpop). cbn.
  destruct (least hs (s_events s) (s_waiting st)) as [p|]; [case_decide|].
  - destruct Hpop as [-> Hrel]. injection Hc as <- <-. eexists. split; [done|].
    refine (tables_insert (mail_thread_rel hs) s (threadToThreadDataMap d) (hostToThreadMap d) self
              _ (td <| qdata := q' |>) Hr _). by split.
  - destruct Hpop as [-> ->]. injection Hc as <- <-. eexists. split; [done|].
    by rewrite (mail_reinsert _ _ _ Etd).
  - destruct Hpop as [-> ->]. injection Hc as <- <-. eexists. split; [done|].
    by rewrite (mail_reinsert _ _ _ Etd).
Qed.

Lemma mail_next hs s d self s' a :
  mail_rel hs s d → spec_call hs s (GetNextTime self) = Some (s', a) →
  ∃ d', do_call (mailpolicy g_renew mailbox_key keys) hs (mkMachine (s_barrier s) (s_events s) d) (GetNextTime self) =
        Some (mkMachine (s_barrier s') (s_events s') d', a) ∧ mail_rel hs s' d'.
Proof.
  intros Hr Hc. cbn in Hc |- *. unfold mailpolicy_getNextTime.
  destruct (s_threads s !! self) as [st|] eqn:E.
  2:{ injection Hc as <- <-. rewrite (tables_lookup_None _ _ _ _ self Hr E). cbn. by eexists. }
  destruct (tables_lookup _ _ _ _ self st Hr E) as (td & Etd & Htd). rewrite Etd.
  injection Hc as <- <-.
  destruct (drain_mailboxes_rel _ _ _ _ (keys (toPQueueMap td)) td Htd) as (td' & -> & [Hb' Hr'] & Hall).
  { intros k. by rewrite keys_all. }
  assert (Hnil : mail_events (toPQueueMap td') = []).
  { apply mail_events_empty. intros k b Ek. destruct (Hall k b Ek) as [?|[Hn E']]; [done|].
    exfalso. apply Hn. rewrite keys_all. by eexists. }
  rewrite Hnil in Hr'.
  cbn. rewrite (peek_time_rel _ _ _ _ _ _ Hr'). eexists. split; [done|].
  refine (tables_insert (mail_thread_rel hs) s (threadToThreadDataMap d) (hostToThreadMap d) self
            _ td' Hr _). split; [done|].
  rewrite Hnil. by apply drained_rel.
Qed.

#[export] Instance mailpolicy_implements hs :
  Implements (mailpolicy g_renew mailbox_key keys) hs (mail_rel hs).
Proof.
  constructor; [apply tables_init|]. intros s d c s' a Hr Hc.
  destruct c as [block host rt self|event e|block event src dst self|self|self|B'].
  - cbn in Hc. case_decide as Ht; [|done]. injection Hc as <- <-. cbn. eexists. split; [done|].
    unfold mailpolicy_addHost. rewrite assigned_thread.
    set (t := if decide (rt = 0) then self else rt) in *. apply tables_addHost; [done..|].
    destruct (s_threads s !! t) as [st|] eqn:E.
    + destruct (tables_lookup _ _ _ _ t st Hr E) as (td & -> & [Hb Htd]).
      split; [done|]. by apply add_host_rel.
    + rewrite (tables_lookup_None _ _ _ _ t Hr E). split; [done|].
      apply add_host_rel, new_thread_rel, (tb_barrier _ _ _ _ Hr).
  - cbn in Hc. case_decide as Hw; [done|]. injection Hc as <- <-. cbn. eexists. split; [done|].
    by apply (tables_mem (mail_thread_rel hs)).
  - apply spec_push_inv in Hc as (t & me & st & Ha & -> & ->).
    destruct (mail_push hs s d block _ _ _ _ _ _ _ Ha Hr) as (d' & E & Hr'). cbn. rewrite E. cbn. by eexists.
  - by apply mail_pop.
  - by apply mail_next.
  - cbn in Hc. case_decide as Hd; [|done]. destruct Hd as [HB Hall]. injection Hc as <- <-.
    exists d. split; [done|]. apply tables_round; try done.
    intros es st td Hm [Hb Hrel]. split; [done|].
    apply (thread_rel_round (s_barrier s)); [lia|done|done].
Qed.

End MailProofs.

(** ** Runs *)

Lemma run_implements {D} (P : SchedulerPolicy D) hs rel `{!Implements P hs rel} cs : ∀ s d s' answers,
  rel s d → run_with (spec_call hs) s cs = Some (s', answers) →
  ∃ d', run_with (do_call P hs) (mkMachine (s_barrier s) (s_events s) d) cs =
          Some (mkMachine (s_barrier s') (s_events s') d', answers) ∧ rel s' d'.
Proof.
  induction cs as [|c cs IH]; intros s d s' answers Hr H; cbn [run_with] in H |- *.
  { injection H as <- <-. by exists d. }
  destruct (spec_call hs s c) as [[s1 a]|] eqn:E; [|done]. cbn [mbind option_bind] in H.
  destruct (impl_call s d c s1 a Hr E) as (d1 & -> & Hr1). cbn [mbind option_bind].
  destruct (run_with (spec_call hs) s1 cs) as [[s2 answers2]|] eqn:E2; [|done].
  cbn [mbind option_bind] in H. injection H as <- <-.
  destruct (IH s1 d1 s2 answers2 Hr1 E2) as (d' & E' & Hr').
  rewrite E'. cbn. by exists d'.
Qed.

(** *** Conservation *)

Definition pushed (cs : list call) : list Z :=
  omap (λ c, match c with Push _ event _ _ _ => Some event | _ => None end) cs.

Definition popped (answers : list answer) : list Z :=
  omap (λ a, match a with AEvent r => r | _ => None end) answers.

(** All entries of a table of lists. *)
Definition all_of {T} (f : T → list Z) (m : gmap Z T) : list Z := concat ((f ∘ snd) <$> map_to_list m).

Lemma all_of_insert {T} (f : T → list Z) m t x :
  m !! t = None → all_of f (<[t := x]> m) ≡ₚ f x ++ all_of f m.
Proof. intros E. unfold all_of. by rewrite map_to_list_insert. Qed.

Lemma all_of_lookup {T} (f : T → list Z) m t x :
  m !! t = Some x → all_of f m ≡ₚ f x ++ all_of f (delete t m).
Proof.
  intros E. rewrite <-(insert_delete_id m t x E) at 1. apply all_of_insert, lookup_delete_eq.
Qed.

Lemma all_of_set {T} (f : T → list Z) m t x :
  all_of f (<[t := x]> m) ≡ₚ f x ++ all_of f (delete t m).
Proof. rewrite <-insert_delete_eq. apply all_of_insert, lookup_delete_eq. Qed.

Lemma all_of_related {T U} (R : T → U → Prop) (f : T → list Z) (g : U → list Z) m : ∀ m',
  (∀ x y, R x y → f x ≡ₚ g y) → map_Forall2 (λ _ : Z, R) m m' → all_of f m ≡ₚ all_of g m'.
Proof.
  induction m as [|t x m E IH] using map_ind; intros m' HR Hm.
  - apply map_Forall2_empty_inv_l in Hm as ->. done.
  - apply map_Forall2_insert_inv_l in Hm as (y & m2 & -> & E2 & Hxy & Hm); [|done].
    rewrite !all_of_insert by done. by rewrite (HR x y Hxy), (IH m2 HR Hm).
Qed.

Lemma spec_call_conserves hs s c s' a :
  spec_call hs s c = Some (s', a) →
  map_Forall (λ _ st, NoDup (s_waiting st)) (s_threads s) →
  pushed [c] ++ all_of s_waiting (s_threads s) ≡ₚ popped [a] ++ all_of s_waiting (s_threads s').
Proof.
  intros Hc Hnd. destruct c as [block host rt self|event e|block event src dst self|self|self|B'].
  - cbn in Hc. case_decide; [|done]. injection Hc as <- <-. cbn. rewrite all_of_set. cbn.
    destruct (s_threads s !! _) as [st|] eqn:E; cbn; [by apply all_of_lookup|]. by rewrite delete_id.
  - cbn in Hc. case_decide; [done|]. by injection Hc as <- <-.
  - apply spec_push_inv in Hc as (t & me & st & Ha & -> & ->). cbn.
    rewrite all_of_set. cbn. by rewrite (all_of_lookup s_waiting _ t st (pa_st _ _ _ _ _ _ _ _ _ Ha)).
  - cbn in Hc. destruct (s_threads s !! self) as [st|] eqn:E; [|by injection Hc as <- <-].
    pose proof (least_spec hs (s_events s) (s_waiting st)) as Hl.
    destruct (least _ _ _) as [p|]; [case_decide|]; injection Hc as <- <-; try done. cbn.
    destruct Hl as [Hin _]. apply elem_of_Permutation in Hin as [rest Hp].
    rewrite all_of_set, (all_of_lookup s_waiting _ self st E). cbn.
    rewrite (filter_out p _ rest Hp (Hnd self st E)). by rewrite Hp.
  - cbn in Hc. destruct (s_threads s !! self) as [st|] eqn:E; injection Hc as <- <-; [|done]. cbn.
    rewrite all_of_set. cbn. by apply all_of_lookup.
  - cbn in Hc. case_decide; [|done]. by injection Hc as <- <-.
Qed.

Lemma spec_nodup hs s threads hm :
  tables_rel (single_thread_rel hs) s threads hm → map_Forall (λ _ st, NoDup (s_waiting st)) (s_threads s).
Proof.
  intros Hr t st E. destruct (tables_lookup _ _ _ _ t st Hr E) as (td & _ & Htd).
  apply (tr_nodup _ _ _ _ _ _ _ Htd).
Qed.

Lemma perm_chain (p ps q qs a b c : list Z) :
  p ++ a ≡ₚ q ++ b → ps ++ b ≡ₚ qs ++ c → (p ++ ps) ++ a ≡ₚ (q ++ qs) ++ c.
Proof.
  intros H1 H2. rewrite (Permutation_app_comm p ps), <-!app_assoc, H1.
  by rewrite (app_assoc ps q b), (Permutation_app_comm ps q), <-app_assoc, H2.
Qed.

Lemma run_spec_conserves hs cs : ∀ s d s' answers,
  single_rel hs s d → run_with (spec_call hs) s cs = Some (s', answers) →
  pushed cs ++ all_of s_waiting (s_threads s) ≡ₚ popped answers ++ all_of s_waiting (s_threads s').
Proof.
  induction cs as [|c cs IH]; intros s d s' answers Hr H; cbn [run_with] in H.
  { by injection H as <- <-. }
  destruct (spec_call hs s c) as [[s1 a]|] eqn:E; [|done]. cbn [mbind option_bind] in H.
  destruct (run_with (spec_call hs) s1 cs) as [[s2 answers2]|] eqn:E2; [|done].
  cbn [mbind option_bind] in H. injection H as <- <-.
  destruct (impl_call s d c s1 a Hr E) as (d1 & _ & Hr1).
  pose proof (spec_call_conserves hs s c s1 a E (spec_nodup _ _ _ _ Hr)) as H1.
  pose proof (IH s1 d1 s2 answers2 Hr1 E2) as H2.
  change (pushed (c :: cs)) with (omap (λ c, match c with Push _ event _ _ _ => Some event | _ => None end) ([c] ++ cs)).
  change (popped (a :: answers2)) with (omap (λ a, match a with AEvent r => r | _ => None end) ([a] ++ answers2)).
  rewrite !omap_app. fold (pushed [c]) (pushed cs) (popped [a]) (popped answers2).
  by apply (perm_chain _ _ _ _ _ _ _ H1).
Qed.

(** Everything a policy with mailboxes stores for a thread. *)
Definition mail_contents (td : MailThreadData) : list Z :=
  PQ.elements (Sched.pq (qdata td)) ++ mail_events (toPQueueMap td).

Lemma keys_order_all (keys : gmap Z PQ.PriorityQueue → list Z) :
  (∀ m, keys m ≡ₚ (map_to_list m).*1) → ∀ m k, k ∈ keys m ↔ is_Some (m !! k).
Proof.
  intros Hk m k. rewrite Hk, list_elem_of_fmap. split.
  - intros ([k' v] & -> & Hin%elem_of_map_to_list). by eexists.
  - intros [v E]. exists (k, v). split; [done|]. by apply elem_of_map_to_list.
Qed.

(** ** Properties *)

(** C36: the three policies are interchangeable within the protocol that
    [spec_call] states: threads have ids below [2 ^ 32] ([thread_ids_are_truncated]
    shows what happens otherwise), a thread pushes new events that are not in its
    past from the hosts it runs, and a round begins with a later barrier and only
    after every thread that got mail has asked for its next time, which empties
    its mailboxes (if it has not, the policies differ: [mailbox_policies_lose_event]
    in Rounds.v).  For every such sequence of calls each of them answers every call,
    with the same events and the same times as the specification, and leaves
    the same times in the events.  In particular each returns the least event
    of the thread before the barrier, although two of them keep some of the
    thread's events in mailboxes whose number, keys and order differ. *)
Theorem thread_policies_equivalent keys hs cs s answers :
  (∀ m, keys m ≡ₚ (map_to_list m).*1) → run_spec hs cs = Some (s, answers) →
  ∃ d1 d2 d3,
    run (threadsingle g_renew) hs cs = Some (mkMachine (s_barrier s) (s_events s) d1, answers) ∧
    run (threadperhost g_renew keys) hs cs = Some (mkMachine (s_barrier s) (s_events s) d2, answers) ∧
    run (threadperthread g_renew keys) hs cs = Some (mkMachine (s_barrier s) (s_events s) d3, answers).
Proof.
  intros Hk H. pose proof (keys_order_all keys Hk) as Hk'.
  assert (Hrun : ∀ D (P : SchedulerPolicy D) rel, Implements P hs rel →
    ∃ d, run P hs cs = Some (mkMachine (s_barrier s) (s_events s) d, answers)).
  { intros D P rel Hi. destruct (run_implements P hs rel cs spec_init (new P) s answers) as (d & E & _);
      [apply impl_new|done|]. by exists d. }
  destruct (Hrun _ _ _ (threadsingle_implements hs)) as [d1 E1].
  destruct (Hrun _ _ _ (mailpolicy_implements (λ srcHost srcThread, srcHost) keys Hk' hs)) as [d2 E2].
  destruct (Hrun _ _ _ (mailpolicy_implements (λ srcHost srcThread, srcThread) keys Hk' hs)) as [d3 E3].
  by exists d1, d2, d3.
Qed.

(** Whatever identifies a mailbox and in whatever order mailboxes are
    emptied, no event is lost, duplicated or late: at any moment the events
    pushed so far are those returned so far and those in the queues and the
    mailboxes; no event in a queue lies before the last event of its thread;
    and the events in mailboxes do not lie before the barrier. *)
Theorem mailboxes_lose_nothing mailbox_key keys hs cs s answers :
  (∀ m, keys m ≡ₚ (map_to_list m).*1) → run_spec hs cs = Some (s, answers) →
  ∃ B es d, run (mailpolicy g_renew mailbox_key keys) hs cs = Some (mkMachine B es d, answers) ∧
    pushed cs ≡ₚ popped answers ++ all_of mail_contents (threadToThreadDataMap d) ∧
    ∀ t td p, threadToThreadDataMap d !! t = Some td →
      (p ∈ PQ.elements (Sched.pq (qdata td)) → Sched.lastEventTime (qdata td) ≤ time (es !!! p)) ∧
      (p ∈ mail_events (toPQueueMap td) → B ≤ time (es !!! p)).
Proof.
  intros Hk H. pose proof (keys_order_all keys Hk) as Hk'.
  destruct (run_implements _ hs _ (Implements0 := mailpolicy_implements mailbox_key keys Hk' hs)
              cs spec_init mailpolicy_new s answers) as (d & E & Hr); [apply tables_init|done|].
  exists (s_barrier s), (s_events s), d. split; [done|].
  pose proof (run_spec_conserves hs cs spec_init schedulerpolicythreadsingle_new s answers (tables_init _) H) as Hc.
  destruct Hr as [Hth Hh Hid HB]. split.
  - rewrite app_nil_r in Hc. rewrite Hc. f_equiv. apply (all_of_related (mail_thread_rel hs (s_barrier s) (s_events s))); [|done].
    intros st td [_ Hrel]. apply (tr_waiting _ _ _ _ _ _ _ Hrel).
  - intros t td p Et. specialize (Hth t). rewrite Et in Hth. inversion Hth as [st td' [_ Hrel] E1 E2|]; subst.
    split; [apply (Sched.qo_future _ _ _ _ (tr_queue _ _ _ _ _ _ _ Hrel))|].
    intros Hin. by apply (tr_mail _ _ _ _ _ _ _ Hrel).
Qed.

(** A host table stores the whole thread id but reads 32 bits of it, so
    with an id of 2^32 or more (on Linux a [pthread_t] is an address) the first
    push for a host of that thread, whatever event, finds no thread data and
    fails its assertion, in all three policies. *)
Theorem thread_ids_are_truncated keys hs t host block block' event e B :
  2 ^ 32 ≤ t →
  let cs := [AddHost block host t t; Create event e; Round B; Push block' event host host t] in
  run (threadsingle g_renew) hs cs = None ∧
  run (threadperhost g_renew keys) hs cs = None ∧
  run (threadperthread g_renew keys) hs cs = None.
Proof.
  intros Ht cs. pose proof (u32_range t) as Hu.
  assert (Hid : thread_id (<[host := t]> ∅) host = u32 t) by (unfold thread_id; by rewrite lookup_insert_eq).
  assert (E0 : (t =? 0) = false) by lia.
  assert (Hne : t ≠ u32 t) by lia.
  assert (Hnone : ∀ T (td : T), (<[t := td]> ∅ : gmap Z T) !! u32 t = None)
    by (intros; by rewrite lookup_insert_ne, lookup_empty).
  unfold run, cs, threadsingle, threadperhost, threadperthread.
  cbn [run_with do_call addHost new push mbind option_bind].
  unfold _schedulerpolicythreadsingle_push, _schedulerpolicythreadperhost_push,
    _schedulerpolicythreadperthread_push, mailpolicy_push, _schedulerpolicythreadsingle_addHost,
    _schedulerpolicythreadperhost_addHost, _schedulerpolicythreadperthread_addHost, mailpolicy_addHost.
  cbn. rewrite E0. cbn. by rewrite !Hid, !Hnone.
Qed.

End Proofs.

(** ** Witnesses *)

(** Host 100 on thread 1 sends an event to host 200 on thread 2. *)
Definition demo_calls : list call :=
  [AddHost 500 100 1 1; AddHost 600 200 2 2;
   Create 11 (ev 100 100 5 0); Push 700 11 100 100 1; Round 10;
   Pop 1; Create 12 (ev 100 200 6 1); Push 700 12 100 200 1; Pop 1; Pop 2;
   GetNextTime 1; GetNextTime 2; Round 20; Pop 2].

Definition demo_answers : list answer :=
  [ANone; ANone; ANone; ANone; ANone; AEvent (Some 11); ANone; ANone; AEvent None; AEvent None;
   ATime SIMTIME_MAX; ATime 10; ANone; AEvent (Some 12)].

Definition demo_keys (m : gmap Z PQ.PriorityQueue) : list Z := (map_to_list m).*1.

Definition nomove (b : Z) (n : nat) : Z := b.

Lemma demo_spec : ∃ s, run_spec sample_hosts demo_calls = Some (s, demo_answers).
Proof.
  destruct (run_spec sample_hosts demo_calls) as [[s answers]|] eqn:E; [|by vm_compute in E].
  exists s. do 2 f_equal. apply (f_equal (fmap snd)) in E. vm_compute in E. by injection E as <-.
Defined.

Lemma thread_policies_equivalent_witness :
  ∃ m, run (threadperhost nomove demo_keys) sample_hosts demo_calls = Some (m, demo_answers).
Proof.
  destruct demo_spec as [s E].
  destruct (thread_policies_equivalent nomove demo_keys sample_hosts demo_calls s demo_answers)
    as (d1 & d2 & d3 & _ & E2 & _); [done|exact E|]. eexists. exact E2.
Defined.

Lemma mailboxes_lose_nothing_witness :
  ∃ d, pushed demo_calls ≡ₚ popped demo_answers ++ all_of mail_contents (threadToThreadDataMap d).
Proof.
  destruct demo_spec as [s E].
  destruct (mailboxes_lose_nothing nomove (λ _ t, t) demo_keys sample_hosts demo_calls s demo_answers)
    as (B & es & d & _ & Hp & _); [done|exact E|]. by exists d.
Defined.

Lemma thread_ids_are_truncated_witness :
  run (threadsingle nomove) sample_hosts
    [AddHost 500 100 140737353910016 140737353910016; Create 11 (ev 100 100 5 0); Round 10;
     Push 0 11 100 100 140737353910016] = None.
Proof.
  by destruct (thread_ids_are_truncated nomove demo_keys sample_hosts 140737353910016 100 500 0 11
    (ev 100 100 5 0) 10) as [H _].
Defined.

End Threads.
