(* ===== verification/RoundPolicy.v ===== *)
(** * What a round needs of a scheduler policy
    (the operations of scheduler_policy.h, as scheduler.c calls them)

    The interface between the scheduler and its policy: what the policy holds
    for each thread, when a push or a pop may be made, and what the calls do.
    Policies that give a pushed event to the receiving thread at once meet it:
    one queue for each host (scheduler_policy_host_single.c) and one queue for
    each thread (scheduler_policy_thread_single.c). *)

From S2P Require Import Prelude Float64 Cpu PriorityQueue Event SchedulerHostSingle ThreadPolicies.

Module RoundPolicy.
Import Host Ev Threads.
#[local] Existing Instances Sched.qdata_eta Sched.tdata_eta Sched.policy_eta PQ.pq_eta.

(** Events are compared by the ids of their hosts, which nothing changes. *)
Definition same_params (hs hs' : hosts) : Prop := ∀ h, params_id (hs' !!! h) = params_id (hs !!! h).

(** [register P assign] is the policy after [_scheduler_assignHosts]: the
    elements are a host, its thread and the memory for a queue. *)
Definition register {D} (P : SchedulerPolicy D) (main : Z) (assign : list (Z * Z * Z)) : D :=
  foldl (λ d '(host, thread, block), addHost P d block host thread main) (new P) assign.

Definition good_assignment (assign : list (Z * Z * Z)) : Prop :=
  NoDup (assign.*1.*1) ∧ Forall (λ t, 0 < t < 2 ^ 32) (assign.*1.*2).

Definition assigned (assign : list (Z * Z * Z)) (h t : Z) : Prop := (h, t) ∈ assign.*1.

(** The time of an event that is pushed to thread [t]: delayed to the barrier
    or left alone, never delayed for the sender's own host, and not before the
    barrier in another thread. *)
Definition push_time (Bp : Z) (src dst self t : Z) (e e' : Event) : Prop :=
  (e' = e ∨ e' = e <| time := Z.max Bp (time e) |>) ∧ (t ≠ self → Bp ≤ time e') ∧ (src = dst → e' = e).

(** [waiting d t]: the events thread [t] will run; [owner d h]: the thread of
    host [h]; [last d h]: no event of [h] may lie before it; [may B d self h]:
    thread [self] is running host [h] in the round with barrier [B]; [ok]: the
    state is sound. *)
Class RoundPolicy {D : Type} (P : SchedulerPolicy D) := {
  waiting : D → Z → list Z;
  owner : D → Z → option Z;
  last : D → Z → Z;
  may : Z → D → Z → Z → Prop;
  ok : hosts → events → Z → D → Prop;

  rp_waiting hs es B d t p : ok hs es B d → p ∈ waiting d t →
    p ≠ 0 ∧ owner d (dstHost (es !!! p)) = Some t ∧ last d (dstHost (es !!! p)) ≤ time (es !!! p);
  rp_nodup hs es B d t : ok hs es B d → NoDup (waiting d t);
  rp_last hs es B d h : ok hs es B d → 0 ≤ last d h ≤ B;
  rp_may hs es B d t h : ok hs es B d → may B d t h → owner d h = Some t;

  rp_assigned hs es B d self l h : ok hs es B d → getAssignedHosts P d self = Some l → h ∈ l → owner d h = Some self;

  rp_memory hs hs' es es' B d :
    ok hs es B d → same_params hs hs' → (∀ t p, p ∈ waiting d t → es' !!! p = es !!! p) → ok hs' es' B d;
  rp_later hs es B B' d : ok hs es B d → B < B' ≤ SIMTIME_MAX → ok hs es B' d;

  rp_init main assign hs es : good_assignment assign →
    let d := register P main assign in
    ok hs es 0 d ∧ (∀ t, waiting d t = []) ∧ (∀ h, last d h = 0) ∧
    (∀ h t, owner d h = Some t ↔ assigned assign h t) ∧ (∀ h t, assigned assign h t → may 0 d t h);

  rp_push hs es B Bp d block event src self t :
    ok hs es B d → may B d self src → B ≤ Bp → event ≠ 0 → (∀ t, event ∉ waiting d t) →
    is_Some (es !! event) → owner d (dstHost (es !!! event)) = Some t → last d src ≤ time (es !!! event) →
    ∃ e' d', push P hs es d block event src (dstHost (es !!! event)) Bp self = Some (<[event := e']> es, d') ∧
      push_time Bp src (dstHost (es !!! event)) self t (es !!! event) e' ∧
      ok hs (<[event := e']> es) B d' ∧ waiting d' t ≡ₚ event :: waiting d t ∧
      (∀ t', t' ≠ t → waiting d' t' ≡ₚ waiting d t') ∧ (∀ h, last d' h = last d h) ∧
      (∀ h, owner d' h = owner d h) ∧ (∀ s h, may B d s h → may B d' s h);

  rp_pop hs es B d self : ok hs es B d →
    ∃ d' r, pop P hs es d self B = Some (d', r) ∧ ok hs es B d' ∧
      (∀ h, owner d' h = owner d h) ∧ (∀ t, t ≠ self → waiting d' t ≡ₚ waiting d t) ∧
      (∀ t h, t ≠ self → may B d t h → may B d' t h) ∧ (∀ h, last d h ≤ last d' h) ∧
      (∀ h, owner d h ≠ Some self → last d' h = last d h) ∧
      match r with
      | None => waiting d' self ≡ₚ waiting d self ∧ ∀ p, p ∈ waiting d self → B ≤ time (es !!! p)
      | Some p => waiting d self ≡ₚ p :: waiting d' self ∧ time (es !!! p) < B ∧
          may B d' self (dstHost (es !!! p)) ∧ last d' (dstHost (es !!! p)) = time (es !!! p)
      end;

  rp_next hs es B d self : ok hs es B d →
    ∃ d', getNextTime P hs es d self = Some (d', earliest es (waiting d self)) ∧ ok hs es B d' ∧
      (∀ h, owner d' h = owner d h) ∧ (∀ t, waiting d' t ≡ₚ waiting d t) ∧ (∀ h, last d' h = last d h) ∧
      (∀ t h, t ≠ self → may B d t h → may B d' t h);
}.

(** ** Shared facts *)

Lemma event_le_params hs hs' es es' p q :
  same_params hs hs' → es' !!! p = es !!! p → es' !!! q = es !!! q →
  event_le hs es p q → event_le hs' es' p q.
Proof. intros Hp E1 E2. unfold event_le, event_key. by rewrite E1, E2, !Hp. Qed.

Lemma queue_ok_memory B hs hs' es es' q :
  same_params hs hs' → (∀ p, p ∈ PQ.elements (Sched.pq q) → es' !!! p = es !!! p) →
  Sched.queue_ok B hs es q → Sched.queue_ok B hs' es' q.
Proof.
  intros Hp Hs [Hw Ho Hnull Hl Hf]. constructor; try done.
  - intros i Hi. pose proof (PQ.parent_lt i (proj1 Hi)).
    eapply event_le_params; [exact Hp|apply Hs, PQ.elements_total; [done|lia]..|by apply Ho].
  - intros p Hin. rewrite Hs by done. by apply Hf.
Qed.

(** Registration, one host after the other. *)
Lemma register_ind {D} (P : SchedulerPolicy D) main (Q : list (Z * Z * Z) → D → Prop) :
  Q [] (new P) →
  (∀ assign d h t block, Q assign d → h ∉ assign.*1.*1 → 0 < t < 2 ^ 32 →
     Q (assign ++ [(h, t, block)]) (addHost P d block h t main)) →
  ∀ assign, good_assignment assign → Q assign (register P main assign).
Proof.
  intros H0 Hs assign. unfold register.
  induction assign as [|[[h t] block] assign IH] using rev_ind; intros [Hnd Hth]; [done|].
  rewrite foldl_app. cbn. rewrite !fmap_app in Hnd, Hth. cbn in *.
  apply NoDup_app in Hnd as (Hnd & Hx & _). apply Forall_app in Hth as [Hth Ht].
  apply Hs; [by apply IH|intros Hin; apply (Hx h Hin); left|by inversion Ht].
Qed.

Lemma assigned_snoc assign h t block h' t' :
  assigned (assign ++ [(h, t, block)]) h' t' ↔ assigned assign h' t' ∨ h' = h ∧ t' = t.
Proof.
  unfold assigned. rewrite fmap_app, elem_of_app. cbn. rewrite list_elem_of_singleton.
  split; [intros [?|[= -> ->]]; auto|intros [?|[-> ->]]; auto].
Qed.

Lemma assigned_host assign h t : assigned assign h t → h ∈ assign.*1.*1.
Proof. intros H. by apply (list_elem_of_fmap_2 fst) in H. Qed.

Section Policies.
Context (g_renew : Z → nat → Z).

(** ** One queue for each thread *)

Section Single.
Implicit Types d : ThreadSinglePolicyData.

Definition single_events (d : ThreadSinglePolicyData) (t : Z) : list Z :=
  match single_threads d !! t with
  | Some td => PQ.elements (Sched.pq (single_queue td))
  | None => []
  end.

Definition single_last (d : ThreadSinglePolicyData) (h : Z) : Z :=
  match single_hosts d !! h with
  | Some t => match single_threads d !! t with
              | Some td => Sched.lastEventTime (single_queue td)
              | None => 0
              end
  | None => 0
  end.

Record single_ok (hs : hosts) (es : events) (B : Z) (d : ThreadSinglePolicyData) : Prop := mkSingleOk {
  so_barrier : 0 ≤ B ≤ SIMTIME_MAX;
  so_queues : ∀ t td, single_threads d !! t = Some td → Sched.queue_ok B hs es (single_queue td);
  so_ids : ∀ h t, single_hosts d !! h = Some t → 0 < t < 2 ^ 32 ∧ is_Some (single_threads d !! t);
  so_dst : ∀ t p, p ∈ single_events d t → single_hosts d !! dstHost (es !!! p) = Some t;
  so_assigned : ∀ t td h, single_threads d !! t = Some td → h ∈ assignedHosts2 td → single_hosts d !! h = Some t;
}.

Lemma single_thread_id hs es B d h t :
  single_ok hs es B d → single_hosts d !! h = Some t → thread_id (single_hosts d) h = t.
Proof. intros Hok E. unfold thread_id. rewrite E. cbn. apply u32_small. pose proof (so_ids _ _ _ _ Hok _ _ E). lia. Qed.

Lemma single_ok_memory hs hs' es es' B d :
  single_ok hs es B d → same_params hs hs' → (∀ t p, p ∈ single_events d t → es' !!! p = es !!! p) →
  single_ok hs' es' B d.
Proof.
  intros [HB Hq Hid Hd Hah] Hp Hs. constructor; try done.
  - intros t td E. eapply queue_ok_memory; [exact Hp| |by apply (Hq t)].
    intros p Hin. apply (Hs t). unfold single_events. by rewrite E.
  - intros t p Hin. rewrite (Hs t p Hin). by apply Hd.
Qed.

(** A thread's queue is replaced by a good one. *)
Lemma single_update hs es B d t td q :
  single_ok hs es B d → single_threads d !! t = Some td → Sched.queue_ok B hs es q →
  (∀ p, p ∈ PQ.elements (Sched.pq q) → single_hosts d !! dstHost (es !!! p) = Some t) →
  let d' := d <| single_threads := <[t := td <| single_queue := q |>]> (single_threads d) |> in
  single_ok hs es B d' ∧ single_events d' t = PQ.elements (Sched.pq q) ∧
  (∀ t', t' ≠ t → single_events d' t' = single_events d t') ∧
  (∀ h, single_last d' h = if decide (single_hosts d !! h = Some t) then Sched.lastEventTime q else single_last d h).
Proof.
  intros [HB Hqs Hid Hd Hah] E Hq Hdst d'.
  assert (Hown : single_events d' t = PQ.elements (Sched.pq q)).
  { unfold single_events, d'. cbn. by rewrite lookup_insert_eq. }
  assert (Hoth : ∀ t', t' ≠ t → single_events d' t' = single_events d t').
  { intros t' Hne. unfold single_events, d'. cbn. by rewrite lookup_insert_ne. }
  split_and!; [|done|done|].
  - constructor; [done| | | |]; cbn.
    + intros t' td'. destruct (decide (t = t')) as [<-|Hne]; [rewrite lookup_insert_eq; by intros [= <-]|].
      rewrite lookup_insert_ne by done. apply Hqs.
    + intros h t' Eh. destruct (Hid h t' Eh) as [? Hs]. split; [done|].
      destruct (decide (t = t')) as [<-|Hne]; [rewrite lookup_insert_eq; by eexists|by rewrite lookup_insert_ne].
    + intros t' p. destruct (decide (t' = t)) as [->|Hne]; [rewrite Hown; apply Hdst|rewrite Hoth by done; apply Hd].
    + intros t' td' h. destruct (decide (t = t')) as [<-|Hne].
      * rewrite lookup_insert_eq. intros [= <-]. cbn. by apply (Hah t td).
      * rewrite lookup_insert_ne by done. apply Hah.
  - intros h. unfold single_last, d'. cbn. destruct (single_hosts d !! h) as [t'|]; [|by rewrite decide_False].
    destruct (decide (t' = t)) as [->|Hne]; [by rewrite lookup_insert_eq, decide_True|].
    rewrite lookup_insert_ne by done. rewrite decide_False; [done|congruence].
Qed.

Lemma single_last_range hs es B d h : single_ok hs es B d → 0 ≤ single_last d h ≤ B.
Proof.
  intros [HB Hq _ _ _]. unfold single_last. repeat case_match; try lia.
  by apply (Sched.qo_last _ _ _ _ (Hq _ _ H0)).
Qed.

Lemma single_waiting hs es B d t p :
  single_ok hs es B d → p ∈ single_events d t →
  p ≠ 0 ∧ single_hosts d !! dstHost (es !!! p) = Some t ∧ single_last d (dstHost (es !!! p)) ≤ time (es !!! p).
Proof.
  intros Hok Hin. pose proof (so_dst _ _ _ _ Hok _ _ Hin) as Hd. unfold single_last. rewrite Hd.
  unfold single_events in Hin. destruct (single_threads d !! t) as [td|] eqn:E; [|by apply elem_of_nil in Hin].
  destruct (so_queues _ _ _ _ Hok _ _ E) as [_ _ Hnull _ Hf].
  split_and!; [by intros ->|done|by apply Hf].
Qed.

Lemma single_init main assign hs es :
  good_assignment assign →
  let d := register (threadsingle g_renew) main assign in
  single_ok hs es 0 d ∧ (∀ t, single_events d t = []) ∧ (∀ h, single_last d h = 0) ∧
  (∀ h t, single_hosts d !! h = Some t ↔ assigned assign h t).
Proof.
  revert assign. apply (register_ind (threadsingle g_renew) main (λ assign d,
    single_ok hs es 0 d ∧ (∀ t, single_events d t = []) ∧ (∀ h, single_last d h = 0) ∧
    (∀ h t, single_hosts d !! h = Some t ↔ assigned assign h t))).
  { split_and!; try done; [split; try done; by intros t p ?%elem_of_nil|].
    intros h t. split; [done|]. by intros ?%elem_of_nil. }
  intros assign d h t block (Hok & He & Hl & Ha) Hnew Ht. cbn.
  unfold _schedulerpolicythreadsingle_addHost. rewrite (proj2 (Z.eqb_neq t 0)) by lia. cbn [negb].
  set (td := default _ _).
  assert (Htd : Sched.queue_ok 0 hs es (single_queue td) ∧ PQ.elements (Sched.pq (single_queue td)) = [] ∧
    Sched.lastEventTime (single_queue td) = 0).
  { unfold td. destruct (single_threads d !! t) as [td0|] eqn:E; cbn.
    - pose proof (so_queues _ _ _ _ Hok _ _ E) as Hq. split_and!; [done| |].
      + specialize (He t). unfold single_events in He. by rewrite E in He.
      + pose proof (Sched.qo_last _ _ _ _ Hq). lia.
    - split_and!; [by apply Sched.new_queue_ok|done..]. }
  destruct Htd as (Hq & Hemp & Hlast). pose proof Hok as [HB Hqs Hid Hd Hah].
  assert (Hev : ∀ t', single_events
    (d <| single_threads := <[t := td <| assignedHosts2 := assignedHosts2 td ++ [h] |>]> (single_threads d) |>
       <| single_hosts := <[h := t]> (single_hosts d) |>) t' = []).
  { intros t'. unfold single_events. cbn. destruct (decide (t = t')) as [<-|Hne];
      [by rewrite lookup_insert_eq|rewrite lookup_insert_ne by done; apply He]. }
  split_and!; [|exact Hev| |].
  - constructor; cbn; [done| | |intros t' p; rewrite Hev; by intros ?%elem_of_nil|].
    + intros t' td'. destruct (decide (t = t')) as [<-|Hne]; [rewrite lookup_insert_eq; by intros [= <-]|].
      rewrite lookup_insert_ne by done. apply Hqs.
    + intros h' t'. destruct (decide (h = h')) as [<-|Hne].
      * rewrite lookup_insert_eq. intros [= <-]. split; [done|]. rewrite lookup_insert_eq. by eexists.
      * rewrite lookup_insert_ne by done. intros [? ?]%Hid. split; [done|].
        destruct (decide (t = t')) as [<-|]; [rewrite lookup_insert_eq; by eexists|by rewrite lookup_insert_ne].
    + assert (Hold : ∀ t' td' h', single_threads d !! t' = Some td' → h' ∈ assignedHosts2 td' →
        <[h := t]> (single_hosts d) !! h' = Some t').
      { intros t' td' h' E' Hin. pose proof (Hah t' td' h' E' Hin) as Hold. rewrite lookup_insert_ne; [done|].
        intros <-. apply Hnew. by apply (assigned_host _ _ t'), Ha. }
      intros t' td' h'. destruct (decide (t = t')) as [<-|Hne].
      * rewrite lookup_insert_eq. intros [= <-]. cbn. intros [Hin| ->%list_elem_of_singleton]%elem_of_app; [|apply lookup_insert_eq].
        unfold td in Hin. destruct (single_threads d !! t) as [td1|] eqn:E1; cbn in Hin; [by apply (Hold t td1)|by apply elem_of_nil in Hin].
      * rewrite lookup_insert_ne by done. apply Hold.
  - intros h'. unfold single_last. cbn.
    assert (Hlt : ∀ t', match <[t := td <| assignedHosts2 := assignedHosts2 td ++ [h] |>]> (single_threads d) !! t' with
                        | Some td => Sched.lastEventTime (single_queue td) | None => 0 end = 0).
    { intros t'. destruct (decide (t = t')) as [<-|Hne]; [by rewrite lookup_insert_eq|].
      rewrite lookup_insert_ne by done. destruct (single_threads d !! t') as [td'|] eqn:E; [|done].
      pose proof (Sched.qo_last _ _ _ _ (Hqs _ _ E)). lia. }
    destruct (_ !! h') as [t'|]; [apply Hlt|done].
  - intros h' t'. rewrite assigned_snoc, <-Ha. cbn. destruct (decide (h = h')) as [<-|Hne].
    + rewrite lookup_insert_eq. split; [intros [= <-]; by right|]. intros [Hc|[_ ->]]; [|done].
      exfalso. apply Hnew. by apply (assigned_host _ _ t'), Ha.
    + rewrite lookup_insert_ne by done. split; [by left|]. by intros [?|[-> _]].
Qed.

Lemma single_next_ok hs es B d self :
  single_ok hs es B d → _schedulerpolicythreadsingle_getNextTime es d self = earliest es (single_events d self).
Proof.
  intros Hok. unfold _schedulerpolicythreadsingle_getNextTime, single_events.
  destruct (single_threads d !! self) as [td|] eqn:E; [|done].
  by apply (peek_time_ok B hs); [apply (so_queues _ _ _ _ Hok _ _ E)|].
Qed.

Lemma single_pop_ok hs es B d self :
  single_ok hs es B d →
  ∃ d' r, _schedulerpolicythreadsingle_pop g_renew hs es d self B = Some (d', r) ∧ single_ok hs es B d' ∧
    (∀ h, single_hosts d' !! h = single_hosts d !! h) ∧
    (∀ t, t ≠ self → single_events d' t ≡ₚ single_events d t) ∧
    (∀ h, single_last d h ≤ single_last d' h) ∧
    (∀ h, single_hosts d !! h ≠ Some self → single_last d' h = single_last d h) ∧
    match r with
    | None => single_events d' self ≡ₚ single_events d self ∧ ∀ p, p ∈ single_events d self → B ≤ time (es !!! p)
    | Some p => single_events d self ≡ₚ p :: single_events d' self ∧ time (es !!! p) < B ∧
        single_hosts d !! dstHost (es !!! p) = Some self ∧ single_last d' (dstHost (es !!! p)) = time (es !!! p)
    end.
Proof.
  intros Hok. unfold _schedulerpolicythreadsingle_pop.
  destruct (single_threads d !! self) as [td|] eqn:E.
  2:{ exists d, None. split_and!; try done. intros p. unfold single_events. rewrite E. by intros ?%elem_of_nil. }
  pose proof (so_queues _ _ _ _ Hok _ _ E) as Hq. pose proof (so_barrier _ _ _ _ Hok) as HB.
  destruct (Sched.pop_queue_ok g_renew B hs es (single_queue td)) as (q' & r & -> & Hq' & Hr);
    [unfold SIMTIME_MAX, SIMTIME_INVALID in *; lia|done|]. cbn [mbind option_bind].
  assert (Hev : single_events d self = PQ.elements (Sched.pq (single_queue td))) by (unfold single_events; by rewrite E).
  assert (Hsub : ∀ p, p ∈ PQ.elements (Sched.pq q') → p ∈ single_events d self).
  { intros p Hp. rewrite Hev. destruct r as [ev|]; [destruct Hr as [-> _]; by right|by destruct Hr as [-> _]]. }
  destruct (single_update hs es B d self td q' Hok E Hq') as (Hok' & He' & Ho' & Hl').
  { intros p Hp. apply (so_dst _ _ _ _ Hok), Hsub, Hp. }
  eexists _, r. split; [done|]. split; [done|]. split; [done|].
  split; [intros t Ht; by rewrite Ho'|].
  assert (Hcur : ∀ h, single_hosts d !! h = Some self → single_last d h = Sched.lastEventTime (single_queue td))
    by (intros h Eh; unfold single_last; by rewrite Eh, E).
  assert (Hmono : Sched.lastEventTime (single_queue td) ≤ Sched.lastEventTime q').
  { destruct r as [ev|]; [destruct Hr as (_ & _ & ? & ->); lia|by destruct Hr as [-> _]]. }
  split; [intros h; rewrite Hl'; case_decide as Eh; [by rewrite Hcur|done]|].
  split; [intros h Hh; by rewrite Hl', decide_False|]. rewrite He', Hev. destruct r as [ev|].
  - destruct Hr as (Hp & _ & Ht & Hlq). split; [done|]. split; [lia|].
    assert (single_hosts d !! dstHost (es !!! ev) = Some self) as Hd.
    { apply (so_dst _ _ _ _ Hok). rewrite Hev, Hp. left. }
    split; [done|]. by rewrite Hl', decide_True.
  - destruct Hr as [-> Hall]. by split.
Qed.

Lemma single_push_ok hs es B Bp d event src self t :
  single_ok hs es B d → single_hosts d !! src = Some self → B ≤ Bp → event ≠ 0 →
  (∀ t, event ∉ single_events d t) → is_Some (es !! event) →
  single_hosts d !! dstHost (es !!! event) = Some t → single_last d src ≤ time (es !!! event) →
  ∃ e' d', _schedulerpolicythreadsingle_push g_renew hs es d event src (dstHost (es !!! event)) Bp =
      Some (<[event := e']> es, d') ∧ push_time Bp src (dstHost (es !!! event)) self t (es !!! event) e' ∧
    single_ok hs (<[event := e']> es) B d' ∧ single_events d' t ≡ₚ event :: single_events d t ∧
    (∀ t', t' ≠ t → single_events d' t' ≡ₚ single_events d t') ∧ (∀ h, single_last d' h = single_last d h) ∧
    (∀ h, single_hosts d' !! h = single_hosts d !! h).
Proof.
  intros Hok Hsrc HBp H0 Hfresh Hes Hdst Hlast. unfold _schedulerpolicythreadsingle_push.
  set (e := es !!! event) in *. rewrite (single_thread_id _ _ _ _ _ _ Hok Hsrc), (single_thread_id _ _ _ _ _ _ Hok Hdst).
  rewrite delay_event_spec by done. fold e. set (e' := if decide (t = self) then e else _).
  assert (Hpt : push_time Bp src (dstHost e) self t e e').
  { unfold push_time, e'. split_and!; [case_decide; auto|intros; rewrite decide_False by done; cbn; lia|].
    intros Heq. rewrite decide_True; [done|]. rewrite <-Heq in Hdst. congruence. }
  assert (Hdst' : dstHost e' = dstHost e) by (by unfold e'; case_decide).
  destruct (so_ids _ _ _ _ Hok _ _ Hdst) as [Ht [td E]].
  assert (Hok1 : single_ok hs (<[event := e']> es) B d).
  { eapply single_ok_memory; [done|by intros h|]. intros t' p Hin. rewrite lookup_total_insert_ne; [done|].
    intros ->. by apply (Hfresh t'). }
  rewrite E. cbn [mbind option_bind].
  assert (Hev : single_events d t = PQ.elements (Sched.pq (single_queue td))) by (unfold single_events; by rewrite E).
  pose proof (so_queues _ _ _ _ Hok1 _ _ E) as Hq.
  destruct (push_queue_ok g_renew B hs (<[event := e']> es) (single_queue td) event Hq H0) as (q' & -> & Hq' & Hl' & He').
  { rewrite <-Hev. apply Hfresh. }
  { rewrite lookup_total_insert_eq. destruct (decide (t = self)) as [->|Hne].
    - change (Sched.lastEventTime (single_queue td) ≤ time e). unfold single_last in Hlast. by rewrite Hsrc, E in Hlast.
    - pose proof (Sched.qo_last _ _ _ _ Hq). destruct Hpt as (_ & Hx & _). specialize (Hx Hne). lia. }
  cbn [mbind option_bind].
  destruct (single_update hs (<[event := e']> es) B d t td q' Hok1 E Hq') as (Hok' & Hev' & Ho' & Hla').
  { intros p. rewrite He'. intros [->|Hp]%elem_of_cons; [by rewrite lookup_total_insert_eq, Hdst'|].
    apply (so_dst _ _ _ _ Hok1). by rewrite Hev. }
  eexists e', _. split; [done|]. split; [done|]. split; [done|]. split_and!; [by rewrite Hev', He', Hev| | |done].
  - intros t' Ht'. by rewrite Ho'.
  - intros h. rewrite Hla'. case_decide as Eh; [|done]. unfold single_last. by rewrite Eh, E, Hl'.
Qed.

End Single.

#[export] Instance threadsingle_round : RoundPolicy (threadsingle g_renew).
Proof.
  refine {| waiting := single_events; owner d h := single_hosts d !! h; last := single_last;
            may B d self h := single_hosts d !! h = Some self; ok := single_ok |}.
  - intros. by eapply single_waiting.
  - intros hs es B d t Hok. unfold single_events. destruct (single_threads d !! t) as [td|] eqn:E; [|constructor].
    apply PQ.wf_NoDup, (Sched.qo_wf _ _ _ _ (so_queues _ _ _ _ Hok _ _ E)).
  - intros. by eapply single_last_range.
  - done.
  - intros hs es B d self l h Hok Hl Hin. cbn in Hl. unfold _schedulerpolicythreadsingle_getHosts in Hl.
    apply fmap_Some in Hl as (td & E & ->). by apply (so_assigned _ _ _ _ Hok self td).
  - intros. by eapply single_ok_memory.
  - intros hs es B B' d [HB Hq Hid Hd Hah] ?. constructor; [lia| |done..].
    intros t td E. apply (Sched.queue_ok_later B); [lia|by apply (Hq t)].
  - intros main assign hs es Ha. destruct (single_init main assign hs es Ha) as (? & ? & ? & Hown).
    split_and!; try done. intros h t. by apply Hown.
  - intros hs es B Bp d block event src self t Hok Hm HB H0 Hf Hes Hd Hl.
    destruct (single_push_ok hs es B Bp d event src self t Hok Hm HB H0 Hf Hes Hd Hl)
      as (e' & d' & E & ? & ? & ? & ? & ? & Hown). exists e', d'. split; [exact E|]. split_and!; try done.
    intros s h Hs. by rewrite Hown.
  - intros hs es B d self Hok. destruct (single_pop_ok hs es B d self Hok)
      as (d' & r & E & ? & Hown & ? & ? & ? & Hr). exists d', r. split; [exact E|]. split_and!; try done.
    + intros t h _ Hs. by rewrite Hown.
    + destruct r; [|done]. by rewrite Hown.
  - intros hs es B d self Hok. exists d. cbn. rewrite (single_next_ok hs es B) by done. by split_and!.
Defined.

(** ** One queue for each host *)

Section HostSingle.
Import Sched.
Implicit Types d : HostSinglePolicyData.

Definition with_mem (d : HostSinglePolicyData) (hs : hosts) (es : events) : HostSinglePolicyData :=
  d <| hosts_mem := hs |> <| events_mem := es |>.

(** The policy of SchedulerHostSingle.v behind the common interface; the
    cached list of [getAssignedHosts] is not kept. *)
Definition hostsingle : SchedulerPolicy HostSinglePolicyData := {|
  new := schedulerpolicyhostsingle_new ∅ ∅;
  addHost := _schedulerpolicyhostsingle_addHost;
  getAssignedHosts d self := (_schedulerpolicyhostsingle_getHosts d self).2;
  push hs es d block event src dst barrier self :=
    d ← _schedulerpolicyhostsingle_push g_renew (with_mem d hs es) event src dst barrier;
    Some (events_mem d, d);
  pop hs es d self barrier := _schedulerpolicyhostsingle_pop g_renew (with_mem d hs es) self barrier;
  getNextTime hs es d self :=
    t ← _schedulerpolicyhostsingle_getNextTime (with_mem d hs es) self; Some (d, t);
|}.

Definition host_events (d : HostSinglePolicyData) (h : Z) : list Z :=
  match hostToQueueDataMap d !! h with Some q => PQ.elements (pq q) | None => [] end.

Definition host_last (d : HostSinglePolicyData) (h : Z) : Z :=
  match hostToQueueDataMap d !! h with Some q => lastEventTime q | None => 0 end.

Definition thread_hosts (td : HostSingleThreadData) : list Z := unprocessedHosts td ++ processedHosts td.

Definition host_waiting (d : HostSinglePolicyData) (t : Z) : list Z :=
  match threadToThreadDataMap d !! t with Some td => thread_hosts td ≫= host_events d | None => [] end.

(** Hosts the thread is done with have no event left in the round. *)
Record hostsingle_ok (hs : hosts) (es : events) (B : Z) (d : HostSinglePolicyData) : Prop := mkHostOk {
  ho_inv : inv (B, with_mem d hs es);
  ho_owner : ∀ h t, hostToThreadMap d !! h = Some t ↔
    ∃ td, threadToThreadDataMap d !! t = Some td ∧ h ∈ thread_hosts td;
  ho_nodup : ∀ t td, threadToThreadDataMap d !! t = Some td → NoDup (thread_hosts td);
  ho_dst : ∀ h p, p ∈ host_events d h → dstHost (es !!! p) = h;
  ho_queues : ∀ h, is_Some (hostToQueueDataMap d !! h) → is_Some (hostToThreadMap d !! h);
  ho_barrier : ∀ t td, threadToThreadDataMap d !! t = Some td → currentBarrier td ≤ B ∧
    (currentBarrier td = B → ∀ h, h ∈ processedHosts td → idle B (with_mem d hs es) h);
}.

Definition host_may (B : Z) (d : HostSinglePolicyData) (self h : Z) : Prop :=
  ∃ td, threadToThreadDataMap d !! self = Some td ∧ currentBarrier td = B ∧ h ∈ unprocessedHosts td.

(** Queues of different hosts, seen through the list of a thread. *)
Lemma bind_same (f f' : Z → list Z) l h :
  h ∉ l → (∀ h', h' ≠ h → f' h' = f h') → l ≫= f' = l ≫= f.
Proof.
  intros Hn Hs. induction l as [|x l IH]; [done|]. apply not_elem_of_cons in Hn as [Hx Hn]. cbn.
  rewrite Hs by done. f_equal. by apply IH.
Qed.

Lemma bind_change (f f' : Z → list Z) l h :
  NoDup l → h ∈ l → (∀ h', h' ≠ h → f' h' = f h') →
  ∃ rest, l ≫= f ≡ₚ f h ++ rest ∧ l ≫= f' ≡ₚ f' h ++ rest.
Proof.
  intros Hnd Hin Hs. apply elem_of_Permutation in Hin as [k Hp]. exists (k ≫= f).
  rewrite Hp in Hnd. apply NoDup_cons in Hnd as [Hn _]. split; [by rewrite Hp|]. rewrite Hp. cbn. f_equiv.
  by rewrite (bind_same f f' k h Hn Hs).
Qed.

Lemma host_waiting_elem d t p :
  p ∈ host_waiting d t ↔ ∃ td h, threadToThreadDataMap d !! t = Some td ∧ h ∈ thread_hosts td ∧ p ∈ host_events d h.
Proof.
  unfold host_waiting. destruct (threadToThreadDataMap d !! t) as [td|].
  - rewrite list_elem_of_bind. split; [intros (h & ? & ?); by exists td, h|]. by intros (? & h & [= <-] & ? & ?); exists h.
  - split; [by intros ?%elem_of_nil|by intros (? & ? & ? & _)].
Qed.

Lemma hostsingle_queue hs es B d h q :
  hostsingle_ok hs es B d → hostToQueueDataMap d !! h = Some q → queue_ok B hs es q.
Proof. intros [(_ & Hq & _) _ _ _ _ _] E. by apply (Hq h). Qed.

Lemma hostsingle_last_range hs es B d h : hostsingle_ok hs es B d → 0 ≤ host_last d h ≤ B.
Proof.
  intros Hok. unfold host_last. destruct (hostToQueueDataMap d !! h) as [q|] eqn:E.
  - apply (qo_last _ _ _ _ (hostsingle_queue _ _ _ _ _ _ Hok E)).
  - destruct Hok as [(HB & _) _ _ _ _ _]. cbn in HB. lia.
Qed.

Lemma hostsingle_waiting hs es B d t p :
  hostsingle_ok hs es B d → p ∈ host_waiting d t →
  p ≠ 0 ∧ hostToThreadMap d !! dstHost (es !!! p) = Some t ∧ host_last d (dstHost (es !!! p)) ≤ time (es !!! p).
Proof.
  intros Hok (td & h & E & Hh & Hp)%host_waiting_elem. rewrite (ho_dst _ _ _ _ Hok _ _ Hp).
  unfold host_last. unfold host_events in Hp. destruct (hostToQueueDataMap d !! h) as [q|] eqn:Eq; [|by apply elem_of_nil in Hp].
  destruct (hostsingle_queue _ _ _ _ _ _ Hok Eq) as [_ _ Hnull _ Hf].
  split_and!; [by intros ->| |by apply Hf]. apply (ho_owner _ _ _ _ Hok). by exists td.
Qed.

Lemma hostsingle_nodup hs es B d t : hostsingle_ok hs es B d → NoDup (host_waiting d t).
Proof.
  intros Hok. unfold host_waiting. destruct (threadToThreadDataMap d !! t) as [td|] eqn:E; [|constructor].
  apply NoDup_bind.
  - intros h1 h2 p _ _ H1 H2. by rewrite <-(ho_dst _ _ _ _ Hok _ _ H1), <-(ho_dst _ _ _ _ Hok _ _ H2).
  - intros h _. unfold host_events. destruct (hostToQueueDataMap d !! h) as [q|] eqn:Eq; [|constructor].
    apply PQ.wf_NoDup, (qo_wf _ _ _ _ (hostsingle_queue _ _ _ _ _ _ Hok Eq)).
  - by apply (ho_nodup _ _ _ _ Hok t).
Qed.

Lemma hostsingle_memory hs hs' es es' B d :
  hostsingle_ok hs es B d → same_params hs hs' → (∀ h p, p ∈ host_events d h → es' !!! p = es !!! p) →
  hostsingle_ok hs' es' B d.
Proof.
  intros [(HB & Hq & Ht) Ho Hn Hd Hqh Hb] Hp Hs. constructor; [|done|done| |done|].
  - split; [done|split; [|done]]. intros h q E. cbn in E. eapply queue_ok_memory; [exact Hp| |by apply (Hq h)].
    intros p Hin. apply (Hs h). unfold host_events. by rewrite E.
  - intros h p Hin. rewrite (Hs h p Hin). by apply Hd.
  - intros t td E. destruct (Hb t td E) as [? Hi]. split; [done|]. intros Hc h Hh.
    destruct (Hi Hc h Hh) as (q & Eq & Hall). exists q. split; [done|]. intros p Hp'. cbn in Eq |- *.
    rewrite (Hs h p) by (unfold host_events; by rewrite Eq). by apply Hall.
Qed.

Lemma hostsingle_later hs es B B' d :
  hostsingle_ok hs es B d → B < B' ≤ SIMTIME_MAX → hostsingle_ok hs es B' d.
Proof.
  intros [(HB & Hq & Ht) Ho Hn Hd Hqh Hb] HB'. cbn in HB. constructor; try done.
  - split; [cbn; lia|split; [|done]]. intros h q E. apply (queue_ok_later B); [cbn; lia|by apply (Hq h)].
  - intros t td E. destruct (Hb t td E) as [? _]. split; lia.
Qed.

(** The next time of a thread. *)
Lemma hostsingle_next hs es B d self :
  hostsingle_ok hs es B d →
  _schedulerpolicyhostsingle_getNextTime (with_mem d hs es) self = Some (earliest es (host_waiting d self)).
Proof.
  intros Hok. destruct (threadToThreadDataMap d !! self) as [td|] eqn:E.
  2:{ unfold _schedulerpolicyhostsingle_getNextTime, host_waiting. cbn. by rewrite E. }
  destruct (getNextTime_ok B (with_mem d hs es) self td (ho_inv _ _ _ _ Hok) E) as (t & -> & Hmin & Hle & Hex).
  f_equal. destruct (earliest_spec es (host_waiting d self)) as (H1 & H2 & H3).
  assert (Hiff : ∀ t, thread_times (with_mem d hs es) td t ↔ ∃ p, p ∈ host_waiting d self ∧ t = time (es !!! p)).
  { intros t'. split.
    - intros (h & q & p & Hh & Eq & Hp & ->). exists p. split; [|done]. apply host_waiting_elem. exists td, h.
      split_and!; [done..|]. unfold host_events. cbn in Eq. by rewrite Eq.
    - intros (p & (td' & h & E' & Hh & Hp)%host_waiting_elem & ->). simplify_eq. unfold host_events in Hp.
      destruct (hostToQueueDataMap d !! h) as [q|] eqn:Eq; [|by apply elem_of_nil in Hp]. by exists h, q, p. }
  apply Z.le_antisymm.
  - destruct H3 as [->|(p & Hp & ->)]; [done|]. apply Hmin, Hiff. by exists p.
  - destruct Hex as [->|(p & Hp & ->)%Hiff]; [done|]. by apply H1.
Qed.

(** A host's queue is replaced by a good one. *)
Lemma host_events_insert d h q h' :
  host_events (d <| hostToQueueDataMap := <[h := q]> (hostToQueueDataMap d) |>) h' =
  if decide (h = h') then PQ.elements (pq q) else host_events d h'.
Proof.
  unfold host_events. cbn. case_decide as E; [subst; by rewrite lookup_insert_eq|by rewrite lookup_insert_ne].
Qed.

Lemma host_last_insert d h q h' :
  host_last (d <| hostToQueueDataMap := <[h := q]> (hostToQueueDataMap d) |>) h' =
  if decide (h = h') then lastEventTime q else host_last d h'.
Proof.
  unfold host_last. cbn. case_decide as E; [subst; by rewrite lookup_insert_eq|by rewrite lookup_insert_ne].
Qed.

(** What a pop does to the tables. *)
Lemma hostsingle_pop_tables hs es B d self td :
  hostsingle_ok hs es B d → threadToThreadDataMap d !! self = Some td →
  ∃ td' r queues, let d' := mkPolicy hs es queues (<[self := td']> (threadToThreadDataMap d)) (hostToThreadMap d) in
    _schedulerpolicyhostsingle_pop g_renew (with_mem d hs es) self B = Some (d', r) ∧
    thread_hosts td' ≡ₚ thread_hosts td ∧ currentBarrier td' = B ∧
    (∀ h, h ∈ processedHosts td' → idle B (with_mem d hs es) h) ∧
    match r with
    | None => queues = hostToQueueDataMap d ∧ unprocessedHosts td' = []
    | Some ev => ∃ h q q', h ∈ unprocessedHosts td' ∧ hostToQueueDataMap d !! h = Some q ∧
        queues = <[h := q']> (hostToQueueDataMap d) ∧ queue_ok B hs es q' ∧ popped B hs es q q' ev
    end.
Proof.
  intros Hok E. pose proof Hok as [(HB & Hqs & Hts) _ _ _ _ Hb]. destruct (Hb self td E) as [Hcb Hidle].
  unfold _schedulerpolicyhostsingle_pop. cbn [threadToThreadDataMap with_mem set_field].
  rewrite E. pose proof (enter_barrier_perm td B) as Hperm. set (tb := enter_barrier td B) in *.
  assert (Htb : currentBarrier tb = B ∧ ∀ h, h ∈ processedHosts tb → idle B (with_mem d hs es) h).
  { unfold tb, enter_barrier. destruct (Z.ltb_spec (currentBarrier td) B).
    - destruct (unprocessedHosts td) as [|x xs] eqn:E1, (processedHosts td) as [|y ys] eqn:E2; cbn;
        rewrite ?E1, ?E2; cbn; (split; [done|]); by intros h ?%elem_of_nil.
    - assert (currentBarrier td = B) by lia. split; [done|auto]. }
  destruct Htb as [Htb Hproc]. clearbody tb.
  destruct (pop_loop_ok g_renew B (with_mem d hs es) (unprocessedHosts tb) (processedHosts tb))
    as (d1 & skipped & u & r & Hloop & Hu & Hsk & Hr); [cbn in HB; unfold SIMTIME_MAX, SIMTIME_INVALID in *; lia|done| |].
  { intros h Hh. apply (Hts self td h E). rewrite <-Hperm. apply elem_of_app. by left. }
  rewrite Hloop. cbn [mbind option_bind].
  exists (tb <| unprocessedHosts := u |> <| processedHosts := processedHosts tb ++ skipped |>), r, (hostToQueueDataMap d1).
  assert (Hd1 : d1 = mkPolicy hs es (hostToQueueDataMap d1) (threadToThreadDataMap d) (hostToThreadMap d)).
  { destruct r as [ev|]; [destruct Hr as (h & rest & q & q' & _ & _ & -> & _)|destruct Hr as [_ ->]]; done. }
  split; [rewrite Hd1; done|]. split_and!.
  - unfold thread_hosts. cbn. rewrite <-Hperm, Hu, (Permutation_app_comm (processedHosts tb)), !app_assoc.
    by rewrite (Permutation_app_comm u).
  - done.
  - intros h [?|?]%elem_of_app; auto.
  - destruct r as [ev|].
    + destruct Hr as (h & rest & q & q' & -> & Eq & -> & Hq' & Hp). exists h, q, q'. split_and!; try done. left.
    + by destruct Hr as [-> ->].
Qed.

(** The thread's table entry and one queue are replaced. *)
Lemma hostsingle_rebuild hs es B d self td td' queues :
  hostsingle_ok hs es B d → threadToThreadDataMap d !! self = Some td →
  thread_hosts td' ≡ₚ thread_hosts td → currentBarrier td' = B →
  queues_ok B (with_mem (d <| hostToQueueDataMap := queues |>) hs es) →
  (∀ h, is_Some (hostToQueueDataMap d !! h) ↔ is_Some (queues !! h)) →
  (∀ h p, p ∈ host_events (d <| hostToQueueDataMap := queues |>) h → p ∈ host_events d h) →
  (∀ h, h ∈ processedHosts td' → idle B (with_mem d hs es) h) →
  hostsingle_ok hs es B (mkPolicy hs es queues (<[self := td']> (threadToThreadDataMap d)) (hostToThreadMap d)).
Proof.
  intros [(HB & Hqs & Hts) Ho Hn Hd Hqh Hb] E Hp Hcb Hq Hsome Hsub Hproc.
  assert (Hlk : ∀ t td0, <[self := td']> (threadToThreadDataMap d) !! t = Some td0 →
    ∃ td1, threadToThreadDataMap d !! t = Some td1 ∧ thread_hosts td0 ≡ₚ thread_hosts td1).
  { intros t td0. destruct (decide (self = t)) as [<-|Hne];
      [rewrite lookup_insert_eq; intros [= <-]; by exists td|rewrite lookup_insert_ne by done; intros; by exists td0]. }
  assert (Hidle : ∀ h, idle B (with_mem d hs es) h →
    idle B (mkPolicy hs es queues (<[self := td']> (threadToThreadDataMap d)) (hostToThreadMap d)) h).
  { intros h (q & Eq & Hall). cbn in Eq. destruct (proj1 (Hsome h) ltac:(by eexists)) as [q' Eq']. exists q'. split; [done|].
    intros p Hin. cbn. pose proof (Hsub h p) as Hs. unfold host_events in Hs. cbn in Hs. rewrite Eq, Eq' in Hs.
    by apply Hall, Hs. }
  constructor.
  - split; [done|split; [exact Hq|]]. intros t td0 h E0 Hh. cbn in E0.
    destruct (Hlk t td0 E0) as (td1 & E1 & Hp1). change (h ∈ thread_hosts td0) in Hh. rewrite Hp1 in Hh.
    apply Hsome. by apply (Hts t td1).
  - intros h t. cbn. rewrite Ho. split.
    + intros (td1 & E1 & Hh). destruct (decide (self = t)) as [<-|Hne].
      * rewrite lookup_insert_eq. exists td'. split; [done|]. rewrite Hp. by simplify_eq.
      * rewrite lookup_insert_ne by done. by exists td1.
    + intros (td0 & E0 & Hh). destruct (Hlk t td0 E0) as (td1 & E1 & Hp1). exists td1. by rewrite Hp1 in Hh.
  - intros t td0 E0. cbn in E0. destruct (Hlk t td0 E0) as (td1 & E1 & ->). by apply (Hn t).
  - intros h p Hin. cbn. apply Hd. by apply Hsub.
  - intros h Hh. by apply Hqh, Hsome.
  - intros t td0 E0. cbn in E0. destruct (decide (self = t)) as [<-|Hne].
    + rewrite lookup_insert_eq in E0. simplify_eq. split; [lia|]. intros _ h Hh. by apply Hidle, Hproc.
    + rewrite lookup_insert_ne in E0 by done. destruct (Hb t td0 E0) as [? Hi]. split; [done|].
      intros Hc h Hh. by apply Hidle, Hi.
Qed.

Lemma hostsingle_pop hs es B d self :
  hostsingle_ok hs es B d →
  ∃ d' r, _schedulerpolicyhostsingle_pop g_renew (with_mem d hs es) self B = Some (d', r) ∧ hostsingle_ok hs es B d' ∧
    (∀ h, hostToThreadMap d' !! h = hostToThreadMap d !! h) ∧
    (∀ t, t ≠ self → host_waiting d' t ≡ₚ host_waiting d t) ∧
    (∀ t h, t ≠ self → host_may B d t h → host_may B d' t h) ∧
    (∀ h, host_last d h ≤ host_last d' h) ∧
    (∀ h, hostToThreadMap d !! h ≠ Some self → host_last d' h = host_last d h) ∧
    match r with
    | None => host_waiting d' self ≡ₚ host_waiting d self ∧ ∀ p, p ∈ host_waiting d self → B ≤ time (es !!! p)
    | Some p => host_waiting d self ≡ₚ p :: host_waiting d' self ∧ time (es !!! p) < B ∧
        host_may B d' self (dstHost (es !!! p)) ∧ host_last d' (dstHost (es !!! p)) = time (es !!! p)
    end.
Proof.
  intros Hok. destruct (threadToThreadDataMap d !! self) as [td|] eqn:E.
  2:{ assert (Hnil : host_waiting d self = []) by (unfold host_waiting; by rewrite E).
      exists (with_mem d hs es), None. unfold _schedulerpolicyhostsingle_pop. cbn. rewrite E.
      split; [done|]. split; [by destruct Hok; constructor|]. split_and!; try done.
      rewrite Hnil. by intros p ?%elem_of_nil. }
  destruct (hostsingle_pop_tables hs es B d self td Hok E) as (td' & r & queues & Epop & Hp & Hcb & Hproc & Hr).
  set (d' := mkPolicy _ _ _ _ _) in Epop. exists d', r. split; [exact Epop|].
  pose proof Hok as [(HB & Hqs & Hts) Ho Hn Hd Hqh Hb].
  assert (Hself : host_waiting d' self = thread_hosts td' ≫= host_events d').
  { unfold host_waiting, d'. cbn. by rewrite lookup_insert_eq. }
  assert (Hself0 : host_waiting d self = thread_hosts td ≫= host_events d) by (unfold host_waiting; by rewrite E).
  assert (Hmay : ∀ t h, t ≠ self → host_may B d t h → host_may B d' t h).
  { intros t h Hne (td0 & E0 & ?). exists td0. unfold d'. cbn. by rewrite lookup_insert_ne. }
  destruct r as [ev|].
  - destruct Hr as (h & q & q' & Hh & Eq & -> & Hq' & (Hperm & Hleast & Ht & Hlq)).
    assert (Hhost : dstHost (es !!! ev) = h).
    { apply Hd. unfold host_events. rewrite Eq, Hperm. left. }
    assert (Hev : ∀ h', host_events d' h' = if decide (h = h') then PQ.elements (pq q') else host_events d h')
      by (intros h'; apply (host_events_insert d h q' h')).
    assert (Hla : ∀ h', host_last d' h' = if decide (h = h') then lastEventTime q' else host_last d h')
      by (intros h'; apply (host_last_insert d h q' h')).
    assert (Hin : h ∈ thread_hosts td) by (rewrite <-Hp; apply elem_of_app; by left).
    assert (Hok' : hostsingle_ok hs es B d').
    { apply (hostsingle_rebuild hs es B d self td td'); try done.
      - by apply (insert_queues_ok B (with_mem d hs es) h q').
      - intros h'. destruct (decide (h = h')) as [<-|]; [rewrite lookup_insert_eq, Eq|by rewrite lookup_insert_ne].
        split; by eexists.
      - intros h' p. rewrite (host_events_insert d h q' h'). case_decide as Eh; [|done]. subst h'. intros Hin'.
        unfold host_events. rewrite Eq, Hperm. by right. }
    split; [done|]. split; [done|]. split; [|split; [done|]].
    { intros t Hne. unfold host_waiting, d' at 1. cbn. rewrite lookup_insert_ne by done.
      destruct (threadToThreadDataMap d !! t) as [td0|] eqn:E0; [|done].
      rewrite (bind_same (host_events d) (host_events d') (thread_hosts td0) h); [done| |].
      - intros Hin0. assert (hostToThreadMap d !! h = Some t) by (apply Ho; by exists td0).
        assert (hostToThreadMap d !! h = Some self) by (apply Ho; by exists td). congruence.
      - intros h' Hne'. by rewrite Hev, decide_False. }
    split; [intros h'; rewrite Hla; case_decide as Eh; [subst h'|done]|].
    { unfold host_last. rewrite Eq. lia. }
    split; [intros h' Hh'; rewrite Hla, decide_False; [done|]|].
    { intros <-. apply Hh', Ho. by exists td. }
    rewrite Hhost, Hself, Hself0. split.
    { destruct (bind_change (host_events d) (host_events d') (thread_hosts td) h) as (rest & H1 & H2);
        [by apply (Hn self)|done|intros h' Hne'; by rewrite Hev, decide_False|].
      rewrite H1, Hp, H2, Hev, decide_True by done. unfold host_events. rewrite Eq, Hperm. done. }
    split; [lia|]. split; [|by rewrite Hla, decide_True].
    exists td'. unfold d'. cbn. by rewrite lookup_insert_eq.
  - destruct Hr as [-> Hu].
    assert (Hok' : hostsingle_ok hs es B d') by (by apply (hostsingle_rebuild hs es B d self td td')).
    assert (Hw : ∀ t, host_waiting d' t ≡ₚ host_waiting d t).
    { intros t. destruct (decide (t = self)) as [->|Hne]; [by rewrite Hself, Hself0, Hp|].
      unfold host_waiting, d' at 1. cbn. rewrite lookup_insert_ne by done. done. }
    split; [done|]. split; [done|]. split; [by intros t _|]. split; [done|]. split; [done|]. split; [done|].
    split; [apply Hw|]. intros p (td0 & h & E0 & Hh & Hpe)%host_waiting_elem. simplify_eq.
    rewrite <-Hp in Hh. unfold thread_hosts in Hh. rewrite Hu in Hh. destruct (Hproc h Hh) as (q & Eq & Hall).
    cbn in Eq. unfold host_events in Hpe. rewrite Eq in Hpe. by apply Hall.
Qed.

(** An event that waits nowhere is in no queue. *)
Lemma hostsingle_fresh hs es B d event h :
  hostsingle_ok hs es B d → (∀ t, event ∉ host_waiting d t) → event ∉ host_events d h.
Proof.
  intros Hok Hf Hin. destruct (hostToQueueDataMap d !! h) as [q|] eqn:Eq.
  - destruct (ho_queues _ _ _ _ Hok h) as [t Et]; [by eexists|].
    destruct (proj1 (ho_owner _ _ _ _ Hok h t) Et) as (td & E & Hh). apply (Hf t), host_waiting_elem. by exists td, h.
  - unfold host_events in Hin. rewrite Eq in Hin. by apply elem_of_nil in Hin.
Qed.

(** An event joins the queue of its host. *)
Lemma hostsingle_enqueue hs es B d event h t q q' :
  hostsingle_ok hs es B d → hostToQueueDataMap d !! h = Some q → hostToThreadMap d !! h = Some t →
  dstHost (es !!! event) = h → queue_ok B hs es q' → PQ.elements (pq q') ≡ₚ event :: PQ.elements (pq q) →
  lastEventTime q' = lastEventTime q →
  (B ≤ time (es !!! event) ∨ ∃ self, host_may B d self h) →
  let d' := (with_mem d hs es) <| hostToQueueDataMap := <[h := q']> (hostToQueueDataMap d) |> in
  hostsingle_ok hs es B d' ∧ host_waiting d' t ≡ₚ event :: host_waiting d t ∧
  (∀ t', t' ≠ t → host_waiting d' t' ≡ₚ host_waiting d t') ∧ (∀ h', host_last d' h' = host_last d h').
Proof.
  intros Hok Eq Et Hdst Hq' Hperm Hlq Htime d'.
  assert (Hev : ∀ h', host_events d' h' = if decide (h = h') then PQ.elements (pq q') else host_events d h')
    by (intros h'; apply (host_events_insert d h q' h')).
  pose proof Hok as [(HB & Hqs & Hts) Ho Hn Hd Hqh Hb].
  destruct (proj1 (Ho h t) Et) as (td & E & Hh). split_and!.
  - constructor; try done.
    + split; [done|split; [by apply (insert_queues_ok B (with_mem d hs es) h q')|by apply (insert_threads_ok (with_mem d hs es))]].
    + intros h' p. rewrite Hev. case_decide as Eh; [subst h'|apply Hd].
      rewrite Hperm. intros [->|Hp]%elem_of_cons; [done|]. apply Hd. unfold host_events. by rewrite Eq.
    + intros h'. cbn. destruct (decide (h = h')) as [<-|Hne]; [intros _; by eexists|].
      rewrite lookup_insert_ne by done. apply Hqh.
    + intros t' td' E'. change (threadToThreadDataMap d !! t' = Some td') in E'.
      destruct (Hb t' td' E') as [? Hi]. split; [done|]. intros Hc h' Hh'.
      destruct (Hi Hc h' Hh') as (q0 & Eq0 & Hall). cbn in Eq0. destruct (decide (h = h')) as [<-|Hne].
      * exists q'. split; [apply lookup_insert_eq|]. simplify_eq. intros p. rewrite Hperm.
        intros [->|Hp]%elem_of_cons; [|by apply Hall]. destruct Htime as [?|(self & td2 & E2 & Hc2 & Hu)]; [done|exfalso].
        assert (t' = t) as ->.
        { assert (hostToThreadMap d !! dstHost (es !!! event) = Some t'); [|congruence].
          apply Ho. exists td'. split; [done|]. apply elem_of_app. by right. }
        assert (self = t) as ->.
        { assert (hostToThreadMap d !! dstHost (es !!! event) = Some self); [|congruence].
          apply Ho. exists td2. split; [done|]. apply elem_of_app. by left. }
        pose proof (Hn t _ E') as Hnd. apply NoDup_app in Hnd as (_ & Hx & _).
        eapply Hx; [|exact Hh']. congruence.
      * exists q0. split; [|done]. cbn. by rewrite lookup_insert_ne.
  - unfold host_waiting, d' at 1. cbn. rewrite E.
    destruct (bind_change (host_events d) (host_events d') (thread_hosts td) h) as (rest & H1 & H2);
      [by apply (Hn t)|done|intros h' Hne; by rewrite Hev, decide_False|].
    rewrite H1, H2, Hev, decide_True, Hperm by done. unfold host_events. by rewrite Eq.
  - intros t' Hne. unfold host_waiting, d' at 1. cbn. destruct (threadToThreadDataMap d !! t') as [td'|] eqn:E'; [|done].
    rewrite (bind_same (host_events d) (host_events d') (thread_hosts td') h); [done| |].
    + intros Hin. assert (hostToThreadMap d !! h = Some t') by (apply Ho; by exists td'). congruence.
    + intros h' Hne'. by rewrite Hev, decide_False.
  - intros h'. etrans; [apply (host_last_insert (with_mem d hs es) h q' h')|]. case_decide as Eh; [subst h'|done].
    unfold host_last. by rewrite Eq.
Qed.

Lemma hostsingle_push hs es B Bp d event src self t :
  hostsingle_ok hs es B d → host_may B d self src → B ≤ Bp → event ≠ 0 →
  (∀ t, event ∉ host_waiting d t) → is_Some (es !! event) →
  hostToThreadMap d !! dstHost (es !!! event) = Some t → host_last d src ≤ time (es !!! event) →
  ∃ e' d', _schedulerpolicyhostsingle_push g_renew (with_mem d hs es) event src (dstHost (es !!! event)) Bp = Some d' ∧
    events_mem d' = <[event := e']> es ∧ push_time Bp src (dstHost (es !!! event)) self t (es !!! event) e' ∧
    hostsingle_ok hs (<[event := e']> es) B d' ∧ host_waiting d' t ≡ₚ event :: host_waiting d t ∧
    (∀ t', t' ≠ t → host_waiting d' t' ≡ₚ host_waiting d t') ∧ (∀ h, host_last d' h = host_last d h) ∧
    hostToThreadMap d' = hostToThreadMap d ∧ threadToThreadDataMap d' = threadToThreadDataMap d.
Proof.
  intros Hok Hmay HBp H0 Hfresh [e Ee] Hdst Hlast.
  assert (Hself : hostToThreadMap d !! src = Some self).
  { destruct Hmay as (td & E & _ & Hu). apply (ho_owner _ _ _ _ Hok). exists td. split; [done|]. apply elem_of_app. by left. }
  rewrite (lookup_total_correct _ _ _ Ee) in *. set (dst := dstHost e) in *.
  set (e' := if negb (src =? dst) && (time e <? Bp) then event_setTime e Bp else e).
  assert (Hpt : push_time Bp src dst self t e e').
  { unfold push_time, e', event_setTime. destruct (Z.eqb_spec src dst), (Z.ltb_spec (time e) Bp); cbn; split_and!;
      auto; try congruence; try lia. right. by rewrite Z.max_l by lia. }
  assert (Hdst' : dstHost e' = dst) by (by unfold e'; case_match).
  set (es' := <[event := e']> es).
  assert (Hok1 : hostsingle_ok hs es' B d).
  { eapply hostsingle_memory; [done|by intros h|]. intros h p Hin. unfold es'. rewrite lookup_total_insert_ne; [done|].
    intros ->. by apply (hostsingle_fresh _ _ _ _ _ h Hok Hfresh). }
  destruct (proj1 (ho_owner _ _ _ _ Hok dst t) Hdst) as (td & E & Hh).
  destruct (ho_inv _ _ _ _ Hok1) as (_ & _ & Hts). destruct (Hts t td dst E Hh) as [q Eq]. cbn in Eq.
  pose proof (hostsingle_queue _ _ _ _ _ _ Hok1 Eq) as Hq.
  assert (He' : es' !!! event = e') by apply lookup_total_insert_eq.
  assert (Hnew : event ∉ PQ.elements (pq q)).
  { pose proof (hostsingle_fresh _ _ _ _ _ dst Hok Hfresh) as Hx. unfold host_events in Hx. by rewrite Eq in Hx. }
  assert (Htime : lastEventTime q ≤ time (es' !!! event) ∧ (B ≤ time (es' !!! event) ∨ ∃ s, host_may B d s dst)).
  { rewrite He'. destruct (Z.eqb_spec src dst) as [Hs|Hs].
    - rewrite (proj2 (proj2 Hpt) Hs). rewrite Hs in Hlast. unfold host_last in Hlast. rewrite Eq in Hlast.
      split; [done|]. right. exists self. by rewrite <-Hs.
    - pose proof (qo_last _ _ _ _ Hq). assert (Bp ≤ time e').
      { unfold e'. cbn. destruct (Z.ltb_spec (time e) Bp); cbn; lia. }
      split; [lia|left; lia]. }
  destruct (queue_push_ok g_renew B hs es' q event Hq H0 (proj1 Htime)) as (pq' & b & Ep & Hperm & Hqok).
  rewrite decide_False in Hperm by done.
  set (q' := q <| pq := pq' |> <| nPushed := u64 (nPushed q + 1) |>).
  destruct (hostsingle_enqueue hs es' B d event dst t q q' Hok1 Eq Hdst) as (Hok' & Hw & Hw' & Hl);
    [by rewrite He'|apply Hqok|done|done|apply Htime|].
  exists e', ((with_mem d hs es') <| hostToQueueDataMap := <[dst := q']> (hostToQueueDataMap d) |>).
  split; [|by split_and!]. unfold _schedulerpolicyhostsingle_push, event_getTime.
  change (events_mem (with_mem d hs es)) with es. rewrite (lookup_total_correct _ _ _ Ee).
  set (d1 := if negb (src =? dst) && (time e <? Bp) then _ else _).
  assert (Hd1 : d1 = with_mem d hs es').
  { unfold d1, es', e'. case_match; [done|]. by rewrite insert_id. }
  rewrite Hd1. cbn [hostToQueueDataMap with_mem set_field]. rewrite Eq. cbn [mbind option_bind].
  change (event_compare_at (hosts_mem (with_mem d hs es')) (events_mem (with_mem d hs es'))) with (event_compare_at hs es').
  by rewrite Ep.
Qed.

(** Registration. *)
Record host_init (hs : hosts) (es : events) (assign : list (Z * Z * Z)) (d : HostSinglePolicyData) : Prop := mkInit {
  hi_ok : hostsingle_ok hs es 0 d;
  hi_events : ∀ h, host_events d h = [];
  hi_last : ∀ h, host_last d h = 0;
  hi_owner : ∀ h t, hostToThreadMap d !! h = Some t ↔ assigned assign h t;
  hi_threads : ∀ t td, threadToThreadDataMap d !! t = Some td → currentBarrier td = 0 ∧ processedHosts td = [];
}.

Lemma host_init_step hs es main assign d h t block :
  host_init hs es assign d → h ∉ assign.*1.*1 → 0 < t < 2 ^ 32 →
  host_init hs es (assign ++ [(h, t, block)]) (_schedulerpolicyhostsingle_addHost d block h t main).
Proof.
  intros [Hok He Hl Ha Ht] Hnew Hid.
  assert (Hno : ∀ t', hostToThreadMap d !! h ≠ Some t').
  { intros t' E. apply Hnew. by apply (assigned_host _ _ t'), Ha. }
  assert (Hq : hostToQueueDataMap d !! h = None).
  { destruct (hostToQueueDataMap d !! h) eqn:E; [|done]. destruct (ho_queues _ _ _ _ Hok h) as [t' Et]; [by eexists|].
    by apply Hno in Et. }
  pose proof (addHost_inv g_renew 0 (with_mem d hs es) block h t main (ho_inv _ _ _ _ Hok)) as Hinv.
  unfold _schedulerpolicyhostsingle_addHost in Hinv |- *. cbn [hostToQueueDataMap with_mem set_field] in Hinv. rewrite Hq in Hinv |- *.
  rewrite (proj2 (Z.eqb_neq t 0)) in Hinv |- * by lia. cbn [negb] in Hinv |- *.
  cbn [threadToThreadDataMap with_mem set_field] in Hinv |- *.
  set (td0 := default _ _) in *. set (td := td0 <| unprocessedHosts := unprocessedHosts td0 ++ [h] |>) in *.
  set (d' := set_field hostToThreadMap _ _).
  assert (Htd0 : currentBarrier td0 = 0 ∧ processedHosts td0 = [] ∧ NoDup (thread_hosts td0) ∧
    ∀ h', h' ∈ thread_hosts td0 ↔ hostToThreadMap d !! h' = Some t).
  { unfold td0. destruct (threadToThreadDataMap d !! t) as [td1|] eqn:E; cbn.
    - destruct (Ht t td1 E). split_and!; try done; [by apply (ho_nodup _ _ _ _ Hok t)|]. intros h'.
      rewrite (ho_owner _ _ _ _ Hok). split; [intros; by exists td1|]. by intros (? & [= <-]%(eq_trans (eq_sym E)) & ?).
    - split_and!; try done; [constructor|]. intros h'. split; [by intros ?%elem_of_nil|].
      intros (? & ? & _)%(ho_owner _ _ _ _ Hok). congruence. }
  destruct Htd0 as (Hb0 & Hp0 & Hnd0 & Hin0).
  assert (Hhosts : thread_hosts td = thread_hosts td0 ++ [h]).
  { unfold thread_hosts, td. cbn. by rewrite Hp0, !app_nil_r. }
  assert (Hev : ∀ h', host_events d' h' = []).
  { intros h'. etrans; [apply (host_events_insert d h _ h')|]. by case_decide. }
  assert (Hthreads : ∀ t' td', threadToThreadDataMap d' !! t' = Some td' →
    (t' = t ∧ td' = td) ∨ (t' ≠ t ∧ threadToThreadDataMap d !! t' = Some td')).
  { intros t' td'. change (threadToThreadDataMap d') with (<[t := td]> (threadToThreadDataMap d)).
    destruct (decide (t = t')) as [<-|Hne]; [rewrite lookup_insert_eq; intros [= <-]; by left|].
    rewrite lookup_insert_ne by done. by right. }
  constructor; [constructor|exact Hev| | |].
  - exact Hinv.
  - intros h' t'. change (hostToThreadMap d') with (<[h := t]> (hostToThreadMap d)).
    destruct (decide (h = h')) as [<-|Hne].
    + rewrite lookup_insert_eq. split.
      * intros [= <-]. exists td. split; [apply lookup_insert_eq|]. rewrite Hhosts. apply elem_of_app. right. left.
      * intros (td' & [[-> ->]|[Hne E]]%Hthreads & Hh); [done|]. exfalso. apply (Hno t'), (ho_owner _ _ _ _ Hok). by exists td'.
    + rewrite lookup_insert_ne by done. rewrite (ho_owner _ _ _ _ Hok). split.
      * intros (td' & E & Hh). destruct (decide (t = t')) as [<-|Hnt].
        -- exists td. split; [apply lookup_insert_eq|]. rewrite Hhosts. apply elem_of_app. left. apply Hin0.
           apply (ho_owner _ _ _ _ Hok). by exists td'.
        -- exists td'. split; [|done]. change (<[t := td]> (threadToThreadDataMap d) !! t' = Some td'). by rewrite lookup_insert_ne.
      * intros (td' & [[-> ->]|[Hnt E]]%Hthreads & Hh); [|by exists td'].
        rewrite Hhosts in Hh. apply elem_of_app in Hh as [Hh| ->%list_elem_of_singleton]; [|done].
        by apply (ho_owner _ _ _ _ Hok), Hin0.
  - intros t' td' [[-> ->]|[_ E]]%Hthreads; [|by apply (ho_nodup _ _ _ _ Hok t')].
    rewrite Hhosts. apply NoDup_app. split_and!; [done| |apply NoDup_singleton].
    intros x Hx ->%list_elem_of_singleton. by apply (Hno t), Hin0.
  - intros h' p. rewrite Hev. by intros ?%elem_of_nil.
  - intros h'. change (is_Some (<[h := _hostsinglequeuedata_new block]> (hostToQueueDataMap d) !! h') →
      is_Some (<[h := t]> (hostToThreadMap d) !! h')).
    destruct (decide (h = h')) as [<-|Hne]; [rewrite !lookup_insert_eq; intros _; by eexists|].
    rewrite !lookup_insert_ne by done. apply (ho_queues _ _ _ _ Hok).
  - intros t' td' [[-> ->]|[_ E]]%Hthreads; cbn; rewrite ?Hb0, ?Hp0.
    + split; [done|]. by intros _ h' ?%elem_of_nil.
    + destruct (Ht t' td' E) as [-> ->]. split; [done|]. by intros _ h' ?%elem_of_nil.
  - intros h'. etrans; [apply (host_last_insert d h _ h')|]. by case_decide.
  - intros h' t'. rewrite assigned_snoc, <-Ha. change (hostToThreadMap d') with (<[h := t]> (hostToThreadMap d)).
    destruct (decide (h = h')) as [<-|Hne].
    + rewrite lookup_insert_eq. split; [intros [= <-]; by right|]. intros [Hc|[_ ->]]; [by apply Hno in Hc|done].
    + rewrite lookup_insert_ne by done. split; [by left|]. by intros [?|[-> _]].
  - intros t' td' [[-> ->]|[_ E]]%Hthreads; [done|by apply (Ht t')].
Qed.

Lemma hostsingle_register main assign hs es :
  good_assignment assign → host_init hs es assign (register hostsingle main assign).
Proof.
  revert assign. apply (register_ind hostsingle main (host_init hs es)).
  - constructor; try done.
    + constructor; try done.
      * intros h t. split; [done|]. by intros (td & ? & _).
      * by intros h p ?%elem_of_nil.
      * intros h [q Hq]. done.
    + intros h t. split; [done|]. by intros ?%elem_of_nil.
  - intros assign d h t block. apply host_init_step.
Qed.

End HostSingle.

#[export] Instance hostsingle_round : RoundPolicy hostsingle.
Proof.
  refine {| waiting := host_waiting; owner d h := Sched.hostToThreadMap d !! h; last := host_last;
            may := host_may; ok := hostsingle_ok |}.
  - intros. by eapply hostsingle_waiting.
  - intros. by eapply hostsingle_nodup.
  - intros. by eapply hostsingle_last_range.
  - intros hs es B d t h Hok (td & E & _ & Hh). apply (ho_owner _ _ _ _ Hok). exists td. split; [done|].
    apply elem_of_app. by left.
  - intros hs es B d self l h Hok Hl Hin. cbn in Hl. unfold Sched._schedulerpolicyhostsingle_getHosts in Hl.
    destruct (Sched.threadToThreadDataMap d !! self) as [td|] eqn:E; [|done]. apply (ho_owner _ _ _ _ Hok). exists td.
    split; [done|]. unfold thread_hosts. rewrite elem_of_app.
    destruct (Sched.unprocessedHosts td) as [|x u], (Sched.processedHosts td) as [|y v]; cbn in Hl; injection Hl as <-;
      repeat rewrite ?elem_of_app, ?elem_of_cons in Hin; rewrite ?elem_of_cons; tauto.
  - intros hs hs' es es' B d Hok Hp Hs. eapply hostsingle_memory; [done..|].
    intros h p Hin. destruct (Sched.hostToQueueDataMap d !! h) as [q|] eqn:Eq.
    + destruct (ho_queues _ _ _ _ Hok h) as [t Et]; [by eexists|].
      destruct (proj1 (ho_owner _ _ _ _ Hok h t) Et) as (td & E & Hh). apply (Hs t), host_waiting_elem. by exists td, h.
    + unfold host_events in Hin. rewrite Eq in Hin. by apply elem_of_nil in Hin.
  - intros. by eapply hostsingle_later.
  - intros main assign hs es Ha. destruct (hostsingle_register main assign hs es Ha) as [Hok He Hl Ho Ht].
    split; [done|]. split; [|split; [done|split; [done|]]].
    + intros t. destruct (host_waiting _ t) as [|p l] eqn:Ew; [done|]. exfalso.
      assert (Hp : p ∈ host_waiting (register hostsingle main assign) t) by (rewrite Ew; left).
      apply host_waiting_elem in Hp as (td & h & _ & _ & Hp). rewrite He in Hp. by apply elem_of_nil in Hp.
    + intros h t Hh. destruct (proj1 (ho_owner _ _ _ _ Hok h t) (proj2 (Ho h t) Hh)) as (td & E & Hin). exists td. destruct (Ht t td E) as [? Hp].
      split_and!; try done. unfold thread_hosts in Hin. by rewrite Hp, app_nil_r in Hin.
  - intros hs es B Bp d block event src self t Hok Hm HB H0 Hf Hes Hd Hl.
    destruct (hostsingle_push hs es B Bp d event src self t Hok Hm HB H0 Hf Hes Hd Hl)
      as (e' & d' & E & Em & ? & ? & ? & ? & ? & Ho & Ht). exists e', d'. cbn. rewrite E. cbn. rewrite Em.
    split_and!; try done; [intros; by rewrite Ho|]. intros s h (td & Es & ?). exists td. by rewrite Ht.
  - intros hs es B d self Hok. by apply hostsingle_pop.
  - intros hs es B d self Hok. exists d. cbn. rewrite (hostsingle_next hs es B) by done. by split_and!.
Defined.

End Policies.

End RoundPolicy.
