(* ===== verification/Rounds.v ===== *)
(** * Rounds
    (src/phantom/src/main/core/scheduler/scheduler.c, core/worker.c,
    core/controller.c, the main loop of core/manager.c)

    The simulation runs in rounds.  In a round every worker thread runs the
    events of its hosts that lie before the end of the round's window; the
    controller then moves the window to the earliest event that is left.  The
    workers run in parallel: the transition system interleaves their calls in
    any order.  The theorems hold for every policy of RoundPolicy.v; the last
    part shows what happens with the policies that use mailboxes. *)

From S2P Require Import Prelude Float64 Cpu PriorityQueue Event SchedulerHostSingle ThreadPolicies RoundPolicy.

Module Rounds.
Import Host Ev Threads RoundPolicy.

(** ** The controller's windows (controller.c) *)

Record Controller := mkController {
  minJumpTimeConfig : Z;
  minJumpTime : Z;
  nextMinJumpTime : Z;
  executeWindowStart : Z;
  executeWindowEnd : Z;
  c_endTime : Z;
  bootstrapEndTime : Z;
}.

#[export] Instance controller_eta : Eta Controller := fun c =>
  mkController (minJumpTimeConfig c) (minJumpTime c) (nextMinJumpTime c) (executeWindowStart c)
    (executeWindowEnd c) (c_endTime c) (bootstrapEndTime c).

Definition controller_new (runahead : Z) : Controller := mkController runahead 0 0 0 0 0 0.

Definition _controller_getMinTimeJump (c : Controller) : Z :=
  let minJumpTime :=
    if 0 <? minJumpTime c then minJumpTime c else 10 * SIMTIME_ONE_MILLISECOND in
  if (0 <? minJumpTimeConfig c) && (minJumpTime <? minJumpTimeConfig c) then minJumpTimeConfig c
  else minJumpTime.

(** [None]: a failed assertion or an undefined conversion. *)
Definition controller_updateMinTimeJump (c : Controller) (minPathLatency : F64.double) : option Controller :=
  if (nextMinJumpTime c =? 0) || F64.gtb (F64.of_Z (nextMinJumpTime c)) minPathLatency then
    if F64.gtb minPathLatency (F64.of_Z 0) then
      ms ← F64.to_u64 minPathLatency;
      Some (c <| nextMinJumpTime := u64 (ms * SIMTIME_ONE_MILLISECOND) |>)
    else None
  else Some c.

Definition _controller_initializeTimeWindows (c : Controller) (stopTime nWorkers bootstrapEnd : Z) : Controller :=
  let c := c <| c_endTime := stopTime |> in
  let c := if 0 <? nWorkers then
             let jump := _controller_getMinTimeJump c in
             c <| executeWindowStart := 0 |> <| executeWindowEnd := jump |> <| nextMinJumpTime := jump |>
           else c <| executeWindowStart := 0 |> <| executeWindowEnd := UINT64_MAX |> in
  c <| bootstrapEndTime := bootstrapEnd |>.

(** Returns whether to keep running; the new window is in the controller. *)
Definition controller_managerFinishedCurrentRound (c : Controller) (minNextEventTime : Z) : Controller * bool :=
  let c := c <| minJumpTime := nextMinJumpTime c |> in
  let newStart := minNextEventTime in
  let newEnd := u64 (minNextEventTime + _controller_getMinTimeJump c) in
  let newEnd := if c_endTime c <? newEnd then c_endTime c else newEnd in
  (c <| executeWindowStart := newStart |> <| executeWindowEnd := newEnd |>, newStart <? newEnd).

(** ** State *)

(** What a worker thread is doing: booting hosts, waiting for the round to
    start, popping events or running one, and, in the last two phases, having
    got [NULL] from the policy and having reported its next event time. *)
Inductive Phase :=
  | Booting (host : option Z)
  | Idle
  | Running (event : option Z)
  | Drained
  | Done.

Definition is_booting (p : Phase) : bool := match p with Booting _ => true | _ => false end.
Definition is_running (p : Phase) : bool := match p with Running _ => true | _ => false end.

#[export] Instance Phase_eq_dec : EqDecision Phase.
Proof. solve_decision. Defined.

(** [None] is a time that is not set. *)
Record Worker := mkWorker {
  roundEndTime : option Z;
  currentTime : option Z;
  logicalProcessorIdx : nat;
  phase : Phase;
}.

#[export] Instance worker_eta : Eta Worker := fun w =>
  mkWorker (roundEndTime w) (currentTime w) (logicalProcessorIdx w) (phase w).

(** The scheduler with its policy, the worker pool, the controller and the
    locals of [manager_run]; [started] says whether the first round has begun.
    The last three fields record the history: events accepted by the policy,
    events popped, and each execution's host and time. *)
Record Sim (D : Type) := mkSim {
  hs : hosts;
  es : events;
  policy : D;
  hostIDToHostMap : gmap Z Z;
  endTime : Z;
  isRunning : bool;
  roundEnd : Z;
  minNextEventTime : Z;
  workerThreads : list Z;
  workers : gmap Z Worker;
  minEventTimes : list Z;
  controller : Controller;
  windowStart : Z;
  windowEnd : Z;
  started : bool;
  accepted : list Z;
  popped : list Z;
  executed : list (Z * Z);
}.
Arguments mkSim {D}. Arguments hs {D}. Arguments es {D}. Arguments policy {D}. Arguments hostIDToHostMap {D}.
Arguments endTime {D}. Arguments isRunning {D}. Arguments roundEnd {D}. Arguments minNextEventTime {D}.
Arguments workerThreads {D}. Arguments workers {D}. Arguments minEventTimes {D}. Arguments controller {D}.
Arguments windowStart {D}. Arguments windowEnd {D}. Arguments started {D}. Arguments accepted {D}.
Arguments popped {D}. Arguments executed {D}.

#[export] Instance sim_eta {D} : Eta (Sim D) := fun s =>
  mkSim (hs s) (es s) (policy s) (hostIDToHostMap s) (endTime s) (isRunning s) (roundEnd s) (minNextEventTime s)
    (workerThreads s) (workers s) (minEventTimes s) (controller s) (windowStart s) (windowEnd s) (started s)
    (accepted s) (popped s) (executed s).

Section Operations.
Context {D : Type} (P : SchedulerPolicy D).
Implicit Types s : Sim D.

Definition set_worker s (self : Z) (w : Worker) : Sim D := s <| workers := <[self := w]> (workers s) |>.

(** ** Next event times (worker.c) *)

Definition least_time (l : list Z) : Z :=
  foldl (λ minTime t, if t <? minTime then t else minTime) SIMTIME_MAX l.

Definition workerpool_getGlobalNextEventTime s : Sim D * Z :=
  (s <| minEventTimes := (λ _, SIMTIME_MAX) <$> minEventTimes s |>, least_time (minEventTimes s)).

(** [None]: the worker has no entry. *)
Definition worker_setMinEventTimeNextRound s (self simtime : Z) : option (Sim D) :=
  w ← workers s !! self;
  if simtime <? default SIMTIME_INVALID (roundEndTime w) then Some s else
  m ← minEventTimes s !! logicalProcessorIdx w;
  Some (if simtime <? m
        then s <| minEventTimes := <[logicalProcessorIdx w := simtime]> (minEventTimes s) |> else s).

(** ** Pushing (scheduler.c) *)

Definition scheduler_addHost s (hostID host : Z) : Sim D :=
  s <| hostIDToHostMap := <[hostID := host]> (hostIDToHostMap s) |>.

Definition scheduler_getHost s (hostID : Z) : option Z := hostIDToHostMap s !! hostID.

(** [event_unref] in memory. *)
Definition release_event (es : events) (event : Z) : events :=
  match event_unref (es !!! event) with
  | Some e => <[event := e]> es
  | None => delete event es
  end.

(** [block] is the memory for a queue the policy may have to make. *)
Definition scheduler_push s (event sender receiver block self : Z) : option (Sim D * bool) :=
  let eventTime := event_getTime (es s !!! event) in
  if endTime s <=? eventTime then
    Some (s <| es := release_event (es s) event |>, false)
  else if negb (receiver =? event_getHost (es s !!! event)) then None else
    '(es', d) ← push P (hs s) (es s) (policy s) block event sender receiver (roundEnd s) self;
    let s := s <| es := es' |> <| policy := d |> <| accepted := accepted s ++ [event] |> in
    s ← worker_setMinEventTimeNextRound s self (event_getTime (es' !!! event));
    Some (s, true).

(** ** Tasks and packets (worker.c)

    [event] is the address of the new event. *)
Definition worker_scheduleTask s (self task host nanoDelay event block : Z) : option (Sim D * bool) :=
  if negb (isRunning s) then Some (s, false) else
  w ← workers s !! self;
  clock_now ← currentTime w;
  let '(hs', e) := event_new_ (hs s) task (u64 (clock_now + nanoDelay)) host host in
  scheduler_push (s <| hs := hs' |> <| es := <[event := e]> (es s) |>) event host host block self.

(** The end of [worker_sendPacket], for a packet that is not lost: [delay] is
    the latency of the path in nanoseconds. *)
Definition worker_deliverPacket s (self packetTask srcHost dstID delay event block : Z) : option (Sim D * bool) :=
  w ← workers s !! self;
  now ← currentTime w;
  dstHost ← scheduler_getHost s dstID;
  let '(hs', e) := event_new_ (hs s) packetTask (u64 (now + delay)) srcHost dstHost in
  scheduler_push (s <| hs := hs' |> <| es := <[event := e]> (es s) |>) event srcHost dstHost block self.

(** The calls an event's execution makes back into the worker; the result
    says whether the task itself runs. *)
Fixpoint run_actions s (self event block : Z) (actions : list action) : option (Sim D * bool) :=
  match actions with
  | [] => Some (s, false)
  | ScheduleTask task host delay :: actions =>
      '(s, _) ← worker_scheduleTask s self task host delay event block;
      run_actions s self event block actions
  | TaskExecute _ _ :: actions =>
      '(s, _) ← run_actions s self event block actions; Some (s, true)
  | _ :: actions => run_actions s self event block actions
  end.

(** The end of [worker_runEvent]. *)
Definition finish_event s (self event : Z) : option (Sim D) :=
  w ← workers s !! self;
  Some (set_worker (s <| es := release_event (es s) event |>) self
          (w <| currentTime := None |> <| phase := Running None |>)).

(** [worker_runEvent] up to the point where the task makes its own calls, or
    to the end when the host's CPU is busy. *)
Definition worker_runEvent s (self event fresh block : Z) : option (Sim D) :=
  w ← workers s !! self;
  let e := es s !!! event in
  let s := set_worker s self (w <| currentTime := Some (event_getTime e) |> <| phase := Running (Some event) |>) in
  let '(hs', actions) := event_execute (hs s) e in
  let s := s <| hs := hs' |> <| popped := popped s ++ [event] |>
             <| executed := executed s ++ [(event_getHost e, event_getTime e)] |> in
  '(s, runs) ← run_actions s self fresh block actions;
  if runs : bool then Some s else finish_event s self event.

(** ** A worker's part of a round (scheduler.c) *)

Definition begin_round s (self : Z) (lpi : nat) : option (Sim D) :=
  w ← workers s !! self;
  Some (set_worker s self (mkWorker (Some (roundEnd s)) (currentTime w) lpi (Running None))).

(** One iteration of the loop of [_scheduler_runEventsWorkerTaskFn]. *)
Definition pop_event s (self fresh block : Z) : option (Sim D) :=
  w ← workers s !! self;
  s ← match phase w with Running (Some event) => finish_event s self event | _ => Some s end;
  w ← workers s !! self;
  '(d, r) ← pop P (hs s) (es s) (policy s) self (roundEnd s);
  let s := s <| policy := d |> in
  match r with
  | Some event => worker_runEvent s self event fresh block
  | None => Some (set_worker s self (w <| phase := Drained |>))
  end.

(** What follows the loop. *)
Definition report_next_time s (self : Z) : option (Sim D) :=
  w ← workers s !! self;
  '(d, minQTime) ← getNextTime P (hs s) (es s) (policy s) self;
  s ← worker_setMinEventTimeNextRound (s <| policy := d |>) self minQTime;
  Some (set_worker s self (w <| phase := Done |>)).

(** [worker_bootHosts], one host. *)
Definition boot_host s (self host : Z) : option (Sim D) :=
  w ← workers s !! self;
  Some (set_worker s self (w <| currentTime := Some 0 |> <| phase := Booting (Some host) |>)).

(** ** The main thread (scheduler.c, manager.c) *)

Definition scheduler_continueNextRound s (windowStart windowEnd : Z) : Sim D :=
  s <| roundEnd := windowEnd |> <| minNextEventTime := SIMTIME_MAX |>
    <| workers := (λ w, w <| phase := Idle |>) <$> workers s |>.

Definition scheduler_awaitNextRound s : Sim D * Z :=
  let '(s, t) := workerpool_getGlobalNextEventTime s in (s <| minNextEventTime := t |>, t).

(** Before the loop of [manager_run]: the first window has one nanosecond.
    The boot phase ends, and with it the workers' clocks. *)
Definition manager_begin s : Sim D :=
  let s := s <| windowStart := 0 |> <| windowEnd := 1 |> <| started := true |>
             <| workers := (λ w, w <| currentTime := None |>) <$> workers s |> in
  scheduler_continueNextRound s 0 1.

(** From the end of one round to the start of the next. *)
Definition manager_nextRound s : Sim D :=
  let '(s, minNext) := scheduler_awaitNextRound s in
  let '(c, keepRunning) := controller_managerFinishedCurrentRound (controller s) minNext in
  let s := s <| controller := c |> <| windowStart := executeWindowStart c |> <| windowEnd := executeWindowEnd c |> in
  if keepRunning : bool then scheduler_continueNextRound s (windowStart s) (windowEnd s)
  else s <| isRunning := false |>.

(** ** The assignment of hosts (scheduler.c) *)

(** The Fisher-Yates shuffle; [j] is the random index that
    [(guint)floor(randomFraction * maxRange)] gives.  [None]: an index out of
    the array. *)
Fixpoint shuffle_loop (i : nat) (js : list Z) (array : list Z) : option (list Z) :=
  match js with
  | [] => Some array
  | j :: js =>
      let left := Z.of_nat (length array) - Z.of_nat i in
      let j := if j =? left then j - 1 else j in
      x ← array !! i;
      y ← array !! (i + Z.to_nat j)%nat;
      shuffle_loop (S i) js (<[(i + Z.to_nat j)%nat := x]> (<[i := y]> array))
  end.

(** The loop runs [length - 1] times in unsigned arithmetic. *)
Definition _scheduler_shuffleQueue (js : list Z) (queue : list Z) : option (list Z) :=
  if (length js =? Z.to_nat (u32 (Z.of_nat (length queue) - 1)))%nat then shuffle_loop 0 js queue else None.

(** Hosts go to the worker threads in turn; [blocks i] is the memory for the
    queue of the [i]-th host. *)
Definition _scheduler_assignHosts (queue threads : list Z) (blocks : nat → Z) : list (Z * Z * Z) :=
  imap (λ i h, (h, threads !!! (i mod length threads)%nat, blocks i)) queue.

(** The state in which the workers boot their hosts; [queue] is the shuffled
    list of the hosts, which [scheduler_addHost] recorded under their ids. *)
Definition scheduler_start (hs0 : hosts) (queue threads : list Z) (blocks : nat → Z) (main nLogicalProcessors : Z)
    (c : Controller) : Sim D :=
  {| hs := hs0; es := ∅; policy := register P main (_scheduler_assignHosts queue threads blocks);
     hostIDToHostMap := list_to_map ((λ h, (params_id (hs0 !!! h), h)) <$> queue);
     endTime := c_endTime c; isRunning := true; roundEnd := c_endTime c; minNextEventTime := SIMTIME_MAX;
     workerThreads := threads;
     workers := list_to_map (imap (λ i t, (t, mkWorker None None (Z.to_nat (Z.of_nat i mod nLogicalProcessors))
                                                 (Booting None))) threads);
     minEventTimes := replicate (Z.to_nat nLogicalProcessors) SIMTIME_MAX;
     controller := c; windowStart := 0; windowEnd := 1; started := false;
     accepted := []; popped := []; executed := [] |}.

(** ** Interleavings *)

Inductive act :=
  | ABoot (self host : Z)
  | ABegin
  | AStart (self : Z) (lpi : nat)
  | APop (self fresh block : Z)
  | ATask (self task delay fresh block : Z)
  | APacket (self task dstID delay fresh block : Z)
  | ANext (self : Z)
  | AJump (minPathLatency : F64.double)
  | ARound.

(** The host whose code a worker runs. *)
Definition running_host s (w : Worker) : option Z :=
  match phase w with
  | Booting h => h
  | Running (Some event) => Some (dstHost (es s !!! event))
  | _ => None
  end.

Definition exec s (a : act) : option (Sim D) :=
  match a with
  | ABoot self host => boot_host s self host
  | ABegin => Some (manager_begin s)
  | AStart self lpi => begin_round s self lpi
  | APop self fresh block => pop_event s self fresh block
  | ATask self task delay fresh block =>
      w ← workers s !! self; host ← running_host s w;
      '(s, _) ← worker_scheduleTask s self task host delay fresh block; Some s
  | APacket self task dstID delay fresh block =>
      w ← workers s !! self; host ← running_host s w;
      '(s, _) ← worker_deliverPacket s self task host dstID delay fresh block; Some s
  | ANext self => report_next_time s self
  | AJump minPathLatency =>
      c ← controller_updateMinTimeJump (controller s) minPathLatency; Some (s <| controller := c |>)
  | ARound => Some (manager_nextRound s)
  end.

Definition in_phase s (self : Z) (f : Phase → bool) : bool :=
  match workers s !! self with Some w => f (phase w) | None => false end.

(** A free address. *)
Definition is_fresh s (event : Z) : bool := negb (event =? 0) && negb (bool_decide (is_Some (es s !! event))).

(** The time a call with this delay aims at fits 64 bits. *)
Definition delay_fits s (self delay : Z) : bool :=
  match workers s !! self with
  | Some w => (0 <=? delay) && (default 0 (currentTime w) + delay <? 2 ^ 64)
  | None => false
  end.

Definition jump_fits s (c : Controller) : bool :=
  endTime s + _controller_getMinTimeJump (c <| minJumpTime := nextMinJumpTime c |>) <? 2 ^ 64.

Definition is_round (a : act) : bool := match a with ARound => true | _ => false end.

(** When an act can happen: the phases of the threads, and the bounds of the
    64-bit clock. *)
Definition enabled s (a : act) : bool :=
  isRunning s &&
  match a with
  | ABoot self host =>
      in_phase s self is_booting &&
      match getAssignedHosts P (policy s) self with Some l => bool_decide (host ∈ l) | None => false end
  | ABegin => bool_decide (map_Forall (λ _ w, is_booting (phase w) = true) (workers s))
  | AStart self lpi => in_phase s self (λ p, bool_decide (p = Idle)) && (lpi <? length (minEventTimes s))%nat
  | APop self fresh _ =>
      in_phase s self is_running && is_fresh s fresh
  | ATask self _ delay fresh _ =>
      match workers s !! self with Some w => bool_decide (is_Some (running_host s w)) | None => false end &&
      is_fresh s fresh && delay_fits s self delay
  | APacket self _ dstID delay fresh _ =>
      match workers s !! self with Some w => bool_decide (is_Some (running_host s w)) | None => false end &&
      is_fresh s fresh && delay_fits s self delay && bool_decide (is_Some (hostIDToHostMap s !! dstID))
  | ANext self => in_phase s self (λ p, bool_decide (p = Drained))
  | AJump minPathLatency =>
      match controller_updateMinTimeJump (controller s) minPathLatency with
      | Some c => jump_fits s c
      | None => false
      end
  | ARound => started s && bool_decide (map_Forall (λ _ w, phase w = Done) (workers s))
  end.

Definition step s s' : Prop := ∃ a, enabled s a = true ∧ exec s a = Some s'.

(** Runs a list of acts, as far as they are enabled. *)
Fixpoint run s (acts : list act) : option (Sim D) :=
  match acts with
  | [] => Some s
  | a :: acts => if enabled s a then s ← exec s a; run s acts else None
  end.

End Operations.

#[global] Arguments least_time : simpl never.

(** ** Lists of times and of waiting events *)

Lemma least_time_cons t l : least_time (t :: l) = Z.min t (least_time l).
Proof.
  unfold least_time. cbn. generalize SIMTIME_MAX. induction l as [|u l IH]; intros m; cbn.
  - destruct (Z.ltb_spec t m); lia.
  - rewrite <-IH. f_equal. compare_cases; lia.
Qed.

Lemma least_time_insert l i m t :
  l !! i = Some m → t < m → least_time (<[i := t]> l) = Z.min t (least_time l).
Proof.
  revert i. induction l as [|u l IH]; intros [|i] E Ht; try done; cbn [list_insert].
  - injection E as ->. change (<[0%nat := t]> (m :: l)) with (t :: l). rewrite !least_time_cons. lia.
  - change (<[S i := t]> (u :: l)) with (u :: <[i := t]> l). rewrite !least_time_cons, (IH i E Ht). lia.
Qed.

Lemma least_time_below l i m : l !! i = Some m → least_time l ≤ m.
Proof.
  revert i. induction l as [|u l IH]; intros [|i] E; try done; rewrite least_time_cons.
  - injection E as ->. lia.
  - specialize (IH i E). lia.
Qed.

Lemma least_time_reset (l : list Z) : least_time ((λ _, SIMTIME_MAX) <$> l) = SIMTIME_MAX.
Proof. induction l as [|u l IH]; [done|]. cbn [fmap list_fmap]. rewrite least_time_cons. lia. Qed.

Lemma least_time_replicate n : least_time (replicate n SIMTIME_MAX) = SIMTIME_MAX.
Proof. induction n as [|n IH]; [done|]. cbn [replicate]. rewrite least_time_cons. lia. Qed.

Lemma bind_perm (f f' : Z → list Z) l : (∀ t, t ∈ l → f' t ≡ₚ f t) → l ≫= f' ≡ₚ l ≫= f.
Proof.
  intros Hs. induction l as [|t l IH]; [done|]. cbn. rewrite (Hs t) by left. f_equiv.
  apply IH. intros. apply Hs. by right.
Qed.

(** One list gets an element more. *)
Lemma bind_push (f f' : Z → list Z) l t x :
  NoDup l → t ∈ l → f' t ≡ₚ x :: f t → (∀ t', t' ≠ t → f' t' ≡ₚ f t') → l ≫= f' ≡ₚ x :: (l ≫= f).
Proof.
  intros Hnd Hin Ht Hs. apply elem_of_Permutation in Hin as [k Hp]. rewrite Hp in Hnd.
  apply NoDup_cons in Hnd as [Hn _]. rewrite Hp. cbn. rewrite Ht. cbn. do 2 f_equiv. apply bind_perm.
  intros t' Hin. apply Hs. by intros ->.
Qed.

(** The times of each host never decrease. *)
Definition causal (l : list (Z * Z)) : Prop :=
  ∀ i j h t t', (i < j)%nat → l !! i = Some (h, t) → l !! j = Some (h, t') → t ≤ t'.

Lemma causal_snoc l h t :
  causal l → (∀ t', (h, t') ∈ l → t' ≤ t) → causal (l ++ [(h, t)]).
Proof.
  intros Hc Hl i j h' t1 t2 Hij Hi Hj. apply lookup_app_Some in Hj as [Hj|[Hlen Hj]].
  - apply (Hc i j h' t1 t2 Hij); [|done]. rewrite lookup_app_l in Hi; [done|]. apply lookup_lt_Some in Hj. lia.
  - apply list_lookup_singleton_Some in Hj as [Hj [= -> ->]].
    rewrite lookup_app_l in Hi by lia. apply Hl. by apply list_elem_of_lookup_2 in Hi.
Qed.

(** ** The invariant *)

Section Invariant.
Context {D : Type} (P : SchedulerPolicy D) `{!RoundPolicy P}.
Implicit Types s : Sim D.

(** The barrier of the policy: none before the first round. *)
Definition barrier s : Z := if started s then roundEnd s else 0.

Definition waits_in s (t p : Z) : Prop := p ∈ waiting (policy s) t.

(** A thread in a round. *)
Definition in_round s (w : Worker) : Prop :=
  started s = true ∧ roundEndTime w = Some (roundEnd s) ∧ is_Some (minEventTimes s !! logicalProcessorIdx w).

Definition runs_event s (t : Z) (w : Worker) (e : Z) : Prop :=
  is_Some (es s !! e) ∧ (∀ t', ¬ waits_in s t' e) ∧
  ∃ now, currentTime w = Some now ∧ windowStart s ≤ now < roundEnd s ∧
    may (barrier s) (policy s) t (dstHost (es s !!! e)) ∧ last (policy s) (dstHost (es s !!! e)) ≤ now.

Definition worker_ok s (t : Z) (w : Worker) : Prop :=
  match phase w with
  | Booting h => started s = false ∧ roundEndTime w = None ∧
      ∀ h', h = Some h' → currentTime w = Some 0 ∧ owner (policy s) h' = Some t
  | Idle => started s = true
  | Running None => in_round s w
  | Running (Some e) => in_round s w ∧ runs_event s t w e
  | Drained | Done => in_round s w ∧ ∀ p, waits_in s t p → roundEnd s ≤ time (es s !!! p)
  end.

Definition is_done s (t : Z) : Prop := ∃ w, workers s !! t = Some w ∧ phase w = Done.

(** The recorded next event time is a lower bound for the threads that have
    reported, and the time of some event after the round. *)
Definition min_ok s : Prop :=
  let m := least_time (minEventTimes s) in
  (∀ t p, is_done s t → waits_in s t p → m ≤ time (es s !!! p)) ∧
  (m = SIMTIME_MAX ∨ started s = true ∧ roundEnd s ≤ m ∧ ∃ t p, waits_in s t p ∧ time (es s !!! p) = m).

Record inv s : Prop := mkInv {
  iv_ok : ok (hs s) (es s) (barrier s) (policy s);
  iv_bounds : 0 ≤ windowStart s < roundEnd s ∧ roundEnd s ≤ endTime s ≤ SIMTIME_MAX;
  iv_cpu : ∀ h, Cpu.time_ok (cpu (hs s !!! h));
  iv_waiting : ∀ t p, waits_in s t p → is_Some (es s !! p) ∧ windowStart s ≤ time (es s !!! p) ≤ endTime s;
  iv_threads : (workerThreads s ≠ [] ∧ NoDup (workerThreads s)) ∧ ∀ t, t ∈ workerThreads s ↔ is_Some (workers s !! t);
  iv_owner : ∀ h t, owner (policy s) h = Some t → t ∈ workerThreads s;
  iv_hosts : ∀ id h, hostIDToHostMap s !! id = Some h → is_Some (owner (policy s) h);
  iv_workers : ∀ t w, workers s !! t = Some w → worker_ok s t w;
  iv_running : ∀ t1 t2 w1 w2 e, workers s !! t1 = Some w1 → phase w1 = Running (Some e) →
    workers s !! t2 = Some w2 → phase w2 = Running (Some e) → t1 = t2;
  iv_boot : started s = false → windowStart s = 0 ∧ executed s = [] ∧
    ∀ h t, owner (policy s) h = Some t → may 0 (policy s) t h;
  iv_window : started s = true → roundEnd s = windowEnd s ∧
    roundEnd s ≤ windowStart s + _controller_getMinTimeJump (controller s);
  iv_min : min_ok s;
  iv_times : (0 < length (minEventTimes s))%nat;
  iv_controller : c_endTime (controller s) = endTime s ∧ 0 ≤ minJumpTimeConfig (controller s) ∧
    0 ≤ nextMinJumpTime (controller s) ∧ jump_fits s (controller s) = true;
  iv_history : accepted s ≡ₚ popped s ++ (workerThreads s ≫= waiting (policy s));
  iv_executed : causal (executed s) ∧
    ∀ h t, (h, t) ∈ executed s → t ≤ last (policy s) h ∧ t < roundEnd s;
}.

Lemma barrier_le s : inv s → 0 ≤ barrier s ≤ roundEnd s.
Proof. intros Hi. pose proof (iv_bounds _ Hi). unfold barrier. case_match; lia. Qed.

(** The same round, with the same owners of the hosts. *)
Record same_round s s' : Prop := mkSameRound {
  sr_started : started s' = started s;
  sr_end : roundEnd s' = roundEnd s;
  sr_start : windowStart s' = windowStart s;
  sr_times : length (minEventTimes s') = length (minEventTimes s);
  sr_owner : ∀ h, owner (policy s') h = owner (policy s) h;
}.

Lemma worker_ok_frame s s' t w :
  worker_ok s t w → same_round s s' →
  (∀ e, phase w = Running (Some e) → (∀ t', ¬ waits_in s t' e) → may (barrier s) (policy s) t (dstHost (es s !!! e)) →
     es s' !! e = es s !! e ∧ (∀ t', ¬ waits_in s' t' e) ∧ may (barrier s) (policy s') t (dstHost (es s !!! e)) ∧
     last (policy s') (dstHost (es s !!! e)) = last (policy s) (dstHost (es s !!! e))) →
  (phase w = Drained ∨ phase w = Done → (∀ p, waits_in s t p → roundEnd s ≤ time (es s !!! p)) →
     ∀ p, waits_in s' t p → roundEnd s ≤ time (es s' !!! p)) →
  worker_ok s' t w.
Proof.
  intros Hk [Hs He Hw Hl Ho] Hrun Hdone.
  assert (Hin : in_round s w → in_round s' w).
  { unfold in_round. rewrite Hs, He, !lookup_lt_is_Some, Hl. done. }
  unfold worker_ok in *. destruct (phase w) as [h| |[e|]| |] eqn:Ep; rewrite ?Hs, ?He; try done; try (by apply Hin).
  - destruct Hk as (? & ? & Hk). split; [done|]. split; [done|]. intros h' Eh. rewrite Ho. by apply Hk.
  - destruct Hk as (Hk & Hes & Hnw & now & Hnow & Ht & Hm & Hl'). split; [by apply Hin|].
    destruct (Hrun e eq_refl Hnw Hm) as (E1 & E2 & E3 & E4). unfold runs_event. rewrite E1. split; [done|]. split; [done|].
    exists now. rewrite (lookup_total_alt (es s')), E1, <-lookup_total_alt. unfold barrier in *.
    rewrite Hs, He, Hw, E4. by repeat (split; [done|]).
  - destruct Hk as [? Hall]. split; [by apply Hin|]. apply Hdone; [by left|done].
  - destruct Hk as [? Hall]. split; [by apply Hin|]. apply Hdone; [by right|done].
Qed.

Lemma lookup_worker (W : gmap Z Worker) t w t2 w2 :
  <[t := w]> W !! t2 = Some w2 → t2 = t ∧ w2 = w ∨ t2 ≠ t ∧ W !! t2 = Some w2.
Proof.
  destruct (decide (t = t2)) as [<-|Hne]; [rewrite lookup_insert_eq; intros [= <-]; by left|].
  rewrite lookup_insert_ne by done. by right.
Qed.

(** A CPU or a counter changes. *)
Lemma same_params_insert hs h x : params_id x = params_id (hs !!! h) → same_params hs (<[h := x]> hs).
Proof.
  intros E h'. destruct (decide (h = h')) as [<-|]; [by rewrite lookup_total_insert_eq|by rewrite lookup_total_insert_ne].
Qed.

Lemma release_event_other es event p : p ≠ event → release_event es event !! p = es !! p.
Proof. intros Hp. unfold release_event. case_match; [by apply lookup_insert_ne|by apply lookup_delete_ne]. Qed.

(** *** Memory *)

(** Other events and the CPUs may change. *)
Lemma inv_memory s hs' es' :
  inv s → same_params (hs s) hs' → (∀ h, Cpu.time_ok (cpu (hs' !!! h))) →
  (∀ t p, waits_in s t p → es' !! p = es s !! p) →
  (∀ t w e, workers s !! t = Some w → phase w = Running (Some e) → es' !! e = es s !! e) →
  inv (s <| hs := hs' |> <| es := es' |>).
Proof.
  intros Hi Hp Hcpu Hw Hr.
  assert (Hwt : ∀ t p, waits_in s t p → es' !!! p = es s !!! p)
    by (intros t p Hin; rewrite !lookup_total_alt; by rewrite (Hw t p Hin)).
  destruct Hi as [Hok Hb Hc Hwa Hth Ho Hho Hwo Hru Hbo Hwi Hm Hlen Hco Hh He]. constructor; try done.
  - eapply rp_memory; [exact Hok|done|]. intros t p Hin. by apply (Hwt t).
  - intros t p Hin. cbn. rewrite (Hw t p Hin), (Hwt t p Hin). by apply (Hwa t).
  - intros t w E. apply (worker_ok_frame s); [by apply Hwo|done| |].
    + intros e Ep Hnw Hmay. split; [by apply (Hr t w)|done].
    + intros _ Hall p Hin. cbn. rewrite (Hwt t p Hin). by apply Hall.
  - destruct Hm as [Hm1 Hm2]. split.
    + intros t p Hd Hin. cbn. rewrite (Hwt t p Hin). by apply (Hm1 t).
    + destruct Hm2 as [?|(? & ? & t & p & Hin & E)]; [by left|right]. split; [done|]. split; [done|].
      exists t, p. split; [done|]. cbn. by rewrite (Hwt t p Hin).
Qed.

(** *** Workers *)

Lemma inv_worker s t w w' :
  inv s → workers s !! t = Some w → worker_ok s t w' →
  (∀ e t2 w2, phase w' = Running (Some e) → t2 ≠ t → workers s !! t2 = Some w2 → phase w2 ≠ Running (Some e)) →
  (phase w' = Done → ∀ p, waits_in s t p → least_time (minEventTimes s) ≤ time (es s !!! p)) →
  inv (set_worker s t w').
Proof.
  intros [Hok Hb Hc Hwa Hth Ho Hho Hwo Hru Hbo Hwi Hm Hlen Hco Hh He] E Hk Hrun Hdone.
  constructor; try done.
  - split; [apply Hth|]. intros t2. cbn. rewrite (proj2 Hth). destruct (decide (t = t2)) as [<-|Hne].
    + rewrite lookup_insert_eq, E. split; by eexists.
    + by rewrite lookup_insert_ne.
  - intros t2 w2 [[-> ->]|[_ E2]]%lookup_worker; [exact Hk|]. by apply Hwo in E2.
  - intros t1 t2 w1 w2 e [[-> ->]|[H1 E1]]%lookup_worker P1 [[-> ->]|[H2 E2]]%lookup_worker P2; [done| | |by eapply Hru].
    + by destruct (Hrun e t2 w2 P1 H2 E2).
    + by destruct (Hrun e t1 w1 P2 H1 E1).
  - destruct Hm as [Hm1 Hm2]. split; [|done]. intros t2 p (w2 & [[-> ->]|[_ E2]]%lookup_worker & Hd) Hin; [by apply Hdone|].
    apply (Hm1 t2); [by exists w2|done].
Qed.

(** *** Recording a next event time *)

Lemma setMin_ok s self w t :
  workers s !! self = Some w → roundEndTime w = Some (roundEnd s) → is_Some (minEventTimes s !! logicalProcessorIdx w) →
  ∃ l, worker_setMinEventTimeNextRound s self t = Some (s <| minEventTimes := l |>) ∧
    length l = length (minEventTimes s) ∧
    least_time l = if t <? roundEnd s then least_time (minEventTimes s) else Z.min t (least_time (minEventTimes s)).
Proof.
  intros E Er [m Em]. unfold worker_setMinEventTimeNextRound. rewrite E. cbn [mbind option_bind]. rewrite Er. cbn [from_option id].
  destruct (Z.ltb_spec t (roundEnd s)); [exists (minEventTimes s); split; [by destruct s|done]|]. rewrite Em. cbn [mbind option_bind].
  destruct (Z.ltb_spec t m).
  - eexists. split; [done|]. by rewrite length_insert, (least_time_insert _ _ m).
  - exists (minEventTimes s). split; [by destruct s|]. split; [done|]. pose proof (least_time_below _ _ _ Em). lia.
Qed.

Lemma in_round_length s w (l : list Z) : length l = length (minEventTimes s) →
  is_Some (minEventTimes s !! logicalProcessorIdx w) → is_Some (l !! logicalProcessorIdx w).
Proof. intros El. by rewrite !lookup_lt_is_Some, El. Qed.

Lemma inv_min s l :
  inv s → length l = length (minEventTimes s) → min_ok (s <| minEventTimes := l |>) → inv (s <| minEventTimes := l |>).
Proof.
  intros [Hok Hb Hc Hwa Hth Ho Hho Hwo Hru Hbo Hwi Hm Hlen Hco Hh He] El Hm'. constructor; try done.
  - intros t w E. by apply (worker_ok_frame s); [apply Hwo| | |].
  - cbn. by rewrite El.
Qed.

(** *** Pushing an event *)

(** What a call made for a host may rely on. *)
Record caller s (self src now : Z) (w : Worker) : Prop := mkCaller {
  ca_worker : workers s !! self = Some w;
  ca_now : currentTime w = Some now;
  ca_time : windowStart s ≤ now;
  ca_may : may (barrier s) (policy s) self src;
  ca_last : last (policy s) src ≤ now;
  ca_phase : phase w ≠ Drained ∧ phase w ≠ Done;
  ca_round : if started s then in_round s w else roundEndTime w = None;
}.

Lemma running_caller s self w src :
  inv s → workers s !! self = Some w → running_host s w = Some src → ∃ now, caller s self src now w.
Proof.
  intros Hi E Hr. pose proof (iv_workers _ Hi _ _ E) as Hk. unfold running_host, worker_ok in *.
  destruct (phase w) as [h| |[e|]| |] eqn:Ep; try done.
  - destruct Hk as (Hs & Hre & Hk). destruct (Hk src Hr) as [Hnow Ho]. exists 0.
    destruct (iv_boot _ Hi Hs) as (Hws & _ & Hmay). pose proof (rp_last _ _ _ _ src (iv_ok _ Hi)) as Hl.
    unfold barrier in *. rewrite Hs in Hl.
    constructor; [done|done|lia|unfold barrier; rewrite Hs; by apply Hmay|lia|by rewrite Ep|by rewrite Hs].
  - injection Hr as <-. destruct Hk as (Hin & _ & _ & now & Hnow & Ht & Hmay & Hl). exists now.
    constructor; [done|done|lia|done|done|by rewrite Ep|]. by rewrite (proj1 Hin).
Qed.

(** What a push leaves alone. *)
Record same_but s s' (event : Z) : Prop := mkSame {
  sb_workers : workers s' = workers s;
  sb_events : ∀ p, p ≠ event → es s' !! p = es s !! p;
  sb_running : isRunning s' = isRunning s ∧ started s' = started s;
  sb_history : popped s' = popped s ∧ executed s' = executed s;
  sb_window : windowStart s' = windowStart s ∧ roundEnd s' = roundEnd s ∧ endTime s' = endTime s;
  sb_controller : controller s' = controller s;
}.

Lemma inv_push s e' d' l self src now w event t :
  inv s → caller s self src now w →
  let e := es s !!! event in
  (∀ t, ¬ waits_in s t event) → (∀ t w, workers s !! t = Some w → phase w ≠ Running (Some event)) →
  owner (policy s) (dstHost e) = Some t → windowStart s ≤ time e < endTime s →
  push_time (roundEnd s) src (dstHost e) self t e e' →
  ok (hs s) (<[event := e']> (es s)) (barrier s) d' → waiting d' t ≡ₚ event :: waiting (policy s) t →
  (∀ t', t' ≠ t → waiting d' t' ≡ₚ waiting (policy s) t') → (∀ h, last d' h = last (policy s) h) →
  (∀ h, owner d' h = owner (policy s) h) →
  (∀ t h, may (barrier s) (policy s) t h → may (barrier s) d' t h) →
  length l = length (minEventTimes s) →
  least_time l = (if started s && (roundEnd s <=? time e') then Z.min (time e') (least_time (minEventTimes s))
                  else least_time (minEventTimes s)) →
  inv (s <| es := <[event := e']> (es s) |> <| policy := d' |> <| accepted := accepted s ++ [event] |>
         <| minEventTimes := l |>).
Proof.
  intros Hi Hca e Hnew Hnrun Hown Htime Hpt Hok' Hwt Hwo' Hl' Ho' Hmay' El Em.
  pose proof (barrier_le s Hi) as HB.
  destruct Hi as [Hok Hb Hc Hwa Hth Ho Hho Hwo Hru Hbo Hwi Hm Hlen Hco Hh He].
  set (s' := _ <| minEventTimes := l |>).
  assert (Hte' : windowStart s ≤ time e' ≤ endTime s).
  { destruct Hpt as [[->| ->] _]; cbn; lia. }
  assert (Hes : ∀ t' p, waits_in s t' p → <[event := e']> (es s) !! p = es s !! p).
  { intros t' p Hin. apply lookup_insert_ne. intros ->. by apply (Hnew t'). }
  assert (Hest : ∀ t' p, waits_in s t' p → <[event := e']> (es s) !!! p = es s !!! p).
  { intros t' p Hin. rewrite !lookup_total_alt. by erewrite Hes. }
  assert (Hcase : ∀ t' p, waits_in s' t' p → t' = t ∧ p = event ∨ p ≠ event ∧ waits_in s t' p).
  { intros t' p Hin. unfold waits_in in Hin. cbn in Hin. destruct (decide (t' = t)) as [->|Hne].
    - rewrite Hwt in Hin. apply elem_of_cons in Hin as [->|Hin]; [by left|]. right. split; [|done].
      intros ->. by apply (Hnew t).
    - rewrite (Hwo' t' Hne) in Hin. right. split; [|done]. intros ->. by apply (Hnew t'). }
  assert (Hold : ∀ t' p, waits_in s t' p → waits_in s' t' p).
  { intros t' p Hin. unfold waits_in. cbn. destruct (decide (t' = t)) as [->|Hne].
    - rewrite Hwt. by right.
    - by rewrite (Hwo' t' Hne). }
  assert (Hlate : t ≠ self → roundEnd s ≤ time e') by apply Hpt.
  assert (Hself : ∀ w', workers s !! t = Some w' → (phase w' = Drained ∨ phase w' = Done) → roundEnd s ≤ time e').
  { intros w' E' Hp. apply Hlate. intros ->. pose proof (ca_worker _ _ _ _ _ Hca) as E. simplify_eq.
    destruct (ca_phase _ _ _ _ _ Hca), Hp; done. }
  assert (Hstart : ∀ w', workers s !! t = Some w' → phase w' = Done → started s = true).
  { intros w' E' Hp. pose proof (Hwo t w' E') as Hk. unfold worker_ok in Hk. rewrite Hp in Hk. apply Hk. }
  constructor; try done.
  - intros t' p [[-> ->]|[Hne Hin]]%Hcase; cbn.
    + rewrite lookup_insert_eq, lookup_total_insert_eq. by split.
    + rewrite (Hes t' p Hin), (Hest t' p Hin). by apply (Hwa t').
  - intros h t'. cbn. rewrite Ho'. apply Ho.
  - intros id h E. cbn. rewrite Ho'. by eapply Hho.
  - intros t' w' E'. apply (worker_ok_frame s); [by apply Hwo|done| |].
    + intros x Ep Hnx Hmx. assert (Hxe : x ≠ event) by (intros ->; by apply (Hnrun t' w')).
      split; [by apply lookup_insert_ne|]. split; [intros t2 [[-> ->]|[_ Hin]]%Hcase; [done|by apply (Hnx t2)]|].
      split; [by apply Hmay'|apply Hl'].
    + intros Hp Hall p [[-> ->]|[Hne Hin]]%Hcase; cbn; [rewrite lookup_total_insert_eq; by apply (Hself w')|].
      rewrite (Hest t' p Hin). by apply Hall.
  - intros Hs. cbn in *. destruct (Hbo Hs) as (? & ? & Hmb). split_and!; try done. intros h t'. rewrite Ho'.
    intros Hoh. specialize (Hmb h t' Hoh). specialize (Hmay' t' h). unfold barrier in Hmay'. rewrite Hs in Hmay'. auto.
  - destruct Hm as [Hm1 Hm2]. unfold min_ok, s'. cbn. rewrite Em. split.
    + intros t' p Hd Hcs. destruct (Hcase _ _ Hcs) as [[-> ->]|[Hne Hin]].
      * rewrite lookup_total_insert_eq. destruct Hd as (w' & E' & Hp). cbn in E'.
        specialize (Hself w' E' ltac:(by right)). rewrite (Hstart w' E' Hp). destruct (Z.leb_spec (roundEnd s) (time e')); cbn; lia.
      * rewrite (Hest t' p Hin). pose proof (Hm1 t' p Hd Hin). case_match; lia.
    + destruct (started s && (roundEnd s <=? time e')) eqn:Eb.
      * apply andb_true_iff in Eb as [-> Hle%Z.leb_le].
        destruct (Z.min_spec (time e') (least_time (minEventTimes s))) as [[_ ->]|[_ ->]].
        -- right. split_and!; [done..|]. exists t, event. split; [|by rewrite lookup_total_insert_eq].
           unfold waits_in. cbn. rewrite Hwt. left.
        -- destruct Hm2 as [?|(? & ? & t2 & p & Hin & Hp)]; [by left|right]. split_and!; try done.
           exists t2, p. split; [by apply Hold|]. by rewrite (Hest t2 p Hin).
      * destruct Hm2 as [?|(? & ? & t2 & p & Hin & Hp)]; [by left|right]. split_and!; try done.
        exists t2, p. split; [by apply Hold|]. by rewrite (Hest t2 p Hin).
  - cbn. by rewrite El.
  - cbn. rewrite (bind_push (waiting (policy s)) (waiting d') (workerThreads s) t event);
      [|apply Hth|by eapply Ho|done|done]. rewrite Hh. solve_Permutation.
  - cbn. destruct He as [? He]. split; [done|]. intros h t'. rewrite Hl'. apply He.
Qed.

(** A push by a caller is dropped at the end of the simulation, else accepted. *)
Lemma scheduler_push_ok s self src now w event dst block t :
  inv s → caller s self src now w → event ≠ 0 → is_Some (es s !! event) → dstHost (es s !!! event) = dst →
  (∀ t, ¬ waits_in s t event) → (∀ t w, workers s !! t = Some w → phase w ≠ Running (Some event)) →
  owner (policy s) dst = Some t → now ≤ time (es s !!! event) →
  ∃ s' b, scheduler_push P s event src dst block self = Some (s', b) ∧ inv s' ∧ same_but s s' event ∧
    b = (time (es s !!! event) <? endTime s) ∧
    (b = true → accepted s' = accepted s ++ [event] ∧ waits_in s' t event ∧
       push_time (roundEnd s) src dst self t (es s !!! event) (es s' !!! event)).
Proof.
  intros Hi Hca H0 Hes Hdst Hnew Hnrun Hown Hnow. unfold scheduler_push, event_getTime, event_getHost.
  destruct (Z.leb_spec (endTime s) (time (es s !!! event))) as [Hle|Hlt].
  { eexists _, false. split; [done|]. split; [|split; [|split; [symmetry; by apply Z.ltb_ge|done]]].
    - apply (inv_memory s (hs s) (release_event (es s) event)); [done|by intros h|by apply iv_cpu| |].
      + intros t' p Hin. apply release_event_other. intros ->. by apply (Hnew t').
      + intros t' w' e E Hp. apply release_event_other. intros ->. by apply (Hnrun t' w').
    - constructor; try done. intros p Hp. by apply release_event_other. }
  rewrite Hdst, Z.eqb_refl. cbn [negb]. subst dst. pose proof (barrier_le s Hi) as HB.
  pose proof (ca_last _ _ _ _ _ Hca) as Hlast. pose proof (ca_time _ _ _ _ _ Hca) as Hwt.
  destruct (rp_push (hs s) (es s) (barrier s) (roundEnd s) (policy s) block event src self t) as
    (e' & d' & Ep & Hpt & Hok & Hwt' & Hoth & Hl & Ho & Hmay);
    [apply Hi|apply Hca|lia|done|done|done|done|lia|]. rewrite Ep. cbn [mbind option_bind].
  rewrite lookup_total_insert_eq.
  set (s1 := s <| es := _ |> <| policy := d' |> <| accepted := _ |>).
  assert (∃ l, worker_setMinEventTimeNextRound s1 self (time e') = Some (s1 <| minEventTimes := l |>) ∧
    length l = length (minEventTimes s) ∧
    least_time l = (if started s && (roundEnd s <=? time e') then Z.min (time e') (least_time (minEventTimes s))
                    else least_time (minEventTimes s))) as (l & El & Hlen & Hleast).
  { pose proof (ca_round _ _ _ _ _ Hca) as Hr. pose proof (ca_worker _ _ _ _ _ Hca) as Ew.
    destruct (started s); cbn [andb].
    - destruct Hr as (_ & Hr & Hm). destruct (setMin_ok s1 self w (time e') Ew Hr Hm) as (l & ? & ? & Hl').
      exists l. split_and!; [done|done|]. rewrite Hl'. change (roundEnd s1) with (roundEnd s).
      change (minEventTimes s1) with (minEventTimes s). rewrite Z.leb_antisym.
      by destruct (time e' <? roundEnd s).
    - exists (minEventTimes s). split; [|done]. unfold worker_setMinEventTimeNextRound.
      change (workers s1) with (workers s). rewrite Ew. cbn [mbind option_bind]. rewrite Hr. cbn [from_option].
      pose proof (iv_bounds _ Hi). assert (time e' < SIMTIME_INVALID) as ->%Z.ltb_lt.
      { change SIMTIME_INVALID with (SIMTIME_MAX + 1). destruct Hpt as [[->| ->] _]; cbn; lia. }
      done. }
  rewrite El. cbn [mbind option_bind]. eexists _, true. split; [done|]. split; [|split; [|split]].
  - eapply inv_push; try done. pose proof (iv_bounds _ Hi). lia.
  - constructor; try done. intros p Hp. cbn. by apply lookup_insert_ne.
  - symmetry. by apply Z.ltb_lt.
  - intros _. unfold waits_in. cbn. rewrite lookup_total_insert_eq, Hwt'. split_and!; [done|left|done].
Qed.

(** A new event for a host, by the thread that runs the sender. *)
Lemma new_event_ok s self src now w task dst delay event block t :
  inv s → caller s self src now w → is_fresh s event = true → 0 ≤ delay → now + delay < 2 ^ 64 →
  owner (policy s) dst = Some t →
  let '(hs', e) := event_new_ (hs s) task (u64 (now + delay)) src dst in
  time e = now + delay ∧
  ∃ s' b, scheduler_push P (s <| hs := hs' |> <| es := <[event := e]> (es s) |>) event src dst block self = Some (s', b) ∧
    inv s' ∧ same_but s s' event ∧ b = (now + delay <? endTime s) ∧
    (b = true → accepted s' = accepted s ++ [event] ∧ waits_in s' t event ∧
       push_time (roundEnd s) src dst self t e (es s' !!! event)).
Proof.
  intros Hi Hca [H0 Hf]%andb_true_iff Hd Hsum Hown. cbn.
  assert (H0' : event ≠ 0) by (intros ->; by rewrite Z.eqb_refl in H0).
  assert (Hf' : es s !! event = None).
  { destruct (es s !! event) eqn:E; [|done]. rewrite bool_decide_true in Hf by (by eexists). done. }
  pose proof (ca_time _ _ _ _ _ Hca) as Ht. pose proof (iv_bounds _ Hi) as Hb.
  set (e := mkEvent _ _ _ _ _ _). assert (He : time e = now + delay) by (cbn; apply u64_small; lia).
  split; [done|]. set (hs' := <[src := _]> (hs s)).
  set (s1 := s <| hs := hs' |> <| es := <[event := e]> (es s) |>).
  assert (Hp : same_params (hs s) hs') by (by apply same_params_insert).
  assert (Hnew : ∀ t, ¬ waits_in s t event) by (intros t' Hin; destruct (iv_waiting _ Hi _ _ Hin) as [[? ?] _]; congruence).
  assert (Hnrun : ∀ t w, workers s !! t = Some w → phase w ≠ Running (Some event)).
  { intros t' w' E' Ep. pose proof (iv_workers _ Hi _ _ E') as Hk. unfold worker_ok in Hk. rewrite Ep in Hk.
    destruct Hk as (_ & [? ?] & _). congruence. }
  assert (Hi1 : inv s1).
  { apply inv_memory; [done|done| | |].
    - intros h. unfold hs'. pose proof (iv_cpu _ Hi h). destruct (decide (src = h)) as [<-|];
        [by rewrite lookup_total_insert_eq|by rewrite lookup_total_insert_ne].
    - intros t' p Hin. apply lookup_insert_ne. intros <-. by apply (Hnew t').
    - intros t' w' x E' Ep. apply lookup_insert_ne. intros <-. by apply (Hnrun t' w'). }
  assert (He1 : es s1 !!! event = e) by apply lookup_total_insert_eq.
  destruct (scheduler_push_ok s1 self src now w event dst block t) as (s' & b & E & Hi' & Hsb & Hbt & Hres);
    [done|by destruct Hca|done|cbn; rewrite lookup_insert_eq; by eexists|by rewrite He1|done|done|done|rewrite He1; lia|].
  rewrite He1, He in *. exists s', b. split; [exact E|]. split; [done|]. split; [|by split].
  destruct Hsb as [? Hes ? ? ? ?]. constructor; try done. intros p Hne. rewrite (Hes p Hne). cbn. by apply lookup_insert_ne.
Qed.

(** A call succeeds, keeps the invariant and stays in the round. *)
Definition stays s (r : option (Sim D)) : Prop :=
  ∃ s', r = Some s' ∧ inv s' ∧ isRunning s' = isRunning s ∧ windowStart s' = windowStart s ∧ endTime s' = endTime s.

Lemma scheduleTask_ok s self host now w task delay event block :
  inv s → isRunning s = true → caller s self host now w → is_fresh s event = true →
  0 ≤ delay → now + delay < 2 ^ 64 →
  ∃ s' b, worker_scheduleTask P s self task host delay event block = Some (s', b) ∧ inv s' ∧ same_but s s' event.
Proof.
  intros Hi Hr Hca Hf Hd Hsum. unfold worker_scheduleTask. rewrite Hr. cbn [negb].
  rewrite (ca_worker _ _ _ _ _ Hca). cbn [mbind option_bind]. rewrite (ca_now _ _ _ _ _ Hca). cbn [mbind option_bind].
  pose proof (new_event_ok s self host now w task host delay event block self Hi Hca Hf Hd Hsum
    (rp_may _ _ _ _ _ _ (iv_ok _ Hi) (ca_may _ _ _ _ _ Hca))) as H.
  destruct (event_new_ _ _ _ _ _) as [hs' e]. destruct H as (_ & s' & b & E & ? & ? & _). by exists s', b.
Qed.

(** A packet arrives at its time, at the end of the round at the earliest
    unless it is for the sender. *)
Lemma deliverPacket_ok s self src now w task dstID dst delay event block t :
  inv s → caller s self src now w → is_fresh s event = true → 0 ≤ delay → now + delay < 2 ^ 64 →
  hostIDToHostMap s !! dstID = Some dst → owner (policy s) dst = Some t →
  ∃ s' b, worker_deliverPacket P s self task src dstID delay event block = Some (s', b) ∧ inv s' ∧ same_but s s' event ∧
    b = (now + delay <? endTime s) ∧
    (b = true → accepted s' = accepted s ++ [event] ∧ waits_in s' t event ∧
       ∃ e, time e = now + delay ∧ push_time (roundEnd s) src dst self t e (es s' !!! event)).
Proof.
  intros Hi Hca Hf Hd Hsum Hid Hown. unfold worker_deliverPacket, scheduler_getHost.
  rewrite (ca_worker _ _ _ _ _ Hca). cbn [mbind option_bind]. rewrite (ca_now _ _ _ _ _ Hca), Hid. cbn [mbind option_bind].
  pose proof (new_event_ok s self src now w task dst delay event block t Hi Hca Hf Hd Hsum Hown) as H.
  destruct (event_new_ _ _ _ _ _) as [hs' e]. destruct H as (He & s' & b & E & ? & ? & ? & Hb). exists s', b.
  split; [done|]. split_and!; try done. intros (? & ? & ?)%Hb. split_and!; try done. by exists e.
Qed.

Lemma finish_event_ok s self w event :
  inv s → workers s !! self = Some w → phase w = Running (Some event) →
  ∃ s', finish_event s self event = Some s' ∧ inv s' ∧
    workers s' = <[self := w <| currentTime := None |> <| phase := Running None |>]> (workers s) ∧
    s' = s <| workers := workers s' |> <| es := release_event (es s) event |>.
Proof.
  intros Hi E Ep. unfold finish_event. rewrite E. cbn [mbind option_bind]. eexists. split; [done|].
  split; [|by split]. pose proof (iv_workers _ Hi _ _ E) as Hk. unfold worker_ok in Hk. rewrite Ep in Hk.
  destruct Hk as (Hin & _ & Hnw & _).
  set (w' := (w <| currentTime := None |>) <| phase := Running None |>).
  assert (Hi' : inv (set_worker s self w')) by (by apply (inv_worker s self w w')).
  apply (inv_memory (set_worker s self w') (hs s) (release_event (es s) event)); [done|by intros h|by apply iv_cpu| |].
  - intros t p Hw. apply release_event_other. intros ->. by apply (Hnw t).
  - intros t w2 e E2 Ep2. apply release_event_other. intros ->. cbn in E2. destruct (decide (self = t)) as [<-|Hne].
    + rewrite lookup_insert_eq in E2. by injection E2 as <-.
    + rewrite lookup_insert_ne in E2 by done. apply Hne. symmetry. by eapply (iv_running _ Hi t self).
Qed.

(** *** Taking an event *)

Lemma inv_pop s self w p d' :
  inv s → workers s !! self = Some w → phase w = Running None →
  ok (hs s) (es s) (barrier s) d' →
  (∀ h, owner d' h = owner (policy s) h) → (∀ t, t ≠ self → waiting d' t ≡ₚ waiting (policy s) t) →
  (∀ t h, t ≠ self → may (barrier s) (policy s) t h → may (barrier s) d' t h) →
  (∀ h, last (policy s) h ≤ last d' h) → (∀ h, owner (policy s) h ≠ Some self → last d' h = last (policy s) h) →
  let e := es s !!! p in
  waiting (policy s) self ≡ₚ p :: waiting d' self → time e < roundEnd s →
  may (barrier s) d' self (dstHost e) → last d' (dstHost e) = time e →
  let h := hs s !!! dstHost e in
  inv (set_worker (s <| policy := d' |> <| hs := <[dstHost e := h <| cpu := Cpu.cpu_updateTime (cpu h) (time e) |>]> (hs s) |>
                     <| popped := popped s ++ [p] |> <| executed := executed s ++ [(dstHost e, time e)] |>) self
         (w <| currentTime := Some (time e) |> <| phase := Running (Some p) |>)).
Proof.
  intros Hi E Ep Hok' Ho' Hwo' Hmay' Hlle Hleq e Hw Ht Hmay Hl h.
  destruct Hi as [Hok Hb Hc Hwa Hth Ho Hho Hwo Hru Hbo Hwi Hm Hlen Hco Hh He].
  pose proof (Hwo self w E) as Hk. unfold worker_ok in Hk. rewrite Ep in Hk.
  assert (Hin : waits_in s self p) by (unfold waits_in; rewrite Hw; left).
  destruct (Hwa self p Hin) as [Hes Hte]. destruct (rp_waiting _ _ _ _ _ _ Hok Hin) as (H0 & Hown & Hlp). fold e in Hown, Hlp, Hte.
  set (hs' := <[dstHost e := _]> (hs s)). set (w' := (w <| currentTime := _ |>) <| phase := _ |>). set (s' := set_worker _ _ _).
  assert (Hsub : ∀ t x, waits_in s' t x → waits_in s t x ∧ x ≠ p).
  { intros t x Hx. unfold waits_in in *. cbn in Hx. destruct (decide (t = self)) as [->|Hne].
    - pose proof (rp_nodup _ _ _ _ self Hok) as Hnd. rewrite Hw in Hnd |- *. apply NoDup_cons in Hnd as [Hn _].
      split; [by right|congruence].
    - rewrite (Hwo' t Hne) in Hx. split; [done|]. intros ->. pose proof (rp_waiting _ _ _ _ _ _ Hok Hx) as (_ & Ho2 & _). fold e in Ho2. congruence. }
  assert (Hsup : ∀ t x, waits_in s t x → x ≠ p → waits_in s' t x).
  { intros t x Hx Hne. unfold waits_in in *. cbn. destruct (decide (t = self)) as [->|Hnt].
    - rewrite Hw in Hx. by apply elem_of_cons in Hx as [->|Hx].
    - by rewrite (Hwo' t Hnt). }
  assert (Hp : same_params (hs s) hs') by (by apply same_params_insert).
  assert (Hother : ∀ t2 w2 x, t2 ≠ self → workers s !! t2 = Some w2 → phase w2 = Running (Some x) → x ≠ p).
  { intros t2 w2 x _ E2 Ep2 ->. specialize (Hwo t2 w2 E2). unfold worker_ok in Hwo. rewrite Ep2 in Hwo.
    by apply (proj1 (proj2 (proj2 Hwo)) self). }
  constructor; try done.
  - cbn. by eapply rp_memory.
  - intros x. cbn. unfold hs'. destruct (decide (dstHost e = x)) as [<-|]; [|rewrite lookup_total_insert_ne by done; apply Hc].
    rewrite lookup_total_insert_eq. specialize (Hc (dstHost e)). fold h in Hc. unfold Cpu.time_ok in *. cbn.
    unfold SIMTIME_MAX, UINT64_MAX in *. lia.
  - intros t x [Hx _]%Hsub. by apply (Hwa t).
  - split; [apply Hth|]. intros t2. cbn. rewrite (proj2 Hth). destruct (decide (self = t2)) as [<-|Hne].
    + rewrite lookup_insert_eq, E. split; by eexists.
    + by rewrite lookup_insert_ne.
  - intros x t. cbn. rewrite Ho'. apply Ho.
  - intros id x. cbn. rewrite Ho'. apply Hho.
  - intros t2 w2 [[-> ->]|[Hne E2]]%lookup_worker.
    + unfold worker_ok. cbn. split; [apply Hk|]. unfold runs_event. cbn. split; [done|]. split; [by intros t [_ ?]%Hsub|].
      exists (time e). fold e. split_and!; try done; [lia..|by rewrite Hl].
    + apply (worker_ok_frame s); [by apply Hwo|done| |].
      * intros x Ep2 Hnx Hmx. split; [done|]. split; [by intros t [?%Hnx _]%Hsub|]. split; [by apply Hmay'|].
        apply Hleq. rewrite (rp_may _ _ _ _ _ _ Hok Hmx). congruence.
      * intros _ Hall x [? _]%Hsub. by apply Hall.
  - intros t1 t2 w1 w2 x [[-> ->]|[H1 E1]]%lookup_worker P1 [[-> ->]|[H2 E2]]%lookup_worker P2; [done| | |by eapply Hru].
    + injection P1 as <-. by destruct (Hother t2 w2 p H2 E2 P2).
    + injection P2 as <-. by destruct (Hother t1 w1 p H1 E1 P1).
  - intros Hs. cbn in Hs. by rewrite (proj1 Hk) in Hs.
  - destruct Hm as [Hm1 Hm2]. split.
    + intros t x (w2 & [[-> ->]|[Hne E2]]%lookup_worker & Hd) [Hx _]%Hsub; [done|]. apply (Hm1 t); [by exists w2|done].
    + destruct Hm2 as [?|(? & Hr & t & x & Hx & Etx)]; [by left|right]. split; [done|]. split; [done|]. exists t, x.
      split; [|done]. apply Hsup; [done|]. intros ->. change (es s !!! p) with e in Etx. lia.
  - cbn. rewrite Hh, (bind_push (waiting d') (waiting (policy s)) (workerThreads s) self p);
      [|apply Hth|by eapply Ho|done|intros t Hne; by rewrite (Hwo' t Hne)]. by rewrite <-app_assoc.
  - destruct He as [Hca He]. split.
    + apply causal_snoc; [done|]. intros t' Hin'. destruct (He _ _ Hin'). lia.
    + intros x t' [Hin'|Hin']%elem_of_app; cbn.
      * destruct (He _ _ Hin'). specialize (Hlle x). lia.
      * apply list_elem_of_singleton in Hin'. injection Hin' as -> ->. lia.
Qed.

(** The CPU delay of a blocked event ends when the CPU is available. *)
Lemma cpu_delay_fits c t : Cpu.time_ok c → 0 ≤ t < 2 ^ 64 →
  let c' := Cpu.cpu_updateTime c t in 0 ≤ Cpu.cpu_getDelay c' ∧ t + Cpu.cpu_getDelay c' < 2 ^ 64.
Proof.
  intros Hc Ht c'. assert (Hok : Cpu.time_ok c') by (unfold Cpu.time_ok, c' in *; cbn; lia).
  rewrite Cpu.getDelay_ok by done. unfold Cpu.time_ok, c' in *. clear c'. cbn -[Z.pow] in *. case_match; lia.
Qed.

(** Running an event: the CPU is moved to the event's time and the event is
    put off if the CPU is busy. *)
Lemma runEvent_ok s self w p d' fresh block :
  inv s → isRunning s = true → workers s !! self = Some w → phase w = Running None →
  is_fresh s fresh = true →
  pop P (hs s) (es s) (policy s) self (roundEnd s) = Some (d', Some p) →
  stays s (worker_runEvent P (s <| policy := d' |>) self p fresh block).
Proof.
  intros Hi Hrun E Ep Hf Epop. pose proof (iv_workers _ Hi _ _ E) as Hk. unfold worker_ok in Hk. rewrite Ep in Hk.
  assert (HB : barrier s = roundEnd s) by (unfold barrier; by rewrite (proj1 Hk)).
  destruct (rp_pop (hs s) (es s) (barrier s) (policy s) self (iv_ok _ Hi)) as
    (d1 & r & Ed & Hok & Ho & Hw & Hmay & Hle & Heq & Hr).
  rewrite HB, Epop in Ed. injection Ed as <- <-. rewrite HB in *. destruct Hr as (Hwt & Ht & Hm & Hl).
  pose proof (inv_pop s self w p d' Hi E Ep) as Hi1. rewrite HB in Hi1.
  specialize (Hi1 Hok Ho Hw Hmay Hle Heq Hwt Ht Hm Hl). cbv zeta in Hi1.
  assert (Hin : waits_in s self p) by (unfold waits_in; rewrite Hwt; left).
  pose proof (proj2 (iv_waiting _ Hi _ _ Hin)) as Htp. pose proof (iv_bounds _ Hi) as Hb.
  assert (Htw : 0 ≤ time (es s !!! p) < 2 ^ 64) by (unfold SIMTIME_MAX, UINT64_MAX in *; lia).
  pose proof (cpu_delay_fits (cpu (hs s !!! dstHost (es s !!! p))) _ (iv_cpu _ Hi _) Htw) as Hfit.
  unfold worker_runEvent. change (workers (s <| policy := d' |>)) with (workers s). rewrite E.
  cbn [mbind option_bind event_execute]. unfold event_getTime, event_getHost.
  change (es (s <| policy := d' |>)) with (es s). set (e := es s !!! p) in *.
  set (w' := (w <| currentTime := _ |>) <| phase := _ |>) in *.
  match type of Hi1 with inv ?x => set (s1 := x) in * end.
  assert (Ew : workers s1 !! self = Some w') by apply lookup_insert_eq.
  cbn [hs set_worker set_field]. unfold event_execute. fold e.
  cbn [cpu set_field]. change (hs (set_worker (s <| policy := d' |>) self w')) with (hs s).
  match goal with |- stays s ('(_, _) ← run_actions P ?x _ _ _ _; _) => change x with s1 end.
  destruct (Cpu.cpu_isBlocked _); cbn [run_actions app mbind option_bind].
  - destruct (running_caller s1 self w' (dstHost e) Hi1 Ew) as [now Hca]; [by cbn|].
    assert (now = time e) as ->. { pose proof (ca_now _ _ _ _ _ Hca) as Hn. by injection Hn. }
    edestruct (scheduleTask_ok s1 self (dstHost e) (time e) w' (task e)) as (s2 & b & Es & Hi2 & Hsb);
      [done|done|exact Hca|exact Hf|apply Hfit|apply Hfit|].
    cbn in Es |- *. rewrite Es. cbn [mbind option_bind].
    destruct (finish_event_ok s2 self w' p Hi2) as (s3 & E3 & Hi3 & _ & Hs3); [by rewrite (sb_workers _ _ _ Hsb)|done|].
    exists s3. split; [done|]. split; [done|]. rewrite Hs3. cbn. destruct Hsb as [_ _ [-> _] _ (-> & _ & ->) _]. by split.
  - exists s1. by split_and!.
Qed.

(** The policy of a thread that is not running an event changes, with the same
    events waiting. *)
Lemma inv_policy s self w d' :
  inv s → workers s !! self = Some w → started s = true → (∀ e, phase w ≠ Running (Some e)) →
  ok (hs s) (es s) (barrier s) d' →
  (∀ h, owner d' h = owner (policy s) h) → (∀ t, waiting d' t ≡ₚ waiting (policy s) t) →
  (∀ t h, t ≠ self → may (barrier s) (policy s) t h → may (barrier s) d' t h) →
  (∀ h, last (policy s) h ≤ last d' h) → (∀ h, owner (policy s) h ≠ Some self → last d' h = last (policy s) h) →
  inv (s <| policy := d' |>).
Proof.
  intros Hi E Hst Hrun Hok' Ho' Hw' Hmay' Hlle Hleq.
  destruct Hi as [Hok Hb Hc Hwa Hth Ho Hho Hwo Hru Hbo Hwi Hm Hlen Hco Hh He].
  set (s' := s <| policy := d' |>).
  assert (Hwt : ∀ t x, waits_in s' t x ↔ waits_in s t x) by (intros t x; unfold waits_in; cbn; by rewrite Hw').
  constructor; try done.
  - intros t x Hx%Hwt. by apply (Hwa t).
  - intros x t. cbn. rewrite Ho'. apply Ho.
  - intros id x. cbn. rewrite Ho'. apply Hho.
  - intros t w2 E2. apply (worker_ok_frame s); [by apply Hwo|done| |].
    + intros x Ep2 Hnx Hmx. assert (Hne : t ≠ self).
      { intros ->. pose proof (eq_trans (eq_sym E) E2) as [= <-]. by apply (Hrun x). }
      split; [done|]. split; [by intros t' ?%Hwt%Hnx|]. split; [by apply Hmay'|].
      apply Hleq. rewrite (rp_may _ _ _ _ _ _ Hok Hmx). congruence.
    + intros _ Hall x ?%Hwt. by apply Hall.
  - intros Hs. cbn in Hs. congruence.
  - destruct Hm as [Hm1 Hm2]. split.
    + intros t x Hd ?%Hwt. by apply (Hm1 t).
    + destruct Hm2 as [?|(? & ? & t & x & ? & ?)]; [by left|right]. split; [done|]. split; [done|]. exists t, x.
      split; [by apply Hwt|done].
  - cbn. by rewrite (bind_perm (waiting (policy s)) (waiting d')).
  - destruct He as [? He]. split; [done|]. intros x t Hx. destruct (He x t Hx). specialize (Hlle x). cbn. lia.
Qed.

Lemma pop_event_ok s self fresh block :
  inv s → isRunning s = true → in_phase s self is_running = true → is_fresh s fresh = true →
  stays s (pop_event P s self fresh block).
Proof.
  intros Hi Hrun Hph Hf. unfold in_phase in Hph. destruct (workers s !! self) as [w|] eqn:E; [|done].
  unfold pop_event. rewrite E. cbn [mbind option_bind].
  assert (∃ s1 w1, match phase w with Running (Some event) => finish_event s self event | _ => Some s end = Some s1 ∧
    inv s1 ∧ workers s1 !! self = Some w1 ∧ phase w1 = Running None ∧ is_fresh s1 fresh = true ∧
    isRunning s1 = isRunning s ∧ windowStart s1 = windowStart s ∧ endTime s1 = endTime s)
    as (s1 & w1 & -> & Hi1 & E1 & Ep1 & Hf1 & Hr1 & Hw1 & He1).
  { destruct (phase w) as [| |[e|]| |] eqn:Ep; try done; [|by exists s, w].
    destruct (finish_event_ok s self w e Hi E Ep) as (s1 & -> & Hi1 & Hw1 & Hs1). eexists _, _. split; [done|].
    split; [done|]. rewrite Hw1, lookup_insert_eq. split; [done|]. split; [done|].
    rewrite Hs1. split; [|by split].
    unfold is_fresh in *. apply andb_true_iff in Hf as [-> Hf]. cbn. apply negb_true_iff, bool_decide_eq_false in Hf. apply negb_true_iff, bool_decide_eq_false.
    pose proof (iv_workers _ Hi _ _ E) as Hk. unfold worker_ok in Hk. rewrite Ep in Hk.
    destruct Hk as (_ & Hes & _). assert (fresh ≠ e) by (by intros ->).
    by rewrite release_event_other. }
  cbn [mbind option_bind]. rewrite E1. cbn [mbind option_bind].
  pose proof (iv_workers _ Hi1 _ _ E1) as Hk. unfold worker_ok in Hk. rewrite Ep1 in Hk.
  assert (HB : barrier s1 = roundEnd s1) by (unfold barrier; by rewrite (proj1 Hk)).
  destruct (rp_pop (hs s1) (es s1) (barrier s1) (policy s1) self (iv_ok _ Hi1)) as
    (d' & r & Ed & Hok & Ho & Hw & Hmay & Hle & Heq & Hr).
  rewrite HB in Ed. rewrite Ed. cbn [mbind option_bind]. destruct r as [p|].
  - destruct (runEvent_ok s1 self w1 p d' fresh block) as (s' & Es & Hi' & ? & ? & ?); try done; [congruence|].
    exists s'. split; [done|]. split; [done|]. split_and!; congruence.
  - eexists. split; [done|]. split; [|by split_and!]. destruct Hr as [Hwt Hall].
    assert (Hi2 : inv (s1 <| policy := d' |>)).
    { eapply inv_policy; try done; [apply Hk|by rewrite Ep1|].
      intros t. destruct (decide (t = self)) as [->|]; [done|by apply Hw]. }
    apply (inv_worker _ self w1); [done..| |done|done].
    unfold worker_ok. cbn. split; [done|]. intros p. unfold waits_in. cbn. rewrite Hwt, <-HB. apply Hall.
Qed.

Lemma report_next_time_ok s self :
  inv s → in_phase s self (λ p, bool_decide (p = Drained)) = true → stays s (report_next_time P s self).
Proof.
  intros Hi Hph. unfold in_phase in Hph. destruct (workers s !! self) as [w|] eqn:E; [|done].
  apply bool_decide_eq_true in Hph as Ep. unfold report_next_time. rewrite E. cbn [mbind option_bind].
  pose proof (iv_workers _ Hi _ _ E) as Hk. unfold worker_ok in Hk. rewrite Ep in Hk. destruct Hk as [Hin Hall].
  destruct (rp_next (hs s) (es s) (barrier s) (policy s) self (iv_ok _ Hi)) as (d' & -> & Hok & Ho & Hw & Hl & Hmay).
  cbn [mbind option_bind]. set (t := earliest _ _). set (s1 := s <| policy := d' |>).
  assert (Hi1 : inv s1).
  { apply (inv_policy s self w); try done; [apply Hin|by rewrite Ep|intros h; by rewrite Hl]. }
  destruct (setMin_ok s1 self w t) as (l & -> & Hlen & Hleast); [done|apply Hin|apply Hin|].
  cbn [mbind option_bind]. eexists. split; [done|]. split; [|by split].
  destruct (earliest_spec (es s) (waiting (policy s) self)) as (He1 & He2 & He3). fold t in He1, He2, He3.
  assert (Hrt : roundEnd s ≤ t).
  { pose proof (iv_bounds _ Hi). destruct He3 as [->|(p & Hp & ->)]; [lia|by apply Hall]. }
  change (roundEnd s1) with (roundEnd s) in Hleast. rewrite (proj2 (Z.ltb_ge _ _) Hrt) in Hleast.
  change (minEventTimes s1) with (minEventTimes s) in Hleast, Hlen.
  assert (Hi2 : inv (s1 <| minEventTimes := l |>)).
  { apply inv_min; [done..|]. destruct (iv_min _ Hi1) as [Hm1 Hm2]. change (minEventTimes s1) with (minEventTimes s) in Hm1, Hm2.
    unfold min_ok. cbn. rewrite Hleast. split.
    - intros t' p Hd Hp. pose proof (Hm1 t' p Hd Hp). change (es s1) with (es s) in *. lia.
    - destruct (Z.min_spec t (least_time (minEventTimes s))) as [[_ ->]|[_ ->]]; [|done].
      destruct He3 as [->|(p & Hp & ->)]; [by left|right]. split; [apply Hin|]. split; [done|].
      exists self, p. split; [|done]. unfold waits_in. cbn. by rewrite Hw. }
  apply (inv_worker _ self w); [done..| | |].
  - unfold worker_ok. cbn. split; [|intros p; unfold waits_in; cbn; rewrite Hw; apply Hall].
    destruct Hin as (? & ? & ?). split_and!; [done..|]. by eapply in_round_length.
  - done.
  - intros _ p. unfold waits_in. cbn. rewrite Hw, Hleast. intros Hp. pose proof (He1 p Hp). lia.
Qed.

(** *** The other acts *)

Lemma boot_host_ok s self host l :
  inv s → in_phase s self is_booting = true → getAssignedHosts P (policy s) self = Some l → host ∈ l →
  stays s (boot_host s self host).
Proof.
  intros Hi Hph Hl Hin. unfold in_phase in Hph. destruct (workers s !! self) as [w|] eqn:E; [|done].
  unfold boot_host. rewrite E. cbn [mbind option_bind]. eexists. split; [done|]. split; [|by split].
  pose proof (iv_workers _ Hi _ _ E) as Hk. unfold worker_ok in Hk. destruct (phase w); try done.
  destruct Hk as (Hs & Hr & _). apply (inv_worker _ _ w); try done.
  unfold worker_ok. cbn. split; [done|]. split; [done|]. intros h [= <-]. split; [done|].
  by eapply rp_assigned; [apply Hi|..].
Qed.

Lemma begin_round_ok s self lpi :
  inv s → in_phase s self (λ p, bool_decide (p = Idle)) = true → (lpi < length (minEventTimes s))%nat →
  stays s (begin_round s self lpi).
Proof.
  intros Hi Hph Hlpi. unfold in_phase in Hph. destruct (workers s !! self) as [w|] eqn:E; [|done].
  apply bool_decide_eq_true in Hph as Ep. unfold begin_round. rewrite E. cbn [mbind option_bind].
  eexists. split; [done|]. split; [|by split].
  pose proof (iv_workers _ Hi _ _ E) as Hk. unfold worker_ok in Hk. rewrite Ep in Hk.
  apply (inv_worker _ _ w); try done. unfold worker_ok. cbn. split_and!; [done..|]. by apply lookup_lt_is_Some.
Qed.

Lemma jump_positive c : 0 < _controller_getMinTimeJump c.
Proof. unfold _controller_getMinTimeJump, SIMTIME_ONE_MILLISECOND. repeat case_match; lia. Qed.

Lemma some_worker s : inv s → ∃ t w, workers s !! t = Some w.
Proof.
  intros Hi. destruct (iv_threads _ Hi) as [[Hne _] Hw]. destruct (workerThreads s) as [|t l] eqn:E; [done|].
  destruct (proj1 (Hw t)) as [w ?]; [left|]. by exists t, w.
Qed.

(** A new window, with all the workers idle. *)
Lemma inv_window s start stop c l W b :
  inv s → b = true → let B := if started s then roundEnd s else 0 in
  windowStart s ≤ start → B ≤ start < stop ∧ stop ≤ endTime s → stop ≤ start + _controller_getMinTimeJump c →
  (∀ t p, waits_in s t p → start ≤ time (es s !!! p)) →
  c_endTime c = endTime s ∧ 0 ≤ minJumpTimeConfig c ∧ 0 ≤ nextMinJumpTime c ∧ jump_fits s c = true →
  least_time l = SIMTIME_MAX → (0 < length l)%nat → (∀ t, is_Some (W !! t) ↔ is_Some (workers s !! t)) →
  map_Forall (λ _ w, phase w = Idle) W →
  inv (s <| minEventTimes := l |> <| controller := c |> <| windowStart := start |> <| windowEnd := stop |> <| started := b |>
         <| roundEnd := stop |> <| minNextEventTime := SIMTIME_MAX |> <| workers := W |>).
Proof.
  intros Hi -> B Hws Hst Hjump Hwait Hco' Hl Hlen' HW Hph.
  destruct Hi as [Hok Hb Hc Hwa Hth Ho Hho Hwo Hru Hbo Hwi Hm Hlen Hco Hh He].
  constructor; try done; cbn.
  - eapply rp_later; [exact Hok|]. unfold barrier. cbn. fold B. lia.
  - lia.
  - intros t p Hin. destruct (Hwa t p Hin). specialize (Hwait t p Hin). cbn. split; [done|lia].
  - split; [apply Hth|]. intros t. by rewrite (proj2 Hth), HW.
  - intros t w E. unfold worker_ok. by rewrite (Hph t w E).
  - intros t1 t2 w1 w2 e E1 P1. by rewrite (Hph t1 w1 E1) in P1.
  - unfold min_ok. cbn. rewrite Hl. split; [|by left]. intros t p (w & E & Ed). cbn in E. by rewrite (Hph t w E) in Ed.
  - destruct He as [? He]. split; [done|]. intros h t Hin. destruct (He h t Hin). split; [done|].
    destruct (started s) eqn:Es; [unfold B in Hst; lia|]. destruct (Hbo eq_refl) as (_ & Hex & _).
    rewrite Hex in Hin. by apply elem_of_nil in Hin.
Qed.

Lemma manager_begin_ok s :
  inv s → map_Forall (λ _ w, is_booting (phase w) = true) (workers s) → stays s (Some (manager_begin s)).
Proof.
  intros Hi Hall. destruct (some_worker s Hi) as (t & w & E).
  assert (Hs : started s = false).
  { pose proof (iv_workers _ Hi _ _ E) as Hk. pose proof (Hall t w E) as Hb. unfold worker_ok in Hk.
    cbn beta in Hb. destruct (phase w); try done; apply Hk. }
  destruct (iv_boot _ Hi Hs) as (Hws & _). pose proof (iv_bounds _ Hi) as Hb.
  eexists. split; [done|]. split; [|by split].
  assert (Hl : least_time (minEventTimes s) = SIMTIME_MAX) by (destruct (iv_min _ Hi) as [_ [?|[? _]]]; [done|congruence]).
  apply (inv_window s 0 1 (controller s) (minEventTimes s) _ true); rewrite ?Hs; try done; [lia|lia| | |apply Hi|apply Hi| |].
  - pose proof (jump_positive (controller s)). lia.
  - intros t' p Hin. pose proof (iv_waiting _ Hi _ _ Hin). lia.
  - intros t'. cbn. by rewrite !lookup_fmap, !fmap_is_Some.
  - intros t' w'. rewrite lookup_fmap_Some. by intros (? & <- & _).
Qed.

Lemma update_jump_ok s c x :
  inv s → controller_updateMinTimeJump (controller s) x = Some c → jump_fits s c = true →
  inv (s <| controller := c |>).
Proof.
  intros [Hok Hb Hc Hwa Hth Ho Hho Hwo Hru Hbo Hwi Hm Hlen Hco Hh He] E Hfit. unfold controller_updateMinTimeJump in E.
  assert (Hcs : c = controller s ∨ ∃ n, 0 ≤ n ∧ c = (controller s) <| nextMinJumpTime := n |>).
  { destruct (_ || _); [|left; congruence]. destruct (F64.gtb x (F64.of_Z 0)); [|done].
    destruct (F64.to_u64 x) as [ms|]; [|done]. cbn in E. injection E as <-. right. eexists. split; [|done].
    apply u64_range. }
  constructor; try done; cbn.
  - intros Hs. destruct (Hwi Hs). split; [done|]. by destruct Hcs as [->|(n & _ & ->)].
  - destruct Hco as (? & ? & ? & ?). split; [by destruct Hcs as [->|(n & _ & ->)]|].
    split; [by destruct Hcs as [->|(n & _ & ->)]|]. split; [by destruct Hcs as [->|(n & ? & ->)]|done].
Qed.

(** The end of the simulation: what is left lies at its end. *)
Record finished s : Prop := mkFinished {
  fi_running : isRunning s = false;
  fi_history : accepted s ≡ₚ popped s ++ (workerThreads s ≫= waiting (policy s));
  fi_left : ∀ t p, waits_in s t p → time (es s !!! p) = endTime s;
  fi_executed : causal (executed s) ∧ ∀ h t, (h, t) ∈ executed s → t < endTime s;
}.

(** When all the workers are done, the least recorded time is the time of the
    first event that waits. *)
Definition first_time s : Z := earliest (es s) (workerThreads s ≫= waiting (policy s)).

Lemma least_time_exact s :
  inv s → map_Forall (λ _ w, phase w = Done) (workers s) → least_time (minEventTimes s) = first_time s.
Proof.
  intros Hi Hall. destruct (iv_min _ Hi) as [Hm1 Hm2]. set (m := least_time _) in *.
  destruct (earliest_spec (es s) (workerThreads s ≫= waiting (policy s))) as (He1 & He2 & He3). fold (first_time s) in *.
  assert (Hin : ∀ p, p ∈ workerThreads s ≫= waiting (policy s) ↔ ∃ t, waits_in s t p).
  { intros p. rewrite list_elem_of_bind. split; [intros (t & ? & ?); by exists t|]. intros [t Ht]. exists t. split; [done|].
    eapply (iv_owner _ Hi), (rp_waiting _ _ _ _ _ _ (iv_ok _ Hi) Ht). }
  assert (Hle : ∀ t p, waits_in s t p → m ≤ time (es s !!! p)).
  { intros t p Ht. apply (Hm1 t p); [|done]. destruct (proj1 (proj2 (iv_threads _ Hi) t)) as [w E].
    - eapply (iv_owner _ Hi), (rp_waiting _ _ _ _ _ _ (iv_ok _ Hi) Ht).
    - exists w. split; [done|by apply (Hall t)]. }
  assert (m ≤ first_time s).
  { destruct He3 as [->|(p & [t Ht]%Hin & ->)]; [|by apply (Hle t)].
    destruct Hm2 as [->|(_ & _ & t & p & Ht & <-)]; [done|]. pose proof (iv_waiting _ Hi _ _ Ht). pose proof (iv_bounds _ Hi). lia. }
  destruct Hm2 as [E|(_ & _ & t & p & Ht & E)]; [lia|]. specialize (He1 p ltac:(apply Hin; by exists t)). lia.
Qed.

Lemma first_time_le s t p : inv s → waits_in s t p → first_time s ≤ time (es s !!! p).
Proof.
  intros Hi Hw. destruct (earliest_spec (es s) (workerThreads s ≫= waiting (policy s))) as (He & _). apply He.
  apply list_elem_of_bind. exists t. split; [done|].
  eapply (iv_owner _ Hi), (rp_waiting _ _ _ _ _ _ (iv_ok _ Hi) Hw).
Qed.

Definition next_round s s' : Prop :=
  roundEnd s ≤ first_time s ∧
  if first_time s <? endTime s
  then inv s' ∧ isRunning s' = true ∧ windowStart s' = first_time s ∧ endTime s' = endTime s ∧
       roundEnd s' = Z.min (endTime s) (first_time s + _controller_getMinTimeJump (controller s'))
  else finished s'.

(** The end of a round: the next window starts at the first event that waits;
    without one before the end time the simulation is over. *)
Lemma nextRound_ok s :
  inv s → isRunning s = true → started s = true → map_Forall (λ _ w, phase w = Done) (workers s) →
  next_round s (manager_nextRound s).
Proof.
  intros Hi Hr Hs Hall. unfold next_round. set (s' := manager_nextRound s). pose proof (least_time_exact s Hi Hall) as HM. pose proof (iv_bounds _ Hi) as Hb.
  assert (Hle : roundEnd s ≤ first_time s) by (rewrite <-HM; destruct (iv_min _ Hi) as [_ [->|(_ & ? & _)]]; lia).
  split; [done|]. destruct (iv_controller _ Hi) as (Hce & Hcfg & Hnext & Hfit).
  set (c := (controller s) <| minJumpTime := nextMinJumpTime (controller s) |>).
  pose proof (jump_positive c) as Hj. set (jump := _controller_getMinTimeJump c) in *.
  apply Z.ltb_lt in Hfit. change (endTime s + jump < 2 ^ 64) in Hfit.
  set (stop := if endTime s <? u64 (first_time s + jump) then endTime s else u64 (first_time s + jump)).
  set (c' := c <| executeWindowStart := first_time s |> <| executeWindowEnd := stop |>).
  set (s1 := s <| minEventTimes := (λ _, SIMTIME_MAX) <$> minEventTimes s |> <| minNextEventTime := first_time s |>
    <| controller := c' |> <| windowStart := first_time s |> <| windowEnd := stop |>).
  assert (Es' : s' = if first_time s <? stop then scheduler_continueNextRound s1 (first_time s) stop
                     else s1 <| isRunning := false |>).
  { unfold s', manager_nextRound, scheduler_awaitNextRound, workerpool_getGlobalNextEventTime. cbv zeta.
    rewrite HM. unfold controller_managerFinishedCurrentRound. cbn [controller set_field]. fold c.
    unfold s1, c', stop, jump. by rewrite <-Hce. }
  clearbody s'. subst s'.
  destruct (Z.ltb_spec (first_time s) (endTime s)) as [Hlt|Hge].
  - assert (Hstop : first_time s < stop ≤ endTime s ∧ stop ≤ first_time s + jump).
    { unfold stop. rewrite u64_small by lia. destruct (Z.ltb_spec (endTime s) (first_time s + jump)); lia. }
    assert ((first_time s <? stop) = true) as Ht by (apply Z.ltb_lt; lia).
    rewrite Ht. split; [|split; [done|split; [done|split; [done|]]]].
    2: { change (stop = Z.min (endTime s) (first_time s + jump)). unfold stop. rewrite u64_small by lia.
         destruct (Z.ltb_spec (endTime s) (first_time s + jump)); lia. }
    pose proof (inv_window s (first_time s) stop c' ((λ _, SIMTIME_MAX) <$> minEventTimes s) ((λ w, w <| phase := Idle |>) <$> workers s)
      (started s) Hi Hs) as Hw. cbv zeta in Hw. rewrite Hs in Hw at 1.
    apply Hw; [lia|lia|change (_controller_getMinTimeJump c') with jump; lia|..].
    + intros t p Ht'. by apply first_time_le with (t := t) in Ht'.
    + split_and!; try done. unfold jump_fits. by apply Z.ltb_lt.
    + apply least_time_reset.
    + rewrite length_fmap. apply Hi.
    + intros t. by rewrite lookup_fmap, fmap_is_Some.
    + intros t w. rewrite lookup_fmap_Some. by intros (? & <- & _).
  - assert ((first_time s <? stop) = false) as Hf.
    { apply Z.ltb_ge. unfold stop. case_match eqn:E; [lia|]. apply Z.ltb_ge in E. lia. }
    rewrite Hf. constructor; cbn; try done; [apply Hi| |].
    + intros t p Hw. pose proof (first_time_le s t p Hi Hw). pose proof (iv_waiting _ Hi _ _ Hw). lia.
    + destruct (iv_executed _ Hi) as [? He]. split; [done|]. intros h t Hin. destruct (He h t Hin). lia.
Qed.

(** *** Every act *)

Lemma act_ok s a :
  inv s → enabled P s a = true →
  if is_round a then exec P s a = Some (manager_nextRound s) ∧ next_round s (manager_nextRound s)
  else stays s (exec P s a).
Proof.
  intros Hi [Hr Ha]%andb_true_iff. destruct a as [self host| |self lpi|self fresh block|self task delay fresh block
    |self task dstID delay fresh block|self|x|]; cbn [is_round exec].
  - apply andb_true_iff in Ha as [Hph Hl]. destruct (getAssignedHosts P (policy s) self) as [l|] eqn:E; [|done].
    apply bool_decide_eq_true in Hl. by eapply boot_host_ok.
  - apply bool_decide_eq_true in Ha. by apply manager_begin_ok.
  - apply andb_true_iff in Ha as [Hph Hl%Nat.ltb_lt]. by apply begin_round_ok.
  - apply andb_true_iff in Ha as [Hph Hf]. by apply pop_event_ok.
  - apply andb_true_iff in Ha as [[Hrun Hf]%andb_true_iff Hd]. unfold delay_fits in Hd.
    destruct (workers s !! self) as [w|] eqn:E; [|done]. apply bool_decide_eq_true in Hrun as [host Hh].
    destruct (running_caller s self w host Hi E Hh) as [now Hca]. rewrite (ca_now _ _ _ _ _ Hca) in Hd. cbn in Hd.
    destruct (scheduleTask_ok s self host now w task delay fresh block) as (s' & b & Es & Hi' & Hsb); try done; [lia..|].
    cbn [mbind option_bind]. rewrite Hh. cbn [mbind option_bind]. rewrite Es. exists s'. split; [done|]. split; [done|].
    destruct Hsb as [_ _ [-> _] _ (-> & _ & ->) _]. by split.
  - apply andb_true_iff in Ha as [[[Hrun Hf]%andb_true_iff Hd]%andb_true_iff Hid]. unfold delay_fits in Hd.
    destruct (workers s !! self) as [w|] eqn:E; [|done]. apply bool_decide_eq_true in Hrun as [host Hh].
    apply bool_decide_eq_true in Hid as [dst Hdst]. destruct (iv_hosts _ Hi _ _ Hdst) as [t Hown].
    destruct (running_caller s self w host Hi E Hh) as [now Hca]. rewrite (ca_now _ _ _ _ _ Hca) in Hd. cbn in Hd.
    destruct (deliverPacket_ok s self host now w task dstID dst delay fresh block t) as (s' & b & Es & Hi' & Hsb & _); try done; [lia..|].
    cbn [mbind option_bind]. rewrite Hh. cbn [mbind option_bind]. rewrite Es. exists s'. split; [done|]. split; [done|].
    destruct Hsb as [_ _ [-> _] _ (-> & _ & ->) _]. by split.
  - by apply report_next_time_ok.
  - destruct (controller_updateMinTimeJump _ _) as [c|] eqn:E; [|done]. exists (s <| controller := c |>).
    split; [done|]. split; [by eapply update_jump_ok|by split].
  - apply andb_true_iff in Ha as [Hs Hall%bool_decide_eq_true]. split; [done|]. by apply nextRound_ok.
Qed.

(** ** The start of the simulation *)

Record good_start (hs0 : hosts) (queue threads : list Z) (nLogicalProcessors : Z) (c : Controller) : Prop := mkGoodStart {
  gs_hosts : NoDup queue ∧ ∀ h, Cpu.time_ok (cpu (hs0 !!! h));
  gs_threads : threads ≠ [] ∧ NoDup threads ∧ Forall (λ t, 0 < t < 2 ^ 32) threads;
  gs_processors : 0 < nLogicalProcessors;
  gs_end : 0 < c_endTime c ≤ SIMTIME_MAX;
  gs_jump : 0 ≤ minJumpTimeConfig c ∧ 0 ≤ nextMinJumpTime c ∧
    c_endTime c + _controller_getMinTimeJump (c <| minJumpTime := nextMinJumpTime c |>) < 2 ^ 64;
}.

Lemma assignHosts_good queue threads blocks :
  NoDup queue → threads ≠ [] → Forall (λ t, 0 < t < 2 ^ 32) threads →
  let assign := _scheduler_assignHosts queue threads blocks in
  good_assignment assign ∧ (∀ h t, assigned assign h t → t ∈ threads) ∧ assign.*1.*1 = queue.
Proof.
  intros Hq Hne Hth assign.
  assert (Hf : assign.*1.*1 = queue).
  { unfold assign, _scheduler_assignHosts. rewrite !fmap_imap. apply list_eq. intros i. rewrite list_lookup_imap. by destruct (queue !! i). }
  assert (Ht : ∀ h t, assigned assign h t → t ∈ threads).
  { intros h t Ha. unfold assigned, assign, _scheduler_assignHosts in Ha. rewrite fmap_imap in Ha.
    apply elem_of_lookup_imap in Ha as (i & h' & [= <- ->] & _). apply list_elem_of_lookup_total_2.
    apply Nat.mod_upper_bound. by destruct threads. }
  split; [split|by split]; [by rewrite Hf|].
  apply Forall_forall. intros t (ht & -> & Hin)%list_elem_of_fmap. destruct ht as [h t].
  rewrite Forall_forall in Hth. by apply Hth, (Ht h).
Qed.

Lemma start_inv hs0 queue threads blocks main n c :
  good_start hs0 queue threads n c → inv (scheduler_start P hs0 queue threads blocks main n c).
Proof.
  intros [[Hq Hcpu] (Hne & Hnd & Hth) Hn Hend (Hcfg & Hnext & Hfit)].
  destruct (assignHosts_good queue threads blocks Hq Hne Hth) as (Hga & Hat & Hfst).
  set (assign := _scheduler_assignHosts _ _ _) in *.
  destruct (rp_init main assign hs0 ∅ Hga) as (Hok & Hw & Hl & Ho & Hmay).
  set (d := register P main assign) in *.
  assert (Hwk : ∀ t w, workers (scheduler_start P hs0 queue threads blocks main n c) !! t = Some w →
    phase w = Booting None ∧ roundEndTime w = None).
  { intros t w E. cbn in E. apply elem_of_list_to_map_2, elem_of_lookup_imap in E as (i & t' & [= -> ->] & _). by split. }
  constructor; unfold waits_in, scheduler_start; cbn; fold assign d; try done.
  - lia.
  - intros t p. rewrite Hw. by intros ?%elem_of_nil.
  - split; [done|]. intros t. rewrite <-elem_of_dom, dom_list_to_map. rewrite elem_of_list_to_set, fmap_imap.
    match goal with |- _ ↔ _ ∈ ?l => assert (l = threads) as ->; [|done] end.
    apply list_eq. intros i. rewrite list_lookup_imap. by destruct (threads !! i).
  - intros h t Hoh. by apply (Hat h), Ho.
  - intros id h E. apply elem_of_list_to_map_2, list_elem_of_fmap in E as (h' & [= _ ->] & Hin).
    rewrite <-Hfst in Hin. apply list_elem_of_fmap in Hin as ([h t] & -> & Ha). exists t. by apply Ho.
  - intros t w [Ep Er]%Hwk. unfold worker_ok. rewrite Ep. done.
  - intros t1 t2 w1 w2 e [Ep _]%Hwk P1. by rewrite Ep in P1.
  - intros _. split; [done|]. split; [done|]. intros h t Hoh. by apply Hmay, Ho.
  - unfold min_ok. cbn. rewrite least_time_replicate. split; [|by left].
    intros t p (w & [Ep _]%Hwk & Ed). by rewrite Ep in Ed.
  - rewrite length_replicate. lia.
  - split_and!; [done..|]. unfold jump_fits. cbn. by apply Z.ltb_lt.
  - destruct (threads ≫= waiting d) as [|p l] eqn:E; [done|].
    assert (Hp : p ∈ threads ≫= waiting d) by (rewrite E; left). apply list_elem_of_bind in Hp as (t & Hp & _).
    rewrite Hw in Hp. by apply elem_of_nil in Hp.
  - split; [intros i j h t t' _ Hi; by rewrite lookup_nil in Hi|by intros h t ?%elem_of_nil].
Qed.

(** ** The shuffle *)

Lemma shuffle_loop_perm i js array array' :
  shuffle_loop i js array = Some array' → array' ≡ₚ array.
Proof.
  revert i array. induction js as [|j js IH]; intros i array E; [by injection E as ->|].
  cbn [shuffle_loop] in E. set (k := (i + _)%nat) in E.
  destruct (array !! i) as [x|] eqn:Ei; [|done]. cbn [mbind option_bind] in E.
  destruct (array !! k) as [y|] eqn:Ek; [|done]. cbn [mbind option_bind] in E.
  rewrite (IH _ _ E). pose proof (PQ.take_swapped_perm i k (length array) array) as Hp. unfold PQ.swapped in Hp.
  rewrite (list_lookup_total_correct _ _ _ Ei), (list_lookup_total_correct _ _ _ Ek) in Hp.
  rewrite firstn_all, take_ge in Hp by (by rewrite !length_insert).
  apply Hp; [by apply lookup_lt_Some in Ei|by apply lookup_lt_Some in Ek|done].
Qed.

Lemma shuffle_loop_total i js array :
  (∀ n j, js !! n = Some j → 0 ≤ j ≤ Z.of_nat (length array) - Z.of_nat (i + n)) → (i + length js < length array)%nat ∨ js = [] →
  is_Some (shuffle_loop i js array).
Proof.
  revert i array. induction js as [|j js IH]; intros i array Hj Hl; [by eexists|].
  destruct Hl as [Hl|]; [|done]. cbn [length] in Hl. cbn [shuffle_loop].
  pose proof (Hj 0%nat j eq_refl) as H0. rewrite Nat.add_0_r in H0.
  set (j' := if j =? _ then _ else _). assert (Hj' : 0 ≤ j' < Z.of_nat (length array) - Z.of_nat i).
  { unfold j'. case_match eqn:E; [apply Z.eqb_eq in E|apply Z.eqb_neq in E]; lia. }
  destruct (lookup_lt_is_Some_2 array i) as [x ->]; [lia|]. cbn [mbind option_bind].
  destruct (lookup_lt_is_Some_2 array (i + Z.to_nat j')) as [y ->]; [lia|]. cbn [mbind option_bind].
  apply IH; rewrite !length_insert; [|destruct js; [by right|left; cbn in *; lia]].
  intros n k Hk. specialize (Hj (S n) k Hk). lia.
Qed.

(** The shuffle is a permutation of the queue; it has a result for all random
    numbers in [0, 1] and any queue that is not empty. *)
Theorem shuffle_permutation js (queue : list Z) :
  (∀ queue', _scheduler_shuffleQueue js queue = Some queue' → queue' ≡ₚ queue) ∧
  (0 < Z.of_nat (length queue) < 2 ^ 32 → length js = (length queue - 1)%nat →
   (∀ n j, js !! n = Some j → 0 ≤ j ≤ Z.of_nat (length queue) - Z.of_nat n) →
   is_Some (_scheduler_shuffleQueue js queue)).
Proof.
  unfold _scheduler_shuffleQueue. split.
  - intros queue'. case_match; [|done]. apply shuffle_loop_perm.
  - intros Hq Hl Hj. rewrite u32_small by lia. rewrite (proj2 (Nat.eqb_eq _ _)) by lia.
    apply shuffle_loop_total; [exact Hj|]. left. lia.
Qed.

(** ** Runs *)

Lemma run_ok acts s0 s :
  inv s0 → isRunning s0 = true → run P s0 acts = Some s →
  (isRunning s = true ∧ inv s ∨ finished s) ∧
  windowStart s0 + Z.of_nat (length (filter (λ a, is_round a = true) acts)) ≤ endTime s0.
Proof.
  revert s0. induction acts as [|a acts IH]; intros s0 Hi Hr E.
  { injection E as ->. split; [by left|]. pose proof (iv_bounds _ Hi). cbn. lia. }
  cbn [run] in E. destruct (enabled P s0 a) eqn:Ha; [|done]. pose proof (act_ok s0 a Hi Ha) as Hex.
  pose proof (iv_bounds _ Hi) as Hb. rewrite filter_cons. destruct (is_round a) eqn:Ea.
  - destruct Hex as (Ex & Hle & Hex). rewrite Ex in E. cbn [mbind option_bind] in E. rewrite decide_True by done. cbn [length].
    destruct (first_time s0 <? endTime s0).
    + destruct Hex as (Hi' & Hr' & Hw' & He' & _). destruct (IH _ Hi' Hr' E) as [? Hn]. split; [done|]. lia.
    + destruct acts as [|b acts]; [injection E as <-; split; [by right|cbn; lia]|].
      cbn [run] in E. unfold enabled in E. by rewrite (fi_running _ Hex) in E.
  - destruct Hex as (s1 & Ex & Hi' & Hr' & Hw' & He'). rewrite Ex in E. cbn [mbind option_bind] in E.
    rewrite decide_False by done. rewrite Hr in Hr'. destruct (IH _ Hi' Hr' E) as [? Hn]. split; [done|]. lia.
Qed.

(** Advances along enabled acts that do not make new events. *)
Definition advances (a : act) : bool :=
  match a with ABegin | AStart _ _ | APop _ _ _ | ANext _ | ARound => true | _ => false end.

Lemma fresh_exists s : ∃ event, is_fresh s event = true.
Proof.
  destruct (exist_fresh (dom (es s) ∪ {[ 0 ]})) as [x Hx]. exists x. unfold is_fresh.
  rewrite not_elem_of_union, not_elem_of_singleton, not_elem_of_dom in Hx. destruct Hx as [Hn H0].
  rewrite (proj2 (Z.eqb_neq x 0)), bool_decide_false by (rewrite ?Hn; by first [done|intros [? ?]]). done.
Qed.

Lemma can_advance s :
  inv s → isRunning s = true → ∃ a, advances a = true ∧ enabled P s a = true.
Proof.
  intros Hi Hr. pose proof (iv_times _ Hi) as Hl. unfold enabled. rewrite Hr. cbn [andb].
  destruct (started s) eqn:Hs.
  2: { exists ABegin. split; [done|]. apply bool_decide_eq_true. intros t w E. pose proof (iv_workers _ Hi _ _ E) as Hk.
       unfold worker_ok in Hk. destruct (phase w) as [| |[e|]| |]; try done; unfold in_round in Hk; destruct_and?; congruence. }
  destruct (decide (map_Forall (λ _ w, phase w = Done) (workers s))) as [Hall|Hn].
  { exists ARound. split; [done|]. by apply bool_decide_eq_true. }
  apply map_not_Forall in Hn as (t & w & E & Hd); [|apply _].
  pose proof (iv_workers _ Hi _ _ E) as Hk. unfold worker_ok in Hk. destruct (fresh_exists s) as [x Hx].
  destruct (phase w) as [h| |e| |] eqn:Ep; [by destruct Hk; congruence| | | |done].
  - exists (AStart t 0). split; [done|]. unfold in_phase. rewrite E, Ep, bool_decide_true by done. by apply Nat.ltb_lt.
  - exists (APop t x 0). split; [done|]. unfold in_phase. by rewrite E, Ep.
  - exists (ANext t). split; [done|]. unfold in_phase. by rewrite E, Ep, bool_decide_true.
Qed.

End Invariant.

(** ** Properties *)

Section Properties.
Context {D : Type} (P : SchedulerPolicy D) `{!RoundPolicy P}.

(** A state that the simulation reaches, by any interleaving of the threads. *)
Definition reaches (hs0 : hosts) (queue threads : list Z) (blocks : nat → Z) (main n : Z) (c : Controller)
    (acts : list act) (s : Sim D) : Prop :=
  run P (scheduler_start P hs0 queue threads blocks main n c) acts = Some s.

(** C1: for any policy that meets the interface, and any interleaving of the
    worker threads with their tasks and packets, every call the simulator can
    make succeeds (no failed assertion, no event in a host's past), the events
    of each host are executed in the order of their times, all before the end
    time, and in a running round all before the end of its window. *)
Theorem rounds_safe hs0 queue threads blocks main n c acts s :
  good_start hs0 queue threads n c → reaches hs0 queue threads blocks main n c acts s →
  (∀ a, enabled P s a = true → is_Some (exec P s a)) ∧
  causal (executed s) ∧
  (∀ h t, (h, t) ∈ executed s → t < endTime s ∧ (isRunning s = true → t < roundEnd s)).
Proof.
  intros Hg Hr. destruct (run_ok P acts _ s (start_inv P _ _ _ _ _ _ _ Hg) eq_refl Hr) as [[[Hrun Hi]|Hf] _].
  - split_and!; [|apply Hi|].
    + intros a Ha. pose proof (act_ok P s a Hi Ha) as Hex. destruct (is_round a).
      * destruct Hex as (-> & _). by eexists.
      * destruct Hex as (s' & -> & _). by eexists.
    + intros h t Hin. destruct (proj2 (iv_executed _ _ Hi) h t Hin). pose proof (iv_bounds _ _ Hi). lia.
  - destruct Hf as [Hrun _ _ [Hca He]]. split_and!; [|done|].
    + intros a Ha. unfold enabled in Ha. by rewrite Hrun in Ha.
    + intros h t Hin. split; [by eapply He|congruence].
Qed.

(** C2: no event is lost or executed twice.  While the simulation runs some
    thread can go on; when it is over, the events the scheduler accepted are
    the executed ones and those that lie at the end time. *)
Theorem rounds_complete hs0 queue threads blocks main n c acts s :
  good_start hs0 queue threads n c → reaches hs0 queue threads blocks main n c acts s →
  let left := workerThreads s ≫= waiting (policy s) in
  accepted s ≡ₚ popped s ++ left ∧
  (isRunning s = true → ∃ a, advances a = true ∧ enabled P s a = true) ∧
  (isRunning s = false → ∀ p, p ∈ left → time (es s !!! p) = endTime s).
Proof.
  intros Hg Hr left. destruct (run_ok P acts _ s (start_inv P _ _ _ _ _ _ _ Hg) eq_refl Hr) as [[[Hrun Hi]|Hf] _].
  - split; [apply Hi|]. split; [intros _; by apply (can_advance P)|congruence].
  - split; [apply Hf|]. split; [destruct Hf; congruence|]. intros _ p (t & Hp & _)%list_elem_of_bind.
    by apply (fi_left _ _ Hf t).
Qed.

(** C27: a round that ends moves the window to the first event that waits, and
    skips no time in which an event lies; the window is never empty, does not
    reach back into the round before and ends at the end time or a jump
    later; without an event before the end time the simulation stops. *)
Theorem round_window hs0 queue threads blocks main n c acts s :
  good_start hs0 queue threads n c → reaches hs0 queue threads blocks main n c acts s →
  enabled P s ARound = true →
  let s' := manager_nextRound s in
  let first := earliest (es s) (workerThreads s ≫= waiting (policy s)) in
  roundEnd s ≤ first ∧ isRunning s' = (first <? endTime s) ∧
  (first < endTime s → windowStart s' = first ∧ first < roundEnd s' ≤ endTime s ∧
     roundEnd s' = Z.min (endTime s) (first + _controller_getMinTimeJump (controller s'))).
Proof.
  intros Hg Hr Ha s' first. destruct (run_ok P acts _ s (start_inv P _ _ _ _ _ _ _ Hg) eq_refl Hr) as [[[Hrun Hi]|Hf] _].
  2: { unfold enabled in Ha. by rewrite (fi_running _ _ Hf) in Ha. }
  destruct (act_ok P s ARound Hi Ha) as [_ [Hle Hn]]. unfold first_time in *. fold first s' in Hle, Hn.
  split; [done|]. destruct (Z.ltb_spec first (endTime s)) as [Hlt|].
  - destruct Hn as (Hi' & ? & Hw & ? & He). split; [done|]. intros _. pose proof (iv_bounds _ _ Hi').
    split; [done|]. split; [lia|done].
  - split; [apply Hn|lia].
Qed.

(** C28: the simulation cannot go through more rounds than its end time has
    nanoseconds. *)
Theorem rounds_terminate hs0 queue threads blocks main n c acts s :
  good_start hs0 queue threads n c → reaches hs0 queue threads blocks main n c acts s →
  Z.of_nat (length (filter (λ a, is_round a = true) acts)) ≤ c_endTime c.
Proof. intros Hg Hr. by apply (run_ok P acts _ s (start_inv P _ _ _ _ _ _ _ Hg) eq_refl Hr). Qed.

(** A packet whose path is at least as long as the window (the lookahead)
    arrives when it should: the policy does not postpone it. *)
Theorem packet_lookahead hs0 queue threads blocks main n c acts s self task dstID delay event block :
  good_start hs0 queue threads n c → reaches hs0 queue threads blocks main n c acts s →
  started s = true → enabled P s (APacket self task dstID delay event block) = true →
  _controller_getMinTimeJump (controller s) ≤ delay →
  ∃ w now s', workers s !! self = Some w ∧ currentTime w = Some now ∧
    exec P s (APacket self task dstID delay event block) = Some s' ∧
    (now + delay < endTime s → accepted s' = accepted s ++ [event] ∧ time (es s' !!! event) = now + delay).
Proof.
  intros Hg Hr Hs Ha Hd. destruct (run_ok P acts _ s (start_inv P _ _ _ _ _ _ _ Hg) eq_refl Hr) as [[[Hrun Hi]|Hf] _].
  2: { unfold enabled in Ha. by rewrite (fi_running _ _ Hf) in Ha. }
  unfold enabled in Ha. rewrite Hrun in Ha. cbn [andb] in Ha.
  apply andb_true_iff in Ha as [[[Hh Hfr]%andb_true_iff Hdl]%andb_true_iff Hid]. unfold delay_fits in Hdl.
  destruct (workers s !! self) as [w|] eqn:E; [|done]. apply bool_decide_eq_true in Hh as [host Hh].
  apply bool_decide_eq_true in Hid as [dst Hdst]. destruct (iv_hosts _ _ Hi _ _ Hdst) as [t Hown].
  destruct (running_caller P s self w host Hi E Hh) as [now Hca]. rewrite (ca_now _ _ _ _ _ _ Hca) in Hdl. cbn in Hdl.
  pose proof (jump_positive (controller s)) as Hj.
  destruct (deliverPacket_ok P s self host now w task dstID dst delay event block t)
    as (s' & b & Es & _ & _ & Hb & Hres); try done; [lia..|].
  exists w, now, s'. split; [done|]. split; [apply Hca|]. cbn [exec mbind option_bind]. rewrite E. cbn [mbind option_bind].
  rewrite Hh. cbn [mbind option_bind]. rewrite Es. split; [done|]. intros Hlt%Z.ltb_lt. rewrite Hlt in Hb.
  destruct (Hres Hb) as (Hacc & _ & e & He & Hpt). split; [done|].
  destruct (iv_window _ _ Hi Hs) as [_ Hwin]. pose proof (ca_time _ _ _ _ _ _ Hca).
  destruct Hpt as [[->| ->] _]; cbn; lia.
Qed.

End Properties.

(** ** Two hosts on two threads *)

(** Windows of ten milliseconds, an end time of one second. *)
Definition demo_controller : Controller := _controller_initializeTimeWindows (controller_new 0) SIMTIME_ONE_SECOND 2 0.

Definition demo_start {D} (P : SchedulerPolicy D) : Sim D :=
  scheduler_start P sample_hosts [100; 200] [1; 2] (λ i, 1000 + Z.of_nat i) 9 2 demo_controller.

(** Host 200 makes a task while it boots, and runs it in the first round. *)
Definition demo_run : list act :=
  [ABoot 2 200; ATask 2 7 0 11 500; ABegin; AStart 1 0; AStart 2 1; APop 1 50 501; ANext 1; APop 2 50 502].

(** The task sends a packet to host 100 when thread 1 has reported. *)
Definition demo_send : list act := demo_run ++ [APacket 2 8 1 5 12 503; APop 2 50 504; ANext 2].

(** One more round, in which the packet arrives; thread 1 pops until there is
    no event, which is once with [pops] empty. *)
Definition demo_rounds (pops : list act) : list act :=
  demo_send ++ [ARound; AStart 1 0; AStart 2 1] ++ pops ++ [APop 1 50 501; ANext 1; APop 2 50 504; ANext 2; ARound].

(** The simulation ends without an event it accepted for an earlier time. *)
Definition loses_event {D} (P : SchedulerPolicy D) : Prop :=
  ∃ s p, run P (demo_start P) (demo_rounds []) = Some s ∧ isRunning s = false ∧
    p ∈ accepted s ∧ (p ∉ popped s) ∧ time (es s !!! p) < endTime s.

Definition view {D} (s : Sim D) : bool * list Z * list Z * Z * Z * list (Z * Z) :=
  (isRunning s, accepted s, popped s, time (es s !!! 12), endTime s, executed s).

Lemma run_view {D A} (f : Sim D → A) (r : option (Sim D)) (v : A) : (f <$> r) = Some v → ∃ s, r = Some s ∧ f s = v.
Proof. intros (s & -> & ->)%fmap_Some. by exists s. Qed.

Lemma loses_view {D} (P : SchedulerPolicy D) l :
  (view <$> run P (demo_start P) (demo_rounds [])) = Some (false, [11; 12], [11], 5, SIMTIME_ONE_SECOND, l) →
  loses_event P.
Proof.
  intros (s & E & [= E1 E2 E3 E4 E5 _])%run_view. exists s, 12. rewrite E2, E3, E4, E5. split; [done|]. split; [done|].
  split; [by right; left|]. split; [by intros ?%list_elem_of_singleton|done].
Qed.

(** With the policies that use mailboxes the simulator loses events.  They
    empty a thread's mailboxes when it asks for the next event time, which
    they take to lie between rounds; but a thread asks as soon as its own
    events are done, and what other threads send it later in the round stays
    in the mailbox during the next round. *)
Theorem mailbox_policies_lose_event :
  loses_event (threadperthread nomove demo_keys) ∧ loses_event (threadperhost nomove demo_keys).
Proof. split; eapply loses_view; vm_compute; reflexivity. Qed.

(** ** Witnesses *)

Lemma demo_good : good_start sample_hosts [100; 200] [1; 2] 2 demo_controller.
Proof.
  constructor; [| |done|done|by vm_compute].
  - split; [by apply (bool_decide_unpack _)|]. intros h. rewrite lookup_total_alt.
    assert (Hc : ∀ x, sample_hosts !! h = Some x → Cpu.time_ok (cpu x)).
    { intros x Hx. unfold sample_hosts in Hx. apply lookup_insert_Some in Hx as [[_ <-]|[_ Hx]]; [by vm_compute|].
      apply lookup_singleton_Some in Hx as [_ <-]. by vm_compute. }
    destruct (sample_hosts !! h) as [x|]; [by apply Hc|by vm_compute].
  - split; [done|]. split; [by apply (bool_decide_unpack _)|]. by repeat constructor.
Defined.

Lemma rounds_safe_witness :
  ∃ s, run (hostsingle nomove) (demo_start (hostsingle nomove)) (demo_rounds [APop 1 50 501]) = Some s ∧
    executed s = [(200, 0); (100, 5)] ∧ causal (executed s).
Proof.
  destruct (run_view executed (run (hostsingle nomove) (demo_start (hostsingle nomove)) (demo_rounds [APop 1 50 501]))
    [(200, 0); (100, 5)]) as (s & E & Ex); [vm_compute; reflexivity|]. exists s. split; [done|]. split; [done|].
  by apply (rounds_safe (hostsingle nomove) _ _ _ _ _ _ _ _ s demo_good E).
Defined.

Lemma rounds_complete_witness :
  ∃ s, run (threadsingle nomove) (demo_start (threadsingle nomove)) (demo_rounds [APop 1 50 501]) = Some s ∧
    isRunning s = false ∧ accepted s ≡ₚ popped s ++ (workerThreads s ≫= waiting (P:=threadsingle nomove) (policy s)).
Proof.
  destruct (run_view isRunning (run (threadsingle nomove) (demo_start (threadsingle nomove)) (demo_rounds [APop 1 50 501]))
    false) as (s & E & Ex); [vm_compute; reflexivity|]. exists s. split; [done|]. split; [done|].
  by apply (rounds_complete (threadsingle nomove) _ _ _ _ _ _ _ _ s demo_good E).
Defined.

Lemma round_window_witness :
  ∃ s, run (threadsingle nomove) (demo_start (threadsingle nomove)) demo_send = Some s ∧
    roundEnd s = 1 ∧ isRunning (manager_nextRound s) = true ∧ windowStart (manager_nextRound s) = 5.
Proof.
  destruct (run_view (λ s, (roundEnd s, earliest (es s) (workerThreads s ≫= waiting (P:=threadsingle nomove) (policy s)), endTime s,
      enabled (threadsingle nomove) s ARound))
    (run (threadsingle nomove) (demo_start (threadsingle nomove)) demo_send)
    (1, 5, SIMTIME_ONE_SECOND, true)) as (s & E & [= E1 E2 E3 E4]); [vm_compute; reflexivity|].
  exists s. split; [done|]. split; [done|].
  destruct (round_window (threadsingle nomove) _ _ _ _ _ _ _ _ s demo_good E E4) as (_ & Hr & Hw).
  change (earliest (es s) (workerThreads s ≫= waiting (P:=threadsingle nomove) (policy s)) = 5) in E2.
  rewrite E2, E3 in Hr, Hw. split; [done|]. by apply Hw.
Defined.

Lemma rounds_terminate_witness :
  Z.of_nat (length (filter (λ a, is_round a = true) (demo_rounds [APop 1 50 501]))) ≤ SIMTIME_ONE_SECOND.
Proof.
  destruct (run_view isRunning (run (hostsingle nomove) (demo_start (hostsingle nomove)) (demo_rounds [APop 1 50 501]))
    false) as (s & E & Ex); [vm_compute; reflexivity|].
  exact (rounds_terminate (hostsingle nomove) _ _ _ _ _ _ _ _ s demo_good E).
Defined.

Lemma packet_lookahead_witness :
  ∃ s s', run (threadsingle nomove) (demo_start (threadsingle nomove)) demo_run = Some s ∧
    exec (threadsingle nomove) s (APacket 2 8 1 (10 * SIMTIME_ONE_MILLISECOND) 12 503) = Some s' ∧
    time (es s' !!! 12) = 10 * SIMTIME_ONE_MILLISECOND.
Proof.
  set (a := APacket 2 8 1 (10 * SIMTIME_ONE_MILLISECOND) 12 503).
  destruct (run_view (λ s, (started s, enabled (threadsingle nomove) s a, _controller_getMinTimeJump (controller s),
      endTime s, currentTime <$> workers s !! 2))
    (run (threadsingle nomove) (demo_start (threadsingle nomove)) demo_run)
    (true, true, 10 * SIMTIME_ONE_MILLISECOND, SIMTIME_ONE_SECOND, Some (Some 0)))
    as (s & E & [= E1 E2 E3 E4 E5]); [vm_compute; reflexivity|].
  destruct (packet_lookahead (threadsingle nomove) _ _ _ _ _ _ _ _ s 2 8 1 (10 * SIMTIME_ONE_MILLISECOND) 12 503 demo_good E E1 E2)
    as (w & now & s' & Ew & Enow & Ex & Hres); [by rewrite E3|].
  rewrite Ew in E5. cbn in E5. rewrite Enow in E5. injection E5 as ->. exists s, s'. split; [done|]. split; [done|].
  rewrite E4 in Hres. by apply Hres.
Defined.

End Rounds.
