(* ===== verification/HostSteal.v ===== *)
(** * The host-steal scheduling policy
    (src/phantom/src/main/core/scheduler/scheduler_policy_host_steal.c)

    Every host has a queue of its own, and every worker thread a list of
    hosts, as with the host-single policy; but a thread that is through with
    its hosts takes hosts that other threads have not started yet.  A pop is
    therefore several atomic sections, between which other threads move: the
    search of the own list under the own lock, and for each other thread a
    look at its barrier, a wait until it has entered the round, an unlocked
    look at its list, and a search of its list under both locks.  The threads
    are a transition system over these sections. *)

From S2P Require Import Prelude Float64 Cpu PriorityQueue Event SchedulerHostSingle ThreadPolicies RoundPolicy Rounds.

Module Steal.
Import Host Ev.
#[local] Existing Instances Sched.qdata_eta PQ.pq_eta.

(** The queue with its counters has the fields of the host-single policy's. *)
Abbreviation HostStealQueueData := Sched.HostSingleQueueData.

Record HostStealThreadData := mkTData {
  allHosts : option (list Z);
  unprocessedHosts : list Z;
  processedHosts : list Z;
  runningHost : Z;
  currentBarrier : Z;
  tnumber : Z;
  isStealable : bool;
}.

#[export] Instance tdata_eta : Eta HostStealThreadData := fun t =>
  mkTData (allHosts t) (unprocessedHosts t) (processedHosts t) (runningHost t) (currentBarrier t)
    (tnumber t) (isStealable t).

(** The data of a thread is known by the thread's id, also in [threadList]. *)
Record HostStealPolicyData := mkPolicy {
  threadList : list Z;
  threadCount : Z;
  hostToQueueDataMap : gmap Z HostStealQueueData;
  threadToThreadDataMap : gmap Z HostStealThreadData;
  hostToThreadMap : gmap Z Z;
}.

#[export] Instance policy_eta : Eta HostStealPolicyData := fun d =>
  mkPolicy (threadList d) (threadCount d) (hostToQueueDataMap d) (threadToThreadDataMap d) (hostToThreadMap d).

Implicit Types d : HostStealPolicyData.

Section Operations.
Context (g_renew : Z → nat → Z).

(** ** Hosts and threads *)

Definition _hoststealthreaddata_new : HostStealThreadData := mkTData None [] [] 0 0 0 false.

(** [block] is the address of the new queue's array. *)
Definition _hoststealqueuedata_new (block : Z) : HostStealQueueData := Sched._hostsinglequeuedata_new block.

Definition with_tdata d (t : Z) (f : HostStealThreadData → HostStealThreadData) : HostStealPolicyData :=
  d <| threadToThreadDataMap := alter f t (threadToThreadDataMap d) |>.

(** A thread that is new to the policy gets the next number. *)
Definition add_thread d (t : Z) : HostStealPolicyData :=
  match threadToThreadDataMap d !! t with
  | Some _ => d
  | None =>
      d <| threadToThreadDataMap :=
             <[t := _hoststealthreaddata_new <| tnumber := threadCount d |>]> (threadToThreadDataMap d) |>
        <| threadCount := u32 (threadCount d + 1) |> <| threadList := threadList d ++ [t] |>
  end.

(** [self] is the calling thread. *)
Definition _schedulerpolicyhoststeal_addHost d (block host randomThread self : Z) : HostStealPolicyData :=
  let d := match hostToQueueDataMap d !! host with
           | None => d <| hostToQueueDataMap :=
                            <[host := _hoststealqueuedata_new block]> (hostToQueueDataMap d) |>
           | Some _ => d
           end in
  let assignedThread := if negb (randomThread =? 0) then randomThread else self in
  let d := add_thread d assignedThread in
  let d := d <| hostToThreadMap := <[host := assignedThread]> (hostToThreadMap d) |> in
  with_tdata d assignedThread (λ tdata,
    if host =? runningHost tdata then tdata
    else tdata <| unprocessedHosts := unprocessedHosts tdata ++ [host] |>).

(** [None]: the host runs on the thread it comes from (a failed assertion).
    The host has a queue, so that no memory is needed. *)
Definition _schedulerpolicyhoststeal_migrateHost d (host newThread : Z) : option HostStealPolicyData :=
  let oldThread := default 0 (hostToThreadMap d !! host) in
  if oldThread =? newThread then Some d else
  _ ← match threadToThreadDataMap d !! oldThread with
      | None => Some ()
      | Some tdata =>
          tdataNew ← threadToThreadDataMap d !! newThread;
          if runningHost tdata =? runningHost tdataNew then None else Some ()
      end;
  Some (_schedulerpolicyhoststeal_addHost d 0 host newThread newThread).

Definition _schedulerpolicyhoststeal_getHosts d (self : Z) : HostStealPolicyData * option (list Z) :=
  match threadToThreadDataMap d !! self with
  | None => (d, None)
  | Some tdata =>
      match unprocessedHosts tdata, processedHosts tdata with
      | [], processed => (d, Some processed)
      | unprocessed, [] => (d, Some unprocessed)
      | unprocessed, processed =>
          let all := processed ++ unprocessed in
          (with_tdata d self (λ tdata, tdata <| allHosts := Some all |>), Some all)
      end
  end.

(** ** Pushing *)

(** [None]: no queue for the destination (a failed assertion). *)
Definition _schedulerpolicyhoststeal_push (hs : hosts) (es : events) d (event srcHost dstHost barrier : Z)
    : option (events * HostStealPolicyData) :=
  let eventTime := event_getTime (es !!! event) in
  let es := if negb (srcHost =? dstHost) && (eventTime <? barrier)
            then <[event := event_setTime (es !!! event) barrier]> es else es in
  qdata ← hostToQueueDataMap d !! dstHost;
  qdata ← Threads.push_queue g_renew hs es qdata event;
  Some (es, d <| hostToQueueDataMap := <[dstHost := qdata]> (hostToQueueDataMap d) |>).

(** ** Popping *)

(** The host to run: the running one or the next of [victim]'s list.  [None]
    in the second component: there is none. *)
Definition next_host d (self victim : Z) : option (HostStealPolicyData * option Z) :=
  tdata ← threadToThreadDataMap d !! self;
  if negb (runningHost tdata =? 0) then Some (d, Some (runningHost tdata)) else
  assigned ← threadToThreadDataMap d !! victim;
  match unprocessedHosts assigned with
  | [] => Some (d, None)
  | host :: rest =>
      let d := with_tdata d victim (λ tdata, tdata <| unprocessedHosts := rest |>) in
      Some (with_tdata d self (λ tdata, tdata <| runningHost := host |>), Some host)
  end.

(** [assignedHosts] is the list [unprocessedHosts] of the thread [victim],
    which may be [self]. *)
Fixpoint _schedulerpolicyhoststeal_popFromThread (fuel : nat) (hs : hosts) (es : events) d
    (self victim barrier : Z) : option (HostStealPolicyData * option Z) :=
  '(d, host) ← next_host d self victim;
  match host, fuel with
  | None, _ => Some (d, None)
  | Some _, O => None
  | Some host, S fuel =>
      qdata ← hostToQueueDataMap d !! host;
      '(qdata, nextEvent) ← Sched.pop_queue g_renew hs es qdata barrier;
      let d := d <| hostToQueueDataMap := <[host := qdata]> (hostToQueueDataMap d) |> in
      match nextEvent with
      | Some event =>
          d ← _schedulerpolicyhoststeal_migrateHost d host self;
          Some (d, Some event)
      | None =>
          let d := with_tdata d self (λ tdata,
            tdata <| processedHosts := processedHosts tdata ++ [host] |> <| runningHost := 0 |>) in
          _schedulerpolicyhoststeal_popFromThread fuel hs es d self victim barrier
      end
  end.

(** Every iteration but the first takes a host out of the list. *)
Definition search_fuel d (victim : Z) : nat :=
  match threadToThreadDataMap d !! victim with
  | Some tdata => S (length (unprocessedHosts tdata))
  | None => O
  end.

Definition popFromThread (hs : hosts) (es : events) d (self victim barrier : Z) :=
  _schedulerpolicyhoststeal_popFromThread (search_fuel d victim) hs es d self victim barrier.

(** The start of a round: last round's processed hosts become unprocessed, and
    other threads may take them. *)
Definition enter_barrier (tdata : HostStealThreadData) (barrier : Z) : HostStealThreadData :=
  if currentBarrier tdata <? barrier then
    let tdata := tdata <| currentBarrier := barrier |> in
    let tdata :=
      match unprocessedHosts tdata, processedHosts tdata with
      | [], _ :: _ =>
          tdata <| unprocessedHosts := processedHosts tdata |> <| processedHosts := unprocessedHosts tdata |>
      | _, _ =>
          tdata <| unprocessedHosts := unprocessedHosts tdata ++ processedHosts tdata |> <| processedHosts := [] |>
      end in
    tdata <| isStealable := true |>
  else tdata.

(** The part of a pop under the own lock. *)
Definition pop_own (hs : hosts) (es : events) d (self barrier : Z) : option (HostStealPolicyData * option Z) :=
  let d := with_tdata d self (λ tdata, enter_barrier tdata barrier) in
  popFromThread hs es d self self barrier.

(** The thread that is [i] places after [self], out of [n]. *)
Definition stolen_thread d (self n i : Z) : option Z :=
  tdata ← threadToThreadDataMap d !! self;
  threadList d !! Z.to_nat (u32 (i + tnumber tdata) mod n).

(** Whether to wait for a thread, under its lock. *)
Definition check_victim d (victim barrier : Z) : option (HostStealPolicyData * bool) :=
  stolenTdata ← threadToThreadDataMap d !! victim;
  let spinForInit := currentBarrier stolenTdata <? barrier in
  Some (if spinForInit then with_tdata d victim (λ tdata, tdata <| isStealable := false |>) else d, spinForInit).

(** ** The next event time *)

Definition _schedulerpolicyhoststeal_findMinTime (es : events) d (nextEventTime : option Z) (host : Z) : option Z :=
  t ← nextEventTime;
  qdata ← hostToQueueDataMap d !! host;
  let event := PQ.priorityqueue_peek (Sched.pq qdata) in
  Some (if negb (event =? 0) then Z.min t (event_getTime (es !!! event)) else t).

Definition _schedulerpolicyhoststeal_getNextTime (es : events) d (self : Z) : option Z :=
  match threadToThreadDataMap d !! self with
  | None => Some SIMTIME_MAX
  | Some tdata =>
      let t := foldl (_schedulerpolicyhoststeal_findMinTime es d) (Some SIMTIME_MAX) (unprocessedHosts tdata) in
      foldl (_schedulerpolicyhoststeal_findMinTime es d) t (processedHosts tdata)
  end.

Definition schedulerpolicyhoststeal_new : HostStealPolicyData := mkPolicy [] 0 ∅ ∅ ∅.

(** ** The threads of a round *)

(** Where a thread is in [_scheduler_runEventsWorkerTaskFn] and, when it is
    between two sections of a pop, in the loop over the other threads: [n] of
    them with itself, at the [i]-th. *)
Inductive Phase :=
  | Ready
  | Search (n i : Z)
  | Spin (n i : Z)
  | Look (n i : Z)
  | Taking (n i : Z)
  | Drained
  | Done.

#[export] Instance Phase_eq_dec : EqDecision Phase.
Proof. solve_decision. Defined.

(** [minNext] is the least entry of the workers' next event times; [accepted],
    [popped] and [executed] record the history. *)
Record Sim := mkSim {
  hs : hosts;
  es : events;
  policy : HostStealPolicyData;
  roundEnd : Z;
  phases : gmap Z Phase;
  minNext : Z;
  accepted : list Z;
  popped : list Z;
  executed : list (Z * Z);
}.

#[export] Instance sim_eta : Eta Sim := fun s =>
  mkSim (hs s) (es s) (policy s) (roundEnd s) (phases s) (minNext s) (accepted s) (popped s) (executed s).

Implicit Types s : Sim.

Definition set_phase s (self : Z) (p : Phase) : Sim := s <| phases := <[self := p]> (phases s) |>.

(** [worker_setMinEventTimeNextRound]: Rounds.v models the entries. *)
Definition record_time s (t : Z) : Sim :=
  if t <? roundEnd s then s else s <| minNext := Z.min t (minNext s) |>.

(** A search came back: with an event to run, or to go on with [p]. *)
Definition found s (self : Z) (d : HostStealPolicyData) (r : option Z) (p : Phase) : Sim :=
  let s := s <| policy := d |> in
  match r with
  | None => set_phase s self p
  | Some event =>
      (set_phase s self Ready) <| popped := popped s ++ [event] |>
        <| executed := executed s ++ [(dstHost (es s !!! event), time (es s !!! event))] |>
  end.

Inductive act :=
  | APush (self event : Z) (e : Event)
  | APop (self : Z)
  | ASearch (self : Z)
  | ASpin (self : Z)
  | ALook (self : Z) (empty : bool)
  | ATake (self : Z)
  | AReport (self : Z)
  | ARound (barrier : Z).

(** One atomic section.  The unlocked look at another thread's list can see
    it empty or not, whatever it is. *)
Definition exec s (a : act) : option Sim :=
  match a with
  | APush self event e =>
      '(es', d) ← _schedulerpolicyhoststeal_push (hs s) (<[event := e]> (es s)) (policy s) event (srcHost e) (dstHost e) (roundEnd s);
      Some (record_time (s <| es := es' |> <| policy := d |> <| accepted := accepted s ++ [event] |>)
              (event_getTime (es' !!! event)))
  | APop self =>
      match threadToThreadDataMap (policy s) !! self with
      | None => Some (set_phase s self Drained)
      | Some _ =>
          '(d, r) ← pop_own (hs s) (es s) (policy s) self (roundEnd s);
          Some (found s self d r (Search (threadCount d) 1))
      end
  | ASearch self =>
      match phases s !! self with
      | Some (Search n i) =>
          if i <? n then
            victim ← stolen_thread (policy s) self n i;
            '(d, spin) ← check_victim (policy s) victim (roundEnd s);
            Some (set_phase (s <| policy := d |>) self (if spin : bool then Spin n i else Look n i))
          else Some (set_phase s self Drained)
      | _ => None
      end
  | ASpin self =>
      match phases s !! self with
      | Some (Spin n i) =>
          victim ← stolen_thread (policy s) self n i;
          stolenTdata ← threadToThreadDataMap (policy s) !! victim;
          Some (if isStealable stolenTdata then set_phase s self (Look n i) else s)
      | _ => None
      end
  | ALook self empty =>
      match phases s !! self with
      | Some (Look n i) => Some (set_phase s self (if empty : bool then Search n (i + 1) else Taking n i))
      | _ => None
      end
  | ATake self =>
      match phases s !! self with
      | Some (Taking n i) =>
          victim ← stolen_thread (policy s) self n i;
          '(d, r) ← popFromThread (hs s) (es s) (policy s) self victim (roundEnd s);
          Some (found s self d r (Search n (i + 1)))
      | _ => None
      end
  | AReport self =>
      t ← _schedulerpolicyhoststeal_getNextTime (es s) (policy s) self;
      Some (set_phase (record_time s t) self Done)
  | ARound barrier =>
      Some (s <| roundEnd := barrier |> <| minNext := SIMTIME_MAX |> <| phases := (λ _, Ready) <$> phases s |>)
  end.

(** [waiting d]: the events in the queues. *)
Definition queue_events (q : HostStealQueueData) : list Z := PQ.elements (Sched.pq q).
Definition waiting d : list Z := Threads.all_of queue_events (hostToQueueDataMap d).

(** The host's thread may push for it: it runs it or, before the host's first
    event of the round, has it in its list. *)
Definition may d (self host : Z) : Prop :=
  ∃ tdata, threadToThreadDataMap d !! self = Some tdata ∧ host ≠ 0 ∧
    (runningHost tdata = host ∨ host ∈ unprocessedHosts tdata).

(** What the callers respect: a thread pushes between two pops, events of the
    host it runs, not into that host's past; pops until it gets [NULL], then
    reports; and the next round begins, later, when all have reported. *)
Definition allowed s (a : act) : Prop :=
  match a with
  | APush self event e =>
      phases s !! self = Some Ready ∧ event ≠ 0 ∧ event ∉ waiting (policy s) ∧ may (policy s) self (srcHost e) ∧
      is_Some (hostToQueueDataMap (policy s) !! dstHost e) ∧ time e ≤ SIMTIME_MAX ∧
      (∀ q, srcHost e = dstHost e → hostToQueueDataMap (policy s) !! dstHost e = Some q → Sched.lastEventTime q ≤ time e)
  | APop self => phases s !! self = Some Ready
  | ASearch self => ∃ n i, phases s !! self = Some (Search n i)
  | ASpin self => ∃ n i, phases s !! self = Some (Spin n i)
  | ALook self _ => ∃ n i, phases s !! self = Some (Look n i)
  | ATake self => ∃ n i, phases s !! self = Some (Taking n i)
  | AReport self => phases s !! self = Some Drained
  | ARound barrier => roundEnd s < barrier ≤ SIMTIME_MAX ∧ ∀ t p, phases s !! t = Some p → p = Done
  end.

Definition step s s' : Prop := ∃ a, allowed s a ∧ exec s a = Some s'.

(** Hosts are assigned before the first round: the elements are a host, its
    thread and the memory for its queue. *)
Definition register (main : Z) (assign : list (Z * Z * Z)) : HostStealPolicyData :=
  foldl (λ d '(host, thread, block), _schedulerpolicyhoststeal_addHost d block host thread main)
    schedulerpolicyhoststeal_new assign.

(** [threads] are the workers, some of which may have no host. *)
Definition initial (main : Z) (threads : list Z) (assign : list (Z * Z * Z)) s : Prop :=
  RoundPolicy.good_assignment assign ∧ (0 ∉ assign.*1.*1) ∧ Forall (λ t, t ∈ threads) (assign.*1.*2) ∧ Z.of_nat (length threads) < 2 ^ 31 ∧
  0 < roundEnd s ≤ SIMTIME_MAX ∧
  policy s = register main assign ∧ phases s = list_to_map ((λ t, (t, Ready)) <$> threads) ∧
  minNext s = SIMTIME_MAX ∧ accepted s = [] ∧ popped s = [] ∧ executed s = [].

(** ** The invariant of the policy *)

(** The hosts a thread has. *)
Definition place (td : HostStealThreadData) : list Z :=
  unprocessedHosts td ++ processedHosts td ++ (if runningHost td =? 0 then [] else [runningHost td]).

(** No event of the host is due before [B]. *)
Definition idle (B : Z) (es : events) d (h : Z) : Prop :=
  ∀ q p, hostToQueueDataMap d !! h = Some q → p ∈ queue_events q → B ≤ time (es !!! p).

(** A thread that has entered the round with barrier [B] can be stolen from,
    and has run what its processed hosts had to do; one that has not is not
    running a host. *)
Record thread_ok (B : Z) (es : events) d (td : HostStealThreadData) : Prop := mkThreadOk {
  to_barrier : currentBarrier td ≤ B;
  to_nodup : NoDup (place td);
  to_null : 0 ∉ place td;
  to_entered : currentBarrier td = B → isStealable td = true ∧ ∀ h, h ∈ processedHosts td → idle B es d h;
  to_waits : currentBarrier td < B → runningHost td = 0;
}.

(** Every host is in exactly one place. *)
Record pol_ok (hs : hosts) (es : events) (B : Z) d : Prop := mkPolOk {
  po_barrier : 0 < B ≤ SIMTIME_MAX;
  po_queues : ∀ h q, hostToQueueDataMap d !! h = Some q → Sched.queue_ok B hs es q;
  po_dst : ∀ h q p, hostToQueueDataMap d !! h = Some q → p ∈ queue_events q → dstHost (es !!! p) = h;
  po_numbers : ∀ t td, threadToThreadDataMap d !! t = Some td →
    0 ≤ tnumber td ∧ threadList d !! Z.to_nat (tnumber td) = Some t;
  po_ids : ∀ t, is_Some (threadToThreadDataMap d !! t) → t ≠ 0;
  po_list : NoDup (threadList d) ∧ ∀ t, t ∈ threadList d → is_Some (threadToThreadDataMap d !! t);
  po_count : threadCount d = Z.of_nat (length (threadList d)) ∧ threadCount d < 2 ^ 31;
  po_threads : ∀ t td, threadToThreadDataMap d !! t = Some td → thread_ok B es d td;
  po_one : ∀ t1 t2 td1 td2 h, threadToThreadDataMap d !! t1 = Some td1 → threadToThreadDataMap d !! t2 = Some td2 →
    h ∈ place td1 → h ∈ place td2 → t1 = t2;
  po_placed : ∀ h, is_Some (hostToQueueDataMap d !! h) ↔ ∃ t td, threadToThreadDataMap d !! t = Some td ∧ h ∈ place td;
}.

Lemma elem_of_place td h :
  h ∈ place td ↔ h ∈ unprocessedHosts td ∨ h ∈ processedHosts td ∨ h = runningHost td ∧ h ≠ 0.
Proof.
  unfold place. rewrite !elem_of_app. destruct (Z.eqb_spec (runningHost td) 0) as [->|Hne].
  - rewrite elem_of_nil. intuition.
  - rewrite list_elem_of_singleton. intuition congruence.
Qed.

Lemma queue_of hs es B d t td h :
  pol_ok hs es B d → threadToThreadDataMap d !! t = Some td → h ∈ place td →
  ∃ q, hostToQueueDataMap d !! h = Some q ∧ Sched.queue_ok B hs es q.
Proof.
  intros Hok E Hh. destruct (proj2 (po_placed _ _ _ _ Hok h)) as [q Eq]; [by exists t, td|].
  exists q. split; [done|]. by eapply po_queues.
Qed.

(** The threads may change their lists, if the hosts keep their number of
    places. *)
Lemma pol_threads hs es B d m :
  pol_ok hs es B d →
  (∀ t, is_Some (threadToThreadDataMap d !! t) → is_Some (m !! t)) →
  (∀ t td', m !! t = Some td' →
     (∃ td, threadToThreadDataMap d !! t = Some td ∧ tnumber td' = tnumber td) ∧ thread_ok B es d td') →
  (∀ t1 t2 td1 td2 h, m !! t1 = Some td1 → m !! t2 = Some td2 → h ∈ place td1 → h ∈ place td2 → t1 = t2) →
  (∀ h, (∃ t td, m !! t = Some td ∧ h ∈ place td) ↔ ∃ t td, threadToThreadDataMap d !! t = Some td ∧ h ∈ place td) →
  pol_ok hs es B (d <| threadToThreadDataMap := m |>).
Proof.
  intros [HB Hq Hdst Hn Hid Hl Hc Ht Ho Hp] Hdom Hm Hone Hpl. constructor; try done.
  - intros t td' E. destruct (Hm t td' E) as [(td & E' & En) _]. cbn. rewrite En. by apply Hn.
  - intros t [td' E]. destruct (Hm t td' E) as [(td & E' & _) _]. apply Hid. by eexists.
  - split; [apply Hl|]. intros t Hin. by apply Hdom, Hl.
  - intros t td' E. destruct (Hm t td' E) as [_ [? ? ? ? ?]]. constructor; done.
  - intros h. cbn. by rewrite Hp, Hpl.
Qed.

(** One thread rearranges its own lists. *)
Lemma pol_own hs es B d t td td' :
  pol_ok hs es B d → threadToThreadDataMap d !! t = Some td → place td' ≡ₚ place td → tnumber td' = tnumber td →
  (NoDup (place td') → 0 ∉ place td' → thread_ok B es d td') →
  pol_ok hs es B (d <| threadToThreadDataMap := <[t := td']> (threadToThreadDataMap d) |>).
Proof.
  intros Hok E Hp En Htd.
  assert (Hlook : ∀ t1 td1, <[t := td']> (threadToThreadDataMap d) !! t1 = Some td1 →
    ∃ td0, threadToThreadDataMap d !! t1 = Some td0 ∧ tnumber td1 = tnumber td0 ∧ place td1 ≡ₚ place td0 ∧ thread_ok B es d td1).
  { intros t1 td1 [[<- <-]|[Hne E1]]%lookup_insert_Some.
    - exists td. split_and!; [done..|]. pose proof (po_threads _ _ _ _ Hok _ _ E) as Ho.
      apply Htd; [by rewrite Hp; apply Ho|by rewrite Hp; apply Ho].
    - exists td1. split_and!; [done..|]. by eapply po_threads. }
  apply pol_threads; [done| | | |].
  - intros t1 H1. destruct (decide (t = t1)) as [<-|]; [rewrite lookup_insert_eq; by eexists|by rewrite lookup_insert_ne].
  - intros t1 td1 (td0 & ? & ? & ? & ?)%Hlook. split; [by exists td0|done].
  - intros t1 t2 td1 td2 h (a & Ea & _ & Pa & _)%Hlook (b & Eb & _ & Pb & _)%Hlook. rewrite Pa, Pb. by eapply po_one.
  - intros h. split.
    + intros (t1 & td1 & (a & Ea & _ & Pa & _)%Hlook & Hh). exists t1, a. by rewrite <-Pa.
    + intros (t1 & td1 & E1 & Hh). destruct (decide (t = t1)) as [<-|Hne].
      * exists t, td'. rewrite lookup_insert_eq. simplify_eq. by rewrite Hp.
      * exists t1, td1. by rewrite lookup_insert_ne.
Qed.

(** ** One search *)

(** What a search of [self] does to another thread: it takes hosts from its list. *)
Definition robbed (td td' : HostStealThreadData) : Prop :=
  td' = td <| unprocessedHosts := unprocessedHosts td' |> ∧ unprocessedHosts td' ⊆ unprocessedHosts td.

#[local] Instance robbed_preorder : PreOrder robbed.
Proof.
  split; [by intros []|]. intros a b c [E1 S1] [E2 S2]. split; [by rewrite E2, E1|]. by intros x ?%S2%S1.
Qed.

Definition others_robbed (self : Z) d d' : Prop :=
  ∀ t, t ≠ self → option_Forall2 robbed (threadToThreadDataMap d !! t) (threadToThreadDataMap d' !! t).

#[local] Instance others_preorder self : PreOrder (others_robbed self).
Proof.
  split; [by intros d t _|]. intros a b c H1 H2 t Ht. specialize (H1 t Ht). specialize (H2 t Ht).
  destruct H1; inversion H2; subst; constructor. by etrans.
Qed.

Lemma others_same d d' self m :
  threadToThreadDataMap d' = <[self := m]> (threadToThreadDataMap d) → others_robbed self d d'.
Proof. intros Ed t Ht. rewrite Ed, lookup_insert_ne by done. reflexivity. Qed.

(** The own data, after hosts were taken from the list of [victim]. *)
Definition searched (self victim B : Z) (ts ts' : HostStealThreadData) : Prop :=
  currentBarrier ts' = B ∧ tnumber ts' = tnumber ts ∧ (self ≠ victim → unprocessedHosts ts' = unprocessedHosts ts).

Lemma alter_insert (m : gmap Z HostStealThreadData) t td f : m !! t = Some td → alter f t m = <[t := f td]> m.
Proof.
  intros E. apply map_eq. intros i. destruct (decide (t = i)) as [<-|Hne].
  - by rewrite lookup_alter_eq, lookup_insert_eq, E.
  - by rewrite lookup_alter_ne, lookup_insert_ne.
Qed.

Lemma enter_place td h : runningHost td = 0 → h ≠ 0 → place (td <| runningHost := h |>) ≡ₚ h :: place td.
Proof.
  intros Er Hh. unfold place. cbn. rewrite Er, (proj2 (Z.eqb_neq h 0)) by done. cbn.
  by rewrite app_nil_r, !app_assoc, <-Permutation_cons_append.
Qed.

(** The next host moves from a list to the thread that will run it. *)
Lemma take_ok hs es B d self victim ts tv h rest :
  pol_ok hs es B d → threadToThreadDataMap d !! self = Some ts → currentBarrier ts = B → runningHost ts = 0 →
  threadToThreadDataMap d !! victim = Some tv → unprocessedHosts tv = h :: rest →
  ∃ d' ts' tv', next_host d self victim = Some (d', Some h) ∧ pol_ok hs es B d' ∧
    d' = d <| threadToThreadDataMap := threadToThreadDataMap d' |> ∧ others_robbed self d d' ∧
    threadToThreadDataMap d' !! self = Some ts' ∧ searched self victim B ts ts' ∧ runningHost ts' = h ∧
    threadToThreadDataMap d' !! victim = Some tv' ∧ unprocessedHosts tv' = rest ∧ h ≠ 0.
Proof.
  intros Hok Es Eb Er Ev Eu. pose proof (po_threads _ _ _ _ Hok _ _ Ev) as Hv.
  pose proof (po_threads _ _ _ _ Hok _ _ Es) as Hs.
  assert (Hh : h ≠ 0) by (intros ->; apply (to_null _ _ _ _ Hv), elem_of_place; left; rewrite Eu; left).
  unfold next_host. rewrite Es. cbn [mbind option_bind]. rewrite Er. cbn [negb Z.eqb].
  rewrite Ev. cbn [mbind option_bind]. rewrite Eu. unfold with_tdata. cbn.
  rewrite (alter_insert _ _ _ _ Ev). destruct (decide (self = victim)) as [<-|Hne].
  - simplify_eq. rewrite (alter_insert _ self _ _ (lookup_insert_eq _ _ _)), insert_insert_eq.
    assert (Hp : place (ts <| unprocessedHosts := rest |> <| runningHost := h |>) ≡ₚ place ts).
    { rewrite enter_place by done. unfold place. cbn. by rewrite Eu. }
    exists (d <| threadToThreadDataMap := <[self := ts <| unprocessedHosts := rest |> <| runningHost := h |>]>
                                            (threadToThreadDataMap d) |>).
    eexists _, _. split; [done|]. split_and!; cbn; try apply lookup_insert_eq; try done.
    + apply (pol_own _ _ _ _ _ ts); [done..|]. intros Hnd H0. destruct Hs as [H1 _ _ H4 _].
      constructor; [done..|]. cbn. intros. lia.
    + by eapply others_same.
  - set (tv' := tv <| unprocessedHosts := rest |>). set (ts' := ts <| runningHost := h |>).
    assert (Hns : <[victim := tv']> (threadToThreadDataMap d) !! self = Some ts) by (by rewrite lookup_insert_ne).
    rewrite (alter_insert _ _ _ _ Hns).
    assert (Hpv : place tv ≡ₚ h :: place tv') by (unfold place; by rewrite Eu).
    assert (Hps : place ts' ≡ₚ h :: place ts) by by apply enter_place.
    assert (Hone : ∀ t td, threadToThreadDataMap d !! t = Some td → h ∈ place td → t = victim).
    { intros t td E Hin. eapply (po_one _ _ _ _ Hok t victim td tv h); [done..|]. rewrite Hpv. left. }
    assert (Hlook : ∀ t td, <[self := ts']> (<[victim := tv']> (threadToThreadDataMap d)) !! t = Some td →
      ∃ td0, threadToThreadDataMap d !! t = Some td0 ∧ tnumber td = tnumber td0 ∧ thread_ok B es d td ∧
        (∀ x, x ∈ place td ↔ if decide (x = h) then t = self else x ∈ place td0)).
    { intros t td [[<- <-]|[Hn [[<- <-]|[Hn2 E]]%lookup_insert_Some]]%lookup_insert_Some.
      - exists ts. split; [done|]. split; [done|]. split.
        + destruct Hs as [H1 H2 H3 H4 _]. constructor; [done| | |done|].
          * rewrite Hps. apply NoDup_cons. split; [|done]. intros Hin. by apply Hne, (Hone self ts).
          * rewrite Hps. intros [?|?]%elem_of_cons; done.
          * cbn. lia.
        + intros x. rewrite Hps, elem_of_cons. case_decide; by intuition.
      - exists tv. split; [done|]. split; [done|]. split.
        + destruct Hv as [H1 H2 H3 H4 H5]. constructor; [done| | |done|done].
          * rewrite Hpv in H2. by apply NoDup_cons in H2 as [_ ?].
          * intros Hin. apply H3. rewrite Hpv. by right.
        + intros x. case_decide as Ex; [subst|rewrite Hpv, elem_of_cons; by intuition].
          split; [|done]. intros Hin. destruct Hv as [_ H2 _ _ _]. rewrite Hpv in H2. by apply NoDup_cons in H2 as [? _].
      - exists td. split; [done|]. split; [done|]. split; [by eapply po_threads|].
        intros x. case_decide as Ex; [subst|done]. split; [intros Hin; by destruct Hn2; rewrite (Hone t td)|done]. }
    exists (d <| threadToThreadDataMap := <[self := ts']> (<[victim := tv']> (threadToThreadDataMap d)) |>).
    exists ts', tv'. split; [done|]. split_and!; cbn; try done.
    + apply pol_threads; [done| | | |].
      * intros t Ht. destruct (decide (t = self)) as [->|]; [rewrite lookup_insert_eq; by eexists|].
        rewrite lookup_insert_ne by done.
        destruct (decide (t = victim)) as [->|]; [rewrite lookup_insert_eq; by eexists|by rewrite lookup_insert_ne].
      * intros t td (td0 & ? & ? & ? & ?)%Hlook. split; [by exists td0|done].
      * intros t1 t2 td1 td2 x (a & Ea & _ & _ & Pa)%Hlook (b & E2 & _ & _ & Pb)%Hlook. rewrite (Pa x), (Pb x).
        case_decide; [congruence|]. by eapply po_one.
      * intros x. split.
        -- intros (t & td & (a & Ea & _ & _ & Pa)%Hlook & Hx). apply Pa in Hx. case_decide; [|by exists t, a].
           subst. exists victim, tv. rewrite Hpv. split; [done|left].
        -- intros (t & td & E & Hx). destruct (decide (x = h)) as [->|Hxh].
           ++ exists self, ts'. rewrite lookup_insert_eq, Hps. split; [done|left].
           ++ destruct (decide (t = self)) as [->|]; [|destruct (decide (t = victim)) as [->|]].
              ** exists self, ts'. rewrite lookup_insert_eq, Hps. simplify_eq. split; [done|by right].
              ** exists victim, tv'. rewrite lookup_insert_ne, lookup_insert_eq by done. simplify_eq.
                 split; [done|]. rewrite Hpv in Hx. by apply elem_of_cons in Hx as [?|?].
              ** exists t, td. by rewrite !lookup_insert_ne.
    + intros t Ht. cbn. rewrite lookup_insert_ne by done. destruct (decide (t = victim)) as [->|].
      * rewrite lookup_insert_eq, Ev. constructor. split; [done|]. unfold tv'. cbn. rewrite Eu. intros x. by right.
      * by rewrite lookup_insert_ne.
    + apply lookup_insert_eq.
    + by rewrite lookup_insert_ne, lookup_insert_eq.
Qed.

(** The running host has nothing to do any more. *)
Definition finished (ts : HostStealThreadData) (h : Z) : HostStealThreadData :=
  ts <| processedHosts := processedHosts ts ++ [h] |> <| runningHost := 0 |>.

Lemma finish_ok hs es B d self ts h :
  pol_ok hs es B d → threadToThreadDataMap d !! self = Some ts → currentBarrier ts = B → runningHost ts = h → h ≠ 0 →
  idle B es d h →
  pol_ok hs es B (d <| threadToThreadDataMap := <[self := finished ts h]> (threadToThreadDataMap d) |>).
Proof.
  intros Hok Es Eb <- Hh Hi. destruct (po_threads _ _ _ _ Hok _ _ Es) as [H1 _ _ H4 _].
  apply (pol_own _ _ _ _ _ ts); [done|done| |done|].
  - unfold place, finished. cbn. rewrite (proj2 (Z.eqb_neq _ 0)) by done. by rewrite app_nil_r.
  - intros Hnd H0. constructor; [done..| |cbn; lia]. intros _. destruct (H4 Eb) as [Hst Hp]. split; [done|].
    intros h. cbn. intros [?| ->%list_elem_of_singleton]%elem_of_app; [by apply Hp|done].
Qed.

(** A queue changes; the hosts that are through stay idle. *)
Lemma pol_queue hs es B d h q :
  pol_ok hs es B d → is_Some (hostToQueueDataMap d !! h) → Sched.queue_ok B hs es q →
  (∀ p, p ∈ queue_events q → dstHost (es !!! p) = h) →
  (∀ t td, threadToThreadDataMap d !! t = Some td → h ∈ processedHosts td → idle B es d h →
     ∀ p, p ∈ queue_events q → B ≤ time (es !!! p)) →
  pol_ok hs es B (d <| hostToQueueDataMap := <[h := q]> (hostToQueueDataMap d) |>).
Proof.
  intros [HB Hq Hdst Hn Hid Hl Hc Ht Ho Hp] [q0 E0] Hq' Hd' Hi. constructor; try done.
  - intros h' q'. cbn. intros [[<- <-]|[_ E]]%lookup_insert_Some; [done|by eapply Hq].
  - intros h' q' p. cbn. intros [[<- <-]|[_ E]]%lookup_insert_Some; [apply Hd'|by eapply Hdst].
  - intros t td E. destruct (Ht t td E) as [H1 H2 H3 H4 H5]. constructor; try done.
    intros Eb. destruct (H4 Eb) as [Hst Hpr]. split; [done|]. intros h' Hin q' p. cbn.
    intros [[<- <-]|[_ E']]%lookup_insert_Some; [by apply (Hi t td E Hin (Hpr h Hin))|by eapply Hpr].
  - intros h'. cbn. rewrite <-Hp. destruct (decide (h = h')) as [<-|]; [rewrite lookup_insert_eq, E0|by rewrite lookup_insert_ne].
    split; by eexists.
Qed.

(** Memory changes that no waiting event sees. *)
Lemma pol_memory hs es es' B d :
  pol_ok hs es B d → (∀ h q p, hostToQueueDataMap d !! h = Some q → p ∈ queue_events q → es' !!! p = es !!! p) →
  pol_ok hs es' B d.
Proof.
  intros [HB Hq Hdst Hn Hid Hl Hc Ht Ho Hp] Hs. constructor; try done.
  - intros h q E. eapply RoundPolicy.queue_ok_memory; [done| |by eapply Hq]. intros p. by apply (Hs h).
  - intros h q p E Hin. rewrite (Hs h q) by done. by eapply Hdst.
  - intros t td E. destruct (Ht t td E) as [H1 H2 H3 H4 H5]. constructor; try done.
    intros Eb. destruct (H4 Eb) as [Hst Hpr]. split; [done|]. intros h Hin q p Eq Hin'.
    rewrite (Hs h q) by done. by eapply Hpr.
Qed.

Lemma pol_map hs es B d m : pol_ok hs es B d → pol_ok hs es B (d <| hostToThreadMap := m |>).
Proof.
  intros [HB Hq Hdst Hn Hid Hl Hc Ht Ho Hp]. constructor; try done.
  intros t td E. destruct (Ht t td E) as [H1 H2 H3 H4 H5]. by constructor.
Qed.

(** The host that runs on a thread is its own. *)
Lemma migrate_ok hs es B d self ts h :
  pol_ok hs es B d → threadToThreadDataMap d !! self = Some ts → runningHost ts = h → h ≠ 0 →
  ∃ m, _schedulerpolicyhoststeal_migrateHost d h self = Some (d <| hostToThreadMap := m |>) ∧ m !! h = Some self.
Proof.
  intros Hok Es Er Hh. unfold _schedulerpolicyhoststeal_migrateHost.
  assert (Hp : h ∈ place ts) by (apply elem_of_place; auto).
  pose proof (po_ids _ _ _ _ Hok self ltac:(by eexists)) as H0.
  destruct (Z.eqb_spec (default 0 (hostToThreadMap d !! h)) self) as [E|Hne].
  { exists (hostToThreadMap d). split; [by destruct d|]. destruct (hostToThreadMap d !! h); cbn in E; congruence. }
  set (old := default 0 _) in *. rewrite Es.
  assert (Hold : ∀ td, threadToThreadDataMap d !! old = Some td → (runningHost td =? h) = false).
  { intros td E. apply Z.eqb_neq. intros E'. apply Hne. eapply (po_one _ _ _ _ Hok old self td ts h); [done..| |done].
    apply elem_of_place. auto. }
  exists (<[h := self]> (hostToThreadMap d)). split; [|apply lookup_insert_eq].
  replace (match threadToThreadDataMap d !! old with
           | Some tdata => tdataNew ← Some ts; if runningHost tdata =? runningHost tdataNew then None else Some ()
           | None => Some () end) with (Some ()).
  2:{ destruct (threadToThreadDataMap d !! old) as [td|] eqn:E; [|done]. cbn [mbind option_bind]. by rewrite Er, (Hold td). }
  cbn [mbind option_bind]. f_equal. unfold _schedulerpolicyhoststeal_addHost.
  destruct (queue_of _ _ _ _ _ _ _ Hok Es Hp) as (q & -> & _). rewrite (proj2 (Z.eqb_neq self 0)) by done. cbn [negb].
  unfold add_thread. rewrite Es. unfold with_tdata. cbn. rewrite alter_id; [done|].
  intros td E. simplify_eq. by rewrite Z.eqb_refl.
Qed.

(** What a search of [victim]'s list by [self] ends with: the least event of
    the host that [self] now runs; or nothing, when no host was left. *)
Definition search_result (hs : hosts) (es : events) (B : Z) d d' (victim : Z) (ts' : HostStealThreadData) (r : option Z)
    : Prop :=
  match r with
  | Some p => ∃ q q', runningHost ts' = dstHost (es !!! p) ∧ hostToQueueDataMap d !! runningHost ts' = Some q ∧
      hostToQueueDataMap d' = <[runningHost ts' := q']> (hostToQueueDataMap d) ∧ Sched.popped B hs es q q' p
  | None => runningHost ts' = 0 ∧ hostToQueueDataMap d' = hostToQueueDataMap d ∧
      ∀ tv, threadToThreadDataMap d' !! victim = Some tv → unprocessedHosts tv = []
  end.

Record search_ok (hs : hosts) (es : events) (B : Z) d d' (self victim : Z) (ts : HostStealThreadData) (r : option Z)
    : Prop := mkSearchOk {
  so_pol : pol_ok hs es B d';
  so_list : threadList d' = threadList d ∧ threadCount d' = threadCount d;
  so_others : others_robbed self d d';
  so_own : ∃ ts', threadToThreadDataMap d' !! self = Some ts' ∧ searched self victim B ts ts' ∧
    search_result hs es B d d' victim ts' r;
}.

(** One iteration, for the host that is running. *)
Lemma running_ok hs es B d self ts h :
  pol_ok hs es B d → threadToThreadDataMap d !! self = Some ts → currentBarrier ts = B → runningHost ts = h → h ≠ 0 →
  ∃ q q' r, hostToQueueDataMap d !! h = Some q ∧ Sched.pop_queue g_renew hs es q B = Some (q', r) ∧
    let d1 := d <| hostToQueueDataMap := <[h := q']> (hostToQueueDataMap d) |> in
    match r with
    | Some p => pol_ok hs es B d1 ∧ dstHost (es !!! p) = h ∧ Sched.popped B hs es q q' p
    | None => q' = q ∧ d1 = d ∧ idle B es d h
    end.
Proof.
  intros Hok Es Eb Er Hh.
  destruct (queue_of hs es B d self ts h Hok Es) as (q & Eq & Hq); [apply elem_of_place; auto|].
  pose proof (po_barrier _ _ _ _ Hok) as HB.
  destruct (Sched.pop_queue_ok g_renew B hs es q) as (q' & r & E & Hq' & Hr); [unfold SIMTIME_MAX, SIMTIME_INVALID in *; lia|done|].
  exists q, q', r. split; [done|]. split; [done|]. destruct r as [p|].
  - assert (Hp : p ∈ queue_events q) by (destruct Hr as [He _]; unfold queue_events; rewrite He; left).
    split; [|split; [by eapply po_dst|done]]. apply pol_queue; [done|by eexists|done| |].
    + intros x Hx. eapply po_dst; [done..|]. destruct Hr as [He _]. unfold queue_events in *. rewrite He. by right.
    + intros _ _ _ _ Hi x Hx. apply (Hi q); [done|]. destruct Hr as [He _]. unfold queue_events in *. rewrite He. by right.
  - destruct Hr as [-> Hi]. split; [done|]. split; [destruct d; cbn in *; by rewrite insert_id|].
    intros q0 x E0 Hx. simplify_eq. by apply Hi.
Qed.

(** The host an iteration is for, which then runs on [self]. *)
Lemma next_ok hs es B d self victim ts tv :
  pol_ok hs es B d → threadToThreadDataMap d !! self = Some ts → currentBarrier ts = B →
  threadToThreadDataMap d !! victim = Some tv →
  ∃ d1 r, next_host d self victim = Some (d1, r) ∧
    match r with
    | None => d1 = d ∧ runningHost ts = 0 ∧ unprocessedHosts tv = []
    | Some h => ∃ ts1 tv1, pol_ok hs es B d1 ∧ d1 = d <| threadToThreadDataMap := threadToThreadDataMap d1 |> ∧
        others_robbed self d d1 ∧ threadToThreadDataMap d1 !! self = Some ts1 ∧ searched self victim B ts ts1 ∧
        runningHost ts1 = h ∧ h ≠ 0 ∧ threadToThreadDataMap d1 !! victim = Some tv1 ∧
        (S (length (unprocessedHosts tv1)) = length (unprocessedHosts tv) + if (runningHost ts =? 0)%Z then 0 else 1)%nat
    end.
Proof.
  intros Hok Es Eb Ev. destruct (Z.eqb_spec (runningHost ts) 0) as [Er|Er].
  - destruct (unprocessedHosts tv) as [|h rest] eqn:Eu.
    + exists d, None. unfold next_host. rewrite Es. cbn [mbind option_bind]. rewrite Er. cbn [negb Z.eqb].
      rewrite Ev. cbn [mbind option_bind]. by rewrite Eu.
    + destruct (take_ok hs es B d self victim ts tv h rest Hok Es Eb Er Ev Eu)
        as (d1 & ts1 & tv1 & E & H1 & H2 & H3 & H4 & H5 & H6 & H7 & H8 & H9).
      exists d1, (Some h). split; [done|]. exists ts1, tv1. split_and!; try done. rewrite H8. cbn. lia.
  - exists d, (Some (runningHost ts)). unfold next_host. rewrite Es. cbn [mbind option_bind].
    rewrite (proj2 (Z.eqb_neq _ 0)) by done. split; [done|]. exists ts, tv.
    split_and!; try done; [by destruct d|lia].
Qed.

Lemma search_trans hs es B d d1 d' self victim ts ts1 r :
  search_ok hs es B d1 d' self victim ts1 r → threadToThreadDataMap d1 !! self = Some ts1 →
  threadList d1 = threadList d ∧ threadCount d1 = threadCount d → hostToQueueDataMap d1 = hostToQueueDataMap d →
  others_robbed self d d1 →
  searched self victim B ts ts1 → search_ok hs es B d d' self victim ts r.
Proof.
  intros [H1 [H2 H2'] H3 (ts' & E & (Hb & Hn & Hu) & Hr)] E1 [L1 L2] Q O (Sb & Sn & Su).
  constructor; [done|split; congruence|by trans d1|].
  exists ts'. split; [done|]. split; [split; [done|split; [congruence|intros Hne; by rewrite Hu, Su]]|].
  unfold search_result in *. destruct r; by rewrite Q in Hr.
Qed.

Lemma search_loop_ok hs es B self victim fuel : ∀ d ts tv,
  pol_ok hs es B d → threadToThreadDataMap d !! self = Some ts → currentBarrier ts = B →
  threadToThreadDataMap d !! victim = Some tv →
  (length (unprocessedHosts tv) + (if (runningHost ts =? 0)%Z then 0 else 1) ≤ fuel)%nat →
  ∃ d' r, _schedulerpolicyhoststeal_popFromThread fuel hs es d self victim B = Some (d', r) ∧
    search_ok hs es B d d' self victim ts r.
Proof.
  induction fuel as [|fuel IH]; intros d ts tv Hok Es Eb Ev Hf;
    destruct (next_ok hs es B d self victim ts tv Hok Es Eb Ev) as (d1 & [h|] & E & H); cbn; rewrite E; cbn [mbind option_bind].
  1: destruct H as (ts1 & tv1 & ? & ? & ? & ? & ? & ? & ? & ? & ?); lia.
  1,3: destruct H as (-> & Er & Eu); exists d, None; split; [done|]; constructor; [done|done|done|];
    exists ts; split; [done|]; split; [done|]; split; [done|]; split; [done|]; intros tv' Ev'; congruence.
  destruct H as (ts1 & tv1 & Hok1 & Ed1 & Ho1 & Es1 & Hs1 & Er1 & Hh & Ev1 & Hlen).
  pose proof (proj1 Hs1) as Eb1.
  assert (Hsame : (threadList d1 = threadList d ∧ threadCount d1 = threadCount d) ∧ hostToQueueDataMap d1 = hostToQueueDataMap d)
    by (by rewrite Ed1).
  enough (∃ d' r, (qdata ← hostToQueueDataMap d1 !! h;
      '(qdata, nextEvent) ← Sched.pop_queue g_renew hs es qdata B;
      let d := d1 <| hostToQueueDataMap := <[h := qdata]> (hostToQueueDataMap d1) |> in
      match nextEvent with
      | Some event =>
          d ← _schedulerpolicyhoststeal_migrateHost d h self;
          Some (d, Some event)
      | None =>
          let d := with_tdata d self (λ tdata,
            tdata <| processedHosts := processedHosts tdata ++ [h] |> <| runningHost := 0 |>) in
          _schedulerpolicyhoststeal_popFromThread fuel hs es d self victim B
      end) = Some (d', r) ∧ search_ok hs es B d1 d' self victim ts1 r) as (d' & r & E' & H').
  { exists d', r. split; [exact E'|]. destruct Hsame. by eapply search_trans. }
  destruct (running_ok hs es B d1 self ts1 h Hok1 Es1 Eb1 Er1 Hh) as (q & q' & r & Eq & Ep & Hr).
  rewrite Eq. cbn [mbind option_bind]. rewrite Ep. cbn [mbind option_bind]. cbv zeta.
  destruct r as [p|].
  - destruct Hr as (Hok2 & Hd & Hp). set (d2 := d1 <| hostToQueueDataMap := _ |>) in *.
    destruct (migrate_ok hs es B d2 self ts1 h Hok2 Es1 Er1 Hh) as (m & -> & Em). cbn [mbind option_bind].
    eexists _, _. split; [done|]. constructor; [by apply pol_map|done|by intros t _|].
    exists ts1. split; [done|]. split; [done|]. exists q, q'. rewrite Er1. by split_and!.
  - destruct Hr as (-> & E1 & Hi). rewrite E1. unfold with_tdata. rewrite (alter_insert _ _ _ _ Es1).
    change (_ <| runningHost := 0 |>) with (finished ts1 h).
    pose proof (finish_ok hs es B d1 self ts1 h Hok1 Es1 Eb1 Er1 Hh Hi) as Hok2.
    set (d2 := d1 <| threadToThreadDataMap := _ |>) in *.
    assert (Es2 : threadToThreadDataMap d2 !! self = Some (finished ts1 h)) by apply lookup_insert_eq.
    assert (∃ tv2, threadToThreadDataMap d2 !! victim = Some tv2 ∧ unprocessedHosts tv2 = unprocessedHosts tv1) as (tv2 & Ev2 & Eu2).
    { destruct (decide (self = victim)) as [<-|Hne]; [exists (finished ts1 h); simplify_eq; done|].
      exists tv1. split; [by unfold d2; cbn; rewrite lookup_insert_ne|done]. }
    destruct (IH d2 (finished ts1 h) tv2 Hok2 Es2 Eb1 Ev2) as (d' & r & E' & H'); [rewrite Eu2; cbn; lia|].
    exists d', r. split; [done|]. eapply search_trans; [done..| |done]. by eapply others_same.
Qed.

(** ** The sections of a pop *)

Definition through (B : Z) (td : HostStealThreadData) : Prop :=
  currentBarrier td = B ∧ unprocessedHosts td = [] ∧ runningHost td = 0.

Lemma enter_ok hs es B d self ts :
  pol_ok hs es B d → threadToThreadDataMap d !! self = Some ts →
  pol_ok hs es B (d <| threadToThreadDataMap := <[self := enter_barrier ts B]> (threadToThreadDataMap d) |>) ∧
  currentBarrier (enter_barrier ts B) = B ∧ tnumber (enter_barrier ts B) = tnumber ts.
Proof.
  intros Hok Es. pose proof (po_threads _ _ _ _ Hok _ _ Es) as [H1 H2 H3 H4 H5].
  unfold enter_barrier. destruct (Z.ltb_spec (currentBarrier ts) B) as [Hlt|Hge].
  - set (td := _ <| currentBarrier := B |>).
    assert (Hp : place (match unprocessedHosts td with
      | [] => match processedHosts td with
              | [] => td <| unprocessedHosts := unprocessedHosts td ++ processedHosts td |> <| processedHosts := [] |>
              | _ :: _ => td <| unprocessedHosts := processedHosts td |> <| processedHosts := unprocessedHosts td |>
              end
      | _ :: _ => td <| unprocessedHosts := unprocessedHosts td ++ processedHosts td |> <| processedHosts := [] |>
      end <| isStealable := true |>) ≡ₚ place ts).
    { unfold place, td. destruct (unprocessedHosts ts) as [|x u] eqn:Eu, (processedHosts ts) as [|y v] eqn:Ev; cbn;
        rewrite ?Eu, ?Ev; cbn; rewrite ?app_nil_r; try done. by rewrite <-!app_assoc. }
    split; [apply (pol_own _ _ _ _ _ ts); [done|done|exact Hp| |]|].
    + unfold td. by destruct (unprocessedHosts _), (processedHosts _).
    + intros Hnd H0. constructor; try done.
      * unfold td. cbn. destruct (unprocessedHosts ts), (processedHosts ts); cbn; lia.
      * intros _. split; [unfold td; cbn; by destruct (unprocessedHosts ts), (processedHosts ts)|].
        intros h. unfold td. cbn. destruct (unprocessedHosts ts) eqn:Eu, (processedHosts ts); cbn; rewrite ?Eu; by intros ?%elem_of_nil.
      * unfold td. cbn. destruct (unprocessedHosts ts), (processedHosts ts); cbn; lia.
    + unfold td. cbn. by destruct (unprocessedHosts ts), (processedHosts ts).
  - split; [|split; [lia|done]]. apply (pol_own _ _ _ _ _ ts); [done..|]. intros _ _. by constructor.
Qed.

Lemma popFromThread_ok hs es B d self victim ts tv :
  pol_ok hs es B d → threadToThreadDataMap d !! self = Some ts → currentBarrier ts = B →
  threadToThreadDataMap d !! victim = Some tv →
  ∃ d' r, popFromThread hs es d self victim B = Some (d', r) ∧ search_ok hs es B d d' self victim ts r.
Proof.
  intros Hok Es Eb Ev. unfold popFromThread, search_fuel. rewrite Ev. eapply search_loop_ok; [done..|]. case_match; lia.
Qed.

Lemma pop_own_ok hs es B d self ts :
  pol_ok hs es B d → threadToThreadDataMap d !! self = Some ts →
  ∃ d' r, pop_own hs es d self B = Some (d', r) ∧ search_ok hs es B d d' self self ts r.
Proof.
  intros Hok Es. destruct (enter_ok hs es B d self ts Hok Es) as (Hok1 & Eb & En).
  unfold pop_own, with_tdata. rewrite (alter_insert _ _ _ _ Es). set (d1 := d <| threadToThreadDataMap := _ |>) in *.
  assert (Es1 : threadToThreadDataMap d1 !! self = Some (enter_barrier ts B)) by apply lookup_insert_eq.
  destruct (popFromThread_ok hs es B d1 self self _ _ Hok1 Es1 Eb Es1) as (d' & r & E & H).
  exists d', r. split; [done|]. eapply search_trans; [done..| |done]. by eapply others_same.
Qed.

(** The thread to look at next exists and is another one. *)
Lemma stolen_ok hs es B d self ts i :
  pol_ok hs es B d → threadToThreadDataMap d !! self = Some ts → 0 < i < threadCount d →
  ∃ victim tv, stolen_thread d self (threadCount d) i = Some victim ∧ threadToThreadDataMap d !! victim = Some tv ∧ victim ≠ self.
Proof.
  intros Hok Es Hi. destruct (po_numbers _ _ _ _ Hok _ _ Es) as [H0 Hl]. destruct (po_count _ _ _ _ Hok) as [Ec Hc].
  pose proof (lookup_lt_Some _ _ _ Hl) as Hlt. unfold stolen_thread. rewrite Es. cbn [mbind option_bind].
  rewrite u32_small by lia. set (k := (i + tnumber ts) mod threadCount d).
  assert (Hk : 0 ≤ k < threadCount d) by (apply Z.mod_pos_bound; lia).
  destruct (lookup_lt_is_Some_2 (threadList d) (Z.to_nat k)) as [victim Ev]; [lia|]. rewrite Ev.
  destruct (po_list _ _ _ _ Hok) as [Hnd Hdom]. destruct (Hdom victim) as [tv Et]; [by eapply list_elem_of_lookup_2|].
  exists victim, tv. split; [done|]. split; [done|]. intros ->.
  pose proof (NoDup_lookup _ _ _ _ Hnd Ev Hl) as E%Z2Nat.inj; [|lia..]. clear Ev Hl. subst k.
  destruct (Z.lt_ge_cases (i + tnumber ts) (threadCount d)); [rewrite Z.mod_small in E by lia; lia|].
  replace (i + tnumber ts) with (i + tnumber ts - threadCount d + 1 * threadCount d) in E by lia.
  rewrite Z.mod_add, Z.mod_small in E by lia. lia.
Qed.

(** Looking at another thread's barrier. *)
Lemma check_ok hs es B d victim tv :
  pol_ok hs es B d → threadToThreadDataMap d !! victim = Some tv →
  ∃ d' spin, check_victim d victim B = Some (d', spin) ∧ pol_ok hs es B d' ∧
    (spin = true ↔ currentBarrier tv < B) ∧
    ∃ tv', d' = d <| threadToThreadDataMap := <[victim := tv']> (threadToThreadDataMap d) |> ∧
      tv' = tv <| isStealable := isStealable tv' |>.
Proof.
  intros Hok Ev. pose proof (po_threads _ _ _ _ Hok _ _ Ev) as [H1 H2 H3 H4 H5].
  unfold check_victim, with_tdata. rewrite Ev. cbn [mbind option_bind]. rewrite (alter_insert _ _ _ _ Ev).
  destruct (Z.ltb_spec (currentBarrier tv) B) as [Hlt|Hge].
  - eexists _, true. split; [done|]. split; [|split; [done|by eexists]].
    apply (pol_own _ _ _ _ _ tv); [done..|]. intros Hnd H0. constructor; try done. cbn. lia.
  - exists d, false. split; [done|]. split; [done|]. split; [split; [done|lia]|].
    exists tv. rewrite insert_id by done. split; [by destruct d|by destruct tv].
Qed.

(** ** Pushing and reporting *)

Lemma elem_of_waiting d p : p ∈ waiting d ↔ ∃ h q, hostToQueueDataMap d !! h = Some q ∧ p ∈ queue_events q.
Proof.
  unfold waiting, Threads.all_of. rewrite list_elem_of_In, in_concat. split.
  - intros (l & Hl & Hp). apply list_elem_of_In in Hl, Hp. apply list_elem_of_fmap in Hl as ([h q] & -> & Hq%elem_of_map_to_list).
    by exists h, q.
  - intros (h & q & E & Hp). exists (queue_events q). rewrite <-!list_elem_of_In. split; [|done].
    apply list_elem_of_fmap. exists (h, q). split; [done|]. by apply elem_of_map_to_list.
Qed.

Lemma waiting_queue d h q q' :
  hostToQueueDataMap d !! h = Some q →
  ∃ rest, waiting d ≡ₚ queue_events q ++ rest ∧
    ∀ d', hostToQueueDataMap d' = <[h := q']> (hostToQueueDataMap d) → waiting d' ≡ₚ queue_events q' ++ rest.
Proof.
  intros E. exists (Threads.all_of queue_events (delete h (hostToQueueDataMap d))). unfold waiting. split.
  - by apply Threads.all_of_lookup.
  - intros d' ->. apply Threads.all_of_set.
Qed.

Lemma steal_push_ok hs es B d self event e :
  pol_ok hs es B d → event ≠ 0 → event ∉ waiting d → may d self (srcHost e) →
  is_Some (hostToQueueDataMap d !! dstHost e) → time e ≤ SIMTIME_MAX →
  (∀ q, srcHost e = dstHost e → hostToQueueDataMap d !! dstHost e = Some q → Sched.lastEventTime q ≤ time e) →
  ∃ e' d', _schedulerpolicyhoststeal_push hs (<[event := e]> es) d event (srcHost e) (dstHost e) B
             = Some (<[event := e']> es, d') ∧
    pol_ok hs (<[event := e']> es) B d' ∧ waiting d' ≡ₚ event :: waiting d ∧
    time e ≤ time e' ≤ SIMTIME_MAX ∧ (srcHost e ≠ dstHost e → B ≤ time e') ∧
    (∃ q q', hostToQueueDataMap d !! dstHost e = Some q ∧ d' = d <| hostToQueueDataMap := <[dstHost e := q']> (hostToQueueDataMap d) |> ∧
       queue_events q' ≡ₚ event :: queue_events q ∧ Sched.lastEventTime q' = Sched.lastEventTime q).
Proof.
  intros Hok H0 Hn (ts & Es & Hsrc & Hmay) [q Eq] Hmax Hlast. pose proof (po_barrier _ _ _ _ Hok) as HB.
  unfold _schedulerpolicyhoststeal_push, event_getTime. rewrite lookup_total_insert_eq.
  set (e' := if negb (srcHost e =? dstHost e) && (time e <? B) then e <| time := B |> else e).
  replace (if negb (srcHost e =? dstHost e) && (time e <? B) then <[event := event_setTime e B]> (<[event := e]> es) else <[event := e]> es)
    with (<[event := e']> es) by (unfold e'; case_match; [by rewrite insert_insert_eq|done]).
  assert (He' : time e ≤ time e' ≤ SIMTIME_MAX ∧ (srcHost e ≠ dstHost e → B ≤ time e') ∧ dstHost e' = dstHost e).
  { unfold e'. destruct (Z.eqb_spec (srcHost e) (dstHost e)); cbn; [split; [lia|done]|].
    destruct (Z.ltb_spec (time e) B); cbn; split_and!; try done; lia. }
  destruct He' as (Ht & Hb & Hd). clearbody e'.
  assert (Hmem : ∀ h q0 p, hostToQueueDataMap d !! h = Some q0 → p ∈ queue_events q0 → (<[event := e']> es) !!! p = es !!! p).
  { intros h q0 p E0 Hp. apply lookup_total_insert_ne. intros ->. apply Hn, elem_of_waiting. by exists h, q0. }
  pose proof (pol_memory _ _ _ _ _ Hok Hmem) as Hok1.
  assert (Hnq : event ∉ queue_events q) by (intros Hin; apply Hn, elem_of_waiting; by exists (dstHost e), q).
  pose proof (po_queues _ _ _ _ Hok1 _ _ Eq) as Hq.
  rewrite Eq. cbn [mbind option_bind].
  destruct (Threads.push_queue_ok g_renew B hs (<[event := e']> es) q event Hq H0 Hnq) as (q' & -> & Hq' & El & Ee).
  { rewrite lookup_total_insert_eq. destruct (decide (srcHost e = dstHost e)) as [Esd|Hne].
    - specialize (Hlast q Esd Eq). lia.
    - pose proof (Sched.qo_last _ _ _ _ Hq). specialize (Hb Hne). lia. }
  cbn [mbind option_bind]. eexists e', _. split; [done|]. split_and!; try done.
  - apply pol_queue; [done|by eexists|done| |].
    + intros p. unfold queue_events. rewrite Ee. intros [->|Hp]%elem_of_cons; [by rewrite lookup_total_insert_eq|].
      by apply (po_dst _ _ _ _ Hok1 _ q).
    + intros t td Et Hh Hi p. unfold queue_events. rewrite Ee. intros [->|Hp]%elem_of_cons; [|by apply (Hi q)].
      rewrite lookup_total_insert_eq. apply Hb. intros Esd.
      assert (t = self) as ->.
      { eapply (po_one _ _ _ _ Hok t self td ts (dstHost e)); [done..|apply elem_of_place; auto|].
        rewrite <-Esd. apply elem_of_place. destruct Hmay; auto. }
      simplify_eq. pose proof (to_nodup _ _ _ _ (po_threads _ _ _ _ Hok _ _ Es)) as Hnd. unfold place in Hnd.
      rewrite <-Esd in Hh. apply NoDup_app in Hnd as (_ & Hd1 & (_ & Hd2 & _)%NoDup_app).
      destruct Hmay as [Hr|Hu]; [|apply (Hd1 _ Hu), elem_of_app; auto].
      apply (Hd2 _ Hh). rewrite Hr, (proj2 (Z.eqb_neq _ 0)) by done. left.
  - destruct (waiting_queue d (dstHost e) q q' Eq) as (rest & E1 & E2). rewrite E1, E2 by done. unfold queue_events. by rewrite Ee.
  - lia.
  - lia.
  - by exists q, q'.
Qed.

Lemma next_time_ok hs es B d self :
  pol_ok hs es B d →
  ∃ t, _schedulerpolicyhoststeal_getNextTime es d self = Some t ∧ t ≤ SIMTIME_MAX ∧
    (∀ td h q p, threadToThreadDataMap d !! self = Some td → h ∈ processedHosts td →
       hostToQueueDataMap d !! h = Some q → p ∈ queue_events q → t ≤ time (es !!! p)) ∧
    (t = SIMTIME_MAX ∨ ∃ td h q p, threadToThreadDataMap d !! self = Some td ∧
       (h ∈ unprocessedHosts td ∨ h ∈ processedHosts td) ∧ hostToQueueDataMap d !! h = Some q ∧ p ∈ queue_events q ∧
       t = time (es !!! p)).
Proof.
  intros Hok. unfold _schedulerpolicyhoststeal_getNextTime.
  destruct (threadToThreadDataMap d !! self) as [td|] eqn:Es; [|exists SIMTIME_MAX; split_and!; [done|done|done|by left]].
  set (d0 := Sched.mkPolicy hs es (hostToQueueDataMap d) ∅ ∅).
  assert (Hq0 : Sched.queues_ok B d0) by (intros h q E; by eapply po_queues).
  assert (Hh : ∀ h, h ∈ unprocessedHosts td ∨ h ∈ processedHosts td → is_Some (Sched.hostToQueueDataMap d0 !! h)).
  { intros h Hin. apply (po_placed _ _ _ _ Hok h). exists self, td. split; [done|]. apply elem_of_place. tauto. }
  destruct (Sched.findMinTime_ok B d0 (unprocessedHosts td) SIMTIME_MAX Hq0) as (t1 & E1 & Hle1 & _ & Hex1); [auto|].
  destruct (Sched.findMinTime_ok B d0 (processedHosts td) t1 Hq0) as (t2 & E2 & Hle2 & Hmin2 & Hex2); [auto|].
  change (Sched._schedulerpolicyhostsingle_findMinTime d0) with (_schedulerpolicyhoststeal_findMinTime es d) in E1, E2.
  rewrite E1, E2. exists t2. split; [done|]. split; [lia|]. split.
  - intros td' h q p [= <-]. by apply Hmin2.
  - destruct Hex2 as [->|(h & q & p & Hin & Eq & Hp & ->)]; [destruct Hex1 as [->|(h & q & p & Hin & Eq & Hp & ->)]; [by left|]|];
      right; exists td, h, q, p; auto.
Qed.

(** ** The invariant of the system *)

(** A thread that looks for hosts elsewhere, and one that has got [NULL], is
    through with its own. *)
Definition phase_ok (B : Z) d (t : Z) (p : Phase) : Prop :=
  match p with
  | Ready => True
  | Search n i => n = threadCount d ∧ 0 < i ∧ ∃ td, threadToThreadDataMap d !! t = Some td ∧ through B td
  | Spin n i | Look n i | Taking n i =>
      n = threadCount d ∧ 0 < i < n ∧ ∃ td, threadToThreadDataMap d !! t = Some td ∧ through B td
  | Drained | Done => ∀ td, threadToThreadDataMap d !! t = Some td → through B td
  end.

(** Every event before [minNext] is one that a thread in the round still
    runs or reports; and [minNext] is the time of an event that waits. *)
Definition min_ok s : Prop :=
  (∀ t td h q p, phases s !! t = Some Done → threadToThreadDataMap (policy s) !! t = Some td →
     h ∈ processedHosts td → hostToQueueDataMap (policy s) !! h = Some q → p ∈ queue_events q →
     minNext s ≤ time (es s !!! p)) ∧
  (minNext s = SIMTIME_MAX ∨ roundEnd s ≤ minNext s < SIMTIME_MAX ∧
     ∃ p, p ∈ waiting (policy s) ∧ minNext s = time (es s !!! p)).

Record inv s : Prop := mkInv {
  iv_pol : pol_ok (hs s) (es s) (roundEnd s) (policy s);
  iv_phases : ∀ t p, phases s !! t = Some p → phase_ok (roundEnd s) (policy s) t p;
  iv_workers : ∀ t, is_Some (threadToThreadDataMap (policy s) !! t) → is_Some (phases s !! t);
  iv_executed : Rounds.causal (executed s) ∧ ∀ h x, (h, x) ∈ executed s →
    ∃ q, hostToQueueDataMap (policy s) !! h = Some q ∧ x ≤ Sched.lastEventTime q;
  iv_times : ∀ p, p ∈ waiting (policy s) → time (es s !!! p) ≤ SIMTIME_MAX;
  iv_conserved : accepted s ≡ₚ popped s ++ waiting (policy s);
  iv_min : min_ok s;
}.

(** *** Phases and what others do *)

Lemma robbed_through B td td' : robbed td td' → through B td → through B td'.
Proof.
  intros [E S] (Hb & Hu & Hr). rewrite E. unfold through. cbn. split; [done|]. split; [|done].
  rewrite Hu in S. by apply list_nil_subseteq.
Qed.

Lemma phase_frame B d d' t p :
  threadCount d' = threadCount d →
  option_Forall2 (λ td td', through B td → through B td') (threadToThreadDataMap d !! t) (threadToThreadDataMap d' !! t) →
  phase_ok B d t p → phase_ok B d' t p.
Proof.
  intros Ec Hf. assert (He : (∃ td, threadToThreadDataMap d !! t = Some td ∧ through B td) →
    ∃ td, threadToThreadDataMap d' !! t = Some td ∧ through B td).
  { intros (td & E & Ht). rewrite E in Hf. inversion Hf as [? td' Hf'|]; subst. exists td'. auto. }
  assert (Ha : (∀ td, threadToThreadDataMap d !! t = Some td → through B td) →
    ∀ td, threadToThreadDataMap d' !! t = Some td → through B td).
  { intros Ht td' E. rewrite E in Hf. inversion Hf as [td ? Hf' E1|]; subst. by apply Hf', Ht. }
  destruct p; cbn; rewrite ?Ec; naive_solver.
Qed.

Lemma robbed_frame B d d' self t :
  others_robbed self d d' → t ≠ self →
  option_Forall2 (λ td td', through B td → through B td') (threadToThreadDataMap d !! t) (threadToThreadDataMap d' !! t).
Proof. intros Ho Ht. destruct (Ho t Ht); constructor. by apply robbed_through. Qed.

(** *** The steps *)

Lemma set_phase_inv s self p :
  inv s → phase_ok (roundEnd s) (policy s) self p →
  (p = Done → ∀ td h q x, threadToThreadDataMap (policy s) !! self = Some td → h ∈ processedHosts td →
     hostToQueueDataMap (policy s) !! h = Some q → x ∈ queue_events q → minNext s ≤ time (es s !!! x)) →
  inv (set_phase s self p).
Proof.
  intros [Hok Hph Hw He Ht Hc [Hm1 Hm2]] Hp Hd. constructor; try done.
  - intros t p'. cbn. intros [[<- <-]|[_ E]]%lookup_insert_Some; [done|by apply Hph].
  - intros t Hin. cbn. destruct (decide (self = t)) as [<-|]; [rewrite lookup_insert_eq; by eexists|by rewrite lookup_insert_ne; [apply Hw|]].
  - split; [|done]. intros t td h q x. cbn. intros [[<- ->]|[_ E]]%lookup_insert_Some; [by apply Hd|by apply Hm1].
Qed.

Lemma record_inv s t :
  inv s → t ≤ SIMTIME_MAX → (t < roundEnd s ∨ t = SIMTIME_MAX ∨ ∃ p, p ∈ waiting (policy s) ∧ t = time (es s !!! p)) →
  inv (record_time s t).
Proof.
  intros Hi Hle Hex. unfold record_time. destruct (Z.ltb_spec t (roundEnd s)); [done|].
  destruct Hi as [Hok Hph Hw He Ht Hc [Hm1 Hm2]]. constructor; try done. split; cbn.
  - intros. etrans; [apply Z.le_min_r|by eapply Hm1].
  - destruct (Z.min_spec t (minNext s)) as [[Hlt ->]|[Hge ->]]; [|done].
    destruct Hex as [?|[->|Hp]]; [lia|destruct Hm2 as [?|[? _]]; lia|].
    destruct (decide (t = SIMTIME_MAX)); [by left|]. right. split; [lia|done].
Qed.

Lemma popped_waiting d d' h q q' hs es B p :
  hostToQueueDataMap d !! h = Some q → hostToQueueDataMap d' = <[h := q']> (hostToQueueDataMap d) →
  Sched.popped B hs es q q' p → waiting d ≡ₚ p :: waiting d'.
Proof.
  intros E E' [Hp _]. destruct (waiting_queue d h q q' E) as (rest & -> & Hw). rewrite (Hw d' E').
  unfold queue_events. by rewrite Hp.
Qed.

Lemma found_inv s self victim ts d r p :
  inv s → threadToThreadDataMap (policy s) !! self = Some ts → p ≠ Done →
  (∀ q, phases s !! self = Some q → q ≠ Done) →
  search_ok (hs s) (es s) (roundEnd s) (policy s) d self victim ts r →
  (r = None → phase_ok (roundEnd s) d self p) → inv (found s self d r p).
Proof.
  intros [Hok Hph Hw [Hca He] Ht Hc [Hm1 Hm2]] Es Hnd Hnd' [Hok' [Hl Hn] Ho (ts' & Es' & Hs & Hr)] Hp.
  assert (Hph' : ∀ p', phase_ok (roundEnd s) d self p' → ∀ t pt, <[self := p']> (phases s) !! t = Some pt →
    phase_ok (roundEnd s) d t pt).
  { intros p' Hp' t pt [[<- <-]|[Hne E]]%lookup_insert_Some; [done|].
    eapply phase_frame; [done| |by apply Hph]. by eapply robbed_frame. }
  assert (Hw' : ∀ p' t, is_Some (threadToThreadDataMap d !! t) → is_Some (<[self := p']> (phases s) !! t)).
  { intros p' t Hin. destruct (decide (self = t)) as [<-|Hne]; [rewrite lookup_insert_eq; by eexists|].
    rewrite lookup_insert_ne by done. apply Hw. destruct (Ho t); [done|by eexists|by destruct Hin]. }
  assert (Hdone : ∀ p' t td h, p' ≠ Done → <[self := p']> (phases s) !! t = Some Done → threadToThreadDataMap d !! t = Some td →
    h ∈ processedHosts td → ∃ td0, phases s !! t = Some Done ∧ threadToThreadDataMap (policy s) !! t = Some td0 ∧ h ∈ processedHosts td0).
  { intros p' t td h Hp' [[_ ->]|[Hne E]]%lookup_insert_Some Et Hh; [done|].
    specialize (Ho t ltac:(done)). rewrite Et in Ho. inversion Ho as [td0 ? [Er _] E0|]; subst. exists td0.
    split; [done|]. split; [done|]. rewrite Er in Hh. exact Hh. }
  destruct r as [x|]; unfold found; cbn.
  - destruct Hr as (q & q' & Er & Eq & Eq' & Hpop). pose proof (popped_waiting _ _ _ _ _ _ _ _ _ Eq Eq' Hpop) as Hwt.
    destruct Hpop as (Hpe & _ & Hpt & Hpl).
    assert (Hdst : runningHost ts' = dstHost (es s !!! x)) by done.
    constructor; cbn; [done|by apply Hph'|by apply Hw'| | | |].
    + split.
      * apply Rounds.causal_snoc; [done|]. intros t' (q0 & E0 & Hle)%He. rewrite <-Hdst in E0. simplify_eq. lia.
      * intros h y. rewrite Eq'. intros [(q0 & E0 & Hle)%He|[= -> ->]%list_elem_of_singleton]%elem_of_app.
        -- destruct (decide (runningHost ts' = h)) as [<-|]; [rewrite lookup_insert_eq|rewrite lookup_insert_ne by done; by exists q0].
           exists q'. split; [done|]. simplify_eq. lia.
        -- rewrite Hdst, lookup_insert_eq. exists q'. split; [done|lia].
    + intros y Hy. apply Ht. rewrite Hwt. by right.
    + rewrite Hc, Hwt. by rewrite <-app_assoc.
    + split; cbn.
      * intros t td h q0 y Et Htd Hh Eq0 Hy. destruct (Hdone Ready t td h ltac:(done) Et Htd Hh) as (td0 & H1 & H2 & H3).
        rewrite Eq' in Eq0. apply lookup_insert_Some in Eq0 as [[E1 E2]|[_ E0]]; [|by eapply Hm1].
        subst. eapply Hm1; [done..|]. unfold queue_events in *. rewrite Hpe. by right.
      * destruct Hm2 as [?|(Hle & y & Hy & E)]; [by left|right]. split; [done|]. exists y. split; [|done].
        rewrite Hwt in Hy. apply elem_of_cons in Hy as [->|?]; [lia|done].
  - destruct Hr as (Er & Eq & Hv). assert (Hwt : waiting d = waiting (policy s)) by (unfold waiting; by rewrite Eq).
    constructor; cbn; rewrite ?Hwt, ?Eq; try done; [by apply Hph', Hp|by apply Hw'|].
    split; cbn; rewrite ?Hwt, ?Eq; [|done]. intros t td h q0 y Et Htd Hh. destruct (Hdone p t td h Hnd Et Htd Hh) as (td0 & H1 & H2 & H3).
    by eapply Hm1.
Qed.

Lemma pushed_inv s self event e :
  inv s → allowed s (APush self event e) → ∃ s', exec s (APush self event e) = Some s' ∧ inv s'.
Proof.
  intros [Hok Hph Hw [Hca He] Ht Hc [Hm1 Hm2]] (Hp & H0 & Hn & Hmay & Hdst & Hmax & Hlast).
  destruct (steal_push_ok _ _ _ _ self event e Hok H0 Hn Hmay Hdst Hmax Hlast)
    as (e' & d' & E & Hok' & Hwt & Hle & Hb & q & q' & Eq & -> & Hqe & Hql).
  cbn [exec]. rewrite E. cbn [mbind option_bind]. eexists. split; [done|].
  unfold event_getTime. rewrite lookup_total_insert_eq.
  set (d' := (policy s) <| hostToQueueDataMap := _ |>) in *.
  assert (Hes : ∀ x, x ∈ waiting (policy s) → (<[event := e']> (es s)) !!! x = es s !!! x).
  { intros x Hx. apply lookup_total_insert_ne. by intros ->. }
  assert (Hx : ∀ q0 x, hostToQueueDataMap (policy s) !! dstHost e = Some q0 → x ∈ queue_events q0 → x ∈ waiting (policy s)).
  { intros q0 x Eq0 Hx. apply elem_of_waiting. by exists (dstHost e), q0. }
  assert (Hinv : roundEnd s ≤ time e' ∨ ¬ roundEnd s ≤ time e') by lia.
  assert (Hnew : ∀ t td, phases s !! t = Some Done → threadToThreadDataMap (policy s) !! t = Some td →
    dstHost e ∈ processedHosts td → roundEnd s ≤ time e').
  { intros t td Et Htd Hh. apply (Hph t Done) in Et as Hthr. destruct (Hthr td Htd) as (Hcb & _).
    pose proof (po_threads _ _ _ _ Hok' t td Htd) as [_ _ _ Hen _]. destruct (Hen Hcb) as [_ Hid].
    specialize (Hid _ Hh q' event). unfold d' in Hid. cbn in Hid. rewrite lookup_insert_eq, lookup_total_insert_eq in Hid.
    apply Hid; [done|]. rewrite Hqe. left. }
  set (s1 := s <| es := _ |> <| policy := d' |> <| accepted := _ |>).
  assert (Hmin1 : ∀ m, m ≤ minNext s → (roundEnd s ≤ time e' → m ≤ time e') →
    ∀ t td h q0 x, phases s !! t = Some Done → threadToThreadDataMap (policy s) !! t = Some td → h ∈ processedHosts td →
      hostToQueueDataMap d' !! h = Some q0 → x ∈ queue_events q0 → m ≤ time ((<[event := e']> (es s)) !!! x)).
  { intros m Hm Hme t td h q0 x Et Htd Hh. unfold d'. cbn. intros [[<- <-]|[_ E0]]%lookup_insert_Some Hin.
    - rewrite Hqe in Hin. apply elem_of_cons in Hin as [->|Hin].
      + rewrite lookup_total_insert_eq. by apply Hme, (Hnew t td).
      + rewrite Hes by eauto. etrans; [exact Hm|]. by eapply Hm1.
    - rewrite Hes by (apply elem_of_waiting; by exists h, q0). etrans; [exact Hm|]. by eapply Hm1. }
  assert (Hfields : ∀ s', phases s' = phases s → policy s' = d' → es s' = <[event := e']> (es s) → hs s' = hs s →
    roundEnd s' = roundEnd s → accepted s' = accepted s ++ [event] → popped s' = popped s → executed s' = executed s →
    min_ok s' → inv s').
  { intros s' F1 F2 F3 F4 F5 F6 F7 F8 Hm. constructor; rewrite ?F1, ?F2, ?F3, ?F4, ?F5, ?F6, ?F7, ?F8; try done.
    - split; [done|]. intros h x (q0 & E0 & Hle0)%He. unfold d'. cbn. destruct (decide (dstHost e = h)) as [<-|].
      + rewrite lookup_insert_eq. exists q'. split; [done|]. simplify_eq. lia.
      + rewrite lookup_insert_ne by done. by exists q0.
    - intros x. rewrite Hwt. intros [->|Hin]%elem_of_cons; [rewrite lookup_total_insert_eq; lia|].
      rewrite Hes by done. by apply Ht.
    - rewrite Hc, Hwt. by rewrite <-Permutation_cons_append, Permutation_middle. }
  unfold record_time. change (roundEnd s1) with (roundEnd s).
  destruct (Z.ltb_spec (time e') (roundEnd s)) as [Hlt|Hge]; apply Hfields; try done; (split; cbn; [apply Hmin1; lia|]).
  - destruct Hm2 as [?|(? & x & Hin & E')]; [by left|right]. split; [done|]. exists x. rewrite Hwt, Hes by done. split; [by right|done].
  - destruct (Z.min_spec (time e') (minNext s)) as [[Hlt ->]|[_ ->]].
    + right. split; [destruct Hm2; lia|]. exists event. rewrite Hwt, lookup_total_insert_eq. split; [left|done].
    + destruct Hm2 as [?|(? & x & Hin & E')]; [by left|right]. split; [done|]. exists x. rewrite Hwt, Hes by done. split; [by right|done].
Qed.

(** Another thread's data change in nothing but [isStealable]. *)
Lemma checked_inv s victim tv tv' :
  inv s → threadToThreadDataMap (policy s) !! victim = Some tv → tv' = tv <| isStealable := isStealable tv' |> →
  let d' := (policy s) <| threadToThreadDataMap := <[victim := tv']> (threadToThreadDataMap (policy s)) |> in
  pol_ok (hs s) (es s) (roundEnd s) d' → inv (s <| policy := d' |>).
Proof.
  intros [Hok Hph Hw He Ht Hc [Hm1 Hm2]] Ev Et d' Hok'. constructor; try done.
  - intros t p E. apply (phase_frame _ (policy s)); [done| |by apply Hph]. unfold d'. cbn.
    destruct (decide (victim = t)) as [<-|]; [rewrite lookup_insert_eq, Ev|].
    2:{ rewrite lookup_insert_ne by done. by destruct (threadToThreadDataMap (policy s) !! t); constructor. }
    constructor. rewrite Et. unfold through. by cbn.
  - intros t Hin. apply Hw. unfold d' in Hin. cbn in Hin. destruct (decide (victim = t)) as [<-|]; [by eexists|by rewrite lookup_insert_ne in Hin].
  - split; [|done]. intros t td h q p Ed. unfold d'. cbn. intros [[<- <-]|[_ E]]%lookup_insert_Some; [|by eapply Hm1].
    rewrite Et. cbn. by eapply Hm1.
Qed.

Lemma round_inv s B :
  inv s → roundEnd s < B ≤ SIMTIME_MAX → (∀ t p, phases s !! t = Some p → p = Done) →
  inv (s <| roundEnd := B |> <| minNext := SIMTIME_MAX |> <| phases := (λ _, Ready) <$> phases s |>).
Proof.
  intros [Hok Hph Hw He Ht Hc [Hm1 Hm2]] HB Hd. destruct Hok as [Hb Hq Hdst Hn Hid Hl Hcnt Hth Ho Hp].
  assert (Hthr : ∀ t td, threadToThreadDataMap (policy s) !! t = Some td → through (roundEnd s) td).
  { intros t td E. destruct (Hw t) as [p Ep]; [by eexists|]. pose proof (Hph t p Ep) as Hpt. rewrite (Hd t p Ep) in Hpt. by apply Hpt. }
  constructor; cbn; try done.
  - constructor; try done; [lia| |].
    + intros h q E. eapply Sched.queue_ok_later; [|by eapply Hq]. lia.
    + intros t td E. destruct (Hth t td E) as [H1 H2 H3 _ _]. destruct (Hthr t td E) as (? & _ & ?). constructor; try done; lia.
  - intros t p. rewrite lookup_fmap. intros (x & _ & ->)%fmap_Some. done.
  - intros t Hin. rewrite lookup_fmap. destruct (Hw t Hin) as [x ->]. by eexists.
  - split; [|by left]. cbn. intros t td h q p. rewrite lookup_fmap. by intros (x & _ & ?)%fmap_Some.
Qed.

(** *** Progress *)

Definition actor (a : act) : option Z :=
  match a with
  | APush self _ _ | APop self | ASearch self | ASpin self | ALook self _ | ATake self | AReport self => Some self
  | ARound _ => None
  end.

(** The sections a pop has left, at most. *)
Definition sections_left (p : Phase) : Z :=
  match p with
  | Search n i => Z.max 0 (4 * (n - i)) + 4
  | Spin n i => 4 * (n - i) + 3
  | Look n i => 4 * (n - i) + 2
  | Taking n i => 4 * (n - i) + 1
  | Ready | Drained | Done => 0
  end.

(** All threads have begun to pop in this round. *)
Definition all_entered s : Prop :=
  ∀ t td, threadToThreadDataMap (policy s) !! t = Some td → currentBarrier td = roundEnd s.

Lemma found_phase s self d r p t :
  phases (found s self d r p) !! t =
    if decide (self = t) then Some (match r with Some _ => Ready | None => p end) else phases s !! t.
Proof.
  unfold found. destruct r; cbn; case_decide as E; try (subst; by rewrite lookup_insert_eq); by rewrite lookup_insert_ne.
Qed.

Definition keeps_barriers s s' : Prop :=
  roundEnd s' = roundEnd s ∧
  ∀ t td', threadToThreadDataMap (policy s') !! t = Some td' →
    ∃ td, threadToThreadDataMap (policy s) !! t = Some td ∧ (currentBarrier td = roundEnd s → currentBarrier td' = roundEnd s).

(** In a round, nobody leaves it, and a section of a pop brings its end nearer. *)
Definition moved s (a : act) s' : Prop :=
  keeps_barriers s s' ∧
  ∀ self p, actor a = Some self → phases s !! self = Some p → 0 < sections_left p → all_entered s →
    ∃ p', phases s' !! self = Some p' ∧ sections_left p' < sections_left p.

Lemma keeps_same s s' :
  roundEnd s' = roundEnd s → threadToThreadDataMap (policy s') = threadToThreadDataMap (policy s) → keeps_barriers s s'.
Proof. intros E1 E2. split; [done|]. intros t td'. rewrite E2. by exists td'. Qed.

Lemma moved_phase s a s1 self p0 p' :
  actor a = Some self → phases s !! self = Some p0 → keeps_barriers s s1 →
  (0 < sections_left p0 → all_entered s → sections_left p' < sections_left p0) → moved s a (set_phase s1 self p').
Proof.
  intros Ea Ep Hk Hl. split; [done|]. intros self' p Ea' Ep' H0 He. simplify_eq. exists p'.
  split; [apply lookup_insert_eq|auto].
Qed.

Lemma moved_found s a self victim ts d r p0 p' :
  threadToThreadDataMap (policy s) !! self = Some ts →
  search_ok (hs s) (es s) (roundEnd s) (policy s) d self victim ts r →
  actor a = Some self → phases s !! self = Some p0 → (0 < sections_left p0 → sections_left p' < sections_left p0) →
  moved s a (found s self d r p').
Proof.
  intros Es [_ _ Ho (ts' & Es' & (Hb & _) & _)] Ea Ep Hl. split.
  - split; [by unfold found; destruct r|]. intros t td'. replace (policy (found s self d r p')) with d by (by unfold found; destruct r).
    intros E. destruct (decide (t = self)) as [->|Hne].
    + exists ts. split; [done|]. intros _. congruence.
    + specialize (Ho t Hne). rewrite E in Ho. inversion Ho as [td ? [Er _] E0|]; subst. exists td. split; [done|]. by rewrite Er.
  - intros self' p Ea' Ep' H0 _. simplify_eq. rewrite found_phase, decide_True by done. eexists. split; [done|].
    destruct r; cbn; [done|auto].
Qed.

Lemma steal_exec_ok s a : inv s → allowed s a → ∃ s', exec s a = Some s' ∧ inv s' ∧ ((∀ B, a ≠ ARound B) → moved s a s').
Proof.
  intros Hi Ha. pose proof Hi as [Hok Hph Hw He Ht Hc Hm].
  destruct a as [self event e|self|self|self|self empty|self|self|B]; [|..]; cbn [exec].
  - destruct (pushed_inv s self event e Hi Ha) as (s' & E & Hi'). exists s'. split; [exact E|]. split; [done|]. intros _.
    apply bind_Some in E as ([es' d] & Ed & [= <-]). split.
    + apply keeps_same; [by unfold record_time; case_match|].
      unfold _schedulerpolicyhoststeal_push in Ed. apply bind_Some in Ed as (q & _ & Ed). apply bind_Some in Ed as (q' & _ & [= _ <-]).
      unfold record_time. by case_match.
    + intros self' p [= <-] Ep. rewrite (proj1 Ha) in Ep. by injection Ep as <-.
  - cbn in Ha. destruct (threadToThreadDataMap (policy s) !! self) as [ts|] eqn:Es.
    + destruct (pop_own_ok _ _ _ _ self ts Hok Es) as (d & r & -> & H). cbn [mbind option_bind].
      eexists. split; [done|]. split; [|intros _; by eapply moved_found].
      eapply found_inv; [done|done|done|intros ? ? ->; congruence|done|]. intros ->.
      destruct H as [_ [_ Hn] _ (ts' & Es' & (Hb & _) & Hr & _ & Hu)]. split; [done|]. split; [lia|].
      exists ts'. split; [done|]. split; [done|]. split; [by apply Hu|done].
    + eexists. split; [done|]. split; [apply set_phase_inv; [done| |done]; intros td E; congruence|].
      intros _. by eapply moved_phase; [| |apply keeps_same|].
  - destruct Ha as (n & i & E). rewrite E. pose proof (Hph _ _ E) as (-> & Hi0 & ts & Es & Hthr).
    destruct (Z.ltb_spec i (threadCount (policy s))) as [Hlt|Hge].
    + destruct (stolen_ok _ _ _ _ _ _ i Hok Es ltac:(lia)) as (victim & tv & -> & Ev & Hne). cbn [mbind option_bind].
      destruct (check_ok _ _ _ _ _ _ Hok Ev) as (d' & spin & -> & Hok' & _ & tv' & -> & Etv). cbn [mbind option_bind].
      eexists. split; [done|]. pose proof (checked_inv s victim tv tv' Hi Ev Etv Hok') as Hi'.
      split; [|intros _; eapply moved_phase; [done|done| |destruct spin; cbn; lia]; split; [done|]; cbn;
        intros t td' [[<- <-]|[_ E']]%lookup_insert_Some; [exists tv; by rewrite Etv|by exists td']].
      apply set_phase_inv; [done| |by destruct spin].
      assert (∃ td, <[victim := tv']> (threadToThreadDataMap (policy s)) !! self = Some td ∧ through (roundEnd s) td)
        by (exists ts; by rewrite lookup_insert_ne).
      destruct spin; cbn; split_and!; done || lia.
    + eexists. split; [done|]. split; [apply set_phase_inv; [done| |done]; intros td Etd; by simplify_eq|].
      intros _. eapply moved_phase; [done|done|by apply keeps_same|cbn; lia].
  - destruct Ha as (n & i & E). rewrite E. pose proof (Hph _ _ E) as (-> & Hi0 & ts & Es & Hthr).
    destruct (stolen_ok _ _ _ _ _ _ i Hok Es ltac:(lia)) as (victim & tv & -> & Ev & Hne). cbn [mbind option_bind].
    rewrite Ev. cbn [mbind option_bind]. destruct (isStealable tv) eqn:Est; eexists; (split; [done|]).
    + split; [apply set_phase_inv; [done| |done]; split; [done|]; split; [done|]; by exists ts|].
      intros _. eapply moved_phase; [done|done|by apply keeps_same|cbn; lia].
    + split; [done|]. intros _. split; [by apply keeps_same|]. intros self' p _ _ _ He'.
      destruct (po_threads _ _ _ _ Hok _ _ Ev) as [_ _ _ Hen _]. destruct (Hen (He' _ _ Ev)). congruence.
  - destruct Ha as (n & i & E). rewrite E. pose proof (Hph _ _ E) as (-> & Hi0 & ts & Es & Hthr).
    eexists. split; [done|].
    split; [|intros _; eapply moved_phase; [done|done|by apply keeps_same|destruct empty; cbn; lia]].
    apply set_phase_inv; [done| |by destruct empty].
    destruct empty; (split; [done|]; split; [lia|]; by exists ts).
  - destruct Ha as (n & i & E). rewrite E. pose proof (Hph _ _ E) as (-> & Hi0 & ts & Es & Hthr).
    destruct (stolen_ok _ _ _ _ _ _ i Hok Es ltac:(lia)) as (victim & tv & -> & Ev & Hne). cbn [mbind option_bind].
    destruct (popFromThread_ok _ _ _ _ self victim ts tv Hok Es (proj1 Hthr) Ev) as (d & r & -> & H). cbn [mbind option_bind].
    eexists. split; [done|]. split; [|intros _; eapply moved_found; [done..|cbn; lia]].
    eapply found_inv; [done|done|done|intros ? ? ->; congruence|done|]. intros ->.
    destruct H as [_ [_ Hn] _ (ts' & Es' & (Hb & _ & Hu) & Hr & _)]. split; [done|]. split; [lia|].
    exists ts'. split; [done|]. split; [done|]. split; [rewrite Hu by done; apply Hthr|done].
  - cbn in Ha. destruct (next_time_ok _ _ _ _ self Hok) as (t & -> & Hle & Hmin & Hex). cbn [mbind option_bind].
    eexists. split; [done|].
    assert (Hge : roundEnd s ≤ t ∧ (t = SIMTIME_MAX ∨ ∃ p, p ∈ waiting (policy s) ∧ t = time (es s !!! p))).
    { destruct Hex as [->|(td & h & q & p & Etd & Hh & Eq & Hp & ->)]; [split; [apply Hok|by left]|].
      destruct (Hph _ _ Ha td Etd) as (Hb & Hu & _). rewrite Hu in Hh.
      destruct Hh as [Hh%elem_of_nil|Hh]; [done|]. destruct (po_threads _ _ _ _ Hok _ _ Etd) as [_ _ _ Hen _].
      split; [by eapply (proj2 (Hen Hb))|right]. exists p. split; [|done]. apply elem_of_waiting. by exists h, q. }
    destruct Hge as [Hge Hex'].
    split; [|intros _; eapply moved_phase; [done|done|apply keeps_same; unfold record_time; by case_match|done]].
    apply set_phase_inv; [apply record_inv; auto| |].
    + unfold record_time. case_match; by apply (Hph _ _ Ha).
    + intros _ td h q x. unfold record_time. rewrite (proj2 (Z.ltb_ge _ _)) by lia. cbn. intros Etd Hh Eq Hx.
      etrans; [apply Z.le_min_l|]. by eapply Hmin.
  - destruct Ha as [HB Hd]. eexists. split; [done|]. split; [by apply round_inv|]. intros Hr. by destruct (Hr B).
Qed.

(** *** The first round *)

Lemma add_thread_ok hs es B d t :
  pol_ok hs es B d → t ≠ 0 → Z.of_nat (length (threadList (add_thread d t))) < 2 ^ 31 →
  pol_ok hs es B (add_thread d t) ∧ is_Some (threadToThreadDataMap (add_thread d t) !! t).
Proof.
  intros Hok H0. unfold add_thread. destruct (threadToThreadDataMap d !! t) as [td|] eqn:E; [intros _; split; [done|by eexists]|].
  cbn. rewrite length_app. cbn. intros Hlen. destruct Hok as [HB Hq Hdst Hn Hid [Hnd Hl] [Hc Hc'] Ht Ho Hp].
  split; [|rewrite lookup_insert_eq; by eexists]. constructor; cbn; try done.
  - intros t' td'. intros [[<- <-]|[_ E']]%lookup_insert_Some; cbn.
    + split; [lia|]. rewrite Hc, Nat2Z.id. by rewrite lookup_app_r, Nat.sub_diag by lia.
    + destruct (Hn t' td' E') as [? Hl']. split; [done|]. rewrite lookup_app_l; [done|by eapply lookup_lt_Some].
  - intros t' [td' [[<- _]|[_ E']]%lookup_insert_Some]; [done|]. apply Hid. by eexists.
  - split.
    + apply NoDup_app. split; [done|]. split; [|apply NoDup_singleton]. intros x Hx ->%list_elem_of_singleton.
      destruct (Hl t Hx) as [? ?]. congruence.
    + intros x [Hx| ->%list_elem_of_singleton]%elem_of_app; [|rewrite lookup_insert_eq; by eexists].
      rewrite lookup_insert_ne; [by apply Hl|]. intros <-. destruct (Hl t Hx). congruence.
  - rewrite length_app. cbn. rewrite u32_small by lia. lia.
  - intros t' td' [[<- <-]|[_ E']]%lookup_insert_Some; [|by destruct (Ht t' td' E'); constructor].
    constructor; cbn; try lia; [constructor|apply not_elem_of_nil].
  - intros t1 t2 td1 td2 h [[<- <-]|[_ E1]]%lookup_insert_Some [[<- <-]|[_ E2]]%lookup_insert_Some Hh1 Hh2;
      try (by apply elem_of_nil in Hh1); try (by apply elem_of_nil in Hh2). by apply (Ho t1 t2 td1 td2 h).
  - intros h. rewrite Hp. split.
    + intros (t' & td' & E' & Hh). exists t', td'. rewrite lookup_insert_ne; [done|congruence].
    + intros (t' & td' & [[<- <-]|[_ E']]%lookup_insert_Some & Hh); [by apply elem_of_nil in Hh|]. by exists t', td'.
Qed.

Lemma add_host_ok hs es B d h t td block m :
  pol_ok hs es B d → threadToThreadDataMap d !! t = Some td → currentBarrier td < B →
  hostToQueueDataMap d !! h = None → h ≠ 0 →
  pol_ok hs es B (d <| hostToQueueDataMap := <[h := _hoststealqueuedata_new block]> (hostToQueueDataMap d) |>
    <| hostToThreadMap := m |>
    <| threadToThreadDataMap := <[t := td <| unprocessedHosts := unprocessedHosts td ++ [h] |>]> (threadToThreadDataMap d) |>).
Proof.
  intros [HB Hq Hdst Hn Hid [Hnd Hl] Hc Ht Ho Hp] Et Hb Eh H0.
  assert (Hfresh : ∀ t' td', threadToThreadDataMap d !! t' = Some td' → h ∉ place td').
  { intros t' td' E' Hin. destruct (proj2 (Hp h)) as [? ?]; [by exists t', td'|congruence]. }
  set (td' := td <| unprocessedHosts := _ |>).
  assert (Hpl : place td' ≡ₚ h :: place td).
  { unfold place, td'. cbn. rewrite <-app_assoc. symmetry. apply Permutation_middle. }
  assert (Hlook : ∀ t1 td1, <[t := td']> (threadToThreadDataMap d) !! t1 = Some td1 →
    ∃ td0, threadToThreadDataMap d !! t1 = Some td0 ∧ tnumber td1 = tnumber td0 ∧
      (∀ x, x ∈ place td1 ↔ x = h ∧ t1 = t ∨ x ∈ place td0)).
  { intros t1 td1 [[<- <-]|[Hne E]]%lookup_insert_Some.
    - exists td. split; [done|]. split; [done|]. intros x. rewrite Hpl, elem_of_cons. naive_solver.
    - exists td1. naive_solver. }
  constructor; cbn; try done.
  - intros h' q [[<- <-]|[_ E]]%lookup_insert_Some; [apply Sched.new_queue_ok; lia|by eapply Hq].
  - intros h' q p [[<- <-]|[_ E]]%lookup_insert_Some; [by intros ?%elem_of_nil|by eapply Hdst].
  - intros t1 td1 (td0 & E0 & -> & _)%Hlook. by apply Hn.
  - intros t1 [td1 (td0 & E0 & _)%Hlook]. apply Hid. by eexists.
  - split; [done|]. intros x Hx. destruct (decide (t = x)) as [<-|]; [rewrite lookup_insert_eq; by eexists|].
    rewrite lookup_insert_ne by done. by apply Hl.
  - intros t1 td1 [[<- <-]|[Hne E]]%lookup_insert_Some.
    + destruct (Ht t td Et) as [H1 H2 H3 _ H5]. constructor; try done; [| |cbn; lia].
      * rewrite Hpl. apply NoDup_cons. split; [by apply (Hfresh t)|done].
      * rewrite Hpl. intros [?|?]%elem_of_cons; done.
    + destruct (Ht t1 td1 E) as [H1 H2 H3 H4 H5]. constructor; try done. intros Eb. destruct (H4 Eb) as [Hs Hi].
      split; [done|]. intros h' Hh q p. cbn. intros [[<- <-]|[_ E']]%lookup_insert_Some; [by intros ?%elem_of_nil|by eapply Hi].
  - intros t1 t2 td1 td2 x (a & Ea & _ & Pa)%Hlook (b & E2 & _ & Pb)%Hlook. rewrite (Pa x), (Pb x).
    intros [[-> ->]|Hx1] [[Ex ->]|Hx2]; [done|by destruct (Hfresh t2 b)|subst; by destruct (Hfresh t1 a)|by eapply Ho].
  - intros x. destruct (decide (h = x)) as [<-|Hne].
    + rewrite lookup_insert_eq. split; [intros _|by eexists]. exists t, td'. rewrite lookup_insert_eq, Hpl. split; [done|left].
    + rewrite lookup_insert_ne by done. rewrite Hp. split.
      * intros (t1 & td1 & E1 & Hx). destruct (decide (t = t1)) as [<-|].
        -- exists t, td'. rewrite lookup_insert_eq, Hpl. simplify_eq. split; [done|by right].
        -- exists t1, td1. by rewrite lookup_insert_ne.
      * intros (t1 & td1 & (a & Ea & _ & Pa)%Hlook & Hx). apply Pa in Hx as [[? _]|Hx]; [congruence|]. by exists t1, a.
Qed.

(** What registration leaves: nothing waits and nothing runs. *)
Record registered (hs : hosts) (es : events) (B : Z) (assign : list (Z * Z * Z)) d : Prop := mkRegistered {
  re_pol : pol_ok hs es B d;
  re_empty : ∀ h q, hostToQueueDataMap d !! h = Some q → queue_events q = [];
  re_hosts : ∀ h, is_Some (hostToQueueDataMap d !! h) → h ∈ assign.*1.*1;
  re_start : ∀ t td, threadToThreadDataMap d !! t = Some td → currentBarrier td = 0;
  re_threads : ∀ t, t ∈ threadList d → t ∈ assign.*1.*2;
}.

Lemma register_ok hs es B main threads assign :
  RoundPolicy.good_assignment assign → (0 ∉ assign.*1.*1) → Forall (λ t, t ∈ threads) (assign.*1.*2) →
  Z.of_nat (length threads) < 2 ^ 31 → 0 < B ≤ SIMTIME_MAX → registered hs es B assign (register main assign).
Proof.
  intros Hgood H0 Hth Hlen HB. unfold register.
  induction assign as [|[[h t] block] assign IH] using rev_ind.
  { constructor; try done; try (by intros ? [? ?]); try (by intros ? ?%elem_of_nil).
    constructor; try done; try (by intros ? [? ?]).
    - split; [constructor|by intros t ?%elem_of_nil].
    - intros h. split; [by intros [? ?]|by intros (t & td & ? & _)]. }
  destruct Hgood as [Hnd Ht]. rewrite !fmap_app in Hnd, Ht, H0, Hth. cbn in *.
  apply NoDup_app in Hnd as (Hnd & Hx & _). apply Forall_app in Ht as [Ht Ht1]. apply Forall_app in Hth as [Hth Hth1].
  rewrite elem_of_app, list_elem_of_singleton in H0. apply Forall_inv in Ht1, Hth1.
  assert (Hh0 : h ≠ 0) by (intros ->; tauto).
  rewrite foldl_app. cbn. set (d := foldl _ _ _) in *.
  destruct IH as [Hok He Hh Hs Hl]; [by split|tauto|done|].
  assert (Hnew : hostToQueueDataMap d !! h = None).
  { apply eq_None_not_Some. intros Hin%Hh. apply (Hx h Hin). left. }
  unfold _schedulerpolicyhoststeal_addHost. rewrite Hnew, (proj2 (Z.eqb_neq t 0)) by lia. cbn [negb].
  set (q := _hoststealqueuedata_new block).
  assert (Ead : add_thread (d <| hostToQueueDataMap := <[h := q]> (hostToQueueDataMap d) |>) t =
    (add_thread d t) <| hostToQueueDataMap := <[h := q]> (hostToQueueDataMap d) |>).
  { unfold add_thread. cbn. by destruct (threadToThreadDataMap d !! t). }
  rewrite Ead. set (d1 := add_thread d t) in *.
  assert (Hl1 : ∀ x, x ∈ threadList d1 → x ∈ assign.*1.*2 ∨ x = t).
  { unfold d1, add_thread. destruct (threadToThreadDataMap d !! t); cbn; [by left; apply Hl|].
    intros x [Hx'| ->%list_elem_of_singleton]%elem_of_app; [left; by apply Hl|by right]. }
  assert (Hnd1 : NoDup (threadList d1)).
  { unfold d1, add_thread. destruct (threadToThreadDataMap d !! t) eqn:E; cbn; [apply Hok|].
    apply NoDup_app. split; [apply Hok|]. split; [|apply NoDup_singleton]. intros x Hx' ->%list_elem_of_singleton.
    destruct (proj2 (po_list _ _ _ _ Hok) t Hx'). congruence. }
  destruct (add_thread_ok hs es B d t Hok ltac:(lia)) as [Hok1 [td Etd]].
  { enough (length (threadList d1) ≤ length threads)%nat by (unfold d1 in *; lia).
    apply submseteq_length, NoDup_submseteq; [done|]. intros x [Hx'| ->]%Hl1; [|done].
    rewrite Forall_forall in Hth. by apply Hth. }
  fold d1 in Hok1, Etd.
  assert (Hs1 : ∀ t' td', threadToThreadDataMap d1 !! t' = Some td' → currentBarrier td' = 0 ∧ runningHost td' = 0).
  { intros t' td' E. assert (Hc : currentBarrier td' = 0).
    { revert E. unfold d1, add_thread. destruct (threadToThreadDataMap d !! t) eqn:E0; [apply Hs|].
      cbn. intros [[<- <-]|[_ E]]%lookup_insert_Some; [done|by eapply Hs]. }
    split; [done|]. destruct (po_threads _ _ _ _ Hok1 _ _ E) as [_ _ _ _ Hr]. apply Hr. lia. }
  assert (Eq1 : hostToQueueDataMap d1 = hostToQueueDataMap d) by (unfold d1, add_thread; by destruct (threadToThreadDataMap d !! t)).
  destruct (Hs1 t td Etd) as [Hc Hr]. rewrite <-Eq1. unfold with_tdata. cbn. rewrite (alter_insert _ _ _ _ Etd).
  rewrite Hr, (proj2 (Z.eqb_neq h 0)) by done.
  constructor.
  - apply (add_host_ok hs es B d1 h t td block); [done|done|lia|by rewrite Eq1|done].
  - cbn. intros h' q' [[<- <-]|[_ E]]%lookup_insert_Some; [done|]. rewrite Eq1 in E. by eapply He.
  - cbn. intros h' [q' [[<- _]|[_ E]]%lookup_insert_Some]; rewrite !fmap_app, elem_of_app; cbn.
    + right. left.
    + left. apply Hh. rewrite <-Eq1. by eexists.
  - cbn. intros t' td' [[<- <-]|[_ E]]%lookup_insert_Some; [done|by apply (Hs1 t')].
  - cbn. intros x Hx'%Hl1. rewrite !fmap_app, elem_of_app. cbn. rewrite list_elem_of_singleton. done.
Qed.

Lemma steal_initial_inv main threads assign s : initial main threads assign s → inv s.
Proof.
  intros (Hg & H0 & Hth & Hlen & HB & Ep & Eph & Em & Ea & Epo & Eex).
  destruct (register_ok (hs s) (es s) (roundEnd s) main threads assign Hg H0 Hth Hlen HB) as [Hok He Hh Hs Hl].
  rewrite <-Ep in *.
  assert (Hw : waiting (policy s) = []).
  { destruct (waiting (policy s)) as [|x l] eqn:E; [done|]. assert (Hx : x ∈ waiting (policy s)) by (rewrite E; left).
    apply elem_of_waiting in Hx as (h & q & Eq & Hx). rewrite (He h q Eq) in Hx. by apply elem_of_nil in Hx. }
  assert (Hready : ∀ t p, phases s !! t = Some p → p = Ready).
  { rewrite Eph. intros t p E%elem_of_list_to_map_2. by apply list_elem_of_fmap in E as (? & [= -> ->] & _). }
  constructor; rewrite ?Hw; try done.
  - intros t p E. by rewrite (Hready t p E).
  - intros t [td E]. rewrite Eph. destruct (po_numbers _ _ _ _ Hok _ _ E) as [_ Hin%list_elem_of_lookup_2].
    apply Hl in Hin. rewrite Forall_forall in Hth. apply Hth in Hin.
    destruct (list_to_map ((λ t, (t, Ready)) <$> threads) !! t) eqn:En; [by eexists|].
    apply not_elem_of_list_to_map in En. destruct En. rewrite <-list_fmap_compose. by apply list_elem_of_fmap; exists t.
  - rewrite Eex. split; [by intros i j h a b _|by intros h x ?%elem_of_nil].
  - by intros p ?%elem_of_nil.
  - by rewrite Ea, Epo.
  - split; [|by left]. intros t td h q p E. by apply Hready in E.
Qed.

Lemma steal_inv main threads assign s0 s : initial main threads assign s0 → rtc step s0 s → inv s.
Proof.
  intros H0%steal_initial_inv. induction 1 as [|s1 s2 s3 (a & Ha & E) _ IH]; [done|]. apply IH.
  destruct (steal_exec_ok s1 a H0 Ha) as (s' & E' & Hi & _). congruence.
Qed.

Lemma other_phase s a s' t :
  exec s a = Some s' → (∀ B, a ≠ ARound B) → actor a ≠ Some t → phases s' !! t = phases s !! t.
Proof.
  intros E Hr Ha.
  assert (Hset : ∀ s1 self p, phases s1 = phases s → actor a = Some self → phases (set_phase s1 self p) !! t = phases s !! t).
  { intros s1 self p E1 Es. cbn. rewrite lookup_insert_ne, E1; [done|congruence]. }
  assert (Hfound : ∀ self d r p, actor a = Some self → phases (found s self d r p) !! t = phases s !! t).
  { intros self d r p Es. rewrite found_phase, decide_False; [done|]. intros ->. congruence. }
  destruct a as [self event e|self|self|self|self empty|self|self|B]; cbn in E; [..|by destruct (Hr B)].
  - apply bind_Some in E as ([es' d] & _ & [= <-]). unfold record_time. by case_match.
  - case_match; [|injection E as <-; by apply Hset]. apply bind_Some in E as ([d r] & _ & [= <-]). by apply Hfound.
  - repeat (case_match; try done). 2:{ injection E as <-. by apply Hset. }
    apply bind_Some in E as (v & _ & E). apply bind_Some in E as ([d spin] & _ & [= <-]). by apply Hset.
  - case_match; [|done]. case_match; try done. apply bind_Some in E as (v & _ & E).
    apply bind_Some in E as (td & _ & [= <-]). case_match; [by apply Hset|done].
  - repeat (case_match; try done); injection E as <-; by apply Hset.
  - repeat (case_match; try done). apply bind_Some in E as (v & _ & E).
    apply bind_Some in E as ([d r] & _ & [= <-]). by apply Hfound.
  - apply bind_Some in E as (x & _ & [= <-]). apply Hset; [|done]. unfold record_time. by case_match.
Qed.

(** *** Properties *)

(** C4: whatever the interleaving of pushes, pops, thefts, reports and rounds,
    no assertion fails and no host is lost: every host is in exactly one place
    of one thread's lists, so that no two threads run it; the events of a host
    run in the order of time; and each accepted event was run or still waits. *)
Theorem steal_safe main threads assign s0 s :
  initial main threads assign s0 → rtc step s0 s →
  (∀ a, allowed s a → is_Some (exec s a)) ∧
  (∀ h, is_Some (hostToQueueDataMap (policy s) !! h) →
     ∃ t td, threadToThreadDataMap (policy s) !! t = Some td ∧ h ∈ place td ∧ NoDup (place td) ∧
       ∀ t' td', threadToThreadDataMap (policy s) !! t' = Some td' → h ∈ place td' → t' = t) ∧
  (∀ t1 t2 td1 td2, threadToThreadDataMap (policy s) !! t1 = Some td1 → threadToThreadDataMap (policy s) !! t2 = Some td2 →
     runningHost td1 = runningHost td2 → runningHost td1 ≠ 0 → t1 = t2) ∧
  Rounds.causal (executed s) ∧ accepted s ≡ₚ popped s ++ waiting (policy s).
Proof.
  intros H0 Hr. pose proof (steal_inv _ _ _ _ _ H0 Hr) as Hi. pose proof Hi as [Hok _ _ [Hc _] _ Ha _].
  split_and!; [|intros h Hh|intros t1 t2 td1 td2 E1 E2 Er Hn|done|done].
  - intros a Hal. destruct (steal_exec_ok s a Hi Hal) as (s' & E & _). by eexists.
  - destruct (proj1 (po_placed _ _ _ _ Hok h) Hh) as (t & td & E & Hin). exists t, td.
    split_and!; [done|done|by apply (po_threads _ _ _ _ Hok _ _ E)|]. intros t' td' E' Hin'. by eapply (po_one _ _ _ _ Hok t' t).
  - eapply (po_one _ _ _ _ Hok t1 t2 td1 td2 (runningHost td1)); [done|done|apply elem_of_place; auto|].
    apply elem_of_place. rewrite Er. rewrite Er in Hn. auto.
Qed.

(** C5: when all threads have reported, whichever hosts they took from each
    other, the round is complete: no event before its end waits, every host
    with a queue is in the list that some thread will start the next round
    with, and the next event time is exactly that of the first event. *)
Theorem steal_round_complete main threads assign s0 s :
  initial main threads assign s0 → rtc step s0 s → (∀ t p, phases s !! t = Some p → p = Done) →
  (∀ p, p ∈ waiting (policy s) → roundEnd s ≤ time (es s !!! p)) ∧
  (∀ h, is_Some (hostToQueueDataMap (policy s) !! h) →
     ∃ t td, threadToThreadDataMap (policy s) !! t = Some td ∧ h ∈ processedHosts td) ∧
  minNext s = Threads.earliest (es s) (waiting (policy s)).
Proof.
  intros H0 Hr Hd. pose proof (steal_inv _ _ _ _ _ H0 Hr) as [Hok Hph Hw _ Ht _ [Hm1 Hm2]].
  assert (Hhost : ∀ h, is_Some (hostToQueueDataMap (policy s) !! h) →
     ∃ t td, threadToThreadDataMap (policy s) !! t = Some td ∧ h ∈ processedHosts td ∧ currentBarrier td = roundEnd s ∧ phases s !! t = Some Done).
  { intros h Hh. destruct (proj1 (po_placed _ _ _ _ Hok h) Hh) as (t & td & E & Hin). exists t, td.
    destruct (Hw t) as [p Ep]; [by eexists|]. rewrite (Hd t p Ep) in Ep. destruct (Hph t Done Ep td E) as (Hb & Hu & Hrun).
    apply elem_of_place in Hin. rewrite Hu, Hrun, elem_of_nil in Hin. split_and!; try done.
    destruct Hin as [?|[?|[? ?]]]; [done|done|]. by subst. }
  assert (Hev : ∀ p, p ∈ waiting (policy s) → roundEnd s ≤ time (es s !!! p) ∧ minNext s ≤ time (es s !!! p)).
  { intros p (h & q & Eq & Hp)%elem_of_waiting. destruct (Hhost h) as (t & td & E & Hin & Hb & Ep); [by eexists|].
    destruct (po_threads _ _ _ _ Hok _ _ E) as [_ _ _ Hen _]. split; [by apply (proj2 (Hen Hb) h Hin q)|by apply (Hm1 t td h q)]. }
  split_and!; [by apply Hev| |].
  - intros h Hh. destruct (Hhost h Hh) as (t & td & ? & ? & _). by exists t, td.
  - destruct (Threads.earliest_spec (es s) (waiting (policy s))) as (E1 & E2 & E3).
    destruct Hm2 as [Em|(Hlt & p & Hp & Em)].
    + destruct E3 as [->|(p & Hp & E)]; [done|]. pose proof (proj2 (Hev p Hp)). lia.
    + specialize (E1 p Hp). destruct E3 as [E|(p' & Hp' & E)]; [lia|]. pose proof (proj2 (Hev p' Hp')). lia.
Qed.

(** C31: once all threads have begun to pop in a round, no thread waits for
    another for ever: a thread in the middle of a pop always has a next
    section, each of its sections brings the end of the pop nearer, even a
    wait for another thread, and nobody else moves it; so that the pop
    returns. *)
Theorem steal_pop_returns main threads assign s0 s self p :
  initial main threads assign s0 → rtc step s0 s → all_entered s →
  phases s !! self = Some p → 0 < sections_left p →
  (∃ a, allowed s a ∧ actor a = Some self) ∧
  (∀ a s', allowed s a → exec s a = Some s' →
     all_entered s' ∧ ∃ p', phases s' !! self = Some p' ∧
       if decide (actor a = Some self) then sections_left p' < sections_left p else p' = p).
Proof.
  intros H0 Hr He Ep Hl. pose proof (steal_inv _ _ _ _ _ H0 Hr) as Hi. split.
  - destruct p as [|n i|n i|n i|n i| |]; try (cbn in Hl; lia).
    + exists (ASearch self). split; [by exists n, i|done].
    + exists (ASpin self). split; [by exists n, i|done].
    + exists (ALook self true). split; [by exists n, i|done].
    + exists (ATake self). split; [by exists n, i|done].
  - intros a s' Ha E. destruct (steal_exec_ok s a Hi Ha) as (s1 & E1 & _ & Hm). simplify_eq.
    assert (Hnr : ∀ B, a ≠ ARound B) by (intros B ->; destruct Ha as [_ Hd]; rewrite (Hd self p Ep) in Hl; by cbn in Hl).
    destruct (Hm Hnr) as [[Hre Hk] Hown]. split.
    + intros t td' E'. destruct (Hk t td' E') as (td & Etd & Hb). rewrite Hre. exact (Hb (He _ _ Etd)).
    + case_decide as Ea; [by eapply Hown|]. exists p. split; [|done]. by rewrite (other_phase s a s' self E Hnr Ea).
Qed.

End Operations.

(** ** Witnesses *)

(** [allowed] as a test. *)
Definition mayb d (self host : Z) : bool :=
  match threadToThreadDataMap d !! self with
  | Some tdata => negb (host =? 0) && ((runningHost tdata =? host) || bool_decide (host ∈ unprocessedHosts tdata))
  | None => false
  end.

Definition allowedb s (a : act) : bool :=
  match a with
  | APush self event e =>
      bool_decide (phases s !! self = Some Ready) && negb (event =? 0) && bool_decide (event ∉ waiting (policy s)) &&
      mayb (policy s) self (srcHost e) && (time e <=? SIMTIME_MAX) &&
      match hostToQueueDataMap (policy s) !! dstHost e with
      | Some q => negb (srcHost e =? dstHost e) || (Sched.lastEventTime q <=? time e)
      | None => false
      end
  | APop self => bool_decide (phases s !! self = Some Ready)
  | ASearch self => match phases s !! self with Some (Search _ _) => true | _ => false end
  | ASpin self => match phases s !! self with Some (Spin _ _) => true | _ => false end
  | ALook self _ => match phases s !! self with Some (Look _ _) => true | _ => false end
  | ATake self => match phases s !! self with Some (Taking _ _) => true | _ => false end
  | AReport self => bool_decide (phases s !! self = Some Drained)
  | ARound _ => false
  end.

Lemma allowedb_sound s a : allowedb s a = true → allowed s a.
Proof.
  destruct a as [self event e|self|self|self|self empty|self|self|B]; cbn; try done;
    try (by intros ?%bool_decide_eq_true); try (repeat (case_match; try done); intros _; by eexists _, _).
  rewrite !andb_true_iff. intros [[[[[Hp%bool_decide_eq_true H0%negb_true_iff] Hn%bool_decide_eq_true] Hm] Hle%Z.leb_le] Hq].
  apply Z.eqb_neq in H0. destruct (hostToQueueDataMap (policy s) !! dstHost e) as [q|]; [|done].
  split_and!; try done.
  - unfold mayb in Hm. destruct (threadToThreadDataMap (policy s) !! self) as [td|] eqn:E; [|done].
    apply andb_true_iff in Hm as [Hh%negb_true_iff%Z.eqb_neq Hm]. exists td. split; [done|]. split; [done|].
    apply orb_true_iff in Hm as [Hm%Z.eqb_eq|Hm%bool_decide_eq_true]; auto.
  - intros q0 Es [= <-]. apply orb_true_iff in Hq as [Hq%negb_true_iff%Z.eqb_neq|Hq%Z.leb_le]; done.
Qed.

Fixpoint run_acts s (acts : list act) : option Sim :=
  match acts with
  | [] => Some s
  | a :: acts => if allowedb s a then s ← exec Sched.nomove s a; run_acts s acts else None
  end.

Lemma run_acts_steps s acts s' : run_acts s acts = Some s' → rtc (step Sched.nomove) s s'.
Proof.
  revert s. induction acts as [|a acts IH]; intros s; cbn; [by intros [= ->]|].
  destruct (allowedb s a) eqn:Ea; [|done]. intros (s1 & E & H)%bind_Some.
  eapply rtc_l; [exists a; split; [by apply allowedb_sound|done]|by apply IH].
Qed.

(** Hosts 100 and 200 belong to thread 1, host 300 to thread 2. *)
Definition demo_assign : list (Z * Z * Z) := [(100, 1, 500); (200, 1, 600); (300, 2, 700)].

Definition demo_start : Sim :=
  mkSim sample_hosts ∅ (register 1 demo_assign) 10 (list_to_map ((λ t, (t, Ready)) <$> [1; 2])) SIMTIME_MAX [] [] [].

Lemma steal_demo_initial : initial 1 [1; 2] demo_assign demo_start.
Proof.
  split_and!; try done.
  - split; [|by repeat constructor]. apply (bool_decide_unpack _). by vm_compute.
  - apply (bool_decide_unpack _). by vm_compute.
  - apply (bool_decide_unpack _). by vm_compute.
Qed.

(** Thread 1 runs an event of host 100; thread 2 has none and looks at thread 1. *)
Definition demo_acts : list act :=
  [APush 1 11 (ev 100 100 5 0); APush 1 12 (ev 200 200 3 1); APop 1; APop 2; ASearch 2].

(** Thread 2 takes host 200. *)
Definition theft_acts : list act := demo_acts ++ [ALook 2 false; ATake 2].

(** Host 200 sends to host 300, and the round ends. *)
Definition round_acts : list act :=
  theft_acts ++ [APush 2 13 (ev 200 300 7 2); APop 2; ASearch 2; ALook 2 true; ASearch 2; AReport 2;
    APop 1; ASearch 1; ALook 1 true; ASearch 1; AReport 1].

Definition demo_run (acts : list act) : Sim := default demo_start (run_acts demo_start acts).

Lemma demo_reach acts : bool_decide (is_Some (run_acts demo_start acts)) = true → rtc (step Sched.nomove) demo_start (demo_run acts).
Proof.
  intros [s E]%bool_decide_eq_true. unfold demo_run. rewrite E. by apply (run_acts_steps _ acts).
Qed.

Lemma steal_safe_witness : executed (demo_run theft_acts) = [(100, 5); (200, 3)] ∧ Rounds.causal (executed (demo_run theft_acts)).
Proof.
  split; [by vm_compute|]. assert (Hr : rtc (step Sched.nomove) demo_start (demo_run theft_acts)) by (apply demo_reach; by vm_compute).
  by destruct (steal_safe Sched.nomove _ _ _ _ _ steal_demo_initial Hr) as (_ & _ & _ & H & _).
Defined.

Lemma steal_round_complete_witness : minNext (demo_run round_acts) = 10 ∧ ∀ p, p ∈ waiting (policy (demo_run round_acts)) → 10 ≤ time (es (demo_run round_acts) !!! p).
Proof.
  split; [by vm_compute|]. assert (Hr : rtc (step Sched.nomove) demo_start (demo_run round_acts)) by (apply demo_reach; by vm_compute).
  assert (Hd : ∀ t p, phases (demo_run round_acts) !! t = Some p → p = Done).
  { change (map_Forall (λ _ p, p = Done) (phases (demo_run round_acts))). apply (bool_decide_unpack _). by vm_compute. }
  destruct (steal_round_complete Sched.nomove _ _ _ _ _ steal_demo_initial Hr Hd) as (H & _). exact H.
Defined.

Lemma steal_pop_returns_witness : phases (demo_run demo_acts) !! 2 = Some (Look 2 1) ∧ ∃ a, allowed (demo_run demo_acts) a ∧ actor a = Some 2.
Proof.
  assert (E : phases (demo_run demo_acts) !! 2 = Some (Look 2 1)) by (by vm_compute). split; [done|].
  assert (Hr : rtc (step Sched.nomove) demo_start (demo_run demo_acts)) by (apply demo_reach; by vm_compute).
  assert (He : all_entered (demo_run demo_acts)).
  { change (map_Forall (λ _ td, currentBarrier td = 10) (threadToThreadDataMap (policy (demo_run demo_acts)))).
    apply (bool_decide_unpack _). by vm_compute. }
  by destruct (steal_pop_returns Sched.nomove _ _ _ _ _ 2 _ steal_demo_initial Hr He E) as [H _].
Defined.

End Steal.
