(* ===== verification/RouterQueue.v ===== *)
(** * The queue managers of a router
    (src/phantom/src/main/routing/router_queue_single.c, router_queue_static.c,
    router_queue_codel.c, and the hooks of router.h)

    A router buffers packets in one of three queues behind one table of
    function pointers.  Each queue owns one reference to every packet it holds;
    the laws of the interface say which packets an operation accepts, returns
    and drops, and who owns the references afterwards. *)

From S2P Require Import Prelude Float64 Cpu PriorityQueue Event Packet.

Module RQ.
Import Pkt.

(** ** The interface (router.h) *)

Record QueueManagerHooks (Q : Type) := mkHooks {
  new : Q;
  free : Store → Q → option Store;
  enqueue : Store → Z → Q → Z → option (Store * Q * bool);
  dequeue : Store → Z → Q → option (Store * Q * Z);
  peek : Q → Z;
}.
Arguments mkHooks {Q}. Arguments new {Q}. Arguments free {Q}. Arguments enqueue {Q}.
Arguments dequeue {Q}. Arguments peek {Q}.

(** The packet a dequeue returned, as a list: 0 is [NULL]. *)
Definition returned (r : Z) : list Z := if r =? 0 then [] else [r].

(** What a queue promises.  [l] are the references other components hold. *)
Class QueueManagerLaws (traceOn : bool) {Q : Type} (hooks : QueueManagerHooks Q)
    (contents : Q → list Z) (ok : Store → Z → Q → Prop) : Prop := {
  new_law : contents (new hooks) = [] ∧ ∀ st now, ok st now (new hooks);
  peek_law q : peek hooks q = hd 0 (contents q);
  stable_law st st' now now' q :
    ok st now q → same_sizes st st' (contents q) → now ≤ now' → ok st' now' q;
  enqueue_law st now q l a p :
    held traceOn st (contents q ++ l) → ok st now q → a ∈ l →
    packets st !! a = Some p → referenceCount p < UINT32_MAX →
    ∃ st' q' b, enqueue hooks st now q a = Some (st', q', b) ∧
      contents q' = contents q ++ (if b then [a] else []) ∧
      held traceOn st' (contents q' ++ l) ∧ ok st' now q' ∧
      (∀ b, packet_view st' b = packet_view st b);
  dequeue_law st now q l :
    held traceOn st (contents q ++ l) → ok st now q →
    ∃ st' q' r dropped, dequeue hooks st now q = Some (st', q', r) ∧
      contents q = dropped ++ returned r ++ contents q' ∧
      (r = 0 → contents q = []) ∧
      held traceOn st' (returned r ++ contents q' ++ l) ∧ ok st' now q' ∧
      same_sizes st st' (returned r ++ contents q' ++ l);
  free_law st now q l :
    held traceOn st (contents q ++ l) → ok st now q →
    ∃ st', free hooks st q = Some st' ∧ held traceOn st' l ∧ same_sizes st st' l;
}.

Section Queues.
Context (address_ipToNewString : Z → string) (traceOn : bool).

Abbreviation unref := (packet_unref address_ipToNewString traceOn).
Abbreviation addDeliveryStatus := (packet_addDeliveryStatus address_ipToNewString traceOn).

(** [g_queue_free_full] with [packet_unref]. *)
Definition unref_all (st : Store) (l : list Z) : option Store :=
  foldl (λ s a, st ← s; unref st a) (Some st) l.

(** ** A queue of one packet (router_queue_single.c) *)

(** [currentPacket] is 0 when there is none. *)
Record QueueManagerSingle := mkSingle { currentPacket : Z }.

Definition _routerqueuesingle_new : QueueManagerSingle := mkSingle 0.

Definition _routerqueuesingle_free (st : Store) (q : QueueManagerSingle) : option Store :=
  if negb (currentPacket q =? 0) then unref st (currentPacket q) else Some st.

Definition _routerqueuesingle_enqueue (st : Store) (now : Z) (q : QueueManagerSingle) (packet : Z)
    : option (Store * QueueManagerSingle * bool) :=
  if currentPacket q =? 0 then
    st ← packet_ref st packet; Some (st, mkSingle packet, true)
  else Some (st, q, false).

Definition _routerqueuesingle_dequeue (st : Store) (now : Z) (q : QueueManagerSingle)
    : option (Store * QueueManagerSingle * Z) :=
  Some (st, mkSingle 0, currentPacket q).

Definition _routerqueuesingle_peek (q : QueueManagerSingle) : Z := currentPacket q.

Definition routerqueuesingle_getHooks : QueueManagerHooks QueueManagerSingle :=
  mkHooks _routerqueuesingle_new _routerqueuesingle_free _routerqueuesingle_enqueue
    _routerqueuesingle_dequeue _routerqueuesingle_peek.

(** ** A drop-tail queue of bounded size (router_queue_static.c) *)

Definition STATIC_PARAM_MAXSIZE : Z := 1024000.

Record QueueManagerStatic := mkStatic { s_packets : list Z; s_totalSize : Z }.

Definition _routerqueuestatic_new : QueueManagerStatic := mkStatic [] 0.

Definition _routerqueuestatic_free (st : Store) (q : QueueManagerStatic) : option Store :=
  unref_all st (s_packets q).

Definition _routerqueuestatic_getPacketLength (st : Store) (packet : Z) : option Z :=
  packet_size st packet.

Definition _routerqueuestatic_enqueue (st : Store) (now : Z) (q : QueueManagerStatic) (packet : Z)
    : option (Store * QueueManagerStatic * bool) :=
  length ← _routerqueuestatic_getPacketLength st packet;
  if u64 (s_totalSize q + length) <? STATIC_PARAM_MAXSIZE then
    st ← packet_ref st packet;
    Some (st, mkStatic (s_packets q ++ [packet]) (u64 (s_totalSize q + length)), true)
  else Some (st, q, false).

Definition _routerqueuestatic_dequeue (st : Store) (now : Z) (q : QueueManagerStatic)
    : option (Store * QueueManagerStatic * Z) :=
  match s_packets q with
  | [] => Some (st, q, 0)
  | packet :: rest =>
      length ← _routerqueuestatic_getPacketLength st packet;
      if negb (length <=? s_totalSize q) then None
      else Some (st, mkStatic rest (u64 (s_totalSize q - length)), packet)
  end.

Definition _routerqueuestatic_peek (q : QueueManagerStatic) : Z := hd 0 (s_packets q).

Definition routerqueuestatic_getHooks : QueueManagerHooks QueueManagerStatic :=
  mkHooks _routerqueuestatic_new _routerqueuestatic_free _routerqueuestatic_enqueue
    _routerqueuestatic_dequeue _routerqueuestatic_peek.

(** ** Controlled delay (router_queue_codel.c) *)

Definition CODEL_PARAM_QUEUE_SIZE_LIMIT : Z := UINT32_MAX.
Definition CODEL_PARAM_TARGET_DELAY_SIMTIME : Z := 10 * SIMTIME_ONE_MILLISECOND.
Definition CODEL_PARAM_INTERVAL_SIMTIME : Z := 100 * SIMTIME_ONE_MILLISECOND.
Definition CONFIG_MTU : Z := 1500.

Inductive CoDelMode := CODEL_MODE_STORE | CODEL_MODE_DROP.

#[export] Instance CoDelMode_eq_dec : EqDecision CoDelMode.
Proof. solve_decision. Defined.

Record CoDelEntry := mkEntry { packet : Z; enqueueTS : Z }.

Record QueueManagerCoDel := mkCoDel {
  entries : list CoDelEntry;
  totalSize : Z;
  mode : CoDelMode;
  intervalExpireTS : Z;
  nextDropTS : Z;
  dropCount : Z;
  dropCountLast : Z;
}.

#[export] Instance codel_eta : Eta QueueManagerCoDel := fun q =>
  mkCoDel (entries q) (totalSize q) (mode q) (intervalExpireTS q) (nextDropTS q) (dropCount q)
    (dropCountLast q).

Definition _routerqueuecodel_new : QueueManagerCoDel := mkCoDel [] 0 CODEL_MODE_STORE 0 0 0 0.

Definition _routerqueuecodel_free (st : Store) (q : QueueManagerCoDel) : option Store :=
  foldl (λ s e, st ← s; if negb (packet e =? 0) then unref st (packet e) else Some st)
    (Some st) (entries q).

Definition _routerqueuecodel_getPacketLength (st : Store) (packet : Z) : option Z :=
  packet_size st packet.

Definition _routerqueuecodel_enqueue (st : Store) (now : Z) (q : QueueManagerCoDel) (packet : Z)
    : option (Store * QueueManagerCoDel * bool) :=
  if Z.of_nat (length (entries q)) <? CODEL_PARAM_QUEUE_SIZE_LIMIT then
    st ← packet_ref st packet;
    length ← _routerqueuecodel_getPacketLength st packet;
    Some (st, q <| entries := entries q ++ [mkEntry packet now] |>
                <| totalSize := u64 (totalSize q + length) |>, true)
  else Some (st, q, false).

Definition _routerqueuecodel_drop (st : Store) (packet : Z) : option Store :=
  st ← addDeliveryStatus st packet PDS_ROUTER_DROPPED;
  unref st packet.

(** Returns the new state, the packet (0 for [NULL]) and [okToDrop]. *)
Definition _routerqueuecodel_dequeueHelper (st : Store) (now : Z) (q : QueueManagerCoDel)
    : option (QueueManagerCoDel * Z * bool) :=
  match entries q with
  | [] => Some (q <| intervalExpireTS := 0 |>, 0, false)
  | entry :: rest =>
      let ts := enqueueTS entry in
      let q := q <| entries := rest |> in
      if packet entry =? 0 then Some (q <| intervalExpireTS := 0 |>, 0, false) else
      length ← _routerqueuecodel_getPacketLength st (packet entry);
      if negb (length <=? totalSize q) then None else
      let q := q <| totalSize := u64 (totalSize q - length) |> in
      if negb (ts <=? now) then None else
      let sojournTime := u64 (now - ts) in
      if (sojournTime <? CODEL_PARAM_TARGET_DELAY_SIMTIME) || (totalSize q <? CONFIG_MTU) then
        Some (q <| intervalExpireTS := 0 |>, packet entry, false)
      else if intervalExpireTS q =? 0 then
        Some (q <| intervalExpireTS := u64 (now + CODEL_PARAM_INTERVAL_SIMTIME) |>,
              packet entry, false)
      else Some (q, packet entry, intervalExpireTS q <=? now)
  end.

(** The value the compiled conversion from double gives where the C standard
    leaves it undefined (infinities and values out of range). *)
Context (double_ub : Z).

Definition double_to_u64 (x : F64.double) : Z :=
  match F64.to_u64 x with Some z => z | None => double_ub end.

Definition _routerqueuecodel_controlLaw (count ts : Z) : Z :=
  let newTS := u64 (ts + CODEL_PARAM_INTERVAL_SIMTIME) in
  let result := F64.div (F64.of_Z newTS) (F64.sqrt (F64.of_Z count)) in
  let rounded := F64.round result in
  double_to_u64 rounded.

(** The drop loop; [fuel] bounds the number of packets it can drop. *)
Fixpoint codel_drop_loop (fuel : nat) (st : Store) (now : Z) (q : QueueManagerCoDel) (packet : Z)
    : option (Store * QueueManagerCoDel * Z) :=
  if (nextDropTS q <=? now) && bool_decide (mode q = CODEL_MODE_DROP) then
    match fuel with
    | O => None
    | S fuel =>
        st ← _routerqueuecodel_drop st packet;
        let q := q <| dropCount := u32 (dropCount q + 1) |> in
        '(q, packet, okToDrop) ← _routerqueuecodel_dequeueHelper st now q;
        let q := if (okToDrop : bool)
                 then q <| nextDropTS := _routerqueuecodel_controlLaw (dropCount q) (nextDropTS q) |>
                 else q <| mode := CODEL_MODE_STORE |> in
        codel_drop_loop fuel st now q packet
    end
  else Some (st, q, packet).

(** A first drop turns dropping mode on. *)
Definition codel_enter_drop (st : Store) (now : Z) (q : QueueManagerCoDel) (packet : Z)
    : option (Store * QueueManagerCoDel * Z) :=
  st ← _routerqueuecodel_drop st packet;
  '(q, packet, _) ← _routerqueuecodel_dequeueHelper st now q;
  let q := q <| mode := CODEL_MODE_DROP |> in
  let delta := u32 (dropCount q - dropCountLast q) in
  let q := q <| dropCount := 1 |> in
  let droppingRecently := now <? u64 (nextDropTS q + 16 * CODEL_PARAM_INTERVAL_SIMTIME) in
  let q := if droppingRecently && (1 <? delta) then q <| dropCount := delta |> else q in
  let q := q <| nextDropTS := _routerqueuecodel_controlLaw (dropCount q) now |> in
  Some (st, q <| dropCountLast := dropCount q |>, packet).

Definition _routerqueuecodel_dequeue (st : Store) (now : Z) (q : QueueManagerCoDel)
    : option (Store * QueueManagerCoDel * Z) :=
  '(q, packet, okToDrop) ← _routerqueuecodel_dequeueHelper st now q;
  if packet =? 0 then Some (st, q <| mode := CODEL_MODE_STORE |>, packet)
  else if decide (mode q = CODEL_MODE_DROP) then
    let q := if negb okToDrop then q <| mode := CODEL_MODE_STORE |> else q in
    codel_drop_loop (S (length (entries q))) st now q packet
  else if (okToDrop : bool) then codel_enter_drop st now q packet
  else Some (st, q, packet).

Definition _routerqueuecodel_peek (q : QueueManagerCoDel) : Z :=
  match entries q with entry :: _ => packet entry | [] => 0 end.

Definition routerqueuecodel_getHooks : QueueManagerHooks QueueManagerCoDel :=
  mkHooks _routerqueuecodel_new _routerqueuecodel_free _routerqueuecodel_enqueue
    _routerqueuecodel_dequeue _routerqueuecodel_peek.

End Queues.

(** ** Weights *)

Definition total (st : Store) (l : list Z) : Z :=
  foldr (λ a n, default 0 (packet_size st a) + n) 0 l.

Arguments total : simpl never.

Lemma total_cons st a l : total st (a :: l) = default 0 (packet_size st a) + total st l.
Proof. done. Qed.

Lemma total_nil st : total st [] = 0.
Proof. done. Qed.

Lemma packet_size_range st a n : packet_size st a = Some n → 0 ≤ n < 2 ^ 32.
Proof.
  unfold packet_size. destruct (packets st !! a); [|done]. simpl.
  destruct (packet_getPayloadLength st p); [|done]. simpl. intros [= <-]. apply u32_range.
Qed.

Lemma total_nonneg st l : 0 ≤ total st l ≤ Z.of_nat (length l) * 2 ^ 32.
Proof.
  induction l as [|a l IH]; rewrite ?total_cons, ?total_nil; simpl; [lia|].
  destruct (packet_size st a) as [n|] eqn:E; simpl; [apply packet_size_range in E|]; lia.
Qed.

Lemma total_app st l l' : total st (l ++ l') = total st l + total st l'.
Proof. induction l as [|a l IH]; simpl; rewrite ?total_cons, ?total_nil; lia. Qed.

Lemma total_same st st' l : same_sizes st st' l → total st' l = total st l.
Proof. induction 1 as [|a l E _ IH]; rewrite ?total_cons; [done|]. by rewrite (same_size _ _ _ E), IH. Qed.

Lemma held_nonzero traceOn st l a : held traceOn st l → a ∈ l → a ≠ 0.
Proof.
  intros Hh Ha. destruct (held_in _ _ _ _ Hh Ha) as (p & Hp & _).
  destruct (wf_packets _ (held_wf _ _ _ Hh) _ _ Hp) as [? _]. lia.
Qed.

Lemma held_size traceOn st l a : held traceOn st l → a ∈ l → is_Some (packet_size st a).
Proof.
  intros Hh Ha. destruct (held_in _ _ _ _ Hh Ha) as (p & Hp & _).
  exact (live_size _ _ _ (held_wf _ _ _ Hh) Hp).
Qed.

Lemma held_more traceOn st l l' a :
  held traceOn st (l ++ l') → a ∈ l' → a ∈ l ++ l'.
Proof. intros _ ?. apply elem_of_app. by right. Qed.

Lemma returned_0 : returned 0 = [].
Proof. done. Qed.

Lemma returned_nonzero r : r ≠ 0 → returned r = [r].
Proof. intros. unfold returned. by rewrite (proj2 (Z.eqb_neq r 0)). Qed.

Section Laws.
Context (address_ipToNewString : Z → string) (traceOn : bool) (double_ub : Z).

Lemma unref_all_ok l st l' :
  held traceOn st (l ++ l') →
  ∃ st', unref_all address_ipToNewString traceOn st l = Some st' ∧ held traceOn st' l' ∧
    same_sizes st st' l'.
Proof.
  unfold unref_all. revert st. induction l as [|a l IH]; intros st Hh; simpl.
  - eexists. split; [done|]. split; [done|]. by apply same_sizes_all.
  - destruct (held_unref address_ipToNewString traceOn st _ a Hh) as (st1 & -> & Hh1 & Hs1).
    destruct (IH st1 Hh1) as (st2 & E & Hh2 & Hs2). exists st2. split_and!; [done|done|].
    eapply same_sizes_trans; [exact Hs1|exact Hs2|]. intros b Hb. apply elem_of_app. by right.
Qed.

(** Queueing a packet takes a reference on behalf of the queue. *)
Lemma accept st q l a p :
  held traceOn st (q ++ l) → a ∈ l → packets st !! a = Some p → referenceCount p < UINT32_MAX →
  ∃ st', packet_ref st a = Some st' ∧ held traceOn st' ((q ++ [a]) ++ l) ∧
    (∀ b, packet_view st' b = packet_view st b).
Proof.
  intros Hh Ha Hp Hlt. destruct (held_ref traceOn st (q ++ l) a p Hh Hp Hlt) as (st' & E & Hh' & Hs & _).
  exists st'. split_and!; [done| |done].
  eapply held_Permutation; [|exact Hh']. rewrite <-(app_assoc q [a] l). apply Permutation_middle.
Qed.

#[export] Instance single_laws :
  QueueManagerLaws traceOn (routerqueuesingle_getHooks address_ipToNewString traceOn)
    (λ q, returned (currentPacket q)) (λ _ _ _, True).
Proof.
  split; simpl; try done.
  - intros [c]. unfold _routerqueuesingle_peek, returned. simpl. by destruct (Z.eqb_spec c 0).
  - intros st now [c] l a p Hh _ Ha Hp Hlt. unfold _routerqueuesingle_enqueue. simpl in *.
    unfold returned in *. destruct (Z.eqb_spec c 0) as [->|Hc]; simpl in *.
    + destruct (accept st [] l a p Hh Ha Hp Hlt) as (st' & -> & Hh' & Hs). simpl.
      do 3 eexists. split; [done|]. simpl.
      assert (Hn : a ≠ 0) by exact (held_nonzero _ _ _ _ Hh Ha).
      by rewrite (proj2 (Z.eqb_neq a 0)).
    + do 3 eexists. split; [done|]. simpl. by rewrite (proj2 (Z.eqb_neq c 0)).
  - intros st now [c] l Hh _. unfold _routerqueuesingle_dequeue. simpl in *.
    do 3 eexists. exists []. split; [done|]. simpl. rewrite app_nil_r. split_and!; try done.
    + by intros ->.
    + by apply same_sizes_all.
  - intros st _ [c] l Hh _. unfold _routerqueuesingle_free. simpl in *. unfold returned in Hh.
    destruct (Z.eqb_spec c 0); simpl in *.
    + eexists. split; [done|]. split; [done|]. by apply same_sizes_all.
    + by apply held_unref.
Qed.

Definition static_ok (st : Store) (now : Z) (q : QueueManagerStatic) : Prop :=
  s_totalSize q = total st (s_packets q) ∧ s_totalSize q < STATIC_PARAM_MAXSIZE.

#[export] Instance static_laws :
  QueueManagerLaws traceOn (routerqueuestatic_getHooks address_ipToNewString traceOn)
    s_packets static_ok.
Proof.
  split; simpl; try done.
  - intros st st' now now' q [E ?] Hs _. split; [|done]. by rewrite (total_same _ _ _ Hs).
  - intros st now q l a p Hh [E Hlt0] Ha Hp Hlt. unfold _routerqueuestatic_enqueue.
    destruct (held_size _ _ _ _ Hh (held_more _ _ _ _ _ Hh Ha)) as [n En].
    unfold _routerqueuestatic_getPacketLength. rewrite En. simpl.
    pose proof (packet_size_range _ _ _ En). pose proof (total_nonneg st (s_packets q)).
    unfold STATIC_PARAM_MAXSIZE in *. rewrite u64_small by lia.
    destruct (Z.ltb_spec (s_totalSize q + n) 1024000).
    + destruct (accept _ _ l a p Hh Ha Hp Hlt) as (st' & -> & Hh' & Hs). simpl.
      do 3 eexists. split; [done|]. simpl. split_and!; [done|done| |done]. split; [|done]. simpl.
      rewrite total_app, (total_same st st') by by apply same_sizes_all.
      rewrite total_cons, total_nil, (same_size _ _ _ (Hs _)), En. simpl. lia.
    + do 3 eexists. split; [done|]. simpl. rewrite app_nil_r. by split_and!.
  - intros st now q l Hh [E Hlt0]. unfold _routerqueuestatic_dequeue.
    destruct q as [[|a rest] tot]; simpl in *.
    + do 3 eexists. exists []. split; [done|]. simpl. split_and!; try done. by apply same_sizes_all.
    + destruct (held_size _ _ _ a Hh) as [n En]; [left|].
      unfold _routerqueuestatic_getPacketLength. rewrite En. rewrite total_cons, En in E. simpl in *.
      pose proof (packet_size_range _ _ _ En). pose proof (total_nonneg st rest).
      unfold STATIC_PARAM_MAXSIZE in *.
      assert (Hn : a ≠ 0) by (apply (held_nonzero _ _ _ _ Hh); left).
      rewrite (proj2 (Z.leb_le _ _)) by lia. simpl. do 3 eexists. exists []. split; [done|].
      rewrite (returned_nonzero a Hn). simpl. rewrite u64_small by lia. split_and!; try done.
      * split; simpl; [lia|]. unfold STATIC_PARAM_MAXSIZE. lia.
      * by apply same_sizes_all.
  - intros st now q l Hh _. by apply unref_all_ok.
Qed.

(** *** CoDel *)

Definition codel_contents (q : QueueManagerCoDel) : list Z := packet <$> entries q.

Definition codel_ok (st : Store) (now : Z) (q : QueueManagerCoDel) : Prop :=
  totalSize q = total st (codel_contents q) ∧
  Forall (λ e, enqueueTS e ≤ now) (entries q) ∧
  Z.of_nat (length (entries q)) ≤ CODEL_PARAM_QUEUE_SIZE_LIMIT.

Lemma codel_total_small st now q : codel_ok st now q → 0 ≤ totalSize q < 2 ^ 64.
Proof.
  intros (-> & _ & Hl). pose proof (total_nonneg st (codel_contents q)) as H.
  unfold codel_contents, CODEL_PARAM_QUEUE_SIZE_LIMIT, UINT32_MAX in *. rewrite length_fmap in H. lia.
Qed.

Lemma codel_stable st st' now now' q :
  codel_ok st now q → same_sizes st st' (codel_contents q) → now ≤ now' → codel_ok st' now' q.
Proof.
  intros (E & Ht & Hl) Hs Hn. split_and!; [by rewrite (total_same _ _ _ Hs)| |done].
  eapply Forall_impl; [exact Ht|]. simpl. lia.
Qed.

(** Taking the head entry: it may only be dropped when at least an MTU of
    other packets stays behind. *)
Lemma dequeueHelper_ok st now q l e rest :
  held traceOn st (codel_contents q ++ l) → codel_ok st now q → entries q = e :: rest →
  ∃ q' b, _routerqueuecodel_dequeueHelper st now q = Some (q', packet e, b) ∧
    entries q' = rest ∧ codel_ok st now q' ∧ mode q' = mode q ∧ (b = true → rest ≠ []).
Proof.
  intros Hh Hok Ee. pose proof (codel_total_small _ _ _ Hok) as Htot.
  destruct Hok as (Et & Hts & Hl). unfold codel_contents in *. rewrite Ee, fmap_cons in *.
  cbn [app length] in *.
  destruct (held_size _ _ _ (packet e) Hh) as [n En]; [left|].
  assert (packet e ≠ 0) by (apply (held_nonzero _ _ _ _ Hh); left).
  apply Forall_cons in Hts as [Hte Hts]. rewrite total_cons, En in Et. simpl in Et.
  pose proof (packet_size_range _ _ _ En). pose proof (total_nonneg st (packet <$> rest)).
  unfold _routerqueuecodel_dequeueHelper, _routerqueuecodel_getPacketLength. rewrite Ee.
  rewrite (proj2 (Z.eqb_neq _ 0)), En by done. cbn.
  rewrite (proj2 (Z.leb_le _ _)), (proj2 (Z.leb_le _ _)) by lia. cbn.
  rewrite (u64_small (totalSize q - n)) by lia.
  assert (Hok' : ∀ q', entries q' = rest → totalSize q' = totalSize q - n → codel_ok st now q').
  { intros q' Er Et'. unfold codel_ok, codel_contents. rewrite Er, Et'. split_and!; [lia|done|lia]. }
  destruct (_ || _) eqn:Eg.
  { do 2 eexists. split; [done|]. split_and!; try done. by apply Hok'. }
  apply orb_false_iff in Eg as [_ Hmtu%Z.ltb_ge].
  destruct (_ =? 0); (do 2 eexists; split; [done|]; split_and!; try done; try by apply Hok').
  intros _ ->. rewrite total_nil in Et. unfold CONFIG_MTU in Hmtu. lia.
Qed.

Lemma dequeueHelper_empty st now q :
  entries q = [] →
  _routerqueuecodel_dequeueHelper st now q = Some (q <| intervalExpireTS := 0 |>, 0, false).
Proof. intros E. unfold _routerqueuecodel_dequeueHelper. by rewrite E. Qed.

Lemma drop_ok st a l :
  held traceOn st (a :: l) →
  ∃ st', _routerqueuecodel_drop address_ipToNewString traceOn st a = Some st' ∧
    held traceOn st' l ∧ same_sizes st st' l.
Proof.
  intros Hh. unfold _routerqueuecodel_drop.
  destruct (held_status address_ipToNewString traceOn st _ a PDS_ROUTER_DROPPED Hh)
    as (st1 & -> & Hh1 & Hs1); [left|]. simpl.
  destruct (held_unref address_ipToNewString traceOn st1 l a Hh1) as (st2 & -> & Hh2 & Hs2).
  exists st2. split_and!; [done|done|].
  by eapply same_sizes_trans; [apply (same_sizes_all st st1 l)|exact Hs2|].
Qed.

(** The state between taking a packet and returning it. *)
Definition taken (st st' : Store) (now : Z) (q' : QueueManagerCoDel) (l : list Z) (r : Z) : Prop :=
  r ≠ 0 ∧ held traceOn st' (r :: codel_contents q' ++ l) ∧ codel_ok st' now q' ∧
  same_sizes st st' (r :: codel_contents q' ++ l).

(** One dropped packet: the next one is taken from a non-empty queue. *)
Lemma drop_next_ok st now q0 q l pkt :
  held traceOn st (pkt :: codel_contents q ++ l) → codel_ok st now q → entries q ≠ [] →
  entries q0 = entries q → totalSize q0 = totalSize q →
  ∃ st1 q' r b, _routerqueuecodel_drop address_ipToNewString traceOn st pkt = Some st1 ∧
    _routerqueuecodel_dequeueHelper st1 now q0 = Some (q', r, b) ∧
    codel_contents q = r :: codel_contents q' ∧ mode q' = mode q0 ∧
    taken st st1 now q' l r ∧ (b = true → entries q' ≠ []).
Proof.
  intros Hh Hok Hne Ee Et. destruct (drop_ok st pkt _ Hh) as (st1 & -> & Hh1 & Hs1).
  assert (Hok1 : codel_ok st1 now q0).
  { eapply (codel_stable st st1 now now) in Hok; [|eapply same_sizes_sub; [exact Hs1|intros x ?; apply elem_of_app; by left]|done].
    unfold codel_ok, codel_contents in *. by rewrite Ee, Et. }
  destruct (entries q) as [|e rest] eqn:E; [done|].
  assert (Hc : codel_contents q = packet e :: (packet <$> rest)) by (unfold codel_contents; by rewrite E).
  rewrite Hc in *. simpl in Hh1.
  destruct (dequeueHelper_ok st1 now q0 l e rest) as (q' & b & Eh & Er & Hok' & Hm & Hb);
    [unfold codel_contents; by rewrite Ee|done|done|].
  exists st1, q', (packet e), b.
  assert (Hc' : codel_contents q' = packet <$> rest) by (unfold codel_contents; by rewrite Er).
  rewrite Hc', Er. split_and!; try done. unfold taken. rewrite Hc'. split_and!; try done.
  apply (held_nonzero _ _ _ _ Hh1). left.
Qed.

Lemma codel_ok_fields st now q q' :
  codel_ok st now q → entries q' = entries q → totalSize q' = totalSize q → codel_ok st now q'.
Proof. unfold codel_ok, codel_contents. by intros ? -> ->. Qed.

Lemma taken_fields st st' now q q' l r :
  taken st st' now q l r → entries q' = entries q → totalSize q' = totalSize q →
  taken st st' now q' l r.
Proof.
  intros (? & Hh & Hok & Hs) Ee Et. unfold taken, codel_contents in *. rewrite Ee.
  split_and!; try done. by eapply codel_ok_fields.
Qed.

Lemma taken_trans st st1 st2 now q1 q2 l r1 r2 :
  taken st st1 now q1 l r1 → taken st1 st2 now q2 l r2 →
  r2 :: codel_contents q2 ⊆ r1 :: codel_contents q1 → taken st st2 now q2 l r2.
Proof.
  intros (_ & _ & _ & Hs1) (? & ? & ? & Hs2) Hsub. split_and!; try done.
  eapply same_sizes_trans; [exact Hs1|exact Hs2|].
  intros x Hx. rewrite !app_comm_cons, !elem_of_app in *. destruct Hx as [Hx|Hx]; [left|by right].
  by apply Hsub.
Qed.

Abbreviation drop_loop := (codel_drop_loop address_ipToNewString traceOn double_ub).

(** The loop ends after dropping at most the packets it started with, and
    always leaves one to return. *)
Lemma drop_loop_ok fuel st0 st now q l pkt :
  taken st0 st now q l pkt → (mode q = CODEL_MODE_DROP → entries q ≠ []) →
  (length (entries q) < fuel)%nat →
  ∃ st' q' r dropped, drop_loop fuel st now q pkt = Some (st', q', r) ∧
    pkt :: codel_contents q = dropped ++ r :: codel_contents q' ∧ taken st0 st' now q' l r.
Proof.
  revert st q pkt. induction fuel as [|fuel IH]; intros st q pkt Htk Hne Hf; [lia|].
  cbn [codel_drop_loop]. destruct (_ && _) eqn:Eg; [|by do 3 eexists; exists []].
  apply andb_true_iff in Eg as [_ Em%bool_decide_eq_true].
  pose proof Htk as (Hn & Hh & Hok & Hs).
  set (q0 := q <| dropCount := _ |>).
  destruct (drop_next_ok st now q0 q l pkt Hh Hok (Hne Em) eq_refl eq_refl)
    as (st1 & q1 & r & b & -> & Eh & Ec & Em1 & Htk1 & Hb). simpl. rewrite Eh. simpl.
  set (q2 := if b then _ else _).
  assert (entries q2 = entries q1 ∧ totalSize q2 = totalSize q1) as [Ee Et] by (unfold q2; by destruct b).
  assert (Hlen : length (entries q) = S (length (entries q1))).
  { apply (f_equal length) in Ec. simpl in Ec. unfold codel_contents in Ec. by rewrite !length_fmap in Ec. }
  assert (Hc2 : codel_contents q2 = codel_contents q1) by (unfold codel_contents; by rewrite Ee).
  destruct (IH st1 q2 r) as (st' & q' & r' & dropped & E & Ed & Htk').
  - eapply taken_trans; [exact Htk|by eapply taken_fields|].
    rewrite Hc2, Ec. intros x Hx. by right.
  - rewrite Ee. unfold q2. destruct b; [auto|done].
  - rewrite Ee. lia.
  - exists st', q', r', (pkt :: dropped). split_and!; [done| |done]. rewrite Ec, <-Hc2, Ed. done.
Qed.

Lemma enter_drop_ok st now q l pkt :
  taken st st now q l pkt → entries q ≠ [] →
  ∃ st' q' r, codel_enter_drop address_ipToNewString traceOn double_ub st now q pkt
                = Some (st', q', r) ∧
    codel_contents q = r :: codel_contents q' ∧ taken st st' now q' l r ∧ mode q' = CODEL_MODE_DROP.
Proof.
  intros (Hn & Hh & Hok & _) Hne. unfold codel_enter_drop.
  destruct (drop_next_ok st now q q l pkt Hh Hok Hne eq_refl eq_refl)
    as (st1 & q1 & r & b & -> & Eh & Ec & _ & Htk & _). cbn. rewrite Eh. cbn.
  do 3 eexists. split; [done|].
  match goal with |- context [if ?c then _ else _] => destruct c end;
    (split; [done|split; [by eapply taken_fields|done]]).
Qed.

Lemma codel_dequeue_ok st now q l :
  held traceOn st (codel_contents q ++ l) → codel_ok st now q →
  ∃ st' q' r dropped,
    _routerqueuecodel_dequeue address_ipToNewString traceOn double_ub st now q = Some (st', q', r) ∧
    codel_contents q = dropped ++ returned r ++ codel_contents q' ∧
    (r = 0 → codel_contents q = []) ∧
    held traceOn st' (returned r ++ codel_contents q' ++ l) ∧ codel_ok st' now q' ∧
    same_sizes st st' (returned r ++ codel_contents q' ++ l).
Proof.
  intros Hh Hok. unfold _routerqueuecodel_dequeue. destruct (entries q) as [|e rest] eqn:Ee.
  { rewrite (dequeueHelper_empty st now q Ee). cbn. do 3 eexists. exists []. split; [done|].
    assert (Hc : codel_contents q = []) by (unfold codel_contents; by rewrite Ee).
    split_and!; first [done | by apply same_sizes_all | by apply (codel_ok_fields _ _ q)]. }
  destruct (dequeueHelper_ok st now q l e rest Hh Hok Ee) as (q1 & b & -> & Er & Hok1 & Em & Hb). cbn.
  assert (Hc : codel_contents q = packet e :: codel_contents q1)
    by (unfold codel_contents; by rewrite Ee, Er).
  rewrite Hc in Hh. simpl in Hh.
  assert (Hn : packet e ≠ 0) by (apply (held_nonzero _ _ _ _ Hh); left).
  rewrite (proj2 (Z.eqb_neq _ 0)) by done.
  assert (Htk : ∀ q2, entries q2 = entries q1 → totalSize q2 = totalSize q1 →
                      taken st st now q2 l (packet e)).
  { intros q2 E1 E2. apply (taken_fields _ _ _ q1); [|done..].
    split_and!; try done. by apply same_sizes_all. }
  assert (Hfin : ∀ st' q' r dropped, packet e :: codel_contents q1 = dropped ++ r :: codel_contents q' →
    taken st st' now q' l r →
    packet e :: codel_contents q1 = dropped ++ returned r ++ codel_contents q' ∧
    (r = 0 → packet e :: codel_contents q1 = []) ∧
    held traceOn st' (returned r ++ codel_contents q' ++ l) ∧ codel_ok st' now q' ∧
    same_sizes st st' (returned r ++ codel_contents q' ++ l)).
  { intros st' q' r dropped E (Hr & ? & ? & ?). rewrite (returned_nonzero r Hr). by split_and!. }
  rewrite Hc. case_decide as Em1.
  - set (q2 := if negb b then _ else _).
    assert (entries q2 = entries q1 ∧ totalSize q2 = totalSize q1) as [E1 E2]
      by (unfold q2; by destruct b).
    destruct (drop_loop_ok (S (length (entries q2))) st st now q2 l (packet e))
      as (st' & q' & r & dropped & E & Ed & Htk'); [by apply Htk| |lia|].
    + rewrite E1, Er. unfold q2. destruct b; [by intros _; apply Hb|done].
    + exists st', q', r, dropped. split; [done|].
      assert (codel_contents q2 = codel_contents q1) as Hc2 by (unfold codel_contents; by rewrite E1).
      rewrite Hc2 in Ed. by apply Hfin.
  - destruct b.
    + destruct (enter_drop_ok st now q1 l (packet e)) as (st' & q' & r & E & Ec & Htk' & _);
        [by apply Htk|rewrite Er; by apply Hb|].
      exists st', q', r, [packet e]. split; [done|]. apply Hfin; [by rewrite Ec|done].
    + exists st, q1, (packet e), []. split; [done|]. apply Hfin; [done|by apply Htk].
Qed.

Lemma codel_free_ok l es st :
  held traceOn st ((packet <$> es) ++ l) →
  ∃ st', foldl (λ s e, st ← s; if negb (packet e =? 0)
                               then packet_unref address_ipToNewString traceOn st (packet e)
                               else Some st) (Some st) es = Some st' ∧
    held traceOn st' l ∧ same_sizes st st' l.
Proof.
  revert st. induction es as [|e es IH]; intros st Hh; cbn.
  - eexists. split; [done|]. split; [done|]. by apply same_sizes_all.
  - rewrite fmap_cons in Hh. cbn [app] in Hh.
    rewrite (proj2 (Z.eqb_neq _ 0)) by (apply (held_nonzero _ _ _ _ Hh); left). cbn.
    destruct (held_unref address_ipToNewString traceOn st _ _ Hh) as (st1 & -> & Hh1 & Hs1).
    destruct (IH st1 Hh1) as (st2 & E & Hh2 & Hs2). exists st2. split_and!; [done|done|].
    eapply same_sizes_trans; [exact Hs1|exact Hs2|]. intros b Hb. apply elem_of_app. by right.
Qed.

#[export] Instance codel_laws :
  QueueManagerLaws traceOn (routerqueuecodel_getHooks address_ipToNewString traceOn double_ub)
    codel_contents codel_ok.
Proof.
  split; simpl.
  - split; [done|]. intros st now. split_and!; [done|by constructor|done].
  - intros q. unfold _routerqueuecodel_peek, codel_contents. by destruct (entries q).
  - apply codel_stable.
  - intros st now q l a p Hh Hok Ha Hp Hlt. unfold _routerqueuecodel_enqueue.
    destruct (Z.ltb_spec (Z.of_nat (length (entries q))) CODEL_PARAM_QUEUE_SIZE_LIMIT).
    + destruct (accept _ _ l a p Hh Ha Hp Hlt) as (st' & -> & Hh' & Hs). cbn.
      destruct (held_size _ _ _ _ Hh (held_more _ _ _ _ _ Hh Ha)) as [n En].
      unfold _routerqueuecodel_getPacketLength. rewrite (same_size _ _ _ (Hs _)), En. cbn.
      pose proof (packet_size_range _ _ _ En). do 3 eexists. split; [done|].
      assert (Hok' : codel_ok st' now (q <| entries := entries q ++ [mkEntry a now] |>
                                         <| totalSize := totalSize q + n |>)).
      { destruct Hok as (Et & Hts & Hl). unfold codel_ok, codel_contents in *. cbn.
        rewrite fmap_app, total_app, (total_same st st') by by apply same_sizes_all. cbn.
        rewrite total_cons, total_nil, (same_size _ _ _ (Hs _)), En, length_app. cbn.
        split_and!; [lia| |lia]. apply Forall_app. split; [done|]. by repeat constructor. }
      pose proof (codel_total_small _ _ _ Hok') as Ht. cbn in Ht. rewrite u64_small by lia.
      unfold codel_contents. cbn. rewrite fmap_app. by split_and!.
    + do 3 eexists. split; [done|]. rewrite app_nil_r. by split_and!.
  - apply codel_dequeue_ok.
  - intros st now q l Hh _. by apply codel_free_ok.
Qed.

End Laws.

(** The static queue is drop-tail and FIFO: it accepts a packet exactly
    when the weights of the waiting packets and its own stay under the limit
    (the 64-bit sum cannot wrap), appends it without touching the others, and
    a dequeue returns the oldest packet, dropping none; its byte counter is
    always the exact weight of its packets and under the limit. *)
Theorem static_drop_tail (address_ipToNewString : Z → string) traceOn st now q l a p n :
  held traceOn st (s_packets q ++ l) → static_ok st now q → a ∈ l →
  packets st !! a = Some p → referenceCount p < UINT32_MAX → packet_size st a = Some n →
  (∃ st' q', _routerqueuestatic_enqueue st now q a
               = Some (st', q', bool_decide (total st (s_packets q) + n < STATIC_PARAM_MAXSIZE)) ∧
     s_packets q' = (if bool_decide (total st (s_packets q) + n < STATIC_PARAM_MAXSIZE)
                     then s_packets q ++ [a] else s_packets q) ∧
     s_totalSize q' = total st' (s_packets q') ∧ s_totalSize q' < STATIC_PARAM_MAXSIZE) ∧
  (∀ b rest, s_packets q = b :: rest →
     ∃ q', _routerqueuestatic_dequeue st now q = Some (st, q', b) ∧ s_packets q' = rest ∧
       s_totalSize q' = total st rest).
Proof.
  intros Hh Hok Ha Hp Hlt En. split.
  - destruct (enqueue_law (QueueManagerLaws := static_laws address_ipToNewString traceOn)
                st now q l a p Hh Hok Ha Hp Hlt) as (st' & q' & b & E & Ec & _ & [Et Hmax] & _).
    cbn in E. exists st', q'.
    assert (b = bool_decide (total st (s_packets q) + n < STATIC_PARAM_MAXSIZE)) as <-.
    { destruct Hok as [E0 Hlt0]. unfold _routerqueuestatic_enqueue in E.
      unfold _routerqueuestatic_getPacketLength in E. rewrite En in E. simpl in E.
      pose proof (packet_size_range _ _ _ En). pose proof (total_nonneg st (s_packets q)).
      unfold STATIC_PARAM_MAXSIZE in *. rewrite u64_small in E by lia. rewrite E0 in E.
      destruct (Z.ltb_spec (total st (s_packets q) + n) 1024000).
      - destruct (packet_ref st a); [|done]. simpl in E. simplify_eq. by rewrite bool_decide_true.
      - simplify_eq. rewrite bool_decide_false by lia. done. }
    split; [exact E|]. split; [|by split]. rewrite Ec. destruct b; [done|]. apply app_nil_r.
  - intros b rest Eq.
    destruct (dequeue_law (QueueManagerLaws := static_laws address_ipToNewString traceOn)
                st now q l Hh Hok) as (st' & q' & r & dropped & E & _ & _ & _ & [Et _] & _).
    cbn in E. unfold _routerqueuestatic_dequeue in *. rewrite Eq in *.
    destruct (_routerqueuestatic_getPacketLength st b); [|done]. simpl in *.
    destruct (negb _); [done|]. simplify_eq. eexists. split_and!; [done|done|exact Et].
Qed.

(** ** What CoDel decides *)

Section CoDel.
Context (address_ipToNewString : Z → string) (traceOn : bool) (double_ub : Z).

(** Below the target delay, or less than an MTU waiting behind the head. *)
Definition codel_good (now : Z) (q : QueueManagerCoDel) (e : CoDelEntry) (n : Z) : bool :=
  (now - enqueueTS e <? CODEL_PARAM_TARGET_DELAY_SIMTIME) || (totalSize q - n <? CONFIG_MTU).

Lemma dequeueHelper_exact st now q l e rest n :
  held traceOn st (codel_contents q ++ l) → codel_ok st now q → entries q = e :: rest →
  packet_size st (packet e) = Some n → 0 ≤ enqueueTS e → now < 2 ^ 63 →
  _routerqueuecodel_dequeueHelper st now q = Some (
    (let q1 := q <| entries := rest |> <| totalSize := totalSize q - n |> in
     if codel_good now q e n then q1 <| intervalExpireTS := 0 |>
     else if intervalExpireTS q =? 0
          then q1 <| intervalExpireTS := now + CODEL_PARAM_INTERVAL_SIMTIME |> else q1),
    packet e,
    negb (codel_good now q e n) && negb (intervalExpireTS q =? 0) && (intervalExpireTS q <=? now)).
Proof.
  intros Hh Hok Ee En Hts Hnow. pose proof (codel_total_small _ _ _ Hok) as Htot.
  destruct Hok as (Et & Hle & _). unfold codel_contents in *. rewrite Ee, fmap_cons in *.
  cbn [app] in *. apply Forall_cons in Hle as [Hle _]. rewrite total_cons, En in Et. cbn in Et.
  pose proof (packet_size_range _ _ _ En). pose proof (total_nonneg st (packet <$> rest)).
  assert (packet e ≠ 0) by (apply (held_nonzero _ _ _ _ Hh); left).
  unfold _routerqueuecodel_dequeueHelper, _routerqueuecodel_getPacketLength, codel_good.
  rewrite Ee, (proj2 (Z.eqb_neq _ 0)), En by done. cbn.
  rewrite (proj2 (Z.leb_le _ _)), (proj2 (Z.leb_le _ _)) by lia. cbn.
  rewrite (u64_small (totalSize q - n)), (u64_small (now - enqueueTS e)) by lia.
  unfold CODEL_PARAM_INTERVAL_SIMTIME, SIMTIME_ONE_MILLISECOND. rewrite (u64_small (now + _)) by lia.
  destruct (_ || _); [done|]. by destruct (_ =? 0).
Qed.

(** CoDel drops nothing while the head packet waited less than the target,
    or less than an MTU waits behind it, or the delay has not been above the
    target for a whole interval: the head is returned, dropping mode ends, and
    the interval timer is cleared in the good state and started on entering
    the bad one.  When a full interval of bad state has passed in storing
    mode, exactly one packet is dropped, the next is returned and dropping
    mode begins. *)
Theorem codel_dequeue_store st now q l e rest n :
  held traceOn st (codel_contents q ++ l) → codel_ok st now q → entries q = e :: rest →
  packet_size st (packet e) = Some n → 0 ≤ enqueueTS e → now < 2 ^ 63 →
  (codel_good now q e n = true ∨ intervalExpireTS q = 0 ∨ now < intervalExpireTS q →
   ∃ q', _routerqueuecodel_dequeue address_ipToNewString traceOn double_ub st now q
           = Some (st, q', packet e) ∧
     entries q' = rest ∧ totalSize q' = totalSize q - n ∧ mode q' = CODEL_MODE_STORE ∧
     intervalExpireTS q' = (if codel_good now q e n then 0
                            else if intervalExpireTS q =? 0
                                 then now + CODEL_PARAM_INTERVAL_SIMTIME else intervalExpireTS q)) ∧
  (codel_good now q e n = false → 0 < intervalExpireTS q ≤ now → mode q = CODEL_MODE_STORE →
   ∃ st' q' r, _routerqueuecodel_dequeue address_ipToNewString traceOn double_ub st now q
                 = Some (st', q', r) ∧
     packet <$> rest = r :: codel_contents q' ∧ mode q' = CODEL_MODE_DROP).
Proof.
  intros Hh Hok Ee En Hts Hnow.
  pose proof (dequeueHelper_exact st now q l e rest n Hh Hok Ee En Hts Hnow) as Hex.
  destruct (dequeueHelper_ok traceOn st now q l e rest Hh Hok Ee) as (q1 & b & E1 & Er & Hok1 & Em & Hb).
  assert (Hc : codel_contents q = packet e :: codel_contents q1)
    by (unfold codel_contents; by rewrite Ee, Er).
  rewrite Hc in Hh. simpl in Hh.
  assert (Hn : packet e ≠ 0) by (apply (held_nonzero _ _ _ _ Hh); left).
  unfold _routerqueuecodel_dequeue. rewrite E1. rewrite E1 in Hex. injection Hex as Eq1 Eb.
  cbn [mbind option_bind]. rewrite (proj2 (Z.eqb_neq _ 0)) by done. split.
  - intros Hcase.
    assert (b = false) as ->.
    { rewrite Eb. destruct Hcase as [-> | [-> | Hlt]]; [done|by rewrite andb_false_r|].
      rewrite (proj2 (Z.leb_gt _ _) Hlt). apply andb_false_r. }
    assert (Hq1 : totalSize q1 = totalSize q - n ∧
      intervalExpireTS q1 = (if codel_good now q e n then 0 else if intervalExpireTS q =? 0
                             then now + CODEL_PARAM_INTERVAL_SIMTIME else intervalExpireTS q)).
    { rewrite Eq1. destruct (codel_good now q e n); [done|]. by destruct (_ =? 0). }
    destruct Hq1 as [Ht1 Hi1]. case_decide as Em1.
    + exists (q1 <| mode := CODEL_MODE_STORE |>). cbn. rewrite andb_false_r. by split_and!.
    + exists q1. split_and!; try done. by destruct (mode q1).
  - intros Hbad Hint Hmode. rewrite Hbad, (proj2 (Z.eqb_neq _ 0)), (proj2 (Z.leb_le _ _)) in Eb by lia.
    cbn in Eb. subst b. rewrite decide_False by (rewrite Em, Hmode; done).
    destruct (enter_drop_ok address_ipToNewString traceOn double_ub st now q1 l (packet e))
      as (st' & q' & r & E & Ec & _ & Hm); [|by rewrite Er; apply Hb|].
    + split_and!; try done. by apply same_sizes_all.
    + exists st', q', r. split_and!; [done| |done]. by rewrite <-Ec, <-Er.
Qed.

End CoDel.

(** *** The control law *)

(** A store of [n] UDP packets of 1500 bytes on the wire, at addresses 1..n. *)
Definition bulk_packet (i : Z) : Packet :=
  mkPacket 1 7 i PUDP (HUDP (mkUDP 0 10 20 30 40)) (100 + i) (F64.of_Z 1) 0 [].

Definition bulk_store (n : Z) : Store :=
  mkStore 1000 (list_to_map ((λ i, (i, bulk_packet i)) <$> seqZ 1 n))
    (list_to_map ((λ i, (100 + i, mkPayload false 1 (replicate 1458 0) 1458)) <$> seqZ 1 n)).

Section Demo.
Abbreviation dequeue_at :=
  (_routerqueuecodel_dequeue (λ _, EmptyString) false 9223372036854775808).

Definition codel_fill (n : Z) (now : Z) : option (Store * QueueManagerCoDel) :=
  foldl (λ s i, '(st, q) ← s; '(st, q, _) ← _routerqueuecodel_enqueue st now q i; Some (st, q))
    (Some (bulk_store n, _routerqueuecodel_new)) (seqZ 1 n).

(** Packets returned by dequeues at the given times (in milliseconds). *)
Definition codel_drain (times : list Z) (n : Z) : option (list Z) :=
  '(st, q) ← codel_fill n (1000 * SIMTIME_ONE_MILLISECOND);
  '(st, q, out) ← foldl (λ s t,
      '(st, q, out) ← s;
      '(st, q, r) ← dequeue_at st (t * SIMTIME_ONE_MILLISECOND) q;
      Some (st, q, out ++ [r])) (Some (st, q, [])) times;
  Some out.

(** The control law of RFC 8289: the next drop is [INTERVAL / sqrt(count)]
    after the given time. *)
Definition rfc8289_control_law (count ts : Z) : Z :=
  ts + default 0 (F64.to_u64 (F64.round
    (F64.div (F64.of_Z CODEL_PARAM_INTERVAL_SIMTIME) (F64.sqrt (F64.of_Z count))))).

(** The control law divides the whole timestamp by the square root of the
    drop count, so from the second drop on the next drop lies in the past
    (0.94 s for a drop at 1.23 s, where RFC 8289 gives 1.30 s); one dequeue in
    dropping mode then drops every packet that has an MTU behind it: of twelve
    packets the third dequeue drops eight and returns the twelfth. *)
Theorem codel_control_law_in_past :
  _routerqueuecodel_controlLaw 0 1 (1230 * SIMTIME_ONE_MILLISECOND) = 1330 * SIMTIME_ONE_MILLISECOND ∧
  _routerqueuecodel_controlLaw 0 2 (1230 * SIMTIME_ONE_MILLISECOND) = 940452019 ∧
  rfc8289_control_law 2 (1230 * SIMTIME_ONE_MILLISECOND) = 1300710678 ∧
  codel_drain [1020; 1130; 1240] 12 = Some [1; 3; 12].
Proof. by vm_compute. Qed.

End Demo.

(** ** Witness *)

(** One packet of 45 bytes, waiting since 1 s. *)
Definition demo_codel : QueueManagerCoDel :=
  _routerqueuecodel_new <| entries := [mkEntry 1 1000000000] |> <| totalSize := 45 |>.

Lemma codel_dequeue_store_witness :
  ∃ q', _routerqueuecodel_dequeue (λ _, EmptyString) false 0 demo_store 2000000000 demo_codel
          = Some (demo_store, q', 1) ∧ entries q' = [] ∧ mode q' = CODEL_MODE_STORE.
Proof.
  destruct (codel_dequeue_store (λ _, EmptyString) false 0 demo_store 2000000000 demo_codel
              [3] (mkEntry 1 1000000000) [] 45) as [Hgood _].
  - exact demo_held.
  - split; [by vm_compute|]. split; [by repeat constructor|by vm_compute].
  - reflexivity.
  - by vm_compute.
  - done.
  - done.
  - destruct Hgood as (q' & E & ? & _ & ? & _); [left; reflexivity|]. by exists q'.
Defined.

Lemma static_drop_tail_witness :
  ∃ st' q', _routerqueuestatic_enqueue demo_store 0 (mkStatic [] 0) 1 = Some (st', q', true) ∧
            s_packets q' = [1].
Proof.
  destruct (packets demo_store !! 1) as [p|] eqn:E; [|by vm_compute in E].
  destruct (static_drop_tail (λ _, EmptyString) false demo_store 0 (mkStatic [] 0) [1; 3] 1 p 45)
    as [(st' & q' & E1 & E2 & _) _].
  - exact demo_held.
  - by split.
  - left.
  - exact E.
  - vm_compute in E. by injection E as <-.
  - by vm_compute.
  - by exists st', q'.
Defined.

End RQ.
