(* ===== verification/Router.v ===== *)
(** * Routers
    (src/phantom/src/main/routing/router.c)

    The upstream router of a host: packets that arrive for the host wait in
    the router's queue until the host's network interface takes them.  The
    theorems are proved against the queue interface, so they hold for every
    queue manager. *)

From S2P Require Import Prelude Float64 Cpu PriorityQueue Event Packet RouterQueue.

Module Router.
Import Pkt RQ.

Inductive QueueManagerMode := QUEUE_MANAGER_SINGLE | QUEUE_MANAGER_STATIC | QUEUE_MANAGER_CODEL.

(** [interface] is the address of the interface packets are delivered to. *)
Record Router (Q : Type) := mkRouter {
  queueMode : QueueManagerMode;
  queueHooks : QueueManagerHooks Q;
  queueManager : Q;
  interface : Z;
  referenceCount : Z;
}.
Arguments mkRouter {Q}. Arguments queueMode {Q}. Arguments queueHooks {Q}.
Arguments queueManager {Q}. Arguments interface {Q}. Arguments referenceCount {Q}.

#[export] Instance router_eta {Q} : Eta (Router Q) := fun r =>
  mkRouter (queueMode r) (queueHooks r) (queueManager r) (interface r) (referenceCount r).

Section Operations.
Context (address_ipToNewString : Z → string) (traceOn : bool) (double_ub : Z).

Abbreviation addDeliveryStatus := (packet_addDeliveryStatus address_ipToNewString traceOn).

(** The queue type depends on the mode. *)
Definition router_new (mode : QueueManagerMode) (iface : Z) : option {Q : Type & Router Q} :=
  if iface =? 0 then None else
  let make Q (hooks : QueueManagerHooks Q) :=
    Some (existT Q (mkRouter mode hooks (new hooks) iface 1)) in
  match mode with
  | QUEUE_MANAGER_SINGLE => make _ (routerqueuesingle_getHooks address_ipToNewString traceOn)
  | QUEUE_MANAGER_STATIC => make _ (routerqueuestatic_getHooks address_ipToNewString traceOn)
  | QUEUE_MANAGER_CODEL => make _ (routerqueuecodel_getHooks address_ipToNewString traceOn double_ub)
  end.

Context {Q : Type}.

Definition router_ref (r : Router Q) : Router Q := r <| referenceCount := referenceCount r + 1 |>.

(** [None] in the result is a freed router. *)
Definition router_unref (st : Store) (r : Router Q) : option (Store * option (Router Q)) :=
  let r := r <| referenceCount := referenceCount r - 1 |> in
  if negb (0 <=? referenceCount r) then None
  else if referenceCount r =? 0 then
    st ← free (queueHooks r) st (queueManager r); Some (st, None)
  else Some (st, Some r).

(** The last result says whether [networkinterface_receivePackets] is called. *)
Definition router_enqueue (st : Store) (now : Z) (r : Router Q) (packet : Z)
    : option (Store * Router Q * bool) :=
  if packet =? 0 then None else
  let bufferedPacket := peek (queueHooks r) (queueManager r) in
  '(st, q, wasQueued) ← enqueue (queueHooks r) st now (queueManager r) packet;
  st ← addDeliveryStatus st packet
         (if (wasQueued : bool) then PDS_ROUTER_ENQUEUED else PDS_ROUTER_DROPPED);
  Some (st, r <| queueManager := q |>, (bufferedPacket =? 0) && wasQueued).

Definition router_dequeue (st : Store) (now : Z) (r : Router Q) : option (Store * Router Q * Z) :=
  '(st, q, packet) ← dequeue (queueHooks r) st now (queueManager r);
  st ← (if negb (packet =? 0) then addDeliveryStatus st packet PDS_ROUTER_DEQUEUED else Some st);
  Some (st, r <| queueManager := q |>, packet).

(** ** Arrivals, departures and the rest of the simulator *)

Context (contents : Q → list Z) (ok : Store → Z → Q → Prop).

(** [refs] are the references the other components hold; [accepted] and
    [delivered] record the packets that entered and left, in order. *)
Record Config := mkConfig {
  store : Store;
  now : Z;
  router : Router Q;
  refs : list Z;
  accepted : list Z;
  delivered : list Z;
}.

Definition waiting (c : Config) : list Z := contents (queueManager (router c)).

Inductive step : Config → Config → Prop :=
  | step_enqueue c a p st r notify :
      a ∈ refs c → packets (store c) !! a = Some p → Pkt.referenceCount p < UINT32_MAX →
      router_enqueue (store c) (now c) (router c) a = Some (st, r, notify) →
      step c (mkConfig st (now c) r (refs c)
        (accepted c ++ (if bool_decide (contents (queueManager r) = waiting c) then [] else [a]))
        (delivered c))
  | step_dequeue c st r pkt :
      router_dequeue (store c) (now c) (router c) = Some (st, r, pkt) →
      step c (mkConfig st (now c) r (returned pkt ++ refs c) (accepted c)
        (delivered c ++ returned pkt))
  | step_environment c st now' refs' :
      now c ≤ now' → held traceOn st (waiting c ++ refs') → same_sizes (store c) st (waiting c) →
      step c (mkConfig st now' (router c) refs' (accepted c) (delivered c)).

Context (hooks : QueueManagerHooks Q) `{!QueueManagerLaws traceOn hooks contents ok}.

Definition inv (c : Config) : Prop :=
  queueHooks (router c) = hooks ∧
  held traceOn (store c) (waiting c ++ refs c) ∧ ok (store c) (now c) (queueManager (router c)) ∧
  ∃ gone, accepted c = gone ++ waiting c ∧ delivered c `sublist_of` gone.

(** What an arrival does. *)
Lemma enqueue_ok st now r l a p :
  queueHooks r = hooks → held traceOn st (contents (queueManager r) ++ l) →
  ok st now (queueManager r) → a ∈ l → packets st !! a = Some p →
  Pkt.referenceCount p < UINT32_MAX →
  ∃ st' r' b, router_enqueue st now r a = Some (st', r', bool_decide (contents (queueManager r) = []) && b) ∧
    queueHooks r' = hooks ∧
    contents (queueManager r') = contents (queueManager r) ++ (if b then [a] else []) ∧
    held traceOn st' (contents (queueManager r') ++ l) ∧ ok st' now (queueManager r') ∧
    ∀ b, packet_view st' b = packet_view st b.
Proof.
  intros Hk Hh Hok Ha Hp Hlt. unfold router_enqueue. rewrite Hk.
  assert (Hal : ∀ q, a ∈ contents q ++ l) by (intros; apply elem_of_app; by right).
  rewrite (proj2 (Z.eqb_neq a 0)) by exact (held_nonzero _ _ _ _ Hh (Hal _)).
  destruct (enqueue_law st now (queueManager r) l a p Hh Hok Ha Hp Hlt)
    as (st1 & q' & b & -> & Ec & Hh1 & Hok1 & Hs1). simpl.
  destruct (held_status address_ipToNewString traceOn st1 _ a
    (if b then PDS_ROUTER_ENQUEUED else PDS_ROUTER_DROPPED) Hh1 (Hal _)) as (st2 & -> & Hh2 & Hs2).
  simpl. exists st2, (r <| queueManager := q' |>), b. split_and!; [|done|done|done| |intros c; by rewrite Hs2].
  - rewrite (peek_law (queueManager r)). do 2 f_equal.
    destruct (contents (queueManager r)) as [|x c] eqn:E; [done|]. simpl.
    by rewrite (proj2 (Z.eqb_neq x 0)) by (apply (held_nonzero _ _ _ _ Hh); left).
  - eapply (stable_law _ _ now now); [exact Hok1|by apply same_sizes_all|done].
Qed.

(** What a departure does. *)
Lemma dequeue_ok st now r l :
  queueHooks r = hooks → held traceOn st (contents (queueManager r) ++ l) →
  ok st now (queueManager r) →
  ∃ st' r' packet dropped, router_dequeue st now r = Some (st', r', packet) ∧
    queueHooks r' = hooks ∧
    contents (queueManager r) = dropped ++ returned packet ++ contents (queueManager r') ∧
    (packet = 0 → contents (queueManager r) = []) ∧
    held traceOn st' (contents (queueManager r') ++ returned packet ++ l) ∧
    ok st' now (queueManager r') ∧ same_sizes st st' (contents (queueManager r') ++ returned packet ++ l).
Proof.
  intros Hk Hh Hok. unfold router_dequeue. rewrite Hk.
  destruct (dequeue_law st now (queueManager r) l Hh Hok)
    as (st1 & q' & packet & dropped & -> & Ec & H0 & Hh1 & Hok1 & Hs1). simpl.
  assert (∃ st2, (if negb (packet =? 0) then addDeliveryStatus st1 packet PDS_ROUTER_DEQUEUED
                  else Some st1) = Some st2 ∧ held traceOn st2 (returned packet ++ contents q' ++ l) ∧
                 ∀ b, packet_view st2 b = packet_view st1 b) as (st2 & -> & Hh2 & Hs2).
  { destruct (Z.eqb_spec packet 0) as [->|Hn]; simpl; [by eexists|].
    apply held_status; [done|]. rewrite (returned_nonzero packet Hn). left. }
  simpl. exists st2, (r <| queueManager := q' |>), packet, dropped. split_and!; try done; simpl.
  - eapply held_Permutation; [|exact Hh2]. rewrite !app_assoc. by rewrite (Permutation_app_comm (returned packet)).
  - eapply (stable_law _ _ now now); [exact Hok1|by apply same_sizes_all|done].
  - eapply same_sizes_trans; [exact Hs1|by apply same_sizes_all|]. intros x. rewrite !elem_of_app. intros [?|[?|?]]; auto.
Qed.

Lemma router_step_inv c c' : step c c' → inv c → inv c'.
Proof.
  intros Hs (Hk & Hh & Hok & gone & Ea & Hd). unfold inv, waiting in *.
  destruct Hs; cbn in *; unfold waiting in *.
  - destruct (enqueue_ok (store c) (now c) (router c) (refs c) a p Hk Hh Hok)
      as (st' & r' & b & E & Hk' & Ec & Hh' & Hok' & _); [done..|].
    simplify_eq. split_and!; [done|done|done|]. exists gone. rewrite Ec, Ea.
    split; [|done]. rewrite <-app_assoc. f_equal. f_equal.
    destruct b; [|by rewrite app_nil_r, bool_decide_true].
    rewrite bool_decide_false; [done|]. intros Hlen%(f_equal length). rewrite length_app in Hlen. simpl in Hlen. lia.
  - destruct (dequeue_ok (store c) (now c) (router c) (refs c) Hk Hh Hok)
      as (st' & r' & pk & dropped & E & Hk' & Ec & _ & Hh' & Hok' & _).
    simplify_eq. split_and!; [done|done|done|]. exists (gone ++ dropped ++ returned pkt).
    rewrite Ea, Ec, <-!app_assoc. split; [done|].
    apply sublist_app; [done|]. by apply sublist_inserts_l.
  - split_and!; [done|done|by eapply stable_law|by exists gone].
Qed.

Definition initial (c : Config) : Prop :=
  queueHooks (router c) = hooks ∧ queueManager (router c) = new hooks ∧
  held traceOn (store c) (refs c) ∧ accepted c = [] ∧ delivered c = [].

Lemma initial_inv c : initial c → inv c.
Proof.
  intros (Hk & Eq & Hh & Ea & Ed). destruct (new_law (hooks := hooks)) as [En Hok].
  unfold inv, waiting. rewrite Eq, En, Ea, Ed. split_and!; [done|done|apply Hok|by exists []].
Qed.

Lemma router_steps_inv c c' : rtc step c c' → inv c → inv c'.
Proof. induction 1; eauto using router_step_inv. Qed.

(** *** Properties *)

(** C17: over any interleaving of arrivals, departures and activity of the rest
    of the simulator, whatever the queue manager: every accepted packet is
    either still waiting, in arrival order, or has left from the front; the
    delivered packets are a subsequence of those, so no packet is duplicated,
    invented or reordered.  No operation fails, and a router with waiting
    packets always delivers one. *)
Theorem router_conservation c0 c :
  initial c0 → rtc step c0 c →
  (∃ gone, accepted c = gone ++ waiting c ∧ delivered c `sublist_of` gone) ∧
  (∀ a p, a ∈ refs c → packets (store c) !! a = Some p → Pkt.referenceCount p < UINT32_MAX →
     is_Some (router_enqueue (store c) (now c) (router c) a)) ∧
  (∃ st r a, router_dequeue (store c) (now c) (router c) = Some (st, r, a) ∧
     (a = 0 ↔ waiting c = [])).
Proof.
  intros H0 Hr. pose proof (router_steps_inv _ _ Hr (initial_inv _ H0)) as (Hk & Hh & Hok & Hg).
  split_and!; [done| |].
  - intros a p Ha Hp Hlt.
    destruct (enqueue_ok _ _ _ _ a p Hk Hh Hok Ha Hp Hlt) as (? & ? & ? & -> & _). by eexists.
  - destruct (dequeue_ok _ _ _ _ Hk Hh Hok) as (st & r & a & dropped & E & _ & Ec & Ha & _).
    exists st, r, a. split; [done|]. split; [exact Ha|]. unfold waiting. intros Ew. rewrite Ew in Ec.
    destruct dropped; [|done]. unfold returned in Ec. by destruct (Z.eqb_spec a 0).
Qed.

(** The interface is woken exactly when a packet is accepted into an empty
    queue; the packet is queued last or, when the queue refuses it, the queue
    is as before; giving the last reference to a router back releases every
    packet it still holds. *)
Theorem router_enqueue_correct st now r l a p :
  queueHooks r = hooks → held traceOn st (contents (queueManager r) ++ l) →
  ok st now (queueManager r) → a ∈ l → packets st !! a = Some p →
  Pkt.referenceCount p < UINT32_MAX →
  (∃ st' r' notify, router_enqueue st now r a = Some (st', r', notify) ∧
     (notify = true ↔ contents (queueManager r) = [] ∧ contents (queueManager r') = [a]) ∧
     (contents (queueManager r') = contents (queueManager r) ∨
      contents (queueManager r') = contents (queueManager r) ++ [a])) ∧
  (referenceCount r = 1 → ∃ st', router_unref st r = Some (st', None) ∧ held traceOn st' l).
Proof.
  intros Hk Hh Hok Ha Hp Hlt. split.
  - destruct (enqueue_ok _ _ _ _ a p Hk Hh Hok Ha Hp Hlt) as (st' & r' & b & E & _ & Ec & _).
    do 3 eexists. split; [exact E|]. rewrite Ec, andb_true_iff, bool_decide_eq_true. split.
    + destruct b; split; intros [E1 E2]; rewrite E1 in *; done.
    + destruct b; [by right|left]. by rewrite app_nil_r.
  - intros E. unfold router_unref. cbn. rewrite E, Hk. cbn.
    destruct (free_law st now (queueManager r) l Hh Hok) as (st' & -> & ? & _). by exists st'.
Qed.

End Operations.

(** ** Witnesses *)

Definition demo_hooks := routerqueuestatic_getHooks (λ _, EmptyString) false.

Definition demo_router : Router QueueManagerStatic :=
  mkRouter QUEUE_MANAGER_STATIC demo_hooks (new demo_hooks) 5 1.

Definition demo_config : Config (Q := QueueManagerStatic) :=
  mkConfig demo_store 0 demo_router [1; 3] [] [].

Lemma router_conservation_witness :
  ∃ st r a, router_dequeue (λ _, EmptyString) false (store demo_config) 0 demo_router = Some (st, r, a) ∧
    (a = 0 ↔ waiting s_packets demo_config = []).
Proof.
  destruct (router_conservation (λ _, EmptyString) false s_packets static_ok demo_hooks
              demo_config demo_config) as (_ & _ & H).
  - split_and!; [done|done|exact demo_held|done|done].
  - apply rtc_refl.
  - exact H.
Defined.

Lemma router_enqueue_correct_witness :
  ∃ st' r' notify, router_enqueue (λ _, EmptyString) false demo_store 0 demo_router 1
                     = Some (st', r', notify) ∧
    (notify = true ↔ s_packets (queueManager demo_router) = [] ∧ s_packets (queueManager r') = [1]).
Proof.
  destruct (packets demo_store !! 1) as [p|] eqn:E; [|by vm_compute in E].
  destruct (router_enqueue_correct (λ _, EmptyString) false s_packets static_ok demo_hooks
              demo_store 0 demo_router [1; 3] 1 p) as [(st' & r' & b & ? & ? & _) _].
  - reflexivity.
  - exact demo_held.
  - by split.
  - left.
  - exact E.
  - vm_compute in E. by injection E as <-.
  - by exists st', r', b.
Defined.

End Router.
