(* ===== verification/Descriptor.v ===== *)
(** * Descriptors and status listeners
    (src/phantom/src/main/host/descriptor/descriptor.c, descriptor_types.h,
    host/status.h, host/status_listener.c)

    A descriptor has a set of status bits and a table of listeners; changing a
    bit calls the listeners that monitor it.  A callback may change the status
    or the table again while the listeners are being called, so the loop is
    modelled over a world of descriptors and listeners that every callback may
    rewrite. *)

From S2P Require Import Prelude.

Module Desc.

(** ** Status bits *)

Definition STATUS_NONE : Z := 0.
Definition STATUS_DESCRIPTOR_ACTIVE : Z := 1.
Definition STATUS_DESCRIPTOR_READABLE : Z := 2.
Definition STATUS_DESCRIPTOR_WRITABLE : Z := 4.
Definition STATUS_DESCRIPTOR_CLOSED : Z := 8.
Definition STATUS_FUTEX_WAKEUP : Z := 16.

(** ** Data *)

Inductive LegacyDescriptorType :=
  | DT_NONE | DT_TCPSOCKET | DT_UDPSOCKET | DT_PIPE | DT_UNIXSOCKET | DT_EPOLL | DT_EVENTD
  | DT_TIMER | DT_FILE.

#[export] Instance LegacyDescriptorType_eq_dec : EqDecision LegacyDescriptorType.
Proof. solve_decision. Defined.

(** [listeners] are the keys of the hash table, in the order of its iteration. *)
Record LegacyDescriptor := mkDesc {
  handle : Z;
  type : LegacyDescriptorType;
  status : Z;
  listeners : list Z;
  referenceCount : Z;
  flags : Z;
  ownerProcess : Z;
}.

#[export] Instance desc_eta : Eta LegacyDescriptor := fun d =>
  mkDesc (handle d) (type d) (status d) (listeners d) (referenceCount d) (flags d) (ownerProcess d).

Inductive StatusListenerFilter := SLF_NEVER | SLF_OFF_TO_ON | SLF_ON_TO_OFF | SLF_ALWAYS.

(** The callback objects are addresses; the free functions are told apart from
    [NULL] only. *)
Record StatusListener := mkListener {
  monitoring : Z;
  filter : StatusListenerFilter;
  notifyFunc : Z;
  callbackObject : Z;
  objectFreeFunc : Z;
  callbackArgument : Z;
  argumentFreeFunc : Z;
  l_referenceCount : Z;
}.

#[export] Instance listener_eta : Eta StatusListener := fun l =>
  mkListener (monitoring l) (filter l) (notifyFunc l) (callbackObject l) (objectFreeFunc l)
    (callbackArgument l) (argumentFreeFunc l) (l_referenceCount l).

(** ** Descriptors without their listeners *)

Definition descriptor_init (t : LegacyDescriptorType) : LegacyDescriptor :=
  mkDesc (-1) t 0 [] 1 0 0.

(** The sum of two references, and whether the last one is gone. *)
Definition descriptor_ref (d : LegacyDescriptor) : LegacyDescriptor :=
  d <| referenceCount := referenceCount d + 1 |>.

Definition descriptor_unref (d : LegacyDescriptor) : option (LegacyDescriptor * bool) :=
  let d := d <| referenceCount := referenceCount d - 1 |> in
  if 0 <=? referenceCount d then Some (d, referenceCount d =? 0) else None.

Definition descriptor_compare (foo bar : LegacyDescriptor) : Z :=
  if handle bar <? handle foo then 1 else if handle foo =? handle bar then 0 else -1.

Definition descriptor_getType (d : LegacyDescriptor) : LegacyDescriptorType := type d.
Definition descriptor_setHandle (d : LegacyDescriptor) (h : Z) : LegacyDescriptor :=
  d <| handle := h |>.
Definition descriptor_getHandle (d : LegacyDescriptor) : Z := handle d.
Definition descriptor_setOwnerProcess (d : LegacyDescriptor) (p : Z) : LegacyDescriptor :=
  d <| ownerProcess := p |>.
Definition descriptor_getOwnerProcess (d : LegacyDescriptor) : Z := ownerProcess d.
Definition descriptor_getStatus (d : LegacyDescriptor) : Z := status d.
Definition descriptor_getFlags (d : LegacyDescriptor) : Z := flags d.
Definition descriptor_setFlags (d : LegacyDescriptor) (f : Z) : LegacyDescriptor := d <| flags := f |>.
Definition descriptor_addFlags (d : LegacyDescriptor) (f : Z) : LegacyDescriptor :=
  d <| flags := set_flags (flags d) f |>.
Definition descriptor_removeFlags (d : LegacyDescriptor) (f : Z) : LegacyDescriptor :=
  d <| flags := clear_flags (flags d) f |>.

(** The bits of [descriptor_adjustStatus], before anyone is told. *)
Definition adjusted (old bits : Z) (doSetBits : bool) : Z :=
  if doSetBits then set_flags old bits else clear_flags old bits.

(** What an operation on a descriptor asks of its listeners: the status before
    and after a change. *)
Definition set_status (d : LegacyDescriptor) (bits : Z) (doSetBits : bool) : LegacyDescriptor :=
  d <| status := adjusted (status d) bits doSetBits |>.

Lemma has_flag_adjusted old j k b : 0 ≤ j → 0 ≤ k →
  has_flag (adjusted old (2 ^ j) b) (2 ^ k) = if j =? k then b else has_flag old (2 ^ k).
Proof.
  intros. unfold adjusted. destruct b; rewrite ?has_flag_set, ?has_flag_clear by done;
    by destruct (j =? k).
Qed.

(** ** Listeners *)

Definition statuslistener_new (func obj objFree arg argFree : Z) : StatusListener :=
  mkListener 0 SLF_NEVER func obj objFree arg argFree 1.

Definition statuslistener_setMonitorStatus (l : StatusListener) (st : Z) (f : StatusListenerFilter)
    : StatusListener := l <| monitoring := st |> <| filter := f |>.

Definition _statuslistener_shouldNotify (l : StatusListener) (currentStatus transitions : Z) : bool :=
  let flipped := has_flag (monitoring l) transitions in
  let on := has_flag (monitoring l) currentStatus in
  match filter l with
  | SLF_OFF_TO_ON => flipped && on
  | SLF_ON_TO_OFF => flipped && negb on
  | SLF_ALWAYS => flipped
  | SLF_NEVER => false
  end.

(** ** The world the callbacks see *)

Record World (E : Type) := mkWorld {
  descriptors : gmap Z LegacyDescriptor;
  statuslisteners : gmap Z StatusListener;
  external : E;
}.
Arguments mkWorld {E}. Arguments descriptors {E}. Arguments statuslisteners {E}.
Arguments external {E}.

#[export] Instance world_eta {E} : Eta (World E) := fun w =>
  mkWorld (descriptors w) (statuslisteners w) (external w).

Section Listeners.
Context {E : Type}.
(** [notify w function object argument] is the call of a listener's callback,
    [freeObject] that of its free functions. *)
Context (notify : World E → Z → Z → Z → option (World E)) (freeObject : World E → Z → option (World E)).

Definition with_listener (w : World E) (l : Z) (f : StatusListener → StatusListener) : option (World E) :=
  s ← statuslisteners w !! l;
  Some (w <| statuslisteners := <[l := f s]> (statuslisteners w) |>).

Definition statuslistener_ref (w : World E) (l : Z) : option (World E) :=
  with_listener w l (λ s, s <| l_referenceCount := l_referenceCount s + 1 |>).

Definition _statuslistener_free (w : World E) (l : Z) : option (World E) :=
  s ← statuslisteners w !! l;
  w ← (if negb (callbackObject s =? 0) && negb (objectFreeFunc s =? 0)
       then freeObject w (callbackObject s) else Some w);
  w ← (if negb (callbackArgument s =? 0) && negb (argumentFreeFunc s =? 0)
       then freeObject w (callbackArgument s) else Some w);
  Some (w <| statuslisteners := delete l (statuslisteners w) |>).

Definition statuslistener_unref (w : World E) (l : Z) : option (World E) :=
  w ← with_listener w l (λ s, s <| l_referenceCount := l_referenceCount s - 1 |>);
  s ← statuslisteners w !! l;
  if negb (0 <=? l_referenceCount s) then None
  else if l_referenceCount s =? 0 then _statuslistener_free w l else Some w.

Definition _statuslistener_invokeNotifyFunc (w : World E) (l : Z) : option (World E) :=
  s ← statuslisteners w !! l;
  if negb (notifyFunc s =? 0) then notify w (notifyFunc s) (callbackObject s) (callbackArgument s) else Some w.

(** The second component lists the listener when its callback was called. *)
Definition statuslistener_onStatusChanged (w : World E) (l currentStatus transitions : Z)
    : option (World E * list Z) :=
  s ← statuslisteners w !! l;
  if _statuslistener_shouldNotify s currentStatus transitions
  then w ← _statuslistener_invokeNotifyFunc w l; Some (w, [l])
  else Some (w, []).

(** Inserting a key that is in the table releases the reference of the old
    value. *)
Definition descriptor_addListener (w : World E) (d l : Z) : option (World E) :=
  w ← statuslistener_ref w l;
  desc ← descriptors w !! d;
  if bool_decide (l ∈ listeners desc) then statuslistener_unref w l
  else Some (w <| descriptors := <[d := desc <| listeners := listeners desc ++ [l] |>]>
                                 (descriptors w) |>).

Definition descriptor_removeListener (w : World E) (d l : Z) : option (World E) :=
  desc ← descriptors w !! d;
  if bool_decide (l ∈ listeners desc) then
    statuslistener_unref (w <| descriptors :=
      <[d := desc <| listeners := list_difference (listeners desc) [l] |>]> (descriptors w) |>) l
  else Some w.

(** The loop over the snapshot of the table's keys. *)
Fixpoint notify_loop (w : World E) (d oldStatus statusesChanged : Z) (items : list Z)
    : option (World E * list Z) :=
  match items with
  | [] => Some (w, [])
  | listener :: items =>
      if statusesChanged =? 0 then Some (w, []) else
      desc ← descriptors w !! d;
      '(w, called) ← (if bool_decide (listener ∈ listeners desc)
        then statuslistener_onStatusChanged w listener (status desc) statusesChanged
        else Some (w, []));
      desc ← descriptors w !! d;
      '(w, rest) ← notify_loop w d oldStatus (Z.lxor (status desc) oldStatus) items;
      Some (w, called ++ rest)
  end.

Definition _descriptor_handleStatusChange (w : World E) (d oldStatus : Z)
    : option (World E * list Z) :=
  desc ← descriptors w !! d;
  let statusesChanged := Z.lxor (status desc) oldStatus in
  if statusesChanged =? 0 then Some (w, [])
  else notify_loop w d oldStatus statusesChanged (listeners desc).

Definition descriptor_adjustStatus (w : World E) (d bits : Z) (doSetBits : bool)
    : option (World E * list Z) :=
  desc ← descriptors w !! d;
  let oldStatus := status desc in
  _descriptor_handleStatusChange
    (w <| descriptors := <[d := set_status desc bits doSetBits]> (descriptors w) |>) d oldStatus.

(** *** Proofs *)

(** The listeners a change of [desc] from [old] concerns. *)
Definition concerned (w : World E) (desc : LegacyDescriptor) (old : Z) (l : Z) : bool :=
  match statuslisteners w !! l with
  | Some s => _statuslistener_shouldNotify s (status desc) (Z.lxor (status desc) old)
  | None => false
  end.

(** A callback that leaves descriptors and listeners alone. *)
Definition passive : Prop :=
  ∀ w f o a, ∃ w', notify w f o a = Some w' ∧ descriptors w' = descriptors w ∧
                 statuslisteners w' = statuslisteners w.

Lemma onStatusChanged_passive w desc old l s :
  passive → statuslisteners w !! l = Some s →
  ∃ w', statuslistener_onStatusChanged w l (status desc) (Z.lxor (status desc) old)
          = Some (w', if concerned w desc old l then [l] else []) ∧
    descriptors w' = descriptors w ∧ statuslisteners w' = statuslisteners w.
Proof.
  intros Hp Hs. unfold statuslistener_onStatusChanged, _statuslistener_invokeNotifyFunc, concerned.
  rewrite Hs. simpl. destruct (_statuslistener_shouldNotify _ _ _); [|by exists w].
  destruct (_ =? 0); simpl; [by exists w|].
  destruct (Hp w (notifyFunc s) (callbackObject s) (callbackArgument s)) as (w' & -> & ? & ?). by exists w'.
Qed.

Lemma notify_loop_passive w d desc old items :
  passive → descriptors w !! d = Some desc → Z.lxor (status desc) old ≠ 0 →
  (∀ l, l ∈ items → l ∈ listeners desc ∧ is_Some (statuslisteners w !! l)) →
  ∃ w', notify_loop w d old (Z.lxor (status desc) old) items
          = Some (w', List.filter (concerned w desc old) items) ∧
    descriptors w' = descriptors w ∧ statuslisteners w' = statuslisteners w.
Proof.
  intros Hp. revert w. induction items as [|l items IH]; intros w Hd Hx Hin; [by exists w|]. simpl.
  rewrite (proj2 (Z.eqb_neq _ 0)) by done. rewrite Hd. simpl.
  destruct (Hin l) as [Hl [s Hs]]; [left|]. rewrite bool_decide_true by done.
  destruct (onStatusChanged_passive w desc old l s Hp Hs) as (w1 & -> & Ed1 & Es1). simpl.
  rewrite Ed1, Hd. simpl.
  destruct (IH w1) as (w2 & -> & Ed2 & Es2); [by rewrite Ed1|done| |].
  - intros l' Hl'. rewrite Es1. apply Hin. by right.
  - simpl. exists w2. rewrite Ed2, Es2, Ed1, Es1. split; [|done]. do 2 f_equal.
    unfold concerned. rewrite Es1. by destruct (_ !! l) as [s'|]; [destruct (_statuslistener_shouldNotify s' _ _)|].
Qed.

(** When the callbacks are passive, adjusting a status sets or clears
    exactly the given bits of exactly this descriptor and calls, once each and
    in table order, exactly the listeners whose monitored bits flipped in the
    direction of their filter; when no bit changes nobody is called. *)
Theorem descriptor_adjustStatus_notifies w d desc bits doSetBits :
  passive → descriptors w !! d = Some desc →
  (∀ l, l ∈ listeners desc → is_Some (statuslisteners w !! l)) →
  let desc' := set_status desc bits doSetBits in
  ∃ w', descriptor_adjustStatus w d bits doSetBits
          = Some (w', List.filter (concerned w desc' (status desc)) (listeners desc)) ∧
    descriptors w' = <[d := desc']> (descriptors w) ∧
    (∀ k, 0 ≤ k → Z.testbit (status desc') k =
                  if Z.testbit bits k then doSetBits else Z.testbit (status desc) k).
Proof.
  intros Hp Hd Hl desc'. unfold descriptor_adjustStatus, _descriptor_handleStatusChange. rewrite Hd.
  cbn [mbind option_bind]. set (w0 := w <| descriptors := _ |>).
  assert (Hd0 : descriptors w0 !! d = Some desc') by (unfold w0; cbn; apply lookup_insert_eq).
  assert (Hbits : ∀ k, 0 ≤ k → Z.testbit (status desc') k =
                    if Z.testbit bits k then doSetBits else Z.testbit (status desc) k).
  { intros k Hk. unfold desc', set_status, adjusted, set_flags, clear_flags. cbn.
    destruct doSetBits; [rewrite Z.lor_spec|rewrite Z.ldiff_spec];
      destruct (Z.testbit bits k), (Z.testbit (status desc) k); done. }
  rewrite Hd0. cbn [mbind option_bind]. destruct (Z.eqb_spec (Z.lxor (status desc') (status desc)) 0) as [Ez|Ez].
  - exists w0. split_and!; [|done|done]. do 2 f_equal. symmetry.
    induction (listeners desc) as [|l ls IH]; [done|]. simpl. unfold concerned at 1.
    destruct (Hl l) as [s Hs]; [left|]. rewrite Hs, Ez.
    assert (_statuslistener_shouldNotify s (status desc') 0 = false) as ->.
    { unfold _statuslistener_shouldNotify, has_flag. rewrite Z.land_0_r. by destruct (filter s). }
    apply IH. intros l' Hl'. apply Hl. by right.
  - destruct (notify_loop_passive w0 d desc' (status desc) (listeners desc') Hp Hd0 Ez)
      as (w' & -> & Ed & _); [intros l Hin; split; [done|by apply Hl]|].
    exists w'. split_and!; [done|done|done].
Qed.

(** Whatever the callbacks do, a listener is only ever called while it is
    in the descriptor's table and the status differs from the old one: one
    that an earlier callback removed is skipped, and the loop stops as soon as
    a callback undoes the change. *)
Theorem notify_loop_respects_table w d old l items desc :
  descriptors w !! d = Some desc →
  (l ∉ listeners desc →
   notify_loop w d old (Z.lxor (status desc) old) (l :: items)
     = if Z.lxor (status desc) old =? 0 then Some (w, [])
       else '(w', called) ← notify_loop w d old (Z.lxor (status desc) old) items; Some (w', called)) ∧
  (∀ s w1 desc1, l ∈ listeners desc → Z.lxor (status desc) old ≠ 0 →
   statuslisteners w !! l = Some s → notifyFunc s ≠ 0 →
   _statuslistener_shouldNotify s (status desc) (Z.lxor (status desc) old) = true →
   notify w (notifyFunc s) (callbackObject s) (callbackArgument s) = Some w1 →
   descriptors w1 !! d = Some desc1 → status desc1 = old →
   notify_loop w d old (Z.lxor (status desc) old) (l :: items) = Some (w1, [l])).
Proof.
  intros Hd. split.
  - intros Hn. simpl. destruct (_ =? 0); [done|]. rewrite Hd. simpl.
    rewrite bool_decide_false by done. simpl. rewrite Hd. simpl.
    by destruct (notify_loop w d old _ items) as [[w' called]|].
  - intros s w1 desc1 Hl Hx Hs Hf Hsn Hnot Hd1 Est. simpl. rewrite (proj2 (Z.eqb_neq _ 0)) by done.
    rewrite Hd. simpl. rewrite bool_decide_true by done.
    unfold statuslistener_onStatusChanged, _statuslistener_invokeNotifyFunc. rewrite Hs. simpl.
    rewrite Hsn. simpl. rewrite (proj2 (Z.eqb_neq _ 0)) by done. simpl.
    rewrite Hnot. simpl. rewrite Hd1. simpl. rewrite Est, Z.lxor_nilpotent.
    by destruct items.
Qed.

End Listeners.

(** ** Witnesses *)

(** Descriptor 1 with listeners 10 (readable, off to on) and 11 (writable). *)
Definition demo_world : World nat :=
  mkWorld {[ 1 := mkDesc 3 DT_EVENTD STATUS_DESCRIPTOR_ACTIVE [10; 11] 1 0 0 ]}
    {[ 10 := mkListener STATUS_DESCRIPTOR_READABLE SLF_OFF_TO_ON 1 50 0 60 0 1;
       11 := mkListener STATUS_DESCRIPTOR_WRITABLE SLF_ALWAYS 1 51 0 60 0 1 ]} 0%nat.

(** A callback that counts its calls. *)
Definition counting (w : World nat) (g o a : Z) : option (World nat) :=
  Some (w <| external := S (external w) |>).

Lemma counting_passive : passive counting.
Proof. intros w g o a. by eexists. Qed.

Lemma descriptor_adjustStatus_notifies_witness :
  ∃ w', descriptor_adjustStatus counting demo_world 1 STATUS_DESCRIPTOR_READABLE true
          = Some (w', [10]).
Proof.
  destruct (descriptors demo_world !! 1) as [desc|] eqn:E; [|by vm_compute in E].
  destruct (descriptor_adjustStatus_notifies counting demo_world 1 desc
              STATUS_DESCRIPTOR_READABLE true counting_passive E) as (w' & Hw & _).
  - vm_compute in E. injection E as <-. cbn. intros l Hl.
    repeat (apply elem_of_cons in Hl as [->|Hl]; [by eexists|]). by apply not_elem_of_nil in Hl.
  - exists w'. rewrite Hw. vm_compute in E. injection E as <-. reflexivity.
Defined.

(** A callback that resets the status of descriptor 1. *)
Definition undoing (w : World nat) (g o a : Z) : option (World nat) :=
  Some (w <| descriptors := (λ d, d <| status := 0 |>) <$> descriptors w |>).

Definition changed_world : World nat :=
  demo_world <| descriptors := (λ d, d <| status := STATUS_DESCRIPTOR_READABLE |>)
                                 <$> descriptors demo_world |>.

Lemma notify_loop_respects_table_witness :
  ∃ w1, notify_loop undoing changed_world 1 0 2 [10; 11] = Some (w1, [10]).
Proof.
  destruct (descriptors changed_world !! 1) as [desc|] eqn:E; [|by vm_compute in E].
  destruct (notify_loop_respects_table undoing changed_world 1 0 10 [11] desc E) as [_ H].
  assert (status desc = 2 ∧ 10 ∈ listeners desc) as [Es Hin]
    by (vm_compute in E; injection E as <-; split; [done|left]).
  rewrite Es in H. eexists. eapply H; try done; vm_compute; reflexivity.
Defined.

End Desc.
