(* ===== verification/Timer.v ===== *)
(** * Timers
    (src/phantom/src/main/host/descriptor/timer.c)

    A timer descriptor expires through callback events it schedules for
    itself, at most one second ahead; expire ids tell current events from those
    of an earlier setting.  The relation [step] at the end interleaves system
    calls, the passing of simulated time and the callbacks the scheduler
    runs. *)

From S2P Require Import Prelude Descriptor.

Module Timer.
Import Desc.

Record timespec := mkTimespec { tv_sec : Z; tv_nsec : Z }.
Record itimerspec := mkItimerspec { it_interval : timespec; it_value : timespec }.

Definition TFD_TIMER_ABSTIME : Z := 1.

Record Timer := mkTimer {
  super : LegacyDescriptor;
  nextExpireTime : Z;
  expireInterval : Z;
  expireCountSinceLastSet : Z;
  nextExpireID : Z;
  minValidExpireID : Z;
  numEventsScheduled : Z;
  isClosed : bool;
}.

#[export] Instance timer_eta : Eta Timer := fun t =>
  mkTimer (super t) (nextExpireTime t) (expireInterval t) (expireCountSinceLastSet t)
    (nextExpireID t) (minValidExpireID t) (numEventsScheduled t) (isClosed t).

(** A task pushed to the scheduler: the expire id it carries and its delay. *)
Definition task : Type := Z * Z.

Definition timer_adjustStatus (t : Timer) (bits : Z) (doSetBits : bool) : Timer :=
  t <| super := set_status (super t) bits doSetBits |>.

Definition timer_new : Timer :=
  timer_adjustStatus (mkTimer (descriptor_init DT_TIMER) 0 0 0 0 0 0 false)
    STATUS_DESCRIPTOR_ACTIVE true.

(** The second result asks the caller to deregister the descriptor. *)
Definition _timer_close (t : Timer) : Timer * bool :=
  let t := timer_adjustStatus (t <| isClosed := true |>) STATUS_DESCRIPTOR_ACTIVE false in
  (t, 0 <? handle (super t)).

(** [None]: the assertion that an armed timer lies in the future fails. *)
Definition _timer_getCurrentTime (t : Timer) (now : Z) : option timespec :=
  if nextExpireTime t =? 0 then Some (mkTimespec 0 0)
  else if negb (now <=? nextExpireTime t) then None
  else
    let diff := u64 (nextExpireTime t - now) in
    Some (mkTimespec (i64 (diff / SIMTIME_ONE_SECOND)) (i64 (diff `mod` SIMTIME_ONE_SECOND))).

Definition _timer_getCurrentInterval (t : Timer) : timespec :=
  if expireInterval t =? 0 then mkTimespec 0 0
  else mkTimespec (i64 (expireInterval t / SIMTIME_ONE_SECOND))
                  (i64 (expireInterval t `mod` SIMTIME_ONE_SECOND)).

(** The first argument tells whether the caller gave a buffer; the result is
    the return value and what is written. *)
Definition timer_getTime (curr_value : bool) (t : Timer) (now : Z) : option (Z * option itimerspec) :=
  if negb curr_value then Some (- EFAULT, None)
  else v ← _timer_getCurrentTime t now;
       Some (0, Some (mkItimerspec (_timer_getCurrentInterval t) v)).

Definition _timer_disarm (t : Timer) : Timer :=
  t <| nextExpireTime := 0 |> <| expireInterval := 0 |> <| minValidExpireID := nextExpireID t |>.

Definition _timer_timespecToSimTime (config : timespec) (configTimeIsEmulatedTime : bool) : Z :=
  let nanos := u64 (u64 (tv_sec config * SIMTIME_ONE_SECOND) + tv_nsec config) in
  if configTimeIsEmulatedTime then
    if EMULATED_TIME_OFFSET <=? nanos then EMULATED_TIME_TO_SIMULATED_TIME nanos else 0
  else nanos.

Definition _timer_setCurrentTime (t : Timer) (now : Z) (config : timespec) (flags : Z) : Timer :=
  if flags =? TFD_TIMER_ABSTIME then
    let next := _timer_timespecToSimTime config true in
    t <| nextExpireTime := if next <? now then now else next |>
  else t <| nextExpireTime := u64 (now + _timer_timespecToSimTime config false) |>.

Definition _timer_setCurrentInterval (t : Timer) (config : timespec) : Timer :=
  t <| expireInterval := _timer_timespecToSimTime config false |>.

(** The task holds a reference to the timer. *)
Definition _timer_scheduleNewExpireEvent (t : Timer) (now : Z) : Timer * list task :=
  let next := nextExpireID t in
  let t := t <| super := descriptor_ref (super t) |> in
  let delay := Z.min (u64 (nextExpireTime t - now)) SIMTIME_ONE_SECOND in
  (t <| nextExpireID := u32 (nextExpireID t + 1) |>
     <| numEventsScheduled := u32 (numEventsScheduled t + 1) |>, [(next, delay)]).

Definition _timer_expire (t : Timer) (now expireID : Z) : Timer * list task :=
  let t := t <| numEventsScheduled := u32 (numEventsScheduled t - 1) |> in
  if negb (isClosed t) && (minValidExpireID t <=? expireID) then
    if nextExpireTime t <=? now then
      let t := t <| expireCountSinceLastSet := u64 (expireCountSinceLastSet t + 1) |> in
      let t := timer_adjustStatus t STATUS_DESCRIPTOR_READABLE true in
      if 0 <? expireInterval t then
        let next := u64 (nextExpireTime t + expireInterval t) in
        _timer_scheduleNewExpireEvent
          (t <| nextExpireTime := if next <? now then now else next |>) now
      else (_timer_disarm t, [])
    else _timer_scheduleNewExpireEvent t now
  else (t, []).

Definition _timer_arm (t : Timer) (now : Z) (config : itimerspec) (flags : Z) : Timer * list task :=
  let t := _timer_setCurrentTime t now (it_value config) flags in
  let t := if (0 <? tv_sec (it_interval config)) || (0 <? tv_nsec (it_interval config))
           then _timer_setCurrentInterval t (it_interval config) else t in
  if now <=? nextExpireTime t then _timer_scheduleNewExpireEvent t now else (t, []).

Definition _timer_timeIsValid (config : timespec) : bool :=
  negb ((tv_nsec config <? 0) || (SIMTIME_ONE_SECOND <=? tv_nsec config)).

(** [new_value] is [None] for a NULL pointer; [old_value] tells whether the
    caller wants the old setting.  The result is the timer, the tasks it
    schedules, the return value and the old setting. *)
Definition timer_setTime (t : Timer) (now flags : Z) (new_value : option itimerspec)
    (old_value : bool) : option (Timer * list task * Z * option itimerspec) :=
  match new_value with
  | None => Some (t, [], - EFAULT, None)
  | Some new_value =>
      if negb (_timer_timeIsValid (it_value new_value)) || negb (_timer_timeIsValid (it_interval new_value))
      then Some (t, [], - EINVAL, None)
      else if negb (flags =? 0) && negb (flags =? TFD_TIMER_ABSTIME) then Some (t, [], - EINVAL, None)
      else
        old ← (if old_value then '(_, v) ← timer_getTime true t now; Some v else Some None);
        let t := _timer_disarm t in
        let t := timer_adjustStatus (t <| expireCountSinceLastSet := 0 |>)
                   STATUS_DESCRIPTOR_READABLE false in
        let '(t, tasks) :=
          if (0 <? tv_sec (it_value new_value)) || (0 <? tv_nsec (it_value new_value))
          then _timer_arm t now new_value flags else (t, []) in
        Some (t, tasks, 0, old)
  end.

(** The return value and the number written to the buffer. *)
Definition timer_read (t : Timer) (count : Z) : Timer * Z * option Z :=
  if 0 <? expireCountSinceLastSet t then
    if count <? 8 then (t, - EINVAL, None)
    else (timer_adjustStatus (t <| expireCountSinceLastSet := 0 |>) STATUS_DESCRIPTOR_READABLE false,
          8, Some (expireCountSinceLastSet t))
  else (t, - EWOULDBLOCK, None).

Definition timer_getExpirationCount (t : Timer) : Z := expireCountSinceLastSet t.

(** ** Timers in the simulation *)

Record Config := mkConfig { timer : Timer; now : Z; pending : list task (* ids and times *) }.

(** The scheduled tasks with their absolute times. *)
Definition at_time (now : Z) (tasks : list task) : list task := (λ '(i, d), (i, now + d)) <$> tasks.

(** Settings that stay in the range of the clock: at most a hundred years, and
    not negative, which the code does not check ([timer_negative_seconds]). *)
Definition century : Z := 3200000000.
Definition plain (ts : timespec) : Prop := 0 ≤ tv_sec ts < century.

(** The simulation ends before the clock leaves this range. *)
Definition END_TIME : Z := 2 ^ 63.

Inductive step : Config → Config → Prop :=
  | step_settime c flags v old t tasks r o :
      plain (it_value v) → plain (it_interval v) →
      nextExpireID (timer c) < UINT32_MAX → Z.of_nat (length (pending c)) < UINT32_MAX →
      timer_setTime (timer c) (now c) flags (Some v) old = Some (t, tasks, r, o) →
      step c (mkConfig t (now c) (pending c ++ at_time (now c) tasks))
  | step_read c count t r v :
      timer_read (timer c) count = (t, r, v) → step c (mkConfig t (now c) (pending c))
  | step_close c :
      step c (mkConfig (fst (_timer_close (timer c))) (now c) (pending c))
  | step_advance c now' :
      now c ≤ now' < END_TIME → Forall (λ p, now' ≤ p.2) (pending c) →
      step c (mkConfig (timer c) now' (pending c))
  | step_fire c before after i t tasks d last :
      pending c = before ++ (i, now c) :: after →
      nextExpireID (timer c) < UINT32_MAX → expireCountSinceLastSet (timer c) < UINT64_MAX →
      _timer_expire (timer c) (now c) i = (t, tasks) →
      (* the task drops its reference when it is freed *)
      descriptor_unref (super t) = Some (d, last) →
      step c (mkConfig (t <| super := d |>) (now c) (before ++ after ++ at_time (now c) tasks)).

(** ** The invariant *)

Definition valid (t : Timer) (l : list task) : list task :=
  List.filter (λ p, minValidExpireID t <=? p.1) l.

(** An armed, open timer has exactly one live callback, not after its expiry;
    a disarmed one has none. *)
Definition armed_ok (t : Timer) (now : Z) (l : list task) : Prop :=
  if nextExpireTime t =? 0 then valid t l = []
  else now ≤ nextExpireTime t ∧
       ∃ i time, valid t l = [(i, time)] ∧ now ≤ time ≤ nextExpireTime t ∧ time ≤ now + SIMTIME_ONE_SECOND.

(** [k] counts the references of tasks that are running. *)
Record base (k : Z) (t : Timer) (now : Z) (l : list task) : Prop := {
  base_now : 0 < now < END_TIME;
  base_num : numEventsScheduled t = Z.of_nat (length l);
  base_num_max : Z.of_nat (length l) ≤ UINT32_MAX;
  base_ids : Forall (λ p, 0 ≤ p.1 < nextExpireID t) l;
  base_nodup : NoDup l.*1;
  base_min : 0 ≤ minValidExpireID t ≤ nextExpireID t;
  base_next : nextExpireID t ≤ UINT32_MAX;
  base_times : Forall (λ p, now ≤ p.2) l;
  base_interval : 0 ≤ expireInterval t < century * SIMTIME_ONE_SECOND;
  base_expire : 0 ≤ nextExpireTime t < 2 ^ 64;
  base_count : 0 ≤ expireCountSinceLastSet t ≤ UINT64_MAX;
  base_readable : has_flag (status (super t)) STATUS_DESCRIPTOR_READABLE = (0 <? expireCountSinceLastSet t);
  base_refs : Z.of_nat (length l) + k < referenceCount (super t);
}.

Definition inv_running (k : Z) (c : Config) : Prop :=
  base k (timer c) (now c) (pending c) ∧
  (isClosed (timer c) = false → armed_ok (timer c) (now c) (pending c)).

Definition inv : Config → Prop := inv_running 0.

Lemma valid_app t l l' : valid t (l ++ l') = valid t l ++ valid t l'.
Proof. apply List.filter_app. Qed.

Lemma readable_set s j : 0 ≤ j →
  has_flag (set_flags s (2 ^ j)) STATUS_DESCRIPTOR_READABLE = (j =? 1) || has_flag s STATUS_DESCRIPTOR_READABLE.
Proof. intros. by apply (has_flag_set s j 1). Qed.

Lemma readable_clear s j : 0 ≤ j →
  has_flag (clear_flags s (2 ^ j)) STATUS_DESCRIPTOR_READABLE
    = negb (j =? 1) && has_flag s STATUS_DESCRIPTOR_READABLE.
Proof. intros. by apply (has_flag_clear s j 1). Qed.

(** *** The operations keep it *)

(** A fresh callback for an armed timer without a live one. *)
Lemma schedule_inv k t now l :
  base k t now l → Z.of_nat (length l) < UINT32_MAX → nextExpireID t < UINT32_MAX →
  (isClosed t = false → valid t l = []) → now ≤ nextExpireTime t →
  let '(t', tasks) := _timer_scheduleNewExpireEvent t now in
  inv_running k (mkConfig t' now (l ++ at_time now tasks)).
Proof.
  intros [Hnow Hn Hm Hids Hnd Hmin Hnx Htm Hi He Hc Hr Hrc] Hl Hid Hv Hle. unfold UINT32_MAX in *.
  cbn. unfold SIMTIME_ONE_SECOND, END_TIME in *. rewrite u64_small, !u32_small by lia.
  split; cbn; [split; cbn|].
  all: rewrite ?length_app, ?fmap_app; cbn; unfold UINT32_MAX, END_TIME; try done; try lia.
  - apply Forall_app. split; [|by repeat constructor; cbn; lia].
    eapply Forall_impl; [exact Hids|]. cbn. lia.
  - apply NoDup_app. split_and!; [done| |apply NoDup_singleton].
    intros x Hx Hx'%list_elem_of_singleton.
    apply list_elem_of_fmap in Hx as (y & Ex & Hin). rewrite Forall_forall in Hids.
    specialize (Hids _ Hin). lia.
  - apply Forall_app. split; [done|]. repeat constructor. cbn. lia.
  - intros Hcl. unfold armed_ok, SIMTIME_ONE_SECOND. cbn. rewrite (proj2 (Z.eqb_neq _ 0)) by lia. split; [done|].
    rewrite valid_app. unfold valid in *. cbn in *. rewrite Hv by done. cbn.
    rewrite (proj2 (Z.leb_le _ _)) by lia. do 2 eexists. split; [done|]. lia.
Qed.

Lemma valid_disarm t l : Forall (λ p, 0 ≤ p.1 < nextExpireID t) l → valid (_timer_disarm t) l = [].
Proof.
  unfold valid. cbn. induction 1 as [|[i tm] l H _ IH]; [done|]. cbn in *.
  by rewrite (proj2 (Z.leb_gt _ _)) by lia.
Qed.

Lemma timespec_plain ts :
  plain ts → _timer_timeIsValid ts = true →
  ∃ n, n = tv_sec ts * SIMTIME_ONE_SECOND + tv_nsec ts ∧ 0 ≤ n < century * SIMTIME_ONE_SECOND ∧
    _timer_timespecToSimTime ts false = n ∧
    _timer_timespecToSimTime ts true = (if EMULATED_TIME_OFFSET <=? n then n - EMULATED_TIME_OFFSET else 0).
Proof.
  intros Hp Hv. unfold _timer_timeIsValid in Hv. apply negb_true_iff, orb_false_iff in Hv as [H1 H2].
  apply Z.ltb_ge in H1. apply Z.leb_gt in H2. unfold plain, century, SIMTIME_ONE_SECOND in *.
  eexists. split; [done|]. split; [lia|]. unfold _timer_timespecToSimTime, SIMTIME_ONE_SECOND.
  rewrite (u64_small (tv_sec ts * 1000000000)), u64_small by lia. split; [done|].
  unfold EMULATED_TIME_TO_SIMULATED_TIME, EMULATED_TIME_OFFSET, SIMTIME_ONE_SECOND.
  destruct (Z.leb_spec (946684800 * 1000000000) (tv_sec ts * 1000000000 + tv_nsec ts)); [|done].
  by rewrite u64_small by lia.
Qed.

(** The time and interval an accepted setting asks for. *)
Definition expiry (now flags : Z) (v : itimerspec) : Z :=
  let n := tv_sec (it_value v) * SIMTIME_ONE_SECOND + tv_nsec (it_value v) in
  if flags =? TFD_TIMER_ABSTIME then Z.max now (n - EMULATED_TIME_OFFSET) else now + n.

Definition interval (v : itimerspec) : Z :=
  tv_sec (it_interval v) * SIMTIME_ONE_SECOND + tv_nsec (it_interval v).

Definition arms (v : itimerspec) : bool :=
  (0 <? tv_sec (it_value v)) || (0 <? tv_nsec (it_value v)).

Lemma arm_unfold t now v flags :
  0 < now < END_TIME → plain (it_value v) → plain (it_interval v) →
  _timer_timeIsValid (it_value v) = true → _timer_timeIsValid (it_interval v) = true →
  expireInterval t = 0 →
  now ≤ expiry now flags v < 2 ^ 64 ∧ 0 ≤ interval v < century * SIMTIME_ONE_SECOND ∧
  _timer_arm t now v flags =
    _timer_scheduleNewExpireEvent
      (t <| nextExpireTime := expiry now flags v |> <| expireInterval := interval v |>) now.
Proof.
  intros Hnow Hp1 Hp2 Hv1 Hv2 Hint.
  destruct (timespec_plain _ Hp1 Hv1) as (n1 & En1 & Hn1 & Ef1 & Et1).
  destruct (timespec_plain _ Hp2 Hv2) as (n2 & En2 & Hn2 & Ef2 & _).
  assert (Hint0 : (0 <? tv_sec (it_interval v)) || (0 <? tv_nsec (it_interval v)) = false → n2 = 0).
  { intros [H1%Z.ltb_ge H2%Z.ltb_ge]%orb_false_iff. unfold plain, SIMTIME_ONE_SECOND in *. lia. }
  unfold expiry, interval. rewrite <-En1, <-En2.
  assert (Hr : now ≤ (if flags =? TFD_TIMER_ABSTIME then Z.max now (n1 - EMULATED_TIME_OFFSET) else now + n1) < 2 ^ 64).
  { unfold END_TIME, century, EMULATED_TIME_OFFSET, SIMTIME_ONE_SECOND in *. destruct (flags =? _); lia. }
  split; [done|]. split; [done|]. unfold _timer_arm, _timer_setCurrentTime.
  assert (Hset : (if flags =? TFD_TIMER_ABSTIME then
      t <| nextExpireTime := if _timer_timespecToSimTime (it_value v) true <? now then now
                             else _timer_timespecToSimTime (it_value v) true |>
    else t <| nextExpireTime := u64 (now + _timer_timespecToSimTime (it_value v) false) |>)
    = t <| nextExpireTime := if flags =? TFD_TIMER_ABSTIME then Z.max now (n1 - EMULATED_TIME_OFFSET)
                             else now + n1 |>).
  { destruct (flags =? TFD_TIMER_ABSTIME).
    - rewrite Et1. set (e := if EMULATED_TIME_OFFSET <=? n1 then _ else _).
      enough ((if e <? now then now else e) = Z.max now (n1 - EMULATED_TIME_OFFSET)) as -> by done.
      subst e. compare_cases; lia.
    - rewrite Ef1, u64_small; [done|]. lia. }
  cbv zeta. rewrite Hset. set (e := if flags =? _ then _ else _) in *. clearbody e.
  destruct (_ || _) eqn:Eb.
  - unfold _timer_setCurrentInterval. rewrite Ef2. cbn. rewrite (proj2 (Z.leb_le _ _)) by lia. done.
  - rewrite (Hint0 eq_refl). cbn. rewrite (proj2 (Z.leb_le _ _)) by lia.
    destruct t; cbn in *. by subst.
Qed.

(** An accepted setting: the previous one is cancelled, the count is reset,
    and a new callback is scheduled when the value asks for it. *)
Definition reset (t : Timer) : Timer :=
  timer_adjustStatus ((_timer_disarm t) <| expireCountSinceLastSet := 0 |>)
    STATUS_DESCRIPTOR_READABLE false.

Lemma setTime_unfold t now flags v old :
  timer_setTime t now flags (Some v) old =
    if negb (_timer_timeIsValid (it_value v)) || negb (_timer_timeIsValid (it_interval v)) ||
       (negb (flags =? 0) && negb (flags =? TFD_TIMER_ABSTIME))
    then Some (t, [], - EINVAL, None)
    else o ← (if old then '(_, w) ← timer_getTime true t now; Some w else Some None);
         let '(t', tasks) := if arms v then _timer_arm (reset t) now v flags else (reset t, []) in
         Some (t', tasks, 0, o).
Proof.
  unfold timer_setTime, reset, arms. destruct (_ || _); [done|].
  by destruct (negb (flags =? 0) && _).
Qed.

Lemma reset_base k t now l : base k t now l → base k (reset t) now l.
Proof.
  intros [Hnow Hn Hm Hids Hnd Hmin Hnx Htm Hi He Hc Hr Hrc]. unfold UINT64_MAX in *.
  split; cbn; try done; try lia. by apply (readable_clear _ 1).
Qed.

Lemma reset_valid k t now l : base k t now l → valid (reset t) l = [].
Proof. intros Hb. apply (valid_disarm t l), (base_ids _ _ _ _ Hb). Qed.

Lemma set_fields_base k t now l e i :
  base k t now l → 0 ≤ e < 2 ^ 64 → 0 ≤ i < century * SIMTIME_ONE_SECOND →
  base k (t <| nextExpireTime := e |> <| expireInterval := i |>) now l.
Proof. intros [] ? ?. by split. Qed.

Lemma settime_inv c flags v old t tasks r o :
  inv c → plain (it_value v) → plain (it_interval v) →
  nextExpireID (timer c) < UINT32_MAX → Z.of_nat (length (pending c)) < UINT32_MAX →
  timer_setTime (timer c) (now c) flags (Some v) old = Some (t, tasks, r, o) →
  inv (mkConfig t (now c) (pending c ++ at_time (now c) tasks)).
Proof.
  intros [Hb Ha] Hp1 Hp2 Hid Hlen E. rewrite setTime_unfold in E.
  destruct (_ || _) eqn:Ev.
  { simplify_eq. cbn. rewrite app_nil_r. by split. }
  apply orb_false_iff in Ev as [[Hv1%negb_false_iff Hv2%negb_false_iff]%orb_false_iff _].
  destruct (if old then _ else _) as [o'|]; [|done]. cbn [mbind option_bind] in E.
  pose proof (reset_base _ _ _ _ Hb) as Hb'. pose proof (reset_valid _ _ _ _ Hb) as Hv'.
  destruct (arms v).
  - destruct (arm_unfold (reset (timer c)) (now c) v flags) as (He & Hi & Ea);
      [apply Hb|done|done|done|done|done|].
    rewrite Ea in E.
    assert (He' : 0 ≤ expiry (now c) flags v < 2 ^ 64) by (pose proof (base_now _ _ _ _ Hb); lia).
    pose proof (schedule_inv _ _ (now c) (pending c) (set_fields_base _ _ _ _ _ _ Hb' He' Hi) Hlen Hid
                  (λ _, Hv') (proj1 He)) as Hs.
    destruct (_timer_scheduleNewExpireEvent _ _) as [t' tasks']. by simplify_eq.
  - simplify_eq. cbn. rewrite app_nil_r. split; [done|]. intros _. exact Hv'.
Qed.

Lemma read_inv c count t r v :
  inv c → timer_read (timer c) count = (t, r, v) → inv (mkConfig t (now c) (pending c)).
Proof.
  intros [Hb Ha] E. unfold timer_read in E. repeat case_match; simplify_eq; try by split.
  destruct Hb. split; [|done]. split; cbn; try done. by apply (readable_clear _ 1).
Qed.

Lemma close_inv c : inv c → inv (mkConfig (fst (_timer_close (timer c))) (now c) (pending c)).
Proof.
  intros [Hb Ha]. split; [|done]. destruct Hb. split; cbn; try done.
  rewrite (readable_clear _ 0) by done. done.
Qed.

Lemma advance_inv c now' :
  inv c → now c ≤ now' < END_TIME → Forall (λ p, now' ≤ p.2) (pending c) →
  inv (mkConfig (timer c) now' (pending c)).
Proof.
  intros [Hb Ha] Hn Hf. split.
  - destruct Hb. split; cbn; try done. lia.
  - intros Hcl. specialize (Ha Hcl). unfold armed_ok in *. cbn in *. destruct (_ =? 0); [done|].
    destruct Ha as (_ & i & tm & Ev & Ht1 & Ht2).
    assert (Hin : (i, tm) ∈ pending c).
    { apply list_elem_of_In.
      assert (Hin : In (i, tm) (valid (timer c) (pending c))) by (rewrite Ev; by left).
      by apply List.filter_In in Hin as [? _]. }
    rewrite Forall_forall in Hf. specialize (Hf _ Hin). cbn in Hf.
    split; [lia|]. exists i, tm. split; [done|]. lia.
Qed.

(** Taking the callback that fires out of the pending ones. *)
Lemma base_remove t now before after i tm :
  base 0 t now (before ++ (i, tm) :: after) →
  base 1 (t <| numEventsScheduled := u32 (numEventsScheduled t - 1) |>) now (before ++ after).
Proof.
  intros [Hnow Hn Hm Hids Hnd Hmin Hnx Htm Hi He Hc Hr Hrc].
  rewrite length_app in *. cbn in *. unfold UINT32_MAX in *.
  split; cbn; try done; rewrite ?length_app; try (unfold UINT32_MAX; lia).
  - rewrite u32_small by lia. lia.
  - apply Forall_app in Hids as [? [_ ?]%Forall_cons]. by apply Forall_app.
  - rewrite fmap_app in *. cbn in Hnd. apply NoDup_app in Hnd as (H1 & H2 & H3).
    apply NoDup_cons in H3 as [_ H3]. apply NoDup_app. split_and!; [done| |done].
    intros x Hx Hx'. apply (H2 x Hx). by right.
  - apply Forall_app in Htm as [? [_ ?]%Forall_cons]. by apply Forall_app.
Qed.

Lemma base_release t now l d last :
  base 1 t now l → descriptor_unref (super t) = Some (d, last) → base 0 (t <| super := d |>) now l.
Proof.
  intros [] E. unfold descriptor_unref in E. case_match; [|done]. injection E as <- _.
  split; cbn; try done. lia.
Qed.

Lemma single_middle {A} (b a : list A) x y : b ++ x :: a = [y] → b = [] ∧ a = [] ∧ x = y.
Proof. destruct b as [|z [|]], a; intros H; by simplify_eq/=. Qed.

(** The live callback is the one that fires. *)
Lemma fire_live t now before after i :
  armed_ok t now (before ++ (i, now) :: after) → minValidExpireID t ≤ i →
  nextExpireTime t ≠ 0 ∧ now ≤ nextExpireTime t ∧ valid t (before ++ after) = [].
Proof.
  intros Ha Hi. unfold armed_ok in Ha. rewrite !valid_app in *. unfold valid in *. cbn in Ha.
  rewrite (proj2 (Z.leb_le _ _)) in Ha by done.
  destruct (Z.eqb_spec (nextExpireTime t) 0).
  - apply app_eq_nil in Ha as [_ ?]. done.
  - destruct Ha as (? & j & tm & E & Ht). apply single_middle in E as (-> & -> & _). done.
Qed.

Lemma fire_inv c before after i t tasks d last :
  inv c → pending c = before ++ (i, now c) :: after →
  nextExpireID (timer c) < UINT32_MAX → expireCountSinceLastSet (timer c) < UINT64_MAX →
  _timer_expire (timer c) (now c) i = (t, tasks) →
  descriptor_unref (super t) = Some (d, last) →
  inv (mkConfig (t <| super := d |>) (now c) (before ++ after ++ at_time (now c) tasks)).
Proof.
  intros [Hb Ha] Ep Hid Hcnt E Eu.
  assert (Hi : isClosed (timer c) = false → minValidExpireID (timer c) ≤ i →
    nextExpireTime (timer c) ≠ 0 ∧ now c ≤ nextExpireTime (timer c) ∧ valid (timer c) (before ++ after) = []).
  { intros Hcl Hm. apply (fire_live (timer c) (now c) before after i); [|done]. rewrite <-Ep. by apply Ha. }
  rewrite Ep in Hb. pose proof (base_remove _ _ _ _ _ _ Hb) as Hb1.
  enough (inv_running 1 (mkConfig t (now c) ((before ++ after) ++ at_time (now c) tasks))) as [Hbt Hat].
  { rewrite app_assoc. split; [by eapply base_release|exact Hat]. }
  set (t1 := (timer c) <| numEventsScheduled := _ |>) in *.
  assert (Hlen : Z.of_nat (length (before ++ after)) < UINT32_MAX).
  { pose proof (base_num_max _ _ _ _ Hb). rewrite length_app in *. cbn in *. lia. }
  unfold _timer_expire in E. fold t1 in E. cbv zeta in E.
  change (isClosed t1) with (isClosed (timer c)) in E.
  change (minValidExpireID t1) with (minValidExpireID (timer c)) in E.
  destruct (negb (isClosed (timer c)) && _) eqn:Ev.
  2: { simplify_eq. cbn. rewrite app_nil_r. split; [done|]. intros Hcl. change (isClosed (timer c) = false) in Hcl.
       rewrite Hcl in Ev. cbn in Ev. apply Z.leb_gt in Ev. specialize (Ha Hcl).
       change (armed_ok (timer c) (now c) (before ++ after)).
       unfold armed_ok in *. rewrite Ep in Ha. rewrite !valid_app in *. unfold valid in *. cbn in *.
       by rewrite (proj2 (Z.leb_gt _ _)) in Ha. }
  apply andb_true_iff in Ev as [Hcl%negb_true_iff Hm%Z.leb_le].
  destruct (Hi Hcl Hm) as (Hne & Hle & Hval).
  destruct (Z.leb_spec (nextExpireTime t1) (now c)) as [Hexp|Hexp].
  2: { pose proof (schedule_inv 1 t1 (now c) _ Hb1 Hlen Hid (λ _, Hval) Hle) as Hs.
       destruct (_timer_scheduleNewExpireEvent _ _). by simplify_eq. }
  set (t2 := timer_adjustStatus _ _ _) in E.
  assert (Hb2 : base 1 t2 (now c) (before ++ after)).
  { pose proof (base_count _ _ _ _ Hb). unfold UINT64_MAX in *. destruct Hb1. unfold t2. cbn in *.
    assert (Hc1 : u64 (expireCountSinceLastSet (timer c) + 1) = expireCountSinceLastSet (timer c) + 1)
      by (apply u64_small; lia).
    split; cbn; try done; rewrite ?Hc1; [unfold UINT64_MAX; lia|].
    rewrite (readable_set _ 1) by done. cbn. symmetry. apply Z.ltb_lt. lia. }
  destruct (Z.ltb_spec 0 (expireInterval t2)) as [Hint|Hint].
  - pose proof (base_interval _ _ _ _ Hb2) as Hi2. cbn in Hi2, Hint, Hexp.
    pose proof (base_now _ _ _ _ Hb) as Hnow. unfold END_TIME, century, SIMTIME_ONE_SECOND in *.
    change (nextExpireTime t2) with (nextExpireTime (timer c)) in E.
    change (expireInterval t2) with (expireInterval (timer c)) in E.
    assert (Hn : u64 (nextExpireTime (timer c) + expireInterval (timer c))
                 = nextExpireTime (timer c) + expireInterval (timer c)) by (apply u64_small; lia).
    cbv zeta in E. rewrite Hn, (proj2 (Z.ltb_ge _ _)) in E by lia.
    set (t3 := t2 <| nextExpireTime := _ |>) in E.
    assert (Hb3 : base 1 t3 (now c) (before ++ after)) by (destruct Hb2; split; cbn; try done; lia).
    pose proof (schedule_inv 1 t3 (now c) _ Hb3 Hlen Hid (λ _, Hval)) as Hs.
    destruct (_timer_scheduleNewExpireEvent _ _). simplify_eq. apply Hs. cbn. lia.
  - simplify_eq. cbn. rewrite app_nil_r. split; [destruct Hb2; unfold t2, t1 in *; split; cbn in *; try done; unfold century, SIMTIME_ONE_SECOND; lia|].
    intros _. unfold armed_ok. cbn. apply (valid_disarm (timer c)), Hb1.
Qed.

Lemma timer_step_inv c c' : step c c' → inv c → inv c'.
Proof.
  destruct 1; eauto using settime_inv, read_inv, close_inv, advance_inv, fire_inv.
Qed.

Lemma timer_steps_inv c c' : rtc step c c' → inv c → inv c'.
Proof. induction 1; eauto using timer_step_inv. Qed.

Lemma new_inv now : 0 < now < END_TIME → inv (mkConfig timer_new now []).
Proof.
  intros. split; [|done]. unfold timer_new.
  split; cbn; try (by constructor); unfold UINT32_MAX, UINT64_MAX, century, SIMTIME_ONE_SECOND; done || lia.
Qed.

(** *** Waiting for an expiry *)

(** Running the only pending callback at its time. *)
Definition run (c : Config) : Config :=
  match pending c with
  | [(i, tm)] => let '(t, tasks) := _timer_expire (timer c) tm i in mkConfig t tm (at_time tm tasks)
  | _ => c
  end.

(** An open timer that will expire at [next], with its one callback pending. *)
Definition waiting (c : Config) (next ival cnt id : Z) : Prop :=
  isClosed (timer c) = false ∧ nextExpireTime (timer c) = next ∧ expireInterval (timer c) = ival ∧
  expireCountSinceLastSet (timer c) = cnt ∧ nextExpireID (timer c) = id + 1 ∧
  0 ≤ minValidExpireID (timer c) ≤ id ∧ 0 ≤ now c ≤ next ∧
  pending c = [(id, Z.min next (now c + SIMTIME_ONE_SECOND))].

Lemma schedule_waiting t now next ival cnt id :
  isClosed t = false → nextExpireTime t = next → expireInterval t = ival →
  expireCountSinceLastSet t = cnt → nextExpireID t = id → 0 ≤ minValidExpireID t ≤ id →
  0 ≤ now ≤ next → next < 2 ^ 64 → id < UINT32_MAX →
  let '(t', tasks) := _timer_scheduleNewExpireEvent t now in
  waiting (mkConfig t' now (at_time now tasks)) next ival cnt id.
Proof.
  intros Hcl <- <- <- <- Hm Hn Hlt Hid. unfold UINT32_MAX in *. cbn. split_and!; try done; cbn; try lia.
  - rewrite u32_small; lia.
  - rewrite u64_small by lia. do 2 f_equal. unfold SIMTIME_ONE_SECOND in *. lia.
Qed.

(** A check before the expiry schedules the next check. *)
Lemma run_wait c next ival cnt id :
  waiting c next ival cnt id → now c + SIMTIME_ONE_SECOND < next < 2 ^ 64 → id + 1 < UINT32_MAX →
  waiting (run c) next ival cnt (id + 1) ∧ now (run c) = now c + SIMTIME_ONE_SECOND.
Proof.
  intros (Hcl & En & Ei & Ec & Eid & Hm & Hnow & Ep) Hlt Hid. unfold run. rewrite Ep.
  rewrite Z.min_r by lia. unfold _timer_expire. cbn [isClosed minValidExpireID nextExpireTime].
  set (t0 := (timer c) <| numEventsScheduled := _ |>). cbv zeta.
  change (isClosed t0) with (isClosed (timer c)). rewrite Hcl.
  change (minValidExpireID t0) with (minValidExpireID (timer c)).
  change (nextExpireTime t0) with (nextExpireTime (timer c)).
  rewrite (proj2 (Z.leb_le _ _)), En, (proj2 (Z.leb_gt _ _)) by lia. cbn [negb andb].
  pose proof (schedule_waiting t0 (now c + SIMTIME_ONE_SECOND) next ival cnt (id + 1)
    Hcl En Ei Ec Eid) as H.
  destruct (_timer_scheduleNewExpireEvent t0 _). cbn in *. split; [|done].
  unfold SIMTIME_ONE_SECOND in *. apply H; lia.
Qed.

(** The check at the expiry counts it and starts the next period or disarms. *)
Lemma run_expire c next ival cnt id :
  waiting c next ival cnt id → next ≤ now c + SIMTIME_ONE_SECOND → next < 2 ^ 63 →
  0 ≤ ival < 2 ^ 63 → 0 ≤ cnt < UINT64_MAX → id + 1 < UINT32_MAX →
  now (run c) = next ∧
  (0 < ival → waiting (run c) (next + ival) ival (cnt + 1) (id + 1)) ∧
  (ival = 0 → nextExpireTime (timer (run c)) = 0 ∧ pending (run c) = [] ∧
              expireCountSinceLastSet (timer (run c)) = cnt + 1).
Proof.
  intros (Hcl & En & Ei & Ec & Eid & Hm & Hnow & Ep) Hle Hlt Hi Hc Hid. unfold run. rewrite Ep.
  rewrite Z.min_l by lia. unfold _timer_expire.
  set (t0 := (timer c) <| numEventsScheduled := _ |>). cbv zeta.
  change (isClosed t0) with (isClosed (timer c)). rewrite Hcl.
  change (minValidExpireID t0) with (minValidExpireID (timer c)).
  change (nextExpireTime t0) with (nextExpireTime (timer c)).
  rewrite (proj2 (Z.leb_le _ _)), En, (proj2 (Z.leb_le next next)) by lia. cbn [negb andb].
  set (t1 := timer_adjustStatus _ _ _). unfold UINT64_MAX in *.
  assert (Ec1 : expireCountSinceLastSet t1 = cnt + 1) by (unfold t1; cbn; rewrite Ec; apply u64_small; lia).
  change (expireInterval t1) with (expireInterval (timer c)). rewrite Ei.
  change (nextExpireTime t1) with (nextExpireTime (timer c)). rewrite En.
  destruct (Z.ltb_spec 0 ival).
  - rewrite u64_small, (proj2 (Z.ltb_ge _ _)) by lia. set (t2 := t1 <| nextExpireTime := _ |>).
    pose proof (schedule_waiting t2 next (next + ival) ival (cnt + 1) (id + 1)
      Hcl eq_refl Ei Ec1 Eid) as H'.
    destruct (_timer_scheduleNewExpireEvent t2 _). cbn in *. split_and!; [done| |lia].
    intros _. apply H'; lia.
  - cbn. split_and!; [done|lia|]. intros _. split_and!; [done|done|exact Ec1].
Qed.

(** Callbacks it takes to wait [d] nanoseconds: one per started second. *)
Definition callbacks (d : Z) : nat := Z.to_nat (Z.max 1 ((d + SIMTIME_ONE_SECOND - 1) / SIMTIME_ONE_SECOND)).

Lemma callbacks_small d : d ≤ SIMTIME_ONE_SECOND → callbacks d = 1%nat.
Proof.
  intros H. unfold callbacks, SIMTIME_ONE_SECOND in *.
  assert ((d + 1000000000 - 1) / 1000000000 < 2) by (apply Z.div_lt_upper_bound; lia). lia.
Qed.

Lemma callbacks_step d : SIMTIME_ONE_SECOND < d → callbacks d = S (callbacks (d - SIMTIME_ONE_SECOND)).
Proof.
  intros H. unfold callbacks, SIMTIME_ONE_SECOND in *.
  replace (d + 1000000000 - 1) with (d - 1000000000 + 1000000000 - 1 + 1 * 1000000000) by lia.
  rewrite Z.div_add by lia.
  assert (1 ≤ (d - 1000000000 + 1000000000 - 1) / 1000000000) by (apply Z.div_le_lower_bound; lia). lia.
Qed.

Lemma wait_expire n : ∀ c next ival cnt id,
  waiting c next ival cnt id → callbacks (next - now c) = n → next < 2 ^ 63 → 0 ≤ ival < 2 ^ 63 →
  0 ≤ cnt < UINT64_MAX → id + Z.of_nat n < UINT32_MAX →
  let c' := Nat.iter n run c in
  now c' = next ∧ (0 < ival → waiting c' (next + ival) ival (cnt + 1) (id + Z.of_nat n)) ∧
  (ival = 0 → nextExpireTime (timer c') = 0 ∧ pending c' = [] ∧
              expireCountSinceLastSet (timer c') = cnt + 1).
Proof.
  induction n as [|n IH]; intros c next ival cnt id Hw Hn Hlt Hi Hc Hid.
  { unfold callbacks in Hn. lia. }
  destruct (Z.le_gt_cases (next - now c) SIMTIME_ONE_SECOND) as [Hle|Hgt].
  - rewrite callbacks_small in Hn by done. injection Hn as <-.
    apply (run_expire c next ival cnt id Hw); try done; lia.
  - rewrite callbacks_step in Hn by lia. injection Hn as Hn.
    destruct (run_wait c next ival cnt id Hw) as [Hw' Hnow']; [lia|lia|].
    rewrite Nat.iter_succ_r. replace (id + Z.of_nat (S n)) with (id + 1 + Z.of_nat n) by lia.
    apply IH; try done; [|lia]. rewrite Hnow', <-Hn. f_equal. lia.
Qed.

(** *** Properties *)

(** C23: from a new timer, however settings whose seconds are not negative (and
    below a century), reads, closes, clock advances and callbacks interleave -
    negative seconds are not turned down by the code and break what follows, see
    [timer_negative_seconds] -: reading the current value of an open timer never
    fails its assertion and reports exactly the time left to the expiry (zero when disarmed); the descriptor is readable
    exactly when an expiration is unread; the number of scheduled events is
    exact; and an armed timer always has exactly one live callback, due no
    later than the expiry, so it cannot be missed. *)
Theorem timer_safe start c :
  0 < start < END_TIME → rtc step (mkConfig timer_new start []) c →
  let t := timer c in
  (isClosed t = false → ∃ v, timer_getTime true t (now c) = Some (0, Some v) ∧
     tv_sec (it_value v) * SIMTIME_ONE_SECOND + tv_nsec (it_value v)
       = (if nextExpireTime t =? 0 then 0 else nextExpireTime t - now c) ∧
     0 ≤ tv_nsec (it_value v) < SIMTIME_ONE_SECOND) ∧
  has_flag (status (super t)) STATUS_DESCRIPTOR_READABLE = (0 <? timer_getExpirationCount t) ∧
  numEventsScheduled t = Z.of_nat (length (pending c)) ∧
  (isClosed t = false → nextExpireTime t ≠ 0 →
     ∃ i time, valid t (pending c) = [(i, time)] ∧ now c ≤ time ≤ nextExpireTime t).
Proof.
  intros Hs Hr t. destruct (timer_steps_inv _ _ Hr (new_inv _ Hs)) as [Hb Ha]. fold t in Hb, Ha.
  split_and!; [| apply Hb | apply Hb |].
  - intros Hcl. specialize (Ha Hcl). unfold armed_ok in Ha. unfold timer_getTime, _timer_getCurrentTime.
    cbn [negb]. destruct (Z.eqb_spec (nextExpireTime t) 0); cbn [mbind option_bind].
    + eexists. split; [done|]. by cbn.
    + destruct Ha as (Hle & _). rewrite (proj2 (Z.leb_le _ _)) by done. cbn [negb mbind option_bind].
      pose proof (base_expire _ _ _ _ Hb). pose proof (base_now _ _ _ _ Hb). unfold END_TIME in *.
      rewrite u64_small by lia. eexists. split; [done|]. cbn. unfold SIMTIME_ONE_SECOND.
      set (d := nextExpireTime t - now c).
      pose proof (Z.div_mod d 1000000000 ltac:(lia)). pose proof (Z.mod_pos_bound d 1000000000 ltac:(lia)).
      assert (0 ≤ d / 1000000000 < 2 ^ 63).
      { split; [apply Z.div_pos; lia|]. apply Z.div_lt_upper_bound; lia. }
      assert (Hi64 : ∀ z, 0 ≤ z < 2 ^ 63 → i64 z = z).
      { intros z Hz. unfold i64, swrap. rewrite Z.mod_small; lia. }
      rewrite !Hi64 by lia. lia.
  - intros Hcl Hne. specialize (Ha Hcl). unfold armed_ok in Ha.
    rewrite (proj2 (Z.eqb_neq _ _)) in Ha by done.
    destruct Ha as (_ & i & tm & E & Ht & _). exists i, tm. by split.
Qed.

(** C22: a timer set at [now] expires exactly at the requested time, then
    exactly every interval: after the callbacks of the first delay and [k]
    full periods (one callback per started second) the clock stands at the
    [k+1]-st expiry and that many expirations are counted; a one-shot timer is
    then disarmed with nothing pending. *)
Theorem timer_on_time t start flags v old t' tasks o k :
  base 0 t start [] → isClosed t = false → plain (it_value v) → plain (it_interval v) → arms v = true →
  timer_setTime t start flags (Some v) old = Some (t', tasks, 0, o) →
  let first := expiry start flags v in
  let n := (callbacks (first - start) + k * callbacks (interval v))%nat in
  first + Z.of_nat k * interval v < 2 ^ 63 → nextExpireID t + Z.of_nat n < UINT32_MAX →
  Z.of_nat k < 2 ^ 32 →
  let c := Nat.iter n run (mkConfig t' start (at_time start tasks)) in
  (0 < interval v → now c = first + Z.of_nat k * interval v ∧
     timer_getExpirationCount (timer c) = Z.of_nat k + 1) ∧
  (interval v = 0 → k = 0%nat → now c = first ∧ timer_getExpirationCount (timer c) = 1 ∧
     nextExpireTime (timer c) = 0 ∧ pending c = []).
Proof.
  intros Hb Hcl Hp1 Hp2 Harm E first n Hend Hid Hk c. unfold n in Hid.
  rewrite setTime_unfold in E. destruct (_ || _) eqn:Ev; [by injection E|].
  apply orb_false_iff in Ev as [[Hv1%negb_false_iff Hv2%negb_false_iff]%orb_false_iff _].
  destruct (if old then _ else _) as [o'|]; [|done]. cbn [mbind option_bind] in E. rewrite Harm in E.
  pose proof (reset_base _ _ _ _ Hb) as Hb'. pose proof (base_now _ _ _ _ Hb) as Hnow.
  pose proof (base_min _ _ _ _ Hb') as Hmin. cbn in Hmin.
  destruct (arm_unfold (reset t) start v flags Hnow Hp1 Hp2 Hv1 Hv2 eq_refl) as (He & Hi & Ea).
  rewrite Ea in E. fold first in E, He.
  pose proof (schedule_waiting
    ((reset t) <| nextExpireTime := first |> <| expireInterval := interval v |>) start first (interval v) 0
    (nextExpireID t)) as Hw.
  destruct (_timer_scheduleNewExpireEvent _ _) as [t1 tasks1]. simplify_eq.
  assert (Hw0 : waiting (mkConfig t' start (at_time start tasks)) first (interval v) 0 (nextExpireID t)).
  { apply Hw; cbn; try done; try lia. }
  clear Hw. set (c0 := mkConfig t' start _) in *. change start with (now c0) in n.
  unfold century, SIMTIME_ONE_SECOND, END_TIME in *.
  assert (Hper : ∀ k : nat, (0 < interval v ∨ k = 0%nat) → first + Z.of_nat k * interval v < 2 ^ 63 →
    Z.of_nat k < 2 ^ 32 →
    nextExpireID t + Z.of_nat (callbacks (first - now c0) + k * callbacks (interval v)) < UINT32_MAX →
    let c := Nat.iter (callbacks (first - now c0) + k * callbacks (interval v)) run c0 in
    now c = first + Z.of_nat k * interval v ∧
    (0 < interval v → waiting c (first + Z.of_nat (S k) * interval v) (interval v) (Z.of_nat k + 1)
       (nextExpireID t + Z.of_nat (callbacks (first - now c0) + k * callbacks (interval v)))) ∧
    (interval v = 0 → nextExpireTime (timer c) = 0 ∧ pending c = [] ∧
       expireCountSinceLastSet (timer c) = 1)).
  { clear k n Hend Hid Hk c. induction k as [|k IH]; intros Hor Hend Hk Hid.
    - rewrite Nat.mul_0_l, Nat.add_0_r in *.
      destruct (wait_expire _ c0 first (interval v) 0 (nextExpireID t) Hw0 eq_refl) as (H1 & H2 & H3);
        [lia|lia|done|lia|]. replace (first + Z.of_nat 0 * interval v) with first by lia.
      replace (first + Z.of_nat 1 * interval v) with (first + interval v) by lia. done.
    - destruct Hor as [Hor|]; [|done]. rewrite Nat.mul_succ_l, Nat.add_assoc in *.
      destruct IH as (Hn & Hwk & _); [by left|lia|lia|lia|]. specialize (Hwk Hor).
      rewrite Nat.add_comm, Nat.iter_add.
      set (c1 := Nat.iter (_ + k * _) run c0) in *.
      destruct (wait_expire (callbacks (interval v)) c1 _ _ _ _ Hwk) as (H1 & H2 & H3);
        [rewrite Hn; f_equal; lia|lia|lia|unfold UINT64_MAX; lia|lia|].
      split_and!; [rewrite H1; lia| |lia]. intros _. specialize (H2 Hor).
      replace (first + Z.of_nat (S (S k)) * interval v)
        with (first + Z.of_nat (S k) * interval v + interval v) by lia.
      replace (Z.of_nat (S k) + 1) with (Z.of_nat k + 1 + 1) by lia.
      replace (nextExpireID t + _) with (nextExpireID t +
        Z.of_nat (callbacks (first - now c0) + k * callbacks (interval v)) + Z.of_nat (callbacks (interval v)))
        by lia. exact H2. }
  split.
  - intros Hpos. destruct (Hper k (or_introl Hpos) Hend Hk Hid) as (H1 & H2 & _).
    split; [exact H1|]. apply (H2 Hpos).
  - intros Hz ->. destruct (Hper 0%nat (or_intror eq_refl) Hend Hk Hid) as (H1 & _ & H3).
    destruct (H3 Hz) as (? & ? & ?). split_and!; try done. etransitivity; [exact H1|lia].
Qed.

(** Arming does not bring old callbacks back to life. *)
Lemma arm_min t now v flags :
  minValidExpireID (_timer_arm t now v flags).1 = minValidExpireID t.
Proof.
  unfold _timer_arm. cbv zeta.
  assert (minValidExpireID (_timer_setCurrentTime t now (it_value v) flags) = minValidExpireID t) as <-
    by (unfold _timer_setCurrentTime; by destruct (_ =? _)).
  set (t1 := _timer_setCurrentTime _ _ _ _). set (t2 := if _ || _ then _ else t1).
  assert (minValidExpireID t2 = minValidExpireID t1) as <- by (unfold t2; by destruct (_ || _)).
  clearbody t2. by destruct (_ <=? _).
Qed.

(** A NULL value, nanoseconds out of range or unknown flags are refused
    with EFAULT or EINVAL and change nothing; an accepted setting cancels the
    previous one: a callback scheduled before it changes nothing but the
    number of outstanding events and schedules nothing, also after a close. *)
Theorem timer_setTime_cancels t now l flags v old t' tasks r o i now' :
  base 0 t now l → nextExpireID t < UINT32_MAX →
  timer_setTime t now flags v old = Some (t', tasks, r, o) → i < nextExpireID t →
  (r ≠ 0 ↔ v = None ∨ ∃ v', v = Some v' ∧
     (tv_nsec (it_value v') < 0 ∨ SIMTIME_ONE_SECOND ≤ tv_nsec (it_value v') ∨
      tv_nsec (it_interval v') < 0 ∨ SIMTIME_ONE_SECOND ≤ tv_nsec (it_interval v') ∨
      (flags ≠ 0 ∧ flags ≠ TFD_TIMER_ABSTIME))) ∧
  (r ≠ 0 → t' = t ∧ tasks = [] ∧ o = None ∧ r = (if v is Some _ then - EINVAL else - EFAULT)) ∧
  (r = 0 → _timer_expire t' now' i
             = (t' <| numEventsScheduled := u32 (numEventsScheduled t' - 1) |>, [])).
Proof.
  intros Hb Hid E Hi. destruct v as [v|].
  2: { injection E as <- <- <- <-. split_and!; [|done|done]. split; [by left|done]. }
  rewrite setTime_unfold in E.
  assert (Hspec : (negb (_timer_timeIsValid (it_value v)) || negb (_timer_timeIsValid (it_interval v)) ||
     (negb (flags =? 0) && negb (flags =? TFD_TIMER_ABSTIME))) = true ↔
     (tv_nsec (it_value v) < 0 ∨ SIMTIME_ONE_SECOND ≤ tv_nsec (it_value v) ∨
      tv_nsec (it_interval v) < 0 ∨ SIMTIME_ONE_SECOND ≤ tv_nsec (it_interval v) ∨
      (flags ≠ 0 ∧ flags ≠ TFD_TIMER_ABSTIME))).
  { unfold _timer_timeIsValid. rewrite !negb_involutive, !orb_true_iff, andb_true_iff, !negb_true_iff,
      !Z.ltb_lt, !Z.leb_le, !Z.eqb_neq. tauto. }
  destruct (_ || _) eqn:Ev.
  { injection E as <- <- <- <-. split_and!; [|done|done]. split; [|done].
    intros _. right. exists v. split; [done|]. by apply Hspec. }
  assert (r = 0 ∧ nextExpireID t ≤ minValidExpireID t') as [-> Hmin].
  { destruct (if old then _ else _); [|done]. cbn [mbind option_bind] in E.
    destruct (arms v); [|injection E as <- <- <- <-; cbn; split; [done|lia]].
    pose proof (arm_min (reset t) now v flags) as Hmin.
    destruct (_timer_arm (reset t) now v flags). cbn in Hmin. simplify_eq. rewrite Hmin. cbn.
    split; [done|lia]. }
  split_and!; [|done|].
  - split; [done|]. intros [?|(v' & [= <-] & H)]; [done|]. apply Hspec in H. congruence.
  - intros _. unfold _timer_expire. cbn. rewrite (proj2 (Z.leb_gt _ i)) by lia.
    by rewrite andb_false_r.
Qed.

(** A read gives the number of expirations since the last read or setting
    and clears it together with the readable bit; with nothing to report it
    would block, and a buffer below eight bytes is refused without consuming
    anything. *)
Theorem timer_read_correct t count :
  (expireCountSinceLastSet t ≤ 0 → timer_read t count = (t, - EWOULDBLOCK, None)) ∧
  (0 < expireCountSinceLastSet t → count < 8 → timer_read t count = (t, - EINVAL, None)) ∧
  (0 < expireCountSinceLastSet t → 8 ≤ count →
   ∃ t', timer_read t count = (t', 8, Some (expireCountSinceLastSet t)) ∧
     timer_getExpirationCount t' = 0 ∧
     has_flag (status (super t')) STATUS_DESCRIPTOR_READABLE = false ∧
     nextExpireTime t' = nextExpireTime t ∧ expireInterval t' = expireInterval t ∧
     minValidExpireID t' = minValidExpireID t).
Proof.
  unfold timer_read. split_and!.
  - intros H. by rewrite (proj2 (Z.ltb_ge _ _)).
  - intros H1 H2. by rewrite (proj2 (Z.ltb_lt _ _)), (proj2 (Z.ltb_lt _ _)).
  - intros H1 H2. rewrite (proj2 (Z.ltb_lt _ _)), (proj2 (Z.ltb_ge _ _)) by lia.
    eexists. split; [done|]. split; [done|]. split; [|done]. by apply (readable_clear _ 1).
Qed.

(** A negative number of seconds with positive nanoseconds is accepted (on
    Linux it is EINVAL): set ten seconds into the simulation, the timer is
    armed in the past without a callback, so it never expires, and reading its
    current value fails the assertion that an armed timer lies ahead. *)
Theorem timer_negative_seconds :
  ∃ t, timer_setTime timer_new (10 * SIMTIME_ONE_SECOND) 0
         (Some (mkItimerspec (mkTimespec 0 0) (mkTimespec (-5) 1))) false = Some (t, [], 0, None) ∧
    nextExpireTime t = 5 * SIMTIME_ONE_SECOND + 1 ∧
    timer_getTime true t (10 * SIMTIME_ONE_SECOND) = None.
Proof. eexists. split; [by vm_compute|]. by vm_compute. Qed.

(** ** Witnesses *)

Definition every_1500ms : itimerspec := mkItimerspec (mkTimespec 0 300) (mkTimespec 1 500000000).

Definition demo_timer : Timer :=
  match timer_setTime timer_new 7 0 (Some every_1500ms) false with
  | Some (t, _, _, _) => t | None => timer_new end.

Lemma timer_demo_step : step (mkConfig timer_new 7 []) (mkConfig demo_timer 7 [(0, 1000000007)]).
Proof.
  apply (step_settime (mkConfig timer_new 7 []) 0 every_1500ms false demo_timer [(0, 1000000000)] 0 None);
    [split; by vm_compute|split; by vm_compute|by vm_compute|by vm_compute|by vm_compute].
Qed.

Lemma timer_safe_witness :
  rtc step (mkConfig timer_new 7 []) (mkConfig demo_timer 7 [(0, 1000000007)]) ∧
  ∃ v, timer_getTime true demo_timer 7 = Some (0, Some v) ∧
       tv_sec (it_value v) * SIMTIME_ONE_SECOND + tv_nsec (it_value v) = 1500000000.
Proof.
  assert (Hr : rtc step (mkConfig timer_new 7 []) (mkConfig demo_timer 7 [(0, 1000000007)])).
  { apply rtc_once, timer_demo_step. }
  split; [exact Hr|]. destruct (timer_safe 7 _ ltac:(done) Hr) as (H & _).
  destruct (H eq_refl) as (v & E & Ev & _). exists v. split; [exact E|]. rewrite Ev. by vm_compute.
Defined.

Lemma demo_base : base 0 timer_new 7 [].
Proof. exact (proj1 (new_inv 7 ltac:(done))). Qed.

Lemma timer_on_time_witness :
  ∃ c, now c = 1500000007 + 5 * 300 ∧ timer_getExpirationCount (timer c) = 6.
Proof.
  destruct (timer_on_time timer_new 7 0 every_1500ms false demo_timer [(0, 1000000000)] None 5
              demo_base) as [H _]; try (by vm_compute).
  eexists. apply H. by vm_compute.
Defined.

Lemma timer_setTime_cancels_witness :
  _timer_expire (reset demo_timer) 9 0
    = ((reset demo_timer) <| numEventsScheduled := u32 (numEventsScheduled (reset demo_timer) - 1) |>, []).
Proof.
  assert (Hb : base 0 demo_timer 7 [(0, 1000000007)]).
  { assert (Hi : inv (mkConfig demo_timer 7 [(0, 1000000007)])); [|exact (proj1 Hi)].
    exact (timer_step_inv _ _ timer_demo_step (new_inv 7 ltac:(done))). }
  destruct (timer_setTime_cancels demo_timer 7 [(0, 1000000007)] 0
    (Some (mkItimerspec (mkTimespec 0 0) (mkTimespec 0 0))) false (reset demo_timer) [] 0 None 0 9 Hb)
    as (_ & _ & H); [by vm_compute|by vm_compute|by vm_compute|by apply H].
Defined.

End Timer.
