(* ===== verification/TimerFd.v ===== *)
(** * The timerfd system calls and the blocking timer of a system call handler
    (src/phantom/src/main/host/syscall/timerfd.c, syscall/protected.c)

    The table of open descriptors and the pointers of the managed process are
    reached through parameters: the table is kept by Rust code and the memory
    belongs to another process. *)

From S2P Require Import Prelude Descriptor Timer.

Module TimerFd.
Import Desc Timer.

Definition CLOCK_REALTIME : Z := 0.
Definition CLOCK_MONOTONIC : Z := 1.
Definition CLOCK_BOOTTIME : Z := 7.
Definition CLOCK_REALTIME_ALARM : Z := 8.
Definition CLOCK_BOOTTIME_ALARM : Z := 9.
Definition O_NONBLOCK : Z := 2048.
Definition O_CLOEXEC : Z := 524288.
Definition TFD_NONBLOCK : Z := O_NONBLOCK.
Definition TFD_CLOEXEC : Z := O_CLOEXEC.
Definition TFD_TIMER_CANCEL_ON_SET : Z := 2.

(** What a file descriptor of the process refers to. *)
Inductive FD := FTimer (t : Timer) | FOther (d : LegacyDescriptor).

Definition fd_desc (f : FD) : LegacyDescriptor :=
  match f with FTimer t => super t | FOther d => d end.

Definition Table : Type := gmap Z FD.

(** ** Helpers (protected.c) *)

Definition _syscallhandler_validateDescriptor (d : option LegacyDescriptor)
    (expectedType : LegacyDescriptorType) : Z :=
  match d with
  | Some d =>
      if has_flag (descriptor_getStatus d) STATUS_DESCRIPTOR_CLOSED then - EBADF
      else if bool_decide (expectedType ≠ DT_NONE) && bool_decide (descriptor_getType d ≠ expectedType)
           then - EINVAL
      else 0
  | None => - EBADF
  end.

(** The handler's own timer, which bounds how long a call blocks. *)
Record SysCallHandler := mkSys { sys_timer : Timer; blockedSyscallNR : Z }.

#[export] Instance sys_eta : Eta SysCallHandler := fun s => mkSys (sys_timer s) (blockedSyscallNR s).

Inductive TimeoutType := TIMEOUT_RELATIVE | TIMEOUT_ABSOLUTE.

(** [None]: the panic for a timeout the timer refuses. *)
Definition _syscallhandler_setListenTimeout (s : SysCallHandler) (now : Z)
    (timeout : option timespec) (type : TimeoutType) : option (SysCallHandler * list task) :=
  let value := mkItimerspec (mkTimespec 0 0) (default (mkTimespec 0 0) timeout) in
  '(t, tasks, result, _) ← timer_setTime (sys_timer s) now
    (match type with TIMEOUT_ABSOLUTE => TFD_TIMER_ABSTIME | TIMEOUT_RELATIVE => 0 end) (Some value) false;
  if negb (result =? 0) then None else Some (s <| sys_timer := t |>, tasks).

(** C division rounds toward zero. *)
Definition utility_timespecFromMillis (millis : Z) : timespec :=
  mkTimespec (millis `quot` 1000) (millis `rem` 1000 * 1000000).

Definition _syscallhandler_setListenTimeoutMillis (s : SysCallHandler) (now timeout_ms : Z)
    : option (SysCallHandler * list task) :=
  _syscallhandler_setListenTimeout s now (Some (utility_timespecFromMillis timeout_ms)) TIMEOUT_RELATIVE.

Definition _syscallhandler_isListenTimeoutPending (s : SysCallHandler) (now : Z) : option bool :=
  '(_, value) ← timer_getTime true (sys_timer s) now;
  v ← value;
  Some ((0 <? tv_sec (it_value v)) || (0 <? tv_nsec (it_value v))).

Definition _syscallhandler_didListenTimeoutExpire (s : SysCallHandler) : bool :=
  0 <? timer_getExpirationCount (sys_timer s).

Definition _syscallhandler_wasBlocked (s : SysCallHandler) : bool := 0 <=? blockedSyscallNR s.

(** ** System calls (timerfd.c) *)

Section Calls.

(** The lowest free number the descriptor table gives out; the values the
    process keeps at an address; whether an address can be written. *)
Context (new_fd : Table → Z) (process_readPtr : Z → option itimerspec) (writeable : Z → bool).

Definition _syscallhandler_validateTimerHelper (fds : Table) (tfd : Z) : Z * option Timer :=
  if tfd <? 0 then (- EBADF, None)
  else
    let desc := fds !! tfd in
    let errcode := _syscallhandler_validateDescriptor (fd_desc <$> desc) DT_TIMER in
    (errcode, match desc with Some (FTimer t) => Some t | _ => None end).

Definition syscallhandler_timerfd_create (fds : Table) (clockid flags : Z) : Table * Z :=
  if (clockid =? CLOCK_BOOTTIME) || (clockid =? CLOCK_REALTIME_ALARM) || (clockid =? CLOCK_BOOTTIME_ALARM)
  then (fds, - ENOSYS)
  else if negb (clockid =? CLOCK_REALTIME) && negb (clockid =? CLOCK_MONOTONIC) then (fds, - EINVAL)
  else
    let tfd := new_fd fds in
    let d := descriptor_setHandle (super timer_new) tfd in
    let d := if has_flag flags TFD_NONBLOCK then descriptor_addFlags d O_NONBLOCK else d in
    let d := if has_flag flags TFD_CLOEXEC then descriptor_addFlags d O_CLOEXEC else d in
    (<[tfd := FTimer (timer_new <| super := d |>)]> fds, tfd).

(** The result is the table, the tasks for the scheduler, the return value
    and what is written to the old-value pointer. *)
Definition syscallhandler_timerfd_settime (fds : Table) (now tfd flags newValuePtr oldValuePtr : Z)
    : option (Table * list task * Z * option itimerspec) :=
  if newValuePtr =? 0 then Some (fds, [], - EFAULT, None)
  else if negb (Z.ldiff flags (Z.lor TFD_TIMER_ABSTIME TFD_TIMER_CANCEL_ON_SET) =? 0)
       then Some (fds, [], - EINVAL, None)
  else
    let '(errcode, timer) := _syscallhandler_validateTimerHelper fds tfd in
    if errcode <? 0 then Some (fds, [], errcode, None) else
    match process_readPtr newValuePtr with
    | None => Some (fds, [], - EFAULT, None)
    | Some newValue =>
        let oldValue := negb (oldValuePtr =? 0) && writeable oldValuePtr in
        t ← timer;
        '(t, tasks, errcode, old) ← timer_setTime t now flags (Some newValue) oldValue;
        Some (<[tfd := FTimer t]> fds, tasks, if errcode <? 0 then errcode else 0, old)
    end.

Definition syscallhandler_timerfd_gettime (fds : Table) (now tfd currValuePtr : Z)
    : option (Z * option itimerspec) :=
  if currValuePtr =? 0 then Some (- EFAULT, None)
  else
    let '(errcode, timer) := _syscallhandler_validateTimerHelper fds tfd in
    if errcode <? 0 then Some (errcode, None) else
    t ← timer;
    '(errcode, v) ← timer_getTime (writeable currValuePtr) t now;
    Some (if errcode <? 0 then errcode else 0, v).

(** *** Proofs *)

(** Every timer of the table has the type and every other entry another. *)
Definition typed (fds : Table) : Prop :=
  map_Forall (λ _ f, match f with
                     | FTimer t => type (super t) = DT_TIMER
                     | FOther d => type d ≠ DT_TIMER
                     end) fds.

Definition open_timer (fds : Table) (tfd : Z) (t : Timer) : Prop :=
  0 ≤ tfd ∧ fds !! tfd = Some (FTimer t) ∧ has_flag (status (super t)) STATUS_DESCRIPTOR_CLOSED = false.

Lemma validate_open fds tfd t :
  typed fds → open_timer fds tfd t → _syscallhandler_validateTimerHelper fds tfd = (0, Some t).
Proof.
  intros Ht (H0 & Hl & Hc). unfold _syscallhandler_validateTimerHelper.
  rewrite (proj2 (Z.ltb_ge _ _)), Hl by done. cbn. unfold _syscallhandler_validateDescriptor.
  unfold descriptor_getStatus, descriptor_getType. rewrite Hc.
  specialize (Ht _ _ Hl). cbn in Ht. rewrite Ht. done.
Qed.

Lemma validate_bad fds tfd :
  typed fds → (∀ t, ¬ open_timer fds tfd t) →
  ∃ e o, _syscallhandler_validateTimerHelper fds tfd = (e, o) ∧ (e = - EBADF ∨ e = - EINVAL).
Proof.
  intros Ht Hn. unfold _syscallhandler_validateTimerHelper.
  destruct (Z.ltb_spec tfd 0); [do 2 eexists; split; [done|by left]|].
  do 2 eexists. split; [done|]. unfold _syscallhandler_validateDescriptor, descriptor_getStatus,
    descriptor_getType. destruct (fds !! tfd) as [f|] eqn:E; cbn; [|by left].
  destruct (has_flag _ _) eqn:Ec; [by left|]. right. pose proof (Ht _ _ E) as Hty. cbn in Hty.
  destruct f as [t|d]; cbn in *; [by destruct (Hn t)|]. by rewrite (bool_decide_true (type d ≠ _)).
Qed.

(** [timerfd_create] accepts exactly the two supported clocks and returns a
    disarmed, readable-on-expiry timer with the requested flags at the new
    number, from which the other two calls find it again. *)
Theorem timerfd_create_correct fds clockid fl :
  typed fds → 0 ≤ new_fd fds →
  let '(fds', r) := syscallhandler_timerfd_create fds clockid fl in
  (0 ≤ r ↔ clockid = CLOCK_REALTIME ∨ clockid = CLOCK_MONOTONIC) ∧
  (r < 0 → fds' = fds) ∧
  (0 ≤ r → typed fds' ∧ (∀ k, k ≠ r → fds' !! k = fds !! k) ∧
     ∃ t, open_timer fds' r t ∧ nextExpireTime t = 0 ∧ timer_getExpirationCount t = 0 ∧
       ∀ now p, p ≠ 0 → writeable p = true →
         syscallhandler_timerfd_gettime fds' now r p
           = Some (0, Some (mkItimerspec (mkTimespec 0 0) (mkTimespec 0 0)))).
Proof.
  intros Ht Hfd. unfold syscallhandler_timerfd_create.
  unfold CLOCK_REALTIME, CLOCK_MONOTONIC, CLOCK_BOOTTIME, CLOCK_REALTIME_ALARM, CLOCK_BOOTTIME_ALARM.
  destruct (_ || _) eqn:E1.
  { unfold ENOSYS. split; [|split; [done|lia]]. split; [lia|]. intros [-> | ->]; done. }
  destruct (_ && _) eqn:E2.
  { unfold EINVAL. split; [|split; [done|lia]]. split; [lia|]. intros [-> | ->]; done. }
  split_and!; [|lia|].
  { split; [|done]. intros _. apply andb_false_iff in E2 as [?|?]; rewrite negb_false_iff, Z.eqb_eq in *; auto. }
  intros _. set (d := if has_flag fl TFD_CLOEXEC then _ else _).
  assert (type d = DT_TIMER ∧ status d = STATUS_DESCRIPTOR_ACTIVE) as [Hd1 Hd2].
  { unfold d. by destruct (has_flag fl TFD_CLOEXEC), (has_flag fl TFD_NONBLOCK). }
  assert (Hty : typed (<[new_fd fds := FTimer (timer_new <| super := d |>)]> fds))
    by (apply map_Forall_insert_2; [exact Hd1|done]).
  assert (Hop : open_timer (<[new_fd fds := FTimer (timer_new <| super := d |>)]> fds) (new_fd fds)
                  (timer_new <| super := d |>)).
  { split_and!; [done|apply lookup_insert_eq|]. cbn. by rewrite Hd2. }
  split_and!; [done|intros k Hk; by apply lookup_insert_ne|].
  eexists. split_and!; [exact Hop|done|done|].
  intros now p Hp Hw. unfold syscallhandler_timerfd_gettime.
  rewrite (proj2 (Z.eqb_neq p 0)), (validate_open _ _ _ Hty Hop), Hw by done. reflexivity.
Qed.

(** On a number that is an open timer, [timerfd_settime] behaves as the
    timer's own operation with the value the process passed; a NULL value, bad
    flags, a number that is no open timer and an unreadable value are refused,
    in this order, and leave the whole table as it was. *)
Theorem timerfd_settime_correct fds now tfd flags np op :
  typed fds →
  (np = 0 → syscallhandler_timerfd_settime fds now tfd flags np op = Some (fds, [], - EFAULT, None)) ∧
  (np ≠ 0 → Z.ldiff flags 3 ≠ 0 →
     syscallhandler_timerfd_settime fds now tfd flags np op = Some (fds, [], - EINVAL, None)) ∧
  (np ≠ 0 → Z.ldiff flags 3 = 0 → (∀ t, ¬ open_timer fds tfd t) →
     ∃ e, syscallhandler_timerfd_settime fds now tfd flags np op = Some (fds, [], e, None) ∧
          (e = - EBADF ∨ e = - EINVAL)) ∧
  (∀ t, np ≠ 0 → Z.ldiff flags 3 = 0 → open_timer fds tfd t →
     match process_readPtr np with
     | None => syscallhandler_timerfd_settime fds now tfd flags np op = Some (fds, [], - EFAULT, None)
     | Some v =>
         ∀ t' tasks r o, timer_setTime t now flags (Some v) (negb (op =? 0) && writeable op)
                           = Some (t', tasks, r, o) →
           syscallhandler_timerfd_settime fds now tfd flags np op
             = Some (<[tfd := FTimer t']> fds, tasks, r, o) ∧ (r = 0 ∨ r = - EINVAL ∧ t' = t)
     end).
Proof.
  intros Ht. unfold syscallhandler_timerfd_settime.
  change (Z.lor TFD_TIMER_ABSTIME TFD_TIMER_CANCEL_ON_SET) with 3. split_and!.
  - by intros ->.
  - intros Hn Hf. by rewrite (proj2 (Z.eqb_neq np 0)), (proj2 (Z.eqb_neq _ 0)).
  - intros Hn Hf Hb. rewrite (proj2 (Z.eqb_neq np 0)), Hf by done. cbn [Z.eqb negb].
    destruct (validate_bad fds tfd Ht Hb) as (e & o & -> & He). exists e.
    destruct He as [-> | ->]; cbn; auto.
  - intros t Hn Hf Ho. rewrite (proj2 (Z.eqb_neq np 0)), Hf by done. cbn [Z.eqb negb].
    rewrite (validate_open fds tfd t Ht Ho). cbn [Z.ltb Z.compare].
    destruct (process_readPtr np) as [v|]; [|done]. intros t' tasks r o E. cbn [mbind option_bind].
    rewrite E. cbn [mbind option_bind].
    assert (r = 0 ∨ r = - EINVAL ∧ t' = t) as Hr.
    { rewrite setTime_unfold in E. destruct (_ || _); [right; by injection E as <- <- <- <-|left].
      destruct (if _ && _ then _ else _); [|done]. cbn [mbind option_bind] in E.
      destruct (if arms v then _ else _). by injection E. }
    split; [|done]. by destruct Hr as [-> | [-> ->]].
Qed.

End Calls.

(** A blocking call's timeout: setting a valid one makes it pending, not
    expired, and one callback is scheduled; setting none cancels it; a
    timeout in milliseconds is the same time as seconds and nanoseconds. *)
Theorem listen_timeout_correct s now sec nsec :
  base 0 (sys_timer s) now [] →
  0 ≤ sec < century → 0 ≤ nsec < SIMTIME_ONE_SECOND → 0 < sec + nsec →
  (∃ s' id delay, _syscallhandler_setListenTimeout s now (Some (mkTimespec sec nsec)) TIMEOUT_RELATIVE
             = Some (s', [(id, delay)]) ∧
     _syscallhandler_isListenTimeoutPending s' now = Some true ∧
     _syscallhandler_didListenTimeoutExpire s' = false ∧
     nextExpireTime (sys_timer s') = now + sec * SIMTIME_ONE_SECOND + nsec) ∧
  (∃ s', _syscallhandler_setListenTimeout s now None TIMEOUT_RELATIVE = Some (s', []) ∧
     _syscallhandler_isListenTimeoutPending s' now = Some false ∧
     _syscallhandler_didListenTimeoutExpire s' = false) ∧
  (∀ ms, 0 ≤ ms → let ts := utility_timespecFromMillis ms in
     tv_sec ts * SIMTIME_ONE_SECOND + tv_nsec ts = ms * SIMTIME_ONE_MILLISECOND ∧
     0 ≤ tv_nsec ts < SIMTIME_ONE_SECOND).
Proof.
  intros Hb Hs Hns Hpos. pose proof (base_now _ _ _ _ Hb) as Hnow. split_and!.
  - unfold _syscallhandler_setListenTimeout. cbv zeta. rewrite setTime_unfold. cbn [default].
    set (v := mkItimerspec _ _).
    assert (Hv : _timer_timeIsValid (it_value v) = true).
    { unfold _timer_timeIsValid, v. cbn. rewrite (proj2 (Z.ltb_ge _ _)), (proj2 (Z.leb_gt _ _)) by lia. done. }
    rewrite Hv. change (_timer_timeIsValid (it_interval v)) with true. cbn [negb orb andb Z.eqb mbind option_bind].
    assert (Ha : arms v = true).
    { unfold arms, v. cbn. apply orb_true_iff. rewrite !Z.ltb_lt. lia. }
    rewrite Ha.
    destruct (arm_unfold (reset (sys_timer s)) now v 0 Hnow) as (He & Hi & ->); try done.
    assert (Ee : expiry now 0 v = now + (sec * SIMTIME_ONE_SECOND + nsec)) by done.
    rewrite Ee in *. cbn [_timer_scheduleNewExpireEvent mbind option_bind Z.eqb negb].
    do 3 eexists. split; [done|].
    assert (0 < sec * SIMTIME_ONE_SECOND + nsec) by (unfold SIMTIME_ONE_SECOND in *; lia).
    split_and!; [|done|cbn; lia].
    unfold _syscallhandler_isListenTimeoutPending, timer_getTime, _timer_getCurrentTime. cbn.
    rewrite (proj2 (Z.eqb_neq _ 0)), (proj2 (Z.leb_le _ _)) by lia. cbn.
    replace (now + (sec * SIMTIME_ONE_SECOND + nsec) - now) with (nsec + sec * SIMTIME_ONE_SECOND) by lia.
    unfold century, SIMTIME_ONE_SECOND in *. rewrite u64_small, Z.div_add, Z.mod_add by lia.
    rewrite (Z.div_small nsec), (Z.mod_small nsec) by lia. f_equal.
    assert (Hi64 : ∀ z, 0 ≤ z < 2 ^ 63 → i64 z = z).
    { intros z Hz. unfold i64, swrap. rewrite Z.mod_small; lia. }
    rewrite !Hi64 by lia. apply orb_true_iff. rewrite !Z.ltb_lt. lia.
  - eexists. split; [done|]. by split.
  - intros ms Hms. unfold utility_timespecFromMillis. cbn.
    rewrite Z.quot_div_nonneg, Z.rem_mod_nonneg by lia.
    unfold SIMTIME_ONE_SECOND, SIMTIME_ONE_MILLISECOND.
    pose proof (Z.div_mod ms 1000 ltac:(lia)). pose proof (Z.mod_pos_bound ms 1000 ltac:(lia)). lia.
Qed.

(** ** Witnesses *)

Lemma timerfd_create_correct_witness :
  ∃ t, open_timer (syscallhandler_timerfd_create (λ _, 3) ∅ CLOCK_MONOTONIC TFD_NONBLOCK).1 3 t ∧
       nextExpireTime t = 0.
Proof.
  pose proof (timerfd_create_correct (λ _, 3) (λ _, true) ∅ CLOCK_MONOTONIC TFD_NONBLOCK
                (map_Forall_empty _) ltac:(done)) as H.
  destruct H as (_ & _ & H). destruct (H ltac:(done)) as (_ & _ & t & ? & ? & _). by exists t.
Defined.

Definition demo_fds : Table := {[ 3 := FTimer demo_timer ]}.

Lemma timerfd_settime_correct_witness :
  ∃ t' tasks, syscallhandler_timerfd_settime (λ _, Some every_1500ms) (λ _, true) demo_fds 9 3 0 64 0
    = Some (<[3 := FTimer t']> demo_fds, tasks, 0, None).
Proof.
  assert (Hty : typed demo_fds) by by apply map_Forall_singleton.
  destruct (timerfd_settime_correct (λ _, Some every_1500ms) (λ _, true) demo_fds 9 3 0 64 0 Hty)
    as (_ & _ & _ & H).
  assert (Ho : open_timer demo_fds 3 demo_timer) by by vm_compute.
  specialize (H demo_timer ltac:(done) ltac:(done) Ho). cbn beta iota in H.
  do 2 eexists. refine (proj1 (H _ _ _ _ _)). vm_compute. reflexivity.
Defined.

Lemma listen_timeout_correct_witness :
  ∃ s' id delay, _syscallhandler_setListenTimeout (mkSys timer_new (-1)) 7 (Some (mkTimespec 2 5))
                   TIMEOUT_RELATIVE = Some (s', [(id, delay)]) ∧
                 _syscallhandler_isListenTimeoutPending s' 7 = Some true.
Proof.
  destruct (listen_timeout_correct (mkSys timer_new (-1)) 7 2 5 demo_base) as [H _];
    [done|done|done|].
  destruct H as (s' & id & delay & ? & ? & _). by exists s', id, delay.
Defined.

End TimerFd.
