(* ===== verification/EventD.v ===== *)
(** * Event descriptors
    (src/phantom/src/main/host/descriptor/eventd.c, syscall/eventfd.c)

    An eventfd is a 64-bit counter that writes add to and reads take from,
    whose status bits say which of the two would block. *)

From S2P Require Import Prelude Descriptor Timer TimerFd.

Module EventD.
Import Desc.

(** ** Little-endian memory copies of a [uint64_t] *)

Fixpoint bytes_of (n : nat) (z : Z) : list Z :=
  match n with O => [] | S n => Z.land z 255 :: bytes_of n (Z.shiftr z 8) end.

Fixpoint of_bytes (l : list Z) : Z :=
  match l with [] => 0 | b :: l => b + 256 * of_bytes l end.

Definition uint64_bytes (z : Z) : list Z := bytes_of 8 z.
Definition uint64_of_bytes (l : list Z) : Z := of_bytes (take 8 l).

(** ** The descriptor *)

Record EventD := mkEventD {
  super : LegacyDescriptor;
  counter : Z;
  is_closed : bool;
  is_semaphore : bool;
}.

#[export] Instance eventd_eta : Eta EventD := fun e =>
  mkEventD (super e) (counter e) (is_closed e) (is_semaphore e).

Definition eventd_adjustStatus (e : EventD) (bits : Z) (doSetBits : bool) : EventD :=
  e <| super := set_status (super e) bits doSetBits |>.

(** The second result asks the caller to deregister the descriptor. *)
Definition _eventd_close (e : EventD) : EventD * bool :=
  let e := eventd_adjustStatus (e <| is_closed := true |>) STATUS_DESCRIPTOR_ACTIVE false in
  (e, 0 <? handle (super e)).

Definition _eventd_updateStatus (e : EventD) : EventD :=
  let e := eventd_adjustStatus e STATUS_DESCRIPTOR_READABLE (0 <? counter e) in
  eventd_adjustStatus e STATUS_DESCRIPTOR_WRITABLE (counter e <? u64 (UINT64_MAX - 1)).

Definition eventd_new (counter_init_val : Z) (is_semaphore : bool) : EventD :=
  let e := mkEventD (descriptor_init DT_EVENTD) counter_init_val false is_semaphore in
  _eventd_updateStatus (eventd_adjustStatus e STATUS_DESCRIPTOR_ACTIVE true).

(** The return value, and the bytes written to the buffer. *)
Definition eventd_read (e : EventD) (buflen : Z) : EventD * Z * list Z :=
  if buflen <? 8 then (e, - EINVAL, [])
  else if counter e =? 0 then (e, - EWOULDBLOCK, [])
  else
    let '(e, out) :=
      if is_semaphore e then (e <| counter := u64 (counter e - 1) |>, uint64_bytes 1)
      else (e <| counter := 0 |>, uint64_bytes (counter e)) in
    (_eventd_updateStatus e, 8, out).

Definition eventd_write (e : EventD) (buf : list Z) (buflen : Z) : EventD * Z :=
  if buflen <? 8 then (e, - EINVAL)
  else
    let value := uint64_of_bytes buf in
    if value =? UINT64_MAX then (e, - EINVAL)
    else
      let max_allowed := UINT64_MAX - 1 in
      if u64 (max_allowed - counter e) <? value then (e, - EWOULDBLOCK)
      else (_eventd_updateStatus (e <| counter := u64 (counter e + value) |>), 8).

(** ** System calls (eventfd.c) *)

Definition EFD_SEMAPHORE : Z := 1.
Definition EFD_NONBLOCK : Z := TimerFd.O_NONBLOCK.
Definition EFD_CLOEXEC : Z := TimerFd.O_CLOEXEC.

(** What a file descriptor refers to. *)
Inductive FD := FEvent (e : EventD) | FOther (d : LegacyDescriptor).

Definition fd_desc (f : FD) : LegacyDescriptor := match f with FEvent e => super e | FOther d => d end.

Definition _syscallhandler_validateEventFDHelper (fds : gmap Z FD) (efd : Z) : Z * option EventD :=
  if efd <? 0 then (- EBADF, None)
  else
    let desc := fds !! efd in
    (TimerFd._syscallhandler_validateDescriptor (fd_desc <$> desc) DT_EVENTD,
     match desc with Some (FEvent e) => Some e | _ => None end).

(** [new_fd] is the number the descriptor table gives out. *)
Definition _syscallhandler_eventfdHelper (new_fd : gmap Z FD → Z) (fds : gmap Z FD)
    (initval flags : Z) : gmap Z FD * Z :=
  if negb (Z.ldiff flags (Z.lor EFD_CLOEXEC (Z.lor EFD_NONBLOCK EFD_SEMAPHORE)) =? 0)
  then (fds, - EINVAL)
  else
    let e := eventd_new initval (has_flag flags EFD_SEMAPHORE) in
    let efd := new_fd fds in
    let d := descriptor_setHandle (super e) efd in
    let d := if has_flag flags EFD_NONBLOCK then descriptor_addFlags d TimerFd.O_NONBLOCK else d in
    let d := if has_flag flags EFD_CLOEXEC then descriptor_addFlags d TimerFd.O_CLOEXEC else d in
    (<[efd := FEvent (e <| super := d |>)]> fds, efd).

(** ** Traces of reads and writes *)

Inductive op := ORead (buflen : Z) | OWrite (buf : list Z) (buflen : Z) | OClose.

(** The descriptor, and the totals written and read so far. *)
Definition State : Type := EventD * Z * Z.

Definition exec (s : State) (o : op) : State :=
  let '(e, wr, rd) := s in
  match o with
  | ORead n => let '(e', r, out) := eventd_read e n in (e', wr, rd + (if r =? 8 then of_bytes out else 0))
  | OWrite buf n => let '(e', r) := eventd_write e buf n in
                    (e', wr + (if r =? 8 then uint64_of_bytes buf else 0), rd)
  | OClose => (fst (_eventd_close e), wr, rd)
  end.

(** *** Proofs *)

Lemma of_bytes_of n z : 0 ≤ z → of_bytes (bytes_of n z) = z `mod` 256 ^ Z.of_nat n.
Proof.
  revert z. induction n as [|n IH]; intros z Hz; [by rewrite Z.mod_1_r|].
  cbn [bytes_of of_bytes]. rewrite IH by by apply Z.shiftr_nonneg.
  rewrite Z.shiftr_div_pow2 by done. change 255 with (Z.ones 8). rewrite Z.land_ones by done.
  change (2 ^ 8) with 256. rewrite Nat2Z.inj_succ, Z.pow_succ_r by lia.
  rewrite Z.rem_mul_r by lia. lia.
Qed.

Lemma uint64_roundtrip z : 0 ≤ z < 2 ^ 64 → of_bytes (uint64_bytes z) = z.
Proof. intros Hz. unfold uint64_bytes. rewrite of_bytes_of by lia. by apply Z.mod_small. Qed.

(** A buffer of bytes holds a number in range. *)
Lemma uint64_of_bytes_range l : Forall (λ b, 0 ≤ b < 256) l → 0 ≤ uint64_of_bytes l < 2 ^ 64.
Proof.
  intros Hl. unfold uint64_of_bytes.
  assert (H : ∀ l, Forall (λ b, 0 ≤ b < 256) l → 0 ≤ of_bytes l < 256 ^ Z.of_nat (length l)).
  { clear. induction 1 as [|b l Hb _ IH]; [done|]. cbn [of_bytes length].
    rewrite Nat2Z.inj_succ, Z.pow_succ_r by lia. lia. }
  specialize (H (take 8 l) ltac:(by apply Forall_take)). rewrite length_take in H.
  assert (256 ^ Z.of_nat (8 `min` length l) ≤ 256 ^ 8) by (apply Z.pow_le_mono_r; lia). lia.
Qed.

(** The status bits say what would not block. *)
Definition status_ok (e : EventD) : Prop :=
  has_flag (status (super e)) STATUS_DESCRIPTOR_READABLE = (0 <? counter e) ∧
  has_flag (status (super e)) STATUS_DESCRIPTOR_WRITABLE = (counter e <? UINT64_MAX - 1).

Definition counter_ok (e : EventD) : Prop := 0 ≤ counter e ≤ UINT64_MAX - 1.

Lemma update_status_ok e : status_ok (_eventd_updateStatus e).
Proof.
  split; cbn -[adjusted has_flag Z.ltb].
  - change STATUS_DESCRIPTOR_WRITABLE with (2 ^ 2). change STATUS_DESCRIPTOR_READABLE with (2 ^ 1).
    by rewrite !has_flag_adjusted.
  - change STATUS_DESCRIPTOR_WRITABLE with (2 ^ 2). by rewrite has_flag_adjusted.
Qed.

(** Buffers hold bytes. *)
Definition bytes_ok (o : op) : Prop :=
  match o with OWrite b _ => Forall (λ x, 0 ≤ x < 256) b | _ => True end.

Lemma eventd_exec_ok e wr rd o :
  counter_ok e → status_ok e → bytes_ok o →
  let '(e', wr', rd') := exec (e, wr, rd) o in
  counter_ok e' ∧ status_ok e' ∧ counter e' + rd' - wr' = counter e + rd - wr ∧
  is_semaphore e' = is_semaphore e.
Proof.
  unfold counter_ok, UINT64_MAX. intros Hc Hs Hb. destruct o as [n|buf n|]; cbn [exec].
  - unfold eventd_read. destruct (n <? 8); [by rewrite (proj2 (Z.eqb_neq _ 8)), Z.add_0_r by done|].
    destruct (Z.eqb_spec (counter e) 0); [by rewrite (proj2 (Z.eqb_neq _ 8)), Z.add_0_r by done|].
    destruct (is_semaphore e) eqn:Es; cbn [Z.eqb Pos.eqb].
    + change (of_bytes (uint64_bytes 1)) with 1.
      split; [|split; [apply update_status_ok|]]; cbn; rewrite u64_small by lia; [lia|]. split; [lia|done].
    + split; [|split; [apply update_status_ok|]]; [cbn; lia|].
      rewrite uint64_roundtrip by lia. cbn. split; [lia|done].
  - pose proof (uint64_of_bytes_range buf Hb).
    unfold eventd_write. destruct (n <? 8); [by rewrite (proj2 (Z.eqb_neq _ 8)), Z.add_0_r by done|].
    unfold UINT64_MAX. destruct (Z.eqb_spec (uint64_of_bytes buf) (2 ^ 64 - 1));
      [by rewrite (proj2 (Z.eqb_neq _ 8)), Z.add_0_r by done|].
    rewrite u64_small by lia. destruct (Z.ltb_spec (2 ^ 64 - 1 - 1 - counter e) (uint64_of_bytes buf));
      [by rewrite (proj2 (Z.eqb_neq _ 8)), Z.add_0_r by done|].
    split; [|split; [apply update_status_ok|]]; cbn; rewrite u64_small by lia; [lia|]. split; [lia|done].
  - split; [done|]. split; [|split; [cbn; lia|done]]. destruct Hs as [H1 H2]. split; cbn -[clear_flags has_flag].
    + rewrite <-H1. by apply (has_flag_clear _ 0 1).
    + rewrite <-H2. by apply (has_flag_clear _ 0 2).
Qed.

(** *** Properties *)

(** Over any sequence of reads, writes and closes from a new eventfd: the
    counter never exceeds 2^64 - 2, nothing is lost or invented (what was
    written and not read is the counter), and the readable and writable bits
    say exactly whether a read, or a write of one, would succeed. *)
Theorem eventd_conservation init sem ops :
  0 ≤ init < 2 ^ 32 → Forall bytes_ok ops →
  let '(e, wr, rd) := foldl exec (eventd_new init sem, 0, 0) ops in
  counter e = init + wr - rd ∧ 0 ≤ counter e ≤ UINT64_MAX - 1 ∧
  (has_flag (status (super e)) STATUS_DESCRIPTOR_READABLE = true ↔ (eventd_read e 8).1.2 = 8) ∧
  (has_flag (status (super e)) STATUS_DESCRIPTOR_WRITABLE = true ↔
     (eventd_write e (uint64_bytes 1) 8).2 = 8).
Proof.
  intros Hi Hb.
  assert (H : ∀ ops s, Forall bytes_ok ops →
    counter_ok s.1.1 → status_ok s.1.1 → counter s.1.1 = init + s.1.2 - s.2 →
    let s' := foldl exec s ops in
    counter_ok s'.1.1 ∧ status_ok s'.1.1 ∧ counter s'.1.1 = init + s'.1.2 - s'.2).
  { clear ops Hb. induction ops as [|o ops IH]; intros [[e wr] rd] Hb Hc Hs E; [done|].
    apply Forall_cons in Hb as [Ho Hb].
    cbn [foldl]. pose proof (eventd_exec_ok e wr rd o Hc Hs Ho) as Hok.
    destruct (exec (e, wr, rd) o) as [[e' wr'] rd'] eqn:Ee. cbn in E.
    destruct Hok as (Hc' & Hs' & Ec & _). apply IH; cbn; [done|done|done|lia]. }
  specialize (H ops (eventd_new init sem, 0, 0) Hb).
  destruct (foldl exec _ ops) as [[e wr] rd]. cbn in H.
  destruct H as (Hc & [Hr Hw] & E); [split; cbn; unfold UINT64_MAX; lia|apply update_status_ok|lia|].
  unfold counter_ok, UINT64_MAX in *. split_and!; [done|lia|lia| |].
  - rewrite Hr. unfold eventd_read. cbn [Z.ltb Z.compare Pos.compare Pos.compare_cont].
    rewrite Z.ltb_lt. destruct (Z.eqb_spec (counter e) 0); [split; [lia|done]|].
    destruct (is_semaphore e); (split; [done|lia]).
  - rewrite Hw. unfold eventd_write. change (uint64_of_bytes (uint64_bytes 1)) with 1.
    cbn [Z.ltb Z.compare Pos.compare Pos.compare_cont]. change (1 =? UINT64_MAX) with false. cbn iota.
    unfold UINT64_MAX. rewrite Z.ltb_lt, u64_small by lia.
    destruct (Z.ltb_spec (2 ^ 64 - 1 - 1 - counter e) 1); (split; [lia || done|done || lia]).
Qed.

(** A semaphore read takes one, any other read takes everything and
    reports it exactly; reads of a zero counter and writes that would overflow
    would block, and short buffers and the maximal value are refused, all
    without a change. *)
Theorem eventd_read_write_correct e n buf :
  counter_ok e → Forall (λ x, 0 ≤ x < 256) buf →
  (n < 8 → eventd_read e n = (e, - EINVAL, []) ∧ eventd_write e buf n = (e, - EINVAL)) ∧
  (8 ≤ n → counter e = 0 → eventd_read e n = (e, - EWOULDBLOCK, [])) ∧
  (8 ≤ n → 0 < counter e → ∃ e' out, eventd_read e n = (e', 8, out) ∧ length out = 8%nat ∧
     of_bytes out = (if is_semaphore e then 1 else counter e) ∧ counter e' = counter e - of_bytes out) ∧
  (8 ≤ n → UINT64_MAX - 1 - counter e < uint64_of_bytes buf →
     eventd_write e buf n = (e, if uint64_of_bytes buf =? UINT64_MAX then - EINVAL else - EWOULDBLOCK)) ∧
  (8 ≤ n → uint64_of_bytes buf ≤ UINT64_MAX - 1 - counter e →
     ∃ e', eventd_write e buf n = (e', 8) ∧ counter e' = counter e + uint64_of_bytes buf).
Proof.
  unfold counter_ok, UINT64_MAX. intros Hc Hb. pose proof (uint64_of_bytes_range buf Hb).
  unfold eventd_read, eventd_write, UINT64_MAX. split_and!.
  - intros Hn. by rewrite (proj2 (Z.ltb_lt _ _)).
  - intros Hn ->. by rewrite (proj2 (Z.ltb_ge _ _)).
  - intros Hn Hp. rewrite (proj2 (Z.ltb_ge n 8)), (proj2 (Z.eqb_neq _ 0)) by lia.
    destruct (is_semaphore e); do 2 eexists; (split; [done|]); (split; [done|]).
    + split; [done|]. change (of_bytes (uint64_bytes 1)) with 1. cbn. rewrite u64_small; lia.
    + rewrite uint64_roundtrip by lia. split; [done|]. cbn. lia.
  - intros Hn Hlt. rewrite (proj2 (Z.ltb_ge n 8)) by done. destruct (_ =? _); [done|].
    rewrite u64_small, (proj2 (Z.ltb_lt _ _)) by lia. done.
  - intros Hn Hle. rewrite (proj2 (Z.ltb_ge n 8)), (proj2 (Z.eqb_neq _ (2 ^ 64 - 1))) by lia.
    rewrite u64_small, (proj2 (Z.ltb_ge _ _)) by lia. eexists. split; [done|]. cbn.
    rewrite u64_small; lia.
Qed.

(** ** Witnesses *)

Lemma eventd_conservation_witness :
  let '(e, wr, rd) := foldl exec (eventd_new 3 false, 0, 0) [OWrite (uint64_bytes 40) 8; ORead 8; OWrite (uint64_bytes 2) 8] in
  counter e = 3 + wr - rd ∧ wr = 42 ∧ rd = 43.
Proof.
  assert (Hb : Forall bytes_ok [OWrite (uint64_bytes 40) 8; ORead 8; OWrite (uint64_bytes 2) 8])
    by (repeat constructor; done).
  pose proof (eventd_conservation 3 false _ ltac:(done) Hb) as H.
  destruct (foldl _ _ _) as [[e wr] rd] eqn:E. destruct H as (H & _). split; [exact H|].
  vm_compute in E. by injection E as _ <- <-.
Defined.

Lemma eventd_read_write_correct_witness :
  ∃ e' out, eventd_read (eventd_new 7 true) 8 = (e', 8, out) ∧ of_bytes out = 1.
Proof.
  destruct (eventd_read_write_correct (eventd_new 7 true) 8 [1]) as (_ & _ & H & _).
  - split; by vm_compute.
  - by repeat constructor.
  - destruct H as (e' & out & ? & _ & ? & _); [done|done|]. by exists e', out.
Defined.

End EventD.
