(* ===== verification/ByteQueue.v ===== *)
(** * Byte queues
    (src/phantom/src/main/utility/byte_queue.rs)

    The buffer behind pipes and sockets: bytes are pushed into chunks of a
    fixed capacity at the front and popped from the chunk at the back.  The
    interface promises a queue of bytes; the chunked implementation refines it.
    Lengths are natural numbers: they are bounded by the memory in use. *)

From S2P Require Import Prelude.

Module BQ.
#[local] Arguments reverse : simpl never.

(** ** The interface *)

Record QueueOps (Q : Type) := mkOps {
  bytequeue_new : nat → Q;
  bytequeue_push : Q → list Z → option Q;
  bytequeue_pop : Q → nat → option (Q * list Z);
}.
Arguments mkOps {Q}. Arguments bytequeue_new {Q}. Arguments bytequeue_push {Q}.
Arguments bytequeue_pop {Q}.

Class QueueLaws {Q : Type} (ops : QueueOps Q) (contents : Q → list Z) (ok : Q → Prop) : Prop := {
  new_law cap : (0 < cap)%nat → ok (bytequeue_new ops cap) ∧ contents (bytequeue_new ops cap) = [];
  push_law q src : ok q →
    ∃ q', bytequeue_push ops q src = Some q' ∧ ok q' ∧ contents q' = contents q ++ src;
  pop_law q n : ok q →
    ∃ q', bytequeue_pop ops q n = Some (q', take n (contents q)) ∧ ok q' ∧
          contents q' = drop n (contents q);
}.

(** ** Chunks *)

(** [chunks] has the front, which is written, first. *)
Record ByteQueue := mkBQ {
  chunks : list (list Z);
  tail_read_offset : nat;
  bq_length : nat;
  chunk_capacity : nat;
}.

#[export] Instance bq_eta : Eta ByteQueue := fun q =>
  mkBQ (chunks q) (tail_read_offset q) (bq_length q) (chunk_capacity q).

Definition new (capacity : nat) : ByteQueue := mkBQ [] 0 0 capacity.
Definition len (q : ByteQueue) : nat := bq_length q.
Definition is_empty (q : ByteQueue) : bool := bool_decide (len q = 0%nat).

Definition create_new_head (q : ByteQueue) : ByteQueue :=
  let q := match chunks q with [] => q <| tail_read_offset := 0%nat |> | _ => q end in
  q <| chunks := [] :: chunks q |>.

Definition destroy_old_tail (q : ByteQueue) : ByteQueue :=
  q <| chunks := take (length (chunks q) - 1) (chunks q) |> <| tail_read_offset := 0%nat |>.

(** Subtraction on [usize] panics below zero. *)
Definition usize_sub (a b : nat) : option nat := if (b <=? a)%nat then Some (a - b)%nat else None.

Definition get_available_bytes_tail (q : ByteQueue) : option nat :=
  match chunks q with
  | [] => Some 0%nat
  | [c] => usize_sub (length c) (tail_read_offset q)
  | _ => usize_sub (chunk_capacity q) (tail_read_offset q)
  end.

(** The loop runs until the source is empty; [None] is a panic or the loss of
    all fuel. *)
Fixpoint push_loop (fuel : nat) (q : ByteQueue) (src : list Z) : option ByteQueue :=
  match fuel, chunks q with
  | O, _ | _, [] => None
  | S fuel, head :: rest =>
      head_space ← usize_sub (chunk_capacity q) (length head);
      if bool_decide (head_space = 0%nat) then push_loop fuel (create_new_head q) src
      else
        let written := take head_space src in
        let head := head ++ written in
        let q := q <| chunks := head :: rest |> <| bq_length := (bq_length q + length written)%nat |> in
        if bool_decide (length written = 0%nat) then
          Some (if bool_decide (length head = 0%nat) then q <| chunks := rest |> else q)
        else push_loop fuel q (drop head_space src)
  end.

(** Each round writes a byte or makes room for one. *)
Definition push (q : ByteQueue) (src : list Z) : option ByteQueue :=
  let q := if bool_decide (chunks q = []) then create_new_head q else q in
  push_loop (2 * length src + 3) q src.

(** [room] bytes of the destination are left. *)
Fixpoint pop_loop (fuel : nat) (q : ByteQueue) (room : nat) : option (ByteQueue * list Z) :=
  match fuel, last (chunks q) with
  | O, _ => None
  | _, None => Some (q, [])
  | S fuel, Some back =>
      before ← get_available_bytes_tail q;
      if bool_decide (before = 0%nat) then None
      else if (length back <? tail_read_offset q)%nat then None
      else
        let copied := take room (drop (tail_read_offset q) back) in
        if (bq_length q <? length copied)%nat then None else
        let q := q <| tail_read_offset := (tail_read_offset q + length copied)%nat |>
                   <| bq_length := (bq_length q - length copied)%nat |> in
        available ← get_available_bytes_tail q;
        let q := if bool_decide (available = 0%nat) then destroy_old_tail q else q in
        if bool_decide (length copied = 0%nat) then Some (q, copied)
        else '(q, more) ← pop_loop fuel q (room - length copied)%nat; Some (q, copied ++ more)
  end.

Definition pop (q : ByteQueue) (room : nat) : option (ByteQueue * list Z) :=
  pop_loop (room + 1) q room.

Definition chunked : QueueOps ByteQueue := mkOps new push pop.

(** ** Proofs *)

Definition contents (q : ByteQueue) : list Z :=
  drop (tail_read_offset q) (concat (reverse (chunks q))).

(** All chunks but the front one are full, and the offset lies in the back one. *)
Definition shaped (q : ByteQueue) : Prop :=
  (0 < chunk_capacity q)%nat ∧ bq_length q = length (contents q) ∧
  match chunks q with
  | [] => True
  | head :: rest =>
      (length head ≤ chunk_capacity q)%nat ∧
      Forall (λ c, length c = chunk_capacity q) rest ∧
      match rest with
      | [] => (tail_read_offset q ≤ length head)%nat
      | _ => (tail_read_offset q < chunk_capacity q)%nat
      end
  end.

(** Between operations the chunk at the back has bytes to read. *)
Definition ok (q : ByteQueue) : Prop :=
  shaped q ∧
  match chunks q with
  | [] => True
  | head :: rest => (0 < length head)%nat ∧ (rest = [] → tail_read_offset q < length head)%nat
  end.

Lemma concat_full (cap : nat) (l : list (list Z)) :
  Forall (λ c, length c = cap) l → length (concat l) = (cap * length l)%nat.
Proof. induction 1 as [|c l Hc _ IH]; [simpl; lia|]. simpl. rewrite length_app. lia. Qed.

(** The offset never passes the bytes of the full chunks. *)
Lemma offset_le q head rest :
  shaped q → chunks q = head :: rest →
  (tail_read_offset q ≤ length (concat (reverse rest)) + length head)%nat ∧
  (rest ≠ [] → tail_read_offset q < length (concat (reverse rest)))%nat.
Proof.
  intros (Hc & _ & Hs) E. rewrite E in Hs. destruct Hs as (Hh & Hr & Ho).
  rewrite (concat_full (chunk_capacity q)), length_reverse by by apply Forall_reverse.
  destruct rest as [|c rest]; [cbn [length] in *; split; [nia|done]|].
  cbn [length]. split; nia.
Qed.

Lemma concat_reverse_cons (head : list Z) rest :
  concat (reverse (head :: rest)) = concat (reverse rest) ++ head.
Proof. rewrite reverse_cons, concat_app. simpl. by rewrite app_nil_r. Qed.

Lemma usize_sub_le a b : (b ≤ a)%nat → usize_sub a b = Some (a - b)%nat.
Proof. intros. unfold usize_sub. by rewrite (proj2 (Nat.leb_le b a)). Qed.

Lemma create_new_head_shaped q :
  shaped q → (∀ head rest, chunks q = head :: rest →
              length head = chunk_capacity q ∧ (rest = [] → tail_read_offset q < length head)%nat) →
  shaped (create_new_head q) ∧ contents (create_new_head q) = contents q ∧
  (∃ rest, chunks (create_new_head q) = [] :: rest) ∧
  chunk_capacity (create_new_head q) = chunk_capacity q.
Proof.
  unfold shaped, create_new_head, contents. destruct q as [[|head rest] off n cap]; cbn.
  - intros (Hc & Hn & _) _. change (concat (reverse [[]])) with (@nil Z).
    change (concat (reverse [])) with (@nil Z) in *. rewrite drop_nil in *.
    split_and!; try done; [lia|by rewrite drop_nil|by eexists].
  - intros (Hc & Hn & Hh & Hr & Ho) Hf. destruct (Hf _ _ eq_refl) as [Hl Hoff].
    rewrite (concat_reverse_cons []), app_nil_r.
    split_and!; [lia|done|lia|by constructor| |done|by eexists|done].
    destruct rest; [specialize (Hoff eq_refl); lia|done].
Qed.

Lemma write_shaped q head rest w :
  shaped q → chunks q = head :: rest → (length head + length w ≤ chunk_capacity q)%nat →
  let q' := q <| chunks := (head ++ w) :: rest |> <| bq_length := (bq_length q + length w)%nat |> in
  shaped q' ∧ contents q' = contents q ++ w.
Proof.
  intros Hs E Hle q'. pose proof (offset_le q head rest Hs E) as [Ho1 Ho2].
  assert (Hc : contents q' = contents q ++ w).
  { unfold contents, q'. cbn. rewrite E, !concat_reverse_cons, app_assoc, drop_app_le; [done|].
    rewrite length_app. lia. }
  destruct Hs as (Hcap & Hn & Hs). rewrite E in Hs. destruct Hs as (Hh & Hr & Ho).
  split; [|done]. unfold shaped. rewrite Hc. unfold q'. cbn. rewrite !length_app.
  split_and!; [done|lia|lia|done|]. destruct rest; lia.
Qed.

(** Within a push the front chunk may still be empty. *)
Definition pushing (q : ByteQueue) (head : list Z) (rest : list (list Z)) : Prop :=
  shaped q ∧ chunks q = head :: rest ∧
  (rest = [] → tail_read_offset q < length head ∨ tail_read_offset q = 0)%nat.

Lemma push_done q head rest :
  pushing q head rest →
  let q' := if bool_decide (length head = 0%nat) then q <| chunks := rest |> else q in
  ok q' ∧ contents q' = contents q.
Proof.
  intros ((Hc & Hn & Hs) & E & Ho). rewrite E in Hs. destruct Hs as (Hh & Hr & Hoff).
  case_bool_decide as Hl.
  - apply length_zero_iff_nil in Hl as ->. cbn zeta.
    assert (Hcont : contents (q <| chunks := rest |>) = contents q).
    { unfold contents. cbn. by rewrite E, concat_reverse_cons, app_nil_r. }
    split; [|done]. unfold ok, shaped. rewrite Hcont. cbn.
    destruct rest as [|c rest]; [done|]. apply Forall_cons in Hr as [Hc1 Hr].
    split_and!; [done|done|lia|done|destruct rest; lia|lia|intros ->; lia].
  - split; [|done]. unfold ok, shaped. rewrite E. split_and!; try done; [lia|].
    intros Hnil. destruct (Ho Hnil); lia.
Qed.

Lemma push_loop_ok fuel q head rest src :
  pushing q head rest →
  (2 * length src + (if bool_decide (length head = chunk_capacity q) then 2 else 1) ≤ fuel)%nat →
  ∃ q', push_loop fuel q src = Some q' ∧ ok q' ∧ contents q' = contents q ++ src.
Proof.
  revert q head rest src. induction fuel as [|fuel IH]; intros q head rest src Hp Hf;
    [case_bool_decide; lia|]. destruct Hp as (Hs & E & Ho). pose proof Hs as (Hc & _ & Hsh).
  rewrite E in Hsh. destruct Hsh as (Hh & Hr & Hoff). cbn [push_loop]. rewrite E.
  rewrite usize_sub_le by done. cbn [mbind option_bind].
  destruct (decide (length head = chunk_capacity q)) as [Efull|Efull].
  - rewrite bool_decide_true in Hf by done. rewrite bool_decide_true by lia.
    destruct (create_new_head_shaped q) as (Hs' & Hc' & [rest' E'] & Ecap); [done| |].
    { intros h r Ehr. rewrite E in Ehr. injection Ehr as <- <-. split; [done|].
      intros ->. destruct (Ho eq_refl); lia. }
    destruct (IH (create_new_head q) [] rest' src) as (q' & -> & Hok & Hcont).
    + split_and!; [done|done|]. intros ->. right. destruct Hs' as (_ & _ & Hs').
      rewrite E' in Hs'. destruct Hs' as (_ & _ & Hs'). by apply Nat.le_0_r in Hs'.
    + rewrite Ecap. cbn [length]. rewrite bool_decide_false by lia. lia.
    + exists q'. by rewrite Hcont, Hc'.
  - rewrite bool_decide_false in Hf by done. rewrite bool_decide_false by lia. cbv zeta.
    set (w := take _ src). assert (Hw : length w = min (chunk_capacity q - length head) (length src))
      by apply length_take.
    destruct (write_shaped q head rest w Hs E ltac:(lia)) as [Hs' Hc'].
    set (q1 := _ <| bq_length := _ |>) in *.
    assert (Hp1 : pushing q1 (head ++ w) rest).
    { split_and!; [done|done|]. intros ->. unfold q1. cbn. rewrite length_app. destruct (Ho eq_refl); lia. }
    case_bool_decide as Hz.
    + destruct (push_done q1 (head ++ w) rest Hp1) as [Hok Hcont]. eexists. split; [done|].
      split; [exact Hok|]. rewrite Hcont, Hc'. f_equal. unfold w.
      destruct src; [by rewrite take_nil|]. cbn in *. lia.
    + destruct (IH q1 (head ++ w) rest (drop (chunk_capacity q - length head) src) Hp1)
        as (q' & -> & Hok & Hcont).
      { rewrite length_drop. case_bool_decide; lia. }
      exists q'. split_and!; [done|done|]. rewrite Hcont, Hc', <-app_assoc. f_equal. apply take_drop.
Qed.

Lemma push_ok q src : ok q → ∃ q', push q src = Some q' ∧ ok q' ∧ contents q' = contents q ++ src.
Proof.
  intros [Hs Hok]. unfold push. case_bool_decide as E.
  - destruct (create_new_head_shaped q Hs) as (Hs' & <- & [rest Er] & Ec); [by rewrite E|].
    apply (push_loop_ok _ _ [] rest).
    + split_and!; [done|done|]. intros ->. right. destruct Hs' as (_ & _ & Hs'). rewrite Er in Hs'.
      destruct Hs' as (_ & _ & Hs'). by apply Nat.le_0_r in Hs'.
    + case_bool_decide; lia.
  - destruct (chunks q) as [|head rest] eqn:Eq; [done|].
    apply (push_loop_ok _ _ head rest); [|case_bool_decide; lia].
    split_and!; [done|done|]. intros Hr. left. by apply Hok.
Qed.

(** The back chunk of a well-formed queue. *)
Lemma back_chunk q front back :
  ok q → chunks q = front ++ [back] →
  (tail_read_offset q < length back)%nat ∧
  (front ≠ [] → length back = chunk_capacity q) ∧
  (∀ off, (off ≤ length back)%nat →
     get_available_bytes_tail (q <| tail_read_offset := off |>) = Some (length back - off)%nat) ∧
  contents q = drop (tail_read_offset q) back ++ concat (reverse front).
Proof.
  intros [(Hc & Hn & Hs) Hok] E. rewrite E in Hs, Hok.
  assert (Hb : (tail_read_offset q < length back)%nat ∧ (front ≠ [] → length back = chunk_capacity q)).
  { destruct front as [|h front]; cbn in Hs, Hok.
    - split; [by apply (proj2 Hok)|done].
    - destruct Hs as (_ & Hr & Ho). apply Forall_app in Hr as [_ Hr]. apply Forall_inv in Hr.
      split; [|intros _; exact Hr]. destruct (front ++ [back]) eqn:En; [by destruct front|]. cbn in Hr; lia. }
  destruct Hb as [Hb Hfull]. split_and!; [done|done| |].
  - intros off Hoff. unfold get_available_bytes_tail. cbn. rewrite E.
    destruct front as [|h front]; [by apply usize_sub_le|]. cbn.
    destruct (front ++ [back]) eqn:En; [by destruct front|]. rewrite <-Hfull by done.
    by apply usize_sub_le.
  - unfold contents. rewrite E, reverse_snoc. cbn. rewrite drop_app_le by lia. done.
Qed.

Lemma pop_step q front back k :
  ok q → chunks q = front ++ [back] → (k ≤ length back - tail_read_offset q)%nat →
  let q1 := q <| tail_read_offset := (tail_read_offset q + k)%nat |>
              <| bq_length := (bq_length q - k)%nat |> in
  let q2 := if bool_decide (length back - (tail_read_offset q + k) = 0)%nat
            then destroy_old_tail q1 else q1 in
  ok q2 ∧ contents q2 = drop k (contents q).
Proof.
  intros Hok E Hk q1 q2. pose proof (back_chunk q front back Hok E) as (Hb & Hfull & _ & Hcont).
  pose proof Hok as [(Hc & Hn & Hs) Hh]. rewrite E in Hs, Hh.
  assert (Hlen : length (contents q) = (length back - tail_read_offset q + length (concat (reverse front)))%nat)
    by by rewrite Hcont, length_app, length_drop.
  assert (Hq2 : contents q2 = drop k (contents q)).
  { unfold q2. case_bool_decide as Hz.
    - assert (k = length (drop (tail_read_offset q) back)) as Ek by (rewrite length_drop; lia).
      rewrite Hcont, Ek, drop_app_length. unfold contents, q1. cbn.
      by rewrite E, length_app, Nat.add_sub, take_app_length.
    - unfold contents, q1. cbn. by rewrite drop_drop. }
  split; [|done]. unfold ok, shaped. rewrite Hq2, length_drop.
  unfold q2. case_bool_decide as Hz; unfold q1; cbn; rewrite E.
  - rewrite length_app, Nat.add_sub, take_app_length.
    destruct front as [|h front]; cbn in *; [split_and!; [done|lia|done|done]|].
    destruct Hs as (Hh1 & Hr & Ho), Hh as [Hpos _]. apply Forall_app in Hr as [Hr _].
    split_and!; [done|lia|done|done|destruct front; lia|done|done].
  - destruct front as [|h front]; cbn in *.
    + destruct Hs as (Hh1 & _ & _), Hh as [Hpos _]. split_and!; [done|lia|done|constructor|lia|done|lia].
    + specialize (Hfull ltac:(done)). destruct Hs as (Hh1 & Hr & Ho), Hh as [Hpos _].
      destruct (front ++ [back]) eqn:En; [by destruct front|].
      split_and!; [done|lia|done|done|lia|done|done].
Qed.

Lemma chunk_pop_loop_ok fuel q room :
  ok q → (room + 1 ≤ fuel)%nat →
  ∃ q', pop_loop fuel q room = Some (q', take room (contents q)) ∧ ok q' ∧
        contents q' = drop room (contents q).
Proof.
  revert q room. induction fuel as [|fuel IH]; intros q room Hok Hf; [lia|]. cbn [pop_loop].
  destruct (chunks q) as [|back front _] eqn:E using rev_ind.
  { cbn. exists q. unfold contents. rewrite E. change (concat (reverse [])) with (@nil Z). by rewrite !drop_nil, take_nil. }
  rewrite last_snoc. pose proof (back_chunk q front back Hok E) as (Hb & Hfull & Hav & Hcont).
  assert (Hself : q <| tail_read_offset := tail_read_offset q |> = q) by by destruct q.
  pose proof (Hav (tail_read_offset q) ltac:(lia)) as Hav0. rewrite Hself in Hav0.
  rewrite Hav0. cbn [mbind option_bind].
  rewrite bool_decide_false by lia. rewrite (proj2 (Nat.ltb_ge _ _)) by lia. cbv zeta.
  set (copied := take room _).
  assert (Hcl : length copied = min room (length back - tail_read_offset q))
    by (unfold copied; by rewrite length_take, length_drop).
  assert (Hlen : (length copied ≤ bq_length q)%nat).
  { destruct Hok as [(_ & -> & _) _]. rewrite Hcont, length_app, length_drop. lia. }
  rewrite (proj2 (Nat.ltb_ge _ _) Hlen).
  assert (Hav1 : get_available_bytes_tail
      (q <| tail_read_offset := (tail_read_offset q + length copied)%nat |>
         <| bq_length := (bq_length q - length copied)%nat |>)
    = Some (length back - (tail_read_offset q + length copied))%nat)
    by exact (Hav (tail_read_offset q + length copied)%nat ltac:(lia)).
  rewrite Hav1. cbn [mbind option_bind].
  pose proof (pop_step q front back (length copied) Hok E ltac:(lia)) as [Hok2 Hc2].
  set (q2 := if bool_decide _ then _ else _) in *.
  case_bool_decide as Hz.
  - assert (room = 0%nat) as -> by lia. exists q2. split_and!; [|done|].
    + done.
    + by rewrite Hc2, Hz.
  - destruct (IH q2 (room - length copied)%nat Hok2 ltac:(lia)) as (q' & -> & Hok' & Hc').
    exists q'. cbn. rewrite Hc2 in *.
    assert (Hcop : copied = take (length copied) (contents q)).
    { rewrite Hcont, take_app_le by (rewrite length_drop; lia). unfold copied at 1.
      rewrite Hcl. destruct (Nat.min_spec room (length back - tail_read_offset q)) as [[_ ->]|[? ->]]; [done|].
      by rewrite !take_ge by (rewrite length_drop; lia). }
    split_and!; [|done|].
    + do 2 f_equal. rewrite Hcop at 1. rewrite take_take_drop. f_equal. lia.
    + rewrite Hc', drop_drop. f_equal. lia.
Qed.

(** The chunked buffer keeps the promise of the interface. *)
#[export] Instance chunked_laws : QueueLaws chunked contents ok.
Proof.
  split.
  - intros cap Hcap. split; [|done]. by repeat split.
  - apply push_ok.
  - intros q n Hok. by apply chunk_pop_loop_ok.
Qed.

(** *** Property *)

(** What a sequence of pushes and pops returns. *)
Inductive op := Push (src : list Z) | Pop (room : nat).

Definition run_op {Q} (ops : QueueOps Q) (s : option (Q * list (list Z))) (o : op)
    : option (Q * list (list Z)) :=
  '(q, outs) ← s;
  match o with
  | Push src => q ← bytequeue_push ops q src; Some (q, outs)
  | Pop n => '(q, out) ← bytequeue_pop ops q n; Some (q, outs ++ [out])
  end.

(** The specification: one list of bytes. *)
Definition spec : QueueOps (list Z) :=
  mkOps (λ _, []) (λ q src, Some (q ++ src)) (λ q n, Some (drop n q, take n q)).

(** C40: for any positive chunk capacity and any sequence of pushes and pops,
    the chunked queue never panics and every pop returns exactly what a plain
    list of bytes would. *)
Theorem bytequeue_refines_list cap ops :
  (0 < cap)%nat →
  snd <$> foldl (run_op chunked) (Some (new cap, [])) ops =
  snd <$> foldl (run_op spec) (Some ([], [])) ops ∧
  is_Some (foldl (run_op chunked) (Some (new cap, [])) ops).
Proof.
  intros Hcap. destruct (new_law cap Hcap) as [Hok Hc]. change (bytequeue_new chunked cap) with (new cap) in *.
  assert (H : ∀ q outs, ok q →
    ∃ q' outs', foldl (run_op chunked) (Some (q, outs)) ops = Some (q', outs') ∧
      foldl (run_op spec) (Some (contents q, outs)) ops = Some (contents q', outs')).
  { clear. induction ops as [|o ops IH]; intros q outs Hok; [by do 2 eexists|]. destruct o as [src|n].
    - destruct (push_law q src Hok) as (q1 & Eq & Hok1 & Hc). cbn in *. rewrite Eq. cbn. rewrite <-Hc.
      by apply IH.
    - destruct (pop_law q n Hok) as (q1 & Eq & Hok1 & Hc). cbn in *. rewrite Eq. cbn. rewrite <-Hc.
      by apply IH. }
  destruct (H (new cap) [] Hok) as (q' & outs & E1 & E2). rewrite Hc in E2. rewrite E1, E2.
  split; [done|by eexists].
Qed.

(** ** Witness *)

Lemma bytequeue_refines_list_witness :
  snd <$> foldl (run_op chunked) (Some (new 2, [])) [Push [1; 2; 3]; Pop 1; Push [4]; Pop 9]
  = Some [[1]; [2; 3; 4]].
Proof.
  destruct (bytequeue_refines_list 2 [Push [1; 2; 3]; Pop 1; Push [4]; Pop 9] ltac:(lia)) as [-> _].
  reflexivity.
Defined.

End BQ.
