(* ===== verification/Channel.v ===== *)
(** * Channels: pipes and pairs of unix sockets
    (src/phantom/src/main/host/descriptor/channel.c, and the calls that create
    them in syscall/unistd.c and syscall/socket.c)

    Two linked channels hold a reference to each other; a write goes into the
    buffer of the other end.  Channels live in a store by address and are
    removed from it when the last reference is dropped, so that a use after
    that is a failure.  The buffer is any implementation of the byte queue
    interface. *)

From S2P Require Import Prelude Descriptor Timer TimerFd ByteQueue.

Module Channel.
Import Desc.

Definition CONFIG_PIPE_BUFFER_SIZE : Z := 65536.
Definition ENOTSUP : Z := 95.
Definition EOPNOTSUPP : Z := 95.
Definition EPROTONOSUPPORT : Z := 93.
Definition AF_UNIX : Z := 1.
Definition SOCK_STREAM : Z := 1.
Definition SOCK_DGRAM : Z := 2.
Definition SOCK_NONBLOCK : Z := TimerFd.O_NONBLOCK.
Definition SOCK_CLOEXEC : Z := TimerFd.O_CLOEXEC.
Definition O_DIRECT : Z := 16384.

Inductive ChannelType := CT_NONE | CT_READONLY | CT_WRITEONLY.

#[export] Instance ChannelType_eq_dec : EqDecision ChannelType.
Proof. solve_decision. Defined.

Definition ct_value (t : ChannelType) : Z :=
  match t with CT_NONE => 0 | CT_READONLY => 1 | CT_WRITEONLY => 2 end.

(** [linkedChannel] is the address of the other end; [None] is [NULL]. *)
Record Channel (Q : Type) := mkChannel {
  super : LegacyDescriptor;
  type : ChannelType;
  linkedChannel : option Z;
  buffer : Q;
  bufferSize : Z;
  bufferLength : Z;
}.
Arguments mkChannel {Q}. Arguments super {Q}. Arguments type {Q}. Arguments linkedChannel {Q}.
Arguments buffer {Q}. Arguments bufferSize {Q}. Arguments bufferLength {Q}.

#[export] Instance channel_eta {Q} : Eta (Channel Q) := fun c =>
  mkChannel (super c) (type c) (linkedChannel c) (buffer c) (bufferSize c) (bufferLength c).

Abbreviation Store Q := (gmap Z (Channel Q)).

Section Channels.
Context {Q : Type} (bq : BQ.QueueOps Q).

(** Writes through a pointer that is not dangling. *)
Definition upd (st : (Store Q)) (a : Z) (f : Channel Q → Channel Q) : option (Store Q) :=
  c ← st !! a; Some (<[a := f c]> st).

Definition adjustStatus (bits : Z) (doSetBits : bool) (c : Channel Q) : Channel Q :=
  c <| super := set_status (super c) bits doSetBits |>.

(** [descriptor_unref], with [channel_free] at zero. *)
Definition unref (st : (Store Q)) (a : Z) : option (Store Q) :=
  c ← st !! a;
  '(d, gone) ← descriptor_unref (super c);
  Some (if (gone : bool) then delete a st else <[a := c <| super := d |>]> st).

Definition ref (st : (Store Q)) (a : Z) : option (Store Q) :=
  upd st a (λ c, c <| super := descriptor_ref (super c) |>).

Definition channel_new (type : ChannelType) (dtype : LegacyDescriptorType) : Channel Q :=
  let c := mkChannel (descriptor_init dtype) type None (BQ.bytequeue_new bq (Z.to_nat 8192))
             CONFIG_PIPE_BUFFER_SIZE 0 in
  let c := adjustStatus STATUS_DESCRIPTOR_ACTIVE true c in
  if negb (has_flag (ct_value type) (ct_value CT_READONLY))
  then adjustStatus STATUS_DESCRIPTOR_WRITABLE true c else c.

Definition channel_setLinkedChannel (st : (Store Q)) (a : Z) (linked : option Z) : option (Store Q) :=
  c ← st !! a;
  st ← (match linkedChannel c with
        | Some b => st ← unref st b; upd st a (λ c, c <| linkedChannel := None |>)
        | None => Some st
        end);
  match linked with
  | Some b => st ← upd st a (λ c, c <| linkedChannel := Some b |>); ref st b
  | None => Some st
  end.

Definition channel_getLinkedChannel (st : (Store Q)) (a : Z) : option (option Z) :=
  c ← st !! a; Some (linkedChannel c).

(** Every access goes through the store again: the first unref may have freed
    the channel itself. *)
Definition channel_close (st : (Store Q)) (a : Z) : option (Store Q) :=
  c ← st !! a;
  match linkedChannel c with
  | None => Some st
  | Some b =>
      l ← st !! b;
      st ← (if bool_decide (linkedChannel l = Some a)
            then st ← unref st a; upd st b (λ l, l <| linkedChannel := None |>)
            else Some st);
      c ← st !! a;
      b ← linkedChannel c;
      st ← unref st b;
      upd st a (λ c, c <| linkedChannel := None |>)
  end.

(** [readablePtr n] are the [n] bytes at the caller's buffer, when readable. *)
Definition channel_linkedWrite (st : (Store Q)) (a : Z) (readablePtr : Z → option (list Z)) (nBytes : Z)
    : option ((Store Q) * Z) :=
  c ← st !! a;
  if has_flag (ct_value (type c)) (ct_value CT_WRITEONLY) then None
  else
    let available := u64 (bufferSize c - bufferLength c) in
    if available =? 0 then Some (st, - EWOULDBLOCK)
    else
      let copyLength := Z.min nBytes available in
      match readablePtr copyLength with
      | None => Some (st, - EFAULT)
      | Some bytes =>
          buf ← BQ.bytequeue_push bq (buffer c) bytes;
          let c := c <| buffer := buf |> <| bufferLength := u64 (bufferLength c + copyLength) |> in
          Some (<[a := adjustStatus STATUS_DESCRIPTOR_READABLE true c]> st, copyLength)
      end.

Definition channel_sendUserData (st : (Store Q)) (a : Z) (readablePtr : Z → option (list Z)) (nBytes : Z)
    : option ((Store Q) * Z) :=
  c ← st !! a;
  if bool_decide (type c = CT_READONLY) then None
  else if nBytes =? 0 then Some (st, 0)
  else
    '(st, result) ← (match linkedChannel c with
                     | Some b => channel_linkedWrite st b readablePtr nBytes
                     | None => Some (st, - EPIPE)
                     end);
    st ← (if result <=? 0 then upd st a (adjustStatus STATUS_DESCRIPTOR_WRITABLE false) else Some st);
    Some (st, result).

(** The bytes are those written to the caller's buffer. *)
Definition channel_receiveUserData (st : (Store Q)) (a : Z) (writeablePtr : Z → bool) (nBytes : Z)
    : option ((Store Q) * Z * list Z) :=
  c ← st !! a;
  if bool_decide (type c = CT_WRITEONLY) then None
  else if nBytes =? 0 then Some (st, 0, [])
  else
    let available := bufferLength c in
    if available =? 0 then
      Some (st, if bool_decide (linkedChannel c = None) then 0 else - EWOULDBLOCK, [])
    else
      let copyLength := Z.min nBytes available in
      if negb (writeablePtr copyLength) then Some (st, - EFAULT, [])
      else
        '(buf, bytes) ← BQ.bytequeue_pop bq (buffer c) (Z.to_nat copyLength);
        let numCopied := Z.of_nat (length bytes) in
        let c := c <| buffer := buf |> <| bufferLength := u64 (bufferLength c - numCopied) |> in
        let c := if bufferLength c <=? 0 then adjustStatus STATUS_DESCRIPTOR_READABLE false c else c in
        Some (<[a := c]> st, numCopied, bytes).

(** ** Registration and closing (process.c, descriptor.c)

    The process's table owns one reference; its numbers come from outside. *)

Definition process_registerLegacyDescriptor (st : (Store Q)) (proc handle a : Z) : option (Store Q) :=
  upd st a (λ c, c <| super := descriptor_setHandle (descriptor_setOwnerProcess (super c) proc) handle |>).

Definition process_deregisterLegacyDescriptor (st : (Store Q)) (a : Z) : option (Store Q) :=
  st ← upd st a (λ c, c <| super := descriptor_setOwnerProcess (descriptor_setHandle (super c) 0) 0 |>);
  unref st a.

Definition descriptor_close (st : (Store Q)) (a : Z) : option (Store Q) :=
  st ← upd st a (adjustStatus STATUS_DESCRIPTOR_CLOSED true);
  st ← channel_close st a;
  c ← st !! a;
  if negb (ownerProcess (super c) =? 0) then process_deregisterLegacyDescriptor st a else Some st.

(** ** The calls that create a pair

    [a] and [b] are the addresses of the two allocations. *)

Definition add_flags (fl : Z) (c : Channel Q) : Channel Q :=
  c <| super := descriptor_addFlags (super c) fl |>.

Definition create_pair (st : (Store Q)) (a b : Z) (ta tb : ChannelType) (dtype : LegacyDescriptorType)
    (nonblock cloexec : bool) : option (Store Q) :=
  let st := <[a := channel_new ta dtype]> st in
  let st := <[b := channel_new tb dtype]> st in
  st ← channel_setLinkedChannel st a (Some b);
  st ← channel_setLinkedChannel st b (Some a);
  st ← (if nonblock then st ← upd st a (add_flags TimerFd.O_NONBLOCK); upd st b (add_flags TimerFd.O_NONBLOCK)
        else Some st);
  if cloexec then st ← upd st a (add_flags TimerFd.O_CLOEXEC); upd st b (add_flags TimerFd.O_CLOEXEC)
  else Some st.

(** Writing the numbers through a pointer the process cannot write crashes. *)
Definition register_pair (st : (Store Q)) (proc a b fdA fdB : Z) (writeable : bool) : option (Store Q) :=
  if writeable then
    st ← process_registerLegacyDescriptor st proc fdA a;
    process_registerLegacyDescriptor st proc fdB b
  else None.

Definition _syscallhandler_pipeHelper (st : (Store Q)) (proc a b fdA fdB pipefdPtr : Z) (writeable : bool)
    (flags : Z) : option ((Store Q) * Z) :=
  if has_flag flags O_DIRECT then Some (st, - ENOTSUP)
  else if pipefdPtr =? 0 then Some (st, - EFAULT)
  else
    st ← create_pair st a b CT_READONLY CT_WRITEONLY DT_PIPE
           (has_flag flags TimerFd.O_NONBLOCK) (has_flag flags TimerFd.O_CLOEXEC);
    st ← register_pair st proc a b fdA fdB writeable;
    Some (st, 0).

Definition syscallhandler_socketpair (st : (Store Q)) (proc a b fdA fdB fdsPtr : Z) (writeable : bool)
    (domain type protocol : Z) : option ((Store Q) * Z) :=
  if fdsPtr =? 0 then Some (st, - EFAULT)
  else if negb (domain =? AF_UNIX) then Some (st, - EOPNOTSUPP)
  else
    let type_no_flags := Z.ldiff type (Z.lor SOCK_NONBLOCK SOCK_CLOEXEC) in
    if negb (type_no_flags =? SOCK_STREAM) && negb (type_no_flags =? SOCK_DGRAM)
    then Some (st, - EPROTONOSUPPORT)
    else if negb (protocol =? 0) then Some (st, - EPROTONOSUPPORT)
    else
      st ← create_pair st a b CT_NONE CT_NONE DT_UNIXSOCKET
             (has_flag type SOCK_NONBLOCK) (has_flag type SOCK_CLOEXEC);
      st ← register_pair st proc a b fdA fdB writeable;
      Some (st, 0).

(** ** A connected pair as a specification

    The ends are [true] and [false]; [inbox s] are the bytes that end [s] has
    not read. *)

Record Spec := mkSpec { is_open : bool → bool; inbox : bool → list Z }.

Definition set_side {A} (f : bool → A) (s : bool) (v : A) : bool → A :=
  λ x, if Bool.eqb x s then v else f x.

Inductive op := Write (s : bool) (bytes : list Z) | Read (s : bool) (n : Z) | Close (s : bool).

Definition spec_step (p : Spec) (o : op) : Spec * (Z * list Z) :=
  match o with
  | Write s bytes =>
      if negb (is_open p s) then (p, (- EBADF, []))
      else if bool_decide (bytes = []) then (p, (0, []))
      else if negb (is_open p (negb s)) then (p, (- EPIPE, []))
      else
        let room := CONFIG_PIPE_BUFFER_SIZE - Z.of_nat (length (inbox p (negb s))) in
        if room =? 0 then (p, (- EWOULDBLOCK, []))
        else
          let accepted := take (Z.to_nat room) bytes in
          (mkSpec (is_open p) (set_side (inbox p) (negb s) (inbox p (negb s) ++ accepted)),
           (Z.of_nat (length accepted), []))
  | Read s n =>
      if negb (is_open p s) then (p, (- EBADF, []))
      else if n =? 0 then (p, (0, []))
      else if bool_decide (inbox p s = []) then
        (p, (if is_open p (negb s) then - EWOULDBLOCK else 0, []))
      else
        let out := take (Z.to_nat n) (inbox p s) in
        (mkSpec (is_open p) (set_side (inbox p) s (drop (Z.to_nat n) (inbox p s))),
         (Z.of_nat (length out), out))
  | Close s =>
      if negb (is_open p s) then (p, (- EBADF, []))
      else (mkSpec (set_side (is_open p) s false) (inbox p), (0, []))
  end.

(** The program: a number that is closed is no longer in the table. *)
Section Pair.
Context (a b : Z).

Definition addr (s : bool) : Z := if s then a else b.

Definition exec (st : (Store Q)) (opened : bool → bool) (o : op)
    : option ((Store Q) * (bool → bool) * (Z * list Z)) :=
  match o with
  | Write s bytes =>
      if negb (opened s) then Some (st, opened, (- EBADF, [])) else
      '(st, r) ← channel_sendUserData st (addr s) (λ n, Some (take (Z.to_nat n) bytes))
                   (Z.of_nat (length bytes));
      Some (st, opened, (r, []))
  | Read s n =>
      if negb (opened s) then Some (st, opened, (- EBADF, [])) else
      '(st, r, out) ← channel_receiveUserData st (addr s) (λ _, true) n;
      Some (st, opened, (r, out))
  | Close s =>
      if negb (opened s) then Some (st, opened, (- EBADF, [])) else
      st ← descriptor_close st (addr s);
      Some (st, set_side opened s false, (0, []))
  end.

Fixpoint run (st : (Store Q)) (opened : bool → bool) (ops : list op)
    : option ((Store Q) * (bool → bool) * list (Z * list Z)) :=
  match ops with
  | [] => Some (st, opened, [])
  | o :: ops =>
      '(st, opened, out) ← exec st opened o;
      '(st, opened, outs) ← run st opened ops;
      Some (st, opened, out :: outs)
  end.

(** A write to the end for reading, or a read from the end for writing, while
    the end is open: the calls of unistd.c hand it on, and the channel's
    assertion fails. *)
Definition misused (ty : bool → ChannelType) (p : Spec) (o : op) : bool :=
  match o with
  | Write s _ => is_open p s && bool_decide (ty s = CT_READONLY)
  | Read s _ => is_open p s && bool_decide (ty s = CT_WRITEONLY)
  | Close _ => false
  end.

(** [None]: the process aborts. *)
Fixpoint spec_run (ty : bool → ChannelType) (p : Spec) (ops : list op) : option (Spec * list (Z * list Z)) :=
  match ops with
  | [] => Some (p, [])
  | o :: ops => if misused ty p o then None
                else let '(p, out) := spec_step p o in
                     '(p, outs) ← spec_run ty p ops; Some (p, out :: outs)
  end.

(** Sizes are not negative. *)
Definition sized (o : op) : Prop := match o with Read _ n => 0 ≤ n | _ => True end.

(** The operations the types of the two ends allow. *)
Definition allowed (ty : bool → ChannelType) (o : op) : Prop :=
  match o with
  | Write s _ => ty s ≠ CT_READONLY ∧ ty (negb s) ≠ CT_WRITEONLY
  | Read s n => ty s ≠ CT_WRITEONLY ∧ 0 ≤ n
  | Close _ => True
  end.

(** ** Proofs *)

Context {contents : Q → list Z} {bq_ok : Q → Prop} `{!BQ.QueueLaws bq contents bq_ok}.
Context (ty : bool → ChannelType) (st0 : (Store Q)).
Context (Hab : a ≠ b).

Definition count (x : bool) : Z := if x then 1 else 0.

(** The state of the open end [s]. *)
Record end_ok (p : Spec) (s : bool) (c : Channel Q) : Prop := mkEndOk {
  e_type : type c = ty s;
  e_buffer : contents (buffer c) = inbox p s;
  e_bq : bq_ok (buffer c);
  e_size : bufferSize c = CONFIG_PIPE_BUFFER_SIZE;
  e_length : bufferLength c = Z.of_nat (length (inbox p s));
  e_bound : Z.of_nat (length (inbox p s)) ≤ CONFIG_PIPE_BUFFER_SIZE;
  e_link : linkedChannel c = if is_open p (negb s) then Some (addr (negb s)) else None;
  e_refs : referenceCount (super c) = 1 + count (is_open p (negb s));
  e_owner : ownerProcess (super c) ≠ 0;
  e_readable : has_flag (status (super c)) STATUS_DESCRIPTOR_READABLE
               = negb (bool_decide (inbox p s = []));
}.

Definition sim (st : (Store Q)) (p : Spec) : Prop :=
  (∀ k, k ≠ a → k ≠ b → st !! k = st0 !! k) ∧
  (∀ s, if is_open p s then ∃ c, st !! addr s = Some c ∧ end_ok p s c else st !! addr s = None).

Lemma addr_neq s : addr s ≠ addr (negb s).
Proof. destruct s; simpl; congruence. Qed.

Lemma set_side_same {A} (f : bool → A) s v : set_side f s v s = v.
Proof. unfold set_side. by rewrite Bool.eqb_reflx. Qed.

Lemma set_side_other {A} (f : bool → A) s v : set_side f s v (negb s) = f (negb s).
Proof. unfold set_side. by destruct s. Qed.

Lemma set_side_neg {A} (f : bool → A) s v : set_side f (negb s) v s = f s.
Proof. unfold set_side. by destruct s. Qed.

(** An end only depends on its own inbox and on who is open. *)
Lemma end_ok_ext p p' s c :
  end_ok p s c → is_open p' (negb s) = is_open p (negb s) → inbox p' s = inbox p s → end_ok p' s c.
Proof. intros [] Ho Hi. split; rewrite ?Ho, ?Hi; done. Qed.

(** One end changes, the other does not notice. *)
Lemma sim_upd st p p' s c :
  sim st p → is_open p' = is_open p → is_open p s = true →
  inbox p' (negb s) = inbox p (negb s) → end_ok p' s c →
  sim (<[addr s := c]> st) p'.
Proof.
  intros [Hk Hs] Ho Hos Hi Hok. split.
  - intros k Ha Hb. rewrite lookup_insert_ne; [by apply Hk|]. destruct s; simpl; congruence.
  - intros x. rewrite Ho. destruct (decide (x = s)) as [->|Hx].
    + rewrite Hos, lookup_insert_eq. by exists c.
    + assert (x = negb s) as -> by (destruct x, s; done).
      rewrite lookup_insert_ne by apply addr_neq. specialize (Hs (negb s)).
      destruct (is_open p (negb s)); [|done]. destruct Hs as (c' & Hc & Hok').
      exists c'. split; [done|]. apply (end_ok_ext p p'); [done| |done]. by rewrite Ho.
Qed.

Lemma sim_open st p s : sim st p → is_open p s = true → ∃ c, st !! addr s = Some c ∧ end_ok p s c.
Proof. intros [_ Hs] Ho. specialize (Hs s). by rewrite Ho in Hs. Qed.

(** Status bits other than the readable one do not matter. *)
Lemma end_ok_writable p s c v :
  end_ok p s c → end_ok p s (adjustStatus STATUS_DESCRIPTOR_WRITABLE v c).
Proof.
  intros []. split; try done. rewrite <-e_readable0. cbn -[adjusted].
  change STATUS_DESCRIPTOR_WRITABLE with (2 ^ 2). change STATUS_DESCRIPTOR_READABLE with (2 ^ 1).
  by rewrite has_flag_adjusted.
Qed.

Lemma send_sim st p s bytes :
  sim st p → is_open p s = true → allowed ty (Write s bytes) →
  let '(p', (r, _)) := spec_step p (Write s bytes) in
  ∃ st', channel_sendUserData st (addr s) (λ n, Some (take (Z.to_nat n) bytes)) (Z.of_nat (length bytes))
         = Some (st', r) ∧ sim st' p'.
Proof.
  intros Hsim Ho [Hty Hty']. destruct (sim_open st p s Hsim Ho) as (c & Hc & Hok).
  cbn [spec_step]. rewrite Ho. cbn [negb]. unfold channel_sendUserData. rewrite Hc. cbn [mbind option_bind].
  rewrite (e_type _ _ _ Hok), (bool_decide_false (ty s = CT_READONLY)) by done.
  case_bool_decide as Hb; [subst bytes; exists st; by split|].
  assert (0 < Z.of_nat (length bytes)) by (destruct bytes; [done|simpl; lia]).
  rewrite (proj2 (Z.eqb_neq (Z.of_nat (length bytes)) 0)) by lia. rewrite (e_link _ _ _ Hok).
  assert (Hclear : sim (<[addr s := adjustStatus STATUS_DESCRIPTOR_WRITABLE false c]> st) p)
    by (apply (sim_upd st p); by try apply end_ok_writable).
  destruct (is_open p (negb s)) eqn:Ho'; cbn [negb].
  2:{ eexists. split; [cbn; unfold upd; by rewrite Hc|exact Hclear]. }
  destruct (sim_open st p (negb s) Hsim Ho') as (d & Hd & Hokd).
  unfold channel_linkedWrite. rewrite Hd. cbn [mbind option_bind].
  assert (has_flag (ct_value (type d)) (ct_value CT_WRITEONLY) = false) as ->.
  { rewrite (e_type _ _ _ Hokd). by destruct (ty (negb s)). }
  rewrite (e_size _ _ _ Hokd), (e_length _ _ _ Hokd). pose proof (e_bound _ _ _ Hokd).
  unfold CONFIG_PIPE_BUFFER_SIZE in *. rewrite u64_small by lia.
  destruct (Z.eqb_spec (65536 - Z.of_nat (length (inbox p (negb s)))) 0) as [Ez|Ez].
  { eexists. split; [cbn; unfold upd; by rewrite Hc|exact Hclear]. }
  set (room := 65536 - _) in *.
  assert (Ht : take (Z.to_nat (Z.of_nat (length bytes) `min` room)) bytes = take (Z.to_nat room) bytes).
  { destruct (Z.min_spec (Z.of_nat (length bytes)) room) as [[? ->]|[_ ->]]; [|done].
    by rewrite !take_ge by lia. }
  rewrite Ht. destruct (BQ.push_law (buffer d) (take (Z.to_nat room) bytes) (e_bq _ _ _ Hokd))
    as (buf & -> & Hbok & Hbc). cbn [mbind option_bind].
  assert (Hlen : Z.of_nat (length (take (Z.to_nat room) bytes)) = Z.of_nat (length bytes) `min` room)
    by (rewrite length_take; lia).
  rewrite (proj2 (Z.leb_gt _ 0)) by lia. rewrite Hlen. eexists. split; [done|].
  apply (sim_upd st p); cbn [is_open inbox]; [done|done|done|by rewrite negb_involutive, set_side_neg|].
  assert (Hi : Z.of_nat (length (inbox p (negb s) ++ take (Z.to_nat room) bytes))
               = Z.of_nat (length (inbox p (negb s))) + Z.of_nat (length bytes) `min` room)
    by (rewrite length_app; lia).
  split; cbn -[has_flag adjusted]; rewrite ?set_side_same, ?Hi; try (by apply Hokd); try done.
  - by rewrite Hbc, (e_buffer _ _ _ Hokd).
  - rewrite u64_small; lia.
  - unfold CONFIG_PIPE_BUFFER_SIZE. lia.
  - change STATUS_DESCRIPTOR_READABLE with (2 ^ 1). rewrite has_flag_adjusted by done.
    rewrite bool_decide_false; [done|]. intros E. rewrite E in Hi. cbn in Hi. lia.
Qed.

Lemma receive_sim st p s n :
  sim st p → is_open p s = true → allowed ty (Read s n) →
  let '(p', (r, out)) := spec_step p (Read s n) in
  ∃ st', channel_receiveUserData st (addr s) (λ _, true) n = Some (st', r, out) ∧ sim st' p'.
Proof.
  intros Hsim Ho [Hty Hn]. destruct (sim_open st p s Hsim Ho) as (c & Hc & Hok).
  cbn [spec_step]. rewrite Ho. cbn [negb]. unfold channel_receiveUserData. rewrite Hc. cbn [mbind option_bind].
  rewrite (e_type _ _ _ Hok), (bool_decide_false (ty s = CT_WRITEONLY)) by done.
  destruct (Z.eqb_spec n 0) as [En|En]; [by exists st|].
  rewrite (e_length _ _ _ Hok). pose proof (e_bound _ _ _ Hok) as Hbound. unfold CONFIG_PIPE_BUFFER_SIZE in Hbound.
  case_bool_decide as Hi.
  { rewrite Hi. cbn. exists st. rewrite (e_link _ _ _ Hok). split; [|done].
    by destruct (is_open p (negb s)). }
  assert (0 < Z.of_nat (length (inbox p s))) by (destruct (inbox p s); [done|simpl; lia]).
  rewrite (proj2 (Z.eqb_neq (Z.of_nat (length (inbox p s))) 0)) by lia. cbn [negb].
  destruct (BQ.pop_law (buffer c) (Z.to_nat (n `min` Z.of_nat (length (inbox p s)))) (e_bq _ _ _ Hok))
    as (buf & -> & Hbok & Hbc). cbn [mbind option_bind]. rewrite (e_buffer _ _ _ Hok) in *.
  assert (Ht : take (Z.to_nat (n `min` Z.of_nat (length (inbox p s)))) (inbox p s)
               = take (Z.to_nat n) (inbox p s) ∧
               drop (Z.to_nat (n `min` Z.of_nat (length (inbox p s)))) (inbox p s)
               = drop (Z.to_nat n) (inbox p s)).
  { destruct (Z.min_spec n (Z.of_nat (length (inbox p s)))) as [[? ->]|[? ->]]; [done|].
    rewrite Nat2Z.id. by rewrite !take_ge, !drop_ge by lia. }
  destruct Ht as [Ht Hd]. rewrite Hd in Hbc. rewrite Ht.
  set (rest := drop (Z.to_nat n) (inbox p s)) in *. set (out := take (Z.to_nat n) (inbox p s)) in *.
  assert (Hl : length (inbox p s) = (length out + length rest)%nat).
  { unfold out, rest. rewrite <-length_app, take_drop. done. }
  eexists. split; [done|]. apply (sim_upd st p); cbn [is_open inbox]; [done|done|done|by rewrite set_side_other|].
  cbn [bufferLength set_field]. rewrite u64_small by lia.
  replace (Z.of_nat (length (inbox p s)) - Z.of_nat (length out)) with (Z.of_nat (length rest)) by lia.
  destruct (Z.leb_spec (Z.of_nat (length rest)) 0) as [Hz|Hz];
    (split; cbn -[has_flag adjusted]; rewrite ?set_side_same; try (by apply Hok); try done;
     [unfold CONFIG_PIPE_BUFFER_SIZE; lia|]).
  - change STATUS_DESCRIPTOR_READABLE with (2 ^ 1). rewrite has_flag_adjusted by done.
    rewrite bool_decide_true; [done|]. apply length_zero_iff_nil. lia.
  - rewrite (e_readable _ _ _ Hok), !bool_decide_false; [done| |done].
    intros Er. rewrite Er in Hz. cbn in Hz. lia.
Qed.

(** Dropping a reference that is not the last. *)
Lemma unref_keep st k c :
  st !! k = Some c → 1 < referenceCount (super c) →
  unref st k = Some (<[k := c <| super := (super c) <| referenceCount := referenceCount (super c) - 1 |> |>]> st).
Proof.
  intros Hk Hr. unfold unref. rewrite Hk. cbn. unfold descriptor_unref. cbn.
  rewrite (proj2 (Z.leb_le _ _)) by lia. cbn. by rewrite (proj2 (Z.eqb_neq _ _)) by lia.
Qed.

Lemma unref_last st k c :
  st !! k = Some c → referenceCount (super c) = 1 → unref st k = Some (delete k st).
Proof. intros Hk Hr. unfold unref. rewrite Hk. cbn. unfold descriptor_unref. cbn. by rewrite Hr. Qed.

Lemma upd_eq st k c f : st !! k = Some c → upd st k f = Some (<[k := f c]> st).
Proof. intros Hk. unfold upd. by rewrite Hk. Qed.

(** Closing drops the table's reference and both references of the link. *)
Lemma close_last st p s c :
  sim st p → st !! addr s = Some c → end_ok p s c → is_open p (negb s) = false →
  descriptor_close st (addr s) = Some (delete (addr s) st).
Proof.
  intros Hsim Hc Hok Ho. pose proof (e_link _ _ _ Hok) as Hl. pose proof (e_refs _ _ _ Hok) as Hr.
  rewrite Ho in Hl, Hr. unfold descriptor_close. rewrite (upd_eq _ _ c) by done.
  cbn [mbind option_bind]. unfold channel_close. rewrite lookup_insert_eq. cbn -[adjusted unref].
  rewrite Hl. cbn -[adjusted unref]. rewrite lookup_insert_eq. cbn -[adjusted unref].
  rewrite (proj2 (Z.eqb_neq _ 0)) by apply Hok. cbn [negb].
  unfold process_deregisterLegacyDescriptor. rewrite (upd_eq _ _ _ _ (lookup_insert_eq _ _ _)).
  cbn [mbind option_bind]. rewrite insert_insert_eq.
  erewrite unref_last; [|apply lookup_insert_eq|cbn; rewrite Hr; done].
  by rewrite delete_insert_eq.
Qed.

Lemma close_linked st p s c d :
  sim st p → st !! addr s = Some c → end_ok p s c →
  st !! addr (negb s) = Some d → end_ok p (negb s) d →
  is_open p s = true → is_open p (negb s) = true →
  ∃ d' st', descriptor_close st (addr s) = Some st' ∧
    (∀ k, st' !! k = if decide (k = addr s) then None
                     else if decide (k = addr (negb s)) then Some d' else st !! k) ∧
    d' = d <| linkedChannel := None |> <| super := (super d) <| referenceCount := 1 |> |>.
Proof.
  intros Hsim Hc Hok Hd Hokd Ho Ho'.
  pose proof (e_link _ _ _ Hok) as Hl. pose proof (e_refs _ _ _ Hok) as Hr.
  pose proof (e_link _ _ _ Hokd) as Hl'. pose proof (e_refs _ _ _ Hokd) as Hr'.
  rewrite negb_involutive in *. rewrite Ho in *. rewrite Ho' in *. cbn [count] in *.
  pose proof (addr_neq s) as Hxy. set (x := addr s) in *. set (y := addr (negb s)) in *.
  unfold descriptor_close. rewrite (upd_eq _ _ c) by done. cbn [mbind option_bind].
  unfold channel_close. rewrite lookup_insert_eq. cbn -[adjusted unref upd]. rewrite Hl.
  rewrite lookup_insert_ne by done. rewrite Hd. cbn -[adjusted unref upd].
  rewrite Hl', bool_decide_true by done.
  erewrite unref_keep; [|apply lookup_insert_eq|cbn; rewrite Hr; done].
  cbn -[adjusted unref upd]. rewrite insert_insert_eq.
  erewrite upd_eq; [|by rewrite lookup_insert_ne by done; apply Hd]. cbn -[adjusted unref upd].
  rewrite lookup_insert_ne by done. rewrite lookup_insert_eq. cbn -[adjusted unref upd].
  rewrite Hl. cbn -[adjusted unref upd].
  erewrite unref_keep; [|apply lookup_insert_eq|cbn; rewrite Hr'; done]. cbn -[adjusted unref upd].
  erewrite upd_eq; [|by rewrite !lookup_insert_ne by done; apply lookup_insert_eq].
  cbn -[adjusted unref upd]. rewrite lookup_insert_eq. cbn -[adjusted unref upd].
  rewrite (proj2 (Z.eqb_neq _ 0)) by apply Hok. cbn [negb].
  unfold process_deregisterLegacyDescriptor. rewrite (upd_eq _ _ _ _ (lookup_insert_eq _ _ _)).
  cbn [mbind option_bind]. rewrite insert_insert_eq.
  erewrite unref_last; [|apply lookup_insert_eq|cbn; rewrite Hr; done].
  do 2 eexists. split; [done|]. split; [|reflexivity].
  intros k. rewrite delete_insert_eq. destruct (decide (k = x)) as [->|Hkx]; [apply lookup_delete_eq|].
  rewrite lookup_delete_ne by done. destruct (decide (k = y)) as [->|Hky].
  - rewrite lookup_insert_eq. do 2 f_equal. cbn. by rewrite Hr'.
  - by rewrite !lookup_insert_ne by done.
Qed.

Lemma close_sim st p s :
  sim st p → is_open p s = true →
  ∃ st', descriptor_close st (addr s) = Some st' ∧
         sim st' (mkSpec (set_side (is_open p) s false) (inbox p)).
Proof.
  intros Hsim Ho. destruct (sim_open st p s Hsim Ho) as (c & Hc & Hok).
  destruct (is_open p (negb s)) eqn:Ho'.
  - destruct (sim_open st p (negb s) Hsim Ho') as (d & Hd & Hokd).
    destruct (close_linked st p s c d) as (d' & st' & E & Hl & Ed); try done.
    exists st'. split; [done|]. destruct Hsim as [Hk _]. split.
    + intros k Hka Hkb. rewrite Hl, !decide_False by (destruct s; done). by apply Hk.
    + intros x. cbn [is_open]. destruct (decide (x = s)) as [->|Hx].
      * by rewrite set_side_same, Hl, decide_True.
      * assert (x = negb s) as -> by (destruct x, s; done). rewrite set_side_other, Ho', Hl.
        rewrite decide_False, decide_True by (done || apply not_eq_sym, addr_neq).
        exists d'. split; [done|]. subst d'.
        split; cbn -[has_flag]; rewrite ?negb_involutive, ?set_side_same; by try apply Hokd.
  - exists (delete (addr s) st). split; [by apply (close_last st p s c)|]. destruct Hsim as [Hk Hs]. split.
    + intros k Hka Hkb. rewrite lookup_delete_ne by (destruct s; done). by apply Hk.
    + intros x. cbn [is_open]. destruct (decide (x = s)) as [->|Hx].
      * rewrite set_side_same. apply lookup_delete_eq.
      * assert (x = negb s) as -> by (destruct x, s; done). rewrite set_side_other, Ho'.
        rewrite lookup_delete_ne by apply addr_neq. specialize (Hs (negb s)). by rewrite Ho' in Hs.
Qed.

Lemma exec_sim st p o :
  sim st p → allowed ty o →
  ∃ st', exec st (is_open p) o = Some (st', is_open (fst (spec_step p o)), snd (spec_step p o)) ∧
         sim st' (fst (spec_step p o)).
Proof.
  intros Hsim Hal. destruct o as [s bytes|s n|s]; cbn [exec].
  - destruct (is_open p s) eqn:Ho; cbn [negb]; [|exists st; cbn; rewrite Ho; by split].
    pose proof (send_sim st p s bytes Hsim Ho Hal) as Hstep.
    assert (Hop : is_open (fst (spec_step p (Write s bytes))) = is_open p ∧
                  snd (snd (spec_step p (Write s bytes))) = []).
    { cbn [spec_step]. repeat case_match; done. }
    destruct (spec_step p (Write s bytes)) as [p' [r out]]. cbn in Hop. destruct Hop as [Hop ->].
    destruct Hstep as (st' & -> & Hsim'). exists st'. cbn. by rewrite Hop.
  - destruct (is_open p s) eqn:Ho; cbn [negb]; [|exists st; cbn; rewrite Ho; by split].
    pose proof (receive_sim st p s n Hsim Ho Hal) as Hstep.
    assert (Hop : is_open (fst (spec_step p (Read s n))) = is_open p).
    { cbn [spec_step]. repeat case_match; done. }
    destruct (spec_step p (Read s n)) as [p' [r out]]. cbn in Hop.
    destruct Hstep as (st' & -> & Hsim'). exists st'. cbn. by rewrite Hop.
  - destruct (is_open p s) eqn:Ho; cbn [negb]; [|exists st; cbn; rewrite Ho; by split].
    destruct (close_sim st p s Hsim Ho) as (st' & -> & Hsim'). exists st'. cbn. rewrite Ho. by split.
Qed.

(** An operation on a closed end needs no permission. *)
Lemma exec_closed st p o s :
  match o with Write s' _ | Read s' _ | Close s' => s' = s end → is_open p s = false →
  spec_step p o = (p, (- EBADF, [])) ∧ exec st (is_open p) o = Some (st, is_open p, (- EBADF, [])).
Proof. intros Hs Ho. destruct o; subst; cbn [spec_step exec]; by rewrite Ho. Qed.

Lemma exec_misused st p o : sim st p → misused ty p o = true → exec st (is_open p) o = None.
Proof.
  intros Hsim Hm. destruct o as [s bytes|s n|s]; cbn [misused exec] in *; [..|done];
    apply andb_true_iff in Hm as [Ho Ht]; rewrite Ho; cbn [negb];
    destruct (sim_open st p s Hsim Ho) as (c & Hc & Hok).
  - unfold channel_sendUserData. rewrite Hc. cbn [mbind option_bind]. by rewrite (e_type _ _ _ Hok), Ht.
  - unfold channel_receiveUserData. rewrite Hc. cbn [mbind option_bind]. by rewrite (e_type _ _ _ Hok), Ht.
Qed.

(** The ends fit together: who may not write is not written to by the other. *)
Definition paired : Prop := ∀ s, ty (negb s) = CT_WRITEONLY → ty s = CT_READONLY.

Lemma exec_used st p o :
  paired → sim st p → sized o → misused ty p o = false →
  ∃ st', exec st (is_open p) o = Some (st', is_open (fst (spec_step p o)), snd (spec_step p o)) ∧
         sim st' (fst (spec_step p o)).
Proof.
  intros Hpair Hsim Hsz Hm. set (s := match o with Write s _ | Read s _ | Close s => s end).
  destruct (is_open p s) eqn:Ho.
  - apply exec_sim; [done|]. destruct o as [s' bytes|s' n|s']; cbn [misused allowed sized] in *; [..|done];
      subst s; rewrite Ho in Hm; apply bool_decide_eq_false in Hm; split; auto.
  - destruct (exec_closed st p o s ltac:(by destruct o) Ho) as [-> ->]. by exists st.
Qed.

Lemma run_sim ops st p :
  paired → sim st p → Forall sized ops →
  match spec_run ty p ops with
  | Some (p', outs) => ∃ st', run st (is_open p) ops = Some (st', is_open p', outs) ∧ sim st' p'
  | None => run st (is_open p) ops = None
  end.
Proof.
  intros Hpair. revert st p. induction ops as [|o ops IH]; intros st p Hsim Hal; [by exists st|].
  apply Forall_cons in Hal as [Ho Hal]. cbn [run spec_run]. destruct (misused ty p o) eqn:Em.
  { by rewrite exec_misused. }
  destruct (exec_used st p o Hpair Hsim Ho Em) as (st1 & -> & Hsim1). cbn [mbind option_bind].
  destruct (spec_step p o) as [p1 out]. cbn [fst snd] in *. pose proof (IH st1 p1 Hsim1 Hal) as Hrun.
  destruct (spec_run ty p1 ops) as [[p2 outs]|]; cbn [mbind option_bind].
  - destruct Hrun as (st' & -> & Hsim'). by exists st'.
  - by rewrite Hrun.
Qed.

(** A new pair: both ends open and nothing in the buffers. *)
Definition fresh_pair : Spec := mkSpec (λ _, true) (λ _, []).

(** A store with two ends in it. *)
Definition pair_at (st : Store Q) (ca cb : Channel Q) : Prop :=
  st !! a = Some ca ∧ st !! b = Some cb ∧ ∀ k, k ≠ a → k ≠ b → st !! k = st0 !! k.

Lemma pair_at_upd_a st ca cb f :
  pair_at st ca cb → ∃ st', upd st a f = Some st' ∧ pair_at st' (f ca) cb.
Proof.
  intros (Ha & Hb & Hk). exists (<[a := f ca]> st). rewrite (upd_eq _ _ ca) by done.
  unfold pair_at. split_and!; [done|apply lookup_insert_eq|by rewrite lookup_insert_ne|].
  intros k ??. rewrite lookup_insert_ne by done. by apply Hk.
Qed.

Lemma pair_at_upd_b st ca cb f :
  pair_at st ca cb → ∃ st', upd st b f = Some st' ∧ pair_at st' ca (f cb).
Proof.
  intros (Ha & Hb & Hk). exists (<[b := f cb]> st). rewrite (upd_eq _ _ cb) by done.
  unfold pair_at. split_and!; [done|by rewrite lookup_insert_ne|apply lookup_insert_eq|].
  intros k ??. rewrite lookup_insert_ne by done. by apply Hk.
Qed.

Lemma pair_at_link st ca cb :
  pair_at st ca cb → linkedChannel ca = None → linkedChannel cb = None →
  ∃ st1 st', channel_setLinkedChannel st a (Some b) = Some st1 ∧
    channel_setLinkedChannel st1 b (Some a) = Some st' ∧
    pair_at st' (ca <| linkedChannel := Some b |> <| super := descriptor_ref (super ca) |>)
                (cb <| super := descriptor_ref (super cb) |> <| linkedChannel := Some a |>).
Proof.
  intros Hp Hla Hlb. unfold channel_setLinkedChannel, ref.
  destruct (pair_at_upd_a st ca cb (λ c, c <| linkedChannel := Some b |>) Hp) as (st1 & E1 & Hp1).
  destruct (pair_at_upd_b _ _ _ (λ c, c <| super := descriptor_ref (super c) |>) Hp1) as (st2 & E2 & Hp2).
  destruct (pair_at_upd_b _ _ _ (λ c, c <| linkedChannel := Some a |>) Hp2) as (st3 & E3 & Hp3).
  destruct (pair_at_upd_a _ _ _ (λ c, c <| super := descriptor_ref (super c) |>) Hp3) as (st4 & E4 & Hp4).
  exists st2, st4. destruct Hp as (-> & _). cbn -[upd]. rewrite Hla. cbn -[upd]. rewrite E1. cbn -[upd].
  split; [done|]. split; [|exact Hp4].
  destruct Hp2 as (_ & -> & _). cbn -[upd]. rewrite Hlb. cbn -[upd]. rewrite E3. cbn -[upd]. done.
Qed.

Lemma pair_at_flags st ca cb (on : bool) fl :
  pair_at st ca cb →
  ∃ st', (if on then st ← upd st a (add_flags fl); upd st b (add_flags fl) else Some st) = Some st' ∧
    pair_at st' (if on then add_flags fl ca else ca) (if on then add_flags fl cb else cb).
Proof.
  intros Hp. destruct on; [|by exists st].
  destruct (pair_at_upd_a st ca cb (add_flags fl) Hp) as (st1 & -> & Hp1).
  by apply pair_at_upd_b.
Qed.

Lemma new_channel_ok t d :
  let c := channel_new t d in
  bufferSize c = CONFIG_PIPE_BUFFER_SIZE ∧ bufferLength c = 0 ∧ linkedChannel c = None ∧
  type c = t ∧ buffer c = BQ.bytequeue_new bq (Z.to_nat 8192) ∧ referenceCount (super c) = 1 ∧
  has_flag (status (super c)) STATUS_DESCRIPTOR_READABLE = false.
Proof. unfold channel_new. by destruct t. Qed.

Lemma create_pair_sim dtype nonblock cloexec proc fdA fdB :
  proc ≠ 0 →
  ∃ st st', create_pair st0 a b (ty true) (ty false) dtype nonblock cloexec = Some st ∧
    register_pair st proc a b fdA fdB true = Some st' ∧ sim st' fresh_pair.
Proof.
  intros Hp. destruct (BQ.new_law (Z.to_nat 8192) ltac:(lia)) as [Hok Hc].
  pose proof (new_channel_ok (ty true) dtype) as Hna. pose proof (new_channel_ok (ty false) dtype) as Hnb.
  unfold create_pair. set (ca := channel_new (ty true) dtype) in *.
  set (cb := channel_new (ty false) dtype) in *. clearbody ca cb. cbn zeta in Hna, Hnb.
  destruct Hna as (Hsa & Hla & Hka & Hta & Hba & Hra & Hfa), Hnb as (Hsb & Hlb & Hkb & Htb & Hbb & Hrb & Hfb).
  assert (Hp0 : pair_at (<[b := cb]> (<[a := ca]> st0)) ca cb).
  { unfold pair_at. split_and!; [by rewrite lookup_insert_ne, lookup_insert_eq|apply lookup_insert_eq|].
    intros k ??. by rewrite !lookup_insert_ne. }
  destruct (pair_at_link _ _ _ Hp0 Hka Hkb) as (st1 & st2 & -> & Hst2 & Hp2). cbn [mbind option_bind].
  rewrite Hst2. cbn [mbind option_bind].
  destruct (pair_at_flags _ _ _ nonblock TimerFd.O_NONBLOCK Hp2) as (st3 & -> & Hp3). cbn [mbind option_bind].
  destruct (pair_at_flags _ _ _ cloexec TimerFd.O_CLOEXEC Hp3) as (st4 & -> & Hp4).
  exists st4. unfold register_pair, process_registerLegacyDescriptor.
  destruct (pair_at_upd_a _ _ _ (λ c, c <| super :=
    descriptor_setHandle (descriptor_setOwnerProcess (super c) proc) fdA |>) Hp4) as (st5 & -> & Hp5).
  cbn [mbind option_bind].
  destruct (pair_at_upd_b _ _ _ (λ c, c <| super :=
    descriptor_setHandle (descriptor_setOwnerProcess (super c) proc) fdB |>) Hp5) as (st6 & -> & Ha & Hb & Hk).
  eexists. split; [done|]. split; [done|]. split; [done|].
  intros []; (eexists; split; [first [exact Ha|exact Hb]|]); split; destruct nonblock, cloexec; cbn -[has_flag]; rewrite ?Hba, ?Hbb, ?Hra, ?Hrb; done.
Qed.

(** The writable bit is only ever cleared. *)
Definition writable (c : Channel Q) : bool := has_flag (status (super c)) STATUS_DESCRIPTOR_WRITABLE.
Definition off (st : Store Q) (x : Z) : Prop := ∀ c, st !! x = Some c → writable c = false.

Lemma off_insert st k c c' x :
  off st x → st !! k = Some c → (writable c = false → writable c' = false) → off (<[k := c']> st) x.
Proof.
  intros Ho Hk Hw d. destruct (decide (x = k)) as [->|]; [|by rewrite lookup_insert_ne by done; apply Ho].
  rewrite lookup_insert_eq. intros [= <-]. by apply Hw, Ho.
Qed.

Lemma off_upd st st' k f x :
  off st x → (∀ c, writable c = false → writable (f c) = false) → upd st k f = Some st' → off st' x.
Proof.
  unfold upd. intros Ho Hf Hu. destruct (st !! k) as [c|] eqn:Hk; [|done]. injection Hu as <-.
  apply (off_insert st k c); auto.
Qed.

Lemma off_unref st st' k x : off st x → unref st k = Some st' → off st' x.
Proof.
  unfold unref. intros Ho Hu. destruct (st !! k) as [c|] eqn:Hk; [|done]. cbn in Hu.
  unfold descriptor_unref in Hu. destruct (0 <=? _); [|done]. cbn in Hu.
  destruct (_ =? 0); injection Hu as <-.
  - intros d. destruct (decide (x = k)) as [->|]; [by rewrite lookup_delete_eq|].
    rewrite lookup_delete_ne by done. apply Ho.
  - by apply (off_insert st k c).
Qed.

Lemma writable_adjust c j v : 0 ≤ j → (j = 2 → v = false) → writable c = false →
  writable (adjustStatus (2 ^ j) v c) = false.
Proof.
  unfold writable, adjustStatus. cbn -[adjusted has_flag Z.pow]. intros Hj Hv Hw.
  change STATUS_DESCRIPTOR_WRITABLE with (2 ^ 2) in *. rewrite has_flag_adjusted by done.
  destruct (Z.eqb_spec j 2); [by apply Hv|done].
Qed.

Ltac bind_inv H x E :=
  match type of H with
  | (?o ≫= _) = Some _ => destruct o as [x|] eqn:E; cbn [mbind option_bind] in H; [|discriminate H]
  end.

Lemma off_close st st' k x : off st x → descriptor_close st k = Some st' → off st' x.
Proof.
  intros Ho Hc. unfold descriptor_close in Hc. bind_inv Hc st1 E.
  assert (Ho1 : off st1 x).
  { apply (off_upd st st1 k _ x Ho) in E; [done|]. intros c. by apply (writable_adjust c 3). }
  clear E Ho. bind_inv Hc st2 E.
  assert (Ho2 : off st2 x).
  { unfold channel_close in E. bind_inv E c Ec. destruct (linkedChannel c) as [l|]; [|by injection E as <-].
    bind_inv E d Ed. bind_inv E st3 E3.
    assert (Ho3 : off st3 x).
    { case_bool_decide; [|by injection E3 as <-]. bind_inv E3 st4 E4. eapply off_upd; [by eapply off_unref| |exact E3]; done. }
    bind_inv E c' Ec'. bind_inv E l' El'. bind_inv E st5 E5. eapply off_upd; [by eapply off_unref| |exact E]; done. }
  clear E. bind_inv Hc c Ec. destruct (negb _); [|by injection Hc as <-].
  unfold process_deregisterLegacyDescriptor in Hc. bind_inv Hc st3 E3. eapply off_unref; [|exact Hc].
  eapply off_upd; [exact Ho2| |exact E3]; done.
Qed.

Lemma off_send st st' k rd n r x :
  off st x → channel_sendUserData st k rd n = Some (st', r) → off st' x.
Proof.
  intros Ho Hs. unfold channel_sendUserData in Hs. bind_inv Hs c Ec.
  case_bool_decide; [done|]. destruct (n =? 0); [by injection Hs as <- _|].
  bind_inv Hs sr E. destruct sr as [st1 result]. bind_inv Hs st2 E2. injection Hs as <- <-.
  assert (Ho1 : off st1 x).
  { destruct (linkedChannel c) as [l|]; [|by injection E as <- _].
    unfold channel_linkedWrite in E. bind_inv E d Ed. destruct (has_flag _ _); [done|].
    destruct (_ =? 0); [by injection E as <- _|]. destruct (rd _); [|by injection E as <- _].
    bind_inv E buf Eb. injection E as <- _. apply (off_insert st l d); [done|done|].
    intros Hw. by apply (writable_adjust _ 1). }
  destruct (result <=? 0); [|by injection E2 as <-].
  apply (off_upd st1 st2 k _ x Ho1) in E2; [done|]. intros d. by apply (writable_adjust d 2).
Qed.

Lemma off_receive st st' k wp n r out x :
  off st x → channel_receiveUserData st k wp n = Some (st', r, out) → off st' x.
Proof.
  intros Ho Hs. unfold channel_receiveUserData in Hs. bind_inv Hs c Ec.
  case_bool_decide; [done|]. destruct (n =? 0); [by injection Hs as <- _ _|].
  destruct (_ =? 0); [by injection Hs as <- _ _|]. destruct (negb _); [by injection Hs as <- _ _|].
  bind_inv Hs bb E. destruct bb as [buf bytes]. injection Hs as <- _ _.
  apply (off_insert st k c); [done|done|]. intros Hw. destruct (_ <=? 0); [|done].
  by apply (writable_adjust _ 1).
Qed.

Lemma off_run ops st opened st' opened' outs x :
  off st x → run st opened ops = Some (st', opened', outs) → off st' x.
Proof.
  revert st opened outs. induction ops as [|o ops IH]; intros st opened outs Ho Hr; [by injection Hr as <- _ _|].
  cbn [run] in Hr. bind_inv Hr r1 E. destruct r1 as [[st1 op1] out]. bind_inv Hr r2 E2.
  destruct r2 as [[st2 op2] outs2]. injection Hr as <- -> _.
  apply (IH st1 op1 outs2); [|exact E2]. destruct o as [s bytes|s n|s]; cbn [exec] in E;
    (destruct (negb (opened s)); [by injection E as <- _ _|]); bind_inv E r Er.
  - destruct r as [st3 r]. injection E as <- _ _. by eapply off_send.
  - destruct r as [[st3 r] o]. injection E as <- _ _. by eapply off_receive.
  - injection E as <- _ _. by eapply off_close.
Qed.

(** [st] is what a successful call that creates the pair leaves. *)
Definition created (st : Store Q) : Prop :=
  ∃ proc fdA fdB ptr w, proc ≠ 0 ∧
    ((∃ dom tp proto, (∀ s, ty s = CT_NONE) ∧
        syscallhandler_socketpair st0 proc a b fdA fdB ptr w dom tp proto = Some (st, 0)) ∨
     (∃ fl, ty true = CT_READONLY ∧ ty false = CT_WRITEONLY ∧
        _syscallhandler_pipeHelper st0 proc a b fdA fdB ptr w fl = Some (st, 0))).

Lemma created_sim st : created st → sim st fresh_pair.
Proof.
  assert (Hpair : ∀ proc fdA fdB w dtype nb ce st,
    proc ≠ 0 → (st ← create_pair st0 a b (ty true) (ty false) dtype nb ce;
                st ← register_pair st proc a b fdA fdB w; Some (st, 0)) = Some (st, 0) → sim st fresh_pair).
  { clear st. intros proc fdA fdB w dtype nb ce st Hp Hc.
    destruct (create_pair_sim dtype nb ce proc fdA fdB Hp) as (st1 & st2 & E1 & E2 & Hsim).
    rewrite E1 in Hc. cbn [mbind option_bind] in Hc. destruct w; [|done].
    rewrite E2 in Hc. by injection Hc as <-. }
  intros (proc & fdA & fdB & ptr & w & Hp & [(dom & tp & proto & Hty & Hc)|(fl & Ht & Hf & Hc)]).
  - unfold syscallhandler_socketpair in Hc. repeat (case_match; [done|]).
    rewrite <-(Hty true) in Hc at 1. rewrite <-(Hty false) in Hc. by eapply Hpair.
  - unfold _syscallhandler_pipeHelper in Hc. repeat (case_match; [done|]).
    rewrite <-Ht, <-Hf in Hc. by eapply Hpair.
Qed.

Lemma created_paired st : created st → paired.
Proof.
  intros (proc & fdA & fdB & ptr & w & _ & [(dom & tp & proto & Hty & _)|(fl & Ht & Hf & _)]) [] Hs; cbn in Hs;
    rewrite ?Hty, ?Ht, ?Hf in *; done.
Qed.

(** *** Properties *)

(** C24: a pipe or a pair of unix sockets refines a pair of bounded queues of
    bytes.  After the call that created it, any sequence of writes, reads and
    closes gives exactly the results of the specification (short writes at
    65536 bytes, would-block, end of file, EPIPE, EBADF), every byte arrives
    once and in order, no use after free and no failed assertion occurs, the
    readable bit says whether there is data, and closing both ends frees
    both - except that the sequence aborts, at the first write to the open
    reading end of a pipe or read from its open writing end, which the
    specification says as well. *)
Theorem channel_pair_refines_spec st ops :
  st0 !! a = None → st0 !! b = None → created st → Forall sized ops →
  match spec_run ty fresh_pair ops with
  | Some (p, outs) =>
      ∃ st', run st (λ _, true) ops = Some (st', is_open p, outs) ∧
        (∀ s, is_open p s = true → ∃ c, st' !! addr s = Some c ∧
           has_flag (status (super c)) STATUS_DESCRIPTOR_READABLE = negb (bool_decide (inbox p s = []))) ∧
        ((∀ s, is_open p s = false) → st' = st0)
  | None => run st (λ _, true) ops = None
  end.
Proof.
  intros Ha Hb Hc Hal. pose proof (run_sim ops st fresh_pair (created_paired st Hc) (created_sim st Hc) Hal) as Hrun.
  destruct (spec_run ty fresh_pair ops) as [[p outs]|]; [|done]. destruct Hrun as (st' & Hr & Hsim). exists st'. split; [done|]. split.
  - intros s Ho. destruct (sim_open st' p s Hsim Ho) as (c & Hs & Hok). exists c. split; [done|apply Hok].
  - intros Hcl. destruct Hsim as [Hk Hs]. apply map_eq. intros k.
    pose proof (Hs true) as Ht. pose proof (Hs false) as Hf. rewrite !Hcl in Ht, Hf.
    destruct (decide (k = a)) as [->|]; [by rewrite Ha|].
    destruct (decide (k = b)) as [->|]; [by rewrite Hb|]. by apply Hk.
Qed.

(** Once a write could not be done in full because the buffer of the other
    end was full, the writable bit of the writer stays off for ever, whatever
    the reader takes out of the buffer: a writer that waits for the bit is
    never woken.  Likewise closing an end does not change the status of the
    other, so that a reader that waits for data is not told of the end of
    file. *)
Theorem channel_waiters_not_woken st p s bytes :
  sim st p → is_open p s = true → allowed ty (Write s bytes) → bytes ≠ [] →
  (is_open p (negb s) = true →
   Z.of_nat (length (inbox p (negb s))) = CONFIG_PIPE_BUFFER_SIZE →
   ∃ st', exec st (is_open p) (Write s bytes) = Some (st', is_open p, (- EWOULDBLOCK, [])) ∧
     ∀ ops st'' opened outs c, run st' (is_open p) ops = Some (st'', opened, outs) →
       st'' !! addr s = Some c → writable c = false) ∧
  (is_open p (negb s) = true → ∃ st' c c', exec st (is_open p) (Close (negb s)) = Some (st', set_side (is_open p) (negb s) false, (0, [])) ∧
     st !! addr s = Some c ∧ st' !! addr s = Some c' ∧ status (super c') = status (super c) ∧
     linkedChannel c' = None).
Proof.
  intros Hsim Ho Hal Hb. destruct (sim_open st p s Hsim Ho) as (c & Hc & Hok). split.
  - intros Ho' Hfull. pose proof (exec_sim st p (Write s bytes) Hsim Hal) as (st' & He & Hsim').
    assert (Hspec : spec_step p (Write s bytes) = (p, (- EWOULDBLOCK, []))).
    { cbn [spec_step]. rewrite Ho, Ho', bool_decide_false by done. cbn [negb].
      by rewrite Hfull, Z.sub_diag. }
    rewrite Hspec in *. cbn [fst snd] in *. exists st'. split; [done|].
    intros ops st'' opened outs d Hr. apply (off_run ops st' (is_open p) st'' opened outs (addr s)); [|done].
    cbn [exec] in He. rewrite Ho in He. cbn [negb] in He. bind_inv He r Er. destruct r as [st1 r].
    injection He as <- ->. unfold channel_sendUserData in Er. rewrite Hc in Er. cbn [mbind option_bind] in Er.
    case_bool_decide; [done|]. destruct (_ =? 0); [done|]. bind_inv Er x Ex. destruct x as [st2 r].
    bind_inv Er st3 E3. injection Er as <- ->. cbn in E3.
    change (- EWOULDBLOCK <=? 0) with true in E3. unfold upd in E3. bind_inv E3 e Ee. injection E3 as <-. intros e' He'. rewrite lookup_insert_eq in He'.
    injection He' as <-. unfold writable, adjustStatus. cbn -[adjusted has_flag].
    change STATUS_DESCRIPTOR_WRITABLE with (2 ^ 2). by rewrite has_flag_adjusted.
  - intros Ho'. destruct (sim_open st p (negb s) Hsim Ho') as (d & Hd & Hokd).
    destruct (close_linked st p (negb s) d c) as (c' & st' & E & Hl & Ec);
      rewrite ?negb_involutive; try done.
    rewrite negb_involutive in Hl. exists st', c, c'. cbn [exec]. rewrite Ho'. cbn [negb]. rewrite E.
    split; [done|]. split; [done|]. rewrite Hl, decide_False, decide_True by (done || apply addr_neq).
    split; [done|]. by subst c'.
Qed.

End Pair.
End Channels.

(** ** Witnesses *)

#[local] Existing Instance BQ.chunked_laws.

Definition demo_ops : list op :=
  [Write true [1; 2; 3]; Read false 2; Close true; Read false 9; Read false 9; Write false [4]; Close false].

Lemma channel_pair_refines_spec_witness :
  ∃ st, syscallhandler_socketpair BQ.chunked ∅ 9 1 2 5 6 8 true AF_UNIX SOCK_STREAM 0 = Some (st, 0) ∧
    ∃ o, run BQ.chunked 1 2 st (λ _, true) demo_ops =
      Some (∅, o, [(3, []); (2, [1; 2]); (0, []); (1, [3]); (0, []); (- EPIPE, []); (0, [])]).
Proof.
  destruct (syscallhandler_socketpair BQ.chunked ∅ 9 1 2 5 6 8 true AF_UNIX SOCK_STREAM 0)
    as [[st r]|] eqn:E; [|by vm_compute in E].
  assert (r = 0) as -> by (vm_compute in E; congruence).
  exists st. split; [done|].
  pose proof (channel_pair_refines_spec BQ.chunked 1 2 (λ _, CT_NONE) ∅ ltac:(lia) st demo_ops
    eq_refl eq_refl) as H.
  destruct H as (st' & Hr & _ & Hcl).
  - exists 9, 5, 6, 8, true. split; [done|]. left. by exists AF_UNIX, SOCK_STREAM, 0.
  - repeat constructor; done.
  - eexists. rewrite Hr. do 2 f_equal. f_equal. by apply Hcl; intros [].
Defined.

(** A writer that fills the buffer of the other end with one write. *)
Definition filling : op := Write true (replicate (Z.to_nat 65536) 7).

Lemma channel_waiters_not_woken_witness :
  ∃ st st1 o out st2,
    syscallhandler_socketpair BQ.chunked ∅ 9 1 2 5 6 8 true AF_UNIX SOCK_STREAM 0 = Some (st, 0) ∧
    exec BQ.chunked 1 2 st (λ _, true) filling = Some (st1, o, out) ∧
    exec BQ.chunked 1 2 st1 o (Write true [8]) = Some (st2, o, (- EWOULDBLOCK, [])) ∧
    ∀ ops st3 opened outs c, run BQ.chunked 1 2 st2 o ops = Some (st3, opened, outs) →
      st3 !! 1 = Some c → writable c = false.
Proof.
  destruct (syscallhandler_socketpair BQ.chunked ∅ 9 1 2 5 6 8 true AF_UNIX SOCK_STREAM 0)
    as [[st r]|] eqn:E; [|by vm_compute in E].
  assert (r = 0) as -> by (vm_compute in E; congruence). exists st.
  assert (Hsim : sim (contents:=BQ.contents) (bq_ok:=BQ.ok) 1 2 (λ _, CT_NONE) ∅ st fresh_pair).
  { apply created_sim with (bq := BQ.chunked); [apply _|lia|]. exists 9, 5, 6, 8, true. split; [done|].
    left. by exists AF_UNIX, SOCK_STREAM, 0. }
  destruct (exec_sim BQ.chunked 1 2 (λ _, CT_NONE) ∅ ltac:(lia) st fresh_pair filling Hsim)
    as (st1 & He & Hsim1); [done|].
  assert (Hl : Z.of_nat (length (inbox (fst (spec_step fresh_pair filling)) false)) = 65536)
    by by vm_compute.
  assert (Ho : ∀ s, is_open (fst (spec_step fresh_pair filling)) s = true) by by intros [].
  generalize dependent (fst (spec_step fresh_pair filling)). intros p He Hsim1 Hl Ho.
  exists st1, (is_open p), (snd (spec_step fresh_pair filling)).
  destruct (channel_waiters_not_woken BQ.chunked 1 2 (λ _, CT_NONE) ∅ ltac:(lia) st1 p true [8] Hsim1)
    as [H _]; [apply Ho|done|done|].
  destruct (H (Ho false) Hl) as (st2 & Hw & Hoff). exists st2. split_and!; done.
Defined.

End Channel.
