(* ===== verification/Futex.v ===== *)
(** * Futexes
    (src/phantom/src/main/host/futex.c, futex_table.c, syscall/futex.c)

    A futex is a table of status listeners, one per waiting thread, each with
    a mark that it was woken.  The table of a host maps physical addresses to
    the futexes that exist at the moment: a wait creates one, and the last
    waiter that resumes removes it. *)

From S2P Require Import Prelude Descriptor Timer TimerFd.

Module Futex.
Import Desc.
Import Timer (timespec, tv_nsec, tv_sec, task).
#[local] Existing Instances TimerFd.sys_eta Timer.timer_eta.

(** ** Data *)

(** [f_listeners] are the entries of the hash table. *)
Record Futex := mkFutex {
  word : Z;
  f_listeners : gmap Z bool;
  f_referenceCount : Z;
}.

#[export] Instance futex_eta : Eta Futex := fun f =>
  mkFutex (word f) (f_listeners f) (f_referenceCount f).

(** The futexes in memory by address, and the host's table of them; the hash
    table inside it is only made for the first entry. *)
Record Futexes (X : Type) := mkFutexes {
  memory : gmap Z Futex;
  table : option (gmap Z Z);
  table_referenceCount : Z;
  rest : X;
}.
Arguments mkFutexes {X}. Arguments memory {X}. Arguments table {X}.
Arguments table_referenceCount {X}. Arguments rest {X}.

#[export] Instance futexes_eta {X} : Eta (Futexes X) := fun e =>
  mkFutexes (memory e) (table e) (table_referenceCount e) (rest e).

Section Futexes.
Context {X : Type}.

(** The simulation around the futexes: listeners and their callbacks. *)
Abbreviation W := (World (Futexes X)).

Context (notify : W → Z → Z → Z → option W) (freeObject : W → Z → option W).
(** The order in which the hash table gives its keys. *)
Context (keys : gmap Z bool → list Z).

Definition on_memory (w : W) (f : gmap Z Futex → gmap Z Futex) : W :=
  w <| external := (external w) <| memory := f (memory (external w)) |> |>.

Definition on_table (w : W) (t : option (gmap Z Z)) : W :=
  w <| external := (external w) <| table := t |> |>.

(** ** futex.c *)

Definition futex_new (w : W) (wd : Z) : W * Z :=
  let a := fresh (dom (memory (external w))) in
  (on_memory w <[a := mkFutex wd ∅ 1]>, a).

Definition _futex_free (w : W) (a : Z) : W := on_memory w (delete a).

Definition futex_ref (w : W) (a : Z) : option W :=
  f ← memory (external w) !! a;
  Some (on_memory w <[a := f <| f_referenceCount := f_referenceCount f + 1 |>]>).

Definition futex_unref (w : W) (a : Z) : option W :=
  f ← memory (external w) !! a;
  if negb (0 <? f_referenceCount f) then None
  else
    let f := f <| f_referenceCount := f_referenceCount f - 1 |> in
    let w := on_memory w <[a := f]> in
    Some (if f_referenceCount f =? 0 then _futex_free w a else w).

Definition futex_getAddress (w : W) (a : Z) : option Z :=
  f ← memory (external w) !! a; Some (word f).

(** The loop over the snapshot of the keys.  The listener is read again after
    its callback: steal and insert leave it marked, whatever the callback did
    to the entry. *)
Fixpoint wake_loop (w : W) (a numWakeups numWoken : Z) (items : list Z) : option (W * Z * list Z) :=
  match items with
  | [] => Some (w, numWoken, [])
  | listener :: items =>
      if negb (numWoken <? numWakeups) then Some (w, numWoken, [])
      else
        f ← memory (external w) !! a;
        match f_listeners f !! listener with
        | Some false =>
            '(w, called) ← statuslistener_onStatusChanged notify w listener
                             STATUS_FUTEX_WAKEUP STATUS_FUTEX_WAKEUP;
            f ← memory (external w) !! a;
            let w := on_memory w <[a := f <| f_listeners := <[listener := true]> (f_listeners f) |>]> in
            '(w, numWoken, more) ← wake_loop w a numWakeups (u32 (numWoken + 1)) items;
            Some (w, numWoken, called ++ more)
        | _ => wake_loop w a numWakeups numWoken items
        end
  end.

(** The third result lists the listeners whose callbacks ran. *)
Definition futex_wake (w : W) (a numWakeups : Z) : option (W * Z * list Z) :=
  f ← memory (external w) !! a;
  wake_loop w a numWakeups 0 (keys (f_listeners f)).

(** Inserting a key that is in the table frees the new copy of the key. *)
Definition futex_addListener (w : W) (a l : Z) : option W :=
  w ← statuslistener_ref w l;
  f ← memory (external w) !! a;
  let w' := on_memory w <[a := f <| f_listeners := <[l := false]> (f_listeners f) |>]> in
  if bool_decide (is_Some (f_listeners f !! l)) then statuslistener_unref freeObject w' l else Some w'.

Definition futex_removeListener (w : W) (a l : Z) : option W :=
  f ← memory (external w) !! a;
  if bool_decide (is_Some (f_listeners f !! l))
  then statuslistener_unref freeObject
         (on_memory w <[a := f <| f_listeners := delete l (f_listeners f) |>]>) l
  else Some w.

Definition futex_getListenerCount (w : W) (a : Z) : option Z :=
  f ← memory (external w) !! a; Some (Z.of_nat (size (f_listeners f))).

(** ** futex_table.c *)

Definition futextable_new (x : X) : Futexes X := mkFutexes ∅ None 1 x.

Definition futextable_ref (w : W) : W :=
  w <| external := (external w) <| table_referenceCount := table_referenceCount (external w) + 1 |> |>.

(** Destroying the hash table drops its reference to every futex. *)
Definition _futextable_free (w : W) : option W :=
  match table (external w) with
  | Some t => foldl (λ w e, w ← w; futex_unref w e.2) (Some (on_table w None)) (map_to_list t)
  | None => Some w
  end.

Definition futextable_unref (w : W) : option W :=
  let c := table_referenceCount (external w) - 1 in
  let w := w <| external := (external w) <| table_referenceCount := c |> |> in
  if negb (0 <=? c) then None else if c =? 0 then _futextable_free w else Some w.

Definition futextable_add (w : W) (a : Z) : option (W * bool) :=
  index ← futex_getAddress w a;
  let t := default ∅ (table (external w)) in
  if bool_decide (is_Some (t !! index)) then Some (on_table w (Some t), false)
  else Some (on_table w (Some (<[index := a]> t)), true).

Definition futextable_remove (w : W) (a : Z) : option (W * bool) :=
  index ← futex_getAddress w a;
  match table (external w) with
  | Some t =>
      match t !! index with
      | Some b => w ← futex_unref (on_table w (Some (delete index t))) b; Some (w, true)
      | None => Some (w, false)
      end
  | None => Some (w, false)
  end.

Definition futextable_get (w : W) (ptr : Z) : option Z :=
  match table (external w) with Some t => t !! ptr | None => None end.

(** ** syscall/futex.c *)

Definition FUTEX_WAIT : Z := 0.
Definition FUTEX_WAKE : Z := 1.
Definition FUTEX_WAIT_BITSET : Z := 9.
Definition FUTEX_WAKE_BITSET : Z := 10.
Definition FUTEX_PRIVATE_FLAG : Z := 128.
Definition FUTEX_CLOCK_REALTIME : Z := 256.
Definition FUTEX_BITSET_MATCH_ANY : Z := 4294967295.

(** A blocked call waits for the futex at an address, and for its timer when
    the flag is set. *)
Inductive SysCallReturn := DONE (retval : Z) | BLOCK (trigger : Z) (timeout : bool).

(** The futex trigger of [syscallcondition_new]: the condition holds
    references to the futex and to the timer. *)
Definition condition_on_futex (w : W) (sys : TimerFd.SysCallHandler) (trigger : Z) (timeout : bool)
    : option (W * TimerFd.SysCallHandler * SysCallReturn) :=
  let t := TimerFd.sys_timer sys in
  let sys := if timeout
             then sys <| TimerFd.sys_timer := t <| Timer.super := descriptor_ref (Timer.super t) |> |>
             else sys in
  w ← futex_ref w trigger;
  Some (w, sys, BLOCK trigger timeout).

Section Calls.

(** The memory of the managed process, by its addresses, and the time. *)
Context (readTimespec : Z → option timespec) (readWord : Z → option Z) (physical : Z → Z) (now : Z).

Definition _syscallhandler_futexWaitHelper (w : W) (sys : TimerFd.SysCallHandler)
    (futexVPtr expectedVal timeoutVPtr : Z) (type : TimerFd.TimeoutType)
    : option (W * TimerFd.SysCallHandler * list task * SysCallReturn) :=
  let blocked := TimerFd._syscallhandler_wasBlocked sys in
  let done r := Some (w, sys, [], DONE r) in
  let timeout := if timeoutVPtr =? 0 then Some None
                 else match readTimespec timeoutVPtr with Some t => Some (Some t) | None => None end in
  match timeout with
  | None => done (- EFAULT)
  | Some timeout =>
      if match timeout with
         | Some t => negb ((0 <=? tv_nsec t) && (tv_nsec t <=? 999999999))
         | None => false
         end then done (- EINVAL)
      else
        match readWord futexVPtr with
        | None => done (- EFAULT)
        | Some futexVal =>
            if negb blocked && negb (futexVal =? u32 expectedVal) then done (- EAGAIN)
            else
              let futexPPtr := physical futexVPtr in
              let futex := futextable_get w futexPPtr in
              if blocked then
                a ← futex;
                let result := if bool_decide (timeout ≠ None) && TimerFd._syscallhandler_didListenTimeoutExpire sys
                              then - ETIMEDOUT else 0 in
                n ← futex_getListenerCount w a;
                w ← (if n =? 0 then
                       '(w, success) ← futextable_remove w a; if (success : bool) then Some w else None
                     else Some w);
                Some (w, sys, [], DONE result)
              else
                '(w, a) ← (match futex with
                           | Some a => Some (w, a)
                           | None =>
                               let '(w, a) := futex_new w futexPPtr in
                               '(w, success) ← futextable_add w a;
                               if (success : bool) then Some (w, a) else None
                           end);
                '(sys, tasks) ← (match timeout with
                                 | Some _ => TimerFd._syscallhandler_setListenTimeout sys now timeout type
                                 | None => Some (sys, [])
                                 end);
                '(w, sys, ret) ← condition_on_futex w sys a (bool_decide (timeout ≠ None));
                Some (w, sys, tasks, ret)
        end
  end.

Definition _syscallhandler_futexWakeHelper (w : W) (futexVPtr numWakeups : Z) : option (W * SysCallReturn) :=
  match futextable_get w (physical futexVPtr) with
  | Some a =>
      if 0 <? numWakeups then
        '(w, numWoken, _) ← futex_wake w a numWakeups; Some (w, DONE (i32 numWoken))
      else Some (w, DONE 0)
  | None => Some (w, DONE 0)
  end.

(** The arguments are the 64-bit registers. *)
Definition syscallhandler_futex (w : W) (sys : TimerFd.SysCallHandler)
    (uaddrptr op val timeoutptr val3 : Z)
    : option (W * TimerFd.SysCallHandler * list task * SysCallReturn) :=
  let futex_op := i32 op in
  let val := i32 val in
  let val3 := i32 val3 in
  let possible_options := Z.lor FUTEX_PRIVATE_FLAG FUTEX_CLOCK_REALTIME in
  let operation := Z.ldiff futex_op possible_options in
  let wake := '(w, ret) ← _syscallhandler_futexWakeHelper w uaddrptr val; Some (w, sys, [], ret) in
  if uaddrptr =? 0 then Some (w, sys, [], DONE (- EFAULT))
  else if operation =? FUTEX_WAIT then
    _syscallhandler_futexWaitHelper w sys uaddrptr val timeoutptr TimerFd.TIMEOUT_RELATIVE
  else if operation =? FUTEX_WAKE then wake
  else if (operation =? FUTEX_WAIT_BITSET) && (u32 val3 =? FUTEX_BITSET_MATCH_ANY) then
    _syscallhandler_futexWaitHelper w sys uaddrptr val timeoutptr TimerFd.TIMEOUT_ABSOLUTE
  else if (operation =? FUTEX_WAKE_BITSET) && (u32 val3 =? FUTEX_BITSET_MATCH_ANY) then wake
  else Some (w, sys, [], DONE (- ENOSYS)).

Definition syscallhandler_get_robust_list : SysCallReturn := DONE (- ENOSYS).
Definition syscallhandler_set_robust_list : SysCallReturn := DONE (- ENOSYS).

End Calls.

(** ** Proofs *)

(** A callback that leaves futexes and listeners alone, as the program's do:
    they schedule a task. *)
Definition quiet : Prop :=
  ∀ w g o x, ∃ w', notify w g o x = Some w' ∧ external w' = external w ∧ statuslisteners w' = statuslisteners w.

(** A listener that a blocked call attached. *)
Definition attached (w : W) (l : Z) : Prop :=
  ∃ s, statuslisteners w !! l = Some s ∧ monitoring s = STATUS_FUTEX_WAKEUP ∧ filter s = SLF_ALWAYS.

Lemma onStatusChanged_attached w l :
  quiet → attached w l →
  ∃ w', statuslistener_onStatusChanged notify w l STATUS_FUTEX_WAKEUP STATUS_FUTEX_WAKEUP = Some (w', [l]) ∧
    external w' = external w ∧ statuslisteners w' = statuslisteners w.
Proof.
  intros Hq (s & Hs & Hm & Hf). unfold statuslistener_onStatusChanged, _statuslistener_invokeNotifyFunc,
    _statuslistener_shouldNotify. rewrite Hs. cbn [mbind option_bind]. rewrite Hf, Hm.
  change (has_flag STATUS_FUTEX_WAKEUP STATUS_FUTEX_WAKEUP) with true. cbn iota.
  destruct (negb _); [|by exists w].
  destruct (Hq w (notifyFunc s) (callbackObject s) (callbackArgument s)) as (w' & -> & ? & ?). by exists w'.
Qed.

(** The futex after the listeners [called] were woken. *)
Definition marked (f : Futex) (called : list Z) : Futex :=
  f <| f_listeners := foldr (λ l m, <[l := true]> m) (f_listeners f) called |>.

Lemma marked_lookup f called l :
  f_listeners (marked f called) !! l = if bool_decide (l ∈ called) then Some true else f_listeners f !! l.
Proof.
  cbn. induction called as [|c called IH]; [done|]. cbn. destruct (decide (l = c)) as [->|Hl].
  - by rewrite lookup_insert_eq, bool_decide_true by left.
  - rewrite lookup_insert_ne, IH by done.
    assert (bool_decide (l ∈ called) = bool_decide (l ∈ c :: called)) as ->; [|done].
    apply bool_decide_ext. rewrite elem_of_cons. split; [by right|by intros [?|?]].
Qed.

Lemma wake_loop_ok a n items : ∀ w f k,
  quiet → memory (external w) !! a = Some f → NoDup items →
  (∀ l, l ∈ items → attached w l) →
  0 ≤ k ≤ n → n < 2 ^ 32 →
  ∃ w' called, wake_loop w a n k items = Some (w', k + Z.of_nat (length called), called) ∧
    memory (external w') !! a = Some (marked f (reverse called)) ∧
    (∀ b, b ≠ a → memory (external w') !! b = memory (external w) !! b) ∧
    table (external w') = table (external w) ∧ statuslisteners w' = statuslisteners w ∧
    called `sublist_of` items ∧ (∀ l, l ∈ called → f_listeners f !! l = Some false) ∧
    k + Z.of_nat (length called) ≤ n ∧
    (k + Z.of_nat (length called) < n → ∀ l, l ∈ items → f_listeners f !! l = Some false → l ∈ called).
Proof.
  induction items as [|l items IH]; intros w f k Hq Hf Hnd Hat Hk Hn; cbn [wake_loop].
  - exists w, []. rewrite Z.add_0_r. split_and!; try done; try lia; [by destruct f|..];
      by intros; set_solver.
  - apply NoDup_cons in Hnd as [Hni Hnd].
    destruct (Z.ltb_spec k n); cbn [negb].
    2:{ exists w, []. cbn [length Z.of_nat]. rewrite Z.add_0_r. split_and!; try done; try lia.
        - by destruct f.
        - apply sublist_nil_l.
        - by intros l' Hl'%not_elem_of_nil. }
    rewrite Hf. cbn [mbind option_bind]. destruct (f_listeners f !! l) as [[]|] eqn:El.
    + destruct (IH w f k) as (w' & called & -> & H1 & H2 & H3 & H4 & H5 & H6 & H7 & H8);
        [done|done|done|intros; apply Hat; by right|done|done|].
      exists w', called. split_and!; try done; [by apply sublist_cons|].
      intros Hlt l' Hl' Hu. apply elem_of_cons in Hl' as [->|Hl']; [congruence|]. by apply H8.
    + destruct (onStatusChanged_attached w l Hq) as (w1 & -> & Ee & Es); [apply Hat; left|].
      cbn [mbind option_bind]. rewrite Ee, Hf. cbn [mbind option_bind].
      set (f1 := f <| f_listeners := _ |>). set (w2 := on_memory w1 _).
      rewrite u32_small by lia.
      destruct (IH w2 f1 (k + 1)) as (w' & called & -> & H1 & H2 & H3 & H4 & H5 & H6 & H7 & H8).
      * done.
      * unfold w2. cbn. apply lookup_insert_eq.
      * done.
      * intros l' Hl'. unfold attached, w2. cbn. rewrite Es. apply Hat. by right.
      * lia.
      * done.
      * assert (Hlc : l ∉ called) by (intros Hc; apply Hni; by eapply elem_of_sublist).
        assert (Hf1 : ∀ l', l' ≠ l → f_listeners f1 !! l' = f_listeners f !! l')
          by (intros; unfold f1; cbn; by rewrite lookup_insert_ne).
        cbn [mbind option_bind]. exists w', (l :: called). cbn [length].
        split_and!; try done; [do 3 f_equal; lia| | | | | | |lia|].
        -- rewrite H1. f_equal. unfold marked. rewrite reverse_cons, foldr_app. by destruct f.
        -- intros b Hb. rewrite H2 by done. unfold w2. cbn. rewrite lookup_insert_ne, Ee by done. done.
        -- rewrite H3. unfold w2. cbn. by rewrite Ee.
        -- by rewrite H4.
        -- by apply sublist_skip.
        -- intros l' Hl'. apply elem_of_cons in Hl' as [->|Hl']; [done|]. rewrite <-Hf1; [by apply H6|].
           by intros ->.
        -- intros Hlt l' Hl' Hu. apply elem_of_cons in Hl' as [->|Hl']; [left|]. right.
           apply H8; [lia|done|]. rewrite Hf1; [done|]. by intros ->.
    + destruct (IH w f k) as (w' & called & -> & H1 & H2 & H3 & H4 & H5 & H6 & H7 & H8);
        [done|done|done|intros; apply Hat; by right|done|done|].
      exists w', called. split_and!; try done; [by apply sublist_cons|].
      intros Hlt l' Hl' Hu. apply elem_of_cons in Hl' as [->|Hl']; [congruence|]. by apply H8.
Qed.

(** *** Properties *)

(** The hash table lists every key once. *)
Definition lists_keys : Prop := ∀ m, keys m ≡ₚ (map_to_list m).*1.

Lemma keys_elem m l : lists_keys → l ∈ keys m ↔ is_Some (m !! l).
Proof.
  intros Hk. rewrite (Hk m), list_elem_of_fmap. split.
  - intros ([l' b] & -> & Hin). apply elem_of_map_to_list in Hin. by eexists.
  - intros [b Hb]. exists (l, b). split; [done|]. by apply elem_of_map_to_list.
Qed.

Lemma keys_NoDup m : lists_keys → NoDup (keys m).
Proof. intros Hk. rewrite (Hk m). apply NoDup_fst_map_to_list. Qed.

(** Waking a futex calls the callbacks of as many listeners as asked that
    were not woken before, each once, and of all of them when there are fewer;
    it returns their number, marks exactly these, and changes nothing else. *)
Theorem futex_wake_correct w a f n :
  quiet → lists_keys → memory (external w) !! a = Some f →
  (∀ l, is_Some (f_listeners f !! l) → attached w l) → 0 ≤ n < 2 ^ 32 →
  ∃ w' called f', futex_wake w a n = Some (w', Z.of_nat (length called), called) ∧
    NoDup called ∧ (∀ l, l ∈ called → f_listeners f !! l = Some false) ∧
    Z.of_nat (length called) ≤ n ∧
    (Z.of_nat (length called) < n → ∀ l, f_listeners f' !! l ≠ Some false) ∧
    memory (external w') !! a = Some f' ∧ word f' = word f ∧ f_referenceCount f' = f_referenceCount f ∧
    (∀ l, f_listeners f' !! l = if bool_decide (l ∈ called) then Some true else f_listeners f !! l) ∧
    (∀ b, b ≠ a → memory (external w') !! b = memory (external w) !! b) ∧
    table (external w') = table (external w) ∧ statuslisteners w' = statuslisteners w.
Proof.
  intros Hq Hk Hf Hat Hn. unfold futex_wake. rewrite Hf. cbn [mbind option_bind].
  destruct (wake_loop_ok a n (keys (f_listeners f)) w f 0 Hq Hf (keys_NoDup _ Hk))
    as (w' & called & E & Hf' & Hm & Ht & Hs & Hsub & Hu & Hle & Hall);
    [intros l Hl; by apply Hat, keys_elem|lia|lia|].
  assert (Hl' : ∀ l, f_listeners (marked f (reverse called)) !! l
                     = if bool_decide (l ∈ called) then Some true else f_listeners f !! l).
  { intros l. rewrite marked_lookup.
    assert (bool_decide (l ∈ reverse called) = bool_decide (l ∈ called)) as ->; [|done].
    apply bool_decide_ext, elem_of_reverse. }
  exists w', called, (marked f (reverse called)). split_and!; try done.
  - eapply sublist_NoDup; [by apply keys_NoDup|done].
  - intros Hlt l Hl. rewrite Hl' in Hl. case_bool_decide as Hc; [done|].
    apply Hc, Hall; [lia| |done]. apply keys_elem; [done|by eexists].
Qed.

(** The state of one futex during a wait. *)
Record one_futex (w w' : W) (p a : Z) (m : gmap Z bool) (refs : Z) (t : option Z) : Prop := mkOne {
  o_memory : memory (external w') = <[a := mkFutex p m refs]> (memory (external w));
  o_fresh : memory (external w) !! a = None;
  o_table : futextable_get w' p = t;
}.

Section Cycle.
Context (readTimespec : Z → option timespec) (readWord : Z → option Z) (physical : Z → Z) (now : Z).

Abbreviation futex := (syscallhandler_futex readTimespec readWord physical now).

(** The timeout argument, and what setting it does to the handler's timer. *)
Definition timeout_is (tp : Z) (timeout : option timespec) : Prop :=
  (tp = 0 ∧ timeout = None) ∨
  (tp ≠ 0 ∧ ∃ t, readTimespec tp = Some t ∧ 0 ≤ tv_nsec t ≤ 999999999 ∧ timeout = Some t).

Definition armed (sys : TimerFd.SysCallHandler) (timeout : option timespec)
    : option (TimerFd.SysCallHandler * list task) :=
  match timeout with
  | Some _ =>
      '(sys, tasks) ← TimerFd._syscallhandler_setListenTimeout sys now timeout TimerFd.TIMEOUT_RELATIVE;
      let t := TimerFd.sys_timer sys in
      Some (sys <| TimerFd.sys_timer := t <| Timer.super := descriptor_ref (Timer.super t) |> |>, tasks)
  | None => Some (sys, [])
  end.

Lemma wait_creates w sys u v tp timeout sys' tasks :
  futextable_get w (physical u) = None → u ≠ 0 → readWord u = Some (u32 (i32 v)) →
  TimerFd._syscallhandler_wasBlocked sys = false → timeout_is tp timeout →
  armed sys timeout = Some (sys', tasks) →
  ∃ a w1, futex w sys u FUTEX_WAIT v tp 0 = Some (w1, sys', tasks, BLOCK a (bool_decide (timeout ≠ None))) ∧
    one_futex w w1 (physical u) a ∅ 2 (Some a) ∧ statuslisteners w1 = statuslisteners w.
Proof.
  intros Hg Hu Hr Hb Htp Harm. unfold syscallhandler_futex.
  rewrite (proj2 (Z.eqb_neq u 0)) by done.
  change (Z.ldiff (i32 FUTEX_WAIT) (Z.lor FUTEX_PRIVATE_FLAG FUTEX_CLOCK_REALTIME)) with 0.
  change (0 =? FUTEX_WAIT) with true. cbn iota. unfold _syscallhandler_futexWaitHelper.
  assert ((if tp =? 0 then Some None
           else match readTimespec tp with Some t => Some (Some t) | None => None end) = Some timeout) as ->.
  { destruct Htp as [[-> ->]|(Htp & t & -> & _ & ->)]; [done|]. by rewrite (proj2 (Z.eqb_neq _ _)). }
  assert ((match timeout with
           | Some t => negb ((0 <=? tv_nsec t) && (tv_nsec t <=? 999999999)) | None => false end) = false) as ->.
  { destruct Htp as [[-> ->]|(Htp & t & _ & Ht & ->)]; [done|]. by rewrite !(proj2 (Z.leb_le _ _)) by lia. }
  cbn iota. rewrite Hr, Hb. cbn [negb andb]. rewrite Z.eqb_refl. cbn [negb]. rewrite Hg.
  set (a := fresh (dom (memory (external w)))).
  assert (Ha : memory (external w) !! a = None) by (apply not_elem_of_dom, is_fresh).
  assert (Hd : default ∅ (table (external w)) !! physical u = None)
    by (unfold futextable_get in Hg; by destruct (table (external w))).
  unfold futex_new, futextable_add, futex_getAddress. fold a. cbn -[fresh TimerFd._syscallhandler_setListenTimeout].
  rewrite lookup_insert_eq. cbn -[fresh TimerFd._syscallhandler_setListenTimeout]. rewrite Hd. rewrite (bool_decide_false (is_Some None)) by by intros [??].
  cbn -[fresh TimerFd._syscallhandler_setListenTimeout]. unfold condition_on_futex, futex_ref.
  set (w1 := on_table _ _).
  assert (Hm1 : memory (external w1) !! a = Some (mkFutex (physical u) ∅ 1)) by apply lookup_insert_eq.
  rewrite Hm1. exists a, (on_memory w1 <[a := (mkFutex (physical u) ∅ 1) <| f_referenceCount := 1 + 1 |>]>). split; [|split; [split|]]; cycle 1.
  - cbn -[fresh TimerFd._syscallhandler_setListenTimeout]. by rewrite insert_insert_eq.
  - done.
  - unfold futextable_get. cbn. apply lookup_insert_eq.
  - done.
  - destruct timeout as [t|]; [|by injection Harm as <- <-]. unfold armed in Harm.
    rewrite bool_decide_true by done.
    destruct (TimerFd._syscallhandler_setListenTimeout _ _ _ _) as [[sys1 tasks1]|]; [|done].
    injection Harm as <- <-. done.
Qed.

Lemma listener_attaches w w1 p a l s :
  one_futex w w1 p a ∅ 2 (Some a) → statuslisteners w1 !! l = Some s →
  ∃ w2, futex_addListener w1 a l = Some w2 ∧ one_futex w w2 p a {[l := false]} 2 (Some a) ∧
    statuslisteners w2 = <[l := s <| l_referenceCount := l_referenceCount s + 1 |>]> (statuslisteners w1).
Proof.
  intros [Hm Hf Ht] Hs. unfold futex_addListener, statuslistener_ref, with_listener. rewrite Hs. cbn.
  rewrite Hm, lookup_insert_eq. cbn. eexists. split; [done|]. split; [|done].
  split; cbn; [|done|done]. by rewrite Hm, insert_insert_eq.
Qed.

Lemma wake_wakes w w2 sys u a l s n :
  quiet → lists_keys → u ≠ 0 → 0 < i32 n → one_futex w w2 (physical u) a {[l := false]} 2 (Some a) →
  statuslisteners w2 !! l = Some s → monitoring s = STATUS_FUTEX_WAKEUP → filter s = SLF_ALWAYS →
  ∃ w3, futex w2 sys u FUTEX_WAKE n 0 0 = Some (w3, sys, [], DONE 1) ∧
    one_futex w w3 (physical u) a {[l := true]} 2 (Some a) ∧ statuslisteners w3 = statuslisteners w2.
Proof.
  intros Hq Hk Hu Hn [Hm Hf Ht] Hs Hmon Hfil. unfold syscallhandler_futex.
  rewrite (proj2 (Z.eqb_neq u 0)) by done.
  change (Z.ldiff (i32 FUTEX_WAKE) (Z.lor FUTEX_PRIVATE_FLAG FUTEX_CLOCK_REALTIME)) with FUTEX_WAKE.
  change (FUTEX_WAKE =? FUTEX_WAIT) with false. change (FUTEX_WAKE =? FUTEX_WAKE) with true. cbn iota.
  unfold _syscallhandler_futexWakeHelper. rewrite Ht, (proj2 (Z.ltb_lt _ _)) by done.
  unfold futex_wake. rewrite Hm, lookup_insert_eq. cbn [mbind option_bind f_listeners].
  assert (Hkeys : keys {[l := false]} = [l]).
  { apply Permutation_singleton_r. rewrite (Hk {[l := false]}), map_to_list_singleton. done. }
  rewrite Hkeys. pose proof (i32_range n).
  set (f0 := mkFutex (physical u) {[l := false]} 2).
  destruct (wake_loop_ok a (i32 n) [l] w2 f0 0 Hq) as (w3 & called & E & H1 & H2 & H3 & H4 & H5 & H6 & H7 & H8).
  - by rewrite Hm, lookup_insert_eq.
  - apply NoDup_singleton.
  - intros l' ->%list_elem_of_singleton. by exists s.
  - lia.
  - lia.
  - assert (called = [l]) as ->.
    { destruct called as [|c [|c' called]].
      - assert (l ∈ []) as Hin; [|by apply not_elem_of_nil in Hin]. apply H8; [cbn; lia|left|].
        cbn. apply lookup_singleton_eq.
      - assert (c ∈ [l]) as ->%list_elem_of_singleton; [|done]. eapply elem_of_sublist; [|exact H5]. left.
      - apply sublist_length in H5. cbn in H5. lia. }
    rewrite E. cbn [mbind option_bind]. exists w3. split; [done|].
    split; [|done]. split.
    + apply map_eq. intros b. destruct (decide (b = a)) as [->|Hb].
      * rewrite H1, lookup_insert_eq. f_equal. unfold marked, f0. cbn. by rewrite insert_singleton_eq.
      * by rewrite H2, Hm, !lookup_insert_ne by done.
    + done.
    + unfold futextable_get in *. by rewrite H3.
Qed.

Lemma listener_detaches w w3 p a l s :
  one_futex w w3 p a {[l := true]} 2 (Some a) → statuslisteners w3 !! l = Some s →
  1 < l_referenceCount s →
  ∃ w4, futex_removeListener w3 a l = Some w4 ∧ one_futex w w4 p a ∅ 2 (Some a).
Proof.
  intros [Hm Hf Ht] Hs Hr. unfold futex_removeListener. rewrite Hm, lookup_insert_eq. cbn.
  rewrite lookup_singleton_eq, bool_decide_true by by eexists.
  unfold statuslistener_unref, with_listener. cbn. rewrite Hs. cbn. rewrite lookup_insert_eq. cbn.
  rewrite (proj2 (Z.leb_le 0 _)) by lia. cbn. rewrite (proj2 (Z.eqb_neq _ 0)) by lia.
  eexists. split; [done|]. split; cbn; [|done|done].
  by rewrite Hm, insert_insert_eq, delete_singleton_eq.
Qed.

Lemma resume_cleans w w4 sys u v a :
  u ≠ 0 → is_Some (readWord u) → TimerFd._syscallhandler_wasBlocked sys = true →
  one_futex w w4 (physical u) a ∅ 2 (Some a) →
  ∃ w5, futex w4 sys u FUTEX_WAIT v 0 0 = Some (w5, sys, [], DONE 0) ∧
    one_futex w w5 (physical u) a ∅ 1 None.
Proof.
  intros Hu [x Hx] Hb [Hm Hf Ht]. unfold syscallhandler_futex.
  rewrite (proj2 (Z.eqb_neq u 0)) by done.
  change (Z.ldiff (i32 FUTEX_WAIT) (Z.lor FUTEX_PRIVATE_FLAG FUTEX_CLOCK_REALTIME)) with 0.
  unfold _syscallhandler_futexWaitHelper. change (0 =? FUTEX_WAIT) with true. change (0 =? 0) with true.
  cbn iota. rewrite Hx, Hb. cbn [negb andb]. rewrite Ht. cbn [mbind option_bind].
  unfold futex_getListenerCount, futextable_remove, futex_getAddress.
  rewrite Hm, lookup_insert_eq. cbn [mbind option_bind f_listeners word].
  rewrite map_size_empty. change (Z.of_nat 0 =? 0) with true. cbn iota.
  unfold futextable_get in Ht. destruct (table (external w4)) as [t|] eqn:Et; [|done]. rewrite Ht.
  unfold futex_unref. cbn. rewrite Hm, lookup_insert_eq. cbn. eexists. split; [done|].
  change (2 - 1 =? 0) with false. split; cbn; [by rewrite Hm, insert_insert_eq|done|]. unfold futextable_get. cbn. apply lookup_delete_eq.
Qed.

(** C34: the life of a wait.  A thread that waits on a word with the expected
    value blocks on a futex of its own; a wake by another thread finds its
    listener and reports one thread; when the thread runs again its call
    returns 0, removes the futex from the table, and the last reference frees
    it, so that memory is as before. *)
Theorem futex_wait_wake_cycle w sys waker blocked u v n l s :
  quiet → lists_keys → futextable_get w (physical u) = None → u ≠ 0 →
  readWord u = Some (u32 (i32 v)) → TimerFd._syscallhandler_wasBlocked sys = false →
  TimerFd._syscallhandler_wasBlocked blocked = true →
  statuslisteners w !! l = Some s → monitoring s = STATUS_FUTEX_WAKEUP → filter s = SLF_ALWAYS →
  0 < l_referenceCount s → 0 < i32 n →
  ∃ a w1 w2 w3 w4 w5 w6,
    futex w sys u FUTEX_WAIT v 0 0 = Some (w1, sys, [], BLOCK a false) ∧
    futex_addListener w1 a l = Some w2 ∧
    futex w2 waker u FUTEX_WAKE n 0 0 = Some (w3, waker, [], DONE 1) ∧
    futex_removeListener w3 a l = Some w4 ∧
    futex w4 blocked u FUTEX_WAIT v 0 0 = Some (w5, blocked, [], DONE 0) ∧
    futextable_get w5 (physical u) = None ∧
    futex_unref w5 a = Some w6 ∧ memory (external w6) = memory (external w).
Proof.
  intros Hq Hk Hg Hu Hr Hsys Hbl Hl Hmon Hfil Hrc Hn.
  destruct (wait_creates w sys u v 0 None sys [] Hg Hu Hr Hsys ltac:(by left) eq_refl)
    as (a & w1 & E1 & H1 & Es1). rewrite <-Es1 in Hl.
  destruct (listener_attaches w w1 (physical u) a l s H1 Hl) as (w2 & E2 & H2 & Es2).
  set (s2 := s <| l_referenceCount := l_referenceCount s + 1 |>) in *.
  assert (Hl2 : statuslisteners w2 !! l = Some s2) by (rewrite Es2; apply lookup_insert_eq).
  destruct (wake_wakes w w2 waker u a l s2 n Hq Hk Hu Hn H2 Hl2) as (w3 & E3 & H3 & Es3); [done|done|].
  rewrite <-Es3 in Hl2.
  destruct (listener_detaches w w3 (physical u) a l s2 H3 Hl2) as (w4 & E4 & H4); [cbn; lia|].
  destruct (resume_cleans w w4 blocked u v a Hu ltac:(by eexists) Hbl H4) as (w5 & E5 & [Hm Hf Ht]).
  exists a, w1, w2, w3, w4, w5. unfold futex_unref. rewrite Hm, lookup_insert_eq. cbn.
  change (1 - 1 =? 0) with true. eexists. split_and!; try done.
  cbn. rewrite Hm, insert_insert_eq. by apply delete_insert_id.
Qed.

(** The operations that exist. *)
Definition operation (op : Z) : Z := Z.ldiff (i32 op) (Z.lor FUTEX_PRIVATE_FLAG FUTEX_CLOCK_REALTIME).

Definition is_wait (op val3 : Z) : Prop :=
  operation op = FUTEX_WAIT ∨
  (operation op = FUTEX_WAIT_BITSET ∧ u32 (i32 val3) = FUTEX_BITSET_MATCH_ANY).

Definition is_wake (op val3 : Z) : Prop :=
  operation op = FUTEX_WAKE ∨
  (operation op = FUTEX_WAKE_BITSET ∧ u32 (i32 val3) = FUTEX_BITSET_MATCH_ANY).

Lemma wait_op w sys u op v tp val3 :
  u ≠ 0 → is_wait op val3 →
  ∃ type, futex w sys u op v tp val3
          = _syscallhandler_futexWaitHelper readTimespec readWord physical now w sys u (i32 v) tp type.
Proof.
  intros Hu Hw. unfold syscallhandler_futex. rewrite (proj2 (Z.eqb_neq u 0)) by done. fold (operation op).
  destruct Hw as [->|[-> Hv]]; [by eexists|]. rewrite Hv. by eexists.
Qed.

(** A call that is refused changes nothing, and the checks come in this
    order: a null address, an operation or bitset that is not supported, an
    unreadable timeout, nanoseconds out of range, an unreadable word, a word
    that differs from the expected value. *)
Theorem futex_refusals w sys u op v tp val3 :
  let refused e := futex w sys u op v tp val3 = Some (w, sys, [], DONE (- e)) in
  (u = 0 → refused EFAULT) ∧
  (u ≠ 0 → ¬ is_wait op val3 → ¬ is_wake op val3 → refused ENOSYS) ∧
  (u ≠ 0 → is_wait op val3 →
    (tp ≠ 0 → readTimespec tp = None → refused EFAULT) ∧
    (∀ t, tp ≠ 0 → readTimespec tp = Some t → ¬ (0 ≤ tv_nsec t ≤ 999999999) → refused EINVAL) ∧
    (∀ timeout, timeout_is tp timeout →
      (readWord u = None → refused EFAULT) ∧
      (∀ x, readWord u = Some x → TimerFd._syscallhandler_wasBlocked sys = false → x ≠ u32 (i32 v) →
       refused EAGAIN))).
Proof.
  intros refused. subst refused. split; [|split].
  - intros ->. done.
  - intros Hu Hw Hk. unfold syscallhandler_futex. rewrite (proj2 (Z.eqb_neq u 0)) by done.
    fold (operation op). unfold is_wait, is_wake in *.
    destruct (Z.eqb_spec (operation op) FUTEX_WAIT); [tauto|].
    destruct (Z.eqb_spec (operation op) FUTEX_WAKE); [tauto|].
    destruct (Z.eqb_spec (operation op) FUTEX_WAIT_BITSET), (Z.eqb_spec (operation op) FUTEX_WAKE_BITSET),
      (Z.eqb_spec (u32 (i32 val3)) FUTEX_BITSET_MATCH_ANY); cbn; tauto || done.
  - intros Hu Hw. destruct (wait_op w sys u op v tp val3 Hu Hw) as [type ->].
    unfold _syscallhandler_futexWaitHelper. split_and!.
    + intros Htp ->. by rewrite (proj2 (Z.eqb_neq tp 0)).
    + intros t Htp -> Ht. rewrite (proj2 (Z.eqb_neq tp 0)) by done.
      destruct (Z.leb_spec 0 (tv_nsec t)), (Z.leb_spec (tv_nsec t) 999999999); cbn; [lia|done..].
    + intros timeout Htp.
      assert ((if tp =? 0 then Some None
               else match readTimespec tp with Some t => Some (Some t) | None => None end) = Some timeout ∧
              (match timeout with
               | Some t => negb ((0 <=? tv_nsec t) && (tv_nsec t <=? 999999999)) | None => false end) = false)
        as [-> ->].
      { destruct Htp as [[-> ->]|(Hz & t & -> & Ht & ->)]; [done|].
        by rewrite (proj2 (Z.eqb_neq _ _)), !(proj2 (Z.leb_le _ _)) by lia. }
      cbn iota. split; [by intros ->|]. intros x -> Hb Hx. rewrite Hb, (proj2 (Z.eqb_neq _ _)) by done. done.
Qed.

(** A wait with a timeout of zero (or of negative whole seconds) blocks
    without arming the timer: no task is scheduled and the timer is disarmed,
    so that, unlike ETIMEDOUT at once, the thread stays blocked until somebody
    wakes it. *)
Theorem futex_zero_timeout_blocks w sys u v tp t :
  futextable_get w (physical u) = None → u ≠ 0 → readWord u = Some (u32 (i32 v)) →
  TimerFd._syscallhandler_wasBlocked sys = false →
  tp ≠ 0 → readTimespec tp = Some t → tv_sec t ≤ 0 → tv_nsec t = 0 →
  ∃ w' sys' a, futex w sys u FUTEX_WAIT v tp 0 = Some (w', sys', [], BLOCK a true) ∧
    Timer.nextExpireTime (TimerFd.sys_timer sys') = 0 ∧
    TimerFd._syscallhandler_didListenTimeoutExpire sys' = false.
Proof.
  intros Hg Hu Hr Hb Htp Ht Hsec Hns.
  assert (Hv : Timer._timer_timeIsValid t = true).
  { unfold Timer._timer_timeIsValid. by rewrite Hns. }
  assert (∃ sys', armed sys (Some t) = Some (sys', []) ∧
    Timer.nextExpireTime (TimerFd.sys_timer sys') = 0 ∧
    TimerFd._syscallhandler_didListenTimeoutExpire sys' = false) as (sys' & Harm & Hnext & Hexp).
  { unfold armed, TimerFd._syscallhandler_setListenTimeout, Timer.timer_setTime.
    change (default (Timer.mkTimespec 0 0) (Some t)) with t.
    cbn [Timer.it_value Timer.it_interval]. rewrite Hv.
    change (Timer._timer_timeIsValid (Timer.mkTimespec 0 0)) with true. cbn.
    rewrite Hns, (proj2 (Z.ltb_ge _ _)) by done. cbn. eexists. split; [done|]. by split. }
  destruct (wait_creates w sys u v tp (Some t) sys' [] Hg Hu Hr Hb) as (a & w' & E & _).
  - right. split; [done|]. exists t. split_and!; [done|lia|lia|done].
  - done.
  - exists w', sys', a. by rewrite E.
Qed.

End Cycle.
End Futexes.

(** ** Witnesses *)

Definition demo_notify (w : World (Futexes unit)) (g o x : Z) : option (World (Futexes unit)) := Some w.
Definition demo_keys (m : gmap Z bool) : list Z := (map_to_list m).*1.
Definition demo_listener : StatusListener := mkListener STATUS_FUTEX_WAKEUP SLF_ALWAYS 1 50 0 0 0 1.
Definition demo_word (p : Z) : option Z := if p =? 4096 then Some 7 else None.
Definition demo_timeout (p : Z) : option timespec :=
  if p =? 64 then Some (Timer.mkTimespec 0 0) else None.
Definition demo_sys (nr : Z) : TimerFd.SysCallHandler := TimerFd.mkSys Timer.timer_new nr.

(** A futex with two waiters, one of them woken; and a host without futexes. *)
Definition demo_waiting : World (Futexes unit) :=
  mkWorld ∅ {[ 10 := demo_listener; 11 := demo_listener ]}
    (mkFutexes {[ 1 := mkFutex 4096 {[ 10 := true; 11 := false ]} 2 ]} (Some {[ 4096 := 1 ]}) 1 tt).
Definition demo_idle : World (Futexes unit) :=
  mkWorld ∅ {[ 10 := demo_listener ]} (futextable_new tt).

Lemma demo_quiet : quiet demo_notify.
Proof. intros w g o x. by exists w. Qed.

Lemma demo_lists_keys : lists_keys demo_keys.
Proof. intros m. reflexivity. Qed.

Lemma futex_wake_correct_witness :
  ∃ w' called, futex_wake demo_notify demo_keys demo_waiting 1 5 = Some (w', Z.of_nat (length called), called) ∧
    ∀ l, l ∈ called → l = 11.
Proof.
  destruct (futex_wake_correct demo_notify demo_keys demo_waiting 1
    (mkFutex 4096 {[ 10 := true; 11 := false ]} 2) 5 demo_quiet demo_lists_keys)
    as (w' & called & f' & E & _ & Hu & _).
  - reflexivity.
  - intros l [b Hb]. exists demo_listener. split; [|done]. cbn in Hb.
    apply lookup_insert_Some in Hb as [[<- _]|[_ Hb]]; [reflexivity|].
    apply lookup_singleton_Some in Hb as [<- _]. reflexivity.
  - done.
  - exists w', called. split; [exact E|]. intros l Hl. specialize (Hu l Hl). cbn in Hu.
    apply lookup_insert_Some in Hu as [[_ ?]|[_ Hu]]; [done|].
    by apply lookup_singleton_Some in Hu as [<- _].
Defined.

Lemma futex_wait_wake_cycle_witness :
  ∃ a w1 w2 w3, syscallhandler_futex demo_notify demo_keys demo_timeout demo_word id 5
      demo_idle (demo_sys (-1)) 4096 FUTEX_WAIT 7 0 0 = Some (w1, demo_sys (-1), [], BLOCK a false) ∧
    futex_addListener (λ w _, Some w) w1 a 10 = Some w2 ∧
    syscallhandler_futex demo_notify demo_keys demo_timeout demo_word id 5
      w2 (demo_sys (-1)) 4096 FUTEX_WAKE 1 0 0 = Some (w3, demo_sys (-1), [], DONE 1).
Proof.
  destruct (futex_wait_wake_cycle demo_notify (λ w _, Some w) demo_keys demo_timeout demo_word id 5
    demo_idle (demo_sys (-1)) (demo_sys (-1)) (demo_sys 202) 4096 7 1 10 demo_listener
    demo_quiet demo_lists_keys) as (a & w1 & w2 & w3 & w4 & w5 & w6 & E1 & E2 & E3 & _); try done.
  exists a, w1, w2, w3. split_and!; assumption.
Defined.

Lemma futex_refusals_witness :
  syscallhandler_futex demo_notify demo_keys demo_timeout demo_word id 5
    demo_idle (demo_sys (-1)) 4096 FUTEX_WAIT 8 0 0 = Some (demo_idle, demo_sys (-1), [], DONE (- EAGAIN)).
Proof.
  destruct (futex_refusals demo_notify (λ w _, Some w) demo_keys demo_timeout demo_word id 5
    demo_idle (demo_sys (-1)) 4096 FUTEX_WAIT 8 0 0) as (_ & _ & H).
  destruct (H ltac:(done) ltac:(by left)) as (_ & _ & Ht).
  apply (Ht None ltac:(by left)) with (x := 7); done.
Defined.

Lemma futex_zero_timeout_blocks_witness :
  ∃ w' sys' a, syscallhandler_futex demo_notify demo_keys demo_timeout demo_word id 5
    demo_idle (demo_sys (-1)) 4096 FUTEX_WAIT 7 64 0 = Some (w', sys', [], BLOCK a true).
Proof.
  destruct (futex_zero_timeout_blocks demo_notify demo_keys demo_timeout demo_word id 5
    demo_idle (demo_sys (-1)) 4096 7 64 (Timer.mkTimespec 0 0)) as (w' & sys' & a & E & _); try done.
  exists w', sys', a. exact E.
Defined.

End Futex.
