(* ===== verification/Socket.v ===== *)
(** * Sockets
    (src/phantom/src/main/host/descriptor/socket.c, socket.h, compat_socket.c)

    What UDP and TCP sockets share: names, flags and the buffers of packets
    that wait for the application or for the network.  The buffers hold
    references into the packet store and count payload bytes against a size
    that may be lowered while packets wait.  Packets are shared with the
    network, so every operation is a step of the store as well. *)

From stdpp Require Import pretty.
From S2P Require Import Prelude Float64 Cpu PriorityQueue Event Packet Descriptor.

Module Socket.
Import Desc.

Definition SF_NONE : Z := 0.
Definition SF_BOUND : Z := 1.
Definition SF_UNIX : Z := 2.
Definition SF_UNIX_BOUND : Z := 4.

Definition INADDR_ANY : Z := 0.

(** [super] is the descriptor; strings are [None] for [NULL]. *)
Record Socket := mkSocket {
  super : LegacyDescriptor;
  flags : Z;
  protocol : Pkt.ProtocolType;
  peerIP : Z;
  peerPort : Z;
  peerString : option string;
  boundAddress : Z;
  boundPort : Z;
  boundString : option string;
  unixPath : option string;
  inputBuffer : list Z;
  inputBufferSize : Z;
  inputBufferSizePending : Z;
  inputBufferLength : Z;
  outputBuffer : list Z;
  outputControlBuffer : list Z;
  outputBufferSize : Z;
  outputBufferSizePending : Z;
  outputBufferLength : Z;
}.

#[export] Instance socket_eta : Eta Socket := fun s =>
  mkSocket (super s) (flags s) (protocol s) (peerIP s) (peerPort s) (peerString s) (boundAddress s)
    (boundPort s) (boundString s) (unixPath s) (inputBuffer s) (inputBufferSize s)
    (inputBufferSizePending s) (inputBufferLength s) (outputBuffer s) (outputControlBuffer s)
    (outputBufferSize s) (outputBufferSizePending s) (outputBufferLength s).

(** ** Names and flags *)

(** The listeners' view of a status change is [descriptor_adjustStatus] of
    Descriptor.v; here only the bits matter. *)
Definition adjustStatus (bits : Z) (doSetBits : bool) (s : Socket) : Socket :=
  s <| super := set_status (super s) bits doSetBits |>.

Definition socket_init (type : LegacyDescriptorType) (receiveBufferSize sendBufferSize : Z) : Socket :=
  {| super := descriptor_init type; flags := SF_NONE;
     protocol := match type with
                 | DT_TCPSOCKET => Pkt.PTCP | DT_UDPSOCKET => Pkt.PUDP | _ => Pkt.PLOCAL
                 end;
     peerIP := 0; peerPort := 0; peerString := None;
     boundAddress := 0; boundPort := 0; boundString := None; unixPath := None;
     inputBuffer := []; inputBufferSize := receiveBufferSize; inputBufferSizePending := 0;
     inputBufferLength := 0;
     outputBuffer := []; outputControlBuffer := []; outputBufferSize := sendBufferSize;
     outputBufferSizePending := 0; outputBufferLength := 0 |}.

Definition socket_getProtocol (s : Socket) : Pkt.ProtocolType := protocol s.

(** [None]: the outputs are left alone and [FALSE] is returned. *)
Definition socket_getPeerName (s : Socket) : option (Z * Z) :=
  if (peerIP s =? 0) || (peerPort s =? 0) then None else Some (peerIP s, peerPort s).

Definition socket_isBound (s : Socket) : bool := has_flag (flags s) SF_BOUND.

Definition socket_getSocketName (s : Socket) : option (Z * Z) :=
  if negb (socket_isBound s) then None else
  let ip := if (boundAddress s =? htonl INADDR_ANY) && negb (peerIP s =? 0)
               && (peerIP s =? htonl Pkt.INADDR_LOOPBACK)
            then htonl Pkt.INADDR_LOOPBACK else boundAddress s in
  Some (ip, boundPort s).

Section Names.
(** [address_ipToNewString], which calls the C library's [inet_ntop]. *)
Context (address_ipToNewString : Z → string).
Local Open Scope string_scope.

Definition socket_setPeerName (s : Socket) (ip port : Z) : Socket :=
  s <| peerIP := ip |> <| peerPort := port |>
    <| peerString := Some (address_ipToNewString ip +:+ ":" +:+ pretty (ntohs port)) |>.

Definition socket_setSocketName (s : Socket) (ip port : Z) : Socket :=
  s <| boundAddress := ip |> <| boundPort := port |>
    <| boundString := Some (address_ipToNewString ip +:+ ":" +:+ pretty (ntohs port)
                            +:+ " (descriptor " +:+ pretty (handle (super s)) +:+ ")") |>
    <| flags := set_flags (flags s) SF_BOUND |>.

End Names.

Definition socket_isUnix (s : Socket) : bool := has_flag (flags s) SF_UNIX.

Definition socket_setUnix (s : Socket) (isUnixSocket : bool) : Socket :=
  s <| flags := if isUnixSocket then set_flags (flags s) SF_UNIX else clear_flags (flags s) SF_UNIX |>.

Definition socket_setUnixPath (s : Socket) (path : string) (isBound : bool) : Socket :=
  (if isBound then s <| flags := set_flags (flags s) SF_UNIX_BOUND |> else s)
    <| unixPath := Some path |>.

Definition socket_getUnixPath (s : Socket) : option string := unixPath s.

(** ** Buffer sizes *)

Definition socket_getInputBufferSize (s : Socket) : Z :=
  if 0 <? inputBufferSizePending s then inputBufferSizePending s else inputBufferSize s.

Definition socket_getOutputBufferSize (s : Socket) : Z :=
  if 0 <? outputBufferSizePending s then outputBufferSizePending s else outputBufferSize s.

(** [None]: a failed assertion. *)
Definition socket_getInputBufferSpace (s : Socket) : option Z :=
  if inputBufferLength s <=? inputBufferSize s then
    let bufferSize := socket_getInputBufferSize s in
    Some (if bufferSize <? inputBufferLength s then 0 else bufferSize - inputBufferLength s)
  else None.

Definition socket_getOutputBufferSpace (s : Socket) : option Z :=
  if outputBufferLength s <=? outputBufferSize s then
    let bufferSize := socket_getOutputBufferSize s in
    Some (if bufferSize <? outputBufferLength s then 0 else bufferSize - outputBufferLength s)
  else None.

Definition socket_getInputBufferLength (s : Socket) : Z := inputBufferLength s.
Definition socket_getOutputBufferLength (s : Socket) : Z := outputBufferLength s.

Definition socket_setInputBufferSize (s : Socket) (newSize : Z) : Socket :=
  if inputBufferLength s <=? newSize then
    s <| inputBufferSize := newSize |> <| inputBufferSizePending := 0 |>
  else s <| inputBufferSize := inputBufferLength s |> <| inputBufferSizePending := newSize |>.

Definition socket_setOutputBufferSize (s : Socket) (newSize : Z) : Socket :=
  if outputBufferLength s <=? newSize then
    s <| outputBufferSize := newSize |> <| outputBufferSizePending := 0 |>
  else s <| outputBufferSize := outputBufferLength s |> <| outputBufferSizePending := newSize |>.

(** ** Buffers *)

(** [0] is [NULL]. *)
Definition peek_head (l : list Z) : Z := match l with [] => 0 | p :: _ => p end.

Definition socket_peekNextOutPacket (s : Socket) : Z :=
  if negb (bool_decide (outputControlBuffer s = [])) then peek_head (outputControlBuffer s)
  else peek_head (outputBuffer s).

Definition socket_peekNextInPacket (s : Socket) : Z := peek_head (inputBuffer s).

Section Buffers.
Context (address_ipToNewString : Z → string) (traceOn : bool).
(** What [tcp_getOutputBufferLength] returns: the bytes a TCP socket keeps in
    buffers of its own at the time of the call. *)
Context (tcp_getOutputBufferLength : Z).

Abbreviation addStatus := (Pkt.packet_addDeliveryStatus address_ipToNewString traceOn).

Definition packet_length (st : Pkt.Store) (a : Z) : option Z :=
  p ← Pkt.packets st !! a; Pkt.packet_getPayloadLength st p.

Definition socket_addToInputBuffer (st : Pkt.Store) (s : Socket) (packet : Z)
    : option (Pkt.Store * Socket * bool) :=
  length ← packet_length st packet;
  space ← socket_getInputBufferSpace s;
  if space <? length then Some (st, s, false) else
  let s := s <| inputBuffer := inputBuffer s ++ [packet] |> in
  st ← Pkt.packet_ref st packet;
  let s := s <| inputBufferLength := u64 (inputBufferLength s + length) |> in
  st ← addStatus st packet Pkt.PDS_RCV_SOCKET_BUFFERED;
  let s := if 0 <? inputBufferLength s then adjustStatus STATUS_DESCRIPTOR_READABLE true s else s in
  Some (st, s, true).

(** The packet goes to the caller with the buffer's reference. *)
Definition socket_removeFromInputBuffer (st : Pkt.Store) (s : Socket) : option (Socket * Z) :=
  match inputBuffer s with
  | [] => Some (s, 0)
  | packet :: rest =>
      let s := s <| inputBuffer := rest |> in
      length ← packet_length st packet;
      let s := s <| inputBufferLength := u64 (inputBufferLength s - length) |> in
      let s := if 0 <? inputBufferSizePending s
               then socket_setInputBufferSize s (inputBufferSizePending s) else s in
      let s := if inputBufferLength s <=? 0 then adjustStatus STATUS_DESCRIPTOR_READABLE false s else s in
      Some (s, packet)
  end.

Definition _socket_getOutputBufferSpaceIncludingTCP (s : Socket) : option Z :=
  space ← socket_getOutputBufferSpace s;
  let tcpLength := match protocol s with Pkt.PTCP => tcp_getOutputBufferLength | _ => 0 end in
  Some (if tcpLength <? space then space - tcpLength else 0).

(** Control packets, which have no priority, get sent first. *)
Definition enqueue_output (s : Socket) (p : Pkt.Packet) (packet length : Z) : Socket :=
  let s := if F64.eqb (Pkt.packet_getPriority p) (F64.of_Z 0)
           then s <| outputControlBuffer := outputControlBuffer s ++ [packet] |>
           else s <| outputBuffer := outputBuffer s ++ [packet] |> in
  s <| outputBufferLength := u64 (outputBufferLength s + length) |>.

(** Takes over the caller's reference.  The result is [None] when the packet
    is refused; otherwise the source address, whose interface is told that the
    socket wants to send ([networkinterface_wantsSend]) after the step. *)
Definition socket_addToOutputBuffer (st : Pkt.Store) (s : Socket) (packet : Z)
    : option (Pkt.Store * Socket * option Z) :=
  length ← packet_length st packet;
  space ← socket_getOutputBufferSpace s;
  if space <? length then Some (st, s, None) else
  p ← Pkt.packets st !! packet;
  let s := enqueue_output s p packet length in
  st ← addStatus st packet Pkt.PDS_SND_SOCKET_BUFFERED;
  space ← _socket_getOutputBufferSpaceIncludingTCP s;
  let s := if space <=? 0 then adjustStatus STATUS_DESCRIPTOR_WRITABLE false s else s in
  p ← Pkt.packets st !! packet;
  ip ← Pkt.packet_getSourceIP p;
  Some (st, s, Some ip).

Definition pop_output (s : Socket) : Socket * Z :=
  match outputControlBuffer s with
  | packet :: rest => (s <| outputControlBuffer := rest |>, packet)
  | [] => match outputBuffer s with
          | packet :: rest => (s <| outputBuffer := rest |>, packet)
          | [] => (s, 0)
          end
  end.

(** The counter and a pending size, after a packet has left. *)
Definition shrink_output (s : Socket) (length : Z) : Socket :=
  let s := s <| outputBufferLength := u64 (outputBufferLength s - length) |> in
  if 0 <? outputBufferSizePending s
  then socket_setOutputBufferSize s (outputBufferSizePending s) else s.

Definition socket_removeFromOutputBuffer (st : Pkt.Store) (s : Socket) : option (Socket * Z) :=
  let '(s, packet) := pop_output s in
  if packet =? 0 then Some (s, 0) else
  length ← packet_length st packet;
  let s := shrink_output s length in
  space ← _socket_getOutputBufferSpaceIncludingTCP s;
  let s := if 0 <? space then adjustStatus STATUS_DESCRIPTOR_WRITABLE true s else s in
  Some (s, packet).

Definition socket_pullOutPacket (st : Pkt.Store) (s : Socket) : option (Socket * Z) :=
  socket_removeFromOutputBuffer st s.

(** [while(g_queue_get_length(...) > 0) packet_unref(g_queue_pop_head(...))] *)
Fixpoint unref_packets (st : Pkt.Store) (l : list Z) : option Pkt.Store :=
  match l with
  | [] => Some st
  | packet :: l => st ← Pkt.packet_unref address_ipToNewString traceOn st packet; unref_packets st l
  end.

Definition _socket_free (st : Pkt.Store) (s : Socket) : option Pkt.Store :=
  st ← unref_packets st (inputBuffer s);
  st ← unref_packets st (outputBuffer s);
  unref_packets st (outputControlBuffer s).

End Buffers.

(** ** The buffers' invariant *)

Definition len (st : Pkt.Store) (a : Z) : Z := default 0 (packet_length st a).

Definition total (st : Pkt.Store) (l : list Z) : Z := foldr (λ a n, len st a + n) 0 l.

(** The packets a socket holds a reference of. *)
Definition contents (s : Socket) : list Z := inputBuffer s ++ outputControlBuffer s ++ outputBuffer s.

(** One direction: the bytes of [l] are counted and fit; a pending size is one
    the buffer is still too full for. *)
Record buffer_ok (st : Pkt.Store) (l : list Z) (length size pending : Z) : Prop := mkBuffer {
  bo_length : length = total st l;
  bo_size : length ≤ size < 2 ^ 64;
  bo_pending : 0 ≤ pending ∧ (0 < pending → pending < length ∧ size = length);
}.

Record sock_ok (st : Pkt.Store) (s : Socket) : Prop := mkOk {
  so_in : buffer_ok st (inputBuffer s) (inputBufferLength s) (inputBufferSize s) (inputBufferSizePending s);
  so_out : buffer_ok st (outputControlBuffer s ++ outputBuffer s) (outputBufferLength s)
             (outputBufferSize s) (outputBufferSizePending s);
  so_readable : has_flag (status (super s)) STATUS_DESCRIPTOR_READABLE = (0 <? inputBufferLength s);
}.

Lemma bytes_total_cons st a l : total st (a :: l) = len st a + total st l.
Proof. done. Qed.

Lemma bytes_total_app st l k : total st (l ++ k) = total st l + total st k.
Proof. induction l as [|a l IH]; [done|]. cbn [app]. rewrite !bytes_total_cons, IH. lia. Qed.

Lemma length_range st a : 0 ≤ len st a < 2 ^ 32.
Proof.
  unfold len, packet_length. destruct (Pkt.packets st !! a) as [p|]; [|done]. cbn.
  unfold Pkt.packet_getPayloadLength. destruct (negb _); [|done].
  destruct (Pkt.payload_getLength st (Pkt.payload p)); cbn; [apply u32_range|done].
Qed.

Lemma total_range st l : 0 ≤ total st l.
Proof.
  induction l as [|a l IH]; [done|]. rewrite bytes_total_cons. pose proof (length_range st a). lia.
Qed.

Lemma total_perm st l k : l ≡ₚ k → total st l = total st k.
Proof. induction 1; rewrite ?bytes_total_cons in *; lia. Qed.

Lemma total_equal st st' l : (∀ a, a ∈ l → len st' a = len st a) → total st' l = total st l.
Proof.
  induction l as [|a l IH]; intros Hs; [done|]. rewrite !bytes_total_cons, Hs by left.
  rewrite IH; [done|]. intros b Hb. apply Hs. by right.
Qed.

Lemma buffer_ok_store st st' l length size pending :
  (∀ a, a ∈ l → len st' a = len st a) → buffer_ok st l length size pending →
  buffer_ok st' l length size pending.
Proof. intros Hs [El H2 H3]. split; [rewrite El; symmetry; by apply total_equal|done|done]. Qed.

(** The length of a packet depends on its payload only. *)
Lemma length_update st a p p' b :
  Pkt.packets st !! a = Some p → Pkt.payload p' = Pkt.payload p →
  packet_length (Pkt.set_packet_at st a p') b = packet_length st b.
Proof.
  intros Ha E. unfold packet_length. cbn. destruct (decide (a = b)) as [<-|Hne].
  - rewrite lookup_insert_eq, Ha. cbn. unfold Pkt.packet_getPayloadLength. by rewrite E.
  - by rewrite lookup_insert_ne.
Qed.

(** *** Sizes *)

(** The space a buffer reports. *)
Definition space (length size pending : Z) : Z :=
  Z.max 0 ((if 0 <? pending then pending else size) - length).

Lemma input_space st s :
  sock_ok st s →
  socket_getInputBufferSpace s =
    Some (space (inputBufferLength s) (inputBufferSize s) (inputBufferSizePending s)).
Proof.
  intros [[_ [H _] _] _ _]. unfold socket_getInputBufferSpace, space.
  rewrite (proj2 (Z.leb_le _ _)) by done. fold (socket_getInputBufferSize s). cbn zeta.
  f_equal. destruct (Z.ltb_spec (socket_getInputBufferSize s) (inputBufferLength s)); lia.
Qed.

Lemma output_space st s :
  sock_ok st s →
  socket_getOutputBufferSpace s =
    Some (space (outputBufferLength s) (outputBufferSize s) (outputBufferSizePending s)).
Proof.
  intros [_ [_ [H _] _] _]. unfold socket_getOutputBufferSpace, space.
  rewrite (proj2 (Z.leb_le _ _)) by done. fold (socket_getOutputBufferSize s). cbn zeta.
  f_equal. destruct (Z.ltb_spec (socket_getOutputBufferSize s) (outputBufferLength s)); lia.
Qed.

(** Adding a packet that fits. *)
Lemma buffer_add st l length size pending a :
  buffer_ok st l length size pending → len st a ≤ space length size pending →
  u64 (length + len st a) = length + len st a ∧
  (∀ k, k ≡ₚ a :: l → buffer_ok st k (length + len st a) size pending).
Proof.
  intros [El Hs Hp] Hfit. pose proof (length_range st a). pose proof (total_range st l).
  unfold space in Hfit.
  assert (length + len st a ≤ size) by (destruct (Z.ltb_spec 0 pending); lia).
  split; [apply u64_small; lia|]. intros k Hk. split.
  - rewrite El, (total_perm st k _ Hk), bytes_total_cons. lia.
  - lia.
  - split; [lia|]. intros Hpos. destruct (Z.ltb_spec 0 pending); lia.
Qed.

(** A new size, and a size that was pending. *)
Definition resize_buffer (length newSize : Z) : Z * Z :=
  if length <=? newSize then (newSize, 0) else (length, newSize).

Lemma buffer_resize st l length size pending n :
  buffer_ok st l length size pending → 0 ≤ n < 2 ^ 64 →
  buffer_ok st l length (resize_buffer length n).1 (resize_buffer length n).2.
Proof.
  intros [El Hs Hp] Hn. pose proof (total_range st l). unfold resize_buffer.
  destruct (Z.leb_spec length n); cbn; split; lia.
Qed.

Lemma buffer_remove st l length size pending a :
  buffer_ok st (a :: l) length size pending →
  let r := if 0 <? pending then resize_buffer (length - len st a) pending else (size, pending) in
  u64 (length - len st a) = length - len st a ∧ buffer_ok st l (length - len st a) r.1 r.2.
Proof.
  intros [El Hs Hp]. rewrite bytes_total_cons in El. pose proof (length_range st a).
  pose proof (total_range st l). split; [apply u64_small; lia|].
  destruct (Z.ltb_spec 0 pending); [|split; cbn; lia].
  unfold resize_buffer. destruct (Z.leb_spec (length - len st a) pending); cbn; split; lia.
Qed.

(** ** The operations keep it *)

Lemma readable_adjusted s b :
  has_flag (status (super (adjustStatus STATUS_DESCRIPTOR_READABLE b s))) STATUS_DESCRIPTOR_READABLE = b.
Proof. unfold adjustStatus. cbn -[adjusted has_flag]. by apply (has_flag_adjusted _ 1 1). Qed.

Lemma readable_writable s b :
  has_flag (status (super (adjustStatus STATUS_DESCRIPTOR_WRITABLE b s))) STATUS_DESCRIPTOR_READABLE =
  has_flag (status (super s)) STATUS_DESCRIPTOR_READABLE.
Proof. unfold adjustStatus. cbn -[adjusted has_flag]. by apply (has_flag_adjusted _ 2 1). Qed.

Lemma writable_adjusted s b :
  has_flag (status (super (adjustStatus STATUS_DESCRIPTOR_WRITABLE b s))) STATUS_DESCRIPTOR_WRITABLE = b.
Proof. unfold adjustStatus. cbn -[adjusted has_flag]. by apply (has_flag_adjusted _ 2 2). Qed.

Lemma writable_readable s b :
  has_flag (status (super (adjustStatus STATUS_DESCRIPTOR_READABLE b s))) STATUS_DESCRIPTOR_WRITABLE =
  has_flag (status (super s)) STATUS_DESCRIPTOR_WRITABLE.
Proof. unfold adjustStatus. cbn -[adjusted has_flag]. by apply (has_flag_adjusted _ 1 2). Qed.

#[local] Existing Instance Pkt.packet_eta.

Lemma sock_ok_store st st' s :
  (∀ a, len st' a = len st a) → sock_ok st s → sock_ok st' s.
Proof. intros Hs [Hi Ho Hr]. constructor; [by apply (buffer_ok_store st)..|done]. Qed.

Lemma sock_ok_writable st s (c b : bool) :
  sock_ok st s → sock_ok st (if c then adjustStatus STATUS_DESCRIPTOR_WRITABLE b s else s).
Proof.
  intros [Hi Ho Hr]. destruct c; constructor; try done. by rewrite readable_writable.
Qed.

Section Steps.
Context (address_ipToNewString : Z → string) (traceOn : bool) (tcp_getOutputBufferLength : Z).

Abbreviation held := (Pkt.held traceOn).
Abbreviation addInput := (socket_addToInputBuffer address_ipToNewString traceOn).
Abbreviation addOutput := (socket_addToOutputBuffer address_ipToNewString traceOn tcp_getOutputBufferLength).
Abbreviation removeOutput := (socket_removeFromOutputBuffer tcp_getOutputBufferLength).

Lemma held_length st l a : held st l → a ∈ l → packet_length st a = Some (len st a).
Proof.
  intros Hh Ha. destruct (Pkt.held_in _ _ _ _ Hh Ha) as (p & Ep & _ & _). unfold len, packet_length.
  rewrite Ep. cbn. by destruct (Pkt.packet_length_ok st a p (Pkt.held_wf _ _ _ Hh) Ep) as [n ->].
Qed.

(** A status of delivery changes no length. *)
Lemma held_addStatus st l a st_bits :
  held st l → a ∈ l →
  ∃ st' p q, Pkt.packet_addDeliveryStatus address_ipToNewString traceOn st a st_bits = Some st' ∧
    held st' l ∧ (∀ b, packet_length st' b = packet_length st b) ∧
    Pkt.packets st !! a = Some p ∧
    st' = Pkt.set_packet_at st a (p <| Pkt.allStatus := set_flags (Pkt.allStatus p) st_bits |>
                                    <| Pkt.orderedStatus := q |>).
Proof.
  intros Hh Ha. destruct (Pkt.held_mark address_ipToNewString traceOn st l a st_bits Hh Ha)
    as (st' & p & q & E & Hh' & _ & Hp & ->).
  eexists _, p, q. split_and!; [done|done|intros b; by apply (length_update _ _ p)|done|done].
Qed.

Lemma add_input_ok st s env p pk :
  held st (env ++ contents s) → sock_ok st s → p ∈ env →
  Pkt.packets st !! p = Some pk → Pkt.referenceCount pk < UINT32_MAX →
  ∃ st' s' b, addInput st s p = Some (st', s', b) ∧ sock_ok st' s' ∧ held st' (env ++ contents s') ∧
    (∀ a, packet_length st' a = packet_length st a) ∧
    b = (len st p <=? space (inputBufferLength s) (inputBufferSize s) (inputBufferSizePending s)) ∧
    inputBuffer s' = inputBuffer s ++ (if b then [p] else []) ∧
    outputControlBuffer s' = outputControlBuffer s ∧ outputBuffer s' = outputBuffer s ∧ (b = false → st' = st ∧ s' = s).
Proof.
  intros Hh Hok Hp Epk Hrc.
  assert (Hin : p ∈ env ++ contents s) by (apply elem_of_app; by left).
  unfold socket_addToInputBuffer. rewrite (held_length _ _ _ Hh Hin), (input_space _ _ Hok). cbn [mbind option_bind].
  destruct (Z.ltb_spec (space (inputBufferLength s) (inputBufferSize s) (inputBufferSizePending s)) (len st p)) as [Hlt|Hge].
  { exists st, s, false. split_and!; try done; [symmetry; by apply Z.leb_gt|by rewrite app_nil_r]. }
  destruct (Pkt.held_ref traceOn st _ p pk Hh Epk Hrc) as (st1 & -> & Hh1 & _ & Epl & Epp).
  cbn [mbind option_bind].
  assert (Hl1 : ∀ a, packet_length st1 a = packet_length st a).
  { intros a. unfold packet_length. rewrite Epp. unfold Pkt.packet_getPayloadLength, Pkt.payload_getLength.
    rewrite Epl. destruct (decide (p = a)) as [<-|Hne]; [by rewrite lookup_insert_eq, Epk|by rewrite lookup_insert_ne]. }
  destruct (held_addStatus st1 _ p Pkt.PDS_RCV_SOCKET_BUFFERED Hh1 ltac:(left)) as (st2 & _ & _ & -> & Hh2 & Hl2 & _ & _).
  cbn [mbind option_bind]. destruct Hok as [Hi Ho Hr].
  destruct (buffer_add _ _ _ _ _ p Hi Hge) as [Ewrap Hadd].
  change (inputBufferLength (s <| inputBuffer := inputBuffer s ++ [p] |>)) with (inputBufferLength s).
  rewrite Ewrap.
  assert (Hlen : ∀ a, packet_length st2 a = packet_length st a) by (intros a; by rewrite Hl2, Hl1).
  assert (Hlen' : ∀ a, len st2 a = len st a) by (intros a; unfold len; by rewrite Hlen).
  assert (Hheld : held st2 (env ++ (inputBuffer s ++ [p]) ++ outputControlBuffer s ++ outputBuffer s)).
  { eapply Pkt.held_Permutation; [|exact Hh2]. unfold contents. rewrite !app_assoc.
    rewrite <-(Permutation_middle _ _ p), app_nil_r. done. }
  assert (Hi' : buffer_ok st2 (inputBuffer s ++ [p]) (inputBufferLength s + len st p) (inputBufferSize s)
                  (inputBufferSizePending s)).
  { apply (buffer_ok_store st); [by intros|]. apply Hadd. by rewrite Permutation_app_comm. }
  assert (Ho' : buffer_ok st2 (outputControlBuffer s ++ outputBuffer s) (outputBufferLength s)
                  (outputBufferSize s) (outputBufferSizePending s))
    by (apply (buffer_ok_store st); [by intros|done]).
  pose proof (length_range st p). pose proof (total_range st (inputBuffer s)).
  pose proof (bo_length _ _ _ _ _ Hi). eexists st2, _, true. split; [done|].
  split_and!; try done; [|case_match; exact Hheld|symmetry; by apply Z.leb_le|by case_match..].
  cbn [inputBufferLength set_field].
  destruct (Z.ltb_spec 0 (inputBufferLength s + len st p)) as [Hpos|Hz].
  - constructor; [done|done|]. rewrite readable_adjusted. symmetry. by apply Z.ltb_lt.
  - constructor; [done|done|]. cbn. rewrite Hr. destruct (Z.ltb_spec 0 (inputBufferLength s)); [lia|].
    symmetry. apply Z.ltb_ge. lia.
Qed.

Lemma remove_input_ok st s env :
  held st (env ++ contents s) → sock_ok st s →
  match inputBuffer s with
  | [] => socket_removeFromInputBuffer st s = Some (s, 0)
  | p :: rest => ∃ s', socket_removeFromInputBuffer st s = Some (s', p) ∧ sock_ok st s' ∧
      held st ((p :: env) ++ contents s') ∧ inputBuffer s' = rest ∧
      inputBufferLength s' = inputBufferLength s - len st p ∧
      outputBuffer s' = outputBuffer s ∧ outputControlBuffer s' = outputControlBuffer s
  end.
Proof.
  intros Hh [Hi Ho Hr]. unfold socket_removeFromInputBuffer.
  destruct (inputBuffer s) as [|p rest] eqn:Ein; [done|].
  assert (Hp : p ∈ env ++ contents s).
  { unfold contents. rewrite Ein. apply elem_of_app. right. left. }
  rewrite (held_length _ _ _ Hh Hp). cbn [mbind option_bind].
  change (inputBufferLength (s <| inputBuffer := rest |>)) with (inputBufferLength s).
  destruct (buffer_remove _ _ _ _ _ _ Hi) as [-> Hi'].
  assert (Hheld : held st ((p :: env) ++ rest ++ outputControlBuffer s ++ outputBuffer s)).
  { eapply Pkt.held_Permutation; [|exact Hh]. unfold contents. rewrite Ein. cbn.
    by rewrite <-Permutation_middle. }
  eexists. split; [done|].
  set (s1 := s <| inputBuffer := rest |> <| inputBufferLength := _ |>).
  set (s2 := if 0 <? inputBufferSizePending s1 then _ else _).
  assert (H2 : ∃ size pending, s2 = s1 <| inputBufferSize := size |> <| inputBufferSizePending := pending |> ∧
    buffer_ok st rest (inputBufferLength s - len st p) size pending).
  { unfold s2, s1, socket_setInputBufferSize, resize_buffer in *. cbn in *.
    destruct (0 <? inputBufferSizePending s); [destruct (_ <=? _)|]; cbn in Hi'; do 2 eexists;
      (split; [|exact Hi']); by destruct s. }
  destruct H2 as (size & pending & -> & Hi2).
  destruct (Z.leb_spec (inputBufferLength (s1 <| inputBufferSize := size |> <| inputBufferSizePending := pending |>)) 0)
    as [Hz|Hnz]; cbn in Hz || cbn in Hnz.
  - split_and!; [|exact Hheld|done..]. constructor; [done|done|]. rewrite readable_adjusted.
    symmetry. apply Z.ltb_ge. cbn. lia.
  - split_and!; [|exact Hheld|done..]. constructor; [done|done|]. cbn. rewrite Hr.
    pose proof (length_range st p). rewrite (proj2 (Z.ltb_lt _ _)) by lia. symmetry. apply Z.ltb_lt. lia.
Qed.

(** The space that counts for the writable bit. *)
Definition space_left (s : Socket) : Z :=
  let n := space (outputBufferLength s) (outputBufferSize s) (outputBufferSizePending s) in
  match protocol s with
  | Pkt.PTCP => Z.max 0 (n - tcp_getOutputBufferLength)
  | _ => n
  end.

Lemma space_including_tcp st s :
  sock_ok st s → _socket_getOutputBufferSpaceIncludingTCP tcp_getOutputBufferLength s = Some (space_left s).
Proof.
  intros Hok. unfold _socket_getOutputBufferSpaceIncludingTCP, space_left.
  rewrite (output_space _ _ Hok). cbn [mbind option_bind]. cbn zeta. f_equal.
  set (n := space _ _ _). assert (0 ≤ n) by (unfold n, space; lia).
  destruct (protocol s); try (destruct (Z.ltb_spec 0 n); lia).
  destruct (Z.ltb_spec tcp_getOutputBufferLength n); lia.
Qed.

Lemma source_ip st l a :
  held st l → a ∈ l → (∀ p, Pkt.packets st !! a = Some p → Pkt.protocol p ≠ Pkt.PNONE) →
  ∃ p ip, Pkt.packets st !! a = Some p ∧ Pkt.packet_getSourceIP p = Some ip.
Proof.
  intros Hh Ha Hn. destruct (Pkt.held_in _ _ _ _ Hh Ha) as (p & Ep & _ & _).
  pose proof (Pkt.header_packet_ok _ _ _ (Pkt.held_wf _ _ _ Hh) Ep) as Hok. specialize (Hn p Ep).
  unfold Pkt.header_ok in Hok. exists p. unfold Pkt.packet_getSourceIP.
  destruct (Pkt.protocol p), (Pkt.header p); try done; by eexists.
Qed.

(** What [enqueue_output] does to the queues. *)
Definition enqueued (s s' : Socket) (pk : Pkt.Packet) (p : Z) : Prop :=
  if F64.eqb (Pkt.priority pk) (F64.of_Z 0)
  then outputControlBuffer s' = outputControlBuffer s ++ [p] ∧ outputBuffer s' = outputBuffer s
  else outputControlBuffer s' = outputControlBuffer s ∧ outputBuffer s' = outputBuffer s ++ [p].

Lemma enqueue_output_ok st s env p pk :
  held st ((p :: env) ++ contents s) → sock_ok st s →
  len st p ≤ space (outputBufferLength s) (outputBufferSize s) (outputBufferSizePending s) →
  let s' := enqueue_output s pk p (len st p) in
  sock_ok st s' ∧ held st (env ++ contents s') ∧ enqueued s s' pk p ∧
  inputBuffer s' = inputBuffer s ∧ super s' = super s ∧
  outputBufferLength s' = outputBufferLength s + len st p.
Proof.
  intros Hh [Hi Ho Hr] Hge s'. destruct (buffer_add _ _ _ _ _ p Ho Hge) as [Ewrap Hadd].
  assert (Henq : enqueued s s' pk p) by (unfold enqueued, s', enqueue_output, Pkt.packet_getPriority; by case_match).
  assert (Hout : outputControlBuffer s' ++ outputBuffer s' ≡ₚ p :: outputControlBuffer s ++ outputBuffer s).
  { unfold enqueued in Henq. case_match; destruct Henq as [-> ->].
    - rewrite <-app_assoc. cbn. by rewrite <-Permutation_middle.
    - by rewrite app_assoc, (Permutation_app_comm _ [p]). }
  assert (Hsame : inputBuffer s' = inputBuffer s ∧ inputBufferLength s' = inputBufferLength s ∧
    inputBufferSize s' = inputBufferSize s ∧ inputBufferSizePending s' = inputBufferSizePending s ∧
    super s' = super s ∧ outputBufferSize s' = outputBufferSize s ∧
    outputBufferSizePending s' = outputBufferSizePending s ∧
    outputBufferLength s' = outputBufferLength s + len st p)
    by (unfold s', enqueue_output; case_match; cbn; by rewrite Ewrap).
  destruct Hsame as (E1 & E2 & E3 & E4 & E5 & E6 & E7 & E8). split_and!; try done.
  - constructor; [by rewrite E1, E2, E3, E4|rewrite E6, E7, E8; by apply Hadd|by rewrite E5, E2].
  - eapply Pkt.held_Permutation; [|exact Hh]. unfold contents. rewrite Hout, E1. cbn.
    by rewrite <-!Permutation_middle.
Qed.

Lemma add_output_ok st s env p :
  held st ((p :: env) ++ contents s) → sock_ok st s →
  (∀ pk, Pkt.packets st !! p = Some pk → Pkt.protocol pk ≠ Pkt.PNONE) →
  ∃ st' s' r, addOutput st s p = Some (st', s', r) ∧ sock_ok st' s' ∧
    (∀ a, packet_length st' a = packet_length st a) ∧
    match r with
    | None => space (outputBufferLength s) (outputBufferSize s) (outputBufferSizePending s) < len st p ∧
              st' = st ∧ s' = s
    | Some ip => len st p ≤ space (outputBufferLength s) (outputBufferSize s) (outputBufferSizePending s) ∧
        held st' (env ++ contents s') ∧ inputBuffer s' = inputBuffer s ∧
        outputBufferLength s' = outputBufferLength s + len st p ∧
        (∃ pk, Pkt.packets st !! p = Some pk ∧ Pkt.packet_getSourceIP pk = Some ip ∧ enqueued s s' pk p) ∧
        (space_left s' = 0 → has_flag (status (super s')) STATUS_DESCRIPTOR_WRITABLE = false) ∧
        (0 < space_left s' → has_flag (status (super s')) STATUS_DESCRIPTOR_WRITABLE =
                             has_flag (status (super s)) STATUS_DESCRIPTOR_WRITABLE)
    end.
Proof.
  intros Hh Hok Hn. assert (Hin : p ∈ (p :: env) ++ contents s) by left.
  unfold socket_addToOutputBuffer.
  rewrite (held_length _ _ _ Hh Hin), (output_space _ _ Hok). cbn [mbind option_bind].
  destruct (Z.ltb_spec (space (outputBufferLength s) (outputBufferSize s) (outputBufferSizePending s)) (len st p)) as [Hlt|Hge].
  { exists st, s, None. by split_and!. }
  destruct (source_ip _ _ _ Hh Hin Hn) as (pk & ip & Epk & Eip). rewrite Epk. cbn [mbind option_bind].
  destruct (held_addStatus st _ p Pkt.PDS_SND_SOCKET_BUFFERED Hh Hin)
    as (st2 & pk2 & q & -> & Hh2 & Hl2 & Epk2 & Est2).
  assert (Hlen : len st2 p = len st p) by (unfold len; by rewrite Hl2).
  assert (Hok2 : sock_ok st2 s) by (apply (sock_ok_store st); [intros; unfold len; by rewrite Hl2|done]).
  destruct (enqueue_output_ok st2 s env p pk Hh2 Hok2) as (Hok3 & Hh3 & Henq & E1 & E2 & E3); [by rewrite Hlen|].
  rewrite Hlen in *. set (s2 := enqueue_output s pk p (len st p)) in *. cbn [mbind option_bind].
  rewrite (space_including_tcp _ _ Hok3). cbn [mbind option_bind].
  assert (Epk3 : ∃ pk3, Pkt.packets st2 !! p = Some pk3 ∧ Pkt.packet_getSourceIP pk3 = Some ip).
  { simplify_eq. cbn. rewrite lookup_insert_eq. by eexists. }
  destruct Epk3 as (pk3 & -> & Eip3). cbn [mbind option_bind]. rewrite Eip3. cbn [mbind option_bind].
  eexists st2, _, (Some ip). split; [done|]. split; [by apply sock_ok_writable|]. split; [done|].
  split; [done|]. split; [by case_match|]. split; [by case_match|]. split; [by case_match|].
  split; [exists pk; split_and!; [done|done|by case_match]|].
  destruct (Z.leb_spec (space_left s2) 0); split; intros Hz.
  - apply writable_adjusted.
  - change (0 < space_left s2) in Hz. lia.
  - lia.
  - by rewrite E2.
Qed.

Lemma held_not_null st l a : held st l → a ∈ l → a ≠ 0.
Proof.
  intros Hh Ha. destruct (Pkt.held_in _ _ _ _ Hh Ha) as (p & Ep & _ & _).
  destruct (Pkt.wf_packets _ (Pkt.held_wf _ _ _ Hh) a p Ep) as (? & _). lia.
Qed.

(** The order in which packets leave. *)
Definition out_queue (s : Socket) : list Z := outputControlBuffer s ++ outputBuffer s.

(** Control packets leave first. *)
Definition dequeued (s s' : Socket) : Prop :=
  outputControlBuffer s' = tail (outputControlBuffer s) ∧
  outputBuffer s' = if decide (outputControlBuffer s = []) then tail (outputBuffer s) else outputBuffer s.

Lemma pop_output_ok s :
  match out_queue s with
  | [] => pop_output s = (s, 0)
  | p :: rest => ∃ s', pop_output s = (s', p) ∧ out_queue s' = rest ∧ dequeued s s' ∧
      s' = s <| outputControlBuffer := outputControlBuffer s' |> <| outputBuffer := outputBuffer s' |>
  end.
Proof.
  unfold out_queue, pop_output, dequeued. destruct (outputControlBuffer s) as [|p rest] eqn:E1; cbn.
  - destruct (outputBuffer s) as [|p rest] eqn:E2; [done|]. eexists. split; [done|].
    cbn. rewrite E1. split_and!; [done..|]. by destruct s; cbn in *; subst.
  - eexists. split; [done|]. cbn. split_and!; [done..|]. by destruct s.
Qed.

Lemma peek_out_head s : socket_peekNextOutPacket s = peek_head (out_queue s).
Proof.
  unfold socket_peekNextOutPacket, out_queue. case_bool_decide as E; cbn; [by rewrite E|].
  by destruct (outputControlBuffer s).
Qed.

Lemma shrink_ok st s s1 p rest :
  sock_ok st s → out_queue s = p :: rest → out_queue s1 = rest →
  s1 = s <| outputControlBuffer := outputControlBuffer s1 |> <| outputBuffer := outputBuffer s1 |> →
  let s' := shrink_output s1 (len st p) in
  sock_ok st s' ∧ out_queue s' = rest ∧ inputBuffer s' = inputBuffer s ∧ super s' = super s ∧
  outputBufferLength s' = outputBufferLength s - len st p ∧
  outputControlBuffer s' = outputControlBuffer s1 ∧ outputBuffer s' = outputBuffer s1.
Proof.
  intros [Hi Ho Hr] Eq Eq1 Es1 s'. fold (out_queue s) in Ho. rewrite Eq in Ho.
  destruct (buffer_remove _ _ _ _ _ _ Ho) as [Ewrap Ho'].
  assert (H' : ∃ size pending,
    s' = s1 <| outputBufferLength := outputBufferLength s - len st p |>
            <| outputBufferSize := size |> <| outputBufferSizePending := pending |> ∧
    buffer_ok st rest (outputBufferLength s - len st p) size pending).
  { assert (E : outputBufferLength s1 = outputBufferLength s ∧ outputBufferSize s1 = outputBufferSize s ∧
      outputBufferSizePending s1 = outputBufferSizePending s) by (by rewrite Es1).
    destruct E as (E1 & E2 & E3). rewrite <-E2, <-E3 in Ho'. unfold s', shrink_output, socket_setOutputBufferSize, resize_buffer in *.
    rewrite E1, Ewrap. cbn in *.
    destruct (0 <? outputBufferSizePending s1);
      [destruct (outputBufferLength s - len st p <=? outputBufferSizePending s1)|]; cbn in Ho';
      do 2 eexists; (split; [|exact Ho']); by destruct s1. }
  destruct H' as (size & pending & -> & Ho3). unfold out_queue in *. rewrite Es1. cbn. rewrite Eq1.
  split_and!; try done. constructor; cbn; [done|by rewrite Eq1|done].
Qed.

Lemma remove_output_ok st s env :
  held st (env ++ contents s) → sock_ok st s →
  match out_queue s with
  | [] => removeOutput st s = Some (s, 0)
  | p :: rest => ∃ s', removeOutput st s = Some (s', p) ∧ sock_ok st s' ∧
      held st ((p :: env) ++ contents s') ∧ out_queue s' = rest ∧ dequeued s s' ∧
      inputBuffer s' = inputBuffer s ∧
      outputBufferLength s' = outputBufferLength s - len st p ∧
      (0 < space_left s' → has_flag (status (super s')) STATUS_DESCRIPTOR_WRITABLE = true) ∧
      (space_left s' = 0 → has_flag (status (super s')) STATUS_DESCRIPTOR_WRITABLE =
                           has_flag (status (super s)) STATUS_DESCRIPTOR_WRITABLE)
  end.
Proof.
  intros Hh Hok. unfold socket_removeFromOutputBuffer. pose proof (pop_output_ok s) as Hp.
  unfold contents in Hh. fold (out_queue s) in Hh.
  destruct (out_queue s) as [|p rest] eqn:Eq; [by rewrite Hp|]. destruct Hp as (s1 & -> & Eq1 & Hd & Es1).
  assert (Hin : p ∈ env ++ inputBuffer s ++ p :: rest) by (rewrite !elem_of_app; right; right; left).
  rewrite (proj2 (Z.eqb_neq p 0)) by (by eapply held_not_null). rewrite (held_length _ _ _ Hh Hin).
  cbn [mbind option_bind].
  destruct (shrink_ok st s s1 p rest Hok Eq Eq1 Es1) as (Hok3 & Q1 & Q2 & Q3 & Q4 & Q5 & Q6).
  set (s3 := shrink_output s1 (len st p)) in *. clearbody s3.
  rewrite (space_including_tcp _ _ Hok3). cbn [mbind option_bind].
  eexists. split; [done|]. split; [by apply sock_ok_writable|]. split.
  { eapply Pkt.held_Permutation; [|exact Hh].
    replace (contents _) with (inputBuffer s3 ++ out_queue s3) by (unfold contents, out_queue; by case_match).
    rewrite Q1, Q2. cbn. by rewrite !app_assoc, <-Permutation_middle. }
  split; [rewrite <-Q1; by case_match|].
  split; [unfold dequeued in *; destruct (0 <? space_left s3); cbn; by rewrite Q5, Q6|].
  split; [rewrite <-Q2; by case_match|]. split; [rewrite <-Q4; by case_match|].
  destruct (Z.ltb_spec 0 (space_left s3)); split; intros Hz.
  - apply writable_adjusted.
  - change (space_left s3 = 0) in Hz. lia.
  - lia.
  - by rewrite Q3.
Qed.

End Steps.

(** ** Sockets under any use *)

(** A socket, the store, the references everybody else owns, and the history
    of its queues: packets accepted into them and packets that left. *)
Record State := mkState {
  store : Pkt.Store;
  socket : Socket;
  env : list Z;
  in_accepted : list Z;
  in_taken : list Z;
  control_accepted : list Z;
  control_sent : list Z;
  data_accepted : list Z;
  data_sent : list Z;
}.

Section Uses.
Context (address_ipToNewString : Z → string) (traceOn : bool).

Abbreviation held := (Pkt.held traceOn).

(** [n] is what [tcp_getOutputBufferLength] returns. *)
Inductive socket_step : State → State → Prop :=
  | step_addInput st s e h1 h2 h3 h4 h5 h6 p pk st' s' (b : bool) :
      p ∈ e → Pkt.packets st !! p = Some pk → Pkt.referenceCount pk < UINT32_MAX →
      socket_addToInputBuffer address_ipToNewString traceOn st s p = Some (st', s', b) →
      socket_step (mkState st s e h1 h2 h3 h4 h5 h6)
        (mkState st' s' e (h1 ++ if b then [p] else []) h2 h3 h4 h5 h6)
  | step_removeInput st s e h1 h2 h3 h4 h5 h6 s' p :
      socket_removeFromInputBuffer st s = Some (s', p) → p ≠ 0 →
      socket_step (mkState st s e h1 h2 h3 h4 h5 h6) (mkState st s' (p :: e) h1 (h2 ++ [p]) h3 h4 h5 h6)
  | step_addOutput st s e h1 h2 h3 h4 h5 h6 n p pk st' s' ip :
      Pkt.packets st !! p = Some pk → Pkt.protocol pk ≠ Pkt.PNONE →
      socket_addToOutputBuffer address_ipToNewString traceOn n st s p = Some (st', s', Some ip) →
      socket_step (mkState st s (p :: e) h1 h2 h3 h4 h5 h6)
        (let control := F64.eqb (Pkt.priority pk) (F64.of_Z 0) in
         mkState st' s' e h1 h2 (h3 ++ if control then [p] else []) h4
           (h5 ++ if control then [] else [p]) h6)
  | step_removeOutput st s e h1 h2 h3 h4 h5 h6 n s' p :
      socket_removeFromOutputBuffer n st s = Some (s', p) → p ≠ 0 →
      socket_step (mkState st s e h1 h2 h3 h4 h5 h6)
        (if decide (outputControlBuffer s = []) then mkState st s' (p :: e) h1 h2 h3 h4 h5 (h6 ++ [p])
         else mkState st s' (p :: e) h1 h2 h3 (h4 ++ [p]) h5 h6)
  | step_setInputSize st s e h1 h2 h3 h4 h5 h6 n :
      0 ≤ n < 2 ^ 64 →
      socket_step (mkState st s e h1 h2 h3 h4 h5 h6)
        (mkState st (socket_setInputBufferSize s n) e h1 h2 h3 h4 h5 h6)
  | step_setOutputSize st s e h1 h2 h3 h4 h5 h6 n :
      0 ≤ n < 2 ^ 64 →
      socket_step (mkState st s e h1 h2 h3 h4 h5 h6)
        (mkState st (socket_setOutputBufferSize s n) e h1 h2 h3 h4 h5 h6)
  | step_names st s e h1 h2 h3 h4 h5 h6 ip port :
      socket_step (mkState st s e h1 h2 h3 h4 h5 h6)
        (mkState st (socket_setPeerName address_ipToNewString
                       (socket_setSocketName address_ipToNewString s ip port) ip port) e h1 h2 h3 h4 h5 h6)
  | step_world st s e h1 h2 h3 h4 h5 h6 st' e' :
      held st' (e' ++ contents s) → (∀ p, p ∈ contents s → len st' p = len st p) →
      socket_step (mkState st s e h1 h2 h3 h4 h5 h6) (mkState st' s e' h1 h2 h3 h4 h5 h6).

Record state_ok (x : State) : Prop := mkStateOk {
  sx_held : held (store x) (env x ++ contents (socket x));
  sx_sock : sock_ok (store x) (socket x);
  sx_in : in_accepted x = in_taken x ++ inputBuffer (socket x);
  sx_control : control_accepted x = control_sent x ++ outputControlBuffer (socket x);
  sx_data : data_accepted x = data_sent x ++ outputBuffer (socket x);
}.

Lemma sock_ok_world st st' s :
  (∀ p, p ∈ contents s → len st' p = len st p) → sock_ok st s → sock_ok st' s.
Proof.
  intros Hs [Hi Ho Hr]. constructor; [| |done]; (apply (buffer_ok_store st); [|done]);
    intros p Hp; apply Hs; unfold contents; rewrite elem_of_app; auto.
Qed.

Lemma set_input_ok st s n :
  0 ≤ n < 2 ^ 64 → sock_ok st s → sock_ok st (socket_setInputBufferSize s n).
Proof.
  intros Hn [Hi Ho Hr]. pose proof (buffer_resize _ _ _ _ _ n Hi Hn) as H.
  unfold socket_setInputBufferSize, resize_buffer in *.
  destruct (inputBufferLength s <=? n); by constructor.
Qed.

Lemma set_output_ok st s n :
  0 ≤ n < 2 ^ 64 → sock_ok st s → sock_ok st (socket_setOutputBufferSize s n).
Proof.
  intros Hn [Hi Ho Hr]. pose proof (buffer_resize _ _ _ _ _ n Ho Hn) as H.
  unfold socket_setOutputBufferSize, resize_buffer in *.
  destruct (outputBufferLength s <=? n); by constructor.
Qed.

Lemma add_output_step_ok st s e p pk n st' s' ip :
  held st (p :: e ++ contents s) → sock_ok st s →
  Pkt.packets st !! p = Some pk → Pkt.protocol pk ≠ Pkt.PNONE →
  socket_addToOutputBuffer address_ipToNewString traceOn n st s p = Some (st', s', Some ip) →
  held st' (e ++ contents s') ∧ sock_ok st' s' ∧ inputBuffer s' = inputBuffer s ∧ enqueued s s' pk p.
Proof.
  intros Hh Hok Epk Hpr E.
  destruct (add_output_ok address_ipToNewString traceOn n st s e p Hh Hok)
    as (st1 & s1 & r & E1 & Hok1 & _ & Hr); [by intros ? [= <-]%(eq_trans (eq_sym Epk))|].
  rewrite E1 in E. injection E as -> -> ->. destruct Hr as (_ & ? & ? & _ & (pk' & Epk' & _ & ?) & _).
  rewrite Epk in Epk'. by injection Epk' as <-.
Qed.

Lemma remove_output_step_ok st s e n s' p :
  held st (e ++ contents s) → sock_ok st s → p ≠ 0 →
  socket_removeFromOutputBuffer n st s = Some (s', p) →
  held st ((p :: e) ++ contents s') ∧ sock_ok st s' ∧ inputBuffer s' = inputBuffer s ∧
  (if decide (outputControlBuffer s = [])
   then outputControlBuffer s' = [] ∧ outputBuffer s = p :: outputBuffer s'
   else outputControlBuffer s = p :: outputControlBuffer s' ∧ outputBuffer s' = outputBuffer s).
Proof.
  intros Hh Hok Hp E. pose proof (remove_output_ok traceOn n st s e Hh Hok) as H.
  unfold out_queue in H. destruct (outputControlBuffer s ++ outputBuffer s) as [|q rest] eqn:Eq.
  { rewrite H in E. by injection E as <- <-. }
  destruct H as (s1 & E1 & Hok1 & Hh1 & Eq1 & [Hd1 Hd2] & Hin & _). rewrite E1 in E.
  injection E as -> ->. split_and!; [done..|]. unfold out_queue in Eq1.
  destruct (outputControlBuffer s) as [|c cs]; cbn in *.
  - rewrite Eq, Hd1, Hd2. by rewrite Eq.
  - injection Eq as -> _. by rewrite Hd1, Hd2.
Qed.

Lemma socket_step_ok x x' : state_ok x → socket_step x x' → state_ok x'.
Proof.
  intros [Hh Hok H1 H2 H3] Hs.
  destruct Hs as [st s e h1 h2 h3 h4 h5 h6 p pk st' s' b Hp Epk Hrc E
    |st s e h1 h2 h3 h4 h5 h6 s' p E Hp|st s e h1 h2 h3 h4 h5 h6 n p pk st' s' ip Epk Hpr E
    |st s e h1 h2 h3 h4 h5 h6 n s' p E Hp|st s e h1 h2 h3 h4 h5 h6 n Hn|st s e h1 h2 h3 h4 h5 h6 n Hn
    |st s e h1 h2 h3 h4 h5 h6 ip port|st s e h1 h2 h3 h4 h5 h6 st' e' Hh' Hlen]; cbn in *.
  - destruct (add_input_ok address_ipToNewString traceOn st s e p pk Hh Hok Hp Epk Hrc)
      as (st1 & s1 & b1 & E1 & Hok1 & Hh1 & _ & _ & Ei & Ec & Eo & _).
    rewrite E1 in E. injection E as -> -> ->. constructor; cbn; try done; [|by rewrite Ec|by rewrite Eo].
    by rewrite H1, Ei, app_assoc.
  - pose proof (remove_input_ok traceOn st s e Hh Hok) as H.
    destruct (inputBuffer s) as [|q rest] eqn:Ein; [rewrite H in E; by injection E as <- <-|].
    destruct H as (s1 & E1 & Hok1 & Hh1 & Ei & _ & Eo & Ec). rewrite E1 in E. injection E as -> ->.
    constructor; cbn; try done; [|by rewrite Ec|by rewrite Eo]. by rewrite H1, Ei, <-app_assoc.
  - destruct (add_output_step_ok st s e p pk n st' s' ip Hh Hok Epk Hpr E) as (Hh1 & Hok1 & Ei & Eq).
    unfold enqueued in Eq. constructor; cbn; try done; [by rewrite Ei|..];
      destruct (F64.eqb _ _); destruct Eq as [Eq1 Eq2]; by rewrite ?Eq1, ?Eq2, ?app_nil_r, ?H2, ?H3, ?app_assoc.
  - destruct (remove_output_step_ok st s e n s' p Hh Hok Hp E) as (Hh1 & Hok1 & Ei & Eq).
    destruct (decide _) as [E0|E0]; destruct Eq as [Eq1 Eq2]; constructor; cbn; try done;
      rewrite ?Ei, ?H2, ?H3, ?Eq1, ?Eq2, ?E0, <-?app_assoc; done.
  - constructor; cbn; try (by unfold socket_setInputBufferSize; case_match). by apply set_input_ok.
  - constructor; cbn; try (by unfold socket_setOutputBufferSize; case_match). by apply set_output_ok.
  - by destruct Hok; constructor.
  - constructor; cbn; try done. by apply (sock_ok_world st).
Qed.

Lemma socket_steps_ok x x' : rtc socket_step x x' → state_ok x → state_ok x'.
Proof. induction 1; eauto using socket_step_ok. Qed.

Definition start (st : Pkt.Store) (e : list Z) (type : LegacyDescriptorType) (r w : Z) : State :=
  mkState st (socket_init type r w) e [] [] [] [] [] [].

Lemma start_ok st e type r w :
  held st e → 0 ≤ r < 2 ^ 64 → 0 ≤ w < 2 ^ 64 → state_ok (start st e type r w).
Proof.
  intros Hh Hr Hw. constructor; [cbn; by rewrite app_nil_r| |done..].
  constructor; [split; cbn; lia..|done].
Qed.

Lemma unref_packets_ok st l e :
  held st (l ++ e) →
  ∃ st', unref_packets address_ipToNewString traceOn st l = Some st' ∧ held st' e ∧ Pkt.same_sizes st st' e.
Proof.
  revert st. induction l as [|p l IH]; intros st Hh; cbn.
  { exists st. split_and!; [done|done|by apply Pkt.same_sizes_all]. }
  destruct (Pkt.held_unref address_ipToNewString traceOn st (l ++ e) p Hh) as (st1 & -> & Hh1 & Hs1).
  cbn. destruct (IH st1 Hh1) as (st2 & -> & Hh2 & Hs2). exists st2. split_and!; [done|done|].
  eapply Pkt.same_sizes_trans; [exact Hs1|exact Hs2|]. intros b Hb. apply elem_of_app. by right.
Qed.

Lemma socket_free_ok st s e :
  held st (e ++ contents s) →
  ∃ st', _socket_free address_ipToNewString traceOn st s = Some st' ∧ held st' e ∧ Pkt.same_sizes st st' e.
Proof.
  intros Hh. unfold _socket_free.
  assert (Hh' : held st (inputBuffer s ++ outputBuffer s ++ outputControlBuffer s ++ e)).
  { eapply Pkt.held_Permutation; [|exact Hh]. unfold contents.
    rewrite (Permutation_app_comm (outputControlBuffer s) (outputBuffer s)).
    by rewrite (Permutation_app_comm e), <-!app_assoc. }
  destruct (unref_packets_ok _ _ _ Hh') as (st1 & -> & Hh1 & Hs1). cbn.
  destruct (unref_packets_ok _ _ _ Hh1) as (st2 & -> & Hh2 & Hs2). cbn.
  destruct (unref_packets_ok _ _ _ Hh2) as (st3 & -> & Hh3 & Hs3). exists st3. split_and!; [done|done|].
  eapply Pkt.same_sizes_trans; [exact Hs1|eapply Pkt.same_sizes_trans; [exact Hs2|exact Hs3|]|].
  all: intros b Hb; rewrite ?elem_of_app; tauto.
Qed.

(** C26: from a new socket, any interleaving of arrivals, reads, sends,
    departures, changes of the buffer sizes and of the names, and activity of
    the rest of the simulator keeps the buffers exact: packets leave each
    queue in the order they came and control packets before data; the counters
    are the payload bytes that wait and never exceed the sizes; the socket is
    readable exactly while payload bytes wait.  In every such state all
    operations succeed (no assertion fails and no freed packet is touched),
    and freeing the socket gives back exactly its references. *)
Theorem socket_buffers_safe st e type r w x :
  held st e → 0 ≤ r < 2 ^ 64 → 0 ≤ w < 2 ^ 64 → rtc socket_step (start st e type r w) x →
  let s := socket x in
  (in_accepted x = in_taken x ++ inputBuffer s ∧
   control_accepted x = control_sent x ++ outputControlBuffer s ∧
   data_accepted x = data_sent x ++ outputBuffer s) ∧
  (inputBufferLength s = total (store x) (inputBuffer s) ∧ inputBufferLength s ≤ inputBufferSize s ∧
   outputBufferLength s = total (store x) (out_queue s) ∧ outputBufferLength s ≤ outputBufferSize s) ∧
  has_flag (status (super s)) STATUS_DESCRIPTOR_READABLE = (0 <? total (store x) (inputBuffer s)) ∧
  (∀ p pk, p ∈ env x → Pkt.packets (store x) !! p = Some pk → Pkt.referenceCount pk < UINT32_MAX →
     is_Some (socket_addToInputBuffer address_ipToNewString traceOn (store x) s p)) ∧
  is_Some (socket_removeFromInputBuffer (store x) s) ∧
  (∀ n p pk, p ∈ env x → Pkt.packets (store x) !! p = Some pk → Pkt.protocol pk ≠ Pkt.PNONE →
     is_Some (socket_addToOutputBuffer address_ipToNewString traceOn n (store x) s p)) ∧
  (∀ n, is_Some (socket_removeFromOutputBuffer n (store x) s)) ∧
  ∃ st', _socket_free address_ipToNewString traceOn (store x) s = Some st' ∧ held st' (env x).
Proof.
  intros Hh Hr Hw Hreach s.
  pose proof (socket_steps_ok _ _ Hreach (start_ok _ _ _ _ _ Hh Hr Hw)) as [Hh' Hok H1 H2 H3].
  fold s in Hh', Hok, H1, H2, H3. pose proof Hok as [[Hi1 [Hi2 _] _] [Ho1 [Ho2 _] _] Hre].
  split_and!; try done.
  - by rewrite Hre, Hi1.
  - intros p pk Hp Epk Hrc.
    destruct (add_input_ok address_ipToNewString traceOn _ _ _ p pk Hh' Hok Hp Epk Hrc)
      as (? & ? & ? & -> & _). by eexists.
  - pose proof (remove_input_ok traceOn _ _ _ Hh' Hok) as H.
    destruct (inputBuffer s); [rewrite H; by eexists|]. destruct H as (? & -> & _). by eexists.
  - intros n p pk Hp Epk Hpr. apply elem_of_Permutation in Hp as [e' Hp].
    assert (Hh2 : held (store x) ((p :: e') ++ contents s))
      by (eapply Pkt.held_Permutation; [|exact Hh']; by rewrite Hp).
    destruct (add_output_ok address_ipToNewString traceOn n _ _ e' p Hh2 Hok)
      as (? & ? & ? & -> & _); [by intros ? [= <-]%(eq_trans (eq_sym Epk))|by eexists].
  - intros n. pose proof (remove_output_ok traceOn n _ _ _ Hh' Hok) as H.
    destruct (out_queue s); [rewrite H; by eexists|]. destruct H as (? & -> & _). by eexists.
  - destruct (socket_free_ok _ _ _ Hh') as (st' & ? & ? & _). by exists st'.
Qed.

End Uses.

(** Growing the send buffer does not set the writable bit of a full socket, so
    who waits for it is only woken when a packet leaves. *)
Lemma resize_keeps_writable s n : super (socket_setOutputBufferSize s n) = super s.
Proof. unfold socket_setOutputBufferSize. by case_match. Qed.

(** ** Witness *)

(** A UDP socket that has received the packet at 1, of three bytes. *)
Definition demo_received : State :=
  match socket_addToInputBuffer (λ _, EmptyString) false Pkt.demo_store (socket_init DT_UDPSOCKET 100 100) 1 with
  | Some (st, s, b) => mkState st s [1; 3] ([] ++ if b then [1] else []) [] [] [] [] []
  | None => start Pkt.demo_store [1; 3] DT_UDPSOCKET 100 100
  end.

Lemma demo_received_reach :
  rtc (socket_step (λ _, EmptyString) false) (start Pkt.demo_store [1; 3] DT_UDPSOCKET 100 100) demo_received.
Proof.
  apply rtc_once. unfold demo_received, start.
  destruct (socket_addToInputBuffer (λ _, EmptyString) false Pkt.demo_store (socket_init DT_UDPSOCKET 100 100) 1)
    as [[[st s] b]|] eqn:E; [|by vm_compute in E].
  destruct (Pkt.packets Pkt.demo_store !! 1) as [p|] eqn:Ep; [|by vm_compute in Ep].
  eapply step_addInput; [left|exact Ep| |exact E].
  vm_compute in Ep. by injection Ep as <-.
Qed.

Lemma socket_buffers_safe_witness :
  inputBuffer (socket demo_received) = [1] ∧
  inputBufferLength (socket demo_received) = 3 ∧
  has_flag (status (super (socket demo_received))) STATUS_DESCRIPTOR_READABLE = true.
Proof.
  destruct (socket_buffers_safe (λ _, EmptyString) false Pkt.demo_store [1; 3] DT_UDPSOCKET 100 100 demo_received)
    as (_ & (Hl & _) & Hr & _); [exact Pkt.demo_held|lia|lia|exact demo_received_reach|].
  split; [by vm_compute|]. split; [rewrite Hl; by vm_compute|rewrite Hr; by vm_compute].
Defined.

End Socket.
