(* ===== verification/Udp.v ===== *)
(** * UDP sockets
    (src/phantom/src/main/host/descriptor/udp.c)

    Datagrams over the socket buffers.  Sending builds a packet around the
    bytes read from the managed process and puts it into the output buffer;
    an arriving packet goes into the input buffer or is dropped; receiving
    copies the first packet out and throws away what does not fit. *)

From stdpp Require Import pretty.
From S2P Require Import Prelude Float64 Cpu PriorityQueue Event Packet Descriptor Socket.

Module Udp.
Import Desc Socket.
#[local] Existing Instances Pkt.packet_eta Pkt.store_eta Pkt.payload_eta.

Definition ENOTCONN : Z := 107.
Definition EMSGSIZE : Z := 90.
Definition CONFIG_DATAGRAM_MAX_SIZE : Z := 65507.
Definition AF_UNSPEC : Z := 0.
Definition AF_UNIX : Z := 1.
Definition AF_INET : Z := 2.
Definition PUDP_NONE : Z := 0.

Inductive UDPState := UDPS_CLOSED | UDPS_ESTABLISHED.

#[export] Instance UDPState_eq_dec : EqDecision UDPState.
Proof. solve_decision. Defined.

Record UDP := mkUDP { super : Socket; state : UDPState; stateLast : UDPState }.

#[export] Instance udp_eta : Eta UDP := fun u => mkUDP (super u) (state u) (stateLast u).

Definition _udp_setState (u : UDP) (s : UDPState) : UDP :=
  u <| stateLast := state u |> <| state := s |>.

Definition _udp_isFamilySupported (family : Z) : bool :=
  (family =? AF_INET) || (family =? AF_UNSPEC) || (family =? AF_UNIX).

Section Operations.
(** The memory of the managed process and the C library's [inet_ntop], as in
    Packet.v. *)
Context {Mem : Type} (process_readPtr : Mem → Z → Z → option (list Z))
  (process_writePtr : Mem → Z → list Z → Mem * Z).
Context (address_ipToNewString : Z → string) (traceOn : bool).

Definition _udp_connectToPeer (u : UDP) (ip port family : Z) : UDP * Z :=
  if family =? AF_UNSPEC then
    (_udp_setState (u <| super := socket_setPeerName address_ipToNewString (super u) 0 0 |>) UDPS_CLOSED, 0)
  else
    (_udp_setState (u <| super := socket_setPeerName address_ipToNewString (super u) ip port |>)
       UDPS_ESTABLISHED, 0).

Definition _udp_processPacket (st : Pkt.Store) (u : UDP) (packet : Z) : option (Pkt.Store * UDP) :=
  '(st, s, added) ← socket_addToInputBuffer address_ipToNewString traceOn st (super u) packet;
  let u := u <| super := s |> in
  if added : bool then Some (st, u) else
    st ← Pkt.packet_addDeliveryStatus address_ipToNewString traceOn st packet Pkt.PDS_RCV_SOCKET_DROPPED;
    Some (st, u).

(** [socket_pushInPacket] with the UDP function table. *)
Definition udp_pushInPacket (st : Pkt.Store) (u : UDP) (packet : Z) : option (Pkt.Store * UDP) :=
  st ← Pkt.packet_addDeliveryStatus address_ipToNewString traceOn st packet Pkt.PDS_RCV_SOCKET_PROCESSED;
  _udp_processPacket st u packet.

(** The creation of the packet, with the packet's address. *)
Definition new_datagram (st : Pkt.Store) (mem : Mem) (host : Host.Host)
    (buffer nBytes sourceIP sourcePort destinationIP destinationPort : Z)
    : option (Pkt.Store * Host.Host * Z) :=
  let '(st, host, packet) := Pkt.packet_new st host in
  '(st, host) ← Pkt.packet_setPayload process_readPtr st mem host packet buffer nBytes;
  st ← Pkt.packet_setUDP st packet PUDP_NONE sourceIP sourcePort destinationIP destinationPort;
  st ← Pkt.packet_addDeliveryStatus address_ipToNewString traceOn st packet Pkt.PDS_SND_CREATED;
  Some (st, host, packet).

(** [defaultIP] is the address of the host's default interface.  The result is
    the number of bytes or a negative error, and the interface that has been
    asked to send, if any; [None] is a failed assertion. *)
Definition _udp_sendUserData (st : Pkt.Store) (mem : Mem) (host : Host.Host) (defaultIP : Z) (u : UDP)
    (buffer nBytes ip port : Z) : option (Pkt.Store * Host.Host * UDP * option Z * Z) :=
  if CONFIG_DATAGRAM_MAX_SIZE <? nBytes then Some (st, host, u, None, - EMSGSIZE) else
  space ← socket_getOutputBufferSpace (super u);
  if space <? nBytes then Some (st, host, u, None, - EWOULDBLOCK) else
  let destinationIP := if negb (ip =? 0) then ip else peerIP (super u) in
  let destinationPort := if negb (port =? 0) then port else peerPort (super u) in
  let '(sourceIP, sourcePort) := default (0, 0) (socket_getSocketName (super u)) in
  let sourceIP :=
    if sourceIP =? htonl INADDR_ANY then
      if destinationIP =? htonl Pkt.INADDR_LOOPBACK then htonl Pkt.INADDR_LOOPBACK else defaultIP
    else sourceIP in
  if (sourceIP =? 0) || (sourcePort =? 0) || (destinationIP =? 0) || (destinationPort =? 0) then None else
  '(st, host, packet) ←
    new_datagram st mem host buffer nBytes sourceIP sourcePort destinationIP destinationPort;
  '(st, s, wants) ← socket_addToOutputBuffer address_ipToNewString traceOn 0 st (super u) packet;
  let bytes_sent := match wants with Some _ => nBytes | None => 0 end in
  Some (st, host, u <| super := s |>, wants,
        if (bytes_sent =? 0) && (0 <? nBytes) then - EWOULDBLOCK else bytes_sent).

(** The result is the number of bytes or a negative error, and the sender. *)
Definition _udp_receiveUserData (st : Pkt.Store) (mem : Mem) (u : UDP) (buffer nBytes : Z)
    : option (Pkt.Store * Mem * UDP * option (Z * Z) * Z) :=
  let nextPacket := socket_peekNextInPacket (super u) in
  if nextPacket =? 0 then Some (st, mem, u, None, - EWOULDBLOCK) else
  if (buffer =? 0) && (0 <? nBytes) then Some (st, mem, u, None, - EFAULT) else
  p ← Pkt.packets st !! nextPacket;
  packetLength ← Pkt.packet_getPayloadLength st p;
  let copyLength := Z.min nBytes packetLength in
  '(st, mem, bytesCopied) ← Pkt.packet_copyPayload process_writePtr st mem p 0 buffer copyLength;
  if bytesCopied <? 0 then Some (st, mem, u, None, bytesCopied) else
  '(s, packet) ← socket_removeFromInputBuffer st (super u);
  let u := u <| super := s |> in
  if negb (bytesCopied =? copyLength) then None else
  st ← Pkt.packet_addDeliveryStatus address_ipToNewString traceOn st packet Pkt.PDS_RCV_SOCKET_DELIVERED;
  p ← Pkt.packets st !! packet;
  ip ← Pkt.packet_getSourceIP p;
  port ← Pkt.packet_getSourcePort p;
  st ← Pkt.packet_unref address_ipToNewString traceOn st packet;
  Some (st, mem, u, Some (ip, port), bytesCopied).

(** The returned boolean asks for the descriptor to be deregistered. *)
Definition _udp_close (u : UDP) : UDP * bool := (_udp_setState u UDPS_CLOSED, true).

Definition udp_shutdown (u : UDP) (how : Z) : Z :=
  if decide (state u = UDPS_CLOSED) then - ENOTCONN else 0.

Definition udp_new (receiveBufferSize sendBufferSize : Z) : UDP :=
  mkUDP (adjustStatus (Z.lor STATUS_DESCRIPTOR_ACTIVE STATUS_DESCRIPTOR_WRITABLE) true
           (socket_init DT_UDPSOCKET receiveBufferSize sendBufferSize)) UDPS_CLOSED UDPS_CLOSED.

End Operations.

(** ** A datagram on its way *)

(** The packet at [p] carries [bytes] between the two endpoints. *)
Definition datagram (st : Pkt.Store) (p : Z) (bytes : list Z) (sip sport dip dport : Z) : Prop :=
  ∃ pk pl, Pkt.packets st !! p = Some pk ∧ Pkt.protocol pk = Pkt.PUDP ∧
    Pkt.header pk = Pkt.HUDP (Pkt.mkUDP PUDP_NONE sip sport dip dport) ∧ Pkt.payload pk ≠ 0 ∧
    Pkt.payloads st !! Pkt.payload pk = Some pl ∧ Pkt.lock pl = false ∧ Pkt.data pl = bytes ∧
    Pkt.p_length pl = Z.of_nat (List.length bytes).

Section Proofs.
Context {Mem : Type} (process_readPtr : Mem → Z → Z → option (list Z))
  (process_writePtr : Mem → Z → list Z → Mem * Z).
Context (address_ipToNewString : Z → string) (traceOn : bool).
Hypothesis read_length : ∀ mem src n bytes,
  0 < n → process_readPtr mem src n = Some bytes → Z.of_nat (List.length bytes) = n.

Abbreviation held := (Pkt.held traceOn).
Abbreviation addStatus := (Pkt.packet_addDeliveryStatus address_ipToNewString traceOn).

(** Status bits and references leave a packet's content alone. *)
Definition same_content (st st' : Pkt.Store) : Prop :=
  Pkt.payloads st' = Pkt.payloads st ∧
  ∀ a pk, Pkt.packets st !! a = Some pk → ∃ pk', Pkt.packets st' !! a = Some pk' ∧
    Pkt.protocol pk' = Pkt.protocol pk ∧ Pkt.header pk' = Pkt.header pk ∧ Pkt.payload pk' = Pkt.payload pk.

#[local] Instance same_content_preorder : PreOrder same_content.
Proof.
  split; [intros st; split; [done|by eauto]|]. intros st1 st2 st3 [P1 H1] [P2 H2].
  split; [by rewrite P2|]. intros a pk E. destruct (H1 _ _ E) as (pk2 & E2 & ? & ? & ?).
  destruct (H2 _ _ E2) as (pk3 & E3 & ? & ? & ?). exists pk3. split_and!; congruence.
Qed.

Lemma set_content st a pk pk' :
  Pkt.packets st !! a = Some pk → Pkt.protocol pk' = Pkt.protocol pk → Pkt.header pk' = Pkt.header pk →
  Pkt.payload pk' = Pkt.payload pk → same_content st (Pkt.set_packet_at st a pk').
Proof.
  intros Ea E1 E2 E3. split; [done|]. intros b q Eb. cbn. destruct (decide (a = b)) as [->|Hne].
  - rewrite lookup_insert_eq. exists pk'. simplify_eq. done.
  - rewrite lookup_insert_ne by done. by exists q.
Qed.

(** Status bits leave the reference counts alone as well. *)
Definition refs (st : Pkt.Store) (a : Z) : option Z := Pkt.referenceCount <$> Pkt.packets st !! a.

Definition same_refs (st st' : Pkt.Store) : Prop := ∀ a, refs st' a = refs st a.

Lemma set_refs st a pk pk' :
  Pkt.packets st !! a = Some pk → Pkt.referenceCount pk' = Pkt.referenceCount pk →
  same_refs st (Pkt.set_packet_at st a pk').
Proof.
  intros Ea E b. unfold refs. cbn. destruct (decide (a = b)) as [<-|Hne].
  - rewrite lookup_insert_eq, Ea. cbn. by rewrite E.
  - by rewrite lookup_insert_ne.
Qed.

Lemma lookup_set st a pk : Pkt.packets (Pkt.set_packet_at st a pk) !! a = Some pk.
Proof. apply lookup_insert_eq. Qed.

Lemma datagram_content st st' p bytes sip sport dip dport :
  same_content st st' → datagram st p bytes sip sport dip dport → datagram st' p bytes sip sport dip dport.
Proof.
  intros [P H] (pk & pl & E & E1 & E2 & E3 & E4 & E5). destruct (H _ _ E) as (pk' & E' & ? & ? & ?).
  exists pk', pl. rewrite P. split_and!; try congruence; by destruct E5 as (? & ? & ?).
Qed.

Lemma status_content st a bits st' :
  addStatus st a bits = Some st' → same_content st st' ∧ same_refs st st'.
Proof.
  unfold Pkt.packet_addDeliveryStatus. destruct (Pkt.packets st !! a) as [p|] eqn:Ea; [|done].
  cbn [mbind option_bind]. cbn zeta. destruct traceOn; [|intros [= <-]; split; [by eapply set_content|by eapply set_refs]].
  unfold Pkt.packet_toString. destruct (Pkt.packet_getPayloadLength _ _); [|done]. cbn [mbind option_bind].
  destruct (Pkt.header_toString _ _ _); [|done]. cbn [mbind option_bind]. destruct (Pkt.status_loop _ _).
  intros [= <-]. split; [by eapply set_content|by eapply set_refs].
Qed.

Lemma ref_content st a st' : Pkt.packet_ref st a = Some st' → same_content st st'.
Proof.
  unfold Pkt.packet_ref, Pkt.update_packet. destruct (Pkt.packets st !! a) as [p|] eqn:Ea; [|done].
  cbn. intros [= <-]. by eapply set_content.
Qed.

Lemma add_output_content st s p st' s' r :
  socket_addToOutputBuffer address_ipToNewString traceOn 0 st s p = Some (st', s', r) →
  same_content st st' ∧ same_refs st st'.
Proof.
  unfold socket_addToOutputBuffer. intros E. repeat (case_match || simplify_option_eq); try done;
    by eapply status_content.
Qed.

Lemma add_input_content st s p st' s' b :
  socket_addToInputBuffer address_ipToNewString traceOn st s p = Some (st', s', b) → same_content st st'.
Proof.
  unfold socket_addToInputBuffer. intros E. repeat (case_match || simplify_option_eq); try done;
    (etrans; [by eapply ref_content|by eapply status_content]).
Qed.

(** *** Creation *)

Lemma fresh_address st l : Pkt.held traceOn st l → Pkt.packets st !! Pkt.next st = None ∧ Pkt.next st ∉ l.
Proof.
  intros Hh. pose proof (Pkt.held_wf _ _ _ Hh) as Hwf.
  assert (Hn : Pkt.packets st !! Pkt.next st = None).
  { destruct (Pkt.packets st !! Pkt.next st) as [p|] eqn:E; [|done].
    destruct (Pkt.wf_packets _ Hwf _ _ E) as [? _]. lia. }
  split; [done|]. intros Hin. destruct (Pkt.held_in _ _ _ _ Hh Hin) as (p & E & _). congruence.
Qed.

(** The packet while it is built, and the store it ends up in. *)
Definition built (host : Host.Host) (p sip sport dip dport : Z) : Pkt.Packet :=
  Pkt.mkPacket 1 (Host.params_id host) (Host.packetIDCounter host) Pkt.PUDP
    (Pkt.HUDP (Pkt.mkUDP PUDP_NONE sip sport dip dport)) (p + 1)
    (Host.host_getNextPacketPriority (Host.host_getNewPacketID host).1).2 0 [].

Definition built_store (st : Pkt.Store) (bytes : list Z) (n : Z) (pk : Pkt.Packet) : Pkt.Store :=
  Pkt.mkStore (Pkt.next st + 1 + 1) (<[Pkt.next st := pk]> (Pkt.packets st))
    (<[Pkt.next st + 1 := Pkt.mkPayload false 1 bytes n]> (Pkt.payloads st)).

Lemma built_wf st host bytes n sip sport dip dport :
  Pkt.wf st → Pkt.packets st !! Pkt.next st = None →
  Z.of_nat (size (Pkt.packets st)) + 1 < 2 ^ 32 → Z.of_nat (List.length bytes) = n →
  Pkt.wf (built_store st bytes n (built host (Pkt.next st) sip sport dip dport)).
Proof.
  intros Hwf Hnone Hsz Hlen. set (p := Pkt.next st). pose proof (Pkt.wf_next _ Hwf).
  set (pk0 := Pkt.mkPacket 1 (Host.params_id host) (Host.packetIDCounter host) Pkt.PNONE Pkt.HNull 0 (F64.of_Z 0) 0 []).
  pose proof (Pkt.alloc_wf st pk0 Hwf Hsz eq_refl I eq_refl) as Hwf1.
  set (st1 := (Pkt.alloc_packet st pk0).1) in *.
  set (pk1 := (built host p sip sport dip dport) <| Pkt.protocol := Pkt.PNONE |> <| Pkt.header := Pkt.HNull |>).
  assert (Hp1 : Pkt.packets st1 !! p = Some pk0) by (cbn; by rewrite lookup_insert_eq).
  pose proof (Pkt.attach_wf st1 p pk0 pk1 (Pkt.next st1 + 1) (Pkt.mkPayload false 1 bytes n)
    Hwf1 Hp1 eq_refl eq_refl eq_refl eq_refl eq_refl eq_refl (eq_sym Hlen) eq_refl eq_refl) as Hwf2.
  set (st2 := Pkt.set_packet_at _ p pk1) in Hwf2.
  assert (Hp2 : Pkt.packets st2 !! p = Some pk1) by (cbn; by rewrite lookup_insert_eq).
  pose proof (Pkt.update_wf st2 p pk1 (built host p sip sport dip dport) Hwf2 Hp2 eq_refl I ltac:(done)) as Hwf3.
  replace (built_store _ _ _ _) with (Pkt.set_packet_at st2 p (built host p sip sport dip dport)); [done|].
  unfold st2, Pkt.set_packet_at, built_store. cbn. by rewrite !insert_insert_eq.
Qed.

Lemma built_held st l host bytes n sip sport dip dport :
  held st l → Z.of_nat (size (Pkt.packets st)) + 1 < 2 ^ 32 → Z.of_nat (List.length bytes) = n →
  let st' := built_store st bytes n (built host (Pkt.next st) sip sport dip dport) in
  held st' (Pkt.next st :: l) ∧ datagram st' (Pkt.next st) bytes sip sport dip dport ∧
  ∀ b, b ∈ l → packet_length st' b = packet_length st b.
Proof.
  intros Hh Hsz Hlen st'. pose proof (Pkt.held_wf _ _ _ Hh) as Hwf.
  destruct (fresh_address st l Hh) as [Hnone Hnin]. pose proof (Pkt.wf_next _ Hwf).
  split_and!.
  - split; [by apply built_wf| |].
    + intros b. unfold Pkt.refcount. cbn. rewrite Pkt.count_cons. destruct (decide (Pkt.next st = b)) as [<-|Hne].
      * rewrite lookup_insert_eq. assert (Pkt.count l (Pkt.next st) = 0) as ->; [|done].
        pose proof (Pkt.held_exact _ _ _ Hh (Pkt.next st)) as He. unfold Pkt.refcount in He. by rewrite Hnone in He.
      * rewrite lookup_insert_ne by done. apply (Pkt.held_exact _ _ _ Hh).
    + intros b q. cbn. destruct (decide (Pkt.next st = b)) as [<-|Hne]; [|rewrite lookup_insert_ne by done; apply Hh].
      rewrite lookup_insert_eq. intros [= <-]. unfold Pkt.traceable, Pkt.no_header. cbn. apply orb_true_r.
  - eexists _, _. cbn. rewrite lookup_insert_eq. split; [done|]. cbn.
    rewrite lookup_insert_eq. split_and!; try done; lia.
  - intros b Hb. destruct (Pkt.held_in _ _ _ _ Hh Hb) as (q & Eq & _). unfold packet_length. cbn.
    rewrite lookup_insert_ne by (intros <-; by apply Hnin). rewrite Eq. cbn.
    unfold Pkt.packet_getPayloadLength. destruct (Z.eqb_spec (Pkt.payload q) 0) as [|Hne]; [done|]. cbn.
    destruct (Pkt.payload_live st b q Hwf Eq Hne) as (pl & Epl & _).
    pose proof (Pkt.wf_payloads _ Hwf (Pkt.payload q)) as Hok. rewrite Epl in Hok. cbn in Hok.
    unfold Pkt.payload_getLength. cbn. by rewrite lookup_insert_ne by lia.
Qed.

Lemma new_datagram_ok st l mem host buffer n bytes sip sport dip dport :
  held st l → Z.of_nat (size (Pkt.packets st)) + 1 < 2 ^ 32 → 0 < n → buffer ≠ 0 →
  process_readPtr mem buffer n = Some bytes →
  sip ≠ 0 → sport ≠ 0 → dip ≠ 0 → dport ≠ 0 →
  ∃ st' host', new_datagram process_readPtr address_ipToNewString traceOn st mem host buffer n sip sport dip dport
      = Some (st', host', Pkt.next st) ∧ held st' (Pkt.next st :: l) ∧
    datagram st' (Pkt.next st) bytes sip sport dip dport ∧ refs st' (Pkt.next st) = Some 1 ∧
    ∀ b, b ∈ l → packet_length st' b = packet_length st b.
Proof.
  intros Hh Hsz Hn Hbuf Hread H1 H2 H3 H4.
  destruct (built_held st l host bytes n sip sport dip dport Hh Hsz) as (Hh' & Hd & Hl); [by eapply read_length|].
  set (p := Pkt.next st) in *. set (st3 := built_store _ _ _ _) in *.
  destruct (held_addStatus address_ipToNewString traceOn st3 _ p Pkt.PDS_SND_CREATED Hh' ltac:(left))
    as (st4 & _ & _ & E4 & Hh4 & Hl4 & _ & _).
  pose proof (datagram_content _ _ _ _ _ _ _ _ (proj1 (status_content _ _ _ _ E4)) Hd) as Hd4.
  unfold new_datagram, Pkt.packet_new, Pkt.packet_setPayload, Pkt.payload_new. cbn -[Pkt.packet_addDeliveryStatus].
  rewrite lookup_insert_eq. cbn -[Pkt.packet_addDeliveryStatus].
  rewrite (proj2 (Z.eqb_neq buffer 0)), (proj2 (Z.ltb_lt 0 n)) by done. cbn -[Pkt.packet_addDeliveryStatus]. rewrite Hread. cbn -[Pkt.packet_addDeliveryStatus].
  unfold Pkt.packet_setUDP, Pkt.update_packet, Pkt.addresses_given. cbn -[Pkt.packet_addDeliveryStatus]. rewrite lookup_insert_eq. cbn -[Pkt.packet_addDeliveryStatus].
  rewrite !(proj2 (Z.eqb_neq _ 0)) by done. cbn -[Pkt.packet_addDeliveryStatus].
  replace (Pkt.set_packet_at _ _ _) with st3.
  2:{ unfold st3, built_store, Pkt.set_packet_at. cbn. by rewrite !insert_insert_eq. }
  fold p. rewrite E4. cbn. eexists _, _. split; [done|]. split_and!; try done.
  - rewrite (proj2 (status_content _ _ _ _ E4)). unfold refs. cbn. by rewrite lookup_insert_eq.
  - intros b Hb. by rewrite Hl4, Hl.
Qed.

(** *** Sending *)

Lemma datagram_length st p bytes sip sport dip dport :
  datagram st p bytes sip sport dip dport → Z.of_nat (List.length bytes) < 2 ^ 32 →
  packet_length st p = Some (Z.of_nat (List.length bytes)).
Proof.
  intros (pk & pl & Epk & Hp1 & Hp2 & Hp3 & Epl & Hp4 & Hp5 & Hp6) Hlt. unfold packet_length. rewrite Epk. cbn.
  unfold Pkt.packet_getPayloadLength. rewrite (proj2 (Z.eqb_neq _ 0)) by done. cbn.
  unfold Pkt.payload_getLength. rewrite Epl. cbn. unfold Pkt._payload_lock. rewrite Hp4. cbn. by rewrite Hp6, u32_small by lia.
Qed.

Lemma enqueued_single s s' pk p : out_queue s = [] → enqueued s s' pk p → out_queue s' = [p].
Proof.
  unfold out_queue, enqueued. intros [E1 E2]%app_nil. rewrite E1, E2. by case_match; intros [-> ->].
Qed.

Definition destination (u : UDP) (ip port : Z) : Z * Z :=
  (if negb (ip =? 0) then ip else peerIP (super u), if negb (port =? 0) then port else peerPort (super u)).

(** The address a datagram to [dip] is sent from. *)
Definition source (defaultIP : Z) (u : UDP) (dip : Z) : Z * Z :=
  let '(sip, sport) := default (0, 0) (socket_getSocketName (super u)) in
  (if sip =? htonl INADDR_ANY then
     if dip =? htonl Pkt.INADDR_LOOPBACK then htonl Pkt.INADDR_LOOPBACK else defaultIP
   else sip, sport).

Abbreviation sendUserData := (_udp_sendUserData process_readPtr address_ipToNewString traceOn).

Lemma send_ok st mem host defaultIP u env buffer n bytes ip port k dip dport sip sport :
  held st (env ++ contents (super u)) → sock_ok st (super u) →
  Z.of_nat (size (Pkt.packets st)) + 1 < 2 ^ 32 →
  0 < n ≤ CONFIG_DATAGRAM_MAX_SIZE → buffer ≠ 0 → process_readPtr mem buffer n = Some bytes →
  socket_getOutputBufferSpace (super u) = Some k → n ≤ k →
  destination u ip port = (dip, dport) → source defaultIP u dip = (sip, sport) →
  sip ≠ 0 → sport ≠ 0 → dip ≠ 0 → dport ≠ 0 → out_queue (super u) = [] →
  ∃ st' host' s', sendUserData st mem host defaultIP u buffer n ip port
      = Some (st', host', u <| super := s' |>, Some sip, n) ∧
    held st' (env ++ contents s') ∧ sock_ok st' s' ∧ out_queue s' = [Pkt.next st] ∧
    datagram st' (Pkt.next st) bytes sip sport dip dport ∧ refs st' (Pkt.next st) = Some 1 ∧
    ∀ b, b ∈ env → packet_length st' b = packet_length st b.
Proof.
  intros Hh Hok Hsz [Hn Hmax] Hbuf Hread Hk Hle Hdst Hsrc H1 H2 H3 H4 Hq.
  destruct (new_datagram_ok st _ mem host buffer n bytes sip sport dip dport Hh Hsz Hn Hbuf Hread H1 H2 H3 H4)
    as (st1 & host' & E1 & Hh1 & Hd1 & Hr1 & Hl1).
  assert (Hok1 : sock_ok st1 (super u)).
  { apply (sock_ok_world st); [|done]. intros b Hb. unfold len. rewrite Hl1; [done|].
    apply elem_of_app. by right. }
  pose proof Hd1 as (pk & pl & Epk & Hp1 & Hp2 & _).
  destruct (add_output_ok address_ipToNewString traceOn 0 st1 (super u) env (Pkt.next st) Hh1 Hok1)
    as (st2 & s2 & r & E2 & Hok2 & Hl2 & Hr).
  { intros pk' E'. simplify_eq. by rewrite Hp1. }
  assert (Hlen : len st1 (Pkt.next st) = n).
  { pose proof (read_length _ _ _ _ Hn Hread) as Hrl. unfold CONFIG_DATAGRAM_MAX_SIZE in Hmax. unfold len.
    erewrite datagram_length by (done || lia). done. }
  rewrite (output_space _ _ Hok) in Hk. injection Hk as Hk.
  destruct r as [sip'|]; [|destruct Hr as [Hr _]; rewrite Hlen, Hk in Hr; lia].
  destruct Hr as (_ & Hh2 & _ & _ & (pk' & Epk' & Eip & Henq) & _).
  assert (sip' = sip) as ->.
  { simplify_eq. unfold Pkt.packet_getSourceIP in Eip. rewrite Hp1, Hp2 in Eip. by injection Eip. }
  pose proof (add_output_content _ _ _ _ _ _ E2) as [Hc2 Hr2].
  exists st2, host', s2. split_and!; [|done|done|by eapply enqueued_single|by eapply datagram_content|by rewrite Hr2|].
  - unfold _udp_sendUserData. rewrite (proj2 (Z.ltb_ge _ _)) by done.
    rewrite (output_space _ _ Hok), Hk. cbn [mbind option_bind]. rewrite (proj2 (Z.ltb_ge _ _)) by done.
    cbn zeta. unfold source in Hsrc. unfold destination in Hdst. injection Hdst as Ed1 Ed2. rewrite Ed1, Ed2.
    destruct (default (0, 0) (socket_getSocketName (super u))) as [a b]. injection Hsrc as Es1 ->. rewrite Es1.
    rewrite !(proj2 (Z.eqb_neq _ 0)) by done. cbn [orb]. rewrite E1. cbn [mbind option_bind]. rewrite E2.
    cbn [mbind option_bind]. by rewrite (proj2 (Z.eqb_neq n 0)) by lia.
  - intros b Hb. rewrite Hl2, Hl1; [done|]. apply elem_of_app. by left.
Qed.

(** *** Arrival *)

Abbreviation pushInPacket := (udp_pushInPacket address_ipToNewString traceOn).

(** The packet arrives while the network still holds it. *)
Lemma udp_push_ok st u env p pk k n :
  held st (env ++ contents (super u)) → sock_ok st (super u) → p ∈ env →
  Pkt.packets st !! p = Some pk → Pkt.referenceCount pk < UINT32_MAX →
  packet_length st p = Some n → socket_getInputBufferSpace (super u) = Some k → n ≤ k →
  ∃ st' s', pushInPacket st u p = Some (st', u <| super := s' |>) ∧
    held st' (env ++ contents s') ∧ sock_ok st' s' ∧ inputBuffer s' = inputBuffer (super u) ++ [p] ∧
    same_content st st' ∧ ∀ b, packet_length st' b = packet_length st b.
Proof.
  intros Hh Hok Hp Epk Hrc Hn Hk Hle. unfold udp_pushInPacket.
  assert (Hin : p ∈ env ++ contents (super u)) by (apply elem_of_app; by left).
  destruct (held_addStatus address_ipToNewString traceOn st _ p Pkt.PDS_RCV_SOCKET_PROCESSED Hh Hin)
    as (st1 & pk1 & q & E1 & Hh1 & Hl1 & Epk1 & Est1). rewrite E1. cbn [mbind option_bind].
  assert (Hok1 : sock_ok st1 (super u)).
  { apply (sock_ok_world st); [|done]. intros b _. unfold len. by rewrite Hl1. }
  assert (Epk2 : ∃ pk2, Pkt.packets st1 !! p = Some pk2 ∧ Pkt.referenceCount pk2 < UINT32_MAX).
  { simplify_eq. eexists. split; [apply lookup_insert_eq|done]. }
  destruct Epk2 as (pk2 & Epk2 & Hrc2).
  destruct (add_input_ok address_ipToNewString traceOn st1 (super u) env p pk2 Hh1 Hok1 Hp Epk2 Hrc2)
    as (st2 & s2 & b & E2 & Hok2 & Hh2 & Hl2 & Hb & Ei & _).
  rewrite (input_space _ _ Hok) in Hk. injection Hk as Hk.
  assert (b = true) as ->.
  { rewrite Hb. apply Z.leb_le. unfold len. by rewrite Hl1, Hn, Hk. }
  exists st2, s2. unfold _udp_processPacket. rewrite E2. split; [done|]. split_and!; try done.
  - etrans; [by eapply status_content|by eapply add_input_content].
  - intros a. by rewrite Hl2.
Qed.

(** A reference less, while there are others. *)
Lemma unref_content st l p :
  held st (p :: l) → p ∈ l →
  ∃ st', Pkt.packet_unref address_ipToNewString traceOn st p = Some st' ∧ held st' l ∧ same_content st st' ∧
    ∀ b, packet_length st' b = packet_length st b.
Proof.
  intros Hh Hp. destruct (Pkt.held_unref address_ipToNewString traceOn st l p Hh) as (st' & E & Hh' & _).
  exists st'. split; [done|]. split; [done|].
  destruct (Pkt.held_in _ _ _ p Hh) as (pk & Epk & Hc & _); [left|].
  destruct (Pkt.wf_packets _ (Pkt.held_wf _ _ _ Hh) p pk Epk) as (_ & _ & Hr).
  assert (H0 : 0 < Pkt.count l p).
  { unfold Pkt.count. apply list_elem_of_In, (count_occ_In Z.eq_dec) in Hp. lia. }
  rewrite Pkt.count_cons, decide_True in Hc by done.
  revert E. unfold Pkt.packet_unref, Pkt.update_packet. rewrite Epk. cbn [mbind option_bind].
  cbn -[u32]. rewrite lookup_insert_eq. cbn -[u32].
  rewrite u32_small, (proj2 (Z.eqb_neq _ 0)) by lia. intros [= <-].
  split; [by eapply set_content|]. intros b. by apply (length_update _ _ pk).
Qed.

(** *** Reading *)

Abbreviation receiveUserData := (_udp_receiveUserData process_writePtr address_ipToNewString traceOn).

Lemma copy_payload_ok st mem p pk bytes sip sport dip dport dst m :
  datagram st p bytes sip sport dip dport → Pkt.packets st !! p = Some pk →
  0 < m ≤ Z.of_nat (List.length bytes) → (process_writePtr mem dst (take (Z.to_nat m) bytes)).2 = 0 →
  Pkt.packet_copyPayload process_writePtr st mem pk 0 dst m =
    Some (st, (process_writePtr mem dst (take (Z.to_nat m) bytes)).1, m).
Proof.
  intros (pk' & pl & Epk & Hp1 & Hp2 & Hp3 & Epl & Hp4 & Hp5 & Hp6) Epk' Hm Hw. simplify_eq.
  unfold Pkt.packet_copyPayload. rewrite (proj2 (Z.eqb_neq _ 0)) by done. cbn [negb].
  unfold Pkt.payload_getData, Pkt._payload_lock, Pkt._payload_unlock. rewrite Epl. cbn [mbind option_bind].
  rewrite Hp4. cbn [mbind option_bind]. cbn -[Pkt.slice Z.min Z.leb Z.ltb]. rewrite Hp6.
  rewrite (proj2 (Z.leb_le _ _)) by lia. cbn [negb]. replace (Z.min _ _) with m by lia.
  rewrite (proj2 (Z.ltb_lt _ _)) by lia. unfold Pkt.slice. change (drop (Z.to_nat 0)) with (λ l : list Z, l). cbv beta.
  destruct (process_writePtr mem dst (take (Z.to_nat m) (Pkt.data pl))) as [mem' err]. cbn in *. rewrite Hw.
  cbn. f_equal. f_equal. f_equal. destruct st as [nx ps pls]. unfold Pkt.set_payload_at. cbn in *. f_equal.
  rewrite insert_id; [done|]. rewrite Epl. by destruct pl; cbn in *; subst.
Qed.

Lemma receive_ok st mem u env p bytes sip sport dip dport dst m :
  held st (env ++ contents (super u)) → sock_ok st (super u) → inputBuffer (super u) = [p] →
  datagram st p bytes sip sport dip dport → 0 < Z.of_nat (List.length bytes) < 2 ^ 32 → 0 < m → dst ≠ 0 →
  let k := Z.min m (Z.of_nat (List.length bytes)) in
  (process_writePtr mem dst (take (Z.to_nat k) bytes)).2 = 0 →
  ∃ st' s', receiveUserData st mem u dst m =
      Some (st', (process_writePtr mem dst (take (Z.to_nat k) bytes)).1, u <| super := s' |>, Some (sip, sport), k) ∧
    held st' (env ++ contents s') ∧ inputBuffer s' = [] ∧
    has_flag (status (Socket.super s')) STATUS_DESCRIPTOR_READABLE = false.
Proof.
  intros Hh Hok Ein Hd Hlen Hm Hdst k Hw. unfold _udp_receiveUserData, socket_peekNextInPacket. rewrite Ein.
  cbn [peek_head]. assert (Hin : p ∈ env ++ contents (super u)).
  { unfold contents. rewrite Ein, !elem_of_app. right. left. left. }
  rewrite (proj2 (Z.eqb_neq p 0)) by (by eapply held_not_null). rewrite (proj2 (Z.eqb_neq dst 0)) by done. cbn [andb].
  pose proof (datagram_length _ _ _ _ _ _ _ Hd ltac:(lia)) as Hl. pose proof Hd as (pk & _ & Epk & Hp1 & Hp2 & _).
  unfold packet_length in Hl. rewrite Epk in Hl |- *. cbn [mbind option_bind] in Hl |- *. rewrite Hl.
  cbn [mbind option_bind]. cbn zeta. fold k.
  rewrite (copy_payload_ok st mem p pk bytes sip sport dip dport dst k) by (done || lia).
  cbn [mbind option_bind]. rewrite (proj2 (Z.ltb_ge k 0)) by lia.
  pose proof (remove_input_ok traceOn st (super u) env Hh Hok) as Hrm. rewrite Ein in Hrm.
  destruct Hrm as (s1 & -> & Hok1 & Hh1 & Ein1 & _). cbn [mbind option_bind]. rewrite Z.eqb_refl. cbn [negb].
  destruct (held_addStatus address_ipToNewString traceOn st _ p Pkt.PDS_RCV_SOCKET_DELIVERED Hh1 ltac:(left))
    as (st1 & pk1 & q & -> & Hh2 & _ & Epk1 & ->). cbn [mbind option_bind].
  rewrite lookup_set. cbn [mbind option_bind]. simplify_eq.
  unfold Pkt.packet_getSourceIP, Pkt.packet_getSourcePort. cbn -[Pkt.packet_unref Pkt.set_packet_at].
  rewrite Hp1, Hp2. cbn -[Pkt.packet_unref Pkt.set_packet_at].
  destruct (Pkt.held_unref address_ipToNewString traceOn _ _ p Hh2) as (st2 & -> & Hh3 & _). cbn [mbind option_bind].
  exists st2, s1. split_and!; try done.
  rewrite (so_readable _ _ Hok1), (bo_length _ _ _ _ _ (so_in _ _ Hok1)), Ein1. done.
Qed.

(** *** From one process to another *)

(** Sending, the departure and the arrival of the packet, and reading at the
    other end.  The network has a reference of the packet until it has
    delivered it. *)
Definition transfer (st : Pkt.Store) (mem : Mem) (host : Host.Host) (defaultIP : Z) (u1 u2 : UDP)
    (buffer nBytes ip port : Z) (mem2 : Mem) (dst m : Z)
    : option (Pkt.Store * Mem * UDP * UDP * Z * option (Z * Z) * Z) :=
  '(st, host, u1, _, sent) ← sendUserData st mem host defaultIP u1 buffer nBytes ip port;
  '(s, packet) ← socket_pullOutPacket 0 st (super u1);
  let u1 := u1 <| super := s |> in
  '(st, u2) ← pushInPacket st u2 packet;
  st ← Pkt.packet_unref address_ipToNewString traceOn st packet;
  '(st, mem2, u2, from, received) ← receiveUserData st mem2 u2 dst m;
  Some (st, mem2, u1, u2, sent, from, received).

(** C33: a datagram of at most 65507 bytes, sent by a process on a socket with
    room for it, goes out as one packet; delivered to an idle socket with room
    for it, it gives the reader the first bytes of what was sent, as many as
    the reader asked for, and the sender's address and port.  The rest of the
    datagram is thrown away, both queues are empty again, the receiver is not
    readable and no reference of the packet is left over. *)
Theorem udp_datagram_roundtrip st mem host defaultIP u1 u2 env buffer n bytes ip port dip dport sip sport
    k1 k2 mem2 dst m :
  held st (env ++ contents (super u1) ++ contents (super u2)) →
  sock_ok st (super u1) → sock_ok st (super u2) →
  Z.of_nat (size (Pkt.packets st)) + 1 < 2 ^ 32 →
  out_queue (super u1) = [] → inputBuffer (super u2) = [] →
  0 < n ≤ CONFIG_DATAGRAM_MAX_SIZE → buffer ≠ 0 → process_readPtr mem buffer n = Some bytes →
  socket_getOutputBufferSpace (super u1) = Some k1 → n ≤ k1 →
  socket_getInputBufferSpace (super u2) = Some k2 → n ≤ k2 →
  destination u1 ip port = (dip, dport) → source defaultIP u1 dip = (sip, sport) →
  sip ≠ 0 → sport ≠ 0 → dip ≠ 0 → dport ≠ 0 → dst ≠ 0 → 0 < m →
  let k := Z.min m n in
  (process_writePtr mem2 dst (take (Z.to_nat k) bytes)).2 = 0 →
  ∃ st' s1 s2, transfer st mem host defaultIP u1 u2 buffer n ip port mem2 dst m =
      Some (st', (process_writePtr mem2 dst (take (Z.to_nat k) bytes)).1, u1 <| super := s1 |>,
            u2 <| super := s2 |>, n, Some (sip, sport), k) ∧
    out_queue s1 = [] ∧ inputBuffer s2 = [] ∧
    has_flag (status (Socket.super s2)) STATUS_DESCRIPTOR_READABLE = false ∧
    held st' (env ++ contents s1 ++ contents s2).
Proof.
  intros Hh Hok1 Hok2 Hsz Hq Hin Hn Hbuf Hread Hk1 Hle1 Hk2 Hle2 Hdst Hsrc N1 N2 N3 N4 N5 Hm k Hw.
  pose proof (read_length _ _ _ _ (proj1 Hn) Hread) as Hrl. unfold CONFIG_DATAGRAM_MAX_SIZE in Hn.
  destruct (send_ok st mem host defaultIP u1 (env ++ contents (super u2)) buffer n bytes ip port k1 dip dport sip sport)
    as (st1 & host' & s1 & E1 & Hh1 & Ho1 & Hq1 & Hd1 & Hr1 & Hl1); try done.
  { eapply Pkt.held_Permutation; [|exact Hh]. rewrite <-app_assoc. by rewrite (Permutation_app_comm (contents _) (contents _)). }
  unfold transfer. rewrite E1. cbn [mbind option_bind]. set (p := Pkt.next st) in *.
  pose proof (remove_output_ok traceOn 0 st1 s1 _ Hh1 Ho1) as Hrm. rewrite Hq1 in Hrm.
  destruct Hrm as (s1' & E2 & Ho1' & Hh2 & Hq1' & _). unfold socket_pullOutPacket.
  change (super (u1 <| super := s1 |>)) with s1. rewrite E2. cbn [mbind option_bind]. cbn zeta.
  assert (Hok2' : sock_ok st1 (super u2)).
  { apply (sock_ok_world st); [|done]. intros b Hb. unfold len. rewrite Hl1; [done|]. rewrite elem_of_app. by right. }
  unfold refs in Hr1. destruct (Pkt.packets st1 !! p) as [pk|] eqn:Epk; [|done]. injection Hr1 as Hr1.
  pose proof (datagram_length _ _ _ _ _ _ _ Hd1 ltac:(lia)) as Hlen.
  destruct (udp_push_ok st1 u2 (p :: env ++ contents s1') p pk k2 n) as (st2 & s2 & E3 & Hh3 & Ho2 & Hi2 & Hc2 & Hl2); try done.
  { eapply Pkt.held_Permutation; [|exact Hh2]. cbn. rewrite <-!app_assoc. f_equiv. f_equiv. apply Permutation_app_comm. }
  { left. }
  { unfold UINT32_MAX. lia. }
  { by rewrite Hlen, Hrl. }
  rewrite E3. cbn [mbind option_bind].
  destruct (unref_content st2 ((env ++ contents s1') ++ contents s2) p) as (st3 & E4 & Hh4 & Hc3 & Hl3); [done| |].
  { unfold contents. rewrite Hi2, Hin. rewrite !elem_of_app. right. left. right. left. }
  rewrite E4. cbn [mbind option_bind].
  assert (Ho2' : sock_ok st3 s2) by (apply (sock_ok_world st2); [intros b _; unfold len; by rewrite Hl3|done]).
  destruct (receive_ok st3 mem2 (u2 <| super := s2 |>) (env ++ contents s1') p bytes sip sport dip dport dst m)
    as (st4 & s3 & E5 & Hh5 & Hi3 & Hre); try done.
  { cbn. by rewrite Hi2, Hin. }
  { do 2 (eapply datagram_content; [done|]). done. }
  { lia. }
  { by rewrite Hrl. }
  rewrite E5. cbn [mbind option_bind]. rewrite Hrl. fold k. exists st4, s1', s3. split_and!; try done.
  by rewrite <-app_assoc in Hh5.
Qed.

(** A datagram without bytes waits in the queue, but the socket does not
    become readable: who waits for it is not woken. *)
Lemma empty_datagram_not_readable st u env p pk k :
  held st (env ++ contents (super u)) → sock_ok st (super u) → p ∈ env →
  Pkt.packets st !! p = Some pk → Pkt.referenceCount pk < UINT32_MAX →
  packet_length st p = Some 0 → socket_getInputBufferSpace (super u) = Some k → inputBuffer (super u) = [] →
  ∃ st' s', pushInPacket st u p = Some (st', u <| super := s' |>) ∧ inputBuffer s' = [p] ∧
    has_flag (status (Socket.super s')) STATUS_DESCRIPTOR_READABLE = false.
Proof.
  intros Hh Hok Hp Epk Hrc Hn Hk Hin.
  assert (H0 : 0 ≤ k).
  { rewrite (input_space _ _ Hok) in Hk. injection Hk as <-. unfold space. lia. }
  destruct (udp_push_ok st u env p pk k 0 Hh Hok Hp Epk Hrc Hn Hk H0) as (st' & s' & E & _ & Hok' & Hi & _ & Hl).
  exists st', s'. rewrite Hi, Hin. split_and!; [done..|].
  rewrite (so_readable _ _ Hok'), (bo_length _ _ _ _ _ (so_in _ _ Hok')), Hi, Hin. cbn.
  unfold len. by rewrite Hl, Hn.
Qed.

End Proofs.

(** ** Witnesses *)

Definition demo_name : Z → string := λ _, EmptyString.

(** A socket bound to the address 10, port 20, and connected to 30, 40; and
    one that waits there. *)
Definition demo_sender : UDP :=
  (_udp_connectToPeer demo_name
     ((udp_new 100 100) <| super := socket_setSocketName demo_name (super (udp_new 100 100)) 10 20 |>) 30 40 AF_INET).1.
Definition demo_receiver : UDP :=
  (udp_new 100 100) <| super := socket_setSocketName demo_name (super (udp_new 100 100)) 30 40 |>.

Lemma fresh_sock_ok s :
  contents s = [] → inputBufferLength s = 0 → outputBufferLength s = 0 →
  inputBufferSizePending s = 0 → outputBufferSizePending s = 0 →
  0 ≤ inputBufferSize s < 2 ^ 64 → 0 ≤ outputBufferSize s < 2 ^ 64 →
  has_flag (status (Socket.super s)) STATUS_DESCRIPTOR_READABLE = false → sock_ok Pkt.empty_store s.
Proof.
  intros [H1 [H2 H3]%app_nil]%app_nil E1 E2 E3 E4 Hi Ho Hr.
  constructor; rewrite ?H1, ?H2, ?H3, ?E1, ?E2, ?E3, ?E4; [split; cbn; lia..|done].
Qed.

Lemma udp_datagram_roundtrip_witness :
  ∃ st' s1 s2, transfer Pkt.demo_readPtr Pkt.demo_writePtr demo_name false Pkt.empty_store [1; 2; 3; 4; 5] Pkt.demo_host 0
      demo_sender demo_receiver 77 5 0 0 [] 50 3 =
    Some (st', [1; 2; 3], demo_sender <| super := s1 |>, demo_receiver <| super := s2 |>, 5, Some (10, 20), 3) ∧
    out_queue s1 = [] ∧ inputBuffer s2 = [].
Proof.
  destruct (udp_datagram_roundtrip Pkt.demo_readPtr Pkt.demo_writePtr demo_name false Pkt.demo_read_length
    Pkt.empty_store [1; 2; 3; 4; 5] Pkt.demo_host 0 demo_sender demo_receiver [] 77 5 [1; 2; 3; 4; 5] 0 0 30 40 10 20
    100 100 [] 50 3) as (st' & s1 & s2 & E & H1 & H2 & _);
    [exact (Pkt.held_empty false)|apply fresh_sock_ok; by vm_compute
    |apply fresh_sock_ok; by vm_compute|by vm_compute..|].
  exists st', s1, s2. rewrite E. split; [reflexivity|by split].
Defined.

(** A buffer that cannot be read is sent as an empty datagram, and the caller
    is told that all its bytes have gone. *)
Lemma unreadable_buffer_is_sent :
  match _udp_sendUserData (λ (_ : list Z) _ _, None) demo_name false Pkt.empty_store [] Pkt.demo_host 0 demo_sender
          77 5 0 0 with
  | Some (st, _, u, _, sent) => sent = 5 ∧ outputBuffer (super u) = [1] ∧ packet_length st 1 = Some 0
  | None => False
  end.
Proof. by vm_compute. Qed.

End Udp.
