(* ===== verification/CompatSocket.v ===== *)
(** * Sockets behind one type, and the queues of sockets that want to send
    (src/phantom/src/main/host/descriptor/compat_socket.c,
    utility/tagged_ptr.c, host/network_queuing_disciplines.c)

    A network interface knows its sockets as tagged pointers: the kind of the
    socket is in the low bits of its address.  What the interface asks of a
    socket is the class [SocketLaws]; UDP sockets meet it.  (TCP sockets send
    while they process a packet, and are not modelled.)  Sockets that want to
    send wait in a round-robin queue or in a heap ordered by the priority of
    their next packets. *)

From S2P Require Import Prelude Float64 Cpu PriorityQueue Event Packet RouterQueue Descriptor Socket Udp.

Module CompatSocket.
Import Pkt.
#[local] Existing Instances Socket.socket_eta Udp.udp_eta Desc.desc_eta Udp.same_content_preorder.

(** ** Tagged pointers (utility/tagged_ptr.c) *)

Definition TAG_MASK : Z := 7.

(** [None]: a panic. *)
Definition tagPtr (ptr tag : Z) : option Z :=
  if negb (Z.land ptr TAG_MASK =? 0) then None
  else if negb (Z.ldiff tag TAG_MASK =? 0) then None
  else Some (Z.lor ptr tag).

(** The pointer and the tag. *)
Definition untagPtr (taggedPtr : Z) : Z * Z := (Z.ldiff taggedPtr TAG_MASK, Z.land taggedPtr TAG_MASK).

(** ** Compatibility sockets (compat_socket.c) *)

Inductive CompatSocketTypes := CST_NONE | CST_LEGACY_SOCKET.

#[export] Instance CompatSocketTypes_eq_dec : EqDecision CompatSocketTypes.
Proof. solve_decision. Defined.

Definition type_tag (t : CompatSocketTypes) : Z := match t with CST_NONE => 0 | CST_LEGACY_SOCKET => 1 end.

(** [object] is the address of a socket. *)
Record CompatSocket := mkCompat { type : CompatSocketTypes; object : Z }.

Definition compatsocket_fromLegacySocket (socket : Z) : CompatSocket := mkCompat CST_LEGACY_SOCKET socket.

Definition compatsocket_toTagged (socket : CompatSocket) : option Z :=
  match type socket with
  | CST_LEGACY_SOCKET => tagPtr (object socket) (type_tag CST_LEGACY_SOCKET)
  | CST_NONE => None
  end.

Definition compatsocket_fromTagged (ptr : Z) : option CompatSocket :=
  let '(object_ptr, tag) := untagPtr ptr in
  if tag =? type_tag CST_LEGACY_SOCKET then Some (mkCompat CST_LEGACY_SOCKET object_ptr) else None.

(** *** What a socket can do *)

(** The function table and the base class of a legacy socket, as far as a
    network interface uses them. *)
Record SocketOps (S : Type) := mkSocketOps {
  so_getProtocol : S → ProtocolType;
  so_getPeerName : S → option (Z * Z);
  so_getSocketName : S → option (Z * Z);
  so_peekNextOutPacket : S → Z;
  so_pushInPacket : Store → S → Z → option (Store * S);
  so_pullOutPacket : Store → S → option (S * Z);
  so_ref : S → S;
  so_unref : Store → S → option (Store * option S);
}.
Arguments mkSocketOps {S}. Arguments so_getProtocol {S}. Arguments so_getPeerName {S}. Arguments so_getSocketName {S}.
Arguments so_peekNextOutPacket {S}. Arguments so_pushInPacket {S}. Arguments so_pullOutPacket {S}. Arguments so_ref {S}.
Arguments so_unref {S}.

(** The packet store and the sockets of a host. *)
Record World (S : Type) := mkWorld { store : Store; sockets : gmap Z S }.
Arguments mkWorld {S}. Arguments store {S}. Arguments sockets {S}.

#[export] Instance world_eta {S} : Eta (World S) := fun w => mkWorld (store w) (sockets w).

Section Operations.
Context {S : Type} (ops : SocketOps S).
Implicit Types (w : World S) (socket : CompatSocket).

(** The socket behind a reference; [None]: a panic, or a freed socket. *)
Definition legacy w socket : option S :=
  match type socket with CST_LEGACY_SOCKET => sockets w !! object socket | CST_NONE => None end.

Definition set_socket w socket (s : S) : World S := w <| sockets := <[object socket := s]> (sockets w) |>.

Definition compatsocket_refAs w socket : option (World S) :=
  s ← legacy w socket; Some (set_socket w socket (so_ref ops s)).

Definition compatsocket_unref w socket : option (World S) :=
  s ← legacy w socket;
  '(st, s) ← so_unref ops (store w) s;
  Some (match s with
        | Some s => set_socket (w <| store := st |>) socket s
        | None => w <| store := st |> <| sockets := delete (object socket) (sockets w) |>
        end).

Definition compatsocket_getProtocol w socket : option ProtocolType :=
  so_getProtocol ops <$> legacy w socket.

Definition compatsocket_getPeerName w socket : option (option (Z * Z)) := so_getPeerName ops <$> legacy w socket.

Definition compatsocket_getSocketName w socket : option (option (Z * Z)) := so_getSocketName ops <$> legacy w socket.

Definition compatsocket_peekNextOutPacket w socket : option Z := so_peekNextOutPacket ops <$> legacy w socket.

Definition compatsocket_pushInPacket w socket (packet : Z) : option (World S) :=
  s ← legacy w socket;
  '(st, s) ← so_pushInPacket ops (store w) s packet;
  Some (set_socket (w <| store := st |>) socket s).

Definition compatsocket_pullOutPacket w socket : option (World S * Z) :=
  s ← legacy w socket;
  '(s, packet) ← so_pullOutPacket ops (store w) s;
  Some (set_socket w socket s, packet).

(** ** Queues of sockets (network_queuing_disciplines.c) *)

Definition RrSocketQueue : Type := list Z.

Definition rrsocketqueue_isEmpty (self : RrSocketQueue) : bool := bool_decide (self = []).

(** The second result is [None] for [false], or a socket. *)
Definition rrsocketqueue_pop (self : RrSocketQueue) : option (RrSocketQueue * option CompatSocket) :=
  match self with
  | [] => Some ([], None)
  | taggedSocket :: queue =>
      if taggedSocket =? 0 then Some (queue, None)
      else socket ← compatsocket_fromTagged taggedSocket; Some (queue, Some socket)
  end.

Definition rrsocketqueue_push (self : RrSocketQueue) socket : option RrSocketQueue :=
  if decide (type socket = CST_NONE) then None
  else taggedSocket ← compatsocket_toTagged socket; Some (self ++ [taggedSocket]).

Definition rrsocketqueue_find (self : RrSocketQueue) socket : option bool :=
  taggedSocket ← compatsocket_toTagged socket; Some (bool_decide (taggedSocket ∈ self)).

Definition packet_priority (st : Store) (packet : Z) : F64.double :=
  default (F64.of_Z 0) (packet_getPriority <$> packets st !! packet).

(** The assertions before the tests for [NULL] hold while every socket in the
    heap has a packet to send. *)
Definition _compareSocket w (pa pb : Z) : Z :=
  if pa =? 0 then -1
  else if pb =? 0 then 1
  else if F64.gtb (packet_priority (store w) pa) (packet_priority (store w) pb) then 1 else -1.

(** The next packet of a tagged socket, 0 when there is none. *)
Definition next_packet w (tagged : Z) : Z :=
  default 0 (socket ← compatsocket_fromTagged tagged; compatsocket_peekNextOutPacket w socket).

Definition _compareSocketTagged w (sa_tagged sb_tagged : Z) : Z :=
  _compareSocket w (next_packet w sa_tagged) (next_packet w sb_tagged).

Definition FifoSocketQueue : Type := PQ.PriorityQueue.

(** The choice of addresses by [realloc], see PriorityQueue.v. *)
Context (g_renew : Z → nat → Z).

Definition fifosocketqueue_isEmpty (self : FifoSocketQueue) : bool := PQ.priorityqueue_isEmpty self.

Definition fifosocketqueue_pop w (self : FifoSocketQueue) : option (FifoSocketQueue * option CompatSocket) :=
  let '(queue, taggedSocket) := PQ.priorityqueue_pop (_compareSocketTagged w) g_renew self in
  if taggedSocket =? 0 then Some (queue, None)
  else socket ← compatsocket_fromTagged taggedSocket; Some (queue, Some socket).

Definition fifosocketqueue_push w (self : FifoSocketQueue) socket : option FifoSocketQueue :=
  if decide (type socket = CST_NONE) then None
  else
    taggedSocket ← compatsocket_toTagged socket;
    '(queue, _) ← PQ.priorityqueue_push (_compareSocketTagged w) g_renew self taggedSocket;
    Some queue.

Definition fifosocketqueue_find (self : FifoSocketQueue) socket : option bool :=
  taggedSocket ← compatsocket_toTagged socket;
  found ← PQ.priorityqueue_find self taggedSocket; Some (negb (found =? 0)).

End Operations.

(** ** Tagging *)

(** Sockets lie at multiples of eight. *)
Definition aligned (a : Z) : Prop := 0 < a < 2 ^ 64 ∧ Z.land a TAG_MASK = 0.

Definition tagged (a : Z) : Z := Z.lor a 1.

Lemma toTagged_aligned a : aligned a → compatsocket_toTagged (compatsocket_fromLegacySocket a) = Some (tagged a).
Proof. intros [_ Ha]. unfold compatsocket_toTagged, tagPtr. cbn [type compatsocket_fromLegacySocket object]. by rewrite Ha. Qed.

Lemma fromTagged_aligned a : aligned a → compatsocket_fromTagged (tagged a) = Some (compatsocket_fromLegacySocket a).
Proof.
  intros Ha. unfold compatsocket_fromTagged, untagPtr. destruct Ha as [Hr Ha]. unfold tagged.
  rewrite Z.land_lor_distr_l, Ha. cbn [Z.lor]. cbn -[Z.ldiff Z.lor]. unfold compatsocket_fromLegacySocket. do 2 f_equal.
  apply Z.bits_inj'. intros n Hn. rewrite Z.ldiff_spec, Z.lor_spec.
  apply (f_equal (λ z, Z.testbit z n)) in Ha. rewrite Z.land_spec, Z.bits_0 in Ha.
  assert (Z.testbit 1 n = true → Z.testbit TAG_MASK n = true) as H1 by (destruct n as [|p|p]; try done; by destruct p).
  destruct (Z.testbit a n), (Z.testbit 1 n), (Z.testbit TAG_MASK n); cbn in *; try done; by specialize (H1 eq_refl).
Qed.

Lemma tagged_inj a b : aligned a → aligned b → tagged a = tagged b → a = b.
Proof. intros Ha Hb E. pose proof (fromTagged_aligned a Ha) as H. rewrite E, fromTagged_aligned in H by done. by injection H. Qed.

Lemma tagged_nonzero a : tagged a ≠ 0.
Proof. unfold tagged. intros [_ H]%Z.lor_eq_0_iff. done. Qed.

(** ** What the interface relies on *)

(** [contents]: the packets a socket holds references of, [out]: those that
    wait to be sent, in order; [refs]: its reference count. *)
Class SocketLaws (traceOn : bool) {S : Type} (ops : SocketOps S) (contents out : S → list Z) (refs : S → Z)
    (ok : Store → S → Prop) : Prop := {
  sl_peek s : so_peekNextOutPacket ops s = hd 0 (out s);
  sl_out s p : p ∈ out s → p ∈ contents s;
  sl_stable st st' s l : ok st s → held traceOn st (contents s ++ l) → same_sizes st st' (contents s) → ok st' s;
  sl_pull st s l : held traceOn st (contents s ++ l) → ok st s →
    match out s with
    | [] => so_pullOutPacket ops st s = Some (s, 0)
    | p :: rest => ∃ s', so_pullOutPacket ops st s = Some (s', p) ∧ out s' = rest ∧ contents s ≡ₚ p :: contents s' ∧
        ok st s' ∧ refs s' = refs s ∧ so_getProtocol ops s' = so_getProtocol ops s ∧
        so_getPeerName ops s' = so_getPeerName ops s ∧ so_getSocketName ops s' = so_getSocketName ops s
    end;
  sl_push st s l p pk : held traceOn st (contents s ++ l) → ok st s → p ∈ l →
    packets st !! p = Some pk → referenceCount pk < UINT32_MAX →
    ∃ st' s', so_pushInPacket ops st s p = Some (st', s') ∧ held traceOn st' (contents s' ++ l) ∧ ok st' s' ∧
      same_views st st' ∧ out s' = out s ∧ (List.length (contents s') ≤ List.length (contents s) + 1)%nat ∧
      refs s' = refs s ∧ so_getProtocol ops s' = so_getProtocol ops s ∧
      so_getPeerName ops s' = so_getPeerName ops s ∧ so_getSocketName ops s' = so_getSocketName ops s;
  sl_ref st s : let s' := so_ref ops s in
    contents s' = contents s ∧ out s' = out s ∧ refs s' = refs s + 1 ∧ (ok st s → ok st s') ∧
    so_getProtocol ops s' = so_getProtocol ops s ∧ so_getPeerName ops s' = so_getPeerName ops s ∧
    so_getSocketName ops s' = so_getSocketName ops s;
  sl_unref st s : 1 < refs s →
    ∃ s', so_unref ops st s = Some (st, Some s') ∧ contents s' = contents s ∧ out s' = out s ∧ refs s' = refs s - 1 ∧
      (ok st s → ok st s') ∧ so_getProtocol ops s' = so_getProtocol ops s ∧
      so_getPeerName ops s' = so_getPeerName ops s ∧ so_getSocketName ops s' = so_getSocketName ops s;
  sl_free st s l : refs s = 1 → held traceOn st (contents s ++ l) →
    ∃ st', so_unref ops st s = Some (st', None) ∧ held traceOn st' l ∧ same_sizes st st' l;
}.

(** ** UDP sockets *)

Section UDP.
Context (address_ipToNewString : Z → string) (traceOn : bool).
Import Socket Udp.

(** [descriptor_unref] with the UDP function table. *)
Definition udp_unref (st : Store) (u : UDP) : option (Store * option UDP) :=
  '(d, gone) ← Desc.descriptor_unref (Socket.super (super u));
  if gone : bool then st ← _socket_free address_ipToNewString traceOn st (super u); Some (st, None)
  else Some (st, Some (u <| super := (super u) <| Socket.super := d |> |>)).

Definition udp_ops : SocketOps UDP := {|
  so_getProtocol u := socket_getProtocol (super u);
  so_getPeerName u := socket_getPeerName (super u);
  so_getSocketName u := socket_getSocketName (super u);
  so_peekNextOutPacket u := socket_peekNextOutPacket (super u);
  so_pushInPacket := udp_pushInPacket address_ipToNewString traceOn;
  so_pullOutPacket st u := '(s, packet) ← socket_pullOutPacket 0 st (super u); Some (u <| super := s |>, packet);
  so_ref u := u <| super := (super u) <| Socket.super := Desc.descriptor_ref (Socket.super (super u)) |> |>;
  so_unref := udp_unref;
|}.

Lemma content_views st st' : same_content st st' → same_views st st'.
Proof.
  intros [Hp Hc] a [pk E]. destruct (Hc a pk E) as (pk' & E' & E1 & E2 & E3). split; [by eexists|].
  unfold packet_view, packet_getPayloadLength, payload_getLength. rewrite E, E'. cbn. by rewrite Hp, E1, E2, E3.
Qed.

Lemma same_len st st' a : packet_view st' a = packet_view st a → packet_length st' a = packet_length st a.
Proof.
  unfold packet_view, packet_length. destruct (packets st !! a) as [p|], (packets st' !! a) as [p'|]; cbn; try done.
  - by destruct (packet_getPayloadLength st p), (packet_getPayloadLength st' p'); cbn; try done; intros [= ->].
  - by destruct (packet_getPayloadLength st p).
  - by destruct (packet_getPayloadLength st' p').
Qed.

(** The parts of a socket that its queues do not touch. *)
Definition same_socket (s s' : Socket.Socket) : Prop :=
  Desc.referenceCount (Socket.super s') = Desc.referenceCount (Socket.super s) ∧
  Socket.protocol s' = Socket.protocol s ∧ Socket.flags s' = Socket.flags s ∧
  Socket.peerIP s' = Socket.peerIP s ∧ Socket.peerPort s' = Socket.peerPort s ∧
  Socket.boundAddress s' = Socket.boundAddress s ∧ Socket.boundPort s' = Socket.boundPort s.

Lemma same_socket_names s s' : same_socket s s' →
  Desc.referenceCount (Socket.super s') = Desc.referenceCount (Socket.super s) ∧
  socket_getProtocol s' = socket_getProtocol s ∧ socket_getPeerName s' = socket_getPeerName s ∧
  socket_getSocketName s' = socket_getSocketName s.
Proof.
  intros (E1 & E2 & E3 & E4 & E5 & E6 & E7).
  unfold socket_getProtocol, socket_getPeerName, socket_getSocketName, socket_isBound. by rewrite E1, E2, E3, E4, E5, E6, E7.
Qed.

Lemma remove_output_same st s s' p : socket_removeFromOutputBuffer 0 st s = Some (s', p) → same_socket s s'.
Proof.
  unfold socket_removeFromOutputBuffer, pop_output, shrink_output, socket_setOutputBufferSize. intros E.
  repeat (case_match || simplify_option_eq); by split_and!.
Qed.

Lemma push_same st u p st' u' :
  udp_pushInPacket address_ipToNewString traceOn st u p = Some (st', u') →
  same_socket (super u) (super u') ∧ same_content st st'.
Proof.
  unfold udp_pushInPacket, _udp_processPacket. intros E.
  destruct (packet_addDeliveryStatus _ _ st p _) as [st1|] eqn:E1; [|done]. cbn [mbind option_bind] in E.
  apply status_content in E1 as [E1 _].
  destruct (socket_addToInputBuffer _ _ st1 (super u) p) as [[[st2 s2] b]|] eqn:E2; [|done]. cbn [mbind option_bind] in E.
  pose proof (add_input_content _ _ _ _ _ _ _ _ E2) as Hc.
  assert (Hs : same_socket (super u) s2).
  { unfold socket_addToInputBuffer in E2. repeat (case_match || simplify_option_eq); by split_and!. }
  destruct b; simplify_option_eq; (split; [done|]); [by etrans|].
  etrans; [done|]. etrans; [done|]. by eapply status_content.
Qed.

Lemma sock_ok_super st s d :
  Desc.status d = Desc.status (Socket.super s) → sock_ok st s → sock_ok st (s <| Socket.super := d |>).
Proof. intros E [Hi Ho Hr]. constructor; [done|done|]. cbn. by rewrite E. Qed.

(** A datagram that arrives is buffered or dropped. *)
Lemma udp_push_total st u l p pk :
  held traceOn st (l ++ contents (super u)) → sock_ok st (super u) → p ∈ l →
  packets st !! p = Some pk → referenceCount pk < UINT32_MAX →
  ∃ st' u', udp_pushInPacket address_ipToNewString traceOn st u p = Some (st', u') ∧
    held traceOn st' (l ++ contents (super u')) ∧ sock_ok st' (super u') ∧ out_queue (super u') = out_queue (super u) ∧
    (List.length (contents (super u')) ≤ List.length (contents (super u)) + 1)%nat.
Proof.
  intros Hh Hok Hp Epk Hrc. unfold udp_pushInPacket, _udp_processPacket.
  assert (Hin : p ∈ l ++ contents (super u)) by (apply elem_of_app; by left).
  destruct (held_addStatus address_ipToNewString traceOn st _ p PDS_RCV_SOCKET_PROCESSED Hh Hin)
    as (st1 & pk1 & q & -> & Hh1 & Hl1 & Epk1 & Est1). cbn [mbind option_bind].
  assert (Hok1 : sock_ok st1 (super u)).
  { apply (sock_ok_world st); [|done]. intros b _. unfold len. by rewrite Hl1. }
  assert (∃ pk2, packets st1 !! p = Some pk2 ∧ referenceCount pk2 < UINT32_MAX) as (pk2 & Epk2 & Hrc2).
  { simplify_eq. eexists. split; [apply lookup_insert_eq|done]. }
  destruct (add_input_ok address_ipToNewString traceOn st1 (super u) l p pk2 Hh1 Hok1 Hp Epk2 Hrc2)
    as (st2 & s2 & b & -> & Hok2 & Hh2 & _ & _ & Ei & Ec & Eo & _). cbn [mbind option_bind].
  assert (Hout : out_queue s2 = out_queue (super u)) by (unfold out_queue; by rewrite Ec, Eo).
  assert (Hlen : (List.length (contents s2) ≤ List.length (contents (super u)) + 1)%nat).
  { unfold contents. rewrite Ei, Ec, Eo, !length_app. destruct b; cbn; lia. }
  destruct b; [by eexists _, _|].
  destruct (held_addStatus address_ipToNewString traceOn st2 _ p PDS_RCV_SOCKET_DROPPED Hh2) as
    (st3 & _ & _ & -> & Hh3 & Hl3 & _); [apply elem_of_app; by left|]. cbn [mbind option_bind].
  eexists _, _. split; [done|]. split; [done|]. split; [|done].
  apply (sock_ok_world st2); [|done]. intros b _. unfold len. by rewrite Hl3.
Qed.

#[export] Instance udp_laws :
  SocketLaws traceOn udp_ops (λ u, contents (super u)) (λ u, out_queue (super u))
    (λ u, Desc.referenceCount (Socket.super (super u))) (λ st u, sock_ok st (super u)).
Proof.
  constructor.
  - intros u. cbn. rewrite peek_out_head. by destruct (out_queue (super u)).
  - intros u p. unfold contents, out_queue. rewrite !elem_of_app. tauto.
  - intros st st' u l Hok _ Hs. eapply sock_ok_world; [|exact Hok]. intros p Hp. unfold len. rewrite (same_len st st'); [done|].
    unfold same_sizes in Hs. rewrite Forall_forall in Hs. by apply Hs.
  - intros st u l Hh Hok. cbn. unfold socket_pullOutPacket.
    pose proof (remove_output_ok traceOn 0 st (super u) l) as Hr.
    eapply held_Permutation in Hh; [|apply Permutation_app_comm].
    specialize (Hr Hh Hok). destruct (out_queue (super u)) as [|p rest] eqn:Eo.
    + rewrite Hr. cbn. by destruct u.
    + destruct Hr as (s' & E & Hok' & Hh' & Eo' & _ & Ei & _). rewrite E. cbn. eexists. split; [done|]. cbn.
      pose proof (same_socket_names _ _ (remove_output_same _ _ _ _ E)) as (? & ? & ? & ?).
      split_and!; try done. unfold contents. rewrite Ei.
      change (outputControlBuffer s' ++ outputBuffer s') with (out_queue s'). rewrite Eo'.
      change (outputControlBuffer (super u) ++ outputBuffer (super u)) with (out_queue (super u)). rewrite Eo.
      by rewrite <-Permutation_middle.
  - intros st u l p pk Hh Hok Hp Epk Hrc. cbn.
    eapply held_Permutation in Hh; [|apply Permutation_app_comm].
    destruct (udp_push_total st u l p pk Hh Hok Hp Epk Hrc) as (st' & u' & E & Hh' & Hok' & Eo & El).
    pose proof (push_same _ _ _ _ _ E) as [(? & ? & ? & ?)%same_socket_names Hc].
    exists st', u'. split_and!; try done; [|by apply content_views].
    eapply held_Permutation; [|exact Hh']. apply Permutation_app_comm.
  - intros st u. split; [done|]. split; [done|]. split; [done|]. split; [by apply sock_ok_super|done].
  - intros st u Hr. cbn. unfold udp_unref, Desc.descriptor_unref. cbn.
    rewrite (proj2 (Z.leb_le _ _)) by lia. cbn [mbind option_bind].
    rewrite (proj2 (Z.eqb_neq _ _)) by lia. eexists. split; [done|].
    split; [done|]. split; [done|]. split; [done|]. split; [by apply sock_ok_super|done].
  - intros st u l Hr Hh. cbn. unfold udp_unref, Desc.descriptor_unref. rewrite Hr. cbn.
    destruct (socket_free_ok address_ipToNewString traceOn st (super u) l) as (st' & -> & Hh' & Hs).
    { eapply held_Permutation; [|exact Hh]. apply Permutation_app_comm. }
    cbn. by exists st'.
Qed.

End UDP.

(** ** Queuing disciplines *)

(** The interface of the two queues; [W] is what a comparison looks at. *)
Record Discipline (W Q : Type) := mkDiscipline {
  d_isEmpty : Q → bool;
  d_pop : W → Q → option (Q * option CompatSocket);
  d_push : W → Q → CompatSocket → option Q;
  d_find : Q → CompatSocket → option bool;
}.
Arguments mkDiscipline {W Q}. Arguments d_isEmpty {W Q}. Arguments d_pop {W Q}. Arguments d_push {W Q}.
Arguments d_find {W Q}.

Definition rr {W} : Discipline W RrSocketQueue := {|
  d_isEmpty := rrsocketqueue_isEmpty;
  d_pop _ := rrsocketqueue_pop;
  d_push _ := rrsocketqueue_push;
  d_find := rrsocketqueue_find;
|}.

Definition fifo {S} (ops : SocketOps S) (g_renew : Z → nat → Z) : Discipline (World S) FifoSocketQueue := {|
  d_isEmpty := fifosocketqueue_isEmpty;
  d_pop := fifosocketqueue_pop ops g_renew;
  d_push := fifosocketqueue_push ops g_renew;
  d_find := fifosocketqueue_find;
|}.

(** [queued]: the addresses of the sockets in the queue. *)
Class DisciplineLaws {W Q : Type} (d : Discipline W Q) (queued : Q → list Z) (wf : Q → Prop) : Prop := {
  dl_empty q : wf q → d_isEmpty d q = bool_decide (queued q = []);
  dl_aligned q a : wf q → a ∈ queued q → aligned a;
  dl_pop w q : wf q → queued q ≠ [] →
    ∃ q' a, d_pop d w q = Some (q', Some (compatsocket_fromLegacySocket a)) ∧ wf q' ∧ queued q ≡ₚ a :: queued q';
  dl_push w q a : wf q → aligned a → a ∉ queued q →
    ∃ q', d_push d w q (compatsocket_fromLegacySocket a) = Some q' ∧ wf q' ∧ queued q' ≡ₚ a :: queued q;
  dl_find q a : wf q → aligned a → d_find d q (compatsocket_fromLegacySocket a) = Some (bool_decide (a ∈ queued q));
}.

Definition untagged (l : list Z) : list Z := (λ t, (untagPtr t).1) <$> l.

Definition all_tagged (l : list Z) : Prop := ∀ t, t ∈ l → ∃ a, aligned a ∧ t = tagged a.

Lemma untag_tagged a : aligned a → (untagPtr (tagged a)).1 = a.
Proof.
  intros Ha. pose proof (fromTagged_aligned a Ha) as H. unfold compatsocket_fromTagged in H.
  destruct (untagPtr (tagged a)) as [p t]. case_match; [|done]. by injection H.
Qed.

Lemma elem_of_untagged l a : all_tagged l → aligned a → a ∈ untagged l ↔ tagged a ∈ l.
Proof.
  intros Hl Ha. unfold untagged. rewrite list_elem_of_fmap. split.
  - intros (t & -> & Ht). destruct (Hl t Ht) as (b & Hb & ->). by rewrite untag_tagged in * by done.
  - intros Ht. exists (tagged a). by rewrite untag_tagged.
Qed.

Lemma untagged_aligned l a : all_tagged l → a ∈ untagged l → aligned a.
Proof. intros Hl (t & -> & Ht)%list_elem_of_fmap. destruct (Hl t Ht) as (b & Hb & ->). by rewrite untag_tagged. Qed.

Lemma untagged_cons a l : aligned a → untagged (tagged a :: l) = a :: untagged l.
Proof. intros Ha. unfold untagged. rewrite fmap_cons. by rewrite untag_tagged. Qed.

#[export] Instance untagged_perm : Proper ((≡ₚ) ==> (≡ₚ)) untagged.
Proof. intros l k Hp. unfold untagged. by rewrite Hp. Qed.

#[export] Instance rr_laws {W} : DisciplineLaws (@rr W) untagged all_tagged.
Proof.
  constructor; cbn [rr d_isEmpty d_pop d_push d_find].
  - intros q _. unfold rrsocketqueue_isEmpty. by destruct q.
  - intros q a. apply untagged_aligned.
  - intros w [|t q] Hq Hne; [done|]. destruct (Hq t) as (a & Ha & ->); [left|]. exists q, a.
    cbn [rrsocketqueue_pop]. rewrite (proj2 (Z.eqb_neq _ 0)) by apply tagged_nonzero. rewrite fromTagged_aligned by done.
    split; [done|]. split; [intros t Ht; apply Hq; by right|by rewrite untagged_cons].
  - intros w q a Hq Ha Hn. unfold rrsocketqueue_push. rewrite decide_False by done.
    rewrite toTagged_aligned by done. cbn [mbind option_bind]. eexists. split; [done|]. split.
    + intros t [Ht| ->%list_elem_of_singleton]%elem_of_app; [by apply Hq|by exists a].
    + rewrite (Permutation_app_comm q [tagged a]). cbn [app]. by rewrite untagged_cons.
  - intros q a Hq Ha. unfold rrsocketqueue_find. rewrite toTagged_aligned by done. cbn [mbind option_bind]. f_equal.
    apply bool_decide_ext. symmetry. by apply elem_of_untagged.
Qed.

Definition fifo_wf (q : FifoSocketQueue) : Prop := PQ.wf q ∧ all_tagged (PQ.elements q).

#[export] Instance fifo_laws {S} (ops : SocketOps S) g_renew :
  DisciplineLaws (fifo ops g_renew) (λ q, untagged (PQ.elements q)) fifo_wf.
Proof.
  constructor; cbn [fifo d_isEmpty d_pop d_push d_find].
  - intros q [Hw _]. unfold fifosocketqueue_isEmpty, PQ.priorityqueue_isEmpty.
    rewrite (PQ.elements_length q Hw). unfold untagged. by destruct (PQ.elements q).
  - intros q a [_ Hq]. by apply untagged_aligned.
  - intros w q [Hw Hq] Hne. unfold fifosocketqueue_pop.
    assert (Hs : (0 < PQ.size q)%nat).
    { rewrite (PQ.elements_length q Hw). destruct (PQ.elements q); [done|cbn; lia]. }
    pose proof (PQ.pop_spec (_compareSocketTagged ops w) g_renew q Hw Hs) as Hp.
    destruct (PQ.priorityqueue_pop _ _ q) as [q' t]. destruct Hp as (Hw' & _ & Hp).
    destruct (Hq t) as (a & Ha & ->); [rewrite Hp; left|]. exists q', a.
    rewrite (proj2 (Z.eqb_neq _ 0)) by apply tagged_nonzero. rewrite fromTagged_aligned by done. split; [done|]. split.
    + split; [done|]. intros t Ht. apply Hq. rewrite Hp. by right.
    + by rewrite Hp, untagged_cons.
  - intros w q a [Hw Hq] Ha Hn. unfold fifosocketqueue_push. rewrite decide_False by done.
    rewrite toTagged_aligned by done. cbn [mbind option_bind].
    destruct (PQ.push_spec (_compareSocketTagged ops w) g_renew q (tagged a) Hw) as (q' & -> & Hw' & Hp).
    rewrite elem_of_untagged in Hn by done. rewrite decide_False in Hp by done. cbn [mbind option_bind].
    eexists. split; [done|]. split; [split; [done|]|].
    + intros t. rewrite Hp. intros [->|Ht]%elem_of_cons; [by exists a|by apply Hq].
    + by rewrite Hp, untagged_cons.
  - intros q a [Hw Hq] Ha. unfold fifosocketqueue_find. rewrite toTagged_aligned by done. cbn [mbind option_bind].
    rewrite PQ.find_elements by done. cbn [mbind option_bind]. f_equal. rewrite (bool_decide_ext _ _ (elem_of_untagged _ a Hq Ha)).
    case_bool_decide; case_decide; try done. by rewrite (proj2 (Z.eqb_neq _ 0)) by apply tagged_nonzero.
Qed.

(** *** Properties *)

(** C39: a tagged pointer keeps the type and the address of its socket: tagging
    succeeds exactly for sockets that lie at a multiple of eight, the tagged
    value is never NULL, different sockets have different values, and what is
    read back is the socket; no other value is taken for a socket. *)
Theorem tagged_socket_types socket taggedPtr :
  0 <= object socket →
  (is_Some (compatsocket_toTagged socket) ↔ type socket = CST_LEGACY_SOCKET ∧ object socket mod 8 = 0) ∧
  (compatsocket_toTagged socket = Some taggedPtr →
     taggedPtr ≠ 0 ∧ compatsocket_fromTagged taggedPtr = Some socket) ∧
  (∀ other, compatsocket_fromTagged taggedPtr = Some other →
     type other = CST_LEGACY_SOCKET ∧ taggedPtr mod 8 = 1 ∧ object other = taggedPtr - 1).
Proof.
  intros Hpos. destruct socket as [t a]. cbn [object type] in *.
  assert (Hland : ∀ z, Z.land z TAG_MASK = z mod 8) by (intros z; exact (Z.land_ones z 3 ltac:(lia))).
  assert (Hdiff : ∀ z, Z.ldiff z TAG_MASK = z - z mod 8).
  { intros z. change TAG_MASK with (Z.ones 3). rewrite Z.ldiff_ones_r, Z.shiftl_mul_pow2, Z.shiftr_div_pow2 by lia.
    pose proof (Z.div_mod z 8). change (2 ^ 3) with 8. lia. }
  assert (Hlor : a mod 8 = 0 → Z.lor a 1 = a + 1).
  { intros H0. assert (Z.land a 1 = 0) as Hn.
    { change 1 with (Z.ones 1). rewrite Z.land_ones by lia. change (2 ^ 1) with 2.
      rewrite (Z.div_mod a 8), H0, Z.add_0_r by lia. rewrite Z.mul_comm. change 8 with (4 * 2). rewrite Z.mul_assoc.
      by apply Z.mod_mul. }
    by rewrite <-Z.lxor_lor, <-Z.add_nocarry_lxor by exact Hn. }
  assert (Htag : compatsocket_toTagged (mkCompat CST_LEGACY_SOCKET a) = if a mod 8 =? 0 then Some (Z.lor a 1) else None).
  { unfold compatsocket_toTagged, tagPtr. cbn [type object]. rewrite Hland. by destruct (a mod 8 =? 0). }
  split; [|split].
  - destruct t; [split; [by intros [? ?]|by intros [? _]]|]. rewrite Htag.
    destruct (Z.eqb_spec (a mod 8) 0); split; [done|by eexists|by intros [? ?]|by intros [_ ?]].
  - destruct t; [done|]. rewrite Htag. destruct (Z.eqb_spec (a mod 8) 0) as [H0|]; [|done]. intros [= <-].
    rewrite Hlor by done. split; [lia|]. unfold compatsocket_fromTagged, untagPtr. rewrite Hland, Hdiff.
    assert ((a + 1) mod 8 = 1) as -> by (rewrite Z.add_mod, H0 by lia; done). cbn. do 2 f_equal. lia.
  - intros other. unfold compatsocket_fromTagged, untagPtr. rewrite Hland, Hdiff. cbn [type_tag].
    destruct (Z.eqb_spec (taggedPtr mod 8) 1) as [E|]; [|done]. intros [= <-]. rewrite E. done.
Qed.

Lemma tagged_socket_types_witness :
  compatsocket_toTagged (mkCompat CST_LEGACY_SOCKET 48) = Some 49 ∧
  compatsocket_fromTagged 49 = Some (mkCompat CST_LEGACY_SOCKET 48).
Proof.
  destruct (tagged_socket_types (mkCompat CST_LEGACY_SOCKET 48) 49) as (_ & H & _); [cbn; lia|].
  split; [reflexivity|]. by apply H.
Defined.

End CompatSocket.
