(* ===== verification/SocketWorld.v ===== *)
(** * The sockets of a host and their references

    Who holds references to the packets and sockets of a host, and that every
    operation of compat_socket.c keeps the accounts: for any implementation of
    sockets that meets [SocketLaws]. *)

From S2P Require Import Prelude Float64 Cpu PriorityQueue Event Packet CompatSocket.

Module SocketWorld.
Import Pkt CompatSocket.

Section World.
Context (traceOn : bool) {S : Type} (ops : SocketOps S) (contents out : S → list Z) (refs : S → Z)
  (ok : Store → S → Prop) `{!SocketLaws traceOn ops contents out refs ok}.
(** A property of the headers of the packets that a socket sends. *)
Context (good : Z → Packet → Prop)
  (good_headers : ∀ a p p', protocol p' = protocol p → header p' = header p → good a p → good a p').
Implicit Types (w : World S) (m : gmap Z S).

Abbreviation held := (Pkt.held traceOn).

(** The packets sockets hold, and those they want to send. *)
Definition socket_packets m : list Z := map_to_list m ≫= λ kv, contents kv.2.
Definition socket_output m : list Z := map_to_list m ≫= λ kv, out kv.2.

Definition live_good (P : Packet → Prop) (st : Store) (a : Z) : Prop := ∃ p, packets st !! a = Some p ∧ P p.

(** [R] lists the known references to sockets, [k] counts the others; [l] lists
    the references to packets that sockets do not hold. *)
Record world_ok (k : Z → Z) (w : World S) (R l : list Z) : Prop := {
  wo_held : held (store w) (socket_packets (sockets w) ++ l);
  wo_socket : ∀ a s, sockets w !! a = Some s →
    aligned a ∧ ok (store w) s ∧ Forall (live_good (good a) (store w)) (out s) ∧ refs s = count R a + k a ∧ 0 < refs s;
  wo_live : ∀ a, 0 < count R a + k a → is_Some (sockets w !! a);
  wo_others : ∀ a, 0 ≤ k a;
}.

Lemma count_nonneg l a : 0 ≤ count l a.
Proof. unfold count. lia. Qed.

(** ** The packets of a map of sockets *)

Lemma packets_delete {f : S → list Z} m a s : m !! a = Some s →
  (map_to_list m ≫= λ kv, f kv.2) ≡ₚ f s ++ (map_to_list (delete a m) ≫= λ kv, f kv.2).
Proof. intros E. by rewrite <-(map_to_list_delete m a s E). Qed.

Lemma packets_insert {f : S → list Z} m a s : 
  (map_to_list (<[a:=s]> m) ≫= λ kv, f kv.2) ≡ₚ f s ++ (map_to_list (delete a m) ≫= λ kv, f kv.2).
Proof. rewrite <-insert_delete_eq. by rewrite map_to_list_insert by apply lookup_delete_eq. Qed.

Lemma in_packets m a b s p : m !! b = Some s → b ≠ a → p ∈ contents s → p ∈ socket_packets (delete a m).
Proof.
  intros E Hne Hp. unfold socket_packets. apply list_elem_of_bind. exists (b, s). split; [done|].
  apply elem_of_map_to_list. by rewrite lookup_delete_ne.
Qed.

Lemma in_all_packets m a s p : m !! a = Some s → p ∈ contents s → p ∈ socket_packets m.
Proof. intros E Hp. unfold socket_packets. rewrite (packets_delete m a s E). apply elem_of_app. by left. Qed.

(** ** What changes keep the accounts *)

Lemma live_good_view (P : Packet → Prop) st st' a :
  (∀ p p', protocol p' = protocol p → header p' = header p → P p → P p') →
  wf st → packet_view st' a = packet_view st a → live_good P st a → live_good P st' a.
Proof.
  intros HP Hwf Hv (p & Hp & Hg). destruct (view_packet st st' a p Hwf Hv Hp) as (p' & Hp' & ? & ?).
  exists p'. split; [done|]. by eapply HP.
Qed.

(** A socket that an operation is not about. *)
Lemma other_socket a st st' s l :
  held st (contents s ++ l) → same_sizes st st' (contents s) → ok st s → Forall (live_good (good a) st) (out s) →
  ok st' s ∧ Forall (live_good (good a) st') (out s).
Proof.
  intros Hh Hs Hok Hg. split; [by eapply sl_stable|]. rewrite Forall_forall in *. intros p Hp.
  eapply live_good_view; [exact (good_headers a)|by eapply held_wf| |by apply Hg]. unfold same_sizes in Hs. rewrite Forall_forall in Hs.
  by apply Hs, (sl_out (ok := ok)).
Qed.

Lemma world_perm k w R R' l l' : R ≡ₚ R' → l ≡ₚ l' → world_ok k w R l → world_ok k w R' l'.
Proof.
  intros HR Hl [H1 H2 H3 H4]. split; [|intros a s E|intros a|done].
  - eapply held_Permutation; [|exact H1]. by rewrite Hl.
  - rewrite <-(count_Permutation R R' a HR). by apply H2.
  - rewrite <-(count_Permutation R R' a HR). by apply H3.
Qed.

(** A change of the store outside of the sockets. *)
Lemma world_store k w R l st' l' :
  world_ok k w R l → held st' (socket_packets (sockets w) ++ l') →
  same_sizes (store w) st' (socket_packets (sockets w)) → world_ok k (w <| store := st' |>) R l'.
Proof.
  intros [H1 H2 H3 H4] Hh Hs. split; [done| |done|done]. intros a s E. cbn in E. destruct (H2 a s E) as (? & Hok & Hg & ? & ?).
  destruct (other_socket a (store w) st' s (socket_packets (delete a (sockets w)) ++ l)) as [? ?]; try done.
  - eapply held_Permutation; [|exact H1]. unfold socket_packets at 1. rewrite (packets_delete _ a s E). by rewrite app_assoc.
  - eapply same_sizes_sub; [done|]. intros p Hp. by eapply in_all_packets.
Qed.

(** A change of one socket. *)
Lemma world_set k w R R' l l' a s s' st' :
  world_ok k w R l → sockets w !! a = Some s →
  held st' (contents s' ++ socket_packets (delete a (sockets w)) ++ l') →
  same_sizes (store w) st' (socket_packets (delete a (sockets w))) →
  ok st' s' → Forall (live_good (good a) st') (out s') → refs s' = count R' a + k a → 0 < refs s' →
  (∀ b, b ≠ a → count R' b = count R b) →
  world_ok k (mkWorld st' (<[a:=s']> (sockets w))) R' l'.
Proof.
  intros [H1 H2 H3 H4] E Hh Hs Hok Hg Hr Hpos HR. split; [| | |done]; cbn.
  - eapply held_Permutation; [|exact Hh]. unfold socket_packets at 2. rewrite packets_insert. by rewrite app_assoc.
  - intros b t. destruct (decide (b = a)) as [->|Hne].
    + rewrite lookup_insert_eq. intros [= <-]. destruct (H2 a s E) as (? & _). by split_and!.
    + rewrite lookup_insert_ne by done. intros Eb. rewrite HR by done. destruct (H2 b t Eb) as (? & Hok' & Hg' & ? & ?).
      destruct (other_socket b (store w) st' t (socket_packets (delete b (sockets w)) ++ l)) as [? ?]; try done.
      * eapply held_Permutation; [|exact H1]. unfold socket_packets at 1. rewrite (packets_delete _ b t Eb). by rewrite app_assoc.
      * eapply same_sizes_sub; [done|]. intros p Hp. by eapply in_packets.
  - intros b Hb. destruct (decide (b = a)) as [->|Hne]; [by rewrite lookup_insert_eq|].
    rewrite lookup_insert_ne by done. apply H3. by rewrite <-HR.
Qed.

(** A socket that is gone. *)
Lemma world_delete k w R l a s st' :
  world_ok k w (a :: R) l → sockets w !! a = Some s → refs s = 1 →
  held st' (socket_packets (delete a (sockets w)) ++ l) →
  same_sizes (store w) st' (socket_packets (delete a (sockets w))) →
  world_ok k (mkWorld st' (delete a (sockets w))) R l.
Proof.
  intros [H1 H2 H3 H4] E Er Hh Hs. pose proof (H2 a s E) as (_ & _ & _ & Hr & _).
  rewrite count_cons, decide_True in Hr by done. pose proof (count_nonneg R a). pose proof (H4 a).
  split; [done| | |done]; cbn.
  - intros b t. destruct (decide (b = a)) as [->|Hne]; [by rewrite lookup_delete_eq|]. rewrite lookup_delete_ne by done.
    intros Eb. destruct (H2 b t Eb) as (? & Hok' & Hg' & Hrb & ?). rewrite count_cons, decide_False in Hrb by done.
    destruct (other_socket b (store w) st' t (socket_packets (delete b (sockets w)) ++ l)) as [? ?]; try done.
    * eapply held_Permutation; [|exact H1]. unfold socket_packets at 1. rewrite (packets_delete _ b t Eb). by rewrite app_assoc.
    * eapply same_sizes_sub; [done|]. intros p Hp. by eapply in_packets.
  - intros b Hb. destruct (decide (b = a)) as [->|Hne]; [lia|]. rewrite lookup_delete_ne by done.
    apply H3. by rewrite count_cons, decide_False.
Qed.

(** ** Sizes *)

Lemma packets_size m a s s' : m !! a = Some s →
  (List.length (socket_packets (<[a:=s']> m)) + List.length (contents s) =
   List.length (contents s') + List.length (socket_packets m))%nat ∧
  (List.length (socket_packets (delete a m)) + List.length (contents s) = List.length (socket_packets m))%nat ∧
  (List.length (socket_output (<[a:=s']> m)) + List.length (out s) =
   List.length (out s') + List.length (socket_output m))%nat ∧
  (List.length (socket_output (delete a m)) + List.length (out s) = List.length (socket_output m))%nat.
Proof.
  intros E. unfold socket_packets, socket_output.
  pose proof (Permutation_length (packets_delete (f := contents) m a s E)).
  pose proof (Permutation_length (packets_insert (f := contents) m a s')).
  pose proof (Permutation_length (packets_delete (f := out) m a s E)).
  pose proof (Permutation_length (packets_insert (f := out) m a s')). rewrite !length_app in *. lia.
Qed.

(** Every socket of [w'] is one of [w] with the same packets to send. *)
Definition same_out w w' : Prop :=
  ∀ b t, sockets w' !! b = Some t → ∃ s, sockets w !! b = Some s ∧ out t = out s.

Lemma same_out_set w st a s s' : sockets w !! a = Some s → out s' = out s →
  same_out w (mkWorld st (<[a:=s']> (sockets w))).
Proof.
  intros E Eo b t. cbn. destruct (decide (b = a)) as [->|Hne].
  - rewrite lookup_insert_eq. intros [= <-]. by exists s.
  - rewrite lookup_insert_ne by done. by exists t.
Qed.

(** ** The operations *)

Abbreviation sock := compatsocket_fromLegacySocket.

Lemma peek_ok w a s : sockets w !! a = Some s →
  compatsocket_peekNextOutPacket ops w (sock a) = Some (hd 0 (out s)).
Proof. intros E. unfold compatsocket_peekNextOutPacket, legacy. cbn. rewrite E. cbn. by rewrite (sl_peek (ok := ok)). Qed.

(** The packets of a socket, apart from the others. *)
Lemma held_socket k w R l a s :
  world_ok k w R l → sockets w !! a = Some s →
  held (store w) (contents s ++ socket_packets (delete a (sockets w)) ++ l).
Proof.
  intros Hw E. eapply held_Permutation; [|apply Hw]. unfold socket_packets at 1. rewrite (packets_delete _ a s E).
  by rewrite app_assoc.
Qed.

Lemma pull_ok k w R l a s :
  world_ok k w R l → sockets w !! a = Some s → out s ≠ [] →
  ∃ s' p, compatsocket_pullOutPacket ops w (sock a) = Some (mkWorld (store w) (<[a:=s']> (sockets w)), p) ∧
    out s = p :: out s' ∧ (List.length (contents s) = List.length (contents s') + 1)%nat ∧ p ≠ 0 ∧
    live_good (good a) (store w) p ∧ world_ok k (mkWorld (store w) (<[a:=s']> (sockets w))) R (p :: l).
Proof.
  intros Hw E Hne. pose proof (held_socket k w R l a s Hw E) as Hh. destruct (wo_socket _ _ _ _ Hw a s E) as (Ha & Hok & Hg & Hr & Hpos).
  pose proof (sl_pull (store w) s _ Hh Hok) as Hp. destruct (out s) as [|p rest] eqn:Eo; [done|].
  destruct Hp as (s' & E1 & <- & Hc & Hok' & Hr' & _). exists s', p.
  unfold compatsocket_pullOutPacket, legacy, set_socket. cbn. rewrite E. cbn [mbind option_bind]. rewrite E1. cbn [mbind option_bind].
  split; [by destruct w|]. split; [done|]. split; [rewrite Hc; cbn; lia|].
  apply Forall_cons in Hg as [Hg1 Hg2].
  assert (Hin : p ∈ contents s) by (rewrite Hc; left).
  split. { destruct (held_in _ _ _ _ Hh (proj2 (elem_of_app _ _ _) (or_introl Hin))) as (pk & Epk & _).
           destruct (wf_packets _ (held_wf _ _ _ Hh) _ _ Epk). lia. }
  split; [done|]. eapply world_set; try done.
  - eapply held_Permutation; [|exact Hh]. rewrite Hc. cbn. rewrite !app_assoc. apply Permutation_middle.
  - by apply same_sizes_all.
  - by rewrite Hr'.
  - by rewrite Hr'.
Qed.

(** A socket without packets to send. *)
Lemma pull_empty_ok k w R l a s :
  world_ok k w R l → sockets w !! a = Some s → out s = [] → compatsocket_pullOutPacket ops w (sock a) = Some (w, 0).
Proof.
  intros Hw E Eo. destruct (wo_socket _ _ _ _ Hw a s E) as (_ & Hok & _).
  pose proof (sl_pull (store w) s _ (held_socket k w R l a s Hw E) Hok) as Hp. rewrite Eo in Hp.
  unfold compatsocket_pullOutPacket, legacy, set_socket. cbn. rewrite E. cbn [mbind option_bind]. rewrite Hp. cbn.
  rewrite insert_id by done. by destruct w.
Qed.

Lemma push_in_ok k w R l a s p :
  world_ok k w R l → sockets w !! a = Some s → p ∈ l →
  Z.of_nat (List.length (socket_packets (sockets w) ++ l)) < UINT32_MAX →
  ∃ w', compatsocket_pushInPacket ops w (sock a) p = Some w' ∧ world_ok k w' R l ∧ same_views (store w) (store w') ∧
    same_out w w' ∧ List.length (socket_output (sockets w')) = List.length (socket_output (sockets w)) ∧
    (List.length (socket_packets (sockets w')) ≤ List.length (socket_packets (sockets w)) + 1)%nat.
Proof.
  intros Hw E Hp Hlen. pose proof (held_socket k w R l a s Hw E) as Hh. destruct (wo_socket _ _ _ _ Hw a s E) as (Ha & Hok & Hg & Hr & Hpos).
  assert (Hin : p ∈ socket_packets (delete a (sockets w)) ++ l) by (apply elem_of_app; by right).
  destruct (held_in _ _ _ p Hh) as (pk & Epk & _); [apply elem_of_app; by right|].
  pose proof (held_bound _ _ _ _ _ (wo_held _ _ _ _ Hw) Epk Hlen) as Hb.
  destruct (sl_push (store w) s _ p pk Hh Hok Hin Epk Hb) as (st' & s' & E1 & Hh' & Hok' & Hv & Eo & Hl & Hr' & _).
  exists (mkWorld st' (<[a:=s']> (sockets w))).
  unfold compatsocket_pushInPacket, legacy, set_socket. cbn. rewrite E. cbn [mbind option_bind]. rewrite E1. cbn [mbind option_bind].
  split; [done|].
  assert (Hs : ∀ q, q ∈ contents s ++ socket_packets (delete a (sockets w)) ++ l → packet_view st' q = packet_view (store w) q).
  { intros q Hq. apply Hv. destruct (held_in _ _ _ q Hh Hq) as (x & Ex & _). by eexists. }
  split.
  - eapply world_set; try done.
    + apply Forall_forall. intros q Hq. apply Hs. rewrite !elem_of_app. tauto.
    + rewrite Eo, Forall_forall in *. intros q Hq. apply (live_good_view _ (store w)); [exact (good_headers a)|exact (held_wf _ _ _ Hh)| |by apply Hg].
      apply Hs. rewrite !elem_of_app. left. by apply (sl_out (ok := ok)).
    + by rewrite Hr'.
    + by rewrite Hr'.
  - split; [done|]. split; [by eapply same_out_set|]. cbn.
    pose proof (packets_size (sockets w) a s s' E) as (? & _ & ? & _). rewrite Eo in *. lia.
Qed.

Lemma ref_ok k w R l a s :
  world_ok k w R l → sockets w !! a = Some s →
  ∃ w', compatsocket_refAs ops w (sock a) = Some w' ∧ world_ok k w' (a :: R) l ∧ store w' = store w ∧ same_out w w' ∧
    List.length (socket_output (sockets w')) = List.length (socket_output (sockets w)) ∧
    List.length (socket_packets (sockets w')) = List.length (socket_packets (sockets w)) ∧
    sockets w' = <[a:=so_ref ops s]> (sockets w).
Proof.
  intros Hw E. pose proof (held_socket k w R l a s Hw E) as Hh. destruct (wo_socket _ _ _ _ Hw a s E) as (Ha & Hok & Hg & Hr & Hpos).
  destruct (sl_ref (store w) s) as (Ec & Eo & Er & Hok' & _).
  exists (mkWorld (store w) (<[a:=so_ref ops s]> (sockets w))).
  unfold compatsocket_refAs, legacy, set_socket. cbn. rewrite E. cbn [mbind option_bind]. split; [by destruct w|]. split.
  - eapply world_set; try done.
    + by rewrite Ec.
    + by apply same_sizes_all.
    + by apply Hok'.
    + by rewrite Eo.
    + rewrite Er, count_cons, decide_True by done. lia.
    + lia.
    + intros b Hb. by rewrite count_cons, decide_False.
  - split; [done|]. split; [by eapply same_out_set|]. cbn.
    pose proof (packets_size (sockets w) a s (so_ref ops s) E). rewrite Ec, Eo in *. split; [lia|]. by split; [lia|].
Qed.

Lemma unref_ok k w R l a :
  world_ok k w (a :: R) l →
  ∃ w', compatsocket_unref ops w (sock a) = Some w' ∧ world_ok k w' R l ∧ same_sizes (store w) (store w') l ∧
    same_out w w' ∧ (List.length (socket_output (sockets w')) ≤ List.length (socket_output (sockets w)))%nat ∧
    (List.length (socket_packets (sockets w')) ≤ List.length (socket_packets (sockets w)))%nat.
Proof.
  intros Hw. pose proof (count_nonneg R a). pose proof (wo_others _ _ _ _ Hw a).
  assert (is_Some (sockets w !! a)) as [s E].
  { apply (wo_live _ _ _ _ Hw). rewrite count_cons, decide_True by done. lia. }
  pose proof (held_socket k w _ l a s Hw E) as Hh. destruct (wo_socket _ _ _ _ Hw a s E) as (Ha & Hok & Hg & Hr & Hpos).
  unfold compatsocket_unref, legacy. cbn. rewrite E. cbn [mbind option_bind].
  destruct (decide (refs s = 1)) as [E1|Hn].
  - destruct (sl_free (store w) s _ E1 Hh) as (st' & -> & Hh' & Hs). cbn [mbind option_bind].
    exists (mkWorld st' (delete a (sockets w))). split; [done|]. split; [|split; [|split; [|]]]; cbn.
    + eapply world_delete; try done. eapply same_sizes_sub; [done|]. intros q. rewrite elem_of_app. tauto.
    + eapply same_sizes_sub; [done|]. intros q. rewrite elem_of_app. tauto.
    + intros b t. cbn. intros [? ?]%lookup_delete_Some. by exists t.
    + pose proof (packets_size (sockets w) a s s E). lia.
  - rewrite count_cons, decide_True in Hr by done.
    assert (Hlt : 1 < refs s) by lia.
    destruct (sl_unref (store w) s Hlt) as (s' & -> & Ec & Eo & Er & Hok' & _). cbn [mbind option_bind].
    exists (mkWorld (store w) (<[a:=s']> (sockets w))). split; [done|]. split; [|split; [|split; [|]]]; cbn.
    + eapply world_set; try done.
      * by rewrite Ec.
      * by apply same_sizes_all.
      * by apply Hok'.
      * by rewrite Eo.
      * lia.
      * lia.
      * intros b Hb. by rewrite count_cons, decide_False.
    + by apply same_sizes_all.
    + by eapply same_out_set.
    + pose proof (packets_size (sockets w) a s s' E). rewrite Ec, Eo in *. lia.
Qed.

End World.

End SocketWorld.
