(* ===== verification/Inet.v ===== *)
(** * The way of a packet between hosts
    (worker_sendPacket in src/phantom/src/main/core/worker.c,
    utility/random.c)

    A router hands a packet to the worker, which decides with the random
    numbers of the sending host whether the packet is lost, and otherwise sends
    a copy of it that arrives after the latency of the path.  Names, the
    topology's reliabilities and latencies, the table of hosts and the C
    library's [rand_r] are parameters. *)

From S2P Require Import Prelude Float64 Cpu PriorityQueue Event Packet.

Module Inet.
Import Pkt.

(** ** Random numbers (utility/random.c) *)

Definition RAND_MAX : Z := 2147483647.

Record Random := mkRandom { seedState : Z; initialSeed : Z }.

#[export] Instance random_eta : Eta Random := fun r => mkRandom (seedState r) (initialSeed r).

Definition random_new (seed : Z) : Random := mkRandom seed seed.

Section Random.
(** [rand_r] of the C library: the value and the new state. *)
Context (rand_r : Z → Z * Z).

Definition random_rand (random : Random) : Random * Z :=
  let '(randomValue, seed) := rand_r (seedState random) in (random <| seedState := seed |>, randomValue).

Definition random_nextDouble (random : Random) : Random * F64.double :=
  let '(random, randomValue) := random_rand random in
  (random, F64.div (F64.of_Z randomValue) (F64.of_Z RAND_MAX)).

End Random.

(** ** Sending *)

(** The task that delivers a copy of a packet: it owns the copy. *)
Record Delivery := mkDelivery { packetCopy : Z; deliverTime : Z; dstHost : Z }.

(** A worker's part in it: whether the scheduler runs, the bootstrapping phase,
    and the current time. *)
Record Clock := mkClock { schedulerIsRunning : bool; bootstrapping : bool; now : Z }.

#[export] Instance clock_eta : Eta Clock := fun c => mkClock (schedulerIsRunning c) (bootstrapping c) (now c).

(** What the worker asks other components: the address of an IP, the address's
    id, the path between two addresses, and the host with an id. *)
Record Paths := mkPaths {
  Address : Type;
  worker_resolveIPToAddress : Z → option Address;
  address_getID : Address → Z;
  topology_getReliability : Address → Address → F64.double;
  topology_getLatency : Address → Address → F64.double;
  scheduler_getHost : Z → option Z;
}.

Section Send.
Context (address_ipToNewString : Z → string) (traceOn : bool) (rand_r : Z → Z * Z) (paths : Paths).

Abbreviation addDeliveryStatus := (packet_addDeliveryStatus address_ipToNewString traceOn).

(** The delay of a path in nanoseconds; [None] where the conversion is
    undefined. *)
Definition path_delay (src dst : Address paths) : option Z :=
  let latency := topology_getLatency paths src dst in
  F64.to_u64 (F64.ceil (F64.mul latency (F64.of_Z SIMTIME_ONE_MILLISECOND))).

Definition worker_sendPacket (c : Clock) (st : Store) (random : Random) (packet : Z)
    : option (Store * Random * option Delivery) :=
  if packet =? 0 then None
  else if negb (schedulerIsRunning c) then Some (st, random, None)
  else
    p ← packets st !! packet;
    srcIP ← packet_getSourceIP p;
    dstIP ← packet_getDestinationIP p;
    srcAddress ← worker_resolveIPToAddress paths srcIP;
    dstAddress ← worker_resolveIPToAddress paths dstIP;
    let reliability := topology_getReliability paths srcAddress dstAddress in
    let '(random, chance) := random_nextDouble rand_r random in
    length ← packet_getPayloadLength st p;
    if bootstrapping c || F64.leb chance reliability || (length =? 0) then
      delay ← path_delay srcAddress dstAddress;
      host ← scheduler_getHost paths (u32 (address_getID paths dstAddress));
      st ← addDeliveryStatus st packet PDS_INET_SENT;
      '(st, copy) ← packet_copy st packet;
      Some (st, random, Some (mkDelivery copy (u64 (now c + delay)) host))
    else
      st ← addDeliveryStatus st packet PDS_INET_DROPPED;
      Some (st, random, None).

(** ** Who can send to whom *)

(** A packet that finds its way: both ends have a name, the receiving end has
    a host, and the path has a latency. *)
Definition routable (p : Packet) : Prop :=
  ∃ src dst delay host,
    (packet_getSourceIP p ≫= worker_resolveIPToAddress paths) = Some src ∧
    (packet_getDestinationIP p ≫= worker_resolveIPToAddress paths) = Some dst ∧
    path_delay src dst = Some delay ∧
    scheduler_getHost paths (u32 (address_getID paths dst)) = Some host.

Definition deliveries (d : option Delivery) : list Z := match d with Some d => [packetCopy d] | None => [] end.

(** Sending fails at most for a packet that is not routable; the copy belongs to
    the delivery. *)
Lemma sendPacket_ok c st random l packet p :
  held traceOn st l → packet ∈ l → Z.of_nat (List.length l) < UINT32_MAX → packets st !! packet = Some p →
  match worker_sendPacket c st random packet with
  | Some (st', random', d) =>
      held traceOn st' (deliveries d ++ l) ∧ same_views st st' ∧
      ∀ d', d = Some d' → packet_view st' (packetCopy d') = packet_view st packet
  | None => ¬ routable p
  end.
Proof.
  intros Hh Hin Hl Hp. unfold routable.
  pose proof (held_wf _ _ _ Hh) as Hwf. destruct (wf_packets _ Hwf _ _ Hp) as (? & _ & _).
  unfold worker_sendPacket. rewrite (proj2 (Z.eqb_neq packet 0)) by lia.
  destruct (schedulerIsRunning c); cbn [negb]; [|done]. rewrite Hp. cbn [mbind option_bind].
  destruct (packet_getSourceIP p) as [sip|]; cbn [mbind option_bind]; [|by intros (? & ? & ? & ? & ? & _)].
  destruct (packet_getDestinationIP p) as [dip|]; cbn [mbind option_bind]; [|by intros (? & ? & ? & ? & ? & ? & _)].
  destruct (worker_resolveIPToAddress paths sip) as [src|]; cbn [mbind option_bind]; [|by intros (? & ? & ? & ? & ? & _)].
  destruct (worker_resolveIPToAddress paths dip) as [dst|]; cbn [mbind option_bind]; [|by intros (? & ? & ? & ? & ? & ? & _)].
  destruct (random_nextDouble rand_r random) as [random' chance].
  destruct (packet_length_ok st packet p Hwf Hp) as [n ->]. cbn [mbind option_bind].
  destruct (_ || _).
  - destruct (path_delay src dst) as [delay|] eqn:Ed; cbn [mbind option_bind];
      [|by intros (? & ? & ? & ? & [= <-] & [= <-] & ? & _); simplify_eq].
    destruct (scheduler_getHost paths _) as [host|] eqn:Eh; cbn [mbind option_bind];
      [|by intros (? & ? & ? & ? & [= <-] & [= <-] & _ & ?); simplify_eq].
    destruct (held_status address_ipToNewString traceOn st l packet PDS_INET_SENT Hh Hin) as (st1 & -> & Hh1 & Hv1).
    cbn [mbind option_bind].
    destruct (held_copy traceOn st1 l packet Hh1 Hin Hl) as (st2 & copy & -> & Hh2 & Hv2 & Hc & _). cbn [mbind option_bind].
    split; [done|]. split; [etrans; [by apply all_views|done]|]. intros d' [= <-]. cbn. by rewrite Hc.
  - destruct (held_status address_ipToNewString traceOn st l packet PDS_INET_DROPPED Hh Hin) as (st1 & -> & Hh1 & Hv1).
    cbn [mbind option_bind]. split; [done|]. split; [by apply all_views|done].
Qed.

(** C9: while the scheduler runs, a packet between known hosts takes one random
    number.  In the bootstrapping phase, without a payload, or when the number
    is at most the path's reliability, a copy goes on the way that looks like
    the packet, has one reference, and arrives on the destination's host after
    the latency of the path in whole nanoseconds, rounded up; else there is no
    copy, and the packet is marked as dropped.  The packet stays with its
    owners, and no reference is lost or made up. *)
Theorem worker_sendPacket_correct c st random l packet p src dst delay host n :
  held traceOn st l → packet ∈ l → Z.of_nat (List.length l) < UINT32_MAX → packets st !! packet = Some p →
  schedulerIsRunning c = true → packet_getPayloadLength st p = Some n →
  (packet_getSourceIP p ≫= worker_resolveIPToAddress paths) = Some src →
  (packet_getDestinationIP p ≫= worker_resolveIPToAddress paths) = Some dst →
  path_delay src dst = Some delay →
  scheduler_getHost paths (u32 (address_getID paths dst)) = Some host →
  let '(random', chance) := random_nextDouble rand_r random in
  if bootstrapping c || F64.leb chance (topology_getReliability paths src dst) || (n =? 0) then
    ∃ st' copy,
      worker_sendPacket c st random packet = Some (st', random', Some (mkDelivery copy (u64 (now c + delay)) host)) ∧
      held traceOn st' (copy :: l) ∧ same_views st st' ∧
      (copy ∉ l) ∧ refcount st' copy = 1 ∧ packet_view st' copy = packet_view st packet
  else
    ∃ st' q, worker_sendPacket c st random packet = Some (st', random', None) ∧ held traceOn st' l ∧ same_views st st' ∧
      packets st' !! packet = Some q ∧ has_flag (allStatus q) PDS_INET_DROPPED = true.
Proof.
  intros Hh Hin Hl Hp Hrun Hn Hsrc Hdst Hdelay Hhost.
  pose proof (held_wf _ _ _ Hh) as Hwf. destruct (wf_packets _ Hwf _ _ Hp) as (? & _ & _).
  destruct (random_nextDouble rand_r random) as [random' chance] eqn:Er.
  unfold worker_sendPacket. rewrite (proj2 (Z.eqb_neq packet 0)) by lia. rewrite Hrun, Hp. cbn [negb mbind option_bind].
  destruct (packet_getSourceIP p) as [sip|]; [|done]. destruct (packet_getDestinationIP p) as [dip|]; [|done].
  cbn [mbind option_bind] in *. rewrite Hsrc, Hdst. cbn [mbind option_bind]. rewrite Er, Hn. cbn [mbind option_bind].
  destruct (_ || _); rewrite ?Hdelay, ?Hhost; cbn [mbind option_bind].
  - destruct (held_status address_ipToNewString traceOn st l packet PDS_INET_SENT Hh Hin) as (st1 & -> & Hh1 & Hv1).
    cbn [mbind option_bind].
    destruct (held_copy traceOn st1 l packet Hh1 Hin Hl) as (st2 & copy & -> & Hh2 & Hv2 & Hc & Hnc).
    cbn [mbind option_bind]. exists st2, copy. split; [done|]. split; [done|].
    split; [etrans; [by apply all_views|done]|]. split; [done|].
    split; [|by rewrite Hc]. rewrite (held_exact _ _ _ Hh2), count_cons, decide_True by done.
    rewrite (count_not_in l copy) by done. done.
  - destruct (held_mark address_ipToNewString traceOn st l packet PDS_INET_DROPPED Hh Hin)
      as (st1 & q & o & -> & Hh1 & Hv1 & Eq & ->). simplify_eq. cbn [mbind option_bind].
    eexists _, _. split; [done|]. split; [done|]. split; [by apply all_views|]. split; [apply lookup_insert_eq|].
    by apply has_flag_set_same.
Qed.

End Send.

(** *** Witness *)

Definition demo_paths : Paths := {|
  Address := Z;
  worker_resolveIPToAddress ip := Some ip;
  address_getID a := a;
  topology_getReliability _ _ := F64.of_Z 0;
  topology_getLatency _ _ := F64.div (F64.of_Z 5) (F64.of_Z 2);
  scheduler_getHost id := if id =? 0 then None else Some id;
|}.

(** A generator that counts. *)
Definition demo_rand (seed : Z) : Z * Z := (seed, seed + 1).

Lemma worker_sendPacket_correct_witness :
  (∃ st' copy, worker_sendPacket (λ _, EmptyString) false demo_rand demo_paths (mkClock true true 100) demo_store
     (random_new 7) 1 = Some (st', mkRandom 8 7, Some (mkDelivery copy 2500100 30))) ∧
  (∃ st' q, worker_sendPacket (λ _, EmptyString) false demo_rand demo_paths (mkClock true false 100) demo_store
     (random_new 7) 1 = Some (st', mkRandom 8 7, None) ∧ packets st' !! 1 = Some q ∧
     has_flag (allStatus q) PDS_INET_DROPPED = true).
Proof.
  destruct (packets demo_store !! 1) as [p|] eqn:E; [|by vm_compute in E].
  assert (∀ b, let c := mkClock true b 100 in
    (packet_getPayloadLength demo_store p = Some 3) ∧ ((packet_getSourceIP p ≫= worker_resolveIPToAddress demo_paths) = Some 10) ∧
    ((packet_getDestinationIP p ≫= worker_resolveIPToAddress demo_paths) = Some 30)) as H.
  { vm_compute in E. injection E as <-. by vm_compute. }
  destruct (H true) as (Hn & Hs & Hd).
  pose proof (λ b, worker_sendPacket_correct (λ _, EmptyString) false demo_rand demo_paths (mkClock true b 100) demo_store
    (random_new 7) [1; 3] 1 p 10 30 2500000 30 3 demo_held ltac:(left) ltac:(by vm_compute) E eq_refl Hn Hs Hd
    ltac:(by vm_compute) ltac:(by vm_compute)) as Hc.
  split.
  - destruct (Hc true) as (st' & copy & ? & _). by exists st', copy.
  - destruct (Hc false) as (st' & q & ? & _ & _ & ? & ?). by exists st', q.
Defined.

End Inet.
