(* ===== verification/NetworkInterface.v ===== *)
(** * Network interfaces
    (src/phantom/src/main/host/network_interface.c)

    An interface stands between the sockets of a host and its upstream router.
    Packets from the router go to the socket that is associated with their
    addresses; sockets that want to send are served by a queuing discipline.
    Two token buckets limit the bandwidth; a task of the scheduler refills
    them every millisecond, while there is something to refill.  The theorems
    hold for all sockets, router queues and queuing disciplines that meet
    their interfaces. *)

From Stdlib Require Import Ascii.
From stdpp Require Import pretty.
From S2P Require Import Prelude Float64 Cpu PriorityQueue Event Packet RouterQueue Router Descriptor Socket Udp CompatSocket Inet.

Module NetworkInterface.
Import Pkt CompatSocket Inet.
#[local] Existing Instance Router.router_eta.

Definition CONFIG_MTU : Z := 1500.

(** ** Token buckets *)

Record NetworkInterfaceTokenBucket := mkBucket {
  bytesCapacity : Z;
  bytesRemaining : Z;
  bytesRefill : Z;
}.

#[export] Instance bucket_eta : Eta NetworkInterfaceTokenBucket := fun b =>
  mkBucket (bytesCapacity b) (bytesRemaining b) (bytesRefill b).

Definition _networkinterface_getRefillInterval : Z := SIMTIME_ONE_MILLISECOND * 1.

Definition _networkinterface_getCapacityFactor : Z := 1.

Definition _networkinterface_refillTokenBucket (bucket : NetworkInterfaceTokenBucket) : NetworkInterfaceTokenBucket :=
  let bucket := bucket <| bytesRemaining := u64 (bytesRemaining bucket + bytesRefill bucket) |> in
  if bytesCapacity bucket <? bytesRemaining bucket
  then bucket <| bytesRemaining := bytesCapacity bucket |> else bucket.

Definition _networkinterface_consumeTokenBucket (bucket : NetworkInterfaceTokenBucket) (bytesConsumed : Z)
    : NetworkInterfaceTokenBucket :=
  if bytesRemaining bucket <=? bytesConsumed then bucket <| bytesRemaining := 0 |>
  else bucket <| bytesRemaining := bytesRemaining bucket - bytesConsumed |>.

(** ** State *)

Inductive QDiscMode := Q_DISC_MODE_FIFO | Q_DISC_MODE_ROUND_ROBIN.

(** [address] is the IP in network order; sockets are tagged pointers. *)
Record NetworkInterface (Q : Type) := mkInterface {
  router : option (Router.Router Q);
  qdisc : QDiscMode;
  address : Z;
  boundSockets : gmap string Z;
  rrQueue : RrSocketQueue;
  fifoQueue : FifoSocketQueue;
  sendBucket : NetworkInterfaceTokenBucket;
  receiveBucket : NetworkInterfaceTokenBucket;
  timeStartedRefillingBuckets : Z;
  isRefillPending : bool;
}.
Arguments mkInterface {Q}. Arguments router {Q}. Arguments qdisc {Q}. Arguments address {Q}. Arguments boundSockets {Q}.
Arguments rrQueue {Q}. Arguments fifoQueue {Q}. Arguments sendBucket {Q}. Arguments receiveBucket {Q}.
Arguments timeStartedRefillingBuckets {Q}. Arguments isRefillPending {Q}.

#[export] Instance interface_eta {Q} : Eta (NetworkInterface Q) := fun i =>
  mkInterface (router i) (qdisc i) (address i) (boundSockets i) (rrQueue i) (fifoQueue i) (sendBucket i)
    (receiveBucket i) (timeStartedRefillingBuckets i) (isRefillPending i).

(** The tasks an interface gives to the scheduler; a packet comes with the
    reference of its task. *)
Inductive Task := RefillTokenBuckets | ReceivePacket (packet : Z).

(** The interface with what surrounds it: the packets and sockets of the host,
    the worker's clock, the host's random numbers, the scheduled tasks, and the
    copies under way to other hosts.  For the statements: [sent] and [received]
    list the bytes of every packet that was sent, or taken from the router, with
    whether the simulation was bootstrapping; [refills] counts the refills. *)
Record Net (S Q : Type) := mkNet {
  world : World S;
  iface : NetworkInterface Q;
  clock : Clock;
  random : Random;
  tasks : list (Z * Task);
  inflight : list Delivery;
  sent : list (bool * Z);
  received : list (bool * Z);
  refills : Z;
}.
Arguments mkNet {S Q}. Arguments world {S Q}. Arguments iface {S Q}. Arguments clock {S Q}. Arguments random {S Q}.
Arguments tasks {S Q}. Arguments inflight {S Q}. Arguments sent {S Q}. Arguments received {S Q}. Arguments refills {S Q}.

#[export] Instance net_eta {S Q} : Eta (Net S Q) := fun n =>
  mkNet (world n) (iface n) (clock n) (random n) (tasks n) (inflight n) (sent n) (received n) (refills n).

Section Operations.
Context {S Q : Type} (ops : SocketOps S) (g_renew : Z → nat → Z).
Context (address_ipToNewString : Z → string) (traceOn : bool) (rand_r : Z → Z * Z) (paths : Paths).
Implicit Types (n : Net S Q) (i : NetworkInterface Q).

Definition set_store n (st : Store) : Net S Q := n <| world := (world n) <| store := st |> |>.

Definition addDeliveryStatus n (packet status : Z) : option (Net S Q) :=
  st ← packet_addDeliveryStatus address_ipToNewString traceOn (store (world n)) packet status;
  Some (set_store n st).

Definition packet_unref n (packet : Z) : option (Net S Q) :=
  st ← Pkt.packet_unref address_ipToNewString traceOn (store (world n)) packet; Some (set_store n st).

(** The bytes of a packet on the wire. *)
Definition wire_length n (packet : Z) : option Z := packet_size (store (world n)) packet.

(** *** Refills *)

(** After the end of the simulation a task is thrown away. *)
Definition worker_scheduleTask n (task : Task) (delay : Z) : Net S Q :=
  if schedulerIsRunning (clock n) then n <| tasks := tasks n ++ [(u64 (now (clock n) + delay), task)] |> else n.

Definition _networkinterface_scheduleRefillTask n (delay : Z) : Net S Q :=
  let n := worker_scheduleTask n RefillTokenBuckets delay in
  n <| iface := (iface n) <| isRefillPending := true |> |>.

Definition _networkinterface_scheduleNextRefill n : Net S Q :=
  let interval := _networkinterface_getRefillInterval in
  let offset := u64 (now (clock n) - timeStartedRefillingBuckets (iface n)) in
  let relTimeSincelastRefill := offset mod interval in
  let relTimeUntilNextRefill := interval - relTimeSincelastRefill in
  _networkinterface_scheduleRefillTask n relTimeUntilNextRefill.

Definition needs_refill (b : NetworkInterfaceTokenBucket) : bool := bytesRemaining b <? bytesCapacity b.

Definition _networkinterface_isRefillNeeded i : bool :=
  (needs_refill (sendBucket i) || needs_refill (receiveBucket i)) && negb (isRefillPending i).

Definition _networkinterface_scheduleNextRefillIfNeeded n : Net S Q :=
  if _networkinterface_isRefillNeeded (iface n) then _networkinterface_scheduleNextRefill n else n.

Definition _networkinterface_setupTokenBuckets i (bwDownKiBps bwUpKiBps : Z) : NetworkInterface Q :=
  let timeFactor := SIMTIME_ONE_SECOND / _networkinterface_getRefillInterval in
  let bytesPerIntervalSend := u64 (bwUpKiBps * 1024) / timeFactor in
  let bytesPerIntervalReceive := u64 (bwDownKiBps * 1024) / timeFactor in
  let capacity refill := u64 (u64 (refill * _networkinterface_getCapacityFactor) + CONFIG_MTU) in
  i <| sendBucket := mkBucket (capacity bytesPerIntervalSend) (bytesRemaining (sendBucket i)) bytesPerIntervalSend |>
    <| receiveBucket := mkBucket (capacity bytesPerIntervalReceive) (bytesRemaining (receiveBucket i))
                                 bytesPerIntervalReceive |>.

Definition speed (b : NetworkInterfaceTokenBucket) : Z :=
  let timeFactor := SIMTIME_ONE_SECOND / _networkinterface_getRefillInterval in
  let bytesPerSecond := u64 (bytesRefill b * timeFactor) in
  u32 (bytesPerSecond / 1024).

Definition networkinterface_getSpeedUpKiBps i : Z := speed (sendBucket i).
Definition networkinterface_getSpeedDownKiBps i : Z := speed (receiveBucket i).

(** *** Associations *)

Local Open Scope string_scope.

Definition _networkinterface_getAssociationKey i (type : ProtocolType) (port peerAddr peerPort : Z) : string :=
  protocol_toString type +:+ "|" +:+ pretty (address i) +:+ ":" +:+ pretty port +:+ "|" +:+ pretty peerAddr
    +:+ ":" +:+ pretty peerPort.

Local Close Scope string_scope.

(** [None]: a freed socket. *)
Definition _networkinterface_socketToAssociationKey n (socket : CompatSocket) : option string :=
  type ← compatsocket_getProtocol ops (world n) socket;
  peer ← compatsocket_getPeerName ops (world n) socket;
  bound ← compatsocket_getSocketName ops (world n) socket;
  let '(peerIP, peerPort) := default (0, 0) peer in
  let '(boundIP, boundPort) := default (0, 0) bound in
  Some (_networkinterface_getAssociationKey (iface n) type boundPort peerIP peerPort).

Definition networkinterface_isAssociated i (type : ProtocolType) (port peerAddr peerPort : Z) : bool :=
  let general := _networkinterface_getAssociationKey i type port 0 0 in
  if bool_decide (is_Some (boundSockets i !! general)) then true
  else
    let specific := _networkinterface_getAssociationKey i type port peerAddr peerPort in
    bool_decide (is_Some (boundSockets i !! specific)).

Definition networkinterface_associate n (socket : CompatSocket) : option (Net S Q) :=
  key ← _networkinterface_socketToAssociationKey n socket;
  if bool_decide (is_Some (boundSockets (iface n) !! key)) then None
  else
    w ← compatsocket_refAs ops (world n) socket;
    tagged ← compatsocket_toTagged socket;
    Some (n <| world := w |> <| iface := (iface n) <| boundSockets := <[key := tagged]> (boundSockets (iface n)) |> |>).

(** Removing an entry of the table gives its reference back. *)
Definition networkinterface_disassociate n (socket : CompatSocket) : option (Net S Q) :=
  key ← _networkinterface_socketToAssociationKey n socket;
  match boundSockets (iface n) !! key with
  | None => Some n
  | Some taggedSocket =>
      let n := n <| iface := (iface n) <| boundSockets := delete key (boundSockets (iface n)) |> |> in
      socket ← compatsocket_fromTagged taggedSocket;
      w ← compatsocket_unref ops (world n) socket;
      Some (n <| world := w |>)
  end.

(** *** Receiving *)

(** A socket of type [CST_NONE] when there is none. *)
Definition _boundsockets_lookup (table : gmap string Z) (key : string) : option CompatSocket :=
  match table !! key with
  | None => Some (mkCompat CST_NONE 0)
  | Some ptr => compatsocket_fromTagged ptr
  end.

(** The socket a packet is for. *)
Definition find_socket i (p : Packet) : option CompatSocket :=
  let ptype := packet_getProtocol p in
  bindPort ← packet_getDestinationPort p;
  socket ← _boundsockets_lookup (boundSockets i) (_networkinterface_getAssociationKey i ptype bindPort 0 0);
  if decide (type socket = CST_NONE) then
    peerIP ← packet_getSourceIP p;
    peerPort ← packet_getSourcePort p;
    _boundsockets_lookup (boundSockets i) (_networkinterface_getAssociationKey i ptype bindPort peerIP peerPort)
  else Some socket.

Definition _networkinterface_receivePacket n (packet : Z) : option (Net S Q) :=
  n ← addDeliveryStatus n packet PDS_RCV_INTERFACE_RECEIVED;
  p ← packets (store (world n)) !! packet;
  socket ← find_socket (iface n) p;
  if decide (type socket = CST_NONE) then addDeliveryStatus n packet PDS_RCV_INTERFACE_DROPPED
  else w ← compatsocket_pushInPacket ops (world n) socket packet; Some (n <| world := w |>).

Definition consume_received n (length : Z) : Net S Q :=
  let bucket := _networkinterface_consumeTokenBucket (receiveBucket (iface n)) length in
  let n := n <| iface := (iface n) <| receiveBucket := bucket |> |> in
  _networkinterface_scheduleNextRefillIfNeeded n.

Definition record_received n (length : Z) : Net S Q :=
  n <| received := received n ++ [(bootstrapping (clock n), length)] |>.

(** The packet is 0 when the router has none. *)
Definition router_dequeue n (r : Router.Router Q) : option (Net S Q * Z) :=
  '(st, r, packet) ← Router.router_dequeue address_ipToNewString traceOn (store (world n)) (now (clock n)) r;
  Some ((set_store n st) <| iface := (iface n) <| router := Some r |> |>, packet).

Fixpoint receive_loop (fuel : nat) n : option (Net S Q) :=
  if bootstrapping (clock n) || (CONFIG_MTU <=? bytesRemaining (receiveBucket (iface n))) then
    match fuel with
    | O => None
    | Datatypes.S fuel =>
        r ← router (iface n);
        '(n, packet) ← router_dequeue n r;
        if packet =? 0 then Some n else
        length ← wire_length n packet;
        n ← _networkinterface_receivePacket n packet;
        n ← packet_unref n packet;
        let n := record_received n length in
        receive_loop fuel (if bootstrapping (clock n) then n else consume_received n length)
    end
  else Some n.

Definition networkinterface_receivePackets (fuel : nat) n : option (Net S Q) :=
  match router (iface n) with None => Some n | Some _ => receive_loop fuel n end.

(** [router_enqueue]: the interface of the router is this one. *)
Definition router_enqueue (fuel : nat) n (r : Router.Router Q) (packet : Z) : option (Net S Q) :=
  '(st, r, notify) ← Router.router_enqueue address_ipToNewString traceOn (store (world n)) (now (clock n)) r packet;
  let n := (set_store n st) <| iface := (iface n) <| router := Some r |> |> in
  if notify : bool then networkinterface_receivePackets fuel n else Some n.

(** The host's upstream router is the one of this interface. *)
Definition _worker_runDeliverPacketTask (fuel : nat) n (packet : Z) : option (Net S Q) :=
  r ← router (iface n); router_enqueue fuel n r packet.

Definition _networkinterface_receivePacketTask n (packet : Z) : option (Net S Q) :=
  _networkinterface_receivePacket n packet.

(** *** Sending *)

(** The loop of both queuing disciplines; the packet is 0 when there is none. *)
Fixpoint select {F} (d : Discipline (World S) F) (fuel : nat) (w : World S) (queue : F) : option (World S * F * Z) :=
  if d_isEmpty d queue then Some (w, queue, 0) else
  match fuel with
  | O => None
  | Datatypes.S fuel =>
      '(queue, found) ← d_pop d w queue;
      match found with
      | None => select d fuel w queue
      | Some socket =>
          '(w, packet) ← compatsocket_pullOutPacket ops w socket;
          next ← compatsocket_peekNextOutPacket ops w socket;
          '(w, queue) ← (if negb (next =? 0) then queue ← d_push d w queue socket; Some (w, queue)
                         else w ← compatsocket_unref ops w socket; Some (w, queue));
          if packet =? 0 then select d fuel w queue else Some (w, queue, packet)
      end
  end.

Definition _networkinterface_selectRoundRobin (fuel : nat) n : option (Net S Q * Z) :=
  '(w, queue, packet) ← select rr fuel (world n) (rrQueue (iface n));
  Some (n <| world := w |> <| iface := (iface n) <| rrQueue := queue |> |>, packet).

Definition _networkinterface_selectFirstInFirstOut (fuel : nat) n : option (Net S Q * Z) :=
  '(w, queue, packet) ← select (fifo ops g_renew) fuel (world n) (fifoQueue (iface n));
  Some (n <| world := w |> <| iface := (iface n) <| fifoQueue := queue |> |>, packet).

Definition select_packet (fuel : nat) n : option (Net S Q * Z) :=
  match qdisc (iface n) with
  | Q_DISC_MODE_ROUND_ROBIN => _networkinterface_selectRoundRobin fuel n
  | Q_DISC_MODE_FIFO => _networkinterface_selectFirstInFirstOut fuel n
  end.

(** The task for the own interface owns a reference of the packet, and gives it
    back when it is thrown away. *)
Definition send_local n (packet : Z) : option (Net S Q) :=
  st ← packet_ref (store (world n)) packet;
  let n := worker_scheduleTask (set_store n st) (ReceivePacket packet) 1 in
  if schedulerIsRunning (clock n) then Some n else packet_unref n packet.

Definition router_forward n (packet : Z) : option (Net S Q) :=
  '(st, random', d) ← worker_sendPacket address_ipToNewString traceOn rand_r paths (clock n) (store (world n)) (random n) packet;
  Some ((set_store n st) <| random := random' |>
          <| inflight := inflight n ++ match d with Some d => [d] | None => [] end |>).

Definition consume_sent n (length : Z) : Net S Q :=
  let bucket := _networkinterface_consumeTokenBucket (sendBucket (iface n)) length in
  let n := n <| iface := (iface n) <| sendBucket := bucket |> |> in
  _networkinterface_scheduleNextRefillIfNeeded n.

Definition record_sent n (packet : Z) : Net S Q :=
  n <| sent := sent n ++ [(bootstrapping (clock n), default 0 (wire_length n packet))] |>.

(** What happens with a packet that a queuing discipline chose. *)
Definition send_packet n (packet : Z) : option (Net S Q) :=
  n ← addDeliveryStatus n packet PDS_SND_INTERFACE_SENT;
  p ← packets (store (world n)) !! packet;
  destinationIP ← packet_getDestinationIP p;
  n ← (if address (iface n) =? destinationIP then send_local n packet
       else _ ← router (iface n); router_forward n packet);
  let n := record_sent n packet in
  n ← (if bootstrapping (clock n) then Some n
       else length ← wire_length n packet; Some (consume_sent n length));
  packet_unref n packet.

(** The same fuel bounds the packets that are sent and the sockets that are
    tried for each of them. *)
Fixpoint send_loop (fuel select_fuel : nat) n : option (Net S Q) :=
  if CONFIG_MTU <=? bytesRemaining (sendBucket (iface n)) then
    match fuel with
    | O => None
    | Datatypes.S fuel =>
        '(n, packet) ← select_packet select_fuel n;
        if packet =? 0 then Some n else n ← send_packet n packet; send_loop fuel select_fuel n
    end
  else Some n.

Definition _networkinterface_sendPackets (fuel : nat) n : option (Net S Q) := send_loop fuel fuel n.

(** A socket waits in a queue at most once. *)
Definition track {F} (d : Discipline (World S) F) (w : World S) (queue : F) (socket : CompatSocket) : option (World S * F) :=
  found ← d_find d queue socket;
  if found : bool then Some (w, queue)
  else w ← compatsocket_refAs ops w socket; queue ← d_push d w queue socket; Some (w, queue).

Definition networkinterface_wantsSend (fuel : nat) n (socket : CompatSocket) : option (Net S Q) :=
  next ← compatsocket_peekNextOutPacket ops (world n) socket;
  if next =? 0 then Some n else
  n ← match qdisc (iface n) with
      | Q_DISC_MODE_ROUND_ROBIN =>
          '(w, queue) ← track rr (world n) (rrQueue (iface n)) socket;
          Some (n <| world := w |> <| iface := (iface n) <| rrQueue := queue |> |>)
      | Q_DISC_MODE_FIFO =>
          '(w, queue) ← track (fifo ops g_renew) (world n) (fifoQueue (iface n)) socket;
          Some (n <| world := w |> <| iface := (iface n) <| fifoQueue := queue |> |>)
      end;
  _networkinterface_sendPackets fuel n.

(** *** Refilling, and the life of an interface *)

Definition _networkinterface_refillTokenBucketsCB (fuel : nat) n : option (Net S Q) :=
  let i := (iface n) <| isRefillPending := false |> in
  let i := i <| receiveBucket := _networkinterface_refillTokenBucket (receiveBucket i) |>
             <| sendBucket := _networkinterface_refillTokenBucket (sendBucket i) |> in
  let n := n <| iface := i |> <| refills := refills n + 1 |> in
  n ← (match router i with Some _ => networkinterface_receivePackets fuel n | None => Some n end);
  n ← _networkinterface_sendPackets fuel n;
  Some (_networkinterface_scheduleNextRefillIfNeeded n).

Definition networkinterface_startRefillingTokenBuckets (fuel : nat) n : option (Net S Q) :=
  _networkinterface_refillTokenBucketsCB fuel
    (n <| iface := (iface n) <| timeStartedRefillingBuckets := now (clock n) |> |>).

(** [None] in the result: the old router was freed with its last reference. *)
Definition networkinterface_setRouter n (r : option (Router.Router Q)) : option (Net S Q) :=
  st ← match router (iface n) with
       | Some old => '(st, _) ← Router.router_unref (store (world n)) old; Some st
       | None => Some (store (world n))
       end;
  Some ((set_store n st) <| iface := (iface n) <| router := Router.router_ref <$> r |> |>).

Definition empty_bucket : NetworkInterfaceTokenBucket := mkBucket 0 0 0.

(** [block] is the address of the heap of the fifo queue. *)
Definition networkinterface_new (addr bwDownKiBps bwUpKiBps block : Z) (mode : QDiscMode) : NetworkInterface Q :=
  let interface := mkInterface None mode addr ∅ [] (PQ.priorityqueue_new block) empty_bucket empty_bucket 0 false in
  _networkinterface_setupTokenBuckets interface bwDownKiBps bwUpKiBps.

(** [rrsocketqueue_destroy] and [fifosocketqueue_destroy] with
    [compatsocket_unref]; the fuel is the number of sockets. *)
Fixpoint socketqueue_destroy {F} (d : Discipline (World S) F) (fuel : nat) (w : World S) (queue : F) : option (World S) :=
  if d_isEmpty d queue then Some w else
  match fuel with
  | O => None
  | Datatypes.S fuel =>
      '(queue, found) ← d_pop d w queue;
      socket ← found;
      w ← compatsocket_unref ops w socket;
      socketqueue_destroy d fuel w queue
  end.

(** [g_hash_table_destroy] on a table of tagged sockets. *)
Fixpoint unref_tagged (w : World S) (l : list Z) : option (World S) :=
  match l with
  | [] => Some w
  | taggedSocket :: l =>
      socket ← compatsocket_fromTagged taggedSocket; w ← compatsocket_unref ops w socket; unref_tagged w l
  end.

(** What is left of the packets and sockets. *)
Definition networkinterface_free (fuel : nat) n : option (World S) :=
  let i := iface n in
  w ← socketqueue_destroy rr fuel (world n) (rrQueue i);
  w ← socketqueue_destroy (fifo ops g_renew) fuel w (fifoQueue i);
  w ← unref_tagged w (snd <$> map_to_list (boundSockets i));
  match router i with
  | Some r => '(st, _) ← Router.router_unref (store w) r; Some (w <| store := st |>)
  | None => Some w
  end.

End Operations.

(** ** Association keys *)

(** Strings without a separator. *)
Fixpoint plain (s : string) : bool :=
  match s with
  | EmptyString => true
  | String c s => negb (bool_decide (c = ":"%char)) && negb (bool_decide (c = "|"%char)) && plain s
  end.

Lemma plain_cons c s : plain (String c s) = true ↔ c ≠ ":"%char ∧ c ≠ "|"%char ∧ plain s = true.
Proof. cbn. rewrite !andb_true_iff, !negb_true_iff, !bool_decide_eq_false. tauto. Qed.

Lemma plain_char x : plain (String (pretty_N_char x) EmptyString) = true.
Proof. unfold pretty_N_char. by repeat case_match. Qed.

Lemma plain_go x : ∀ s, plain s = true → plain (pretty_N_go x s) = true.
Proof.
  induction (N.lt_wf_0 x) as [x _ IH]. intros s Hs.
  assert (x = 0 ∨ 0 < x)%N as [->|?] by lia; [by rewrite pretty_N_go_0|].
  rewrite pretty_N_go_step by done. apply IH; [by apply N.div_lt|].
  pose proof (plain_char (x `mod` 10)) as Hc%plain_cons. apply plain_cons. tauto.
Qed.

Lemma plain_pretty (z : Z) : plain (pretty z) = true.
Proof.
  assert (∀ x, plain (pretty_N x) = true) as Hn.
  { intros x. unfold pretty_N. case_decide; [done|]. by apply plain_go. }
  destruct z as [|p|p]; [done| |]; cbn [pretty pretty_Z pretty_positive]; [apply Hn|].
  apply plain_cons. split; [done|]. split; [done|apply Hn].
Qed.

(** A separator ends a plain string. *)
Lemma split_plain a b c s t :
  plain a = true → plain b = true → c = ":"%char ∨ c = "|"%char →
  String.append a (String c s) = String.append b (String c t) → a = b ∧ s = t.
Proof.
  intros Ha Hb Hc. revert b Hb. induction a as [|x a IH]; intros [|y b] Hb E; cbn in E.
  - by injection E.
  - injection E as <- _. apply plain_cons in Hb. destruct Hc; tauto.
  - injection E as -> _. apply plain_cons in Ha. destruct Hc; tauto.
  - injection E as -> E. apply plain_cons in Ha, Hb. destruct (IH ltac:(tauto) b ltac:(tauto) E). by subst.
Qed.

Lemma plain_protocol t : plain (protocol_toString t) = true.
Proof. by destruct t. Qed.

Lemma protocol_toString_inj t t' : protocol_toString t = protocol_toString t' → t = t'.
Proof. by destruct t, t'. Qed.

(** The key of the table decides the protocol, both ports and the peer. *)
Lemma key_injective {Q} (i i' : NetworkInterface Q) t t' port port' ip ip' pp pp' :
  _networkinterface_getAssociationKey i t port ip pp = _networkinterface_getAssociationKey i' t' port' ip' pp' →
  t = t' ∧ address i = address i' ∧ port = port' ∧ ip = ip' ∧ pp = pp'.
Proof.
  unfold _networkinterface_getAssociationKey. intros E.
  apply split_plain in E as [E1 E]; [|apply plain_protocol..|by right].
  apply split_plain in E as [E2 E]; [|apply plain_pretty..|by left].
  apply split_plain in E as [E3 E]; [|apply plain_pretty..|by right].
  apply split_plain in E as [E4 E5]; [|apply plain_pretty..|by left].
  apply protocol_toString_inj in E1. apply (inj pretty) in E2, E3, E4, E5. done.
Qed.

(** ** Which socket gets a packet *)

Section Demultiplexing.
Context {S Q : Type} (ops : SocketOps S).
Implicit Types (n : Net S Q).

Abbreviation sock := compatsocket_fromLegacySocket.

Lemma lookup_tagged table key a :
  table !! key = Some (tagged a) → aligned a → _boundsockets_lookup table key = Some (sock a).
Proof. intros E Ha. unfold _boundsockets_lookup. by rewrite E, fromTagged_aligned. Qed.

(** C8: associating a socket changes the destination of exactly the packets that
    carry its name: those of its protocol to its port when it has no peer; those
    that also come from its peer otherwise, unless a socket without a peer has
    the port.  All other packets find the socket they found before. *)
Theorem associate_demultiplexes n n' a s t bip port pip pport p dp sip sp :
  sockets (world n) !! a = Some s → aligned a → so_getProtocol ops s = t →
  default (0, 0) (so_getPeerName ops s) = (pip, pport) → default (0, 0) (so_getSocketName ops s) = (bip, port) →
  networkinterface_associate ops n (sock a) = Some n' →
  packet_getDestinationPort p = Some dp → packet_getSourceIP p = Some sip → packet_getSourcePort p = Some sp →
  let general := _networkinterface_getAssociationKey (iface n) (protocol p) dp 0 0 in
  find_socket (iface n') p =
    if decide (protocol p = t ∧ dp = port ∧ (pip, pport) = (0, 0)) then Some (sock a)
    else if decide (protocol p = t ∧ dp = port ∧ (pip, pport) = (sip, sp) ∧ boundSockets (iface n) !! general = None)
    then Some (sock a) else find_socket (iface n) p.
Proof.
  intros Es Ha Ht Hpeer Hname E Hdp Hsip Hsp general. set (key := _networkinterface_getAssociationKey (iface n) t port pip pport).
  assert (Hkey : _networkinterface_socketToAssociationKey ops n (sock a) = Some key).
  { unfold _networkinterface_socketToAssociationKey, compatsocket_getProtocol, compatsocket_getPeerName,
      compatsocket_getSocketName, legacy. cbn [type object compatsocket_fromLegacySocket]. rewrite Es.
    cbn [fmap option_fmap option_map mbind option_bind]. by rewrite Hpeer, Hname, Ht. }
  unfold networkinterface_associate in E. rewrite Hkey in E. cbn [mbind option_bind] in E. case_bool_decide as Hnew; [done|].
  destruct (compatsocket_refAs ops (world n) (sock a)) as [w|]; [|done]. cbn [mbind option_bind] in E.
  rewrite toTagged_aligned in E by done. injection E as <-.
  set (specific := _networkinterface_getAssociationKey (iface n) (protocol p) dp sip sp).
  assert (Hf : ∀ i : NetworkInterface Q, address i = address (iface n) → find_socket i p =
    (socket ← _boundsockets_lookup (boundSockets i) general;
     if decide (type socket = CST_NONE) then _boundsockets_lookup (boundSockets i) specific else Some socket)).
  { intros i Ei. unfold find_socket. rewrite Hdp, Hsip, Hsp. cbn [mbind option_bind].
    unfold general, specific, _networkinterface_getAssociationKey. by rewrite Ei. }
  rewrite (Hf (iface n)) by done. match goal with |- find_socket ?j p = _ => set (i' := j) end. rewrite (Hf i') by done. clear Hf.
  set (m := boundSockets (iface n)) in *. assert (boundSockets i' = <[key := tagged a]> m) as -> by done. clear i'.
  assert (Hkeys : ∀ ip pp, _networkinterface_getAssociationKey (iface n) (protocol p) dp ip pp = key ↔
                  protocol p = t ∧ dp = port ∧ (pip, pport) = (ip, pp)).
  { intros ip pp. split; [intros (-> & _ & -> & -> & ->)%key_injective; done|]. by intros (-> & -> & [= -> ->]). }
  assert (Hl : ∀ k, _boundsockets_lookup (<[key := tagged a]> m) k =
                    if decide (k = key) then Some (sock a) else _boundsockets_lookup m k).
  { intros k. case_decide as Hk; [subst k; apply lookup_tagged; [by rewrite lookup_insert_eq|done]|].
    unfold _boundsockets_lookup. by rewrite lookup_insert_ne. }
  pose proof (Hkeys 0 0) as H1. pose proof (Hkeys sip sp) as H2. fold general in H1. fold specific in H2.
  rewrite !Hl. destruct (decide (general = key)) as [Hg|Hg]; cbn [mbind option_bind].
  { by rewrite (decide_True (P := protocol p = t ∧ _)) by (by apply H1). }
  rewrite (decide_False (P := protocol p = t ∧ dp = port ∧ _ = (0, 0))) by tauto.
  assert (Hgen : _boundsockets_lookup m general =
    match m !! general with None => Some (mkCompat CST_NONE 0) | Some ptr => compatsocket_fromTagged ptr end) by done.
  rewrite Hgen. destruct (m !! general) as [ptr|] eqn:Em; cbn [mbind option_bind type].
  - rewrite (decide_False (P := protocol p = t ∧ _)) by (intros (_ & _ & _ & ?); congruence).
    destruct (compatsocket_fromTagged ptr) as [s0|] eqn:E0; [|done]. cbn [mbind option_bind].
    assert (type s0 ≠ CST_NONE); [|by rewrite !decide_False].
    unfold compatsocket_fromTagged in E0. destruct (untagPtr ptr). case_match; [|done]. by injection E0 as <-.
  - rewrite !(decide_True (P := CST_NONE = CST_NONE)) by done.
    destruct (decide (specific = key)) as [Hs|Hs]; [rewrite decide_True|rewrite decide_False]; tauto.
Qed.

End Demultiplexing.

(** *** Witness *)

(** An interface with a socket that waits at port 40. *)
Definition demo_net : Net Udp.UDP RQ.QueueManagerStatic :=
  mkNet (mkWorld empty_store {[8 := Udp.demo_receiver]})
    (networkinterface_new 30 1000 1000 64 Q_DISC_MODE_FIFO) (mkClock true false 0) (random_new 1) [] [] [] [] 0.

Lemma associate_demultiplexes_witness :
  ∃ n' p, networkinterface_associate (udp_ops Udp.demo_name false) demo_net (compatsocket_fromLegacySocket 8) = Some n' ∧
    packets demo_store !! 1 = Some p ∧ find_socket (iface demo_net) p = Some (mkCompat CST_NONE 0) ∧
    find_socket (iface n') p = Some (compatsocket_fromLegacySocket 8).
Proof.
  destruct (networkinterface_associate (udp_ops Udp.demo_name false) demo_net (compatsocket_fromLegacySocket 8))
    as [n'|] eqn:E; [|by vm_compute in E].
  destruct (packets demo_store !! 1) as [p|] eqn:Ep; [|by vm_compute in Ep]. exists n', p.
  assert (protocol p = PUDP ∧ packet_getDestinationPort p = Some 40 ∧ packet_getSourceIP p = Some 10 ∧
          packet_getSourcePort p = Some 20 ∧ find_socket (iface demo_net) p = Some (mkCompat CST_NONE 0))
    as (E0 & E1 & E2 & E3 & E4) by (vm_compute in Ep; injection Ep as <-; by vm_compute).
  split; [done|]. split; [done|]. split; [done|].
  rewrite (associate_demultiplexes (udp_ops Udp.demo_name false) demo_net n' 8 Udp.demo_receiver PUDP 30 40 0 0 p 40 10 20);
    [|by vm_compute..|exact E|exact E1|exact E2|exact E3].
  by rewrite decide_True by (by rewrite E0).
Defined.

End NetworkInterface.
