(* ===== verification/InterfaceSafety.v ===== *)
(** * The accounts of a network interface

    Over every interleaving of arrivals, requests to send, refills, time and
    activity of the rest of the host, an interface keeps its references to
    packets and sockets in order, and the bandwidth limits hold.  For any
    sockets and router queues that meet their interfaces. *)

From S2P Require Import Prelude Float64 Cpu PriorityQueue Event Packet RouterQueue Router Descriptor Socket Udp CompatSocket SocketWorld Inet NetworkInterface.

Module InterfaceSafety.
Import Pkt CompatSocket SocketWorld Inet NetworkInterface.

(** ** Token buckets *)

(** The bytes of the packets, where a packet counts as at most one MTU. *)
Definition usage (sizes : list Z) : Z := foldr (λ len total, Z.min CONFIG_MTU len + total) 0 sizes.

Lemma usage_app l l' : usage (l ++ l') = usage l + usage l'.
Proof. induction l as [|x l IH]; cbn; [done|]. unfold usage in *. cbn. rewrite IH. lia. Qed.

(** The bytes of the packets outside of the bootstrapping phase. *)
Definition limited (l : list (bool * Z)) : list Z := omap (λ e : bool * Z, if e.1 then None else Some e.2) l.

Lemma limited_snoc l (bootstrapping : bool) len :
  usage (limited (l ++ [(bootstrapping, len)])) =
  usage (limited l) + if bootstrapping then 0 else Z.min CONFIG_MTU len.
Proof. unfold limited. rewrite omap_app, usage_app. destruct bootstrapping; cbn; lia. Qed.

(** After [count] refills of an empty bucket by [rate] tokens each, [total]
    tokens were used. *)
Record bucket_ok (rate : Z) (b : NetworkInterfaceTokenBucket) (total count : Z) : Prop := {
  bo_remaining : 0 ≤ bytesRemaining b ≤ bytesCapacity b;
  bo_refill : bytesRefill b = rate ∧ 0 ≤ rate;
  bo_width : bytesCapacity b + rate < 2 ^ 64;
  bo_total : total + bytesRemaining b ≤ count * rate;
  bo_used : 0 ≤ total;
}.

Lemma refill_bucket rate b total count :
  bucket_ok rate b total count → bucket_ok rate (_networkinterface_refillTokenBucket b) total (count + 1).
Proof.
  intros [H1 [H2 H2'] H3 H4 H5]. unfold _networkinterface_refillTokenBucket. cbn. rewrite u64_small by lia.
  destruct (Z.ltb_spec (bytesCapacity b) (bytesRemaining b + bytesRefill b)); split; cbn; lia.
Qed.

Lemma consume_bucket rate b total count len :
  bucket_ok rate b total count → CONFIG_MTU ≤ bytesRemaining b → 0 ≤ len →
  bucket_ok rate (_networkinterface_consumeTokenBucket b len) (total + Z.min CONFIG_MTU len) count.
Proof.
  intros [H1 H2 H3 H4 H5] Hm Hl. unfold _networkinterface_consumeTokenBucket, CONFIG_MTU in *.
  destruct (Z.leb_spec (bytesRemaining b) len); split; cbn; lia.
Qed.

(** A packet that is larger than what the bucket holds costs no more than that:
    the rest of its bytes is free. *)
Lemma oversized_packet_underpaid b len :
  CONFIG_MTU ≤ bytesRemaining b < len →
  _networkinterface_consumeTokenBucket b len = mkBucket (bytesCapacity b) 0 (bytesRefill b).
Proof. intros H. unfold _networkinterface_consumeTokenBucket. by rewrite (proj2 (Z.leb_le _ _)) by lia. Qed.

(** Who has tokens was refilled. *)
Lemma bucket_refilled rate b total count : bucket_ok rate b total count → 0 < bytesRemaining b → 0 ≤ count → 0 < count.
Proof. intros [H1 H2 H3 H4 H5] Hr Hc. nia. Qed.

(** ** When refills happen *)

Definition refill_times (l : list (Z * Task)) : list Z :=
  l ≫= λ t, match t.2 with RefillTokenBuckets => [t.1] | ReceivePacket _ => [] end.

Definition task_refs (l : list (Z * Task)) : list Z :=
  l ≫= λ t, match t.2 with RefillTokenBuckets => [] | ReceivePacket packet => [packet] end.

#[global] Arguments refill_times : simpl never.
#[global] Arguments task_refs : simpl never.

Abbreviation interval := _networkinterface_getRefillInterval.

Section Refills.
Context {S Q : Type}.
Implicit Types (n : Net S Q).

Abbreviation started n := (timeStartedRefillingBuckets (iface n)).

(** The next refill, if one is pending, happens a whole number of intervals
    after the start. *)
Record refill_ok n : Prop := {
  ro_pending : if isRefillPending (iface n)
               then ∃ j, refill_times (tasks n) = [started n + j * interval] ∧
                         refills n ≤ j ∧ now (clock n) ≤ started n + j * interval ∧
                         started n + j * interval ≤ now (clock n) + interval
               else refill_times (tasks n) = [];
  ro_count : if decide (refills n = 0) then isRefillPending (iface n) = false
             else 0 < refills n ∧ started n ≤ now (clock n) ∧ (refills n - 1) * interval ≤ now (clock n) - started n;
  ro_clock : schedulerIsRunning (clock n) = true ∧ 0 ≤ started n ∧ 0 ≤ now (clock n) ∧ now (clock n) + interval < 2 ^ 64;
}.

Lemma refill_same n n' :
  refill_times (tasks n') = refill_times (tasks n) → clock n' = clock n → refills n' = refills n →
  isRefillPending (iface n') = isRefillPending (iface n) → started n' = started n → refill_ok n → refill_ok n'.
Proof. intros E1 E2 E3 E4 E5 [H1 H2 H3]. split; by rewrite ?E1, ?E2, ?E3, ?E4, ?E5. Qed.

Definition full (b : NetworkInterfaceTokenBucket) : Prop := bytesRemaining b = bytesCapacity b.

(** Once refills have started, a bucket with room has a refill pending. *)
Definition refill_live n : Prop :=
  refills n = 0 ∨ isRefillPending (iface n) = true ∨ full (sendBucket (iface n)) ∧ full (receiveBucket (iface n)).

Lemma interval_pos : 0 < interval.
Proof. done. Qed.

Lemma schedule_needed n rate1 rate2 total1 total2 :
  refill_ok n → 0 < refills n →
  bucket_ok rate1 (sendBucket (iface n)) total1 (refills n) →
  bucket_ok rate2 (receiveBucket (iface n)) total2 (refills n) →
  let n' := _networkinterface_scheduleNextRefillIfNeeded n in
  refill_ok n' ∧ refill_live n' ∧
  (n' = n ∨ ∃ t, n' = n <| tasks := tasks n ++ [(t, RefillTokenBuckets)] |>
                        <| iface := (iface n) <| isRefillPending := true |> |>).
Proof.
  intros [Hp Hc Hk] Hr Hs Hv n'. unfold n', _networkinterface_scheduleNextRefillIfNeeded. clear n'.
  destruct (_networkinterface_isRefillNeeded (iface n)) eqn:E.
  - unfold _networkinterface_isRefillNeeded in E. apply andb_true_iff in E as [_ E]. apply negb_true_iff in E.
    rewrite E in Hp. rewrite decide_False in Hc by lia. destruct Hc as (_ & Hc1 & Hc2).
    unfold _networkinterface_scheduleNextRefill, _networkinterface_scheduleRefillTask, worker_scheduleTask.
    rewrite (proj1 Hk).
    pose proof interval_pos as Hi. set (i := interval) in *.
    rewrite (u64_small (now (clock n) - started n)) by lia.
    pose proof (Z.mod_pos_bound (now (clock n) - started n) i Hi).
    pose proof (Z.div_mod (now (clock n) - started n) i ltac:(lia)) as Hd.
    rewrite u64_small by lia. split; [|split; [by right; left|right; by eexists]].
    split; cbn; fold i; [|rewrite decide_False by lia; done|done].
    set (j := (now (clock n) - started n) / i) in *. exists (j + 1).
    unfold refill_times in *. rewrite bind_app, Hp. cbn. split; [f_equal; lia|]. split; [|split; lia].
    assert (refills n - 1 ≤ j); [|lia]. unfold j. apply Z.div_le_lower_bound; [done|]. lia.
  - split; [done|]. split; [|by left]. right. unfold _networkinterface_isRefillNeeded, needs_refill in E.
    destruct (isRefillPending (iface n)); [by left|]. right. rewrite andb_true_r in E. apply orb_false_iff in E as [E1 E2].
    apply Z.ltb_ge in E1, E2. destruct Hs as [? _ _ _ _], Hv as [? _ _ _ _]. unfold full. lia.
Qed.

End Refills.

(** ** The invariant *)

Section Invariant.
Context {S Q : Type} (ops : SocketOps S) (g_renew : Z → nat → Z).
Context (address_ipToNewString : Z → string) (traceOn : bool) (rand_r : Z → Z * Z) (paths : Paths).
Context (contents out : S → list Z) (refs : S → Z) (ok : Store → S → Prop)
  `{!SocketLaws traceOn ops contents out refs ok}.
Context (hooks : RQ.QueueManagerHooks Q) (waiting : Q → list Z) (rok : Store → Z → Q → Prop)
  `{!RQ.QueueManagerLaws traceOn hooks waiting rok}.
(** The interface's address, whether it has a router, and the bytes of a
    refill. *)
Context (addr : Z) (remote : bool) (up down : Z).
Implicit Types (n : Net S Q) (i : NetworkInterface Q) (w : World S).

Abbreviation held := (Pkt.held traceOn).

(** A packet that the interface knows how to send. *)
Definition sendable (p : Packet) : Prop :=
  protocol p ≠ PNONE ∧ (packet_getDestinationIP p = Some addr ∨ remote = true ∧ routable paths p).

Lemma sendable_headers p p' : protocol p' = protocol p → header p' = header p → sendable p → sendable p'.
Proof.
  intros E1 E2. unfold sendable, routable, packet_getDestinationIP, packet_getSourceIP. by rewrite E1, E2.
Qed.

Definition addressed (p : Packet) : Prop := protocol p ≠ PNONE.

Lemma addressed_headers p p' : protocol p' = protocol p → header p' = header p → addressed p → addressed p'.
Proof. unfold addressed. by intros ->. Qed.

(** What is known of the headers of the packets that a socket sends. *)
Section Senders.
Context (good : Z → Packet → Prop)
  (good_headers : ∀ a p p', protocol p' = protocol p → header p' = header p → good a p → good a p').

Abbreviation world_ok := (SocketWorld.world_ok traceOn contents out refs ok good).
Abbreviation socket_packets := (SocketWorld.socket_packets contents).
Abbreviation socket_output := (SocketWorld.socket_output out).

(** The sockets in the queue of the discipline in use; the other queue is
    empty. *)
Definition queued i : list Z :=
  match qdisc i with
  | Q_DISC_MODE_ROUND_ROBIN => untagged (rrQueue i)
  | Q_DISC_MODE_FIFO => untagged (PQ.elements (fifoQueue i))
  end.

Definition queue_ok i : Prop :=
  all_tagged (rrQueue i) ∧ fifo_wf (fifoQueue i) ∧ NoDup (queued i) ∧
  match qdisc i with
  | Q_DISC_MODE_ROUND_ROBIN => PQ.elements (fifoQueue i) = []
  | Q_DISC_MODE_FIFO => rrQueue i = []
  end.

Definition bound_refs i : list Z := untagged (snd <$> map_to_list (boundSockets i)).

Definition router_refs i : list Z :=
  match router i with Some r => waiting (Router.queueManager r) | None => [] end.

(** References to packets outside of the sockets; [env] are those of the rest
    of the host and of the deliveries under way to it. *)
Definition outside n (env : list Z) : list Z :=
  router_refs (iface n) ++ task_refs (tasks n) ++ (packetCopy <$> inflight n) ++ env.

Definition all_ready w (l : list Z) : Prop := ∀ a s, a ∈ l → sockets w !! a = Some s → out s ≠ [].

(** The heap of the fifo discipline compares the next packets of its sockets. *)
Definition ready i w : Prop := qdisc i = Q_DISC_MODE_FIFO → all_ready w (queued i).

Definition router_ok n : Prop :=
  match router (iface n) with
  | Some r => Router.queueHooks r = hooks ∧ rok (store (world n)) (now (clock n)) (Router.queueManager r) ∧ remote = true
  | None => remote = false
  end.

(** [k] counts the references to sockets that the rest of the host has. *)
Record net_ok (k : Z → Z) n (env : list Z) : Prop := {
  no_world : world_ok k (world n) (queued (iface n) ++ bound_refs (iface n)) (outside n env);
  no_queue : queue_ok (iface n);
  no_ready : ready (iface n) (world n);
  no_bound : all_tagged (snd <$> map_to_list (boundSockets (iface n)));
  no_router : router_ok n;
  no_address : address (iface n) = addr;
  no_headers : Forall (live_good addressed (store (world n))) (router_refs (iface n) ++ task_refs (tasks n));
  no_send : bucket_ok up (sendBucket (iface n)) (usage (limited (sent n))) (refills n);
  no_receive : bucket_ok down (receiveBucket (iface n)) (usage (limited (received n))) (refills n);
  no_refill : refill_ok n;
}.

(** The number of references to packets. *)
Definition nrefs n (env : list Z) : nat := List.length (socket_packets (sockets (world n)) ++ outside n env).

Lemma headers_views st st' l :
  wf st → same_sizes st st' l → Forall (live_good addressed st) l → Forall (live_good addressed st') l.
Proof.
  unfold same_sizes. rewrite !Forall_forall. intros Hwf Hs Hg a Ha.
  apply (live_good_view addressed st); [exact addressed_headers|..]; auto.
Qed.

(** The world of packets and sockets changes. *)
Lemma net_world k n env w' env' :
  net_ok k n env → world_ok k w' (queued (iface n) ++ bound_refs (iface n)) (outside n env') →
  same_sizes (store (world n)) (store w') (router_refs (iface n) ++ task_refs (tasks n)) →
  same_out out (world n) w' → net_ok k (n <| world := w' |>) env'.
Proof.
  intros [Hw Hq Hr Hb Ho Ha Hh Hs Hv Hf] Hw' Hsz Hso. pose proof (held_wf _ _ _ (wo_held _ _ _ _ _ _ _ _ _ _ Hw)) as Hwf.
  split; try done; cbn.
  - intros Hm a s Hin E. destruct (Hso a s E) as (s0 & E0 & ->). by eapply Hr.
  - unfold router_ok, router_refs in *. cbn. destruct (router (iface n)) as [r|]; [|done].
    destruct Ho as (? & Hok & ?). split_and!; [done| |done]. eapply RQ.stable_law; [exact Hok| |done].
    eapply same_sizes_sub; [exact Hsz|]. solve_app_sub.
  - by eapply headers_views.
  - by apply (refill_same n).
Qed.

(** Only the store changes. *)
Lemma net_store k n env st' env' :
  net_ok k n env → held st' (socket_packets (sockets (world n)) ++ outside n env') →
  same_sizes (store (world n)) st' (socket_packets (sockets (world n)) ++ router_refs (iface n) ++ task_refs (tasks n)) →
  net_ok k (set_store n st') env'.
Proof.
  intros Hn Hh Hs. apply (net_world k n env); [done| | |].
  - eapply world_store; [exact _|exact good_headers|apply Hn|done|].
    eapply same_sizes_sub; [done|]. solve_app_sub.
  - eapply same_sizes_sub; [done|]. solve_app_sub.
  - intros b t E. by exists t.
Qed.

(** ** Receiving *)

Abbreviation sock := compatsocket_fromLegacySocket.

Lemma bound_socket k n env key t :
  net_ok k n env → boundSockets (iface n) !! key = Some t →
  ∃ a s, compatsocket_fromTagged t = Some (sock a) ∧ sockets (world n) !! a = Some s.
Proof.
  intros Hn E. assert (Hin : t ∈ snd <$> map_to_list (boundSockets (iface n))).
  { apply list_elem_of_fmap. exists (key, t). by rewrite elem_of_map_to_list. }
  destruct (no_bound _ _ _ Hn t Hin) as (a & Ha & ->).
  assert (is_Some (sockets (world n) !! a)) as [s Es].
  { apply (wo_live _ _ _ _ _ _ _ _ _ _ (no_world _ _ _ Hn)). rewrite count_app.
    assert (a ∈ bound_refs (iface n)) as Hb%count_pos.
    { unfold bound_refs. apply elem_of_untagged; [by eapply no_bound|done|done]. }
    pose proof (count_nonneg (queued (iface n)) a). pose proof (wo_others _ _ _ _ _ _ _ _ _ _ (no_world _ _ _ Hn) a). lia. }
  exists a, s. by rewrite fromTagged_aligned.
Qed.

Lemma lookup_ok k n env key :
  net_ok k n env →
  ∃ socket, _boundsockets_lookup (boundSockets (iface n)) key = Some socket ∧
    (type socket = CST_NONE ∨ ∃ a s, socket = sock a ∧ sockets (world n) !! a = Some s).
Proof.
  intros Hn. unfold _boundsockets_lookup. destruct (_ !! key) as [t|] eqn:E; [|eexists; split; [done|by left]].
  destruct (bound_socket k n env key t Hn E) as (a & s & Ef & Es). exists (sock a). split; [done|]. right. by exists a, s.
Qed.

Lemma find_socket_ok k n env p :
  net_ok k n env → header_ok p → addressed p →
  ∃ socket, find_socket (iface n) p = Some socket ∧
    (type socket = CST_NONE ∨ ∃ a s, socket = sock a ∧ sockets (world n) !! a = Some s).
Proof.
  intros Hn Hh Ha. unfold find_socket.
  assert (is_Some (packet_getDestinationPort p) ∧ is_Some (packet_getSourceIP p) ∧ is_Some (packet_getSourcePort p))
    as ([dp ->] & [si ->] & [sp ->]).
  { unfold header_ok, addressed, packet_getDestinationPort, packet_getSourceIP, packet_getSourcePort in *.
    destruct (protocol p), (header p); try done; split_and!; by eexists. }
  cbn [mbind option_bind].
  destruct (lookup_ok k n env (_networkinterface_getAssociationKey (iface n) (packet_getProtocol p) dp 0 0) Hn)
    as (socket & -> & Hs). cbn [mbind option_bind].
  case_decide; [|by exists socket]. by eapply lookup_ok.
Qed.

(** A packet of the environment goes to its socket or is dropped. *)
Lemma receivePacket_ok k n env p :
  net_ok k n env → p ∈ outside n env → live_good addressed (store (world n)) p → Z.of_nat (nrefs n env) < UINT32_MAX →
  ∃ n', _networkinterface_receivePacket ops address_ipToNewString traceOn n p = Some n' ∧ net_ok k n' env ∧
    (∃ w, n' = n <| world := w |>) ∧ (nrefs n' env ≤ nrefs n env + 1)%nat ∧ same_views (store (world n)) (store (world n')) ∧
    List.length (socket_output (sockets (world n'))) = List.length (socket_output (sockets (world n))).
Proof.
  intros Hn Hp Hg Hlen. unfold _networkinterface_receivePacket, addDeliveryStatus.
  pose proof (wo_held _ _ _ _ _ _ _ _ _ _ (no_world _ _ _ Hn)) as Hh.
  assert (Hin : p ∈ socket_packets (sockets (world n)) ++ outside n env) by (apply elem_of_app; by right).
  destruct (held_status address_ipToNewString traceOn _ _ p PDS_RCV_INTERFACE_RECEIVED Hh Hin) as (st1 & -> & Hh1 & Hv1).
  cbn [mbind option_bind].
  assert (Hn1 : net_ok k (set_store n st1) env) by (apply (net_store k n env); [done|done|by apply same_sizes_all]).
  destruct Hg as (pk & Epk & Hg). destruct (view_packet _ _ _ _ (held_wf _ _ _ Hh) (Hv1 p) Epk) as (pk1 & Epk1 & E1 & E2).
  cbn. rewrite Epk1. cbn [mbind option_bind].
  destruct (find_socket_ok k (set_store n st1) env pk1 Hn1) as (socket & Es & Hsock).
  { by apply (header_packet_ok st1 p pk1); [eapply held_wf|]. }
  { unfold addressed. by rewrite E1. }
  cbn in Es. rewrite Es. cbn [mbind option_bind]. destruct Hsock as [Et|(a & s & -> & Ea)].
  - rewrite decide_True by done.
    destruct (held_status address_ipToNewString traceOn _ _ p PDS_RCV_INTERFACE_DROPPED Hh1 Hin) as (st2 & E3 & Hh2 & Hv2).
    cbn. rewrite E3. cbn [mbind option_bind]. eexists. split; [done|]. split; [|split; [by eexists|split; [|split]]].
    + apply (net_store k (set_store n st1) env); [done|done|by apply same_sizes_all].
    + unfold nrefs, outside. cbn. lia.
    + cbn. apply all_views; [by eapply held_wf|]. intros b. by rewrite Hv2.
    + done.
  - rewrite decide_False by done. cbn in Ea.
    destruct (push_in_ok traceOn ops contents out refs ok good good_headers k (world (set_store n st1)) _ _ a s p
      (no_world _ _ _ Hn1) Ea Hp Hlen) as (w' & Ep & Hw' & Hv & Hso & Hlo & Hlp).
    cbn in Ep |- *. rewrite Ep. cbn [mbind option_bind].
    eexists. split; [done|]. split; [|split; [by eexists|split; [|split]]].
    + apply (net_world k (set_store n st1) env); [done|done| |done]. apply Forall_forall. intros x Hx. apply Hv.
      destruct (held_in _ _ _ x Hh1) as (y & Ey & _); [|by eexists]. unfold outside. rewrite !elem_of_app in *. tauto.
    + unfold nrefs. cbn. rewrite !length_app in *. cbn in Hlp. unfold outside in *. cbn in *. lia.
    + etrans; [by apply all_views; [eapply held_wf|]|done].
    + exact Hlo.
Qed.

(** A reference of the environment is given back. *)
Lemma unref_packet_ok k n env p :
  net_ok k n (p :: env) →
  ∃ n', packet_unref address_ipToNewString traceOn n p = Some n' ∧ net_ok k n' env ∧
    (∃ w, n' = n <| world := w |> ∧ sockets w = sockets (world n)) ∧ (nrefs n' env + 1 = nrefs n (p :: env))%nat.
Proof.
  intros Hn. unfold packet_unref. pose proof (wo_held _ _ _ _ _ _ _ _ _ _ (no_world _ _ _ Hn)) as Hh.
  assert (Hp : ∀ e, socket_packets (sockets (world n)) ++ outside n (p :: e) ≡ₚ
               p :: socket_packets (sockets (world n)) ++ outside n e).
  { intros e. unfold outside. solve_app_perm. }
  eapply held_Permutation in Hh; [|apply Hp].
  destruct (held_unref address_ipToNewString traceOn _ _ p Hh) as (st & -> & Hh' & Hs). cbn [mbind option_bind].
  exists (set_store n st). split; [done|]. split; [|split; [by eexists|]].
  - apply (net_store k n (p :: env)); [done|done|]. eapply same_sizes_sub; [exact Hs|]. unfold outside. solve_app_sub.
  - unfold nrefs. cbn. rewrite (Permutation_length (Hp env)). cbn. unfold outside. cbn. lia.
Qed.

(** The router gives a packet to the interface. *)
Lemma router_dequeue_ok k n env r :
  net_ok k n env → router (iface n) = Some r →
  ∃ n' p, router_dequeue address_ipToNewString traceOn n r = Some (n', p) ∧ net_ok k n' (RQ.returned p ++ env) ∧
    (∃ st r', n' = (set_store n st) <| iface := (iface n) <| router := Some r' |> |>) ∧
    (nrefs n' (RQ.returned p ++ env) ≤ nrefs n env)%nat ∧
    (p ≠ 0 → live_good addressed (store (world n')) p ∧
             (List.length (router_refs (iface n')) < List.length (router_refs (iface n)))%nat).
Proof.
  intros Hn Er. pose proof (wo_held _ _ _ _ _ _ _ _ _ _ (no_world _ _ _ Hn)) as Hh.
  pose proof (no_router _ _ _ Hn) as Hr. unfold router_ok in Hr. rewrite Er in Hr. destruct Hr as (Hk & Hok & Hrem).
  set (rest := socket_packets (sockets (world n)) ++ task_refs (tasks n) ++ (packetCopy <$> inflight n) ++ env).
  assert (Hp : socket_packets (sockets (world n)) ++ outside n env ≡ₚ waiting (Router.queueManager r) ++ rest).
  { unfold outside, router_refs, rest. rewrite Er. solve_app_perm. }
  eapply held_Permutation in Hh; [|exact Hp].
  destruct (Router.dequeue_ok address_ipToNewString traceOn waiting rok hooks _ _ r rest Hk Hh Hok)
    as (st & r' & p & dropped & E & Hk' & Ec & H0 & Hh' & Hok' & Hs).
  unfold router_dequeue. rewrite E. cbn [mbind option_bind]. eexists _, p. split; [done|].
  set (n' := (set_store n st) <| iface := (iface n) <| router := Some r' |> |>).
  assert (Hp' : socket_packets (sockets (world n)) ++ outside n' (RQ.returned p ++ env) ≡ₚ
                waiting (Router.queueManager r') ++ RQ.returned p ++ rest).
  { unfold outside, router_refs, rest, n'. cbn. solve_app_perm. }
  assert (Hsub : RQ.returned p ++ waiting (Router.queueManager r') ⊆ router_refs (iface n)).
  { unfold router_refs. rewrite Er, Ec. solve_app_sub. }
  assert (Hhead : ∀ l, l ⊆ RQ.returned p ++ waiting (Router.queueManager r') ++ task_refs (tasks n) →
                  Forall (live_good addressed st) l).
  { intros l Hl. eapply (headers_views (store (world n))); [eapply held_wf; exact Hh| |].
    - eapply same_sizes_sub; [exact Hs|]. etrans; [exact Hl|]. unfold rest. solve_app_sub.
    - pose proof (no_headers _ _ _ Hn) as Hg. rewrite Forall_forall in *. intros x Hx%Hl. apply Hg.
      rewrite !elem_of_app in *. specialize (Hsub x). rewrite elem_of_app in Hsub. tauto. }
  split; [|split; [by eexists _, _|split]].
  - destruct Hn as [Hw Hq Hrd Hb Ho Ha Hhd Hsd Hv Hf]. split; try done.
    + change (world n') with ((world n) <| store := st |>).
      eapply world_store; [exact _|exact good_headers|exact Hw| |].
      * eapply held_Permutation; [symmetry; exact Hp'|exact Hh'].
      * eapply same_sizes_sub; [exact Hs|]. unfold rest. solve_app_sub.
    + unfold n', router_refs. cbn. apply Hhead. solve_app_sub.
    + by apply (refill_same n).
  - unfold nrefs. change (sockets (world n')) with (sockets (world n)). rewrite (Permutation_length Hp), (Permutation_length Hp'), Ec. rewrite !length_app. lia.
  - intros Hne. split.
    + assert (Hin : Forall (live_good addressed st) (RQ.returned p)) by (apply Hhead; solve_app_sub).
      rewrite RQ.returned_nonzero in Hin by done. exact (Forall_inv Hin).
    + unfold n', router_refs. cbn. rewrite Er, Ec, (RQ.returned_nonzero p Hne), !length_app. cbn. lia.
Qed.

(** What all operations leave alone. *)
Record kept n n' : Prop := {
  ke_clock : clock n' = clock n;
  ke_refills : refills n' = refills n;
  ke_output : (List.length (socket_output (sockets (world n'))) ≤ List.length (socket_output (sockets (world n))))%nat;
  ke_live : refill_live n → refill_live n';
  ke_queued : queued (iface n') ⊆+ queued (iface n);
}.

#[local] Instance kept_preorder : PreOrder kept.
Proof.
  split; [by intros n|]. intros n1 n2 n3 [] []. split; [congruence|congruence|lia|auto|by etrans].
Qed.

Lemma refills_nonneg n : refill_ok n → 0 ≤ refills n.
Proof. intros [_ Hc _]. case_decide; lia. Qed.

Lemma net_scheduled k n env :
  net_ok k n env → 0 < refills n →
  let n' := _networkinterface_scheduleNextRefillIfNeeded n in
  net_ok k n' env ∧ refill_live n' ∧ kept n n' ∧ world n' = world n ∧ nrefs n' env = nrefs n env ∧
  router_refs (iface n') = router_refs (iface n).
Proof.
  intros Hn Hr n'. destruct Hn as [Hw Hq Hrd Hb Ho Ha Hhd Hsd Hv Hf].
  destruct (schedule_needed n _ _ _ _ Hf Hr Hsd Hv) as (Hf' & Hl & [E|[t E]]); fold n' in Hf', Hl, E; rewrite E in *; clear E n'.
  { split_and!; done. }
  assert (Ht : task_refs (tasks n ++ [(t, RefillTokenBuckets)]) = task_refs (tasks n)).
  { unfold task_refs. rewrite bind_app. cbn. by rewrite app_nil_r. }
  assert (Eo : outside (n <| tasks := tasks n ++ [(t, RefillTokenBuckets)] |>
                          <| iface := (iface n) <| isRefillPending := true |> |>) env = outside n env).
  { unfold outside. cbn. by rewrite Ht. }
  split; [|split; [done|split; [by split|split; [done|split; [|done]]]]].
  - split; try done; [by rewrite Eo|]. cbn. by rewrite Ht.
  - unfold nrefs. by rewrite Eo.
Qed.

Lemma wire_length_ok k n env p :
  net_ok k n env → p ∈ outside n env → ∃ len, wire_length n p = Some len ∧ 0 ≤ len.
Proof.
  intros Hn Hp. destruct (held_in _ _ _ p (wo_held _ _ _ _ _ _ _ _ _ _ (no_world _ _ _ Hn))) as (pk & E & _).
  { apply elem_of_app. by right. }
  unfold wire_length, packet_size. rewrite E. cbn [mbind option_bind].
  destruct (packet_length_ok _ _ _ (held_wf _ _ _ (wo_held _ _ _ _ _ _ _ _ _ _ (no_world _ _ _ Hn))) E) as [len ->].
  cbn [mbind option_bind]. eexists. split; [done|]. unfold u32. apply Z.mod_pos_bound. done.
Qed.

(** A packet is recorded; outside of the bootstrapping phase the tokens it costs
    are taken, and a refill is scheduled. *)
Lemma account_received_ok k n env len :
  net_ok k n env → 0 ≤ len → bootstrapping (clock n) = true ∨ CONFIG_MTU ≤ bytesRemaining (receiveBucket (iface n)) →
  let r := record_received n len in
  let n' := if bootstrapping (clock r) then r else consume_received r len in
  net_ok k n' env ∧ kept n n' ∧ world n' = world n ∧ nrefs n' env = nrefs n env ∧
  router_refs (iface n') = router_refs (iface n).
Proof.
  intros Hn Hl Hm r n'. unfold n'. clear n'. change (bootstrapping (clock r)) with (bootstrapping (clock n)).
  destruct (bootstrapping (clock n)) eqn:Eb.
  { split; [|by split_and!]. destruct Hn as [Hw Hq Hrd Hb Ho Ha Hhd Hsd Hv Hf]. split; try done; [|by apply (refill_same n)].
    cbn. by rewrite limited_snoc, Eb, Z.add_0_r. }
  destruct Hm as [?|Hm]; [done|]. unfold consume_received. set (n1 := r <| iface := _ |>).
  assert (Hr : 0 < refills n).
  { eapply bucket_refilled; [exact (no_receive _ _ _ Hn)|unfold CONFIG_MTU in Hm; lia|apply refills_nonneg, Hn]. }
  assert (Hn1 : net_ok k n1 env).
  { destruct Hn as [Hw Hq Hrd Hb Ho Ha Hhd Hsd Hv Hf]. split; try done; [|by apply (refill_same n)].
    unfold n1. cbn. rewrite limited_snoc, Eb. by apply consume_bucket. }
  destruct (net_scheduled k n1 env Hn1 Hr) as (Hn2 & Hlive & [] & Ew & En & Er). split_and!; try done.
Qed.

Lemma account_sent_ok k n env p :
  net_ok k n env → p ∈ outside n env → CONFIG_MTU ≤ bytesRemaining (sendBucket (iface n)) →
  ∃ n', (if bootstrapping (clock (record_sent n p)) then Some (record_sent n p)
         else length ← wire_length (record_sent n p) p; Some (consume_sent (record_sent n p) length)) = Some n' ∧
  net_ok k n' env ∧ kept n n' ∧ world n' = world n ∧ nrefs n' env = nrefs n env ∧
  router_refs (iface n') = router_refs (iface n).
Proof.
  intros Hn Hp Hm. set (r := record_sent n p). destruct (wire_length_ok k n env p Hn Hp) as (len & Ew & Hl).
  change (wire_length r p) with (wire_length n p). change (bootstrapping (clock r)) with (bootstrapping (clock n)).
  unfold r, record_sent. rewrite Ew. cbn [default mbind option_bind]. destruct (bootstrapping (clock n)) eqn:Eb.
  { eexists. split; [done|]. split; [|by split_and!].
    destruct Hn as [Hw Hq Hrd Hb Ho Ha Hhd Hsd Hv Hf]. split; try done; [|by apply (refill_same n)].
    cbn. by rewrite limited_snoc, Z.add_0_r. }
  eexists. split; [done|]. unfold consume_sent. set (n1 := _ <| iface := _ |>).
  assert (Hr : 0 < refills n).
  { eapply bucket_refilled; [exact (no_send _ _ _ Hn)|unfold CONFIG_MTU in Hm; lia|apply refills_nonneg, Hn]. }
  assert (Hn1 : net_ok k n1 env).
  { destruct Hn as [Hw Hq Hrd Hb Ho Ha Hhd Hsd Hv Hf]. split; try done; [|by apply (refill_same n)].
    unfold n1. cbn. rewrite limited_snoc. by apply consume_bucket. }
  destruct (net_scheduled k n1 env Hn1 Hr) as (Hn2 & Hlive & [] & Ew' & En & Er). split_and!; try done.
Qed.

(** The loop of [networkinterface_receivePackets] ends. *)
Lemma receive_loop_ok k fuel n env r :
  net_ok k n env → router (iface n) = Some r → (List.length (router_refs (iface n)) < fuel)%nat →
  Z.of_nat (nrefs n env) < UINT32_MAX →
  ∃ n', receive_loop ops address_ipToNewString traceOn fuel n = Some n' ∧ net_ok k n' env ∧
    (nrefs n' env ≤ nrefs n env)%nat ∧ kept n n'.
Proof.
  revert n r. induction fuel as [|fuel IH]; intros n r Hn Er Hf Hlen; [lia|]. cbn [receive_loop].
  destruct (bootstrapping (clock n) || (CONFIG_MTU <=? bytesRemaining (receiveBucket (iface n)))) eqn:Eg; [|by exists n].
  rewrite Er. cbn [mbind option_bind].
  destruct (router_dequeue_ok k n env r Hn Er) as (n1 & p & -> & Hn1 & (st & r1 & En1) & Hl1 & Hp). cbn [mbind option_bind].
  assert (Hk1 : kept n n1) by (subst n1; by split).
  destruct (Z.eqb_spec p 0) as [->|Hne]; [by exists n1|]. destruct (Hp Hne) as [Hg Hlt].
  rewrite (RQ.returned_nonzero p Hne) in Hn1, Hl1. cbn [app] in Hn1, Hl1.
  assert (Hin : p ∈ outside n1 (p :: env)) by (unfold outside; rewrite !elem_of_app; right; right; right; left).
  destruct (wire_length_ok k n1 _ p Hn1 Hin) as (len & -> & Hlen0). cbn [mbind option_bind].
  destruct (receivePacket_ok k n1 _ p Hn1 Hin Hg ltac:(lia)) as (n2 & -> & Hn2 & (w2 & En2) & Hl2 & _ & Hout).
  cbn [mbind option_bind].
  destruct (unref_packet_ok k n2 env p Hn2) as (n3 & -> & Hn3 & (w3 & En3 & Es3) & Hl3). cbn [mbind option_bind].
  assert (Hk3 : kept n n3).
  { etrans; [exact Hk1|]. subst n2 n3. split; try done. cbn in *. rewrite Es3. cbn in Hout. by rewrite Hout. }
  assert (Er3 : router_refs (iface n3) = router_refs (iface n1)) by by subst n2 n3.
  assert (Eb : receiveBucket (iface n3) = receiveBucket (iface n)) by by subst n1 n2 n3.
  assert (Ec : clock n3 = clock n) by apply Hk3.
  assert (Ero : router (iface n3) = Some r1) by by subst n1 n2 n3.
  assert (Eg3 : bootstrapping (clock n3) = true ∨ CONFIG_MTU ≤ bytesRemaining (receiveBucket (iface n3))).
  { rewrite Ec, Eb. apply orb_true_iff in Eg as [Eg|Eg]; [by left|right; by apply Z.leb_le]. }
  destruct (account_received_ok k n3 env len Hn3 Hlen0 Eg3) as (Hn4 & Hk4 & _ & En4 & Er4).
  cbv zeta in *. set (n4 := if bootstrapping _ then _ else _) in *.
  assert (∃ r4, router (iface n4) = Some r4) as [r4 Ero4].
  { pose proof (no_router _ _ _ Hn4) as Ho4. pose proof (no_router _ _ _ Hn) as Ho. unfold router_ok in *.
    rewrite Er in Ho. destruct (router (iface n4)); [by eexists|]. destruct Ho as (_ & _ & ?). congruence. }
  destruct (IH n4 r4 Hn4 Ero4 ltac:(rewrite Er4, Er3; lia) ltac:(lia)) as (n5 & -> & Hn5 & Hl5 & Hk5).
  exists n5. split; [done|]. split; [done|]. split; [lia|]. etrans; [exact Hk3|]. by etrans.
Qed.

Lemma receivePackets_ok k fuel n env :
  net_ok k n env → (List.length (router_refs (iface n)) < fuel)%nat → Z.of_nat (nrefs n env) < UINT32_MAX →
  ∃ n', networkinterface_receivePackets ops address_ipToNewString traceOn fuel n = Some n' ∧ net_ok k n' env ∧
    (nrefs n' env ≤ nrefs n env)%nat ∧ kept n n'.
Proof.
  intros Hn Hf Hl. unfold networkinterface_receivePackets. destruct (router (iface n)) as [r|] eqn:Er; [|by exists n].
  by eapply receive_loop_ok.
Qed.

(** ** Sending *)

(** The socket that was popped has a packet. *)
Lemma select_found {F} (d : Discipline (World S) F) (queue : F → list Z) (wf : F → Prop)
    `{!DisciplineLaws d queue wf} k fuel w q q1 R l a s :
  world_ok k w (a :: queue q1 ++ R) l → wf q1 → a ∉ queue q1 → NoDup (queue q1) → queue q ≡ₚ a :: queue q1 → aligned a →
  sockets w !! a = Some s → out s ≠ [] →
  ∃ w' q' p, ('(w, packet) ← compatsocket_pullOutPacket ops w (sock a);
      next ← compatsocket_peekNextOutPacket ops w (sock a);
      '(w, queue) ← (if negb (next =? 0) then queue ← d_push d w q1 (sock a); Some (w, queue)
                     else w ← compatsocket_unref ops w (sock a); Some (w, q1));
      if packet =? 0 then select ops d fuel w queue else Some (w, queue, packet)) = Some (w', q', p) ∧
    world_ok k w' (queue q' ++ R) (RQ.returned p ++ l) ∧
    wf q' ∧ NoDup (queue q') ∧ (all_ready w (queue q) → all_ready w' (queue q')) ∧ queue q' ⊆+ queue q ∧
    same_sizes (store w) (store w') l ∧
    (List.length (socket_packets (sockets w')) + List.length (RQ.returned p) ≤ List.length (socket_packets (sockets w)))%nat ∧
    (List.length (socket_output (sockets w')) + List.length (RQ.returned p) ≤ List.length (socket_output (sockets w)))%nat ∧
    (p ≠ 0 → ∃ a, a ∈ queue q ∧ live_good (good a) (store w') p).
Proof.
  intros Hw1 Hwf1 Hni Hnd1 Hp Hal Es Hne.
  assert (Ha : a ∈ queue q) by (rewrite Hp; left).
  destruct (pull_ok traceOn ops contents out refs ok good good_headers k w _ l a s Hw1 Es Hne)
    as (s' & p & -> & Eo & El & Hp0 & Hg & Hw2). cbn [mbind option_bind].
  set (w2 := mkWorld (store w) (<[a:=s']> (sockets w))) in *.
  assert (Es2 : sockets w2 !! a = Some s') by apply lookup_insert_eq.
  rewrite (peek_ok traceOn ops contents out refs ok w2 a s' Es2). cbn [mbind option_bind].
  pose proof (packets_size contents out (sockets w) a s s' Es) as (Hs1 & _ & Hs2 & _). rewrite Eo in Hs2. cbn in Hs2.
  assert (Hrd1 : all_ready w (queue q) → ∀ b t, b ∈ queue q1 → sockets w2 !! b = Some t → out t ≠ []).
  { intros Hrd b t Hb. unfold w2. cbn. rewrite lookup_insert_ne by (intros ->; by apply Hni).
    apply Hrd. rewrite Hp. by right. }
  pose proof (RQ.returned_nonzero p Hp0) as Erp. rewrite (proj2 (Z.eqb_neq p 0) Hp0).
  destruct (out s') as [|p' rest] eqn:Eo'; cbn [hd].
  - cbn [Z.eqb negb]. destruct (unref_ok traceOn ops contents out refs ok good good_headers k w2 _ _ a Hw2)
      as (w3 & -> & Hw3 & Hsz & Hso & Hlo & Hlp). cbn [mbind option_bind]. exists w3, q1, p. rewrite Erp.
    split; [done|]. split; [done|]. split; [done|]. split; [done|]. split; [|split; [rewrite Hp; by apply submseteq_cons|split; [|split; [|split]]]].
    + intros Hrd b t Hb E. destruct (Hso b t E) as (t0 & E0 & ->). by eapply Hrd1.
    + eapply same_sizes_sub; [exact Hsz|solve_app_sub].
    + cbn in *. lia.
    + cbn in *. lia.
    + intros _. exists a. split; [done|]. eapply live_good_view; [exact (good_headers a)|exact (held_wf _ _ _ (wo_held _ _ _ _ _ _ _ _ _ _ Hw2))| |exact Hg].
      unfold same_sizes in Hsz. rewrite Forall_forall in Hsz. apply Hsz. left.
  - assert (p' ≠ 0).
    { destruct (held_in _ _ _ p' (wo_held _ _ _ _ _ _ _ _ _ _ Hw2)) as (pk & Ek & _).
      - apply elem_of_app. left. eapply in_all_packets; [exact Es2|]. apply (sl_out (ok := ok)). rewrite Eo'. left.
      - destruct (wf_packets _ (held_wf _ _ _ (wo_held _ _ _ _ _ _ _ _ _ _ Hw2)) _ _ Ek). lia. }
    rewrite (proj2 (Z.eqb_neq p' 0)) by done. cbn [negb].
    destruct (dl_push w2 q1 a Hwf1 Hal Hni) as (q2 & -> & Hwf2 & Hp2). cbn [mbind option_bind]. exists w2, q2, p. rewrite Erp.
    split; [done|]. split; [eapply world_perm; [| |exact Hw2]; [by rewrite Hp2|done]|].
    split; [done|]. split; [rewrite Hp2; by constructor|]. split; [|split; [by rewrite Hp, Hp2|split; [by apply same_sizes_all|split; [|split]]]].
    + intros Hrd b t. rewrite Hp2, elem_of_cons. intros [->|Hb]; [|by apply Hrd1]. rewrite Es2. intros [= <-]. by rewrite Eo'.
    + cbn in *. lia.
    + cbn in *. lia.
    + intros _. by exists a.
Qed.

(** A queuing discipline finds a packet, if a socket that waits has one. *)
Lemma select_ok {F} (d : Discipline (World S) F) (queue : F → list Z) (wf : F → Prop)
    `{!DisciplineLaws d queue wf} k fuel w q R l :
  world_ok k w (queue q ++ R) l → wf q → NoDup (queue q) → (List.length (queue q) ≤ fuel)%nat →
  ∃ w' q' p, select ops d fuel w q = Some (w', q', p) ∧ world_ok k w' (queue q' ++ R) (RQ.returned p ++ l) ∧
    wf q' ∧ NoDup (queue q') ∧ (all_ready w (queue q) → all_ready w' (queue q')) ∧ queue q' ⊆+ queue q ∧
    same_sizes (store w) (store w') l ∧
    (List.length (socket_packets (sockets w')) + List.length (RQ.returned p) ≤ List.length (socket_packets (sockets w)))%nat ∧
    (List.length (socket_output (sockets w')) + List.length (RQ.returned p) ≤ List.length (socket_output (sockets w)))%nat ∧
    (p ≠ 0 → ∃ a, a ∈ queue q ∧ live_good (good a) (store w') p).
Proof.
  revert w q. induction fuel as [|fuel IH]; intros w q Hw Hwf Hnd Hf; cbn [select]; rewrite (dl_empty q Hwf);
    case_bool_decide as Hq.
  1,3: exists w, q, 0; rewrite RQ.returned_0; split_and!; try done; [by apply same_sizes_all|cbn; lia..].
  { destruct (queue q); [done|cbn in Hf; lia]. }
  destruct (dl_pop w q Hwf Hq) as (q1 & a & -> & Hwf1 & Hp). cbn [mbind option_bind].
  assert (Ha : a ∈ queue q) by (rewrite Hp; left). pose proof (dl_aligned q a Hwf Ha) as Hal.
  assert (Hsub : queue q1 ⊆+ queue q) by (rewrite Hp; by apply submseteq_cons).
  rewrite Hp in Hnd. apply NoDup_cons in Hnd as [Hni Hnd1].
  assert (Hw1 : world_ok k w (a :: queue q1 ++ R) l) by (eapply world_perm; [| |exact Hw]; [by rewrite Hp|done]).
  assert (is_Some (sockets w !! a)) as [s Es].
  { apply (wo_live _ _ _ _ _ _ _ _ _ _ Hw1). rewrite count_cons, decide_True by done.
    pose proof (count_nonneg (queue q1 ++ R) a). pose proof (wo_others _ _ _ _ _ _ _ _ _ _ Hw1 a). lia. }
  destruct (decide (out s = [])) as [Eo|Hne].
  - rewrite (pull_empty_ok traceOn ops contents out refs ok good k w _ l a s Hw1 Es Eo). cbn [mbind option_bind].
    rewrite (peek_ok traceOn ops contents out refs ok w a s Es), Eo. cbn [mbind option_bind hd Z.eqb negb].
    destruct (unref_ok traceOn ops contents out refs ok good good_headers k w _ _ a Hw1)
      as (w3 & -> & Hw3 & Hsz & Hso & Hlo & Hlp). cbn [mbind option_bind].
    destruct (IH w3 q1 Hw3 Hwf1 Hnd1) as (w' & q' & p & -> & Hw' & Hwf' & Hnd' & _ & Hs' & Hsz' & Hlp' & Hlo' & Hg).
    { rewrite Hp in Hf. cbn in Hf. lia. }
    exists w', q', p. split_and!; try done.
    + intros Hrd. by destruct (Hrd a s Ha Es).
    + by etrans.
    + by eapply same_sizes_trans.
    + lia.
    + lia.
    + intros Hp0. destruct (Hg Hp0) as (b & Hb & ?). exists b. split; [|done]. rewrite Hp. by right.
  - by apply (select_found d queue wf k fuel w q q1 R l a s).
Qed.

(** The queue of the discipline in use changes. *)
Lemma net_queue k n env q1 q2 w' p :
  let i' := (iface n) <| rrQueue := q1 |> <| fifoQueue := q2 |> in
  net_ok k n env → queue_ok i' → world_ok k w' (queued i' ++ bound_refs (iface n)) (RQ.returned p ++ outside n env) →
  ready i' w' → same_sizes (store (world n)) (store w') (outside n env) →
  net_ok k (n <| world := w' |> <| iface := i' |>) (RQ.returned p ++ env).
Proof.
  intros i' [Hw Hq Hrd Hb Ho Ha Hhd Hsd Hv Hf] Hq' Hw' Hrd' Hs.
  pose proof (held_wf _ _ _ (wo_held _ _ _ _ _ _ _ _ _ _ Hw)) as Hwf. split; try done; cbn.
  - eapply world_perm; [| |exact Hw']; [done|]. unfold outside. cbn. change (router_refs i') with (router_refs (iface n)). solve_app_perm.
  - unfold router_ok, i' in *. cbn in *. unfold router_refs in *. destruct (router (iface n)) as [r|] eqn:Er; [|done].
    destruct Ho as (? & Hok & ?). split; [done|]. split; [|done]. eapply RQ.stable_law; [exact Hok| |done].
    eapply same_sizes_sub; [exact Hs|]. unfold outside, router_refs. rewrite Er. solve_app_sub.
  - eapply headers_views; [exact Hwf| |exact Hhd]. eapply same_sizes_sub; [exact Hs|]. unfold outside. solve_app_sub.
  - by apply (refill_same n).
Qed.

Lemma select_packet_ok k fuel n env :
  net_ok k n env → (List.length (queued (iface n)) ≤ fuel)%nat →
  ∃ n' p, select_packet ops g_renew fuel n = Some (n', p) ∧ net_ok k n' (RQ.returned p ++ env) ∧
    (nrefs n' (RQ.returned p ++ env) ≤ nrefs n env)%nat ∧ kept n n' ∧
    (List.length (socket_output (sockets (world n'))) + List.length (RQ.returned p) ≤
     List.length (socket_output (sockets (world n))))%nat ∧
    (p ≠ 0 → ∃ a, a ∈ queued (iface n) ∧ live_good (good a) (store (world n')) p) ∧
    sendBucket (iface n') = sendBucket (iface n) ∧ router_refs (iface n') = router_refs (iface n).
Proof.
  intros Hn Hf. pose proof (no_world _ _ _ Hn) as Hw. destruct (no_queue _ _ _ Hn) as (Ht & Hwf & Hnd & He).
  pose proof (no_ready _ _ _ Hn) as Hrd.
  unfold select_packet, _networkinterface_selectRoundRobin, _networkinterface_selectFirstInFirstOut.
  unfold ready in Hrd. unfold queued in *. destruct (qdisc (iface n)) eqn:Eq.
  - destruct (select_ok (fifo ops g_renew) _ _ k fuel _ _ _ _ Hw Hwf Hnd Hf)
      as (w' & q' & p & E & Hw' & Hwf' & Hnd' & Hrd' & Hl & Hs & Hlp & Hlo & Hg).
    cbv beta in E. rewrite E. cbn [mbind option_bind]. eexists _, p. split; [done|].
    split; [|split; [|split; [|split; [exact Hlo|split; [exact Hg|done]]]]].
    + apply (net_queue k n env (rrQueue (iface n)) q' w' p); unfold queue_ok, ready, queued; cbn; rewrite ?Eq; auto.
    + unfold nrefs, outside, router_refs in *. cbn in *. rewrite !length_app in *. lia.
    + split; try done; cbn; [lia|]. unfold queued. cbn. by rewrite Eq.
  - destruct (select_ok rr _ _ k fuel _ _ _ _ Hw Ht Hnd Hf)
      as (w' & q' & p & E & Hw' & Hwf' & Hnd' & Hrd' & Hl & Hs & Hlp & Hlo & Hg).
    rewrite E. cbn [mbind option_bind]. eexists _, p. split; [done|].
    split; [|split; [|split; [|split; [exact Hlo|split; [exact Hg|done]]]]].
    + apply (net_queue k n env q' (fifoQueue (iface n)) w' p); unfold queue_ok, ready, queued; cbn; rewrite ?Eq; done.
    + unfold nrefs, outside, router_refs in *. cbn in *. rewrite !length_app in *. lia.
    + split; try done; cbn; [lia|]. unfold queued. cbn. by rewrite Eq.
Qed.

(** A packet for the own address becomes a task. *)
Lemma send_local_ok k n env p :
  net_ok k n env → p ∈ outside n env → live_good addressed (store (world n)) p → Z.of_nat (nrefs n env) < UINT32_MAX →
  ∃ n', send_local address_ipToNewString traceOn n p = Some n' ∧ net_ok k n' env ∧ nrefs n' env = (nrefs n env + 1)%nat ∧ kept n n' ∧
    sendBucket (iface n') = sendBucket (iface n) ∧ router_refs (iface n') = router_refs (iface n).
Proof.
  intros Hn Hp Hg Hlen. unfold send_local. pose proof (wo_held _ _ _ _ _ _ _ _ _ _ (no_world _ _ _ Hn)) as Hh.
  pose proof Hg as (pk & Epk & _). pose proof (held_bound _ _ _ _ _ Hh Epk Hlen) as Hb.
  destruct (held_ref traceOn _ _ p pk Hh Epk Hb) as (st & -> & Hh' & Hv & _). cbn [mbind option_bind].
  assert (Hrun : schedulerIsRunning (clock n) = true) by apply (no_refill _ _ _ Hn).
  assert (Ew : worker_scheduleTask (set_store n st) (ReceivePacket p) 1 =
    (set_store n st) <| tasks := tasks n ++ [(u64 (now (clock n) + 1), ReceivePacket p)] |>).
  { unfold worker_scheduleTask. change (clock (set_store n st)) with (clock n). by rewrite Hrun. }
  rewrite Ew. cbv zeta. match goal with |- context [schedulerIsRunning (clock ?x)] => change (clock x) with (clock n) end.
  rewrite Hrun. eexists. split; [done|]. set (t := u64 _).
  assert (Ht : task_refs (tasks n ++ [(t, ReceivePacket p)]) = task_refs (tasks n) ++ [p]).
  { unfold task_refs. by rewrite bind_app. }
  assert (Hn1 : net_ok k (set_store n st) (p :: env)).
  { apply (net_store k n env); [done| |by apply same_sizes_all]. eapply held_Permutation; [|exact Hh'].
    unfold outside. solve_app_perm. }
  split; [|split; [|split; [by split|done]]].
  - destruct Hn1 as [Hw Hq Hrd Hbd Ho Ha Hhd Hsd Hvd Hf]. split; try done; cbn.
    + eapply world_perm; [| |exact Hw]; [done|]. unfold outside. cbn. rewrite Ht. solve_app_perm.
    + rewrite Ht, app_assoc. apply Forall_app. split; [exact Hhd|]. apply Forall_singleton.
      eapply live_good_view; [apply addressed_headers|exact (held_wf _ _ _ Hh)|apply Hv|exact Hg].
    + apply (refill_same (set_store n st)); try done. unfold refill_times. cbn. rewrite bind_app. cbn. by rewrite app_nil_r.
  - unfold nrefs, outside. cbn. rewrite Ht, !length_app. cbn. lia.
Qed.

(** A packet for another host is copied. *)
Lemma forward_ok k n env p pk :
  net_ok k n env → p ∈ outside n env → packets (store (world n)) !! p = Some pk →
  Z.of_nat (nrefs n env) < UINT32_MAX →
  match router_forward address_ipToNewString traceOn rand_r paths n p with
  | Some n' => net_ok k n' env ∧ (nrefs n' env ≤ nrefs n env + 1)%nat ∧ kept n n' ∧
      sendBucket (iface n') = sendBucket (iface n) ∧ router_refs (iface n') = router_refs (iface n)
  | None => ¬ routable paths pk
  end.
Proof.
  intros Hn Hp Epk Hlen. unfold router_forward. pose proof (wo_held _ _ _ _ _ _ _ _ _ _ (no_world _ _ _ Hn)) as Hh.
  pose proof (sendPacket_ok address_ipToNewString traceOn rand_r paths (clock n) (store (world n)) (random n) _ p pk Hh
    ltac:(apply elem_of_app; by right) Hlen Epk) as Hsp.
  destruct (worker_sendPacket _ _ _ _ _ _ _ _) as [[[st random'] d]|]; cbn [mbind option_bind]; [|done].
  destruct Hsp as (Hh' & Hv & _).
  assert (Hs : same_sizes (store (world n)) st (socket_packets (sockets (world n)) ++ outside n env)).
  { apply Forall_forall. intros x Hx. apply Hv. destruct (held_in _ _ _ x Hh Hx) as (y & Ey & _). by eexists. }
  assert (Hn1 : net_ok k (set_store n st) (deliveries d ++ env)).
  { apply (net_store k n env); [done| |]; [eapply held_Permutation; [|exact Hh']; unfold outside; solve_app_perm|].
    eapply same_sizes_sub; [exact Hs|]. unfold outside. solve_app_sub. }
  set (new := match d with Some d => [d] | None => [] end).
  assert (Ed : packetCopy <$> new = deliveries d) by by destruct d.
  split; [|split; [|split; [by split|done]]].
  - destruct Hn1 as [Hw Hq Hrd Hbd Ho Ha Hhd Hsd Hvd Hf]. split; try done.
    + eapply world_perm; [| |exact Hw]; [done|]. unfold outside. cbn. fold new. rewrite fmap_app, Ed. solve_app_perm.
    + by apply (refill_same (set_store n st)).
  - unfold nrefs, outside. cbn. fold new. rewrite fmap_app, Ed, !length_app. destruct d; cbn; lia.
Qed.

(** Where a packet goes. *)
Lemma route_ok k n env p pk :
  net_ok k n env → p ∈ outside n env → packets (store (world n)) !! p = Some pk →
  Z.of_nat (nrefs n env) < UINT32_MAX →
  match (destinationIP ← packet_getDestinationIP pk;
         if addr =? destinationIP then send_local address_ipToNewString traceOn n p
         else _ ← router (iface n); router_forward address_ipToNewString traceOn rand_r paths n p) with
  | Some n' => net_ok k n' env ∧ (nrefs n' env ≤ nrefs n env + 1)%nat ∧ kept n n' ∧
      sendBucket (iface n') = sendBucket (iface n) ∧ router_refs (iface n') = router_refs (iface n)
  | None => ¬ sendable pk
  end.
Proof.
  intros Hn Hp Epk Hlen. unfold sendable. pose proof (held_wf _ _ _ (wo_held _ _ _ _ _ _ _ _ _ _ (no_world _ _ _ Hn))) as Hwf.
  pose proof (header_packet_ok _ _ _ Hwf Epk) as Ho.
  destruct (packet_getDestinationIP pk) as [dip|] eqn:Ed; cbn [mbind option_bind].
  - destruct (Z.eqb_spec addr dip) as [->|Hne].
    + destruct (send_local_ok k n env p Hn Hp) as (n' & -> & ? & En & ? & ?); [|done|split; [done|]; split; [lia|done]].
      exists pk. split; [done|]. unfold addressed. intros E. unfold packet_getDestinationIP in Ed. by rewrite E in Ed.
    + pose proof (no_router _ _ _ Hn) as Hro. unfold router_ok in Hro.
      destruct (router (iface n)) as [r|]; cbn [mbind option_bind].
      * pose proof (forward_ok k n env p pk Hn Hp Epk Hlen) as Hfw.
        destruct (router_forward _ _ _ _ _ _); [done|]. intros (_ & [[= ->]|[_ ?]]); [done|by apply Hfw].
      * intros (_ & [[= ->]|[? _]]); [done|congruence].
  - unfold header_ok, packet_getDestinationIP in *. destruct (protocol pk), (header pk); try done; by intros [? _].
Qed.

Lemma send_packet_ok k n env a p :
  net_ok k n (p :: env) → live_good (good a) (store (world n)) p → Z.of_nat (nrefs n (p :: env)) < UINT32_MAX →
  CONFIG_MTU ≤ bytesRemaining (sendBucket (iface n)) →
  match send_packet address_ipToNewString traceOn rand_r paths n p with
  | Some n' => net_ok k n' env ∧ (nrefs n' env ≤ nrefs n (p :: env))%nat ∧ kept n n' ∧
      router_refs (iface n') = router_refs (iface n)
  | None => ¬ ∀ pk, good a pk → sendable pk
  end.
Proof.
  intros Hn Hg Hlen Hm. unfold send_packet, addDeliveryStatus.
  assert (Hp : ∀ n', p ∈ outside n' (p :: env)) by (intros; unfold outside; rewrite !elem_of_app; right; right; right; left).
  pose proof (wo_held _ _ _ _ _ _ _ _ _ _ (no_world _ _ _ Hn)) as Hh.
  assert (Hin : p ∈ socket_packets (sockets (world n)) ++ outside n (p :: env)) by (apply elem_of_app; right; apply Hp).
  destruct (held_status address_ipToNewString traceOn _ _ p PDS_SND_INTERFACE_SENT Hh Hin) as (st1 & -> & Hh1 & Hv1).
  cbn [mbind option_bind]. set (n1 := set_store n st1).
  assert (Hn1 : net_ok k n1 (p :: env)) by (apply (net_store k n (p :: env)); [done|done|by apply same_sizes_all]).
  assert (Hg1 : live_good (good a) (store (world n1)) p).
  { eapply live_good_view; [exact (good_headers a)|exact (held_wf _ _ _ Hh)|apply Hv1|exact Hg]. }
  destruct Hg1 as (pk & Epk & Hgd). rewrite Epk. cbn [mbind option_bind]. rewrite (no_address _ _ _ Hn1).
  pose proof (route_ok k n1 (p :: env) p pk Hn1 (Hp n1) Epk Hlen) as Hroute.
  destruct (packet_getDestinationIP pk) as [dip|]; cbn [mbind option_bind] in *; [|by auto].
  destruct (if addr =? dip then _ else _) as [n2|]; cbn [mbind option_bind]; [|by auto].
  destruct Hroute as (Hn2 & Hl2 & Hk2 & Eb2 & Er2).
  assert (Hk02 : kept n n2) by (etrans; [|exact Hk2]; by split).
  cbv zeta. destruct (account_sent_ok k n2 (p :: env) p Hn2 (Hp n2)) as (n3 & -> & Hn3 & Hk3 & _ & Hl3 & Er3); [by rewrite Eb2|].
  cbn [mbind option_bind].
  destruct (unref_packet_ok k n3 env p Hn3) as (n4 & -> & Hn4 & (w4 & En4 & Es4) & Hl4).
  split; [done|]. split; [|split].
  - change (nrefs n1 (p :: env)) with (nrefs n (p :: env)) in Hl2. lia.
  - etrans; [exact Hk02|]. etrans; [exact Hk3|]. subst n4. split; try done. cbn. by rewrite Es4.
  - subst n4. cbn. by rewrite Er3, Er2.
Qed.

(** All that the sockets in a queue send can be sent. *)
Definition covered (l : list Z) : Prop := ∀ a p, a ∈ l → good a p → sendable p.

Lemma covered_sub l l' : l' ⊆+ l → covered l → covered l'.
Proof. intros Hs Hc a p Ha. apply Hc. by eapply elem_of_submseteq. Qed.

(** The loop of [_networkinterface_sendPackets] ends, or it meets a packet that
    cannot be sent. *)
Lemma send_loop_ok k fuel sfuel n env :
  net_ok k n env → (List.length (socket_output (sockets (world n))) < fuel)%nat →
  (List.length (queued (iface n)) ≤ sfuel)%nat → Z.of_nat (nrefs n env) < UINT32_MAX →
  match send_loop ops g_renew address_ipToNewString traceOn rand_r paths fuel sfuel n with
  | Some n' => net_ok k n' env ∧ (nrefs n' env ≤ nrefs n env)%nat ∧ kept n n'
  | None => ¬ covered (queued (iface n))
  end.
Proof.
  revert n. induction fuel as [|fuel IH]; intros n Hn Hf Hsf Hlen; [lia|]. cbn [send_loop].
  destruct (Z.leb_spec CONFIG_MTU (bytesRemaining (sendBucket (iface n)))) as [Hm|]; [|done].
  destruct (select_packet_ok k sfuel n env Hn Hsf) as (n1 & p & -> & Hn1 & Hl1 & Hk1 & Ho1 & Hg & Eb & Er).
  cbn [mbind option_bind]. destruct (Z.eqb_spec p 0) as [->|Hne]; [done|].
  rewrite (RQ.returned_nonzero p Hne) in Hn1, Hl1, Ho1. cbn [app] in Hn1, Hl1. cbn in Ho1.
  destruct (Hg Hne) as (a & Ha & Hga).
  pose proof (send_packet_ok k n1 env a p Hn1 Hga ltac:(lia) ltac:(by rewrite Eb)) as Hsend.
  destruct (send_packet _ _ _ _ _ _) as [n2|]; cbn [mbind option_bind]; [|by intros Hc; apply Hsend; intros pk; apply Hc].
  destruct Hsend as (Hn2 & Hl2 & Hk2 & _). pose proof (ke_output _ _ Hk2).
  assert (Hk02 : kept n n2) by by etrans. pose proof (ke_queued _ _ Hk02) as Hq.
  pose proof (submseteq_length _ _ Hq).
  pose proof (IH n2 Hn2 ltac:(lia) ltac:(lia) ltac:(lia)) as Hrec.
  destruct (send_loop _ _ _ _ _ _ _ _ n2) as [n3|]; [|by intros Hc; apply Hrec, (covered_sub _ _ Hq)].
  destruct Hrec as (Hn3 & Hl3 & Hk3). split; [done|]. split; [lia|]. by etrans.
Qed.

(** ** The other operations *)

Definition work n : nat :=
  List.length (router_refs (iface n)) + List.length (socket_output (sockets (world n))) + List.length (queued (iface n)).

(** A socket that asks to send waits in the queue afterwards. *)
Lemma track_ok {F} (d : Discipline (World S) F) (queue : F → list Z) (wf : F → Prop)
    `{!DisciplineLaws d queue wf} k w q R l a s :
  world_ok k w (queue q ++ R) l → wf q → NoDup (queue q) →
  sockets w !! a = Some s → out s ≠ [] →
  ∃ w' q', track ops d w q (sock a) = Some (w', q') ∧ world_ok k w' (queue q' ++ R) l ∧ wf q' ∧ NoDup (queue q') ∧
    (all_ready w (queue q) → all_ready w' (queue q')) ∧ (a ∈ queue q' ∧ queue q' ⊆+ a :: queue q) ∧ store w' = store w ∧
    List.length (socket_output (sockets w')) = List.length (socket_output (sockets w)) ∧
    List.length (socket_packets (sockets w')) = List.length (socket_packets (sockets w)).
Proof.
  intros Hw Hwf Hnd Es Ho. unfold track. destruct (wo_socket _ _ _ _ _ _ _ _ _ _ Hw a s Es) as (Hal & _).
  rewrite (dl_find q a Hwf Hal). cbn [mbind option_bind]. case_bool_decide as Hin.
  { exists w, q. split_and!; try done. by apply submseteq_cons. }
  destruct (ref_ok traceOn ops contents out refs ok good good_headers k w _ l a s Hw Es)
    as (w' & -> & Hw' & Est & Hso & Hlo & Hlp & _). cbn [mbind option_bind].
  destruct (dl_push w' q a Hwf Hal Hin) as (q' & -> & Hwf' & Hp). cbn [mbind option_bind]. exists w', q'.
  split; [done|]. split; [eapply world_perm; [| |exact Hw']; [by rewrite Hp|done]|].
  split; [done|]. split; [rewrite Hp; by constructor|].
  split; [|split; [rewrite Hp; split; [left|done]|done]].
  intros Hrd b t. rewrite Hp, elem_of_cons. intros Hb E. destruct (Hso b t E) as (t0 & E0 & ->).
  destruct Hb as [->|Hb]; [by simplify_eq|by eapply Hrd].
Qed.

Lemma tracked_ok k fuel n env q1 q2 w' a :
  let i' := (iface n) <| rrQueue := q1 |> <| fifoQueue := q2 |> in
  net_ok k n env → queue_ok i' → world_ok k w' (queued i' ++ bound_refs (iface n)) (outside n env) →
  ready i' w' → queued i' ⊆+ a :: queued (iface n) → store w' = store (world n) →
  List.length (socket_output (sockets w')) = List.length (socket_output (sockets (world n))) →
  List.length (socket_packets (sockets w')) = List.length (socket_packets (sockets (world n))) →
  (work n + 1 < fuel)%nat → Z.of_nat (nrefs n env) < UINT32_MAX →
  match _networkinterface_sendPackets ops g_renew address_ipToNewString traceOn rand_r paths fuel
          (n <| world := w' |> <| iface := i' |>) with
  | Some n' => net_ok k n' env ∧ (nrefs n' env ≤ nrefs n env)%nat ∧ (refill_live n → refill_live n')
  | None => ¬ covered (a :: queued (iface n))
  end.
Proof.
  intros i' Hn Hq Hw Hrd Hsub Est Hlo Hlp Hf Hlen. set (n1 := n <| world := w' |> <| iface := i' |>).
  assert (Hn1 : net_ok k n1 env).
  { apply (net_queue k n env q1 q2 w' 0); try done. apply same_sizes_all. by rewrite Est. }
  assert (El : nrefs n1 env = nrefs n env).
  { unfold nrefs. rewrite !length_app. change (outside n1 env) with (outside n env). cbn. by rewrite Hlp. }
  unfold work in Hf. pose proof (submseteq_length _ _ Hsub) as Hlq. cbn in Hlq.
  pose proof (send_loop_ok k fuel fuel n1 env Hn1 ltac:(cbn; lia) ltac:(cbn; lia) ltac:(by rewrite El)) as Hs.
  unfold _networkinterface_sendPackets. destruct (send_loop _ _ _ _ _ _ _ _ n1) as [n2|].
  - destruct Hs as (Hn2 & Hl2 & [_ _ _ Hlive _]). split; [done|]. split; [by rewrite <-El|exact Hlive].
  - by intros Hc; apply Hs, (covered_sub _ _ Hsub).
Qed.

Lemma wantsSend_ok k fuel n env a s :
  net_ok k n env → sockets (world n) !! a = Some s → (work n + 1 < fuel)%nat → Z.of_nat (nrefs n env) < UINT32_MAX →
  match networkinterface_wantsSend ops g_renew address_ipToNewString traceOn rand_r paths fuel n (sock a) with
  | Some n' => net_ok k n' env ∧ (nrefs n' env ≤ nrefs n env)%nat ∧ (refill_live n → refill_live n')
  | None => ¬ covered (a :: queued (iface n))
  end.
Proof.
  intros Hn Es Hf Hlen. unfold networkinterface_wantsSend. rewrite (peek_ok traceOn ops contents out refs ok _ a s Es).
  cbn [mbind option_bind]. destruct (Z.eqb_spec (hd 0 (out s)) 0) as [|Hne]; [done|].
  assert (Ho : out s ≠ []) by (intros E; by rewrite E in Hne).
  pose proof (no_world _ _ _ Hn) as Hw. destruct (no_queue _ _ _ Hn) as (Ht & Hwf & Hnd & He).
  pose proof (no_ready _ _ _ Hn) as Hrd. unfold ready in Hrd. unfold queued in Hw, Hnd, Hrd. destruct (qdisc (iface n)) eqn:Eq.
  - destruct (track_ok (fifo ops g_renew) _ _ k _ _ _ _ a s Hw Hwf Hnd Es Ho)
      as (w' & q' & -> & Hw' & Hwf' & Hnd' & Hrd' & [_ Hsub] & Est & Hlo & Hlp). cbn [mbind option_bind].
    apply (tracked_ok k fuel n env (rrQueue (iface n)) q' w' a); unfold queue_ok, ready, queued; cbn; rewrite ?Eq; auto.
  - destruct (track_ok rr _ _ k _ _ _ _ a s Hw Ht Hnd Es Ho)
      as (w' & q' & -> & Hw' & Hwf' & Hnd' & Hrd' & [_ Hsub] & Est & Hlo & Hlp). cbn [mbind option_bind].
    apply (tracked_ok k fuel n env q' (fifoQueue (iface n)) w' a); unfold queue_ok, ready, queued; cbn; rewrite ?Eq; done.
Qed.

(** The part of the refill task after the buckets were filled. *)
Lemma refill_tail_ok k fuel n env :
  net_ok k n env → 0 < refills n → (work n < fuel)%nat → Z.of_nat (nrefs n env) < UINT32_MAX →
  match (n ← (match router (iface n) with
              | Some _ => networkinterface_receivePackets ops address_ipToNewString traceOn fuel n
              | None => Some n
              end);
         n ← _networkinterface_sendPackets ops g_renew address_ipToNewString traceOn rand_r paths fuel n;
         Some (_networkinterface_scheduleNextRefillIfNeeded n)) with
  | Some n' =>
      net_ok k n' env ∧ (nrefs n' env ≤ nrefs n env)%nat ∧ refill_live n' ∧ clock n' = clock n ∧ refills n' = refills n
  | None => ¬ covered (queued (iface n))
  end.
Proof.
  intros Hn Hr Hf Hlen. unfold work in Hf.
  assert (∃ n1, (match router (iface n) with
              | Some _ => networkinterface_receivePackets ops address_ipToNewString traceOn fuel n
              | None => Some n
              end) = Some n1 ∧ net_ok k n1 env ∧ (nrefs n1 env ≤ nrefs n env)%nat ∧ kept n n1)
    as (n1 & -> & Hn1 & Hl1 & Hk1).
  { destruct (router (iface n)); [apply receivePackets_ok; [done|lia|done]|by exists n]. }
  cbn [mbind option_bind]. pose proof (ke_output _ _ Hk1). unfold _networkinterface_sendPackets.
  pose proof (ke_queued _ _ Hk1) as Hq. pose proof (submseteq_length _ _ Hq).
  pose proof (send_loop_ok k fuel fuel n1 env Hn1 ltac:(lia) ltac:(lia) ltac:(lia)) as Hs.
  destruct (send_loop _ _ _ _ _ _ _ _ n1) as [n2|]; cbn [mbind option_bind]; [|by intros Hc; apply Hs, (covered_sub _ _ Hq)].
  destruct Hs as (Hn2 & Hl2 & Hk2).
  pose proof (ke_refills _ _ Hk1) as E1. pose proof (ke_refills _ _ Hk2) as E2.
  destruct (net_scheduled k n2 env Hn2 ltac:(lia)) as (Hn3 & Hlive & Hk3 & _ & En3 & _).
  pose proof (ke_refills _ _ Hk3). pose proof (ke_clock _ _ Hk1). pose proof (ke_clock _ _ Hk2). pose proof (ke_clock _ _ Hk3).
  split; [done|]. split; [lia|]. split; [done|]. split; congruence.
Qed.

(** The refill task runs; it is taken out of the tasks. *)
Lemma fire_ok k fuel n env l1 t l2 :
  net_ok k n env → tasks n = l1 ++ (t, RefillTokenBuckets) :: l2 → now (clock n) = t →
  (work n < fuel)%nat → Z.of_nat (nrefs n env) < UINT32_MAX →
  match _networkinterface_refillTokenBucketsCB ops g_renew address_ipToNewString traceOn rand_r paths fuel
          (n <| tasks := l1 ++ l2 |>) with
  | Some n' =>
      net_ok k n' env ∧ (nrefs n' env ≤ nrefs n env)%nat ∧ refill_live n' ∧ clock n' = clock n ∧ refills n' = refills n + 1
  | None => ¬ covered (queued (iface n))
  end.
Proof.
  intros Hn Et Etm Hf Hlen. unfold _networkinterface_refillTokenBucketsCB. set (n1 := _ <| iface := _ |> <| refills := _ |>).
  assert (Er : task_refs (l1 ++ l2) = task_refs (tasks n)).
  { rewrite Et. unfold task_refs. rewrite !bind_app. cbn. done. }
  assert (Hn1 : net_ok k n1 env).
  { destruct Hn as [Hw Hq Hrd Hb Ho Ha Hhd Hsd Hv Hf']. split; try done; try by apply refill_bucket.
    - unfold outside. cbn. rewrite Er. exact Hw.
    - cbn. rewrite Er. exact Hhd.
    - destruct Hf' as [Hp Hc Hk]. rewrite Et in Hp. unfold refill_times in Hp. rewrite bind_app in Hp. cbn in Hp.
      destruct (isRefillPending (iface n)); [|by destruct (_ ≫= _)].
      destruct Hp as (j & Hp & Hj & Hnow).
      assert (l1 ≫= (λ t, match t.2 with RefillTokenBuckets => [t.1] | ReceivePacket _ => [] end) = [] ∧
              l2 ≫= (λ t, match t.2 with RefillTokenBuckets => [t.1] | ReceivePacket _ => [] end) = [] ∧
              t = timeStartedRefillingBuckets (iface n) + j * interval) as (E1 & E2 & E3).
      { destruct (l1 ≫= _) as [|x [|y l]]; cbn in Hp; [|done..]. injection Hp as -> ->. done. }
      pose proof interval_pos. destruct (decide (refills n = 0)) as [E0|]; [done|]. destruct Hc as (Hc1 & Hc2 & Hc3).
      split; cbn; [unfold refill_times; rewrite bind_app, E1, E2; done|rewrite decide_False by lia|done].
      split; [lia|]. split; [done|]. rewrite Etm, E3. nia. }
  change (nrefs n1 env) with (nrefs n1 env). assert (El : nrefs n1 env = nrefs n env).
  { unfold nrefs, outside. cbn. by rewrite Er. }
  assert (Hr : 0 < refills n1) by (pose proof (refills_nonneg _ (no_refill _ _ _ Hn)); cbn; lia).
  pose proof (refill_tail_ok k fuel n1 env Hn1 Hr Hf ltac:(by rewrite El)) as Htail. rewrite El in Htail. exact Htail.
Qed.

(** The host starts the refills. *)
Lemma start_refills_ok k fuel n env :
  net_ok k n env → refills n = 0 → (work n < fuel)%nat → Z.of_nat (nrefs n env) < UINT32_MAX →
  match networkinterface_startRefillingTokenBuckets ops g_renew address_ipToNewString traceOn rand_r paths fuel n with
  | Some n' => net_ok k n' env ∧ (nrefs n' env ≤ nrefs n env)%nat ∧ refill_live n' ∧ clock n' = clock n ∧ refills n' = 1
  | None => ¬ covered (queued (iface n))
  end.
Proof.
  intros Hn E0 Hf Hlen. unfold networkinterface_startRefillingTokenBuckets, _networkinterface_refillTokenBucketsCB.
  set (n1 := _ <| iface := _ |> <| refills := _ |>).
  assert (Er : refills n1 = 1) by (cbn; by rewrite E0).
  assert (Hn1 : net_ok k n1 env).
  { destruct Hn as [Hw Hq Hrd Hb Ho Ha Hhd Hsd Hv Hf']. split; try done; try by apply refill_bucket.
    destruct Hf' as [Hp Hc Hk]. rewrite decide_True in Hc by done. rewrite Hc in Hp.
    split; cbn; [done|rewrite E0, decide_False by lia; lia|split; [apply Hk|lia]]. }
  pose proof (refill_tail_ok k fuel n1 env Hn1 ltac:(rewrite Er; lia) Hf Hlen) as Htail. rewrite Er in Htail. exact Htail.
Qed.

(** A delivery to this host: its task has the last reference it needs. *)
Definition deliver (fuel : nat) n (packet : Z) : option (Net S Q) :=
  n ← _worker_runDeliverPacketTask ops address_ipToNewString traceOn fuel n packet;
  packet_unref address_ipToNewString traceOn n packet.

Lemma deliver_ok k fuel n env p :
  net_ok k n (p :: env) → live_good addressed (store (world n)) p → remote = true → (work n + 1 < fuel)%nat →
  Z.of_nat (nrefs n (p :: env)) + 1 < UINT32_MAX →
  ∃ n', deliver fuel n p = Some n' ∧ net_ok k n' env ∧ (nrefs n' env ≤ nrefs n (p :: env))%nat ∧ kept n n'.
Proof.
  intros Hn Hg Hrem Hf Hlen. unfold deliver, _worker_runDeliverPacketTask, router_enqueue.
  pose proof (no_router _ _ _ Hn) as Hr. unfold router_ok in Hr.
  destruct (router (iface n)) as [r|] eqn:Er; [|congruence]. destruct Hr as (Hk & Hok & _). cbn [mbind option_bind].
  pose proof (wo_held _ _ _ _ _ _ _ _ _ _ (no_world _ _ _ Hn)) as Hh.
  set (rest := socket_packets (sockets (world n)) ++ task_refs (tasks n) ++ (packetCopy <$> inflight n) ++ p :: env).
  assert (Hp : ∀ r' st, socket_packets (sockets (world n)) ++
                 outside ((set_store n st) <| iface := (iface n) <| router := Some r' |> |>) (p :: env) ≡ₚ
               waiting (Router.queueManager r') ++ rest).
  { intros r' st. unfold outside, router_refs, rest. cbn. solve_app_perm. }
  assert (Hh0 : held (store (world n)) (waiting (Router.queueManager r) ++ rest)).
  { eapply held_Permutation; [|exact Hh]. unfold outside, router_refs, rest. rewrite Er. solve_app_perm. }
  pose proof Hg as (pk & Epk & _).
  assert (Hin : p ∈ rest) by (unfold rest; rewrite !elem_of_app; right; right; right; left).
  destruct (Router.enqueue_ok address_ipToNewString traceOn waiting rok hooks _ _ r rest p pk Hk Hh0 Hok Hin Epk)
    as (st & r' & b & E & Hk' & Ec & Hh' & Hok' & Hv); [eapply held_bound; [exact Hh|exact Epk|unfold nrefs in Hlen; lia]|].
  rewrite E. cbn [mbind option_bind]. cbv zeta. set (n1 := (set_store n st) <| iface := _ |>).
  assert (Hsub : ∀ l, same_sizes (store (world n)) st l) by (intros; by apply same_sizes_all).
  assert (Hn1 : net_ok k n1 (p :: env)).
  { destruct Hn as [Hw Hq Hrd Hb Ho Ha Hhd Hsd Hvd Hf']. split; try done.
    - change (world n1) with ((world n) <| store := st |>).
      eapply world_store; [exact _|exact good_headers|exact Hw| |done].
      eapply held_Permutation; [symmetry; apply Hp|exact Hh'].
    - cbn. apply (headers_views (store (world n))); [exact (held_wf _ _ _ Hh)|done|].
      unfold router_refs in *. rewrite Er in Hhd. cbn. rewrite Ec. rewrite !Forall_app in *. destruct Hhd as [? ?].
      split; [|done]. split; [done|]. destruct b; [by apply Forall_singleton|done].
    - by apply (refill_same n). }
  assert (El : (nrefs n1 (p :: env) ≤ nrefs n (p :: env) + 1)%nat).
  { unfold nrefs, outside, router_refs, n1. cbn. rewrite Er, Ec, !length_app. destruct b; cbn; lia. }
  assert (Hk1 : kept n n1) by by split.
  assert (∃ n2, (if bool_decide (waiting (Router.queueManager r) = []) && b
                 then networkinterface_receivePackets ops address_ipToNewString traceOn fuel n1 else Some n1) = Some n2 ∧
    net_ok k n2 (p :: env) ∧ (nrefs n2 (p :: env) ≤ nrefs n1 (p :: env))%nat ∧ kept n1 n2) as (n2 & -> & Hn2 & Hl2 & Hk2).
  { destruct (_ && b); [|by exists n1]. apply receivePackets_ok; [done| |lia].
    unfold work, router_refs, n1 in *. cbn. rewrite Er in Hf. rewrite Ec, length_app. destruct b; cbn; lia. }
  cbn [mbind option_bind]. destruct (unref_packet_ok k n2 env p Hn2) as (n3 & -> & Hn3 & (w3 & En3 & Es3) & Hl3).
  exists n3. split; [done|]. split; [done|]. split; [lia|]. etrans; [exact Hk1|]. etrans; [exact Hk2|].
  subst n3. split; try done. cbn. by rewrite Es3.
Qed.

(** The task of a packet for the own address. *)
Definition receive_task (n : Net S Q) (packet : Z) : option (Net S Q) :=
  n ← _networkinterface_receivePacketTask ops address_ipToNewString traceOn n packet;
  packet_unref address_ipToNewString traceOn n packet.

Lemma receive_task_ok k n env l1 t p l2 :
  net_ok k n env → tasks n = l1 ++ (t, ReceivePacket p) :: l2 → Z.of_nat (nrefs n env) < UINT32_MAX →
  ∃ n', receive_task (n <| tasks := l1 ++ l2 |>) p = Some n' ∧ net_ok k n' env ∧ (nrefs n' env ≤ nrefs n env)%nat ∧ kept n n'.
Proof.
  intros Hn Et Hlen. unfold receive_task, _networkinterface_receivePacketTask. set (n1 := n <| tasks := l1 ++ l2 |>).
  assert (Er : task_refs (tasks n) ≡ₚ p :: task_refs (l1 ++ l2)).
  { rewrite Et. unfold task_refs. rewrite !bind_app. cbn. by rewrite Permutation_middle. }
  assert (Eo : outside n1 (p :: env) ≡ₚ outside n env).
  { unfold outside. rewrite Er. cbn. solve_app_perm. }
  assert (Hg : live_good addressed (store (world n)) p ∧
               Forall (live_good addressed (store (world n))) (router_refs (iface n) ++ task_refs (l1 ++ l2))).
  { pose proof (no_headers _ _ _ Hn) as Hhd. rewrite Forall_app, Er, Forall_cons in Hhd. rewrite Forall_app. tauto. }
  assert (Hn1 : net_ok k n1 (p :: env)).
  { destruct Hn as [Hw Hq Hrd Hb Ho Ha Hhd Hsd Hvd Hf']. split; try done.
    - eapply world_perm; [| |exact Hw]; [done|]. by rewrite Eo.
    - apply Hg.
    - apply (refill_same n); try done. cbn. rewrite Et. unfold refill_times. by rewrite !bind_app. }
  assert (El : nrefs n1 (p :: env) = nrefs n env).
  { unfold nrefs. rewrite !length_app, (Permutation_length Eo). done. }
  destruct (receivePacket_ok k n1 (p :: env) p Hn1) as (n2 & -> & Hn2 & (w2 & En2) & Hl2 & _ & Hout);
    [unfold outside; rewrite !elem_of_app; right; right; right; left|apply Hg|by rewrite El|].
  cbn [mbind option_bind]. destruct (unref_packet_ok k n2 env p Hn2) as (n3 & -> & Hn3 & (w3 & En3 & Es3) & Hl3).
  exists n3. split; [done|]. split; [done|]. split; [lia|]. subst n3 n2. split; try done. cbn in *. rewrite Es3. cbn. lia.
Qed.

(** The table of associations changes. *)
Lemma net_bound k n env m w' :
  let i' := (iface n) <| boundSockets := m |> in
  net_ok k n env → world_ok k w' (queued (iface n) ++ bound_refs i') (outside n env) →
  all_tagged (snd <$> map_to_list m) → ready (iface n) w' →
  same_sizes (store (world n)) (store w') (outside n env) → net_ok k (n <| world := w' |> <| iface := i' |>) env.
Proof.
  intros i' [Hw Hq Hrd Hb Ho Ha Hhd Hsd Hv Hf] Hw' Ht Hrd' Hs.
  pose proof (held_wf _ _ _ (wo_held _ _ _ _ _ _ _ _ _ _ Hw)) as Hwf. split; try done; cbn.
  - unfold router_ok, i' in *. cbn in *. unfold router_refs in *. destruct (router (iface n)) as [r|] eqn:Er; [|done].
    destruct Ho as (? & Hok & ?). split; [done|]. split; [|done]. eapply RQ.stable_law; [exact Hok| |done].
    eapply same_sizes_sub; [exact Hs|]. unfold outside, router_refs. rewrite Er. solve_app_sub.
  - eapply headers_views; [exact Hwf| |exact Hhd]. eapply same_sizes_sub; [exact Hs|]. unfold outside. solve_app_sub.
  - by apply (refill_same n).
Qed.

Lemma key_ok n a s : sockets (world n) !! a = Some s →
  ∃ key, _networkinterface_socketToAssociationKey ops n (sock a) = Some key.
Proof.
  intros E. unfold _networkinterface_socketToAssociationKey, compatsocket_getProtocol, compatsocket_getPeerName,
    compatsocket_getSocketName, legacy. cbn. rewrite E. cbn. repeat case_match; by eexists.
Qed.

Lemma associate_ok k n env a s key :
  net_ok k n env → sockets (world n) !! a = Some s →
  _networkinterface_socketToAssociationKey ops n (sock a) = Some key → boundSockets (iface n) !! key = None →
  ∃ n', networkinterface_associate ops n (sock a) = Some n' ∧ net_ok k n' env ∧ nrefs n' env = nrefs n env ∧ kept n n' ∧
    boundSockets (iface n') = <[key := tagged a]> (boundSockets (iface n)) ∧
    queued (iface n') = queued (iface n) ∧ address (iface n') = address (iface n) ∧
    sockets (world n') = <[a := so_ref ops s]> (sockets (world n)).
Proof.
  intros Hn Es Ek En. unfold networkinterface_associate. rewrite Ek. cbn [mbind option_bind].
  rewrite bool_decide_false by (rewrite En; by intros [? ?]).
  pose proof (no_world _ _ _ Hn) as Hw. destruct (wo_socket _ _ _ _ _ _ _ _ _ _ Hw a s Es) as (Hal & _).
  destruct (ref_ok traceOn ops contents out refs ok good good_headers k (world n) _ _ a s Hw Es)
    as (w' & -> & Hw' & Est & Hso & Hlo & Hlp & Esk). cbn [mbind option_bind].
  rewrite toTagged_aligned by done. cbn [mbind option_bind]. eexists. split; [done|].
  set (m := <[key := tagged a]> (boundSockets (iface n))).
  assert (Em : snd <$> map_to_list m ≡ₚ tagged a :: (snd <$> map_to_list (boundSockets (iface n)))).
  { unfold m. by rewrite map_to_list_insert. }
  split; [|split; [|split; [|done]]].
  - apply net_bound; [done| | | |by apply same_sizes_all; rewrite Est].
    + eapply world_perm; [| |exact Hw']; [|done]. unfold bound_refs. cbn. fold m. rewrite Em, untagged_cons by done.
      by rewrite Permutation_middle.
    + intros t. rewrite Em, elem_of_cons. intros [->|Ht]; [by exists a|by eapply no_bound].
    + intros Hm b t Hb E. destruct (Hso b t E) as (t0 & E0 & ->). by eapply (no_ready _ _ _ Hn).
  - unfold nrefs. rewrite !length_app. cbn. by rewrite Hlp.
  - split; try done. cbn. lia.
Qed.

Lemma disassociate_ok k n env a s key :
  net_ok k n env → sockets (world n) !! a = Some s →
  _networkinterface_socketToAssociationKey ops n (sock a) = Some key →
  ∃ n', networkinterface_disassociate ops n (sock a) = Some n' ∧ net_ok k n' env ∧ (nrefs n' env ≤ nrefs n env)%nat ∧
    kept n n' ∧ boundSockets (iface n') = delete key (boundSockets (iface n)) ∧ queued (iface n') = queued (iface n).
Proof.
  intros Hn Es Ek. unfold networkinterface_disassociate. rewrite Ek. cbn [mbind option_bind].
  destruct (boundSockets (iface n) !! key) as [t|] eqn:Et.
  2: { exists n. split_and!; try done. by rewrite delete_id. }
  set (m := delete key (boundSockets (iface n))).
  assert (Em : snd <$> map_to_list (boundSockets (iface n)) ≡ₚ t :: (snd <$> map_to_list m)).
  { by rewrite <-(map_to_list_delete _ _ _ Et). }
  destruct (no_bound _ _ _ Hn t) as (b & Hb & ->); [rewrite Em; left|]. rewrite fromTagged_aligned by done. cbn [mbind option_bind].
  assert (Hw : world_ok k (world n) (b :: queued (iface n) ++ untagged (snd <$> map_to_list m)) (outside n env)).
  { eapply world_perm; [| |exact (no_world _ _ _ Hn)]; [|done]. unfold bound_refs. rewrite Em, untagged_cons by done.
    by rewrite Permutation_middle. }
  destruct (unref_ok traceOn ops contents out refs ok good good_headers k (world n) _ _ b Hw)
    as (w' & E & Hw' & Hs & Hso & Hlo & Hlp). cbn [world]. cbn in E |- *. rewrite E. cbn [mbind option_bind].
  eexists. split; [done|]. split; [|split; [|split; [|done]]].
  - apply net_bound; [done|done| | |done].
    + intros x Hx. eapply no_bound; [exact Hn|]. rewrite Em. by right.
    + intros Hm c x Hc E'. destruct (Hso c x E') as (t0 & E0 & ->). by eapply (no_ready _ _ _ Hn).
  - unfold nrefs. rewrite !length_app. change (outside _ env) with (outside n env) at 1. cbn. lia.
  - split; try done.
Qed.

(** Associating a socket and taking the association back. *)
Lemma association_back k n env a s key :
  net_ok k n env → sockets (world n) !! a = Some s →
  _networkinterface_socketToAssociationKey ops n (sock a) = Some key → boundSockets (iface n) !! key = None →
  ∃ n1 n2 s', networkinterface_associate ops n (sock a) = Some n1 ∧ networkinterface_disassociate ops n1 (sock a) = Some n2 ∧
    boundSockets (iface n1) = <[key := tagged a]> (boundSockets (iface n)) ∧
    boundSockets (iface n2) = boundSockets (iface n) ∧ sockets (world n2) !! a = Some s' ∧ refs s' = refs s.
Proof.
  intros Hn Es Ek En.
  destruct (associate_ok k n env a s key Hn Es Ek En) as (n1 & E1 & Hn1 & _ & _ & Eb1 & Eq1 & Ea1 & Esk1).
  destruct (sl_ref (contents := contents) (out := out) (refs := refs) (ok := ok) (store (world n)) s) as (_ & _ & _ & _ & N1 & N2 & N3).
  assert (Es1 : sockets (world n1) !! a = Some (so_ref ops s)) by (rewrite Esk1; apply lookup_insert_eq).
  assert (Ek1 : _networkinterface_socketToAssociationKey ops n1 (sock a) = Some key).
  { rewrite <-Ek. unfold _networkinterface_socketToAssociationKey, compatsocket_getProtocol, compatsocket_getPeerName,
      compatsocket_getSocketName, legacy, _networkinterface_getAssociationKey. cbn [type object sock].
    rewrite Es, Es1, Ea1. cbn [fmap option_fmap option_map mbind option_bind]. by rewrite N1, N2, N3. }
  destruct (disassociate_ok k n1 env a _ key Hn1 Es1 Ek1) as (n2 & E2 & Hn2 & _ & _ & Eb2 & Eq2).
  assert (Eb : boundSockets (iface n2) = boundSockets (iface n)) by (by rewrite Eb2, Eb1, delete_insert_id).
  destruct (wo_socket _ _ _ _ _ _ _ _ _ _ (no_world _ _ _ Hn) a s Es) as (_ & _ & _ & Hr & Hp).
  assert (Er : queued (iface n2) ++ bound_refs (iface n2) = queued (iface n) ++ bound_refs (iface n)).
  { unfold bound_refs. by rewrite Eq2, Eq1, Eb. }
  destruct (wo_live _ _ _ _ _ _ _ _ _ _ (no_world _ _ _ Hn2) a) as [s' Es']; [rewrite Er; lia|].
  exists n1, n2, s'. split_and!; try done.
  destruct (wo_socket _ _ _ _ _ _ _ _ _ _ (no_world _ _ _ Hn2) a s' Es') as (_ & _ & _ & Hr' & _). rewrite Er in Hr'. lia.
Qed.

(** ** Freeing the interface *)

Lemma destroy_ok {F} (d : Discipline (World S) F) (queue : F → list Z) (wf : F → Prop)
    `{!DisciplineLaws d queue wf} k fuel w q R l :
  world_ok k w (queue q ++ R) l → wf q → (List.length (queue q) ≤ fuel)%nat →
  ∃ w', socketqueue_destroy ops d fuel w q = Some w' ∧ world_ok k w' R l ∧ same_sizes (store w) (store w') l.
Proof.
  revert w q. induction fuel as [|fuel IH]; intros w q Hw Hwf Hf; cbn [socketqueue_destroy]; rewrite (dl_empty q Hwf);
    case_bool_decide as Hq.
  1,3: rewrite Hq in Hw; exists w; split_and!; [done|done|by apply same_sizes_all].
  { destruct (queue q); [done|cbn in Hf; lia]. }
  destruct (dl_pop w q Hwf Hq) as (q1 & a & -> & Hwf1 & Hp). cbn [mbind option_bind].
  assert (Hw1 : world_ok k w (a :: queue q1 ++ R) l) by (eapply world_perm; [| |exact Hw]; [by rewrite Hp|done]).
  destruct (unref_ok traceOn ops contents out refs ok good good_headers k w _ l a Hw1)
    as (w1 & -> & Hw2 & Hs & _). cbn [mbind option_bind].
  destruct (IH w1 q1 Hw2 Hwf1) as (w2 & -> & Hw3 & Hs2); [rewrite Hp in Hf; cbn in Hf; lia|].
  exists w2. split; [done|]. split; [done|]. by eapply same_sizes_trans.
Qed.

Lemma unref_tagged_ok k w ts R l :
  world_ok k w (untagged ts ++ R) l → all_tagged ts →
  ∃ w', unref_tagged ops w ts = Some w' ∧ world_ok k w' R l ∧ same_sizes (store w) (store w') l.
Proof.
  revert w. induction ts as [|t ts IH]; intros w Hw Ht; cbn [unref_tagged].
  { exists w. split_and!; [done|done|by apply same_sizes_all]. }
  destruct (Ht t) as (a & Ha & ->); [left|]. rewrite fromTagged_aligned by done. cbn [mbind option_bind].
  rewrite untagged_cons in Hw by done.
  destruct (unref_ok traceOn ops contents out refs ok good good_headers k w _ l a Hw)
    as (w1 & -> & Hw1 & Hs & _). cbn [mbind option_bind].
  destruct (IH w1 Hw1) as (w2 & -> & Hw2 & Hs2); [intros x Hx; apply Ht; by right|].
  exists w2. split; [done|]. split; [done|]. by eapply same_sizes_trans.
Qed.

Lemma free_ok k fuel n env :
  net_ok k n env → (List.length (queued (iface n)) ≤ fuel)%nat →
  (∀ r, router (iface n) = Some r → Router.referenceCount r = 1) →
  ∃ w', networkinterface_free ops g_renew fuel n = Some w' ∧
    world_ok k w' [] (task_refs (tasks n) ++ (packetCopy <$> inflight n) ++ env).
Proof.
  intros Hn Hf Hr1. unfold networkinterface_free. destruct (no_queue _ _ _ Hn) as (Ht & Hwf & _ & He).
  assert ((List.length (untagged (rrQueue (iface n))) ≤ fuel)%nat ∧
                 (List.length (untagged (PQ.elements (fifoQueue (iface n)))) ≤ fuel)%nat ∧
                 untagged (rrQueue (iface n)) ++ untagged (PQ.elements (fifoQueue (iface n))) = queued (iface n))
    as (H1 & H2 & H3).
  { unfold queued in *. destruct (qdisc (iface n)); rewrite He in *; cbn; rewrite ?app_nil_r; split_and!; try done; lia. }
  pose proof (no_world _ _ _ Hn) as Hw. rewrite <-H3, <-app_assoc in Hw.
  destruct (destroy_ok rr _ _ k fuel _ _ _ _ Hw Ht H1) as (w1 & E1 & Hw1 & Hs1). rewrite E1. cbn [mbind option_bind].
  destruct (destroy_ok (fifo ops g_renew) _ _ k fuel _ _ _ _ Hw1 Hwf H2) as (w2 & E2 & Hw2 & Hs2). rewrite E2. cbn [mbind option_bind].
  unfold bound_refs in Hw2. rewrite <-(app_nil_r (untagged _)) in Hw2.
  destruct (unref_tagged_ok k w2 _ _ _ Hw2 (no_bound _ _ _ Hn)) as (w3 & -> & Hw3 & Hs3). cbn [mbind option_bind].
  assert (Hs : same_sizes (store (world n)) (store w3) (outside n env)).
  { eapply same_sizes_trans; [|exact Hs3|done]. by eapply same_sizes_trans. }
  pose proof (no_router _ _ _ Hn) as Hr. unfold router_ok in Hr. unfold outside, router_refs in Hw3, Hs.
  destruct (router (iface n)) as [r|] eqn:Er; [|by exists w3]. destruct Hr as (Hk & Hok & _).
  set (rest := task_refs (tasks n) ++ (packetCopy <$> inflight n) ++ env) in *.
  unfold Router.router_unref. cbn. rewrite (Hr1 r eq_refl), Hk. cbn.
  assert (Hh : held (store w3) (waiting (Router.queueManager r) ++ socket_packets (sockets w3) ++ rest)).
  { eapply held_Permutation; [|exact (wo_held _ _ _ _ _ _ _ _ _ _ Hw3)]. solve_app_perm. }
  assert (Hok3 : rok (store w3) (now (clock n)) (Router.queueManager r)).
  { eapply RQ.stable_law; [exact Hok| |done]. eapply same_sizes_sub; [exact Hs|]. solve_app_sub. }
  destruct (RQ.free_law _ _ _ _ Hh Hok3) as (st & -> & Hh' & Hs'). cbn. exists (w3 <| store := st |>). split; [done|].
  eapply world_store; [exact _|exact good_headers|exact Hw3|exact Hh'|]. eapply same_sizes_sub; [exact Hs'|]. solve_app_sub.
Qed.

End Senders.

(** Other knowledge of the same packets. *)
Lemma net_good good1 good2 k n env :
  (∀ a p p', protocol p' = protocol p → header p' = header p → good1 a p → good1 a p') →
  net_ok good1 k n env →
  (∀ a s, sockets (world n) !! a = Some s → Forall (live_good (good2 a) (store (world n))) (out s)) →
  net_ok good2 k n env.
Proof.
  intros Hg [Hw Hq Hrd Hb Ho Ha Hhd Hsd Hv Hf] H2. split; try done. destruct Hw as [W1 W2 W3 W4]. split; try done.
  intros a s E. destruct (W2 a s E) as (? & ? & _ & ? & ?). split_and!; auto.
Qed.

(** ** The interface and the rest of the host *)

Abbreviation sock := compatsocket_fromLegacySocket.
Abbreviation socket_packets := (SocketWorld.socket_packets contents).

Definition anything (a : Z) (p : Packet) : Prop := True.

Lemma anything_headers a p p' : protocol p' = protocol p → header p' = header p → anything a p → anything a p'.
Proof. done. Qed.

Abbreviation world_ok := (SocketWorld.world_ok traceOn contents out refs ok anything).
Abbreviation accounted := (net_ok anything).

(** [others] counts the references to sockets that the rest of the host has,
    [env] lists its references to packets.  The steps are those of a running
    simulation: the operations of the interface that return, and whatever the
    rest of the host does as long as it gives back only references of its own;
    for the fifo discipline, which compares the next packets of the sockets in
    its heap, it also leaves the packets that those sockets want to send. *)
Record Config := mkConfig { net : Net S Q; env : list Z; others : Z → Z }.

(** The rest of the host takes no packet off the sockets in the heap. *)
Definition untouched n w' : Prop :=
  qdisc (iface n) = Q_DISC_MODE_FIFO →
  ∀ a s s', a ∈ queued (iface n) → sockets (world n) !! a = Some s → sockets w' !! a = Some s' → out s ⊆ out s'.

Definition small n env : Prop := Z.of_nat (nrefs n env) + 1 < UINT32_MAX.

Inductive step : Config → Config → Prop :=
  | step_start c fuel n' :
      refills (net c) = 0 → (work (net c) + 1 < fuel)%nat →
      networkinterface_startRefillingTokenBuckets ops g_renew address_ipToNewString traceOn rand_r paths fuel (net c) = Some n' →
      step c (mkConfig n' (env c) (others c))
  | step_refill c l1 t l2 fuel n' :
      tasks (net c) = l1 ++ (t, RefillTokenBuckets) :: l2 → now (clock (net c)) = t → (work (net c) + 1 < fuel)%nat →
      _networkinterface_refillTokenBucketsCB ops g_renew address_ipToNewString traceOn rand_r paths fuel
        ((net c) <| tasks := l1 ++ l2 |>) = Some n' →
      step c (mkConfig n' (env c) (others c))
  | step_task c l1 t p l2 n' :
      tasks (net c) = l1 ++ (t, ReceivePacket p) :: l2 → now (clock (net c)) = t →
      receive_task ((net c) <| tasks := l1 ++ l2 |>) p = Some n' →
      step c (mkConfig n' (env c) (others c))
  | step_deliver c p env' fuel n' :
      env c ≡ₚ p :: env' → live_good addressed (store (world (net c))) p → remote = true →
      (work (net c) + 1 < fuel)%nat → deliver fuel (net c) p = Some n' →
      step c (mkConfig n' env' (others c))
  | step_wantsSend c a fuel n' :
      is_Some (sockets (world (net c)) !! a) → (work (net c) + 1 < fuel)%nat →
      networkinterface_wantsSend ops g_renew address_ipToNewString traceOn rand_r paths fuel (net c) (sock a) = Some n' →
      step c (mkConfig n' (env c) (others c))
  | step_associate c a key n' :
      is_Some (sockets (world (net c)) !! a) →
      _networkinterface_socketToAssociationKey ops (net c) (sock a) = Some key →
      boundSockets (iface (net c)) !! key = None →
      networkinterface_associate ops (net c) (sock a) = Some n' →
      step c (mkConfig n' (env c) (others c))
  | step_disassociate c a n' :
      is_Some (sockets (world (net c)) !! a) → networkinterface_disassociate ops (net c) (sock a) = Some n' →
      step c (mkConfig n' (env c) (others c))
  | step_time c now' :
      now (clock (net c)) ≤ now' → now' + interval < 2 ^ 64 → (∀ t, t ∈ tasks (net c) → now' ≤ t.1) →
      step c (mkConfig ((net c) <| clock := (clock (net c)) <| now := now' |> |>) (env c) (others c))
  | step_host c w' boot random' inflight' env' k' :
      let n' := (net c) <| world := w' |> <| random := random' |> <| inflight := inflight' |>
                        <| clock := mkClock true boot (now (clock (net c))) |> in
      world_ok k' w' (queued (iface (net c)) ++ bound_refs (iface (net c))) (outside n' env') →
      same_sizes (store (world (net c))) (store w') (router_refs (iface (net c)) ++ task_refs (tasks (net c))) →
      untouched (net c) w' → small n' env' →
      step c (mkConfig n' env' k').

Definition inv (c : Config) : Prop :=
  accounted (others c) (net c) (env c) ∧ small (net c) (env c) ∧ refill_live (net c).

Lemma small_le n env n' env' : (nrefs n' env' ≤ nrefs n env)%nat → small n env → small n' env'.
Proof. unfold small. lia. Qed.

Lemma net_env_perm k n e e' : e ≡ₚ e' → accounted k n e → accounted k n e' ∧ nrefs n e = nrefs n e'.
Proof.
  intros He [Hw Hq Hrd Hb Ho Ha Hhd Hsd Hv Hf].
  assert (Ho' : outside n e ≡ₚ outside n e') by (unfold outside; by rewrite He).
  split; [|unfold nrefs; by rewrite !length_app, (Permutation_length Ho')].
  split; try done. eapply world_perm; [| |exact Hw]; done.
Qed.

Lemma inv_same n e c n' e' :
  accounted (others c) n' e' → (nrefs n' e' ≤ nrefs n e)%nat → small n e → refill_live n' → inv (mkConfig n' e' (others c)).
Proof. intros. split; [done|]. split; [by eapply small_le|done]. Qed.

Lemma time_ok k n env now' :
  accounted k n env → now (clock n) ≤ now' → now' + interval < 2 ^ 64 → (∀ t, t ∈ tasks n → now' ≤ t.1) →
  accounted k (n <| clock := (clock n) <| now := now' |> |>) env.
Proof.
  intros [Hw Hq Hrd Hb Ho Ha Hhd Hsd Hv Hf] Hle Hmax Ht. split; try done.
  - unfold router_ok in *. cbn. destruct (router (iface n)) as [r|]; [|done]. destruct Ho as (? & Hok & ?).
    split; [done|]. split; [|done]. eapply RQ.stable_law; [exact Hok|by apply same_sizes_all|done].
  - destruct Hf as [Hp Hc Hk]. split; cbn; [| |split; [apply Hk|lia]].
    + destruct (isRefillPending (iface n)); [|done]. destruct Hp as (j & Hp & Hj & Hn & Hn2). exists j. split; [done|]. split; [done|]. split; [|lia].
      assert (Hin : timeStartedRefillingBuckets (iface n) + j * interval ∈ refill_times (tasks n)) by (rewrite Hp; left).
      unfold refill_times in Hin. apply list_elem_of_bind in Hin as ([t x] & Hx & Hin). cbn in Hx.
      destruct x; [|by apply not_elem_of_nil in Hx]. apply list_elem_of_singleton in Hx as ->. exact (Ht _ Hin).
    + case_decide; [done|]. destruct Hc as (? & ? & ?). lia.
Qed.

Lemma host_ok c w' boot random' inflight' env' k' :
  let n' := (net c) <| world := w' |> <| random := random' |> <| inflight := inflight' |>
                    <| clock := mkClock true boot (now (clock (net c))) |> in
  accounted (others c) (net c) (env c) →
  world_ok k' w' (queued (iface (net c)) ++ bound_refs (iface (net c))) (outside n' env') →
  same_sizes (store (world (net c))) (store w') (router_refs (iface (net c)) ++ task_refs (tasks (net c))) →
  untouched (net c) w' → accounted k' n' env'.
Proof.
  intros n' [Hw Hq Hrd Hb Ho Ha Hhd Hsd Hv Hf] Hw' Hs Hu. split; try done.
  - intros Hm a s' Hin E'. change (a ∈ queued (iface (net c))) in Hin.
    assert (is_Some (sockets (world (net c)) !! a)) as [s E].
    { apply (wo_live _ _ _ _ _ _ _ _ _ _ Hw). rewrite count_app. pose proof (count_pos _ _ Hin).
      pose proof (count_nonneg (bound_refs (iface (net c))) a). pose proof (wo_others _ _ _ _ _ _ _ _ _ _ Hw a). lia. }
    pose proof (Hu Hm a s s' Hin E E') as Hsub. pose proof (Hrd Hm a s Hin E) as Hne.
    destruct (out s) as [|p l]; [done|]. intros Eo. rewrite Eo in Hsub. apply (not_elem_of_nil p), Hsub. left.
  - unfold router_ok, n' in *. cbn. unfold router_refs in Hs. destruct (router (iface (net c))) as [r|]; [|done].
    destruct Ho as (? & Hok & ?). split; [done|]. split; [|done]. eapply RQ.stable_law; [exact Hok| |done].
    eapply same_sizes_sub; [exact Hs|]. solve_app_sub.
  - cbn. eapply headers_views; [|exact Hs|exact Hhd]. exact (held_wf _ _ _ (wo_held _ _ _ _ _ _ _ _ _ _ Hw)).
  - destruct Hf as [H1 H2 [_ H3]]. split; [done|done|]. by split.
Qed.

Abbreviation ok_for lemma := (lemma anything anything_headers).

Lemma net_step_inv c c' : step c c' → inv c → inv c'.
Proof.
  intros Hs (Hn & Hsm & Hl). assert (Hlt : Z.of_nat (nrefs (net c) (env c)) < UINT32_MAX) by (unfold small in Hsm; lia).
  destruct Hs as [c fuel n' H0 Hf E|c l1 t l2 fuel n' Et Etm Hf E|c l1 t p l2 n' Et Etm E|c p env' fuel n' Hp Hg Hrem Hf E|
                  c a fuel n' [s Es] Hf E|c a key n' [s Es] Ek Eb E|c a n' [s Es] E|c now' Hle Hmax Ht|
                  c w' boot random' inflight' env' k' n' Hw' Hs' Hrd' Hsm'].
  - pose proof (ok_for start_refills_ok _ fuel _ _ Hn H0 ltac:(lia) Hlt) as Ho. rewrite E in Ho.
    destruct Ho as (? & ? & ? & _). by eapply inv_same.
  - pose proof (ok_for fire_ok _ fuel _ _ l1 t l2 Hn Et Etm ltac:(lia) Hlt) as Ho. rewrite E in Ho.
    destruct Ho as (? & ? & ? & _). by eapply inv_same.
  - destruct (ok_for receive_task_ok _ _ _ l1 t p l2 Hn Et Hlt) as (n1 & E1 & ? & ? & []). simplify_eq. eapply inv_same; eauto.
  - destruct (net_env_perm _ _ _ _ Hp Hn) as [Hn1 En]. unfold small in Hsm. rewrite En in Hsm.
    destruct (ok_for deliver_ok _ fuel _ env' p Hn1 Hg Hrem Hf Hsm) as (n1 & E1 & ? & ? & []). simplify_eq. eapply inv_same; eauto.
  - pose proof (ok_for wantsSend_ok _ fuel _ _ a s Hn Es Hf Hlt) as Ho. rewrite E in Ho.
    destruct Ho as (? & ? & ?). eapply inv_same; eauto.
  - destruct (ok_for associate_ok _ _ _ a s key Hn Es Ek Eb) as (n1 & E1 & ? & En & [] & _). simplify_eq. apply (inv_same (net c) (env c)); [done|by rewrite En|done|auto].
  - destruct (key_ok _ a s Es) as [key Ek].
    destruct (ok_for disassociate_ok _ _ _ a s key Hn Es Ek) as (n1 & E1 & ? & ? & [] & _). simplify_eq. eapply inv_same; eauto.
  - split; [by apply time_ok|]. by split.
  - split; [by apply (host_ok c)|]. split; [done|exact Hl].
Qed.

Lemma net_steps_inv c c' : rtc step c c' → inv c → inv c'.
Proof. induction 1; eauto using net_step_inv. Qed.

(** The bytes of a refill for a bandwidth in KiB per second. *)
Definition refill_rate (kibps : Z) : Z := kibps * 1024 / 1000.

(** A new interface, with the router it was given, on a host whose sockets and
    packets are accounted for. *)
Definition initial (bwDownKiBps bwUpKiBps block : Z) (mode : QDiscMode) (r : option (Router.Router Q)) (c : Config) : Prop :=
  0 ≤ bwDownKiBps < 2 ^ 32 ∧ 0 ≤ bwUpKiBps < 2 ^ 32 ∧ up = refill_rate bwUpKiBps ∧ down = refill_rate bwDownKiBps ∧
  iface (net c) = (networkinterface_new addr bwDownKiBps bwUpKiBps block mode) <| router := Router.router_ref <$> r |> ∧
  match r with
  | Some r => Router.queueHooks r = hooks ∧ Router.queueManager r = RQ.new hooks ∧ remote = true
  | None => remote = false
  end ∧
  tasks (net c) = [] ∧ inflight (net c) = [] ∧ sent (net c) = [] ∧ received (net c) = [] ∧ refills (net c) = 0 ∧
  schedulerIsRunning (clock (net c)) = true ∧ 0 ≤ now (clock (net c)) ∧ now (clock (net c)) + interval < 2 ^ 64 ∧
  world_ok (others c) (world (net c)) [] (env c) ∧ small (net c) (env c).

Lemma rate_bounds bw : 0 ≤ bw < 2 ^ 32 → 0 ≤ refill_rate bw < 2 ^ 43 ∧ u64 (bw * 1024) / 1000 = refill_rate bw.
Proof.
  intros H0. unfold refill_rate. rewrite u64_small by lia. split; [|done].
  split; [apply Z.div_pos; lia|]. apply Z.div_lt_upper_bound; lia.
Qed.

Lemma new_bucket rate : 0 ≤ rate < 2 ^ 43 →
  bucket_ok rate (mkBucket (u64 (u64 (rate * _networkinterface_getCapacityFactor) + CONFIG_MTU)) 0 rate) 0 0.
Proof.
  intros Hr. unfold _networkinterface_getCapacityFactor, CONFIG_MTU. rewrite Z.mul_1_r, (u64_small rate) by lia.
  rewrite u64_small by lia. split; cbn; lia.
Qed.

Lemma net_initial_inv bwDown bwUp block mode r c : initial bwDown bwUp block mode r c → inv c.
Proof.
  intros (Hd & Hu & Eu & Ed & Ei & Hr & Et & Ein & Es & Er & E0 & Hrun & Hn1 & Hn2 & Hw & Hsm).
  destruct (rate_bounds bwDown Hd) as [Hdr Hd']. destruct (rate_bounds bwUp Hu) as [Hur Hu'].
  assert (Hq : queued (iface (net c)) = []) by (rewrite Ei; unfold queued; by destruct mode).
  assert (Hb : bound_refs (iface (net c)) = []).
  { rewrite Ei. unfold bound_refs. cbn. by rewrite map_to_list_empty. }
  assert (Hrr : router_refs (iface (net c)) = []).
  { rewrite Ei. unfold router_refs. cbn. destruct r as [r|]; [|done]. cbn. destruct Hr as (_ & -> & _). apply RQ.new_law. }
  assert (Ho : outside (net c) (env c) = env c) by (unfold outside; by rewrite Hrr, Et, Ein).
  assert (Hbk : bucket_ok up (sendBucket (iface (net c))) 0 0 ∧ bucket_ok down (receiveBucket (iface (net c))) 0 0).
  { rewrite Ei. unfold networkinterface_new, _networkinterface_setupTokenBuckets. cbn [iface sendBucket receiveBucket router set_field].
    change (SIMTIME_ONE_SECOND / interval) with 1000. cbn -[Z.div Z.mul CONFIG_MTU u64]. rewrite Hd', Hu', <-Eu, <-Ed.
    split; apply new_bucket; lia. }
  split; [|split; [done|by left]]. split.
  - by rewrite Hq, Hb, Ho.
  - unfold queue_ok. rewrite Hq. rewrite Ei. cbn. split; [by intros ? ?%not_elem_of_nil|].
    pose proof (PQ.new_wf block) as Hwf. split; [split; [done|]|].
    + intros t. by intros ?%not_elem_of_nil.
    + split; [constructor|]. by destruct mode.
  - intros _. rewrite Hq. by intros a s ?%not_elem_of_nil.
  - rewrite Ei. cbn. rewrite map_to_list_empty. by intros t ?%not_elem_of_nil.
  - unfold router_ok. rewrite Ei. cbn. destruct r as [r|]; cbn; [|done]. destruct Hr as (? & -> & ?).
    split; [done|]. split; [|done]. apply RQ.new_law.
  - by rewrite Ei.
  - rewrite Hrr, Et. constructor.
  - rewrite Es, E0. apply Hbk.
  - rewrite Er, E0. apply Hbk.
  - split.
    + rewrite Ei. cbn. by rewrite Et.
    + rewrite E0. cbn. by rewrite Ei.
    + split; [done|]. rewrite Ei. cbn. lia.
Qed.

(** *** Properties *)

(** What the sockets of [l], and those that wait, want to send can be sent. *)
Definition all_sendable n (l : list Z) : Prop :=
  ∀ a s, a ∈ l ++ queued (iface n) → sockets (world n) !! a = Some s → Forall (live_good sendable (store (world n))) (out s).

Lemma accounted_sendable k n env l :
  accounted k n env → all_sendable n l → net_ok (λ a p, a ∈ l ++ queued (iface n) → sendable p) k n env.
Proof.
  intros Hn Hl. apply (net_good anything); [exact anything_headers|done|]. intros a s E.
  destruct (decide (a ∈ l ++ queued (iface n))) as [Hin|Hni].
  - eapply Forall_impl; [by eapply Hl|]. intros p (pk & Ep & Hs). by exists pk.
  - destruct (wo_socket _ _ _ _ _ _ _ _ _ _ (no_world _ _ _ _ Hn) a s E) as (_ & _ & Hg & _).
    eapply Forall_impl; [exact Hg|]. intros p (pk & Ep & _). by exists pk.
Qed.

Lemma sendable_for (l : list Z) (a : Z) p p' : protocol p' = protocol p → header p' = header p →
  (a ∈ l → sendable p) → a ∈ l → sendable p'.
Proof. intros E1 E2 Hs Ha. by apply (sendable_headers p), Hs. Qed.

(** No router: a packet for another address cannot be sent. *)
Lemma no_router_fails k n env p pk dip :
  accounted k n env → p ∈ outside n env → packets (store (world n)) !! p = Some pk → packet_getDestinationIP pk = Some dip →
  dip ≠ addr → router (iface n) = None → send_packet address_ipToNewString traceOn rand_r paths n p = None.
Proof.
  intros Hn Hp Epk Edip Hne Er. unfold send_packet, addDeliveryStatus.
  pose proof (wo_held _ _ _ _ _ _ _ _ _ _ (no_world _ _ _ _ Hn)) as Hh.
  destruct (held_status address_ipToNewString traceOn _ _ p PDS_SND_INTERFACE_SENT Hh) as (st1 & -> & _ & Hv1).
  { apply elem_of_app. by right. }
  cbn [mbind option_bind]. destruct (view_packet _ _ _ _ (held_wf _ _ _ Hh) (Hv1 p) Epk) as (pk1 & Epk1 & E1 & E2).
  cbn. rewrite Epk1. cbn [mbind option_bind].
  assert (packet_getDestinationIP pk1 = Some dip) as -> by (rewrite <-Edip; unfold packet_getDestinationIP; by rewrite E1, E2).
  cbn [mbind option_bind]. rewrite (no_address _ _ _ _ Hn), (proj2 (Z.eqb_neq _ _)) by done. by rewrite Er.
Qed.


Definition total (sizes : list Z) : Z := foldr Z.add 0 sizes.

Lemma usage_total l : Forall (λ len, len ≤ CONFIG_MTU) l → usage l = total l.
Proof. induction 1 as [|x l Hx _ IH]; [done|]. unfold usage, total in *. cbn. rewrite IH. lia. Qed.

(** C7: outside of the bootstrapping phase, in which bandwidth is unlimited, the
    packets that are sent, and those that are taken from the router, have at most
    as many bytes as the configured bandwidth allows: from the start of the
    refills, one millisecond's share for every millisecond that has begun - when
    no packet is larger than the MTU; a larger one counts as one MTU only.  The
    buckets never hold more than their capacity, one share and one MTU. *)
Theorem interface_rate_limit bwDown bwUp block mode r c0 c :
  initial bwDown bwUp block mode r c0 → rtc step c0 c →
  let n := net c in
  let milliseconds := if decide (refills n = 0) then 0
                      else (now (clock n) - timeStartedRefillingBuckets (iface n)) / interval + 1 in
  let sent := limited (sent n) in let received := limited (received n) in
  usage sent ≤ milliseconds * refill_rate bwUp ∧ usage received ≤ milliseconds * refill_rate bwDown ∧
  (Forall (λ len, len ≤ CONFIG_MTU) sent → total sent ≤ milliseconds * refill_rate bwUp) ∧
  (Forall (λ len, len ≤ CONFIG_MTU) received → total received ≤ milliseconds * refill_rate bwDown) ∧
  0 ≤ bytesRemaining (sendBucket (iface n)) ≤ bytesCapacity (sendBucket (iface n)) ∧
  0 ≤ bytesRemaining (receiveBucket (iface n)) ≤ bytesCapacity (receiveBucket (iface n)).
Proof.
  intros H0 Hr n ms snt rcv. pose proof (net_steps_inv _ _ Hr (net_initial_inv _ _ _ _ _ _ H0)) as (Hn & _ & _). fold n in Hn.
  destruct H0 as (Hd & Hu & Eu & Ed & _).
  destruct (no_send _ _ _ _ Hn) as [S1 [_ S2] _ S4 _]. destruct (no_receive _ _ _ _ Hn) as [R1 [_ R2] _ R4 _].
  assert (Hms : refills n ≤ ms).
  { unfold ms. destruct (no_refill _ _ _ _ Hn) as [_ Hc _]. case_decide; [lia|]. destruct Hc as (_ & _ & Hc).
    enough (refills n - 1 ≤ (now (clock n) - timeStartedRefillingBuckets (iface n)) / interval) by lia.
    apply Z.div_le_lower_bound; [done|]. lia. }
  rewrite Eu, Ed in *. fold snt in S4. fold rcv in R4.
  assert (U1 : usage snt ≤ ms * refill_rate bwUp) by nia.
  assert (U2 : usage rcv ≤ ms * refill_rate bwDown) by nia.
  split; [done|]. split; [done|]. split; [by intros <-%usage_total|]. by split; [intros <-%usage_total|].
Qed.

(** A socket can be associated while no other has its key, and taking the
    association back leaves the table and the socket's reference count as they
    were. *)
Theorem association_roundtrip bwDown bwUp block mode r c0 c a s key :
  initial bwDown bwUp block mode r c0 → rtc step c0 c →
  sockets (world (net c)) !! a = Some s → _networkinterface_socketToAssociationKey ops (net c) (sock a) = Some key →
  boundSockets (iface (net c)) !! key = None →
  ∃ n1 n2 s', networkinterface_associate ops (net c) (sock a) = Some n1 ∧ networkinterface_disassociate ops n1 (sock a) = Some n2 ∧
    boundSockets (iface n1) = <[key := tagged a]> (boundSockets (iface (net c))) ∧
    boundSockets (iface n2) = boundSockets (iface (net c)) ∧ sockets (world n2) !! a = Some s' ∧ refs s' = refs s.
Proof.
  intros H0 Hr. destruct (net_steps_inv _ _ Hr (net_initial_inv _ _ _ _ _ _ H0)) as (Hn & _ & _). exact (ok_for association_back (others c) _ (env c) a s key Hn).
Qed.

(** An interface can be freed at any time: every socket loses exactly the
    references of the queues and of the table, sockets that nobody else refers
    to are freed with their packets, and the router releases what it holds. *)
Theorem interface_free_returns bwDown bwUp block mode r c0 c fuel :
  initial bwDown bwUp block mode r c0 → rtc step c0 c → (length (queued (iface (net c))) ≤ fuel)%nat →
  (∀ r, router (iface (net c)) = Some r → Router.referenceCount r = 1) →
  ∃ w, networkinterface_free ops g_renew fuel (net c) = Some w ∧
    held (store w) (socket_packets (sockets w) ++ task_refs (tasks (net c)) ++ (packetCopy <$> inflight (net c)) ++ env c) ∧
    (∀ a s, sockets w !! a = Some s → refs s = others c a ∧ 0 < others c a) ∧
    (∀ a, 0 < others c a → is_Some (sockets w !! a)).
Proof.
  intros H0 Hr Hf Hr1. destruct (net_steps_inv _ _ Hr (net_initial_inv _ _ _ _ _ _ H0)) as (Hn & _ & _).
  destruct (ok_for free_ok (others c) fuel _ _ Hn Hf Hr1) as (w & E & Hw). exists w. split; [done|]. split; [apply Hw|]. split.
  - intros a s Es. destruct (wo_socket _ _ _ _ _ _ _ _ _ _ Hw a s Es) as (_ & _ & _ & Er & ?). change (count [] a) with 0 in Er. lia.
  - intros a Ha. by apply (wo_live _ _ _ _ _ _ _ _ _ _ Hw).
Qed.

(** Once the refills have started, as long as a bucket has room there is
    exactly one refill on its way, at a whole number of milliseconds after the
    start and at most one millisecond ahead; so a socket that waits for tokens
    is served again. *)
Theorem interface_refills_pending bwDown bwUp block mode r c0 c :
  initial bwDown bwUp block mode r c0 → rtc step c0 c →
  let n := net c in
  (length (refill_times (tasks n)) ≤ 1)%nat ∧
  (0 < refills n → ¬ full (sendBucket (iface n)) ∨ ¬ full (receiveBucket (iface n)) →
   ∃ j, refill_times (tasks n) = [timeStartedRefillingBuckets (iface n) + j * interval] ∧
     now (clock n) ≤ timeStartedRefillingBuckets (iface n) + j * interval ≤ now (clock n) + interval).
Proof.
  intros H0 Hr n. destruct (net_steps_inv _ _ Hr (net_initial_inv _ _ _ _ _ _ H0)) as (Hn & _ & Hl). fold n in Hn, Hl.
  destruct (no_refill _ _ _ _ Hn) as [Hp Hc _]. split.
  - destruct (isRefillPending (iface n)); [|by rewrite Hp; cbn; lia]. destruct Hp as (j & -> & _). cbn. lia.
  - intros Hpos Hroom. destruct Hl as [?|[E|[? ?]]]; [lia| |tauto]. rewrite E in Hp.
    destruct Hp as (j & Hp & _ & ? & ?). by exists j.
Qed.

End Invariant.

(** ** Witnesses *)

Module Demo.
Import Udp.
#[local] Existing Instances Socket.socket_eta Udp.udp_eta.

Definition demo_name : Z → string := λ _, EmptyString.
Definition demo_hooks := RQ.routerqueuestatic_getHooks demo_name false.
#[global] Instance demo_laws : RQ.QueueManagerLaws false demo_hooks RQ.s_packets RQ.static_ok := RQ.static_laws demo_name false.
Definition demo_renew : Z → nat → Z := λ block _, block.

(** A socket that wants to send a datagram of three bytes. *)
Definition demo_socket : UDP :=
  (udp_new 100 100) <| super := (super (udp_new 100 100)) <| Socket.outputBuffer := [1] |> <| Socket.outputBufferLength := 3 |> |>.

Definition demo_router : Router.Router RQ.QueueManagerStatic :=
  Router.mkRouter Router.QUEUE_MANAGER_STATIC demo_hooks (RQ.new demo_hooks) 5 0.

(** Packet 1 goes to the interface's own address. *)
Definition demo_start : Config :=
  mkConfig
    (mkNet (mkWorld demo_store {[8 := demo_socket]})
       ((networkinterface_new 30 1000 2000 64 Q_DISC_MODE_ROUND_ROBIN) <| router := Router.router_ref <$> Some demo_router |>)
       (mkClock true false 5) (random_new 7) [] [] [] [] 0)
    [3] (λ a, if a =? 8 then 1 else 0).

Abbreviation ops := (udp_ops demo_name false).

Definition demo_started : Config :=
  mkConfig (default (net demo_start) (networkinterface_startRefillingTokenBuckets ops demo_renew demo_name false
    demo_rand demo_paths 9 (net demo_start))) (env demo_start) (others demo_start).

Definition demo_sent : Config :=
  mkConfig (default (net demo_start) (networkinterface_wantsSend ops demo_renew demo_name false
    demo_rand demo_paths 9 (net demo_started) (compatsocket_fromLegacySocket 8))) (env demo_start) (others demo_start).

Abbreviation contents := (λ u, Socket.contents (super u)).
Abbreviation out := (λ u, Socket.out_queue (super u)).
Abbreviation refs := (λ u, Desc.referenceCount (Socket.super (super u))).
Abbreviation ok := (λ st u, Socket.sock_ok st (super u)).
Abbreviation is_initial :=
  (initial false contents out refs ok demo_hooks RQ.s_packets 30 true (refill_rate 2000) (refill_rate 1000)
     1000 2000 64 Q_DISC_MODE_ROUND_ROBIN (Some demo_router)).
Abbreviation steps :=
  (rtc (step ops demo_renew demo_name false demo_rand demo_paths contents out refs ok RQ.s_packets true)).

Lemma demo_initial : is_initial demo_start.
Proof.
  split; [lia|]. split; [lia|]. do 5 (split; [done|]). do 6 (split; [done|]). split; [by vm_compute|].
  split; [|by vm_compute]. split.
  - exact demo_held.
  - intros a u. cbn. intros [<- <-]%lookup_singleton_Some. split; [by vm_compute|]. split; [|split; [|split; by vm_compute]].
    + constructor; [split|split|]; by vm_compute.
    + apply Forall_singleton. destruct (packets demo_store !! 1) as [p|] eqn:E; [|by vm_compute in E].
      by exists p.
  - intros a. cbn. destruct (Z.eqb_spec a 8) as [->|]; [|done]. intros _. eexists. apply lookup_singleton_eq.
  - intros a. cbn. by case_match.
Qed.

Lemma default_some {A} (o : option A) d : bool_decide (is_Some o) = true → o = Some (default d o).
Proof. intros H%bool_decide_eq_true. by destruct H as [x ->]. Qed.

Lemma demo_start_step : steps demo_start demo_started.
Proof.
  apply rtc_once.
  apply (step_start _ _ _ _ _ _ _ _ _ _ _ _ demo_start 9); [done|apply Nat.ltb_lt; by vm_compute|apply default_some; by vm_compute].
Qed.

Lemma demo_steps : steps demo_start demo_sent.
Proof.
  eapply rtc_r; [exact demo_start_step|].
  apply (step_wantsSend _ _ _ _ _ _ _ _ _ _ _ _ demo_started 8 9);
    [apply (bool_decide_eq_true _); by vm_compute|apply Nat.ltb_lt; by vm_compute|apply default_some; by vm_compute].
Qed.

(** The datagram of the socket is for the interface's own address. *)
Lemma demo_sendable : all_sendable demo_paths out 30 true (net demo_started) [8].
Proof.
  assert (Ew : world (net demo_started) = world (net demo_start) ∧ queued (iface (net demo_started)) = []) by by vm_compute.
  destruct Ew as [Ew Eq]. intros a u. rewrite Ew, Eq. cbn. intros _ [<- <-]%lookup_singleton_Some.
  apply Forall_singleton. destruct (packets demo_store !! 1) as [p|] eqn:E; [|by vm_compute in E].
  exists p. split; [done|]. vm_compute in E. injection E as <-. split; [done|]. by left.
Qed.

End Demo.


Lemma interface_rate_limit_witness : sent (net Demo.demo_sent) = [(false, 45)] ∧ usage (limited (sent (net Demo.demo_sent))) ≤ 1 * 2048.
Proof.
  split; [by vm_compute|].
  exact (proj1 (interface_rate_limit Demo.ops Demo.demo_renew Demo.demo_name false demo_rand demo_paths _ _ _ _ Demo.demo_hooks
    RQ.s_packets RQ.static_ok 30 true _ _ _ _ _ _ _ _ _ Demo.demo_initial Demo.demo_steps)).
Defined.

Lemma interface_refills_pending_witness :
  ∃ j, refill_times (tasks (net Demo.demo_sent)) = [5 + j * interval].
Proof.
  destruct (interface_refills_pending Demo.ops Demo.demo_renew Demo.demo_name false demo_rand demo_paths _ _ _ _ Demo.demo_hooks
    RQ.s_packets RQ.static_ok 30 true _ _ _ _ _ _ _ _ _ Demo.demo_initial Demo.demo_steps) as [_ H].
  destruct H as (j & E & _); [by vm_compute|left; by vm_compute|]. by exists j.
Defined.
Lemma association_roundtrip_witness :
  ∃ n1 n2, networkinterface_associate Demo.ops (net Demo.demo_sent) (compatsocket_fromLegacySocket 8) = Some n1 ∧
    networkinterface_disassociate Demo.ops n1 (compatsocket_fromLegacySocket 8) = Some n2 ∧
    boundSockets (iface n2) = ∅.
Proof.
  destruct (sockets (world (net Demo.demo_sent)) !! 8) as [s|] eqn:Es; [|by vm_compute in Es].
  destruct (_networkinterface_socketToAssociationKey Demo.ops (net Demo.demo_sent) (compatsocket_fromLegacySocket 8))
    as [key|] eqn:Ek; [|by vm_compute in Ek].
  assert (Eb : boundSockets (iface (net Demo.demo_sent)) = ∅) by by vm_compute.
  destruct (association_roundtrip Demo.ops Demo.demo_renew Demo.demo_name false demo_rand demo_paths _ _ _ _ Demo.demo_hooks
    RQ.s_packets RQ.static_ok 30 true _ _ _ _ _ _ _ _ _ 8 s key Demo.demo_initial Demo.demo_steps Es Ek ltac:(by rewrite Eb))
    as (n1 & n2 & _ & E1 & E2 & _ & E3 & _).
  exists n1, n2. split; [exact E1|]. split; [exact E2|]. by rewrite E3.
Defined.

Lemma interface_free_returns_witness :
  ∃ w, networkinterface_free Demo.ops Demo.demo_renew 1 (net Demo.demo_sent) = Some w ∧
    is_Some (sockets w !! 8).
Proof.
  destruct (interface_free_returns Demo.ops Demo.demo_renew Demo.demo_name false demo_rand demo_paths _ _ _ _ Demo.demo_hooks
    RQ.s_packets RQ.static_ok 30 true _ _ _ _ _ _ _ _ _ 1 Demo.demo_initial Demo.demo_steps) as (w & E & _ & _ & H).
  - apply Nat.leb_le. by vm_compute.
  - assert (E1 : (Router.referenceCount <$> router (iface (net Demo.demo_sent))) = Some 1) by by vm_compute.
    intros r Er. rewrite Er in E1. by injection E1.
  - exists w. split; [exact E|]. by apply H.
Defined.

(** A packet to the interface's own address takes tokens although it does not
    leave the host. *)
Lemma loopback_consumes_bandwidth :
  bytesRemaining (sendBucket (iface (net Demo.demo_started))) = 2048 ∧
  bytesRemaining (sendBucket (iface (net Demo.demo_sent))) = 2048 - 45 ∧
  tasks (net Demo.demo_sent) = tasks (net Demo.demo_started) ++ [(6, ReceivePacket 1)].
Proof. by vm_compute. Qed.

End InterfaceSafety.
