(* ===== verification/Epoll.v ===== *)
(** * Epoll
    (src/phantom/src/main/host/descriptor/epoll.c, host/syscall/epoll.c)

    An epoll instance watches descriptors and files for the events its owner
    asked for.  It listens to the status of each, keeps the watches that have
    an event to report in a second table, and is itself readable while that
    table is not empty, so that an instance can be watched by another: a status
    change travels up through the instances.  The watches are shared between
    the two tables and live in memory with the listeners, the descriptors and
    the instances.

    Files of the newer kind are implemented in Rust (descriptor/mod.rs); an
    instance uses their status, their listeners and their reference count. *)

From S2P Require Import Prelude Descriptor Timer TimerFd.

Module Epoll.
Import Desc.

(** ** Data *)

Definition EWF_NONE : Z := 0.
Definition EWF_ACTIVE : Z := 2 ^ 0.
Definition EWF_READABLE : Z := 2 ^ 1.
Definition EWF_WAITINGREAD : Z := 2 ^ 2.
Definition EWF_READCHANGED : Z := 2 ^ 3.
Definition EWF_WRITEABLE : Z := 2 ^ 4.
Definition EWF_WAITINGWRITE : Z := 2 ^ 5.
Definition EWF_WRITECHANGED : Z := 2 ^ 6.
Definition EWF_CLOSED : Z := 2 ^ 7.
Definition EWF_WATCHING : Z := 2 ^ 8.
Definition EWF_EDGETRIGGER : Z := 2 ^ 9.
Definition EWF_EDGETRIGGER_REPORTED : Z := 2 ^ 10.
Definition EWF_ONESHOT : Z := 2 ^ 11.
Definition EWF_ONESHOT_REPORTED : Z := 2 ^ 12.

(** sys/epoll.h *)
Definition EPOLLIN : Z := 2 ^ 0.
Definition EPOLLOUT : Z := 2 ^ 2.
Definition EPOLLONESHOT : Z := 2 ^ 30.
Definition EPOLLET : Z := 2 ^ 31.
Definition EPOLL_CTL_ADD : Z := 1.
Definition EPOLL_CTL_DEL : Z := 2.
Definition EPOLL_CTL_MOD : Z := 3.
Definition EPOLL_CLOEXEC : Z := TimerFd.O_CLOEXEC.
Definition EEXIST : Z := 17.
Definition ENOENT : Z := 2.

Inductive EpollWatchTypes := EWT_LEGACY_DESCRIPTOR | EWT_POSIX_FILE.

#[export] Instance EpollWatchTypes_eq_dec : EqDecision EpollWatchTypes.
Proof. solve_decision. Defined.

(** What a watch is on: the kind and the address. *)
Abbreviation Object := (EpollWatchTypes * Z)%type.

(** [struct epoll_event] *)
Record EpollEvent := mkEvent {
  events : Z;
  data : Z;
}.

Record EpollWatch := mkWatch {
  id : Z;
  watchObject : Object;
  fd : Z;
  listener : Z;
  event : EpollEvent;
  w_flags : Z;
  last_reported_event_time : Z;
  w_referenceCount : Z;
}.

#[export] Instance watch_eta : Eta EpollWatch := fun w =>
  mkWatch (id w) (watchObject w) (fd w) (listener w) (event w) (w_flags w) (last_reported_event_time w) (w_referenceCount w).

(** The descriptor's number and the object's address. *)
Abbreviation EpollKey := (Z * Z)%type.

(** The tables hold addresses of watches; the descriptor of the instance is
    the descriptor at the same address. *)
Record Epoll := mkEpoll {
  watching : gmap EpollKey Z;
  ready : gmap EpollKey Z;
  watch_id_counter : Z;
}.

#[export] Instance epoll_eta : Eta Epoll := fun e => mkEpoll (watching e) (ready e) (watch_id_counter e).

(** What an instance uses of a file in Rust. *)
Record PosixFile := mkFile {
  file_status : Z;
  file_listeners : list Z;
  file_refs : Z;
}.

#[export] Instance file_eta : Eta PosixFile := fun f => mkFile (file_status f) (file_listeners f) (file_refs f).

(** The memory beside descriptors and listeners.  [woken] records the calls of
    callbacks that are not an instance's, as object and argument. *)
Record Memory := mkMemory {
  epolls : gmap Z Epoll;
  watches : gmap Z EpollWatch;
  epollkeys : gmap Z EpollKey;
  posixfiles : gmap Z PosixFile;
  woken : list (Z * Z);
}.

#[export] Instance memory_eta : Eta Memory := fun m =>
  mkMemory (epolls m) (watches m) (epollkeys m) (posixfiles m) (woken m).

Abbreviation World := (World Memory).
Implicit Types w : World.

Definition mem w (f : Memory → Memory) : World := w <| external := f (external w) |>.
Definition set_epoll w (e : Z) (ep : Epoll) : World := mem w (λ m, m <| epolls := <[e := ep]> (epolls m) |>).
Definition set_watch w (a : Z) (W : EpollWatch) : World := mem w (λ m, m <| watches := <[a := W]> (watches m) |>).
Definition get_epoll w (e : Z) : option Epoll := epolls (external w) !! e.
Definition get_watch w (a : Z) : option EpollWatch := watches (external w) !! a.

(** The free functions of listeners: an instance's listener owns its key. *)
Definition free_object w (object : Z) : option World :=
  Some (mem w (λ m, m <| epollkeys := delete object (epollkeys m) |>)).

(** ** Files (the functions of mod.rs that C calls) *)

Definition posixfile_getStatus w (file : Z) : option Z := file_status <$> posixfiles (external w) !! file.

Definition set_file w (file : Z) (f : PosixFile) : World := mem w (λ m, m <| posixfiles := <[file := f]> (posixfiles m) |>).

Definition posixfile_addListener w (file l : Z) : option World :=
  f ← posixfiles (external w) !! file;
  if bool_decide (l ∈ file_listeners f) then Some w
  else statuslistener_ref (set_file w file (f <| file_listeners := file_listeners f ++ [l] |>)) l.

Definition posixfile_removeListener w (file l : Z) : option World :=
  f ← posixfiles (external w) !! file;
  if bool_decide (l ∈ file_listeners f) then
    statuslistener_unref free_object (set_file w file (f <| file_listeners := list_difference (file_listeners f) [l] |>)) l
  else Some w.

(** The last reference drops the file with its listeners. *)
Definition posixfile_drop w (file : Z) : option World :=
  f ← posixfiles (external w) !! file;
  if file_refs f =? 1 then
    foldl (λ r l, w ← r; statuslistener_unref free_object w l)
      (Some (mem w (λ m, m <| posixfiles := delete file (posixfiles m) |>))) (file_listeners f)
  else Some (set_file w file (f <| file_refs := file_refs f - 1 |>)).

(** [compatdescriptor_newRefPosixFile] on a file *)
Definition posixfile_newRef w (file : Z) : option World :=
  f ← posixfiles (external w) !! file;
  Some (set_file w file (f <| file_refs := file_refs f + 1 |>)).

(** ** Comparing watches *)

(** [None]: two watches with one id (a failed assertion). *)
Definition _epollwatch_compare (watch_1 watch_2 : EpollWatch) : option Z :=
  if last_reported_event_time watch_1 <? last_reported_event_time watch_2 then Some (-1)
  else if last_reported_event_time watch_2 <? last_reported_event_time watch_1 then Some 1
  else if id watch_1 =? id watch_2 then None
  else Some (if id watch_1 <? id watch_2 then -1 else 1).

(** [g_list_sort] on the addresses of watches. *)
Fixpoint insert_sorted w (x : Z) (l : list Z) : option (list Z) :=
  match l with
  | [] => Some [x]
  | y :: l' =>
      X ← get_watch w x;
      Y ← get_watch w y;
      c ← _epollwatch_compare X Y;
      if c <? 0 then Some (x :: y :: l') else r ← insert_sorted w x l'; Some (y :: r)
  end.

Definition g_list_sort w (l : list Z) : option (list Z) :=
  foldr (λ x r, l ← r; insert_sorted w x l) (Some []) l.

Definition g_hash_table_get_values (table : gmap EpollKey Z) : list Z := (map_to_list table).*2.

(** ** The state of a watch *)

Definition flag_if (b : bool) (flag : Z) : Z := if b then flag else EWF_NONE.

Definition _epollwatch_updateStatus (watch : EpollWatch) (status : Z) : EpollWatch :=
  let keep flag := flag_if (has_flag (w_flags watch) flag) flag in
  let lazyFlags := keep EWF_READCHANGED in
  let lazyFlags := Z.lor lazyFlags (keep EWF_WRITECHANGED) in
  let lazyFlags := Z.lor lazyFlags (keep EWF_WATCHING) in
  let lazyFlags := Z.lor lazyFlags (keep EWF_EDGETRIGGER_REPORTED) in
  let lazyFlags := Z.lor lazyFlags (keep EWF_ONESHOT_REPORTED) in
  let oldFlags := w_flags watch in
  let requested := events (event watch) in
  let flags := flag_if (has_flag status STATUS_DESCRIPTOR_ACTIVE) EWF_ACTIVE in
  let flags := Z.lor flags (flag_if (has_flag status STATUS_DESCRIPTOR_READABLE) EWF_READABLE) in
  let flags := Z.lor flags (flag_if (has_flag status STATUS_DESCRIPTOR_WRITABLE) EWF_WRITEABLE) in
  let flags := Z.lor flags (flag_if (has_flag status STATUS_DESCRIPTOR_CLOSED) EWF_CLOSED) in
  let flags := Z.lor flags (flag_if (has_flag requested EPOLLIN) EWF_WAITINGREAD) in
  let flags := Z.lor flags (flag_if (has_flag requested EPOLLOUT) EWF_WAITINGWRITE) in
  let flags := Z.lor flags (flag_if (has_flag requested EPOLLET) EWF_EDGETRIGGER) in
  let flags := Z.lor flags (flag_if (has_flag requested EPOLLONESHOT) EWF_ONESHOT) in
  let flags := Z.lor flags lazyFlags in
  let flags := if xorb (has_flag oldFlags EWF_READABLE) (has_flag flags EWF_READABLE)
               then Z.lor flags EWF_READCHANGED else flags in
  let flags := if xorb (has_flag oldFlags EWF_WRITEABLE) (has_flag flags EWF_WRITEABLE)
               then Z.lor flags EWF_WRITECHANGED else flags in
  watch <| w_flags := flags |>.

Definition _epollwatch_isReady (watch : EpollWatch) : bool :=
  let has flag := has_flag (w_flags watch) flag in
  if has EWF_CLOSED || negb (has EWF_ACTIVE) || negb (has EWF_WATCHING) then false else
  let hasReadEvent := has EWF_READABLE && has EWF_WAITINGREAD in
  let hasWriteEvent := has EWF_WRITEABLE && has EWF_WAITINGWRITE in
  let isReady :=
    if has EWF_EDGETRIGGER then
      (hasReadEvent && (has EWF_READCHANGED || negb (has EWF_EDGETRIGGER_REPORTED))) ||
      (hasWriteEvent && (has EWF_WRITECHANGED || negb (has EWF_EDGETRIGGER_REPORTED)))
    else hasReadEvent || hasWriteEvent in
  if isReady && has EWF_ONESHOT && has EWF_ONESHOT_REPORTED then false else isReady.

(** What a watch tells the application, and what it remembers of that. *)
Definition reported_events (watch : EpollWatch) : Z :=
  let has flag := has_flag (w_flags watch) flag in
  Z.lor (Z.lor (if has EWF_READABLE && has EWF_WAITINGREAD then EPOLLIN else 0)
               (if has EWF_WRITEABLE && has EWF_WAITINGWRITE then EPOLLOUT else 0))
        (if has EWF_EDGETRIGGER then EPOLLET else 0).

Definition report (watch : EpollWatch) (now : Z) : EpollWatch :=
  let watch := watch <| last_reported_event_time := now |> in
  let flags := clear_flags (clear_flags (w_flags watch) EWF_READCHANGED) EWF_WRITECHANGED in
  let flags := if has_flag flags EWF_EDGETRIGGER then Z.lor flags EWF_EDGETRIGGER_REPORTED else flags in
  let flags := if has_flag flags EWF_ONESHOT then Z.lor flags EWF_ONESHOT_REPORTED else flags in
  watch <| w_flags := flags |>.

Section Operations.
(** The [free] function of a descriptor whose last reference is gone. *)
Context (free_descriptor : World → Z → option World).

(** ** Objects *)

Definition object_getStatus w (o : Object) : option Z :=
  match o.1 with
  | EWT_LEGACY_DESCRIPTOR => descriptor_getStatus <$> descriptors w !! o.2
  | EWT_POSIX_FILE => posixfile_getStatus w o.2
  end.

Definition object_addListener w (o : Object) (l : Z) : option World :=
  match o.1 with
  | EWT_LEGACY_DESCRIPTOR => descriptor_addListener free_object w o.2 l
  | EWT_POSIX_FILE => posixfile_addListener w o.2 l
  end.

Definition object_removeListener w (o : Object) (l : Z) : option World :=
  match o.1 with
  | EWT_LEGACY_DESCRIPTOR => descriptor_removeListener free_object w o.2 l
  | EWT_POSIX_FILE => posixfile_removeListener w o.2 l
  end.

Definition set_descriptor w (d : Z) (desc : LegacyDescriptor) : World := w <| descriptors := <[d := desc]> (descriptors w) |>.

Definition world_descriptor_ref w (d : Z) : option World :=
  desc ← descriptors w !! d;
  Some (set_descriptor w d (descriptor_ref desc)).

Definition world_descriptor_unref w (d : Z) : option World :=
  desc ← descriptors w !! d;
  '(desc, gone) ← descriptor_unref desc;
  let w := set_descriptor w d desc in
  if gone : bool then free_descriptor w d else Some w.

(** ** Watches *)

(** [addrs]: the memory for the watch, its listener and the listener's key. *)
Definition _epollwatch_new w (e : Z) (fd : Z) (object : Object) (event : EpollEvent) (addrs : Z * Z * Z)
    : option World :=
  let '(a, l, k) := addrs in
  ep ← get_epoll w e;
  w ← match object.1 with EWT_LEGACY_DESCRIPTOR => world_descriptor_ref w object.2 | EWT_POSIX_FILE => Some w end;
  let counter := u64 (watch_id_counter ep + 1) in
  let w := set_epoll w e (ep <| watch_id_counter := counter |>) in
  let w := mem w (λ m, m <| epollkeys := <[k := (fd, object.2)]> (epollkeys m) |>) in
  let w := w <| statuslisteners := <[l := statuslistener_new 1 e 0 k 1]> (statuslisteners w) |> in
  Some (set_watch w a (mkWatch counter object fd l event 0 0 1)).

Definition _epollwatch_free w (a : Z) : option World :=
  W ← get_watch w a;
  w ← statuslistener_unref free_object w (listener W);
  w ← match (watchObject W).1 with
      | EWT_LEGACY_DESCRIPTOR => world_descriptor_unref w (watchObject W).2
      | EWT_POSIX_FILE => posixfile_drop w (watchObject W).2
      end;
  Some (mem w (λ m, m <| watches := delete a (watches m) |>)).

Definition _epollwatch_ref w (a : Z) : option World :=
  W ← get_watch w a;
  Some (set_watch w a (W <| w_referenceCount := w_referenceCount W + 1 |>)).

Definition _epollwatch_unref w (a : Z) : option World :=
  W ← get_watch w a;
  let W := W <| w_referenceCount := w_referenceCount W - 1 |> in
  let w := set_watch w a W in
  if w_referenceCount W <=? 0 then _epollwatch_free w a else Some w.

(** [g_hash_table_remove] on the tables, which unrefs the value. *)
Definition remove_ready w (e : Z) (key : EpollKey) : option World :=
  ep ← get_epoll w e;
  match ready ep !! key with
  | None => Some w
  | Some a => _epollwatch_unref (set_epoll w e (ep <| ready := delete key (ready ep) |>)) a
  end.

Definition remove_watching w (e : Z) (key : EpollKey) : option World :=
  ep ← get_epoll w e;
  match watching ep !! key with
  | None => Some w
  | Some a => _epollwatch_unref (set_epoll w e (ep <| watching := delete key (watching ep) |>)) a
  end.

(** ** Status changes *)

Definition epoll_getNumReadyEvents (ep : Epoll) : Z := Z.of_nat (size (ready ep)).

Section Notify.
Context (notify : World → Z → Z → Z → option World).

(** The end of every change: the status of the instance itself. *)
Definition adjust_readable w (e : Z) : option World :=
  ep ← get_epoll w e;
  '(w, _) ← descriptor_adjustStatus notify w e STATUS_DESCRIPTOR_READABLE (negb (epoll_getNumReadyEvents ep =? 0));
  Some w.

(** The part of [_epoll_descriptorStatusChanged] about the watch. *)
Definition update_watch w (e : Z) (key : EpollKey) : option World :=
  ep ← get_epoll w e;
  match watching ep !! key with
  | None => Some w
  | Some a =>
      W ← get_watch w a;
      status ← object_getStatus w (watchObject W);
      let W := _epollwatch_updateStatus W status in
      let w := set_watch w a W in
      if _epollwatch_isReady W then
        match ready ep !! key with
        | Some _ => Some w
        | None =>
            w ← _epollwatch_ref w a;
            Some (set_epoll w e (ep <| ready := <[key := a]> (ready ep) |>))
        end
      else remove_ready w e key
  end.

Definition _epoll_descriptorStatusChanged w (e : Z) (key : option EpollKey) : option World :=
  w ← match key with Some key => update_watch w e key | None => Some w end;
  adjust_readable w e.

End Notify.

(** The callback of a listener: an instance's when its object is an instance.
    [fuel] bounds how far instances that watch each other are nested. *)
Fixpoint notify (fuel : nat) w (notifyFunc object argument : Z) : option World :=
  match get_epoll w object with
  | None => Some (mem w (λ m, m <| woken := woken m ++ [(object, argument)] |>))
  | Some _ =>
      match fuel with
      | O => None
      | S fuel =>
          key ← (if argument =? 0 then Some None else key ← epollkeys (external w) !! argument; Some (Some key));
          _epoll_descriptorStatusChanged (notify fuel) w object key
      end
  end.

(** A file changes its status: its listeners are queued with the change and run
    in turn (pipe.rs, [notify_listeners] in utility/event_queue.rs, and the
    closure of [add_listener] in mod.rs). *)
Fixpoint run_listeners (fuel : nat) w (st changed : Z) (items : list Z) : option World :=
  match items with
  | [] => Some w
  | l :: items =>
      '(w, _) ← statuslistener_onStatusChanged (notify fuel) w l st changed;
      run_listeners fuel w st changed items
  end.

Definition posixfile_setStatus (fuel : nat) w (file st : Z) : option World :=
  f ← posixfiles (external w) !! file;
  let changed := Z.lxor st (file_status f) in
  let w := set_file w file (f <| file_status := st |>) in
  if changed =? 0 then Some w else run_listeners fuel w st changed (file_listeners f).

(** ** Operations *)

(** [getWatchObject] takes a reference to a file of the newer kind. *)
Definition _getWatchObject w (descriptor : Object) : option World :=
  match descriptor.1 with
  | EWT_LEGACY_DESCRIPTOR => Some w
  | EWT_POSIX_FILE => posixfile_newRef w descriptor.2
  end.

Definition set_monitor w (l st : Z) (f : StatusListenerFilter) : option World :=
  with_listener w l (λ s, statuslistener_setMonitorStatus s st f).

(** All statuses an instance listens to. *)
Definition MONITORED : Z :=
  Z.lor (Z.lor (Z.lor STATUS_DESCRIPTOR_ACTIVE STATUS_DESCRIPTOR_CLOSED) STATUS_DESCRIPTOR_READABLE) STATUS_DESCRIPTOR_WRITABLE.

(** [case EPOLL_CTL_ADD], up to the callback for the new watch. *)
Definition epoll_control_add w (e fd : Z) (descriptor : Object) (new_event : EpollEvent) (addrs : Z * Z * Z) : option World :=
  let '(a, l, _) := addrs in
  w ← _epollwatch_new w e fd descriptor new_event addrs;
  W ← get_watch w a;
  let w := set_watch w a (W <| w_flags := set_flags (w_flags W) EWF_WATCHING |>) in
  ep ← get_epoll w e;
  let w := set_epoll w e (ep <| watching := <[(fd, descriptor.2) := a]> (watching ep) |>) in
  w ← set_monitor w l MONITORED SLF_ALWAYS;
  object_addListener w descriptor l.

(** [case EPOLL_CTL_DEL], up to the callback without a watch. *)
Definition epoll_control_del w (e a : Z) (key : EpollKey) : option World :=
  W ← get_watch w a;
  let w := set_watch w a (W <| w_flags := clear_flags (w_flags W) EWF_WATCHING |>) in
  w ← set_monitor w (listener W) STATUS_NONE SLF_NEVER;
  w ← object_removeListener w (watchObject W) (listener W);
  w ← remove_ready w e key;
  remove_watching w e key.

Definition epoll_control (fuel : nat) w (e operation fd : Z) (descriptor : Object) (new_event : option EpollEvent)
    (addrs : Z * Z * Z) : option (World * Z) :=
  w ← _getWatchObject w descriptor;
  let key := (fd, descriptor.2) in
  ep ← get_epoll w e;
  let watch := watching ep !! key in
  if operation =? EPOLL_CTL_ADD then
    match watch with
    | Some _ => Some (w, - EEXIST)
    | None =>
        ev ← new_event;
        w ← epoll_control_add w e fd descriptor ev addrs;
        w ← _epoll_descriptorStatusChanged (notify fuel) w e (Some key);
        Some (w, 0)
    end
  else if operation =? EPOLL_CTL_MOD then
    match watch with
    | None => Some (w, - ENOENT)
    | Some a =>
        W ← get_watch w a;
        ev ← new_event;
        if negb (has_flag (w_flags W) EWF_WATCHING) then None else
        let flags := clear_flags (clear_flags (w_flags W) EWF_EDGETRIGGER_REPORTED) EWF_ONESHOT_REPORTED in
        let w := set_watch w a (W <| event := ev |> <| w_flags := flags |>) in
        w ← _epoll_descriptorStatusChanged (notify fuel) w e (Some key);
        Some (w, 0)
    end
  else if operation =? EPOLL_CTL_DEL then
    match watch with
    | None => Some (w, - ENOENT)
    | Some a =>
        w ← epoll_control_del w e a key;
        w ← _epoll_descriptorStatusChanged (notify fuel) w e None;
        Some (w, 0)
    end
  else Some (w, 0).

(** The loop over the sorted watches: [room] events still fit. *)
Fixpoint collect w (now : Z) (room : nat) (l : list Z) : option (World * list EpollEvent) :=
  match l, room with
  | [], _ | _, O => Some (w, [])
  | a :: l, S room' =>
      W ← get_watch w a;
      if _epollwatch_isReady W then
        '(w, evs) ← collect (set_watch w a (report W now)) now room' l;
        Some (w, mkEvent (reported_events W) (data (event W)) :: evs)
      else collect w now room l
  end.

Definition epoll_getEvents (fuel : nat) w (e now eventArrayLength : Z) : option (World * list EpollEvent) :=
  ep ← get_epoll w e;
  l ← g_list_sort w (g_hash_table_get_values (ready ep));
  '(w, evs) ← collect w now (Z.to_nat eventArrayLength) l;
  w ← adjust_readable (notify fuel) w e;
  Some (w, evs).

(** One watch stops listening. *)
Definition clear_listener w (a : Z) : option World :=
  W ← get_watch w a;
  w ← set_monitor w (listener W) STATUS_NONE SLF_NEVER;
  object_removeListener w (watchObject W) (listener W).

Definition epoll_clearWatchListeners w (e : Z) : option World :=
  ep ← get_epoll w e;
  l ← g_list_sort w (g_hash_table_get_values (watching ep));
  foldl (λ r a, w ← r; clear_listener w a) (Some w) l.

Definition unref_all w (l : list Z) : option World := foldl (λ r a, w ← r; _epollwatch_unref w a) (Some w) l.

Definition epoll_reset w (e : Z) : option World :=
  w ← epoll_clearWatchListeners w e;
  ep ← get_epoll w e;
  w ← unref_all (set_epoll w e (ep <| ready := ∅ |>)) (g_hash_table_get_values (ready ep));
  ep ← get_epoll w e;
  unref_all (set_epoll w e (ep <| watching := ∅ |>)) (g_hash_table_get_values (watching ep)).

(** The second result asks the caller to deregister the descriptor. *)
Definition _epoll_close w (e : Z) : option (World * bool) :=
  w ← epoll_clearWatchListeners w e; Some (w, true).

Definition _epoll_free w (e : Z) : option World :=
  ep ← get_epoll w e;
  w ← unref_all w (g_hash_table_get_values (watching ep));
  w ← unref_all w (g_hash_table_get_values (ready ep));
  desc ← descriptors w !! e;
  w ← foldl (λ r l, w ← r; statuslistener_unref free_object w l) (Some w) (listeners desc);
  Some (mem (w <| descriptors := delete e (descriptors w) |>) (λ m, m <| epolls := delete e (epolls m) |>)).

(** [e] is the address of the new instance. *)
Definition epoll_new (fuel : nat) w (e : Z) : option World :=
  let w := set_descriptor w e (descriptor_init DT_EPOLL) in
  let w := set_epoll w e (mkEpoll ∅ ∅ 0) in
  '(w, _) ← descriptor_adjustStatus (notify fuel) w e STATUS_DESCRIPTOR_ACTIVE true;
  Some w.

End Operations.

(** ** Flags *)

Lemma has_flag_lor a b f : has_flag (Z.lor a b) f = has_flag a f || has_flag b f.
Proof.
  unfold has_flag. rewrite Z.land_lor_distr_l. destruct (Z.eqb_spec (Z.land a f) 0) as [->|Ha]; [by rewrite Z.lor_0_l|].
  cbn. destruct (Z.eqb_spec (Z.lor (Z.land a f) (Z.land b f)) 0) as [[? _]%Z.lor_eq_0_iff|]; done.
Qed.

Lemma has_flag_if b i j : 0 ≤ i → 0 ≤ j → has_flag (flag_if b (2 ^ i)) (2 ^ j) = b && (i =? j).
Proof.
  intros. rewrite has_flag_testbit by done. unfold flag_if. destruct b; cbn; [by apply Z.pow2_bits_eqb|apply Z.bits_0].
Qed.

Lemma has_flag_if_lor (b : bool) x i j : 0 ≤ i → 0 ≤ j →
  has_flag (if b then Z.lor x (2 ^ i) else x) (2 ^ j) = has_flag x (2 ^ j) || b && (i =? j).
Proof.
  intros. destruct b; cbn; [|by rewrite orb_false_r]. rewrite has_flag_lor. f_equal. by apply (has_flag_if true).
Qed.

(** The flags after an update. *)
Record flags_of (W W' : EpollWatch) (status : Z) : Prop := mkFlagsOf {
  fl_active : has_flag (w_flags W') EWF_ACTIVE = has_flag status STATUS_DESCRIPTOR_ACTIVE;
  fl_readable : has_flag (w_flags W') EWF_READABLE = has_flag status STATUS_DESCRIPTOR_READABLE;
  fl_writeable : has_flag (w_flags W') EWF_WRITEABLE = has_flag status STATUS_DESCRIPTOR_WRITABLE;
  fl_closed : has_flag (w_flags W') EWF_CLOSED = has_flag status STATUS_DESCRIPTOR_CLOSED;
  fl_waitingread : has_flag (w_flags W') EWF_WAITINGREAD = has_flag (events (event W)) EPOLLIN;
  fl_waitingwrite : has_flag (w_flags W') EWF_WAITINGWRITE = has_flag (events (event W)) EPOLLOUT;
  fl_edge : has_flag (w_flags W') EWF_EDGETRIGGER = has_flag (events (event W)) EPOLLET;
  fl_oneshot : has_flag (w_flags W') EWF_ONESHOT = has_flag (events (event W)) EPOLLONESHOT;
  fl_watching : has_flag (w_flags W') EWF_WATCHING = has_flag (w_flags W) EWF_WATCHING;
  fl_edge_reported : has_flag (w_flags W') EWF_EDGETRIGGER_REPORTED = has_flag (w_flags W) EWF_EDGETRIGGER_REPORTED;
  fl_oneshot_reported : has_flag (w_flags W') EWF_ONESHOT_REPORTED = has_flag (w_flags W) EWF_ONESHOT_REPORTED;
  fl_readchanged : has_flag (w_flags W') EWF_READCHANGED =
    has_flag (w_flags W) EWF_READCHANGED || xorb (has_flag (w_flags W) EWF_READABLE) (has_flag status STATUS_DESCRIPTOR_READABLE);
  fl_writechanged : has_flag (w_flags W') EWF_WRITECHANGED =
    has_flag (w_flags W) EWF_WRITECHANGED || xorb (has_flag (w_flags W) EWF_WRITEABLE) (has_flag status STATUS_DESCRIPTOR_WRITABLE);
}.

Lemma update_flags W status : flags_of W (_epollwatch_updateStatus W status) status.
Proof.
  unfold _epollwatch_updateStatus. cbn [w_flags set_field].
  constructor; cbn [w_flags set_field];
    unfold EWF_ACTIVE, EWF_READABLE, EWF_WRITEABLE, EWF_CLOSED, EWF_WAITINGREAD, EWF_WAITINGWRITE, EWF_EDGETRIGGER,
      EWF_ONESHOT, EWF_WATCHING, EWF_EDGETRIGGER_REPORTED, EWF_ONESHOT_REPORTED, EWF_READCHANGED, EWF_WRITECHANGED.
  all: cbv zeta; rewrite ?has_flag_if_lor, ?has_flag_lor, ?has_flag_if by done.
  all: cbn [Z.eqb Pos.eqb]; rewrite ?andb_false_r, ?andb_true_r, ?orb_false_r, ?orb_false_l; cbn [orb].
  all: rewrite ?andb_false_r, ?andb_true_r, ?orb_false_r, ?orb_false_l; try done.
Qed.

End Epoll.
