(* ===== verification/EpollNotify.v ===== *)
(** * Status changes travel through nested epoll instances

    The tables, the watches and the statuses agree: a watch with an event to
    report is in its instance's second table, and an instance is readable while
    that table is not empty.  A change of status calls the listeners of the
    object, which may be instances that change their own status in turn; the
    agreement holds again when the outermost call returns. *)

From S2P Require Import Prelude Descriptor Timer TimerFd Epoll.

Module EpollNotify.
Import Desc Epoll.

Implicit Types w : World.

(** ** The invariant *)

(** The flags say what the object's status and the requested events are. *)
Record mirrors (W : EpollWatch) (status : Z) : Prop := mkMirrors {
  mi_active : has_flag (w_flags W) EWF_ACTIVE = has_flag status STATUS_DESCRIPTOR_ACTIVE;
  mi_readable : has_flag (w_flags W) EWF_READABLE = has_flag status STATUS_DESCRIPTOR_READABLE;
  mi_writeable : has_flag (w_flags W) EWF_WRITEABLE = has_flag status STATUS_DESCRIPTOR_WRITABLE;
  mi_closed : has_flag (w_flags W) EWF_CLOSED = has_flag status STATUS_DESCRIPTOR_CLOSED;
  mi_waitingread : has_flag (w_flags W) EWF_WAITINGREAD = has_flag (events (event W)) EPOLLIN;
  mi_waitingwrite : has_flag (w_flags W) EWF_WAITINGWRITE = has_flag (events (event W)) EPOLLOUT;
  mi_edge : has_flag (w_flags W) EWF_EDGETRIGGER = has_flag (events (event W)) EPOLLET;
  mi_oneshot : has_flag (w_flags W) EWF_ONESHOT = has_flag (events (event W)) EPOLLONESHOT;
}.

(** An event that was reported in a mode that reports once. *)
Definition was_reported (W : EpollWatch) : bool :=
  has_flag (w_flags W) EWF_EDGETRIGGER && has_flag (w_flags W) EWF_EDGETRIGGER_REPORTED ||
  has_flag (w_flags W) EWF_ONESHOT && has_flag (w_flags W) EWF_ONESHOT_REPORTED.

(** A watch with an event to report is in the second table; one that stays
    there without has reported it. *)
Definition current w (ep : Epoll) (k : EpollKey) (W : EpollWatch) : Prop :=
  (∃ status, object_getStatus w (watchObject W) = Some status ∧ mirrors W status) ∧
  (_epollwatch_isReady W = true → is_Some (ready ep !! k)) ∧
  (is_Some (ready ep !! k) → _epollwatch_isReady W = true ∨ was_reported W = true).

Definition object_listeners w (o : Object) : option (list Z) :=
  match o.1 with
  | EWT_LEGACY_DESCRIPTOR => listeners <$> descriptors w !! o.2
  | EWT_POSIX_FILE => file_listeners <$> posixfiles (external w) !! o.2
  end.

Definition object_refs w (o : Object) : option Z :=
  match o.1 with
  | EWT_LEGACY_DESCRIPTOR => referenceCount <$> descriptors w !! o.2
  | EWT_POSIX_FILE => file_refs <$> posixfiles (external w) !! o.2
  end.

Section Invariant.
(** The nesting level of an object, and the watches whose listeners were
    cleared. *)
Context (level : Object → nat) (silent : Z → Prop).

Abbreviation descriptor d := (EWT_LEGACY_DESCRIPTOR, d).

(** The listener of a watch: in the object's table until it is cleared. *)
Definition listener_ok w (e : Z) (k : EpollKey) (a : Z) (W : EpollWatch) : Prop :=
  ∃ s, statuslisteners w !! listener W = Some s ∧ callbackObject s = e ∧ objectFreeFunc s = 0 ∧ notifyFunc s ≠ 0 ∧
    callbackArgument s ≠ 0 ∧ argumentFreeFunc s ≠ 0 ∧ epollkeys (external w) !! callbackArgument s = Some k ∧
    (¬ silent a → monitoring s = MONITORED ∧ filter s = SLF_ALWAYS ∧ l_referenceCount s = 2 ∧
       ∃ ls, object_listeners w (watchObject W) = Some ls ∧ listener W ∈ ls) ∧
    (silent a → filter s = SLF_NEVER ∧ l_referenceCount s = 1 ∧
       ∀ ls, object_listeners w (watchObject W) = Some ls → listener W ∉ ls).

Record watch_ok w (e : Z) (ep : Epoll) (k : EpollKey) (a : Z) (W : EpollWatch) : Prop := mkWatchOk {
  wk_key : k = (fd W, (watchObject W).2);
  wk_id : 1 ≤ id W ≤ watch_id_counter ep;
  wk_object : is_Some (object_getStatus w (watchObject W));
  wk_level : (level (watchObject W) < level (descriptor e))%nat;
  wk_listener : listener_ok w e k a W;
}.

Definition watchers w (o : Object) : nat :=
  size (base.filter (λ x, watchObject x.2 = o) (watches (external w))).

(** What is not changed by a change of status. *)
Record shape w : Prop := mkShape {
  sh_watch : ∀ e ep k a, get_epoll w e = Some ep → watching ep !! k = Some a →
    ∃ W, get_watch w a = Some W ∧ watch_ok w e ep k a W;
  sh_owner : ∀ e1 e2 ep1 ep2 k1 k2 a, get_epoll w e1 = Some ep1 → get_epoll w e2 = Some ep2 →
    watching ep1 !! k1 = Some a → watching ep2 !! k2 = Some a → e1 = e2 ∧ k1 = k2;
  sh_owned : ∀ a W, get_watch w a = Some W → ∃ e ep k, get_epoll w e = Some ep ∧ watching ep !! k = Some a;
  sh_ids : ∀ e ep k1 k2 a1 a2 W1 W2, get_epoll w e = Some ep → watching ep !! k1 = Some a1 → watching ep !! k2 = Some a2 →
    get_watch w a1 = Some W1 → get_watch w a2 = Some W2 → id W1 = id W2 → a1 = a2;
  sh_args : ∀ a1 a2 W1 W2 s1 s2, get_watch w a1 = Some W1 → get_watch w a2 = Some W2 →
    statuslisteners w !! listener W1 = Some s1 → statuslisteners w !! listener W2 = Some s2 →
    callbackArgument s1 = callbackArgument s2 → a1 = a2;
  sh_epoll : ∀ e ep, get_epoll w e = Some ep → is_Some (descriptors w !! e) ∧ 0 ≤ watch_id_counter ep < 2 ^ 64;
  sh_refs : ∀ o n, object_refs w o = Some n → Z.of_nat (watchers w o) < n;
  sh_listeners : ∀ o ls l, object_listeners w o = Some ls → l ∈ ls →
    ∃ s, statuslisteners w !! l = Some s ∧
      ∀ ep, get_epoll w (callbackObject s) = Some ep →
        ∃ k a W, watching ep !! k = Some a ∧ get_watch w a = Some W ∧ listener W = l ∧ watchObject W = o;
}.

(** What is: [stale] are the watches that were not told yet, [unsettled] is
    an instance that did not adjust its own status yet. *)
Record dyn (stale unsettled : Z → Prop) w : Prop := mkDyn {
  dy_ready : ∀ e ep k a, get_epoll w e = Some ep → ready ep !! k = Some a → watching ep !! k = Some a;
  dy_refs : ∀ e ep k a W, get_epoll w e = Some ep → watching ep !! k = Some a → get_watch w a = Some W →
    w_referenceCount W = 1 + from_option (λ _, 1) 0 (ready ep !! k) ∧ has_flag (w_flags W) EWF_WATCHING = true;
  dy_current : ∀ e ep k a W, get_epoll w e = Some ep → watching ep !! k = Some a → get_watch w a = Some W →
    ¬ stale a → ¬ silent a → current w ep k W;
  dy_settled : ∀ e ep desc, get_epoll w e = Some ep → descriptors w !! e = Some desc → ¬ unsettled e →
    has_flag (status desc) STATUS_DESCRIPTOR_READABLE = negb (epoll_getNumReadyEvents ep =? 0);
}.

(** *** The part that stays *)

Definition erase_watch (W : EpollWatch) : EpollWatch :=
  W <| w_flags := 0 |> <| w_referenceCount := 0 |>.

Definition erase w : World :=
  mkWorld ((λ d, d <| status := 0 |>) <$> descriptors w) (statuslisteners w)
    (mkMemory ((λ ep, ep <| ready := ∅ |>) <$> epolls (external w)) (erase_watch <$> watches (external w))
       (epollkeys (external w)) ((λ f, f <| file_status := 0 |>) <$> posixfiles (external w)) []).

Section Erased.
Context w w' (E : erase w' = erase w).

Lemma erased_maps :
  ((λ d, d <| status := 0 |>) <$> descriptors w') = ((λ d, d <| status := 0 |>) <$> descriptors w) ∧
  statuslisteners w' = statuslisteners w ∧
  ((λ ep, ep <| ready := ∅ |>) <$> epolls (external w')) = ((λ ep, ep <| ready := ∅ |>) <$> epolls (external w)) ∧
  (erase_watch <$> watches (external w')) = (erase_watch <$> watches (external w)) ∧
  epollkeys (external w') = epollkeys (external w) ∧
  ((λ f, f <| file_status := 0 |>) <$> posixfiles (external w')) = ((λ f, f <| file_status := 0 |>) <$> posixfiles (external w)).
Proof. injection E. intros. split_and!; done. Qed.

Lemma erased_listeners : statuslisteners w' = statuslisteners w.
Proof. apply erased_maps. Qed.

Lemma erased_keys : epollkeys (external w') = epollkeys (external w).
Proof. apply erased_maps. Qed.

Lemma fmap_lookup {A B} (f : A → B) (m m' : gmap Z A) i x' :
  f <$> m' = f <$> m → m' !! i = Some x' → ∃ x, m !! i = Some x ∧ f x = f x'.
Proof.
  intros Em Ex. assert (H : f <$> (m' !! i) = f <$> (m !! i)) by (by rewrite <-!lookup_fmap, Em).
  rewrite Ex in H. destruct (m !! i) as [x|]; [|done]. injection H as H. by exists x.
Qed.

Lemma fmap_project {A B C} (f : A → B) (g : A → C) (m m' : gmap Z A) i :
  f <$> m' = f <$> m → (∀ x y, f x = f y → g x = g y) → g <$> (m' !! i) = g <$> (m !! i).
Proof.
  intros Em Hg. assert (H : f <$> (m' !! i) = f <$> (m !! i)) by (by rewrite <-!lookup_fmap, Em).
  destruct (m' !! i), (m !! i); try done. cbn in *. injection H as H. by rewrite (Hg _ _ H).
Qed.

Lemma erased_descriptor d desc' : descriptors w' !! d = Some desc' →
  ∃ desc, descriptors w !! d = Some desc ∧ desc' = desc <| status := status desc' |>.
Proof.
  intros H. destruct (fmap_lookup _ _ _ _ _ (proj1 erased_maps) H) as (desc & Ed & Ef). exists desc. split; [done|].
  destruct desc, desc'. unfold set_field in *. cbn in *. by injection Ef as -> -> -> -> -> ->.
Qed.

Lemma erased_epoll e ep' : get_epoll w' e = Some ep' →
  ∃ ep, get_epoll w e = Some ep ∧ watching ep' = watching ep ∧ watch_id_counter ep' = watch_id_counter ep.
Proof.
  intros H. destruct erased_maps as (_ & _ & Ee & _). destruct (fmap_lookup _ _ _ _ _ Ee H) as (ep & Ed & Ef).
  exists ep. split; [done|]. destruct ep, ep'. cbn in *. by injection Ef as -> ->.
Qed.

Lemma erased_watch a W' : get_watch w' a = Some W' → ∃ W, get_watch w a = Some W ∧ erase_watch W = erase_watch W'.
Proof. intros H. destruct erased_maps as (_ & _ & _ & Ew & _). by apply (fmap_lookup _ _ _ _ _ Ew). Qed.

Lemma erased_object {B} (gd : LegacyDescriptor → B) (gf : PosixFile → B) (o : Object) :
  (∀ x y, x <| status := 0 |> = y <| status := 0 |> → gd x = gd y) →
  (∀ x y, x <| file_status := 0 |> = y <| file_status := 0 |> → gf x = gf y) →
  match o.1 with
  | EWT_LEGACY_DESCRIPTOR => gd <$> descriptors w' !! o.2
  | EWT_POSIX_FILE => gf <$> posixfiles (external w') !! o.2
  end =
  match o.1 with
  | EWT_LEGACY_DESCRIPTOR => gd <$> descriptors w !! o.2
  | EWT_POSIX_FILE => gf <$> posixfiles (external w) !! o.2
  end.
Proof.
  intros Hgd Hgf. destruct erased_maps as (Ed & _ & _ & _ & _ & Ef). destruct o as [[] p]; cbn [fst snd].
  - by apply (fmap_project _ gd _ _ p Ed).
  - by apply (fmap_project _ gf _ _ p Ef).
Qed.

Lemma erased_lists o : object_listeners w' o = object_listeners w o.
Proof.
  apply (erased_object listeners file_listeners); intros [] []; unfold set_field; cbn; by intros [=].
Qed.

Lemma erased_refs o : object_refs w' o = object_refs w o.
Proof.
  apply (erased_object referenceCount file_refs); intros [] []; unfold set_field; cbn; by intros [=].
Qed.

Lemma erased_exists o : is_Some (object_getStatus w o) → is_Some (object_getStatus w' o).
Proof.
  assert (Hx : ∀ A (x : option A), is_Some x ↔ (λ _, ()) <$> x = Some ()) by (intros A []; split; try done; by intros [? ?]).
  pose proof (erased_object (λ _, ()) (λ _, ()) o ltac:(done) ltac:(done)) as H.
  unfold object_getStatus, posixfile_getStatus. destruct o as [[] p]; cbn [fst snd] in *; rewrite !fmap_is_Some, !Hx; by rewrite H.
Qed.

Lemma erased_watchers o : watchers w' o = watchers w o.
Proof.
  assert (Hf : ∀ m, size (base.filter (λ x, watchObject x.2 = o) m) =
    size (base.filter (λ x, watchObject x.2 = o) (erase_watch <$> m : gmap Z EpollWatch))).
  { intros m. rewrite map_filter_fmap, map_size_fmap. done. }
  unfold watchers. rewrite Hf. destruct erased_maps as (_ & _ & _ & -> & _). by rewrite <-Hf.
Qed.

End Erased.

Lemma erase_watch_fields W W' : erase_watch W = erase_watch W' →
  id W = id W' ∧ watchObject W = watchObject W' ∧ fd W = fd W' ∧ listener W = listener W' ∧ event W = event W' ∧
  last_reported_event_time W = last_reported_event_time W'.
Proof. destruct W, W'. cbn. unfold erase_watch, set_field. cbn. by intros [= -> -> -> -> -> ->]. Qed.

Lemma shape_erased w w' : erase w' = erase w → shape w → shape w'.
Proof.
  intros E [Hw Ho Hod Hi Ha He Hr Hl].
  assert (Hwatch : ∀ a W', get_watch w' a = Some W' → ∃ W, get_watch w a = Some W ∧
    id W = id W' ∧ watchObject W = watchObject W' ∧ fd W = fd W' ∧ listener W = listener W').
  { intros a W' (W & Ew & (? & ? & ? & ? & ? & ?)%erase_watch_fields)%(erased_watch w w' E). by exists W. }
  pose proof (erased_epoll w w' E) as Hepoll.
  constructor.
  - intros e ep' k a (ep & Ee & -> & Ec)%Hepoll Hk. destruct (Hw e ep k a Ee Hk) as (W & Ew & [H1 H2 H3 H4 (s & Hs & Hs')]).
    destruct (erased_watch w' w (eq_sym E) a W Ew) as (W' & Ew' & Ef). exists W'. split; [done|].
    apply erase_watch_fields in Ef as (E1 & E2 & E3 & E4 & _). constructor; rewrite ?E1, ?E2, ?E3, ?Ec; try done.
    + by apply (erased_exists w w' E).
    + exists s. rewrite E4, E2, (erased_listeners w w' E), (erased_keys w w' E). split; [done|].
      rewrite (erased_lists w w' E). exact Hs'.
  - intros e1 e2 ep1 ep2 k1 k2 a (? & ? & -> & _)%Hepoll (? & ? & -> & _)%Hepoll. by eapply Ho.
  - intros a W' (W & Ew & _)%Hwatch. destruct (Hod a W Ew) as (e & ep & k & Ee & Hk).
    destruct (erased_epoll w' w (eq_sym E) e ep Ee) as (ep' & Ee' & Ewt & _). exists e, ep', k. by rewrite <-Ewt.
  - intros e ep' k1 k2 a1 a2 W1 W2 (ep & Ee & -> & _)%Hepoll H1 H2 (V1 & E1 & <- & _)%Hwatch (V2 & E2 & <- & _)%Hwatch.
    by eapply Hi.
  - intros a1 a2 W1 W2 s1 s2 (V1 & E1 & _ & _ & _ & <-)%Hwatch (V2 & E2 & _ & _ & _ & <-)%Hwatch.
    rewrite (erased_listeners w w' E). by eapply Ha.
  - intros e ep' (ep & Ee & _ & ->)%Hepoll. destruct (He e ep Ee) as [[desc Ed] Hc]. split; [|done].
    destruct (erased_descriptor w' w (eq_sym E) e desc Ed) as (desc' & ? & _). by eexists.
  - intros o n. rewrite (erased_refs w w' E), (erased_watchers w w' E). apply Hr.
  - intros o ls l. rewrite (erased_lists w w' E), (erased_listeners w w' E). intros Eo Hin.
    destruct (Hl o ls l Eo Hin) as (s & Es & Hs). exists s. split; [done|]. intros ep' (ep & Ee & -> & _)%Hepoll.
    destruct (Hs ep Ee) as (k & a & W & Hk & Ew & El & Eo'). destruct (erased_watch w' w (eq_sym E) a W Ew) as (W' & Ew' & Ef).
    apply erase_watch_fields in Ef as (_ & E2 & _ & E4 & _). exists k, a, W'. split_and!; congruence.
Qed.

(** *** One watch is updated *)

Section Update.
Context (free_descriptor : World → Z → option World).

Lemma erase_set_watch w a W W' :
  get_watch w a = Some W → erase_watch W' = erase_watch W → erase (set_watch w a W') = erase w.
Proof.
  intros Ew Ef. unfold erase, set_watch, mem. cbn. do 2 f_equal. rewrite fmap_insert, Ef. apply insert_id.
  unfold get_watch in Ew. by rewrite lookup_fmap, Ew.
Qed.

Lemma erase_set_ready w e ep r :
  get_epoll w e = Some ep → erase (set_epoll w e (ep <| ready := r |>)) = erase w.
Proof.
  intros Ee. unfold erase, set_epoll, mem. cbn. do 2 f_equal. rewrite fmap_insert. apply insert_id.
  unfold get_epoll in Ee. by rewrite lookup_fmap, Ee.
Qed.

Lemma get_set_watch w a W b : get_watch (set_watch w a W) b = if decide (a = b) then Some W else get_watch w b.
Proof.
  unfold get_watch, set_watch, mem. cbn. case_decide; [subst; apply lookup_insert_eq|by apply lookup_insert_ne].
Qed.

Lemma get_set_epoll w e ep f : get_epoll (set_epoll w e ep) f = if decide (e = f) then Some ep else get_epoll w f.
Proof.
  unfold get_epoll, set_epoll, mem. cbn. case_decide; [subst; apply lookup_insert_eq|by apply lookup_insert_ne].
Qed.

(** The watch of [a] and the second table of its instance change. *)
Lemma dyn_set stale unsettled w e ep k a W W' r :
  shape w → dyn stale unsettled w → get_epoll w e = Some ep → watching ep !! k = Some a → get_watch w a = Some W →
  erase_watch W' = erase_watch W →
  (∀ k', k' ≠ k → r !! k' = ready ep !! k') → (∀ b, r !! k = Some b → b = a) →
  w_referenceCount W' = 1 + from_option (λ _, 1) 0 (r !! k) → has_flag (w_flags W') EWF_WATCHING = true →
  (¬ silent a → current w (ep <| ready := r |>) k W') →
  dyn (λ b, stale b ∧ b ≠ a) (λ f, unsettled f ∨ f = e) (set_epoll (set_watch w a W') e (ep <| ready := r |>)).
Proof.
  intros Hsh [Hr Hf Hc Hs] Ee Hk Ew Ef Hoth Hown Hrc Hwt Hcur.
  set (w' := set_epoll _ _ _).
  assert (Hepoll : ∀ f, get_epoll w' f = if decide (e = f) then Some (ep <| ready := r |>) else get_epoll w f).
  { intros f. unfold w'. by rewrite get_set_epoll. }
  assert (Hwatch : ∀ b, get_watch w' b = if decide (a = b) then Some W' else get_watch w b) by apply get_set_watch.
  assert (Hst : ∀ o, object_getStatus w' o = object_getStatus w o) by done.
  assert (Hcase : ∀ f fp k' b V, get_epoll w' f = Some fp → watching fp !! k' = Some b → get_watch w' b = Some V →
    f = e ∧ k' = k ∧ b = a ∧ V = W' ∧ fp = ep <| ready := r |> ∨
    b ≠ a ∧ ∃ gp, get_epoll w f = Some gp ∧ watching gp !! k' = Some b ∧ get_watch w b = Some V ∧
      ready fp !! k' = ready gp !! k').
  { intros f fp k' b V. rewrite Hepoll, Hwatch. destruct (decide (e = f)) as [<-|Hne].
    - intros [= <-] Hk' Hb. cbn in Hk'. destruct (decide (a = b)) as [<-|Hab].
      + injection Hb as <-. left. destruct (sh_owner _ Hsh e e ep ep k' k a Ee Ee Hk' Hk) as [_ ->]. done.
      + right. split; [done|]. exists ep. split_and!; try done. cbn. apply Hoth. intros ->. congruence.
    - intros Ef' Hk' Hb. destruct (decide (a = b)) as [<-|Hab].
      + by destruct (sh_owner _ Hsh e f ep fp k k' a Ee Ef' Hk Hk') as [? _].
      + right. split; [done|]. by exists fp. }
  constructor.
  - intros f fp k' b. rewrite Hepoll. destruct (decide (e = f)) as [<-|Hne]; [|apply (Hr f)].
    intros [= <-]. cbn. destruct (decide (k' = k)) as [->|Hk']; [by intros ->%Hown|]. rewrite Hoth by done. by apply (Hr e).
  - intros f fp k' b V E1 E2 E3. destruct (Hcase f fp k' b V E1 E2 E3) as [(-> & -> & -> & -> & ->)|(_ & gp & F1 & F2 & F3 & F4)]; [done|].
    rewrite F4. by apply (Hf f gp k' b).
  - intros f fp k' b V E1 E2 E3 Hnst Hcl. destruct (Hcase f fp k' b V E1 E2 E3) as [(-> & -> & -> & -> & ->)|(Hb & gp & F1 & F2 & F3 & F4)].
    + by apply Hcur.
    + destruct (Hc f gp k' b V F1 F2 F3) as (G1 & G2 & G3); [tauto|done|]. split; [exact G1|]. by rewrite F4.
  - intros f fp desc. rewrite Hepoll. intros E1 E2 Hu. rewrite decide_False in E1 by (intros ->; apply Hu; by right). apply (Hs f fp desc E1 E2). tauto.
Qed.

Lemma same_current w ep k W : current w (ep <| ready := ready ep |>) k W ↔ current w ep k W.
Proof. by destruct ep. Qed.

(** The table drops a reference that is not the last one. *)
Lemma unref_shared w a W :
  get_watch w a = Some W → w_referenceCount W = 2 →
  _epollwatch_unref free_descriptor w a = Some (set_watch w a (W <| w_referenceCount := 1 |>)).
Proof. intros Ew Er. unfold _epollwatch_unref. rewrite Ew. cbn [mbind option_bind]. by rewrite Er. Qed.

Lemma update_watch_ok stale w e ep k a :
  shape w → dyn stale (λ _, False) w → get_epoll w e = Some ep → watching ep !! k = Some a → ¬ silent a →
  ∃ w', update_watch free_descriptor w e k = Some w' ∧ erase w' = erase w ∧ descriptors w' = descriptors w ∧
    posixfiles (external w') = posixfiles (external w) ∧ woken (external w') = woken (external w) ∧
    dyn (λ b, stale b ∧ b ≠ a) (λ f, f = e) w'.
Proof.
  intros Hsh Hd Ee Hk Hcl. destruct (sh_watch _ Hsh e ep k a Ee Hk) as (W & Ew & [_ _ [st Est] _ _]).
  destruct (dy_refs _ _ _ Hd e ep k a W Ee Hk Ew) as [Hrc Hwt].
  unfold update_watch. rewrite Ee. cbn [mbind option_bind]. rewrite Hk, Ew. cbn [mbind option_bind]. rewrite Est. cbn [mbind option_bind].
  set (W1 := _epollwatch_updateStatus W st). destruct (update_flags W st) as [F1 F2 F3 F4 F5 F6 F7 F8 F9 F10 F11 F12 F13]. fold W1 in F1, F2, F3, F4, F5, F6, F7, F8, F9, F10, F11, F12, F13.
  assert (Hev : event W1 = event W ∧ watchObject W1 = watchObject W ∧ w_referenceCount W1 = w_referenceCount W ∧ erase_watch W1 = erase_watch W) by done.
  destruct Hev as (Eev & Eo & Erc & Eer).
  assert (Hmir : mirrors W1 st) by (constructor; rewrite ?Eev; done). clearbody W1.
  assert (Hrefl : ∀ r W2, w_flags W2 = w_flags W1 → event W2 = event W1 → watchObject W2 = watchObject W1 →
    is_Some (r !! k) ↔ _epollwatch_isReady W1 = true → current w (ep <| ready := r |>) k W2).
  { intros r W2 G1 G2 G3 Hiff. assert (Hrd : _epollwatch_isReady W2 = _epollwatch_isReady W1) by (unfold _epollwatch_isReady; by rewrite G1).
    split; [exists st; split; [by rewrite G3, Eo|destruct Hmir; constructor; by rewrite ?G1, ?G2]|].
    rewrite Hrd. cbn. destruct Hiff as [H1 H2]. split; [done|]. intros ?%H1. by left. }
  assert (Hdyn : ∀ r W2, erase_watch W2 = erase_watch W → w_flags W2 = w_flags W1 → event W2 = event W1 → watchObject W2 = watchObject W1 →
    (∀ k', k' ≠ k → r !! k' = ready ep !! k') → (∀ b, r !! k = Some b → b = a) →
    w_referenceCount W2 = 1 + from_option (λ _, 1) 0 (r !! k) → (is_Some (r !! k) ↔ _epollwatch_isReady W1 = true) →
    dyn (λ b, stale b ∧ b ≠ a) (λ f, f = e) (set_epoll (set_watch w a W2) e (ep <| ready := r |>))).
  { intros r W2 G0 G1 G2 G3 Hoth Hown Hrc2 Hiff.
    pose proof (dyn_set stale (λ _, False) w e ep k a W W2 r Hsh Hd Ee Hk Ew G0 Hoth Hown Hrc2) as H.
    destruct H as [H1 H2 H3 H4]; [by rewrite G1, F9|intros _; by apply Hrefl|]. constructor; try done.
    intros f fp desc E1 E2 Hu. apply (H4 f fp desc E1 E2). tauto. }
  assert (Her : ∀ r W2, erase_watch W2 = erase_watch W → erase (set_epoll (set_watch w a W2) e (ep <| ready := r |>)) = erase w).
  { intros r W2 G. rewrite erase_set_ready by done. by apply (erase_set_watch _ _ W). }
  assert (Hsame : ∀ W2, set_watch w a W2 = set_epoll (set_watch w a W2) e (ep <| ready := ready ep |>)).
  { intros W2. assert (H : <[e := ep <| ready := ready ep |>]> (epolls (external w)) = epolls (external w))
      by (apply insert_id; by destruct ep).
    unfold set_epoll, set_watch, mem. destruct w as [ds ls m], m. cbn in *. by rewrite H. }
  destruct (_epollwatch_isReady W1) eqn:Erd.
  - destruct (ready ep !! k) as [b|] eqn:Erk.
    + exists (set_watch w a W1). split; [done|]. rewrite Hsame. split_and!; [by apply Her|done..|].
      apply Hdyn; try done.
      * intros b' Hb. pose proof (dy_ready _ _ _ Hd e ep k b' Ee Hb). congruence.
      * by rewrite Erc, Hrc, Erk.
    + unfold _epollwatch_ref. rewrite get_set_watch, decide_True by done. cbn [mbind option_bind].
      set (W2 := W1 <| w_referenceCount := _ |>). eexists. split; [done|].
      replace (set_watch (set_watch w a W1) a W2) with (set_watch w a W2).
      2:{ unfold set_watch, mem. destruct w as [ds ls m], m. cbn. by rewrite insert_insert_eq. }
      split_and!; [by apply Her|done..|]. apply Hdyn; try done.
      * intros k' Hk'. by rewrite lookup_insert_ne.
      * intros b. rewrite lookup_insert_eq. by intros [= <-].
      * rewrite lookup_insert_eq. cbn. rewrite Erc, Hrc. cbn. lia.
      * rewrite lookup_insert_eq. split; [done|by eexists].
  - unfold remove_ready. change (get_epoll (set_watch w a W1) e) with (get_epoll w e). rewrite Ee. cbn [mbind option_bind].
    destruct (ready ep !! k) as [b|] eqn:Erk.
    + pose proof (dy_ready _ _ _ Hd e ep k b Ee Erk) as Hb. assert (b = a) as -> by congruence. cbn in Hrc.
      rewrite (unref_shared _ a W1); [|change (get_watch (set_watch w a W1) a = Some W1); by rewrite get_set_watch, decide_True|by rewrite Erc, Hrc].
      set (W2 := W1 <| w_referenceCount := 1 |>). eexists. split; [done|].
      replace (set_watch (set_epoll (set_watch w a W1) e (ep <| ready := delete k (ready ep) |>)) a W2)
        with (set_epoll (set_watch w a W2) e (ep <| ready := delete k (ready ep) |>)).
      2:{ unfold set_watch, set_epoll, mem. destruct w as [ds ls m], m. cbn. by rewrite insert_insert_eq. }
      split_and!; [by apply Her|done..|]. apply Hdyn; try done.
      * intros k' Hk'. by rewrite lookup_delete_ne.
      * intros b. by rewrite lookup_delete_eq.
      * by rewrite lookup_delete_eq.
      * rewrite lookup_delete_eq. split; [by intros [? ?]|done].
    + exists (set_watch w a W1). split; [done|]. rewrite Hsame. split_and!; [by apply Her|done..|].
      apply Hdyn; try done.
      * intros b'. by rewrite Erk.
      * by rewrite Erc, Hrc, Erk.
      * rewrite Erk. split; [by intros [? ?]|done].
Qed.

(** *** A status changes *)

Definition same_below (n : nat) w w' : Prop :=
  ∀ o, (level o < n)%nat → object_getStatus w' o = object_getStatus w o.

Definition on w (a : Z) (o : Object) : Prop := ∃ W, get_watch w a = Some W ∧ watchObject W = o.
Definition named w (a l : Z) : Prop := ∃ W, get_watch w a = Some W ∧ listener W = l.

Lemma named_erased w w' a l : erase w' = erase w → named w' a l ↔ named w a l.
Proof.
  intros E. split.
  - intros (W' & Ew & <-). destruct (erased_watch w w' E a W' Ew) as (W & ? & (? & ? & ? & ? & ? & ?)%erase_watch_fields). by exists W.
  - intros (W' & Ew & <-). destruct (erased_watch w' w (eq_sym E) a W' Ew) as (W & ? & (? & ? & ? & ? & ? & ?)%erase_watch_fields). by exists W.
Qed.

Lemma dyn_weaken (stale stale' U U' : Z → Prop) w :
  dyn stale U w → (∀ a, stale a → stale' a) → (∀ e, U e → U' e) → dyn stale' U' w.
Proof.
  intros [H1 H2 H3 H4] Hs Hu. constructor; [done|done| |]; intros.
  - by eapply H3; [..|intros ?%Hs|].
  - by eapply H4; [..|intros ?%Hu].
Qed.

Lemma unmonitored st st' i :
  0 ≤ i < 4 → has_flag MONITORED (Z.lxor st' st) = false → has_flag st' (2 ^ i) = has_flag st (2 ^ i).
Proof.
  intros Hi H. rewrite !has_flag_testbit by lia. unfold has_flag in H.
  apply negb_false_iff, Z.eqb_eq in H.
  pose proof (f_equal (λ x, Z.testbit x i) H) as Hb. cbn beta in Hb.
  rewrite Z.land_spec, Z.lxor_spec, Z.bits_0 in Hb.
  assert (Hm : Z.testbit MONITORED i = true).
  { assert (i = 0 ∨ i = 1 ∨ i = 2 ∨ i = 3) as [->|[->|[->| ->]]] by lia; done. }
  rewrite Hm in Hb. cbn in Hb. by apply xorb_eq.
Qed.

Lemma mirrors_unmonitored W st st' :
  has_flag MONITORED (Z.lxor st' st) = false → mirrors W st → mirrors W st'.
Proof.
  intros H [H1 H2 H3 H4 H5 H6 H7 H8].
  constructor; try done.
  - rewrite H1. symmetry. by apply (unmonitored st st' 0).
  - rewrite H2. symmetry. by apply (unmonitored st st' 1).
  - rewrite H3. symmetry. by apply (unmonitored st st' 2).
  - rewrite H4. symmetry. by apply (unmonitored st st' 3).
Qed.

Definition set_object_status w (o : Object) (st : Z) : World :=
  match o.1 with
  | EWT_LEGACY_DESCRIPTOR =>
      from_option (λ desc, set_descriptor w o.2 (desc <| status := st |>)) w (descriptors w !! o.2)
  | EWT_POSIX_FILE =>
      from_option (λ f, set_file w o.2 (f <| file_status := st |>)) w (posixfiles (external w) !! o.2)
  end.

Lemma erase_set_status w o st : erase (set_object_status w o st) = erase w.
Proof.
  destruct o as [[] p]; unfold set_object_status; cbn [fst snd].
  - destruct (descriptors w !! p) as [desc|] eqn:Ed; [|done]. unfold erase, set_descriptor. cbn. f_equal.
    rewrite fmap_insert. apply insert_id. by rewrite lookup_fmap, Ed.
  - destruct (posixfiles (external w) !! p) as [f|] eqn:Ef; [|done]. unfold erase, set_file, mem. cbn. do 2 f_equal.
    rewrite fmap_insert. apply insert_id. by rewrite lookup_fmap, Ef.
Qed.

Lemma status_set_ne w o o' st : o' ≠ o → object_getStatus (set_object_status w o st) o' = object_getStatus w o'.
Proof.
  intros Ho. destruct o as [[] p], o' as [[] p']; unfold set_object_status, object_getStatus, posixfile_getStatus; cbn [fst snd].
  - destruct (descriptors w !! p); [|done]. cbn. by rewrite lookup_insert_ne by (intros ->; by apply Ho).
  - by destruct (descriptors w !! p).
  - by destruct (posixfiles (external w) !! p).
  - destruct (posixfiles (external w) !! p); [|done]. cbn. by rewrite lookup_insert_ne by (intros ->; by apply Ho).
Qed.

Lemma status_set_eq w o st st0 :
  object_getStatus w o = Some st0 → object_getStatus (set_object_status w o st) o = Some st.
Proof.
  destruct o as [[] p]; unfold set_object_status, object_getStatus, posixfile_getStatus; cbn [fst snd].
  - destruct (descriptors w !! p); [|done]. intros _. cbn. by rewrite lookup_insert_eq.
  - destruct (posixfiles (external w) !! p); [|done]. intros _. cbn. by rewrite lookup_insert_eq.
Qed.

Lemma set_status_maps w o st :
  epolls (external (set_object_status w o st)) = epolls (external w) ∧
  watches (external (set_object_status w o st)) = watches (external w).
Proof.
  unfold set_object_status. destruct o as [[] p]; cbn [fst snd]; [by destruct (descriptors w !! p)|by destruct (posixfiles (external w) !! p)].
Qed.

Lemma dyn_set_status (stale U U' : Z → Prop) w o old st :
  object_getStatus w o = Some old → dyn stale U w → (∀ f, descriptor f ≠ o → U f → U' f) →
  (∀ f ep, o = descriptor f → get_epoll w f = Some ep → ¬ U' f →
     has_flag st STATUS_DESCRIPTOR_READABLE = negb (epoll_getNumReadyEvents ep =? 0)) →
  dyn (λ a, stale a ∨ on w a o ∧ has_flag MONITORED (Z.lxor st old) = true) U' (set_object_status w o st).
Proof.
  intros Eo [H1 H2 H3 H4] Hu Hset. destruct (set_status_maps w o st) as [Me Mw].
  constructor; unfold get_epoll, get_watch; rewrite ?Me, ?Mw; [done|done| |].
  - intros e ep k a W Ee Hk Ew Hst Hcl.
    destruct (H3 e ep k a W Ee Hk Ew) as ((st0 & Es & Hm) & G2 & G3); [tauto|done|].
    split; [|done]. destruct (decide (watchObject W = o)) as [Ho|Ho].
    + exists st. rewrite Ho in *. assert (st0 = old) as -> by congruence. rewrite (status_set_eq w o st old) by done.
      split; [done|]. apply (mirrors_unmonitored _ old); [|done].
      apply not_true_is_false. intros Hx. apply Hst. right. split; [|done]. by exists W.
    + exists st0. by rewrite status_set_ne.
  - intros e ep desc' Ee Ed' Hne.
    destruct (decide (descriptor e = o)) as [<-|He].
    + pose proof (status_set_eq w (descriptor e) st old Eo) as Es. unfold object_getStatus in Es. cbn [fst snd] in Es.
      rewrite Ed' in Es. cbn in Es. injection Es as Es. change (status desc' = st) in Es. rewrite Es. by apply (Hset e).
    + assert (Ed : status <$> descriptors w !! e = Some (status desc')).
      { pose proof (status_set_ne w o (descriptor e) st He) as Es. unfold object_getStatus in Es. cbn [fst snd] in Es.
        rewrite Ed' in Es. cbn in Es. symmetry. exact Es. }
      apply fmap_Some in Ed as (desc & Ed & ->). apply (H4 e ep desc Ee Ed). intros ?. by apply Hne, Hu.
Qed.

(** *** The listeners of an object are called *)

Context (L : nat) (Hlevel : ∀ o, (level o < L)%nat).

(** An instance is told about one of its watches. *)
Definition notified (fuel : nat) : Prop :=
  ∀ w stale e ep k a g arg,
    shape w → dyn stale (λ _, False) w → get_epoll w e = Some ep → watching ep !! k = Some a → ¬ silent a →
    arg ≠ 0 → epollkeys (external w) !! arg = Some k → (L ≤ fuel + level (descriptor e))%nat →
    ∃ w', notify free_descriptor fuel w g e arg = Some w' ∧ erase w' = erase w ∧ same_below (level (descriptor e)) w w' ∧
      dyn (λ b, stale b ∧ b ≠ a) (λ _, False) w'.

(** The watches whose listeners are among [ls] were told about [X]. *)
Definition told (X : Z) (ls : list Z) w (stale : Z → Prop) (a : Z) : Prop :=
  stale a ∧ ¬ (has_flag MONITORED X = true ∧ ∃ l, l ∈ ls ∧ named w a l).

Lemma unknown_notified fuel w g o arg :
  get_epoll w o = None →
  notify free_descriptor fuel w g o arg = Some (mem w (λ m, m <| woken := woken m ++ [(o, arg)] |>)).
Proof. intros Ee. destruct fuel; cbn [notify]; by rewrite Ee. Qed.

Lemma watch_listener w a W :
  shape w → get_watch w a = Some W →
  ∃ e ep k, get_epoll w e = Some ep ∧ watching ep !! k = Some a ∧ watch_ok w e ep k a W.
Proof.
  intros Hsh Ew. destruct (sh_owned _ Hsh a W Ew) as (e & ep & k & Ee & Hk).
  destruct (sh_watch _ Hsh e ep k a Ee Hk) as (W' & Ew' & Hok). exists e, ep, k. by simplify_eq.
Qed.

Lemma call_one fuel w stale o ls l st X :
  notified fuel → shape w → dyn stale (λ _, False) w → object_listeners w o = Some ls → l ∈ ls →
  (L ≤ S fuel + level o)%nat →
  ∃ w' called, statuslistener_onStatusChanged (notify free_descriptor fuel) w l st X = Some (w', called) ∧
    erase w' = erase w ∧ same_below (S (level o)) w w' ∧ dyn (told X [l] w stale) (λ _, False) w'.
Proof.
  intros HN Hsh Hd Eo Hl HL. destruct (sh_listeners _ Hsh o ls l Eo Hl) as (s & Es & Hs).
  unfold statuslistener_onStatusChanged. rewrite Es. cbn [mbind option_bind].
  destruct (get_epoll w (callbackObject s)) as [ep|] eqn:Ee.
  - destruct (Hs ep eq_refl) as (k & a & W & Hk & Ew & El & Eo').
    destruct (sh_watch _ Hsh _ ep k a Ee Hk) as (W' & Ew' & [Hkey Hid Hob Hlv (s' & Es' & Hcb & _ & Hnf & Harg & Haf & Hkeys & Hopen & Hclosed)]).
    assert (W' = W) as -> by congruence. subst k o. rewrite El in *. rewrite Es in Es'. injection Es' as <-.
    assert (Hcl : ¬ silent a) by (intros (_ & _ & Hno)%Hclosed; by apply (Hno ls)).
    destruct (Hopen Hcl) as (Hmo & Hfi & _ & _).
    assert (Hsn : _statuslistener_shouldNotify s st X = has_flag MONITORED X)
      by (unfold _statuslistener_shouldNotify; by rewrite Hfi, Hmo).
    rewrite Hsn. destruct (has_flag MONITORED X) eqn:Hx.
    + unfold _statuslistener_invokeNotifyFunc. rewrite Es. cbn [mbind option_bind].
      destruct (Z.eqb_spec (notifyFunc s) 0); [done|]. cbn [negb].
      destruct (HN w stale (callbackObject s) ep (fd W, (watchObject W).2) a (notifyFunc s) (callbackArgument s)) as (w' & Ew1 & Er & Hsame & Hd'); try done; [lia|].
      rewrite Ew1. exists w', [l]. split_and!; [done|done| |].
      * intros o' Ho'. apply Hsame. lia.
      * apply (dyn_weaken _ _ _ _ w' Hd'); [|done]. intros b [Hb Hne]. split; [done|]. intros (_ & l' & Hl' & V & EV & HV).
        apply list_elem_of_singleton in Hl' as ->. apply Hne, (sh_args _ Hsh b a V W s s); congruence.
    + exists w, []. split_and!; try done. apply (dyn_weaken _ _ _ _ w Hd); [|done]. intros b Hb. split; [done|]. intros [? _]; congruence.
  - assert (Hno : ∀ b, ¬ named w b l).
    { intros b (V & EV & HV). destruct (watch_listener w b V Hsh EV) as (e & ep & k & E1 & E2 & [_ _ _ _ (s' & Es' & Hcb & _)]). congruence. }
    assert (Hd' : dyn (told X [l] w stale) (λ _, False) w).
    { apply (dyn_weaken _ _ _ _ w Hd); [|done]. intros b Hb. split; [done|]. intros (_ & l' & Hl' & Hn).
      apply list_elem_of_singleton in Hl' as ->. by apply (Hno b). }
    destruct (_statuslistener_shouldNotify s st X); [|by exists w, []].
    unfold _statuslistener_invokeNotifyFunc. rewrite Es. cbn [mbind option_bind].
    destruct (notifyFunc s =? 0); cbn [negb]; [by exists w, [l]|].
    rewrite unknown_notified by done. exists (mem w (λ m, m <| woken := woken m ++ [(callbackObject s, callbackArgument s)] |>)), [l].
    split_and!; [done..|]. by destruct Hd' as [G1 G2 G3 G4].
Qed.

Lemma same_below_trans n w1 w2 w3 : same_below n w1 w2 → same_below n w2 w3 → same_below n w1 w3.
Proof. intros H1 H2 o Ho. by rewrite H2, H1. Qed.

Lemma told_app X l ls w w' stale a :
  erase w' = erase w → told X ls w' (told X [l] w stale) a → told X (l :: ls) w stale a.
Proof.
  intros E [[Hs H1] H2]. split; [done|]. intros (Hx & l' & [->|Hin]%elem_of_cons & Hn).
  - apply H1. split; [done|]. exists l. split; [by apply list_elem_of_singleton|done].
  - apply H2. split; [done|]. exists l'. split; [done|]. by apply (named_erased w w' a l' E).
Qed.

Lemma notify_loop_ok fuel items : ∀ w stale d desc old,
  notified fuel → shape w → dyn stale (λ _, False) w → descriptors w !! d = Some desc →
  Z.lxor (status desc) old ≠ 0 → (∀ l, l ∈ items → l ∈ listeners desc) → (L ≤ S fuel + level (descriptor d))%nat →
  ∃ w' called, notify_loop (notify free_descriptor fuel) w d old (Z.lxor (status desc) old) items = Some (w', called) ∧
    erase w' = erase w ∧ same_below (S (level (descriptor d))) w w' ∧
    dyn (told (Z.lxor (status desc) old) items w stale) (λ _, False) w'.
Proof.
  induction items as [|l items IH]; intros w stale d desc old HN Hsh Hd Ed Hx Hin HL.
  - exists w, []. split_and!; try done. apply (dyn_weaken _ _ _ _ w Hd); [|done]. intros b Hb. split; [done|]. intros (_ & l & Hl & _).
    by apply not_elem_of_nil in Hl.
  - cbn [notify_loop]. destruct (Z.eqb_spec (Z.lxor (status desc) old) 0); [done|]. rewrite Ed. cbn [mbind option_bind].
    assert (Hl : l ∈ listeners desc) by (apply Hin; by left). rewrite bool_decide_true by done.
    destruct (call_one fuel w stale (descriptor d) (listeners desc) l (status desc) (Z.lxor (status desc) old)) as (w1 & c1 & -> & E1 & Hs1 & Hd1);
      try done; [unfold object_listeners; cbn; by rewrite Ed|]. cbn [mbind option_bind].
    pose proof (Hs1 (descriptor d) ltac:(lia)) as Hst. unfold object_getStatus in Hst. cbn in Hst. rewrite Ed in Hst. cbn in Hst.
    destruct (descriptors w1 !! d) as [desc1|] eqn:Ed1; [|done]. cbn in Hst. injection Hst as Hst. cbn [mbind option_bind].
    change (status desc1 = status desc) in Hst.
    pose proof (erased_lists w w1 E1 (descriptor d)) as Hls. unfold object_listeners in Hls. cbn in Hls. rewrite Ed, Ed1 in Hls. injection Hls as Hls.
    destruct (IH w1 (told (Z.lxor (status desc) old) [l] w stale) d desc1 old) as (w2 & c2 & E2 & Er2 & Hs2 & Hd2); try done.
    + by apply (shape_erased w w1).
    + by rewrite Hst.
    + intros l' Hl'. rewrite Hls. apply Hin. by right.
    + rewrite Hst in *. rewrite E2. exists w2, (c1 ++ c2). split_and!; [done|congruence|by eapply same_below_trans|].
      apply (dyn_weaken _ _ _ _ w2 Hd2); [|done]. intros b. by apply told_app.
Qed.

(** Only the watches of open instances matter. *)
Lemma dyn_weaken_open (stale stale' U : Z → Prop) w :
  dyn stale U w →
  (∀ e ep k a W, get_epoll w e = Some ep → watching ep !! k = Some a → get_watch w a = Some W → ¬ silent a →
     stale a → stale' a) →
  dyn stale' U w.
Proof.
  intros [H1 H2 H3 H4] Hs. constructor; [done|done| |done].
  intros e ep k a W Ee Hk Ew Hst Hcl. apply (H3 e ep k a W Ee Hk Ew); [|done]. intros H. by apply Hst, (Hs e ep k a W).
Qed.

(** After a change of the status of [o], calling all its listeners leaves no
    watch behind. *)
Lemma all_told X w1 w' stale (o : Object) ls :
  shape w1 → erase w' = erase w1 → object_listeners w1 o = Some ls →
  dyn (told X ls w1 (λ a, stale a ∨ on w1 a o ∧ has_flag MONITORED X = true)) (λ _, False) w' →
  dyn stale (λ _, False) w'.
Proof.
  intros Hsh E Eo Hd. apply (dyn_weaken_open _ _ _ w' Hd). intros e ep' k a W' Ee' Hk' Ew' Hcl [[Hst|[(W & Ew & <-) Hx]] Hno]; [done|].
  exfalso. apply Hno. split; [done|]. exists (listener W). split; [|by exists W].
  destruct (erased_epoll w1 w' E e ep' Ee') as (ep & Ee & Hwt & _). rewrite Hwt in Hk'.
  destruct (sh_watch _ Hsh e ep k a Ee Hk') as (V & EV & [_ _ _ _ (s & _ & _ & _ & _ & _ & _ & _ & Hopen & _)]).
  destruct (Hopen Hcl) as (_ & _ & _ & ls' & Els & Hin). assert (V = W) as -> by congruence. by simplify_eq.
Qed.

Lemma adjusted_status_ok fuel w stale U d desc bits b :
  notified fuel → shape w → dyn stale U w → descriptors w !! d = Some desc →
  (∀ f, U f → f = d) →
  (∀ ep, get_epoll w d = Some ep →
     has_flag (adjusted (status desc) bits b) STATUS_DESCRIPTOR_READABLE = negb (epoll_getNumReadyEvents ep =? 0)) →
  (L ≤ S fuel + level (descriptor d))%nat →
  ∃ w' called, descriptor_adjustStatus (notify free_descriptor fuel) w d bits b = Some (w', called) ∧ erase w' = erase w ∧
    (∀ o, (level o ≤ level (descriptor d))%nat → o ≠ descriptor d → object_getStatus w' o = object_getStatus w o) ∧
    object_getStatus w' (descriptor d) = Some (adjusted (status desc) bits b) ∧
    dyn stale (λ _, False) w'.
Proof.
  intros HN Hsh Hd Ed HU Hset HL. unfold descriptor_adjustStatus. rewrite Ed. cbn [mbind option_bind].
  set (st := adjusted (status desc) bits b) in *.
  assert (Eo : object_getStatus w (descriptor d) = Some (status desc)) by (unfold object_getStatus; cbn; by rewrite Ed).
  replace (w <| descriptors := <[d := set_status desc bits b]> (descriptors w) |>) with (set_object_status w (descriptor d) st)
    by (unfold set_object_status; cbn [fst snd]; by rewrite Ed).
  pose proof (erase_set_status w (descriptor d) st) as Er1.
  pose proof (λ o Ho, status_set_ne w (descriptor d) o st Ho) as Hst1.
  pose proof (status_set_eq w (descriptor d) st _ Eo) as Hst2.
  pose proof (dyn_set_status stale U (λ _, False) w (descriptor d) (status desc) st Eo Hd
    ltac:(intros f Hf ->%HU; done) ltac:(intros f ep [= ->] Ee _; by apply Hset)) as Hd1.
  assert (Ed1 : descriptors (set_object_status w (descriptor d) st) !! d = Some (desc <| status := st |>)).
  { unfold set_object_status. cbn [fst snd]. rewrite Ed. cbn. apply lookup_insert_eq. }
  replace (on w) with (on (set_object_status w (descriptor d) st)) in Hd1
    by (unfold on, get_watch; by rewrite (proj2 (set_status_maps w (descriptor d) st))).
  set (w1 := set_object_status _ _ _) in *. clearbody w1.
  unfold _descriptor_handleStatusChange. rewrite Ed1. cbn [mbind option_bind].
  change (status (desc <| status := st |>)) with st.
  destruct (Z.eqb_spec (Z.lxor st (status desc)) 0) as [Hx|Hx].
  - exists w1, []. split_and!; try done; [intros; by apply Hst1|]. apply (dyn_weaken _ _ _ _ w1 Hd1); [|done].
    intros a [?|[_ H]]; [done|]. rewrite Hx in H. done.
  - pose proof (shape_erased w w1 Er1 Hsh) as Hsh1.
    destruct (notify_loop_ok fuel (listeners desc) w1 _ d (desc <| status := st |>) (status desc) HN Hsh1 Hd1 Ed1 Hx)
      as (w2 & called & E2 & Er2 & Hs2 & Hd2); try done.
    exists w2, called. split_and!; [done|congruence| | |].
    + intros o Ho Hne. rewrite Hs2 by lia. by apply Hst1.
    + rewrite Hs2 by lia. done.
    + apply (all_told (Z.lxor st (status desc)) w1 w2 stale (descriptor d) (listeners desc)); try done.
      unfold object_listeners. cbn. by rewrite Ed1.
Qed.

Lemma adjust_readable_ok fuel w stale e ep :
  notified fuel → shape w → dyn stale (λ f, f = e) w → get_epoll w e = Some ep → (L ≤ S fuel + level (descriptor e))%nat →
  ∃ w', adjust_readable (notify free_descriptor fuel) w e = Some w' ∧ erase w' = erase w ∧
    same_below (level (descriptor e)) w w' ∧ dyn stale (λ _, False) w'.
Proof.
  intros HN Hsh Hd Ee HL. destruct (sh_epoll _ Hsh e ep Ee) as [[desc Ed] _].
  destruct (adjusted_status_ok fuel w stale (λ f, f = e) e desc STATUS_DESCRIPTOR_READABLE (negb (epoll_getNumReadyEvents ep =? 0)) HN Hsh Hd Ed)
    as (w' & called & E' & Er & Hs & _ & Hd'); [done| |done|].
  - intros ep' Ee'. assert (ep' = ep) as -> by congruence. change STATUS_DESCRIPTOR_READABLE with (2 ^ 1). by rewrite has_flag_adjusted.
  - unfold adjust_readable. rewrite Ee. cbn [mbind option_bind]. rewrite E'. exists w'. split_and!; try done.
    intros o Ho. apply Hs; [lia|]. intros ->. lia.
Qed.

Lemma status_changed_ok fuel w stale e ep k a :
  notified fuel → shape w → dyn stale (λ _, False) w → get_epoll w e = Some ep → watching ep !! k = Some a → ¬ silent a →
  (L ≤ S fuel + level (descriptor e))%nat →
  ∃ w', _epoll_descriptorStatusChanged free_descriptor (notify free_descriptor fuel) w e (Some k) = Some w' ∧
    erase w' = erase w ∧ same_below (level (descriptor e)) w w' ∧ dyn (λ b, stale b ∧ b ≠ a) (λ _, False) w'.
Proof.
  intros HN Hsh Hd Ee Hk Hcl HL.
  destruct (update_watch_ok stale w e ep k a Hsh Hd Ee Hk Hcl) as (w1 & E1 & Er1 & Hds & Hpf & _ & Hd1).
  destruct (erased_epoll w1 w (eq_sym Er1) e ep Ee) as (ep1 & Ee1 & _).
  destruct (adjust_readable_ok fuel w1 _ e ep1 HN (shape_erased w w1 Er1 Hsh) Hd1 Ee1 HL) as (w2 & E2 & Er2 & Hs2 & Hd2).
  unfold _epoll_descriptorStatusChanged. rewrite E1. cbn [mbind option_bind]. rewrite E2. exists w2. split_and!; [done|congruence| |done].
  intros o Ho. rewrite Hs2 by done. unfold object_getStatus, posixfile_getStatus. by rewrite Hds, Hpf.
Qed.

Lemma notify_ok fuel : notified fuel.
Proof.
  induction fuel as [|fuel IH]; intros w stale e ep k a g arg Hsh Hd Ee Hk Hcl Harg Hkey HL.
  - pose proof (Hlevel (descriptor e)). lia.
  - cbn [notify]. rewrite Ee. destruct (Z.eqb_spec arg 0); [done|]. rewrite Hkey. cbn [mbind option_bind].
    by apply (status_changed_ok fuel w stale e ep k a).
Qed.

Lemma run_listeners_ok fuel (o : Object) ls st X items : ∀ w stale,
  notified fuel → shape w → dyn stale (λ _, False) w → object_listeners w o = Some ls →
  (∀ l, l ∈ items → l ∈ ls) → (L ≤ S fuel + level o)%nat →
  ∃ w', run_listeners free_descriptor fuel w st X items = Some w' ∧ erase w' = erase w ∧ same_below (S (level o)) w w' ∧
    dyn (told X items w stale) (λ _, False) w'.
Proof.
  induction items as [|l items IH]; intros w stale HN Hsh Hd Eo Hin HL.
  - exists w. split_and!; try done. apply (dyn_weaken _ _ _ _ w Hd); [|done]. intros b Hb. split; [done|]. intros (_ & l & Hl & _).
    by apply not_elem_of_nil in Hl.
  - cbn [run_listeners]. assert (Hl : l ∈ ls) by (apply Hin; by left).
    destruct (call_one fuel w stale o ls l st X) as (w1 & c1 & -> & E1 & Hs1 & Hd1); try done. cbn [mbind option_bind].
    destruct (IH w1 (told X [l] w stale)) as (w2 & E2 & Er2 & Hs2 & Hd2); try done.
    + by apply (shape_erased w w1).
    + by rewrite (erased_lists w w1 E1).
    + intros l' Hl'. apply Hin. by right.
    + exists w2. split_and!; [done|congruence|by eapply same_below_trans|].
      apply (dyn_weaken _ _ _ _ w2 Hd2); [|done]. intros b. by apply told_app.
Qed.

Abbreviation posix_file p := (EWT_POSIX_FILE, p).

Lemma file_status_ok fuel w stale p old st :
  notified fuel → shape w → dyn stale (λ _, False) w → object_getStatus w (posix_file p) = Some old →
  (L ≤ S fuel + level (posix_file p))%nat →
  ∃ w', posixfile_setStatus free_descriptor fuel w p st = Some w' ∧ erase w' = erase w ∧
    object_getStatus w' (posix_file p) = Some st ∧ dyn stale (λ _, False) w'.
Proof.
  intros HN Hsh Hd Eo HL. pose proof Eo as Ef. unfold object_getStatus, posixfile_getStatus in Ef. cbn [fst snd] in Ef.
  apply fmap_Some in Ef as (f & Ef & ->). unfold posixfile_setStatus. rewrite Ef. cbn [mbind option_bind].
  replace (set_file w p (f <| file_status := st |>)) with (set_object_status w (posix_file p) st)
    by (unfold set_object_status; cbn [fst snd]; by rewrite Ef).
  pose proof (erase_set_status w (posix_file p) st) as Er1.
  pose proof (status_set_eq w (posix_file p) st _ Eo) as Hst2.
  pose proof (dyn_set_status stale (λ _, False) (λ _, False) w (posix_file p) _ st Eo Hd ltac:(done) ltac:(done)) as Hd1.
  replace (on w) with (on (set_object_status w (posix_file p) st)) in Hd1
    by (unfold on, get_watch; by rewrite (proj2 (set_status_maps w (posix_file p) st))).
  assert (Els : object_listeners (set_object_status w (posix_file p) st) (posix_file p) = Some (file_listeners f)).
  { rewrite (erased_lists w _ Er1). unfold object_listeners. cbn [fst snd]. by rewrite Ef. }
  set (w1 := set_object_status _ _ _) in *. clearbody w1.
  destruct (Z.eqb_spec (Z.lxor st (file_status f)) 0) as [Hx|Hx].
  - exists w1. split_and!; try done. apply (dyn_weaken _ _ _ _ w1 Hd1); [|done].
    intros a [?|[_ H]]; [done|]. rewrite Hx in H. done.
  - pose proof (shape_erased w w1 Er1 Hsh) as Hsh1.
    destruct (run_listeners_ok fuel (posix_file p) (file_listeners f) st (Z.lxor st (file_status f)) (file_listeners f) w1 _ HN Hsh1 Hd1 Els)
      as (w2 & E2 & Er2 & Hs2 & Hd2); try done.
    exists w2. split_and!; [done|congruence|rewrite Hs2 by lia; done|].
    by apply (all_told (Z.lxor st (file_status f)) w1 w2 stale (posix_file p) (file_listeners f)).
Qed.

End Update.

End Invariant.

End EpollNotify.
