(* ===== verification/EpollSafety.v ===== *)
(** * Epoll instances at work

    Every sequence of the operations on epoll instances and of the status
    changes of what they watch succeeds and keeps the tables, the watches, the
    listeners and the reference counts consistent; the events that
    [epoll_getEvents] returns are the requested ones that are present, the
    longest unreported first. *)

From S2P Require Import Prelude Descriptor Timer TimerFd Epoll EpollNotify.

Module EpollSafety.
Import Desc Epoll EpollNotify.

#[local] Existing Instances desc_eta listener_eta.
Implicit Types w : World.

(** The left-hand side of the goal, up to conversion. *)
#[local] Tactic Notation "lhs" uconstr(x) := match goal with |- _ = ?r => change (x = r) end.

(** ** Objects *)

Definition obj_view {B} (gd : LegacyDescriptor → B) (gf : PosixFile → B) w (o : Object) : option B :=
  match o.1 with
  | EWT_LEGACY_DESCRIPTOR => gd <$> descriptors w !! o.2
  | EWT_POSIX_FILE => gf <$> posixfiles (external w) !! o.2
  end.

Definition upd_object w (o : Object) (gd : LegacyDescriptor → LegacyDescriptor) (gf : PosixFile → PosixFile) : World :=
  match o.1 with
  | EWT_LEGACY_DESCRIPTOR => w <| descriptors := alter gd o.2 (descriptors w) |>
  | EWT_POSIX_FILE => mem w (λ m, m <| posixfiles := alter gf o.2 (posixfiles m) |>)
  end.

Lemma upd_view {B} (pd : LegacyDescriptor → B) (pf : PosixFile → B) w o gd gf o' :
  obj_view pd pf (upd_object w o gd gf) o' =
  if decide (o' = o) then obj_view (λ d, pd (gd d)) (λ f, pf (gf f)) w o' else obj_view pd pf w o'.
Proof.
  destruct o as [[] p], o' as [[] p']; unfold obj_view, upd_object; cbn [fst snd]; try (by rewrite decide_False by done).
  - cbn. destruct (decide (p' = p)) as [->|Hp].
    + rewrite decide_True, lookup_alter_eq by done. by destruct (descriptors w !! p).
    + rewrite decide_False by congruence. by rewrite lookup_alter_ne.
  - cbn. destruct (decide (p' = p)) as [->|Hp].
    + rewrite decide_True, lookup_alter_eq by done. by destruct (posixfiles (external w) !! p).
    + rewrite decide_False by congruence. by rewrite lookup_alter_ne.
Qed.

Lemma upd_view_same {B} (pd : LegacyDescriptor → B) (pf : PosixFile → B) w o gd gf o' :
  (∀ d, pd (gd d) = pd d) → (∀ f, pf (gf f) = pf f) → obj_view pd pf (upd_object w o gd gf) o' = obj_view pd pf w o'.
Proof.
  intros Hd Hf. rewrite upd_view. case_decide; [|done]. unfold obj_view. destruct o' as [[] p]; cbn [fst snd].
  - destruct (descriptors w !! p); cbn; by rewrite ?Hd.
  - destruct (posixfiles (external w) !! p); cbn; by rewrite ?Hf.
Qed.

Lemma upd_maps w o gd gf :
  statuslisteners (upd_object w o gd gf) = statuslisteners w ∧
  epolls (external (upd_object w o gd gf)) = epolls (external w) ∧
  watches (external (upd_object w o gd gf)) = watches (external w) ∧
  epollkeys (external (upd_object w o gd gf)) = epollkeys (external w).
Proof. by destruct o as [[] p]. Qed.

Lemma insert_alter {A} (g : A → A) (m : gmap Z A) i x : m !! i = Some x → <[i := g x]> m = alter g i m.
Proof.
  intros E. apply map_eq. intros j.
  destruct (decide (j = i)) as [->|Hi]; [by rewrite lookup_insert_eq, lookup_alter_eq, E|by rewrite lookup_insert_ne, lookup_alter_ne].
Qed.

Lemma upd_descriptor w d desc gd gf :
  descriptors w !! d = Some desc → set_descriptor w d (gd desc) = upd_object w (EWT_LEGACY_DESCRIPTOR, d) gd gf.
Proof. intros E. unfold set_descriptor. by rewrite (insert_alter gd _ d desc E). Qed.

Lemma upd_file w p f gd gf :
  posixfiles (external w) !! p = Some f → set_file w p (gf f) = upd_object w (EWT_POSIX_FILE, p) gd gf.
Proof.
  intros E. unfold set_file, upd_object, mem. cbn [fst snd]. destruct w as [ds ls m], m. cbn in *. unfold set_field. cbn.
  by rewrite (insert_alter gf _ p f E).
Qed.

(** A view that an object has. *)
Lemma view_some {B C} (pd : LegacyDescriptor → B) (pf : PosixFile → B) (qd : LegacyDescriptor → C) (qf : PosixFile → C) w o x :
  obj_view pd pf w o = Some x → is_Some (obj_view qd qf w o).
Proof.
  unfold obj_view. destruct o as [[] p]; cbn [fst snd]; intros (y & -> & _)%fmap_Some; by eexists.
Qed.

Section Safety.
Context (level : Object → nat) (free_descriptor : World → Z → option World).
Context (L : nat) (Hlevel : ∀ o, (level o < L)%nat).

Abbreviation shape silent := (EpollNotify.shape level (λ a, a ∈ silent)).
Abbreviation dyn silent := (EpollNotify.dyn (λ a, a ∈ silent)).
Implicit Types silent : gset Z.

(** ** Another reference to a file *)

Lemma shape_refs silent w w' :
  statuslisteners w' = statuslisteners w → epolls (external w') = epolls (external w) →
  watches (external w') = watches (external w) → epollkeys (external w') = epollkeys (external w) →
  (∀ o, object_listeners w' o = object_listeners w o) → (∀ o, object_getStatus w' o = object_getStatus w o) →
  (∀ o n', object_refs w' o = Some n' → ∃ n, object_refs w o = Some n ∧ n ≤ n') →
  (∀ d, status <$> descriptors w' !! d = status <$> descriptors w !! d) →
  shape silent w → shape silent w'.
Proof.
  intros Esl Ee Ew Ek Els Est Er Ed [Hw Ho Hod Hi Ha He Hr Hl].
  constructor; unfold get_epoll, get_watch; rewrite ?Ee, ?Ew, ?Esl; try done.
  - intros e ep k a E1 E2. destruct (Hw e ep k a E1 E2) as (W & EW & [G1 G2 G3 G4 (s & G5 & G6)]). exists W. split; [done|].
    constructor; try done; [by rewrite Est|]. exists s. by rewrite Esl, Ek, Els.
  - intros e ep E1. destruct (He e ep E1) as [[desc Ed'] Hc]. split; [|done]. specialize (Ed e). rewrite Ed' in Ed.
    by destruct (descriptors w' !! e).
  - intros o n' (n & En & ?)%Er. specialize (Hr o n En). unfold watchers in *. rewrite Ew. lia.
  - intros o ls l. rewrite Els. apply Hl.
Qed.

Lemma dyn_refs silent stale U w w' :
  epolls (external w') = epolls (external w) → watches (external w') = watches (external w) →
  (∀ o, object_getStatus w' o = object_getStatus w o) → (∀ d, status <$> descriptors w' !! d = status <$> descriptors w !! d) →
  dyn silent stale U w → dyn silent stale U w'.
Proof.
  intros Ee Ew Est Ed [H1 H2 H3 H4]. constructor; unfold get_epoll, get_watch; rewrite ?Ee, ?Ew; try done.
  - intros e ep k a W E1 E2 E3 Hst Hs. destruct (H3 e ep k a W E1 E2 E3 Hst Hs) as [(st & G1 & G2) G3]. split; [|done].
    exists st. by rewrite Est.
  - intros e ep desc E1 E2 Hu. specialize (Ed e). rewrite E2 in Ed. symmetry in Ed. apply fmap_Some in Ed as (desc' & Ed' & ->).
    by apply (H4 e ep desc').
Qed.

Lemma newref_ok silent stale U w o n :
  shape silent w → dyn silent stale U w → object_refs w o = Some n →
  ∃ w', _getWatchObject w o = Some w' ∧ shape silent w' ∧ dyn silent stale U w' ∧
    object_refs w' o = Some (n + if decide (o.1 = EWT_POSIX_FILE) then 1 else 0) ∧
    statuslisteners w' = statuslisteners w ∧ epolls (external w') = epolls (external w) ∧
    watches (external w') = watches (external w) ∧ epollkeys (external w') = epollkeys (external w) ∧
    (∀ o', object_getStatus w' o' = object_getStatus w o') ∧ (∀ o', object_listeners w' o' = object_listeners w o').
Proof.
  intros Hsh Hd En. unfold _getWatchObject. destruct o as [[] p]; cbn [fst snd].
  - exists w. rewrite decide_False, Z.add_0_r by done. split_and!; done.
  - rewrite decide_True by done. unfold posixfile_newRef. unfold object_refs in En. cbn [fst snd] in En.
    apply fmap_Some in En as (f & Ef & ->). rewrite Ef. cbn [mbind option_bind]. eexists. split; [done|].
    set (w' := set_file _ _ _).
    assert (Ew : w' = upd_object w (EWT_POSIX_FILE, p) (λ d, d) (λ f, f <| file_refs := file_refs f + 1 |>)).
    { exact (upd_file w p f (λ d, d) (λ f, f <| file_refs := file_refs f + 1 |>) Ef). }
    assert (Hst : ∀ o', object_getStatus w' o' = object_getStatus w o').
    { intros o'. rewrite Ew. apply (upd_view_same status file_status); done. }
    assert (Hls : ∀ o', object_listeners w' o' = object_listeners w o').
    { intros o'. rewrite Ew. apply (upd_view_same listeners file_listeners); done. }
    assert (Hrf : ∀ o' n', object_refs w' o' = Some n' → ∃ n, object_refs w o' = Some n ∧ n ≤ n').
    { intros o' n'. rewrite Ew. unfold object_refs. change (obj_view referenceCount file_refs (upd_object w (EWT_POSIX_FILE, p) (λ d, d) (λ f, f <| file_refs := file_refs f + 1 |>)) o' = Some n' →
        ∃ n, obj_view referenceCount file_refs w o' = Some n ∧ n ≤ n'). rewrite upd_view. case_decide as Ho.
      - rewrite Ho. unfold obj_view. cbn [fst snd]. rewrite Ef. cbn. intros [= <-]. eexists. split; [done|]. lia.
      - intros ->. by eexists. }
    split_and!; try done.
    + by apply (shape_refs silent w).
    + by apply (dyn_refs silent stale U w).
    + unfold object_refs, w'. cbn. by rewrite lookup_insert_eq.
Qed.

(** ** A watch is added *)

Definition new_watch (ep : Epoll) (fd : Z) (o : Object) (ev : EpollEvent) (l : Z) : EpollWatch :=
  mkWatch (watch_id_counter ep + 1) o fd l ev EWF_WATCHING 0 1.

Definition new_listener (e ka : Z) : StatusListener := mkListener MONITORED SLF_ALWAYS 1 e 0 ka 1 2.

(** The memory after the watch was added, before the callback. *)
Definition add_world w (e : Z) (ep : Epoll) (fd : Z) (o : Object) (ev : EpollEvent) (a l ka : Z) : World :=
  let u := upd_object w o (λ d, d <| referenceCount := referenceCount d + 1 |> <| listeners := listeners d ++ [l] |>)
                          (λ f, f <| file_listeners := file_listeners f ++ [l] |>) in
  mem (u <| statuslisteners := <[l := new_listener e ka]> (statuslisteners u) |>)
    (λ m, m <| epolls := <[e := mkEpoll (<[(fd, o.2) := a]> (watching ep)) (ready ep) (watch_id_counter ep + 1)]> (epolls m) |>
            <| watches := <[a := new_watch ep fd o ev l]> (watches m) |>
            <| epollkeys := <[ka := (fd, o.2)]> (epollkeys m) |>).

Record fresh silent w (a l ka : Z) : Prop := mkFresh {
  fr_watch : get_watch w a = None;
  fr_silent : a ∉ silent;
  fr_listener : statuslisteners w !! l = None;
  fr_key : epollkeys (external w) !! ka = None;
  fr_ka : ka ≠ 0;
}.

Lemma control_add silent w e ep fd o ev a l ka :
  shape silent w → get_epoll w e = Some ep → fresh silent w a l ka → is_Some (object_getStatus w o) →
  watch_id_counter ep + 1 < 2 ^ 64 →
  epoll_control_add w e fd o ev (a, l, ka) = Some (add_world w e ep fd o ev a l ka).
Proof.
  intros Hsh Ee [Fw _ Fl Fk Fka] [st Est] Hc. destruct (sh_epoll _ _ _ Hsh e ep Ee) as [_ Hc0].
  assert (Hno : ∀ ls, object_listeners w o = Some ls → l ∉ ls).
  { intros ls Els Hin. destruct (sh_listeners _ _ _ Hsh o ls l Els Hin) as (s & Es & _). congruence. }
  unfold epoll_control_add, _epollwatch_new. rewrite Ee. cbn [mbind option_bind].
  assert (Hu : u64 (watch_id_counter ep + 1) = watch_id_counter ep + 1) by (unfold u64; apply Z.mod_small; lia).
  rewrite Hu. destruct o as [[] p]; cbn [fst snd].
  - unfold object_getStatus in Est. cbn [fst snd] in Est. apply fmap_Some in Est as (desc & Ed & _).
    assert (Hl : l ∉ listeners desc) by (apply Hno; unfold object_listeners; cbn; by rewrite Ed).
    unfold world_descriptor_ref. rewrite Ed. cbn [mbind option_bind].
    unfold add_world. rewrite <-(upd_descriptor w p desc _ _ Ed).
    unfold get_watch, set_watch, set_epoll, get_epoll, mem, set_monitor, with_listener, set_descriptor. cbn.
    do 3 (rewrite lookup_insert_eq; cbn).
    unfold object_addListener, descriptor_addListener, statuslistener_ref, with_listener. cbn.
    rewrite !lookup_insert_eq. cbn. rewrite lookup_insert_eq. cbn. rewrite bool_decide_false by done.
    rewrite !insert_insert_eq. done.
  - unfold object_getStatus, posixfile_getStatus in Est. cbn [fst snd] in Est. apply fmap_Some in Est as (f & Ed & _).
    assert (Hl : l ∉ file_listeners f) by (apply Hno; unfold object_listeners; cbn; by rewrite Ed).
    unfold add_world. rewrite <-(upd_file w p f _ _ Ed).
    unfold get_watch, set_watch, set_epoll, get_epoll, mem, set_monitor, with_listener, set_file. cbn.
    do 3 (rewrite lookup_insert_eq; cbn).
    unfold object_addListener, posixfile_addListener, statuslistener_ref, with_listener. cbn.
    rewrite Ed. cbn. rewrite bool_decide_false by done. cbn. rewrite lookup_insert_eq. cbn.
    rewrite !insert_insert_eq. done.
Qed.

Definition is_legacy (o : Object) : Z := if decide (o.1 = EWT_LEGACY_DESCRIPTOR) then 1 else 0.

(** What an observer sees of the memory after the watch was added. *)
Record added w w' (e : Z) (ep : Epoll) (fd : Z) (o : Object) (ev : EpollEvent) (a l ka : Z) : Prop := mkAdded {
  ad_epoll : ∀ f, get_epoll w' f = if decide (f = e)
    then Some (mkEpoll (<[(fd, o.2) := a]> (watching ep)) (ready ep) (watch_id_counter ep + 1)) else get_epoll w f;
  ad_watch : ∀ b, get_watch w' b = if decide (b = a) then Some (new_watch ep fd o ev l) else get_watch w b;
  ad_watches : watches (external w') = <[a := new_watch ep fd o ev l]> (watches (external w));
  ad_listener : ∀ i, statuslisteners w' !! i = if decide (i = l) then Some (new_listener e ka) else statuslisteners w !! i;
  ad_key : ∀ i, epollkeys (external w') !! i = if decide (i = ka) then Some (fd, o.2) else epollkeys (external w) !! i;
  ad_status : ∀ o', object_getStatus w' o' = object_getStatus w o';
  ad_lists : ∀ o', object_listeners w' o' = if decide (o' = o) then (λ ls, ls ++ [l]) <$> object_listeners w o' else object_listeners w o';
  ad_refs : ∀ o', object_refs w' o' = if decide (o' = o) then (λ n, n + is_legacy o) <$> object_refs w o' else object_refs w o';
}.

Lemma add_world_added w e ep fd o ev a l ka : added w (add_world w e ep fd o ev a l ka) e ep fd o ev a l ka.
Proof.
  unfold add_world. set (gd := λ d : LegacyDescriptor, _). set (gf := λ f : PosixFile, _).
  destruct (upd_maps w o gd gf) as (U1 & U2 & U3 & U4).
  constructor.
  - intros f. unfold get_epoll, mem. cbn. rewrite U2. case_decide; [subst; apply lookup_insert_eq|by apply lookup_insert_ne].
  - intros b. unfold get_watch, mem. cbn. rewrite U3. case_decide; [subst; apply lookup_insert_eq|by apply lookup_insert_ne].
  - unfold mem. cbn. by rewrite U3.
  - intros i. unfold mem. cbn. rewrite U1. case_decide; [subst; apply lookup_insert_eq|by apply lookup_insert_ne].
  - intros i. unfold mem. cbn. rewrite U4. case_decide; [subst; apply lookup_insert_eq|by apply lookup_insert_ne].
  - intros o'. exact (upd_view_same status file_status w o gd gf o' ltac:(done) ltac:(done)).
  - intros o'. etransitivity; [exact (upd_view listeners file_listeners w o gd gf o')|]. case_decide; [|done].
    unfold obj_view, object_listeners. destruct o' as [[] p]; cbn [fst snd]; by rewrite <-option_fmap_compose.
  - intros o'. etransitivity; [exact (upd_view referenceCount file_refs w o gd gf o')|]. case_decide as Ho; [|done]. subst o'.
    unfold obj_view, object_refs, is_legacy. destruct o as [[] p]; cbn [fst snd]; rewrite <-option_fmap_compose; [done|].
    destruct (posixfiles (external w) !! p); [|done]. cbn. by rewrite Z.add_0_r.
Qed.

Lemma watchers_insert w w' a W o :
  get_watch w a = None → watches (external w') = <[a := W]> (watches (external w)) →
  Z.of_nat (watchers w' o) = Z.of_nat (watchers w o) + if decide (o = watchObject W) then 1 else 0.
Proof.
  intros Ea Ew. unfold watchers. rewrite Ew. case_decide as Ho.
  - rewrite map_filter_insert_True by done. rewrite map_size_insert_None; [lia|]. apply map_lookup_filter_None. by left.
  - rewrite map_filter_insert_False by (cbn; intros ?; congruence). rewrite delete_id by done. lia.
Qed.

Section Add.
Context silent w w' (e : Z) (ep : Epoll) (fd : Z) (o : Object) (ev : EpollEvent) (a l ka : Z).
Context (Hsh : shape silent w) (Ee : get_epoll w e = Some ep) (Hf : fresh silent w a l ka).
Context (Hnew : watching ep !! (fd, o.2) = None) (Hst : is_Some (object_getStatus w o)).
Context (Hlv : (level o < level (EWT_LEGACY_DESCRIPTOR, e))%nat) (Hc : watch_id_counter ep + 1 < 2 ^ 64).
Context (Had : added w w' e ep fd o ev a l ka).

Lemma add_old_watch f fp k b : get_epoll w f = Some fp → watching fp !! k = Some b → b ≠ a.
Proof. intros E1 E2 ->. destruct (sh_watch _ _ _ Hsh f fp k a E1 E2) as (W & EW & _). by rewrite (fr_watch _ _ _ _ _ Hf) in EW. Qed.

(** The watches after the addition are the new one and the old ones. *)
Lemma add_cases f fp' k b :
  get_epoll w' f = Some fp' → watching fp' !! k = Some b →
  f = e ∧ k = (fd, o.2) ∧ b = a ∨
  b ≠ a ∧ (f = e → k ≠ (fd, o.2)) ∧ ∃ fp, get_epoll w f = Some fp ∧ watching fp !! k = Some b ∧ ready fp' = ready fp ∧
    watch_id_counter fp ≤ watch_id_counter fp' ∧ get_watch w' b = get_watch w b.
Proof.
  clear Hlv Hc Hst Hlevel. rewrite (ad_epoll _ _ _ _ _ _ _ _ _ _ Had). case_decide as Hfe.
  - subst f. intros [= <-]. cbn. intros [[<- <-]|[Hk Hb]]%lookup_insert_Some; [by left|]. right.
    pose proof (add_old_watch e ep k b Ee Hb). split_and!; [done| |]; [by intros _ ->|].
    exists ep. rewrite (ad_watch _ _ _ _ _ _ _ _ _ _ Had), decide_False by done. split_and!; try done. lia.
  - intros E1 E2. right. pose proof (add_old_watch f fp' k b E1 E2). split_and!; [done..|].
    exists fp'. rewrite (ad_watch _ _ _ _ _ _ _ _ _ _ Had), decide_False by done. done.
Qed.

Lemma add_epoll_old f fp : get_epoll w f = Some fp →
  ∃ fp', get_epoll w' f = Some fp' ∧ ready fp' = ready fp ∧ watch_id_counter fp ≤ watch_id_counter fp' ∧
    ∀ k b, watching fp !! k = Some b → watching fp' !! k = Some b.
Proof.
  intros E1. rewrite (ad_epoll _ _ _ _ _ _ _ _ _ _ Had). case_decide as Hfe.
  - subst f. assert (fp = ep) as -> by congruence. eexists. split; [done|]. cbn. split_and!; [done|lia|].
    intros k b Hk. rewrite lookup_insert_ne; [done|]. intros <-. pose proof (eq_trans (eq_sym Hk) Hnew). done.
  - exists fp. split_and!; try done.
Qed.

Lemma add_watch_ok f fp fp' k b W :
  get_watch w b = Some W → watch_id_counter fp ≤ watch_id_counter fp' →
  watch_ok level (λ x, x ∈ silent) w f fp k b W → watch_ok level (λ x, x ∈ silent) w' f fp' k b W.
Proof.
  destruct Hf as [_ _ Fl Fk _]. intros _ Hcc [G1 G2 G3 G4 (s & Es & S1 & S2 & S3 & S4 & S5 & S6 & S7 & S8)].
  constructor; [done|lia|by rewrite (ad_status _ _ _ _ _ _ _ _ _ _ Had)|done|].
  assert (Hl : listener W ≠ l) by congruence.
  exists s. rewrite (ad_listener _ _ _ _ _ _ _ _ _ _ Had), decide_False by done.
  rewrite (ad_key _ _ _ _ _ _ _ _ _ _ Had), decide_False by congruence. split_and!; try done.
  - intros Hs. destruct (S7 Hs) as (T1 & T2 & T3 & ls & T4 & T5). split_and!; try done.
    rewrite (ad_lists _ _ _ _ _ _ _ _ _ _ Had). case_decide; [|by exists ls]. rewrite T4. eexists. split; [done|]. apply elem_of_app. by left.
  - intros Hs. destruct (S8 Hs) as (T1 & T2 & T3). split_and!; try done.
    intros ls. rewrite (ad_lists _ _ _ _ _ _ _ _ _ _ Had). case_decide; [|by apply T3].
    intros (ls0 & E0 & ->)%fmap_Some. rewrite not_elem_of_app, list_elem_of_singleton. split; [by apply T3|done].
Qed.

Lemma add_new_watch_ok :
  watch_ok level (λ x, x ∈ silent) w' e (mkEpoll (<[(fd, o.2) := a]> (watching ep)) (ready ep) (watch_id_counter ep + 1))
    (fd, o.2) a (new_watch ep fd o ev l).
Proof.
  destruct Hf as [_ Fs _ _ Fka]. destruct (sh_epoll _ _ _ Hsh e ep Ee) as [_ Hc0].
  constructor; cbn; [done|lia|by rewrite (ad_status _ _ _ _ _ _ _ _ _ _ Had)|done|].
  exists (new_listener e ka). cbn. rewrite (ad_listener _ _ _ _ _ _ _ _ _ _ Had), decide_True by done.
  rewrite (ad_key _ _ _ _ _ _ _ _ _ _ Had), decide_True by done. split_and!; try done.
  intros _. split_and!; try done. rewrite (ad_lists _ _ _ _ _ _ _ _ _ _ Had), decide_True by done.
  destruct Hst as [st Est]. destruct (view_some status file_status listeners file_listeners w o st Est) as [ls Els].
  change (object_listeners w o = Some ls) in Els. rewrite Els. eexists. split; [done|]. apply elem_of_app. right. by left.
Qed.

Lemma add_shape (Hr : ∀ n, object_refs w o = Some n → Z.of_nat (watchers w o) + 1 < n + is_legacy o) : shape silent w'.
Proof.
  pose proof (fr_watch _ _ _ _ _ Hf) as Fa.
  assert (Hold : ∀ b W, get_watch w' b = Some W → b = a ∧ W = new_watch ep fd o ev l ∨ b ≠ a ∧ get_watch w b = Some W).
  { intros b W. rewrite (ad_watch _ _ _ _ _ _ _ _ _ _ Had). case_decide; [intros [= <-]; by left|by right]. }
  pose proof (ad_epoll _ _ _ _ _ _ _ _ _ _ Had e) as Ee'. rewrite decide_True in Ee' by done.
  constructor.
  - intros f fp' k b E1 E2. destruct (add_cases f fp' k b E1 E2) as [(-> & -> & ->)|(Hb & _ & fp & F1 & F2 & _ & F3 & F4)].
    + rewrite Ee' in E1. injection E1 as <-. exists (new_watch ep fd o ev l).
      rewrite (ad_watch _ _ _ _ _ _ _ _ _ _ Had), decide_True by done. split; [done|apply add_new_watch_ok].
    + destruct (sh_watch _ _ _ Hsh f fp k b F1 F2) as (W & EW & Hok). exists W. rewrite F4. split; [done|].
      by apply (add_watch_ok f fp).
  - intros e1 e2 ep1 ep2 k1 k2 b E1 E2 E3 E4.
    destruct (add_cases e1 ep1 k1 b E1 E3) as [(-> & -> & ->)|(Hb & _ & fp & F1 & F2 & _)],
      (add_cases e2 ep2 k2 _ E2 E4) as [(-> & -> & ?)|(? & _ & fp2 & G1 & G2 & _)]; try done.
    by apply (sh_owner _ _ _ Hsh e1 e2 fp fp2 k1 k2 b).
  - intros b W [[-> ->]|[Hb EW]]%Hold.
    + eexists e, _, (fd, o.2). split; [done|]. cbn. by rewrite lookup_insert_eq.
    + destruct (sh_owned _ _ _ Hsh b W EW) as (f & fp & k & E1 & E2). destruct (add_epoll_old f fp E1) as (fp' & E3 & _ & _ & E4).
      exists f, fp', k. split; [done|by apply E4].
  - intros f fp' k1 k2 a1 a2 W1 W2 E1 E2 E3 E4 E5 Hid.
    assert (Hlt : ∀ k b W, watching ep !! k = Some b → get_watch w b = Some W → id W ≤ watch_id_counter ep).
    { intros k b W Hk EW. destruct (sh_watch _ _ _ Hsh e ep k b Ee Hk) as (W' & EW' & [_ ? _ _ _]). simplify_eq. lia. }
    destruct (add_cases f fp' k1 a1 E1 E2) as [(-> & -> & ->)|(Hb1 & _ & fp & F1 & F2 & _ & _ & F4)],
      (add_cases _ fp' k2 a2 E1 E3) as [(? & -> & ->)|(Hb2 & _ & fp2 & G1 & G2 & _ & _ & G4)]; try done.
    + assert (fp2 = ep) as -> by congruence. rewrite G4 in E5. specialize (Hlt k2 a2 W2 G2 E5).
      destruct (Hold a W1 E4) as [[_ ->]|[? _]]; [|done]. cbn in Hid. lia.
    + subst f. assert (fp = ep) as -> by congruence. rewrite F4 in E4. specialize (Hlt k1 a1 W1 F2 E4).
      destruct (Hold a W2 E5) as [[_ ->]|[? _]]; [|done]. cbn in Hid. lia.
    + assert (fp2 = fp) as -> by congruence. rewrite F4 in E4. rewrite G4 in E5. by apply (sh_ids _ _ _ Hsh f fp k1 k2 a1 a2 W1 W2).
  - intros a1 a2 W1 W2 s1 s2 E1 E2 E3 E4 Hcb. rewrite (ad_listener _ _ _ _ _ _ _ _ _ _ Had) in E3, E4.
    assert (Hlis : ∀ b W, get_watch w b = Some W → ∃ s, statuslisteners w !! listener W = Some s ∧ callbackArgument s ≠ ka).
    { intros b W EW. destruct (watch_listener _ _ w b W Hsh EW) as (f & fp & k & _ & _ & [_ _ _ _ (s & Es & _ & _ & _ & _ & _ & Ek & _)]).
      exists s. split; [done|]. intros H. rewrite H, (fr_key _ _ _ _ _ Hf) in Ek. done. }
    pose proof (fr_listener _ _ _ _ _ Hf) as Fl.
    destruct (Hold a1 W1 E1) as [[-> ->]|[Hb1 F1]], (Hold a2 W2 E2) as [[-> ->]|[Hb2 F2]]; [done|..].
    + destruct (Hlis a2 W2 F2) as (s & Es & Hs). rewrite decide_False in E4 by congruence. cbn in E3. rewrite decide_True in E3 by done.
      injection E3 as <-. cbn in Hcb. congruence.
    + destruct (Hlis a1 W1 F1) as (s & Es & Hs). rewrite decide_False in E3 by congruence. cbn in E4. rewrite decide_True in E4 by done.
      injection E4 as <-. cbn in Hcb. congruence.
    + destruct (Hlis a1 W1 F1) as (s1' & Es1 & _), (Hlis a2 W2 F2) as (s2' & Es2 & _).
      rewrite decide_False in E3 by congruence. rewrite decide_False in E4 by congruence.
      by apply (sh_args _ _ _ Hsh a1 a2 W1 W2 s1 s2).
  - intros f fp'. rewrite (ad_epoll _ _ _ _ _ _ _ _ _ _ Had).
    assert (Hds : ∀ d, is_Some (descriptors w !! d) → is_Some (descriptors w' !! d)).
    { intros d [desc Ed]. pose proof (ad_status _ _ _ _ _ _ _ _ _ _ Had (EWT_LEGACY_DESCRIPTOR, d)) as H.
      unfold object_getStatus in H. cbn [fst snd] in H. rewrite Ed in H. by destruct (descriptors w' !! d). }
    case_decide as Hfe.
    + subst f. intros [= <-]. cbn. destruct (sh_epoll _ _ _ Hsh e ep Ee) as [? ?]. split; [by apply Hds|lia].
    + intros E1. destruct (sh_epoll _ _ _ Hsh f fp' E1) as [? ?]. split; [by apply Hds|done].
  - intros o' n. rewrite (ad_refs _ _ _ _ _ _ _ _ _ _ Had), (watchers_insert w w' a _ o' Fa (ad_watches _ _ _ _ _ _ _ _ _ _ Had)). cbn [watchObject new_watch].
    case_decide as Ho.
    + subst o'. intros (n0 & En & ->)%fmap_Some. by apply Hr.
    + intros En. pose proof (sh_refs _ _ _ Hsh o' n En). lia.
  - intros o' ls l'. rewrite (ad_lists _ _ _ _ _ _ _ _ _ _ Had), (ad_listener _ _ _ _ _ _ _ _ _ _ Had). intros Els Hin.
    assert (Hcase : l' = l ∧ o' = o ∨ ∃ ls0, object_listeners w o' = Some ls0 ∧ l' ∈ ls0).
    { case_decide as Ho; [|right; by exists ls]. apply fmap_Some in Els as (ls0 & Els & ->). apply elem_of_app in Hin as [?|Hin]; [right; by exists ls0|].
      apply list_elem_of_singleton in Hin. by left. }
    destruct Hcase as [[-> ->]|(ls0 & Els0 & Hin0)].
    + rewrite decide_True by done. eexists. split; [done|]. intros ep' Eep. change (get_epoll w' e = Some ep') in Eep. rewrite Ee' in Eep. injection Eep as <-.
      exists (fd, o.2), a, (new_watch ep fd o ev l). cbn [watching]. rewrite lookup_insert_eq, (ad_watch _ _ _ _ _ _ _ _ _ _ Had), decide_True by done. done.
    + destruct (sh_listeners _ _ _ Hsh o' ls0 l' Els0 Hin0) as (s & Es & Hs). rewrite decide_False by (intros ->; rewrite (fr_listener _ _ _ _ _ Hf) in Es; done).
      exists s. split; [done|]. intros fp' E1. rewrite (ad_epoll _ _ _ _ _ _ _ _ _ _ Had) in E1.
      assert (E0 : ∃ fp, get_epoll w (callbackObject s) = Some fp) by (case_decide as Hc'; [rewrite Hc'; by exists ep|by exists fp']).
      destruct E0 as [fp E0]. destruct (Hs fp E0) as (k & b & W & H1 & H2 & H3 & H4).
      destruct (add_epoll_old _ fp E0) as (fp2 & E2 & _ & _ & E3). rewrite (ad_epoll _ _ _ _ _ _ _ _ _ _ Had), E1 in E2. injection E2 as <-.
      exists k, b, W. rewrite (ad_watch _ _ _ _ _ _ _ _ _ _ Had), decide_False by (by eapply add_old_watch). split_and!; try done. by apply E3.
Qed.

End Add.

Lemma add_dyn silent w w' e ep fd o ev a l ka :
  shape silent w → get_epoll w e = Some ep → fresh silent w a l ka → watching ep !! (fd, o.2) = None →
  added w w' e ep fd o ev a l ka → dyn silent (λ _, False) (λ _, False) w →
  dyn silent (λ b, b = a) (λ _, False) w'.
Proof.
  intros Hsh Ee Hf Hnew Had Hd.
  pose proof (ad_epoll _ _ _ _ _ _ _ _ _ _ Had e) as Ee'. rewrite decide_True in Ee' by done.
  pose proof (add_cases silent w w' e ep fd o ev a l ka Hsh Ee Hf Had) as Hcases.
  constructor.
  - intros f fp' k b E1 E2. rewrite (ad_epoll _ _ _ _ _ _ _ _ _ _ Had) in E1. case_decide as Hfe.
    + subst f. injection E1 as <-. cbn in *. pose proof (dy_ready _ _ _ _ Hd e ep k b Ee E2) as Hw. rewrite lookup_insert_ne; [done|].
      intros <-. pose proof (eq_trans (eq_sym Hw) Hnew). done.
    + by apply (dy_ready _ _ _ _ Hd f fp').
  - intros f fp' k b W E1 E2 E3. destruct (Hcases f fp' k b E1 E2) as [(-> & -> & ->)|(Hb & _ & fp & F1 & F2 & F3 & _ & F4)].
    + rewrite Ee' in E1. injection E1 as <-. rewrite (ad_watch _ _ _ _ _ _ _ _ _ _ Had), decide_True in E3 by done. injection E3 as <-.
      cbn. destruct (ready ep !! (fd, o.2)) as [b|] eqn:Er; [|split; [done|by vm_compute]].
      pose proof (eq_trans (eq_sym (dy_ready _ _ _ _ Hd e ep _ b Ee Er)) Hnew). done.
    + rewrite F3. rewrite F4 in E3. by apply (dy_refs _ _ _ _ Hd f fp k b).
  - intros f fp' k b W E1 E2 E3 Hst Hs. destruct (Hcases f fp' k b E1 E2) as [(-> & -> & ->)|(Hb & _ & fp & F1 & F2 & F3 & _ & F4)]; [done|].
    rewrite F4 in E3. destruct (dy_current _ _ _ _ Hd f fp k b W F1 F2 E3) as [(st & G1 & G2) G3]; [by intros []|exact Hs|].
    split; [exists st; by rewrite (ad_status _ _ _ _ _ _ _ _ _ _ Had)|]. by rewrite F3.
  - intros f fp' desc E1 E2 _. assert (Eds : ∃ desc0, descriptors w !! f = Some desc0 ∧ status desc0 = status desc).
    { pose proof (ad_status _ _ _ _ _ _ _ _ _ _ Had (EWT_LEGACY_DESCRIPTOR, f)) as H. unfold object_getStatus in H. cbn [fst snd] in H.
      rewrite E2 in H. symmetry in H. apply fmap_Some in H as (desc0 & ? & ?). by exists desc0. }
    destruct Eds as (desc0 & Ed0 & <-). rewrite (ad_epoll _ _ _ _ _ _ _ _ _ _ Had) in E1. case_decide as Hfe.
    + subst f. injection E1 as <-. exact (dy_settled _ _ _ _ Hd e ep desc0 Ee Ed0 (λ H, H)).
    + exact (dy_settled _ _ _ _ Hd f fp' desc0 E1 Ed0 (λ H, H)).
Qed.

(** ** A watch is removed *)

(** The watch leaves the second table: one reference is left. *)
Lemma drop_ready w e ep k a W :
  get_epoll w e = Some ep → get_watch w a = Some W → (∀ b, ready ep !! k = Some b → b = a) →
  w_referenceCount W = 1 + from_option (λ _, 1) 0 (ready ep !! k) →
  remove_ready free_descriptor w e k =
    Some (set_watch (set_epoll w e (ep <| ready := delete k (ready ep) |>)) a (W <| w_referenceCount := 1 |>)).
Proof.
  intros Ee Ew Hr Href. unfold remove_ready. rewrite Ee. cbn [mbind option_bind].
  destruct (ready ep !! k) as [b|] eqn:Er.
  - rewrite (Hr b eq_refl). rewrite (unref_shared _ _ a W); [done|done|]. cbn in Href. lia.
  - cbn in Href. rewrite (delete_id _ _ Er). f_equal. unfold set_watch, set_epoll, mem. destruct w as [ds ls m], m. cbn in *.
    unfold get_epoll, get_watch in *. cbn in *. 
    assert (Hep : ep <| ready := ready ep |> = ep) by by destruct ep. rewrite Hep, (insert_id _ _ _ Ee).
    assert (HW : W <| w_referenceCount := 1 |> = W) by (destruct W; unfold set_field; cbn in *; by rewrite Href).
    by rewrite HW, (insert_id _ _ _ Ew).
Qed.

(** A listener that is told nothing more and is out of its object's table. *)
Definition unlistened w (o : Object) (l : Z) (s : StatusListener) : World :=
  let u := upd_object w o (λ d, d <| listeners := list_difference (listeners d) [l] |>)
                          (λ f, f <| file_listeners := list_difference (file_listeners f) [l] |>) in
  u <| statuslisteners := <[l := s <| monitoring := STATUS_NONE |> <| filter := SLF_NEVER |> <| l_referenceCount := 1 |>]> (statuslisteners u) |>.

Lemma unlisten_eq w o l s ls :
  statuslisteners w !! l = Some s → l_referenceCount s = 2 → object_listeners w o = Some ls → l ∈ ls →
  (w ← set_monitor w l STATUS_NONE SLF_NEVER; object_removeListener w o l) = Some (unlistened w o l s).
Proof.
  intros Es Er Els Hin. unfold set_monitor, with_listener. rewrite Es. cbn [mbind option_bind].
  unfold unlistened, object_removeListener, object_listeners in *. destruct o as [[] p]; cbn [fst snd] in *;
    apply fmap_Some in Els as (x & Ex & ->).
  - rewrite <-(upd_descriptor w p x _ _ Ex). unfold descriptor_removeListener. cbn. rewrite Ex. cbn.
    rewrite bool_decide_true by done. unfold statuslistener_unref, with_listener. cbn. rewrite lookup_insert_eq. cbn.
    rewrite lookup_insert_eq. cbn. unfold statuslistener_setMonitorStatus. cbn. rewrite Er. cbn. rewrite insert_insert_eq. done.
  - rewrite <-(upd_file w p x _ _ Ex). unfold posixfile_removeListener. cbn. rewrite Ex. cbn.
    rewrite bool_decide_true by done. unfold statuslistener_unref, with_listener. cbn. rewrite lookup_insert_eq. cbn.
    rewrite lookup_insert_eq. cbn. unfold statuslistener_setMonitorStatus. cbn. rewrite Er. cbn. rewrite insert_insert_eq. done.
Qed.

(** The last reference to a watch is gone. *)
Definition freed w (a : Z) (W : EpollWatch) (ka : Z) : World :=
  let u := upd_object w (watchObject W) (λ d, d <| referenceCount := referenceCount d - 1 |>) (λ f, f <| file_refs := file_refs f - 1 |>) in
  mem (u <| statuslisteners := delete (listener W) (statuslisteners u) |>)
    (λ m, m <| watches := delete a (watches m) |> <| epollkeys := delete ka (epollkeys m) |>).

Lemma free_eq w a W s n :
  get_watch w a = Some W → w_referenceCount W = 1 → statuslisteners w !! listener W = Some s →
  l_referenceCount s = 1 → objectFreeFunc s = 0 → callbackArgument s ≠ 0 → argumentFreeFunc s ≠ 0 →
  object_refs w (watchObject W) = Some n → 1 < n →
  _epollwatch_unref free_descriptor w a = Some (freed w a W (callbackArgument s)).
Proof.
  intros Ew Erc Es Er Ho Harg Hfr En Hn. unfold _epollwatch_unref. rewrite Ew. cbn [mbind option_bind].
  set (W1 := W <| w_referenceCount := _ |>).
  assert (Hrc : (w_referenceCount W1 <=? 0) = true) by (unfold W1; cbn; lia). rewrite Hrc. unfold _epollwatch_free.
  replace (get_watch (set_watch w a W1) a) with (Some W1) by (unfold get_watch, set_watch, mem; cbn; by rewrite lookup_insert_eq).
  cbn [mbind option_bind]. change (listener W1) with (listener W). change (watchObject W1) with (watchObject W).
  unfold statuslistener_unref, with_listener. cbn. rewrite Es. cbn. rewrite lookup_insert_eq. cbn. rewrite Er. cbn.
  unfold _statuslistener_free. cbn. rewrite lookup_insert_eq. cbn. rewrite Ho. cbn. rewrite andb_false_r. cbn.
  apply Z.eqb_neq in Harg, Hfr. rewrite Harg, Hfr. change (1 - 1) with 0. cbn. rewrite delete_insert_eq.
  unfold freed, object_refs in *. destruct (watchObject W) as [[] p]; cbn [fst snd] in *; apply fmap_Some in En as (x & Ex & ->).
  - rewrite <-(upd_descriptor w p x _ _ Ex). unfold world_descriptor_unref. cbn. rewrite Ex. cbn.
    unfold descriptor_unref. cbn.
    assert (H1 : (0 <=? referenceCount x - 1) = true) by lia. assert (H2 : (referenceCount x - 1 =? 0) = false) by lia.
    rewrite H1. cbn. rewrite H2. unfold set_descriptor, mem. cbn. by rewrite delete_insert_eq.
  - rewrite <-(upd_file w p x _ _ Ex). unfold posixfile_drop. cbn. rewrite Ex. cbn.
    assert (H1 : (file_refs x =? 1) = false) by lia. rewrite H1. unfold set_file, mem. cbn. by rewrite delete_insert_eq.
Qed.

(** What an observer sees of the memory after the watch was removed. *)
Record removed w w' (e : Z) (ep : Epoll) (k : EpollKey) (a : Z) (o : Object) (l ka : Z) : Prop := mkRemoved {
  rm_epoll : ∀ f, get_epoll w' f = if decide (f = e)
    then Some (mkEpoll (delete k (watching ep)) (delete k (ready ep)) (watch_id_counter ep)) else get_epoll w f;
  rm_watches : watches (external w') = delete a (watches (external w));
  rm_listener : ∀ i, statuslisteners w' !! i = if decide (i = l) then None else statuslisteners w !! i;
  rm_key : ∀ i, epollkeys (external w') !! i = if decide (i = ka) then None else epollkeys (external w) !! i;
  rm_status : ∀ o', object_getStatus w' o' = object_getStatus w o';
  rm_lists : ∀ o', object_listeners w' o' =
    if decide (o' = o) then (λ ls, list_difference ls [l]) <$> object_listeners w o' else object_listeners w o';
  rm_refs : ∀ o', object_refs w' o' = if decide (o' = o) then (λ n, n - 1) <$> object_refs w o' else object_refs w o';
}.

Lemma get_unlistened_epoll w o l s e : get_epoll (unlistened w o l s) e = get_epoll w e.
Proof. by destruct o as [[] p]. Qed.

Lemma get_unlistened_watch w o l s a : get_watch (unlistened w o l s) a = get_watch w a.
Proof. by destruct o as [[] p]. Qed.

Lemma unlistened_listener w o l s :
  statuslisteners (unlistened w o l s) !! l =
  Some (s <| monitoring := STATUS_NONE |> <| filter := SLF_NEVER |> <| l_referenceCount := 1 |>).
Proof. unfold unlistened. cbn. apply lookup_insert_eq. Qed.

(** The maps other than the objects' and the listeners'. *)
Lemma unlistened_maps w o l s :
  epolls (external (unlistened w o l s)) = epolls (external w) ∧ watches (external (unlistened w o l s)) = watches (external w) ∧
  epollkeys (external (unlistened w o l s)) = epollkeys (external w) ∧
  (∀ i, i ≠ l → statuslisteners (unlistened w o l s) !! i = statuslisteners w !! i).
Proof.
  destruct o as [[] p]; unfold unlistened; cbn; split_and!; try done; intros i Hi; by rewrite lookup_insert_ne.
Qed.

Lemma unlistened_view {B} (pd : LegacyDescriptor → B) (pf : PosixFile → B) w o l s o' :
  obj_view pd pf (unlistened w o l s) o' = obj_view pd pf (upd_object w o
    (λ d, d <| listeners := list_difference (listeners d) [l] |>)
    (λ f, f <| file_listeners := list_difference (file_listeners f) [l] |>)) o'.
Proof. by destruct o as [[] p], o' as [[] p']. Qed.

Lemma control_del silent w e ep k a W :
  shape silent w → dyn silent (λ _, False) (λ _, False) w → get_epoll w e = Some ep → watching ep !! k = Some a →
  get_watch w a = Some W → a ∉ silent →
  ∃ s w', statuslisteners w !! listener W = Some s ∧
    epoll_control_del free_descriptor w e a k = Some w' ∧
    removed w w' e ep k a (watchObject W) (listener W) (callbackArgument s).
Proof.
  intros Hsh Hd Ee Hk Ew Hsil.
  destruct (sh_watch _ _ _ Hsh e ep k a Ee Hk) as (W' & Ew' & [_ _ Hob _ (s & Es & _ & Hof & _ & Harg & Haf & _ & Hopen & _)]).
  assert (W' = W) as -> by congruence. destruct (Hopen Hsil) as (_ & _ & Hrc & ls & Els & Hin).
  destruct (dy_refs _ _ _ _ Hd e ep k a W Ee Hk Ew) as [Hwr _].
  assert (Hready : ∀ b, ready ep !! k = Some b → b = a).
  { intros b Hb. pose proof (dy_ready _ _ _ _ Hd e ep k b Ee Hb). congruence. }
  destruct Hob as [st Est]. destruct (view_some status file_status referenceCount file_refs w _ st Est) as [n En].
  change (object_refs w (watchObject W) = Some n) in En.
  assert (Hn : 1 < n).
  { pose proof (sh_refs _ _ _ Hsh _ n En). assert (1 ≤ watchers w (watchObject W))%nat; [|lia]. unfold watchers.
    assert (Hz : size (base.filter (λ x : Z * EpollWatch, watchObject x.2 = watchObject W) (watches (external w))) ≠ 0%nat); [|lia].
    apply map_size_ne_0_lookup. exists a. exists W. by apply map_lookup_filter_Some. }
  exists s.
  set (W0 := W <| w_flags := clear_flags (w_flags W) EWF_WATCHING |>).
  set (w0 := set_watch w a W0). set (w1 := unlistened w0 (watchObject W) (listener W) s).
  assert (Ee1 : get_epoll w1 e = Some ep) by (unfold w1; by rewrite get_unlistened_epoll).
  assert (Ew1 : get_watch w1 a = Some W0).
  { unfold w1. rewrite get_unlistened_watch. unfold w0. by rewrite get_set_watch, decide_True. }
  set (ep2 := ep <| ready := delete k (ready ep) |>). set (W2 := W0 <| w_referenceCount := 1 |>).
  set (w2 := set_watch (set_epoll w1 e ep2) a W2). set (ep3 := ep2 <| watching := delete k (watching ep) |>).
  set (w3 := set_epoll w2 e ep3).
  set (s1 := s <| monitoring := STATUS_NONE |> <| filter := SLF_NEVER |> <| l_referenceCount := 1 |>).
  exists (freed w3 a W2 (callbackArgument s)). split_and!; [done| |].
  - unfold epoll_control_del. rewrite Ew. cbn [mbind option_bind]. fold W0. fold w0.
    pose proof (unlisten_eq w0 (watchObject W) (listener W) s ls Es Hrc Els Hin) as Eul. fold w1 in Eul.
    destruct (set_monitor w0 (listener W) STATUS_NONE SLF_NEVER) as [v|] eqn:Ev; [|done]. cbn [mbind option_bind] in *.
    rewrite Eul. cbn [mbind option_bind].
    rewrite (drop_ready w1 e ep k a W0 Ee1 Ew1 Hready) by done. cbn [mbind option_bind]. fold ep2 W2 w2.
    unfold remove_watching.
    assert (Ee2 : get_epoll w2 e = Some ep2) by (unfold w2; change (get_epoll (set_epoll w1 e ep2) e = Some ep2); by rewrite get_set_epoll, decide_True).
    rewrite Ee2. cbn [mbind option_bind]. change (watching ep2) with (watching ep). rewrite Hk. fold ep3. fold w3.
    change (callbackArgument s) with (callbackArgument s1). apply (free_eq w3 a W2 s1 n); try done.
    + change (get_watch w2 a = Some W2). unfold w2. by rewrite get_set_watch, decide_True.
    + exact (unlistened_listener w0 (watchObject W) (listener W) s).
    + change (object_refs w1 (watchObject W) = Some n). etransitivity; [exact (unlistened_view referenceCount file_refs w0 (watchObject W) (listener W) s _)|].
      etransitivity; [by apply upd_view_same|]. exact En.
  - destruct (unlistened_maps w0 (watchObject W) (listener W) s) as (M1 & M2 & M3 & M4). fold w1 in M1, M2, M3, M4.
    pose proof (λ B pd pf o', @unlistened_view B pd pf w0 (watchObject W) (listener W) s o') as Hv. fold w1 in Hv. clearbody w1.
    unfold freed. change (watchObject W2) with (watchObject W). change (listener W2) with (listener W).
    set (gd := λ d : LegacyDescriptor, d <| referenceCount := _ |>). set (gf := λ f : PosixFile, f <| file_refs := _ |>).
    destruct (upd_maps w3 (watchObject W) gd gf) as (U1 & U2 & U3 & U4).
    constructor.
    + intros f. unfold get_epoll, mem. cbn. rewrite U2. unfold w3, w2, set_epoll, set_watch, mem. cbn. rewrite M1.
      case_decide as Hf; [subst f; by rewrite !lookup_insert_eq|by rewrite !lookup_insert_ne by done].
    + unfold mem. cbn. rewrite U3. unfold w3, w2, set_epoll, set_watch, mem. cbn. rewrite M2. unfold w0, set_watch, mem. cbn.
      by rewrite !delete_insert_eq.
    + intros i. unfold mem. cbn. rewrite U1. case_decide as Hi; [subst i; apply lookup_delete_eq|].
      rewrite lookup_delete_ne by done. by apply M4.
    + intros i. unfold mem. cbn. rewrite U4. unfold w3, w2, set_epoll, set_watch, mem. cbn. rewrite M3.
      case_decide as Hi; [subst i; apply lookup_delete_eq|by rewrite lookup_delete_ne].
    + intros o'. change (obj_view status file_status (upd_object w3 (watchObject W) gd gf) o' = object_getStatus w o').
      rewrite upd_view_same by done. change (obj_view status file_status w1 o' = object_getStatus w o').
      rewrite Hv. by apply (upd_view_same status file_status w0).
    + intros o'. lhs (obj_view listeners file_listeners (upd_object w3 (watchObject W) gd gf) o').
      rewrite upd_view_same by done. lhs (obj_view listeners file_listeners w1 o'). rewrite Hv, upd_view.
      case_decide; [|done]. unfold obj_view, object_listeners. destruct o' as [[] p]; cbn [fst snd]; by rewrite <-option_fmap_compose.
    + intros o'. lhs (obj_view referenceCount file_refs (upd_object w3 (watchObject W) gd gf) o'). rewrite upd_view.
      assert (Hx : ∀ (gd' : LegacyDescriptor → Z) gf', (∀ d x, gd' (d <| listeners := x |>) = gd' d) → (∀ f x, gf' (f <| file_listeners := x |>) = gf' f) →
        obj_view gd' gf' w3 o' = obj_view gd' gf' w o').
      { intros gd' gf' H1 H2. change (obj_view gd' gf' w1 o' = obj_view gd' gf' w o'). rewrite Hv.
        etransitivity; [apply upd_view_same; intros; [apply H1|apply H2]|done]. }
      rewrite !Hx by done. case_decide; [|done]. unfold obj_view, object_refs.
      destruct o' as [[] p]; cbn [fst snd]; by rewrite <-option_fmap_compose.
Qed.

Lemma watchers_delete w w' a W o :
  get_watch w a = Some W → watches (external w') = delete a (watches (external w)) →
  Z.of_nat (watchers w' o) = Z.of_nat (watchers w o) - if decide (o = watchObject W) then 1 else 0.
Proof.
  intros Ew Em. unfold watchers. rewrite Em, map_filter_delete. case_decide as Ho.
  - assert (E : base.filter (λ x : Z * EpollWatch, watchObject x.2 = o) (watches (external w)) !! a = Some W)
      by (apply map_lookup_filter_Some; done).
    set (m := base.filter _ (watches (external w))) in *.
    assert (Hs : size (delete a m) = pred (size m)) by (apply map_size_delete_Some; by eexists). assert (size m ≠ 0%nat); [|lia].
    apply map_size_ne_0_lookup. exists a. by exists W.
  - rewrite delete_id; [lia|]. apply map_lookup_filter_None. right. intros W' EW'. cbn. unfold get_watch in Ew. congruence.
Qed.

Section Delete.
Context silent w w' (e : Z) (ep : Epoll) (k : EpollKey) (a : Z) (W : EpollWatch) (s : StatusListener).
Context (Hsh : shape silent w) (Hd : dyn silent (λ _, False) (λ _, False) w).
Context (Ee : get_epoll w e = Some ep) (Hk : watching ep !! k = Some a) (Ew : get_watch w a = Some W).
Context (Hsil : a ∉ silent) (Es : statuslisteners w !! listener W = Some s).
Context (Hrm : removed w w' e ep k a (watchObject W) (listener W) (callbackArgument s)).

Lemma del_watch b : get_watch w' b = if decide (b = a) then None else get_watch w b.
Proof.
  unfold get_watch. rewrite (rm_watches _ _ _ _ _ _ _ _ _ Hrm). case_decide; [subst; apply lookup_delete_eq|by apply lookup_delete_ne].
Qed.

(** The watches after the removal are the other ones. *)
Lemma del_cases f fp' k' b :
  get_epoll w' f = Some fp' → watching fp' !! k' = Some b →
  b ≠ a ∧ (f = e → k' ≠ k) ∧ ∃ fp, get_epoll w f = Some fp ∧ watching fp !! k' = Some b ∧ ready fp' !! k' = ready fp !! k' ∧
    watch_id_counter fp' = watch_id_counter fp ∧ get_watch w' b = get_watch w b.
Proof.
  rewrite (rm_epoll _ _ _ _ _ _ _ _ _ Hrm), del_watch. case_decide as Hfe.
  - subst f. intros [= <-]. cbn. intros [Hkk Hb]%lookup_delete_Some.
    assert (Hba : b ≠ a) by (intros ->; by destruct (sh_owner _ _ _ Hsh e e ep ep k k' a Ee Ee Hk Hb) as [_ ?]).
    split_and!; [done|by intros _ ->|]. exists ep. rewrite decide_False by done. split_and!; try done. by apply lookup_delete_ne.
  - intros E1 E2. assert (Hba : b ≠ a) by (intros ->; by destruct (sh_owner _ _ _ Hsh e f ep fp' k k' a Ee E1 Hk E2) as [? _]).
    split_and!; [done..|]. exists fp'. by rewrite decide_False.
Qed.

Lemma del_epoll_old f fp : get_epoll w f = Some fp →
  ∃ fp', get_epoll w' f = Some fp' ∧ watch_id_counter fp' = watch_id_counter fp ∧
    ∀ k' b, watching fp !! k' = Some b → b ≠ a → watching fp' !! k' = Some b.
Proof.
  intros E1. rewrite (rm_epoll _ _ _ _ _ _ _ _ _ Hrm). case_decide as Hfe.
  - subst f. assert (fp = ep) as -> by congruence. eexists. split; [done|]. cbn. split; [done|].
    intros k' b Hb Hba. rewrite lookup_delete_ne; [done|]. intros <-. congruence.
  - by exists fp.
Qed.

(** Other watches have other listeners and keys. *)
Lemma del_others b V t : get_watch w b = Some V → b ≠ a → statuslisteners w !! listener V = Some t →
  listener V ≠ listener W ∧ callbackArgument t ≠ callbackArgument s.
Proof.
  intros EV Hb Et. split.
  - intros Hl. apply Hb, (sh_args _ _ _ Hsh b a V W t s EV Ew Et Es). rewrite Hl in Et. congruence.
  - intros Hc. by apply Hb, (sh_args _ _ _ Hsh b a V W t s EV Ew Et Es).
Qed.

Lemma in_list_difference (ls : list Z) l' l : l' ∈ list_difference ls [l] ↔ l' ∈ ls ∧ l' ≠ l.
Proof. rewrite list_elem_of_difference, list_elem_of_singleton. done. Qed.

Lemma del_watch_ok f fp fp' k' b V :
  get_watch w b = Some V → b ≠ a → watch_id_counter fp' = watch_id_counter fp →
  watch_ok level (λ x, x ∈ silent) w f fp k' b V → watch_ok level (λ x, x ∈ silent) w' f fp' k' b V.
Proof.
  intros EV Hb Hcc [G1 G2 G3 G4 (t & Et & S1 & S2 & S3 & S4 & S5 & S6 & S7 & S8)].
  destruct (del_others b V t EV Hb Et) as [Hl Hcb].
  constructor; [done|by rewrite Hcc|by rewrite (rm_status _ _ _ _ _ _ _ _ _ Hrm)|done|].
  exists t. rewrite (rm_listener _ _ _ _ _ _ _ _ _ Hrm), decide_False by done.
  rewrite (rm_key _ _ _ _ _ _ _ _ _ Hrm), decide_False by done. split_and!; try done.
  - intros Hs. destruct (S7 Hs) as (T1 & T2 & T3 & ls & T4 & T5). split_and!; try done.
    rewrite (rm_lists _ _ _ _ _ _ _ _ _ Hrm). case_decide; [|by exists ls]. rewrite T4. eexists. split; [done|].
    by apply in_list_difference.
  - intros Hs. destruct (S8 Hs) as (T1 & T2 & T3). split_and!; try done.
    intros ls. rewrite (rm_lists _ _ _ _ _ _ _ _ _ Hrm). case_decide; [|by apply T3].
    intros (ls0 & E0 & ->)%fmap_Some. rewrite in_list_difference. intros [Hin _]. by apply (T3 ls0).
Qed.

Lemma del_shape : shape silent w'.
Proof.
  assert (Hold : ∀ b V, get_watch w' b = Some V → b ≠ a ∧ get_watch w b = Some V).
  { intros b V. rewrite del_watch. by case_decide. }
  constructor.
  - intros f fp' k' b E1 E2. destruct (del_cases f fp' k' b E1 E2) as (Hb & _ & fp & F1 & F2 & _ & F3 & F4).
    destruct (sh_watch _ _ _ Hsh f fp k' b F1 F2) as (V & EV & Hok). exists V. rewrite F4. split; [done|].
    by apply (del_watch_ok f fp).
  - intros e1 e2 ep1 ep2 k1 k2 b E1 E2 E3 E4.
    destruct (del_cases e1 ep1 k1 b E1 E3) as (_ & _ & fp & F1 & F2 & _), (del_cases e2 ep2 k2 b E2 E4) as (_ & _ & fp2 & G1 & G2 & _).
    by apply (sh_owner _ _ _ Hsh e1 e2 fp fp2 k1 k2 b).
  - intros b V [Hb EV]%Hold. destruct (sh_owned _ _ _ Hsh b V EV) as (f & fp & k' & E1 & E2).
    destruct (del_epoll_old f fp E1) as (fp' & E3 & _ & E4). exists f, fp', k'. split; [done|by apply E4].
  - intros f fp' k1 k2 a1 a2 W1 W2 E1 E2 E3 [_ E4]%Hold [_ E5]%Hold Hid.
    destruct (del_cases f fp' k1 a1 E1 E2) as (_ & _ & fp & F1 & F2 & _), (del_cases f fp' k2 a2 E1 E3) as (_ & _ & fp2 & G1 & G2 & _).
    assert (fp2 = fp) as -> by congruence. by apply (sh_ids _ _ _ Hsh f fp k1 k2 a1 a2 W1 W2).
  - intros a1 a2 W1 W2 s1 s2 [_ E1]%Hold [_ E2]%Hold. rewrite !(rm_listener _ _ _ _ _ _ _ _ _ Hrm).
    do 2 (case_decide; [done|]). by apply (sh_args _ _ _ Hsh a1 a2 W1 W2 s1 s2).
  - intros f fp' E1.
    assert (Hds : ∀ d, is_Some (descriptors w !! d) → is_Some (descriptors w' !! d)).
    { intros d [desc Ed]. pose proof (rm_status _ _ _ _ _ _ _ _ _ Hrm (EWT_LEGACY_DESCRIPTOR, d)) as H.
      unfold object_getStatus in H. cbn [fst snd] in H. rewrite Ed in H. by destruct (descriptors w' !! d). }
    rewrite (rm_epoll _ _ _ _ _ _ _ _ _ Hrm) in E1. case_decide as Hfe.
    + subst f. injection E1 as <-. cbn. destruct (sh_epoll _ _ _ Hsh e ep Ee) as [? ?]. split; [by apply Hds|done].
    + destruct (sh_epoll _ _ _ Hsh f fp' E1) as [? ?]. split; [by apply Hds|done].
  - intros o' n. rewrite (rm_refs _ _ _ _ _ _ _ _ _ Hrm), (watchers_delete w w' a W o' Ew (rm_watches _ _ _ _ _ _ _ _ _ Hrm)).
    case_decide as Ho.
    + intros (n0 & En & ->)%fmap_Some. pose proof (sh_refs _ _ _ Hsh o' n0 En). lia.
    + intros En. pose proof (sh_refs _ _ _ Hsh o' n En). lia.
  - intros o' ls l'. rewrite (rm_lists _ _ _ _ _ _ _ _ _ Hrm), (rm_listener _ _ _ _ _ _ _ _ _ Hrm). intros Els Hin.
    assert (Hcase : ∃ ls0, object_listeners w o' = Some ls0 ∧ l' ∈ ls0 ∧ (o' = watchObject W → l' ≠ listener W)).
    { case_decide as Ho; [|by exists ls]. apply fmap_Some in Els as (ls0 & Els & ->). apply in_list_difference in Hin as [? ?]. by exists ls0. }
    destruct Hcase as (ls0 & Els0 & Hin0 & Hnl).
    destruct (sh_listeners _ _ _ Hsh o' ls0 l' Els0 Hin0) as (t & Et & Ht).
    assert (Hne : l' ≠ listener W).
    { intros Hl. destruct (sh_watch _ _ _ Hsh e ep k a Ee Hk) as (W' & EW' & [_ _ _ _ (s' & Es' & Hcb & _)]).
      assert (W' = W) as -> by congruence. assert (s' = s) as -> by congruence. assert (t = s) as -> by congruence.
      rewrite Hcb in Ht. destruct (Ht ep Ee) as (k2 & b & V & H1 & H2 & H3 & H4). rewrite Hl in H3.
      assert (b = a) as ->; [|assert (V = W) as -> by congruence; by apply Hnl].
      apply (sh_args _ _ _ Hsh b a V W s s H2 Ew); [by rewrite H3|done|done]. }
    rewrite decide_False by done. exists t. split; [done|]. intros fp' E1.
    assert (E0 : ∃ fp, get_epoll w (callbackObject t) = Some fp).
    { rewrite (rm_epoll _ _ _ _ _ _ _ _ _ Hrm) in E1. case_decide as Hc'; [rewrite Hc'; by exists ep|by exists fp']. }
    destruct E0 as [fp E0]. destruct (Ht fp E0) as (k2 & b & V & H1 & H2 & H3 & H4).
    assert (Hba : b ≠ a) by (intros ->; congruence).
    destruct (del_epoll_old _ fp E0) as (fp2 & E2 & _ & E3). rewrite E1 in E2. injection E2 as <-.
    exists k2, b, V. rewrite del_watch, decide_False by done. split_and!; try done. by apply E3.
Qed.

Lemma del_dyn : dyn silent (λ _, False) (λ f, f = e) w'.
Proof.
  constructor.
  - intros f fp' k' b E1 E2. rewrite (rm_epoll _ _ _ _ _ _ _ _ _ Hrm) in E1. case_decide as Hfe.
    + subst f. injection E1 as <-. cbn in *. apply lookup_delete_Some in E2 as [Hne E2]. rewrite lookup_delete_ne by done.
      by apply (dy_ready _ _ _ _ Hd e).
    + by apply (dy_ready _ _ _ _ Hd f fp').
  - intros f fp' k' b V E1 E2 E3. destruct (del_cases f fp' k' b E1 E2) as (Hb & _ & fp & F1 & F2 & F3 & _ & F4).
    rewrite F3. rewrite F4 in E3. by apply (dy_refs _ _ _ _ Hd f fp k' b).
  - intros f fp' k' b V E1 E2 E3 Hst Hs. destruct (del_cases f fp' k' b E1 E2) as (Hb & _ & fp & F1 & F2 & F3 & _ & F4).
    rewrite F4 in E3. destruct (dy_current _ _ _ _ Hd f fp k' b V F1 F2 E3) as [(st & G1 & G2) G3]; [by intros []|exact Hs|].
    split; [exists st; by rewrite (rm_status _ _ _ _ _ _ _ _ _ Hrm)|]. by rewrite F3.
  - intros f fp' desc E1 E2 Hne. assert (Eds : ∃ desc0, descriptors w !! f = Some desc0 ∧ status desc0 = status desc).
    { pose proof (rm_status _ _ _ _ _ _ _ _ _ Hrm (EWT_LEGACY_DESCRIPTOR, f)) as H. unfold object_getStatus in H. cbn [fst snd] in H.
      rewrite E2 in H. symmetry in H. apply fmap_Some in H as (desc0 & ? & ?). by exists desc0. }
    destruct Eds as (desc0 & Ed0 & <-). rewrite (rm_epoll _ _ _ _ _ _ _ _ _ Hrm), decide_False in E1 by done.
    exact (dy_settled _ _ _ _ Hd f fp' desc0 E1 Ed0 (λ H, H)).
Qed.

End Delete.

(** ** A watch is rewritten *)

Lemma watchers_replace w a W W' o :
  get_watch w a = Some W → watchObject W' = watchObject W → watchers (set_watch w a W') o = watchers w o.
Proof.
  intros Ew Eo. unfold watchers, set_watch, mem. cbn. destruct (decide (watchObject W = o)) as [Ho|Ho].
  - rewrite map_filter_insert_True by (cbn; congruence). rewrite map_size_insert_Some; [done|]. exists W. by apply map_lookup_filter_Some.
  - rewrite map_filter_insert_False by (cbn; congruence). rewrite map_filter_delete, delete_id; [done|].
    apply map_lookup_filter_None. right. intros V EV. cbn. unfold get_watch in Ew. congruence.
Qed.

Lemma replace_shape silent w a W W' :
  shape silent w → get_watch w a = Some W →
  id W' = id W → watchObject W' = watchObject W → fd W' = fd W → listener W' = listener W →
  shape silent (set_watch w a W').
Proof.
  intros [Hw Ho Hod Hi Ha He Hr Hl] Ew E1 E2 E3 E4.
  assert (Hget : ∀ b V', get_watch (set_watch w a W') b = Some V' → ∃ V, get_watch w b = Some V ∧
    id V' = id V ∧ watchObject V' = watchObject V ∧ fd V' = fd V ∧ listener V' = listener V).
  { intros b V'. rewrite get_set_watch. case_decide as Hb; [intros [= <-]; subst b; by exists W|intros EV; by exists V']. }
  assert (Hput : ∀ b V, get_watch w b = Some V → ∃ V', get_watch (set_watch w a W') b = Some V' ∧
    id V' = id V ∧ watchObject V' = watchObject V ∧ fd V' = fd V ∧ listener V' = listener V).
  { intros b V. rewrite get_set_watch. case_decide as Hb; [intros EV; subst b; simplify_eq; by exists W'|intros EV; by exists V]. }
  constructor; try done.
  - intros e ep k b E5 E6. destruct (Hw e ep k b E5 E6) as (V & EV & [G1 G2 G3 G4 G5]).
    destruct (Hput b V EV) as (V' & EV' & H1 & H2 & H3 & H4). exists V'. split; [done|].
    destruct G5 as (s & S1 & S2). constructor; rewrite ?H1, ?H2, ?H3; try done. exists s. rewrite H4, H2. done.
  - intros b V' (V & EV & _)%Hget. by apply (Hod b V).
  - intros e ep k1 k2 a1 a2 W1 W2 E5 E6 E7 (V1 & EV1 & -> & _)%Hget (V2 & EV2 & -> & _)%Hget. by apply (Hi e ep k1 k2 a1 a2 V1 V2).
  - intros a1 a2 W1 W2 s1 s2 (V1 & EV1 & _ & _ & _ & ->)%Hget (V2 & EV2 & _ & _ & _ & ->)%Hget. by apply (Ha a1 a2 V1 V2 s1 s2).
  - intros o n En. rewrite (watchers_replace w a W W' o) by done. by apply Hr.
  - intros o ls l Els Hin. destruct (Hl o ls l Els Hin) as (s & Es & Hs). exists s. split; [done|]. intros ep Eep.
    destruct (Hs ep Eep) as (k & b & V & H1 & H2 & H3 & H4). destruct (Hput b V H2) as (V' & EV' & G1 & G2 & G3 & G4).
    exists k, b, V'. split_and!; try done; congruence.
Qed.

Lemma replace_dyn silent stale U w a W W' :
  dyn silent stale U w → get_watch w a = Some W → w_referenceCount W' = w_referenceCount W →
  has_flag (w_flags W') EWF_WATCHING = has_flag (w_flags W) EWF_WATCHING →
  dyn silent (λ b, stale b ∨ b = a) U (set_watch w a W').
Proof.
  intros [H1 H2 H3 H4] Ew Erc Ewt. constructor; try done.
  - intros e ep k b V E1 E2. rewrite get_set_watch. case_decide as Hb; [|by apply (H2 e ep)].
    subst b. intros [= <-]. rewrite Erc, Ewt. by apply (H2 e ep k a W).
  - intros e ep k b V E1 E2. rewrite get_set_watch. case_decide as Hb; [subst b; tauto|]. intros EV Hst Hs.
    apply (H3 e ep k b V E1 E2 EV); [tauto|exact Hs].
Qed.

(** The cause of a stale watch is gone. *)
Lemma replace_current silent stale U w a :
  dyn silent (λ b, stale b ∨ b = a) U w →
  (∀ e ep k W, get_epoll w e = Some ep → watching ep !! k = Some a → get_watch w a = Some W → a ∉ silent → current w ep k W) →
  dyn silent stale U w.
Proof.
  intros [H1 H2 H3 H4] Hc. constructor; try done. intros e ep k b W E1 E2 E3 Hst Hs.
  destruct (decide (b = a)) as [->|Hb]; [by apply (Hc e)|]. apply (H3 e ep k b W E1 E2 E3); [tauto|exact Hs].
Qed.

(** ** [epoll_control] *)

(** The first tables of all instances. *)
Definition tables w : gmap Z (gmap EpollKey Z) := watching <$> epolls (external w).

Lemma tables_erased w w' : erase w' = erase w → tables w' = tables w.
Proof.
  intros E. destruct (erased_maps w w' E) as (_ & _ & Ee & _). unfold tables.
  assert (H : ∀ m : gmap Z Epoll, watching <$> m = watching <$> ((λ ep, ep <| ready := ∅ |>) <$> m))
    by (intros m; by rewrite <-map_fmap_compose).
  by rewrite H, Ee, <-H.
Qed.

(** What an instance was asked to watch: the event of a key. *)
Definition interest w (e : Z) (k : EpollKey) : option EpollEvent :=
  T ← watching <$> get_epoll w e; a ← T !! k; event <$> get_watch w a.

(** epoll_ctl(2) on one key: the event that is registered, before and after,
    and the result, which is [EINVAL] for an operation that it does not know. *)
Definition interest_spec (op : Z) (registered ev : option EpollEvent) : option EpollEvent * Z :=
  if op =? EPOLL_CTL_ADD then match registered with Some _ => (registered, - EEXIST) | None => (ev, 0) end
  else if op =? EPOLL_CTL_MOD then match registered with Some _ => (ev, 0) | None => (None, - ENOENT) end
  else if op =? EPOLL_CTL_DEL then match registered with Some _ => (None, 0) | None => (None, - ENOENT) end
  else (registered, - EINVAL).

Definition supported (op : Z) : bool := (op =? EPOLL_CTL_ADD) || (op =? EPOLL_CTL_MOD) || (op =? EPOLL_CTL_DEL).

Lemma interest_erased w w' e k : erase w' = erase w → interest w' e k = interest w e k.
Proof.
  intros E. destruct (erased_maps w w' E) as (_ & _ & Ee & Ew & _). unfold interest.
  assert (H : watching <$> get_epoll w' e = watching <$> get_epoll w e).
  { apply (fmap_project _ watching _ _ e Ee). intros [] []. unfold set_field. cbn. by intros [=]. }
  rewrite H. destruct (watching <$> get_epoll w e) as [T|]; [|done]. cbn [mbind option_bind]. destruct (T !! k) as [a|]; [|done].
  cbn [mbind option_bind]. apply (fmap_project _ event _ _ a Ew). intros [] []. unfold erase_watch, set_field. cbn. by intros [=].
Qed.

Lemma interest_some silent w e ep k a :
  shape silent w → get_epoll w e = Some ep → watching ep !! k = Some a → ∃ W, get_watch w a = Some W ∧ interest w e k = Some (event W).
Proof.
  intros Hsh Ee Hk. destruct (sh_watch _ _ _ Hsh e ep k a Ee Hk) as (W & EW & _). exists W. split; [done|].
  unfold interest. rewrite Ee. cbn. rewrite Hk. cbn. by rewrite EW.
Qed.

Lemma interest_none w e ep k : get_epoll w e = Some ep → watching ep !! k = None → interest w e k = None.
Proof. intros Ee Hk. unfold interest. rewrite Ee. cbn. by rewrite Hk. Qed.

(** The entry of one key changed. *)
Definition changed w w' (e : Z) (key : EpollKey) (x : option EpollEvent) : Prop :=
  ∀ f k, interest w' f k = if decide (f = e ∧ k = key) then x else interest w f k.

Lemma changed_erased w w1 w' e key x : changed w w1 e key x → erase w' = erase w1 → changed w w' e key x.
Proof. intros H E f k. rewrite (interest_erased w1 w' f k E). apply H. Qed.

Lemma changed_same w w' e key : epolls (external w') = epolls (external w) → watches (external w') = watches (external w) →
  changed w w' e key (interest w e key).
Proof.
  intros Ee Ew f k. unfold interest, get_epoll, get_watch. rewrite Ee, Ew. by case_decide as H; [destruct H as [-> ->]|].
Qed.

(** The first table after a call. *)
Definition control_table (op : Z) (key : EpollKey) (a : Z) (T : gmap EpollKey Z) : gmap EpollKey Z :=
  match T !! key with
  | Some _ => if op =? EPOLL_CTL_DEL then delete key T else T
  | None => if op =? EPOLL_CTL_ADD then <[key := a]> T else T
  end.

(** What a call of [epoll_control] may rely on. *)
Record control_pre silent w (e op : Z) (ep : Epoll) (o : Object) (ev : option EpollEvent) (a l ka : Z) : Prop := mkPre {
  cp_epoll : get_epoll w e = Some ep;
  cp_open : ∀ k b, watching ep !! k = Some b → b ∉ silent;
  cp_object : is_Some (object_getStatus w o);
  cp_event : op ≠ EPOLL_CTL_DEL → is_Some ev;
  cp_add : op = EPOLL_CTL_ADD → (level o < level (EWT_LEGACY_DESCRIPTOR, e))%nat ∧ fresh silent w a l ka ∧
    watch_id_counter ep + 1 < 2 ^ 64;
}.

Abbreviation good silent w := (shape silent w ∧ dyn silent (λ _, False) (λ _, False) w).

Lemma good_weaken silent stale w :
  dyn silent stale (λ _, False) w → (∀ b, ¬ stale b) → dyn silent (λ _, False) (λ _, False) w.
Proof. intros Hd Hs. apply (dyn_weaken _ _ _ _ _ w Hd); [intros b Hb; by destruct (Hs b)|done]. Qed.

(** The callback for the only stale watch. *)
Lemma settle fuel silent w e ep k a :
  shape silent w → dyn silent (λ b, b = a) (λ _, False) w → get_epoll w e = Some ep → watching ep !! k = Some a → a ∉ silent →
  (L ≤ fuel)%nat →
  ∃ w', _epoll_descriptorStatusChanged free_descriptor (notify free_descriptor fuel) w e (Some k) = Some w' ∧
    erase w' = erase w ∧ shape silent w' ∧ dyn silent (λ _, False) (λ _, False) w'.
Proof.
  intros Hsh Hd Ee Hk Hs HL.
  destruct (status_changed_ok level (λ x, x ∈ silent) free_descriptor L fuel w (λ b, b = a) e ep k a) as (w' & E & Er & _ & Hd'); try done;
    [by apply notify_ok|lia|].
  exists w'. split_and!; [done|done|by apply (shape_erased level (λ x, x ∈ silent) w w')|].
  apply (good_weaken _ _ _ Hd'). tauto.
Qed.

Lemma added_interest silent w w' e ep fd o ev a l ka :
  shape silent w → get_epoll w e = Some ep → fresh silent w a l ka → added w w' e ep fd o ev a l ka →
  changed w w' e (fd, o.2) (Some ev).
Proof.
  intros Hsh Ee Hf Had f k. unfold interest. rewrite (ad_epoll _ _ _ _ _ _ _ _ _ _ Had).
  assert (Hold : ∀ f fp b, get_epoll w f = Some fp → watching fp !! k = Some b → event <$> get_watch w' b = event <$> get_watch w b).
  { intros f' fp b E1 E2. rewrite (ad_watch _ _ _ _ _ _ _ _ _ _ Had), decide_False; [done|].
    exact (add_old_watch silent w a l ka Hsh Hf f' fp k b E1 E2). }
  destruct (decide (f = e)) as [->|Hfe].
  - cbn. destruct (decide (k = (fd, o.2))) as [->|Hk].
    + rewrite decide_True by done. rewrite lookup_insert_eq. cbn. by rewrite (ad_watch _ _ _ _ _ _ _ _ _ _ Had), decide_True.
    + rewrite decide_False by tauto. rewrite lookup_insert_ne by done. rewrite Ee. cbn.
      destruct (watching ep !! k) as [b|] eqn:Eb; [|done]. by apply (Hold e ep).
  - rewrite decide_False by tauto. destruct (get_epoll w f) as [fp|] eqn:Ef; [|done]. cbn.
    destruct (watching fp !! k) as [b|] eqn:Eb; [|done]. by apply (Hold f fp).
Qed.

Lemma removed_interest silent w w' e ep k a W s :
  shape silent w → get_epoll w e = Some ep → watching ep !! k = Some a →
  removed w w' e ep k a (watchObject W) (listener W) (callbackArgument s) → changed w w' e k None.
Proof.
  intros Hsh Ee Hk Hrm f k'. unfold interest. rewrite (rm_epoll _ _ _ _ _ _ _ _ _ Hrm).
  assert (Hold : ∀ f fp b, get_epoll w f = Some fp → watching fp !! k' = Some b → ¬ (f = e ∧ k' = k) → event <$> get_watch w' b = event <$> get_watch w b).
  { intros f' fp b E1 E2 Hn. rewrite (del_watch w w' e ep k a W s Hrm), decide_False; [done|]. intros ->.
    apply Hn. by apply (sh_owner _ _ _ Hsh f' e fp ep k' k a). }
  destruct (decide (f = e)) as [->|Hfe].
  - cbn. destruct (decide (k' = k)) as [->|Hkk].
    + rewrite decide_True by done. by rewrite lookup_delete_eq.
    + rewrite decide_False by tauto. rewrite lookup_delete_ne by done. rewrite Ee. cbn.
      destruct (watching ep !! k') as [b|] eqn:Eb; [|done]. apply (Hold e ep); tauto.
  - rewrite decide_False by tauto. destruct (get_epoll w f) as [fp|] eqn:Ef; [|done]. cbn.
    destruct (watching fp !! k') as [b|] eqn:Eb; [|done]. apply (Hold f fp); tauto.
Qed.

Lemma replaced_interest silent w e ep k a W' :
  shape silent w → get_epoll w e = Some ep → watching ep !! k = Some a → changed w (set_watch w a W') e k (Some (event W')).
Proof.
  intros Hsh Ee Hk f k'. unfold interest. change (get_epoll (set_watch w a W') f) with (get_epoll w f).
  destruct (decide (f = e ∧ k' = k)) as [[-> ->]|Hn].
  - rewrite Ee. cbn. rewrite Hk. cbn. by rewrite get_set_watch, decide_True.
  - destruct (get_epoll w f) as [fp|] eqn:Ef; [|done]. cbn. destruct (watching fp !! k') as [b|] eqn:Eb; [|done]. cbn.
    rewrite get_set_watch, decide_False; [done|]. intros <-. apply Hn. by apply (sh_owner _ _ _ Hsh f e fp ep k' k a).
Qed.

Lemma control_add_ok fuel silent w e ep fd o ev a l ka :
  good silent w → get_epoll w e = Some ep → watching ep !! (fd, o.2) = None → is_Some (object_getStatus w o) →
  (level o < level (EWT_LEGACY_DESCRIPTOR, e))%nat → fresh silent w a l ka → watch_id_counter ep + 1 < 2 ^ 64 →
  (∀ n, object_refs w o = Some n → Z.of_nat (watchers w o) + 1 < n + is_legacy o) → (L ≤ fuel)%nat →
  ∃ w1 w', epoll_control_add w e fd o ev (a, l, ka) = Some w1 ∧
    _epoll_descriptorStatusChanged free_descriptor (notify free_descriptor fuel) w1 e (Some (fd, o.2)) = Some w' ∧
    (good silent w') ∧ tables w' = <[e := <[(fd, o.2) := a]> (watching ep)]> (tables w) ∧ changed w w' e (fd, o.2) (Some ev).
Proof.
  intros [Hsh Hd] Ee Hk Hob Hlv Hf Hc Hr HL. pose proof (add_world_added w e ep fd o ev a l ka) as Had.
  exists (add_world w e ep fd o ev a l ka).
  pose proof (add_shape silent w _ e ep fd o ev a l ka Hsh Ee Hf Hk Hob Hlv Hc Had Hr) as Hsh1.
  pose proof (add_dyn silent w _ e ep fd o ev a l ka Hsh Ee Hf Hk Had Hd) as Hd1.
  pose proof (ad_epoll _ _ _ _ _ _ _ _ _ _ Had e) as Ee1. rewrite decide_True in Ee1 by done.
  destruct (settle fuel silent _ e _ (fd, o.2) a Hsh1 Hd1 Ee1) as (w' & E' & Er & Hsh2 & Hd2);
    [by apply lookup_insert_eq|by apply (fr_silent _ _ _ _ _ Hf)|done|].
  exists w'. split_and!; [by apply (control_add silent)|done|done|done| |].
  2:{ apply (changed_erased w (add_world w e ep fd o ev a l ka)); [|done]. by apply (added_interest silent _ _ _ ep _ _ _ a l ka). }
  rewrite (tables_erased _ _ Er). unfold tables. apply map_eq. intros f. rewrite lookup_fmap.
  change (watching <$> get_epoll (add_world w e ep fd o ev a l ka) f = <[e := <[(fd, o.2) := a]> (watching ep)]> (watching <$> epolls (external w)) !! f).
  rewrite (ad_epoll _ _ _ _ _ _ _ _ _ _ Had). case_decide as Hfe; [subst f; by rewrite lookup_insert_eq|].
  by rewrite lookup_insert_ne, lookup_fmap.
Qed.

Lemma control_mod_ok fuel silent w e ep k a W ev flags :
  good silent w → get_epoll w e = Some ep → watching ep !! k = Some a → a ∉ silent → get_watch w a = Some W →
  has_flag flags EWF_WATCHING = has_flag (w_flags W) EWF_WATCHING → (L ≤ fuel)%nat →
  ∃ w', _epoll_descriptorStatusChanged free_descriptor (notify free_descriptor fuel)
      (set_watch w a (W <| event := ev |> <| w_flags := flags |>)) e (Some k) = Some w' ∧
    (good silent w') ∧ tables w' = tables w ∧ changed w w' e k (Some ev).
Proof.
  intros [Hsh Hd] Ee Hk Hs Ew Hfl HL. set (W' := W <| event := ev |> <| w_flags := flags |>).
  pose proof (replace_shape silent w a W W' Hsh Ew) as Hsh1.
  pose proof (replace_dyn silent _ _ w a W W' Hd Ew eq_refl Hfl) as Hd1.
  destruct (settle fuel silent (set_watch w a W') e ep k a) as (w' & E' & Er & Hsh2 & Hd2); try done.
  - by apply Hsh1.
  - apply (dyn_weaken _ _ _ _ _ _ Hd1); [|done]. intros b [[]|?]; done.
  - exists w'. split_and!; [done|done|done|by rewrite (tables_erased _ _ Er)|].
    apply (changed_erased w (set_watch w a W')); [|done]. by apply (replaced_interest silent w e ep k a W').
Qed.

Lemma control_del_ok fuel silent w e ep k a :
  good silent w → get_epoll w e = Some ep → watching ep !! k = Some a → a ∉ silent → (L ≤ fuel)%nat →
  ∃ w1 w', epoll_control_del free_descriptor w e a k = Some w1 ∧
    _epoll_descriptorStatusChanged free_descriptor (notify free_descriptor fuel) w1 e None = Some w' ∧
    (good silent w') ∧ tables w' = <[e := delete k (watching ep)]> (tables w) ∧ changed w w' e k None.
Proof.
  intros [Hsh Hd] Ee Hk Hs HL. destruct (sh_watch _ _ _ Hsh e ep k a Ee Hk) as (W & Ew & _).
  destruct (control_del silent w e ep k a W Hsh Hd Ee Hk Ew Hs) as (s & w1 & Es & E1 & Hrm). exists w1.
  pose proof (del_shape silent w w1 e ep k a W s Hsh Ee Hk Ew Es Hrm) as Hsh1.
  pose proof (del_dyn silent w w1 e ep k a W s Hsh Hd Ee Hk Hrm) as Hd1.
  pose proof (rm_epoll _ _ _ _ _ _ _ _ _ Hrm e) as Ee1. rewrite decide_True in Ee1 by done.
  destruct (adjust_readable_ok level (λ x, x ∈ silent) free_descriptor L fuel w1 (λ _, False) e _ (notify_ok _ _ _ _ Hlevel fuel) Hsh1 Hd1 Ee1) as (w' & E' & Er & _ & Hd2); [lia|].
  exists w'. split_and!; [done|exact E'|by apply (shape_erased level (λ x, x ∈ silent) w1 w')|done| |].
  2:{ apply (changed_erased w w1); [|done]. by apply (removed_interest silent w w1 e ep k a W s). }
  rewrite (tables_erased _ _ Er). unfold tables. apply map_eq. intros f. rewrite lookup_fmap.
  change (watching <$> get_epoll w1 f = <[e := delete k (watching ep)]> (watching <$> epolls (external w)) !! f).
  rewrite (rm_epoll _ _ _ _ _ _ _ _ _ Hrm). case_decide as Hfe; [subst f; by rewrite lookup_insert_eq|].
  by rewrite lookup_insert_ne, lookup_fmap.
Qed.

Lemma control_ok fuel silent w e op fd o ev a l ka ep :
  good silent w → control_pre silent w e op ep o ev a l ka → (L ≤ fuel)%nat →
  let spec := interest_spec op (interest w e (fd, o.2)) ev in
  ∃ w', epoll_control free_descriptor fuel w e op fd o ev (a, l, ka) = Some (w', if supported op then spec.2 else 0) ∧
    (good silent w') ∧
    tables w' = <[e := control_table op (fd, o.2) a (watching ep)]> (tables w) ∧ changed w w' e (fd, o.2) spec.1.
Proof.
  intros [Hsh Hd] [Ee Hopen [st Est] Hev Hadd] HL. destruct (view_some status file_status referenceCount file_refs w o st Est) as [n En].
  destruct (newref_ok silent _ _ w o n Hsh Hd En) as (w0 & E0 & Hsh0 & Hd0 & Er0 & M1 & M2 & M3 & M4 & V1 & V2).
  assert (Ee0 : get_epoll w0 e = Some ep) by (unfold get_epoll; by rewrite M2).
  assert (Ht0 : tables w0 = tables w) by (unfold tables; by rewrite M2).
  assert (Hsame : <[e := watching ep]> (tables w) = tables w) by (apply insert_id; unfold tables; unfold get_epoll in Ee; by rewrite lookup_fmap, Ee).
  assert (Hint : ∀ f k, interest w0 f k = interest w f k) by (intros f k; unfold interest, get_epoll, get_watch; by rewrite M2, M3).
  assert (Hch0 : ∀ w' x, changed w0 w' e (fd, o.2) x → changed w w' e (fd, o.2) x) by (intros w' x H f k; rewrite H, Hint; done).
  pose proof (changed_same w w0 e (fd, o.2) M2 M3) as Hnone.
  unfold epoll_control, interest_spec, control_table, supported. rewrite E0. cbn [mbind option_bind]. rewrite Ee0. cbn [mbind option_bind].
  destruct (watching ep !! (fd, o.2)) as [b|] eqn:Ek.
  - destruct (interest_some silent w0 e ep _ b Hsh0 Ee0 Ek) as (W & Ew & Ei). rewrite Hint in Ei. rewrite Ei in *.
    destruct (Z.eqb_spec op EPOLL_CTL_ADD) as [->|Hna].
    { exists w0. change (EPOLL_CTL_ADD =? EPOLL_CTL_DEL) with false. cbn [fst snd]. rewrite Hsame. done. }
    destruct (Z.eqb_spec op EPOLL_CTL_MOD) as [->|Hnm].
    + change (EPOLL_CTL_MOD =? EPOLL_CTL_DEL) with false.
      rewrite Ew. cbn [mbind option_bind]. destruct (Hev ltac:(done)) as [ev' ->]. cbn [mbind option_bind].
      destruct (dy_refs _ _ _ _ Hd0 e ep _ b W Ee0 Ek Ew) as [_ Hwt]. rewrite Hwt. cbn [negb].
      destruct (control_mod_ok fuel silent w0 e ep (fd, o.2) b W ev' (clear_flags (clear_flags (w_flags W) EWF_EDGETRIGGER_REPORTED) EWF_ONESHOT_REPORTED))
        as (w' & E' & Hg & Ht & Hch); try done; [by apply (Hopen (fd, o.2))| |].
      * unfold EWF_EDGETRIGGER_REPORTED, EWF_ONESHOT_REPORTED, EWF_WATCHING. by rewrite !has_flag_clear by done.
      * rewrite E'. exists w'. cbn [fst snd]. rewrite Hsame, <-Ht0. split_and!; [done|apply Hg..|done|by apply Hch0].
    + destruct (Z.eqb_spec op EPOLL_CTL_DEL) as [->|Hnd]; [|exists w0; cbn [fst snd]; rewrite Hsame; done].
      destruct (control_del_ok fuel silent w0 e ep (fd, o.2) b) as (w1 & w' & E1 & E' & Hg & Ht & Hch); try done; [by apply (Hopen (fd, o.2))|].
      rewrite E1. cbn [mbind option_bind]. rewrite E'. exists w'. cbn [fst snd]. rewrite <-Ht0. split_and!; [done|apply Hg..|done|by apply Hch0].
  - pose proof (interest_none w e ep _ Ee Ek) as Ei. rewrite Ei in *.
    destruct (Z.eqb_spec op EPOLL_CTL_ADD) as [->|Hna].
    + destruct (Hadd eq_refl) as (Hlv & [F1 F2 F3 F4 F5] & Hc). destruct (Hev ltac:(done)) as [ev' ->]. cbn [mbind option_bind].
      destruct (control_add_ok fuel silent w0 e ep fd o ev' a l ka) as (w1 & w' & E1 & E' & Hg & Ht & Hch); try done.
      * by rewrite V1.
      * constructor; unfold get_watch; rewrite ?M1, ?M3, ?M4; done.
      * intros n'. rewrite Er0. intros [= <-]. unfold watchers, is_legacy. rewrite M3. pose proof (sh_refs _ _ _ Hsh o n En) as Hr.
        unfold watchers in Hr. destruct o as [[] p]; cbn [fst snd]; [rewrite decide_False, decide_True by done|rewrite decide_True, decide_False by done]; lia.
      * rewrite E1. cbn [mbind option_bind]. rewrite E'. exists w'. cbn [fst snd]. rewrite <-Ht0. split_and!; [done|apply Hg..|done|by apply Hch0].
    + exists w0. rewrite Hsame. destruct (op =? EPOLL_CTL_MOD); [done|]. by destruct (op =? EPOLL_CTL_DEL).
Qed.

(** ** [epoll_getEvents] *)

(** The order of the reports. *)
Definition before w (a b : Z) : Prop :=
  ∃ A B, get_watch w a = Some A ∧ get_watch w b = Some B ∧
    (last_reported_event_time A < last_reported_event_time B ∨
     last_reported_event_time A = last_reported_event_time B ∧ id A < id B).

Lemma before_trans w a b c : before w a b → before w b c → before w a c.
Proof. intros (A & B & E1 & E2 & H1) (B' & C & E3 & E4 & H2). assert (B' = B) as -> by congruence. exists A, C. split_and!; [done..|]. lia. Qed.

Lemma insert_sorted_ok w x X l :
  get_watch w x = Some X → (∀ y, y ∈ l → ∃ Y, get_watch w y = Some Y ∧ id X ≠ id Y) → StronglySorted (before w) l →
  ∃ l', insert_sorted w x l = Some l' ∧ l' ≡ₚ x :: l ∧ StronglySorted (before w) l'.
Proof.
  intros Ex. induction l as [|y l IH]; intros Hy Hs.
  - exists [x]. split_and!; try done. repeat constructor.
  - apply StronglySorted_inv in Hs as [Hs Hall]. destruct (Hy y ltac:(by left)) as (Y & Ey & Hne).
    assert (Hin : ∀ z, z ∈ l → ∃ Z, get_watch w z = Some Z ∧ id X ≠ id Z) by (intros z Hz; apply Hy; by right).
    destruct (IH Hin Hs) as (l' & El & Hp & Hs'). cbn [insert_sorted]. rewrite Ex, Ey. cbn [mbind option_bind].
    assert (Hlt : ∀ c, _epollwatch_compare X Y = Some c → if c <? 0 then before w x y else before w y x).
    { intros c. unfold _epollwatch_compare. repeat case_match; intros [= <-]; cbn; try lia.
      - exists X, Y. split_and!; [done..|]. lia.
      - exists Y, X. split_and!; [done..|]. lia.
      - exists X, Y. split_and!; [done..|]. lia.
      - exists Y, X. split_and!; [done..|]. lia. }
    destruct (_epollwatch_compare X Y) as [c|] eqn:Ec.
    2:{ unfold _epollwatch_compare in Ec. repeat case_match; try done. lia. }
    specialize (Hlt c eq_refl). cbn [mbind option_bind]. destruct (c <? 0).
    + exists (x :: y :: l). split_and!; [done..|]. constructor; [by constructor|]. constructor; [done|].
      apply Forall_forall. intros z Hz. apply (before_trans w x y z Hlt). by apply (proj1 (Forall_forall _ _) Hall).
    + rewrite El. cbn [mbind option_bind]. exists (y :: l'). split_and!; [done| |].
      * rewrite Hp. apply perm_swap.
      * constructor; [done|]. apply Forall_forall. intros z. rewrite Hp. intros [->|Hz]%elem_of_cons; [done|].
        by apply (proj1 (Forall_forall _ _) Hall).
Qed.

Lemma g_list_sort_ok w l :
  (∀ a, a ∈ l → is_Some (get_watch w a)) → NoDup l →
  (∀ a b A B, a ∈ l → b ∈ l → get_watch w a = Some A → get_watch w b = Some B → id A = id B → a = b) →
  ∃ l', g_list_sort w l = Some l' ∧ l' ≡ₚ l ∧ StronglySorted (before w) l'.
Proof.
  unfold g_list_sort. induction l as [|x l IH]; intros Hw Hnd Hid.
  - exists []. split_and!; try done. constructor.
  - apply NoDup_cons in Hnd as [Hx Hnd]. destruct IH as (l' & E & Hp & Hs); [intros; apply Hw; by right|done| |].
    { intros a b A B Ha Hb. apply Hid; by right. }
    cbn [foldr]. rewrite E. cbn [mbind option_bind]. destruct (Hw x ltac:(by left)) as [X EX].
    destruct (insert_sorted_ok w x X l') as (l2 & E2 & Hp2 & Hs2); [done| |done|].
    + intros y. rewrite Hp. intros Hy. destruct (Hw y ltac:(by right)) as [Y EY]. exists Y. split; [done|].
      intros Hxy. apply Hx. by rewrite (Hid x y X Y ltac:(by left) ltac:(by right) EX EY Hxy).
    + exists l2. split_and!; [done|by rewrite Hp2, Hp|done].
Qed.

Definition ready_at w (a : Z) : bool := match get_watch w a with Some W => _epollwatch_isReady W | None => false end.

Definition event_at w (a : Z) : EpollEvent :=
  match get_watch w a with Some W => mkEvent (reported_events W) (data (event W)) | None => mkEvent 0 0 end.

Definition report_one (now : Z) w (a : Z) : World :=
  match get_watch w a with Some W => set_watch w a (report W now) | None => w end.

(** The watches that a call with room for [room] events reports. *)
Definition delivered w (room : nat) (l : list Z) : list Z := take room (List.filter (ready_at w) l).

Lemma report_other now w a b : b ≠ a → get_watch (report_one now w a) b = get_watch w b.
Proof. intros Hb. unfold report_one. destruct (get_watch w a); [|done]. by rewrite get_set_watch, decide_False. Qed.

Lemma collect_ok now l : ∀ w room, NoDup l → (∀ a, a ∈ l → is_Some (get_watch w a)) →
  collect w now room l = Some (foldl (report_one now) w (delivered w room l), event_at w <$> delivered w room l).
Proof.
  induction l as [|a l IH]; intros w room Hnd Hw; [by destruct room|].
  apply NoDup_cons in Hnd as [Ha Hnd]. destruct room as [|room]; [done|].
  destruct (Hw a ltac:(by left)) as [W Ew]. unfold delivered. cbn [collect List.filter]. rewrite Ew. cbn [mbind option_bind].
  assert (Hra : ready_at w a = _epollwatch_isReady W) by (unfold ready_at; by rewrite Ew). rewrite Hra.
  assert (Hea : event_at w a = mkEvent (reported_events W) (data (event W))) by (unfold event_at; by rewrite Ew).
  assert (Hro : report_one now w a = set_watch w a (report W now)) by (unfold report_one; by rewrite Ew).
  destruct (_epollwatch_isReady W) eqn:Er.
  - cbn [take foldl fmap list_fmap]. rewrite Hro, Hea.
    set (w1 := set_watch w a (report W now)).
    assert (Hsame : ∀ b, b ≠ a → get_watch w1 b = get_watch w b) by (intros b Hb; unfold w1; by rewrite get_set_watch, decide_False).
    assert (Hne : ∀ b, b ∈ l → b ≠ a) by (intros b Hb ->; done).
    rewrite (IH w1 room Hnd); [|intros b Hb; rewrite Hsame by auto; apply Hw; by right]. cbn [mbind option_bind].
    assert (Hdel : delivered w1 room l = delivered w room l).
    { unfold delivered. f_equal. apply List.filter_ext_in. intros b Hb%list_elem_of_In. unfold ready_at. by rewrite Hsame by auto. }
    rewrite Hdel. unfold delivered. do 3 f_equal. apply list_fmap_ext. intros i b Hb.
    unfold event_at. rewrite Hsame; [done|]. apply Hne. apply list_elem_of_lookup_2 in Hb.
    apply elem_of_take in Hb as (j & Hb & _). apply list_elem_of_lookup_2, list_elem_of_In, List.filter_In in Hb as [Hb _]. by apply list_elem_of_In.
  - change (take (S room) (List.filter (ready_at w) l)) with (delivered w (S room) l). apply IH; [done|]. intros b Hb. apply Hw. by right.
Qed.

(** The flags that a report leaves alone. *)
Lemma report_flags W now i : 0 ≤ i → i ≠ 3 → i ≠ 6 → i ≠ 10 → i ≠ 12 →
  has_flag (w_flags (report W now)) (2 ^ i) = has_flag (w_flags W) (2 ^ i).
Proof.
  intros. unfold report. cbn [w_flags set_field].
  unfold EWF_READCHANGED, EWF_WRITECHANGED, EWF_EDGETRIGGER, EWF_EDGETRIGGER_REPORTED, EWF_ONESHOT, EWF_ONESHOT_REPORTED.
  rewrite !has_flag_if_lor, !has_flag_clear by lia.
  destruct (Z.eqb_spec 10 i), (Z.eqb_spec 12 i), (Z.eqb_spec 3 i), (Z.eqb_spec 6 i); try lia.
  by rewrite !andb_false_r, !orb_false_r.
Qed.

Lemma report_reported W now :
  has_flag (w_flags (report W now)) EWF_EDGETRIGGER_REPORTED = has_flag (w_flags W) EWF_EDGETRIGGER || has_flag (w_flags W) EWF_EDGETRIGGER_REPORTED ∧
  has_flag (w_flags (report W now)) EWF_ONESHOT_REPORTED = has_flag (w_flags W) EWF_ONESHOT || has_flag (w_flags W) EWF_ONESHOT_REPORTED.
Proof.
  unfold report. cbn [w_flags set_field].
  unfold EWF_READCHANGED, EWF_WRITECHANGED, EWF_EDGETRIGGER, EWF_EDGETRIGGER_REPORTED, EWF_ONESHOT, EWF_ONESHOT_REPORTED.
  rewrite !has_flag_if_lor, !has_flag_clear by lia. cbn. rewrite !andb_true_r, !andb_false_r, !orb_false_r.
  split; apply orb_comm.
Qed.

(** A reported watch is still level-triggered with an event, or remembers the
    report. *)
Lemma report_ready W now : _epollwatch_isReady W = true →
  _epollwatch_isReady (report W now) = true ∨ was_reported (report W now) = true.
Proof.
  intros Hr. destruct (report_reported W now) as [He Ho]. unfold _epollwatch_isReady, was_reported in *.
  change EWF_CLOSED with (2 ^ 7) in *. change EWF_ACTIVE with (2 ^ 0) in *. change EWF_WATCHING with (2 ^ 8) in *.
  change EWF_READABLE with (2 ^ 1) in *. change EWF_WAITINGREAD with (2 ^ 2) in *. change EWF_WRITEABLE with (2 ^ 4) in *.
  change EWF_WAITINGWRITE with (2 ^ 5) in *. change EWF_EDGETRIGGER with (2 ^ 9) in *. change EWF_ONESHOT with (2 ^ 11) in *.
  rewrite !report_flags by lia. rewrite He, Ho.
  destruct (has_flag (w_flags W) (2 ^ 9)), (has_flag (w_flags W) (2 ^ 11)); cbn [orb andb] in *; rewrite ?orb_true_r; [by right..|].
  left. destruct (has_flag (w_flags W) (2 ^ 7) || _ || _); [done|]. rewrite andb_false_r in *. by rewrite andb_false_l in *.
Qed.

Lemma report_good silent w a W now :
  good silent w → get_watch w a = Some W → _epollwatch_isReady W = true → a ∉ silent →
  good silent (set_watch w a (report W now)).
Proof.
  intros [Hsh Hd] Ew Hr Hs. split; [by apply (replace_shape silent w a W)|].
  apply (replace_current silent _ _ _ a).
  - apply (replace_dyn silent _ _ w a W); try done. exact (report_flags W now 8 ltac:(lia) ltac:(lia) ltac:(lia) ltac:(lia) ltac:(lia)).
  - intros e ep k W' Ee Hk. rewrite get_set_watch, decide_True by done. intros [= <-] _.
    destruct (dy_current _ _ _ _ Hd e ep k a W Ee Hk Ew) as ((st & Est & [H1 H2 H3 H4 H5 H6 H7 H8]) & G2 & G3); [by intros []|exact Hs|].
    split_and!.
    + exists st. split; [done|]. constructor.
      * rewrite <-H1. apply (report_flags W now 0); lia.
      * rewrite <-H2. apply (report_flags W now 1); lia.
      * rewrite <-H3. apply (report_flags W now 4); lia.
      * rewrite <-H4. apply (report_flags W now 7); lia.
      * etransitivity; [|exact H5]. apply (report_flags W now 2); lia.
      * etransitivity; [|exact H6]. apply (report_flags W now 5); lia.
      * etransitivity; [|exact H7]. apply (report_flags W now 9); lia.
      * etransitivity; [|exact H8]. apply (report_flags W now 11); lia.
    + intros _. by apply G2.
    + intros _. by apply report_ready.
Qed.

Lemma report_all_ok silent now D : ∀ w,
  good silent w → NoDup D → (∀ a, a ∈ D → (a ∉ silent) ∧ ∃ W, get_watch w a = Some W ∧ _epollwatch_isReady W = true) →
  let w' := foldl (report_one now) w D in
  (good silent w') ∧ epolls (external w') = epolls (external w) ∧
  ∀ b, get_watch w' b = if decide (b ∈ D) then ((λ W, report W now) <$> get_watch w b) else get_watch w b.
Proof.
  induction D as [|a D IH]; intros w Hg Hnd HD; [split_and!; try done; apply Hg|].
  apply NoDup_cons in Hnd as [Ha Hnd]. destruct (HD a ltac:(by left)) as (Hs & W & Ew & Hr). cbn [foldl].
  assert (Hro : report_one now w a = set_watch w a (report W now)) by (unfold report_one; by rewrite Ew). rewrite Hro.
  destruct (IH (set_watch w a (report W now))) as (Hg' & He & Hget); [by apply report_good|done| |].
  { intros b Hb. rewrite get_set_watch. case_decide as Hab; [subst; done|]. apply HD. by right. }
  split_and!; [apply Hg'..|by rewrite He|]. intros b. rewrite Hget, get_set_watch.
  destruct (decide (a = b)) as [->|Hab].
  - rewrite (decide_False (P := b ∈ D)) by done. rewrite decide_True by (by left). by rewrite Ew.
  - destruct (decide (b ∈ D)); [rewrite decide_True by (by right); done|].
    rewrite decide_False; [done|]. rewrite elem_of_cons. intros [->|?]; done.
Qed.

(** The watches with an event of an instance, and what is known of them. *)
Lemma ready_list silent w e ep :
  good silent w → get_epoll w e = Some ep → (∀ k b, watching ep !! k = Some b → b ∉ silent) →
  NoDup (g_hash_table_get_values (ready ep)) ∧
  (∀ a, a ∈ g_hash_table_get_values (ready ep) → (a ∉ silent) ∧ is_Some (get_watch w a)) ∧
  (∀ a b A B, a ∈ g_hash_table_get_values (ready ep) → b ∈ g_hash_table_get_values (ready ep) →
     get_watch w a = Some A → get_watch w b = Some B → id A = id B → a = b).
Proof.
  intros [Hsh Hd] Ee Hopen.
  assert (Hin : ∀ a, a ∈ g_hash_table_get_values (ready ep) → ∃ k, watching ep !! k = Some a).
  { intros a ([k b] & -> & Hkb)%list_elem_of_fmap. exists k. apply (dy_ready _ _ _ _ Hd e ep k b Ee). by apply elem_of_map_to_list. }
  split_and!.
  - unfold g_hash_table_get_values. apply NoDup_fmap_2_strong; [|apply NoDup_map_to_list].
    intros [k1 a1] [k2 a2] H1%elem_of_map_to_list H2%elem_of_map_to_list. cbn. intros <-.
    pose proof (dy_ready _ _ _ _ Hd e ep k1 a1 Ee H1) as G1. pose proof (dy_ready _ _ _ _ Hd e ep k2 a1 Ee H2) as G2.
    by destruct (sh_owner _ _ _ Hsh e e ep ep k1 k2 a1 Ee Ee G1 G2) as [_ ->].
  - intros a [k Hk]%Hin. split; [by apply (Hopen k)|]. destruct (sh_watch _ _ _ Hsh e ep k a Ee Hk) as (W & ? & _). by exists W.
  - intros a b A B [k1 H1]%Hin [k2 H2]%Hin E1 E2 Hid. by apply (sh_ids _ _ _ Hsh e ep k1 k2 a b A B).
Qed.

Lemma getEvents_ok fuel silent w e ep now len :
  good silent w → get_epoll w e = Some ep → (∀ k b, watching ep !! k = Some b → b ∉ silent) → (L ≤ fuel)%nat →
  ∃ w' l, epoll_getEvents free_descriptor fuel w e now len = Some (w', event_at w <$> delivered w (Z.to_nat len) l) ∧
    good silent w' ∧ tables w' = tables w ∧
    l ≡ₚ g_hash_table_get_values (ready ep) ∧ StronglySorted (before w) l ∧
    (∀ b W', get_watch w' b = Some W' → ∃ W, get_watch w b = Some W ∧
      last_reported_event_time W' = if decide (b ∈ delivered w (Z.to_nat len) l) then now else last_reported_event_time W) ∧
    ∀ f k, interest w' f k = interest w f k.
Proof.
  intros Hg Ee Hopen HL. destruct (ready_list silent w e ep Hg Ee Hopen) as (Hnd & Hw & Hid).
  destruct (g_list_sort_ok w (g_hash_table_get_values (ready ep))) as (l & El & Hp & Hs); [by intros a [_ Ha]%Hw|done|done|].
  set (D := delivered w (Z.to_nat len) l).
  assert (HDl : ∀ a, a ∈ D → a ∈ l ∧ ready_at w a = true).
  { intros a (j & Ha & _)%elem_of_take. apply list_elem_of_lookup_2, list_elem_of_In, List.filter_In in Ha as [Ha ?]. split; [by apply list_elem_of_In|done]. }
  destruct (report_all_ok silent now D w Hg) as (Hg1 & Hep1 & Hget).
  { unfold D, delivered. eapply sublist_NoDup; [|apply sublist_take].
    apply NoDup_ListNoDup, List.NoDup_filter, NoDup_ListNoDup. by rewrite Hp. }
  { intros a [Ha Hr]%HDl. rewrite Hp in Ha. destruct (Hw a Ha) as [? [W EW]]. split; [done|]. exists W. split; [done|].
    unfold ready_at in Hr. by rewrite EW in Hr. }
  set (w1 := foldl (report_one now) w D) in *. destruct Hg1 as [Hsh1 Hd1].
  assert (Ee1 : get_epoll w1 e = Some ep) by (unfold get_epoll; by rewrite Hep1).
  destruct (adjust_readable_ok level (λ x, x ∈ silent) free_descriptor L fuel w1 (λ _, False) e ep (notify_ok _ _ _ _ Hlevel fuel) Hsh1)
    as (w' & E' & Er & _ & Hd'); [|done|lia|].
  { apply (dyn_weaken _ _ _ _ _ _ Hd1); [done|by intros ? []]. }
  exists w', l. unfold epoll_getEvents. rewrite Ee. cbn [mbind option_bind]. rewrite El. cbn [mbind option_bind].
  rewrite (collect_ok now l w (Z.to_nat len)); [|by rewrite Hp|intros a Ha; rewrite Hp in Ha; by apply Hw].
  cbn [mbind option_bind]. fold D. fold w1. rewrite E'. cbn [mbind option_bind]. split_and!; try done.
  - by apply (shape_erased level (λ x, x ∈ silent) w1 w').
  - rewrite (tables_erased _ _ Er). unfold tables. by rewrite Hep1.
  - intros b W' EW'. destruct (erased_watch w1 w' Er b W' EW') as (W1 & EW1 & (_ & _ & _ & _ & _ & Hl)%erase_watch_fields).
    rewrite Hget in EW1. rewrite <-Hl. case_decide.
    + apply fmap_Some in EW1 as (W & EW & ->). by exists W.
    + by exists W1.
  - intros f k. rewrite (interest_erased w1 w' f k Er). unfold interest, get_epoll. rewrite Hep1. fold (get_epoll w f).
    destruct (watching <$> get_epoll w f) as [T|]; [|done]. cbn. destruct (T !! k) as [b|]; [|done]. cbn.
    rewrite Hget. case_decide; [|done]. by destruct (get_watch w b).
Qed.

(** ** An instance is closed *)

Lemma silence_good silent w e ep k a W s :
  good silent w → get_epoll w e = Some ep → watching ep !! k = Some a → get_watch w a = Some W →
  statuslisteners w !! listener W = Some s →
  good ({[a]} ∪ silent) (unlistened w (watchObject W) (listener W) s).
Proof.
  intros [Hsh [Hr1 Hr2 Hr3 Hr4]] Ee Hk Ew Es. set (o := watchObject W). set (w' := unlistened w o (listener W) s).
  destruct (unlistened_maps w o (listener W) s) as (M1 & M2 & M3 & M4). fold w' in M1, M2, M3, M4.
  pose proof (unlistened_listener w o (listener W) s) as Hl'. fold w' in Hl'.
  pose proof (λ B pd pf o', @unlistened_view B pd pf w o (listener W) s o') as Hv. fold w' in Hv. clearbody w'.
  assert (Hst : ∀ o', object_getStatus w' o' = object_getStatus w o').
  { intros o'. lhs (obj_view status file_status w' o'). rewrite Hv. by apply (upd_view_same status file_status). }
  assert (Hrf : ∀ o', object_refs w' o' = object_refs w o').
  { intros o'. lhs (obj_view referenceCount file_refs w' o'). rewrite Hv. by apply (upd_view_same referenceCount file_refs). }
  assert (Hls : ∀ o', object_listeners w' o' = if decide (o' = o) then (λ ls, list_difference ls [listener W]) <$> object_listeners w o' else object_listeners w o').
  { intros o'. lhs (obj_view listeners file_listeners w' o'). rewrite Hv, upd_view. case_decide; [|done].
    unfold obj_view, object_listeners. destruct o' as [[] p]; cbn [fst snd]; by rewrite <-option_fmap_compose. }
  assert (Hds : ∀ d desc', descriptors w' !! d = Some desc' → ∃ desc, descriptors w !! d = Some desc ∧ status desc = status desc').
  { intros d desc' Ed. pose proof (Hst (EWT_LEGACY_DESCRIPTOR, d)) as H. unfold object_getStatus in H. cbn [fst snd] in H.
    rewrite Ed in H. symmetry in H. apply fmap_Some in H as (desc0 & ? & ?). exists desc0. split; [done|by symmetry]. }
  assert (Hother : ∀ b V t, get_watch w b = Some V → b ≠ a → statuslisteners w !! listener V = Some t → listener V ≠ listener W).
  { intros b V t EV Hb Et Heq. apply Hb, (sh_args _ _ _ Hsh b a V W t s EV Ew Et Es). rewrite Heq in Et. congruence. }
  assert (Hsub : ∀ b, b ∈ silent → b ∈ {[a]} ∪ silent) by (intros b Hb; apply elem_of_union; by right).
  assert (Hself : a ∈ {[a]} ∪ silent) by (apply elem_of_union; left; by apply elem_of_singleton).
  assert (Hback : ∀ b, b ∈ {[a]} ∪ silent → b ≠ a → b ∈ silent) by (intros b [Hb%elem_of_singleton|Hb]%elem_of_union Hne; done).
  destruct Hsh as [Hw Ho Hod Hi Ha He Hr Hl].
  split.
  - constructor; unfold get_epoll, get_watch; rewrite ?M1, ?M2; try done.
    + intros f fp k' b E1 E2. destruct (Hw f fp k' b E1 E2) as (V & EV & [G1 G2 G3 G4 (t & Et & S1 & S2 & S3 & S4 & S5 & S6 & S7 & S8)]).
      exists V. split; [done|]. constructor; [done|done|by rewrite Hst|done|]. destruct (decide (b = a)) as [->|Hb].
      * assert (V = W) as -> by congruence. assert (t = s) as -> by congruence. eexists. split; [exact Hl'|]. rewrite M3. cbn. split_and!; try done.
        -- intros _. split_and!; try done. intros ls. rewrite Hls, decide_True by done.
           intros (ls0 & E0 & ->)%fmap_Some. rewrite in_list_difference. by intros [_ ?].
      * exists t. pose proof (Hother b V t EV Hb Et) as Hne. rewrite M4, M3 by done. split_and!; try done.
        -- intros Hn. destruct (S7 (λ H, Hn (Hsub b H))) as (T1 & T2 & T3 & ls & T4 & T5). split_and!; try done.
           rewrite Hls. case_decide; [|by exists ls]. rewrite T4. eexists. split; [done|]. by apply in_list_difference.
        -- intros Hn. destruct (S8 (Hback b Hn Hb)) as (T1 & T2 & T3). split_and!; try done.
           intros ls. rewrite Hls. case_decide; [|by apply T3].
           intros (ls0 & E0 & ->)%fmap_Some. rewrite in_list_difference. intros [Hin _]. by apply (T3 ls0).
    + intros a1 a2 W1 W2 s1 s2 E1 E2 E3 E4 Hcb.
      assert (Hlis : ∀ b V t, get_watch w b = Some V → statuslisteners w' !! listener V = Some t →
        ∃ t0, statuslisteners w !! listener V = Some t0 ∧ callbackArgument t0 = callbackArgument t).
      { intros b V t EV Et. destruct (decide (listener V = listener W)) as [Heq|Hne].
        - rewrite Heq in Et. rewrite Heq. exists s. split; [done|]. rewrite Hl' in Et. by injection Et as <-.
        - rewrite M4 in Et by done. by exists t. }
      destruct (Hlis a1 W1 s1 E1 E3) as (t1 & F1 & G1), (Hlis a2 W2 s2 E2 E4) as (t2 & F2 & G2).
      apply (Ha a1 a2 W1 W2 t1 t2 E1 E2 F1 F2). congruence.
    + intros f fp E1. destruct (He f fp E1) as [[desc Ed] ?]. split; [|done].
      pose proof (Hst (EWT_LEGACY_DESCRIPTOR, f)) as Hx. unfold object_getStatus in Hx. cbn [fst snd] in Hx. rewrite Ed in Hx. by destruct (descriptors w' !! f).
    + intros o' n. rewrite Hrf. unfold watchers. rewrite M2. apply Hr.
    + intros o' ls l Els Hin. assert (Hin0 : ∃ ls0, object_listeners w o' = Some ls0 ∧ l ∈ ls0).
      { rewrite Hls in Els. case_decide; [|by exists ls]. apply fmap_Some in Els as (ls0 & E0 & ->). apply in_list_difference in Hin as [? _]. by exists ls0. }
      destruct Hin0 as (ls0 & E0 & Hin0). destruct (Hl o' ls0 l E0 Hin0) as (t & Et & Ht).
      destruct (decide (l = listener W)) as [->|Hne].
      * rewrite Hl'. assert (t = s) as -> by congruence. by eexists.
      * rewrite M4 by done. by exists t.
  - constructor; unfold get_epoll, get_watch; rewrite ?M1, ?M2; try done.
    + intros f fp k' b V E1 E2 E3 _ Hs. destruct (Hr3 f fp k' b V E1 E2 E3) as [(st & G1 & G2) G3]; [by intros []|intros H; by apply Hs, Hsub|].
      split; [|done]. exists st. by rewrite Hst.
    + intros f fp desc' E1 E2 Hu. destruct (Hds f desc' E2) as (desc & Ed & <-). by apply (Hr4 f fp desc).
Qed.

Lemma clear_listener_ok silent w e ep k a :
  good silent w → get_epoll w e = Some ep → watching ep !! k = Some a → a ∉ silent →
  ∃ w', clear_listener w a = Some w' ∧ (good ({[a]} ∪ silent) w') ∧ epolls (external w') = epolls (external w) ∧
    watches (external w') = watches (external w).
Proof.
  intros Hg Ee Hk Hs. destruct (sh_watch _ _ _ (proj1 Hg) e ep k a Ee Hk) as (W & Ew & [_ _ _ _ (s & Es & _ & _ & _ & _ & _ & _ & Hopen & _)]).
  destruct (Hopen Hs) as (_ & _ & Hrc & ls & Els & Hin). exists (unlistened w (watchObject W) (listener W) s).
  unfold clear_listener. rewrite Ew. cbn [mbind option_bind]. split; [by apply (unlisten_eq _ _ _ _ ls)|].
  split; [by apply (silence_good silent w e ep k)|]. by destruct (unlistened_maps w (watchObject W) (listener W) s) as (-> & -> & _).
Qed.

Lemma clear_listeners_ok e ep l : ∀ silent w,
  good silent w → get_epoll w e = Some ep → NoDup l → (∀ a, a ∈ l → (a ∉ silent) ∧ ∃ k, watching ep !! k = Some a) →
  ∃ w', foldl (λ r a, w ← r; clear_listener w a) (Some w) l = Some w' ∧ (good (list_to_set l ∪ silent) w') ∧
    epolls (external w') = epolls (external w) ∧ watches (external w') = watches (external w).
Proof.
  induction l as [|a l IH]; intros silent w Hg Ee Hnd Hl.
  - exists w. rewrite list_to_set_nil, union_empty_l_L. split_and!; try done; apply Hg.
  - apply NoDup_cons in Hnd as [Ha Hnd]. destruct (Hl a ltac:(by left)) as (Hs & k & Hk).
    destruct (clear_listener_ok silent w e ep k a Hg Ee Hk Hs) as (w1 & E1 & Hg1 & M1 & M2). cbn [foldl mbind option_bind]. rewrite E1.
    destruct (IH ({[a]} ∪ silent) w1 Hg1) as (w2 & E2 & Hg2 & N1 & N2); [unfold get_epoll; by rewrite M1|done| |].
    + intros b Hb. destruct (Hl b ltac:(by right)) as (Hb' & Hkb). split; [|done]. assert (b ≠ a) by (intros ->; done).
      rewrite not_elem_of_union, not_elem_of_singleton. done.
    + exists w2. rewrite list_to_set_cons.
      replace ({[a]} ∪ list_to_set l ∪ silent) with (list_to_set l ∪ ({[a]} ∪ silent) : gset Z) by (by rewrite (union_assoc_L _ {[a]}), (union_comm_L _ {[a]})).
      split_and!; [done|apply Hg2|apply Hg2|congruence|congruence].
Qed.

Definition watching_set (ep : Epoll) : gset Z := list_to_set (g_hash_table_get_values (watching ep)).

Lemma in_watching ep a : a ∈ g_hash_table_get_values (watching ep) ↔ ∃ k, watching ep !! k = Some a.
Proof.
  unfold g_hash_table_get_values. rewrite list_elem_of_fmap. split.
  - intros ([k b] & -> & Hkb%elem_of_map_to_list). by exists k.
  - intros [k Hk]. exists (k, a). split; [done|]. by apply elem_of_map_to_list.
Qed.

Lemma watching_list silent w e ep :
  shape silent w → get_epoll w e = Some ep →
  NoDup (g_hash_table_get_values (watching ep)) ∧
  (∀ a, a ∈ g_hash_table_get_values (watching ep) → is_Some (get_watch w a)) ∧
  (∀ a b A B, a ∈ g_hash_table_get_values (watching ep) → b ∈ g_hash_table_get_values (watching ep) →
     get_watch w a = Some A → get_watch w b = Some B → id A = id B → a = b).
Proof.
  intros Hsh Ee. split_and!.
  - unfold g_hash_table_get_values. apply NoDup_fmap_2_strong; [|apply NoDup_map_to_list].
    intros [k1 a1] [k2 a2] H1%elem_of_map_to_list H2%elem_of_map_to_list. cbn. intros <-.
    by destruct (sh_owner _ _ _ Hsh e e ep ep k1 k2 a1 Ee Ee H1 H2) as [_ ->].
  - intros a [k Hk]%in_watching. destruct (sh_watch _ _ _ Hsh e ep k a Ee Hk) as (W & ? & _). by exists W.
  - intros a b A B [k1 H1]%in_watching [k2 H2]%in_watching E1 E2 Hid. by apply (sh_ids _ _ _ Hsh e ep k1 k2 a b A B).
Qed.

Lemma close_ok silent w e ep :
  good silent w → get_epoll w e = Some ep → (∀ k b, watching ep !! k = Some b → b ∉ silent) →
  ∃ w', _epoll_close w e = Some (w', true) ∧ (good (watching_set ep ∪ silent) w') ∧ epolls (external w') = epolls (external w).
Proof.
  intros Hg Ee Hopen. destruct (watching_list silent w e ep (proj1 Hg) Ee) as (Hnd & Hw & Hid).
  destruct (g_list_sort_ok w _ Hw Hnd Hid) as (l & El & Hp & _).
  destruct (clear_listeners_ok e ep l silent w Hg Ee) as (w' & E' & Hg' & M1 & _); [by rewrite Hp| |].
  { intros a. rewrite Hp. intros [k Hk]%in_watching. split; [by apply (Hopen k)|by exists k]. }
  exists w'. unfold _epoll_close, epoll_clearWatchListeners. rewrite Ee. cbn [mbind option_bind]. rewrite El. cbn [mbind option_bind].
  rewrite E'. split; [done|]. split; [|done]. unfold watching_set.
  replace (list_to_set (g_hash_table_get_values (watching ep)) : gset Z) with (list_to_set l : gset Z); [done|].
  apply set_eq. intros x. by rewrite !elem_of_list_to_set, Hp.
Qed.

(** ** New objects and instances *)

Lemma new_descriptor_good silent w d desc :
  good silent w → descriptors w !! d = None → listeners desc = [] → 0 < referenceCount desc →
  good silent (set_descriptor w d desc).
Proof.
  intros [[Hw Ho Hod Hi Ha He Hr Hl] [H1 H2 H3 H4]] Ed El Erc. set (w' := set_descriptor w d desc).
  assert (Hdesc : ∀ p, descriptors w' !! p = if decide (p = d) then Some desc else descriptors w !! p).
  { intros p. unfold w', set_descriptor. cbn. case_decide; [subst; apply lookup_insert_eq|by apply lookup_insert_ne]. }
  assert (Hno : ∀ e ep, get_epoll w e = Some ep → e ≠ d) by (intros e ep Ee ->; destruct (He d ep Ee) as [[? ?] _]; congruence).
  assert (Hst : ∀ o st, object_getStatus w o = Some st → object_getStatus w' o = Some st).
  { intros [[] p] st; [|done]. unfold object_getStatus. cbn [fst snd]. rewrite Hdesc. case_decide; [subst; by rewrite Ed|done]. }
  assert (Hls : ∀ o ls, object_listeners w' o = Some ls → object_listeners w o = Some ls ∨ ls = []).
  { intros [[] p] ls; [|by left]. unfold object_listeners. cbn [fst snd]. rewrite Hdesc. case_decide; [|by left].
    cbn. rewrite El. intros [= <-]. by right. }
  assert (Hls' : ∀ o ls, object_listeners w o = Some ls → object_listeners w' o = Some ls).
  { intros [[] p] ls; [|done]. unfold object_listeners. cbn [fst snd]. rewrite Hdesc. case_decide; [subst; by rewrite Ed|done]. }
  split.
  - constructor; try done.
    + intros e ep k a Ee Hk. destruct (Hw e ep k a Ee Hk) as (W & EW & [G1 G2 [st G3] G4 (s & Es & S1 & S2 & S3 & S4 & S5 & S6 & S7 & S8)]).
      exists W. split; [done|]. constructor; [done|done|exists st; by apply Hst|done|]. exists s. split_and!; try done.
      * intros Hs. destruct (S7 Hs) as (T1 & T2 & T3 & ls & T4 & T5). split_and!; try done. exists ls. split; [by apply Hls'|done].
      * intros Hs. destruct (S8 Hs) as (T1 & T2 & T3). split_and!; try done. intros ls [?| ->]%Hls; [by apply T3|apply not_elem_of_nil].
    + intros e ep Ee. destruct (He e ep Ee) as [? ?]. split; [|done]. rewrite Hdesc. by case_decide.
    + intros o n. unfold object_refs. destruct o as [[] p]; cbn [fst snd]; [|apply (Hr (EWT_POSIX_FILE, p) n)].
      rewrite Hdesc. case_decide as Hp; [|apply (Hr (EWT_LEGACY_DESCRIPTOR, p) n)]. subst p. intros [= <-].
      enough (watchers w' (EWT_LEGACY_DESCRIPTOR, d) = 0%nat) as -> by lia.
      unfold watchers. apply map_size_empty_iff, map_empty_filter_2. intros a W EW. cbn. intros HW.
      destruct (Hod a W EW) as (e & ep & k & Ee & Hk). destruct (Hw e ep k a Ee Hk) as (W' & EW' & [_ _ [st G3] _ _]).
      assert (W' = W) as -> by (change (get_watch w a = Some W) in EW; congruence). rewrite HW in G3. unfold object_getStatus in G3. cbn [fst snd] in G3.
      by rewrite Ed in G3.
    + intros o ls l [Els| ->]%Hls Hin; [by apply (Hl o ls l)|by apply not_elem_of_nil in Hin].
  - constructor; try done.
    + intros e ep k a W E1 E2 E3 E4 E5. destruct (H3 e ep k a W E1 E2 E3 E4 E5) as [(st & G1 & G2) G3]. split; [|done]. exists st. split; [by apply Hst|done].
    + intros e ep desc' E1 E2 Hu. rewrite Hdesc, decide_False in E2 by (by eapply Hno). by apply (H4 e ep desc').
Qed.

Lemma new_epoll_good silent w e desc :
  good silent w → descriptors w !! e = Some desc → get_epoll w e = None → has_flag (status desc) STATUS_DESCRIPTOR_READABLE = false →
  (∀ l s, statuslisteners w !! l = Some s → callbackObject s ≠ e) →
  good silent (set_epoll w e (mkEpoll ∅ ∅ 0)).
Proof.
  intros [[Hw Ho Hod Hi Ha He Hr Hl] [H1 H2 H3 H4]] Ed Ee Est Hcb. set (w' := set_epoll w e (mkEpoll ∅ ∅ 0)).
  assert (Hep : ∀ f, get_epoll w' f = if decide (e = f) then Some (mkEpoll ∅ ∅ 0) else get_epoll w f) by (intros f; apply get_set_epoll).
  assert (Hold : ∀ f fp k a, get_epoll w' f = Some fp → watching fp !! k = Some a → get_epoll w f = Some fp).
  { intros f fp k a. rewrite Hep. case_decide; [|done]. intros [= <-]. cbn. by rewrite lookup_empty. }
  split.
  - constructor.
    + intros f fp k a E1 E2. destruct (Hw f fp k a (Hold f fp k a E1 E2) E2) as (W & EW & [G1 G2 G3 G4 G5]).
      exists W. split; [done|]. by constructor.
    + intros e1 e2 ep1 ep2 k1 k2 a E1 E2 E3 E4. by apply (Ho e1 e2 ep1 ep2 k1 k2 a (Hold _ _ _ _ E1 E3) (Hold _ _ _ _ E2 E4)).
    + intros a W EW. destruct (Hod a W EW) as (f & fp & k & E1 & E2). exists f, fp, k. split; [|done]. rewrite Hep, decide_False by congruence. done.
    + intros f fp k1 k2 a1 a2 W1 W2 E1 E2. apply (Hi f fp k1 k2 a1 a2 W1 W2 (Hold _ _ _ _ E1 E2) E2).
    + exact Ha.
    + intros f fp. rewrite Hep. case_decide as Hf; [subst f; intros [= <-]; by split; [eexists|cbn]|apply (He f)].
    + exact Hr.
    + intros o ls l Els Hin. destruct (Hl o ls l Els Hin) as (s & Es & Hs). exists s. split; [done|]. intros fp.
      rewrite Hep, decide_False by (intros ->; by apply (Hcb l s)). apply Hs.
  - constructor.
    + intros f fp k a. rewrite Hep. case_decide; [intros [= <-]; cbn; by rewrite lookup_empty|apply (H1 f)].
    + intros f fp k a W E1 E2. exact (H2 f fp k a W (Hold _ _ _ _ E1 E2) E2).
    + intros f fp k a W E1 E2. exact (H3 f fp k a W (Hold _ _ _ _ E1 E2) E2).
    + intros f fp desc'. rewrite Hep. case_decide as Hf; [|apply (H4 f)]. subst f. intros [= <-] E2 _.
      change (descriptors w !! e = Some desc') in E2. assert (desc' = desc) as -> by congruence. by rewrite Est.
Qed.

(** A status change of an object that is not an instance's second table. *)
Lemma descriptor_status_ok fuel silent w d desc bits b :
  good silent w → descriptors w !! d = Some desc → (L ≤ fuel)%nat →
  (is_Some (get_epoll w d) → ∃ i, bits = 2 ^ i ∧ 0 ≤ i ∧ i ≠ 1) →
  ∃ w' called, descriptor_adjustStatus (notify free_descriptor fuel) w d bits b = Some (w', called) ∧ (good silent w') ∧
    erase w' = erase w ∧ object_getStatus w' (EWT_LEGACY_DESCRIPTOR, d) = Some (adjusted (status desc) bits b).
Proof.
  intros [Hsh Hd] Ed HL Hb.
  destruct (adjusted_status_ok level (λ x, x ∈ silent) free_descriptor L fuel w (λ _, False) (λ _, False) d desc bits b (notify_ok _ _ _ _ Hlevel fuel) Hsh Hd Ed)
    as (w' & called & E & Er & _ & Est & Hd'); [done| |lia|].
  - intros ep Ee. destruct Hb as (i & -> & Hi & Hi1); [by eexists|]. change STATUS_DESCRIPTOR_READABLE with (2 ^ 1).
    rewrite has_flag_adjusted by lia. destruct (Z.eqb_spec i 1); [done|]. exact (dy_settled _ _ _ _ Hd d ep desc Ee Ed (λ H, H)).
  - exists w', called. split_and!; try done. by apply (shape_erased level (λ x, x ∈ silent) w w').
Qed.

Lemma epoll_new_ok fuel silent w e :
  good silent w → descriptors w !! e = None → (∀ l s, statuslisteners w !! l = Some s → callbackObject s ≠ e) → (L ≤ fuel)%nat →
  ∃ w', epoll_new free_descriptor fuel w e = Some w' ∧ (good silent w') ∧ tables w' = <[e := ∅]> (tables w).
Proof.
  intros Hg Ed Hcb HL. set (w1 := set_descriptor w e (descriptor_init DT_EPOLL)).
  assert (Hg1 : good silent w1) by (by apply new_descriptor_good).
  assert (Ed1 : descriptors w1 !! e = Some (descriptor_init DT_EPOLL)) by apply lookup_insert_eq.
  assert (Hne : get_epoll w e = None).
  { destruct (get_epoll w e) as [ep|] eqn:Ee; [|done]. destruct (sh_epoll _ _ _ (proj1 Hg) e ep Ee) as [[? ?] _]. congruence. }
  pose proof (new_epoll_good silent w1 e _ Hg1 Ed1 Hne eq_refl Hcb) as Hg2.
  destruct (descriptor_status_ok fuel silent (set_epoll w1 e (mkEpoll ∅ ∅ 0)) e (descriptor_init DT_EPOLL) STATUS_DESCRIPTOR_ACTIVE true Hg2 Ed1 HL)
    as (w' & called & E & Hg' & Er & _); [intros _; by exists 0|].
  exists w'. unfold epoll_new. fold w1. rewrite E. split_and!; [done|apply Hg'..|].
  rewrite (tables_erased _ _ Er). unfold tables, set_epoll, mem. cbn. by rewrite fmap_insert.
Qed.

(** ** Sequences of operations *)

(** The memory, the watches whose listeners were cleared, and the instances
    that were closed. *)
Record State := mkState {
  wd : World;
  silent_watches : gset Z;
  shut : gset Z;
}.

Inductive Op :=
  | ONew (e : Z)
  | ODescriptor (d : Z) (t : LegacyDescriptorType)
  | OControl (e op fd : Z) (o : Object) (ev : option EpollEvent) (a l ka : Z)
  | OEvents (e now len : Z)
  | OStatus (d bits : Z) (b : bool)
  | OFile (p st : Z)
  | OClose (e : Z).

Definition exec (fuel : nat) (s : State) (op : Op) : option State :=
  let with_world w := mkState w (silent_watches s) (shut s) in
  match op with
  | ONew e => with_world <$> epoll_new free_descriptor fuel (wd s) e
  | ODescriptor d t => Some (with_world (set_descriptor (wd s) d (descriptor_init t)))
  | OControl e op fd o ev a l ka => (λ r, with_world r.1) <$> epoll_control free_descriptor fuel (wd s) e op fd o ev (a, l, ka)
  | OEvents e now len => (λ r, with_world r.1) <$> epoll_getEvents free_descriptor fuel (wd s) e now len
  | OStatus d bits b => (λ r, with_world r.1) <$> descriptor_adjustStatus (notify free_descriptor fuel) (wd s) d bits b
  | OFile p st => with_world <$> posixfile_setStatus free_descriptor fuel (wd s) p st
  | OClose e =>
      ep ← get_epoll (wd s) e;
      (λ r, mkState r.1 (watching_set ep ∪ silent_watches s) ({[e]} ∪ shut s)) <$> _epoll_close (wd s) e
  end.

(** What the rest of the program keeps to: addresses are new, instances do not
    watch each other in a circle, a closed instance is not used. *)
Definition allowed (s : State) (op : Op) : Prop :=
  match op with
  | ONew e => descriptors (wd s) !! e = None ∧ map_Forall (λ _ t, callbackObject t ≠ e) (statuslisteners (wd s))
  | ODescriptor d _ => descriptors (wd s) !! d = None
  | OControl e op fd o ev a l ka => (e ∉ shut s) ∧
      is_Some (get_epoll (wd s) e) ∧ is_Some (object_getStatus (wd s) o) ∧ (op ≠ EPOLL_CTL_DEL → is_Some ev) ∧
      (op = EPOLL_CTL_ADD → (level o < level (EWT_LEGACY_DESCRIPTOR, e))%nat ∧ fresh (silent_watches s) (wd s) a l ka ∧
         from_option (λ ep, watch_id_counter ep + 1 < 2 ^ 64) False (get_epoll (wd s) e))
  | OEvents e _ _ | OClose e => (e ∉ shut s) ∧ is_Some (get_epoll (wd s) e)
  | OStatus d bits _ => is_Some (descriptors (wd s) !! d) ∧ (is_Some (get_epoll (wd s) d) → ∃ i, bits = 2 ^ i ∧ 0 ≤ i ∧ i ≠ 1)
  | OFile p _ => is_Some (posixfiles (external (wd s)) !! p)
  end.

Inductive reach (fuel : nat) (s0 : State) : State → Prop :=
  | reach_start : reach fuel s0 s0
  | reach_step s op s' : reach fuel s0 s → allowed s op → exec fuel s op = Some s' → reach fuel s0 s'.

(** Before the first instance. *)
Record initial (s : State) : Prop := mkInitial {
  in_epolls : epolls (external (wd s)) = ∅;
  in_watches : watches (external (wd s)) = ∅;
  in_silent : silent_watches s = ∅;
  in_refs : ∀ o n, object_refs (wd s) o = Some n → 0 < n;
  in_listeners : ∀ o ls l, object_listeners (wd s) o = Some ls → l ∈ ls → is_Some (statuslisteners (wd s) !! l);
}.

Record inv (s : State) : Prop := mkInv {
  iv_good : good (silent_watches s) (wd s);
  iv_silent : ∀ e T k a, tables (wd s) !! e = Some T → T !! k = Some a → (a ∈ silent_watches s ↔ e ∈ shut s);
}.

Lemma epoll_initial_inv s : initial s → inv s.
Proof.
  intros [Ie Iw Is Ir Il].
  assert (Hne : ∀ e ep, get_epoll (wd s) e = Some ep → False) by (intros e ep; unfold get_epoll; rewrite Ie; by rewrite lookup_empty).
  assert (Hnw : ∀ a W, get_watch (wd s) a = Some W → False) by (intros a W; unfold get_watch; rewrite Iw; by rewrite lookup_empty).
  constructor.
  - split; constructor; try (intros; exfalso; by eauto).
    + intros o n En. unfold watchers. rewrite Iw, map_filter_empty, map_size_empty. specialize (Ir o n En). lia.
    + intros o ls l Els Hin. destruct (Il o ls l Els Hin) as [t Et]. exists t. split; [done|]. intros ep Eep. by destruct (Hne _ _ Eep).
  - intros e T k a. unfold tables. by rewrite Ie, fmap_empty, lookup_empty.
Qed.

Lemma lookup_tables w e ep : get_epoll w e = Some ep → tables w !! e = Some (watching ep).
Proof. intros Ee. unfold tables. rewrite lookup_fmap. unfold get_epoll in Ee. by rewrite Ee. Qed.

Lemma inv_open s e ep : inv s → (e ∉ shut s) → get_epoll (wd s) e = Some ep →
  ∀ k b, watching ep !! k = Some b → b ∉ silent_watches s.
Proof. intros Hi He Ee k b Hk Hb. apply He. by apply (iv_silent _ Hi e (watching ep) k b (lookup_tables _ _ _ Ee) Hk). Qed.

(** The same tables, or one table of an open instance with other entries. *)
Lemma inv_tables s w : inv s → good (silent_watches s) w → tables w = tables (wd s) →
  inv (mkState w (silent_watches s) (shut s)).
Proof. intros [_ Hs] Hg Ht. constructor; [done|]. cbn. rewrite Ht. exact Hs. Qed.

Lemma inv_table s w e T : inv s → good (silent_watches s) w → tables w = <[e := T]> (tables (wd s)) →
  (∀ k a, T !! k = Some a → (a ∈ silent_watches s ↔ e ∈ shut s)) → inv (mkState w (silent_watches s) (shut s)).
Proof.
  intros [_ Hs] Hg Ht HT. constructor; [done|]. cbn. rewrite Ht. intros f T' k a [[<- <-]|[_ E]]%lookup_insert_Some; [by apply HT|by eapply Hs].
Qed.

(** The new entries of a table are fresh. *)
Lemma control_entries s e ep op key a k b : inv s → get_epoll (wd s) e = Some ep → (e ∉ shut s) → (op = EPOLL_CTL_ADD → a ∉ silent_watches s) →
  control_table op key a (watching ep) !! k = Some b → (b ∈ silent_watches s ↔ e ∈ shut s).
Proof.
  intros Hi Ee Hsh Ha. pose proof (inv_open s e ep Hi Hsh Ee) as Hopen.
  assert (H : ∀ b, b ∉ silent_watches s → (b ∈ silent_watches s ↔ e ∈ shut s)) by (intros x Hx; split; intros ?; done).
  intros Hb. apply H. revert Hb. unfold control_table. destruct (watching ep !! key).
  - destruct (op =? EPOLL_CTL_DEL); [|apply Hopen]. intros [_ Hb]%lookup_delete_Some. by apply (Hopen k).
  - destruct (Z.eqb_spec op EPOLL_CTL_ADD) as [Hop|_]; [|apply Hopen].
    intros [[_ <-]|[_ Hb]]%lookup_insert_Some; [by apply Ha|by apply (Hopen k)].
Qed.

Lemma exec_inv fuel s op : (L ≤ fuel)%nat → inv s → allowed s op → ∃ s', exec fuel s op = Some s' ∧ inv s'.
Proof.
  intros HL Hi Ha. pose proof (iv_good _ Hi) as Hg.
  destruct op as [e|d t|e op fd o ev a l ka|e now len|d bits b|p st|e]; cbn [exec allowed] in *.
  - destruct Ha as [Ed Hcb]. destruct (epoll_new_ok fuel (silent_watches s) (wd s) e Hg Ed) as (w' & E & Hg' & Ht); [|done|].
    { intros l t Et. exact (Hcb l t Et). }
    rewrite E. eexists. split; [done|]. apply (inv_table s w' e ∅ Hi Hg' Ht). intros k a. by rewrite lookup_empty.
  - eexists. split; [done|]. apply inv_tables; [done|by apply new_descriptor_good|done].
  - destruct Ha as (Hsh & [ep Ee] & Hob & Hev & Hadd).
    destruct (control_ok fuel (silent_watches s) (wd s) e op fd o ev a l ka ep Hg) as (w' & E & Hg' & Ht & _); [|done|].
    { constructor; try done; [by apply (inv_open s e)|]. intros Hop. destruct (Hadd Hop) as (H1 & H2 & H3). by rewrite Ee in H3. }
    rewrite E. eexists. split; [done|]. apply (inv_table s w' e _ Hi Hg' Ht). intros k b. apply (control_entries s e ep op); try done.
    intros Hop. destruct (Hadd Hop) as (_ & [_ ? _ _ _] & _). done.
  - destruct Ha as (Hsh & [ep Ee]).
    destruct (getEvents_ok fuel (silent_watches s) (wd s) e ep now len Hg Ee (inv_open s e ep Hi Hsh Ee) HL) as (w' & l & E & Hg' & Ht & _).
    rewrite E. eexists. split; [done|]. by apply inv_tables.
  - destruct Ha as ([desc Ed] & Hb).
    destruct (descriptor_status_ok fuel (silent_watches s) (wd s) d desc bits b Hg Ed HL Hb) as (w' & called & E & Hg' & Er & _).
    rewrite E. eexists. split; [done|]. apply inv_tables; [done|done|by apply tables_erased].
  - destruct Ha as [f Ef]. destruct (file_status_ok level (λ x, x ∈ silent_watches s) free_descriptor L fuel (wd s) (λ _, False) p (file_status f) st
      (notify_ok _ _ _ _ Hlevel fuel) (proj1 Hg) (proj2 Hg)) as (w' & E & Er & _ & Hd'); [|lia|].
    { unfold object_getStatus, posixfile_getStatus. cbn [fst snd]. by rewrite Ef. }
    rewrite E. eexists. split; [done|]. apply inv_tables; [done| |by apply tables_erased].
    split; [|done]. apply (shape_erased level (λ x, x ∈ silent_watches s) (wd s) w' Er), Hg.
  - destruct Ha as (Hsh & [ep Ee]). rewrite Ee. cbn [mbind option_bind].
    destruct (close_ok (silent_watches s) (wd s) e ep Hg Ee (inv_open s e ep Hi Hsh Ee)) as (w' & E & Hg' & He).
    rewrite E. eexists. split; [done|]. constructor; [exact Hg'|]. cbn. unfold tables. rewrite He. fold (tables (wd s)).
    intros f T k a HT Hk. pose proof (iv_silent _ Hi f T k a HT Hk) as Hs.
    rewrite !elem_of_union, elem_of_singleton, <-Hs. unfold watching_set. rewrite elem_of_list_to_set, in_watching.
    assert (Hf : (∃ k0, watching ep !! k0 = Some a) ↔ f = e); [|by rewrite Hf].
    pose proof (lookup_tables _ _ _ Ee) as HTe. split.
    + intros [k0 Hk0]. unfold tables in HT. rewrite lookup_fmap in HT. apply fmap_Some in HT as (fp & Efp & ->).
      by destruct (sh_owner _ _ _ (proj1 Hg) f e fp ep k k0 a Efp Ee Hk Hk0).
    + intros ->. exists k. congruence.
Qed.

Lemma reach_inv fuel s0 s : (L ≤ fuel)%nat → initial s0 → reach fuel s0 s → inv s.
Proof.
  intros HL H0. induction 1 as [|s op s' _ IH Ha E]; [by apply epoll_initial_inv|].
  destruct (exec_inv fuel s op HL IH Ha) as (s'' & E' & Hi). congruence.
Qed.

(** ** Readiness *)

(** The object has a requested event. *)
Definition event_present (W : EpollWatch) (st : Z) : bool :=
  has_flag st STATUS_DESCRIPTOR_ACTIVE && negb (has_flag st STATUS_DESCRIPTOR_CLOSED) &&
  (has_flag st STATUS_DESCRIPTOR_READABLE && has_flag (events (event W)) EPOLLIN ||
   has_flag st STATUS_DESCRIPTOR_WRITABLE && has_flag (events (event W)) EPOLLOUT).

Definition level_triggered (W : EpollWatch) : bool :=
  negb (has_flag (events (event W)) EPOLLET) && negb (has_flag (events (event W)) EPOLLONESHOT).

Lemma ready_level W st : mirrors W st → has_flag (w_flags W) EWF_WATCHING = true → level_triggered W = true →
  _epollwatch_isReady W = event_present W st.
Proof.
  intros [H1 H2 H3 H4 H5 H6 H7 H8] Hw [Hl1 Hl2]%andb_true_iff. unfold _epollwatch_isReady, event_present.
  rewrite H1, H2, H3, H4, H5, H6, H7, H8, Hw. apply negb_true_iff in Hl1, Hl2. rewrite Hl1, Hl2. cbn.
  destruct (has_flag st STATUS_DESCRIPTOR_CLOSED), (has_flag st STATUS_DESCRIPTOR_ACTIVE); cbn; rewrite ?andb_false_r; done.
Qed.

Lemma ready_unreported W st : mirrors W st → has_flag (w_flags W) EWF_WATCHING = true → was_reported W = false →
  event_present W st = true → _epollwatch_isReady W = true.
Proof.
  intros [H1 H2 H3 H4 H5 H6 H7 H8] Hw [Hr1 Hr2]%orb_false_iff Hp. unfold _epollwatch_isReady, event_present in *.
  rewrite H1, H2, H3, H4, H5, H6, Hw. rewrite H7 in *. rewrite H8 in *.
  apply andb_true_iff in Hp as [[Ha Hc]%andb_true_iff Hp]. rewrite Ha. apply negb_true_iff in Hc. rewrite Hc. cbn.
  destruct (has_flag (events (event W)) EPOLLET), (has_flag (events (event W)) EPOLLONESHOT); cbn in *; rewrite ?Hr1, ?Hr2; cbn;
    rewrite ?orb_true_r, ?andb_true_r; cbn; rewrite Hp; done.
Qed.

Lemma reported_lazily W : level_triggered W = true → ∀ st, mirrors W st → was_reported W = false.
Proof.
  intros [Hl1 Hl2]%andb_true_iff st [_ _ _ _ _ _ H7 H8]. unfold was_reported. rewrite H7, H8.
  apply negb_true_iff in Hl1, Hl2. by rewrite Hl1, Hl2.
Qed.

(** C10: In every state that operations on instances and status changes of what
    they watch can reach, nested instances included: every further allowed
    operation succeeds, with fuel for as many levels as instances are nested;
    an instance's descriptor is readable exactly when its second table has an
    entry; every watch of an open instance is on a live object, and is in the
    second table when a requested event is present and was not reported yet;
    a level-triggered watch is there exactly when a requested event is
    present. *)
Theorem epoll_ready fuel s0 s :
  (L ≤ fuel)%nat → initial s0 → reach fuel s0 s →
  (∀ op, allowed s op → is_Some (exec fuel s op)) ∧
  ∀ e ep, get_epoll (wd s) e = Some ep →
    (∃ st, object_getStatus (wd s) (EWT_LEGACY_DESCRIPTOR, e) = Some st ∧
       (has_flag st STATUS_DESCRIPTOR_READABLE = true ↔ ready ep ≠ ∅)) ∧
    ∀ k a, watching ep !! k = Some a → e ∉ shut s →
      ∃ W st, get_watch (wd s) a = Some W ∧ object_getStatus (wd s) (watchObject W) = Some st ∧
        (event_present W st = true → was_reported W = false → ready ep !! k = Some a) ∧
        (level_triggered W = true → (ready ep !! k = Some a ↔ event_present W st = true)).
Proof.
  intros HL H0 Hr. pose proof (reach_inv fuel s0 s HL H0 Hr) as Hi. split.
  { intros op Ha. destruct (exec_inv fuel s op HL Hi Ha) as (s' & E & _). by eexists. }
  intros e ep Ee. destruct (iv_good _ Hi) as [Hsh Hd]. split.
  - destruct (sh_epoll _ _ _ Hsh e ep Ee) as [[desc Ed] _]. exists (status desc).
    split; [unfold object_getStatus; cbn; by rewrite Ed|].
    rewrite (dy_settled _ _ _ _ Hd e ep desc Ee Ed (λ H, H)). unfold epoll_getNumReadyEvents.
    rewrite negb_true_iff, Z.eqb_neq, <-map_size_non_empty_iff. lia.
  - intros k a Hk Hs. destruct (sh_watch _ _ _ Hsh e ep k a Ee Hk) as (W & EW & _).
    pose proof (inv_open s e ep Hi Hs Ee k a Hk) as Hsil.
    destruct (dy_refs _ _ _ _ Hd e ep k a W Ee Hk EW) as [_ Hwt].
    destruct (dy_current _ _ _ _ Hd e ep k a W Ee Hk EW) as ((st & Est & Hm) & G2 & G3); [by intros []|exact Hsil|].
    assert (Hrk : is_Some (ready ep !! k) → ready ep !! k = Some a).
    { intros [b Hb]. pose proof (dy_ready _ _ _ _ Hd e ep k b Ee Hb). congruence. }
    exists W, st. split_and!; [done|done| |].
    + intros Hp Hn. by apply Hrk, G2, (ready_unreported W st).
    + intros Hl. rewrite <-(ready_level W st Hm Hwt Hl). split; [|intros H; by apply Hrk, G2].
      intros H. destruct G3 as [?|Hx]; [by eexists|done|]. by rewrite (reported_lazily W Hl st Hm) in Hx.
Qed.

(** C11: for the operations [EPOLL_CTL_ADD], [EPOLL_CTL_MOD] and [EPOLL_CTL_DEL],
    [epoll_control] implements epoll_ctl(2) on the registered events: a descriptor
    is added once, changed and removed only when it is there, with [EEXIST] and
    [ENOENT] in the other cases.  For any other operation it leaves the
    registrations alone, as epoll_ctl(2) does, but returns 0 instead of
    [EINVAL].  No other registration of any instance changes. *)
Theorem epoll_control_refines fuel s0 s e op fd o ev a l ka :
  (L ≤ fuel)%nat → initial s0 → reach fuel s0 s → allowed s (OControl e op fd o ev a l ka) →
  let spec := interest_spec op (interest (wd s) e (fd, o.2)) ev in
  ∃ w' result, epoll_control free_descriptor fuel (wd s) e op fd o ev (a, l, ka) = Some (w', result) ∧
    (op ∈ [EPOLL_CTL_ADD; EPOLL_CTL_MOD; EPOLL_CTL_DEL] → result = spec.2) ∧
    (op ∉ [EPOLL_CTL_ADD; EPOLL_CTL_MOD; EPOLL_CTL_DEL] → result = 0 ∧ spec.2 = - EINVAL) ∧
    ∀ f k, interest w' f k = if decide (f = e ∧ k = (fd, o.2)) then spec.1 else interest (wd s) f k.
Proof.
  intros HL H0 Hr (Hsh & [ep Ee] & Hob & Hev & Hadd) spec. pose proof (reach_inv fuel s0 s HL H0 Hr) as Hi.
  destruct (control_ok fuel (silent_watches s) (wd s) e op fd o ev a l ka ep (iv_good _ Hi)) as (w' & E & _ & _ & Hch); [|done|].
  - constructor; try done; [by apply (inv_open s e ep)|]. intros Hop. destruct (Hadd Hop) as (H1 & H2 & H3). by rewrite Ee in H3.
  - eexists w', _. split; [exact E|]. split; [|split; [|exact Hch]]; rewrite !elem_of_cons.
    + intros Hop. replace (supported op) with true; [done|]. symmetry. unfold supported. rewrite !orb_true_iff, !Z.eqb_eq.
      pose proof (not_elem_of_nil op). tauto.
    + intros Hop. unfold spec, interest_spec, supported. rewrite !(proj2 (Z.eqb_neq _ _)) by tauto. done.
Qed.

(** C30: [epoll_getEvents] returns the ready events of the instance in the order
    of their last report, oldest first, and of registration among equals, as
    many as fit; a watch whose event was returned moves behind all that were
    not (its last report is now), so no ready watch is passed over twice by
    another.  The registrations do not change. *)
Theorem epoll_getEvents_order fuel s0 s e ep now len :
  (L ≤ fuel)%nat → initial s0 → reach fuel s0 s → get_epoll (wd s) e = Some ep → e ∉ shut s →
  ∃ w' l, epoll_getEvents free_descriptor fuel (wd s) e now len
            = Some (w', event_at (wd s) <$> delivered (wd s) (Z.to_nat len) l) ∧
    l ≡ₚ g_hash_table_get_values (ready ep) ∧ StronglySorted (before (wd s)) l ∧
    (∀ b W', get_watch w' b = Some W' → ∃ W, get_watch (wd s) b = Some W ∧
      last_reported_event_time W' = if decide (b ∈ delivered (wd s) (Z.to_nat len) l) then now else last_reported_event_time W) ∧
    ∀ f k, interest w' f k = interest (wd s) f k.
Proof.
  intros HL H0 Hr Ee Hs. pose proof (reach_inv fuel s0 s HL H0 Hr) as Hi.
  destruct (getEvents_ok fuel (silent_watches s) (wd s) e ep now len (iv_good _ Hi) Ee (inv_open s e ep Hi Hs Ee) HL)
    as (w' & l & E & _ & _ & Hp & Hso & Hl & Hint). by exists w', l.
Qed.

End Safety.

(** ** An instance that watches an instance *)

Definition demo_level (o : Object) : nat :=
  if decide (o = (EWT_LEGACY_DESCRIPTOR, 10)) then 1 else if decide (o = (EWT_LEGACY_DESCRIPTOR, 20)) then 2 else 0.

Definition demo_free (w : World) (d : Z) : option World := None.

(** A socket at address 1 and a pipe at address 2. *)
Definition demo_start : State :=
  mkState (mkWorld {[1 := descriptor_init DT_TCPSOCKET]} ∅ (mkMemory ∅ ∅ ∅ {[2 := mkFile STATUS_DESCRIPTOR_ACTIVE [] 1]} [])) ∅ ∅.

Definition demo_ops : list Op :=
  [ONew 10; ONew 20;
   OControl 10 EPOLL_CTL_ADD 5 (EWT_LEGACY_DESCRIPTOR, 1) (Some (mkEvent EPOLLIN 100)) 101 102 103;
   OControl 20 EPOLL_CTL_ADD 6 (EWT_LEGACY_DESCRIPTOR, 10) (Some (mkEvent EPOLLIN 200)) 201 202 203;
   OStatus 1 STATUS_DESCRIPTOR_ACTIVE true; OStatus 1 STATUS_DESCRIPTOR_READABLE true].

Definition demo_state : State :=
  default demo_start (foldl (λ r op, s ← r; exec demo_free 3 s op) (Some demo_start) demo_ops).

Lemma epoll_demo_initial : initial demo_start.
Proof.
  constructor; try done.
  - intros [[] p] n; unfold object_refs; cbn [fst snd]; intros (x & Ex & ->)%fmap_Some;
      unfold demo_start in Ex; cbn [wd descriptors external posixfiles] in Ex; apply lookup_singleton_Some in Ex as [_ <-]; done.
  - intros [[] p] ls l; unfold object_listeners; cbn [fst snd]; intros (x & Ex & ->)%fmap_Some;
      unfold demo_start in Ex; cbn [wd descriptors external posixfiles] in Ex; apply lookup_singleton_Some in Ex as [_ <-]; by intros ?%elem_of_nil.
Qed.

(** One operation on a concrete state. *)
#[local] Ltac check_allowed :=
  cbn [allowed]; split_and!;
  first [by vm_compute | by eexists | by intros ? | by intros [? ?] |
         intros _; split_and!; [vm_compute; lia|constructor; by vm_compute|by vm_compute] | idtac].

#[local] Ltac run_step R op :=
  match type of R with
  | reach ?lv ?fr ?fuel ?s0 ?s =>
      match eval vm_compute in (exec fr fuel s op) with
      | Some ?t =>
          let R' := fresh in
          assert (R' : reach lv fr fuel s0 t) by (apply (reach_step lv fr fuel s0 s op t R); [check_allowed|vm_compute; reflexivity]);
          clear R; rename R' into R
      end
  end.

#[local] Ltac run_all R ops :=
  match ops with
  | [] => idtac
  | ?op :: ?ops => run_step R op; run_all R ops
  end.

Lemma epoll_demo_reach : reach demo_level demo_free 3 demo_start demo_state.
Proof.
  pose proof (reach_start demo_level demo_free 3 demo_start) as R.
  let ops := eval unfold demo_ops in demo_ops in run_all R ops. exact R.
Qed.
Lemma demo_bound o : (demo_level o < 3)%nat.
Proof. unfold demo_level. repeat case_decide; lia. Qed.

Lemma epoll_ready_witness :
  ∃ ep, get_epoll (wd demo_state) 20 = Some ep ∧ ready ep !! (6, 10) = Some 201.
Proof.
  destruct (epoll_ready demo_level demo_free 3 demo_bound 3 demo_start demo_state ltac:(lia) epoll_demo_initial epoll_demo_reach) as [_ H].
  destruct (get_epoll (wd demo_state) 20) as [ep|] eqn:E; [|by vm_compute in E]. exists ep. split; [done|].
  destruct (H 20 ep E) as [_ Hw]. vm_compute in E. injection E as <-.
  destruct (Hw (6, 10) 201) as (W & st & EW & Est & _ & Hl); [reflexivity|by vm_compute|].
  vm_compute in EW. injection EW as <-. vm_compute in Est. injection Est as <-. by apply Hl.
Defined.

Lemma epoll_control_refines_witness :
  (λ r, r.2) <$> epoll_control demo_free 3 (wd demo_state) 10 EPOLL_CTL_ADD 5 (EWT_LEGACY_DESCRIPTOR, 1) (Some (mkEvent EPOLLOUT 1)) (301, 302, 303)
  = Some (- EEXIST).
Proof.
  destruct (epoll_control_refines demo_level demo_free 3 demo_bound 3 demo_start demo_state 10 EPOLL_CTL_ADD 5 (EWT_LEGACY_DESCRIPTOR, 1)
    (Some (mkEvent EPOLLOUT 1)) 301 302 303 ltac:(lia) epoll_demo_initial epoll_demo_reach) as (w' & result & E & Hres & _).
  - split; [by vm_compute|]. split; [eexists; vm_compute; reflexivity|]. split; [eexists; vm_compute; reflexivity|].
    split; [intros _; by eexists|]. intros _. split; [vm_compute; lia|]. split; [|by vm_compute].
    constructor; by vm_compute.
  - rewrite E. cbn [fmap option_fmap option_map snd]. rewrite Hres by (left). reflexivity.
Defined.

Lemma epoll_getEvents_order_witness :
  ∃ w', epoll_getEvents demo_free 3 (wd demo_state) 10 7 8 = Some (w', [mkEvent EPOLLIN 100]).
Proof.
  destruct (get_epoll (wd demo_state) 10) as [ep|] eqn:E; [|by vm_compute in E].
  destruct (epoll_getEvents_order demo_level demo_free 3 demo_bound 3 demo_start demo_state 10 ep 7 8 ltac:(lia) epoll_demo_initial epoll_demo_reach E)
    as (w' & l & El & Hp & _); [by vm_compute|].
  exists w'. rewrite El. vm_compute in E. injection E as <-.
  assert (l = [101]) as -> by (apply Permutation_singleton_r; exact Hp). reflexivity.
Defined.

(** ** An edge-triggered watch that was reported *)

Definition edge_ops : list Op :=
  [ONew 10; OControl 10 EPOLL_CTL_ADD 5 (EWT_LEGACY_DESCRIPTOR, 1) (Some (mkEvent (Z.lor EPOLLIN EPOLLET) 100)) 101 102 103;
   OStatus 1 STATUS_DESCRIPTOR_ACTIVE true; OStatus 1 STATUS_DESCRIPTOR_READABLE true; OEvents 10 7 8].

Definition edge_state : State :=
  default demo_start (foldl (λ r op, s ← r; exec demo_free 3 s op) (Some demo_start) edge_ops).

(** It stays in the second table, so the instance still counts as readable,
    but the next call has nothing to return. *)
Lemma edge_reported :
  (λ ep, epoll_getNumReadyEvents ep) <$> get_epoll (wd edge_state) 10 = Some 1 ∧
  (λ st, has_flag st STATUS_DESCRIPTOR_READABLE) <$> object_getStatus (wd edge_state) (EWT_LEGACY_DESCRIPTOR, 10) = Some true ∧
  (λ r, r.2) <$> epoll_getEvents demo_free 3 (wd edge_state) 10 8 8 = Some [].
Proof. vm_compute. done. Qed.


End EpollSafety.
