(* ===== verification/EpollCalls.v ===== *)
(** * The epoll system calls
    (src/phantom/src/main/host/syscall/epoll.c)

    The table of open descriptors is kept by Rust code and the memory of the
    managed process is reached through parameters, as for the timerfd calls. *)

From S2P Require Import Prelude Descriptor Timer TimerFd Epoll EpollNotify EpollSafety.

Module EpollCalls.
Import Desc Epoll EpollNotify EpollSafety.

#[local] Existing Instances desc_eta.
Implicit Types w : World.

(** What a file descriptor refers to. *)
Definition Table : Type := gmap Z Object.

Inductive SysCallReturn := DONE (retval : Z) | BLOCK (trigger : Z) (status : Z) (timeout : bool).

Definition process_getRegisteredCompatDescriptor (fds : Table) (fd : Z) : option Object := fds !! fd.

(** The address of a descriptor of the older kind. *)
Definition process_getRegisteredLegacyDescriptor (fds : Table) (fd : Z) : option Z :=
  match process_getRegisteredCompatDescriptor fds fd with
  | Some (EWT_LEGACY_DESCRIPTOR, d) => Some d
  | _ => None
  end.

Definition compatdescriptor_asLegacy (o : Object) : option Z :=
  match o with (EWT_LEGACY_DESCRIPTOR, d) => Some d | (EWT_POSIX_FILE, _) => None end.

Definition validate w (d : option Z) (expected : LegacyDescriptorType) : Z :=
  TimerFd._syscallhandler_validateDescriptor (d ≫= λ d, descriptors w !! d) expected.

Section Calls.
Context (free_descriptor : World → Z → option World).
(** The number the table gives out; the event at an address of the process, and
    whether an array can be written there. *)
Context (new_fd : Table → Z) (process_readPtr : Z → option EpollEvent) (writeable : Z → bool).

(** [compatdescriptor_fromLegacy] and [descriptortable_add]. *)
Definition process_registerLegacyDescriptor (fds : Table) w (proc d : Z) : option (Table * World * Z) :=
  desc ← descriptors w !! d;
  let fd := new_fd fds in
  let desc := descriptor_setHandle (descriptor_setOwnerProcess desc proc) fd in
  Some (<[fd := (EWT_LEGACY_DESCRIPTOR, d)]> fds, set_descriptor w d desc, fd).

(** [e]: the address of the new instance. *)
Definition _syscallhandler_createEpollHelper (fuel : nat) (fds : Table) w (proc size flags e : Z)
    : option (Table * World * Z) :=
  if (size <=? 0) || negb (flags =? 0) && negb (flags =? EPOLL_CLOEXEC) then Some (fds, w, - EINVAL)
  else
    w ← epoll_new free_descriptor fuel w e;
    '(fds, w, handle) ← process_registerLegacyDescriptor fds w proc e;
    if has_flag flags EPOLL_CLOEXEC then
      desc ← descriptors w !! e;
      Some (fds, set_descriptor w e (descriptor_addFlags desc EPOLL_CLOEXEC), handle)
    else Some (fds, w, handle).

Definition syscallhandler_epoll_create (fuel : nat) (fds : Table) w (proc size e : Z) : option (Table * World * SysCallReturn) :=
  '(fds, w, result) ← _syscallhandler_createEpollHelper fuel fds w proc size 0 e;
  Some (fds, w, DONE result).

Definition syscallhandler_epoll_create1 (fuel : nat) (fds : Table) w (proc flags e : Z) : option (Table * World * SysCallReturn) :=
  '(fds, w, result) ← _syscallhandler_createEpollHelper fuel fds w proc 1 flags e;
  Some (fds, w, DONE result).

(** The arguments are the registers; descriptors and the operation are [int]. *)
Definition syscallhandler_epoll_ctl (fuel : nat) (fds : Table) w (epfd op fd eventPtr : Z) (addrs : Z * Z * Z)
    : option (World * SysCallReturn) :=
  let epfd := i32 epfd in let op := i32 op in let fd := i32 fd in
  if (eventPtr =? 0) && negb (op =? EPOLL_CTL_DEL) then Some (w, DONE (- EFAULT))
  else if epfd =? fd then Some (w, DONE (- EINVAL))
  else
    let epollDescriptor := process_getRegisteredLegacyDescriptor fds epfd in
    let errorCode := validate w epollDescriptor DT_EPOLL in
    if negb (errorCode =? 0) then Some (w, DONE errorCode) else
    e ← epollDescriptor;
    match process_getRegisteredCompatDescriptor fds fd with
    | None => Some (w, DONE (- EBADF))
    | Some compatDescriptor =>
        let errorCode := match compatdescriptor_asLegacy compatDescriptor with
                         | Some d => if negb (op =? EPOLL_CTL_DEL) then validate w (Some d) DT_NONE else 0
                         | None => 0
                         end in
        if negb (errorCode =? 0) then Some (w, DONE errorCode) else
        let event := if negb (eventPtr =? 0) then process_readPtr eventPtr else None in
        '(w, errorCode) ← epoll_control free_descriptor fuel w e op fd compatDescriptor event addrs;
        Some (w, DONE errorCode)
    end.

(** The third result is what is written to the array of the process. *)
Definition syscallhandler_epoll_wait (fuel : nat) (fds : Table) w (sys : TimerFd.SysCallHandler) (now : Z)
    (epfd eventsPtr maxevents timeout_ms : Z)
    : option (World * TimerFd.SysCallHandler * list Timer.task * SysCallReturn * list EpollEvent) :=
  let epfd := i32 epfd in let maxevents := i32 maxevents in let timeout_ms := i32 timeout_ms in
  if maxevents <=? 0 then Some (w, sys, [], DONE (- EINVAL), [])
  else if eventsPtr =? 0 then Some (w, sys, [], DONE (- EFAULT), [])
  else
    let desc := process_getRegisteredLegacyDescriptor fds epfd in
    let errorCode := validate w desc DT_EPOLL in
    if negb (errorCode =? 0) then Some (w, sys, [], DONE errorCode, []) else
    e ← desc;
    ep ← get_epoll w e;
    let numReadyEvents := u32 (epoll_getNumReadyEvents ep) in
    if numReadyEvents =? 0 then
      if (timeout_ms =? 0) || TimerFd._syscallhandler_wasBlocked sys then Some (w, sys, [], DONE 0, [])
      else
        '(sys, tasks) ← (if 0 <? timeout_ms then TimerFd._syscallhandler_setListenTimeoutMillis sys now timeout_ms
                         else Some (sys, []));
        Some (w, sys, tasks, BLOCK e STATUS_DESCRIPTOR_READABLE (0 <? timeout_ms), [])
    else
      let numEventsNeeded := Z.min (u32 maxevents) numReadyEvents in
      '(w, events) ← epoll_getEvents free_descriptor fuel w e now numEventsNeeded;
      if negb (writeable eventsPtr) && bool_decide (events ≠ []) then None
      else Some (w, sys, [], DONE (Z.of_nat (length events)), events).

End Calls.

(** ** [epoll_wait] *)

Lemma millis_armed sys now ms : 0 ≤ ms →
  ∃ sys' tasks, TimerFd._syscallhandler_setListenTimeoutMillis sys now ms = Some (sys', tasks).
Proof.
  intros Hms. unfold TimerFd._syscallhandler_setListenTimeoutMillis, TimerFd._syscallhandler_setListenTimeout.
  cbv zeta. rewrite Timer.setTime_unfold. cbn [default]. set (v := Timer.mkItimerspec _ _).
  assert (Hv : Timer._timer_timeIsValid (Timer.it_value v) = true).
  { unfold Timer._timer_timeIsValid, v, TimerFd.utility_timespecFromMillis. cbn.
    rewrite Z.rem_mod_nonneg by lia. pose proof (Z.mod_pos_bound ms 1000 ltac:(lia)).
    rewrite (proj2 (Z.ltb_ge _ _)), (proj2 (Z.leb_gt _ _)) by (unfold SIMTIME_ONE_SECOND; lia). done. }
  rewrite Hv. change (Timer._timer_timeIsValid (Timer.it_interval v)) with true. cbn [negb orb andb Z.eqb mbind option_bind].
  destruct (if Timer.arms v then _ else _) as [t tasks]. by eexists _, _.
Qed.

Lemma delivered_length w room l : (length (delivered w room l) ≤ room)%nat.
Proof. unfold delivered. rewrite length_take. lia. Qed.

Lemma delivered_some w room l a : a ∈ l → ready_at w a = true → (0 < room)%nat → delivered w room l ≠ [].
Proof.
  intros Hin Hr Hroom. unfold delivered.
  assert (Hf : a ∈ List.filter (ready_at w) l) by (apply list_elem_of_In, List.filter_In; split; [by apply list_elem_of_In|done]).
  destruct (List.filter (ready_at w) l); [by apply not_elem_of_nil in Hf|]. by destruct room; [lia|].
Qed.

Section Wait.
Context (level : Object → nat) (free_descriptor : World → Z → option World) (L : nat) (Hlevel : ∀ o, (level o < L)%nat).
Context (writeable : Z → bool).

(** C29: [epoll_wait] on an open instance returns in every reachable state.
    Without an entry in the second table it returns zero events when the caller
    does not want to wait or waited already, and otherwise blocks until the
    instance is readable or the timeout; with one it returns at once, with at
    most [maxevents] events, and with at least one when a level-triggered watch
    has its event. *)
Theorem epoll_wait_returns fuel s0 s fds sys now epfd e ep eventsPtr maxevents timeout_ms :
  (L ≤ fuel)%nat → initial s0 → reach level free_descriptor fuel s0 s → e ∉ shut s →
  fds !! i32 epfd = Some (EWT_LEGACY_DESCRIPTOR, e) → get_epoll (wd s) e = Some ep →
  validate (wd s) (Some e) DT_EPOLL = 0 → Z.of_nat (size (ready ep)) < 2 ^ 32 →
  0 < i32 maxevents → eventsPtr ≠ 0 → writeable eventsPtr = true →
  let may_block := negb (i32 timeout_ms =? 0) && negb (TimerFd._syscallhandler_wasBlocked sys) in
  ∃ w' sys' tasks r evs,
    syscallhandler_epoll_wait free_descriptor writeable fuel fds (wd s) sys now epfd eventsPtr maxevents timeout_ms
      = Some (w', sys', tasks, r, evs) ∧
    (ready ep = ∅ → w' = wd s ∧ evs = [] ∧
       r = if may_block then BLOCK e STATUS_DESCRIPTOR_READABLE (0 <? i32 timeout_ms) else DONE 0) ∧
    (ready ep ≠ ∅ → sys' = sys ∧ r = DONE (Z.of_nat (length evs)) ∧ Z.of_nat (length evs) ≤ i32 maxevents ∧
       ((∃ k a W, ready ep !! k = Some a ∧ get_watch (wd s) a = Some W ∧ level_triggered W = true) → evs ≠ [])).
Proof.
  intros HL H0 Hr Hs Hfd Ee Hval Hsize Hmax Hptr Hwr may_block.
  pose proof (reach_inv level free_descriptor L Hlevel fuel s0 s HL H0 Hr) as Hi.
  unfold syscallhandler_epoll_wait, process_getRegisteredLegacyDescriptor, process_getRegisteredCompatDescriptor.
  rewrite (proj2 (Z.leb_gt _ _)), (proj2 (Z.eqb_neq _ _)), Hfd, Hval by done. cbn [negb Z.eqb mbind option_bind].
  rewrite Ee. cbn [mbind option_bind]. unfold epoll_getNumReadyEvents.
  assert (Hn : u32 (Z.of_nat (size (ready ep))) = Z.of_nat (size (ready ep))) by (unfold u32, wrap; apply Z.mod_small; lia).
  rewrite Hn. destruct (decide (ready ep = ∅)) as [Hre|Hre].
  - rewrite Hre, map_size_empty. cbn [Z.of_nat Z.eqb]. unfold may_block.
    destruct ((i32 timeout_ms =? 0) || TimerFd._syscallhandler_wasBlocked sys) eqn:Hb.
    + exists (wd s), sys, [], (DONE 0), []. split_and!; [done| |done]. intros _. split_and!; try done.
      apply orb_true_iff in Hb as [-> | ->]; [done|by rewrite andb_false_r].
    + apply orb_false_iff in Hb as [-> ->]. destruct (Z.ltb_spec 0 (i32 timeout_ms)) as [Ht|Ht].
      * destruct (millis_armed sys now (i32 timeout_ms)) as (sys' & tasks & ->); [lia|]. cbn [mbind option_bind].
        exists (wd s), sys', tasks. by do 2 eexists.
      * exists (wd s), sys, []. by do 2 eexists.
  - assert (Hsz : size (ready ep) ≠ 0%nat) by (by rewrite map_size_non_empty_iff). rewrite (proj2 (Z.eqb_neq _ 0)) by lia.
    set (room := Z.min _ _).
    destruct (getEvents_ok level free_descriptor L Hlevel fuel (silent_watches s) (wd s) e ep now room (iv_good _ _ Hi) Ee (inv_open _ s e ep Hi Hs Ee) HL)
      as (w' & l & E & _ & _ & Hp & _).
    rewrite E. cbn [mbind option_bind]. rewrite Hwr. cbn [negb andb].
    set (evs := event_at (wd s) <$> delivered (wd s) (Z.to_nat room) l).
    exists w', sys, [], (DONE (Z.of_nat (length evs))), evs. split_and!; [done|by intros|]. intros _. split_and!; try done.
    + assert (Hmu : u32 (i32 maxevents) = i32 maxevents).
      { unfold u32, wrap. apply Z.mod_small. split; [lia|]. unfold i32, swrap in *.
        pose proof (Z.mod_pos_bound (maxevents + 2 ^ (32 - 1)) (2 ^ 32) ltac:(lia)). lia. }
      unfold evs. rewrite length_fmap. pose proof (delivered_length (wd s) (Z.to_nat room) l). unfold room in *. rewrite Hmu in *. lia.
    + intros (k & a & W & Hk & EW & Hlt) Hnil. unfold evs in Hnil. apply fmap_nil_inv in Hnil. revert Hnil.
      destruct (iv_good _ _ Hi) as [Hsh Hd]. pose proof (dy_ready _ _ _ _ Hd e ep k a Ee Hk) as Hwt.
      apply (delivered_some _ _ _ a).
      * rewrite Hp. unfold g_hash_table_get_values. apply list_elem_of_fmap. exists (k, a). split; [done|by apply elem_of_map_to_list].
      * destruct (dy_current _ _ _ _ Hd e ep k a W Ee Hwt EW) as ((st & Est & Hm) & _ & G3); [by intros []|by eapply inv_open|].
        unfold ready_at. rewrite EW. destruct G3 as [?|Hx]; [by eexists|done|]. by rewrite (reported_lazily W Hlt st Hm) in Hx.
      * unfold room. assert (0 < u32 (i32 maxevents)); [|lia]. unfold u32, wrap. rewrite Z.mod_small; [done|]. split; [lia|].
        unfold i32, swrap. pose proof (Z.mod_pos_bound (maxevents + 2 ^ (32 - 1)) (2 ^ 32) ltac:(lia)). lia.
Qed.

End Wait.

(** ** Examples *)

Lemma epoll_wait_returns_witness :
  ∃ w', syscallhandler_epoll_wait demo_free (λ _, true) 3 {[7 := (EWT_LEGACY_DESCRIPTOR, 10)]} (wd demo_state)
          (TimerFd.mkSys Timer.timer_new (-1)) 9 7 64 4 (-1)
        = Some (w', TimerFd.mkSys Timer.timer_new (-1), [], DONE 1, [mkEvent EPOLLIN 100]).
Proof.
  destruct (get_epoll (wd demo_state) 10) as [ep|] eqn:E; [|by vm_compute in E].
  destruct (epoll_wait_returns demo_level demo_free 3 demo_bound (λ _, true) 3 demo_start demo_state {[7 := (EWT_LEGACY_DESCRIPTOR, 10)]}
    (TimerFd.mkSys Timer.timer_new (-1)) 9 7 10 ep 64 4 (-1) ltac:(lia) epoll_demo_initial epoll_demo_reach) as (w' & sys' & tasks & r & evs & Ew & _ & H);
    [by vm_compute|reflexivity|exact E|by vm_compute| |by vm_compute|lia|reflexivity|].
  - vm_compute in E. injection E as <-. by vm_compute.
  - destruct H as (-> & -> & _); [vm_compute in E; injection E as <-; by vm_compute|]. exists w'. rewrite Ew.
    pose proof (f_equal (λ x, from_option snd [] x) Ew) as Hx. vm_compute in Hx.
    pose proof (f_equal (λ x, from_option (λ y, y.1.1.2) [] x) Ew) as Ht. vm_compute in Ht. rewrite <-Hx, <-Ht. reflexivity.
Defined.

(** A call that may block on an edge-triggered watch that was reported returns
    zero events at once. *)
Lemma edge_wait_does_not_block :
  (λ x, x.1.2) <$> syscallhandler_epoll_wait demo_free (λ _, true) 3 {[7 := (EWT_LEGACY_DESCRIPTOR, 10)]} (wd edge_state)
    (TimerFd.mkSys Timer.timer_new (-1)) 9 7 64 4 (-1) = Some (DONE 0).
Proof. by vm_compute. Qed.

(** An unknown operation reports success. *)
Lemma unknown_operation_ignored :
  (λ x, x.2) <$> syscallhandler_epoll_ctl demo_free (λ _, Some (mkEvent EPOLLIN 1)) 3
    {[7 := (EWT_LEGACY_DESCRIPTOR, 10); 5 := (EWT_LEGACY_DESCRIPTOR, 1)]} (wd demo_state) 7 4 5 64 (301, 302, 303) = Some (DONE 0).
Proof. by vm_compute. Qed.


End EpollCalls.
