(* ===== verification/Buddy.v ===== *)
(** * The buddy allocator of shared memory
    (src/phantom/src/main/shmem/buddy.c, buddy.h, shmem_util.c, shmem_util.h)

    A pool of shared memory is divided into blocks of sizes that are powers of
    two.  The free blocks of one size are in a list that is threaded through
    their control blocks, in the order of their addresses; the links are
    distances, because processes map the pool at different addresses, and are
    packed into words with the size and the tag of the block.  The payload of
    a block that is in use belongs to its user, who may write anything there. *)

From S2P Require Import Prelude.

Module Buddy.

(** ** Words (shmem_util.c, shmem_util.h) *)

Definition LT (n : Z) : list Z := replicate 16 n.

Definition _log_table_256 : list Z :=
  [-1; 0; 1; 1; 2; 2; 2; 2; 3; 3; 3; 3; 3; 3; 3; 3] ++ LT 4 ++ LT 5 ++ LT 5 ++ LT 6 ++ LT 6 ++ LT 6 ++
  LT 6 ++ LT 7 ++ LT 7 ++ LT 7 ++ LT 7 ++ LT 7 ++ LT 7 ++ LT 7 ++ LT 7.

Definition log_table (t : Z) : Z := default 0 (_log_table_256 !! Z.to_nat t).

Definition shmem_util_uintLog2 (v : Z) : Z :=
  let tt := Z.shiftr v 16 in
  u32 (if negb (tt =? 0) then
         let t := Z.shiftr tt 8 in
         if negb (t =? 0) then 24 + log_table t else 16 + log_table tt
       else
         let t := Z.shiftr v 8 in
         if negb (t =? 0) then 8 + log_table t else log_table v).

(** [1 << k] on [int]: undefined from the sign bit on. *)
Definition shmem_util_uintPow2k (k : Z) : option Z :=
  if (0 <=? k) && (k <? 31) then Some (Z.shiftl 1 k) else None.

(** [__builtin_popcount] and [__builtin_clz], which is undefined for 0. *)
Definition popcount (x : Z) : Z :=
  foldr (λ i n, n + (if Z.testbit x (Z.of_nat i) then 1 else 0)) 0 (seq 0 32).

Definition clz (x : Z) : option Z := if x =? 0 then None else Some (31 - Z.log2 x).

Definition shmem_util_roundUpPow2 (x : Z) : option Z :=
  let pc := popcount x in
  let shift := if negb (pc =? 1) then 1 else 0 in
  c ← clz x;
  shmem_util_uintPow2k (shift + 32 - c - 1).

(** ** Control blocks (buddy.h) *)

Definition SHD_BUDDY_ORDER_BITS : Z := 5.
Definition SHD_BUDDY_ORDER_MASK : Z := 134217727.
Definition SHD_BUDDY_TAG_BITS : Z := 1.
Definition SHD_BUDDY_TAG_MASK : Z := 2147483647.
Definition SHD_BUDDY_POOL_MAX_NBYTES : Z := 134217728.
Definition SHD_BUDDY_PART_MIN_NBYTES : Z := 16.
Definition SHD_BUDDY_PART_MIN_ORDER : Z := 4.
Definition SHD_BUDDY_PART_MAX_ORDER : Z := 27.

Record BuddyControlBlock := mkBCB {
  _nxt : Z;
  _prv : Z;
}.

#[export] Instance bcb_eta : Eta BuddyControlBlock := fun b => mkBCB (_nxt b) (_prv b).

Definition sizeof_BCB : Z := 8.

Definition buddycontrolblock_order (b : BuddyControlBlock) : Z := Z.shiftr (_nxt b) (32 - SHD_BUDDY_ORDER_BITS).

Definition buddycontrolblock_setOrder (b : BuddyControlBlock) (value : Z) : option BuddyControlBlock :=
  if negb (value <? 32) then None else
  Some (b <| _nxt := Z.lor (Z.land (_nxt b) SHD_BUDDY_ORDER_MASK) (u32 (Z.shiftl value (32 - SHD_BUDDY_ORDER_BITS))) |>).

Definition buddycontrolblock_nxt (b : BuddyControlBlock) : Z := Z.land (_nxt b) SHD_BUDDY_ORDER_MASK.

Definition buddycontrolblock_setNxt (b : BuddyControlBlock) (value : Z) : option BuddyControlBlock :=
  if negb (value <=? SHD_BUDDY_ORDER_MASK) then None else
  Some (b <| _nxt := Z.lor (Z.land (_nxt b) (u32 (Z.lnot SHD_BUDDY_ORDER_MASK))) value |>).

Definition buddycontrolblock_tag (b : BuddyControlBlock) : bool := negb (Z.shiftr (_prv b) (32 - SHD_BUDDY_TAG_BITS) =? 0).

Definition buddycontrolblock_setTag (b : BuddyControlBlock) (value : bool) : BuddyControlBlock :=
  b <| _prv := Z.lor (Z.land (_prv b) SHD_BUDDY_TAG_MASK) (u32 (Z.shiftl (Z.b2z value) (32 - SHD_BUDDY_TAG_BITS))) |>.

Definition buddycontrolblock_prv (b : BuddyControlBlock) : Z := Z.land (_prv b) SHD_BUDDY_TAG_MASK.

Definition buddycontrolblock_setPrv (b : BuddyControlBlock) (value : Z) : option BuddyControlBlock :=
  if negb (value <=? SHD_BUDDY_TAG_MASK) then None else
  Some (b <| _prv := Z.lor (Z.land (_prv b) (u32 (Z.lnot SHD_BUDDY_TAG_MASK))) value |>).

(** The memory of the pool, as a control block every 8 bytes; 0 is [NULL]. *)
Abbreviation Mem := (gmap Z BuddyControlBlock).

Definition upd (m : Mem) (a : Z) (f : BuddyControlBlock → option BuddyControlBlock) : option Mem :=
  b ← m !! a; b ← f b; Some (<[a := b]> m).

Definition nxt_block (a : Z) (b : BuddyControlBlock) : Z :=
  let nxt := buddycontrolblock_nxt b in if nxt =? 0 then 0 else a + nxt.

Definition prv_block (a : Z) (b : BuddyControlBlock) : Z :=
  let prv := buddycontrolblock_prv b in if prv =? 0 then 0 else a - prv.

Definition buddycontrolblock_nxtBlock (m : Mem) (bcb : Z) : option Z := nxt_block bcb <$> m !! bcb.
Definition buddycontrolblock_prvBlock (m : Mem) (bcb : Z) : option Z := prv_block bcb <$> m !! bcb.

Definition buddycontrolblock_setNxtBlock (m : Mem) (bcb nxt : Z) : option Mem :=
  if negb (nxt =? 0) then
    if negb (bcb <=? nxt) then None else upd m bcb (λ b, buddycontrolblock_setNxt b (u32 (nxt - bcb)))
  else upd m bcb (λ b, buddycontrolblock_setNxt b 0).

Definition buddycontrolblock_setPrvBlock (m : Mem) (bcb prv : Z) : option Mem :=
  if negb (prv =? 0) then
    if negb (prv <=? bcb) then None else upd m bcb (λ b, buddycontrolblock_setPrv b (u32 (bcb - prv)))
  else upd m bcb (λ b, buddycontrolblock_setPrv b 0).

Definition buddy_retreiveBCB (p : Z) : Z := p - sizeof_BCB.

(** ** Pools (buddy.c) *)

Definition _buddycontrolblock_computeBuddy (bcb order pool : Z) : option Z :=
  s ← shmem_util_uintPow2k order;
  Some (Z.lxor (bcb - pool) s + pool).

Definition buddy_poolMaxOrder (pool_nbytes : Z) : Z := shmem_util_uintLog2 pool_nbytes.

Definition buddy_metaNumLists (pool_nbytes : Z) : Z := buddy_poolMaxOrder pool_nbytes - SHD_BUDDY_PART_MIN_ORDER + 1.

Definition buddy_goodPoolSizeNBytes (requested_nbytes : Z) : option Z :=
  if SHD_BUDDY_POOL_MAX_NBYTES <? requested_nbytes then Some 0
  else if requested_nbytes <? SHD_BUDDY_PART_MIN_NBYTES then Some SHD_BUDDY_PART_MIN_NBYTES
  else shmem_util_roundUpPow2 requested_nbytes.

Definition buddy_metaSizeNBytes (pool_nbytes : Z) : Z := buddy_metaNumLists pool_nbytes * 8.

Definition buddy_poolInit (m : Mem) (pool pool_nbytes : Z) : option Mem :=
  upd m pool (λ b,
    b ← buddycontrolblock_setNxt b 0;
    b ← buddycontrolblock_setPrv b 0;
    buddycontrolblock_setOrder (buddycontrolblock_setTag b true) (buddy_poolMaxOrder pool_nbytes)).

(** The heads of the lists; 0 is [NULL]. *)
Definition buddy_metaInit (pool pool_nbytes : Z) : list Z :=
  let nbcbs := Z.to_nat (buddy_metaNumLists pool_nbytes) in
  <[(nbcbs - 1)%nat := pool]> (replicate nbcbs 0).

(** The scan for the position in a list; [fuel] bounds its length. *)
Fixpoint insert_scan (fuel : nat) (m : Mem) (prv nxt bcb : Z) : option (Z * Z) :=
  if negb (nxt =? 0) && (nxt <? bcb) then
    match fuel with
    | O => None
    | S fuel =>
        prv ← buddycontrolblock_nxtBlock m prv;
        nxt ← buddycontrolblock_nxtBlock m nxt;
        insert_scan fuel m prv nxt bcb
    end
  else Some (prv, nxt).

Definition _buddy_listInsert (bcbs : list Z) (m : Mem) (idx bcb : Z) : option (list Z * Mem) :=
  prv ← bcbs !! Z.to_nat idx;
  if prv =? 0 then
    m ← upd m bcb (λ b, buddycontrolblock_setNxt b 0);
    m ← upd m bcb (λ b, buddycontrolblock_setPrv b 0);
    Some (<[Z.to_nat idx := bcb]> bcbs, m)
  else
    nxt ← buddycontrolblock_nxtBlock m prv;
    if bcb <? prv then
      m ← upd m bcb (λ b, buddycontrolblock_setPrv b 0);
      m ← buddycontrolblock_setNxtBlock m bcb prv;
      m ← buddycontrolblock_setPrvBlock m prv bcb;
      Some (<[Z.to_nat idx := bcb]> bcbs, m)
    else
      '(prv, nxt) ← insert_scan (size m) m prv nxt bcb;
      if negb (negb (prv =? 0) && (prv <? bcb)) || negb ((nxt =? 0) || (bcb <? nxt)) then None else
      m ← buddycontrolblock_setNxtBlock m prv bcb;
      m ← buddycontrolblock_setPrvBlock m bcb prv;
      m ← buddycontrolblock_setNxtBlock m bcb nxt;
      m ← (if negb (nxt =? 0) then buddycontrolblock_setPrvBlock m nxt bcb else Some m);
      Some (bcbs, m).

(** The assertions on a neighbour. *)
Definition same_list (m : Mem) (order a : Z) : bool :=
  match m !! a with
  | Some b => (order =? buddycontrolblock_order b) && buddycontrolblock_tag b
  | None => false
  end.

Definition _buddy_listRemove (bcbs : list Z) (m : Mem) (idx bcb : Z) : option (list Z * Mem) :=
  b ← m !! bcb;
  let order := buddycontrolblock_order b in
  nxt ← buddycontrolblock_nxtBlock m bcb;
  head ← bcbs !! Z.to_nat idx;
  if head =? bcb then
    let bcbs := <[Z.to_nat idx := nxt]> bcbs in
    if negb (nxt =? 0) then
      if negb (same_list m order nxt) then None else
      m ← buddycontrolblock_setPrvBlock m nxt 0;
      Some (bcbs, m)
    else Some (bcbs, m)
  else
    prv ← buddycontrolblock_prvBlock m bcb;
    if (prv =? 0) || negb (same_list m order prv) then None else
    m ← buddycontrolblock_setNxtBlock m prv nxt;
    if negb (nxt =? 0) then
      if negb (same_list m order nxt) then None else
      m ← buddycontrolblock_setPrvBlock m nxt prv;
      Some (bcbs, m)
    else Some (bcbs, m).

(** [n] is how often the block is halved: [j - k]. *)
Fixpoint split_blocks (n : nat) (bcb j : Z) (bcbs : list Z) (m : Mem) : option (list Z * Mem) :=
  match n with
  | O => Some (bcbs, m)
  | S n =>
      let j := j - 1 in
      s ← shmem_util_uintPow2k j;
      let split := bcb + s in
      m ← upd m split (λ b, Some (buddycontrolblock_setTag b true));
      m ← upd m split (λ b, buddycontrolblock_setOrder b j);
      '(bcbs, m) ← _buddy_listInsert bcbs m (j - SHD_BUDDY_PART_MIN_ORDER) split;
      split_blocks n bcb j bcbs m
  end.

Definition _buddy_alloc_split_blocks (bcb k j : Z) (bcbs : list Z) (m : Mem) : option (list Z * Mem) :=
  if bcb =? 0 then None else split_blocks (Z.to_nat (j - k)) bcb j bcbs m.

(** The first list from [idx] on that is not empty; [n] lists are left. *)
Fixpoint first_avail (n : nat) (bcbs : list Z) (idx : Z) : option Z :=
  match n with
  | O => Some idx
  | S n =>
      avail ← bcbs !! Z.to_nat idx;
      if avail =? 0 then first_avail n bcbs (idx + 1) else Some idx
  end.

(** The address is 0 when there is no block.  [None] is also a read behind the
    last list. *)
Definition buddy_alloc (requested_nbytes : Z) (bcbs : list Z) (m : Mem) (pool_nbytes : Z)
    : option (list Z * Mem * Z) :=
  if requested_nbytes =? 0 then Some (bcbs, m, 0) else
  let nbcbs := buddy_metaNumLists pool_nbytes in
  alloc_nbytes ← shmem_util_roundUpPow2 (u32 (requested_nbytes + sizeof_BCB));
  let k := shmem_util_uintLog2 alloc_nbytes in
  let start_idx := k - SHD_BUDDY_PART_MIN_ORDER in
  if start_idx <? 0 then None else
  idx ← first_avail (Z.to_nat (nbcbs - start_idx)) bcbs start_idx;
  if idx =? nbcbs then Some (bcbs, m, 0) else
  ret ← bcbs !! Z.to_nat idx;
  '(bcbs, m) ← _buddy_alloc_split_blocks ret k (idx + SHD_BUDDY_PART_MIN_ORDER) bcbs m;
  '(bcbs, m) ← _buddy_listRemove bcbs m idx ret;
  m ← upd m ret (λ b, buddycontrolblock_setOrder (buddycontrolblock_setTag b false) k);
  Some (bcbs, m, ret + sizeof_BCB).

Definition _buddycontrolblock_buddy_available (m : Mem) (buddy order : Z) : option bool :=
  b ← m !! buddy;
  Some (buddycontrolblock_tag b && (buddycontrolblock_order b =? order)).

(** The loop that joins a block with its buddy; [n] orders are left. *)
Fixpoint coalesce (n : nat) (bcbs : list Z) (m : Mem) (pool bcb bcb_order buddy : Z)
    : option (list Z * Mem * Z * Z) :=
  match n with
  | O => Some (bcbs, m, bcb, bcb_order)
  | S n =>
      available ← _buddycontrolblock_buddy_available m buddy bcb_order;
      if available : bool then
        '(bcbs, m) ← _buddy_listRemove bcbs m (bcb_order - SHD_BUDDY_PART_MIN_ORDER) buddy;
        let bcb := if bcb <? buddy then bcb else buddy in
        let bcb_order := bcb_order + 1 in
        m ← upd m bcb (λ b, buddycontrolblock_setOrder b bcb_order);
        buddy ← _buddycontrolblock_computeBuddy bcb bcb_order pool;
        coalesce n bcbs m pool bcb bcb_order buddy
      else Some (bcbs, m, bcb, bcb_order)
  end.

Definition buddy_free (p : Z) (bcbs : list Z) (m : Mem) (pool pool_nbytes : Z) : option (list Z * Mem) :=
  if p =? 0 then Some (bcbs, m) else
  let bcb := buddy_retreiveBCB p in
  b ← m !! bcb;
  let bcb_order := buddycontrolblock_order b in
  let max_order := buddy_poolMaxOrder pool_nbytes in
  buddy ← _buddycontrolblock_computeBuddy bcb bcb_order pool;
  '(bcbs, m, bcb, bcb_order) ← coalesce (Z.to_nat (max_order - bcb_order)) bcbs m pool bcb bcb_order buddy;
  m ← upd m bcb (λ b, Some (buddycontrolblock_setTag b true));
  _buddy_listInsert bcbs m (bcb_order - SHD_BUDDY_PART_MIN_ORDER) bcb.

(** ** The fields of a control block *)

Definition pack (o n : Z) (t : bool) (p : Z) : BuddyControlBlock :=
  mkBCB (o * 2 ^ 27 + n) (Z.b2z t * 2 ^ 31 + p).

Definition bcb_wf (b : BuddyControlBlock) : Prop := 0 ≤ _nxt b < 2 ^ 32 ∧ 0 ≤ _prv b < 2 ^ 32.

Lemma shiftr_word hi lo k : 0 ≤ k → 0 ≤ lo < 2 ^ k → Z.shiftr (hi * 2 ^ k + lo) k = hi.
Proof. intros. rewrite Z.shiftr_div_pow2, Z.add_comm, Z.div_add, Z.div_small by lia. lia. Qed.

Lemma land_word hi lo k : 0 ≤ k → 0 ≤ lo < 2 ^ k → Z.land (hi * 2 ^ k + lo) (Z.ones k) = lo.
Proof. intros. rewrite Z.land_ones, Z.add_comm, Z.mod_add, Z.mod_small by lia. lia. Qed.

Lemma lor_word hi lo k : 0 ≤ k → 0 ≤ lo < 2 ^ k → Z.lor lo (hi * 2 ^ k) = hi * 2 ^ k + lo.
Proof.
  intros Hk Hlo. assert (H : Z.land lo (hi * 2 ^ k) = 0).
  { apply Z.bits_inj'. intros i Hi. rewrite Z.land_spec, Z.bits_0.
    destruct (decide (i < k)); [by rewrite Z.mul_pow2_bits_low, andb_false_r by lia|].
    rewrite <-(Z.mod_small lo (2 ^ k)), Z.mod_pow2_bits_high by lia. done. }
  rewrite <-Z.lxor_lor, <-Z.add_nocarry_lxor by done. lia.
Qed.

Lemma land_high hi lo k w : 0 ≤ k → 0 ≤ w → 0 ≤ lo < 2 ^ k → 0 ≤ hi < 2 ^ w →
  Z.land (hi * 2 ^ k + lo) (Z.ones w * 2 ^ k) = hi * 2 ^ k.
Proof.
  intros. apply Z.bits_inj'. intros i Hi. rewrite Z.land_spec.
  destruct (decide (i < k)); [by rewrite !Z.mul_pow2_bits_low, andb_false_r by lia|].
  rewrite !Z.mul_pow2_bits by lia.
  replace (Z.testbit (hi * 2 ^ k + lo) i) with (Z.testbit hi (i - k)).
  - rewrite <-Z.land_spec, Z.land_ones, Z.mod_small by lia. done.
  - transitivity (Z.testbit (Z.shiftr (hi * 2 ^ k + lo) k) (i - k)); [by rewrite shiftr_word by lia|].
    rewrite Z.shiftr_spec by lia. f_equal. lia.
Qed.

Lemma pack_eta b : bcb_wf b →
  b = pack (buddycontrolblock_order b) (buddycontrolblock_nxt b) (buddycontrolblock_tag b) (buddycontrolblock_prv b) ∧
  0 ≤ buddycontrolblock_order b < 32 ∧ 0 ≤ buddycontrolblock_nxt b < 2 ^ 27 ∧ 0 ≤ buddycontrolblock_prv b < 2 ^ 31.
Proof.
  destruct b as [n p]. intros [Hn Hp]; cbn [_nxt _prv] in *.
  unfold buddycontrolblock_order, buddycontrolblock_nxt, buddycontrolblock_tag, buddycontrolblock_prv, pack.
  cbn [_nxt _prv]. change SHD_BUDDY_ORDER_MASK with (Z.ones 27). change SHD_BUDDY_TAG_MASK with (Z.ones 31).
  change (32 - SHD_BUDDY_ORDER_BITS) with 27. change (32 - SHD_BUDDY_TAG_BITS) with 31.
  rewrite !Z.land_ones, !Z.shiftr_div_pow2 by lia.
  pose proof (Z.div_mod n (2 ^ 27) ltac:(lia)). pose proof (Z.div_mod p (2 ^ 31) ltac:(lia)).
  pose proof (Z.mod_pos_bound n (2 ^ 27) ltac:(lia)). pose proof (Z.mod_pos_bound p (2 ^ 31) ltac:(lia)).
  assert (0 ≤ p / 2 ^ 31 < 2) by lia.
  assert (Z.b2z (negb (p / 2 ^ 31 =? 0)) = p / 2 ^ 31)
    by (destruct (Z.eqb_spec (p / 2 ^ 31) 0); simpl; lia).
  split; [f_equal|]; lia.
Qed.

Section Pack.
Context (o n : Z) (t : bool) (p : Z).
Context (Ho : 0 ≤ o < 32) (Hn : 0 ≤ n < 2 ^ 27) (Hp : 0 ≤ p < 2 ^ 31).

Lemma pack_wf : bcb_wf (pack o n t p).
Proof. unfold bcb_wf, pack; cbn [_nxt _prv]. destruct t; simpl Z.b2z; lia. Qed.

Lemma pack_order : buddycontrolblock_order (pack o n t p) = o.
Proof. apply (shiftr_word o n 27); lia. Qed.

Lemma pack_nxt : buddycontrolblock_nxt (pack o n t p) = n.
Proof. apply (land_word o n 27); lia. Qed.

Lemma pack_tag : buddycontrolblock_tag (pack o n t p) = t.
Proof.
  unfold buddycontrolblock_tag, pack; cbn [_prv]. change (32 - SHD_BUDDY_TAG_BITS) with 31.
  rewrite shiftr_word by lia. by destruct t.
Qed.

Lemma pack_prv : buddycontrolblock_prv (pack o n t p) = p.
Proof. apply (land_word (Z.b2z t) p 31); lia. Qed.

Lemma pack_setOrder o' : 0 ≤ o' < 32 →
  buddycontrolblock_setOrder (pack o n t p) o' = Some (pack o' n t p).
Proof.
  intros Ho'. unfold buddycontrolblock_setOrder. rewrite (proj2 (Z.ltb_lt o' 32)) by lia. cbn [negb].
  unfold pack. cbn. do 2 f_equal. change SHD_BUDDY_ORDER_MASK with (Z.ones 27).
  change (32 - SHD_BUDDY_ORDER_BITS) with 27. change 134217728 with (2 ^ 27).
  rewrite (land_word o n 27), Z.shiftl_mul_pow2, u32_small by lia. by rewrite lor_word by lia.
Qed.

Lemma pack_setNxt n' : 0 ≤ n' < 2 ^ 27 →
  buddycontrolblock_setNxt (pack o n t p) n' = Some (pack o n' t p).
Proof.
  intros Hn'. unfold buddycontrolblock_setNxt. rewrite (proj2 (Z.leb_le _ _)) by (unfold SHD_BUDDY_ORDER_MASK; lia).
  cbn [negb]. unfold pack. cbn. do 2 f_equal.
  change (u32 _) with (Z.ones 5 * 2 ^ 27). change 134217728 with (2 ^ 27).
  rewrite land_high, Z.lor_comm, lor_word by lia. done.
Qed.

Lemma pack_setTag t' : buddycontrolblock_setTag (pack o n t p) t' = pack o n t' p.
Proof.
  unfold buddycontrolblock_setTag, pack. cbn. f_equal. change SHD_BUDDY_TAG_MASK with (Z.ones 31).
  change (32 - SHD_BUDDY_TAG_BITS) with 31. change 2147483648 with (2 ^ 31).
  rewrite (land_word (Z.b2z t) p 31), Z.shiftl_mul_pow2, u32_small by (destruct t'; simpl Z.b2z; lia).
  by rewrite lor_word by lia.
Qed.

Lemma pack_setPrv p' : 0 ≤ p' < 2 ^ 31 →
  buddycontrolblock_setPrv (pack o n t p) p' = Some (pack o n t p').
Proof.
  intros Hp'. unfold buddycontrolblock_setPrv. rewrite (proj2 (Z.leb_le _ _)) by (unfold SHD_BUDDY_TAG_MASK; lia).
  cbn [negb]. unfold pack. cbn. do 2 f_equal.
  change (u32 _) with (Z.ones 1 * 2 ^ 31). change 2147483648 with (2 ^ 31).
  rewrite land_high, Z.lor_comm, lor_word by (destruct t; simpl Z.b2z; lia). done.
Qed.
End Pack.

(** ** Logarithms and powers *)

Lemma log_table_log2 t : 0 < t < 256 → log_table t = Z.log2 t.
Proof.
  intros Ht.
  assert (H : forallb (λ i, log_table (Z.of_nat i) =? Z.log2 (Z.of_nat i)) (seq 1 255) = true) by (vm_compute; reflexivity).
  rewrite forallb_forall in H. specialize (H (Z.to_nat t)).
  rewrite Z2Nat.id, Z.eqb_eq in H by lia. apply H, in_seq. lia.
Qed.

(** The table gives the logarithm rounded down. *)
Lemma uintLog2_log2 v : 0 < v < 2 ^ 32 → shmem_util_uintLog2 v = Z.log2 v.
Proof.
  intros Hv.
  assert (S : ∀ k, 0 ≤ k → Z.shiftr v k ≠ 0 → k + Z.log2 (Z.shiftr v k) = Z.log2 v).
  { intros k Hk Hne. pose proof (proj2 (Z.shiftr_nonneg v k) ltac:(lia)).
    rewrite Z.log2_shiftr by lia.
    assert (k ≤ Z.log2 v); [|lia]. apply Z.log2_le_pow2; [lia|].
    rewrite Z.shiftr_div_pow2 in Hne by lia. destruct (decide (2 ^ k ≤ v)); [done|].
    rewrite Z.div_small in Hne; lia. }
  pose proof (Z.log2_lt_pow2 v 32 ltac:(lia)). pose proof (Z.log2_nonneg v).
  pose proof (S 24 ltac:(lia)). pose proof (S 16 ltac:(lia)). pose proof (S 8 ltac:(lia)). clear S.
  unfold shmem_util_uintLog2. cbn zeta. rewrite Z.shiftr_shiftr by lia. change (16 + 8) with 24.
  assert (0 ≤ Z.shiftr v 24 < 256 ∧ (Z.shiftr v 24 = 0 → 0 ≤ Z.shiftr v 16 < 256) ∧
          (Z.shiftr v 16 = 0 → 0 ≤ Z.shiftr v 8 < 256) ∧ (Z.shiftr v 8 = 0 → v < 256))
    by (rewrite !Z.shiftr_div_pow2 by lia; Z.to_euclidean_division_equations; lia).
  repeat (case_match; rewrite ?negb_true_iff, ?negb_false_iff, ?Z.eqb_eq, ?Z.eqb_neq in *);
    rewrite log_table_log2 by lia; rewrite u32_small by lia; lia.
Qed.
Lemma popcount_filter x l :
  foldr (λ i n, n + (if Z.testbit x (Z.of_nat i) then 1 else 0)) 0 l =
  Z.of_nat (length (filter (λ i, Z.testbit x (Z.of_nat i) = true) l)).
Proof.
  induction l as [|i l IH]; [done|]. cbn [foldr]. rewrite IH, filter_cons.
  repeat case_match; cbn [length]; try congruence; lia.
Qed.

(** Exactly the powers of two have one bit. *)
Lemma popcount_1 x : 0 < x < 2 ^ 32 → popcount x = 1 ↔ x = 2 ^ Z.log2 x.
Proof.
  intros Hx. pose proof (Z.log2_lt_pow2 x 32 ltac:(lia)). pose proof (Z.log2_nonneg x). split.
  - unfold popcount. rewrite popcount_filter. intros Hl.
    destruct (filter _ _) as [|j [|j' l]] eqn:E; cbn [length] in Hl; try lia.
    assert (Hb : ∀ i, (i < 32)%nat → Z.testbit x (Z.of_nat i) = true → i = j).
    { intros i Hi Ht. apply list_elem_of_singleton. rewrite <-E. apply list_elem_of_filter.
      split; [done|]. apply elem_of_seq. lia. }
    pose proof (Hb (Z.to_nat (Z.log2 x)) ltac:(lia)) as Hj. rewrite Z2Nat.id in Hj by lia.
    specialize (Hj (Z.bit_log2 x ltac:(lia))).
    apply Z.bits_inj'. intros i Hi. rewrite Z.pow2_bits_eqb by lia.
    destruct (Z.eqb_spec (Z.log2 x) i) as [<-|]; [apply Z.bit_log2; lia|].
    destruct (Z.testbit x i) eqn:Ei; [|done].
    assert (i ≤ Z.log2 x) by (destruct (decide (Z.log2 x < i)); [by rewrite Z.bits_above_log2 in Ei by lia|lia]).
    pose proof (Hb (Z.to_nat i) ltac:(lia)) as Hi'. rewrite Z2Nat.id in Hi' by lia. specialize (Hi' Ei). lia.
  - intros ->. set (j := Z.log2 x) in *.
    assert (F : forallb (λ i, popcount (2 ^ Z.of_nat i) =? 1) (seq 0 32) = true) by (vm_compute; reflexivity).
    rewrite forallb_forall in F. specialize (F (Z.to_nat j)). rewrite Z2Nat.id, Z.eqb_eq in F by lia.
    apply F, in_seq. lia.
Qed.

Lemma uintPow2k_Some k : 0 ≤ k < 31 → shmem_util_uintPow2k k = Some (2 ^ k).
Proof.
  intros Hk. unfold shmem_util_uintPow2k.
  rewrite (proj2 (Z.leb_le 0 k)), (proj2 (Z.ltb_lt k 31)), Z.shiftl_mul_pow2, Z.mul_1_l by lia. done.
Qed.

(** The bit tricks give the least power of two that is not smaller. *)
Lemma roundUpPow2_log2_up x : 0 < x ≤ 2 ^ 30 → shmem_util_roundUpPow2 x = Some (2 ^ Z.log2_up x).
Proof.
  intros Hx. unfold shmem_util_roundUpPow2, clz. rewrite (proj2 (Z.eqb_neq x 0)) by lia. cbn [mbind option_bind].
  pose proof (popcount_1 x ltac:(lia)) as Hp. pose proof (Z.log2_nonneg x).
  pose proof (Z.log2_log2_up_exact x ltac:(lia)) as Hex.
  pose proof (Z.le_log2_log2_up x). pose proof (Z.le_log2_up_succ_log2 x).
  assert (Z.log2_up x ≤ 30) by (change 30 with (Z.log2_up (2 ^ 30)); apply Z.log2_up_le_mono; lia).
  destruct (Z.eqb_spec (popcount x) 1) as [E|E]; cbn [negb].
  - apply Hp in E. assert (Z.log2 x = Z.log2_up x) by (apply Hex; by exists (Z.log2 x)).
    rewrite uintPow2k_Some by lia. do 2 f_equal. lia.
  - assert (Z.log2 x ≠ Z.log2_up x).
    { intros Eq. apply Hex in Eq as [b Eb]. apply E, Hp. rewrite Eb at 1. f_equal.
      rewrite Eb. symmetry. apply Z.log2_pow2. destruct (decide (0 ≤ b)); [done|].
      rewrite Z.pow_neg_r in Eb; lia. }
    rewrite uintPow2k_Some by lia. do 2 f_equal. lia.
Qed.


End Buddy.
