(* ===== verification/BuddyLists.v ===== *)
(** * The free lists of the buddy allocator
    (src/phantom/src/main/shmem/buddy.c, buddy.h)

    A free list is a segment of memory: blocks of one order, in the order of
    their addresses, linked both ways by distances.  Here the operations that
    insert and remove a block are shown to succeed on such lists, to leave a
    list again, and to touch nothing but the blocks of that list. *)

From S2P Require Import Prelude.
From S2P Require Import Buddy.

Module BuddyLists.
Import Buddy.

(** ** Nodes *)

Definition hdr (m : Mem) (x o : Z) (t : bool) : Prop :=
  ∃ b, m !! x = Some b ∧ bcb_wf b ∧ buddycontrolblock_order b = o ∧ buddycontrolblock_tag b = t.

Definition node (m : Mem) (x o : Z) (t : bool) (n p : Z) : Prop :=
  ∃ b, m !! x = Some b ∧ bcb_wf b ∧ buddycontrolblock_order b = o ∧ buddycontrolblock_tag b = t ∧
    nxt_block x b = n ∧ prv_block x b = p.

Lemma node_hdr m x o t n p : node m x o t n p → hdr m x o t.
Proof. intros (b & ? & ? & ? & ? & _). by exists b. Qed.

Lemma hdr_node m x o t : hdr m x o t → ∃ n p, node m x o t n p.
Proof. intros (b & ? & ? & ? & ?). eexists _, _. exists b. done. Qed.

Lemma hdr_det m x o t o' t' : hdr m x o t → hdr m x o' t' → o = o' ∧ t = t'.
Proof. intros (b & ? & ? & ? & ?) (b' & ? & ? & ? & ?). simplify_eq. done. Qed.

Lemma hdr_order m x o t : hdr m x o t → 0 ≤ o < 32.
Proof. intros (b & _ & Hb & <- & _). apply pack_eta in Hb. tauto. Qed.

Lemma node_frame m m' x o t n p : m' !! x = m !! x → node m x o t n p → node m' x o t n p.
Proof. unfold node. by intros ->. Qed.

Lemma hdr_frame m m' x o t : m' !! x = m !! x → hdr m x o t → hdr m' x o t.
Proof. unfold hdr. by intros ->. Qed.

(** The memory changes at most at [l], and no header changes. *)
Definition frame (l : list Z) (m m' : Mem) : Prop :=
  (∀ x, x ∉ l → m' !! x = m !! x) ∧ (∀ x o t, hdr m x o t → hdr m' x o t).

Lemma frame_refl l m : frame l m m.
Proof. done. Qed.

Lemma frame_trans l m1 m2 m3 : frame l m1 m2 → frame l m2 m3 → frame l m1 m3.
Proof.
  intros [E1 H1] [E2 H2]. split; [|by eauto].
  intros x Hx. by rewrite E2, E1.
Qed.

Lemma frame_weaken l l' m m' : l ⊆ l' → frame l m m' → frame l' m m'.
Proof. intros Hl [E H]. split; [|done]. intros x Hx. apply E. auto. Qed.

(** One word of a block changes. *)
Lemma frame_upd m x b o t n p n' p' :
  node m x o t n p → node (<[x := b]> m) x o t n' p' → frame [x] m (<[x := b]> m).
Proof.
  intros Hn Hn'%node_hdr. apply node_hdr in Hn. split.
  - intros y Hy. rewrite lookup_insert_ne; [done|]. intros ->. apply Hy. by left.
  - intros y o' t' Hy. destruct (decide (y = x)) as [->|].
    + by destruct (hdr_det _ _ _ _ _ _ Hn Hy) as [-> ->].
    + eapply hdr_frame; [|done]. by rewrite lookup_insert_ne.
Qed.

Section Links.
Context (m : Mem) (x o : Z) (t : bool) (n p : Z) (Hx : 0 < x) (N : node m x o t n p).

Lemma setNxtBlock_node n' : n' = 0 ∨ x < n' < x + 2 ^ 27 →
  ∃ m', buddycontrolblock_setNxtBlock m x n' = Some m' ∧ node m' x o t n' p ∧ frame [x] m m'.
Proof.
  intros Hn'. pose proof N as (b & Hb & W & Ho & Ht & En & Ep).
  destruct (pack_eta b W) as (E & Ro & Rn & Rp).
  set (d := if n' =? 0 then 0 else n' - x).
  set (b' := pack (buddycontrolblock_order b) d (buddycontrolblock_tag b) (buddycontrolblock_prv b)).
  assert (Hd : 0 ≤ d < 2 ^ 27) by (unfold d; destruct (Z.eqb_spec n' 0); lia).
  assert (Hn : node (<[x := b']> m) x o t n' p).
  { exists b'. rewrite lookup_insert_eq. unfold b', nxt_block, prv_block in *.
    rewrite pack_order, pack_tag, pack_nxt, pack_prv by done. do 4 (split; [by try apply pack_wf|]).
    split; [|done]. unfold d. repeat case_match; rewrite ?Z.eqb_eq, ?Z.eqb_neq in *; lia. }
  exists (<[x := b']> m). split; [|by eauto using frame_upd].
  unfold buddycontrolblock_setNxtBlock, upd. rewrite Hb. cbn [mbind option_bind].
  assert (Hs : buddycontrolblock_setNxt b d = Some b') by (rewrite E at 1; by apply pack_setNxt).
  unfold d in *. destruct (Z.eqb_spec n' 0); cbn [negb]; [by rewrite Hs|].
  rewrite (proj2 (Z.leb_le _ _)), u32_small by lia. cbn [negb]. by rewrite Hs.
Qed.

Lemma setPrvBlock_node p' : p' = 0 ∨ x - 2 ^ 27 < p' < x →
  ∃ m', buddycontrolblock_setPrvBlock m x p' = Some m' ∧ node m' x o t n p' ∧ frame [x] m m'.
Proof.
  intros Hp'. pose proof N as (b & Hb & W & Ho & Ht & En & Ep).
  destruct (pack_eta b W) as (E & Ro & Rn & Rp).
  set (d := if p' =? 0 then 0 else x - p').
  set (b' := pack (buddycontrolblock_order b) (buddycontrolblock_nxt b) (buddycontrolblock_tag b) d).
  assert (Hd : 0 ≤ d < 2 ^ 31) by (unfold d; destruct (Z.eqb_spec p' 0); lia).
  assert (Hn : node (<[x := b']> m) x o t n p').
  { exists b'. rewrite lookup_insert_eq. unfold b', nxt_block, prv_block in *.
    rewrite pack_order, pack_tag, pack_nxt, pack_prv by done. do 5 (split; [by try apply pack_wf|]).
    unfold d. repeat case_match; rewrite ?Z.eqb_eq, ?Z.eqb_neq in *; lia. }
  exists (<[x := b']> m). split; [|by eauto using frame_upd].
  unfold buddycontrolblock_setPrvBlock, upd. rewrite Hb. cbn [mbind option_bind].
  assert (Hs : buddycontrolblock_setPrv b d = Some b') by (rewrite E at 1; by apply pack_setPrv).
  unfold d in *. destruct (Z.eqb_spec p' 0); cbn [negb]; [by rewrite Hs|].
  rewrite (proj2 (Z.leb_le _ _)), u32_small by lia. cbn [negb]. by rewrite Hs.
Qed.

Lemma nxtBlock_node : buddycontrolblock_nxtBlock m x = Some n.
Proof using N. destruct N as (b & Hb & _ & _ & _ & <- & _). unfold buddycontrolblock_nxtBlock. by rewrite Hb. Qed.

Lemma prvBlock_node : buddycontrolblock_prvBlock m x = Some p.
Proof using N. destruct N as (b & Hb & _ & _ & _ & _ & <-). unfold buddycontrolblock_prvBlock. by rewrite Hb. Qed.
End Links.

(** A header is rewritten. *)
Lemma upd_hdr m x o t f o' t' : hdr m x o t →
  (∀ n p, 0 ≤ n < 2 ^ 27 → 0 ≤ p < 2 ^ 31 → f (pack o n t p) = Some (pack o' n t' p)) → 0 ≤ o' < 32 →
  ∃ b, upd m x f = Some (<[x := b]> m) ∧ hdr (<[x := b]> m) x o' t'.
Proof.
  intros (b & Hb & W & <- & <-) Hf Ho'. destruct (pack_eta b W) as (E & Ro & Rn & Rp).
  eexists. unfold upd. rewrite Hb. cbn [mbind option_bind]. rewrite E at 1. rewrite Hf by done.
  split; [done|]. eexists. rewrite lookup_insert_eq. split; [done|].
  rewrite pack_order, pack_tag by done. split; [by apply pack_wf|done].
Qed.
(** ** Segments *)

Definition hdz (d : Z) (l : list Z) : Z := default d (head l).
Definition lastz (d : Z) (l : list Z) : Z := default d (last l).

(** The blocks [l] of order [o] are linked; the first links back to [p], the
    last links on to [n]. *)
Fixpoint seg (o : Z) (m : Mem) (p : Z) (l : list Z) (n : Z) : Prop :=
  match l with
  | [] => True
  | x :: l' => node m x o true (hdz n l') p ∧ seg o m x l' n
  end.

Lemma lastz_app d l1 l2 : lastz d (l1 ++ l2) = lastz (lastz d l1) l2.
Proof. unfold lastz. rewrite last_app. by destruct (last l2). Qed.

Lemma lastz_cons d x l : lastz d (x :: l) = lastz x l.
Proof. apply (lastz_app d [x] l). Qed.

Lemma hdz_cons d x l : hdz d (x :: l) = x.
Proof. done. Qed.

Lemma hdz_app d l1 l2 : hdz d (l1 ++ l2) = hdz (hdz d l2) l1.
Proof. by destruct l1. Qed.

Lemma seg_app o m p l1 l2 n :
  seg o m p (l1 ++ l2) n ↔ seg o m p l1 (hdz n l2) ∧ seg o m (lastz p l1) l2 n.
Proof.
  revert p. induction l1 as [|x l1 IH]; intros p; [by cbn; tauto|].
  cbn [seg app]. rewrite hdz_app, IH, lastz_cons. tauto.
Qed.

Lemma seg_frame o m m' p l n : (∀ x, x ∈ l → m' !! x = m !! x) → seg o m p l n → seg o m' p l n.
Proof.
  revert p. induction l as [|x l IH]; intros p Hm; [done|]. intros [Hx Hl]. split.
  - eapply node_frame; [|done]. apply Hm. by left.
  - apply IH; [|done]. intros y Hy. apply Hm. by right.
Qed.

Lemma seg_hdr o m p l n x : seg o m p l n → x ∈ l → hdr m x o true.
Proof.
  revert p. induction l as [|y l IH]; intros p; [by intros _ ?%not_elem_of_nil|].
  intros [Hy Hl] [->|Hx]%elem_of_cons; [by eapply node_hdr|by eapply IH].
Qed.

Section Ops.
Context (pool : Z) (Hpool : 0 < pool).

Definition inp (x : Z) : Prop := pool ≤ x < pool + 2 ^ 27.

(** The back link of the first block is set, if there is one. *)
Lemma seg_setPrv o m p l n p' : Forall inp l → NoDup l → seg o m p l n → p' = 0 ∨ inp p' →
  (∀ x, x ∈ l → p' < x) → l ≠ [] →
  ∃ m', buddycontrolblock_setPrvBlock m (hdz 0 l) p' = Some m' ∧ seg o m' p' l n ∧ frame l m m'.
Proof.
  destruct l as [|x l]; [done|]. intros [Ix _]%Forall_cons [Nx _]%NoDup_cons [Hx Hl] Hp' Hlt _.
  specialize (Hlt x ltac:(by left)). unfold inp in *. cbn [hdz head default].
  destruct (setPrvBlock_node m x o true _ _ ltac:(lia) Hx p') as (m' & E & Hx' & F); [lia|].
  exists m'. split; [done|]. split.
  - split; [done|]. eapply seg_frame; [|done]. intros y Hy. apply F. intros ->%list_elem_of_singleton. done.
  - eapply frame_weaken; [|done]. intros y ->%list_elem_of_singleton. by left.
Qed.

(** The forward link of the last block is set. *)
Lemma seg_setNxt o m p l x n n' : inp x → x ∉ l → seg o m p (l ++ [x]) n → n' = 0 ∨ inp n' ∧ x < n' →
  ∃ m', buddycontrolblock_setNxtBlock m x n' = Some m' ∧ seg o m' p (l ++ [x]) n' ∧ frame [x] m m'.
Proof.
  intros Ix Nx [Hl [Hx _]]%seg_app Hn'. unfold inp in *.
  destruct (setNxtBlock_node m x o true _ _ ltac:(lia) Hx n') as (m' & E & Hx' & F); [lia|].
  exists m'. split; [done|]. split; [|done]. apply seg_app. split; [|by split].
  eapply seg_frame; [|done]. intros y Hy. apply F. by intros ->%list_elem_of_singleton.
Qed.

(** What both operations end with: the link back to the new neighbour. *)
Definition link_back (m : Mem) (nxt p : Z) : option Mem :=
  if negb (nxt =? 0) then buddycontrolblock_setPrvBlock m nxt p else Some m.

Lemma link_back_seg o m p l p' : Forall inp l → NoDup l → seg o m p l 0 → p' = 0 ∨ inp p' →
  (∀ x, x ∈ l → p' < x) →
  ∃ m', link_back m (hdz 0 l) p' = Some m' ∧ seg o m' p' l 0 ∧ frame l m m'.
Proof.
  intros Hl Nl S Hp' Hlt. unfold link_back. destruct (decide (l = [])) as [->|Ne].
  - exists m. done.
  - destruct (seg_setPrv o m p l 0 p') as (m' & E & S' & F); try done.
    exists m'. split; [|done]. destruct l as [|x l]; [done|]. rewrite hdz_cons in *.
    apply Forall_cons in Hl as [Ix _]. unfold inp in Ix. by rewrite (proj2 (Z.eqb_neq x 0)) by lia.
Qed.

Lemma same_list_hdr m x o : hdr m x o true → same_list m o x = true.
Proof. intros (b & Hb & _ & Ho & Ht). unfold same_list. by rewrite Hb, Ho, Ht, Z.eqb_refl. Qed.

Lemma sorted_app l1 l2 : StronglySorted Z.lt (l1 ++ l2) →
  StronglySorted Z.lt l1 ∧ StronglySorted Z.lt l2 ∧ (∀ x y, x ∈ l1 → y ∈ l2 → x < y).
Proof.
  induction l1 as [|x l1 IH]; cbn [app]; [split; [constructor|]; split; [done|]; by intros ?? ?%not_elem_of_nil|].
  intros [Hs Hx]%StronglySorted_inv. destruct (IH Hs) as (H1 & H2 & H3). rewrite Forall_app, !Forall_forall in Hx.
  split; [constructor; [done|]; rewrite Forall_forall; tauto|]. split; [done|].
  intros a y [->|Ha]%elem_of_cons Hy; [by apply Hx|by apply H3].
Qed.

Lemma sorted_NoDup l : StronglySorted Z.lt l → NoDup l.
Proof.
  induction 1 as [|x l Hs IH Hx]; constructor; [|done]. rewrite Forall_forall in Hx.
  intros Hin. specialize (Hx x Hin). lia.
Qed.

Lemma sorted_mid l1 x l2 : StronglySorted Z.lt (l1 ++ x :: l2) →
  StronglySorted Z.lt (l1 ++ l2) ∧ (∀ y, y ∈ l1 → y < x) ∧ (∀ y, y ∈ l2 → x < y).
Proof.
  intros Hs. destruct (sorted_app _ _ Hs) as (H1 & [H2 H3]%StronglySorted_inv & H4). rewrite Forall_forall in H3.
  split; [|split]; [|by intros y Hy; apply H4; [done|left]|done].
  clear Hs. induction l1 as [|a l1 IH]; [done|]. apply StronglySorted_inv in H1 as [H1 Ha]. cbn. constructor.
  - apply IH; [done|]. intros u v Hu Hv. apply H4; [by right|done].
  - rewrite Forall_app. split; [done|]. apply Forall_forall. intros y Hy. apply H4; [by left|by right].
Qed.
Lemma link_back_checked {A} o m nxt p (x : A) : (nxt ≠ 0 → same_list m o nxt = true) →
  (if negb (nxt =? 0) then
     if negb (same_list m o nxt) then None else m ← buddycontrolblock_setPrvBlock m nxt p; Some (x, m)
   else Some (x, m)) = (m ← link_back m nxt p; Some (x, m)).
Proof. intros H. unfold link_back. destruct (Z.eqb_spec nxt 0); cbn [negb]; [done|]. by rewrite H. Qed.

Lemma same_list_hd o m p l : seg o m p l 0 → hdz 0 l ≠ 0 → same_list m o (hdz 0 l) = true.
Proof. destruct l as [|x l]; [done|]. intros [Hx _] _. by eapply same_list_hdr, node_hdr. Qed.

(** [_buddy_listRemove] takes the block out of its list. *)
Lemma listRemove_seg o bcbs m i l1 a l2 :
  bcbs !! Z.to_nat i = Some (hdz 0 (l1 ++ a :: l2)) →
  Forall inp (l1 ++ a :: l2) → StronglySorted Z.lt (l1 ++ a :: l2) → seg o m 0 (l1 ++ a :: l2) 0 →
  ∃ m', _buddy_listRemove bcbs m i a = Some (<[Z.to_nat i := hdz 0 (l1 ++ l2)]> bcbs, m') ∧
    seg o m' 0 (l1 ++ l2) 0 ∧ frame (l1 ++ l2) m m'.
Proof.
  intros Hh I Hs S. destruct (sorted_mid _ _ _ Hs) as (Hs' & Hlt1 & Hlt2).
  pose proof (sorted_app _ _ Hs') as (_ & Hs2 & H12). apply sorted_NoDup in Hs2 as N2.
  apply Forall_app in I as [I1 [Ia I2]%Forall_cons]. apply seg_app in S as [S1 [Sa S2]]. cbn [hdz head] in *.
  unfold _buddy_listRemove. pose proof Sa as (b & Hb & _ & Ho & _). rewrite Hb. cbn [mbind option_bind].
  rewrite (nxtBlock_node _ _ _ _ _ _ Sa), Hh, Ho. cbn [mbind option_bind].
  destruct l1 as [|pv l1 _] using rev_ind.
  - cbn [app]. rewrite hdz_cons, Z.eqb_refl.
    rewrite link_back_checked by (by apply same_list_hd with a).
    destruct (link_back_seg o m a l2 0) as (m' & E & S' & F); try done.
    { by left. } { intros x Hx. rewrite Forall_forall in I2. specialize (I2 x Hx). unfold inp in I2. lia. }
    rewrite E. by exists m'.
  - assert (Hpv : pv ∈ l1 ++ [pv]) by (apply elem_of_app; right; by left).
    assert (Hne : hdz 0 ((l1 ++ [pv]) ++ a :: l2) ≠ a).
    { destruct l1 as [|x l1]; [specialize (Hlt1 pv Hpv)|specialize (Hlt1 x ltac:(by left))];
        cbn [app]; rewrite hdz_cons; lia. }
    rewrite (proj2 (Z.eqb_neq _ _)) by done.
    rewrite (lastz_app 0 l1 [pv]) in Sa. change (lastz _ [pv]) with pv in Sa. rewrite (prvBlock_node _ _ _ _ _ _ Sa). cbn [mbind option_bind].
    assert (Ipv : inp pv) by (rewrite Forall_forall in I1; auto). pose proof Ipv as Ipv'. unfold inp in Ipv'.
    rewrite (proj2 (Z.eqb_neq pv 0)), (same_list_hdr m pv o (seg_hdr _ _ _ _ _ _ S1 Hpv)) by lia. cbn [orb negb].
    assert (Npv : pv ∉ l2) by (intros Hin; specialize (H12 pv pv Hpv Hin); lia).
    assert (Npv1 : pv ∉ l1).
    { apply sorted_app in Hs as [Hs1 _]. apply sorted_NoDup, NoDup_app in Hs1 as (_ & Hd & _).
      intros Hin. apply (Hd pv Hin). by left. }
    destruct (seg_setNxt o m 0 l1 pv a (hdz 0 l2)) as (m1 & E1 & S1' & F1); try done.
    { destruct l2 as [|y l2]; [by left|right]. rewrite hdz_cons.
      apply Forall_cons in I2 as [Iy _]. split; [done|]. apply H12; [done|by left]. }
    rewrite E1. cbn [mbind option_bind].
    assert (S2' : seg o m1 a l2 0).
    { eapply seg_frame; [|done]. intros x Hx. apply F1. by intros ->%list_elem_of_singleton. }
    rewrite link_back_checked by (by apply same_list_hd with a).
    destruct (link_back_seg o m1 a l2 pv) as (m2 & E2 & S2'' & F2); auto.
    rewrite E2. exists m2. split; [|split].
    + cbn [mbind option_bind]. do 2 f_equal. symmetry. apply list_insert_id. rewrite Hh. f_equal.
      rewrite !hdz_app. by destruct l1.
    + apply seg_app. rewrite lastz_app. split; [|done]. eapply seg_frame; [|done].
      intros x Hx. apply F2. intros Hx2. specialize (H12 x x Hx Hx2). lia.
    + apply frame_trans with m1; (eapply frame_weaken; [|eassumption]).
      * intros x ->%list_elem_of_singleton. apply elem_of_app. by left.
      * intros x Hx. apply elem_of_app. by right.
Qed.
Lemma NoDup_size (m : Mem) (l : list Z) : NoDup l → (∀ x, x ∈ l → is_Some (m !! x)) → (length l ≤ size m)%nat.
Proof.
  intros Hl Hm. rewrite <-size_dom. rewrite <-(size_list_to_set (C := gset Z) l Hl).
  apply subseteq_size. intros x Hx%elem_of_list_to_set. by apply elem_of_dom, Hm.
Qed.

(** The scan stops at the first block behind [a]. *)
Lemma insert_scan_seg o m a r1 r2 : ∀ fuel pv p,
  Forall inp (pv :: r1 ++ r2) → seg o m p (pv :: r1 ++ r2) 0 →
  (∀ x, x ∈ r1 → x < a) → (∀ x, x ∈ r2 → a < x) → (length r1 ≤ fuel)%nat →
  insert_scan fuel m pv (hdz 0 (r1 ++ r2)) a = Some (lastz pv r1, hdz 0 r2).
Proof.
  induction r1 as [|x r1 IH]; intros fuel pv p I [Hp S] H1 H2 Hf; cbn [app] in *; apply Forall_cons in I as [Ip I].
  - assert (E : negb (hdz 0 r2 =? 0) && (hdz 0 r2 <? a) = false).
    { destruct r2 as [|y r2]; [done|]. rewrite hdz_cons. specialize (H2 y ltac:(by left)).
      rewrite (proj2 (Z.ltb_ge y a)) by lia. apply andb_false_r. }
    destruct fuel; cbn [insert_scan]; rewrite E; done.
  - destruct fuel as [|fuel]; [cbn in Hf; lia|]. rewrite hdz_cons in *. cbn [insert_scan].
    pose proof Ip. apply Forall_cons in I as I'. destruct I' as [Ix _]. unfold inp in *.
    rewrite (proj2 (Z.eqb_neq x 0)), (proj2 (Z.ltb_lt x a)) by (lia || apply H1; by left). cbn [negb andb].
    rewrite (nxtBlock_node _ _ _ _ _ _ Hp). pose proof S as [Hx _].
    rewrite (nxtBlock_node _ _ _ _ _ _ Hx). cbn [mbind option_bind]. rewrite lastz_cons.
    apply IH with pv; try done; [|cbn in Hf; lia]. intros y Hy. apply H1. by right.
Qed.

Section Insert.
Context (o : Z) (l1 : list Z) (a : Z) (l2 : list Z).
Context (I : Forall inp (l1 ++ a :: l2)) (Hs : StronglySorted Z.lt (l1 ++ a :: l2)).

Lemma insert_facts : inp a ∧ Forall inp l1 ∧ Forall inp l2 ∧ NoDup l2 ∧ (a ∉ l1) ∧ (a ∉ l2) ∧
  (∀ x, x ∈ l1 → x < a) ∧ (∀ x, x ∈ l2 → a < x) ∧ (∀ x, x ∈ l1 → x ∉ l2).
Proof using I Hs.
  clear Hpool. destruct (sorted_mid _ _ _ Hs) as (Hs' & Hlt1 & Hlt2). destruct (sorted_app _ _ Hs') as (_ & H2 & H12).
  apply Forall_app in I as [I1 [Ia I2]%Forall_cons]. repeat (split; [by auto using sorted_NoDup|]).
  split; [intros Hin; specialize (Hlt1 a Hin); lia|]. split; [intros Hin; specialize (Hlt2 a Hin); lia|].
  split; [done|]. split; [done|]. intros x Hx Hx2. specialize (H12 x x Hx Hx2). lia.
Qed.

Lemma in_a : [a] ⊆ l1 ++ a :: l2.
Proof using. intros x ->%list_elem_of_singleton. apply elem_of_app. right. by left. Qed.

Lemma hd_ok : hdz 0 l2 = 0 ∨ a < hdz 0 l2 < a + 2 ^ 27.
Proof using I Hs.
  clear Hpool. destruct insert_facts as (Ia & _ & I2 & _ & _ & _ & _ & Hlt & _). destruct l2 as [|y l2']; [by left|right].
  rewrite hdz_cons. specialize (Hlt y ltac:(by left)). apply Forall_cons in I2 as [Iy _]. unfold inp in *. lia.
Qed.

(** The block's own links are set. *)
Lemma link_node m p : hdr m a o true → p = 0 ∨ inp p ∧ p < a →
  ∃ m1 m2, buddycontrolblock_setPrvBlock m a p = Some m1 ∧
    buddycontrolblock_setNxtBlock m1 a (hdz 0 l2) = Some m2 ∧
    node m2 a o true (hdz 0 l2) p ∧ frame [a] m m2.
Proof.
  intros Ha Hp. destruct insert_facts as (Ia & _). destruct (hdr_node _ _ _ _ Ha) as (n0 & p0 & N).
  unfold inp in *. destruct (setPrvBlock_node m a o true _ _ ltac:(lia) N p) as (m1 & E1 & N1 & F1); [lia|].
  destruct (setNxtBlock_node m1 a o true _ _ ltac:(lia) N1 (hdz 0 l2) hd_ok) as (m2 & E2 & N2 & F2).
  exists m1, m2. eauto using frame_trans.
Qed.

(** The link back to the block completes the list. *)
Lemma insert_link m : seg o m 0 l1 a → node m a o true (hdz 0 l2) (lastz 0 l1) → seg o m (lastz 0 l1) l2 0 →
  ∃ m', link_back m (hdz 0 l2) a = Some m' ∧ seg o m' 0 (l1 ++ a :: l2) 0 ∧ frame (l1 ++ a :: l2) m m'.
Proof.
  intros S1 Na S2. destruct insert_facts as (Ia & I1 & I2 & N2 & Na1 & Na2 & Hlt1 & Hlt2 & Hd).
  destruct (link_back_seg o m (lastz 0 l1) l2 a) as (m' & E & S2' & F); auto.
  exists m'. split; [done|]. split; [|eapply frame_weaken; [|done]].
  - apply seg_app. rewrite hdz_cons. split; [|split; [|done]].
    + eapply seg_frame; [|done]. intros x Hx. apply F. by apply Hd.
    + eapply node_frame; [|done]. by apply F.
  - intros x Hx. apply elem_of_app. right. by right.
Qed.

(** Behind a block: four links are set. *)
Lemma insert_mid m l pv : l1 = l ++ [pv] → hdr m a o true → seg o m 0 (l1 ++ l2) 0 →
  ∃ m1 m2 m3 m', buddycontrolblock_setNxtBlock m pv a = Some m1 ∧
    buddycontrolblock_setPrvBlock m1 a pv = Some m2 ∧
    buddycontrolblock_setNxtBlock m2 a (hdz 0 l2) = Some m3 ∧
    link_back m3 (hdz 0 l2) a = Some m' ∧ seg o m' 0 (l1 ++ a :: l2) 0 ∧ frame (l1 ++ a :: l2) m m'.
Proof.
  intros El Ha [S1 S2]%seg_app. destruct insert_facts as (Ia & I1 & I2 & N2 & Na1 & Na2 & Hlt1 & Hlt2 & Hd).
  assert (Hpv : pv ∈ l1) by (rewrite El; apply elem_of_app; right; by left).
  assert (Ipv : inp pv) by (rewrite Forall_forall in I1; auto).
  assert (Npv : pv ∉ l).
  { pose proof (sorted_app _ _ Hs) as [Hs1 _]. rewrite El in Hs1.
    apply sorted_NoDup, NoDup_app in Hs1 as (_ & Hd' & _). intros Hin. apply (Hd' pv Hin). by left. }
  rewrite El in S1. destruct (seg_setNxt o m 0 l pv (hdz 0 l2) a) as (m1 & E1 & S1' & F1); auto.
  rewrite <-El in S1'. assert (F1' : ∀ x, x ≠ pv → m1 !! x = m !! x).
  { intros x Hx. apply F1. by intros ->%list_elem_of_singleton. }
  destruct (link_node m1 pv) as (m2 & m3 & E2 & E3 & N3 & F3); [by apply F1|by auto|].
  assert (F3' : ∀ x, x ≠ a → m3 !! x = m1 !! x).
  { intros x Hx. apply F3. by intros ->%list_elem_of_singleton. }
  assert (Elast : lastz 0 l1 = pv) by (by rewrite El, lastz_app).
  destruct (insert_link m3) as (m' & E4 & S' & F4).
  - eapply seg_frame; [|done]. intros x Hx. apply F3'. by intros ->.
  - by rewrite Elast.
  - eapply seg_frame; [|done]. intros x Hx. rewrite F3', F1'; [done| |]; intros ->; [by apply (Hd pv)|done].
  - exists m1, m2, m3, m'. do 5 (split; [done|]). apply frame_trans with m3; [|done].
    apply frame_trans with m1; (eapply frame_weaken; [|eassumption]); [|apply in_a].
    intros x ->%list_elem_of_singleton. apply elem_of_app. by left.
Qed.

(** In front of the list. *)
Lemma insert_first m : l1 = [] → hdr m a o true → seg o m 0 l2 0 →
  ∃ m1 m2 m', buddycontrolblock_setPrvBlock m a 0 = Some m1 ∧
    buddycontrolblock_setNxtBlock m1 a (hdz 0 l2) = Some m2 ∧
    link_back m2 (hdz 0 l2) a = Some m' ∧ seg o m' 0 (l1 ++ a :: l2) 0 ∧ frame (l1 ++ a :: l2) m m'.
Proof.
  intros El Ha S. destruct insert_facts as (_ & _ & _ & _ & _ & Na2 & _).
  destruct (link_node m 0) as (m1 & m2 & E1 & E2 & N & F); [done|by left|].
  destruct (insert_link m2) as (m' & E3 & S' & F').
  - by rewrite El.
  - by rewrite El.
  - rewrite El. eapply seg_frame; [|done]. intros x Hx. apply F. intros ->%list_elem_of_singleton. done.
  - exists m1, m2, m'. do 4 (split; [done|]). apply frame_trans with m2; [|done].
    eapply frame_weaken; [apply in_a|done].
Qed.

Lemma upd_comm m a' m1 m2 : buddycontrolblock_setPrvBlock m a' 0 = Some m1 →
  buddycontrolblock_setNxtBlock m1 a' 0 = Some m2 → (∃ b, m !! a' = Some b ∧ bcb_wf b) →
  ∃ m1', buddycontrolblock_setNxtBlock m a' 0 = Some m1' ∧ buddycontrolblock_setPrvBlock m1' a' 0 = Some m2.
Proof using.
  intros E1 E2 (b & Hb & W). destruct (pack_eta b W) as (E & Ro & Rn & Rp).
  unfold buddycontrolblock_setPrvBlock, buddycontrolblock_setNxtBlock, upd in *. cbn [negb Z.eqb] in *.
  rewrite Hb in *. rewrite E in E1. rewrite E. cbn [mbind option_bind] in *. rewrite pack_setPrv in E1 by lia.
  rewrite pack_setNxt by lia. cbn [mbind option_bind] in *. injection E1 as <-. eexists. split; [done|].
  rewrite lookup_insert_eq in *. cbn [mbind option_bind] in *. rewrite pack_setNxt in E2 by lia.
  rewrite pack_setPrv by lia. cbn [mbind option_bind] in *. injection E2 as <-. by rewrite !insert_insert_eq.
Qed.

(** [_buddy_listInsert] puts the block at its place. *)
Lemma listInsert_seg bcbs m i : bcbs !! Z.to_nat i = Some (hdz 0 (l1 ++ l2)) → hdr m a o true →
  seg o m 0 (l1 ++ l2) 0 →
  ∃ m', _buddy_listInsert bcbs m i a = Some (<[Z.to_nat i := hdz 0 (l1 ++ a :: l2)]> bcbs, m') ∧
    seg o m' 0 (l1 ++ a :: l2) 0 ∧ frame (l1 ++ a :: l2) m m'.
Proof.
  intros Hh Ha S. destruct insert_facts as (Ia & I1 & I2 & N2 & Na1 & Na2 & Hlt1 & Hlt2 & Hd).
  assert (I0 : ∀ x, x ∈ l1 ++ l2 → x ≠ 0).
  { intros x [Hx|Hx]%elem_of_app; rewrite Forall_forall in I1, I2; [specialize (I1 x Hx)|specialize (I2 x Hx)]; unfold inp in *; lia. }
  assert (C : (l1 = [] ∧ l2 = []) ∨ (l1 = [] ∧ ∃ y l, l2 = y :: l) ∨ ∃ h l, l1 = h :: l)
    by (clear; destruct l1; [destruct l2|]; eauto 10).
  unfold _buddy_listInsert. rewrite Hh. cbn [mbind option_bind].
  destruct C as [[El El2]|[[El (y & l & El2)]|(h & l & El)]].
  - destruct (insert_first m) as (m1 & m2 & m' & E1 & E2 & E3 & S' & F); [by rewrite ?El, ?El2..|].
    rewrite El, El2 in *. injection E3 as <-.
    destruct (upd_comm m a m1 m2) as (m1' & E1' & E2'); [done..| |].
    { destruct Ha as (b & ? & ? & _). by exists b. }
    change (hdz 0 _ =? 0) with true. cbn match. change (upd m a _) with (buddycontrolblock_setNxtBlock m a 0).
    rewrite E1'. cbn [mbind option_bind]. change (upd m1' a _) with (buddycontrolblock_setPrvBlock m1' a 0).
    rewrite E2'. by exists m2.
  - destruct (insert_first m) as (m1 & m2 & m' & E1 & E2 & E3 & S' & F); [done|done|by rewrite El in S|].
    rewrite El, El2 in *. cbn [app] in *. rewrite hdz_cons in *. unfold link_back in E3.
    rewrite (proj2 (Z.eqb_neq y 0)) in * by (apply I0; by left). cbn [negb] in E3. destruct S as [Ny _].
    rewrite (nxtBlock_node _ _ _ _ _ _ Ny). cbn [mbind option_bind]. specialize (Hlt2 y ltac:(by left)).
    rewrite (proj2 (Z.ltb_lt a y)) by done. change (upd m a _) with (buddycontrolblock_setPrvBlock m a 0).
    rewrite E1. cbn [mbind option_bind]. rewrite E2. cbn [mbind option_bind]. rewrite E3. by exists m'.
  - destruct (exists_last (l := l1)) as (l' & pv & El'); [by rewrite El|].
    destruct (insert_mid m l' pv) as (m1 & m2 & m3 & m' & E1 & E2 & E3 & E4 & S' & F); [done..|].
    assert (Elast : lastz h l = pv) by (rewrite <-(lastz_cons 0 h l), <-El, El'; apply lastz_app).
    assert (Hh1 : h ∈ l1) by (rewrite El; by left). assert (Hpv : pv ∈ l1) by (rewrite El'; apply elem_of_app; right; by left).
    assert (Eh : hdz 0 (l1 ++ l2) = h) by (by rewrite El). rewrite Eh.
    assert (Elen : (length l ≤ size m)%nat).
    { transitivity (length (l1 ++ l2)); [rewrite El; cbn; rewrite length_app; lia|].
      apply NoDup_size; [by apply sorted_NoDup, (sorted_mid _ a)|]. intros x Hx.
      destruct (seg_hdr _ _ _ _ _ _ S Hx) as (b & -> & _). done. }
    assert (Escan : insert_scan (size m) m h (hdz 0 (l ++ l2)) a = Some (pv, hdz 0 l2)).
    { rewrite <-Elast. apply insert_scan_seg with o 0; auto.
      - change (h :: l ++ l2) with ((h :: l) ++ l2). rewrite <-El. by apply Forall_app.
      - change (h :: l ++ l2) with ((h :: l) ++ l2). by rewrite <-El.
      - intros x Hx. apply Hlt1. rewrite El. by right. }
    assert (Nh : node m h o true (hdz 0 (l ++ l2)) 0) by (rewrite El in S; apply S).
    pose proof (Hlt1 h Hh1). pose proof (Hlt1 pv Hpv).
    rewrite (proj2 (Z.eqb_neq h 0)) by (apply I0, elem_of_app; by left).
    rewrite (nxtBlock_node _ _ _ _ _ _ Nh). cbn [mbind option_bind]. rewrite (proj2 (Z.ltb_ge a h)) by lia.
    rewrite Escan. cbn [mbind option_bind]. rewrite (proj2 (Z.eqb_neq pv 0)) by (apply I0, elem_of_app; by left).
    rewrite (proj2 (Z.ltb_lt pv a)) by done. cbn [negb andb orb].
    assert (Et : negb ((hdz 0 l2 =? 0) || (a <? hdz 0 l2)) = false).
    { destruct hd_ok as [->|[? _]]; [done|]. rewrite (proj2 (Z.ltb_lt a _)) by done. by rewrite orb_true_r. }
    rewrite Et, E1. cbn [mbind option_bind]. rewrite E2. cbn [mbind option_bind]. rewrite E3. cbn [mbind option_bind].
    fold (link_back m3 (hdz 0 l2) a). rewrite E4. exists m'. split; [|done]. cbn [mbind option_bind]. do 2 f_equal.
    rewrite hdz_app, El, hdz_cons. symmetry. apply list_insert_id. by rewrite Hh, Eh.
Qed.
End Insert.
End Ops.
(** ** All lists of a pool *)

Section Lists.
Context (pool : Z) (Hpool : 0 < pool).

(** List [i] holds the free blocks of order [i + 4]. *)
Definition order_of (i : nat) : Z := Z.of_nat i + SHD_BUDDY_PART_MIN_ORDER.

Record list_ok (m : Mem) (i : nat) (l : list Z) : Prop := {
  list_sorted : StronglySorted Z.lt l;
  list_inp : Forall (inp pool) l;
  list_seg : seg (order_of i) m 0 l 0;
}.

Record lists_ok (bcbs : list Z) (m : Mem) (L : list (list Z)) : Prop := {
  lists_heads : bcbs = hdz 0 <$> L;
  lists_each : ∀ i l, L !! i = Some l → list_ok m i l;
}.

Definition in_list (L : list (list Z)) (i : nat) (x : Z) : Prop := ∃ l, L !! i = Some l ∧ x ∈ l.

Lemma in_list_hdr bcbs m L i x : lists_ok bcbs m L → in_list L i x → hdr m x (order_of i) true.
Proof using. intros HL (l & Hl & Hx). eapply seg_hdr; [|done]. by eapply list_seg, lists_each. Qed.

Lemma in_list_inp bcbs m L i x : lists_ok bcbs m L → in_list L i x → inp pool x.
Proof using. intros HL (l & Hl & Hx). destruct (lists_each _ _ _ HL _ _ Hl) as [_ I _]. rewrite Forall_forall in I. auto. Qed.

Lemma list_ok_frame m m' i l : (∀ x, x ∈ l → m' !! x = m !! x) → list_ok m i l → list_ok m' i l.
Proof using. intros Hm [H1 H2 H3]. split; [done..|]. by eapply seg_frame. Qed.

(** A write outside the lists does not matter. *)
Lemma lists_frame bcbs m m' L : lists_ok bcbs m L → (∀ i x, in_list L i x → m' !! x = m !! x) → lists_ok bcbs m' L.
Proof using.
  intros [Hh He] Hm. split; [done|]. intros i l Hl. eapply list_ok_frame; [|by apply He].
  intros x Hx. apply (Hm i). by exists l.
Qed.

(** One list is replaced. *)
Lemma lists_replace bcbs m m' L i l l' : lists_ok bcbs m L → L !! i = Some l → list_ok m' i l' →
  (∀ x, x ∈ l' → hdr m x (order_of i) true) → frame l' m m' →
  lists_ok (<[i := hdz 0 l']> bcbs) m' (<[i := l']> L).
Proof using.
  intros HL Hl Hl' Hh' F. split.
  - by rewrite list_fmap_insert, (lists_heads _ _ _ HL).
  - intros i2 l2 [(<- & <- & _)|(Hne & Hl2)]%list_lookup_insert_Some; [done|].
    eapply list_ok_frame; [|by eapply lists_each]. intros x Hx. apply F. intros Hx'.
    destruct (hdr_det _ _ _ _ _ _ (Hh' x Hx') (in_list_hdr _ _ _ i2 x HL ltac:(by exists l2))) as [E _].
    unfold order_of in E. lia.
Qed.

Lemma sorted_split l a : StronglySorted Z.lt l → (a ∉ l) →
  ∃ l1 l2, l = l1 ++ l2 ∧ StronglySorted Z.lt (l1 ++ a :: l2).
Proof using.
  induction 1 as [|x l Hs IH Hx]; intros Ha; [by exists [], []; repeat constructor|].
  apply not_elem_of_cons in Ha as [Hne Ha]. destruct (decide (a < x)) as [Hlt|].
  - exists [], (x :: l). split; [done|]. constructor; [by constructor|]. constructor; [done|].
    eapply Forall_impl; [done|]. cbn. lia.
  - destruct (IH Ha) as (l1 & l2 & -> & Hs'). exists (x :: l1), l2. split; [done|]. cbn. constructor; [done|].
    rewrite Forall_app in *. destruct Hx as [Hx1 Hx2]. split; [done|]. constructor; [lia|done].
Qed.

Lemma lists_insert bcbs m L i a : lists_ok bcbs m L → (i < length L)%nat → inp pool a →
  hdr m a (order_of i) true → (¬ in_list L i a) →
  ∃ bcbs' m' L', _buddy_listInsert bcbs m (Z.of_nat i) a = Some (bcbs', m') ∧ lists_ok bcbs' m' L' ∧
    length L' = length L ∧ (∀ j x, in_list L' j x ↔ in_list L j x ∨ j = i ∧ x = a) ∧
    (∀ x, x ≠ a → (¬ in_list L i x) → m' !! x = m !! x) ∧ (∀ x o t, hdr m x o t → hdr m' x o t).
Proof.
  intros HL Hi Ia Ha Hn. destruct (lookup_lt_is_Some_2 L i Hi) as [l Hl].
  destruct (lists_each _ _ _ HL _ _ Hl) as [Hs I S].
  destruct (sorted_split l a Hs) as (l1 & l2 & -> & Hs'); [intros Hin; apply Hn; by exists l|].
  assert (I' : Forall (inp pool) (l1 ++ a :: l2)) by (rewrite Forall_app, Forall_cons in *; tauto).
  destruct (listInsert_seg pool Hpool (order_of i) l1 a l2 I' Hs' bcbs m (Z.of_nat i)) as (m' & E & S' & F); try done.
  { by rewrite Nat2Z.id, (lists_heads _ _ _ HL), list_lookup_fmap, Hl. }
  rewrite Nat2Z.id in E. eexists _, m', (<[i := l1 ++ a :: l2]> L). split; [done|].
  assert (Hin : ∀ x, x ∈ l1 ++ a :: l2 ↔ x ∈ l1 ++ l2 ∨ x = a) by (intros x; rewrite !elem_of_app, elem_of_cons; tauto).
  split; [|split; [by rewrite length_insert|split; [|split; [|apply F]]]].
  - eapply lists_replace; [done..| |done].
    intros x [Hx| ->]%Hin; [by eapply seg_hdr|done].
  - intros j x. split.
    + intros (l' & [(<- & <- & _)|(Hne & Hl2)]%list_lookup_insert_Some & Hx); [|left; by exists l'].
      apply Hin in Hx as [Hx| ->]; [left; by exists (l1 ++ l2)|by right].
    + intros Hx. destruct (decide (i = j)) as [<-|Hne].
      * exists (l1 ++ a :: l2). rewrite list_lookup_insert_eq by done. split; [done|]. apply Hin.
        destruct Hx as [(l' & Hl' & Hx)|[_ ->]]; [left|by right]. by simplify_eq.
      * destruct Hx as [(l' & Hl' & Hx)|[-> _]]; [|done]. exists l'. by rewrite list_lookup_insert_ne.
  - intros x Hx Hnx. apply F. intros [Hx2| ->]%Hin; [|done]. apply Hnx. by exists (l1 ++ l2).
Qed.

Lemma lists_remove bcbs m L i a : lists_ok bcbs m L → in_list L i a →
  ∃ bcbs' m' L', _buddy_listRemove bcbs m (Z.of_nat i) a = Some (bcbs', m') ∧ lists_ok bcbs' m' L' ∧
    length L' = length L ∧ (∀ j x, in_list L' j x ↔ in_list L j x ∧ x ≠ a) ∧
    (∀ x, (x = a ∨ ¬ in_list L i x) → m' !! x = m !! x) ∧ (∀ x o t, hdr m x o t → hdr m' x o t).
Proof.
  intros HL (l & Hl & Ha). destruct (lists_each _ _ _ HL _ _ Hl) as [Hs I S].
  assert (Hi : (i < length L)%nat) by (by eapply lookup_lt_Some).
  apply list_elem_of_split in Ha as (l1 & l2 & ->).
  destruct (sorted_mid _ _ _ Hs) as (Hs' & Hlt1 & Hlt2).
  destruct (listRemove_seg pool Hpool (order_of i) bcbs m (Z.of_nat i) l1 a l2) as (m' & E & S' & F); try done.
  { by rewrite Nat2Z.id, (lists_heads _ _ _ HL), list_lookup_fmap, Hl. }
  rewrite Nat2Z.id in E. eexists _, m', (<[i := l1 ++ l2]> L). split; [done|].
  assert (Hin : ∀ x, x ∈ l1 ++ l2 ↔ x ∈ l1 ++ a :: l2 ∧ x ≠ a).
  { intros x. rewrite !elem_of_app, elem_of_cons. split; [|tauto]. intros Hx. split; [tauto|]. intros ->.
    destruct Hx as [Hx|Hx]; [specialize (Hlt1 a Hx)|specialize (Hlt2 a Hx)]; lia. }
  split; [|split; [by rewrite length_insert|split; [|split; [|apply F]]]].
  - eapply lists_replace; [done..| | |done].
    + split; [done| |done]. rewrite Forall_app, Forall_cons in *; tauto.
    + intros x [Hx _]%Hin. by eapply seg_hdr.
  - intros j x. split.
    + intros (l' & [(<- & <- & _)|(Hne & Hl2)]%list_lookup_insert_Some & Hx).
      * apply Hin in Hx as [Hx ?]. split; [|done]. by exists (l1 ++ a :: l2).
      * split; [by exists l'|]. intros ->.
        destruct (hdr_det m a (order_of j) true (order_of i) true) as [Eo _]; [| |unfold order_of in Eo; lia];
          (eapply in_list_hdr; [done|]); eexists; (split; [done|]); [done|]. apply elem_of_app. right. by left.
    + intros ((l' & Hl' & Hx) & Hne). destruct (decide (i = j)) as [<-|].
      * exists (l1 ++ l2). rewrite list_lookup_insert_eq by done. simplify_eq. split; [done|]. by apply Hin.
      * exists l'. by rewrite list_lookup_insert_ne.
  - intros x Hx. apply F. intros [Hx2 Hne]%Hin. destruct Hx as [->|Hx]; [done|]. apply Hx. by exists (l1 ++ a :: l2).
Qed.

(** The head of a list is a block of it; 0 says that the list is empty. *)
Lemma lists_head bcbs m L i : lists_ok bcbs m L → (i < length L)%nat →
  ∃ h, bcbs !! i = Some h ∧ (h ≠ 0 → in_list L i h) ∧ (h = 0 → ∀ x, ¬ in_list L i x).
Proof.
  intros HL Hi. destruct (lookup_lt_is_Some_2 L i Hi) as [l Hl]. exists (hdz 0 l).
  rewrite (lists_heads _ _ _ HL), list_lookup_fmap, Hl. split; [done|].
  destruct (lists_each _ _ _ HL _ _ Hl) as [_ I _]. destruct l as [|y l].
  - split; [done|]. intros _ x (l' & Hl' & Hx). simplify_eq. by apply not_elem_of_nil in Hx.
  - rewrite hdz_cons. split; [intros _; exists (y :: l); split; [done|by left]|]. intros ->.
    apply Forall_cons in I as [I _]. unfold inp in I. lia.
Qed.
End Lists.


End BuddyLists.
