(* ===== verification/BuddyPool.v ===== *)
(** * The blocks of a buddy pool and what the allocator promises
    (src/phantom/src/main/shmem/buddy.c)

    The pool seen from outside is a set of blocks that tile it, each free or
    in use.  The first part is about tilings and buddies; the second relates
    a tiling to the memory and the free lists and shows that [buddy_alloc]
    and [buddy_free] implement the operations on tilings; the third runs a
    client that writes into its blocks as it likes. *)

From S2P Require Import Prelude.
From S2P Require Import Buddy BuddyLists.

Module BuddyPool.
Import Buddy BuddyLists.

(** ** Aligned addresses *)

Lemma aligned_lt d x y : (d | x) → (d | y) → x < y → x + d ≤ y.
Proof. intros [a ->] [b ->] H. destruct (decide (0 < d)); [|lia]. assert (a < b) by nia. nia. Qed.

Lemma pow2_divide a b : 0 ≤ a ≤ b → (2 ^ a | 2 ^ b).
Proof. intros H. exists (2 ^ (b - a)). rewrite <-Z.pow_add_r by lia. f_equal. lia. Qed.

Lemma aligned_le a b x : 0 ≤ a ≤ b → (2 ^ b | x) → (2 ^ a | x).
Proof. intros H Hx. transitivity (2 ^ b); [by apply pow2_divide|done]. Qed.

Lemma lxor_1 q : 0 ≤ q → (∃ h, 0 ≤ h ∧ q = 2 * h ∧ Z.lxor q 1 = 2 * h + 1) ∨ (∃ h, 0 ≤ h ∧ q = 2 * h + 1 ∧ Z.lxor q 1 = 2 * h).
Proof.
  intros Hq. destruct q as [|[p|p|]|p]; [left; by exists 0|right; by exists (Z.pos p)|left; by exists (Z.pos p)|right; by exists 0|lia].
Qed.

(** [Blocks] maps the address of a block to its order and whether it is free. *)
Abbreviation Blocks := (gmap Z (Z * bool)).

Section Pool.
Context (pool M : Z) (Hpool : 0 < pool) (HM : 4 ≤ M ≤ 27).

Definition buddy_of (x o : Z) : Z := Z.lxor (x - pool) (2 ^ o) + pool.

(** A block and its buddy are the halves of an aligned block. *)
Lemma buddy_halves x o : 0 ≤ o → pool ≤ x → (2 ^ o | x - pool) →
  ∃ lo, (2 ^ (o + 1) | lo - pool) ∧ pool ≤ lo ∧
    (x = lo ∧ buddy_of x o = lo + 2 ^ o ∨ x = lo + 2 ^ o ∧ buddy_of x o = lo).
Proof.
  intros Ho Hx [q Hq]. assert (Hq0 : 0 ≤ q) by nia.
  assert (E : Z.lxor (x - pool) (2 ^ o) = Z.lxor q 1 * 2 ^ o).
  { rewrite Hq. rewrite <-(Z.mul_1_l (2 ^ o)) at 2. by rewrite <-!Z.shiftl_mul_pow2, Z.shiftl_lxor by lia. }
  assert (E1 : 2 ^ (o + 1) = 2 * 2 ^ o) by (rewrite Z.pow_add_r by lia; lia).
  unfold buddy_of. rewrite E, E1.
  destruct (lxor_1 q Hq0) as [(h & Hh & -> & ->)|(h & Hh & -> & ->)].
  - exists x. split; [exists h; lia|]. split; [done|]. left. split; [done|]. lia.
  - exists (x - 2 ^ o). split; [exists h; lia|]. split; [nia|]. right. lia.
Qed.

Lemma buddy_invol x o : buddy_of (buddy_of x o) o = x.
Proof. unfold buddy_of. rewrite Z.add_simpl_r, Z.lxor_assoc, Z.lxor_nilpotent, Z.lxor_0_r. lia. Qed.

Lemma buddy_aligned x o : 0 ≤ o → pool ≤ x → (2 ^ o | x - pool) → (2 ^ o | buddy_of x o - pool) ∧ pool ≤ buddy_of x o.
Proof.
  intros Ho Hx Ha. destruct (buddy_halves x o Ho Hx Ha) as (lo & Hlo & Hp & Hc).
  apply (aligned_le o) in Hlo; [|lia]. destruct Hc as [[-> ->]|[-> ->]]; [|done]. split; [|lia].
  replace (lo + 2 ^ o - pool) with (lo - pool + 2 ^ o) by lia. by apply Z.divide_add_r.
Qed.

(** ** Tilings *)

Record tiles (B : Blocks) : Prop := {
  tile_each : ∀ x o f, B !! x = Some (o, f) → 4 ≤ o ≤ M ∧ (2 ^ o | x - pool) ∧ pool ≤ x ∧ x + 2 ^ o ≤ pool + 2 ^ M;
  tile_disj : ∀ x y o f o' f', B !! x = Some (o, f) → B !! y = Some (o', f') → x < y → x + 2 ^ o ≤ y;
  tile_cover : ∀ y, pool ≤ y < pool + 2 ^ M → ∃ x o f, B !! x = Some (o, f) ∧ x ≤ y < x + 2 ^ o;
}.

(** At a buddy's address a block starts, and it is not larger. *)
Lemma buddy_block B x o f : tiles B → B !! x = Some (o, f) → o < M →
  ∃ o' f', B !! buddy_of x o = Some (o', f') ∧ o' ≤ o.
Proof.
  intros T Hx HoM. destruct (tile_each _ T _ _ _ Hx) as (Ho & Ha & Hlo & Hhi).
  destruct (buddy_halves x o ltac:(lia) Hlo Ha) as (lo & Hal & Hplo & Hc).
  destruct (buddy_aligned x o ltac:(lia) Hlo Ha) as [Hba Hbp].
  assert (E1 : 2 ^ (o + 1) = 2 * 2 ^ o) by (rewrite Z.pow_add_r by lia; lia).
  assert (Htop : lo - pool + 2 ^ (o + 1) ≤ 2 ^ M).
  { apply aligned_lt; [done|apply pow2_divide; lia|]. lia. }
  destruct (tile_cover _ T (buddy_of x o)) as (c & o' & f' & Hc' & Hr); [lia|].
  destruct (tile_each _ T _ _ _ Hc') as (Ho' & Ha' & Hlo' & _). exists o', f'.
  destruct (decide (o' ≤ o)) as [Hle|Hgt].
  - assert (c = buddy_of x o) as <-; [|done].
    destruct (decide (c = buddy_of x o)); [done|].
    pose proof (aligned_lt (2 ^ o') (c - pool) (buddy_of x o - pool) ltac:(done)
      ltac:(apply (aligned_le o' o); [lia|done]) ltac:(lia)). lia.
  - exfalso. assert (Hc2 : (2 ^ (o + 1) | c - pool)) by (apply (aligned_le (o + 1) o'); [lia|done]).
    assert (c ≤ lo).
    { destruct (decide (c ≤ lo)); [done|].
      pose proof (aligned_lt _ (lo - pool) (c - pool) Hal Hc2 ltac:(lia)). lia. }
    assert (lo + 2 ^ (o + 1) ≤ c + 2 ^ o').
    { assert (Hce : (2 ^ (o + 1) | c - pool + 2 ^ o')) by (apply Z.divide_add_r; [done|apply pow2_divide; lia]).
      pose proof (aligned_lt _ (lo - pool) (c - pool + 2 ^ o') Hal Hce ltac:(lia)). lia. }
    destruct (Z.lt_trichotomy c x) as [Hlt|[->|Hlt]]; [|simplify_eq; lia|lia].
    pose proof (tile_disj _ T _ _ _ _ _ _ Hc' Hx Hlt). lia.
Qed.

(** The order of a block stays. *)
Lemma tiles_set B x o f f' : tiles B → B !! x = Some (o, f) → tiles (<[x := (o, f')]> B).
Proof.
  intros T Hx.
  assert (H : ∀ y o2 f2, <[x := (o, f')]> B !! y = Some (o2, f2) → ∃ f3, B !! y = Some (o2, f3)).
  { intros y o2 f2 [[<- [= <- <-]]|[_ Hy]]%lookup_insert_Some; eauto. }
  split.
  - intros y o2 f2 (f3 & Hy)%H. by eapply tile_each.
  - intros y z o2 f2 o3 f3 (? & Hy)%H (? & Hz)%H. by eapply tile_disj.
  - intros y Hy. destruct (tile_cover _ T y Hy) as (c & o2 & f2 & Hc & Hr). exists c, o2.
    destruct (decide (c = x)) as [->|]; [|exists f2; by rewrite lookup_insert_ne].
    simplify_eq. exists f'. by rewrite lookup_insert_eq.
Qed.

(** A block is halved. *)
Lemma tiles_split B x o f f1 f2 : tiles B → B !! x = Some (o + 1, f) → 4 ≤ o →
  tiles (<[x + 2 ^ o := (o, f2)]> (<[x := (o, f1)]> B)).
Proof.
  intros T Hx Ho. destruct (tile_each _ T _ _ _ Hx) as (HoM & Ha & Hlo & Hhi).
  assert (E1 : 2 ^ (o + 1) = 2 * 2 ^ o) by (rewrite Z.pow_add_r by lia; lia).
  assert (Hpos : 0 < 2 ^ o) by lia.
  assert (H : ∀ y o2 g, <[x + 2 ^ o := (o, f2)]> (<[x := (o, f1)]> B) !! y = Some (o2, g) →
    y = x + 2 ^ o ∧ o2 = o ∨ y = x ∧ o2 = o ∨ B !! y = Some (o2, g) ∧ (y + 2 ^ o2 ≤ x ∨ x + 2 ^ (o + 1) ≤ y)).
  { intros y o2 g [[<- [= <- <-]]|[_ [[<- [= <- <-]]|[Hne Hy]]%lookup_insert_Some]]%lookup_insert_Some; [auto..|].
    right. right. split; [done|]. destruct (Z.lt_trichotomy x y) as [Hlt|[->|Hlt]]; [right|done|left]; by eapply tile_disj. }
  assert (Ha2 : (2 ^ o | x - pool)) by (apply (aligned_le o (o + 1)); [lia|done]).
  split.
  - intros y o2 g [[-> ->]|[[-> ->]|[Hy _]]]%H; [| |by eapply tile_each]; split_and!; try lia; [|done].
    replace (x + 2 ^ o - pool) with (x - pool + 2 ^ o) by lia. by apply Z.divide_add_r.
  - intros y z o2 g o3 g' Hy%H Hz%H Hlt.
    destruct Hy as [[-> ->]|[[-> ->]|[Hy Hy']]]; destruct Hz as [[-> ->]|[[-> ->]|[Hz Hz']]]; try lia;
      [pose proof (tile_each _ T _ _ _ Hz); pose proof (Z.pow_pos_nonneg 2 o3); lia..|by eapply tile_disj].
  - intros y Hy. destruct (tile_cover _ T y Hy) as (c & o2 & g & Hc & Hr).
    destruct (decide (c = x)) as [->|Hne].
    + simplify_eq. destruct (decide (y < x + 2 ^ o)).
      * exists x, o, f1. rewrite lookup_insert_ne, lookup_insert_eq by lia. split; [done|lia].
      * exists (x + 2 ^ o), o, f2. rewrite lookup_insert_eq. split; [done|lia].
    + exists c, o2, g. rewrite !lookup_insert_ne; [done|done|]. intros <-.
      pose proof (tile_disj _ T x (x + 2 ^ o) _ _ _ _ Hx Hc ltac:(lia)). lia.
Qed.

(** Two halves are joined. *)
Lemma tiles_merge B lo o f1 f2 f : tiles B → (2 ^ (o + 1) | lo - pool) → o < M →
  B !! lo = Some (o, f1) → B !! (lo + 2 ^ o) = Some (o, f2) →
  tiles (<[lo := (o + 1, f)]> (delete (lo + 2 ^ o) B)).
Proof.
  intros T Ha HoM Hlo Hhi. destruct (tile_each _ T _ _ _ Hlo) as (Ho & _ & Hp & _).
  destruct (tile_each _ T _ _ _ Hhi) as (_ & _ & _ & Ht).
  assert (E1 : 2 ^ (o + 1) = 2 * 2 ^ o) by (rewrite Z.pow_add_r by lia; lia). assert (Hpos : 0 < 2 ^ o) by lia.
  assert (H : ∀ y o2 g, <[lo := (o + 1, f)]> (delete (lo + 2 ^ o) B) !! y = Some (o2, g) →
    y = lo ∧ o2 = o + 1 ∨ B !! y = Some (o2, g) ∧ (y + 2 ^ o2 ≤ lo ∨ lo + 2 ^ (o + 1) ≤ y)).
  { intros y o2 g [[<- [= <- <-]]|[Hne [Hne2 Hy]%lookup_delete_Some]]%lookup_insert_Some; [auto..|].
    right. split; [done|]. destruct (Z.lt_trichotomy lo y) as [Hlt|[->|Hlt]]; [right|done|left; by eapply tile_disj].
    pose proof (tile_disj _ T _ _ _ _ _ _ Hlo Hy Hlt).
    pose proof (tile_disj _ T _ _ _ _ _ _ Hhi Hy ltac:(lia)). lia. }
  split.
  - intros y o2 g [[-> ->]|[Hy _]]%H; [|by eapply tile_each]. split_and!; try lia. done.
  - intros y z o2 g o3 g' Hy%H Hz%H Hlt.
    destruct Hy as [[-> ->]|[Hy Hy']]; destruct Hz as [[-> ->]|[Hz Hz']]; try lia;
      [pose proof (tile_each _ T _ _ _ Hz); pose proof (Z.pow_pos_nonneg 2 o3); lia..|by eapply tile_disj].
  - intros y Hy. destruct (decide (lo ≤ y < lo + 2 ^ (o + 1))) as [Hin|Hout].
    + exists lo, (o + 1), f. by rewrite lookup_insert_eq.
    + destruct (tile_cover _ T y Hy) as (c & o2 & g & Hc & Hr). exists c, o2, g.
      rewrite lookup_insert_ne, lookup_delete_ne; [done|..]; intros <-; simplify_eq; lia.
Qed.

(** Blocks are apart. *)
Lemma tiles_apart B x y o f o' f' : tiles B → B !! x = Some (o, f) → B !! y = Some (o', f') → x ≠ y →
  x + 2 ^ o ≤ y ∨ y + 2 ^ o' ≤ x.
Proof.
  intros T Hx Hy Hne. destruct (Z.lt_trichotomy x y) as [|[|]]; [left|done|right]; by eapply tile_disj.
Qed.

(** No two free buddies of the same size. *)
Definition coalesced (B : Blocks) : Prop :=
  ∀ x o, B !! x = Some (o, true) → o < M → B !! buddy_of x o ≠ Some (o, true).

(** If all is free, the pool is one block. *)
Lemma all_free_one B : tiles B → coalesced B → (∀ x o f, B !! x = Some (o, f) → f = true) →
  B = {[pool := (M, true)]}.
Proof.
  intros T C F.
  assert (Hmin : ∀ n, ∀ x o f, B !! x = Some (o, f) → Z.min M (4 + Z.of_nat n) ≤ o).
  { induction n as [|n IH]; intros x o f Hx; pose proof (tile_each _ T _ _ _ Hx) as (Ho & _); [lia|].
    pose proof (IH _ _ _ Hx). destruct (decide (Z.min M (4 + Z.of_nat (S n)) ≤ o)); [done|].
    destruct (buddy_block B x o f T Hx ltac:(lia)) as (o' & f' & Hb & Hle).
    pose proof (IH _ _ _ Hb). assert (o' = o) as -> by lia.
    pose proof (F _ _ _ Hx). pose proof (F _ _ _ Hb). subst. by apply (C x o) in Hb; [|done|lia]. }
  assert (Hone : ∀ x o f, B !! x = Some (o, f) → x = pool ∧ o = M ∧ f = true).
  { intros x o f Hx. pose proof (tile_each _ T _ _ _ Hx) as (Ho & Ha & Hlo & Hhi).
    pose proof (Hmin (Z.to_nat M) _ _ _ Hx). assert (o = M) as -> by lia. split; [lia|]. split; [done|]. by eapply F. }
  apply map_eq. intros y. destruct (B !! y) as [[o f]|] eqn:Hy.
  - destruct (Hone _ _ _ Hy) as (-> & -> & ->). by rewrite lookup_singleton_eq.
  - destruct (decide (y = pool)) as [->|]; [|by rewrite lookup_singleton_ne].
    destruct (tile_cover _ T pool) as (c & o & f & Hc & Hr); [lia|].
    destruct (Hone _ _ _ Hc) as (-> & _). congruence.
Qed.

(** ** Tilings, memory and free lists *)

Definition nlists : nat := Z.to_nat (M - 3).

(** Every word of the pool can be read. *)
Definition mem_wf (m : Mem) : Prop :=
  ∀ x, pool ≤ x < pool + 2 ^ M → (8 | x - pool) → ∃ o t, hdr m x o t.

(** The lists hold the free blocks and those of [E], and the headers are
    those of the tiling except at [hole], the block an operation works on. *)
Definition linked (bcbs : list Z) (m : Mem) (B : Blocks) (hole : Z) (E : nat → Z → Prop) : Prop :=
  ∃ L, lists_ok pool bcbs m L ∧ length L = nlists ∧
    (∀ i x, in_list L i x ↔ B !! x = Some (order_of i, true) ∨ E i x) ∧
    (∀ x o f, B !! x = Some (o, f) → x ≠ hole → hdr m x o f).

Definition no_extra : nat → Z → Prop := λ _ _, False.

Definition pool_inv (bcbs : list Z) (m : Mem) (B : Blocks) : Prop :=
  mem_wf m ∧ tiles B ∧ coalesced B ∧ linked bcbs m B 0 no_extra.

(** Addresses in blocks that are in use, [hole] apart. *)
Definition busy (B : Blocks) (hole x : Z) : Prop :=
  ∃ y o, y ≠ hole ∧ B !! y = Some (o, false) ∧ y ≤ x < y + 2 ^ o.

Lemma busy_start B h x o f : tiles B → busy B h x → B !! x = Some (o, f) → x ≠ h ∧ f = false.
Proof.
  intros T (y & o' & Hy & Hb & Hr) Hx. destruct (decide (x = y)) as [->|Hne]; [by simplify_eq|].
  pose proof (tile_each _ T _ _ _ Hx). destruct (tiles_apart _ _ _ _ _ _ _ T Hx Hb Hne); lia.
Qed.

Lemma busy_out B h x o f : tiles B → busy B h x → B !! h = Some (o, f) → ¬ (h ≤ x < h + 2 ^ o).
Proof.
  intros T (y & o' & Hy & Hb & Hr) Hh. destruct (tiles_apart _ _ _ _ _ _ _ T Hb Hh Hy); lia.
Qed.

Lemma mem_wf_hdrs m m' : mem_wf m → (∀ x o t, hdr m x o t → hdr m' x o t) → mem_wf m'.
Proof. intros W H x Hx Ha. destruct (W x Hx Ha) as (o & t & ?). eauto. Qed.

Lemma mem_wf_write m x b o t : mem_wf m → hdr (<[x := b]> m) x o t → mem_wf (<[x := b]> m).
Proof.
  intros W Hb y Hy Ha. destruct (decide (y = x)) as [->|]; [eauto|].
  destruct (W y Hy Ha) as (o' & t' & ?). exists o', t'. eapply hdr_frame; [|done]. by rewrite lookup_insert_ne.
Qed.

Lemma mem_wf_start m B x o f : mem_wf m → tiles B → B !! x = Some (o, f) → ∃ o' t', hdr m x o' t'.
Proof.
  intros W T Hx. destruct (tile_each _ T _ _ _ Hx) as (Ho & Ha & Hlo & Hhi).
  pose proof (Z.pow_pos_nonneg 2 o). apply W; [lia|]. apply (aligned_le 3 o); [lia|done].
Qed.

(** A write at the hole, or where no block starts. *)
Lemma linked_write bcbs m B hole E x b : linked bcbs m B hole E →
  (∀ i, ¬ E i x) → B !! x = None ∨ x = hole ∧ (∃ o, B !! x = Some (o, false)) →
  linked bcbs (<[x := b]> m) B hole E.
Proof.
  intros (L & HL & Hlen & Hin & Hh) HE Hx. exists L. split; [|split; [done|split; [done|]]].
  - eapply lists_frame; [done|]. intros i y [Hy|Hy]%Hin; apply lookup_insert_ne; intros <-; [|by eapply HE].
    destruct Hx as [Hx|(_ & o & Hx)]; congruence.
  - intros y o f Hy Hne. eapply hdr_frame; [|by apply Hh]. apply lookup_insert_ne. intros <-.
    destruct Hx as [Hx|(? & _)]; congruence.
Qed.

Lemma order_of_inj i j : order_of i = order_of j → i = j.
Proof. unfold order_of. lia. Qed.

Lemma order_of_nat o : 4 ≤ o ≤ M → order_of (Z.to_nat (o - 4)) = o ∧ (Z.to_nat (o - 4) < nlists)%nat ∧
  Z.of_nat (Z.to_nat (o - 4)) = o - SHD_BUDDY_PART_MIN_ORDER.
Proof. unfold order_of, nlists, SHD_BUDDY_PART_MIN_ORDER. lia. Qed.

Lemma start_inp B x o f : tiles B → B !! x = Some (o, f) → inp pool x.
Proof.
  intros T Hx. destruct (tile_each _ T _ _ _ Hx) as (Ho & _ & Hlo & Hhi). unfold inp.
  assert (2 ^ M ≤ 2 ^ 27) by (apply Z.pow_le_mono_r; lia). pose proof (Z.pow_pos_nonneg 2 o). lia.
Qed.

(** A block is put into its list. *)
Lemma linked_insert bcbs m B hole E x o : linked bcbs m B hole E → tiles (<[x := (o, true)]> B) →
  hdr m x o true → (∀ i, ¬ E i x) → B !! x = None ∨ (∃ o', B !! x = Some (o', false)) →
  ∃ bcbs' m', _buddy_listInsert bcbs m (o - SHD_BUDDY_PART_MIN_ORDER) x = Some (bcbs', m') ∧
    linked bcbs' m' (<[x := (o, true)]> B) (if decide (x = hole) then 0 else hole) E ∧
    (∀ y, y ≠ x → (¬ ∃ i, B !! y = Some (order_of i, true) ∨ E i y) → m' !! y = m !! y) ∧
    (∀ y o t, hdr m y o t → hdr m' y o t).
Proof.
  intros (L & HL & Hlen & Hin & Hh) T' Hx HE HB.
  destruct (tile_each _ T' x o true) as (Ho & _); [apply lookup_insert_eq|].
  destruct (order_of_nat o Ho) as (Eo & Hi & Ei). set (i := Z.to_nat (o - 4)) in *.
  assert (Hni : ∀ j, ¬ in_list L j x).
  { intros j [Hj|Hj]%Hin; [destruct HB as [HB|[o' HB]]; congruence|by eapply HE]. }
  destruct (lists_insert pool Hpool bcbs m L i x) as (bcbs' & m' & L' & E1 & HL' & Hlen' & Hin' & Hf & Hhd); try done.
  { by rewrite Hlen. } { eapply start_inp; [done|apply lookup_insert_eq]. } { by rewrite Eo. }
  rewrite Ei in E1. exists bcbs', m'. split; [done|]. split; [|split; [|done]].
  - exists L'. split; [done|]. split; [congruence|]. split.
    + intros j y. rewrite Hin', Hin. destruct (decide (y = x)) as [->|Hne].
      * rewrite lookup_insert_eq. split.
        -- intros [Hj|[-> _]]; [by destruct (Hni j); apply Hin|left; by rewrite Eo].
        -- intros [[= ->]|Hj]; [right|by destruct (HE j)]. split; [|done]. by apply order_of_inj.
      * rewrite lookup_insert_ne by done. tauto.
    + intros y o2 f [[<- [= <- <-]]|[Hne Hy]]%lookup_insert_Some Hne2; [by apply Hhd|].
      apply Hhd, Hh; [done|]. case_decide; congruence.
  - intros y Hne Hny. apply Hf; [done|]. intros Hy%Hin. apply Hny. by exists i.
Qed.

(** A block is taken out of its list. *)
Lemma linked_remove bcbs m B hole E i x : linked bcbs m B hole E → B !! x = Some (order_of i, true) ∨ E i x →
  ∃ bcbs' m', _buddy_listRemove bcbs m (Z.of_nat i) x = Some (bcbs', m') ∧
    (∀ B' hole' E',
      (∀ j y, B' !! y = Some (order_of j, true) ∨ E' j y ↔ (B !! y = Some (order_of j, true) ∨ E j y) ∧ y ≠ x) →
      (∀ y o f, B' !! y = Some (o, f) → y ≠ hole' → B !! y = Some (o, f) ∧ y ≠ hole) →
      linked bcbs' m' B' hole' E') ∧
    (∀ y, y = x ∨ (¬ ∃ j, B !! y = Some (order_of j, true) ∨ E j y) → m' !! y = m !! y) ∧
    (∀ y o t, hdr m y o t → hdr m' y o t).
Proof.
  intros (L & HL & Hlen & Hin & Hh) Hx.
  destruct (lists_remove pool Hpool bcbs m L i x) as (bcbs' & m' & L' & E1 & HL' & Hlen' & Hin' & Hf & Hhd);
    [done|by apply Hin|]. exists bcbs', m'. split; [done|]. split; [|split; [|done]].
  - intros B' hole' E' HB HB2. exists L'. split; [done|]. split; [congruence|]. split.
    + intros j y. rewrite HB, Hin', Hin. done.
    + intros y o f Hy Hne. destruct (HB2 y o f Hy Hne). by apply Hhd, Hh.
  - intros y Hy. apply Hf. destruct Hy as [->|Hy]; [by left|right]. intros Hi%Hin. apply Hy. by exists i.
Qed.

Lemma linked_hole bcbs m B h E o o' : linked bcbs m B h E → B !! h = Some (o, false) →
  linked bcbs m (<[h := (o', false)]> B) h E.
Proof.
  intros (L & HL & Hlen & Hin & Hh) HB. exists L. split; [done|]. split; [done|]. split.
  - intros i x. rewrite Hin. destruct (decide (x = h)) as [->|].
    + rewrite HB, lookup_insert_eq. split; (intros [?|?]; [congruence|by right]).
    + by rewrite lookup_insert_ne.
  - intros x o2 f Hx Hne. rewrite lookup_insert_ne in Hx by done. by apply Hh.
Qed.

(** Busy addresses are not in the lists. *)
Lemma busy_unlisted B h x E : tiles B → busy B h x → (∀ i y, E i y → y = h) → is_Some (B !! h) ∨ (∀ i y, ¬ E i y) →
  ¬ ∃ i, B !! x = Some (order_of i, true) ∨ E i x.
Proof.
  intros T Hb HE Hh (i & [Hx|Hx]).
  - by destruct (busy_start _ _ _ _ _ T Hb Hx).
  - destruct Hh as [[[o f] Hh]|Hh]; [|by destruct (Hh i x)]. rewrite (HE i x Hx) in Hb.
    destruct (busy_start _ _ _ _ _ T Hb Hh). done.
Qed.

(** ** Splitting *)

Lemma coalesced_split B x o f : tiles B → coalesced B → B !! x = Some (o + 1, f) → 4 ≤ o →
  coalesced (<[x + 2 ^ o := (o, true)]> (<[x := (o, false)]> B)).
Proof.
  intros T C Hx Ho. destruct (tile_each _ T _ _ _ Hx) as (HoM & Ha & Hlo & _).
  assert (Hpos : 0 < 2 ^ o) by lia.
  assert (Hbud : buddy_of x o = x + 2 ^ o).
  { destruct (buddy_halves x o) as (lo & Hal & _ & [[-> Hb]|[-> Hb]]); [lia|done| |done|].
    - by apply (aligned_le o (o + 1)); [lia|].
    - exfalso. assert (E1 : 2 ^ (o + 1) = 2 * 2 ^ o) by (rewrite Z.pow_add_r by lia; lia).
      pose proof (aligned_lt _ (lo - pool) (lo + 2 ^ o - pool) Hal Ha ltac:(lia)). lia. }
  intros y o2 Hy Ho2 Hb.
  apply lookup_insert_Some in Hy as [[<- [= <-]]|[Hne [[<- [=]]|[Hne2 Hy]]%lookup_insert_Some]].
  - rewrite <-Hbud, buddy_invol, lookup_insert_ne, lookup_insert_eq in Hb by lia. done.
  - apply lookup_insert_Some in Hb as [[Eb [= <-]]|[_ [[_ [=]]|[_ Hb]]%lookup_insert_Some]].
    + rewrite <-Hbud in Eb. apply Hne2. rewrite <-(buddy_invol x o), Eb. apply buddy_invol.
    + by apply (C y o2).
Qed.

(** What splitting keeps: the blocks in use, and their memory. *)
Definition kept (B : Blocks) (m : Mem) (B' : Blocks) (m' : Mem) (h : Z) : Prop :=
  (∀ x o, x ≠ h → B !! x = Some (o, false) ↔ B' !! x = Some (o, false)) ∧
  (∀ x, busy B h x → m' !! x = m !! x).

Lemma split_step bcbs m B x o E : mem_wf m → tiles B → coalesced B → linked bcbs m B x E →
  (∀ i y, E i y → y = x) → B !! x = Some (o + 1, false) → 4 ≤ o →
  ∃ b b' bcbs' m', let B' := <[x + 2 ^ o := (o, true)]> (<[x := (o, false)]> B) in
    upd m (x + 2 ^ o) (λ b, Some (buddycontrolblock_setTag b true)) = Some (<[x + 2 ^ o := b]> m) ∧
    upd (<[x + 2 ^ o := b]> m) (x + 2 ^ o) (λ b, buddycontrolblock_setOrder b o) = Some (<[x + 2 ^ o := b']> m) ∧
    _buddy_listInsert bcbs (<[x + 2 ^ o := b']> m) (o - SHD_BUDDY_PART_MIN_ORDER) (x + 2 ^ o) = Some (bcbs', m') ∧
    mem_wf m' ∧ tiles B' ∧ coalesced B' ∧ linked bcbs' m' B' x E ∧ kept B m B' m' x.
Proof.
  intros W T C HL HE Hx Ho. destruct (tile_each _ T _ _ _ Hx) as (HoM & Ha & Hlo & Hhi).
  assert (E1 : 2 ^ (o + 1) = 2 * 2 ^ o) by (rewrite Z.pow_add_r by lia; lia). assert (Hpos : 0 < 2 ^ o) by lia.
  assert (T' := tiles_split B x o false false true T Hx Ho). set (s := x + 2 ^ o) in *.
  set (B' := <[s := (o, true)]> (<[x := (o, false)]> B)) in *.
  assert (Hs : B !! s = None).
  { destruct (B !! s) as [[o2 f2]|] eqn:Hs; [|done]. pose proof (tile_disj _ T _ _ _ _ _ _ Hx Hs ltac:(lia)). lia. }
  assert (HEs : ∀ i, ¬ E i s) by (intros i Hi%HE; lia).
  assert (Has : (8 | s - pool)).
  { apply (aligned_le 3 o); [lia|]. replace (s - pool) with (x - pool + 2 ^ o) by lia.
    apply Z.divide_add_r; [|done]. by apply (aligned_le o (o + 1)); [lia|]. }
  destruct (W s ltac:(lia) Has) as (o0 & t0 & H0). pose proof (hdr_order _ _ _ _ H0).
  destruct (upd_hdr m s o0 t0 (λ b, Some (buddycontrolblock_setTag b true)) o0 true H0) as (b1 & U1 & H1);
    [intros; by rewrite pack_setTag by done|done|].
  destruct (upd_hdr _ s o0 true (λ b, buddycontrolblock_setOrder b o) o true H1) as (b2 & U2 & H2);
    [intros; apply pack_setOrder; lia|lia|]. rewrite insert_insert_eq in U2, H2.
  destruct (linked_insert bcbs (<[s := b2]> m) (<[x := (o, false)]> B) x E s o) as (bcbs' & m' & I & HL' & Hf & Hhd); auto.
  { apply linked_write; [by eapply linked_hole|done|]. left. by rewrite lookup_insert_ne by lia. }
  { left. by rewrite lookup_insert_ne by lia. }
  exists b1, b2, bcbs', m'. cbn zeta. split; [done|]. split; [done|]. split; [done|].
  split; [eapply mem_wf_hdrs; [by eapply mem_wf_write|done]|]. split; [done|]. split; [by eapply coalesced_split|].
  split; [by rewrite decide_False in HL' by lia|]. split.
  - intros y o2 Hne. unfold B'. destruct (decide (y = s)) as [->|Hne2].
    + rewrite lookup_insert_eq. split; [congruence|by intros [=]].
    + by rewrite !lookup_insert_ne.
  - intros y Hy. pose proof (busy_out _ _ _ _ _ T Hy Hx). rewrite Hf.
    + apply lookup_insert_ne. lia.
    + lia.
    + intros (i & Hi). eapply busy_unlisted; [exact T|exact Hy|exact HE|left; by eexists|].
      exists i. destruct Hi as [Hi|Hi]; [left|by right].
      apply lookup_insert_Some in Hi as [[_ [=]]|[_ Hi]]. done.
Qed.

Lemma kept_busy B m B' m' h x : kept B m B' m' h → busy B h x → busy B' h x.
Proof. intros [K _] (y & o & Hy & Hb & Hr). exists y, o. split; [done|]. split; [by apply K|done]. Qed.

Lemma kept_trans B m B1 m1 B2 m2 h : kept B m B1 m1 h → kept B1 m1 B2 m2 h → kept B m B2 m2 h.
Proof.
  intros K1 [K2 F2]. split.
  - intros x o Hne. rewrite <-K2 by done. by apply K1.
  - intros x Hx. rewrite F2 by (by eapply kept_busy). by apply K1.
Qed.

Lemma split_blocks_ok n : ∀ bcbs m B x k E, mem_wf m → tiles B → coalesced B → linked bcbs m B x E →
  (∀ i y, E i y → y = x) → B !! x = Some (k + Z.of_nat n, false) → 4 ≤ k →
  ∃ bcbs' m' B', split_blocks n x (k + Z.of_nat n) bcbs m = Some (bcbs', m') ∧
    mem_wf m' ∧ tiles B' ∧ coalesced B' ∧ linked bcbs' m' B' x E ∧ B' !! x = Some (k, false) ∧ kept B m B' m' x.
Proof.
  induction n as [|n IH]; intros bcbs m B x k E W T C HL HE Hx Hk.
  - exists bcbs, m, B. rewrite Z.add_0_r in Hx. by do 6 (split; [done|]).
  - replace (k + Z.of_nat (S n)) with (k + Z.of_nat n + 1) in * by lia. set (o := k + Z.of_nat n) in *.
    destruct (tile_each _ T _ _ _ Hx) as (HoM & _).
    destruct (split_step bcbs m B x o E) as (b & b' & bcbs1 & m1 & U1 & U2 & I & W1 & T1 & C1 & HL1 & K1);
      [done..|lia|]. cbn zeta in *.
    destruct (IH bcbs1 m1 _ x k E W1 T1 C1 HL1 HE) as (bcbs' & m' & B' & S & W' & T' & C' & HL' & Hx' & K'); [|done|].
    { rewrite lookup_insert_ne, lookup_insert_eq; [done|]. pose proof (Z.pow_pos_nonneg 2 o). lia. }
    exists bcbs', m', B'. split; [|eauto 10 using kept_trans].
    cbn [split_blocks]. rewrite Z.add_simpl_r, uintPow2k_Some by lia. cbn [mbind option_bind].
    rewrite U1. cbn [mbind option_bind]. rewrite U2. cbn [mbind option_bind]. rewrite I. done.
Qed.

(** ** Allocation *)

Lemma pool_lists : buddy_poolMaxOrder (2 ^ M) = M ∧ buddy_metaNumLists (2 ^ M) = Z.of_nat nlists ∧ Z.of_nat nlists = M - 3.
Proof.
  assert (E : buddy_poolMaxOrder (2 ^ M) = M).
  { unfold buddy_poolMaxOrder. rewrite uintLog2_log2, Z.log2_pow2; [done|lia|].
    split; [lia|]. apply Z.pow_lt_mono_r; lia. }
  unfold buddy_metaNumLists, nlists, SHD_BUDDY_PART_MIN_ORDER. rewrite E. lia.
Qed.

Lemma order_pow k : 0 ≤ k < 31 → shmem_util_uintLog2 (2 ^ k) = k.
Proof.
  intros Hk. assert (2 ^ k ≤ 2 ^ 31) by (apply Z.pow_le_mono_r; lia).
  rewrite uintLog2_log2, Z.log2_pow2 by lia. done.
Qed.

(** The search stops at the first list that is not empty. *)
Lemma first_avail_ok bcbs m L n : ∀ i, lists_ok pool bcbs m L → (i + n = length L)%nat →
  ∃ j, first_avail n bcbs (Z.of_nat i) = Some (Z.of_nat j) ∧ (i ≤ j ≤ length L)%nat ∧
    (∀ i' x, (i ≤ i' < j)%nat → ¬ in_list L i' x) ∧
    ((j < length L)%nat → ∃ h, bcbs !! j = Some h ∧ in_list L j h).
Proof.
  induction n as [|n IH]; intros i HL Hlen; cbn [first_avail].
  - exists i. split; [done|]. split; [lia|]. split; [intros; lia|]. lia.
  - rewrite Nat2Z.id. destruct (lists_head pool Hpool bcbs m L i HL ltac:(lia)) as (h & Hh & Hh1 & Hh0).
    rewrite Hh. cbn [mbind option_bind]. destruct (Z.eqb_spec h 0) as [->|Hne].
    + replace (Z.of_nat i + 1) with (Z.of_nat (S i)) by lia.
      destruct (IH (S i) HL ltac:(lia)) as (j & E & Hj & Hbefore & Hat). exists j. split; [done|]. split; [lia|].
      split; [|done]. intros i' x Hi'. destruct (decide (i' = i)) as [->|]; [by apply Hh0|]. apply Hbefore. lia.
    + exists i. split; [done|]. split; [lia|]. split; [intros; lia|]. intros _. eauto.
Qed.

Lemma linked_unhole bcbs m B h E : linked bcbs m B h E → (∀ o f, B !! h = Some (o, f) → hdr m h o f) →
  linked bcbs m B 0 E.
Proof.
  intros (L & HL & Hlen & Hin & Hh) H. exists L. do 3 (split; [done|]). intros x o f Hx _.
  destruct (decide (x = h)) as [->|]; auto.
Qed.

Lemma tiles_0 B : tiles B → B !! 0 = None.
Proof.
  intros T. destruct (B !! 0) as [[o f]|] eqn:H; [|done]. pose proof (tile_each _ T _ _ _ H). lia.
Qed.

(** A request that is larger than twice the pool is not turned down: the
    search starts, and reads, behind the list heads. *)
Lemma buddy_alloc_too_large bcbs m n : length bcbs = nlists → 2 ^ (M + 1) < n + sizeof_BCB ≤ 2 ^ 30 →
  buddy_alloc n bcbs m (2 ^ M) = None.
Proof.
  intros Hlen Hn. unfold sizeof_BCB in *. destruct pool_lists as (_ & En & E). pose proof (Z.pow_le_mono_r 2 4 (M + 1) ltac:(lia) ltac:(lia)).
  assert (Hk : M + 1 < Z.log2_up (n + 8) ≤ 30).
  { split; [rewrite <-(Z.log2_up_lt_pow2 (n + 8) (M + 1)) by lia; lia|].
    apply (Z.log2_up_le_mono (n + 8) (2 ^ 30)). lia. }
  unfold buddy_alloc. rewrite (proj2 (Z.eqb_neq n 0)) by lia. unfold sizeof_BCB.
  rewrite u32_small, roundUpPow2_log2_up by lia. cbn [mbind option_bind]. rewrite order_pow, En by lia.
  change SHD_BUDDY_PART_MIN_ORDER with 4. rewrite (proj2 (Z.ltb_ge _ 0)) by lia.
  replace (Z.to_nat _) with 0%nat by lia. cbn [first_avail mbind option_bind].
  rewrite (proj2 (Z.eqb_neq _ _)), lookup_ge_None_2 by lia. done.
Qed.

(** A free block is claimed; its list still has it. *)
Lemma linked_claim bcbs m B x i : tiles B → linked bcbs m B 0 no_extra → B !! x = Some (order_of i, true) →
  linked bcbs m (<[x := (order_of i, false)]> B) x (λ j y, j = i ∧ y = x).
Proof.
  intros T (L & HL & Hlen & Hin & Hh) Hx. exists L. split; [done|]. split; [done|]. split.
  - intros j y. rewrite Hin. unfold no_extra. destruct (decide (y = x)) as [->|].
    + rewrite Hx, lookup_insert_eq. split; [|by intros [?|[-> _]]; [congruence|left]].
      intros [[= Ej]|[]]. apply order_of_inj in Ej. by right.
    + rewrite lookup_insert_ne by done. tauto.
  - intros y o f Hy Hne. rewrite lookup_insert_ne in Hy by done. apply Hh; [done|].
    intros ->. by rewrite tiles_0 in Hy.
Qed.

(** What [buddy_alloc] promises for a block of order [k]: the smallest free
    block that is large enough, cut to size, or nothing if there is none. *)
Definition alloc_spec (B B' : Blocks) (k res : Z) : Prop :=
  res = 0 ∧ B' = B ∧ (∀ x o, B !! x = Some (o, true) → o < k) ∨
  ∃ a o, res = a + sizeof_BCB ∧ B !! a = Some (o, true) ∧ k ≤ o ∧
    (∀ x o', B !! x = Some (o', true) → k ≤ o' → o ≤ o') ∧
    B' !! a = Some (k, false) ∧
    (∀ x o', x ≠ a → B' !! x = Some (o', false) ↔ B !! x = Some (o', false)).

(** The block is cut, taken out of its list and marked. *)
Lemma alloc_take bcbs m B x i k : pool_inv bcbs m B → B !! x = Some (order_of i, true) → 4 ≤ k ≤ order_of i →
  ∃ bcbs1 m1 bcbs2 m2 m3 B',
    _buddy_alloc_split_blocks x k (order_of i) bcbs m = Some (bcbs1, m1) ∧
    _buddy_listRemove bcbs1 m1 (Z.of_nat i) x = Some (bcbs2, m2) ∧
    upd m2 x (λ b, buddycontrolblock_setOrder (buddycontrolblock_setTag b false) k) = Some m3 ∧
    pool_inv bcbs2 m3 B' ∧ B' !! x = Some (k, false) ∧
    (∀ y o, y ≠ x → B' !! y = Some (o, false) ↔ B !! y = Some (o, false)) ∧
    (∀ y, busy B 0 y → m3 !! y = m !! y).
Proof.
  intros (W & T & C & HL) Hx Hk. pose proof (start_inp _ _ _ _ T Hx) as Ix. unfold inp in Ix.
  set (E := λ j y, j = i ∧ y = x). set (B0 := <[x := (order_of i, false)]> B).
  assert (HE : ∀ j y, E j y → y = x) by (by intros ? ? [_ ->]).
  assert (T0 : tiles B0) by (by eapply tiles_set).
  assert (C0 : coalesced B0).
  { intros y o [[_ [=]]|[Hne Hy]]%lookup_insert_Some Ho [[_ [=]]|[_ Hb]]%lookup_insert_Some. by apply (C y o). }
  pose proof (tile_each _ T _ _ _ Hx) as (Hi & _).
  destruct (split_blocks_ok (Z.to_nat (order_of i - k)) bcbs m B0 x k E) as (bcbs1 & m1 & B1 & S & W1 & T1 & C1 & HL1 & Hx1 & K1);
    try done; try lia.
  { by apply linked_claim. }
  { unfold B0. rewrite lookup_insert_eq. do 2 f_equal. lia. }
  destruct (linked_remove bcbs1 m1 B1 x E i x) as (bcbs2 & m2 & R & HL2 & Hf2 & Hd2); [done|by right|].
  assert (W2 : mem_wf m2) by (by eapply mem_wf_hdrs).
  destruct (mem_wf_start m2 B1 x k false W2 T1 Hx1) as (o0 & t0 & H0). pose proof (hdr_order _ _ _ _ H0).
  destruct (upd_hdr m2 x o0 t0 (λ b, buddycontrolblock_setOrder (buddycontrolblock_setTag b false) k) k false H0)
    as (b3 & U & H3); [intros; rewrite pack_setTag by done; apply pack_setOrder; lia|lia|].
  assert (HL2' : linked bcbs2 m2 B1 x no_extra).
  { apply HL2; [|done]. intros j y. unfold E, no_extra. split.
    - intros [Hy|[]]. split; [by left|]. congruence.
    - intros [[Hy|[-> ->]] Hne]; [by left|done]. }
  exists bcbs1, m1, bcbs2, m2, (<[x := b3]> m2), B1. split; [|split; [done|split; [done|split; [|split; [done|split]]]]].
  - unfold _buddy_alloc_split_blocks. rewrite (proj2 (Z.eqb_neq x 0)) by lia.
    by replace (k + Z.of_nat (Z.to_nat (order_of i - k))) with (order_of i) in S by lia.
  - split; [by eapply mem_wf_write|]. split; [done|]. split; [done|]. apply linked_unhole with x.
    + apply linked_write; [done|by intros ? []|]. right. eauto.
    + intros o f Ho. by simplify_eq.
  - intros y o Hne. destruct K1 as [K1 _]. rewrite <-K1 by done. unfold B0. by rewrite lookup_insert_ne.
  - intros y Hy. assert (Hy0 : busy B0 x y).
    { destruct Hy as (z & o & _ & Hz & Hr). assert (z ≠ x) by congruence. exists z, o. unfold B0. by rewrite lookup_insert_ne. }
    assert (y ≠ x) by (intros ->; by eapply busy_start in Hy0 as [? _]; [|done|unfold B0; apply lookup_insert_eq]).
    rewrite lookup_insert_ne by done. rewrite Hf2.
    + by apply K1.
    + right. apply (busy_unlisted B1 x); eauto. by eapply kept_busy.
Qed.

(** [buddy_alloc] succeeds and does what it promises. *)
Lemma buddy_alloc_ok bcbs m B n : pool_inv bcbs m B → 0 < n → n + sizeof_BCB ≤ 2 ^ (M + 1) →
  ∃ bcbs' m' B' res, buddy_alloc n bcbs m (2 ^ M) = Some (bcbs', m', res) ∧ pool_inv bcbs' m' B' ∧
    alloc_spec B B' (Z.log2_up (n + sizeof_BCB)) res ∧ (∀ x, busy B 0 x → m' !! x = m !! x).
Proof.
  intros I Hn Hn2. pose proof I as (W & T & C & L & HL & Hlen & Hin & Hh). unfold sizeof_BCB in *.
  destruct pool_lists as (_ & Enl & Ezl). set (k := Z.log2_up (n + 8)).
  assert (H28 : 2 ^ (M + 1) ≤ 2 ^ 28) by (apply Z.pow_le_mono_r; lia).
  assert (Hk : 4 ≤ k ≤ M + 1).
  { split; [apply (Z.log2_up_le_mono 9); lia|]. rewrite <-(Z.log2_up_pow2 (M + 1)) by lia. apply Z.log2_up_le_mono. lia. }
  unfold buddy_alloc. rewrite (proj2 (Z.eqb_neq n 0)) by lia. unfold sizeof_BCB.
  rewrite u32_small, roundUpPow2_log2_up by lia. cbn [mbind option_bind]. fold k. rewrite order_pow, Enl by lia.
  change SHD_BUDDY_PART_MIN_ORDER with 4. rewrite (proj2 (Z.ltb_ge (k - 4) 0)) by lia.
  set (i0 := Z.to_nat (k - 4)). replace (k - 4) with (Z.of_nat i0) by lia.
  destruct (first_avail_ok bcbs m L (Z.to_nat (Z.of_nat nlists - Z.of_nat i0)) i0 HL ltac:(lia)) as (j & Ej & Hj & Hbef & Hat).
  rewrite Ej. cbn [mbind option_bind].
  assert (Hmin : ∀ x o, B !! x = Some (o, true) → k ≤ o → Z.of_nat j + 4 ≤ o).
  { intros x o Hx Hko. destruct (decide (Z.of_nat j + 4 ≤ o)); [done|]. exfalso.
    pose proof (tile_each _ T _ _ _ Hx) as (Ho & _). destruct (order_of_nat o Ho) as (Eo & Hlt & _).
    apply (Hbef (Z.to_nat (o - 4)) x); [lia|]. apply Hin. left. by rewrite Eo. }
  destruct (Z.eqb_spec (Z.of_nat j) (Z.of_nat nlists)) as [Eq|Hne].
  - exists bcbs, m, B, 0. split; [done|]. split; [done|]. split; [|done]. left. split; [done|]. split; [done|].
    intros x o Hx. destruct (decide (o < k)); [done|]. pose proof (Hmin x o Hx ltac:(lia)).
    pose proof (tile_each _ T _ _ _ Hx) as (Ho & _). lia.
  - destruct (Hat ltac:(lia)) as (h & Hhd & [Hbh|[]]%Hin). rewrite Nat2Z.id, Hhd. cbn [mbind option_bind].
    destruct (alloc_take bcbs m B h j k I Hbh) as (bcbs1 & m1 & bcbs2 & m2 & m3 & B' & E1 & E2 & E3 & I' & Hh' & K & F).
    { unfold order_of, SHD_BUDDY_PART_MIN_ORDER. lia. }
    change (Z.of_nat j + 4) with (order_of j). rewrite E1. cbn [mbind option_bind]. rewrite E2. cbn [mbind option_bind].
    rewrite E3. cbn [mbind option_bind]. exists bcbs2, m3, B', (h + 8). split; [done|]. split; [done|]. split; [|done].
    right. exists h, (order_of j). split; [done|]. split; [done|]. split; [unfold order_of, SHD_BUDDY_PART_MIN_ORDER; lia|].
    split; [|done]. apply Hmin.
Qed.

(** ** Freeing *)

Lemma computeBuddy_ok x o : 0 ≤ o < 31 → _buddycontrolblock_computeBuddy x o pool = Some (buddy_of x o).
Proof. intros Ho. unfold _buddycontrolblock_computeBuddy. by rewrite uintPow2k_Some. Qed.

Lemma available_hdr m x o t o' : hdr m x o t →
  _buddycontrolblock_buddy_available m x o' = Some (t && (o =? o')).
Proof. intros (b & Hb & _ & <- & <-). unfold _buddycontrolblock_buddy_available. by rewrite Hb. Qed.

(** What joining keeps: the other blocks in use, and their memory. *)
Definition joined (B : Blocks) (m : Mem) (h : Z) (B' : Blocks) (m' : Mem) (h' : Z) : Prop :=
  (∀ x o, B' !! x = Some (o, false) ∧ x ≠ h' ↔ B !! x = Some (o, false) ∧ x ≠ h) ∧
  (∀ x, busy B h x → m' !! x = m !! x).

Lemma joined_busy B m h B' m' h' x : joined B m h B' m' h' → busy B h x → busy B' h' x.
Proof.
  intros [K _] (y & o & Hy & Hb & Hr). destruct (proj2 (K y o) (conj Hb Hy)). by exists y, o.
Qed.

Lemma joined_trans B m h B1 m1 h1 B2 m2 h2 : joined B m h B1 m1 h1 → joined B1 m1 h1 B2 m2 h2 →
  joined B m h B2 m2 h2.
Proof.
  intros K1 [K2 F2]. split.
  - intros x o. rewrite K2. apply K1.
  - intros x Hx. rewrite F2 by (by eapply joined_busy). by apply K1.
Qed.

(** One turn of the loop: the block is joined with its buddy. *)
Lemma join_step bcbs m B x o : mem_wf m → tiles B → coalesced B → linked bcbs m B x no_extra →
  B !! x = Some (o, false) → o < M → B !! buddy_of x o = Some (o, true) →
  let lo := if x <? buddy_of x o then x else buddy_of x o in
  ∃ bcbs' m1 b B', _buddy_listRemove bcbs m (o - SHD_BUDDY_PART_MIN_ORDER) (buddy_of x o) = Some (bcbs', m1) ∧
    upd m1 lo (λ b, buddycontrolblock_setOrder b (o + 1)) = Some (<[lo := b]> m1) ∧
    mem_wf (<[lo := b]> m1) ∧ tiles B' ∧ coalesced B' ∧ linked bcbs' (<[lo := b]> m1) B' lo no_extra ∧
    B' !! lo = Some (o + 1, false) ∧ (∃ t, hdr (<[lo := b]> m1) lo (o + 1) t) ∧
    joined B m x B' (<[lo := b]> m1) lo.
Proof.
  intros W T C HL Hx HoM Hb lo. set (bud := buddy_of x o) in *.
  destruct (tile_each _ T _ _ _ Hx) as (Ho & Ha & Hp & _).
  destruct (order_of_nat o Ho) as (Eo & _ & Ei). assert (Hpos : 0 < 2 ^ o) by lia.
  destruct (linked_remove bcbs m B x no_extra (Z.to_nat (o - 4)) bud HL) as (bcbs' & m1 & R & HL1 & Hf & Hd);
    [left; by rewrite Eo|]. rewrite Ei in R.
  set (hi := if x <? bud then bud else x).
  assert (Hhl : (lo = x ∧ hi = bud ∨ lo = bud ∧ hi = x) ∧ hi = lo + 2 ^ o ∧ (2 ^ (o + 1) | lo - pool)).
  { destruct (buddy_halves x o ltac:(lia) Hp Ha) as (l & Hl & _ & [[E1 E2]|[E1 E2]]); fold bud in E2;
      unfold lo, hi; destruct (Z.ltb_spec x bud); try lia; split; try (by auto); split; try lia; congruence. }
  destruct Hhl as (Hhl & Ehi & Hal). assert (Hne : lo ≠ hi) by lia.
  assert (Hlo : ∃ f, B !! lo = Some (o, f)) by (destruct Hhl as [[-> _]|[-> _]]; eauto).
  assert (Hhi : ∃ f, B !! hi = Some (o, f)) by (destruct Hhl as [[_ ->]|[_ ->]]; eauto).
  destruct Hlo as [f1 Hlo], Hhi as [f2 Hhi].
  set (B' := <[lo := (o + 1, false)]> (delete hi B)).
  assert (T' : tiles B') by (unfold B'; rewrite Ehi in *; by eapply tiles_merge).
  assert (W1 : mem_wf m1) by (by eapply mem_wf_hdrs).
  destruct (mem_wf_start m1 B lo o f1 W1 T Hlo) as (o0 & t0 & H0). pose proof (hdr_order _ _ _ _ H0).
  destruct (upd_hdr m1 lo o0 t0 (λ b, buddycontrolblock_setOrder b (o + 1)) (o + 1) t0 H0) as (b & U & Hb');
    [intros; apply pack_setOrder; lia|lia|].
  assert (Eother : ∀ y, y ≠ lo → y ≠ hi → B' !! y = B !! y).
  { intros y ??. unfold B'. by rewrite lookup_insert_ne, lookup_delete_ne. }
  assert (Elo : B' !! lo = Some (o + 1, false)) by apply lookup_insert_eq.
  assert (Ehi' : B' !! hi = None) by (unfold B'; by rewrite lookup_insert_ne, lookup_delete_eq).
  exists bcbs', m1, b, B'. split; [done|]. split; [done|]. split; [by eapply mem_wf_write|]. split; [done|].
  split.
  { assert (Hsub : ∀ y o2, B' !! y = Some (o2, true) → B !! y = Some (o2, true)).
    { intros y o2 Hy. destruct (decide (y = lo)) as [->|]; [congruence|].
      destruct (decide (y = hi)) as [->|]; [congruence|]. by rewrite Eother in Hy. }
    intros y o2 Hy Ho2 Hy2. by apply (C y o2); auto. }
  split.
  { apply linked_write; [|by intros ? []|right; eauto]. apply HL1.
    - intros j y. unfold no_extra. destruct (decide (y = lo)) as [->|]; [|destruct (decide (y = hi)) as [->|]].
      + rewrite Elo. split; [intros [?|[]]; congruence|]. intros [[Hj|[]] Hn]. destruct Hhl as [[E _]|[E _]]; congruence.
      + rewrite Ehi'. split; [intros [?|[]]; congruence|]. intros [[Hj|[]] Hn]. destruct Hhl as [[_ E]|[_ E]]; congruence.
      + rewrite Eother by done. assert (y ≠ bud) by (destruct Hhl as [[-> ->]|[-> ->]]; done). tauto.
    - intros y o2 f Hy Hn. destruct (decide (y = hi)) as [->|]; [congruence|].
      rewrite Eother in Hy by done. split; [done|]. destruct Hhl as [[-> ->]|[-> ->]]; done. }
  split; [done|]. split; [by exists t0|]. split.
  - intros y o2. destruct (decide (y = lo)) as [->|]; [|destruct (decide (y = hi)) as [->|]].
    + split; [by intros [_ ?]|]. intros [Hy Hn]. destruct Hhl as [[E _]|[E _]]; congruence.
    + rewrite Ehi'. split; [by intros [? _]|]. intros [Hy Hn]. destruct Hhl as [[_ E]|[_ E]]; congruence.
    + rewrite Eother by done. assert (y ≠ x) by (destruct Hhl as [[-> ->]|[-> ->]]; done). tauto.
  - intros y Hy. assert (y ≠ x ∧ y ≠ bud) as [Hy1 Hy2].
    { split; intros ->; [by destruct (busy_start _ _ _ _ _ T Hy Hx)|by destruct (busy_start _ _ _ _ _ T Hy Hb)]. }
    rewrite lookup_insert_ne by (destruct Hhl as [[-> ->]|[-> ->]]; done).
    apply Hf. right. apply (busy_unlisted B x); [done|done|by intros ? ? []|right; by intros ? ? []].
Qed.

Lemma coalesce_ok n : ∀ bcbs m B x o t, mem_wf m → tiles B → coalesced B → linked bcbs m B x no_extra →
  B !! x = Some (o, false) → hdr m x o t → M = o + Z.of_nat n →
  ∃ bcbs' m' x' o' t' B', coalesce n bcbs m pool x o (buddy_of x o) = Some (bcbs', m', x', o') ∧
    mem_wf m' ∧ tiles B' ∧ coalesced B' ∧ linked bcbs' m' B' x' no_extra ∧ B' !! x' = Some (o', false) ∧
    hdr m' x' o' t' ∧ (o' < M → B' !! buddy_of x' o' ≠ Some (o', true)) ∧ joined B m x B' m' x'.
Proof.
  induction n as [|n IH]; intros bcbs m B x o t W T C HL Hx Hh En; cbn [coalesce].
  - exists bcbs, m, x, o, t, B. do 7 (split; [done|]). split; [lia|done].
  - destruct (tile_each _ T _ _ _ Hx) as (Ho & Ha & Hp & _).
    destruct (buddy_block B x o false T Hx ltac:(lia)) as (o1 & f1 & Hb & Hle).
    assert (Hne : buddy_of x o ≠ x).
    { intros E. destruct (buddy_halves x o ltac:(lia) Hp Ha) as (l & _ & _ & Hc). pose proof (Z.pow_pos_nonneg 2 o). lia. }
    pose proof HL as (L & _ & _ & _ & Hhd).
    rewrite (available_hdr _ _ _ _ _ (Hhd _ _ _ Hb Hne)). cbn [mbind option_bind].
    destruct (f1 && (o1 =? o)) eqn:Eav.
    + apply andb_true_iff in Eav as [-> ->%Z.eqb_eq].
      destruct (join_step bcbs m B x o W T C HL Hx ltac:(lia) Hb)
        as (bcbs1 & m1 & b & B1 & R & U & W1 & T1 & C1 & HL1 & Hx1 & (t1 & Hh1) & J1).
      rewrite R. cbn [mbind option_bind]. cbn zeta. rewrite U. cbn [mbind option_bind].
      rewrite computeBuddy_ok by lia. cbn [mbind option_bind].
      destruct (IH _ _ _ _ _ _ W1 T1 C1 HL1 Hx1 Hh1 ltac:(lia)) as (bcbs' & m' & x' & o' & t' & B' & E & W' & T' & C' & HL' & Hx' & Hh' & Hex & J').
      exists bcbs', m', x', o', t', B'. do 8 (split; [done|]). by eapply joined_trans.
    + exists bcbs, m, x, o, t, B. do 7 (split; [done|]). split; [|done]. intros _ E. simplify_eq.
      rewrite Z.eqb_refl in Eav. done.
Qed.

(** What [buddy_free] promises: the block is in use no more, the others are. *)
Definition free_spec (B B' : Blocks) (a : Z) : Prop :=
  ∀ x o, B' !! x = Some (o, false) ↔ B !! x = Some (o, false) ∧ x ≠ a.

(** [buddy_free] of a block in use succeeds and does what it promises. *)
Lemma buddy_free_ok bcbs m B a o : pool_inv bcbs m B → B !! a = Some (o, false) →
  ∃ bcbs' m' B', buddy_free (a + sizeof_BCB) bcbs m pool (2 ^ M) = Some (bcbs', m') ∧ pool_inv bcbs' m' B' ∧
    free_spec B B' a ∧ (∀ x, busy B a x → m' !! x = m !! x).
Proof.
  intros (W & T & C & HL) Ha. destruct (tile_each _ T _ _ _ Ha) as (Ho & _ & Hp & _).
  assert (Hh : hdr m a o false) by (destruct HL as (L & _ & _ & _ & Hh); apply Hh; [done|lia]).
  assert (HL0 : linked bcbs m B a no_extra).
  { destruct HL as (L & H1 & H2 & H3 & Hh'). exists L. do 3 (split; [done|]). intros x o' f Hx _. apply Hh'; [done|].
    intros ->. by rewrite tiles_0 in Hx. }
  destruct pool_lists as (EM & _). unfold buddy_free, buddy_retreiveBCB. unfold sizeof_BCB.
  rewrite (proj2 (Z.eqb_neq (a + 8) 0)), Z.add_simpl_r by lia. pose proof Hh as (b & Hb & _ & Eo & _). rewrite Hb. cbn [mbind option_bind].
  rewrite Eo, EM, computeBuddy_ok by lia. cbn [mbind option_bind].
  destruct (coalesce_ok (Z.to_nat (M - o)) bcbs m B a o false W T C HL0 Ha Hh ltac:(lia))
    as (bcbs1 & m1 & x & o1 & t1 & B1 & E & W1 & T1 & C1 & HL1 & Hx & Hh1 & Hex & J1).
  rewrite E. cbn [mbind option_bind]. pose proof (hdr_order _ _ _ _ Hh1).
  destruct (upd_hdr m1 x o1 t1 (λ b, Some (buddycontrolblock_setTag b true)) o1 true Hh1) as (b2 & U & H2);
    [intros; by rewrite pack_setTag by done|done|]. rewrite U. cbn [mbind option_bind].
  assert (T2 : tiles (<[x := (o1, true)]> B1)) by (by eapply tiles_set).
  destruct (linked_insert bcbs1 (<[x := b2]> m1) B1 x no_extra x o1) as (bcbs' & m' & I & HL' & Hf & Hd); auto.
  { apply linked_write; [done|by intros ? []|right; eauto]. } { eauto. }
  rewrite I, decide_True in * by done. exists bcbs', m', (<[x := (o1, true)]> B1). split; [done|].
  split; [split; [|split; [done|split; [|done]]]|split].
  - eapply mem_wf_hdrs; [by eapply mem_wf_write|done].
  - intros y o2 Hy Ho2 Hb2.
    apply lookup_insert_Some in Hy as [[<- [= <-]]|[Hny Hy]]; apply lookup_insert_Some in Hb2 as [[Eb Eo2]|[Hnb Hb2]].
    + apply (f_equal (λ z, buddy_of z o1)) in Eb as Eb2. rewrite buddy_invol in Eb2.
      destruct (tile_each _ T1 _ _ _ Hx) as (Ho1 & Ha1 & Hp1 & _).
      destruct (buddy_halves x o1 ltac:(lia) Hp1 Ha1) as (l & _ & _ & Hc). pose proof (Z.pow_pos_nonneg 2 o1). lia.
    + by apply Hex.
    + injection Eo2 as <-. rewrite Eb, buddy_invol in Hex. by apply Hex.
    + by apply (C1 y o2).
  - intros y o2. destruct J1 as [J1 _]. rewrite <-J1. destruct (decide (y = x)) as [->|Hne].
    + rewrite lookup_insert_eq. split; [by intros [=]|by intros [_ ?]].
    + rewrite lookup_insert_ne by done. tauto.
  - intros y Hy. assert (Hy1 : busy B1 x y) by (by eapply joined_busy).
    assert (y ≠ x) by (intros ->; by destruct (busy_start _ _ _ _ _ T1 Hy1 Hx)).
    rewrite Hf, lookup_insert_ne; [by apply J1|done|done|].
    apply (busy_unlisted B1 x); [done|done|by intros ? ? []|right; by intros ? ? []].
Qed.

(** ** A new pool *)

Definition new_lists : list (list Z) := replicate (nlists - 1) [] ++ [[pool]].

Lemma new_lists_lookup i x : in_list new_lists i x ↔ i = (nlists - 1)%nat ∧ x = pool.
Proof.
  pose proof pool_lists as (_ & _ & E). unfold in_list, new_lists. split.
  - intros (l & [Hl|(Hge & Hl)]%lookup_app_Some & Hx).
    + apply lookup_replicate in Hl as [-> _]. by apply not_elem_of_nil in Hx.
    + rewrite length_replicate in *. apply list_lookup_singleton_Some in Hl as [Hi <-].
      apply list_elem_of_singleton in Hx. lia.
  - intros [-> ->]. exists [pool]. split; [|by left].
    rewrite lookup_app_r, length_replicate, Nat.sub_diag by (rewrite length_replicate; lia). done.
Qed.

Lemma new_lists_heads : buddy_metaInit pool (2 ^ M) = hdz 0 <$> new_lists.
Proof.
  pose proof pool_lists as (_ & En & E). unfold buddy_metaInit, new_lists. rewrite En, Nat2Z.id.
  rewrite fmap_app, fmap_replicate. change (hdz 0 []) with 0. change (hdz 0 <$> [[pool]]) with [pool].
  replace nlists with ((nlists - 1) + 1)%nat at 2 by lia. rewrite replicate_add.
  rewrite <-(Nat.add_0_r (nlists - 1)) at 1. rewrite insert_app_r_alt by (rewrite length_replicate; lia).
  by rewrite length_replicate, Nat.add_0_r, Nat.sub_diag.
Qed.

Lemma one_tile : tiles {[pool := (M, true)]}.
Proof.
  pose proof (Z.pow_pos_nonneg 2 M ltac:(lia) ltac:(lia)). split.
  - intros x o f [<- [= <- <-]]%lookup_singleton_Some. rewrite Z.sub_diag. split_and!; try lia. apply Z.divide_0_r.
  - intros x y o f o' f' [<- _]%lookup_singleton_Some [<- _]%lookup_singleton_Some. lia.
  - intros y Hy. exists pool, M, true. by rewrite lookup_singleton_eq.
Qed.

Lemma poolInit_ok m0 : mem_wf m0 → ∃ m, buddy_poolInit m0 pool (2 ^ M) = Some m ∧
  pool_inv (buddy_metaInit pool (2 ^ M)) m {[pool := (M, true)]}.
Proof.
  intros W. pose proof pool_lists as (EM & _ & E). destruct (mem_wf_start m0 _ pool M true W one_tile) as (o0 & t0 & H0);
    [apply lookup_singleton_eq|]. pose proof (hdr_order _ _ _ _ H0) as Ho0.
  destruct H0 as (b & Hb & Wb & <- & _). destruct (pack_eta b Wb) as (Eb & _ & Hn & Hp).
  set (b' := pack M 0 true 0).
  assert (N : node (<[pool := b']> m0) pool M true 0 0).
  { exists b'. rewrite lookup_insert_eq. split; [done|]. unfold b', nxt_block, prv_block.
    rewrite pack_order, pack_tag, pack_nxt, pack_prv by lia. split; [apply pack_wf; lia|done]. }
  assert (U : buddy_poolInit m0 pool (2 ^ M) = Some (<[pool := b']> m0)).
  { unfold buddy_poolInit, upd. rewrite Hb. cbn [mbind option_bind]. rewrite Eb, pack_setNxt by lia. cbn [mbind option_bind].
    rewrite pack_setPrv by lia. cbn [mbind option_bind]. rewrite pack_setTag, EM, pack_setOrder by lia. done. }
  exists (<[pool := b']> m0). split; [done|]. split; [eapply mem_wf_write; [done|by eapply node_hdr]|].
  split; [apply one_tile|]. split.
  { intros x o [<- [= <-]]%lookup_singleton_Some Ho. lia. }
  exists new_lists. split; [split; [apply new_lists_heads|]|split; [|split]].
  - intros i l Hl. assert (Hi : l = [] ∨ i = (nlists - 1)%nat ∧ l = [pool]).
    { apply lookup_app_Some in Hl as [Hl|[Hge Hl]]; [apply lookup_replicate in Hl as [-> _]; by left|right].
      rewrite length_replicate in *. apply list_lookup_singleton_Some in Hl as [Hi <-]. split; [lia|done]. }
    destruct Hi as [->|[-> ->]]; [split; [constructor..|done]|]. split; [repeat constructor| |].
    + constructor; [unfold inp; lia|constructor].
    + split; [|done]. replace (order_of (nlists - 1)) with M; [done|]. unfold order_of, SHD_BUDDY_PART_MIN_ORDER. lia.
  - unfold new_lists. rewrite length_app, length_replicate. cbn. lia.
  - intros i x. rewrite new_lists_lookup, lookup_singleton_Some. unfold no_extra, order_of, SHD_BUDDY_PART_MIN_ORDER.
    split; [intros [-> ->]; left; split; [done|]; do 2 f_equal; lia|].
    intros [[<- [= Ho]]|[]]. split; [lia|done].
  - intros x o f [<- [= <- <-]]%lookup_singleton_Some _. by eapply node_hdr.
Qed.

(** When all blocks are free the lists are those of a new pool. *)
Lemma one_block_heads bcbs m : linked bcbs m {[pool := (M, true)]} 0 no_extra → bcbs = buddy_metaInit pool (2 ^ M).
Proof.
  intros (L & HL & Hlen & Hin & _). pose proof pool_lists as (_ & _ & E).
  rewrite new_lists_heads, (lists_heads _ _ _ _ HL). f_equal.
  assert (Hlen' : length new_lists = nlists) by (unfold new_lists; rewrite length_app, length_replicate; cbn; lia).
  apply list_eq_same_length with nlists; [congruence|done|]. intros i l l' Hi Hl Hl'.
  assert (Hel : ∀ x, x ∈ l ↔ x ∈ l').
  { intros x. transitivity (in_list L i x); [split; [by exists l|intros (l0 & ? & ?); by simplify_eq]|].
    transitivity (in_list new_lists i x); [|split; [intros (l0 & ? & ?); by simplify_eq|by exists l']].
    rewrite Hin, new_lists_lookup, lookup_singleton_Some. unfold no_extra, order_of, SHD_BUDDY_PART_MIN_ORDER.
    split; [intros [[<- [= Ho]]|[]]; split; [lia|done]|]. intros [-> ->]. left. split; [done|]. do 2 f_equal. lia. }
  destruct (lists_each _ _ _ _ HL _ _ Hl) as [Hs _ _].
  assert (Hs' : l' = [] ∨ l' = [pool]).
  { unfold new_lists in Hl'. apply lookup_app_Some in Hl' as [Hl'|[_ Hl']]; [left; by apply lookup_replicate in Hl' as [-> _]|right].
    by apply list_lookup_singleton_Some in Hl' as [_ <-]. }
  assert (Hp : l ≡ₚ l').
  { apply NoDup_Permutation; [by apply sorted_NoDup| |done]. destruct Hs' as [->| ->]; [constructor|apply NoDup_singleton]. }
  destruct Hs' as [->| ->]; [by apply Permutation_nil_r|by apply Permutation_singleton_r].
Qed.

(** ** A client of the pool *)

(** [h_live] has the addresses handed out and the sizes asked for. *)
Record Heap := mkHeap {
  h_meta : list Z;
  h_mem : Mem;
  h_live : gmap Z Z;
}.

Inductive Op :=
  | OpAlloc (n : Z)
  | OpFree (p : Z)
  | OpWrite (x : Z) (b : BuddyControlBlock).

Definition run_op (s : Heap) (op : Op) : option (Heap * Z) :=
  match op with
  | OpAlloc n =>
      '(bcbs, m, p) ← buddy_alloc n (h_meta s) (h_mem s) (2 ^ M);
      Some (mkHeap bcbs m (if p =? 0 then h_live s else <[p := n]> (h_live s)), p)
  | OpFree p =>
      '(bcbs, m) ← buddy_free p (h_meta s) (h_mem s) pool (2 ^ M);
      Some (mkHeap bcbs m (delete p (h_live s)), 0)
  | OpWrite x b =>
      m ← upd (h_mem s) x (λ _, Some b);
      Some (mkHeap (h_meta s) m (h_live s), 0)
  end.

(** The word [x] is in the memory that was asked for at [p]. *)
Definition payload (s : Heap) (p x : Z) : Prop := ∃ n, h_live s !! p = Some n ∧ p ≤ x < p + n ∧ (8 | x - p).

(** A client frees what it has, writes what is its own, and does not ask for
    more than twice the pool, which [buddy_alloc] does not check
    ([buddy_alloc_too_large]). *)
Definition allowed (s : Heap) (op : Op) : Prop :=
  match op with
  | OpAlloc n => 0 ≤ n ∧ n + sizeof_BCB ≤ 2 ^ (M + 1)
  | OpFree p => p = 0 ∨ is_Some (h_live s !! p)
  | OpWrite x b => bcb_wf b ∧ ∃ p, payload s p x
  end.

Inductive heap_reach : Heap → Prop :=
  | reach_new m0 m : mem_wf m0 → buddy_poolInit m0 pool (2 ^ M) = Some m →
      heap_reach (mkHeap (buddy_metaInit pool (2 ^ M)) m ∅)
  | reach_op s op s' r : heap_reach s → allowed s op → run_op s op = Some (s', r) → heap_reach s'.

(** The blocks in use are those that were handed out. *)
Definition heap_tiles (s : Heap) (B : Blocks) : Prop :=
  pool_inv (h_meta s) (h_mem s) B ∧
  (∀ p n, h_live s !! p = Some n → 0 < n ∧ B !! (p - sizeof_BCB) = Some (Z.log2_up (n + sizeof_BCB), false)) ∧
  (∀ x o, B !! x = Some (o, false) → is_Some (h_live s !! (x + sizeof_BCB))).

Lemma block_room n : 0 < n → n + sizeof_BCB ≤ 2 ^ Z.log2_up (n + sizeof_BCB).
Proof. intros Hn. unfold sizeof_BCB. apply Z.log2_log2_up_spec. lia. Qed.

Lemma payload_busy s B p x : heap_tiles s B → payload s p x → p - sizeof_BCB ≠ 0 ∧
  (∀ h, h ≠ p - sizeof_BCB → busy B h x) ∧ B !! x = None.
Proof.
  intros ((_ & T & _) & Hl & _) (n & Hn & Hr & _). destruct (Hl p n Hn) as [Hpos Hb].
  pose proof (block_room n Hpos). unfold sizeof_BCB in *. pose proof (tile_each _ T _ _ _ Hb) as (Ho & _ & Hp & _).
  split; [lia|]. split; [intros h Hh; exists (p - 8), (Z.log2_up (n + 8)); split; [done|]; split; [done|lia]|].
  destruct (B !! x) as [[o f]|] eqn:Hx; [|done].
  pose proof (tile_disj _ T _ _ _ _ _ _ Hb Hx ltac:(lia)). lia.
Qed.

Lemma alloc_tiles s B bcbs m B' n res : heap_tiles s B → 0 < n → pool_inv bcbs m B' →
  alloc_spec B B' (Z.log2_up (n + sizeof_BCB)) res →
  heap_tiles (mkHeap bcbs m (if res =? 0 then h_live s else <[res := n]> (h_live s))) B'.
Proof.
  intros (I & Hl & Hu) Hn I' [(-> & -> & _)|(a & o & -> & Ha & _ & _ & Ha' & K)]; [by split|].
  pose proof I as (_ & T & _). pose proof (tile_each _ T _ _ _ Ha) as (_ & _ & Hp & _).
  rewrite (proj2 (Z.eqb_neq _ 0)) by (unfold sizeof_BCB; lia). split; [done|]. cbn [h_live]. split.
  - intros p n' [[<- <-]|[Hne Hp']]%lookup_insert_Some; [by rewrite Z.add_simpl_r|].
    destruct (Hl p n' Hp') as [? Hb]. split; [done|]. apply K; [|done]. intros E. congruence.
  - intros x o' Hx. destruct (decide (x = a)) as [->|Hne]; [rewrite lookup_insert_eq; by eexists|].
    rewrite lookup_insert_ne by lia. eapply Hu. by apply K.
Qed.

Lemma free_tiles s B bcbs m B' p : heap_tiles s B → is_Some (h_live s !! p) → pool_inv bcbs m B' →
  free_spec B B' (p - sizeof_BCB) → heap_tiles (mkHeap bcbs m (delete p (h_live s))) B'.
Proof.
  intros (I & Hl & Hu) Hp I' F. split; [done|]. cbn [h_live]. split.
  - intros q n [Hne Hq]%lookup_delete_Some. destruct (Hl q n Hq) as [? Hb]. split; [done|]. apply F. split; [done|lia].
  - intros x o [Hx Hne]%F. rewrite lookup_delete_ne by lia. by eapply Hu.
Qed.

(** Every operation a client may ask for succeeds and keeps the invariant,
    and it leaves the memory of the other blocks as it was. *)
Lemma run_op_ok s B op : heap_tiles s B → allowed s op →
  ∃ s' r B', run_op s op = Some (s', r) ∧ heap_tiles s' B' ∧
    (∀ p x, payload s p x → op ≠ OpFree p → (∀ b, op ≠ OpWrite x b) → h_mem s' !! x = h_mem s !! x) ∧
    match op with
    | OpAlloc n => 0 < n → alloc_spec B B' (Z.log2_up (n + sizeof_BCB)) r
    | _ => True
    end.
Proof.
  intros HT Ha. pose proof HT as (I & Hl & Hu). destruct op as [n|p|x b]; cbn [run_op allowed] in *.
  - destruct (decide (n = 0)) as [->|].
    { exists s, 0, B. split; [by destruct s|]. split; [done|]. split; [done|]. lia. }
    destruct (buddy_alloc_ok _ _ _ n I) as (bcbs' & m' & B' & res & E & I' & S & F); [lia..|].
    rewrite E. cbn [mbind option_bind]. eexists _, res, B'. split; [done|]. split; [eapply alloc_tiles; [done|lia|done..]|].
    split; [|done]. intros p x Hp _ _. destruct (payload_busy _ _ _ _ HT Hp) as (Hne & Hb & _). by apply F, Hb.
  - destruct (decide (p = 0)) as [->|Hp0].
    { exists s, 0, B. split; [|done]. cbn. destruct s as [bm m lv]. cbn in *. do 2 f_equal. f_equal.
      apply delete_id. destruct (lv !! 0) as [n|] eqn:E; [|done]. destruct (Hl 0 n E) as [_ Hb].
      destruct I as (_ & T & _). pose proof (tile_each _ T _ _ _ Hb). unfold sizeof_BCB in *. lia. }
    destruct Ha as [?|[n Hn]]; [done|]. destruct (Hl p n Hn) as [Hpos Hb].
    destruct (buddy_free_ok _ _ _ _ _ I Hb) as (bcbs' & m' & B' & E & I' & S & F).
    rewrite Z.sub_add in E. rewrite E. cbn [mbind option_bind]. eexists _, 0, B'. split; [done|].
    split; [by eapply free_tiles|]. split; [|done]. intros q x Hq Hne _.
    destruct (payload_busy _ _ _ _ HT Hq) as (_ & Hbz & _). apply F, Hbz. intros Eq. apply Hne. f_equal. lia.
  - destruct Ha as [Wb (p & Hp)]. destruct (payload_busy _ _ _ _ HT Hp) as (Hne & Hbz & HBx).
    destruct I as (W & T & C & HL). destruct Hp as (n & Hn & Hr & Hdiv). destruct (Hl p n Hn) as [Hpos Hb].
    pose proof (block_room n Hpos) as Hroom. pose proof (tile_each _ T _ _ _ Hb) as (Ho & Had & Hp & Ht). unfold sizeof_BCB in *.
    assert (H8 : (8 | x - pool)).
    { replace (x - pool) with ((x - p) + ((p - 8 - pool) + 8)) by lia.
      apply Z.divide_add_r; [done|]. apply Z.divide_add_r; [|done]. apply (aligned_le 3 (Z.log2_up (n + 8))); [lia|done]. }
    destruct (W x ltac:(lia) H8) as (o & t & (b0 & Hb0 & _)). unfold upd. rewrite Hb0. cbn [mbind option_bind].
    eexists _, 0, B. split; [done|]. split; [|split; [|done]].
    + split; [|done]. cbn [h_meta h_mem]. split; [|split; [done|split; [done|]]].
      * eapply (mem_wf_write _ x b); [done|]. exists b. rewrite lookup_insert_eq. done.
      * apply linked_write; [done|by intros ? []|by left].
    + cbn [h_mem]. intros q y _ _ Hy. apply lookup_insert_ne. intros <-. by apply (Hy b).
Qed.

Lemma reach_tiles s : heap_reach s → ∃ B, heap_tiles s B.
Proof.
  induction 1 as [m0 m W E|s op s' r Hr [B IH] Ha E].
  - destruct (poolInit_ok m0 W) as (m' & E' & I). simplify_eq. exists {[pool := (M, true)]}. split; [done|].
    cbn [h_live]. split; [by intros ? ? ?%lookup_empty_Some|]. by intros x o [_ [=]]%lookup_singleton_Some.
  - destruct (run_op_ok s B op IH Ha) as (s2 & r2 & B2 & E2 & HT & _). simplify_eq. eauto.
Qed.

(** ** What the allocator promises *)

(** C20: [buddy_alloc] of a pool in order, asked for at most twice the pool with
    the control block counted, returns without a failed assertion or a stray
    access.  It takes the smallest free block that is large enough for the
    request and its control block, cuts it to the least power of two that is,
    and leaves the blocks in use and their memory alone; it returns [NULL]
    exactly if no free block is large enough.  A larger request, of up to
    [2 ^ 30] bytes, is not turned down: it reads behind the list heads. *)
Theorem buddy_alloc_refines bcbs m B n : pool_inv bcbs m B → 0 < n → n + sizeof_BCB ≤ 2 ^ 30 →
  if decide (n + sizeof_BCB ≤ 2 ^ (M + 1)) then
    ∃ bcbs' m' B' res, buddy_alloc n bcbs m (2 ^ M) = Some (bcbs', m', res) ∧ pool_inv bcbs' m' B' ∧
      alloc_spec B B' (Z.log2_up (n + sizeof_BCB)) res ∧
      (res = 0 ↔ ∀ x o, B !! x = Some (o, true) → 2 ^ o < n + sizeof_BCB) ∧
      (∀ x, busy B 0 x → m' !! x = m !! x)
  else buddy_alloc n bcbs m (2 ^ M) = None.
Proof.
  intros I Hn Hn30. case_decide as Hn2.
  2:{ apply buddy_alloc_too_large; [|lia]. destruct I as (_ & _ & _ & L & [HL _] & Hlen & _). by rewrite HL, length_fmap. }
  destruct (buddy_alloc_ok _ _ _ _ I Hn Hn2) as (bcbs' & m' & B' & res & E & I' & S & F).
  exists bcbs', m', B', res. do 3 (split; [done|]). split; [|done]. pose proof I as (_ & T & _).
  assert (Hlt : ∀ o, 4 ≤ o → o < Z.log2_up (n + sizeof_BCB) ↔ 2 ^ o < n + sizeof_BCB).
  { intros o Ho. symmetry. apply Z.log2_up_lt_pow2. unfold sizeof_BCB. lia. }
  split.
  - intros ->. destruct S as [(_ & _ & S)|(a & o & Ha & Hb & _)].
    + intros x o Hx. pose proof (tile_each _ T _ _ _ Hx). apply Hlt; [lia|]. by eapply S.
    + pose proof (tile_each _ T _ _ _ Hb). unfold sizeof_BCB in *. lia.
  - intros H. destruct S as [(-> & _)|(a & o & _ & Hb & Hle & _)]; [done|].
    pose proof (tile_each _ T _ _ _ Hb). apply H, Hlt in Hb; lia.
Qed.

(** C19: Whatever a client does with a pool that asks for at most twice the
    pool at a time - asking for memory, freeing what it got and writing
    anything into it - no operation fails, the memory that
    is handed out is in the pool, aligned and apart from all other memory that
    is handed out and its control blocks, and it keeps its contents until its
    owner writes or frees it. *)
Theorem heap_safe s : heap_reach s →
  (∀ op, allowed s op → ∃ s' r, run_op s op = Some (s', r) ∧
    (∀ p x, payload s p x → op ≠ OpFree p → (∀ b, op ≠ OpWrite x b) → h_mem s' !! x = h_mem s !! x)) ∧
  (∀ p n, h_live s !! p = Some n → 0 < n ∧ pool + sizeof_BCB ≤ p ∧ p + n ≤ pool + 2 ^ M ∧ (8 | p - pool)) ∧
  (∀ p n q n', h_live s !! p = Some n → h_live s !! q = Some n' → p < q → p + n ≤ q - sizeof_BCB).
Proof.
  intros [B HT]%reach_tiles. pose proof HT as ((_ & T & _) & Hl & _). split; [|split].
  - intros op Ha. destruct (run_op_ok s B op HT Ha) as (s' & r & B' & E & _ & F & _). eauto.
  - intros p n Hn. destruct (Hl p n Hn) as [Hpos Hb]. pose proof (block_room n Hpos).
    pose proof (tile_each _ T _ _ _ Hb) as (Ho & Ha & Hp & Ht). unfold sizeof_BCB in *.
    do 3 (split; [lia|]). replace (p - pool) with (p - 8 - pool + 8) by lia. apply Z.divide_add_r; [|done].
    apply (aligned_le 3 (Z.log2_up (n + 8))); [lia|done].
  - intros p n q n' Hn Hn' Hlt. destruct (Hl p n Hn) as [Hpos Hb]. destruct (Hl q n' Hn') as [_ Hb'].
    pose proof (block_room n Hpos). pose proof (tile_disj _ T _ _ _ _ _ _ Hb Hb' ltac:(lia)). unfold sizeof_BCB in *. lia.
Qed.

(** C32: Nothing stays behind: after any use, once all memory is freed, the
    free lists are those of a new pool, and the whole pool can be handed out
    as one piece again. *)
Theorem all_freed_restores s : heap_reach s → h_live s = ∅ →
  h_meta s = buddy_metaInit pool (2 ^ M) ∧
  ∃ s', run_op s (OpAlloc (2 ^ M - sizeof_BCB)) = Some (s', pool + sizeof_BCB).
Proof.
  intros [B HT]%reach_tiles Hlive. pose proof HT as (I & Hl & Hu).
  assert (EB : B = {[pool := (M, true)]}).
  { destruct I as (_ & T & C & _). apply all_free_one; [done..|]. intros x o f Hx. destruct f; [done|].
    apply Hu in Hx as [n Hn]. by rewrite Hlive in Hn. }
  subst B. split; [destruct I as (_ & _ & _ & HL); by eapply one_block_heads|].
  assert (H16 : 2 ^ 4 ≤ 2 ^ M) by (apply Z.pow_le_mono_r; lia).
  assert (E1 : 2 ^ (M + 1) = 2 * 2 ^ M) by (rewrite Z.pow_add_r by lia; lia).
  destruct (run_op_ok s _ (OpAlloc (2 ^ M - sizeof_BCB)) HT) as (s' & r & B' & E & _ & _ & S).
  { cbn [allowed]. unfold sizeof_BCB in *. lia. }
  exists s'. rewrite E. do 2 f_equal. specialize (S ltac:(unfold sizeof_BCB; lia)).
  rewrite Z.sub_add, Z.log2_up_pow2 in S by lia. destruct S as [(_ & _ & S)|(a & o & -> & Ha & _)].
  - specialize (S pool M (lookup_singleton_eq _ _)). lia.
  - by apply lookup_singleton_Some in Ha as [-> _].
Qed.

End Pool.

(** C0: [buddy_goodPoolSizeNBytes] gives the least power of two that is not
    smaller than the request and at least a smallest block, so that the order
    of the pool is between 4 and 27, or 0 for what no pool can hold. *)
Theorem goodPoolSize_least n : 0 ≤ n < 2 ^ 32 →
  (n ≤ SHD_BUDDY_POOL_MAX_NBYTES → ∃ k, buddy_goodPoolSizeNBytes n = Some (2 ^ k) ∧ 4 ≤ k ≤ 27 ∧
    buddy_poolMaxOrder (2 ^ k) = k ∧ n ≤ 2 ^ k ∧ (∀ j, 4 ≤ j → n ≤ 2 ^ j → k ≤ j)) ∧
  (SHD_BUDDY_POOL_MAX_NBYTES < n → buddy_goodPoolSizeNBytes n = Some 0).
Proof.
  intros Hn. unfold SHD_BUDDY_POOL_MAX_NBYTES, buddy_goodPoolSizeNBytes, SHD_BUDDY_PART_MIN_NBYTES, SHD_BUDDY_POOL_MAX_NBYTES.
  split; [|intros H; by rewrite (proj2 (Z.ltb_lt _ _)) by lia].
  intros H. rewrite (proj2 (Z.ltb_ge _ _)) by lia. destruct (Z.ltb_spec n 16) as [Hlt|Hge].
  - exists 4. split; [done|]. split; [lia|]. split; [apply order_pow; lia|]. split; [lia|]. intros; lia.
  - exists (Z.log2_up n). split; [apply roundUpPow2_log2_up; lia|].
    assert (Hk : 4 ≤ Z.log2_up n ≤ 27).
    { split; [apply (Z.log2_up_le_mono 16); lia|]. apply (Z.log2_up_le_mono n (2 ^ 27)). lia. }
    split; [done|]. split; [apply order_pow; lia|]. split; [apply Z.log2_log2_up_spec; lia|].
    intros j Hj Hnj. rewrite <-(Z.log2_up_pow2 j) by lia. by apply Z.log2_up_le_mono.
Qed.

Lemma goodPoolSize_least_witness : buddy_goodPoolSizeNBytes 5000 = Some 8192 ∧
  ∃ k, buddy_goodPoolSizeNBytes 5000 = Some (2 ^ k) ∧ 4 ≤ k ≤ 27.
Proof.
  split; [reflexivity|]. destruct (goodPoolSize_least 5000 ltac:(lia)) as [H _].
  destruct (H ltac:(unfold SHD_BUDDY_POOL_MAX_NBYTES; lia)) as (k & E & Hk & _). by exists k.
Defined.

(** A pool of [2^M] bytes at [p], filled with zeros. *)
Definition zero_words (p M : Z) : Mem := list_to_map ((λ i, (p + 8 * i, mkBCB 0 0)) <$> seqZ 0 (2 ^ (M - 3))).

Lemma zero_words_wf p M : 3 ≤ M → mem_wf p M (zero_words p M).
Proof.
  intros HM x Hx [q Hq]. assert (E : 2 ^ M = 2 ^ (M - 3) * 8) by (change 8 with (2 ^ 3); rewrite <-Z.pow_add_r by lia; f_equal; lia).
  assert (Hin : q ∈ seqZ 0 (2 ^ (M - 3))) by (apply elem_of_seqZ; lia).
  exists 0, false, (mkBCB 0 0). split; [|by vm_compute]. apply elem_of_list_to_map_1'.
  - intros b (i & [= _ <-] & _)%list_elem_of_fmap. done.
  - apply list_elem_of_fmap. exists q. split; [f_equal; lia|done].
Qed.

(** A pool of 64 bytes at address 64. *)
Definition demo_mem : Mem := zero_words 64 6.

Lemma demo_mem_wf : mem_wf 64 6 demo_mem.
Proof. by apply zero_words_wf. Qed.

Definition demo_new : Heap := mkHeap (buddy_metaInit 64 64) (default ∅ (buddy_poolInit demo_mem 64 64)) ∅.

Lemma demo_heap_reach : heap_reach 64 6 demo_new.
Proof.
  destruct (poolInit_ok 64 6 ltac:(lia) demo_mem demo_mem_wf) as (m & E & _).
  change (2 ^ 6) with 64 in E. unfold demo_new. rewrite E. by apply (reach_new 64 6 demo_mem m demo_mem_wf).
Qed.

(** The heap after [op]. *)
Definition demo_after (s : Heap) (op : Op) : Heap := default s (fst <$> run_op 64 6 s op).

Lemma demo_step s op : heap_reach 64 6 s → allowed 6 s op → is_Some (run_op 64 6 s op) →
  heap_reach 64 6 (demo_after s op).
Proof. intros Hs Ha [[s' r] E]. unfold demo_after. rewrite E. by eapply reach_op. Qed.

Definition demo_used : Heap := demo_after (demo_after demo_new (OpAlloc 20)) (OpAlloc 1).

Lemma demo_used_reach : heap_reach 64 6 demo_used.
Proof.
  apply demo_step; [apply demo_step; [apply demo_heap_reach|cbn; unfold sizeof_BCB; lia|]|cbn; unfold sizeof_BCB; lia|];
    vm_compute; eauto.
Qed.

Lemma buddy_alloc_refines_witness : ∃ bcbs m res,
  buddy_alloc 20 (h_meta demo_new) (h_mem demo_new) (2 ^ 6) = Some (bcbs, m, res) ∧ res ≠ 0.
Proof.
  destruct (poolInit_ok 64 6 ltac:(lia) demo_mem demo_mem_wf) as (m & E & I).
  pose proof (buddy_alloc_refines 64 6 ltac:(lia) ltac:(lia) _ _ _ 20 I ltac:(lia) ltac:(unfold sizeof_BCB; lia)) as H.
  rewrite decide_True in H by (unfold sizeof_BCB; lia). destruct H as (bcbs' & m' & B' & res & Ea & _ & _ & Hres & _).
  exists bcbs', m', res. split.
  - rewrite <-Ea. unfold demo_new. cbn [h_meta h_mem]. change (2 ^ 6) with 64 in E. by rewrite E.
  - intros H0. rewrite Hres in H0. specialize (H0 64 6 (lookup_singleton_eq _ _)). unfold sizeof_BCB in H0. lia.
Defined.

Lemma heap_safe_witness : h_live demo_used !! 72 = Some 20 ∧ h_live demo_used !! 104 = Some 1 ∧
  (∃ s' r, run_op 64 6 demo_used (OpFree 72) = Some (s', r)) ∧ 72 + 20 ≤ 104 - sizeof_BCB.
Proof.
  destruct (heap_safe 64 6 ltac:(lia) ltac:(lia) demo_used demo_used_reach) as (Hop & _ & Hap).
  split; [by vm_compute|]. split; [by vm_compute|]. split.
  - destruct (Hop (OpFree 72)) as (s' & r & E & _); [right; vm_compute; eauto|eauto].
  - by apply (Hap 72 20 104 1); vm_compute.
Defined.

Lemma all_freed_restores_witness :
  let s := demo_after (demo_after demo_used (OpFree 72)) (OpFree 104) in
  h_meta s = buddy_metaInit 64 (2 ^ 6) ∧ h_meta demo_used ≠ h_meta s.
Proof.
  cbn zeta. split; [|by vm_compute]. apply (all_freed_restores 64 6 ltac:(lia) ltac:(lia)); [|by vm_compute].
  apply demo_step; [apply demo_step; [apply demo_used_reach|..]|..]; vm_compute; eauto.
Defined.

End BuddyPool.
