(* ===== verification/CString.v ===== *)
(** * C strings: decimal numbers, searching, copying

    The functions of the C library that the shared memory files use, on
    strings without their final NUL: [printf] of decimal numbers, [strtol] and
    the conversions of [sscanf], [strchr], [strstr] and [strncpy]. *)

From Stdlib Require Import Ascii.
From S2P Require Import Prelude.

Module CString.

Abbreviation Str := (list ascii).

(** A string literal. *)
Definition lit (s : string) : Str := String.list_ascii_of_string s.

Definition code (c : ascii) : Z := Z.of_N (N_of_ascii c).
Definition is_digit (c : ascii) : bool := (48 <=? code c) && (code c <=? 57).
Definition digit (d : Z) : ascii := ascii_of_N (Z.to_N (48 + d)).

(** [isspace] in the C locale. *)
Definition is_space (c : ascii) : bool := (code c =? 32) || (9 <=? code c) && (code c <=? 13).

(** ** Printing *)

Fixpoint dec_digits (fuel : nat) (n : Z) (rest : Str) : Str :=
  match fuel with
  | O => rest
  | S fuel =>
      let rest := digit (n mod 10) :: rest in
      if n <? 10 then rest else dec_digits fuel (n / 10) rest
  end.

(** [%llu] and [%zu]; 20 digits are enough for 64 bits. *)
Definition dec (n : Z) : Str := dec_digits 20 n [].

(** [%lld]. *)
Definition dec_signed (n : Z) : Str := if n <? 0 then "-"%char :: dec (- n) else dec n.

(** ** Parsing *)

Fixpoint skip_spaces (s : Str) : Str :=
  match s with
  | c :: s' => if is_space c then skip_spaces s' else s
  | [] => []
  end.

(** The digits at the front, read on from [n]; the third part says whether
    there were any. *)
Fixpoint read_digits (n : Z) (s : Str) : Z * Str :=
  match s with
  | c :: s' => if is_digit c then read_digits (n * 10 + (code c - 48)) s' else (n, s)
  | [] => (n, [])
  end.

Definition starts_with_digit (s : Str) : bool := match s with c :: _ => is_digit c | [] => false end.

(** White space, a sign and digits; [None] without digits. *)
Definition read_signed (s : Str) : option (Z * Str) :=
  let s := skip_spaces s in
  let '(neg, s) := match s with
                   | c :: s' => if (code c =? 45) then (true, s') else if code c =? 43 then (false, s') else (false, s)
                   | [] => (false, [])
                   end in
  if starts_with_digit s then
    let '(n, s) := read_digits 0 s in Some (if neg : bool then - n else n, s)
  else None.

Definition LONG_MAX : Z := 2 ^ 63 - 1.
Definition LONG_MIN : Z := - 2 ^ 63.
Definition INT_MAX : Z := 2 ^ 31 - 1.
Definition INT_MIN : Z := - 2 ^ 31.

(** [strtol] with base 10: saturating, 0 if there is no number. *)
Definition strtol (s : Str) : Z :=
  match read_signed s with
  | Some (n, _) => Z.max LONG_MIN (Z.min LONG_MAX n)
  | None => 0
  end.

(** [%zu] of [sscanf]: as [strtoul], which negates modulo 2^64. *)
Definition scan_size (s : Str) : option (Z * Str) :=
  '(n, s) ← read_signed s;
  Some (if UINT64_MAX <? Z.abs n then UINT64_MAX else u64 n, s).

(** [%s] of [sscanf]. *)
Fixpoint take_word (s : Str) : Str :=
  match s with
  | c :: s' => if is_space c then [] else c :: take_word s'
  | [] => []
  end.

Definition scan_word (s : Str) : option Str :=
  let w := take_word (skip_spaces s) in
  if decide (w = []) then None else Some w.

(** A literal character of the format. *)
Definition scan_char (c : ascii) (s : Str) : option Str :=
  match s with
  | c' :: s' => if decide (c' = c) then Some s' else None
  | [] => None
  end.

(** ** Searching and copying *)

(** [strchr]: the rest from the first [c] on. *)
Fixpoint strchr (s : Str) (c : ascii) : option Str :=
  match s with
  | c' :: s' => if decide (c' = c) then Some s else strchr s' c
  | [] => None
  end.

Definition prefix_b (p s : Str) : bool := bool_decide (p `prefix_of` s).

(** [strstr]: the rest from the first occurrence of [p] on. *)
Fixpoint strstr (s p : Str) : option Str :=
  if prefix_b p s then Some s else
  match s with
  | _ :: s' => strstr s' p
  | [] => None
  end.

(** [strncpy] into a buffer of [n] bytes that were 0. *)
Definition strncpy (n : Z) (s : Str) : Str := take (Z.to_nat n) s.

(** [snprintf] into a buffer of [n] bytes. *)
Definition snprintf (n : Z) (s : Str) : Str := take (Z.to_nat (n - 1)) s.

(** ** Facts *)

Lemma code_digit d : 0 ≤ d < 10 → code (digit d) = 48 + d.
Proof. intros Hd. unfold code, digit. rewrite N_ascii_embedding by lia. lia. Qed.

Lemma digit_is_digit d : 0 ≤ d < 10 → is_digit (digit d) = true.
Proof. intros Hd. unfold is_digit. rewrite code_digit by done. apply andb_true_iff. rewrite !Z.leb_le. lia. Qed.

Lemma is_digit_not_space c : is_digit c = true → is_space c = false ∧ code c ≠ 45 ∧ code c ≠ 43.
Proof.
  unfold is_digit, is_space. rewrite andb_true_iff, !Z.leb_le. intros Hc. split; [|lia].
  apply orb_false_iff. rewrite andb_false_iff, Z.eqb_neq, !Z.leb_gt. lia.
Qed.

(** Printing puts digits in front, and reading them gives the number. *)
Lemma read_dec_digits fuel : ∀ n rest, 0 ≤ n < 10 ^ Z.of_nat fuel →
  read_digits 0 (dec_digits fuel n rest) = read_digits n rest.
Proof.
  induction fuel as [|fuel IH]; intros n rest Hn; [cbn in *; by replace n with 0 by lia|].
  replace (Z.of_nat (S fuel)) with (Z.of_nat fuel + 1) in Hn by lia. rewrite Z.pow_add_r in Hn by lia.
  pose proof (Z.mod_pos_bound n 10 ltac:(lia)). pose proof (Z.div_mod n 10 ltac:(lia)).
  cbn [dec_digits]. destruct (Z.ltb_spec n 10).
  - cbn [read_digits]. rewrite digit_is_digit, code_digit by lia. f_equal. rewrite Z.mod_small by lia. lia.
  - rewrite IH by (split; [apply Z.div_pos; lia|apply Z.div_lt_upper_bound; lia]).
    cbn [read_digits]. rewrite digit_is_digit, code_digit by lia. f_equal. lia.
Qed.

Lemma dec_digits_app fuel : ∀ n rest, dec_digits fuel n rest = dec_digits fuel n [] ++ rest.
Proof.
  induction fuel as [|fuel IH]; intros n rest; [done|]. cbn [dec_digits]. case_match; [done|].
  rewrite IH, (IH _ [_]), <-app_assoc. done.
Qed.

Lemma dec_digits_all fuel : ∀ n rest c, c ∈ dec_digits fuel n rest → 0 ≤ n → is_digit c = true ∨ c ∈ rest.
Proof.
  induction fuel as [|fuel IH]; intros n rest c Hc Hn; [by right|]. cbn [dec_digits] in Hc.
  pose proof (Z.mod_pos_bound n 10 ltac:(lia)).
  assert (Hr : c ∈ digit (n mod 10) :: rest → is_digit c = true ∨ c ∈ rest).
  { intros [->|?]%elem_of_cons; [left; by apply digit_is_digit|by right]. }
  case_match; [auto|]. apply IH in Hc; [|apply Z.div_pos; lia]. destruct Hc; auto.
Qed.

Lemma dec_digits_nonempty fuel : ∀ n rest, fuel ≠ O ∨ rest ≠ [] → dec_digits fuel n rest ≠ [].
Proof.
  induction fuel as [|fuel IH]; intros n rest H; [by destruct H|]. cbn [dec_digits]. case_match; [done|].
  apply IH. by right.
Qed.

Lemma dec_digits_length fuel : ∀ n rest, (length (dec_digits fuel n rest) ≤ fuel + length rest)%nat.
Proof.
  induction fuel as [|fuel IH]; intros n rest; [done|]. cbn [dec_digits]. case_match; cbn; [lia|].
  etransitivity; [apply IH|]. cbn. lia.
Qed.

Lemma dec_head n : 0 ≤ n → ∃ c s, dec n = c :: s ∧ is_digit c = true.
Proof.
  intros Hn. destruct (dec n) as [|c s] eqn:E; [by apply dec_digits_nonempty in E; [|left]|].
  exists c, s. split; [done|]. destruct (dec_digits_all 20 n [] c) as [?|H]; [|done|done|by apply not_elem_of_nil in H].
  unfold dec in E. rewrite E. by left.
Qed.

(** Reading what was printed gives the number and the rest. *)
Lemma read_dec n rest : 0 ≤ n < 10 ^ 20 → starts_with_digit rest = false →
  read_signed (dec n ++ rest) = Some (n, rest).
Proof.
  intros Hn Hr. destruct (dec_head n ltac:(lia)) as (c & s & E & Hc).
  assert (Ed : read_digits 0 (dec n ++ rest) = (n, rest)).
  { unfold dec. rewrite <-dec_digits_app, read_dec_digits by lia. destruct rest as [|d rest]; [done|].
    cbn in *. by rewrite Hr. }
  destruct (is_digit_not_space c Hc) as (Hs & H45 & H43).
  rewrite E in *. cbn [app] in *. unfold read_signed. cbn [skip_spaces]. rewrite Hs.
  rewrite (proj2 (Z.eqb_neq _ 45)), (proj2 (Z.eqb_neq _ 43)) by done. cbn [starts_with_digit]. by rewrite Hc, Ed.
Qed.

Lemma scan_dec n rest : 0 ≤ n < 2 ^ 64 → starts_with_digit rest = false →
  scan_size (dec n ++ rest) = Some (n, rest).
Proof.
  intros Hn Hr. unfold scan_size. rewrite read_dec by (done || lia). cbn [mbind option_bind].
  rewrite Z.abs_eq, u64_small, (proj2 (Z.ltb_ge _ _)) by (unfold UINT64_MAX; lia). done.
Qed.

Lemma strtol_dec n rest : 0 ≤ n < 2 ^ 63 → starts_with_digit rest = false → strtol (dec n ++ rest) = n.
Proof.
  intros Hn Hr. unfold strtol. rewrite read_dec by (done || lia). unfold LONG_MIN, LONG_MAX. lia.
Qed.

Lemma take_word_all s : (∀ c, c ∈ s → is_space c = false) → take_word s = s ∧ skip_spaces s = s.
Proof.
  induction s as [|c s IH]; intros H; [done|]. cbn. rewrite (H c) by (by left).
  destruct IH as [-> _]; [|done]. intros d Hd. apply H. by right.
Qed.

Lemma scan_word_all s : s ≠ [] → (∀ c, c ∈ s → is_space c = false) → scan_word s = Some s.
Proof.
  intros Hs H. destruct (take_word_all s H) as [Et Es]. unfold scan_word. rewrite Es, Et. by rewrite decide_False.
Qed.

Lemma strchr_app s1 s2 c : (c ∉ s1) → strchr (s1 ++ c :: s2) c = Some (c :: s2).
Proof.
  induction s1 as [|d s1 IH]; cbn; intros Hc; [by rewrite decide_True|].
  apply not_elem_of_cons in Hc as [Hne Hc]. rewrite decide_False by done. auto.
Qed.

Lemma strstr_Some s p : is_Some (strstr s p) ↔ ∃ s1 s2, s = s1 ++ p ++ s2.
Proof.
  induction s as [|c s IH]; cbn; unfold prefix_b; case_bool_decide as Hp.
  - split; [intros _|by eexists]. destruct Hp as [k Hp]. by exists [], k.
  - split; [by intros [? ?]|]. intros (s1 & s2 & E). destruct Hp. exists s2. by destruct s1, p.
  - split; [intros _|by eexists]. destruct Hp as [k ->]. by exists [], k.
  - rewrite IH. split; [intros (s1 & s2 & ->); by exists (c :: s1), s2|].
    intros (s1 & s2 & E). destruct s1 as [|c' s1]; [destruct Hp; by exists s2|]. injection E as _ ->. by exists s1, s2.
Qed.

Lemma dec_length n : (length (dec n) ≤ 20)%nat.
Proof. unfold dec. etransitivity; [apply dec_digits_length|]. done. Qed.

Lemma dec_no c n : 0 ≤ n → is_digit c = false → c ∉ dec n.
Proof. intros Hn Hc Hin. apply dec_digits_all in Hin as [?|Hin]; [congruence|by apply not_elem_of_nil in Hin|done]. Qed.

Lemma dec_no_space n c : 0 ≤ n → c ∈ dec n → is_space c = false.
Proof. intros Hn Hc. apply dec_digits_all in Hc as [Hc|Hc]; [by apply is_digit_not_space in Hc as [? _]|by apply not_elem_of_nil in Hc|done]. Qed.

End CString.
