(* ===== verification/ShmFile.v ===== *)
(** * Shared memory files and their removal
    (src/phantom/src/main/shmem/shmem_file.c, shmem_cleanup.c)

    A shared memory file has a name made of the time and of the process that
    made it.  A start of the simulator removes the files whose process is gone,
    which it finds by reading the number of the process back from the name.
    The directory is the set of its names; the clock, the process number, the
    page size, the address of a mapping and the list of running processes come
    from the operating system and are parameters.  A call of [panic] ends the
    process and is [None] here, as a failed assertion. *)

From Stdlib Require Import Ascii.
From S2P Require Import Prelude CString.

Module ShmFile.
Import CString.

(** ** Names *)

Definition SHADOW_PREFIX : Str := lit "shadow_shmemfile".
Definition PID_DELIM : ascii := "-".

(** [NAME_MAX] is 255. *)
Definition SHD_SHMEM_FILE_NAME_NBYTES : Z := if 255 <? 256 then 255 else 256.

Record ShMemFile := mkFile {
  f_p : Z;
  f_nbytes : Z;
  f_name : Str;
}.

#[export] Instance shmemfile_eta : Eta ShMemFile := fun f => mkFile (f_p f) (f_nbytes f) (f_name f).

(** [ts] is the clock, seconds and nanoseconds. *)
Definition _shmemfile_getName (ts : Z * Z) (pid : Z) (nbytes : Z) : option Str :=
  if negb (3 <=? nbytes) then None else
  Some (snprintf (Z.min SHD_SHMEM_FILE_NAME_NBYTES nbytes)
    (lit "/" ++ SHADOW_PREFIX ++ lit "_" ++ dec ts.1 ++ lit "." ++ dec ts.2 ++ [PID_DELIM] ++ dec_signed pid)).

Definition shmemfile_nameHasShadowPrefix (name : Str) : bool :=
  match strstr name SHADOW_PREFIX with Some _ => true | None => false end.

Definition shmemfile_pidFromName (name : Str) : Z :=
  match strchr name "-" with
  | Some delim =>
      let x := strtol (drop 1 delim) in
      if (x =? 0) || (INT_MAX <? x) || (x <=? INT_MIN) then -1 else i32 x
  | None => -1
  end.

(** ** Files *)

(** The directory of shared memory. *)
Abbreviation Dir := (gset Str).

Section Files.
Context (page : Z).

Definition _shmemfile_roundUpToMultiple (x multiple : Z) : option Z :=
  if multiple =? 0 then None else Some (u64 (u64 (x + multiple - 1) / multiple * multiple)).

Definition shmemfile_goodSizeNBytes (requested_nbytes : Z) : option Z :=
  _shmemfile_roundUpToMultiple requested_nbytes page.

(** [addr] is what [mmap] returns, [None] if it fails. *)
Definition shmemfile_alloc (dir : Dir) (ts : Z * Z) (pid : Z) (addr : option Z) (nbytes : Z)
    : option (Dir * ShMemFile) :=
  if (nbytes =? 0) || negb (nbytes mod page =? 0) then None else
  name ← _shmemfile_getName ts pid SHD_SHMEM_FILE_NAME_NBYTES;
  if decide (name ∈ dir) then None else
  p ← addr;
  Some ({[name]} ∪ dir, mkFile p nbytes name).

Definition shmemfile_map (dir : Dir) (addr : option Z) (name : Str) (nbytes : Z) : option ShMemFile :=
  if (nbytes =? 0) || negb (nbytes mod page =? 0) then None else
  let name := strncpy SHD_SHMEM_FILE_NAME_NBYTES name in
  if decide (name ∈ dir) then p ← addr; Some (mkFile p nbytes name) else None.

(** A mapping that exists is unmapped without an error. *)
Definition shmemfile_unmap (shmf : ShMemFile) : Z := 0.

Definition shmemfile_free (dir : Dir) (shmf : ShMemFile) : option Dir :=
  if shmemfile_unmap shmf =? 0 then
    if decide (f_name shmf ∈ dir) then Some (dir ∖ {[f_name shmf]}) else None
  else Some dir.

(** ** Removing what dead processes left *)

(** [entries] are the names in the directory, which lack the slash. *)
Definition _shmemcleanup_getFiles (entries : list Str) : list Str :=
  filter (λ f, shmemfile_nameHasShadowPrefix f = true) entries.

Definition _shmemcleanup_unlinkIfShadow (dir : Dir) (filename : Str) (proc_set : gset Z) : Dir * bool :=
  let cleanup :=
    shmemfile_nameHasShadowPrefix filename &&
    (let pid := shmemfile_pidFromName filename in
     (0 <? pid) && negb (bool_decide (pid ∈ proc_set))) in
  if cleanup then
    let name_buf := "/"%char :: strncpy (SHD_SHMEM_FILE_NAME_NBYTES - 1) filename in
    if decide (name_buf ∈ dir) then (dir ∖ {[name_buf]}, true) else (dir, false)
  else (dir, false).

Fixpoint cleanup_files (dir : Dir) (files : list Str) (proc_set : gset Z) (n_removed : Z) : Dir * Z :=
  match files with
  | [] => (dir, n_removed)
  | f :: files =>
      let '(dir, did_remove) := _shmemcleanup_unlinkIfShadow dir f proc_set in
      cleanup_files dir files proc_set (if did_remove then n_removed + 1 else n_removed)
  end.

(** [None]: the directory, or the list of processes, could not be read. *)
Definition shmemcleanup_tryCleanup (dir : Dir) (entries : option (list Str)) (proc_set : option (gset Z)) : Dir * Z :=
  match entries with
  | None => (dir, 0)
  | Some entries =>
      match proc_set with
      | None => (dir, 0)
      | Some proc_set => cleanup_files dir (_shmemcleanup_getFiles entries) proc_set 0
      end
  end.

End Files.

(** ** The process is found again in the name *)

Lemma lit_app s c : lit (String c s) = c :: lit s.
Proof. done. Qed.

Definition file_name (ts : Z * Z) (pid : Z) : Str :=
  SHADOW_PREFIX ++ lit "_" ++ dec ts.1 ++ lit "." ++ dec ts.2 ++ [PID_DELIM] ++ dec_signed pid.

Lemma dec_signed_pos pid : 0 ≤ pid → dec_signed pid = dec pid.
Proof. intros Hp. unfold dec_signed. by rewrite (proj2 (Z.ltb_ge pid 0)) by lia. Qed.

Lemma file_name_length ts pid : 0 ≤ pid → (length (file_name ts pid) ≤ 79)%nat.
Proof.
  intros Hp. unfold file_name. rewrite dec_signed_pos by done. rewrite !length_app.
  pose proof (dec_length ts.1). pose proof (dec_length ts.2). pose proof (dec_length pid).
  change (length SHADOW_PREFIX) with 16%nat. cbn [length lit String.list_ascii_of_string]. lia.
Qed.

Lemma getName_ok ts pid : 0 ≤ pid →
  _shmemfile_getName ts pid SHD_SHMEM_FILE_NAME_NBYTES = Some ("/"%char :: file_name ts pid).
Proof.
  intros Hp. unfold _shmemfile_getName. cbn [negb Z.leb]. change (negb (3 <=? SHD_SHMEM_FILE_NAME_NBYTES)) with false.
  cbv iota. f_equal. pose proof (file_name_length ts pid Hp) as Hl. unfold snprintf.
  change (Z.to_nat (Z.min SHD_SHMEM_FILE_NAME_NBYTES SHD_SHMEM_FILE_NAME_NBYTES - 1)) with 254%nat.
  change (lit "/" ++ SHADOW_PREFIX ++ lit "_" ++ dec ts.1 ++ lit "." ++ dec ts.2 ++ [PID_DELIM] ++ dec_signed pid)
    with ("/"%char :: file_name ts pid).
  apply take_ge. cbn [length]. lia.
Qed.

Lemma file_name_prefix ts pid : shmemfile_nameHasShadowPrefix (file_name ts pid) = true.
Proof.
  unfold shmemfile_nameHasShadowPrefix. destruct (proj2 (strstr_Some (file_name ts pid) SHADOW_PREFIX)) as [x ->]; [|done].
  by eexists [], _.
Qed.

Lemma file_name_pid ts pid : 0 ≤ ts.1 → 0 ≤ ts.2 → 0 < pid < 2 ^ 31 → shmemfile_pidFromName (file_name ts pid) = pid.
Proof.
  intros H1 H2 Hp. unfold shmemfile_pidFromName.
  set (s1 := SHADOW_PREFIX ++ lit "_" ++ dec ts.1 ++ lit "." ++ dec ts.2).
  assert (E : file_name ts pid = s1 ++ "-"%char :: dec_signed pid).
  { unfold file_name, s1. by rewrite <-!app_assoc. }
  assert (Hs1 : "-"%char ∉ s1).
  { unfold s1. rewrite !not_elem_of_app. split_and!; try (by apply dec_no); by apply (bool_decide_unpack _). }
  rewrite E, strchr_app by done. rewrite dec_signed_pos by lia.
  change (drop 1 ("-"%char :: dec pid)) with (dec pid).
  assert (Ex : strtol (dec pid) = pid) by (rewrite <-(app_nil_r (dec pid)); apply strtol_dec; [lia|done]).
  cbn zeta. rewrite Ex.
  rewrite (proj2 (Z.eqb_neq _ 0)), (proj2 (Z.ltb_ge INT_MAX pid)), (proj2 (Z.leb_gt pid INT_MIN))
    by (unfold INT_MAX, INT_MIN; lia). cbn [orb]. unfold i32, swrap. rewrite Z.mod_small; lia.
Qed.

(** ** What is removed *)

(** [x] was left by a process that does not run. *)
Definition orphan (procs : gset Z) (x : Str) : Prop :=
  ∃ f, x = "/"%char :: f ∧ shmemfile_nameHasShadowPrefix f = true ∧
    0 < shmemfile_pidFromName f ∧ shmemfile_pidFromName f ∉ procs.

Lemma unlink_ok dir f procs : (length f ≤ 254)%nat → "/"%char :: f ∈ dir →
  let '(dir', b) := _shmemcleanup_unlinkIfShadow dir f procs in
  (b = true ∧ orphan procs ("/"%char :: f) ∧ dir' = dir ∖ {["/"%char :: f]}) ∨
  (b = false ∧ (¬ orphan procs ("/"%char :: f)) ∧ dir' = dir).
Proof.
  intros Hl Hin. unfold _shmemcleanup_unlinkIfShadow.
  assert (Et : strncpy (SHD_SHMEM_FILE_NAME_NBYTES - 1) f = f) by (apply take_ge; exact Hl).
  rewrite Et, decide_True by done.
  destruct (shmemfile_nameHasShadowPrefix f) eqn:Ep; cbn [andb].
  2: { right. split; [done|]. split; [|done]. intros (f' & [= <-] & ? & _). congruence. }
  cbn zeta. destruct (Z.ltb_spec 0 (shmemfile_pidFromName f)) as [Hp|Hp]; cbn [andb].
  2: { right. split; [done|]. split; [|done]. intros (f' & [= <-] & _ & ? & _). lia. }
  case_bool_decide as Hr; cbn [negb]; [right|left]; (split; [done|]); (split; [|done]).
  - by intros (f' & [= <-] & _ & _ & ?).
  - by exists f.
Qed.

Lemma cleanup_files_ok procs files : ∀ dir n,
  (∀ f, f ∈ files → (length f ≤ 254)%nat ∧ "/"%char :: f ∈ dir) → NoDup files →
  let '(dir', n') := cleanup_files dir files procs n in
  (∀ x, x ∈ dir' ↔ x ∈ dir ∧ ¬ (orphan procs x ∧ ∃ f, f ∈ files ∧ x = "/"%char :: f)) ∧
  n' = n + Z.of_nat (size dir) - Z.of_nat (size dir').
Proof.
  induction files as [|f files IH]; intros dir n Hf Hnd; cbn [cleanup_files].
  { split; [|lia]. intros x. split; [|tauto]. intros Hx. split; [done|]. by intros (_ & f & ?%not_elem_of_nil & _). }
  apply NoDup_cons in Hnd as [Hnf Hnd]. destruct (Hf f ltac:(by left)) as [Hl Hin].
  pose proof (unlink_ok dir f procs Hl Hin) as Hu.
  destruct (_shmemcleanup_unlinkIfShadow dir f procs) as [dir1 b].
  assert (Hf1 : ∀ g, g ∈ files → (length g ≤ 254)%nat ∧ "/"%char :: g ∈ dir1).
  { intros g Hg. destruct (Hf g ltac:(by right)) as [Hgl Hgin]. split; [done|].
    destruct Hu as [(_ & _ & ->)|(_ & _ & ->)]; [|done]. apply elem_of_difference. split; [done|].
    intros [= ->]%elem_of_singleton. done. }
  specialize (IH dir1 (if b then n + 1 else n) Hf1 Hnd).
  destruct (cleanup_files dir1 files procs _) as [dir' n'] eqn:E. destruct IH as [Hx Hn].
  destruct Hu as [(-> & Ho & ->)|(-> & Ho & ->)].
  - split.
    + intros x. rewrite Hx, elem_of_difference, elem_of_singleton. split.
      * intros [[Hd Hne] H]. split; [done|]. intros (Hox & g & [->|Hg]%elem_of_cons & ->); [done|]. apply H. eauto.
      * intros [Hd H]. split; [split; [done|]|]; [intros ->; apply H; split; [done|]; exists f; split; [by left|done]|].
        intros (Hox & g & Hg & ->). apply H. split; [done|]. exists g. split; [by right|done].
    + rewrite Hn. rewrite size_difference by (by apply singleton_subseteq_l). rewrite size_singleton.
      assert (Hz : size dir ≠ 0%nat).
      { intros Hz%size_empty_inv. rewrite Hz in Hin. by apply not_elem_of_empty in Hin. }
      lia.
  - split; [|done]. intros x. rewrite Hx. split; (intros [Hd H]; split; [done|]); intros (Hox & g & Hg & ->); apply H; (split; [done|]).
    + apply elem_of_cons in Hg as [->|Hg]; [done|eauto].
    + exists g. split; [by right|done].
Qed.

(** Cleaning up removes exactly the files that a process made that does
    not run any more: a file that [shmemfile_alloc] named stays exactly if the
    process in its name is running, files of other programs stay, and the
    number that is reported is the number of files that are gone. *)
Theorem cleanup_exact dir entries procs : NoDup entries →
  (∀ f, f ∈ entries ↔ "/"%char :: f ∈ dir) → (∀ f, f ∈ entries → (length f ≤ 254)%nat) →
  let '(dir', n) := shmemcleanup_tryCleanup dir (Some entries) (Some procs) in
  (∀ x, (∃ f, x = "/"%char :: f) → x ∈ dir' ↔ x ∈ dir ∧ ¬ orphan procs x) ∧
  (∀ ts pid name, 0 ≤ ts.1 → 0 ≤ ts.2 → 0 < pid < 2 ^ 31 →
    _shmemfile_getName ts pid SHD_SHMEM_FILE_NAME_NBYTES = Some name → name ∈ dir → name ∈ dir' ↔ pid ∈ procs) ∧
  n = Z.of_nat (size dir) - Z.of_nat (size dir').
Proof.
  intros Hnd Hdir Hlen. unfold shmemcleanup_tryCleanup.
  pose proof (cleanup_files_ok procs (_shmemcleanup_getFiles entries) dir 0) as H.
  destruct (cleanup_files dir (_shmemcleanup_getFiles entries) procs 0) as [dir' n].
  destruct H as [Hx Hn]; [|by apply NoDup_filter|].
  { intros f [_ Hf]%list_elem_of_filter. split; [by apply Hlen|by apply Hdir]. }
  assert (Hex : ∀ x, (∃ f, x = "/"%char :: f) → x ∈ dir' ↔ x ∈ dir ∧ ¬ orphan procs x).
  { intros x [f ->]. rewrite Hx. split; (intros [Hd H]; split; [done|]).
    - intros Ho. apply H. split; [done|]. exists f. split; [|done]. pose proof Ho as (f' & [= <-] & Hp & _).
      apply list_elem_of_filter. split; [done|by apply Hdir].
    - by intros [? _]. }
  split; [done|]. split; [|lia]. intros ts pid name H1 H2 Hp Hname Hd. rewrite getName_ok in Hname by lia. injection Hname as <-.
  rewrite Hex by eauto. split.
  - intros [_ Ho]. destruct (decide (pid ∈ procs)); [done|]. destruct Ho. exists (file_name ts pid).
    split; [done|]. split; [apply file_name_prefix|]. rewrite file_name_pid by done. split; [lia|done].
  - intros Hr. split; [done|]. intros (f & [= <-] & _ & _ & Hn'). by rewrite file_name_pid in Hn'.
Qed.

Definition demo_entries : list Str := [file_name (5, 600) 77; file_name (7, 80) 78; lit "sem.other"].
Definition demo_dir : gset Str := list_to_set (cons "/"%char <$> demo_entries).

Lemma cleanup_exact_witness :
  let dir' := (shmemcleanup_tryCleanup demo_dir (Some demo_entries) (Some {[78]})).1 in
  ("/"%char :: file_name (5, 600) 77 ∉ dir') ∧ "/"%char :: file_name (7, 80) 78 ∈ dir'.
Proof.
  assert (Hd : ∀ f, f ∈ demo_entries ↔ "/"%char :: f ∈ demo_dir).
  { intros f. unfold demo_dir. rewrite elem_of_list_to_set, list_elem_of_fmap. split; [by exists f|].
    by intros (g & [= ->] & ?). }
  pose proof (cleanup_exact demo_dir demo_entries {[78]}) as H.
  destruct (shmemcleanup_tryCleanup _ _ _) as [dir' n]. cbn zeta. cbn [fst].
  destruct H as (_ & H & _); [by apply (bool_decide_unpack _); vm_compute|done| |].
  { apply Forall_forall, (bool_decide_unpack _). by vm_compute. }
  split.
  - intros Hin. apply (H (5, 600) 77) in Hin; [set_solver|cbn; lia..|by apply getName_ok|]. by apply Hd; left.
  - apply (H (7, 80) 78); [cbn; lia..|by apply getName_ok| |set_solver]. by apply Hd; right; left.
Defined.

End ShmFile.
