(* ===== verification/ShmAllocator.v ===== *)
(** * The shared memory allocator and serializer
    (src/phantom/src/main/shmem/shmem_allocator.c, shmem_allocator.h)

    Small blocks come from pools that a buddy allocator divides, large ones
    have a file of their own.  A block crosses to another process as the name
    of its file and its place in it; there the serializer maps the file, at
    another address, unless it has done so before.  A circular list of nodes
    is the list of its nodes from the head on.  The mutexes are left out: each
    operation holds the one of its object from its start to its end. *)

From Stdlib Require Import Ascii.
From S2P Require Import Prelude CString.
From S2P Require Import Buddy BuddyLists BuddyPool ShmFile.

Module ShmAllocator.
Import CString Buddy ShmFile.

(** ** State *)

Definition SHD_SHMEM_ALLOCATOR_POOL_NBYTES : Z := SHD_BUDDY_POOL_MAX_NBYTES.
Definition SHD_SHMEM_ALLOCATOR_CUTOVER_NBYTES : Z := SHD_SHMEM_ALLOCATOR_POOL_NBYTES / 2 - sizeof_BCB.

(** [pn_mem] is the memory of the pool at the addresses of this process. *)
Record ShMemPoolNode := mkPool {
  file_node : ShMemFile;
  pn_meta : list Z;
  pn_mem : Mem;
}.

Record ShMemAllocator := mkAllocator {
  big_alloc_nodes : list ShMemFile;
  little_alloc_nodes : list ShMemPoolNode;
}.

#[export] Instance allocator_eta : Eta ShMemAllocator := fun a => mkAllocator (big_alloc_nodes a) (little_alloc_nodes a).

Record ShMemBlock := mkBlock { b_p : Z; b_nbytes : Z }.

Record ShMemBlockSerialized := mkSerialized {
  offset : Z;
  nbytes : Z;
  block_nbytes : Z;
  name : Str;
}.

Definition in_file (p : Z) (f : ShMemFile) : bool := (f_p f <=? p) && (p <? f_p f + f_nbytes f).

Definition _shmemfilenode_findPtr {A} (file : A → ShMemFile) (nodes : list A) (p : Z) : option (nat * A) :=
  list_find (λ n, in_file p (file n) = true) nodes.

Definition _shmemfilenode_findName {A} (file : A → ShMemFile) (nodes : list A) (name : Str) : option (nat * A) :=
  list_find (λ n, f_name (file n) = name) nodes.

(** ** The allocator *)

Section Allocator.
Context (page pid : Z).

(** What the operating system does for the next file that is made: the clock,
    the address it is mapped at and its contents. *)
Record Mapping := mkMapping {
  mp_ts : Z * Z;
  mp_addr : Z;
  mp_mem : Mem;
}.

Definition shmempoolnode_create (dir : Dir) (e : Mapping) : option (Dir * ShMemPoolNode) :=
  '(dir, shmf) ← shmemfile_alloc page dir (mp_ts e) pid (Some (mp_addr e)) SHD_SHMEM_ALLOCATOR_POOL_NBYTES;
  m ← buddy_poolInit (mp_mem e) (f_p shmf) SHD_SHMEM_ALLOCATOR_POOL_NBYTES;
  Some (dir, mkPool shmf (buddy_metaInit (f_p shmf) SHD_SHMEM_ALLOCATOR_POOL_NBYTES) m).

Definition shmempoolnode_destroy (dir : Dir) (node : ShMemPoolNode) : option Dir :=
  shmemfile_free dir (file_node node).

Definition shmemallocator_create : ShMemAllocator := mkAllocator [] [].

Fixpoint destroy_nodes (dir : Dir) (nodes : list ShMemPoolNode) : option Dir :=
  match nodes with
  | [] => Some dir
  | node :: nodes => dir ← shmempoolnode_destroy dir node; destroy_nodes dir nodes
  end.

Definition shmemallocator_destroy (dir : Dir) (a : ShMemAllocator) : option Dir := destroy_nodes dir (little_alloc_nodes a).

(** The nodes are numbered from the head; [freed] are those that were freed
    and [fuel] bounds the turns. *)
Fixpoint destroy_walk (fuel : nat) (len node : nat) (freed : gset nat) : option (gset nat) :=
  match fuel with
  | O => None
  | S fuel =>
      if decide (node ∈ freed) then None else
      let next_node := ((node + 1) mod len)%nat in
      let freed := {[next_node]} ∪ freed in
      if decide (next_node = 0%nat) then Some freed else destroy_walk fuel len next_node freed
  end.

(** [None]: a node is read after it was freed. *)
Definition shmemallocator_destroyNoShmDelete (a : ShMemAllocator) : option (gset nat) :=
  match length (little_alloc_nodes a) with
  | O => Some ∅
  | S n => destroy_walk (S n) (S n) 0 ∅
  end.

Definition _shmemallocator_bigAlloc (dir : Dir) (e : Mapping) (a : ShMemAllocator) (nbytes : Z)
    : option (Dir * ShMemAllocator * ShMemBlock) :=
  good_size_nbytes ← shmemfile_goodSizeNBytes page nbytes;
  '(dir, shmf) ← shmemfile_alloc page dir (mp_ts e) pid (Some (mp_addr e)) good_size_nbytes;
  Some (dir, a <| big_alloc_nodes := big_alloc_nodes a ++ [shmf] |>, mkBlock (f_p shmf) nbytes).

(** From the second line on: the loop over the pools stops after its first
    turn, since it starts at the head; then there is a new head.  [env] has
    what the system does for the files to come. *)
Fixpoint little_alloc (env : list Mapping) (dir : Dir) (pool_node : ShMemPoolNode) (rest : list ShMemPoolNode) (nbytes : Z)
    : option (list Mapping * Dir * list ShMemPoolNode * Z) :=
  '(meta, m, p) ← buddy_alloc nbytes (pn_meta pool_node) (pn_mem pool_node) SHD_SHMEM_ALLOCATOR_POOL_NBYTES;
  let pool_node := mkPool (file_node pool_node) meta m in
  if p =? 0 then
    match env with
    | [] => None
    | e :: env =>
        '(dir, new_head) ← shmempoolnode_create dir e;
        little_alloc env dir new_head (pool_node :: rest) nbytes
    end
  else Some (env, dir, pool_node :: rest, p).

Definition _shmemallocator_littleAlloc (env : list Mapping) (dir : Dir) (a : ShMemAllocator) (nbytes : Z)
    : option (list Mapping * Dir * ShMemAllocator * ShMemBlock) :=
  '(env, dir, node, rest) ←
    match little_alloc_nodes a with
    | node :: rest => Some (env, dir, node, rest)
    | [] =>
        match env with
        | [] => None
        | e :: env => '(dir, node) ← shmempoolnode_create dir e; Some (env, dir, node, [])
        end
    end;
  '(env, dir, nodes, p) ← little_alloc env dir node rest nbytes;
  Some (env, dir, a <| little_alloc_nodes := nodes |>, mkBlock p nbytes).

Definition shmemallocator_alloc (env : list Mapping) (dir : Dir) (a : ShMemAllocator) (nbytes : Z)
    : option (list Mapping * Dir * ShMemAllocator * ShMemBlock) :=
  if nbytes =? 0 then Some (env, dir, a, mkBlock 0 0) else
  if SHD_SHMEM_ALLOCATOR_CUTOVER_NBYTES <? nbytes then
    match env with
    | [] => None
    | e :: env => '(dir, a, blk) ← _shmemallocator_bigAlloc dir e a nbytes; Some (env, dir, a, blk)
    end
  else _shmemallocator_littleAlloc env dir a nbytes.

Definition _shmemallocator_bigFree (dir : Dir) (a : ShMemAllocator) (blk : ShMemBlock) : option (Dir * ShMemAllocator) :=
  '(i, needle) ← list_find (λ f, f_p f = b_p blk) (big_alloc_nodes a);
  dir ← shmemfile_free dir needle;
  Some (dir, a <| big_alloc_nodes := delete i (big_alloc_nodes a) |>).

Definition _shmemallocator_littleFree (a : ShMemAllocator) (blk : ShMemBlock) : option ShMemAllocator :=
  '(i, node) ← _shmemfilenode_findPtr file_node (little_alloc_nodes a) (b_p blk);
  '(meta, m) ← buddy_free (b_p blk) (pn_meta node) (pn_mem node) (f_p (file_node node)) SHD_SHMEM_ALLOCATOR_POOL_NBYTES;
  Some (a <| little_alloc_nodes := <[i := mkPool (file_node node) meta m]> (little_alloc_nodes a) |>).

Definition shmemallocator_free (dir : Dir) (a : ShMemAllocator) (blk : ShMemBlock) : option (Dir * ShMemAllocator) :=
  if SHD_SHMEM_ALLOCATOR_CUTOVER_NBYTES <? b_nbytes blk then _shmemallocator_bigFree dir a blk
  else a ← _shmemallocator_littleFree a blk; Some (dir, a).

(** ** Blocks that cross to other processes *)

Definition _shmemblockserialized_populate (blk : ShMemBlock) (shmf : ShMemFile) : ShMemBlockSerialized :=
  mkSerialized (b_p blk - f_p shmf) (f_nbytes shmf) (b_nbytes blk) (strncpy SHD_SHMEM_FILE_NAME_NBYTES (f_name shmf)).

Definition shmemallocator_blockSerialize (a : ShMemAllocator) (blk : ShMemBlock) : option ShMemBlockSerialized :=
  node ← (if SHD_SHMEM_ALLOCATOR_CUTOVER_NBYTES <? b_nbytes blk
          then snd <$> _shmemfilenode_findPtr id (big_alloc_nodes a) (b_p blk)
          else file_node ∘ snd <$> _shmemfilenode_findPtr file_node (little_alloc_nodes a) (b_p blk));
  Some (_shmemblockserialized_populate blk node).

Definition _shmemblock_populate (serial : ShMemBlockSerialized) (shmf : ShMemFile) : ShMemBlock :=
  mkBlock (f_p shmf + offset serial) (block_nbytes serial).

Definition shmemallocator_blockDeserialize (a : ShMemAllocator) (serial : ShMemBlockSerialized) : option ShMemBlock :=
  node ← match _shmemfilenode_findName id (big_alloc_nodes a) (name serial) with
         | Some (_, f) => Some f
         | None => file_node ∘ snd <$> _shmemfilenode_findName file_node (little_alloc_nodes a) (name serial)
         end;
  Some (_shmemblock_populate serial node).

(** The serializer of a process: the files it has mapped. *)
Definition shmemserializer_create : list ShMemFile := [].

Definition shmemserializer_destroy (nodes : list ShMemFile) : option (list ShMemFile) :=
  if forallb (λ f, shmemfile_unmap f =? 0) nodes then Some [] else None.

Definition shmemserializer_blockSerialize (nodes : list ShMemFile) (blk : ShMemBlock) : option ShMemBlockSerialized :=
  '(_, node) ← _shmemfilenode_findPtr id nodes (b_p blk);
  Some (_shmemblockserialized_populate blk node).

Definition shmemserializer_blockDeserialize (dir : Dir) (addr : option Z) (nodes : list ShMemFile)
    (serial : ShMemBlockSerialized) : option (list ShMemFile * ShMemBlock) :=
  '(nodes, node) ←
    match _shmemfilenode_findName id nodes (name serial) with
    | Some (_, node) => Some (nodes, node)
    | None => shmf ← shmemfile_map page dir addr (name serial) (nbytes serial); Some (nodes ++ [shmf], shmf)
    end;
  Some (nodes, _shmemblock_populate serial node).

(** [SHMEM_BLOCK_SERIALIZED_STRFMT] is four fields with commas between them. *)
Definition shmemblockserialized_toString (serial : ShMemBlockSerialized) : Str :=
  dec (offset serial) ++ lit "," ++ dec (nbytes serial) ++ lit "," ++ dec (block_nbytes serial) ++ lit "," ++ name serial.

(** A field that could not be read stays 0; the flag is the error. *)
Definition shmemblockserialized_fromString (buf : Str) : ShMemBlockSerialized * bool :=
  match scan_size buf with
  | None => (mkSerialized 0 0 0 [], true)
  | Some (o, s) =>
      match s ← scan_char "," s; scan_size s with
      | None => (mkSerialized o 0 0 [], true)
      | Some (n, s) =>
          match s ← scan_char "," s; scan_size s with
          | None => (mkSerialized o n 0 [], true)
          | Some (b, s) =>
              match s ← scan_char "," s; scan_word s with
              | None => (mkSerialized o n b [], true)
              | Some w => (mkSerialized o n b w, false)
              end
          end
      end
  end.

End Allocator.
End ShmAllocator.
