(* ===== verification/ShmSafety.v ===== *)
(** * Shared memory blocks are apart and cross between processes
    (src/phantom/src/main/shmem/shmem_allocator.c)

    Over any sequence of allocations, writes and frees the allocator never
    fails, the blocks it hands out are apart, and a block that was written
    down in one process and read in another is the same memory there. *)

From Stdlib Require Import Ascii.
From S2P Require Import Prelude CString.
From S2P Require Import Buddy BuddyLists BuddyPool ShmFile ShmAllocator.

Module ShmSafety.
Import CString Buddy BuddyPool ShmFile ShmAllocator.

(** ** Files that are apart *)

Definition disjoint_files (f g : ShMemFile) : Prop :=
  f_name f ≠ f_name g ∧ (f_p f + f_nbytes f ≤ f_p g ∨ f_p g + f_nbytes g ≤ f_p f).

Fixpoint apart (l : list ShMemFile) : Prop :=
  match l with
  | [] => True
  | f :: l => Forall (disjoint_files f) l ∧ apart l
  end.

Lemma disjoint_files_sym f g : disjoint_files f g → disjoint_files g f.
Proof. intros [H1 H2]. split; [done|]. tauto. Qed.

Lemma apart_perm l l' : l ≡ₚ l' → apart l → apart l'.
Proof.
  induction 1 as [|x l l' Hp IH|x y l|l1 l2 l3 _ IH1 _ IH2]; cbn; [done| | |by auto].
  - intros [H1 H2]. split; [by rewrite <-Hp|auto].
  - rewrite !Forall_cons. intros ([H1 H2] & H3 & H4). split_and!; try done. by apply disjoint_files_sym.
Qed.

Lemma apart_in l f g : apart l → f ∈ l → g ∈ l → f = g ∨ disjoint_files f g.
Proof.
  induction l as [|x l IH]; cbn; [by intros _ ?%not_elem_of_nil|]. intros [Hx Hl]. rewrite Forall_forall in Hx.
  intros [->|Hf]%elem_of_cons [->|Hg]%elem_of_cons; [by left|right; auto|right; by apply disjoint_files_sym; auto|auto].
Qed.

Lemma in_file_iff p f : in_file p f = true ↔ f_p f ≤ p < f_p f + f_nbytes f.
Proof. unfold in_file. rewrite andb_true_iff, Z.leb_le, Z.ltb_lt. done. Qed.

Lemma disjoint_not_in f g p : disjoint_files f g → in_file p f = true → in_file p g = true → False.
Proof. rewrite !in_file_iff. intros [_ ?]. lia. Qed.

(** A file is found by an address in it, and by its name. *)
Lemma findPtr_ok {A} (file : A → ShMemFile) nodes p n : (∀ x y, x ∈ nodes → y ∈ nodes → in_file p (file x) = true →
    in_file p (file y) = true → x = y) →
  n ∈ nodes → in_file p (file n) = true →
  ∃ i, _shmemfilenode_findPtr file nodes p = Some (i, n) ∧ nodes !! i = Some n.
Proof.
  intros Hu Hn Hp. unfold _shmemfilenode_findPtr.
  destruct (list_find_elem_of (λ n, in_file p (file n) = true) nodes n Hn Hp) as [[i m] E]. rewrite E.
  apply list_find_Some in E as (Hi & Hm & _). exists i.
  rewrite (Hu m n); [|by eapply list_elem_of_lookup_2|done..]. split; [done|].
  rewrite Hi. f_equal. apply Hu; [by eapply list_elem_of_lookup_2|done..].
Qed.

Lemma findName_ok {A} (file : A → ShMemFile) nodes n : (∀ x, x ∈ nodes → f_name (file x) = f_name (file n) → x = n) →
  n ∈ nodes → ∃ i, _shmemfilenode_findName file nodes (f_name (file n)) = Some (i, n) ∧ nodes !! i = Some n.
Proof.
  intros Hu Hn. unfold _shmemfilenode_findName.
  destruct (list_find_elem_of (λ m, f_name (file m) = f_name (file n)) nodes n Hn eq_refl) as [[i m] E]. rewrite E.
  apply list_find_Some in E as (Hi & Hm & _). assert (m = n) as -> by (apply Hu; [by eapply list_elem_of_lookup_2|done]). eauto.
Qed.

(** ** The invariant *)

Section Safety.
Context (page pid : Z).
Context (Hpage : 0 < page) (Hdiv : SHD_SHMEM_ALLOCATOR_POOL_NBYTES mod page = 0) (Hpid : 0 < pid < 2 ^ 31).

Abbreviation Blocks := (gmap Z Z).

Definition files (a : ShMemAllocator) : list ShMemFile := big_alloc_nodes a ++ (file_node <$> little_alloc_nodes a).

(** The blocks that are in a pool. *)
Definition in_pool (nd : ShMemPoolNode) (live : Blocks) : Blocks :=
  filter (λ '(p, _), in_file p (file_node nd) = true) live.

Definition pool_heap (nd : ShMemPoolNode) (live : Blocks) : Heap := mkHeap (pn_meta nd) (pn_mem nd) (in_pool nd live).

Definition pool_ok (nd : ShMemPoolNode) (live : Blocks) : Prop :=
  0 < f_p (file_node nd) ∧ f_nbytes (file_node nd) = 2 ^ 27 ∧ ∃ B, heap_tiles (f_p (file_node nd)) 27 (pool_heap nd live) B.

(** The file was made by [shmemfile_alloc]. *)
Definition name_ok (dir : Dir) (f : ShMemFile) : Prop :=
  f_name f ∈ dir ∧ (∃ ts, 0 ≤ ts.1 ∧ 0 ≤ ts.2 ∧ f_name f = "/"%char :: file_name ts pid) ∧
  0 < f_nbytes f < 2 ^ 63 ∧ f_nbytes f mod page = 0.

Record alloc_inv (dir : Dir) (a : ShMemAllocator) (live : Blocks) : Prop := {
  inv_apart : apart (files a);
  inv_names : ∀ f, f ∈ files a → name_ok dir f;
  inv_pools : ∀ nd, nd ∈ little_alloc_nodes a → pool_ok nd live;
  inv_little : ∀ p n, live !! p = Some n → n ≤ SHD_SHMEM_ALLOCATOR_CUTOVER_NBYTES →
    ∃ nd, nd ∈ little_alloc_nodes a ∧ in_file p (file_node nd) = true;
  inv_big : ∀ p n, live !! p = Some n → SHD_SHMEM_ALLOCATOR_CUTOVER_NBYTES < n →
    ∃ f, f ∈ big_alloc_nodes a ∧ f_p f = p ∧ n ≤ f_nbytes f;
  inv_owned : ∀ f, f ∈ big_alloc_nodes a → 0 < f_p f ∧
    ∃ n, live !! f_p f = Some n ∧ SHD_SHMEM_ALLOCATOR_CUTOVER_NBYTES < n ≤ f_nbytes f;
}.

Lemma cutover_lt : SHD_SHMEM_ALLOCATOR_CUTOVER_NBYTES = 2 ^ 26 - 8.
Proof. done. Qed.

(** What the operating system may give for a new file of [nbytes] bytes. *)
Definition fresh_mapping (dir : Dir) (a : ShMemAllocator) (e : Mapping) (nbytes : Z) : Prop :=
  0 ≤ (mp_ts e).1 ∧ 0 ≤ (mp_ts e).2 ∧ ("/"%char :: file_name (mp_ts e) pid ∉ dir) ∧ 0 < mp_addr e ∧
  mem_wf (mp_addr e) 27 (mp_mem e) ∧
  (∀ f, f ∈ files a → mp_addr e + nbytes ≤ f_p f ∨ f_p f + f_nbytes f ≤ mp_addr e).

(** The file of a mapping. *)
Definition mapped (e : Mapping) (nbytes : Z) : ShMemFile := mkFile (mp_addr e) nbytes ("/"%char :: file_name (mp_ts e) pid).

Lemma shmemfile_alloc_ok dir a e nbytes : fresh_mapping dir a e nbytes → 0 < nbytes → nbytes mod page = 0 →
  shmemfile_alloc page dir (mp_ts e) pid (Some (mp_addr e)) nbytes = Some ({[f_name (mapped e nbytes)]} ∪ dir, mapped e nbytes).
Proof.
  intros (_ & _ & Hn & _) Hb Hm. unfold shmemfile_alloc. rewrite (proj2 (Z.eqb_neq nbytes 0)), Hm by lia. cbn [orb negb Z.eqb].
  rewrite getName_ok by lia. cbn [mbind option_bind]. by rewrite decide_False.
Qed.

Lemma fresh_disjoint dir a live e nbytes f : alloc_inv dir a live → fresh_mapping dir a e nbytes → f ∈ files a →
  disjoint_files (mapped e nbytes) f.
Proof.
  intros I (_ & _ & Hn & _ & _ & Hd) Hf. destruct (inv_names _ _ _ I f Hf) as [Hin _]. split; [|by apply Hd].
  intros E. apply Hn. change (f_name (mapped e nbytes) ∈ dir). by rewrite E.
Qed.

Lemma name_ok_mono dir n f : name_ok dir f → name_ok ({[n]} ∪ dir) f.
Proof. intros [H1 H2]. split; [|done]. apply elem_of_union. by right. Qed.

Lemma mapped_name_ok dir a e nbytes : fresh_mapping dir a e nbytes → 0 < nbytes < 2 ^ 63 → nbytes mod page = 0 →
  name_ok ({[f_name (mapped e nbytes)]} ∪ dir) (mapped e nbytes).
Proof.
  intros (H1 & H2 & _). split; [apply elem_of_union; left; by apply elem_of_singleton|]. split; [by exists (mp_ts e)|done].
Qed.

Lemma files_apart dir a live f g p : alloc_inv dir a live → f ∈ files a → g ∈ files a →
  in_file p f = true → in_file p g = true → f = g.
Proof.
  intros I Hf Hg H1 H2. destruct (apart_in _ f g (inv_apart _ _ _ I) Hf Hg) as [?|Hd]; [done|].
  by destruct (disjoint_not_in _ _ _ Hd H1 H2).
Qed.

Lemma pool_in_files a nd : nd ∈ little_alloc_nodes a → file_node nd ∈ files a.
Proof. intros H. apply elem_of_app. right. by apply list_elem_of_fmap_2. Qed.

Lemma big_in_files a f : f ∈ big_alloc_nodes a → f ∈ files a.
Proof. intros H. apply elem_of_app. by left. Qed.
Lemma apart_lookup l i j f g : apart l → l !! i = Some f → l !! j = Some g → i ≠ j → disjoint_files f g.
Proof.
  revert i j. induction l as [|x l IH]; intros i j; [done|]. intros [Hx Hl] Hi Hj Hne. rewrite Forall_forall in Hx.
  destruct i as [|i], j as [|j]; cbn in Hi, Hj; [done| | |by eapply (IH i j); auto].
  - simplify_eq. apply Hx. by eapply list_elem_of_lookup_2.
  - simplify_eq. apply disjoint_files_sym, Hx. by eapply list_elem_of_lookup_2.
Qed.

Lemma pool_apart dir a live i j nd nd2 p : alloc_inv dir a live → little_alloc_nodes a !! i = Some nd →
  little_alloc_nodes a !! j = Some nd2 → in_file p (file_node nd) = true → in_file p (file_node nd2) = true → i = j.
Proof.
  intros I Hi Hj H1 H2. destruct (decide (i = j)) as [|Hne]; [done|].
  assert (Hf : ∀ k n, little_alloc_nodes a !! k = Some n → files a !! (length (big_alloc_nodes a) + k)%nat = Some (file_node n)).
  { intros k n Hk. unfold files. rewrite lookup_app_r, Nat.add_comm, Nat.add_sub by lia. by rewrite list_lookup_fmap, Hk. }
  destruct (disjoint_not_in (file_node nd) (file_node nd2) p); [|done..].
  eapply apart_lookup; [by eapply inv_apart|by apply Hf|by apply Hf|lia].
Qed.

Lemma live_in_file dir a live p n : alloc_inv dir a live → live !! p = Some n → ∃ f, f ∈ files a ∧ in_file p f = true.
Proof.
  intros I Hp. destruct (decide (n ≤ SHD_SHMEM_ALLOCATOR_CUTOVER_NBYTES)) as [Hle|Hgt].
  - destruct (inv_little _ _ _ I p n Hp Hle) as (nd & Hnd & Hin). exists (file_node nd). split; [by apply pool_in_files|done].
  - destruct (inv_big _ _ _ I p n Hp) as (f & Hf & <- & Hn); [lia|]. exists f. split; [by apply big_in_files|].
    apply in_file_iff. rewrite cutover_lt in *. lia.
Qed.

Lemma in_pool_ext nd live live' : (∀ p, in_file p (file_node nd) = true → live' !! p = live !! p) →
  in_pool nd live' = in_pool nd live.
Proof.
  intros H. apply map_eq. intros p. apply option_eq. intros n. unfold in_pool. rewrite !map_lookup_filter_Some.
  split; intros [Hp Hin]; (split; [|done]); [rewrite <-H by done|rewrite H by done]; done.
Qed.

Lemma in_pool_file nd nd' live : file_node nd' = file_node nd → in_pool nd' live = in_pool nd live.
Proof. intros E. unfold in_pool. by rewrite E. Qed.

Lemma pool_ok_ext nd live live' : (∀ p, in_file p (file_node nd) = true → live' !! p = live !! p) →
  pool_ok nd live → pool_ok nd live'.
Proof. intros H (H1 & H2 & B & HB). do 2 (split; [done|]). exists B. unfold pool_heap. by rewrite (in_pool_ext nd live live'). Qed.

(** What lies in a pool is small. *)
Lemma small_in_pool dir a live i nd p n : alloc_inv dir a live → little_alloc_nodes a !! i = Some nd →
  live !! p = Some n → in_file p (file_node nd) = true → n ≤ SHD_SHMEM_ALLOCATOR_CUTOVER_NBYTES.
Proof.
  intros I Hi Hp Hin. destruct (decide (n ≤ SHD_SHMEM_ALLOCATOR_CUTOVER_NBYTES)) as [|Hgt]; [done|]. exfalso.
  destruct (inv_big _ _ _ I p n Hp ltac:(lia)) as (f & [k Hk]%list_elem_of_lookup_1 & <- & Hfn).
  destruct (disjoint_not_in f (file_node nd) (f_p f)); [| |done].
  - eapply (apart_lookup (files a) k (length (big_alloc_nodes a) + i)); [by eapply inv_apart| | |].
    + unfold files. by apply lookup_app_l_Some.
    + unfold files. rewrite lookup_app_r, Nat.add_comm, Nat.add_sub, list_lookup_fmap, Hi by lia. done.
    + apply lookup_lt_Some in Hk. lia.
  - apply in_file_iff. rewrite cutover_lt in *. lia.
Qed.

(** A pool changes, and with it the blocks that are in it. *)
Lemma inv_update_node dir a a' live live' i nd nd' : alloc_inv dir a live → little_alloc_nodes a !! i = Some nd →
  big_alloc_nodes a' = big_alloc_nodes a → little_alloc_nodes a' = <[i := nd']> (little_alloc_nodes a) →
  file_node nd' = file_node nd → pool_ok nd' live' →
  (∀ p, in_file p (file_node nd) = false → live' !! p = live !! p) →
  (∀ p n, live' !! p = Some n → in_file p (file_node nd) = true → n ≤ SHD_SHMEM_ALLOCATOR_CUTOVER_NBYTES) →
  alloc_inv dir a' live'.
Proof.
  intros I Hi Eb El Ef Hok Hout Hin.
  assert (Hfiles : files a' = files a).
  { unfold files. rewrite Eb, El. f_equal. rewrite list_fmap_insert, Ef. apply list_insert_id. by rewrite list_lookup_fmap, Hi. }
  assert (Hnd : nd ∈ little_alloc_nodes a) by (by eapply list_elem_of_lookup_2).
  assert (Hnd' : nd' ∈ little_alloc_nodes a').
  { rewrite El. eapply list_elem_of_lookup_2. apply list_lookup_insert_eq. by eapply lookup_lt_Some. }
  split.
  - rewrite Hfiles. by eapply inv_apart.
  - rewrite Hfiles. by eapply inv_names.
  - intros nd2 [j Hj]%list_elem_of_lookup_1. rewrite El in Hj.
    apply list_lookup_insert_Some in Hj as [(<- & <- & _)|[Hne Hj]]; [done|].
    eapply pool_ok_ext; [|eapply inv_pools; [done|by eapply list_elem_of_lookup_2]].
    intros p Hp. apply Hout. destruct (in_file p (file_node nd)) eqn:E; [|done]. destruct Hne. by eapply pool_apart.
  - intros p n Hp Hle. destruct (in_file p (file_node nd)) eqn:E; [exists nd'; by rewrite Ef|].
    rewrite Hout in Hp by done. destruct (inv_little _ _ _ I p n Hp Hle) as (nd2 & Hnd2 & Hin2). exists nd2. split; [|done].
    apply list_elem_of_lookup_1 in Hnd2 as [j Hj]. rewrite El. eapply list_elem_of_lookup_2 with j.
    rewrite list_lookup_insert_ne; [done|]. intros <-. simplify_eq. congruence.
  - rewrite Eb. intros p n Hp Hgt. destruct (in_file p (file_node nd)) eqn:E; [specialize (Hin p n Hp E); lia|].
    rewrite Hout in Hp by done. exact (inv_big _ _ _ I p n Hp Hgt).
  - rewrite Eb. intros f Hf. destruct (inv_owned _ _ _ I f Hf) as (H0 & n & Hn & Hr). split; [done|]. exists n. split; [|done].
    rewrite Hout; [done|]. destruct (in_file (f_p f) (file_node nd)) eqn:E; [|done].
    pose proof (small_in_pool _ _ _ _ _ _ _ I Hi Hn E). lia.
Qed.

(** ** Contents *)

(** The word at [x] in the pools. *)
Definition content (a : ShMemAllocator) (x : Z) : option BuddyControlBlock :=
  '(_, nd) ← _shmemfilenode_findPtr file_node (little_alloc_nodes a) x; pn_mem nd !! x.

(** [x] is a word of the small block [p]. *)
Definition block_word (live : Blocks) (p x : Z) : Prop :=
  ∃ n, live !! p = Some n ∧ n ≤ SHD_SHMEM_ALLOCATOR_CUTOVER_NBYTES ∧ p ≤ x < p + n ∧ (8 | x - p).

(** The words of the blocks of [live] for which [ok] holds stay. *)
Definition kept (ok : Z → Z → Prop) (live : Blocks) (a a' : ShMemAllocator) : Prop :=
  ∀ p x, block_word live p x → ok p x → content a' x = content a x.

Lemma words_kept_trans ok live a a1 a2 : kept ok live a a1 → kept ok live a1 a2 → kept ok live a a2.
Proof. intros H1 H2 p x Hw Hk. rewrite (H2 p x), (H1 p x); done. Qed.

Lemma content_node dir a live i nd x : alloc_inv dir a live → little_alloc_nodes a !! i = Some nd →
  in_file x (file_node nd) = true → _shmemfilenode_findPtr file_node (little_alloc_nodes a) x = Some (i, nd).
Proof.
  intros I Hi Hx. destruct (findPtr_ok file_node (little_alloc_nodes a) x nd) as (j & E & Hj); [|by eapply list_elem_of_lookup_2|done|].
  - intros y z [k Hk]%list_elem_of_lookup_1 [l Hl]%list_elem_of_lookup_1 Hy Hz.
    assert (k = l) as -> by (by eapply pool_apart). congruence.
  - rewrite E. do 2 f_equal. by eapply pool_apart.
Qed.

Lemma in_pool_lookup nd live p n : in_pool nd live !! p = Some n ↔ live !! p = Some n ∧ in_file p (file_node nd) = true.
Proof. unfold in_pool. by rewrite map_lookup_filter_Some. Qed.

(** A block of a pool lies in it. *)
Lemma pool_block_in nd live p n : pool_ok nd live → live !! p = Some n → in_file p (file_node nd) = true →
  0 < n ∧ f_p (file_node nd) + sizeof_BCB ≤ p ∧ p + n ≤ f_p (file_node nd) + f_nbytes (file_node nd).
Proof.
  intros (H0 & Hn & B & ((_ & T & _) & Hl & _)) Hp Hin.
  destruct (Hl p n) as [Hpos Hb]; [by apply in_pool_lookup|]. pose proof (block_room n Hpos).
  pose proof (tile_each _ _ _ T _ _ _ Hb). unfold sizeof_BCB in *. lia.
Qed.

Lemma block_word_in dir a live p x : alloc_inv dir a live → block_word live p x →
  ∃ i nd, little_alloc_nodes a !! i = Some nd ∧ in_file p (file_node nd) = true ∧ in_file x (file_node nd) = true ∧
    payload (pool_heap nd live) p x.
Proof.
  intros I (n & Hp & Hn & Hx & Hd). destruct (inv_little _ _ _ I p n Hp Hn) as (nd & [i Hi]%list_elem_of_lookup_1 & Hin).
  exists i, nd. split; [done|]. split; [done|].
  destruct (pool_block_in nd live p n) as (_ & H1 & H2); [eapply inv_pools; [done|by eapply list_elem_of_lookup_2]|done..|].
  split; [apply in_file_iff; unfold sizeof_BCB in *; lia|]. exists n. split; [by apply in_pool_lookup|done].
Qed.

Lemma kept_update dir dir' a a' live live' i nd nd' ok : alloc_inv dir a live → alloc_inv dir' a' live' →
  little_alloc_nodes a !! i = Some nd → little_alloc_nodes a' = <[i := nd']> (little_alloc_nodes a) →
  file_node nd' = file_node nd →
  (∀ p x, payload (pool_heap nd live) p x → ok p x → pn_mem nd' !! x = pn_mem nd !! x) → kept ok live a a'.
Proof.
  intros I I' Hi Ea Ef Hm p x Hw Hk. destruct (block_word_in _ _ _ _ _ I Hw) as (j & nd2 & Hj & Hp & Hx & Hpay).
  unfold content. rewrite (content_node _ a live j nd2 x I Hj Hx). cbn [mbind option_bind].
  destruct (decide (i = j)) as [<-|Hne].
  - simplify_eq. rewrite (content_node _ a' live' i nd' x I').
    + cbn [mbind option_bind]. by apply (Hm p).
    + rewrite Ea. apply list_lookup_insert_eq. by eapply lookup_lt_Some.
    + by rewrite Ef.
  - rewrite (content_node _ a' live' j nd2 x I'); [done| |done]. by rewrite Ea, list_lookup_insert_ne.
Qed.

(** ** Small blocks *)

Lemma pool_nbytes : SHD_SHMEM_ALLOCATOR_POOL_NBYTES = 2 ^ 27.
Proof. done. Qed.

(** The buddy allocator is asked in the head pool. *)
Lemma alloc_head dir a live nd rest B n : alloc_inv dir a live → little_alloc_nodes a = nd :: rest →
  heap_tiles (f_p (file_node nd)) 27 (pool_heap nd live) B → 0 < n ≤ SHD_SHMEM_ALLOCATOR_CUTOVER_NBYTES →
  ∃ meta m res, buddy_alloc n (pn_meta nd) (pn_mem nd) SHD_SHMEM_ALLOCATOR_POOL_NBYTES = Some (meta, m, res) ∧
    let a' := a <| little_alloc_nodes := mkPool (file_node nd) meta m :: rest |> in
    (res = 0 ∧ alloc_inv dir a' live ∧ (∀ x o, B !! x = Some (o, true) → o < Z.log2_up (n + sizeof_BCB)) ∨
     res ≠ 0 ∧ live !! res = None ∧ alloc_inv dir a' (<[res := n]> live)) ∧
    kept (λ _ _, True) live a a'.
Proof.
  intros I El HT Hn. assert (H0 : little_alloc_nodes a !! 0%nat = Some nd) by (by rewrite El).
  assert (Hok : pool_ok nd live) by (eapply inv_pools; [done|by eapply list_elem_of_lookup_2]).
  destruct Hok as (Hpos & Hnb & _). rewrite cutover_lt in Hn.
  destruct (run_op_ok (f_p (file_node nd)) 27 Hpos ltac:(lia) (pool_heap nd live) B (OpAlloc n) HT) as (s' & r & B' & E & HT' & F & S).
  { cbn [allowed]. unfold sizeof_BCB. lia. }
  specialize (S ltac:(lia)). cbn [run_op] in E.
  change (h_meta (pool_heap nd live)) with (pn_meta nd) in E. change (h_mem (pool_heap nd live)) with (pn_mem nd) in E.
  rewrite <-pool_nbytes in E. destruct (buddy_alloc n _ _ _) as [[[meta m] res]|] eqn:Eb; [|done].
  cbn [mbind option_bind] in E. injection E as <- <-. exists meta, m, res. split; [done|]. cbn zeta.
  set (nd' := mkPool (file_node nd) meta m). set (a' := a <| little_alloc_nodes := nd' :: rest |>).
  assert (El' : little_alloc_nodes a' = <[0%nat := nd']> (little_alloc_nodes a)) by (by rewrite El).
  assert (Hin : res ≠ 0 → live !! res = None ∧ in_file res (file_node nd) = true).
  { intros Hne. destruct S as [(? & _)|(x & o & -> & Hx & _)]; [done|].
    pose proof HT as ((_ & T & _) & Hl & _). pose proof (tile_each _ _ _ T _ _ _ Hx) as (Ho & _ & Hlo & Hhi).
    assert (in_file (x + sizeof_BCB) (file_node nd) = true) as Hf.
    { apply in_file_iff. rewrite Hnb. unfold sizeof_BCB. assert (2 ^ 4 ≤ 2 ^ o) by (apply Z.pow_le_mono_r; lia). lia. }
    split; [|done]. destruct (live !! (x + sizeof_BCB)) as [n'|] eqn:Hlx; [|done].
    destruct (Hl (x + sizeof_BCB) n') as [_ Hb]; [by apply in_pool_lookup|]. rewrite Z.add_simpl_r in Hb. congruence. }
  assert (I' : alloc_inv dir a' (if res =? 0 then live else <[res := n]> live)).
  { apply (inv_update_node dir a a' live _ 0 nd nd'); try done.
    - split; [done|]. split; [done|]. exists B'. unfold pool_heap. rewrite (in_pool_file nd nd') by done.
      destruct (Z.eqb_spec res 0) as [->|Hne]; [exact HT'|]. destruct (Hin Hne) as [_ Hf].
      replace (in_pool nd (<[res := n]> live)) with (<[res := n]> (in_pool nd live)); [exact HT'|].
      unfold in_pool. by rewrite map_filter_insert_True.
    - intros p Hp. destruct (Z.eqb_spec res 0) as [->|Hne]; [done|]. destruct (Hin Hne) as [_ Hf].
      apply lookup_insert_ne. congruence.
    - intros p n' Hp Hpf. destruct (Z.eqb_spec res 0) as [->|Hne]; [by eapply small_in_pool|].
      apply lookup_insert_Some in Hp as [[<- <-]|[_ Hp]]; [rewrite cutover_lt; lia|by eapply small_in_pool]. }
  split.
  - destruct (Z.eqb_spec res 0) as [->|Hne]; [left|right; by destruct (Hin Hne)].
    split; [done|]. split; [done|]. destruct S as [(_ & _ & S)|(x & o & Hx & Hb & _)]; [done|].
    pose proof HT as ((_ & T & _) & _). pose proof (tile_each _ _ _ T _ _ _ Hb). unfold sizeof_BCB in *. lia.
  - eapply (kept_update dir dir a a' live _ 0 nd nd'); [done|exact I'|done|done|done|].
    intros p x Hp _. by apply (F p x Hp).
Qed.
Lemma no_live_in_fresh dir a live e nbytes p : alloc_inv dir a live → fresh_mapping dir a e nbytes →
  in_file p (mapped e nbytes) = true → live !! p = None.
Proof.
  intros I Fr Hp. destruct (live !! p) as [n|] eqn:Hl; [|done]. destruct (live_in_file _ _ _ _ _ I Hl) as (f & Hf & Hin).
  by destruct (disjoint_not_in _ _ _ (fresh_disjoint _ _ _ _ _ _ I Fr Hf) Hp Hin).
Qed.

(** A new pool comes in front of the others. *)
Lemma new_pool dir a live e : alloc_inv dir a live → fresh_mapping dir a e SHD_SHMEM_ALLOCATOR_POOL_NBYTES →
  ∃ dir' nd, shmempoolnode_create page pid dir e = Some (dir', nd) ∧
    let a' := a <| little_alloc_nodes := nd :: little_alloc_nodes a |> in
    alloc_inv dir' a' live ∧
    heap_tiles (f_p (file_node nd)) 27 (pool_heap nd live) {[f_p (file_node nd) := (27, true)]} ∧
    kept (λ _ _, True) live a a'.
Proof.
  intros I Fr. pose proof Fr as (_ & _ & _ & Hpos & W & _).
  destruct (poolInit_ok (mp_addr e) 27 ltac:(lia) (mp_mem e) W) as (m & Em & Ip).
  set (f := mapped e SHD_SHMEM_ALLOCATOR_POOL_NBYTES). set (nd := mkPool f (buddy_metaInit (f_p f) SHD_SHMEM_ALLOCATOR_POOL_NBYTES) m).
  exists ({[f_name f]} ∪ dir), nd. split.
  { unfold shmempoolnode_create. rewrite (shmemfile_alloc_ok dir a e) by (done || rewrite pool_nbytes; lia).
    cbn [mbind option_bind]. change (f_p (mapped e SHD_SHMEM_ALLOCATOR_POOL_NBYTES)) with (mp_addr e).
    rewrite pool_nbytes in *. by rewrite Em. }
  cbn zeta. set (a' := a <| little_alloc_nodes := nd :: little_alloc_nodes a |>).
  assert (Hempty : in_pool nd live = ∅).
  { apply map_empty. intros p. destruct (in_pool nd live !! p) as [n|] eqn:E; [|done].
    apply in_pool_lookup in E as [E Hin]. by rewrite (no_live_in_fresh _ _ _ _ _ _ I Fr Hin) in E. }
  assert (HT : heap_tiles (f_p (file_node nd)) 27 (pool_heap nd live) {[f_p (file_node nd) := (27, true)]}).
  { split; [exact Ip|]. change (h_live (pool_heap nd live)) with (in_pool nd live). rewrite Hempty.
    split; [by intros ? ? ?%lookup_empty_Some|]. by intros x o [_ [=]]%lookup_singleton_Some. }
  assert (Hperm : files a' ≡ₚ f :: files a) by (unfold files, a'; cbn; by rewrite <-Permutation_middle).
  assert (I' : alloc_inv ({[f_name f]} ∪ dir) a' live).
  { split.
    - eapply apart_perm; [by symmetry|]. split; [|by eapply inv_apart]. apply Forall_forall. intros g Hg.
      by eapply fresh_disjoint.
    - intros g Hg. rewrite Hperm in Hg. apply elem_of_cons in Hg as [->|Hg].
      { by eapply mapped_name_ok; [|rewrite pool_nbytes; lia|]. }
      apply name_ok_mono. by eapply inv_names.
    - intros nd2 [->|Hnd2]%elem_of_cons; [|by eapply inv_pools]. split; [done|]. split; [done|]. eauto.
    - intros p n Hp Hn. destruct (inv_little _ _ _ I p n Hp Hn) as (nd2 & ? & ?). exists nd2. split; [by right|done].
    - apply (inv_big _ _ _ I).
    - apply (inv_owned _ _ _ I). }
  split; [done|]. split; [done|]. intros p x Hw _. destruct (block_word_in _ _ _ _ _ I Hw) as (i & nd2 & Hi & _ & Hx & _).
  unfold content. rewrite (content_node _ a live i nd2 x I Hi Hx), (content_node _ a' live (S i) nd2 x I'); done.
Qed.

(** What an allocation does: a new block, the others keep their words. *)
Definition alloc_result (live : Blocks) (a : ShMemAllocator) (n : Z) (dir' : Dir) (a' : ShMemAllocator) (p : Z) : Prop :=
  p ≠ 0 ∧ live !! p = None ∧ alloc_inv dir' a' (<[p := n]> live) ∧ kept (λ _ _, True) live a a'.

(** A pool that is new has room for every small block. *)
Lemma alloc_new_head dir a live nd rest n env : alloc_inv dir a live → little_alloc_nodes a = nd :: rest →
  heap_tiles (f_p (file_node nd)) 27 (pool_heap nd live) {[f_p (file_node nd) := (27, true)]} →
  0 < n ≤ SHD_SHMEM_ALLOCATOR_CUTOVER_NBYTES →
  ∃ nodes p, little_alloc page pid env dir nd rest n = Some (env, dir, nodes, p) ∧
    alloc_result live a n dir (a <| little_alloc_nodes := nodes |>) p.
Proof.
  intros I El HT Hn. destruct (alloc_head _ _ _ _ _ _ n I El HT Hn) as (meta & m & res & Eb & Hr & K).
  destruct Hr as [(_ & _ & Hs)|(Hne & Hnew & I')].
  { specialize (Hs _ 27 (lookup_singleton_eq _ _)). rewrite cutover_lt in Hn. unfold sizeof_BCB in Hs.
    assert (Z.log2_up (n + 8) ≤ 26) by (apply (Z.log2_up_le_mono (n + 8) (2 ^ 26)); lia). lia. }
  exists (mkPool (file_node nd) meta m :: rest), res. split; [|done].
  destruct env; cbn [little_alloc]; rewrite Eb; cbn [mbind option_bind]; by rewrite (proj2 (Z.eqb_neq res 0)).
Qed.

Lemma littleAlloc_ok dir a live e env n : alloc_inv dir a live →
  fresh_mapping dir a e SHD_SHMEM_ALLOCATOR_POOL_NBYTES → 0 < n ≤ SHD_SHMEM_ALLOCATOR_CUTOVER_NBYTES →
  ∃ env' dir' a' p, _shmemallocator_littleAlloc page pid (e :: env) dir a n = Some (env', dir', a', mkBlock p n) ∧
    alloc_result live a n dir' a' p.
Proof.
  intros I Fr Hn. unfold _shmemallocator_littleAlloc. destruct (little_alloc_nodes a) as [|nd rest] eqn:El.
  - destruct (new_pool dir a live e I Fr) as (dir' & nd & Ec & I' & HT & K). rewrite El in *.
    destruct (alloc_new_head dir' _ live nd [] n env I' ltac:(done) HT Hn) as (nodes & p & Ea & Hp0 & Hp & I2 & K2).
    rewrite Ec. cbn [mbind option_bind]. rewrite Ea. cbn [mbind option_bind].
    eexists _, dir', _, p. split; [done|]. split; [done|]. split; [done|]. split; [done|by eapply words_kept_trans].
  - cbn [mbind option_bind]. assert (Hok : pool_ok nd live) by (eapply inv_pools; [done|rewrite El; by left]).
    destruct Hok as (_ & _ & B & HT). destruct (alloc_head _ _ _ _ _ _ n I El HT Hn) as (meta & m & res & Eb & Hr & K).
    cbn [little_alloc]. rewrite Eb. cbn [mbind option_bind]. destruct Hr as [(-> & I' & _)|(Hne & Hnew & I')].
    + cbn [Z.eqb]. set (a1 := a <| little_alloc_nodes := mkPool (file_node nd) meta m :: rest |>) in *.
      assert (Ef : files a1 = files a) by (unfold files, a1; by rewrite El).
      assert (Fr1 : fresh_mapping dir a1 e SHD_SHMEM_ALLOCATOR_POOL_NBYTES) by (unfold fresh_mapping; by rewrite Ef).
      destruct (new_pool dir a1 live e I' Fr1) as (dir' & nd2 & Ec & I2 & HT2 & K2). rewrite Ec. cbn [mbind option_bind].
      destruct (alloc_new_head dir' _ live nd2 _ n env I2 eq_refl HT2 Hn) as (nodes & p & Ea & Hp0 & Hp & I3 & K3).
      change (little_alloc_nodes a1) with (mkPool (file_node nd) meta m :: rest) in Ea. rewrite Ea. cbn [mbind option_bind].
      eexists _, dir', _, p. split; [done|]. split; [done|]. split; [done|]. split; [done|].
      eapply words_kept_trans; [|done]. by eapply words_kept_trans.
    + rewrite (proj2 (Z.eqb_neq res 0)) by done. cbn [mbind option_bind].
      eexists _, dir, _, res. split; [done|]. by split.
Qed.

(** ** Large blocks *)

(** The size of the file of a large block. *)
Definition rounded (n : Z) : Z := (n + page - 1) / page * page.

Lemma rounded_ok n : 0 < n → n ≤ rounded n < n + page ∧ rounded n mod page = 0.
Proof.
  intros Hn. unfold rounded. rewrite Z.mod_mul by lia. pose proof (Z.div_mod (n + page - 1) page ltac:(lia)).
  pose proof (Z.mod_pos_bound (n + page - 1) page ltac:(lia)). lia.
Qed.

Lemma page_le : page ≤ 2 ^ 27.
Proof. rewrite <-pool_nbytes. apply Z.divide_pos_le; [by rewrite pool_nbytes|]. apply Z.mod_divide; [lia|done]. Qed.

Lemma goodSize_ok n : 0 < n < 2 ^ 62 → shmemfile_goodSizeNBytes page n = Some (rounded n).
Proof.
  intros Hn. pose proof page_le. destruct (rounded_ok n ltac:(lia)) as [Hr _].
  unfold shmemfile_goodSizeNBytes, _shmemfile_roundUpToMultiple. rewrite (proj2 (Z.eqb_neq page 0)) by lia.
  rewrite (u64_small (n + page - 1)) by lia. unfold rounded in Hr. rewrite u64_small by lia. done.
Qed.

Lemma bigAlloc_ok dir a live e n : alloc_inv dir a live → fresh_mapping dir a e (rounded n) →
  SHD_SHMEM_ALLOCATOR_CUTOVER_NBYTES < n < 2 ^ 62 →
  ∃ dir' a' p, _shmemallocator_bigAlloc page pid dir e a n = Some (dir', a', mkBlock p n) ∧
    alloc_result live a n dir' a' p.
Proof.
  intros I Fr Hn. pose proof cutover_lt as Ec. pose proof Fr as (_ & _ & _ & Hpos & _).
  destruct (rounded_ok n ltac:(lia)) as [Hr Hm]. set (f := mapped e (rounded n)).
  unfold _shmemallocator_bigAlloc. rewrite goodSize_ok by lia. cbn [mbind option_bind].
  rewrite (shmemfile_alloc_ok dir a e) by (done || lia). cbn [mbind option_bind].
  assert (Hff : in_file (f_p f) f = true) by (apply in_file_iff; cbn; lia).
  assert (Hnew : live !! f_p f = None) by (by eapply no_live_in_fresh).
  eexists _, _, (f_p f). split; [done|]. split; [cbn; lia|]. split; [done|].
  set (a' := a <| big_alloc_nodes := big_alloc_nodes a ++ [f] |>).
  assert (Hperm : files a' ≡ₚ f :: files a) by (unfold files, a'; cbn; rewrite <-app_assoc; symmetry; apply Permutation_middle).
  assert (I' : alloc_inv ({[f_name f]} ∪ dir) a' (<[f_p f := n]> live)); [|split; [exact I'|by intros p x _ _]].
  split.
  - eapply apart_perm; [by symmetry|]. split; [|by eapply inv_apart]. apply Forall_forall. intros g Hg. by eapply fresh_disjoint.
  - intros g Hg. rewrite Hperm in Hg. apply elem_of_cons in Hg as [->|Hg].
    { pose proof page_le. eapply mapped_name_ok; [done|lia|done]. }
    apply name_ok_mono. by eapply inv_names.
  - intros nd Hnd. eapply pool_ok_ext; [|by eapply inv_pools]. intros p Hp. apply lookup_insert_ne. intros <-.
    destruct (disjoint_not_in f (file_node nd) (f_p f)); [|done..]. eapply fresh_disjoint; [done..|by apply pool_in_files].
  - intros p n' [[<- <-]|[_ Hp]]%lookup_insert_Some Hle; [lia|exact (inv_little _ _ _ I p n' Hp Hle)].
  - intros p n' [[<- <-]|[_ Hp]]%lookup_insert_Some Hgt.
    + exists f. split; [apply elem_of_app; right; by left|]. split; [done|]. cbn. lia.
    + destruct (inv_big _ _ _ I p n' Hp Hgt) as (g & Hg & ?). exists g. split; [by apply elem_of_app; left|done].
  - intros g [Hg| ->%list_elem_of_singleton]%elem_of_app.
    + destruct (inv_owned _ _ _ I g Hg) as (H0 & n' & Hn' & Hr'). split; [done|]. exists n'. split; [|done].
      rewrite lookup_insert_ne; [done|]. intros E. congruence.
    + split; [done|]. exists n. rewrite lookup_insert_eq. split; [done|]. cbn. lia.
Qed.
(** ** Freeing *)

Definition free_result (live : Blocks) (a : ShMemAllocator) (p : Z) (dir' : Dir) (a' : ShMemAllocator) : Prop :=
  alloc_inv dir' a' (delete p live) ∧ kept (λ q _, q ≠ p) live a a'.

Lemma littleFree_ok dir a live p n : alloc_inv dir a live → live !! p = Some n → n ≤ SHD_SHMEM_ALLOCATOR_CUTOVER_NBYTES →
  ∃ a', _shmemallocator_littleFree a (mkBlock p n) = Some a' ∧ free_result live a p dir a'.
Proof.
  intros I Hp Hn. destruct (inv_little _ _ _ I p n Hp Hn) as (nd & [i Hi]%list_elem_of_lookup_1 & Hin).
  assert (Hok : pool_ok nd live) by (eapply inv_pools; [done|by eapply list_elem_of_lookup_2]).
  pose proof Hok as (Hpos & Hnb & B & HT). destruct (pool_block_in nd live p n Hok Hp Hin) as (_ & Hplo & _). unfold sizeof_BCB in Hplo.
  destruct (run_op_ok (f_p (file_node nd)) 27 Hpos ltac:(lia) (pool_heap nd live) B (OpFree p) HT) as (s' & r & B' & E & HT' & F & _).
  { right. exists n. by apply in_pool_lookup. }
  cbn [run_op] in E. change (h_meta (pool_heap nd live)) with (pn_meta nd) in E. change (h_mem (pool_heap nd live)) with (pn_mem nd) in E.
  rewrite <-pool_nbytes in E. destruct (buddy_free p _ _ _ _) as [[meta m]|] eqn:Eb; [|done].
  cbn [mbind option_bind] in E. injection E as <- <-. set (nd' := mkPool (file_node nd) meta m).
  unfold _shmemallocator_littleFree. cbn [b_p]. rewrite (content_node _ _ _ _ _ _ I Hi Hin). cbn [mbind option_bind].
  rewrite Eb. cbn [mbind option_bind]. eexists. split; [done|].
  assert (I' : alloc_inv dir (a <| little_alloc_nodes := <[i := nd']> (little_alloc_nodes a) |>) (delete p live)).
  { apply (inv_update_node dir a _ live _ i nd nd'); try done.
    - split; [done|]. split; [done|]. exists B'. unfold pool_heap. rewrite (in_pool_file nd nd') by done.
      replace (in_pool nd (delete p live)) with (delete p (in_pool nd live)); [exact HT'|].
      unfold in_pool. by rewrite map_filter_delete.
    - intros q Hq. apply lookup_delete_ne. congruence.
    - intros q n' [_ Hq]%lookup_delete_Some Hqf. by eapply small_in_pool. }
  split; [done|]. eapply (kept_update dir dir a _ live _ i nd nd'); [done|exact I'|done|done|done|].
  intros q x Hq Hne. apply (F q x Hq); congruence.
Qed.

Lemma bigFree_ok dir a live p n : alloc_inv dir a live → live !! p = Some n → SHD_SHMEM_ALLOCATOR_CUTOVER_NBYTES < n →
  ∃ dir' a', _shmemallocator_bigFree dir a (mkBlock p n) = Some (dir', a') ∧ free_result live a p dir' a'.
Proof.
  intros I Hp Hn. destruct (inv_big _ _ _ I p n Hp Hn) as (f & Hf & Hfp & Hnf). pose proof cutover_lt as Ec.
  unfold _shmemallocator_bigFree. cbn [b_p].
  destruct (list_find_elem_of (λ f, f_p f = p) (big_alloc_nodes a) f Hf Hfp) as [[i g] E]. rewrite E. cbn [mbind option_bind].
  apply list_find_Some in E as (Hi & Hgp & _). assert (Hg : g ∈ big_alloc_nodes a) by (by eapply list_elem_of_lookup_2).
  destruct (inv_names _ _ _ I g (big_in_files _ _ Hg)) as [Hgn _].
  unfold shmemfile_free, shmemfile_unmap. cbn [Z.eqb]. rewrite decide_True by done. cbn [mbind option_bind].
  eexists _, _. split; [done|]. set (a' := a <| big_alloc_nodes := delete i (big_alloc_nodes a) |>).
  assert (Hperm : files a ≡ₚ g :: files a') by (unfold files, a'; cbn; by rewrite (delete_Permutation _ _ _ Hi) at 1).
  assert (Ha : apart (g :: files a')) by (eapply apart_perm; [done|by eapply inv_apart]). destruct Ha as [Hga Ha].
  rewrite Forall_forall in Hga. assert (Hsub : ∀ h, h ∈ files a' → h ∈ files a) by (intros h Hh; rewrite Hperm; by right).
  destruct (inv_owned _ _ _ I g Hg) as (Hg0 & ng & Hng & Hgr).
  assert (Hgg : in_file p g = true) by (apply in_file_iff; lia).
  split; [|by intros q x _ _]. split.
  - done.
  - intros h Hh. destruct (inv_names _ _ _ I h (Hsub h Hh)) as [Hin Hts]. split; [|done].
    apply elem_of_difference. split; [done|]. rewrite elem_of_singleton. by destruct (Hga h Hh) as [? _].
  - intros nd Hnd. eapply pool_ok_ext; [|exact (inv_pools _ _ _ I nd Hnd)]. intros q Hq. apply lookup_delete_ne. intros <-.
    by destruct (disjoint_not_in g (file_node nd) p (Hga _ (pool_in_files a' nd Hnd))).
  - intros q n' [_ Hq]%lookup_delete_Some Hle. exact (inv_little _ _ _ I q n' Hq Hle).
  - intros q n' [Hne Hq]%lookup_delete_Some Hgt. destruct (inv_big _ _ _ I q n' Hq Hgt) as (h & [j Hj]%list_elem_of_lookup_1 & <- & Hr).
    exists h. split; [|done]. assert (Hh : h ∈ g :: delete i (big_alloc_nodes a)).
    { rewrite <-(delete_Permutation _ _ _ Hi). by eapply list_elem_of_lookup_2. }
    apply elem_of_cons in Hh as [->|Hh]; [done|exact Hh].
  - intros h Hh. assert (Hh' : h ∈ files a') by (by apply big_in_files).
    assert (Hhb : h ∈ big_alloc_nodes a) by (rewrite (delete_Permutation _ _ _ Hi); by right).
    destruct (inv_owned _ _ _ I h Hhb) as (H0 & n' & Hn' & Hr'). split; [done|]. exists n'. split; [|done].
    rewrite lookup_delete_ne; [done|]. intros Ep. destruct (disjoint_not_in g h p (Hga h Hh')); [done|].
    apply in_file_iff. lia.
Qed.

(** ** A client of the allocator *)

Record Sys := mkSys {
  s_dir : Dir;
  s_alloc : ShMemAllocator;
  s_live : Blocks;
}.

(** A client asks for memory, frees what it has, and writes a word. *)
Inductive SysOp :=
  | SysAlloc (n : Z) (e : Mapping)
  | SysFree (p : Z)
  | SysWrite (p x : Z) (b : BuddyControlBlock).

Definition write_word (a : ShMemAllocator) (x : Z) (b : BuddyControlBlock) : option ShMemAllocator :=
  '(i, nd) ← _shmemfilenode_findPtr file_node (little_alloc_nodes a) x;
  m ← upd (pn_mem nd) x (λ _, Some b);
  Some (a <| little_alloc_nodes := <[i := mkPool (file_node nd) (pn_meta nd) m]> (little_alloc_nodes a) |>).

Definition sys_op (s : Sys) (op : SysOp) : option (Sys * Z) :=
  match op with
  | SysAlloc n e =>
      '(_, dir, a, blk) ← shmemallocator_alloc page pid [e] (s_dir s) (s_alloc s) n;
      Some (mkSys dir a (if b_p blk =? 0 then s_live s else <[b_p blk := n]> (s_live s)), b_p blk)
  | SysFree p =>
      n ← s_live s !! p;
      '(dir, a) ← shmemallocator_free (s_dir s) (s_alloc s) (mkBlock p n);
      Some (mkSys dir a (delete p (s_live s)), 0)
  | SysWrite p x b => a ← write_word (s_alloc s) x b; Some (mkSys (s_dir s) a (s_live s), 0)
  end.

Definition sys_allowed (s : Sys) (op : SysOp) : Prop :=
  match op with
  | SysAlloc n e => 0 ≤ n < 2 ^ 62 ∧ fresh_mapping (s_dir s) (s_alloc s) e
      (if SHD_SHMEM_ALLOCATOR_CUTOVER_NBYTES <? n then rounded n else SHD_SHMEM_ALLOCATOR_POOL_NBYTES)
  | SysFree p => is_Some (s_live s !! p)
  | SysWrite p x b => bcb_wf b ∧ block_word (s_live s) p x
  end.

(** The words an operation may change. *)
Definition untouched (op : SysOp) (p x : Z) : Prop :=
  match op with
  | SysAlloc _ _ => True
  | SysFree q => p ≠ q
  | SysWrite _ y _ => x ≠ y
  end.

Inductive sys_reach : Sys → Prop :=
  | sys_start dir : sys_reach (mkSys dir shmemallocator_create ∅)
  | sys_next s op s' r : sys_reach s → sys_allowed s op → sys_op s op = Some (s', r) → sys_reach s'.

Lemma write_word_ok dir a live p x b : alloc_inv dir a live → bcb_wf b → block_word live p x →
  ∃ a', write_word a x b = Some a' ∧ alloc_inv dir a' live ∧ kept (λ _ y, y ≠ x) live a a'.
Proof.
  intros I Wb Hw. destruct (block_word_in _ _ _ _ _ I Hw) as (i & nd & Hi & Hp & Hx & Hpay).
  assert (Hok : pool_ok nd live) by (eapply inv_pools; [done|by eapply list_elem_of_lookup_2]).
  pose proof Hok as (Hpos & Hnb & B & HT).
  destruct (run_op_ok (f_p (file_node nd)) 27 Hpos ltac:(lia) (pool_heap nd live) B (OpWrite x b) HT) as (s' & r & B' & E & HT' & F & _).
  { split; [done|]. by exists p. }
  cbn [run_op] in E. change (h_mem (pool_heap nd live)) with (pn_mem nd) in E.
  destruct (upd (pn_mem nd) x _) as [m|] eqn:Eu; [|done]. cbn [mbind option_bind] in E. injection E as <- <-.
  unfold write_word. rewrite (content_node _ _ _ _ _ _ I Hi Hx). cbn [mbind option_bind]. rewrite Eu. cbn [mbind option_bind].
  set (nd' := mkPool (file_node nd) (pn_meta nd) m). eexists. split; [done|].
  assert (I' : alloc_inv dir (a <| little_alloc_nodes := <[i := nd']> (little_alloc_nodes a) |>) live).
  { apply (inv_update_node dir a _ live _ i nd nd'); try done.
    - split; [done|]. split; [done|]. exists B'. exact HT'.
    - intros q n' Hq Hqf. by eapply small_in_pool. }
  split; [done|]. eapply (kept_update dir dir a _ live _ i nd nd'); [done|exact I'|done|done|done|].
  intros q y Hq Hne. apply (F q y Hq); congruence.
Qed.

Lemma sys_op_ok s op : alloc_inv (s_dir s) (s_alloc s) (s_live s) → sys_allowed s op →
  ∃ s' r, sys_op s op = Some (s', r) ∧ alloc_inv (s_dir s') (s_alloc s') (s_live s') ∧
    kept (untouched op) (s_live s) (s_alloc s) (s_alloc s') ∧
    (∀ n e, op = SysAlloc n e → 0 < n → r ≠ 0 ∧ s_live s !! r = None ∧ s_live s' !! r = Some n).
Proof.
  intros I Ha. destruct op as [n e|p|p x b]; cbn [sys_op sys_allowed] in *.
  - destruct Ha as [Hn Fr]. unfold shmemallocator_alloc. destruct (Z.eqb_spec n 0) as [->|Hn0].
    { exists s, 0. cbn. split; [by destruct s|]. split; [done|]. split; [done|]. intros ?? [= <- _]. lia. }
    assert (Hres : ∃ env' dir' a' p, (if SHD_SHMEM_ALLOCATOR_CUTOVER_NBYTES <? n then
        '(dir, a, blk) ← _shmemallocator_bigAlloc page pid (s_dir s) e (s_alloc s) n; Some ([], dir, a, blk)
        else _shmemallocator_littleAlloc page pid [e] (s_dir s) (s_alloc s) n) = Some (env', dir', a', mkBlock p n) ∧
      alloc_result (s_live s) (s_alloc s) n dir' a' p).
    { destruct (Z.ltb_spec SHD_SHMEM_ALLOCATOR_CUTOVER_NBYTES n).
      - destruct (bigAlloc_ok _ _ _ e n I Fr ltac:(lia)) as (dir' & a' & p & E & R). rewrite E. cbn [mbind option_bind]. eauto 10.
      - apply littleAlloc_ok; [done..|lia]. }
    destruct Hres as (env' & dir' & a' & p & E & Hp0 & Hp & I' & K). rewrite E. cbn [mbind option_bind b_p].
    rewrite (proj2 (Z.eqb_neq p 0)) by done. eexists _, p. split; [done|]. split; [done|]. split; [done|].
    intros n' e' [= <- <-] _. split; [done|]. split; [done|]. apply lookup_insert_eq.
  - destruct Ha as [n Hp]. rewrite Hp. cbn [mbind option_bind]. unfold shmemallocator_free. cbn [b_nbytes].
    destruct (Z.ltb_spec SHD_SHMEM_ALLOCATOR_CUTOVER_NBYTES n).
    + destruct (bigFree_ok _ _ _ p n I Hp ltac:(lia)) as (dir' & a' & E & I' & K). rewrite E. cbn [mbind option_bind].
      eexists _, 0. by split.
    + destruct (littleFree_ok _ _ _ p n I Hp ltac:(lia)) as (a' & E & I' & K). rewrite E. cbn [mbind option_bind].
      eexists _, 0. by split.
  - destruct Ha as [Wb Hw]. destruct (write_word_ok _ _ _ p x b I Wb Hw) as (a' & E & I' & K). rewrite E. cbn [mbind option_bind].
    eexists _, 0. by split.
Qed.

Lemma shm_create_inv dir : alloc_inv dir shmemallocator_create ∅.
Proof. split; try done; by intros ? ?%not_elem_of_nil. Qed.

Lemma sys_reach_inv s : sys_reach s → alloc_inv (s_dir s) (s_alloc s) (s_live s).
Proof.
  induction 1 as [dir|s op s' r _ IH Ha E]; [apply shm_create_inv|].
  destruct (sys_op_ok s op IH Ha) as (s2 & r2 & E2 & I & _). by simplify_eq.
Qed.

(** ** The end of the allocator *)

(** Destroying removes the files of the pools, which have different names. *)
Lemma destroy_nodes_ok nodes : ∀ dir, apart (file_node <$> nodes) → (∀ nd, nd ∈ nodes → f_name (file_node nd) ∈ dir) →
  ∃ dir', destroy_nodes dir nodes = Some dir' ∧
    ∀ x, x ∈ dir' ↔ x ∈ dir ∧ (∀ nd, nd ∈ nodes → x ≠ f_name (file_node nd)).
Proof.
  induction nodes as [|nd nodes IH]; intros dir Ha Hin.
  { exists dir. split; [done|]. intros x. split; [|by intros [? _]]. intros Hx. split; [done|]. by intros nd ?%not_elem_of_nil. }
  destruct Ha as [Hf Ha]. rewrite Forall_forall in Hf. cbn [destroy_nodes].
  unfold shmempoolnode_destroy, shmemfile_free, shmemfile_unmap. cbn [Z.eqb]. rewrite decide_True by (apply Hin; by left).
  cbn [mbind option_bind]. destruct (IH (dir ∖ {[f_name (file_node nd)]}) Ha) as (dir' & -> & Hd).
  { intros nd' Hnd'. apply elem_of_difference. split; [apply Hin; by right|]. rewrite elem_of_singleton. intros E.
    destruct (Hf (file_node nd')) as [Hne _]; [by apply list_elem_of_fmap_2|]. by apply Hne. }
  exists dir'. split; [done|]. intros x. rewrite Hd, elem_of_difference, elem_of_singleton. split.
  - intros ((H1 & H2) & H3). split; [done|]. intros nd' [->|Hnd']%elem_of_cons; [done|by apply H3].
  - intros (H1 & H2). split; [split; [done|apply H2; by left]|]. intros nd' Hnd'. apply H2. by right.
Qed.

Lemma destroy_pools_ok dir a live : alloc_inv dir a live →
  ∃ dir', shmemallocator_destroy dir a = Some dir' ∧
    ∀ f, f ∈ files a → f_name f ∈ dir' ↔ f ∈ big_alloc_nodes a.
Proof.
  intros I. pose proof (inv_apart _ _ _ I) as Ha.
  destruct (destroy_nodes_ok (little_alloc_nodes a) dir) as (dir' & E & Hd).
  - clear -Ha. unfold files in Ha. induction (big_alloc_nodes a) as [|f l IH]; [done|]. apply IH, Ha.
  - intros nd Hnd. apply (inv_names _ _ _ I). by apply pool_in_files.
  - exists dir'. split; [done|]. intros f Hf. rewrite Hd. split.
    + intros [_ Hne]. apply elem_of_app in Hf as [Hf|(nd & -> & Hnd)%list_elem_of_fmap]; [done|]. by destruct (Hne nd Hnd).
    + intros Hb. split; [by apply (inv_names _ _ _ I)|]. intros nd Hnd En.
      destruct (list_elem_of_lookup_1 _ _ Hb) as [i Hi]. destruct (list_elem_of_lookup_1 _ _ Hnd) as [j Hj].
      destruct (apart_lookup (files a) i (length (big_alloc_nodes a) + j) f (file_node nd) Ha) as [Hne _]; [| | |by apply Hne].
      * unfold files. by apply lookup_app_l_Some.
      * unfold files. rewrite lookup_app_r, Nat.add_comm, Nat.add_sub by lia. by rewrite list_lookup_fmap, Hj.
      * apply lookup_lt_Some in Hi. lia.
Qed.

(** With two pools or more, [shmemallocator_destroyNoShmDelete] reads a node
    that it has freed. *)
Lemma destroyNoShmDelete_reads_freed a : shmemallocator_destroyNoShmDelete a = None ↔ (2 ≤ length (little_alloc_nodes a))%nat.
Proof.
  unfold shmemallocator_destroyNoShmDelete. destruct (length (little_alloc_nodes a)) as [|[|len]]; [split; [done|lia]|split; [done|lia]|].
  split; [lia|]. intros _. cbn [destroy_walk]. rewrite decide_False by set_solver. cbn zeta.
  rewrite (Nat.mod_small (0 + 1)) by lia. rewrite decide_False by lia. by rewrite decide_True by set_solver.
Qed.

(** C18: Whatever blocks of less than [2 ^ 62] bytes a client asks for, frees
    and writes, no allocation, free or write fails: an allocation, small or
    large, gives a new block with at most one new file, any block that was
    handed out can be freed, blocks lie in one mapped file each and are apart
    from each other, and the words of a block keep their values until it is
    written or freed.  At any time [shmemallocator_destroy] succeeds and
    removes exactly the files of the pools, those of large blocks stay;
    [shmemallocator_destroyNoShmDelete] reads freed memory exactly if there
    are two pools or more. *)
Theorem shm_alloc_safe s : sys_reach s →
  (∀ op, sys_allowed s op → ∃ s' r, sys_op s op = Some (s', r) ∧ kept (untouched op) (s_live s) (s_alloc s) (s_alloc s') ∧
    (∀ n e, op = SysAlloc n e → 0 < n → r ≠ 0 ∧ s_live s !! r = None ∧ s_live s' !! r = Some n)) ∧
  (∀ p n, s_live s !! p = Some n → ∃ f, f ∈ files (s_alloc s) ∧ f_p f ≤ p ∧ p + n ≤ f_p f + f_nbytes f) ∧
  (∀ p n q n', s_live s !! p = Some n → s_live s !! q = Some n' → p < q → p + n ≤ q) ∧
  (∃ dir', shmemallocator_destroy (s_dir s) (s_alloc s) = Some dir' ∧
     ∀ f, f ∈ files (s_alloc s) → f_name f ∈ dir' ↔ f ∈ big_alloc_nodes (s_alloc s)) ∧
  (shmemallocator_destroyNoShmDelete (s_alloc s) = None ↔ (2 ≤ length (little_alloc_nodes (s_alloc s)))%nat).
Proof.
  intros I%sys_reach_inv.
  assert (Hin : ∀ p n, s_live s !! p = Some n → ∃ f, f ∈ files (s_alloc s) ∧ f_p f ≤ p ∧ p + n ≤ f_p f + f_nbytes f ∧
    0 < n ∧ (f ∈ big_alloc_nodes (s_alloc s) ∧ f_p f = p ∨ ∃ nd, nd ∈ little_alloc_nodes (s_alloc s) ∧ file_node nd = f ∧ in_file p f = true)).
  { intros p n Hp. destruct (decide (n ≤ SHD_SHMEM_ALLOCATOR_CUTOVER_NBYTES)) as [Hle|Hgt].
    - destruct (inv_little _ _ _ I p n Hp Hle) as (nd & Hnd & Hf). exists (file_node nd).
      destruct (pool_block_in nd _ p n (inv_pools _ _ _ I nd Hnd) Hp Hf) as (? & ? & ?). unfold sizeof_BCB in *.
      split; [by apply pool_in_files|]. do 3 (split; [lia|]). right. eauto.
    - destruct (inv_big _ _ _ I p n Hp ltac:(lia)) as (f & Hf & <- & Hn). exists f. rewrite cutover_lt in *.
      split; [by apply big_in_files|]. do 3 (split; [lia|]). by left. }
  split; [|split; [|split; [|split; [by eapply destroy_pools_ok|apply destroyNoShmDelete_reads_freed]]]].
  - intros op Ha. destruct (sys_op_ok s op I Ha) as (s' & r & E & _ & K & R). eauto.
  - intros p n Hp. destruct (Hin p n Hp) as (f & Hf & H1 & H2 & _). eauto.
  - intros p n q n' Hp Hq Hlt. destruct (Hin p n Hp) as (f & Hf & H1 & H2 & H3 & H4). destruct (Hin q n' Hq) as (g & Hg & H5 & H6 & H7 & H8).
    destruct (apart_in _ f g (inv_apart _ _ _ I) Hf Hg) as [<-|[_ ?]]; [|lia].
    destruct H8 as [[_ ?]|(nd & Hnd & <- & Hqf)]; [lia|]. destruct (inv_pools _ _ _ I nd Hnd) as (Hpos & _ & B & HT).
    assert (Hpf : in_file p (file_node nd) = true) by (apply in_file_iff; lia).
    pose proof HT as ((_ & T & _) & Hl & _).
    destruct (Hl p n) as [_ Hb]; [by apply in_pool_lookup|]. destruct (Hl q n') as [_ Hb']; [by apply in_pool_lookup|].
    pose proof (block_room n H3). pose proof (tile_disj _ _ _ T _ _ _ _ _ _ Hb Hb' ltac:(lia)). unfold sizeof_BCB in *. lia.
Qed.
(** ** Blocks in other processes *)

Lemma name_no_space ts c : 0 ≤ ts.1 → 0 ≤ ts.2 → c ∈ "/"%char :: file_name ts pid → is_space c = false.
Proof.
  intros H1 H2 Hc. unfold file_name in Hc. rewrite dec_signed_pos in Hc by lia. rewrite elem_of_cons, !elem_of_app in Hc.
  assert (Hlit : ∀ l, Forall (λ c, is_space c = false) l → c ∈ l → is_space c = false).
  { intros l Hl. rewrite Forall_forall in Hl. auto. }
  destruct Hc as [->|[Hc|[Hc|[Hc|[Hc|[Hc|[Hc|Hc]]]]]]]; [done|..|by apply (dec_no_space pid); [lia|]].
  - revert Hc. apply Hlit. by apply (bool_decide_unpack _); vm_compute.
  - revert Hc. apply Hlit. by apply (bool_decide_unpack _); vm_compute.
  - by apply (dec_no_space ts.1).
  - revert Hc. apply Hlit. by apply (bool_decide_unpack _); vm_compute.
  - by apply (dec_no_space ts.2).
  - revert Hc. apply Hlit. by apply (bool_decide_unpack _); vm_compute.
Qed.

Lemma name_short ts : (length ("/"%char :: file_name ts pid) ≤ 80)%nat.
Proof. pose proof (file_name_length ts pid ltac:(lia)). cbn [length]. lia. Qed.

Lemma strncpy_name dir f : name_ok dir f → strncpy SHD_SHMEM_FILE_NAME_NBYTES (f_name f) = f_name f.
Proof.
  intros (_ & (ts & _ & _ & ->) & _). apply take_ge. pose proof (name_short ts).
  change (Z.to_nat SHD_SHMEM_FILE_NAME_NBYTES) with 255%nat. lia.
Qed.

(** The string form of a block, and its length with the NUL. *)
Definition SHD_SHMEM_BLOCK_SERIALIZED_MAX_STRLEN : Z := 21 + 21 + 21 + SHD_SHMEM_FILE_NAME_NBYTES + 1.

Lemma string_roundtrip ser ts : 0 ≤ offset ser < 2 ^ 64 → 0 ≤ nbytes ser < 2 ^ 64 → 0 ≤ block_nbytes ser < 2 ^ 64 →
  0 ≤ ts.1 → 0 ≤ ts.2 → name ser = "/"%char :: file_name ts pid →
  shmemblockserialized_fromString (shmemblockserialized_toString ser) = (ser, false) ∧
  Z.of_nat (length (shmemblockserialized_toString ser)) < SHD_SHMEM_BLOCK_SERIALIZED_MAX_STRLEN.
Proof.
  intros Ho Hn Hb H1 H2 En. destruct ser as [o n b w]. cbn [offset nbytes block_nbytes name] in *.
  unfold shmemblockserialized_toString. cbn [offset nbytes block_nbytes name]. split.
  - unfold shmemblockserialized_fromString. change (lit ",") with [","%char]. cbn [app].
    rewrite scan_dec by done. cbn [scan_char]. rewrite decide_True by done. cbn [mbind option_bind].
    rewrite scan_dec by done. cbn [scan_char]. rewrite decide_True by done. cbn [mbind option_bind].
    rewrite scan_dec by done. cbn [scan_char]. rewrite decide_True by done. cbn [mbind option_bind].
    rewrite scan_word_all; [done|by rewrite En|]. rewrite En. intros c Hc. by eapply name_no_space.
  - rewrite !length_app. pose proof (dec_length o). pose proof (dec_length n). pose proof (dec_length b).
    pose proof (name_short ts). rewrite En. change (length (lit ",")) with 1%nat.
    change SHD_SHMEM_BLOCK_SERIALIZED_MAX_STRLEN with 319. lia.
Qed.

(** The file of a block, and how it is found. *)
Lemma block_file dir a live p n : alloc_inv dir a live → live !! p = Some n →
  ∃ f, f ∈ files a ∧ f_p f ≤ p ∧ 0 < n ∧ p + n ≤ f_p f + f_nbytes f ∧
    shmemallocator_blockSerialize a (mkBlock p n) = Some (_shmemblockserialized_populate (mkBlock p n) f).
Proof.
  intros I Hp. unfold shmemallocator_blockSerialize. cbn [b_nbytes b_p].
  destruct (Z.ltb_spec SHD_SHMEM_ALLOCATOR_CUTOVER_NBYTES n) as [Hgt|Hle].
  - destruct (inv_big _ _ _ I p n Hp Hgt) as (f & Hf & Hfp & Hn). rewrite cutover_lt in Hgt. exists f.
    split; [by apply big_in_files|]. do 3 (split; [lia|]).
    destruct (findPtr_ok id (big_alloc_nodes a) p f) as (i & E & _); [|done|unfold id; apply in_file_iff; lia|by rewrite E].
    intros x y Hx Hy. apply (files_apart dir a live); [done|by apply big_in_files..].
  - destruct (inv_little _ _ _ I p n Hp Hle) as (nd & [i Hi]%list_elem_of_lookup_1 & Hin).
    assert (Hnd : nd ∈ little_alloc_nodes a) by (by eapply list_elem_of_lookup_2).
    destruct (pool_block_in nd live p n (inv_pools _ _ _ I nd Hnd) Hp Hin) as (? & ? & ?). unfold sizeof_BCB in *.
    exists (file_node nd). split; [by apply pool_in_files|]. do 3 (split; [lia|]).
    by rewrite (content_node _ _ _ _ _ _ I Hi Hin).
Qed.

Lemma name_unique dir a live f g : alloc_inv dir a live → f ∈ files a → g ∈ files a → f_name f = f_name g → f = g.
Proof. intros I Hf Hg E. by destruct (apart_in _ f g (inv_apart _ _ _ I) Hf Hg) as [?|[? _]]. Qed.

(** The allocator finds the file of a block by its name. *)
Lemma allocator_findName dir a live f ser : alloc_inv dir a live → f ∈ files a → name ser = f_name f →
  shmemallocator_blockDeserialize a ser = Some (_shmemblock_populate ser f).
Proof.
  intros I Hf En. unfold shmemallocator_blockDeserialize. rewrite En.
  destruct (_shmemfilenode_findName id (big_alloc_nodes a) (f_name f)) as [[i g]|] eqn:E.
  - apply list_find_Some in E as (Hi & Hg & _). cbn [mbind option_bind].
    assert (g = f) as ->; [|done]. apply (name_unique dir a live); [done|apply big_in_files; by eapply list_elem_of_lookup_2|done..].
  - apply list_find_None in E. rewrite Forall_forall in E. apply elem_of_app in Hf as [Hf|Hf]; [by destruct (E f Hf)|].
    apply list_elem_of_fmap in Hf as (nd & -> & Hnd).
    destruct (findName_ok file_node (little_alloc_nodes a) nd) as (i & Ei & _); [|done|by rewrite Ei].
    intros x [k Hk]%list_elem_of_lookup_1 Hx. apply list_elem_of_lookup_1 in Hnd as [j Hj].
    assert (Hne : file_node x = file_node nd).
    { apply (name_unique dir a live); [done| | |done]; apply pool_in_files; by eapply list_elem_of_lookup_2. }
    assert (k = j) as ->; [|congruence]. eapply (pool_apart dir a live k j x nd (f_p (file_node x))); [done..| |];
      apply in_file_iff; rewrite <-?Hne; destruct (inv_pools _ _ _ I x ltac:(by eapply list_elem_of_lookup_2)) as (? & -> & _); lia.
Qed.

(** The mapped files of another process: apart, and as large as here. *)
Definition serializer_ok (a : ShMemAllocator) (sz : list ShMemFile) : Prop :=
  apart sz ∧ (∀ f g, f ∈ sz → g ∈ files a → f_name f = f_name g → f_nbytes f = f_nbytes g).

(** The file is found by its name or mapped. *)
Lemma serializer_find dir a live sz f ser addr : alloc_inv dir a live → serializer_ok a sz → f ∈ files a →
  name ser = f_name f → nbytes ser = f_nbytes f →
  (∀ g, g ∈ sz → addr + f_nbytes f ≤ f_p g ∨ f_p g + f_nbytes g ≤ addr) →
  ∃ sz' f', shmemserializer_blockDeserialize page dir (Some addr) sz ser = Some (sz', _shmemblock_populate ser f') ∧
    serializer_ok a sz' ∧ f' ∈ sz' ∧ f_name f' = f_name f ∧ f_nbytes f' = f_nbytes f.
Proof.
  intros I [Ha Hs] Hf En Eb Hfree. unfold shmemserializer_blockDeserialize. rewrite En, Eb.
  destruct (_shmemfilenode_findName id sz (f_name f)) as [[i g]|] eqn:E.
  - apply list_find_Some in E as (Hi & Hg & _). cbn [mbind option_bind]. assert (g ∈ sz) by (by eapply list_elem_of_lookup_2).
    exists sz, g. do 4 (split; [done|]). by apply Hs.
  - apply list_find_None in E. rewrite Forall_forall in E. pose proof (inv_names _ _ _ I f Hf) as Hok.
    pose proof Hok as (Hd & _ & Hn & Hm). unfold shmemfile_map. rewrite (proj2 (Z.eqb_neq _ 0)), Hm by lia. cbn [orb negb Z.eqb].
    rewrite (strncpy_name _ _ Hok), decide_True by done. cbn [mbind option_bind].
    set (f' := mkFile addr (f_nbytes f) (f_name f)). exists (sz ++ [f']), f'. split; [done|]. split.
    + split.
      * apply (apart_perm (f' :: sz)); [by rewrite <-Permutation_cons_append|]. split; [|done]. apply Forall_forall. intros g Hg.
        split; [by intros ?; destruct (E g Hg)|by apply Hfree].
      * intros g h [Hg| ->%list_elem_of_singleton]%elem_of_app Hh Hgh; [by apply Hs|].
        by destruct (name_unique dir a live f h I Hf Hh Hgh).
    + split; [apply elem_of_app; right; by left|done].
Qed.

(** C25: A block crosses to another process and back unharmed: it can be
    written down, its string fits in the buffer that is provided for it and
    reads back as what was written, the allocator gets the same block back,
    and the serializer of the other process, which may have to map the file at
    another address, gets the same bytes of the same file, from which it
    writes down the same again. *)
Theorem shm_block_crosses s p n sz addr : sys_reach s → s_live s !! p = Some n → serializer_ok (s_alloc s) sz →
  (∀ f g, f ∈ files (s_alloc s) → g ∈ sz → addr + f_nbytes f ≤ f_p g ∨ f_p g + f_nbytes g ≤ addr) →
  ∃ ser, shmemallocator_blockSerialize (s_alloc s) (mkBlock p n) = Some ser ∧
    shmemblockserialized_fromString (shmemblockserialized_toString ser) = (ser, false) ∧
    Z.of_nat (length (shmemblockserialized_toString ser)) < SHD_SHMEM_BLOCK_SERIALIZED_MAX_STRLEN ∧
    shmemallocator_blockDeserialize (s_alloc s) ser = Some (mkBlock p n) ∧
    ∃ sz' p' f f', shmemserializer_blockDeserialize page (s_dir s) (Some addr) sz ser = Some (sz', mkBlock p' n) ∧
      serializer_ok (s_alloc s) sz' ∧ f ∈ files (s_alloc s) ∧ f' ∈ sz' ∧ f_name f' = f_name f ∧
      p' - f_p f' = p - f_p f ∧ f_p f' ≤ p' ∧ p' + n ≤ f_p f' + f_nbytes f' ∧
      shmemserializer_blockSerialize sz' (mkBlock p' n) = Some ser.
Proof.
  intros I%sys_reach_inv Hp Hsz Hfree. destruct (block_file _ _ _ _ _ I Hp) as (f & Hf & H1 & H2 & H3 & Es).
  pose proof (inv_names _ _ _ I f Hf) as Hok. pose proof Hok as (Hd & (ts & Ht1 & Ht2 & Hts) & Hn & Hm).
  set (ser := _shmemblockserialized_populate (mkBlock p n) f) in *.
  assert (En : name ser = f_name f) by (by eapply strncpy_name).
  destruct (string_roundtrip ser ts) as [R1 R2];
    [unfold ser, _shmemblockserialized_populate; cbn [offset nbytes block_nbytes b_p b_nbytes]; lia..|by rewrite En|].
  destruct (serializer_find _ _ _ sz f ser addr I Hsz Hf En eq_refl) as (sz' & f' & E & Hsz' & Hf' & Hfn & Hfb); [by intros g; apply Hfree|].
  exists ser. do 3 (split; [done|]). split.
  { rewrite (allocator_findName _ _ _ f ser I Hf En). unfold _shmemblock_populate. cbn. do 2 f_equal. lia. }
  exists sz', (f_p f' + (p - f_p f)), f, f'. do 5 (split; [done|]). do 3 (split; [lia|]).
  unfold shmemserializer_blockSerialize. cbn [b_p].
  destruct (findPtr_ok id sz' (f_p f' + (p - f_p f)) f') as (i & Ei & _); [|done|unfold id; apply in_file_iff; lia|].
  - intros x y Hx Hy Hx1 Hy1. destruct (apart_in _ x y (proj1 Hsz') Hx Hy) as [?|Hdd]; [done|].
    by destruct (disjoint_not_in _ _ _ Hdd Hx1 Hy1).
  - rewrite Ei. cbn [mbind option_bind]. unfold ser, _shmemblockserialized_populate. cbn. rewrite Hfn, Hfb. do 2 f_equal. lia.
Qed.


(** A small block is looked for in the first pool alone: if that is full, a
    new file is needed even if another pool has room. *)
Lemma only_first_pool dir a nd rest n meta m : little_alloc_nodes a = nd :: rest →
  buddy_alloc n (pn_meta nd) (pn_mem nd) SHD_SHMEM_ALLOCATOR_POOL_NBYTES = Some (meta, m, 0) →
  _shmemallocator_littleAlloc page pid [] dir a n = None.
Proof.
  intros El Eb. unfold _shmemallocator_littleAlloc. rewrite El. cbn [mbind option_bind little_alloc]. rewrite Eb. done.
Qed.

End Safety.

(** A process that has one block of 100 bytes. *)
Definition demo_mapping : Mapping := mkMapping (5, 600) 4096 (zero_words 4096 27).

Lemma demo_fresh : fresh_mapping 77 ∅ shmemallocator_create demo_mapping SHD_SHMEM_ALLOCATOR_POOL_NBYTES.
Proof.
  unfold fresh_mapping. cbn [mp_ts mp_addr mp_mem demo_mapping fst snd]. split; [lia|]. split; [lia|]. split; [set_solver|].
  split; [lia|]. split; [by apply zero_words_wf|]. by intros f ?%not_elem_of_nil.
Qed.

Lemma demo_block : ∃ s p, sys_reach 4096 77 s ∧ s_live s !! p = Some 100.
Proof.
  assert (Ha : sys_allowed 4096 77 (mkSys ∅ shmemallocator_create ∅) (SysAlloc 100 demo_mapping)).
  { split; [lia|]. apply demo_fresh. }
  destruct (sys_op_ok 4096 77 ltac:(lia) ltac:(by vm_compute) ltac:(lia) (mkSys ∅ shmemallocator_create ∅) _ (shm_create_inv _ _ _) Ha) as (s & p & E & _ & _ & H).
  destruct (H 100 demo_mapping eq_refl ltac:(lia)) as (_ & _ & Hp). exists s, p. split; [|done].
  eapply sys_next; [apply sys_start|exact Ha|exact E].
Qed.

Lemma shm_alloc_safe_witness : ∃ s p, sys_reach 4096 77 s ∧ s_live s !! p = Some 100 ∧
  ∃ s' r, sys_op 4096 77 s (SysFree p) = Some (s', r).
Proof.
  destruct demo_block as (s & p & Hs & Hp). exists s, p. split; [done|]. split; [done|].
  destruct (shm_alloc_safe 4096 77 ltac:(lia) ltac:(by vm_compute) ltac:(lia) s Hs) as (Hop & _).
  destruct (Hop (SysFree p)) as (s' & r & E & _); [by exists 100|eauto].
Defined.

Lemma shm_block_crosses_witness : ∃ s p ser sz' p', sys_reach 4096 77 s ∧
  shmemallocator_blockSerialize (s_alloc s) (mkBlock p 100) = Some ser ∧
  shmemserializer_blockDeserialize 4096 (s_dir s) (Some (2 ^ 40)) [] ser = Some (sz', mkBlock p' 100).
Proof.
  destruct demo_block as (s & p & Hs & Hp).
  destruct (shm_block_crosses 4096 77 ltac:(lia) ltac:(by vm_compute) ltac:(lia) s p 100 [] (2 ^ 40) Hs Hp)
    as (ser & E & _ & _ & _ & sz' & p' & f & f' & E' & _).
  - split; [done|]. by intros f g ?%not_elem_of_nil.
  - by intros f g _ ?%not_elem_of_nil.
  - eauto 10.
Defined.

End ShmSafety.
