(* ===== verification/Reno.v ===== *)
(** * Reno congestion control
    (src/phantom/src/main/host/descriptor/tcp_cong_reno.c, tcp_cong.h)

    The congestion window of a TCP connection, in packets, as a state machine
    of three states; a state is the function table the code switches. *)

From S2P Require Import Prelude.

Module Reno.

Inductive State := SlowStart | FastRecovery | CongAvoid.

#[export] Instance State_eq_dec : EqDecision State.
Proof. solve_decision. Defined.

Record CAReno := mkReno {
  state_hooks : State;
  duplicate_ack_n : Z;
  cong_avoid_nacked : Z;
  ssthresh : Z;
}.

#[export] Instance reno_eta : Eta CAReno := fun r =>
  mkReno (state_hooks r) (duplicate_ack_n r) (cong_avoid_nacked r) (ssthresh r).

Record TCPCong := mkCong { cwnd : Z; ca : CAReno }.

#[export] Instance cong_eta : Eta TCPCong := fun c => mkCong (cwnd c) (ca c).

(** ** Operations *)

Definition ssthresh_halve (c : TCPCong) : TCPCong :=
  c <| ca := (ca c) <| ssthresh := u32 (cwnd c / 2 + 1) |> |>.

(** The loop of congestion avoidance.  [None]: a window of zero, for which the
    loop does not end. *)
Fixpoint cong_avoid_loop (fuel : nat) (cwnd nacked : Z) : option (Z * Z) :=
  match fuel with
  | O => None
  | S fuel => if cwnd <=? nacked then cong_avoid_loop fuel (u32 (cwnd + 1)) (u32 (nacked - cwnd))
              else Some (cwnd, nacked)
  end.

(** A round takes at least one from the count. *)
Definition ca_reno_cong_avoid_new_ack_ev_ (c : TCPCong) (n : Z) : option TCPCong :=
  let nacked := u32 (cong_avoid_nacked (ca c) + n) in
  '(w, nacked) ← cong_avoid_loop (S (Z.to_nat nacked)) (cwnd c) nacked;
  Some (mkCong w ((ca c) <| cong_avoid_nacked := nacked |>)).

Definition transition_to_cong_avoid (c : TCPCong) (n : Z) : option TCPCong :=
  ca_reno_cong_avoid_new_ack_ev_
    (c <| ca := (ca c) <| cong_avoid_nacked := 0 |> <| state_hooks := CongAvoid |> |>) n.

Definition ca_reno_slow_start_duplicate_ack_ev_ (c : TCPCong) : TCPCong :=
  let c := c <| ca := (ca c) <| duplicate_ack_n := u64 (duplicate_ack_n (ca c) + 1) |> |> in
  if duplicate_ack_n (ca c) =? 3 then
    let c := ssthresh_halve c in
    let c := c <| cwnd := u32 (ssthresh (ca c) + 3) |> in
    c <| ca := (ca c) <| state_hooks := FastRecovery |> |>
  else c.

Definition ca_reno_slow_start_new_ack_ev_ (c : TCPCong) (n : Z) : option TCPCong :=
  let c := c <| ca := (ca c) <| duplicate_ack_n := 0 |> |> in
  let new_cwnd := u32 (cwnd c + n) in
  if ssthresh (ca c) <=? new_cwnd then
    let nleft := u32 (new_cwnd - ssthresh (ca c)) in
    transition_to_cong_avoid (c <| cwnd := ssthresh (ca c) |>) nleft
  else Some (c <| cwnd := new_cwnd |>).

Definition ca_reno_fast_recovery_duplicate_ack_ev_ (c : TCPCong) : TCPCong :=
  c <| cwnd := u32 (cwnd c + 1) |>.

Definition ca_reno_fast_recovery_new_ack_ev_ (c : TCPCong) (n : Z) : option TCPCong :=
  let c := c <| ca := (ca c) <| duplicate_ack_n := 0 |> |> in
  transition_to_cong_avoid (c <| cwnd := ssthresh (ca c) |>) n.

Definition ca_reno_init_ : TCPCong := mkCong 10 (mkReno SlowStart 0 0 INT32_MAX).

(** Initialisation overwrites the window that [ca_reno_init_] chose. *)
Definition tcp_cong_reno_init : TCPCong := ca_reno_init_ <| cwnd := 1 |>.

(** The function tables of the three states. *)
Definition tcp_cong_reno_duplicate_ack_ev_ (c : TCPCong) : TCPCong :=
  match state_hooks (ca c) with
  | SlowStart | CongAvoid => ca_reno_slow_start_duplicate_ack_ev_ c
  | FastRecovery => ca_reno_fast_recovery_duplicate_ack_ev_ c
  end.

Definition tcp_cong_reno_new_ack_ev_ (c : TCPCong) (n : Z) : option TCPCong :=
  match state_hooks (ca c) with
  | SlowStart => ca_reno_slow_start_new_ack_ev_ c n
  | FastRecovery => ca_reno_fast_recovery_new_ack_ev_ c n
  | CongAvoid => ca_reno_cong_avoid_new_ack_ev_ c n
  end.

Definition tcp_cong_reno_fast_recovery_ (c : TCPCong) : bool :=
  match state_hooks (ca c) with FastRecovery => true | _ => false end.

Definition tcp_cong_reno_timeout_ev_ (c : TCPCong) : TCPCong :=
  let c := c <| ca := (ca c) <| duplicate_ack_n := 0 |> |> in
  let c := ssthresh_halve c in
  let c := c <| cwnd := 10 |> in
  c <| ca := (ca c) <| state_hooks := SlowStart |> |>.

Definition tcp_cong_reno_ssthresh_ (c : TCPCong) : Z := ssthresh (ca c).

(** ** Events *)

Inductive event := DupAck | NewAck (n : Z) | Timeout.

Definition handle (c : TCPCong) (e : event) : option TCPCong :=
  match e with
  | DupAck => Some (tcp_cong_reno_duplicate_ack_ev_ c)
  | NewAck n => tcp_cong_reno_new_ack_ev_ c n
  | Timeout => Some (tcp_cong_reno_timeout_ev_ c)
  end.

Definition handle_all (es : list event) : option TCPCong :=
  foldl (λ o e, c ← o; handle c e) (Some tcp_cong_reno_init) es.

(** How much an event can add to the window. *)
Definition weight (e : event) : Z :=
  match e with DupAck => 4 | NewAck n => n | Timeout => 0 end.

Definition total (es : list event) : Z := foldr (λ e s, weight e + s) 0 es.

(** ** Proofs *)

(** Twice the number of packets it takes to grow a window from one to [w] at
    one packet per window. *)
Definition cost (w : Z) : Z := w * (w - 1).

Lemma cong_avoid_loop_ok fuel w k :
  1 ≤ w → 0 ≤ k → w + k < 2 ^ 32 → k < Z.of_nat fuel →
  ∃ w' k', cong_avoid_loop fuel w k = Some (w', k') ∧ w ≤ w' ≤ Z.max w (k + 1) ∧ 0 ≤ k' < w' ∧
    cost w' + 2 * k' = cost w + 2 * k.
Proof.
  revert w k. induction fuel as [|fuel IH]; intros w k Hw Hk Hs Hf; [lia|]. cbn [cong_avoid_loop].
  destruct (Z.leb_spec w k) as [Hle|Hlt]; [|exists w, k; split_and!; try done; lia].
  rewrite !u32_small by lia.
  destruct (IH (w + 1) (k - w)) as (w' & k' & -> & Hb & Hr & Hc); [lia..|].
  exists w', k'. split_and!; [done|lia..|]. rewrite Hc. unfold cost. lia.
Qed.

(** The state after events that weigh [t]. *)
Record ok (t : Z) (c : TCPCong) : Prop := mkOk {
  ok_total : 0 ≤ t < 2 ^ 30;
  ok_cwnd : 1 ≤ cwnd c ≤ 10 + t;
  ok_ssthresh : 1 ≤ ssthresh (ca c) ≤ INT32_MAX;
  ok_dup : 0 ≤ duplicate_ack_n (ca c) ≤ t;
  ok_recovery : state_hooks (ca c) = FastRecovery → ssthresh (ca c) ≤ 10 + t;
  ok_avoid : state_hooks (ca c) = CongAvoid → 0 ≤ cong_avoid_nacked (ca c) < cwnd c;
}.

Lemma avoid_ack_ok c n t :
  0 ≤ t < 2 ^ 30 → 1 ≤ cwnd c → cwnd c + n ≤ 10 + t → 0 ≤ n → 1 ≤ ssthresh (ca c) ≤ INT32_MAX →
  0 ≤ duplicate_ack_n (ca c) ≤ t → state_hooks (ca c) = CongAvoid →
  0 ≤ cong_avoid_nacked (ca c) < cwnd c →
  ∃ c', ca_reno_cong_avoid_new_ack_ev_ c n = Some c' ∧ ok t c' ∧ state_hooks (ca c') = CongAvoid ∧
    ssthresh (ca c') = ssthresh (ca c) ∧ duplicate_ack_n (ca c') = duplicate_ack_n (ca c) ∧
    cost (cwnd c') + 2 * cong_avoid_nacked (ca c') = cost (cwnd c) + 2 * (cong_avoid_nacked (ca c) + n).
Proof.
  intros Ht Hw Hb Hn Hs Hd Hst Hk. unfold ca_reno_cong_avoid_new_ack_ev_. rewrite u32_small by lia.
  destruct (cong_avoid_loop_ok (S (Z.to_nat (cong_avoid_nacked (ca c) + n))) (cwnd c)
              (cong_avoid_nacked (ca c) + n)) as (w' & k' & -> & Hw' & Hk' & Hc); [lia..|].
  cbn [mbind option_bind]. eexists. split; [done|].
  split; [|by split_and!]. split; cbn; try done; [lia|by rewrite Hst].
Qed.

Lemma transition_ok c n t :
  0 ≤ t < 2 ^ 30 → 1 ≤ cwnd c → cwnd c + n ≤ 10 + t → 0 ≤ n → 1 ≤ ssthresh (ca c) ≤ INT32_MAX →
  0 ≤ duplicate_ack_n (ca c) ≤ t →
  ∃ c', transition_to_cong_avoid c n = Some c' ∧ ok t c' ∧ state_hooks (ca c') = CongAvoid ∧
    ssthresh (ca c') = ssthresh (ca c) ∧ duplicate_ack_n (ca c') = duplicate_ack_n (ca c) ∧
    cost (cwnd c') + 2 * cong_avoid_nacked (ca c') = cost (cwnd c) + 2 * n.
Proof.
  intros Ht Hw Hb Hn Hs Hd. unfold transition_to_cong_avoid.
  destruct (avoid_ack_ok (c <| ca := (ca c) <| cong_avoid_nacked := 0 |> <| state_hooks := CongAvoid |> |>) n t)
    as (c' & E & H); cbn; try done; try lia. by exists c'.
Qed.

Lemma transition_safe c n t :
  0 ≤ t < 2 ^ 30 → 1 ≤ cwnd c → cwnd c + n ≤ 10 + t → 0 ≤ n → 1 ≤ ssthresh (ca c) ≤ INT32_MAX →
  0 ≤ duplicate_ack_n (ca c) ≤ t →
  ∃ c', transition_to_cong_avoid c n = Some c' ∧ ok t c'.
Proof. intros. destruct (transition_ok c n t) as (c' & E & Hok & _); try done. by exists c'. Qed.

Lemma halve_range w t : 1 ≤ w ≤ 10 + t → t < 2 ^ 30 → 1 ≤ w / 2 + 1 ≤ INT32_MAX ∧ w / 2 + 4 ≤ 10 + (t + 4).
Proof. unfold INT32_MAX. intros. Z.to_euclidean_division_equations. lia. Qed.

Lemma dup_ok t c :
  ok t c → t + 4 < 2 ^ 30 → ok (t + 4) (tcp_cong_reno_duplicate_ack_ev_ c).
Proof.
  intros [Ht Hw Hs Hd Hr Ha] Hlt. pose proof (halve_range (cwnd c) t Hw ltac:(lia)) as [H1 H2].
  unfold tcp_cong_reno_duplicate_ack_ev_, INT32_MAX in *.
  assert (Hdup : ok (t + 4) (ca_reno_slow_start_duplicate_ack_ev_ c)
                 ∨ state_hooks (ca c) = FastRecovery).
  { destruct (decide (state_hooks (ca c) = FastRecovery)) as [|Hst]; [by right|left].
    unfold ca_reno_slow_start_duplicate_ack_ev_. cbn. rewrite u64_small by lia.
    destruct (Z.eqb_spec (duplicate_ack_n (ca c) + 1) 3); [|split; cbn; unfold INT32_MAX; try done; try lia].
    unfold ssthresh_halve. cbn. rewrite !u32_small by (rewrite ?u32_small; lia).
    split; cbn; unfold INT32_MAX; try done; lia. }
  destruct (state_hooks (ca c)) eqn:Est; [by destruct Hdup| |by destruct Hdup].
  unfold ca_reno_fast_recovery_duplicate_ack_ev_. rewrite u32_small by lia.
  split; cbn; unfold INT32_MAX; rewrite ?Est; try done; try lia. intros _. specialize (Hr eq_refl). lia.
Qed.

Lemma timeout_ok t c : ok t c → ok t (tcp_cong_reno_timeout_ev_ c).
Proof.
  intros [Ht Hw Hs Hd Hr Ha]. pose proof (halve_range (cwnd c) t Hw ltac:(lia)) as [H1 _].
  unfold tcp_cong_reno_timeout_ev_, ssthresh_halve. cbn.
  unfold INT32_MAX in *. rewrite u32_small by lia. split; cbn; unfold INT32_MAX; try done; lia.
Qed.

Lemma new_ack_ok t c n :
  ok t c → 0 ≤ n → t + n < 2 ^ 30 →
  ∃ c', tcp_cong_reno_new_ack_ev_ c n = Some c' ∧ ok (t + n) c'.
Proof.
  intros [Ht Hw Hs Hd Hr Ha] Hn Hlt. unfold tcp_cong_reno_new_ack_ev_.
  destruct (state_hooks (ca c)) eqn:Est.
  - unfold ca_reno_slow_start_new_ack_ev_. cbn -[transition_to_cong_avoid]. rewrite (u32_small (cwnd c + n)) by lia.
    destruct (Z.leb_spec (ssthresh (ca c)) (cwnd c + n)).
    + unfold INT32_MAX in *. rewrite u32_small by lia.
      apply transition_safe; cbn; unfold INT32_MAX; lia.
    + eexists. split; [done|]. split; cbn; rewrite ?Est; try done; lia.
  - unfold ca_reno_fast_recovery_new_ack_ev_. specialize (Hr eq_refl).
    apply transition_safe; cbn; unfold INT32_MAX in *; lia.
  - specialize (Ha eq_refl).
    destruct (avoid_ack_ok c n (t + n)) as (c' & E & Hok & _); try done; try lia. by exists c'.
Qed.

Definition counted (e : event) : Prop := match e with NewAck n => 0 ≤ n | _ => True end.

Lemma handle_ok t c e : ok t c → counted e → t + weight e < 2 ^ 30 →
  ∃ c', handle c e = Some c' ∧ ok (t + weight e) c'.
Proof.
  intros Hok Hc Ht. destruct e as [|n|]; cbn in *.
  - eexists. split; [done|]. by apply dup_ok.
  - by apply new_ack_ok.
  - eexists. split; [done|]. rewrite Z.add_0_r. by apply timeout_ok.
Qed.

Lemma weights_nonneg es : Forall counted es → 0 ≤ total es.
Proof.
  induction 1 as [|e es He _ IH]; [done|].
  change (0 ≤ weight e + total es). destruct e; cbn in *; lia.
Qed.

Lemma handle_from_ok es : ∀ t c, ok t c → Forall counted es → t + total es < 2 ^ 30 →
  ∃ c', foldl (λ o e, c ← o; handle c e) (Some c) es = Some c' ∧ ok (t + total es) c'.
Proof.
  induction es as [|e es IH]; intros t c Hok Hc Ht.
  { exists c. cbn in *. by rewrite Z.add_0_r. }
  change (total (e :: es)) with (weight e + total es) in *.
  apply Forall_cons in Hc as [He Hc]. pose proof (weights_nonneg es Hc).
  cbn [foldl mbind option_bind].
  destruct (handle_ok t c e Hok He) as (c1 & -> & Hok1); [lia|].
  destruct (IH (t + weight e) c1 Hok1 Hc) as (c' & E & Hok'); [lia|].
  exists c'. split; [done|]. by rewrite Z.add_assoc.
Qed.

Lemma init_ok : ok 0 tcp_cong_reno_init.
Proof. split; cbn; unfold INT32_MAX; try done; lia. Qed.

(** C37: the congestion control never gets stuck: after any sequence of
    duplicate acks, new acks and timeouts whose weights (four packets for a
    duplicate ack, the acked packets for a new ack) sum to less than [2 ^ 30],
    every handler has returned, in particular the loop of congestion avoidance
    has ended, and the window has not wrapped: it is at least one packet and at
    most ten plus that sum, the threshold is at least one, and in congestion
    avoidance fewer packets are counted than the window holds. *)
Theorem reno_handles_all es :
  Forall counted es → total es < 2 ^ 30 →
  ∃ c, handle_all es = Some c ∧ 1 ≤ cwnd c ≤ 10 + total es ∧
    1 ≤ tcp_cong_reno_ssthresh_ c ≤ INT32_MAX ∧
    (state_hooks (ca c) = CongAvoid → 0 ≤ cong_avoid_nacked (ca c) < cwnd c).
Proof.
  intros Hc Ht. destruct (handle_from_ok es 0 _ init_ok Hc) as (c & E & Hok); [lia|].
  rewrite Z.add_0_l in Hok. exists c. split; [done|]. by destruct Hok.
Qed.

Lemma reno_handles_all_witness :
  total [NewAck 5; DupAck; DupAck; DupAck; DupAck; NewAck 3; NewAck 7; Timeout; NewAck 1] < 2 ^ 30 ∧
  ∃ c, handle_all [NewAck 5; DupAck; DupAck; DupAck; DupAck; NewAck 3; NewAck 7; Timeout; NewAck 1]
    = Some c ∧ cwnd c = 5.
Proof.
  split; [done|].
  destruct (reno_handles_all [NewAck 5; DupAck; DupAck; DupAck; DupAck; NewAck 3; NewAck 7; Timeout; NewAck 1])
    as (c & E & _); [repeat constructor; cbn; lia|done|].
  exists c. split; [done|]. vm_compute in E. by injection E as <-.
Defined.

(** ** The rules *)

(** The window grows by one for every window of packets acked: [cost] counts
    them. *)
Definition grown (from : Z) (n : Z) (c' : TCPCong) : Prop :=
  cost (cwnd c') + 2 * cong_avoid_nacked (ca c') = cost from + 2 * n.

Lemma slow_start_grows c n :
  0 ≤ cwnd c → 0 ≤ n → cwnd c + n < ssthresh (ca c) → cwnd c + n < 2 ^ 32 →
  ca_reno_slow_start_new_ack_ev_ c n =
    Some (c <| cwnd := cwnd c + n |> <| ca := (ca c) <| duplicate_ack_n := 0 |> |>).
Proof.
  intros. unfold ca_reno_slow_start_new_ack_ev_. cbn -[transition_to_cong_avoid].
  rewrite u32_small by lia. by destruct (Z.leb_spec (ssthresh (ca c)) (cwnd c + n)); [lia|].
Qed.

Lemma slow_start_ends c n t :
  ok t c → t + n < 2 ^ 30 → 0 ≤ n → ssthresh (ca c) ≤ cwnd c + n →
  ∃ c', ca_reno_slow_start_new_ack_ev_ c n = Some c' ∧ state_hooks (ca c') = CongAvoid ∧
    ssthresh (ca c') = ssthresh (ca c) ∧ grown (ssthresh (ca c)) (cwnd c + n - ssthresh (ca c)) c'.
Proof.
  intros [Ht Hw Hs Hd Hr Ha] Hlt Hn Hge. unfold ca_reno_slow_start_new_ack_ev_.
  cbn -[transition_to_cong_avoid]. rewrite (u32_small (cwnd c + n)) by lia.
  destruct (Z.leb_spec (ssthresh (ca c)) (cwnd c + n)); [|lia].
  unfold INT32_MAX in *. rewrite u32_small by lia.
  destruct (transition_ok ((c <| ca := (ca c) <| duplicate_ack_n := 0 |> |>) <| cwnd := ssthresh (ca c) |>)
              (cwnd c + n - ssthresh (ca c)) (t + n)) as (c' & E & _ & H1 & H2 & _ & H4);
    cbn; unfold INT32_MAX; try lia. by exists c'.
Qed.

Lemma third_duplicate c t :
  ok t c → t + 4 < 2 ^ 30 → duplicate_ack_n (ca c) = 2 →
  let h := cwnd c / 2 + 1 in
  ca_reno_slow_start_duplicate_ack_ev_ c =
    mkCong (h + 3) (mkReno FastRecovery 3 (cong_avoid_nacked (ca c)) h).
Proof.
  intros [Ht Hw Hs Hd Hr Ha] Hlt E. pose proof (halve_range (cwnd c) t Hw ltac:(lia)) as [H1 H2].
  unfold INT32_MAX in *.
  unfold ca_reno_slow_start_duplicate_ack_ev_, ssthresh_halve. cbn. rewrite E. cbn.
  by rewrite (u32_small (cwnd c / 2 + 1)), u32_small by (rewrite ?u32_small; lia).
Qed.

Lemma recovery_ends c n t :
  ok t c → t + n < 2 ^ 30 → 0 ≤ n → state_hooks (ca c) = FastRecovery →
  ∃ c', ca_reno_fast_recovery_new_ack_ev_ c n = Some c' ∧ state_hooks (ca c') = CongAvoid ∧
    duplicate_ack_n (ca c') = 0 ∧ ssthresh (ca c') = ssthresh (ca c) ∧ grown (ssthresh (ca c)) n c'.
Proof.
  intros [Ht Hw Hs Hd Hr Ha] Hlt Hn Est. specialize (Hr Est).
  unfold ca_reno_fast_recovery_new_ack_ev_.
  destruct (transition_ok ((c <| ca := (ca c) <| duplicate_ack_n := 0 |> |>) <| cwnd := ssthresh (ca c) |>)
              n (t + n)) as (c' & E & _ & H1 & H2 & H3 & H4);
    cbn; unfold INT32_MAX in *; try lia. exists c'. by split_and!.
Qed.

Lemma reached es c : Forall counted es → total es < 2 ^ 30 → handle_all es = Some c → ok (total es) c.
Proof.
  intros Hc Ht E. destruct (handle_from_ok es 0 _ init_ok Hc) as (c1 & E1 & Hok); [lia|].
  unfold handle_all in E. rewrite E in E1. by injection E1 as <-.
Qed.

(** What an ack of [n] new packets does to a window that was reached by
    any sequence of events: in slow start below the threshold the window grows
    by [n]; when it would reach the threshold it is set to the threshold and
    the rest of the packets count in congestion avoidance; fast recovery ends
    with the window at the threshold and all packets counted there; and in
    congestion avoidance the window grows by one each time a whole window of
    packets has been acked, with the packets of unfinished windows carried
    over.  The last handler leaves the count of duplicate acks as it is. *)
Theorem reno_new_ack_rules es c n :
  Forall counted es → total es + n < 2 ^ 30 → 0 ≤ n → handle_all es = Some c →
  ∃ c', handle c (NewAck n) = Some c' ∧ ssthresh (ca c') = ssthresh (ca c) ∧
    match state_hooks (ca c) with
    | SlowStart => if decide (cwnd c + n < ssthresh (ca c))
                   then c' = c <| cwnd := cwnd c + n |> <| ca := (ca c) <| duplicate_ack_n := 0 |> |>
                   else state_hooks (ca c') = CongAvoid ∧
                        grown (ssthresh (ca c)) (cwnd c + n - ssthresh (ca c)) c'
    | FastRecovery => state_hooks (ca c') = CongAvoid ∧ duplicate_ack_n (ca c') = 0 ∧
                      grown (ssthresh (ca c)) n c'
    | CongAvoid => state_hooks (ca c') = CongAvoid ∧ duplicate_ack_n (ca c') = duplicate_ack_n (ca c) ∧
                   grown (cwnd c) (cong_avoid_nacked (ca c) + n) c'
    end.
Proof.
  intros Hc Ht Hn E. apply reached in E as Hok; [|done|lia]. pose proof Hok as [H1 H2 H3 H4 H5 H6].
  cbn [handle]. unfold tcp_cong_reno_new_ack_ev_. destruct (state_hooks (ca c)) eqn:Est.
  - destruct (decide _) as [Hlt|Hge].
    + rewrite slow_start_grows by lia. by eexists.
    + destruct (slow_start_ends c n _ Hok) as (c' & -> & ? & ? & ?); [lia..|]. by exists c'.
  - destruct (recovery_ends c n _ Hok) as (c' & -> & ? & ? & ? & ?); [lia..|done|]. by exists c'.
  - specialize (H6 eq_refl).
    destruct (avoid_ack_ok c n (total es + n)) as (c' & -> & _ & ? & ? & ? & ?); [lia..|done|lia|].
    by exists c'.
Qed.

Lemma reno_new_ack_rules_witness :
  ∃ c c', handle_all [DupAck; DupAck; DupAck] = Some c ∧ handle c (NewAck 4) = Some c' ∧ cwnd c' = 3.
Proof.
  destruct (reno_new_ack_rules [DupAck; DupAck; DupAck] (mkCong 4 (mkReno FastRecovery 3 0 1)) 4)
    as (c' & E & _); [repeat constructor|done|done|done|].
  exists (mkCong 4 (mkReno FastRecovery 3 0 1)), c'. split_and!; [done|done|].
  vm_compute in E. by injection E as <-.
Defined.

(** Losses: outside fast recovery the third duplicate ack that is counted
    halves the threshold to half the window plus one, sets the window three
    packets above it and enters fast recovery, and any other only counts; in
    fast recovery a duplicate ack opens the window by one; a timeout halves
    the threshold, restarts slow start with a window of ten, whatever the
    threshold is, and forgets the duplicate acks. *)
Theorem reno_loss_rules es c :
  Forall counted es → total es + 4 < 2 ^ 30 → handle_all es = Some c →
  let h := cwnd c / 2 + 1 in
  let nacked := cong_avoid_nacked (ca c) in
  handle c DupAck =
    Some (if tcp_cong_reno_fast_recovery_ c then c <| cwnd := cwnd c + 1 |>
          else if decide (duplicate_ack_n (ca c) = 2)
               then mkCong (h + 3) (mkReno FastRecovery 3 nacked h)
               else c <| ca := (ca c) <| duplicate_ack_n := duplicate_ack_n (ca c) + 1 |> |>) ∧
  handle c Timeout = Some (mkCong 10 (mkReno SlowStart 0 nacked h)).
Proof.
  intros Hc Ht E. apply reached in E as Hok; [|done|lia]. pose proof Hok as [H1 H2 H3 H4 H5 H6].
  pose proof (halve_range (cwnd c) _ H2 ltac:(lia)) as [Hh _]. unfold INT32_MAX in *.
  cbn [handle]. split; f_equal.
  - unfold tcp_cong_reno_duplicate_ack_ev_, tcp_cong_reno_fast_recovery_.
    assert (ca_reno_slow_start_duplicate_ack_ev_ c =
      if decide (duplicate_ack_n (ca c) = 2)
      then mkCong (cwnd c / 2 + 1 + 3) (mkReno FastRecovery 3 (cong_avoid_nacked (ca c)) (cwnd c / 2 + 1))
      else c <| ca := (ca c) <| duplicate_ack_n := duplicate_ack_n (ca c) + 1 |> |>) as Hd.
    { destruct (decide _) as [E2|N2]; [by apply (third_duplicate c _ Hok)|].
      unfold ca_reno_slow_start_duplicate_ack_ev_. cbn. rewrite u64_small by lia.
      by destruct (Z.eqb_spec (duplicate_ack_n (ca c) + 1) 3); [lia|]. }
    destruct (state_hooks (ca c)); [done| |done].
    unfold ca_reno_fast_recovery_duplicate_ack_ev_. by rewrite u32_small by lia.
  - unfold tcp_cong_reno_timeout_ev_, ssthresh_halve. cbn. by rewrite u32_small by lia.
Qed.

Lemma reno_loss_rules_witness :
  handle_all [DupAck; DupAck] = Some (mkCong 1 (mkReno SlowStart 2 0 INT32_MAX)) ∧
  handle (mkCong 1 (mkReno SlowStart 2 0 INT32_MAX)) DupAck = Some (mkCong 4 (mkReno FastRecovery 3 0 1)).
Proof.
  split; [done|].
  destruct (reno_loss_rules [DupAck; DupAck] (mkCong 1 (mkReno SlowStart 2 0 INT32_MAX))) as [E _];
    [repeat constructor|done|done|]. rewrite E. reflexivity.
Defined.

(** Three duplicate acks start fast recovery although new acks came between
    them, because congestion avoidance does not reset the count. *)
Lemma duplicates_need_not_be_consecutive :
  (tcp_cong_reno_fast_recovery_ <$>
    handle_all [Timeout; NewAck 1; DupAck; NewAck 1; DupAck; NewAck 1; DupAck]) = Some true.
Proof. reflexivity. Qed.

End Reno.
