(* ===== verification/Condition.v ===== *)
(** * System call conditions and blocked threads
    (src/phantom/src/main/host/syscall_condition.c, and of host/thread.c and
    host/process.c what blocks and continues a thread)

    A system call that cannot finish leaves a condition behind: a trigger - a
    descriptor, a file of the newer kind or a futex that is to reach a status -
    and perhaps a timer.  While its thread is blocked the condition listens on
    both; the first status change schedules a task, and when the task runs the
    thread continues, if the status is still there. *)

From S2P Require Import Prelude Descriptor Timer TimerFd Futex Epoll.

Module Condition.
Import Desc.

(** ** Data *)

Inductive TriggerType := TRIGGER_NONE | TRIGGER_DESCRIPTOR | TRIGGER_POSIX_FILE | TRIGGER_FUTEX.

#[export] Instance TriggerType_eq_dec : EqDecision TriggerType.
Proof. solve_decision. Defined.

(** The union of pointers is an address, 0 is [NULL]. *)
Record Trigger := mkTrigger {
  t_type : TriggerType;
  t_object : Z;
  t_status : Z;
}.

Record SysCallCondition := mkCond {
  trigger : Trigger;
  timeout : Z;
  triggerListener : Z;
  timeoutListener : Z;
  c_proc : Z;
  c_thread : Z;
  signalPending : bool;
  c_referenceCount : Z;
}.

#[export] Instance cond_eta : Eta SysCallCondition := fun c =>
  mkCond (trigger c) (timeout c) (triggerListener c) (timeoutListener c) (c_proc c) (c_thread c) (signalPending c) (c_referenceCount c).

(** Of threads and processes, what blocking uses. *)
Record Thread := mkThread {
  th_referenceCount : Z;
  th_process : Z;
  th_cond : Z;
}.

#[export] Instance thread_eta : Eta Thread := fun t => mkThread (th_referenceCount t) (th_process t) (th_cond t).

Record Process := mkProcess {
  p_referenceCount : Z;
  p_isExiting : bool;
}.

#[export] Instance process_eta : Eta Process := fun p => mkProcess (p_referenceCount p) (p_isExiting p).

(** Beside descriptors, listeners and futexes: conditions and files, the
    signal tasks that are scheduled, with [wasTimeout], threads, processes, and
    the threads that were continued so far. *)
Record Memory := mkMemory {
  conds : gmap Z SysCallCondition;
  files : gmap Z Epoll.PosixFile;
  tasks : list (Z * bool);
  threads : gmap Z Thread;
  procs : gmap Z Process;
  continued : list (Z * Z);
}.

#[export] Instance cond_memory_eta : Eta Memory := fun m =>
  mkMemory (conds m) (files m) (tasks m) (threads m) (procs m) (continued m).

Abbreviation W := (World (Futex.Futexes Memory)).
Implicit Types w : W.

#[local] Existing Instances Futex.futexes_eta Futex.futex_eta Epoll.file_eta.

Definition mem w : Memory := Futex.rest (external w).
Definition on_mem w (f : Memory → Memory) : W := w <| external := (external w) <| Futex.rest := f (mem w) |> |>.

Definition get_cond w (c : Z) : option SysCallCondition := conds (mem w) !! c.
Definition set_cond w (c : Z) (C : SysCallCondition) : W := on_mem w (λ m, m <| conds := <[c := C]> (conds m) |>).
Definition set_file w (a : Z) (f : Epoll.PosixFile) : W := on_mem w (λ m, m <| files := <[a := f]> (files m) |>).
Definition set_thread w (a : Z) (t : Thread) : W := on_mem w (λ m, m <| threads := <[a := t]> (threads m) |>).
Definition set_proc w (a : Z) (p : Process) : W := on_mem w (λ m, m <| procs := <[a := p]> (procs m) |>).

(** ** References to descriptors, files, threads and processes *)

Definition world_descriptor_ref w (d : Z) : option W :=
  desc ← descriptors w !! d;
  Some (w <| descriptors := <[d := descriptor_ref desc]> (descriptors w) |>).

(** The free functions of descriptors, files, threads and processes belong to
    other components: what is freed is gone.  A thread that waits is referenced
    by its condition, so that freeing it has no condition to clean up. *)
Definition world_descriptor_unref w (d : Z) : option W :=
  desc ← descriptors w !! d;
  '(desc, gone) ← descriptor_unref desc;
  Some (w <| descriptors := if gone : bool then delete d (descriptors w) else <[d := desc]> (descriptors w) |>).

Definition posixfile_getStatus w (file : Z) : option Z := Epoll.file_status <$> files (mem w) !! file.

Definition posixfile_drop w (file : Z) : option W :=
  f ← files (mem w) !! file;
  Some (if Epoll.file_refs f =? 1 then on_mem w (λ m, m <| files := delete file (files m) |>)
        else set_file w file (f <| Epoll.file_refs := Epoll.file_refs f - 1 |>)).

Definition thread_ref w (a : Z) : option W :=
  t ← threads (mem w) !! a; Some (set_thread w a (t <| th_referenceCount := th_referenceCount t + 1 |>)).

Definition thread_unref w (a : Z) : option W :=
  t ← threads (mem w) !! a;
  let t := t <| th_referenceCount := th_referenceCount t - 1 |> in
  if negb (0 <=? th_referenceCount t) then None
  else Some (if th_referenceCount t =? 0 then on_mem w (λ m, m <| threads := delete a (threads m) |>) else set_thread w a t).

Definition process_ref w (a : Z) : option W :=
  p ← procs (mem w) !! a; Some (set_proc w a (p <| p_referenceCount := p_referenceCount p + 1 |>)).

Definition process_unref w (a : Z) : option W :=
  p ← procs (mem w) !! a;
  let p := p <| p_referenceCount := p_referenceCount p - 1 |> in
  if negb (0 <=? p_referenceCount p) then None
  else Some (if p_referenceCount p =? 0 then on_mem w (λ m, m <| procs := delete a (procs m) |>) else set_proc w a p).

(** ** Triggers: the switches over [TriggerType] *)

Definition trigger_ref w (t : Trigger) : option W :=
  if t_object t =? 0 then Some w else
  match t_type t with
  | TRIGGER_DESCRIPTOR => world_descriptor_ref w (t_object t)
  | TRIGGER_FUTEX => Futex.futex_ref w (t_object t)
  | TRIGGER_POSIX_FILE | TRIGGER_NONE => Some w
  end.

Definition trigger_unref w (t : Trigger) : option W :=
  if t_object t =? 0 then Some w else
  match t_type t with
  | TRIGGER_DESCRIPTOR => world_descriptor_unref w (t_object t)
  | TRIGGER_POSIX_FILE => posixfile_drop w (t_object t)
  | TRIGGER_FUTEX => Futex.futex_unref w (t_object t)
  | TRIGGER_NONE => Some w
  end.

Section Listeners.
(** The free functions of listeners. *)
Context (freeObject : W → Z → option W).

Definition posixfile_addListener w (file l : Z) : option W :=
  f ← files (mem w) !! file;
  if bool_decide (l ∈ Epoll.file_listeners f) then Some w
  else statuslistener_ref (set_file w file (f <| Epoll.file_listeners := Epoll.file_listeners f ++ [l] |>)) l.

Definition posixfile_removeListener w (file l : Z) : option W :=
  f ← files (mem w) !! file;
  if bool_decide (l ∈ Epoll.file_listeners f) then
    statuslistener_unref freeObject
      (set_file w file (f <| Epoll.file_listeners := list_difference (Epoll.file_listeners f) [l] |>)) l
  else Some w.

Definition trigger_addListener w (t : Trigger) (l : Z) : option W :=
  match t_type t with
  | TRIGGER_DESCRIPTOR => descriptor_addListener freeObject w (t_object t) l
  | TRIGGER_POSIX_FILE => posixfile_addListener w (t_object t) l
  | TRIGGER_FUTEX => Futex.futex_addListener freeObject w (t_object t) l
  | TRIGGER_NONE => Some w
  end.

Definition trigger_removeListener w (t : Trigger) (l : Z) : option W :=
  match t_type t with
  | TRIGGER_DESCRIPTOR => descriptor_removeListener freeObject w (t_object t) l
  | TRIGGER_POSIX_FILE => posixfile_removeListener w (t_object t) l
  | TRIGGER_FUTEX => Futex.futex_removeListener freeObject w (t_object t) l
  | TRIGGER_NONE => Some w
  end.

Definition set_monitor w (l st : Z) (f : StatusListenerFilter) : option W :=
  with_listener w l (λ s, statuslistener_setMonitorStatus s st f).

(** ** Conditions *)

Definition update_cond w (c : Z) (f : SysCallCondition → SysCallCondition) : option W :=
  C ← get_cond w c; Some (set_cond w c (f C)).

Definition _syscallcondition_cleanupListeners w (c : Z) : option W :=
  C ← get_cond w c;
  w ← (if negb (timeout C =? 0) && negb (timeoutListener C =? 0) then
         w ← descriptor_removeListener freeObject w (timeout C) (timeoutListener C);
         set_monitor w (timeoutListener C) STATUS_NONE SLF_NEVER
       else Some w);
  w ← (if negb (timeoutListener C =? 0) then
         w ← statuslistener_unref freeObject w (timeoutListener C);
         update_cond w c (λ C, C <| timeoutListener := 0 |>)
       else Some w);
  C ← get_cond w c;
  w ← (if negb (t_object (trigger C) =? 0) && negb (triggerListener C =? 0) then
         w ← trigger_removeListener w (trigger C) (triggerListener C);
         set_monitor w (triggerListener C) STATUS_NONE SLF_NEVER
       else Some w);
  if negb (triggerListener C =? 0) then
    w ← statuslistener_unref freeObject w (triggerListener C);
    update_cond w c (λ C, C <| triggerListener := 0 |>)
  else Some w.

Definition _syscallcondition_cleanupProc w (c : Z) : option W :=
  C ← get_cond w c;
  w ← (if negb (c_proc C =? 0) then
         w ← process_unref w (c_proc C); update_cond w c (λ C, C <| c_proc := 0 |>)
       else Some w);
  C ← get_cond w c;
  if negb (c_thread C =? 0) then
    w ← thread_unref w (c_thread C); update_cond w c (λ C, C <| c_thread := 0 |>)
  else Some w.

Definition _syscallcondition_free w (c : Z) : option W :=
  w ← _syscallcondition_cleanupListeners w c;
  w ← _syscallcondition_cleanupProc w c;
  C ← get_cond w c;
  w ← (if negb (timeout C =? 0) then world_descriptor_unref w (timeout C) else Some w);
  w ← trigger_unref w (trigger C);
  Some (on_mem w (λ m, m <| conds := delete c (conds m) |>)).
End Listeners.

(** The file's reference is handed over, the others are taken; [c] is the
    address of the new condition. *)
Definition syscallcondition_new w (c : Z) (trigger : Trigger) (timeout : Z) : option W :=
  let w := set_cond w c (mkCond trigger timeout 0 0 0 0 false 1) in
  w ← (if negb (timeout =? 0) then world_descriptor_ref w timeout else Some w);
  trigger_ref w trigger.

Definition syscallcondition_ref w (c : Z) : option W :=
  update_cond w c (λ C, C <| c_referenceCount := c_referenceCount C + 1 |>).

(** Freeing a condition may free its listeners, which hold references to it:
    [depth] bounds how far these calls nest. *)
Fixpoint syscallcondition_unref_at (depth : nat) w (c : Z) : option W :=
  C ← get_cond w c;
  let C := C <| c_referenceCount := c_referenceCount C - 1 |> in
  let w := set_cond w c C in
  if negb (0 <=? c_referenceCount C) then None
  else if c_referenceCount C =? 0 then
    match depth with
    | O => None
    | S depth => _syscallcondition_free (syscallcondition_unref_at depth) w c
    end
  else Some w.

Definition syscallcondition_unref : W → Z → option W := syscallcondition_unref_at 2.

(** The free function of a condition's listeners. *)
Definition _syscallcondition_unrefcb : W → Z → option W := syscallcondition_unref.

Definition syscallcondition_cancel w (c : Z) : option W :=
  w ← _syscallcondition_cleanupListeners _syscallcondition_unrefcb w c;
  _syscallcondition_cleanupProc w c.

Definition _syscallcondition_statusIsValid w (C : SysCallCondition) : option bool :=
  match t_type (trigger C) with
  | TRIGGER_DESCRIPTOR =>
      desc ← descriptors w !! t_object (trigger C);
      Some (has_flag (descriptor_getStatus desc) (t_status (trigger C)))
  | TRIGGER_POSIX_FILE =>
      st ← posixfile_getStatus w (t_object (trigger C));
      Some (has_flag st (t_status (trigger C)))
  | TRIGGER_FUTEX => Some true
  | TRIGGER_NONE => Some false
  end.

Definition _syscallcondition_scheduleSignalTask w (c : Z) (wasTimeout : bool) : option W :=
  let w := on_mem w (λ m, m <| tasks := tasks m ++ [(c, wasTimeout)] |>) in
  w ← syscallcondition_ref w c;
  update_cond w c (λ C, C <| signalPending := true |>).

Definition _syscallcondition_notifyStatusChanged w (c : Z) : option W :=
  C ← get_cond w c;
  if negb (signalPending C) then _syscallcondition_scheduleSignalTask w c false else Some w.

Definition _syscallcondition_notifyTimeoutExpired w (c : Z) : option W :=
  C ← get_cond w c;
  if negb (signalPending C) then _syscallcondition_scheduleSignalTask w c true else Some w.

(** The two callbacks by number. *)
Definition NOTIFY_STATUS : Z := 1.
Definition NOTIFY_TIMEOUT : Z := 2.

Definition notify w (func object argument : Z) : option W :=
  if func =? NOTIFY_STATUS then _syscallcondition_notifyStatusChanged w object
  else if func =? NOTIFY_TIMEOUT then _syscallcondition_notifyTimeoutExpired w object
  else Some w.

Definition new_listener w (l func c : Z) : W :=
  w <| statuslisteners := <[l := statuslistener_new func c 1 0 0]> (statuslisteners w) |>.

(** [ls]: the addresses of the two listeners. *)
Definition syscallcondition_waitNonblock w (c proc thread : Z) (ls : Z * Z) : option W :=
  if (proc =? 0) || (thread =? 0) then None else
  w ← syscallcondition_cancel w c;
  w ← update_cond w c (λ C, C <| c_proc := proc |>);
  w ← process_ref w proc;
  w ← update_cond w c (λ C, C <| c_thread := thread |>);
  w ← thread_ref w thread;
  C ← get_cond w c;
  w ← (if negb (timeout C =? 0) && (timeoutListener C =? 0) then
         let w := new_listener w ls.1 NOTIFY_TIMEOUT c in
         w ← update_cond w c (λ C, C <| timeoutListener := ls.1 |>);
         w ← syscallcondition_ref w c;
         w ← set_monitor w ls.1 STATUS_DESCRIPTOR_READABLE SLF_OFF_TO_ON;
         descriptor_addListener _syscallcondition_unrefcb w (timeout C) ls.1
       else Some w);
  if negb (t_object (trigger C) =? 0) && (triggerListener C =? 0) then
    let w := new_listener w ls.2 NOTIFY_STATUS c in
    w ← update_cond w c (λ C, C <| triggerListener := ls.2 |>);
    w ← syscallcondition_ref w c;
    w ← (match t_type (trigger C) with
         | TRIGGER_DESCRIPTOR | TRIGGER_POSIX_FILE => set_monitor w ls.2 (t_status (trigger C)) SLF_OFF_TO_ON
         | TRIGGER_FUTEX => set_monitor w ls.2 (t_status (trigger C)) SLF_ALWAYS
         | TRIGGER_NONE => Some w
         end);
    trigger_addListener _syscallcondition_unrefcb w (trigger C) ls.2
  else Some w.

(** A file of the newer kind changes its status: its listeners are called with
    the change in turn. *)
Fixpoint run_listeners w (st changed : Z) (items : list Z) : option W :=
  match items with
  | [] => Some w
  | l :: items => '(w, _) ← statuslistener_onStatusChanged notify w l st changed; run_listeners w st changed items
  end.

Definition posixfile_setStatus w (file st : Z) : option W :=
  f ← files (mem w) !! file;
  let changed := Z.lxor st (Epoll.file_status f) in
  let w := set_file w file (f <| Epoll.file_status := st |>) in
  if changed =? 0 then Some w else run_listeners w st changed (Epoll.file_listeners f).

(** ** Threads *)

Definition _thread_cleanupSysCallCondition w (a : Z) : option W :=
  t ← threads (mem w) !! a;
  if negb (th_cond t =? 0) then
    w ← syscallcondition_cancel w (th_cond t);
    w ← syscallcondition_unref w (th_cond t);
    t ← threads (mem w) !! a;
    Some (set_thread w a (t <| th_cond := 0 |>))
  else Some w.

Definition process_isRunning w (proc : Z) : option bool :=
  p ← procs (mem w) !! proc;
  Some (negb (p_isExiting p) && bool_decide (map_Exists (λ _ t, th_process t = proc) (threads (mem w)))).

(** [thread_resume] up to the call into the managed thread, which is recorded;
    what the thread does until it blocks again are further steps. *)
Definition thread_resume_begin w (thread : Z) : option W :=
  w ← _thread_cleanupSysCallCondition w thread;
  t ← threads (mem w) !! thread;
  Some (on_mem w (λ m, m <| continued := continued m ++ [(th_process t, thread)] |>)).

(** [thread_resume] from there on, if the thread blocks: on condition [c]. *)
Definition thread_resume_end w (thread c : Z) (ls : Z * Z) : option W :=
  t ← threads (mem w) !! thread;
  let w := set_thread w thread (t <| th_cond := c |>) in
  syscallcondition_waitNonblock w c (th_process t) thread ls.

(** [None]: the process is [NULL]. *)
Definition process_continue w (proc thread : Z) : option W :=
  running ← process_isRunning w proc;
  if running : bool then thread_resume_begin w thread else Some w.

Definition _syscallcondition_signal w (c : Z) (wasTimeout : bool) : option W :=
  w ← update_cond w c (λ C, C <| signalPending := false |>);
  C ← get_cond w c;
  valid ← (if wasTimeout then Some true else _syscallcondition_statusIsValid w C);
  if valid : bool then process_continue w (c_proc C) (c_thread C) else Some w.

(** The scheduler runs the first task that is due, and drops it. *)
Definition run_task w : option W :=
  match tasks (mem w) with
  | [] => Some w
  | (c, wasTimeout) :: ts =>
      let w := on_mem w (λ m, m <| tasks := ts |>) in
      w ← _syscallcondition_signal w c wasTimeout;
      syscallcondition_unref w c
  end.

(** The first step of [thread_handleProcessExit], for all threads of the
    process, in the order of the table.  What follows concerns the native
    thread and the references of the table. *)
Fixpoint exit_threads w (items : list Z) : option W :=
  match items with
  | [] => Some w
  | a :: items => w ← _thread_cleanupSysCallCondition w a; exit_threads w items
  end.

Definition process_markAsExiting w (proc : Z) : option W :=
  p ← procs (mem w) !! proc; Some (set_proc w proc (p <| p_isExiting := true |>)).

Definition _process_handleProcessExit w (proc : Z) (items : list Z) : option W :=
  running ← process_isRunning w proc;
  if running : bool then None else exit_threads w items.

(** [_process_terminate_threads]; the native threads are gone. *)
Definition process_exit w (proc : Z) (items : list Z) : option W :=
  running ← process_isRunning w proc;
  w ← (if running : bool then process_markAsExiting w proc else Some w);
  _process_handleProcessExit w proc items.

End Condition.
