(* ===== verification/ConditionSafety.v ===== *)
(** * Blocked threads are continued and nothing is left behind
    (src/phantom/src/main/host/syscall_condition.c)

    The conditions of a host are followed over any sequence of blocking calls,
    status changes, wake-ups, task executions and exits: references are exact,
    a status that a thread waits for is never missed, and a thread that
    continues leaves no listener behind. *)

From S2P Require Import Prelude Descriptor Timer TimerFd Futex Epoll Condition.

Module ConditionSafety.
Import Desc Condition.
#[local] Existing Instances Futex.futexes_eta Futex.futex_eta Epoll.file_eta.
Implicit Types w : W.

(** The decisions of the goal by cases. *)
Ltac decide_goal := repeat match goal with |- context [decide ?P] => destruct (decide P) end.

(** ** Objects, seen alike *)

Abbreviation Obj := (TriggerType * Z)%type.

Record View := mkView {
  v_status : Z;
  v_refs : Z;
  v_listeners : gset Z;
}.

Definition o_get w (o : Obj) : option View :=
  match o.1 with
  | TRIGGER_NONE => None
  | TRIGGER_DESCRIPTOR => (λ d, mkView (status d) (referenceCount d) (list_to_set (listeners d))) <$> descriptors w !! o.2
  | TRIGGER_POSIX_FILE =>
      (λ f, mkView (Epoll.file_status f) (Epoll.file_refs f) (list_to_set (Epoll.file_listeners f))) <$> files (mem w) !! o.2
  | TRIGGER_FUTEX =>
      (λ f, mkView STATUS_FUTEX_WAKEUP (Futex.f_referenceCount f) (dom (Futex.f_listeners f))) <$> Futex.memory (external w) !! o.2
  end.

Definition o_of (t : Trigger) : Obj := (t_type t, t_object t).
Definition t_of (o : Obj) : Trigger := mkTrigger o.1 o.2 0.

(** Beside objects and listeners nothing changes. *)
Definition same_mem w w' : Prop :=
  conds (mem w') = conds (mem w) ∧ tasks (mem w') = tasks (mem w) ∧ threads (mem w') = threads (mem w) ∧
  procs (mem w') = procs (mem w) ∧ continued (mem w') = continued (mem w).

(** One object changes. *)
Definition o_upd w w' (o : Obj) (v : option View) : Prop :=
  ∀ o', o_get w' o' = if decide (o' = o) then v else o_get w o'.

Lemma same_mem_refl w : same_mem w w.
Proof. done. Qed.

Lemma same_mem_trans w1 w2 w3 : same_mem w1 w2 → same_mem w2 w3 → same_mem w1 w3.
Proof. intros (?&?&?&?&?) (?&?&?&?&?). split_and!; congruence. Qed.

Lemma desc_upd w d desc : o_upd w (w <| descriptors := <[d := desc]> (descriptors w) |>) (TRIGGER_DESCRIPTOR, d)
  (Some (mkView (status desc) (referenceCount desc) (list_to_set (listeners desc)))).
Proof.
  intros [[] x]; cbn; (case_decide as E; [simplify_eq; by rewrite lookup_insert_eq || done|]); try done.
  rewrite lookup_insert_ne; [done|]. congruence.
Qed.

Lemma desc_del w d : o_upd w (w <| descriptors := delete d (descriptors w) |>) (TRIGGER_DESCRIPTOR, d) None.
Proof.
  intros [[] x]; cbn; (case_decide as E; [simplify_eq; by rewrite lookup_delete_eq || done|]); try done.
  rewrite lookup_delete_ne; [done|]. congruence.
Qed.

Lemma file_upd w d f : o_upd w (set_file w d f) (TRIGGER_POSIX_FILE, d)
  (Some (mkView (Epoll.file_status f) (Epoll.file_refs f) (list_to_set (Epoll.file_listeners f)))).
Proof.
  intros [[] x]; cbn; (case_decide as E; [simplify_eq; by rewrite lookup_insert_eq || done|]); try done.
  rewrite lookup_insert_ne; [done|]. congruence.
Qed.

Lemma file_del w d : o_upd w (on_mem w (λ m, m <| files := delete d (files m) |>)) (TRIGGER_POSIX_FILE, d) None.
Proof.
  intros [[] x]; cbn; (case_decide as E; [simplify_eq; by rewrite lookup_delete_eq || done|]); try done.
  rewrite lookup_delete_ne; [done|]. congruence.
Qed.

Lemma futex_upd w d f : o_upd w (Futex.on_memory w <[d := f]>) (TRIGGER_FUTEX, d)
  (Some (mkView STATUS_FUTEX_WAKEUP (Futex.f_referenceCount f) (dom (Futex.f_listeners f)))).
Proof.
  intros [[] x]; cbn; (case_decide as E; [simplify_eq; by rewrite lookup_insert_eq || done|]); try done.
  rewrite lookup_insert_ne; [done|]. congruence.
Qed.

Lemma futex_del w d : o_upd w (Futex.on_memory w (delete d)) (TRIGGER_FUTEX, d) None.
Proof.
  intros [[] x]; cbn; (case_decide as E; [simplify_eq; by rewrite lookup_delete_eq || done|]); try done.
  rewrite lookup_delete_ne; [done|]. congruence.
Qed.

Lemma o_upd_trans w w1 w2 o v1 v2 : o_upd w w1 o v1 → o_upd w1 w2 o v2 → o_upd w w2 o v2.
Proof. intros H1 H2 o'. rewrite H2. case_decide; [done|]. rewrite H1. by rewrite decide_False. Qed.

Lemma o_upd_same w w1 w2 o v : o_upd w w1 o v → (∀ o', o_get w2 o' = o_get w1 o') → o_upd w w2 o v.
Proof. intros H1 H2 o'. by rewrite H2. Qed.
(** [w'] differs from [w] in one object and in the listeners. *)
Record touched w w' (o : Obj) (v : option View) (ls : gmap Z StatusListener) : Prop := {
  to_obj : o_upd w w' o v;
  to_lis : statuslisteners w' = ls;
  to_mem : same_mem w w';
}.

(** *** References to objects *)

Definition v_at (v : View) (n : Z) : View := mkView (v_status v) n (v_listeners v).
Definition v_with (v : View) (ls : gset Z) : View := mkView (v_status v) (v_refs v) ls.

Definition o_drop (v : option View) : option View :=
  v ← v; if v_refs v =? 1 then None else Some (v_at v (v_refs v - 1)).

(** The reference to a file is handed over. *)
Definition o_grab (o : Obj) (v : View) : View :=
  match o.1 with TRIGGER_DESCRIPTOR | TRIGGER_FUTEX => v_at v (v_refs v + 1) | _ => v end.

Lemma trigger_ref_ok w t v :
  o_get w (o_of t) = Some v → t_object t ≠ 0 →
  ∃ w', trigger_ref w t = Some w' ∧ touched w w' (o_of t) (Some (o_grab (o_of t) v)) (statuslisteners w).
Proof.
  destruct t as [ty a st]. unfold trigger_ref, o_of, o_grab. cbn [t_object t_type t_status fst snd]. intros Hv Ha.
  rewrite (proj2 (Z.eqb_neq a 0)) by done. destruct ty; cbn in Hv; [done|..].
  - unfold world_descriptor_ref. destruct (descriptors w !! a) as [d|] eqn:Ed; [|done]. cbn in Hv |- *.
    injection Hv as <-. eexists. split; [done|]. split; [|done..]. apply (desc_upd w a (descriptor_ref d)).
  - eexists. split; [done|]. split; [|done|done]. intros o'. case_decide as E; [|done]. by subst o'.
  - unfold Futex.futex_ref. destruct (Futex.memory (external w) !! a) as [f|] eqn:Ef; [|done]. cbn in Hv |- *.
    injection Hv as <-. eexists. split; [done|]. split; [|done..].
    exact (futex_upd w a (f <| Futex.f_referenceCount := Futex.f_referenceCount f + 1 |>)).
Qed.

Lemma trigger_unref_ok w t v :
  o_get w (o_of t) = Some v → t_object t ≠ 0 → 0 < v_refs v →
  ∃ w', trigger_unref w t = Some w' ∧ touched w w' (o_of t) (o_drop (Some v)) (statuslisteners w).
Proof.
  destruct t as [ty a st]. unfold trigger_unref, o_of, o_drop, v_at. cbn [t_object t_type t_status fst snd].
  intros Hv Ha Hr. rewrite (proj2 (Z.eqb_neq a 0)) by done. destruct ty; cbn in Hv; [done|..].
  - unfold world_descriptor_unref, descriptor_unref.
    destruct (descriptors w !! a) as [d|] eqn:Ed; [|done]. cbn in Hv |- *. injection Hv as <-. cbn in Hr |- *.
    destruct (Z.leb_spec 0 (referenceCount d - 1)); [|lia]. cbn.
    replace (referenceCount d - 1 =? 0) with (referenceCount d =? 1)
      by (destruct (Z.eqb_spec (referenceCount d) 1), (Z.eqb_spec (referenceCount d - 1) 0); done || lia).
    eexists. split; [done|]. destruct (_ =? 1).
    + split; [|done..]. apply desc_del.
    + split; [|done..]. exact (desc_upd w a (d <| referenceCount := referenceCount d - 1 |>)).
  - unfold posixfile_drop. destruct (files (mem w) !! a) as [f|] eqn:Ef; [|done]. cbn in Hv |- *. injection Hv as <-.
    cbn in Hr |- *. eexists. split; [done|]. destruct (_ =? 1).
    + split; [|done..]. apply file_del.
    + split; [|done..]. exact (file_upd w a (f <| Epoll.file_refs := Epoll.file_refs f - 1 |>)).
  - unfold Futex.futex_unref. destruct (Futex.memory (external w) !! a) as [f|] eqn:Ef; [|done]. cbn in Hv |- *.
    injection Hv as <-. cbn in Hr |- *.
    destruct (Z.ltb_spec 0 (Futex.f_referenceCount f)); [|lia]. cbn.
    replace (Futex.f_referenceCount f - 1 =? 0) with (Futex.f_referenceCount f =? 1)
      by (destruct (Z.eqb_spec (Futex.f_referenceCount f) 1), (Z.eqb_spec (Futex.f_referenceCount f - 1) 0); done || lia).
    eexists. split; [done|].
    pose proof (futex_upd w a (f <| Futex.f_referenceCount := Futex.f_referenceCount f - 1 |>)) as H1.
    destruct (_ =? 1).
    + split; [|done..]. eapply o_upd_trans; [exact H1|apply futex_del].
    + split; [exact H1|done..].
Qed.

(** *** Listeners of objects *)

Lemma list_to_set_snoc (ls : list Z) l : list_to_set (C := gset Z) (ls ++ [l]) = {[l]} ∪ list_to_set ls.
Proof. apply set_eq. intros x. rewrite elem_of_union, elem_of_singleton, !elem_of_list_to_set, elem_of_app, list_elem_of_singleton. tauto. Qed.

Lemma list_to_set_without (ls : list Z) l :
  list_to_set (C := gset Z) (list_difference ls [l]) = list_to_set ls ∖ {[l]}.
Proof. apply set_eq. intros x. rewrite elem_of_difference, elem_of_singleton, !elem_of_list_to_set, list_elem_of_difference, list_elem_of_singleton. tauto. Qed.

Section Free.
Context (freeObject : W → Z → option W).

Lemma attach_ok w t l v s :
  o_get w (o_of t) = Some v → l ∉ v_listeners v → statuslisteners w !! l = Some s →
  ∃ w', trigger_addListener freeObject w t l = Some w' ∧
    touched w w' (o_of t) (Some (v_with v ({[l]} ∪ v_listeners v)))
      (<[l := s <| l_referenceCount := l_referenceCount s + 1 |>]> (statuslisteners w)).
Proof.
  destruct t as [ty a st]. unfold trigger_addListener, o_of, v_with. cbn [t_object t_type t_status fst snd].
  intros Hv Hl Hs. destruct ty; cbn in Hv; [done|..].
  - unfold descriptor_addListener, statuslistener_ref, with_listener. rewrite Hs. cbn.
    destruct (descriptors w !! a) as [d|] eqn:Ed; [|done]. cbn in Hv |- *. injection Hv as <-. cbn in Hl |- *.
    rewrite bool_decide_false by set_solver. eexists. split; [done|]. split; [|done..].
    rewrite <-list_to_set_snoc.
    exact (desc_upd w a (d <| listeners := listeners d ++ [l] |>)).
  - unfold posixfile_addListener. destruct (files (mem w) !! a) as [f|] eqn:Ef; [|done]. cbn in Hv |- *. injection Hv as <-.
    cbn in Hl |- *. rewrite bool_decide_false by set_solver. unfold statuslistener_ref, with_listener. cbn. rewrite Hs. cbn.
    eexists. split; [done|]. split; [|done..].
    rewrite <-list_to_set_snoc.
    exact (file_upd w a (f <| Epoll.file_listeners := Epoll.file_listeners f ++ [l] |>)).
  - unfold Futex.futex_addListener, statuslistener_ref, with_listener. rewrite Hs. cbn.
    destruct (Futex.memory (external w) !! a) as [f|] eqn:Ef; [|done]. cbn in Hv |- *. injection Hv as <-. cbn in Hl |- *.
    rewrite bool_decide_false by (by rewrite <-elem_of_dom). eexists. split; [done|]. split; [|done..].
    rewrite <-dom_insert_L with (x := false).
    exact (futex_upd w a (f <| Futex.f_listeners := <[l := false]> (Futex.f_listeners f) |>)).
Qed.

Lemma statuslistener_unref_alive w l s :
  statuslisteners w !! l = Some s → 1 < l_referenceCount s →
  statuslistener_unref freeObject w l =
    Some (w <| statuslisteners := <[l := s <| l_referenceCount := l_referenceCount s - 1 |>]> (statuslisteners w) |>).
Proof.
  intros Hs Hr. unfold statuslistener_unref, with_listener. rewrite Hs. cbn. rewrite lookup_insert_eq. cbn.
  destruct (Z.leb_spec 0 (l_referenceCount s - 1)); [|lia]. destruct (Z.eqb_spec (l_referenceCount s - 1) 0); [lia|done].
Qed.

Lemma detach_ok w t l v s :
  o_get w (o_of t) = Some v → l ∈ v_listeners v → statuslisteners w !! l = Some s → 1 < l_referenceCount s →
  ∃ w', trigger_removeListener freeObject w t l = Some w' ∧
    touched w w' (o_of t) (Some (v_with v (v_listeners v ∖ {[l]})))
      (<[l := s <| l_referenceCount := l_referenceCount s - 1 |>]> (statuslisteners w)).
Proof.
  destruct t as [ty a st]. unfold trigger_removeListener, o_of, v_with. cbn [t_object t_type t_status fst snd].
  intros Hv Hl Hs Hr. destruct ty; cbn in Hv; [done|..].
  - unfold descriptor_removeListener.
    destruct (descriptors w !! a) as [d|] eqn:Ed; [|done]. cbn in Hv |- *. injection Hv as <-. cbn in Hl |- *.
    rewrite bool_decide_true by set_solver. erewrite statuslistener_unref_alive by done.
    eexists. split; [done|]. split; [|done..].
    rewrite <-list_to_set_without.
    exact (desc_upd w a (d <| listeners := list_difference (listeners d) [l] |>)).
  - unfold posixfile_removeListener. destruct (files (mem w) !! a) as [f|] eqn:Ef; [|done]. cbn in Hv |- *. injection Hv as <-.
    cbn in Hl |- *. rewrite bool_decide_true by set_solver. erewrite statuslistener_unref_alive by done.
    eexists. split; [done|]. split; [|done..].
    rewrite <-list_to_set_without.
    exact (file_upd w a (f <| Epoll.file_listeners := list_difference (Epoll.file_listeners f) [l] |>)).
  - unfold Futex.futex_removeListener. destruct (Futex.memory (external w) !! a) as [f|] eqn:Ef; [|done]. cbn in Hv |- *.
    injection Hv as <-. cbn in Hl |- *. rewrite bool_decide_true by (by rewrite <-elem_of_dom).
    erewrite statuslistener_unref_alive by done. eexists. split; [done|]. split; [|done..].
    rewrite <-dom_delete_L.
    exact (futex_upd w a (f <| Futex.f_listeners := delete l (Futex.f_listeners f) |>)).
Qed.

End Free.
(** *** A condition and its listeners *)

(** Beside objects, listeners and conditions nothing changes. *)
Definition same_rest w w' : Prop :=
  tasks (mem w') = tasks (mem w) ∧ threads (mem w') = threads (mem w) ∧
  procs (mem w') = procs (mem w) ∧ continued (mem w') = continued (mem w).

Definition cond_refs (C : SysCallCondition) (n : Z) : SysCallCondition := C <| c_referenceCount := n |>.

Lemma unref_at_alive depth w c C :
  get_cond w c = Some C → 1 < c_referenceCount C →
  syscallcondition_unref_at depth w c = Some (set_cond w c (cond_refs C (c_referenceCount C - 1))).
Proof.
  intros HC Hr. destruct depth; cbn [syscallcondition_unref_at]; rewrite HC; cbn [mbind option_bind];
    change (c_referenceCount (C <| c_referenceCount := c_referenceCount C - 1 |>)) with (c_referenceCount C - 1);
    (destruct (Z.leb_spec 0 (c_referenceCount C - 1)); [|lia]);
    (destruct (Z.eqb_spec (c_referenceCount C - 1) 0); [lia|]); done.
Qed.

Definition own_listener (mon : Z) (filt : StatusListenerFilter) (func c refs : Z) : StatusListener :=
  mkListener mon filt func c 1 0 0 refs.

(** The last reference to a listener of [c] gives back its reference to [c]. *)
Lemma unref_last_listener depth w l mon filt func c C :
  statuslisteners w !! l = Some (own_listener mon filt func c 1) → c ≠ 0 →
  get_cond w c = Some C → 1 < c_referenceCount C →
  ∃ w', statuslistener_unref (syscallcondition_unref_at depth) w l = Some w' ∧
    (∀ o, o_get w' o = o_get w o) ∧ statuslisteners w' = delete l (statuslisteners w) ∧
    conds (mem w') = <[c := cond_refs C (c_referenceCount C - 1)]> (conds (mem w)) ∧ same_rest w w'.
Proof.
  intros Hl Hc HC Hr. unfold statuslistener_unref, with_listener. rewrite Hl. cbn [mbind option_bind].
  set (w0 := w <| statuslisteners := _ |>).
  assert (H0 : statuslisteners w0 !! l = Some (own_listener mon filt func c 0)) by (unfold w0; cbn; apply lookup_insert_eq).
  rewrite H0. cbn [mbind option_bind]. change (l_referenceCount (own_listener mon filt func c 0)) with 0.
  cbn [Z.leb Z.eqb Z.compare negb]. unfold _statuslistener_free. rewrite H0. cbn [mbind option_bind].
  cbn -[syscallcondition_unref_at]. rewrite (proj2 (Z.eqb_neq c 0)) by done. cbn [negb andb].
  rewrite (unref_at_alive depth w0 c C) by done. cbn [mbind option_bind].
  eexists. split; [done|]. split_and!; [done| |done|done].
  unfold w0. cbn. by rewrite delete_insert_eq.
Qed.

(** One half of [_syscallcondition_cleanupListeners]. *)
Lemma half_detach_ok depth w c C t l v mon filt func :
  o_get w (o_of t) = Some v → l ∈ v_listeners v → c ≠ 0 →
  statuslisteners w !! l = Some (own_listener mon filt func c 2) →
  get_cond w c = Some C → 1 < c_referenceCount C →
  ∃ w1 w2 w3, trigger_removeListener (syscallcondition_unref_at depth) w t l = Some w1 ∧
    set_monitor w1 l STATUS_NONE SLF_NEVER = Some w2 ∧
    statuslistener_unref (syscallcondition_unref_at depth) w2 l = Some w3 ∧
    o_upd w w3 (o_of t) (Some (v_with v (v_listeners v ∖ {[l]}))) ∧
    statuslisteners w3 = delete l (statuslisteners w) ∧
    conds (mem w3) = <[c := cond_refs C (c_referenceCount C - 1)]> (conds (mem w)) ∧ same_rest w w3.
Proof.
  intros Hv Hl Hc Hs HC Hr.
  destruct (detach_ok (syscallcondition_unref_at depth) w t l v _ Hv Hl Hs) as (w1 & -> & [T1 T2 T3]); [done|].
  destruct T3 as (M1 & M2 & M3 & M4 & M5).
  set (w2 := w1 <| statuslisteners := <[l := own_listener STATUS_NONE SLF_NEVER func c 1]> (statuslisteners w1) |>).
  assert (E1 : statuslisteners w1 !! l = Some (own_listener mon filt func c 1)) by (rewrite T2; apply lookup_insert_eq).
  assert (E2 : set_monitor w1 l STATUS_NONE SLF_NEVER = Some w2)
    by (unfold set_monitor, with_listener; by rewrite E1).
  destruct (unref_last_listener depth w2 l STATUS_NONE SLF_NEVER func c C) as (w3 & E3 & O3 & L3 & C3 & S3).
  - unfold w2. cbn. by rewrite lookup_insert_eq.
  - done.
  - unfold get_cond. change (mem w2) with (mem w1). rewrite M1. exact HC.
  - done.
  - exists w1, w2, w3. split_and!; try done.
    + eapply o_upd_same; [exact T1|]. intros o'. by rewrite O3.
    + rewrite L3. unfold w2. cbn. by rewrite delete_insert_eq, T2, delete_insert_eq.
    + rewrite C3. change (mem w2) with (mem w1). by rewrite M1.
    + unfold same_rest in *. change (mem w2) with (mem w1) in *. destruct S3 as (S1 & S2 & S3 & S4).
      split_and!; congruence.
Qed.
(** *** What a waiting condition is attached to *)

Definition v_minus (ls : gset Z) (v : View) : View := v_with v (v_listeners v ∖ ls).

Lemma v_minus_empty v : v_minus ∅ v = v.
Proof. destruct v as [s r ls]. unfold v_minus, v_with. cbn. f_equal. apply difference_empty_L. Qed.

Lemma v_minus_union a b v : v_minus b (v_minus a v) = v_minus (a ∪ b) v.
Proof. destruct v as [s r ls]. unfold v_minus, v_with. cbn. f_equal. apply difference_difference_l_L. Qed.

(** [l], unless it is [NULL], listens on [o] for [c]. *)
Definition side w (c : Z) (o : Obj) (l mon : Z) (filt : StatusListenerFilter) (func : Z) : Prop :=
  if decide (o.2 = 0) then l = 0
  else l ≠ 0 ∧ ∃ v, o_get w o = Some v ∧ l ∈ v_listeners v ∧
         statuslisteners w !! l = Some (own_listener mon filt func c 2).

Definition att (o o' : Obj) (l : Z) : gset Z := if decide (o' = o ∧ l ≠ 0) then {[l]} else ∅.

Lemma att_sub o o' l : att o o' l ⊆ {[l]}.
Proof. unfold att. case_decide; [reflexivity|apply empty_subseteq]. Qed.

Lemma half_ok depth w c C t l mon filt func clr :
  side w c (o_of t) l mon filt func → c ≠ 0 → get_cond w c = Some C → Z.b2z (negb (l =? 0)) < c_referenceCount C →
  ∃ w1 w2,
    (if negb (t_object t =? 0) && negb (l =? 0) then
       w ← trigger_removeListener (syscallcondition_unref_at depth) w t l; set_monitor w l STATUS_NONE SLF_NEVER
     else Some w) = Some w1 ∧
    (if negb (l =? 0) then
       w ← statuslistener_unref (syscallcondition_unref_at depth) w1 l; update_cond w c clr
     else Some w1) = Some w2 ∧
    (∀ o, o_get w2 o = v_minus (att (o_of t) o l) <$> o_get w o) ∧
    (∀ x, statuslisteners w2 !! x = if decide (x = l ∧ l ≠ 0) then None else statuslisteners w !! x) ∧
    conds (mem w2) = (if decide (l = 0) then conds (mem w)
                      else <[c := clr (cond_refs C (c_referenceCount C - 1))]> (conds (mem w))) ∧
    same_rest w w2.
Proof.
  unfold side, att. cbn [o_of snd]. intros Hs Hc HC Hr. case_decide as E0.
  - subst l. rewrite andb_false_r. cbn. exists w, w. split_and!; try done.
    + intros o. rewrite decide_False by tauto. destruct (o_get w o); cbn; [by rewrite v_minus_empty|done].
    + intros x. by rewrite decide_False by tauto.
  - destruct Hs as (Hl & v & Hv & Hin & Hls). rewrite (proj2 (Z.eqb_neq l 0)) in * by done.
    rewrite (proj2 (Z.eqb_neq (t_object t) 0)) by done. cbn [negb andb] in *. change (Z.b2z true) with 1 in Hr.
    destruct (half_detach_ok depth w c C t l v mon filt func Hv Hin Hc Hls HC Hr)
      as (w1 & w2 & w3 & -> & E2 & E3 & O3 & L3 & C3 & S3).
    cbn [mbind option_bind]. exists w2. rewrite E2, E3. cbn [mbind option_bind].
    unfold update_cond, get_cond. rewrite C3, lookup_insert_eq. cbn [mbind option_bind].
    eexists. split; [done|]. split; [done|]. rewrite (decide_False (P := l = 0)) by done. split_and!.
    + intros o. transitivity (o_get w3 o); [done|]. rewrite O3. case_decide as Eo.
      * subst o. rewrite Hv, decide_True by done. done.
      * rewrite decide_False by tauto. destruct (o_get w o); cbn; [by rewrite v_minus_empty|done].
    + intros x. transitivity (statuslisteners w3 !! x); [done|]. rewrite L3.
      case_decide as Ex; [destruct Ex as [-> _]; apply lookup_delete_eq|].
      apply lookup_delete_ne. intros ->. tauto.
    + cbn. by rewrite C3, insert_insert_eq.
    + exact S3.
Qed.

Lemma side_after w w' c o l mon filt func ls :
  side w c o l mon filt func →
  (∀ o, ∃ a, a ⊆ ls ∧ o_get w' o = v_minus a <$> o_get w o) →
  (∀ x, x ∉ ls → statuslisteners w' !! x = statuslisteners w !! x) → (l = 0 ∨ l ∉ ls) →
  side w' c o l mon filt func.
Proof.
  unfold side. intros Hs Ho Hx Hl. case_decide; [done|]. destruct Hs as (H0 & v & Hv & Hin & Hls).
  destruct Hl as [?|Hl]; [done|]. split; [done|]. destruct (Ho o) as (a & Ha & Eo). rewrite Hv in Eo.
  eexists. split; [exact Eo|]. cbn. split; [set_solver|]. by rewrite Hx.
Qed.

Definition timeout_obj (C : SysCallCondition) : Obj := (TRIGGER_DESCRIPTOR, timeout C).
Definition trigger_obj (C : SysCallCondition) : Obj := o_of (trigger C).

Definition timeout_side w c C : Prop :=
  side w c (timeout_obj C) (timeoutListener C) STATUS_DESCRIPTOR_READABLE SLF_OFF_TO_ON NOTIFY_TIMEOUT.

Definition trigger_side w c C : Prop :=
  side w c (trigger_obj C) (triggerListener C) (t_status (trigger C))
    (if decide (t_type (trigger C) = TRIGGER_FUTEX) then SLF_ALWAYS else SLF_OFF_TO_ON) NOTIFY_STATUS.

(** The listeners of [C] on an object, and all of them. *)
Definition atts (C : SysCallCondition) (o : Obj) : gset Z :=
  att (timeout_obj C) o (timeoutListener C) ∪ att (trigger_obj C) o (triggerListener C).

Definition own (C : SysCallCondition) (l : Z) : Prop := l ≠ 0 ∧ (l = timeoutListener C ∨ l = triggerListener C).

#[export] Instance own_dec C l : Decision (own C l).
Proof. unfold own. apply _. Defined.

Definition n_listeners (C : SysCallCondition) : Z :=
  Z.b2z (negb (timeoutListener C =? 0)) + Z.b2z (negb (triggerListener C =? 0)).

Lemma sides_differ w c C : timeout_side w c C → trigger_side w c C →
  triggerListener C = 0 ∨ triggerListener C ≠ timeoutListener C.
Proof.
  unfold timeout_side, trigger_side, side. intros Ht Hg.
  destruct (decide (triggerListener C = 0)); [by left|right]; intros E.
  destruct (decide ((timeout_obj C).2 = 0)), (decide ((trigger_obj C).2 = 0)); try congruence.
  destruct Ht as (_ & v1 & _ & _ & L1), Hg as (_ & v2 & _ & _ & L2). rewrite E, L1 in L2. done.
Qed.

(** The condition after its listeners are gone. *)
Definition detached (C : SysCallCondition) : SysCallCondition :=
  C <| timeoutListener := 0 |> <| triggerListener := 0 |> <| c_referenceCount := c_referenceCount C - n_listeners C |>.

Lemma cleanupListeners_ok depth w c C :
  timeout_side w c C → trigger_side w c C → c ≠ 0 → get_cond w c = Some C → n_listeners C < c_referenceCount C →
  ∃ w', _syscallcondition_cleanupListeners (syscallcondition_unref_at depth) w c = Some w' ∧
    (∀ o, o_get w' o = v_minus (atts C o) <$> o_get w o) ∧
    (∀ x, statuslisteners w' !! x = if decide (own C x) then None else statuslisteners w !! x) ∧
    conds (mem w') = <[c := detached C]> (conds (mem w)) ∧ same_rest w w'.
Proof.
  intros Ht Hg Hc HC Hr. pose proof (sides_differ w c C Ht Hg) as Hd. unfold n_listeners in Hr.
  unfold _syscallcondition_cleanupListeners. rewrite HC. cbn [mbind option_bind].
  destruct (half_ok depth w c C (t_of (timeout_obj C)) (timeoutListener C) _ _ _
    (λ C, C <| timeoutListener := 0 |>) Ht Hc HC) as (w1 & w2 & E1 & E2 & O2 & L2 & C2 & S2).
  { destruct (negb (triggerListener C =? 0)); cbn [Z.b2z] in Hr; lia. }
  cbn [trigger_removeListener t_of t_type t_object timeout_obj fst snd] in E1. rewrite E1. cbn [mbind option_bind].
  rewrite E2. cbn [mbind option_bind].
  set (C' := if decide (timeoutListener C = 0) then C
             else (cond_refs C (c_referenceCount C - 1)) <| timeoutListener := 0 |>).
  assert (HC' : get_cond w2 c = Some C').
  { unfold get_cond. rewrite C2. unfold C'. case_decide; [exact HC|apply lookup_insert_eq]. }
  assert (Eg : trigger C' = trigger C ∧ triggerListener C' = triggerListener C ∧ timeoutListener C' = 0 ∧
    c_referenceCount C' = c_referenceCount C - Z.b2z (negb (timeoutListener C =? 0))).
  { unfold C'. case_decide as E; [rewrite E; cbn; repeat split; lia|].
    rewrite (proj2 (Z.eqb_neq _ 0)) by done. by repeat split. }
  destruct Eg as (G1 & G2 & G3 & G4). rewrite HC'. cbn [mbind option_bind]. rewrite G1, G2.
  destruct (half_ok depth w2 c C' (trigger C) (triggerListener C) (t_status (trigger C))
    (if decide (t_type (trigger C) = TRIGGER_FUTEX) then SLF_ALWAYS else SLF_OFF_TO_ON) NOTIFY_STATUS
    (λ C, C <| triggerListener := 0 |>)) as (w3 & w4 & E3 & E4 & O4 & L4 & C4 & S4); [|done|done|lia|].
  { apply (side_after w w2 c (trigger_obj C) _ _ _ _ {[timeoutListener C]}); [exact Hg|..].
    - intros o. eexists. split; [apply att_sub|apply O2].
    - intros x Hx. rewrite L2, decide_False; [done|]. intros [-> _]. by apply Hx, elem_of_singleton.
    - destruct Hd as [Hd|Hd]; [by left|right]. by intros ?%elem_of_singleton. }
  rewrite E3. cbn [mbind option_bind]. rewrite E4. exists w4. split_and!; [done|..].
  - intros o. rewrite O4, O2. destruct (o_get w o); cbn; [by rewrite v_minus_union|done].
  - intros x. rewrite L4, L2. clear. unfold own. decide_goal; try done; intuition congruence.
  - rewrite C4, C2. clear -HC. unfold C', detached, n_listeners, cond_refs. destruct C; cbn in *.
    decide_goal; subst; cbn; rewrite ?insert_insert_eq;
      repeat match goal with |- context [?x =? 0] => rewrite (proj2 (Z.eqb_neq x 0)) by done end; cbn.
    + rewrite Z.sub_0_r. symmetry. apply insert_id. exact HC.
    + done.
    + done.
    + f_equal. cbv -[Z.sub Z.add Z.opp]. f_equal. lia.
  - unfold same_rest in *. destruct S2 as (?&?&?&?), S4 as (?&?&?&?). split_and!; congruence.
Qed.
(** *** Cancelling a waiting condition *)

Definition idle (C : SysCallCondition) : SysCallCondition := (detached C) <| c_proc := 0 |> <| c_thread := 0 |>.

Definition proc_less (P : Process) : Process := P <| p_referenceCount := p_referenceCount P - 1 |>.
Definition thread_less (T : Thread) : Thread := T <| th_referenceCount := th_referenceCount T - 1 |>.

Record canceled w w' (c : Z) (C : SysCallCondition) (P : Process) (T : Thread) : Prop := {
  cn_obj : ∀ o, o_get w' o = v_minus (atts C o) <$> o_get w o;
  cn_lis : ∀ x, statuslisteners w' !! x = if decide (own C x) then None else statuslisteners w !! x;
  cn_conds : conds (mem w') = <[c := idle C]> (conds (mem w));
  cn_procs : procs (mem w') = <[c_proc C := proc_less P]> (procs (mem w));
  cn_threads : threads (mem w') = <[c_thread C := thread_less T]> (threads (mem w));
  cn_tasks : tasks (mem w') = tasks (mem w);
  cn_continued : continued (mem w') = continued (mem w);
}.

Lemma unref_test n : 1 < n → negb (0 <=? n - 1) = false ∧ (n - 1 =? 0) = false.
Proof. intros. split; [apply negb_false_iff, Z.leb_le|apply Z.eqb_neq]; lia. Qed.

Lemma get_set_cond w c C : get_cond (set_cond w c C) c = Some C.
Proof. apply lookup_insert_eq. Qed.

Lemma update_cond_some w c C f : get_cond w c = Some C → update_cond w c f = Some (set_cond w c (f C)).
Proof. intros HC. unfold update_cond. by rewrite HC. Qed.

Lemma cleanupProc_ok w c C P T :
  get_cond w c = Some C → c_proc C ≠ 0 → c_thread C ≠ 0 →
  procs (mem w) !! c_proc C = Some P → 1 < p_referenceCount P →
  threads (mem w) !! c_thread C = Some T → 1 < th_referenceCount T →
  _syscallcondition_cleanupProc w c =
    Some (on_mem w (λ m, m <| conds := <[c := C <| c_proc := 0 |> <| c_thread := 0 |>]> (conds m) |>
                           <| procs := <[c_proc C := proc_less P]> (procs m) |>
                           <| threads := <[c_thread C := thread_less T]> (threads m) |>)).
Proof.
  intros HC Hp Ht HP HPr HT HTr. unfold _syscallcondition_cleanupProc. rewrite HC. cbn [mbind option_bind].
  rewrite (proj2 (Z.eqb_neq _ _) Hp). cbn [negb]. unfold process_unref. rewrite HP. cbn [mbind option_bind].
  change (p_referenceCount (P <| p_referenceCount := p_referenceCount P - 1 |>)) with (p_referenceCount P - 1).
  destruct (unref_test _ HPr) as [-> ->]. cbn [mbind option_bind].
  rewrite (update_cond_some _ c C) by done. cbn [mbind option_bind]. rewrite get_set_cond. cbn [mbind option_bind].
  change (c_thread (C <| c_proc := 0 |>)) with (c_thread C).
  rewrite (proj2 (Z.eqb_neq _ _) Ht). cbn [negb]. unfold thread_unref.
  match goal with |- context [threads (mem ?w0) !! c_thread C] => change (threads (mem w0)) with (threads (mem w)) end.
  rewrite HT. cbn [mbind option_bind].
  change (th_referenceCount (T <| th_referenceCount := th_referenceCount T - 1 |>)) with (th_referenceCount T - 1).
  destruct (unref_test _ HTr) as [-> ->]. cbn [mbind option_bind].
  rewrite (update_cond_some _ c (C <| c_proc := 0 |>)) by apply get_set_cond.
  f_equal. unfold set_cond, set_thread, set_proc, on_mem. cbn. by rewrite insert_insert_eq.
Qed.

Lemma cancel_ok w c C P T :
  timeout_side w c C → trigger_side w c C → c ≠ 0 → get_cond w c = Some C → n_listeners C < c_referenceCount C →
  c_proc C ≠ 0 → c_thread C ≠ 0 →
  procs (mem w) !! c_proc C = Some P → 1 < p_referenceCount P →
  threads (mem w) !! c_thread C = Some T → 1 < th_referenceCount T →
  ∃ w', syscallcondition_cancel w c = Some w' ∧ canceled w w' c C P T.
Proof.
  intros H1 H2 H3 H4 H5 Hp Ht HP HPr HT HTr. unfold syscallcondition_cancel, _syscallcondition_unrefcb, syscallcondition_unref.
  destruct (cleanupListeners_ok 2 w c C H1 H2 H3 H4 H5) as (w1 & -> & O1 & L1 & C1 & S1 & S2 & S3 & S4).
  cbn [mbind option_bind]. rewrite (cleanupProc_ok w1 c (detached C) P T); try done.
  - eexists. split; [done|]. split; cbn; rewrite ?C1, ?S1, ?S2, ?S3, ?S4, ?insert_insert_eq; try done.
  - unfold get_cond. rewrite C1. apply lookup_insert_eq.
  - cbn. by rewrite S3.
  - cbn. by rewrite S2.
Qed.

(** *** Freeing a condition *)

(** How many references [C] holds to an object. *)
Definition holds (C : SysCallCondition) (o : Obj) : nat :=
  (if decide (o = timeout_obj C ∧ timeout C ≠ 0) then 1 else 0) +
  (if decide (o = trigger_obj C ∧ t_object (trigger C) ≠ 0) then 1 else 0).

Lemma cleanupListeners_none f w c C :
  get_cond w c = Some C → timeoutListener C = 0 → triggerListener C = 0 →
  _syscallcondition_cleanupListeners f w c = Some w.
Proof.
  intros HC H1 H2. unfold _syscallcondition_cleanupListeners. rewrite HC. cbn [mbind option_bind].
  rewrite H1, andb_false_r. cbn [negb Z.eqb mbind option_bind]. rewrite HC. cbn [mbind option_bind].
  by rewrite H2, andb_false_r.
Qed.

Lemma cleanupProc_none w c C :
  get_cond w c = Some C → c_proc C = 0 → c_thread C = 0 → _syscallcondition_cleanupProc w c = Some w.
Proof.
  intros HC H1 H2. unfold _syscallcondition_cleanupProc. rewrite HC. cbn [mbind option_bind].
  rewrite H1. cbn [negb Z.eqb mbind option_bind]. rewrite HC. cbn [mbind option_bind]. by rewrite H2.
Qed.

Lemma unref_free_ok depth w c C :
  get_cond w c = Some C → c_referenceCount C = 1 →
  timeoutListener C = 0 → triggerListener C = 0 → c_proc C = 0 → c_thread C = 0 →
  (∀ o, (0 < holds C o)%nat → ∃ v, o_get w o = Some v ∧ Z.of_nat (holds C o) ≤ v_refs v) →
  ∃ w', syscallcondition_unref_at (S depth) w c = Some w' ∧
    (∀ o, o_get w' o = Nat.iter (holds C o) o_drop (o_get w o)) ∧
    statuslisteners w' = statuslisteners w ∧ conds (mem w') = delete c (conds (mem w)) ∧ same_rest w w'.
Proof.
  intros HC Hr H1 H2 H3 H4 Ho. cbn [syscallcondition_unref_at]. rewrite HC. cbn [mbind option_bind].
  set (C0 := C <| c_referenceCount := _ |>). change (c_referenceCount C0) with (c_referenceCount C - 1). rewrite Hr.
  cbn [Z.leb Z.eqb Z.compare negb Z.sub Z.opp Z.pos_sub Z.add].
  set (w0 := set_cond w c C0). assert (HC0 : get_cond w0 c = Some C0) by apply lookup_insert_eq.
  unfold _syscallcondition_free. rewrite (cleanupListeners_none _ w0 c C0) by done. cbn [mbind option_bind].
  rewrite (cleanupProc_none w0 c C0) by done. cbn [mbind option_bind]. rewrite HC0. cbn [mbind option_bind].
  change (timeout C0) with (timeout C). change (trigger C0) with (trigger C).
  set (hold1 o := if decide (o = timeout_obj C ∧ timeout C ≠ 0) then 1%nat else 0%nat).
  assert (∃ w1, (if negb (timeout C =? 0) then world_descriptor_unref w0 (timeout C) else Some w0) = Some w1 ∧
    (∀ o, o_get w1 o = Nat.iter (hold1 o) o_drop (o_get w o)) ∧ statuslisteners w1 = statuslisteners w ∧ same_mem w0 w1)
    as (w1 & -> & O1 & L1 & M1).
  { destruct (Z.eqb_spec (timeout C) 0) as [E|E]; cbn [negb].
    - exists w0. split_and!; try done. intros o. unfold hold1. rewrite decide_False by tauto. done.
    - destruct (Ho (timeout_obj C)) as (v & Hv & Hvr); [unfold holds; rewrite decide_True by done; lia|].
      destruct (trigger_unref_ok w0 (t_of (timeout_obj C)) v) as (w1 & E1 & [T1 T2 T3]);
        [exact Hv|exact E|unfold holds in Hvr; rewrite decide_True in Hvr by done; lia|].
      unfold trigger_unref in E1. cbn in E1. rewrite (proj2 (Z.eqb_neq _ _) E) in E1.
      exists w1. split_and!; [exact E1| |done|exact T3]. intros o. rewrite T1. unfold hold1.
      change (o_of (t_of (timeout_obj C))) with (timeout_obj C). case_decide as Eo.
      + subst o. rewrite decide_True by done. by rewrite <-Hv.
      + rewrite decide_False by tauto. done. }
  cbn [mbind option_bind].
  assert (∃ w2, trigger_unref w1 (trigger C) = Some w2 ∧
    (∀ o, o_get w2 o = Nat.iter (holds C o) o_drop (o_get w o)) ∧ statuslisteners w2 = statuslisteners w1 ∧ same_mem w1 w2)
    as (w2 & -> & O2 & L2 & M2).
  { destruct (decide (t_object (trigger C) = 0)) as [E|E].
    - exists w1. unfold trigger_unref. rewrite E. split_and!; try done. intros o. rewrite O1. unfold holds.
      fold (hold1 o). rewrite (decide_False (P := _ ∧ t_object _ ≠ 0)) by tauto. by rewrite Nat.add_0_r.
    - destruct (Ho (trigger_obj C)) as (v & Hv & Hvr); [unfold holds; rewrite (decide_True (P := _ ∧ t_object _ ≠ 0)) by done; lia|].
      assert (∃ v1, o_get w1 (trigger_obj C) = Some v1 ∧ 0 < v_refs v1) as (v1 & Hv1 & Hr1).
      { unfold holds in Hvr. fold (hold1 (trigger_obj C)) in Hvr. rewrite decide_True in Hvr by done.
        rewrite O1, Hv. unfold hold1 in *. destruct (decide _); cbn; [|eexists; split; [done|lia]].
        destruct (Z.eqb_spec (v_refs v) 1); [lia|]. eexists. split; [done|]. cbn. lia. }
      destruct (trigger_unref_ok w1 (trigger C) v1) as (w2 & E2 & [T1 T2 T3]); [exact Hv1|done|done|].
      exists w2. split_and!; [exact E2| |done|exact T3]. intros o. rewrite T1. unfold holds. fold (hold1 o).
      fold (trigger_obj C). case_decide as Eo.
      + subst o. rewrite decide_True by done. rewrite Nat.add_comm. cbn [Nat.add Nat.iter nat_rect].
        rewrite <-Hv1, O1. done.
      + rewrite (decide_False (P := _ ∧ t_object _ ≠ 0)) by tauto. by rewrite Nat.add_0_r. }
  cbn [mbind option_bind]. eexists. split; [done|].
  destruct M1 as (A1 & A2 & A3 & A4 & A5), M2 as (B1 & B2 & B3 & B4 & B5). split_and!.
  - intros o. transitivity (o_get w2 o); [done|]. by rewrite O2.
  - cbn. by rewrite L2.
  - cbn. rewrite B1, A1. unfold w0. cbn. by rewrite delete_insert_eq.
  - unfold same_rest. cbn. rewrite B2, A2, B3, A3, B4, A4, B5, A5. done.
Qed.
(** ** The invariant *)

Definition total (f : SysCallCondition → nat) (m : gmap Z SysCallCondition) : nat :=
  sum_list_with (λ p, f p.2) (map_to_list m).

Lemma total_insert f m c C : m !! c = None → total f (<[c := C]> m) = (f C + total f m)%nat.
Proof. intros Hc. unfold total. by rewrite map_to_list_insert. Qed.

Lemma total_delete f m c C : m !! c = Some C → total f m = (f C + total f (delete c m))%nat.
Proof. intros Hc. rewrite <-(total_insert f _ c) by apply lookup_delete_eq. by rewrite insert_delete_id. Qed.

Lemma total_update f m c C C' : m !! c = Some C → f C' = f C → total f (<[c := C']> m) = total f m.
Proof.
  intros Hc Hf. rewrite (total_delete f m c C Hc), (total_delete f (<[c := C']> m) c C') by apply lookup_insert_eq.
  by rewrite delete_insert_eq, Hf.
Qed.

Lemma total_ge f m c C : m !! c = Some C → (f C ≤ total f m)%nat.
Proof. intros Hc. rewrite (total_delete f m c C Hc). lia. Qed.

Definition uses w (o : Obj) : nat := total (λ C, holds C o) (conds (mem w)).
Definition members w (p : Z) : nat := total (λ C, if decide (c_proc C = p) then 1 else 0)%nat (conds (mem w)).

(** A condition is waiting: its thread is blocked on it, its listeners are
    attached, and its references are the thread's, the listeners' and the
    task's. *)
Record cond_ok (ts : list Z) w (c : Z) (C : SysCallCondition) : Prop := {
  co_nonzero : c ≠ 0;
  co_thread : ∃ T P, threads (mem w) !! c_thread C = Some T ∧ th_cond T = c ∧ th_process T = c_proc C ∧
                     procs (mem w) !! c_proc C = Some P;
  co_refs : c_referenceCount C = 1 + n_listeners C + Z.b2z (bool_decide (c ∈ ts));
  co_timeout : timeout_side w c C;
  co_trigger : trigger_side w c C;
}.

(** [ts]: the conditions that a task refers to. *)
Record sound (ts : list Z) w : Prop := {
  s_nodup : NoDup ts;
  s_task : ∀ c, c ∈ ts → is_Some (conds (mem w) !! c);
  s_cond : ∀ c C, conds (mem w) !! c = Some C → cond_ok ts w c C;
  s_att : ∀ o v l, o_get w o = Some v → l ∈ v_listeners v → ∃ c C, conds (mem w) !! c = Some C ∧ l ∈ atts C o;
  s_lis : ∀ l s, statuslisteners w !! l = Some s → ∃ c C, conds (mem w) !! c = Some C ∧ own C l;
  s_thr : ∀ t T, threads (mem w) !! t = Some T →
            t ≠ 0 ∧ th_process T ≠ 0 ∧ is_Some (procs (mem w) !! th_process T) ∧
            1 + Z.b2z (negb (th_cond T =? 0)) ≤ th_referenceCount T ∧
            (th_cond T ≠ 0 → ∃ C, conds (mem w) !! th_cond T = Some C ∧ c_thread C = t);
  s_proc : ∀ p P, procs (mem w) !! p = Some P → Z.of_nat (members w p) < p_referenceCount P;
  s_obj : ∀ o v, o_get w o = Some v → 0 < v_refs v ∧ Z.of_nat (uses w o) ≤ v_refs v;
}.

Lemma side_own w c o l mon filt func x :
  side w c o l mon filt func → l ≠ 0 → x = l → statuslisteners w !! x = Some (own_listener mon filt func c 2).
Proof. unfold side. intros H Hl ->. case_decide; [done|]. destruct H as (_ & v & _ & _ & ?). done. Qed.

Lemma own_listener_of ts w c C l : cond_ok ts w c C → own C l →
  ∃ mon filt func, statuslisteners w !! l = Some (own_listener mon filt func c 2).
Proof.
  intros H [Hl [E|E]]; do 3 eexists.
  - eapply side_own; [exact (co_timeout _ _ _ _ H)|by rewrite <-E|done].
  - eapply side_own; [exact (co_trigger _ _ _ _ H)|by rewrite <-E|done].
Qed.

Lemma atts_own C o l : l ∈ atts C o → own C l.
Proof.
  unfold atts, att, own. rewrite elem_of_union.
  intros [H|H]; case_decide; first [by apply elem_of_empty in H|apply elem_of_singleton in H]; subst l; tauto.
Qed.

Lemma own_unique ts w c1 C1 c2 C2 l :
  cond_ok ts w c1 C1 → cond_ok ts w c2 C2 → own C1 l → own C2 l → c1 = c2.
Proof.
  intros H1 H2 O1 O2. destruct (own_listener_of _ _ _ _ _ H1 O1) as (?&?&?&E1).
  destruct (own_listener_of _ _ _ _ _ H2 O2) as (?&?&?&E2). rewrite E1 in E2. by injection E2.
Qed.

Lemma iter_drop n v : 0 < v_refs v → Z.of_nat n ≤ v_refs v →
  Nat.iter n o_drop (Some v) = if decide (Z.of_nat n = v_refs v) then None else Some (v_at v (v_refs v - Z.of_nat n)).
Proof.
  intros H0. induction n as [|n IH]; intros Hn.
  - rewrite decide_False by lia. cbn. rewrite Z.sub_0_r. by destruct v.
  - cbn [Nat.iter nat_rect]. change (nat_rect _ _ _ n) with (Nat.iter n o_drop (Some v)). rewrite IH by lia.
    rewrite decide_False by lia. cbn -[Z.of_nat]. destruct (decide (Z.of_nat (S n) = v_refs v)).
    + rewrite (proj2 (Z.eqb_eq _ 1)) by lia. done.
    + rewrite (proj2 (Z.eqb_neq _ 1)) by lia. unfold v_at. cbn. do 2 f_equal. lia.
Qed.

Lemma iter_drop_none n : Nat.iter n o_drop None = None.
Proof. induction n as [|n IH]; [done|]. cbn. change (nat_rect _ _ _ n) with (Nat.iter n o_drop None). by rewrite IH. Qed.

(** *** A condition is released *)

Record released w w' (c : Z) (C : SysCallCondition) (P : Process) (T : Thread) : Prop := {
  rl_obj : ∀ o, o_get w' o = Nat.iter (holds C o) o_drop (v_minus (atts C o) <$> o_get w o);
  rl_lis : ∀ x, statuslisteners w' !! x = if decide (own C x) then None else statuslisteners w !! x;
  rl_conds : conds (mem w') = delete c (conds (mem w));
  rl_procs : procs (mem w') = <[c_proc C := proc_less P]> (procs (mem w));
  rl_threads : threads (mem w') = <[c_thread C := (thread_less T) <| th_cond := 0 |>]> (threads (mem w));
}.

(** What is left of an object. *)
Definition v_after (C : SysCallCondition) (o : Obj) (v : View) : View :=
  mkView (v_status v) (v_refs v - Z.of_nat (holds C o)) (v_listeners v ∖ atts C o).

Section Released.
Context (ts : list Z) (w w' : W) (c : Z) (C : SysCallCondition) (P : Process) (T : Thread).
Hypotheses (Hs : sound ts w) (HC : conds (mem w) !! c = Some C) (HP : procs (mem w) !! c_proc C = Some P)
  (HT : threads (mem w) !! c_thread C = Some T) (Hr : released w w' c C P T).

Lemma uses_split o : uses w o = (holds C o + uses w' o)%nat.
Proof. unfold uses. rewrite (rl_conds _ _ _ _ _ _ Hr). by apply (total_delete (λ C, holds C o)). Qed.

Lemma released_view o v : o_get w o = Some v →
  o_get w' o = if decide (Z.of_nat (holds C o) = v_refs v) then None else Some (v_after C o v).
Proof.
  intros Hv. rewrite (rl_obj _ _ _ _ _ _ Hr), Hv. destruct (s_obj _ _ Hs o v Hv) as [H1 H2].
  rewrite uses_split in H2. cbn [fmap option_fmap option_map]. rewrite iter_drop by (cbn; lia). done.
Qed.

Lemma released_view_inv o v' : o_get w' o = Some v' → ∃ v, o_get w o = Some v ∧ v' = v_after C o v ∧ 0 < v_refs v'.
Proof.
  intros Hv'. destruct (o_get w o) as [v|] eqn:Hv.
  - destruct (s_obj _ _ Hs o v Hv) as [H1 H2]. rewrite uses_split in H2.
    rewrite (released_view o v Hv) in Hv'. case_decide; [done|]. injection Hv' as <-. exists v. split_and!; [done..|cbn; lia].
  - rewrite (rl_obj _ _ _ _ _ _ Hr), Hv in Hv'. cbn in Hv'. by rewrite iter_drop_none in Hv'.
Qed.

Lemma released_side c' C' o l mon filt func :
  conds (mem w) !! c' = Some C' → c' ≠ c → side w c' o l mon filt func → (o.2 ≠ 0 → (0 < holds C' o)%nat) →
  side w' c' o l mon filt func.
Proof.
  unfold side. intros HC' Hne H Hh. case_decide as E0; [done|]. destruct H as (Hl & v & Hv & Hin & Hls).
  assert (Hno : ¬ own C l).
  { intros Ho. destruct (own_listener_of _ _ _ _ _ (s_cond _ _ Hs c C HC) Ho) as (?&?&?&E). rewrite Hls in E. by injection E. }
  split; [done|]. exists (v_after C o v). split_and!.
  - rewrite (released_view o v Hv), decide_False; [done|].
    destruct (s_obj _ _ Hs o v Hv) as [_ H2]. rewrite uses_split in H2.
    assert (holds C' o ≤ uses w' o)%nat.
    { apply (total_ge (λ C, holds C o) _ c'). rewrite (rl_conds _ _ _ _ _ _ Hr). by rewrite lookup_delete_ne. }
    specialize (Hh E0). lia.
  - cbn. apply elem_of_difference. split; [done|]. by intros ?%atts_own.
  - rewrite (rl_lis _ _ _ _ _ _ Hr). by rewrite decide_False.
Qed.

Lemma holds_timeout C0 : (timeout_obj C0).2 ≠ 0 → (0 < holds C0 (timeout_obj C0))%nat.
Proof. intros H. unfold holds. rewrite decide_True by done. lia. Qed.

Lemma holds_trigger C0 : (trigger_obj C0).2 ≠ 0 → (0 < holds C0 (trigger_obj C0))%nat.
Proof. intros H. unfold holds. rewrite (decide_True (P := _ ∧ t_object _ ≠ 0)) by done. lia. Qed.

Lemma released_sound ts' : NoDup ts' → (∀ x, x ∈ ts' ↔ x ∈ ts ∧ x ≠ c) → sound ts' w'.
Proof.
  intros Hnd Hts. pose proof (s_cond _ _ Hs c C HC) as Hok. destruct (co_thread _ _ _ _ Hok) as (T0 & P0 & HT0 & HTc & HTp & HP0).
  rewrite HT in HT0. injection HT0 as <-. rewrite HP in HP0. injection HP0 as <-.
  assert (Hcs : ∀ c' C', conds (mem w') !! c' = Some C' ↔ c' ≠ c ∧ conds (mem w) !! c' = Some C').
  { intros c' C'. rewrite (rl_conds _ _ _ _ _ _ Hr), lookup_delete_Some. split; intros [? ?]; split; congruence. }
  split.
  - done.
  - intros c' [H1 H2]%Hts. destruct (s_task _ _ Hs c' H1) as [C' HC']. exists C'. by apply Hcs.
  - intros c' C' [Hne HC']%Hcs. pose proof (s_cond _ _ Hs c' C' HC') as H. split.
    + exact (co_nonzero _ _ _ _ H).
    + destruct (co_thread _ _ _ _ H) as (T' & P' & HT' & HTc' & HTp' & HP').
      rewrite (rl_threads _ _ _ _ _ _ Hr), (rl_procs _ _ _ _ _ _ Hr). exists T'.
      rewrite lookup_insert_ne by congruence.
      destruct (decide (c_proc C = c_proc C')) as [E|E].
      * rewrite <-E, lookup_insert_eq. rewrite <-E, HP in HP'. injection HP' as <-. exists (proc_less P).
        split_and!; try done. congruence.
      * rewrite lookup_insert_ne by done. by exists P'.
    + rewrite (co_refs _ _ _ _ H). do 2 f_equal. apply bool_decide_ext. rewrite Hts. tauto.
    + apply (released_side c' C'); [done..|exact (co_timeout _ _ _ _ H)|apply holds_timeout].
    + apply (released_side c' C'); [done..|exact (co_trigger _ _ _ _ H)|apply holds_trigger].
  - intros o v' l Hv' Hl. destruct (released_view_inv o v' Hv') as (v & Hv & -> & _). cbn in Hl.
    apply elem_of_difference in Hl as [Hl Hn]. destruct (s_att _ _ Hs o v l Hv Hl) as (c' & C' & HC' & Ha).
    exists c', C'. split; [|done]. apply Hcs. split; [|done]. intros ->. rewrite HC in HC'. by injection HC' as <-.
  - intros l s Hl. rewrite (rl_lis _ _ _ _ _ _ Hr) in Hl. case_decide as Eo; [done|].
    destruct (s_lis _ _ Hs l s Hl) as (c' & C' & HC' & Ho). exists c', C'. split; [|done]. apply Hcs. split; [|done].
    intros ->. rewrite HC in HC'. by injection HC' as <-.
  - intros t T'. rewrite (rl_threads _ _ _ _ _ _ Hr), lookup_insert_Some.
    assert (Hps : ∀ p, is_Some (procs (mem w) !! p) → is_Some (procs (mem w') !! p)).
    { intros p Hp. rewrite (rl_procs _ _ _ _ _ _ Hr). apply lookup_insert_is_Some. destruct (decide (c_proc C = p)); auto. }
    intros [[<- <-]|[Hne HT']].
    + destruct (s_thr _ _ Hs _ _ HT) as (S1 & S2 & S3 & S4 & S5). split_and!; [done|done|by apply Hps| |done].
      rewrite HTc, (proj2 (Z.eqb_neq c 0)) in S4 by exact (co_nonzero _ _ _ _ Hok). cbn in *. lia.
    + destruct (s_thr _ _ Hs _ _ HT') as (S1 & S2 & S3 & S4 & S5). split_and!; [done|done|by apply Hps|done|].
      intros Hc. destruct (S5 Hc) as (C' & HC' & E). exists C'. split; [|done]. apply Hcs. split; [|done].
      intros E'. rewrite E', HC in HC'. injection HC' as <-. congruence.
  - intros p P'. rewrite (rl_procs _ _ _ _ _ _ Hr), lookup_insert_Some.
    assert (E : ∀ p, members w p = ((if decide (c_proc C = p) then 1 else 0) + members w' p)%nat).
    { intros q. unfold members. rewrite (rl_conds _ _ _ _ _ _ Hr).
      by apply (total_delete (λ C, if decide (c_proc C = q) then 1 else 0)%nat). }
    intros [[<- <-]|[Hne HP']].
    + pose proof (s_proc _ _ Hs _ _ HP) as H. rewrite E, decide_True in H by done. cbn in *. lia.
    + pose proof (s_proc _ _ Hs _ _ HP') as H. rewrite E, decide_False in H by done. cbn in *. lia.
  - intros o v' Hv'. destruct (released_view_inv o v' Hv') as (v & Hv & -> & Hpos). split; [done|].
    destruct (s_obj _ _ Hs o v Hv) as [_ H]. rewrite uses_split in H. cbn. lia.
Qed.
End Released.
(** *** A thread lets go of its condition *)

Lemma holds_side w c C o : timeout_side w c C → trigger_side w c C → (0 < holds C o)%nat → is_Some (o_get w o).
Proof.
  intros H1 H2 Hh. unfold holds in Hh.
  destruct (decide (o = timeout_obj C ∧ timeout C ≠ 0)) as [[-> Ht]|].
  - unfold timeout_side, side in H1. rewrite decide_False in H1 by done. destruct H1 as (_ & v & Hv & _). by exists v.
  - destruct (decide (o = trigger_obj C ∧ t_object (trigger C) ≠ 0)) as [[-> Ht]|]; [|cbn in Hh; lia].
    unfold trigger_side, side in H2. rewrite decide_False in H2 by done. destruct H2 as (_ & v & Hv & _). by exists v.
Qed.

Lemma canceled_free ts w w1 w2 c C P T C2 :
  sound ts w → conds (mem w) !! c = Some C → canceled w w1 c C P T →
  (∀ o, o_get w2 o = o_get w1 o) → get_cond w2 c = Some C2 → C2 = cond_refs (idle C) 1 →
  ∃ w3, syscallcondition_unref w2 c = Some w3 ∧
    (∀ o, o_get w3 o = Nat.iter (holds C o) o_drop (v_minus (atts C o) <$> o_get w o)) ∧
    statuslisteners w3 = statuslisteners w2 ∧ conds (mem w3) = delete c (conds (mem w2)) ∧ same_rest w2 w3.
Proof.
  intros Hs HC Hcn Ho HC2 ->. unfold syscallcondition_unref.
  destruct (unref_free_ok 1 w2 c (cond_refs (idle C) 1)) as (w3 & E & O & L & D & R); try done.
  - intros o Hh. change (holds (cond_refs (idle C) 1) o) with (holds C o) in *. rewrite Ho, (cn_obj _ _ _ _ _ _ Hcn).
    assert (Hu : (holds C o ≤ uses w o)%nat) by (by apply (total_ge (λ C, holds C o) _ c)).
    pose proof (s_cond _ _ Hs c C HC) as Hok.
    destruct (holds_side w c C o (co_timeout _ _ _ _ Hok) (co_trigger _ _ _ _ Hok) Hh) as [v Hv].
    exists (v_minus (atts C o) v). rewrite Hv. split; [done|]. destruct (s_obj _ _ Hs o v Hv) as [_ H]. cbn. lia.
  - exists w3. split_and!; try done. intros o. rewrite O, Ho, (cn_obj _ _ _ _ _ _ Hcn). done.
Qed.

Section Cleanup.
Context (ts : list Z) (w : W) (t c : Z) (C : SysCallCondition) (P : Process) (T : Thread).
Hypotheses (Hs : sound ts w) (HC : conds (mem w) !! c = Some C) (HP : procs (mem w) !! c_proc C = Some P)
  (Ht : c_thread C = t) (HT : threads (mem w) !! t = Some T).

Lemma cond_thread : th_cond T = c ∧ th_process T = c_proc C ∧ c ≠ 0 ∧ t ≠ 0 ∧ c_proc C ≠ 0.
Proof.
  pose proof (s_cond _ _ Hs c C HC) as Hok. destruct (co_thread _ _ _ _ Hok) as (T0 & P0 & HT0 & HTc & HTp & HP0).
  rewrite Ht, HT in HT0. injection HT0 as <-. destruct (s_thr _ _ Hs t T HT) as (S1 & S2 & _). split_and!; try done.
  - exact (co_nonzero _ _ _ _ Hok).
  - by rewrite <-HTp.
Qed.

Lemma cancel_sound : ∃ w1, syscallcondition_cancel w c = Some w1 ∧ canceled w w1 c C P T.
Proof.
  destruct cond_thread as (E1 & E2 & E3 & E4 & E5). pose proof (s_cond _ _ Hs c C HC) as Hok.
  apply cancel_ok; try done.
  - exact (co_timeout _ _ _ _ Hok).
  - exact (co_trigger _ _ _ _ Hok).
  - rewrite (co_refs _ _ _ _ Hok). destruct (bool_decide _); cbn; lia.
  - by rewrite Ht.
  - pose proof (s_proc _ _ Hs _ _ HP) as H.
    assert (1 ≤ members w (c_proc C))%nat; [|lia].
    etransitivity; [|by apply (total_ge (λ C', if decide (c_proc C' = c_proc C) then 1 else 0)%nat _ c C)].
    cbn. by rewrite decide_True.
  - by rewrite Ht.
  - destruct (s_thr _ _ Hs t T HT) as (_ & _ & _ & S4 & _). rewrite E1, (proj2 (Z.eqb_neq c 0)) in S4 by done.
    cbn in S4. lia.
Qed.

Lemma idle_refs : c_referenceCount (idle C) = 1 + Z.b2z (bool_decide (c ∈ ts)).
Proof. unfold idle, detached. cbn. rewrite (co_refs _ _ _ _ (s_cond _ _ Hs c C HC)). lia. Qed.

Lemma released_intro w1 w3 :
  canceled w w1 c C P T →
  (∀ o, o_get w3 o = Nat.iter (holds C o) o_drop (v_minus (atts C o) <$> o_get w o)) →
  statuslisteners w3 = statuslisteners w1 → conds (mem w3) = delete c (conds (mem w1)) →
  procs (mem w3) = procs (mem w1) → threads (mem w3) = <[t := (thread_less T) <| th_cond := 0 |>]> (threads (mem w1)) →
  released w w3 c C P T.
Proof.
  intros Hcn O L D R1 R2. split; [done|..].
  - intros x. rewrite L. apply (cn_lis _ _ _ _ _ _ Hcn).
  - by rewrite D, (cn_conds _ _ _ _ _ _ Hcn), delete_insert_eq.
  - by rewrite R1, (cn_procs _ _ _ _ _ _ Hcn).
  - by rewrite R2, (cn_threads _ _ _ _ _ _ Hcn), Ht, insert_insert_eq.
Qed.

(** No task refers to the condition: it is freed. *)
Lemma thread_cleanup_ok : (c ∉ ts) →
  ∃ w', _thread_cleanupSysCallCondition w t = Some w' ∧ released w w' c C P T ∧
    tasks (mem w') = tasks (mem w) ∧ continued (mem w') = continued (mem w).
Proof.
  intros Hnt. destruct cond_thread as (E1 & E2 & E3 & E4 & E5). destruct cancel_sound as (w1 & Ec & Hcn).
  unfold _thread_cleanupSysCallCondition. rewrite HT. cbn [mbind option_bind]. rewrite E1, (proj2 (Z.eqb_neq c 0)), Ec by done.
  cbn [negb mbind option_bind].
  destruct (canceled_free ts w w1 w1 c C P T (idle C)) as (w3 & -> & O & L & D & R); try done.
  - unfold get_cond. rewrite (cn_conds _ _ _ _ _ _ Hcn). apply lookup_insert_eq.
  - pose proof idle_refs as Hi. rewrite bool_decide_false in Hi by done. unfold cond_refs. destruct (idle C). cbn in Hi.
    rewrite Hi. done.
  - cbn [mbind option_bind]. destruct R as (R1 & R2 & R3 & R4).
    rewrite R2, (cn_threads _ _ _ _ _ _ Hcn), Ht, lookup_insert_eq. cbn [mbind option_bind].
    eexists. split; [done|]. split_and!.
    + apply (released_intro w1); try done. cbn. by rewrite R2.
    + cbn. by rewrite R1, (cn_tasks _ _ _ _ _ _ Hcn).
    + cbn. by rewrite R4, (cn_continued _ _ _ _ _ _ Hcn).
Qed.

(** The task that continues the thread refers to it: it is freed when the
    task is done. *)
Lemma resume_in_task : (c ∈ ts) →
  ∃ w2 w', thread_resume_begin w t = Some w2 ∧ syscallcondition_unref w2 c = Some w' ∧ released w w' c C P T ∧
    tasks (mem w') = tasks (mem w) ∧ continued (mem w') = continued (mem w) ++ [(c_proc C, t)].
Proof.
  intros Hnt. destruct cond_thread as (E1 & E2 & E3 & E4 & E5). destruct cancel_sound as (w1 & Ec & Hcn).
  unfold thread_resume_begin, _thread_cleanupSysCallCondition. rewrite HT. cbn [mbind option_bind].
  rewrite E1, (proj2 (Z.eqb_neq c 0)), Ec by done. cbn [negb mbind option_bind].
  pose proof idle_refs as Hi. rewrite bool_decide_true in Hi by done. change (1 + Z.b2z true) with 2 in Hi.
  assert (HC1 : get_cond w1 c = Some (idle C)) by (unfold get_cond; rewrite (cn_conds _ _ _ _ _ _ Hcn); apply lookup_insert_eq).
  unfold syscallcondition_unref at 1. rewrite (unref_at_alive 2 w1 c (idle C)) by (done || lia). cbn [mbind option_bind].
  rewrite Hi. change (2 - 1) with 1.
  change (threads (mem (set_cond w1 c (cond_refs (idle C) 1)))) with (threads (mem w1)).
  rewrite (cn_threads _ _ _ _ _ _ Hcn), Ht, lookup_insert_eq. cbn [mbind option_bind].
  set (w1' := set_thread _ _ _). assert (HT1 : threads (mem w1') !! t = Some ((thread_less T) <| th_cond := 0 |>))
    by apply lookup_insert_eq.
  rewrite HT1. cbn [mbind option_bind]. set (w2 := on_mem w1' _). exists w2.
  destruct (canceled_free ts w w1 w2 c C P T (cond_refs (idle C) 1)) as (w3 & -> & O & L & D & R1 & R2 & R3 & R4); try done.
  { unfold get_cond. apply lookup_insert_eq. }
  exists w3. split_and!; [done|done|..].
  - apply (released_intro w1); try done.
    rewrite D. unfold w2, w1'. cbn. by rewrite delete_insert_eq.
  - by rewrite R1, <-(cn_tasks _ _ _ _ _ _ Hcn).
  - rewrite R4. unfold w2, w1'. cbn. rewrite (cn_continued _ _ _ _ _ _ Hcn). by rewrite E2.
Qed.
End Cleanup.
(** *** Changes that leave references and listeners alone *)

Definition v_same (v v' : View) : Prop := v_refs v' = v_refs v ∧ v_listeners v' = v_listeners v.

(** Statuses change. *)
Record status_change w w' : Prop := {
  sc_obj : ∀ o, option_Forall2 v_same (o_get w o) (o_get w' o);
  sc_lis : statuslisteners w' = statuslisteners w;
  sc_mem : same_mem w w';
}.

Lemma status_change_refl w : status_change w w.
Proof. split; [|done..]. intros o. destruct (o_get w o); constructor. done. Qed.

Lemma side_change w w' c o l mon filt func :
  (∀ o, option_Forall2 v_same (o_get w o) (o_get w' o)) → statuslisteners w' = statuslisteners w →
  side w c o l mon filt func → side w' c o l mon filt func.
Proof.
  unfold side. intros Ho Hl H. case_decide; [done|]. destruct H as (Hl0 & v & Hv & Hin & Hls).
  specialize (Ho o). rewrite Hv in Ho. inversion Ho as [? v' [E1 E2] Ea Eb|]; subst. split; [done|]. exists v'.
  rewrite Hl, E2. done.
Qed.

Lemma sound_status ts w w' : sound ts w → status_change w w' → sound ts w'.
Proof.
  intros Hs [Ho Hl (M1 & M2 & M3 & M4 & M5)].
  assert (Hv : ∀ o v', o_get w' o = Some v' → ∃ v, o_get w o = Some v ∧ v_same v v').
  { intros o v' Hv'. specialize (Ho o). rewrite Hv' in Ho. inversion Ho; subst; eauto. }
  split; unfold members, uses; rewrite ?M1, ?M3, ?M4, ?Hl.
  - exact (s_nodup _ _ Hs).
  - exact (s_task _ _ Hs).
  - intros c C HC. destruct (s_cond _ _ Hs c C HC) as [H1 H2 H3 H4 H5]. split; rewrite ?M3, ?M4; try done.
    + exact (side_change w w' _ _ _ _ _ _ Ho Hl H4).
    + exact (side_change w w' _ _ _ _ _ _ Ho Hl H5).
  - intros o v' l Hv' Hin. destruct (Hv o v' Hv') as (v & E & _ & E2). apply (s_att _ _ Hs o v l E). by rewrite <-E2.
  - exact (s_lis _ _ Hs).
  - exact (s_thr _ _ Hs).
  - exact (s_proc _ _ Hs).
  - intros o v' Hv'. destruct (Hv o v' Hv') as (v & E & E1 & _). rewrite E1. exact (s_obj _ _ Hs o v E).
Qed.

(** Beside its mark and its references a condition stays as it is. *)
Definition same_cond (C C' : SysCallCondition) : Prop :=
  trigger C' = trigger C ∧ timeout C' = timeout C ∧ triggerListener C' = triggerListener C ∧
  timeoutListener C' = timeoutListener C ∧ c_proc C' = c_proc C ∧ c_thread C' = c_thread C.

(** One condition is marked, or its mark is taken. *)
Record mark_change w w' (c : Z) (C' : SysCallCondition) : Prop := {
  mc_obj : ∀ o, o_get w' o = o_get w o;
  mc_lis : statuslisteners w' = statuslisteners w;
  mc_conds : conds (mem w') = <[c := C']> (conds (mem w));
  mc_threads : threads (mem w') = threads (mem w);
  mc_procs : procs (mem w') = procs (mem w);
}.

Lemma sound_mark ts ts' w w' c C C' :
  sound ts w → conds (mem w) !! c = Some C → mark_change w w' c C' → same_cond C C' →
  NoDup ts' → (∀ x, x ≠ c → x ∈ ts' ↔ x ∈ ts) →
  c_referenceCount C' = 1 + n_listeners C + Z.b2z (bool_decide (c ∈ ts')) → sound ts' w'.
Proof.
  intros Hs HC [Ho Hl Hc M3 M4] (E1 & E2 & E3 & E4 & E5 & E6) Hnd Hts Hr.
  assert (Hx : ∀ x X, conds (mem w) !! x = Some X → ∃ X', conds (mem w') !! x = Some X' ∧ same_cond X X').
  { intros x X HX. rewrite Hc. destruct (decide (c = x)) as [<-|].
    - rewrite lookup_insert_eq. rewrite HC in HX. injection HX as <-. by exists C'.
    - rewrite lookup_insert_ne by done. by exists X. }
  assert (Ho' : ∀ o, option_Forall2 v_same (o_get w o) (o_get w' o)).
  { intros o. rewrite Ho. destruct (o_get w o); constructor. done. }
  assert (Hat : ∀ X X' o, same_cond X X' → atts X' o = atts X o ∧ ∀ l, own X' l ↔ own X l).
  { intros X X' o (F1 & F2 & F3 & F4 & _). unfold atts, own, timeout_obj, trigger_obj. by rewrite F1, F2, F3, F4. }
  split; unfold members, uses; rewrite ?M3, ?M4, ?Hl.
  - done.
  - intros x Hin. destruct (decide (x = c)) as [->|Hne]; [rewrite Hc, lookup_insert_eq; eauto|].
    apply Hts in Hin; [|done]. destruct (s_task _ _ Hs x Hin) as [X HX]. destruct (Hx x X HX) as (X' & -> & _). eauto.
  - intros x X' HX'. rewrite Hc, lookup_insert_Some in HX'.
    assert (∃ X, conds (mem w) !! x = Some X ∧ same_cond X X' ∧
      c_referenceCount X' = 1 + n_listeners X + Z.b2z (bool_decide (x ∈ ts'))) as (X & HX & Hsc & HXr).
    { destruct HX' as [[<- <-]|[Hne HX]]; [by exists C|]. exists X'. split_and!; try done.
      rewrite (co_refs _ _ _ _ (s_cond _ _ Hs x X' HX)). do 2 f_equal. apply bool_decide_ext. symmetry. by apply Hts. }
    destruct (s_cond _ _ Hs x X HX) as [H1 H2 H3 H4 H5]. destruct Hsc as (F1 & F2 & F3 & F4 & F5 & F6).
    split; rewrite ?M3, ?M4, ?F5, ?F6; try done.
    + rewrite HXr. unfold n_listeners. by rewrite F3, F4.
    + unfold timeout_side, timeout_obj in *. rewrite F2, F4. exact (side_change w w' _ _ _ _ _ _ Ho' Hl H4).
    + unfold trigger_side, trigger_obj in *. rewrite F1, F3. exact (side_change w w' _ _ _ _ _ _ Ho' Hl H5).
  - intros o v l Hv Hin. rewrite Ho in Hv. destruct (s_att _ _ Hs o v l Hv Hin) as (x & X & HX & Ha).
    destruct (Hx x X HX) as (X' & HX' & Hsc). exists x, X'. split; [done|]. by rewrite (proj1 (Hat X X' o Hsc)).
  - intros l s Hls. destruct (s_lis _ _ Hs l s Hls) as (x & X & HX & Ha).
    destruct (Hx x X HX) as (X' & HX' & Hsc). exists x, X'. split; [done|]. by apply (proj2 (Hat X X' (TRIGGER_NONE, 0) Hsc)).
  - intros t T HT. destruct (s_thr _ _ Hs t T HT) as (S1 & S2 & S3 & S4 & S5). split_and!; try done.
    intros H0. destruct (S5 H0) as (X & HX & EX). destruct (Hx _ X HX) as (X' & HX' & Hsc).
    exists X'. split; [done|]. destruct Hsc as (_ & _ & _ & _ & _ & F6). congruence.
  - intros p P HP. rewrite Hc, (total_update _ _ c C C') by (done || (cbn; by rewrite E5)). exact (s_proc _ _ Hs p P HP).
  - intros o v. rewrite Ho, Hc, (total_update _ _ c C C') by
      (done || (cbn; unfold holds, timeout_obj, trigger_obj; by rewrite E1, E2)). exact (s_obj _ _ Hs o v).
Qed.


End ConditionSafety.
