(* ===== verification/ConditionRuns.v ===== *)
(** * Runs of blocking calls, status changes and tasks
    (src/phantom/src/main/host/syscall_condition.c)

    The steps that concern conditions - a thread blocks, a status changes, a
    futex is woken, a task runs, a process exits, an object is closed - and
    the invariant that all of them keep. *)

From S2P Require Import Prelude Descriptor Timer TimerFd Futex Epoll Condition ConditionSafety.

Module ConditionRuns.
Import Desc Condition ConditionSafety.
#[local] Existing Instances Futex.futexes_eta Futex.futex_eta Epoll.file_eta.
Implicit Types w : W.

(** ** The invariant of the program *)

Definition task_ids w : list Z := (tasks (mem w)).*1.

(** The trigger has a status that its condition waits for. *)
Definition valid w (C : SysCallCondition) : bool :=
  match t_type (trigger C) with
  | TRIGGER_FUTEX => true
  | TRIGGER_NONE => false
  | _ => match o_get w (trigger_obj C) with Some v => has_flag (v_status v) (t_status (trigger C)) | None => false end
  end.

Definition has_status (C : SysCallCondition) : bool :=
  negb (t_object (trigger C) =? 0) &&
  match t_type (trigger C) with TRIGGER_DESCRIPTOR | TRIGGER_POSIX_FILE => true | _ => false end.

(** Nobody waits for a status that is already there, unless a task is
    scheduled - but for some exempt conditions: nothing notifies a thread that
    blocks while the status is there. *)
Definition awake (exempt : Z → Prop) w : Prop :=
  ∀ c C, ¬ exempt c → conds (mem w) !! c = Some C → signalPending C = false → has_status C = true → valid w C = false.

Record settled (exempt : Z → Prop) w : Prop := {
  i_sound : sound (task_ids w) w;
  i_pending : ∀ c C, conds (mem w) !! c = Some C → signalPending C = bool_decide (c ∈ task_ids w);
  i_why : ∀ c C, (c, false) ∈ tasks (mem w) → conds (mem w) !! c = Some C → t_object (trigger C) ≠ 0;
  i_awake : awake exempt w;
}.
Arguments i_sound {exempt} w _. Arguments i_pending {exempt} w _. Arguments i_why {exempt} w _. Arguments i_awake {exempt} w _.

Definition running w : Prop :=
  ∀ c C P, conds (mem w) !! c = Some C → procs (mem w) !! c_proc C = Some P → p_isExiting P = false.

Definition inv (exempt : Z → Prop) w : Prop := settled exempt w ∧ running w.

(** Fewer conditions are exempt, when the others have a task or wait for a
    status that is not there. *)
Lemma inv_exempt (exempt exempt' : Z → Prop) w :
  inv exempt w →
  (∀ c C, ¬ exempt' c → exempt c → conds (mem w) !! c = Some C → signalPending C = false → valid w C = false) →
  (∀ c, exempt c ∨ ¬ exempt c) → inv exempt' w.
Proof.
  intros [[H1 H2 H3 H4] Hr] He D2. split; [|done]. split; try done. intros c C Hn HC Hp Hst.
  destruct (D2 c) as [?|?]; [by apply (He c)|by apply (H4 c)].
Qed.

Lemma inv_more (exempt exempt' : Z → Prop) w : (∀ c, exempt c → exempt' c) → inv exempt w → inv exempt' w.
Proof.
  intros He [[H1 H2 H3 H4] Hr]. split; [|done]. split; try done. intros c C Hn. apply H4. by intros ?%He.
Qed.

Section Exempt.
Context (exempt : Z → Prop).

(** ** Released conditions *)

(** Other conditions' triggers keep their status. *)
Lemma released_valid ts w w' c C P T c' C' :
  sound ts w → conds (mem w) !! c = Some C → released w w' c C P T →
  c' ≠ c → conds (mem w) !! c' = Some C' → t_object (trigger C') ≠ 0 → valid w' C' = valid w C'.
Proof.
  intros Hs HC Hr Hne HC' Ho. unfold valid.
  pose proof (co_trigger _ _ _ _ (s_cond _ _ Hs c' C' HC')) as H.
  pose proof (released_side ts w w' c C P T Hs HC Hr c' C' _ _ _ _ _ HC' Hne H (holds_trigger C')) as H'.
  unfold trigger_side, side in H, H'. rewrite decide_False in H, H' by done.
  destruct H as (_ & v & Hv & _), H' as (_ & v' & Hv' & _). rewrite Hv, Hv'.
  destruct (released_view_inv ts w w' c C P T Hs HC Hr _ _ Hv') as (v0 & Hv0 & -> & _).
  rewrite Hv in Hv0. by injection Hv0 as <-.
Qed.
Lemma has_status_object C : has_status C = true → t_object (trigger C) ≠ 0.
Proof. unfold has_status. by destruct (Z.eqb_spec (t_object (trigger C)) 0). Qed.

(** What is settled stays so when a condition without a task is released. *)
Lemma released_settled w w' c C P T :
  settled exempt w → conds (mem w) !! c = Some C → procs (mem w) !! c_proc C = Some P →
  threads (mem w) !! c_thread C = Some T → released w w' c C P T →
  (task_ids w' = task_ids w ∧ tasks (mem w') = tasks (mem w) ∧ c ∉ task_ids w ∨ ∃ b, tasks (mem w) = (c, b) :: tasks (mem w')) →
  settled exempt w'.
Proof.
  intros [Hs Hp Hw Ha] HC HP HT Hr Htasks.
  assert (NoDup (task_ids w') ∧ (∀ x, x ∈ task_ids w' ↔ x ∈ task_ids w ∧ x ≠ c) ∧
                (∀ y, y ∈ tasks (mem w') → y ∈ tasks (mem w))) as (Hnd & Hin & Hsub).
  { pose proof (s_nodup _ _ Hs) as Hnd. destruct Htasks as [(E & Et & Hn)|[b E]].
    - rewrite E, Et. split_and!; [done| |done]. intros x. split; [intros Hx; split; [done|by intros ->]|by intros [? _]].
    - unfold task_ids in *. rewrite E in *. cbn in *. apply NoDup_cons in Hnd as [Hn Hnd]. split_and!; [done| |by intros; right].
      intros x. rewrite elem_of_cons. split; [intros Hx; split; [by right|by intros ->]|by intros [[?|?] ?]]. }
  assert (Hcs : ∀ c' C', conds (mem w') !! c' = Some C' → c' ≠ c ∧ conds (mem w) !! c' = Some C').
  { intros c' C'. rewrite (rl_conds _ _ _ _ _ _ Hr), lookup_delete_Some. intros [? ?]. split; congruence. }
  split.
  - by apply (released_sound (task_ids w) w w' c C P T).
  - intros c' C' [Hne HC']%Hcs. rewrite (Hp c' C' HC'). apply bool_decide_ext. rewrite Hin. tauto.
  - intros c' C' Ht%Hsub [_ HC']%Hcs. exact (Hw c' C' Ht HC').
  - intros c' C' Hx [Hne HC']%Hcs Hnp Hst.
    rewrite (released_valid _ w w' c C P T c' C' Hs HC Hr Hne HC' (has_status_object _ Hst)).
    exact (Ha c' C' Hx HC' Hnp Hst).
Qed.

(** ** Tasks *)

Lemma statusIsValid_ok w c C :
  trigger_side w c C → (t_object (trigger C) ≠ 0) → _syscallcondition_statusIsValid w C = Some (valid w C).
Proof.
  unfold trigger_side, side, _syscallcondition_statusIsValid, valid, trigger_obj, o_of. cbn [snd].
  intros H H0. rewrite decide_False in H by done. destruct H as (_ & v & Hv & _). rewrite Hv.
  destruct (t_type (trigger C)); cbn in Hv; [done|..|done].
  - destruct (descriptors w !! _) as [d|]; [|done]. cbn in Hv |- *. by injection Hv as <-.
  - unfold posixfile_getStatus. destruct (files (mem w) !! _) as [f|]; [|done]. cbn in Hv |- *. by injection Hv as <-.
Qed.

(** The first task, with its condition marked no more. *)
Definition begun w (c : Z) (C : SysCallCondition) (ts : list (Z * bool)) : W :=
  set_cond (on_mem w (λ m, m <| tasks := ts |>)) c (C <| signalPending := false |>).

Lemma begun_sound w c C b ts :
  settled exempt w → conds (mem w) !! c = Some C → tasks (mem w) = (c, b) :: ts → sound (task_ids w) (begun w c C ts).
Proof.
  intros [Hs Hp Hw Ha] HC Ht. apply (sound_mark (task_ids w) (task_ids w) w (begun w c C ts) c C (C <| signalPending := false |>));
    try done.
  - exact (s_nodup _ _ Hs).
  - exact (co_refs _ _ _ _ (s_cond _ _ Hs c C HC)).
Qed.

(** The outcomes of a task: the thread continues and its condition is gone, or
    it keeps waiting. *)
Record task_continues w w' (c : Z) (C : SysCallCondition) (ts : list (Z * bool)) : Prop := {
  tc_released : ∃ P T, released w w' c C P T;
  tc_tasks : tasks (mem w') = ts;
  tc_continued : continued (mem w') = continued (mem w) ++ [(c_proc C, c_thread C)];
}.

Record task_waits w w' (c : Z) (C : SysCallCondition) (ts : list (Z * bool)) : Prop := {
  tw_change : mark_change w w' c (C <| signalPending := false |> <| c_referenceCount := c_referenceCount C - 1 |>);
  tw_tasks : tasks (mem w') = ts;
  tw_continued : continued (mem w') = continued (mem w);
}.

Lemma signal_ok w c C b ts :
  inv exempt w → tasks (mem w) = (c, b) :: ts → conds (mem w) !! c = Some C → b || valid w C = true →
  ∃ w', run_task w = Some w' ∧ task_continues w w' c C ts ∧ inv exempt w'.
Proof.
  intros [Hset Hrun] Ht HC Hb. pose proof Hset as [Hs Hp Hw Ha].
  pose proof (s_cond _ _ Hs c C HC) as Hok. destruct (co_thread _ _ _ _ Hok) as (T & P & HT & HTc & HTp & HP).
  unfold run_task, _syscallcondition_signal. rewrite Ht.
  set (w0 := on_mem w _). assert (HC0 : get_cond w0 c = Some C) by exact HC.
  rewrite (update_cond_some w0 c C) by done. cbn [mbind option_bind]. rewrite get_set_cond. cbn [mbind option_bind].
  change (set_cond w0 c _) with (begun w c C ts). set (w1 := begun w c C ts). set (C1 := C <| signalPending := false |>).
  pose proof (begun_sound w c C b ts Hset HC Ht) as Hs1. fold w1 in Hs1.
  assert (E : (if b then Some true else _syscallcondition_statusIsValid w1 C1) = Some true).
  { destruct b; [done|]. assert (Ho : t_object (trigger C) ≠ 0) by (apply (Hw c C); [rewrite Ht; left|done]).
    rewrite (statusIsValid_ok w1 c C1); [by rewrite <-Hb|exact (co_trigger _ _ _ _ Hok)|done]. }
  rewrite E. cbn [mbind option_bind].
  change (c_proc C1) with (c_proc C). change (c_thread C1) with (c_thread C).
  unfold process_continue, process_isRunning. change (procs (mem w1)) with (procs (mem w)).
  change (threads (mem w1)) with (threads (mem w)). rewrite HP. cbn [mbind option_bind].
  rewrite (Hrun c C P HC HP). rewrite bool_decide_true by (exists (c_thread C), T; by split). cbn [negb andb mbind option_bind].
  destruct (resume_in_task (task_ids w) w1 (c_thread C) c C1 P T Hs1) as (w2 & w' & E2 & E3 & Hr & R1 & R2);
    [apply lookup_insert_eq|done|done|done|unfold task_ids; rewrite Ht; left|].
  rewrite E2. cbn [mbind option_bind]. rewrite E3. exists w'. split; [done|].
  assert (Hr' : released w w' c C P T).
  { destruct Hr as [Q1 Q2 Q3 Q4 Q5]. split; try done. rewrite Q3. unfold w1. cbn. by rewrite delete_insert_eq. }
  split; [|split].
  - split; [by exists P, T|by rewrite R1|by rewrite R2].
  - apply (released_settled w w' c C P T Hset HC HP HT Hr'). right. exists b. by rewrite R1.
  - intros c' C' P' HC' HP'. rewrite (rl_conds _ _ _ _ _ _ Hr'), lookup_delete_Some in HC'. destruct HC' as [_ HC'].
    rewrite (rl_procs _ _ _ _ _ _ Hr'), lookup_insert_Some in HP'. destruct HP' as [[E1 <-]|[_ HP']].
    + change (p_isExiting (proc_less P)) with (p_isExiting P). exact (Hrun c C P HC HP).
    + exact (Hrun c' C' P' HC' HP').
Qed.

Lemma no_signal_ok w c C ts :
  inv exempt w → tasks (mem w) = (c, false) :: ts → conds (mem w) !! c = Some C → valid w C = false →
  ∃ w', run_task w = Some w' ∧ task_waits w w' c C ts ∧ inv exempt w'.
Proof.
  intros [Hset Hrun] Ht HC Hb. pose proof Hset as [Hs Hp Hw Ha].
  pose proof (s_cond _ _ Hs c C HC) as Hok.
  unfold run_task, _syscallcondition_signal. rewrite Ht.
  set (w0 := on_mem w _). assert (HC0 : get_cond w0 c = Some C) by exact HC.
  rewrite (update_cond_some w0 c C) by done. cbn [mbind option_bind]. rewrite get_set_cond. cbn [mbind option_bind].
  change (set_cond w0 c _) with (begun w c C ts). set (w1 := begun w c C ts). set (C1 := C <| signalPending := false |>).
  assert (Ho : t_object (trigger C) ≠ 0) by (apply (Hw c C); [rewrite Ht; left|done]).
  rewrite (statusIsValid_ok w1 c C1); [|exact (co_trigger _ _ _ _ Hok)|done].
  change (valid w1 C1) with (valid w C). rewrite Hb. cbn [mbind option_bind].
  assert (Hids : task_ids w = c :: ts.*1) by (unfold task_ids; by rewrite Ht).
  assert (Hr1 : c_referenceCount C = 1 + n_listeners C + 1).
  { rewrite (co_refs _ _ _ _ Hok), bool_decide_true by (rewrite Hids; left). done. }
  assert (Hn : 0 ≤ n_listeners C) by (unfold n_listeners; destruct (negb _), (negb _); done).
  unfold syscallcondition_unref. rewrite (unref_at_alive 2 w1 c C1); [|apply get_set_cond|cbn; lia].
  eexists. split; [done|]. set (w' := set_cond w1 c _).
  assert (Hm : mark_change w w' c (C1 <| c_referenceCount := c_referenceCount C - 1 |>)).
  { split; try done. unfold w', w1. cbn. by rewrite insert_insert_eq. }
  pose proof (s_nodup _ _ Hs) as Hnd. rewrite Hids in Hnd. apply NoDup_cons in Hnd as [Hni Hnd].
  assert (Hids' : task_ids w' = ts.*1) by done.
  split; [by split|]. split; [split|].
  - rewrite Hids'. apply (sound_mark (task_ids w) (ts.*1) w w' c C _ Hs HC Hm); try done.
    + intros x Hx. rewrite Hids, elem_of_cons. tauto.
    + rewrite bool_decide_false by done. cbn. lia.
  - intros c' C'. rewrite (mc_conds _ _ _ _ Hm), lookup_insert_Some, Hids'. intros [[<- <-]|[Hne HC']].
    + by rewrite bool_decide_false.
    + rewrite (Hp c' C' HC'), Hids. apply bool_decide_ext. rewrite elem_of_cons. split; [intros [?|?]; [congruence|done]|by right].
  - intros c' C' Hin. rewrite (mc_conds _ _ _ _ Hm), lookup_insert_Some. intros [[<- <-]|[Hne HC']]; [done|].
    apply (Hw c' C'); [rewrite Ht; by right|done].
  - intros c' C' Hx. rewrite (mc_conds _ _ _ _ Hm), lookup_insert_Some. intros [[<- <-]|[Hne HC']] Hnp Hst; [done|].
    exact (Ha c' C' Hx HC' Hnp Hst).
  - intros c' C' P'. rewrite (mc_conds _ _ _ _ Hm), lookup_insert_Some, (mc_procs _ _ _ _ Hm).
    intros [[<- <-]|[Hne HC']]; [exact (Hrun c C P' HC)|exact (Hrun c' C' P' HC')].
Qed.
(** ** Exits *)

Lemma settled_exiting w p P : settled exempt w → procs (mem w) !! p = Some P → settled exempt (set_proc w p (P <| p_isExiting := true |>)).
Proof.
  intros [[H1 H2 H3 H4 H5 H6 H7 H8] Hp Hw Ha] HP. split; [|done|done|done].
  assert (Hps : ∀ q Q, procs (mem w) !! q = Some Q →
    ∃ Q', procs (mem (set_proc w p (P <| p_isExiting := true |>))) !! q = Some Q').
  { intros q Q HQ. cbn. destruct (decide (p = q)) as [<-|]; [rewrite lookup_insert_eq|rewrite lookup_insert_ne by done]; eauto. }
  split; try done.
  - intros c C HC. destruct (H3 c C HC) as [C1 (T & P0 & C2 & C3 & C4 & C5) C6 C7 C8]. split; try done.
    destruct (Hps _ _ C5) as [P' HP']. by exists T, P'.
  - intros t T HT. destruct (H6 t T HT) as (S1 & S2 & [P0 S3] & S4). split_and!; try done; [|apply S4..].
    destruct (Hps _ _ S3) as [P' HP']. by exists P'.
  - intros q Q. cbn. rewrite lookup_insert_Some. intros [[<- <-]|[_ HQ]]; [exact (H7 p P HP)|exact (H7 q Q HQ)].
Qed.

(** What the exit of threads leaves. *)
Record exited (items : list Z) w w' : Prop := {
  ex_tasks : tasks (mem w') = tasks (mem w);
  ex_continued : continued (mem w') = continued (mem w);
  ex_conds : ∀ c C, conds (mem w') !! c = Some C ↔ conds (mem w) !! c = Some C ∧ (c_thread C ∉ items);
  ex_threads : ∀ t, (th_process <$> threads (mem w') !! t) = (th_process <$> threads (mem w) !! t);
  ex_procs : ∀ p, (p_isExiting <$> procs (mem w') !! p) = (p_isExiting <$> procs (mem w) !! p);
}.

Lemma exit_thread_ok w t T :
  settled exempt w → threads (mem w) !! t = Some T → (th_cond T ∉ task_ids w) →
  ∃ w', _thread_cleanupSysCallCondition w t = Some w' ∧ settled exempt w' ∧ exited [t] w w'.
Proof.
  intros Hset HT Hn. pose proof (i_sound _ Hset) as Hs.
  destruct (s_thr _ _ Hs t T HT) as (S1 & S2 & S3 & S4 & S5).
  assert (Hone : ∀ c C, conds (mem w) !! c = Some C → c_thread C = t → c = th_cond T).
  { intros c C HC E. destruct (co_thread _ _ _ _ (s_cond _ _ Hs c C HC)) as (T' & P & HT' & E1 & _).
    rewrite E, HT in HT'. injection HT' as <-. done. }
  destruct (decide (th_cond T = 0)) as [E|E].
  - exists w. unfold _thread_cleanupSysCallCondition. rewrite HT. cbn [mbind option_bind]. rewrite E. cbn [Z.eqb negb].
    split_and!; [done|done|]. split; try done. intros c C. split; [|tauto]. intros HC. split; [done|].
    rewrite list_elem_of_singleton. intros E'. pose proof (Hone c C HC E').
    by apply (co_nonzero _ _ _ _ (s_cond _ _ Hs c C HC)); congruence.
  - destruct (S5 E) as (C & HC & Et). pose proof (s_cond _ _ Hs _ C HC) as Hok.
    destruct (co_thread _ _ _ _ Hok) as (T' & P & HT' & HTc & HTp & HP). rewrite Et, HT in HT'. injection HT' as <-.
    destruct (thread_cleanup_ok (task_ids w) w t (th_cond T) C P T Hs HC HP Et HT Hn) as (w' & E1 & Hr & R1 & R2).
    exists w'. split_and!; [done|..].
    + apply (released_settled w w' _ C P T Hset HC HP); [by rewrite Et|done|]. left. unfold task_ids. by rewrite R1.
    + split; [done|done|..].
      * intros c' C'. rewrite (rl_conds _ _ _ _ _ _ Hr), lookup_delete_Some, list_elem_of_singleton. split.
        -- intros [Hne HC']. split; [done|]. intros E'. by pose proof (Hone c' C' HC' E').
        -- intros [HC' Hne]. split; [|done]. intros <-. congruence.
      * intros t'. rewrite (rl_threads _ _ _ _ _ _ Hr), Et. destruct (decide (t = t')) as [<-|]; [|by rewrite lookup_insert_ne].
        by rewrite lookup_insert_eq, HT.
      * intros p. rewrite (rl_procs _ _ _ _ _ _ Hr). destruct (decide (c_proc C = p)) as [<-|]; [|by rewrite lookup_insert_ne].
        by rewrite lookup_insert_eq, HP.
Qed.

Lemma exit_threads_ok items : ∀ w,
  settled exempt w → (∀ t, t ∈ items → is_Some (threads (mem w) !! t)) →
  (∀ c C, conds (mem w) !! c = Some C → c_thread C ∈ items → c ∉ task_ids w) →
  ∃ w', exit_threads w items = Some w' ∧ settled exempt w' ∧ exited items w w'.
Proof.
  induction items as [|t items IH]; intros w Hset Hex Hn.
  - exists w. split_and!; [done|done|]. split; try done. intros c C. split; [intros HC; split; [done|]|tauto].
    apply not_elem_of_nil.
  - destruct (Hex t) as [T HT]; [by left|]. destruct (exit_thread_ok w t T Hset HT) as (w1 & E1 & Hset1 & X1).
    { pose proof (i_sound _ Hset) as Hs. destruct (s_thr _ _ Hs t T HT) as (S1 & S2 & S3 & S4 & S5).
      intros Hin. destruct (s_task _ _ Hs _ Hin) as [C HC].
      assert (th_cond T ≠ 0) as H0 by exact (co_nonzero _ _ _ _ (s_cond _ _ Hs _ C HC)).
      destruct (S5 H0) as (C' & HC' & Et). apply (Hn _ C' HC'); [rewrite Et; by left|done]. }
    destruct (IH w1) as (w' & E2 & Hset' & X2); [done|..].
    + intros t' Hin. destruct (Hex t') as [T' HT']; [by right|]. pose proof (ex_threads _ _ _ X1 t') as H.
      rewrite HT' in H. destruct (threads (mem w1) !! t'); [by eexists|done].
    + intros c C HC Hin. apply (ex_conds _ _ _ X1) in HC as [HC Hne]. unfold task_ids. rewrite (ex_tasks _ _ _ X1).
      apply (Hn c C HC). by right.
    + cbn [exit_threads]. rewrite E1. cbn [mbind option_bind]. exists w'. split_and!; [done|done|]. split.
      * by rewrite (ex_tasks _ _ _ X2), (ex_tasks _ _ _ X1).
      * by rewrite (ex_continued _ _ _ X2), (ex_continued _ _ _ X1).
      * intros c C. rewrite (ex_conds _ _ _ X2), (ex_conds _ _ _ X1), !elem_of_cons.
        pose proof (not_elem_of_nil (c_thread C)). tauto.
      * intros x. by rewrite (ex_threads _ _ _ X2), (ex_threads _ _ _ X1).
      * intros x. by rewrite (ex_procs _ _ _ X2), (ex_procs _ _ _ X1).
Qed.

(** The threads of a process. *)
Definition threads_of w (p : Z) (items : list Z) : Prop :=
  ∀ t, t ∈ items ↔ ∃ T, threads (mem w) !! t = Some T ∧ th_process T = p.

(** The process is marked, if it still runs, and then its threads exit. *)
Lemma process_exit_marks w p P items :
  settled exempt w → procs (mem w) !! p = Some P →
  ∃ w1, process_exit w p items = exit_threads w1 items ∧ settled exempt w1 ∧ same_mem (set_proc w1 p P) (set_proc w p P) ∧
    (∀ q, q ≠ p → procs (mem w1) !! q = procs (mem w) !! q).
Proof.
  intros Hset HP. unfold process_exit, _process_handleProcessExit, process_markAsExiting, process_isRunning.
  rewrite HP. cbn [mbind option_bind].
  destruct (negb (p_isExiting P) && _) eqn:E.
  - cbn [mbind option_bind]. set (w1 := set_proc w p (P <| p_isExiting := true |>)).
    assert (Ep : procs (mem w1) !! p = Some (P <| p_isExiting := true |>)) by apply lookup_insert_eq.
    exists w1. rewrite Ep. cbn [mbind option_bind]. split_and!; [done|by apply settled_exiting| |].
    + unfold same_mem, w1. cbn. by rewrite insert_insert_eq.
    + intros q Hq. unfold w1. cbn. by rewrite lookup_insert_ne.
  - cbn [mbind option_bind]. exists w. rewrite HP. cbn [mbind option_bind]. rewrite E. by split_and!.
Qed.

Lemma process_exit_ok w p P items :
  inv exempt w → procs (mem w) !! p = Some P → threads_of w p items →
  (∀ c C, conds (mem w) !! c = Some C → c_proc C = p → signalPending C = false) →
  ∃ w', process_exit w p items = Some w' ∧ inv exempt w' ∧ tasks (mem w') = tasks (mem w) ∧
    (∀ c C, conds (mem w') !! c = Some C ↔ conds (mem w) !! c = Some C ∧ c_proc C ≠ p).
Proof.
  intros [Hset Hrun] HP Hit Hn. pose proof (i_sound _ Hset) as Hs.
  destruct (process_exit_marks w p P items Hset HP) as (w1 & -> & Hset1 & (M1 & M2 & M3 & _ & M5) & Hpr).
  cbn in M1, M2, M3, M5.
  assert (Hth : ∀ c C, conds (mem w) !! c = Some C → c_thread C ∈ items ↔ c_proc C = p).
  { intros c C HC. destruct (co_thread _ _ _ _ (s_cond _ _ Hs c C HC)) as (T & P0 & HT & E1 & E2 & _).
    rewrite (Hit (c_thread C)). split; [intros (T' & HT' & E); congruence|]. intros <-. by exists T. }
  destruct (exit_threads_ok items w1 Hset1) as (w' & -> & Hset' & X).
  - intros t (T & HT & _)%Hit. exists T. by rewrite <-M3.
  - intros c C HC Hin. rewrite <-M1 in HC. apply (Hth c C HC) in Hin. pose proof (Hn c C HC Hin) as Hnp.
    rewrite (i_pending _ Hset c C HC) in Hnp. unfold task_ids. rewrite <-M2. by apply bool_decide_eq_false in Hnp.
  - exists w'. assert (Hc : ∀ c C, conds (mem w') !! c = Some C ↔ conds (mem w) !! c = Some C ∧ c_proc C ≠ p).
    { intros c C. rewrite (ex_conds _ _ _ X), <-M1. split; intros [HC H]; (split; [done|]); by rewrite (Hth c C HC) in *. }
    split_and!; [done| |by rewrite (ex_tasks _ _ _ X), M2|done]. split; [done|]. intros c C P' HC HP'. apply Hc in HC as [HC Hne].
    pose proof (ex_procs _ _ _ X (c_proc C)) as H. rewrite HP', (Hpr _ Hne) in H.
    destruct (procs (mem w) !! c_proc C) as [P0|] eqn:E0; [|done]. cbn in H. injection H as ->. exact (Hrun c C P0 HC E0).
Qed.
(** ** A thread blocks *)

(** One half of the set-up of listeners. *)
Lemma half_attach_ok w c C t l v mon filt func setl :
  o_get w (o_of t) = Some v → l ∉ v_listeners v → l ≠ 0 → get_cond w c = Some C →
  ∃ w1 w2 w3 w4, update_cond (new_listener w l func c) c setl = Some w1 ∧ syscallcondition_ref w1 c = Some w2 ∧
    set_monitor w2 l mon filt = Some w3 ∧ trigger_addListener _syscallcondition_unrefcb w3 t l = Some w4 ∧
    o_upd w w4 (o_of t) (Some (v_with v ({[l]} ∪ v_listeners v))) ∧
    statuslisteners w4 = <[l := own_listener mon filt func c 2]> (statuslisteners w) ∧
    conds (mem w4) = <[c := cond_refs (setl C) (c_referenceCount (setl C) + 1)]> (conds (mem w)) ∧ same_rest w w4.
Proof.
  intros Hv Hl Hl0 HC. set (w0 := new_listener w l func c).
  exists (set_cond w0 c (setl C)), (set_cond (set_cond w0 c (setl C)) c (cond_refs (setl C) (c_referenceCount (setl C) + 1))).
  set (w2 := set_cond (set_cond w0 c (setl C)) c _).
  exists (w2 <| statuslisteners := <[l := own_listener mon filt func c 1]> (statuslisteners w2) |>). set (w3 := w2 <| statuslisteners := _ |>).
  destruct (attach_ok _syscallcondition_unrefcb w3 t l v (own_listener mon filt func c 1) Hv Hl) as (w4 & E4 & [T1 T2 T3]);
    [apply lookup_insert_eq|].
  exists w4. destruct T3 as (M1 & M2 & M3 & M4 & M5). split_and!.
  - by rewrite (update_cond_some w0 c C).
  - unfold syscallcondition_ref. by rewrite (update_cond_some _ c (setl C)) by apply get_set_cond.
  - unfold set_monitor, with_listener. change (statuslisteners w2) with (statuslisteners w0).
    unfold w0, new_listener. cbn [statuslisteners]. cbn. by rewrite lookup_insert_eq.
  - done.
  - exact T1.
  - rewrite T2. unfold w3, w2, w0, new_listener. cbn. by rewrite !insert_insert_eq.
  - rewrite M1. unfold w3, w2, w0. cbn. by rewrite insert_insert_eq.
  - by split_and!.
Qed.

(** The references a new condition takes. *)
Definition grabs (C : SysCallCondition) (o : Obj) : Z :=
  (if decide (o = timeout_obj C ∧ timeout C ≠ 0) then 1 else 0) +
  (if decide (o = trigger_obj C ∧ t_object (trigger C) ≠ 0 ∧ t_type (trigger C) ≠ TRIGGER_POSIX_FILE) then 1 else 0).

Definition fresh_cond (tr : Trigger) (to : Z) : SysCallCondition := mkCond tr to 0 0 0 0 false 1.

(** Stage by stage: the references of the condition. *)
Lemma condition_new_ok w c tr to :
  (to ≠ 0 → is_Some (o_get w (TRIGGER_DESCRIPTOR, to))) → (t_object tr ≠ 0 → is_Some (o_get w (o_of tr))) →
  ∃ w', syscallcondition_new w c tr to = Some w' ∧
    (∀ o, o_get w' o = (λ v, v_at v (v_refs v + grabs (fresh_cond tr to) o)) <$> o_get w o) ∧
    statuslisteners w' = statuslisteners w ∧ conds (mem w') = <[c := fresh_cond tr to]> (conds (mem w)) ∧ same_rest w w'.
Proof.
  intros Hto Htr. unfold syscallcondition_new. fold (fresh_cond tr to). set (w0 := set_cond w c (fresh_cond tr to)).
  set (g1 o := if decide (o = (TRIGGER_DESCRIPTOR, to) ∧ to ≠ 0) then 1 else 0).
  assert (∃ w1, (if negb (to =? 0) then world_descriptor_ref w0 to else Some w0) = Some w1 ∧
    (∀ o, o_get w1 o = (λ v, v_at v (v_refs v + g1 o)) <$> o_get w o) ∧
    statuslisteners w1 = statuslisteners w ∧ same_mem w0 w1) as (w1 & -> & O1 & L1 & M1).
  { destruct (Z.eqb_spec to 0) as [E|E]; cbn [negb].
    - exists w0. split_and!; try done. intros o. unfold g1. rewrite decide_False by tauto.
      change (o_get w0 o) with (o_get w o). destruct (o_get w o) as [[]|]; [|done]. cbn. unfold v_at. cbn. by rewrite Z.add_0_r.
    - destruct (Hto E) as [v Hv].
      destruct (trigger_ref_ok w0 (mkTrigger TRIGGER_DESCRIPTOR to 0) v) as (w1 & E1 & [T1 T2 T3]); [exact Hv|exact E|].
      unfold trigger_ref in E1. cbn in E1. rewrite (proj2 (Z.eqb_neq _ _) E) in E1. exists w1. split_and!; [exact E1| |done|exact T3].
      intros o. rewrite T1. change (o_of _) with (TRIGGER_DESCRIPTOR, to). unfold g1. case_decide as Eo.
      + subst o. rewrite decide_True, Hv by done. done.
      + rewrite decide_False by tauto. change (o_get w0 o) with (o_get w o). destruct (o_get w o) as [[]|]; [|done].
        cbn. unfold v_at. cbn. by rewrite Z.add_0_r. }
  cbn [mbind option_bind]. destruct M1 as (A1 & A2 & A3 & A4 & A5).
  destruct (decide (t_object tr = 0)) as [E|E].
  - unfold trigger_ref. rewrite E. exists w1. split_and!; try done. intros o. rewrite O1. unfold grabs. fold (g1 o).
    rewrite (decide_False (P := _ ∧ t_object _ ≠ 0 ∧ _)) by (cbn; tauto). change (if decide _ then 1 else 0) with (g1 o).
    by rewrite Z.add_0_r.
  - destruct (Htr E) as [v Hv].
    assert (Hv1 : o_get w1 (o_of tr) = Some (v_at v (v_refs v + g1 (o_of tr)))) by (by rewrite O1, Hv).
    destruct (trigger_ref_ok w1 tr _ Hv1 E) as (w2 & -> & [T1 T2 T3]). exists w2.
    destruct T3 as (B1 & B2 & B3 & B4 & B5). split_and!; [done| |by rewrite T2|by rewrite B1, A1|].
    2:{ split_and!; [by rewrite B2, A2|by rewrite B3, A3|by rewrite B4, A4|by rewrite B5, A5]. }
    intros o. rewrite T1. unfold grabs.
    change (if decide (o = timeout_obj _ ∧ _) then 1 else 0) with (g1 o). change (trigger_obj (fresh_cond tr to)) with (o_of tr).
    change (trigger (fresh_cond tr to)) with tr. destruct (decide (o = o_of tr)) as [->|Hne].
    + rewrite Hv. cbn [fmap option_fmap option_map]. unfold o_grab, o_of. cbn [fst].
      destruct (t_type tr) eqn:Ety.
      * unfold o_of in Hv. by rewrite Ety in Hv.
      * rewrite decide_True by done. unfold v_at. cbn. do 2 f_equal; lia.
      * rewrite decide_False by (intros (_ & _ & ?); done). unfold v_at. cbn. do 2 f_equal; lia.
      * rewrite decide_True by done. unfold v_at. cbn. do 2 f_equal; lia.
    + rewrite (decide_False (P := _ ∧ _ ∧ _)) by tauto. rewrite O1. by rewrite Z.add_0_r.
Qed.
(** The condition as its thread leaves it. *)
Definition waiting_cond (tr : Trigger) (to proc thread : Z) (ls : Z * Z) : SysCallCondition :=
  let tl := if decide (to = 0) then 0 else ls.1 in
  let trl := if decide (t_object tr = 0) then 0 else ls.2 in
  mkCond tr to trl tl proc thread false (1 + (Z.b2z (negb (tl =? 0)) + Z.b2z (negb (trl =? 0)))).

Definition trigger_filter (tr : Trigger) : StatusListenerFilter :=
  if decide (t_type tr = TRIGGER_FUTEX) then SLF_ALWAYS else SLF_OFF_TO_ON.

Definition listener_of (c : Z) (C : SysCallCondition) (x : Z) : StatusListener :=
  if decide (x = timeoutListener C) then own_listener STATUS_DESCRIPTOR_READABLE SLF_OFF_TO_ON NOTIFY_TIMEOUT c 2
  else own_listener (t_status (trigger C)) (trigger_filter (trigger C)) NOTIFY_STATUS c 2.

Definition proc_more (P : Process) : Process := P <| p_referenceCount := p_referenceCount P + 1 |>.
Definition thread_more (T : Thread) : Thread := T <| th_referenceCount := th_referenceCount T + 1 |>.

Record waits_now w w' (c : Z) (C : SysCallCondition) (P : Process) (T : Thread) : Prop := {
  wn_obj : ∀ o, o_get w' o = (λ v, v_with v (v_listeners v ∪ atts C o)) <$> o_get w o;
  wn_lis : ∀ x, statuslisteners w' !! x = if decide (own C x) then Some (listener_of c C x) else statuslisteners w !! x;
  wn_conds : conds (mem w') = <[c := C]> (conds (mem w));
  wn_procs : procs (mem w') = <[c_proc C := proc_more P]> (procs (mem w));
  wn_threads : threads (mem w') = <[c_thread C := thread_more T]> (threads (mem w));
  wn_tasks : tasks (mem w') = tasks (mem w);
  wn_continued : continued (mem w') = continued (mem w);
}.

(** The half of the timeout, from a condition without listeners. *)
Lemma wait_timeout_ok w c C l :
  get_cond w c = Some C → timeoutListener C = 0 → l ≠ 0 →
  (timeout C ≠ 0 → is_Some (o_get w (timeout_obj C))) → (∀ o v, o_get w o = Some v → l ∉ v_listeners v) →
  let tl := if decide (timeout C = 0) then 0 else l in
  ∃ w', (if negb (timeout C =? 0) && (timeoutListener C =? 0) then
           w ← update_cond (new_listener w l NOTIFY_TIMEOUT c) c (λ C, C <| timeoutListener := l |>);
           w ← syscallcondition_ref w c;
           w ← set_monitor w l STATUS_DESCRIPTOR_READABLE SLF_OFF_TO_ON;
           descriptor_addListener _syscallcondition_unrefcb w (timeout C) l
         else Some w) = Some w' ∧
    (∀ o, o_get w' o = (λ v, v_with v (v_listeners v ∪ att (timeout_obj C) o tl)) <$> o_get w o) ∧
    (∀ x, statuslisteners w' !! x = if decide (x = tl ∧ tl ≠ 0)
       then Some (own_listener STATUS_DESCRIPTOR_READABLE SLF_OFF_TO_ON NOTIFY_TIMEOUT c 2) else statuslisteners w !! x) ∧
    conds (mem w') = <[c := cond_refs (C <| timeoutListener := tl |>) (c_referenceCount C + Z.b2z (negb (tl =? 0)))]> (conds (mem w)) ∧
    same_rest w w'.
Proof.
  intros HC Htl Hl Ho Hfr tl. rewrite Htl. unfold tl. destruct (decide (timeout C = 0)) as [E|E].
  - rewrite E. exists w. split_and!; [done|..|done].
    + intros o. unfold att. rewrite decide_False by tauto. destruct (o_get w o) as [[]|]; [|done].
      unfold v_with. cbn. by rewrite union_empty_r_L.
    + intros x. by rewrite decide_False by tauto.
    + cbn. rewrite Z.add_0_r, insert_id; [done|]. unfold get_cond in HC. rewrite HC. destruct C. cbn in *. by subst.
  - rewrite (proj2 (Z.eqb_neq _ _) E). cbn [negb andb Z.eqb]. destruct (Ho E) as [v Hv].
    destruct (half_attach_ok w c C (mkTrigger TRIGGER_DESCRIPTOR (timeout C) 0) l v STATUS_DESCRIPTOR_READABLE SLF_OFF_TO_ON
      NOTIFY_TIMEOUT (λ C, C <| timeoutListener := l |>) Hv (Hfr _ _ Hv) Hl HC)
      as (w1 & w2 & w3 & w4 & -> & E2 & E3 & E4 & O & L & D & R).
    cbn [mbind option_bind]. rewrite E2. cbn [mbind option_bind]. rewrite E3. cbn [mbind option_bind].
    cbn [trigger_addListener t_type t_object] in E4. rewrite E4.
    exists w4. split_and!; [done|..|done].
    + intros o. rewrite O. unfold att. change (o_of _) with (timeout_obj C). destruct (decide (o = timeout_obj C)) as [->|Hne].
      * change (TRIGGER_DESCRIPTOR, timeout C) with (timeout_obj C) in Hv. rewrite Hv, decide_True by done. cbn. f_equal. unfold v_with. f_equal. by rewrite union_comm_L.
      * rewrite decide_False by tauto. destruct (o_get w o) as [[]|]; [|done]. unfold v_with. cbn. by rewrite union_empty_r_L.
    + intros x. rewrite L. destruct (decide (x = l ∧ l ≠ 0)) as [[-> _]|]; [apply lookup_insert_eq|].
      apply lookup_insert_ne. intros ->. tauto.
    + rewrite D, (proj2 (Z.eqb_neq _ _) Hl). done.
Qed.

(** The half of the trigger. *)
Lemma wait_trigger_ok w c C l :
  get_cond w c = Some C → triggerListener C = 0 → l ≠ 0 →
  (t_object (trigger C) ≠ 0 → is_Some (o_get w (trigger_obj C))) → (∀ o v, o_get w o = Some v → l ∉ v_listeners v) →
  let trl := if decide (t_object (trigger C) = 0) then 0 else l in
  ∃ w', (if negb (t_object (trigger C) =? 0) && (triggerListener C =? 0) then
           w ← update_cond (new_listener w l NOTIFY_STATUS c) c (λ C, C <| triggerListener := l |>);
           w ← syscallcondition_ref w c;
           w ← (match t_type (trigger C) with
                | TRIGGER_DESCRIPTOR | TRIGGER_POSIX_FILE => set_monitor w l (t_status (trigger C)) SLF_OFF_TO_ON
                | TRIGGER_FUTEX => set_monitor w l (t_status (trigger C)) SLF_ALWAYS
                | TRIGGER_NONE => Some w
                end);
           trigger_addListener _syscallcondition_unrefcb w (trigger C) l
         else Some w) = Some w' ∧
    (∀ o, o_get w' o = (λ v, v_with v (v_listeners v ∪ att (trigger_obj C) o trl)) <$> o_get w o) ∧
    (∀ x, statuslisteners w' !! x = if decide (x = trl ∧ trl ≠ 0)
       then Some (own_listener (t_status (trigger C)) (trigger_filter (trigger C)) NOTIFY_STATUS c 2) else statuslisteners w !! x) ∧
    conds (mem w') = <[c := cond_refs (C <| triggerListener := trl |>) (c_referenceCount C + Z.b2z (negb (trl =? 0)))]> (conds (mem w)) ∧
    same_rest w w'.
Proof.
  intros HC Htl Hl Ho Hfr trl. rewrite Htl. unfold trl. destruct (decide (t_object (trigger C) = 0)) as [E|E].
  - rewrite E. exists w. split_and!; [done|..|done].
    + intros o. unfold att. rewrite decide_False by tauto. destruct (o_get w o) as [[]|]; [|done].
      unfold v_with. cbn. by rewrite union_empty_r_L.
    + intros x. by rewrite decide_False by tauto.
    + cbn. rewrite Z.add_0_r, insert_id; [done|]. unfold get_cond in HC. rewrite HC. destruct C. cbn in *. by subst.
  - rewrite (proj2 (Z.eqb_neq _ _) E). cbn [negb andb Z.eqb]. destruct (Ho E) as [v Hv].
    destruct (half_attach_ok w c C (trigger C) l v (t_status (trigger C)) (trigger_filter (trigger C))
      NOTIFY_STATUS (λ C, C <| triggerListener := l |>) Hv (Hfr _ _ Hv) Hl HC)
      as (w1 & w2 & w3 & w4 & -> & E2 & E3 & E4 & O & L & D & R).
    cbn [mbind option_bind]. rewrite E2. cbn [mbind option_bind].
    assert (E3' : (match t_type (trigger C) with
                | TRIGGER_DESCRIPTOR | TRIGGER_POSIX_FILE => set_monitor w2 l (t_status (trigger C)) SLF_OFF_TO_ON
                | TRIGGER_FUTEX => set_monitor w2 l (t_status (trigger C)) SLF_ALWAYS
                | TRIGGER_NONE => Some w2
                end) = Some w3).
    { unfold trigger_filter in E3. unfold trigger_obj, o_of in Hv. destruct (t_type (trigger C)); [done|exact E3..]. }
    rewrite E3'. cbn [mbind option_bind]. rewrite E4.
    exists w4. split_and!; [done|..|done].
    + intros o. rewrite O. unfold att. fold (trigger_obj C). destruct (decide (o = trigger_obj C)) as [->|Hne].
      * rewrite Hv, decide_True by done. cbn. f_equal. unfold v_with. f_equal. by rewrite union_comm_L.
      * rewrite decide_False by tauto. destruct (o_get w o) as [[]|]; [|done]. unfold v_with. cbn. by rewrite union_empty_r_L.
    + intros x. rewrite L. destruct (decide (x = l ∧ l ≠ 0)) as [[-> _]|]; [apply lookup_insert_eq|].
      apply lookup_insert_ne. intros ->. tauto.
    + rewrite D, (proj2 (Z.eqb_neq _ _) Hl). done.
Qed.

Lemma own_cases c C x (s : option StatusListener) :
  triggerListener C = 0 ∨ triggerListener C ≠ timeoutListener C →
  (if decide (x = triggerListener C ∧ triggerListener C ≠ 0)
   then Some (own_listener (t_status (trigger C)) (trigger_filter (trigger C)) NOTIFY_STATUS c 2)
   else if decide (x = timeoutListener C ∧ timeoutListener C ≠ 0)
   then Some (own_listener STATUS_DESCRIPTOR_READABLE SLF_OFF_TO_ON NOTIFY_TIMEOUT c 2) else s) =
  if decide (own C x) then Some (listener_of c C x) else s.
Proof. intros H. unfold own, listener_of. decide_goal; try done; intuition congruence. Qed.

Lemma waitNonblock_ok w c tr to proc thread ls P T :
  get_cond w c = Some (fresh_cond tr to) → proc ≠ 0 → thread ≠ 0 →
  procs (mem w) !! proc = Some P → threads (mem w) !! thread = Some T →
  (to ≠ 0 → is_Some (o_get w (TRIGGER_DESCRIPTOR, to))) → (t_object tr ≠ 0 → is_Some (o_get w (o_of tr))) →
  ls.1 ≠ 0 → ls.2 ≠ 0 → ls.1 ≠ ls.2 →
  (∀ o v, o_get w o = Some v → (ls.1 ∉ v_listeners v) ∧ (ls.2 ∉ v_listeners v)) →
  ∃ w', syscallcondition_waitNonblock w c proc thread ls = Some w' ∧
    waits_now w w' c (waiting_cond tr to proc thread ls) P T.
Proof.
  intros HC Hp0 Ht0 HP HT Hto Htr Hl1 Hl2 Hl12 Hfr. unfold syscallcondition_waitNonblock.
  rewrite (proj2 (Z.eqb_neq _ _) Hp0), (proj2 (Z.eqb_neq _ _) Ht0). cbn [orb]. unfold syscallcondition_cancel.
  rewrite (cleanupListeners_none _ w c _ HC) by done. cbn [mbind option_bind].
  rewrite (cleanupProc_none w c _ HC) by done. cbn [mbind option_bind].
  rewrite (update_cond_some w c _ _ HC). cbn [mbind option_bind]. unfold process_ref.
  change (procs (mem (set_cond w c _))) with (procs (mem w)). rewrite HP. cbn [mbind option_bind].
  erewrite update_cond_some by apply get_set_cond. cbn [mbind option_bind]. unfold thread_ref.
  match goal with |- context [threads (mem ?w0) !! thread] => change (threads (mem w0)) with (threads (mem w)) end.
  rewrite HT. cbn [mbind option_bind].
  set (C1 := (fresh_cond tr to) <| c_proc := proc |> <| c_thread := thread |>).
  set (w1 := set_thread _ _ _).
  assert (HC1 : get_cond w1 c = Some C1) by apply lookup_insert_eq. rewrite HC1. cbn [mbind option_bind].
  destruct (wait_timeout_ok w1 c C1 ls.1 HC1) as (w2 & E2 & O2 & L2 & D2 & R2); [done|done|exact Hto|by intros o v Hv; apply (Hfr o v)|].
  rewrite E2. cbn [mbind option_bind]. clear E2.
  set (C2 := cond_refs _ _) in D2. assert (HC2 : get_cond w2 c = Some C2) by (unfold get_cond; rewrite D2; apply lookup_insert_eq).
  change (trigger C1) with (trigger C2). change (triggerListener C1) with (triggerListener C2).
  destruct (wait_trigger_ok w2 c C2 ls.2 HC2) as (w3 & E3 & O3 & L3 & D3 & R3); [done|done|..].
  { intros Ho. destruct (Htr Ho) as [v Hv]. rewrite O2. change (trigger_obj C2) with (o_of tr).
    change (o_get w1 (o_of tr)) with (o_get w (o_of tr)). rewrite Hv. by eexists. }
  { intros o v. rewrite O2. change (o_get w1 o) with (o_get w o). rewrite fmap_Some. intros (v0 & Hv0 & ->). cbn.
    rewrite not_elem_of_union. split; [by apply (Hfr o v0)|]. intros H%att_sub%elem_of_singleton. case_decide; congruence. }
  rewrite E3. exists w3. split; [done|]. destruct R2 as (A1 & A2 & A3 & A4), R3 as (B1 & B2 & B3 & B4).
  change (trigger C2) with tr in *. change (timeout C1) with to in *.
  split.
  - intros o. rewrite O3, O2. change (o_get w1 o) with (o_get w o). destruct (o_get w o) as [[s r lls]|]; [|done].
    cbn. unfold v_with. cbn. do 2 f_equal. by rewrite <-(assoc_L (∪)).
  - intros x. rewrite L3, L2. change (statuslisteners w1 !! x) with (statuslisteners w !! x).
    apply (own_cases c (waiting_cond tr to proc thread ls) x). cbn. clear -Hl1 Hl2 Hl12. repeat case_decide; auto.
  - rewrite D3, D2, insert_insert_eq. unfold w1. cbn. rewrite !insert_insert_eq. f_equal.
    unfold waiting_cond, cond_refs, C2, C1. cbv -[Z.add Z.b2z negb Z.eqb decide]. f_equal. lia.
  - rewrite B3, A3. done.
  - rewrite B2, A2. done.
  - by rewrite B1, A1.
  - by rewrite B4, A4.
Qed.
(** A system call of thread [t] blocks: it makes the condition, and the thread
    waits on it. *)
Definition block w (t c : Z) (tr : Trigger) (to : Z) (ls : Z * Z) : option W :=
  w ← syscallcondition_new w c tr to; thread_resume_end w t c ls.

Record blocked w w' (c : Z) (C : SysCallCondition) (P : Process) (T : Thread) : Prop := {
  bl_obj : ∀ o, o_get w' o =
    (λ v, mkView (v_status v) (v_refs v + grabs C o) (v_listeners v ∪ atts C o)) <$> o_get w o;
  bl_lis : ∀ x, statuslisteners w' !! x = if decide (own C x) then Some (listener_of c C x) else statuslisteners w !! x;
  bl_conds : conds (mem w') = <[c := C]> (conds (mem w));
  bl_procs : procs (mem w') = <[c_proc C := proc_more P]> (procs (mem w));
  bl_threads : threads (mem w') = <[c_thread C := (thread_more T) <| th_cond := c |>]> (threads (mem w));
  bl_tasks : tasks (mem w') = tasks (mem w);
  bl_continued : continued (mem w') = continued (mem w);
}.

(** The thread runs, the addresses are new, and the objects are there - the file
    with a reference to hand over. *)
Record can_block w (t c : Z) (tr : Trigger) (to : Z) (ls : Z * Z) : Prop := {
  cb_thread : ∃ T P, threads (mem w) !! t = Some T ∧ th_cond T = 0 ∧
                     procs (mem w) !! th_process T = Some P ∧ p_isExiting P = false;
  cb_cond : c ≠ 0 ∧ conds (mem w) !! c = None;
  cb_listeners : ls.1 ≠ 0 ∧ ls.2 ≠ 0 ∧ ls.1 ≠ ls.2 ∧ statuslisteners w !! ls.1 = None ∧ statuslisteners w !! ls.2 = None;
  cb_timeout : to ≠ 0 → is_Some (o_get w (TRIGGER_DESCRIPTOR, to));
  cb_trigger : t_object tr ≠ 0 → ∃ v, o_get w (o_of tr) = Some v ∧
    (t_type tr = TRIGGER_POSIX_FILE → Z.of_nat (uses w (o_of tr)) < v_refs v);
}.

Lemma unlisted ts w l o v : sound ts w → statuslisteners w !! l = None → o_get w o = Some v → l ∉ v_listeners v.
Proof.
  intros Hs Hl Hv Hin. destruct (s_att _ _ Hs o v l Hv Hin) as (c & C & HC & Ho%atts_own).
  destruct (own_listener_of _ _ _ _ _ (s_cond _ _ Hs c C HC) Ho) as (?&?&?&E). congruence.
Qed.

Lemma block_runs ts w t c tr to ls T P :
  sound ts w → can_block w t c tr to ls → threads (mem w) !! t = Some T → procs (mem w) !! th_process T = Some P →
  ∃ w', block w t c tr to ls = Some w' ∧ blocked w w' c (waiting_cond tr to (th_process T) t ls) P T.
Proof.
  intros Hs [_ (Hc0 & Hc) (Hl1 & Hl2 & Hl12 & Hf1 & Hf2) Hto Htr] HT HP. destruct (s_thr _ _ Hs t T HT) as (Ht0 & Hp0 & _).
  assert (Htr' : t_object tr ≠ 0 → is_Some (o_get w (o_of tr))) by (intros H; destruct (Htr H) as (v & Hv & _); by exists v).
  unfold block. destruct (condition_new_ok w c tr to Hto Htr') as (w1 & -> & O1 & L1 & D1 & R1 & R2 & R3 & R4).
  cbn [mbind option_bind]. unfold thread_resume_end. rewrite R2, HT. cbn [mbind option_bind].
  set (w2 := set_thread w1 t (T <| th_cond := c |>)).
  assert (Hw2 : ∀ o, is_Some (o_get w o) → is_Some (o_get w2 o)).
  { intros o [v Hv]. change (o_get w2 o) with (o_get w1 o). rewrite O1, Hv. by eexists. }
  destruct (waitNonblock_ok w2 c tr to (th_process T) t ls P (T <| th_cond := c |>)) as (w' & E & [Q1 Q2 Q3 Q4 Q5 Q6 Q7]); try done.
  - unfold get_cond, w2. cbn. rewrite D1. apply lookup_insert_eq.
  - cbn. by rewrite R3.
  - unfold w2. cbn. apply lookup_insert_eq.
  - intros H. by apply Hw2, Hto.
  - intros H. by apply Hw2, Htr'.
  - intros o v. change (o_get w2 o) with (o_get w1 o). rewrite O1, fmap_Some. intros (v0 & Hv0 & ->). cbn.
    split; by apply (unlisted ts w _ o).
  - exists w'. split; [exact E|]. split.
    + intros o. rewrite Q1. change (o_get w2 o) with (o_get w1 o). rewrite O1. by destruct (o_get w o).
    + intros x. rewrite Q2. change (statuslisteners w2) with (statuslisteners w1). by rewrite L1.
    + rewrite Q3. unfold w2. cbn. by rewrite D1, insert_insert_eq.
    + rewrite Q4. unfold w2. cbn. by rewrite R3.
    + rewrite Q5. unfold w2. cbn. rewrite R2, insert_insert_eq. done.
    + rewrite Q6. exact R1.
    + rewrite Q7. exact R4.
Qed.

Section Blocked.
Context (w w' : W) (t c : Z) (tr : Trigger) (to : Z) (ls : Z * Z) (T : Thread) (P : Process).
Let C := waiting_cond tr to (th_process T) t ls.
Hypotheses (Hset : settled exempt w) (Hcb : can_block w t c tr to ls) (HT : threads (mem w) !! t = Some T) (HTc : th_cond T = 0)
  (HP : procs (mem w) !! th_process T = Some P) (Hb : blocked w w' c C P T).

Lemma blocked_side c' o l mon filt func : side w c' o l mon filt func → side w' c' o l mon filt func.
Proof.
  unfold side. intros H. case_decide; [done|]. destruct H as (Hl & v & Hv & Hin & Hls). split; [done|].
  exists (mkView (v_status v) (v_refs v + grabs C o) (v_listeners v ∪ atts C o)). split_and!.
  - by rewrite (bl_obj _ _ _ _ _ _ Hb), Hv.
  - cbn. apply elem_of_union. by left.
  - rewrite (bl_lis _ _ _ _ _ _ Hb), decide_False; [done|]. destruct (cb_listeners _ _ _ _ _ _ Hcb) as (_ & _ & _ & Hf1 & Hf2).
    unfold own, C, waiting_cond. cbn. intros [_ [E|E]]; case_decide; congruence.
Qed.

Lemma new_sides : timeout_side w' c C ∧ trigger_side w' c C.
Proof.
  destruct (cb_listeners _ _ _ _ _ _ Hcb) as (Hl1 & Hl2 & Hl12 & Hf1 & Hf2). split.
  - unfold timeout_side, side. change (timeout_obj C).2 with to. case_decide as E; [by cbn; rewrite decide_True|].
    assert (El : timeoutListener C = ls.1) by (cbn; by rewrite decide_False). rewrite El. split; [done|].
    destruct (cb_timeout _ _ _ _ _ _ Hcb E) as [v Hv]. eexists. split_and!.
    + rewrite (bl_obj _ _ _ _ _ _ Hb). change (timeout_obj C) with (TRIGGER_DESCRIPTOR, to). by rewrite Hv.
    + cbn. apply elem_of_union. right. unfold atts. apply elem_of_union. left. unfold att. rewrite El, decide_True by done. by apply elem_of_singleton.
    + rewrite (bl_lis _ _ _ _ _ _ Hb), decide_True by (unfold own; rewrite El; auto).
      unfold listener_of. by rewrite El, decide_True.
  - unfold trigger_side, side. change (trigger_obj C).2 with (t_object tr).
    destruct (decide (t_object tr = 0)) as [E|E]; [by cbn; rewrite decide_True|].
    assert (El : triggerListener C = ls.2) by (cbn; by rewrite decide_False). rewrite El. split; [done|].
    destruct (cb_trigger _ _ _ _ _ _ Hcb E) as (v & Hv & _). eexists. split_and!.
    + rewrite (bl_obj _ _ _ _ _ _ Hb). change (trigger_obj C) with (o_of tr). by rewrite Hv.
    + cbn. apply elem_of_union. right. unfold atts. apply elem_of_union. right. unfold att. rewrite El, decide_True by done. by apply elem_of_singleton.
    + rewrite (bl_lis _ _ _ _ _ _ Hb), decide_True by (unfold own; rewrite El; auto).
      unfold listener_of. rewrite decide_False; [done|]. cbn. case_decide; congruence.
Qed.

Lemma blocked_valid C' : valid w' C' = valid w C'.
Proof. unfold valid. rewrite (bl_obj _ _ _ _ _ _ Hb). by destruct (t_type (trigger C')), (o_get w (trigger_obj C')). Qed.

Lemma own_att l : own C l → l ∈ atts C (timeout_obj C) ∨ l ∈ atts C (trigger_obj C).
Proof.
  unfold own, atts, att. intros [H0 [->| ->]]; [left|right]; apply elem_of_union; [left|right];
    (rewrite decide_True by done); by apply elem_of_singleton.
Qed.

Lemma blocked_settled : settled (λ x, exempt x ∨ x = c) w'.
Proof.
  pose proof Hset as [Hs Hp Hw Ha]. destruct (cb_cond _ _ _ _ _ _ Hcb) as (Hc0 & Hcn).
  assert (Hnt : c ∉ task_ids w) by (intros Hin; destruct (s_task _ _ Hs c Hin); congruence).
  assert (Hids : task_ids w' = task_ids w) by (unfold task_ids; by rewrite (bl_tasks _ _ _ _ _ _ Hb)).
  assert (Hcs : ∀ x X, conds (mem w') !! x = Some X → x = c ∧ X = C ∨ x ≠ c ∧ conds (mem w) !! x = Some X).
  { intros x X. rewrite (bl_conds _ _ _ _ _ _ Hb), lookup_insert_Some. intros [[<- <-]|[? ?]]; [by left|by right]. }
  assert (Hcs' : ∀ x X, conds (mem w) !! x = Some X → conds (mem w') !! x = Some X).
  { intros x X HX. rewrite (bl_conds _ _ _ _ _ _ Hb), lookup_insert_ne by congruence. done. }
  assert (HcC : conds (mem w') !! c = Some C) by (rewrite (bl_conds _ _ _ _ _ _ Hb); apply lookup_insert_eq).
  assert (Hps : ∀ p, is_Some (procs (mem w) !! p) → is_Some (procs (mem w') !! p)).
  { intros p Hx. rewrite (bl_procs _ _ _ _ _ _ Hb). apply lookup_insert_is_Some. destruct (decide (c_proc C = p)); auto. }
  destruct (s_thr _ _ Hs t T HT) as (Ht0 & Hp0 & Hpe & Htr & _). split.
  - rewrite Hids. split.
    + exact (s_nodup _ _ Hs).
    + intros x Hx. destruct (s_task _ _ Hs x Hx) as [X HX]. exists X. by apply Hcs'.
    + intros x X [[-> ->]|[Hne HX]]%Hcs.
      * destruct new_sides as [N1 N2]. split; [done| | |done|done].
        -- exists ((thread_more T) <| th_cond := c |>), (proc_more P). split_and!; try done.
           ++ rewrite (bl_threads _ _ _ _ _ _ Hb). apply lookup_insert_eq.
           ++ rewrite (bl_procs _ _ _ _ _ _ Hb). apply lookup_insert_eq.
        -- rewrite bool_decide_false by done. cbn. unfold n_listeners. cbn. lia.
      * destruct (s_cond _ _ Hs x X HX) as [H1 (T' & P' & H2 & H3 & H4 & H5) H6 H7 H8]. split; [done| |done|by apply blocked_side..].
        destruct (Hps (c_proc X)) as [P'' HP'']; [by exists P'|]. exists T', P''. split_and!; try done.
        rewrite (bl_threads _ _ _ _ _ _ Hb), lookup_insert_ne; [done|]. change (c_thread C) with t. intros E.
        rewrite <-E, HT in H2. injection H2 as <-. congruence.
    + intros o v l Hv Hin. rewrite (bl_obj _ _ _ _ _ _ Hb), fmap_Some in Hv. destruct Hv as (v0 & Hv0 & ->). cbn in Hin.
      apply elem_of_union in Hin as [Hin|Hin]; [|by exists c, C].
      destruct (s_att _ _ Hs o v0 l Hv0 Hin) as (x & X & HX & Hx). exists x, X. split; [by apply Hcs'|done].
    + intros l s Hl. rewrite (bl_lis _ _ _ _ _ _ Hb) in Hl. case_decide as Eo; [by exists c, C|].
      destruct (s_lis _ _ Hs l s Hl) as (x & X & HX & Hx). exists x, X. split; [by apply Hcs'|done].
    + intros t' T'. rewrite (bl_threads _ _ _ _ _ _ Hb), lookup_insert_Some. change (c_thread C) with t. intros [[<- <-]|[Hne HT']].
      * split_and!; [done|done|by apply Hps| |by exists C]. cbn. rewrite (proj2 (Z.eqb_neq _ _) Hc0). rewrite HTc in Htr. cbn in *. lia.
      * destruct (s_thr _ _ Hs t' T' HT') as (S1 & S2 & S3 & S4 & S5). split_and!; [done|done|by apply Hps|done|].
        intros H0. destruct (S5 H0) as (X & HX & E). exists X. split; [by apply Hcs'|done].
    + assert (E : ∀ p, members w' p = ((if decide (c_proc C = p) then 1 else 0) + members w p)%nat).
      { intros q. unfold members. rewrite (bl_conds _ _ _ _ _ _ Hb). by rewrite total_insert. }
      intros p P'. rewrite (bl_procs _ _ _ _ _ _ Hb), lookup_insert_Some, E. intros [[<- <-]|[Hne HP']].
      * rewrite decide_True by done. pose proof (s_proc _ _ Hs _ _ HP). cbn -[Z.of_nat] in *. change (c_proc C) with (th_process T). lia.
      * rewrite decide_False by done. exact (s_proc _ _ Hs _ _ HP').
    + intros o v Hv. rewrite (bl_obj _ _ _ _ _ _ Hb), fmap_Some in Hv. destruct Hv as (v0 & Hv0 & ->). cbn.
      assert (E : uses w' o = (holds C o + uses w o)%nat) by (unfold uses; rewrite (bl_conds _ _ _ _ _ _ Hb); by rewrite total_insert).
      rewrite E. destruct (s_obj _ _ Hs o v0 Hv0) as [G1 G2]. unfold holds, grabs.
      change (trigger_obj C) with (o_of tr). change (trigger C) with tr.
      destruct (decide (o = timeout_obj C ∧ timeout C ≠ 0)); destruct (decide (o = o_of tr ∧ t_object tr ≠ 0)) as [[Eo Et]|];
        destruct (decide (o = o_of tr ∧ t_object tr ≠ 0 ∧ t_type tr ≠ TRIGGER_POSIX_FILE)) as [(?&?&?)|Hnf]; try tauto; try lia;
        (destruct (decide (t_type tr = TRIGGER_POSIX_FILE)) as [Ef|]; [|tauto]);
        destruct (cb_trigger _ _ _ _ _ _ Hcb Et) as (v1 & Hv1 & Hf); rewrite <-Eo, Hv0 in Hv1; injection Hv1 as <-;
        specialize (Hf Ef); rewrite <-Eo in Hf; lia.
  - rewrite Hids. intros x X [[-> ->]|[Hne HX]]%Hcs; [by rewrite bool_decide_false|exact (Hp x X HX)].
  - rewrite (bl_tasks _ _ _ _ _ _ Hb). intros x X Hin [[-> ->]|[Hne HX]]%Hcs; [|exact (Hw x X Hin HX)].
    exfalso. apply Hnt. apply list_elem_of_fmap. by exists (c, false).
  - intros x X Hx HX Hnp Hst. rewrite blocked_valid. apply Hcs in HX as [[-> ->]|[Hne HX]]; [by destruct Hx; right|].
    apply (Ha x X); tauto.
Qed.
End Blocked.

Lemma block_ok w t c tr to ls :
  inv exempt w → can_block w t c tr to ls →
  ∃ w' T P, block w t c tr to ls = Some w' ∧ threads (mem w) !! t = Some T ∧
    blocked w w' c (waiting_cond tr to (th_process T) t ls) P T ∧ inv (λ x, exempt x ∨ x = c) w'.
Proof.
  intros [Hset Hrun] Hcb. destruct (cb_thread _ _ _ _ _ _ Hcb) as (T & P & HT & HTc & HP & Hex).
  destruct (block_runs _ w t c tr to ls T P (i_sound _ Hset) Hcb HT HP) as (w' & E & Hb).
  exists w', T, P. split_and!; [done..|]. split; [by eapply blocked_settled|].
  intros x X P'. rewrite (bl_conds _ _ _ _ _ _ Hb), (bl_procs _ _ _ _ _ _ Hb), !lookup_insert_Some.
  change (c_proc (waiting_cond tr to (th_process T) t ls)) with (th_process T).
  intros [[<- <-]|[Hne HX]] [[E1 <-]|[Hne' HP']].
  - exact Hex.
  - by destruct Hne'.
  - change (p_isExiting (proc_more P)) with (p_isExiting P). rewrite E1 in HP. by eapply Hrun.
  - by eapply Hrun.
Qed.
(** ** Notifications *)

(** What is settled, but for the statuses. *)
Record steady w : Prop := {
  y_sound : sound (task_ids w) w;
  y_pending : ∀ c C, conds (mem w) !! c = Some C → signalPending C = bool_decide (c ∈ task_ids w);
  y_why : ∀ c C, (c, false) ∈ tasks (mem w) → conds (mem w) !! c = Some C → t_object (trigger C) ≠ 0;
}.

Lemma settled_steady w : settled exempt w ↔ steady w ∧ awake exempt w.
Proof. split; [intros [a b c d]; split; [split|]; done|intros [[a b c] d]; split; done]. Qed.

Definition pending w (c : Z) : Prop := ∃ C, conds (mem w) !! c = Some C ∧ signalPending C = true.

(** Conditions are marked, and tasks are scheduled for them. *)
Record progress w w' : Prop := {
  pg_obj : ∀ o, o_get w' o = o_get w o;
  pg_lis : statuslisteners w' = statuslisteners w;
  pg_threads : threads (mem w') = threads (mem w);
  pg_procs : procs (mem w') = procs (mem w);
  pg_continued : continued (mem w') = continued (mem w);
  pg_tasks : ∃ ts, tasks (mem w') = tasks (mem w) ++ ts;
  pg_conds : ∀ c, option_Forall2 (λ C C', same_cond C C' ∧ (signalPending C = true → signalPending C' = true))
                    (conds (mem w) !! c) (conds (mem w') !! c);
}.

Lemma same_cond_refl C : same_cond C C.
Proof. by repeat split. Qed.

Lemma progress_refl w : progress w w.
Proof.
  split; try done; [exists []; by rewrite app_nil_r|].
  intros c. destruct (conds (mem w) !! c); constructor. split; [apply same_cond_refl|done].
Qed.

Lemma progress_trans w1 w2 w3 : progress w1 w2 → progress w2 w3 → progress w1 w3.
Proof.
  intros [A1 A2 A3 A4 A5 [ts1 A6] A7] [B1 B2 B3 B4 B5 [ts2 B6] B7]. split; try congruence.
  - exists (ts1 ++ ts2). by rewrite B6, A6, app_assoc.
  - intros c. specialize (A7 c). specialize (B7 c).
    inversion A7 as [C C1 [S1 P1] E1 E2|E1 E2]; rewrite <-E2 in B7; inversion B7 as [? C2 [S2 P2] E3 E4|E3 E4]; subst; constructor.
    split; [|by auto]. destruct S1 as (?&?&?&?&?&?), S2 as (?&?&?&?&?&?). unfold same_cond. split_and!; congruence.
Qed.

Lemma progress_pending w w' c : progress w w' → pending w c → pending w' c.
Proof.
  intros H (C & HC & Hp). pose proof (pg_conds _ _ H c) as X. rewrite HC in X. inversion X as [? C' [_ HP] E1 E2|]; subst.
  exists C'. auto.
Qed.

Lemma progress_cond w w' c C' : progress w w' → conds (mem w') !! c = Some C' →
  ∃ C, conds (mem w) !! c = Some C ∧ same_cond C C' ∧ (signalPending C = true → signalPending C' = true).
Proof.
  intros H HC'. pose proof (pg_conds _ _ H c) as X. rewrite HC' in X. inversion X as [C ? HP E1 E2|]; subst. by exists C.
Qed.

(** Objects themselves are not touched. *)
Definition quiet w w' : Prop :=
  descriptors w' = descriptors w ∧ files (mem w') = files (mem w) ∧ Futex.memory (external w') = Futex.memory (external w).

Lemma schedule_ok w c C b :
  steady w → conds (mem w) !! c = Some C → signalPending C = false → (b = false → t_object (trigger C) ≠ 0) →
  ∃ w', _syscallcondition_scheduleSignalTask w c b = Some w' ∧ steady w' ∧ progress w w' ∧ quiet w w' ∧ pending w' c.
Proof.
  intros [Hs Hp Hw] HC Hnp Hb. unfold _syscallcondition_scheduleSignalTask, syscallcondition_ref.
  set (w0 := on_mem w _). assert (HC0 : get_cond w0 c = Some C) by exact HC.
  rewrite (update_cond_some w0 c C _ HC0). cbn [mbind option_bind]. rewrite (update_cond_some _ c _ _ (get_set_cond _ _ _)).
  set (C' := (C <| c_referenceCount := c_referenceCount C + 1 |>) <| signalPending := true |>).
  eexists. split; [done|]. set (w' := set_cond _ c C').
  assert (Ec : conds (mem w') = <[c := C']> (conds (mem w))) by (unfold w', w0; cbn; by rewrite insert_insert_eq).
  assert (Et : tasks (mem w') = tasks (mem w) ++ [(c, b)]) by done.
  assert (Ei : task_ids w' = task_ids w ++ [c]) by (unfold task_ids; by rewrite Et, fmap_app).
  rewrite (Hp c C HC) in Hnp. apply bool_decide_eq_false in Hnp.
  assert (Hin : ∀ x, x ≠ c → x ∈ task_ids w ++ [c] ↔ x ∈ task_ids w) by (intros x Hx; rewrite elem_of_app, list_elem_of_singleton; tauto).
  split_and!.
  - split.
    + rewrite Ei. apply (sound_mark (task_ids w) _ w w' c C C' Hs HC); try done.
      * apply NoDup_app. split_and!; [exact (s_nodup _ _ Hs)|by intros x Hx ->%list_elem_of_singleton|apply NoDup_singleton].
      * rewrite bool_decide_true by (rewrite elem_of_app, list_elem_of_singleton; by right).
        change (c_referenceCount C') with (c_referenceCount C + 1).
        rewrite (co_refs _ _ _ _ (s_cond _ _ Hs c C HC)), bool_decide_false by done. cbn [Z.b2z]. lia.
    + intros x X. rewrite Ec, lookup_insert_Some, Ei. intros [[<- <-]|[Hne HX]].
      * rewrite bool_decide_true; [done|]. rewrite elem_of_app, list_elem_of_singleton. by right.
      * rewrite (Hp x X HX). apply bool_decide_ext. symmetry. by apply Hin.
    + intros x X. rewrite Et, elem_of_app, list_elem_of_singleton, Ec, lookup_insert_Some. intros Hx [[<- <-]|[Hne HX]].
      * destruct Hx as [Hx|[= Eb]]; [exact (Hw c C Hx HC)|by apply Hb].
      * destruct Hx as [Hx|[= E _]]; [exact (Hw x X Hx HX)|congruence].
  - split; try done; [by exists [(c, b)]|]. intros x. rewrite Ec. destruct (decide (c = x)) as [<-|Hne].
    + rewrite lookup_insert_eq, HC. constructor. by split.
    + rewrite lookup_insert_ne by done. destruct (conds (mem w) !! x); constructor. split; [apply same_cond_refl|done].
  - done.
  - exists C'. rewrite Ec, lookup_insert_eq. done.
Qed.

Lemma own_listener_kind ts w c C l : sound ts w → conds (mem w) !! c = Some C → own C l →
  (∃ mon filt, l = timeoutListener C ∧ statuslisteners w !! l = Some (own_listener mon filt NOTIFY_TIMEOUT c 2)) ∨
  (∃ v, l = triggerListener C ∧ t_object (trigger C) ≠ 0 ∧ o_get w (trigger_obj C) = Some v ∧ l ∈ v_listeners v ∧
     statuslisteners w !! l = Some (own_listener (t_status (trigger C)) (trigger_filter (trigger C)) NOTIFY_STATUS c 2)).
Proof.
  intros Hs HC [Hl [E|E]]; pose proof (s_cond _ _ Hs c C HC) as Hok.
  - left. do 2 eexists. split; [done|]. eapply side_own; [exact (co_timeout _ _ _ _ Hok)|by rewrite <-E|done].
  - right. pose proof (co_trigger _ _ _ _ Hok) as H. unfold trigger_side, side in H. rewrite <-E in H.
    change ((trigger_obj C).2) with (t_object (trigger C)) in H. case_decide as E0; [done|].
    destruct H as (_ & v & Hv & Hin & Hls). by exists v.
Qed.

(** A listener is told of a change. *)
Lemma onStatusChanged_ok w l s st changed :
  steady w → statuslisteners w !! l = Some s →
  ∃ w', statuslistener_onStatusChanged notify w l st changed =
          Some (w', if _statuslistener_shouldNotify s st changed then [l] else []) ∧
    steady w' ∧ progress w w' ∧ quiet w w' ∧
    (_statuslistener_shouldNotify s st changed = true → pending w' (callbackObject s)).
Proof.
  intros Hy Hl. unfold statuslistener_onStatusChanged. rewrite Hl. cbn [mbind option_bind].
  destruct (_statuslistener_shouldNotify s st changed).
  2:{ exists w. split_and!; [done|done|apply progress_refl|done|done]. }
  unfold _statuslistener_invokeNotifyFunc. rewrite Hl. cbn [mbind option_bind].
  pose proof (y_sound _ Hy) as Hs. destruct (s_lis _ _ Hs l s Hl) as (c & C & HC & Ho).
  assert (∃ w', notify w (notifyFunc s) (callbackObject s) (callbackArgument s) = Some w' ∧ notifyFunc s ≠ 0 ∧ steady w' ∧
    progress w w' ∧ quiet w w' ∧ pending w' (callbackObject s)) as (w' & -> & Hf & H).
  { assert (Hsig : ∀ b, (b = false → t_object (trigger C) ≠ 0) → ∃ w',
      (C ← get_cond w c; if negb (signalPending C) then _syscallcondition_scheduleSignalTask w c b else Some w) = Some w' ∧
      steady w' ∧ progress w w' ∧ quiet w w' ∧ pending w' c).
    { intros b Hb. unfold get_cond. rewrite HC. cbn [mbind option_bind]. destruct (signalPending C) eqn:Ep; cbn [negb].
      - exists w. split_and!; [done|done|apply progress_refl|done|by exists C].
      - by apply (schedule_ok w c C b). }
    destruct (own_listener_kind _ w c C l Hs HC Ho) as [(mon & filt & El & E)|(v & El & E0 & _ & _ & E)];
      rewrite Hl in E; injection E as ->.
    - destruct (Hsig true) as (w' & E & H); [done|]. exists w'. split; [exact E|]. by split.
    - destruct (Hsig false) as (w' & E & H); [done|]. exists w'. split; [exact E|]. by split. }
  rewrite (proj2 (Z.eqb_neq _ _) Hf). cbn [negb mbind option_bind]. exists w'. destruct H as (?&?&?&?). by split_and!.
Qed.

Lemma conditions_told_ok d desc old items : ∀ w,
  steady w → descriptors w !! d = Some desc →
  (∀ l, l ∈ items → l ∈ listeners desc ∧ is_Some (statuslisteners w !! l)) →
  ∃ w' called, notify_loop notify w d old (Z.lxor (status desc) old) items = Some (w', called) ∧
    steady w' ∧ progress w w' ∧ quiet w w' ∧
    (∀ l s, l ∈ items → statuslisteners w !! l = Some s →
       _statuslistener_shouldNotify s (status desc) (Z.lxor (status desc) old) = true → pending w' (callbackObject s)).
Proof.
  induction items as [|l items IH]; intros w Hy Hd Hin; cbn [notify_loop].
  - exists w, []. split_and!; [done|done|apply progress_refl|done|]. intros l s Hl. by apply not_elem_of_nil in Hl.
  - destruct (Z.eqb_spec (Z.lxor (status desc) old) 0) as [E|E].
    + exists w, []. split_and!; [done|done|apply progress_refl|done|]. intros l' s _ _. rewrite E.
      unfold _statuslistener_shouldNotify, has_flag. rewrite Z.land_0_r. by destruct (filter s).
    + rewrite Hd. cbn [mbind option_bind]. destruct (Hin l) as [Hl [s Hs]]; [left|]. rewrite bool_decide_true by done.
      destruct (onStatusChanged_ok w l s (status desc) (Z.lxor (status desc) old) Hy Hs) as (w1 & -> & Hy1 & P1 & Q1 & N1).
      cbn [mbind option_bind]. pose proof Q1 as (Q1a & Q1b & Q1c). rewrite Q1a, Hd. cbn [mbind option_bind].
      destruct (IH w1) as (w2 & called & -> & Hy2 & P2 & Q2 & N2); [done|by rewrite Q1a| |].
      { intros l' Hl'. rewrite (pg_lis _ _ P1). apply Hin. by right. }
      cbn [mbind option_bind]. do 2 eexists. split; [done|]. split_and!; [done|by eapply progress_trans| |].
      * destruct Q2 as (?&?&?). split_and!; congruence.
      * intros l' s' Hl' Hs' Hn'. apply elem_of_cons in Hl' as [->|Hl'].
        -- rewrite Hs in Hs'. injection Hs' as <-. eapply progress_pending; [exact P2|by apply N1].
        -- apply (N2 l' s' Hl'); [by rewrite (pg_lis _ _ P1)|done].
Qed.

Lemma file_listeners_told_ok st changed items : ∀ w,
  steady w → (∀ l, l ∈ items → is_Some (statuslisteners w !! l)) →
  ∃ w', run_listeners w st changed items = Some w' ∧ steady w' ∧ progress w w' ∧
    (∀ l s, l ∈ items → statuslisteners w !! l = Some s →
       _statuslistener_shouldNotify s st changed = true → pending w' (callbackObject s)).
Proof.
  induction items as [|l items IH]; intros w Hy Hin; cbn [run_listeners].
  - exists w. split_and!; [done|done|apply progress_refl|]. intros l s Hl. by apply not_elem_of_nil in Hl.
  - destruct (Hin l) as [s Hs]; [left|].
    destruct (onStatusChanged_ok w l s st changed Hy Hs) as (w1 & -> & Hy1 & P1 & Q1 & N1).
    cbn [mbind option_bind]. destruct (IH w1) as (w2 & -> & Hy2 & P2 & N2); [done| |].
    { intros l' Hl'. rewrite (pg_lis _ _ P1). apply Hin. by right. }
    exists w2. split_and!; [done|done|by eapply progress_trans|].
    intros l' s' Hl' Hs' Hn'. apply elem_of_cons in Hl' as [->|Hl'].
    + rewrite Hs in Hs'. injection Hs' as <-. eapply progress_pending; [exact P2|by apply N1].
    + apply (N2 l' s' Hl'); [by rewrite (pg_lis _ _ P1)|done].
Qed.
(** *** Status changes *)

Lemma steady_status w w0 : steady w → status_change w w0 → steady w0.
Proof.
  intros [Hs Hp Hw] Hc. pose proof (sc_mem _ _ Hc) as (M1 & M2 & _).
  assert (E : task_ids w0 = task_ids w) by (unfold task_ids; by rewrite M2).
  split; rewrite ?E, ?M1, ?M2; [|done..]. by eapply sound_status.
Qed.

Lemma turned_on old st mon : has_flag old mon = false → has_flag st mon = true →
  has_flag mon (Z.lxor st old) && has_flag mon st = true.
Proof.
  unfold has_flag. rewrite !negb_true_iff, negb_false_iff, Z.eqb_eq, Z.eqb_neq. intros Ho Hs.
  apply andb_true_iff. rewrite !negb_true_iff, !Z.eqb_neq, !(Z.land_comm mon). split; [|done].
  intros E. apply Hs. apply Z.bits_inj'. intros k Hk. rewrite Z.bits_0.
  assert (Eo : Z.testbit (Z.land old mon) k = false) by (rewrite Ho; apply Z.bits_0).
  assert (Ex : Z.testbit (Z.land (Z.lxor st old) mon) k = false) by (rewrite E; apply Z.bits_0).
  revert Eo Ex. rewrite !Z.land_spec, Z.lxor_spec.
  by destruct (Z.testbit st k), (Z.testbit old k), (Z.testbit mon k).
Qed.

(** The object [o] went from one status to another, and its listeners were
    told. *)
Lemma told_settled w w0 w' o v st :
  settled exempt w → o_get w o = Some v → o_upd w w0 o (Some (mkView st (v_refs v) (v_listeners v))) →
  status_change w w0 → steady w' → progress w0 w' →
  (∀ l s, l ∈ v_listeners v → statuslisteners w !! l = Some s →
     _statuslistener_shouldNotify s st (Z.lxor st (v_status v)) = true → pending w' (callbackObject s)) →
  settled exempt w'.
Proof.
  intros Hset Hv Hu Hc Hy Hpg Hn. apply settled_steady. split; [done|]. intros c C' Hx HC' Hnp Hst.
  destruct (progress_cond _ _ _ _ Hpg HC') as (C & HC & (F1 & F2 & F3 & F4 & F5 & F6) & Hmono).
  pose proof (sc_mem _ _ Hc) as (M1 & _). rewrite M1 in HC.
  assert (Hnp0 : signalPending C = false) by (destruct (signalPending C); [by rewrite Hmono in Hnp|done]).
  assert (Hst0 : has_status C = true) by (unfold has_status in *; by rewrite <-F1).
  pose proof (i_awake _ Hset c C Hx HC Hnp0 Hst0) as Hva. unfold valid in *. unfold trigger_obj in *. rewrite F1 in *.
  rewrite (pg_obj _ _ Hpg), (Hu (o_of (trigger C))). case_decide as Eo; [|exact Hva]. subst o. cbn. rewrite Hv in Hva.
  assert (Ht : t_type (trigger C) = TRIGGER_DESCRIPTOR ∨ t_type (trigger C) = TRIGGER_POSIX_FILE).
  { unfold has_status in Hst0. destruct (t_type (trigger C)); rewrite ?andb_false_r in Hst0; auto; done. }
  assert (Hflag : has_flag (v_status v) (t_status (trigger C)) = false) by (destruct Ht as [E|E]; by rewrite E in Hva).
  destruct (has_flag st (t_status (trigger C))) eqn:Ef; [|by destruct Ht as [E|E]; rewrite E].
  pose proof (co_trigger _ _ _ _ (s_cond _ _ (i_sound _ Hset) c C HC)) as Hside.
  unfold trigger_side, side in Hside. rewrite decide_False in Hside by exact (has_status_object _ Hst0).
  destruct Hside as (_ & v1 & Hv1 & Hin & Hls). change (trigger_obj C) with (o_of (trigger C)) in Hv1. rewrite Hv in Hv1. injection Hv1 as <-.
  destruct (Hn _ _ Hin Hls) as (C2 & HC2 & Hp2).
  - rewrite decide_False by (destruct Ht as [E|E]; by rewrite E). by apply turned_on.
  - cbn in HC2. congruence.
Qed.

Lemma progress_running w w' : progress w w' → running w → running w'.
Proof.
  intros H Hr c C P HC. destruct (progress_cond _ _ _ _ H HC) as (C0 & HC0 & (F1 & F2 & F3 & F4 & F5 & F6) & _).
  rewrite (pg_procs _ _ H), F5. exact (Hr c C0 P HC0).
Qed.

(** A status changes and what depends on it keeps its order. *)
Lemma view_status_change w w0 o v st :
  o_get w o = Some v → o_upd w w0 o (Some (mkView st (v_refs v) (v_listeners v))) →
  statuslisteners w0 = statuslisteners w → same_mem w w0 → status_change w w0.
Proof.
  intros Hv Hu Hl Hm. split; [|done..]. intros o'. rewrite (Hu o'). case_decide as E; [subst o'; rewrite Hv; by constructor|].
  destruct (o_get w o'); constructor. done.
Qed.

Lemma listed w o v l : settled exempt w → o_get w o = Some v → l ∈ v_listeners v → is_Some (statuslisteners w !! l).
Proof.
  intros H Hv Hl. pose proof (i_sound _ H) as Hs. destruct (s_att _ _ Hs o v l Hv Hl) as (c & C & HC & Ho%atts_own).
  destruct (own_listener_of _ _ _ _ _ (s_cond _ _ Hs c C HC) Ho) as (?&?&?&E). by eexists.
Qed.

Record told w w' (o : Obj) (v : View) (st : Z) : Prop := {
  td_inv : inv exempt w';
  td_obj : o_upd w w' o (Some (mkView st (v_refs v) (v_listeners v)));
  td_continued : continued (mem w') = continued (mem w);
  td_pending : ∀ c, pending w c → pending w' c;
}.

Lemma told_intro w w0 w' o v st :
  inv exempt w → o_get w o = Some v → o_upd w w0 o (Some (mkView st (v_refs v) (v_listeners v))) →
  status_change w w0 → steady w' → progress w0 w' →
  (∀ l s, l ∈ v_listeners v → statuslisteners w !! l = Some s →
     _statuslistener_shouldNotify s st (Z.lxor st (v_status v)) = true → pending w' (callbackObject s)) →
  told w w' o v st.
Proof.
  intros [Hset Hrun] Hv Hu Hc Hy Hpg Hn. pose proof (sc_mem _ _ Hc) as (M1 & M2 & M3 & M4 & M5). split.
  - split; [by eapply told_settled|]. apply (progress_running w0); [done|]. unfold running. rewrite M1, M4. exact Hrun.
  - intros o'. rewrite (pg_obj _ _ Hpg). apply Hu.
  - by rewrite (pg_continued _ _ Hpg).
  - intros c (C & HC & Hp). apply (progress_pending w0); [done|]. exists C. by rewrite M1.
Qed.

Lemma adjustStatus_ok w d desc bits doSet :
  inv exempt w → descriptors w !! d = Some desc →
  ∃ w' called v, descriptor_adjustStatus notify w d bits doSet = Some (w', called) ∧ o_get w (TRIGGER_DESCRIPTOR, d) = Some v ∧
    v_status v = status desc ∧ told w w' (TRIGGER_DESCRIPTOR, d) v (adjusted (status desc) bits doSet).
Proof.
  intros Hinv Hd. pose proof Hinv as [Hset Hrun]. unfold descriptor_adjustStatus. rewrite Hd. cbn [mbind option_bind].
  set (desc' := set_status desc bits doSet). set (w0 := w <| descriptors := _ |>).
  set (v := mkView (status desc) (referenceCount desc) (list_to_set (listeners desc))).
  assert (Hv : o_get w (TRIGGER_DESCRIPTOR, d) = Some v) by (cbn; by rewrite Hd).
  assert (Hu : o_upd w w0 (TRIGGER_DESCRIPTOR, d) (Some (mkView (status desc') (v_refs v) (v_listeners v)))) by exact (desc_upd w d desc').
  pose proof (view_status_change w w0 _ v _ Hv Hu eq_refl (same_mem_refl w)) as Hc.
  assert (Hy : steady w0) by (eapply steady_status; [by apply settled_steady in Hset as [? _]|done]).
  assert (Hd0 : descriptors w0 !! d = Some desc') by (unfold w0; cbn; apply lookup_insert_eq).
  unfold _descriptor_handleStatusChange. rewrite Hd0. cbn [mbind option_bind].
  change (adjusted (status desc) bits doSet) with (status desc').
  destruct (Z.eqb_spec (Z.lxor (status desc') (status desc)) 0) as [E|E].
  - exists w0, [], v. split_and!; [done..|]. apply (told_intro w w0); try done; [apply progress_refl|].
    intros l s _ _. change (v_status v) with (status desc). rewrite E.
    unfold _statuslistener_shouldNotify, has_flag. rewrite Z.land_0_r. by destruct (filter s).
  - destruct (conditions_told_ok d desc' (status desc) (listeners desc') w0 Hy Hd0) as (w' & called & E1 & Hy' & P & Q & N).
    { intros l Hl. split; [done|]. apply (listed w _ v l Hset Hv). by apply elem_of_list_to_set. }
    exists w', called, v. split_and!; [exact E1|done..|]. apply (told_intro w w0); try done.
    intros l s Hl%elem_of_list_to_set Hs Hsn. by apply (N l s).
Qed.

Lemma setStatus_ok w a f st :
  inv exempt w → files (mem w) !! a = Some f →
  ∃ w' v, posixfile_setStatus w a st = Some w' ∧ o_get w (TRIGGER_POSIX_FILE, a) = Some v ∧
    v_status v = Epoll.file_status f ∧ told w w' (TRIGGER_POSIX_FILE, a) v st.
Proof.
  intros Hinv Hf. pose proof Hinv as [Hset Hrun]. unfold posixfile_setStatus. rewrite Hf. cbn [mbind option_bind].
  set (f' := f <| Epoll.file_status := st |>). set (w0 := set_file w a f').
  set (v := mkView (Epoll.file_status f) (Epoll.file_refs f) (list_to_set (Epoll.file_listeners f))).
  assert (Hv : o_get w (TRIGGER_POSIX_FILE, a) = Some v) by (cbn; by rewrite Hf).
  assert (Hu : o_upd w w0 (TRIGGER_POSIX_FILE, a) (Some (mkView st (v_refs v) (v_listeners v)))) by exact (file_upd w a f').
  assert (Hm : same_mem w w0) by done.
  pose proof (view_status_change w w0 _ v _ Hv Hu eq_refl Hm) as Hc.
  assert (Hy : steady w0) by (eapply steady_status; [by apply settled_steady in Hset as [? _]|done]).
  destruct (Z.eqb_spec (Z.lxor st (Epoll.file_status f)) 0) as [E|E].
  - exists w0, v. split_and!; [done..|]. apply (told_intro w w0); try done; [apply progress_refl|].
    intros l s _ _. change (v_status v) with (Epoll.file_status f). rewrite E.
    unfold _statuslistener_shouldNotify, has_flag. rewrite Z.land_0_r. by destruct (filter s).
  - destruct (file_listeners_told_ok st (Z.lxor st (Epoll.file_status f)) (Epoll.file_listeners f) w0 Hy) as (w' & E1 & Hy' & P & N).
    { intros l Hl. apply (listed w _ v l Hset Hv). by apply elem_of_list_to_set. }
    exists w', v. split_and!; [exact E1|done..|]. apply (told_intro w w0); try done.
    intros l s Hl%elem_of_list_to_set Hs Hsn. by apply (N l s).
Qed.
(** *** Wake-ups of a futex *)

Lemma view_same_progress w w0 :
  (∀ o, o_get w0 o = o_get w o) → statuslisteners w0 = statuslisteners w → mem w0 = mem w → progress w w0.
Proof.
  intros Ho Hl Hm. split; rewrite ?Hm; try done; [exists []; by rewrite app_nil_r|].
  intros c. destruct (conds (mem w) !! c); constructor. split; [apply same_cond_refl|done].
Qed.

Lemma view_same_steady w w0 :
  (∀ o, o_get w0 o = o_get w o) → statuslisteners w0 = statuslisteners w → mem w0 = mem w → steady w → steady w0.
Proof.
  intros Ho Hl Hm Hy. apply (steady_status w); [done|]. split; [|done|unfold same_mem; by rewrite Hm].
  intros o. rewrite Ho. destruct (o_get w o); constructor. done.
Qed.

Lemma wake_loop_settled a n items : ∀ w k,
  steady w → is_Some (Futex.memory (external w) !! a) →
  ∃ w' m called, Futex.wake_loop notify w a n k items = Some (w', m, called) ∧ steady w' ∧ progress w w' ∧
    (∀ l s, l ∈ called → statuslisteners w !! l = Some s → pending w' (callbackObject s)).
Proof.
  induction items as [|l items IH]; intros w k Hy [f Hf]; cbn [Futex.wake_loop].
  { exists w, k, []. split_and!; [done|done|apply progress_refl|]. intros l s Hl. by apply not_elem_of_nil in Hl. }
  destruct (negb (k <? n)).
  { exists w, k, []. split_and!; [done|done|apply progress_refl|]. intros l' s Hl. by apply not_elem_of_nil in Hl. }
  rewrite Hf. cbn [mbind option_bind]. destruct (Futex.f_listeners f !! l) as [[]|] eqn:El; [apply IH; eauto| |apply IH; eauto].
  pose proof (y_sound _ Hy) as Hs.
  assert (Hv : o_get w (TRIGGER_FUTEX, a) =
    Some (mkView STATUS_FUTEX_WAKEUP (Futex.f_referenceCount f) (dom (Futex.f_listeners f)))) by (cbn; by rewrite Hf).
  destruct (s_att _ _ Hs _ _ l Hv) as (c & C & HC & Ho%atts_own); [by apply elem_of_dom_2 in El|].
  destruct (own_listener_of _ _ _ _ _ (s_cond _ _ Hs c C HC) Ho) as (mon & filt & func & Els).
  destruct (onStatusChanged_ok w l _ STATUS_FUTEX_WAKEUP STATUS_FUTEX_WAKEUP Hy Els) as (w1 & -> & Hy1 & P1 & Q1 & N1).
  cbn [mbind option_bind]. destruct Q1 as (Q1a & Q1b & Q1c). rewrite Q1c, Hf. cbn [mbind option_bind].
  set (f' := f <| Futex.f_listeners := <[l := true]> (Futex.f_listeners f) |>).
  set (w2 := Futex.on_memory w1 <[a := f']>).
  assert (Ho2 : ∀ o, o_get w2 o = o_get w1 o).
  { intros o. unfold w2. rewrite (futex_upd w1 a f' o). case_decide as E; [|done]. subst o.
    rewrite (pg_obj _ _ P1), Hv. cbn. do 2 f_equal. rewrite dom_insert_L. apply elem_of_dom_2 in El.
    apply set_eq. intros x. rewrite elem_of_union, elem_of_singleton. split; [intros [->|?]; done|by right]. }
  destruct (IH w2 (u32 (k + 1))) as (w3 & m & called & -> & Hy3 & P3 & N3).
  { by apply (view_same_steady w1). }
  { unfold w2. cbn. rewrite lookup_insert_eq. by eexists. }
  cbn [mbind option_bind]. assert (P2 : progress w1 w2) by (by apply view_same_progress).
  do 3 eexists. split; [done|]. split_and!; [done|by eapply progress_trans, progress_trans|].
  intros l' s' Hl' Hs'. apply elem_of_app in Hl' as [Hl'|Hl'].
  - destruct (_statuslistener_shouldNotify _ _ _) eqn:En; [|by apply not_elem_of_nil in Hl'].
    apply list_elem_of_singleton in Hl' as ->. rewrite Els in Hs'. injection Hs' as <-.
    eapply progress_pending; [exact P3|]. eapply progress_pending; [exact P2|by apply N1].
  - apply (N3 l' s' Hl'). unfold w2. cbn. by rewrite (pg_lis _ _ P1).
Qed.

Lemma progress_inv w w' : inv exempt w → steady w' → progress w w' → inv exempt w'.
Proof.
  intros [Hset Hrun] Hy Hpg. split; [|by apply (progress_running w)]. apply settled_steady. split; [done|].
  intros c C' Hx HC' Hnp Hst.
  destruct (progress_cond _ _ _ _ Hpg HC') as (C & HC & (F1 & F2 & F3 & F4 & F5 & F6) & Hmono).
  assert (Hnp0 : signalPending C = false) by (destruct (signalPending C); [by rewrite Hmono in Hnp|done]).
  assert (Hst0 : has_status C = true) by (unfold has_status in *; by rewrite <-F1).
  pose proof (i_awake _ Hset c C Hx HC Hnp0 Hst0) as Hva. unfold valid, trigger_obj in *. rewrite F1, (pg_obj _ _ Hpg). exact Hva.
Qed.

Lemma wake_ok keys w a n :
  inv exempt w → is_Some (Futex.memory (external w) !! a) →
  ∃ w' m called, Futex.futex_wake notify keys w a n = Some (w', m, called) ∧ inv exempt w' ∧ progress w w' ∧
    (∀ l s, l ∈ called → statuslisteners w !! l = Some s → pending w' (callbackObject s)).
Proof.
  intros Hinv [f Hf]. unfold Futex.futex_wake. rewrite Hf. cbn [mbind option_bind].
  pose proof Hinv as [[Hy _]%settled_steady _].
  destruct (wake_loop_settled a n (keys (Futex.f_listeners f)) w 0 Hy) as (w' & m & called & -> & Hy' & P & N); [by exists f|].
  exists w', m, called. split_and!; [done|by eapply progress_inv|done|done].
Qed.

(** *** An object loses a reference of the rest of the program *)

Lemma object_close_ok w o v :
  inv exempt w → o_get w o = Some v → o.2 ≠ 0 → Z.of_nat (uses w o) < v_refs v →
  ∃ w', trigger_unref w (t_of o) = Some w' ∧ inv exempt w' ∧ touched w w' o (o_drop (Some v)) (statuslisteners w).
Proof.
  intros [Hset Hrun] Hv Ho Hu. pose proof Hset as [Hs Hp Hw Ha].
  destruct (trigger_unref_ok w (t_of o) v) as (w' & E & Ht); [by destruct o|done|lia|].
  assert (Ht' : touched w w' o (o_drop (Some v)) (statuslisteners w)) by (by destruct o).
  exists w'. split_and!; [done| |done]. destruct Ht' as [T1 T2 (M1 & M2 & M3 & M4 & M5)].
  assert (Eid : task_ids w' = task_ids w) by (unfold task_ids; by rewrite M2).
  assert (Hget : ∀ o' v', o_get w' o' = Some v' → ∃ v0, o_get w o' = Some v0 ∧ v_listeners v' = v_listeners v0 ∧
    0 < v_refs v' ∧ Z.of_nat (uses w o') ≤ v_refs v').
  { intros o' v'. rewrite (T1 o'). case_decide as Eo.
    - subst o'. cbn. destruct (Z.eqb_spec (v_refs v) 1) as [|Hne]; [done|]. injection 1 as <-. exists v. cbn.
      split_and!; [done|done|lia|lia].
    - intros Hv'. exists v'. split_and!; [done|done|apply (s_obj _ _ Hs o' v' Hv')..]. }
  assert (Hkeep : ∀ c C o', conds (mem w) !! c = Some C → (0 < holds C o')%nat →
    ∀ v0, o_get w o' = Some v0 → ∃ v', o_get w' o' = Some v' ∧ v_listeners v' = v_listeners v0 ∧ v_status v' = v_status v0).
  { intros c C o' HC Hh v0 Hv0. rewrite (T1 o'). case_decide as Eo; [|by exists v0]. subst o'. rewrite Hv in Hv0. injection Hv0 as <-.
    assert (holds C o ≤ uses w o)%nat by (by apply (total_ge (λ C, holds C o) _ c)).
    cbn. rewrite (proj2 (Z.eqb_neq _ _)) by lia. by eexists. }
  assert (Hside : ∀ c C o' l mon filt func, conds (mem w) !! c = Some C → (o'.2 ≠ 0 → (0 < holds C o')%nat) →
    side w c o' l mon filt func → side w' c o' l mon filt func).
  { unfold side. intros c C o' l mon filt func HC Hh H. case_decide as E0; [done|]. destruct H as (Hl & v0 & Hv0 & Hin & Hls).
    destruct (Hkeep c C o' HC (Hh E0) v0 Hv0) as (v' & Hv' & E1 & _). split; [done|]. exists v'. by rewrite E1, T2. }
  split; [|unfold running; rewrite M1, M4; exact Hrun].
  apply settled_steady. split; [split; rewrite ?Eid, ?M1, ?M2; try done; split; unfold members, uses; rewrite ?M1, ?M3, ?M4, ?T2; try apply Hs|].
  - intros c C HC. destruct (s_cond _ _ Hs c C HC) as [H1 H2 H3 H4 H5]. split; rewrite ?M3, ?M4; try done.
    + apply (Hside c C); [done|apply holds_timeout|done].
    + apply (Hside c C); [done|apply holds_trigger|done].
  - intros o' v' l Hv' Hin. destruct (Hget o' v' Hv') as (v0 & Hv0 & E1 & _). rewrite E1 in Hin. by apply (s_att _ _ Hs o' v0).
  - intros o' v' Hv'. destruct (Hget o' v' Hv') as (v0 & Hv0 & _ & E1 & E2). by split.
  - intros c C Hx. rewrite M1. intros HC Hnp Hst. pose proof (Ha c C Hx HC Hnp Hst) as Hva. unfold valid in *.
    pose proof (s_cond _ _ Hs c C HC) as Hok.
    assert (Hh : (0 < holds C (trigger_obj C))%nat) by (apply holds_trigger; exact (has_status_object _ Hst)).
    destruct (holds_side w c C _ (co_timeout _ _ _ _ Hok) (co_trigger _ _ _ _ Hok) Hh) as [v0 Hv0].
    destruct (Hkeep c C _ HC Hh v0 Hv0) as (v' & -> & _ & E2). rewrite Hv0 in Hva. by rewrite E2.
Qed.

End Exempt.

End ConditionRuns.
