(* ===== verification/Blocking.v ===== *)
(** * Threads that block and continue
    (src/phantom/src/main/host/syscall_condition.c, host/thread.c)

    Blocking calls, status changes, wake-ups of futexes, tasks, exits and
    closed objects in any order, as the program allows them: what holds in
    every state that such a run reaches. *)

From S2P Require Import Prelude Descriptor Timer TimerFd Futex Epoll Condition ConditionSafety ConditionRuns.

Module Blocking.
Import Desc Condition ConditionSafety ConditionRuns.
#[local] Existing Instances Futex.futexes_eta Futex.futex_eta Epoll.file_eta.
Implicit Types w : W.

(** ** Steps *)

Inductive Step :=
  | SBlock (thread c : Z) (trigger : Trigger) (timeout : Z) (ls : Z * Z)
  | SStatus (d bits : Z) (doSetBits : bool)
  | SFile (file status : Z)
  | SWake (futex numWakeups : Z)
  | STask
  | SExit (proc : Z) (items : list Z)
  | SClose (o : Obj).

Section Steps.
(** The order in which the hash table of a futex gives its keys. *)
Context (keys : gmap Z bool → list Z).

Definition step w (s : Step) : option W :=
  match s with
  | SBlock t c tr to ls => block w t c tr to ls
  | SStatus d bits b => '(w, _) ← descriptor_adjustStatus notify w d bits b; Some w
  | SFile a st => posixfile_setStatus w a st
  | SWake a n => '(w, _, _) ← Futex.futex_wake notify keys w a n; Some w
  | STask => run_task w
  | SExit p items => process_exit w p items
  | SClose o => trigger_unref w (t_of o)
  end.

Fixpoint run w (ss : list Step) : option W :=
  match ss with [] => Some w | s :: ss => w ← step w s; run w ss end.

(** The runs that are considered: a thread blocks that runs, on objects that are
    there; a process exits when no task of its threads is scheduled - the program
    does not see to that, see [exit_before_task] below - and only references that
    the conditions do not hold are dropped. *)
Definition allowed w (s : Step) : Prop :=
  match s with
  | SBlock t c tr to ls => can_block w t c tr to ls
  | SStatus d _ _ => is_Some (descriptors w !! d)
  | SFile a _ => is_Some (files (mem w) !! a)
  | SWake a _ => is_Some (Futex.memory (external w) !! a)
  | STask => True
  | SExit p items => is_Some (procs (mem w) !! p) ∧ threads_of w p items ∧
      ∀ c C, conds (mem w) !! c = Some C → c_proc C = p → signalPending C = false
  | SClose o => o.2 ≠ 0 ∧ ∃ v, o_get w o = Some v ∧ Z.of_nat (uses w o) < v_refs v
  end.

Fixpoint allowed_run w (ss : list Step) : Prop :=
  match ss with
  | [] => True
  | s :: ss => allowed w s ∧ match step w s with Some w' => allowed_run w' ss | None => True end
  end.

(** Nothing waits yet. *)
Record start w : Prop := {
  st_conds : conds (mem w) = ∅;
  st_tasks : tasks (mem w) = [];
  st_lis : statuslisteners w = ∅;
  st_objs : ∀ o v, o_get w o = Some v → 0 < v_refs v ∧ v_listeners v = ∅;
  st_thr : ∀ t T, threads (mem w) !! t = Some T →
    t ≠ 0 ∧ th_cond T = 0 ∧ th_process T ≠ 0 ∧ is_Some (procs (mem w) !! th_process T) ∧ 0 < th_referenceCount T;
  st_proc : ∀ p P, procs (mem w) !! p = Some P → 0 < p_referenceCount P;
}.

Lemma blocking_start_inv w : start w → inv (λ _, True) w.
Proof.
  intros [H1 H2 H3 H4 H5 H6]. assert (E : task_ids w = []) by (unfold task_ids; by rewrite H2).
  split; [split|]; [|intros c C; rewrite H1; done|intros c C; by rewrite H1|intros c C; by rewrite H1|intros c C P; by rewrite H1].
  rewrite E. split; unfold members, uses, total; rewrite ?H1, ?H3; try done.
  - apply NoDup_nil_2.
  - intros c Hc. by apply not_elem_of_nil in Hc.
  - intros o v l Hv Hl. destruct (H4 o v Hv) as [_ Hl']. rewrite Hl' in Hl. by apply elem_of_empty in Hl.
  - intros t T HT. destruct (H5 t T HT) as (A1 & A2 & A3 & A4 & A5). rewrite A2. cbn. split_and!; try done. lia.
  - intros o v Hv. destruct (H4 o v Hv) as [Hr _]. rewrite map_to_list_empty. cbn. lia.
Qed.

Lemma run_task_inv exempt w : inv exempt w →
  ∃ w', run_task w = Some w' ∧ inv exempt w' ∧
    match tasks (mem w) with
    | [] => w' = w
    | (c, b) :: ts => ∃ C, conds (mem w) !! c = Some C ∧
        if b || valid w C then task_continues w w' c C ts else task_waits w w' c C ts
    end.
Proof.
  intros Hinv. destruct (tasks (mem w)) as [|[c b] ts] eqn:Et; [exists w; unfold run_task; by rewrite Et|].
  destruct (s_task _ _ (i_sound _ (proj1 Hinv)) c) as [C HC]; [unfold task_ids; rewrite Et; left|].
  destruct (b || valid w C) eqn:Eb.
  - destruct (signal_ok exempt w c C b ts Hinv Et HC Eb) as (w' & E & Ht & Hi). exists w'. split_and!; [done..|]. exists C. by rewrite Eb.
  - apply orb_false_iff in Eb as [-> Eb]. destruct (no_signal_ok exempt w c C ts Hinv Et HC Eb) as (w' & E & Ht & Hi).
    exists w'. split_and!; [done..|]. exists C. cbn. by rewrite Eb.
Qed.

(** A call that blocks with this address for its condition. *)
Definition blocks (c : Z) (s : Step) : Prop := match s with SBlock _ c' _ _ _ => c' = c | _ => False end.

Lemma blocking_step_inv exempt w s :
  inv exempt w → allowed w s → ∃ w', step w s = Some w' ∧ inv (λ x, exempt x ∨ blocks x s) w'.
Proof.
  intros Hinv Hal.
  assert (Hmore : ∀ w', inv exempt w' → inv (λ x, exempt x ∨ blocks x s) w') by (intros w'; apply inv_more; by left).
  destruct s as [t c tr to ls|d bits b|a st|a n| |p items|o]; cbn [step allowed] in *.
  - destruct (block_ok exempt w t c tr to ls Hinv Hal) as (w' & T & P & E & _ & _ & Hi). exists w'. split; [done|].
    eapply inv_more; [|exact Hi]. intros x [?|?]; [by left|by right].
  - destruct Hal as [desc Hd]. destruct (adjustStatus_ok exempt w d desc bits b Hinv Hd) as (w' & called & v & -> & _ & _ & Ht).
    exists w'. split; [done|apply Hmore, Ht].
  - destruct Hal as [f Hf]. destruct (setStatus_ok exempt w a f st Hinv Hf) as (w' & v & -> & _ & _ & Ht).
    exists w'. split; [done|apply Hmore, Ht].
  - destruct (wake_ok exempt keys w a n Hinv Hal) as (w' & m & called & -> & Hi & _). exists w'. split; [done|by apply Hmore].
  - destruct (run_task_inv exempt w Hinv) as (w' & E & Hi & _). eauto.
  - destruct Hal as ([P HP] & Hit & Hn). destruct (process_exit_ok exempt w p P items Hinv HP Hit Hn) as (w' & E & Hi & _). eauto.
  - destruct Hal as (H0 & v & Hv & Hu). destruct (object_close_ok exempt w o v Hinv Hv H0 Hu) as (w' & E & Hi & _). eauto.
Qed.

(** Without such a call a condition stays subject to the invariant. *)
Lemma run_inv (exempt : Z → Prop) ss : ∀ w, (∀ x s, s ∈ ss → blocks x s → exempt x) →
  inv exempt w → allowed_run w ss → ∃ w', run w ss = Some w' ∧ inv exempt w'.
Proof.
  induction ss as [|s ss IH]; intros w He Hinv Hal; [by exists w|]. destruct Hal as [Hs Hal].
  destruct (blocking_step_inv exempt w s Hinv Hs) as (w1 & E & Hi). cbn [run]. rewrite E in Hal |- *. apply IH; [|..|done].
  - intros x s' Hin. apply He. by right.
  - eapply inv_more; [|exact Hi]. intros x [?|Hb]; [done|]. eapply He; [left|exact Hb].
Qed.

Lemma start_run w0 ss : start w0 → allowed_run w0 ss → ∃ w, run w0 ss = Some w ∧ inv (λ _, True) w.
Proof. intros Hst. apply run_inv; [done|by apply blocking_start_inv]. Qed.

Lemma run_app ss1 ss2 w : run w (ss1 ++ ss2) = (w1 ← run w ss1; run w1 ss2).
Proof. revert w. induction ss1 as [|s ss1 IH]; intros w; cbn [app run]; [done|]. destruct (step w s); cbn; [apply IH|done]. Qed.

Lemma allowed_app ss1 ss2 w :
  allowed_run w (ss1 ++ ss2) → allowed_run w ss1 ∧ ∀ w1, run w ss1 = Some w1 → allowed_run w1 ss2.
Proof.
  revert w. induction ss1 as [|s ss1 IH]; intros w; cbn [app run allowed_run]; [intros H; split; [done|by intros w1 [= <-]]|].
  intros [Hs Hal]. destruct (step w s) as [w'|]; cbn; [|done]. destruct (IH w' Hal). done.
Qed.

(** C13: no allowed sequence of blocking calls, status changes, futex
    wake-ups, tasks, exits and closes fails an assertion or touches memory
    that was freed; in the state that it reaches every condition has a blocked
    thread of a process that is alive, its reference count is exactly the
    thread's reference, one per listener and one for the scheduled task, every
    listener in memory is one of a condition, and objects, threads and
    processes have the references that the conditions hold. *)
Theorem conditions_safe w0 ss :
  start w0 → allowed_run w0 ss →
  ∃ w, run w0 ss = Some w ∧
    (∀ c C, conds (mem w) !! c = Some C →
       c_referenceCount C = 1 + n_listeners C + Z.b2z (signalPending C) ∧
       (∃ T P, threads (mem w) !! c_thread C = Some T ∧ th_cond T = c ∧ 1 < th_referenceCount T ∧
               procs (mem w) !! c_proc C = Some P ∧ p_isExiting P = false ∧ 0 < p_referenceCount P)) ∧
    (∀ l s, statuslisteners w !! l = Some s →
       l_referenceCount s = 2 ∧ ∃ C, conds (mem w) !! callbackObject s = Some C ∧ own C l) ∧
    (∀ o v, o_get w o = Some v → Z.of_nat (uses w o) ≤ v_refs v).
Proof.
  intros Hst Hal. destruct (start_run w0 ss Hst Hal) as (w & E & [Hset Hrun]).
  pose proof (i_sound _ Hset) as Hs. exists w. split_and!; [done|..].
  - intros c C HC. pose proof (s_cond _ _ Hs c C HC) as Hok. split.
    + by rewrite (co_refs _ _ _ _ Hok), <-(i_pending _ Hset c C HC).
    + destruct (co_thread _ _ _ _ Hok) as (T & P & HT & HTc & HTp & HP). exists T, P.
      destruct (s_thr _ _ Hs _ _ HT) as (_ & _ & _ & S4 & _).
      rewrite HTc, (proj2 (Z.eqb_neq c 0)) in S4 by exact (co_nonzero _ _ _ _ Hok). cbn in S4.
      pose proof (s_proc _ _ Hs _ _ HP). split_and!; [done|done|lia|done|exact (Hrun c C P HC HP)|lia].
  - intros l s Hl. destruct (s_lis _ _ Hs l s Hl) as (c & C & HC & Ho).
    destruct (own_listener_of _ _ _ _ _ (s_cond _ _ Hs c C HC) Ho) as (mon & filt & func & E').
    rewrite Hl in E'. injection E' as ->. split; [done|]. by exists C.
  - intros o v Hv. apply (s_obj _ _ Hs o v Hv).
Qed.

(** C14: a thread that waits for a status of a descriptor or file has a task
    scheduled as soon as the object has the status, and exactly one, if at some
    point since it blocked the object did not have the status: from then on no
    wake-up is lost, whatever else happens in between.  The point may be the one
    at which it blocked.  (A thread that blocks while the object has the status
    is only woken after the status went away: [blocked_while_present] below.)
    [ss1] leads to that point, [ss2] on from there; no call in [ss2] reuses the
    address of the condition. *)
Theorem no_lost_wakeup w0 ss1 ss2 w1 w t T C1 v1 C v :
  start w0 → allowed_run w0 (ss1 ++ ss2) → run w0 ss1 = Some w1 → run w1 ss2 = Some w →
  threads (mem w) !! t = Some T →
  conds (mem w1) !! th_cond T = Some C1 → has_status C1 = true → o_get w1 (trigger_obj C1) = Some v1 →
  has_flag (v_status v1) (t_status (trigger C1)) = false → (∀ s, s ∈ ss2 → ¬ blocks (th_cond T) s) →
  conds (mem w) !! th_cond T = Some C → has_status C = true →
  o_get w (trigger_obj C) = Some v → has_flag (v_status v) (t_status (trigger C)) = true →
  (∃ b, (th_cond T, b) ∈ tasks (mem w)) ∧ NoDup (tasks (mem w)).*1.
Proof.
  intros Hst Hal Hr1 Hr2 HT HC1 Hh1 Hv1 Hf1 Hnb HC Hh Hv Hf. apply allowed_app in Hal as [Hal1 Hal2].
  destruct (start_run w0 ss1 Hst Hal1) as (w' & E & Hi1). rewrite Hr1 in E. injection E as <-.
  assert (Hi : inv (λ x, x ≠ th_cond T) w1).
  { apply (inv_exempt (λ _, True)); [done| |by left]. intros c C' Hc _ HC' _.
    assert (c = th_cond T) as -> by (destruct (decide (c = th_cond T)); [done|by destruct Hc]).
    rewrite HC1 in HC'. injection HC' as <-. unfold valid. rewrite Hv1.
    unfold has_status in Hh1. by destruct (t_type (trigger C1)); rewrite ?andb_false_r in Hh1. }
  destruct (run_inv (λ x, x ≠ th_cond T) ss2 w1) as (w' & E & [Hset Hrun]); [|exact Hi|exact (Hal2 w1 Hr1)|].
  { intros x s Hs Hb ->. exact (Hnb s Hs Hb). }
  rewrite Hr2 in E. injection E as <-. split; [|exact (s_nodup _ _ (i_sound _ Hset))].
  assert (Hva : valid w C = true).
  { unfold valid. unfold has_status in Hh. rewrite Hv. destruct (t_type (trigger C)); rewrite ?andb_false_r in Hh; done. }
  destruct (signalPending C) eqn:Ep.
  - rewrite (i_pending _ Hset _ C HC) in Ep. apply bool_decide_eq_true in Ep.
    apply list_elem_of_fmap in Ep as ([c b] & -> & Hin). by exists b.
  - rewrite (i_awake _ Hset _ C ltac:(by intros ?) HC Ep Hh) in Hva. done.
Qed.

(** C15: when the task of a condition runs, the thread continues exactly when
    the task was scheduled by the timeout (its flag [wasTimeout]), or the futex
    was woken, or the status is (still) there; then its condition is freed, it is blocked no more, and no listener of it
    is left in memory or on any object.  Otherwise it stays blocked with its
    listeners attached and may be notified again.  (A timeout that expires while
    the task of a notification is scheduled does not set the flag of that task
    and schedules none of its own: [timeout_lost] below.) *)
Theorem task_outcome w0 ss w c b ts :
  start w0 → allowed_run w0 ss → run w0 ss = Some w → tasks (mem w) = (c, b) :: ts →
  ∃ C w', conds (mem w) !! c = Some C ∧ run_task w = Some w' ∧ tasks (mem w') = ts ∧
    if b || valid w C then
      continued (mem w') = continued (mem w) ++ [(c_proc C, c_thread C)] ∧ conds (mem w') !! c = None ∧
      (∃ T, threads (mem w') !! c_thread C = Some T ∧ th_cond T = 0) ∧
      (∀ l s, statuslisteners w' !! l = Some s → callbackObject s ≠ c) ∧
      (∀ o v l, o_get w' o = Some v → own C l → l ∉ v_listeners v)
    else
      continued (mem w') = continued (mem w) ∧
      (∃ C', conds (mem w') !! c = Some C' ∧ same_cond C C' ∧ signalPending C' = false ∧
             timeout_side w' c C' ∧ trigger_side w' c C') ∧
      (∃ T, threads (mem w') !! c_thread C = Some T ∧ th_cond T = c).
Proof.
  intros Hst Hal Hr Et. destruct (start_run w0 ss Hst Hal) as (w1 & E & Hinv).
  rewrite Hr in E. injection E as <-. destruct (run_task_inv _ w Hinv) as (w' & E & [Hset' _] & H).
  rewrite Et in H. destruct H as (C & HC & H). exists C, w'. split; [done|]. split; [done|].
  pose proof (i_sound _ Hset') as Hs'. pose proof (i_sound _ (proj1 Hinv)) as Hs.
  destruct (b || valid w C).
  - destruct H as [(P & T & Hrel) H1 H2]. split; [done|].
    assert (Hcn : conds (mem w') !! c = None) by (rewrite (rl_conds _ _ _ _ _ _ Hrel); apply lookup_delete_eq).
    split_and!; [done|done|..].
    + eexists. rewrite (rl_threads _ _ _ _ _ _ Hrel), lookup_insert_eq. done.
    + intros l s Hl. destruct (s_lis _ _ Hs' l s Hl) as (c' & C' & HC' & Ho).
      destruct (own_listener_of _ _ _ _ _ (s_cond _ _ Hs' c' C' HC') Ho) as (mon & filt & func & E').
      rewrite Hl in E'. injection E' as ->. cbn. intros ->. congruence.
    + intros o v l Hv Ho Hin. destruct (s_att _ _ Hs' o v l Hv Hin) as (c' & C' & HC' & Ho'%atts_own).
      destruct (own_listener_of _ _ _ _ _ (s_cond _ _ Hs' c' C' HC') Ho') as (mon & filt & func & E').
      rewrite (rl_lis _ _ _ _ _ _ Hrel) in E'. by rewrite decide_True in E'.
  - destruct H as [Hm H1 H2]. split; [done|]. split; [done|]. split.
    + eexists. rewrite (mc_conds _ _ _ _ Hm), lookup_insert_eq. split; [done|]. split_and!; try done.
      all: apply (s_cond _ _ Hs'); rewrite (mc_conds _ _ _ _ Hm); apply lookup_insert_eq.
    + destruct (co_thread _ _ _ _ (s_cond _ _ Hs c C HC)) as (T & P & HT & HTc & _).
      rewrite (mc_threads _ _ _ _ Hm). by exists T.
Qed.

End Steps.
(** ** A host with one process *)

(** A timer 10 for timeouts, an eventfd 20, a futex 30, a file 40, and the
    threads 5 and 6 of process 3. *)
Definition demo : W :=
  mkWorld {[ 10 := mkDesc 7 DT_TIMER STATUS_DESCRIPTOR_ACTIVE [] 2 0 0; 20 := mkDesc 8 DT_EVENTD STATUS_DESCRIPTOR_ACTIVE [] 1 0 0 ]} ∅
    (Futex.mkFutexes {[ 30 := Futex.mkFutex 1000 ∅ 1 ]} None 1
       (mkMemory ∅ {[ 40 := Epoll.mkFile STATUS_DESCRIPTOR_ACTIVE [] 2 ]} []
          {[ 5 := mkThread 1 3 0; 6 := mkThread 1 3 0 ]} {[ 3 := mkProcess 3 false ]} [])).

Definition demo_keys (m : gmap Z bool) : list Z := (map_to_list m).*1.

Definition on_readable : Trigger := mkTrigger TRIGGER_DESCRIPTOR 20 STATUS_DESCRIPTOR_READABLE.

(** Thread 5 waits for the eventfd, with a timeout. *)
Definition demo_block : Step := SBlock 5 50 on_readable 10 (60, 61).
Definition demo_set : Step := SStatus 20 STATUS_DESCRIPTOR_READABLE true.
Definition demo_clear : Step := SStatus 20 STATUS_DESCRIPTOR_READABLE false.
Definition demo_timeout : Step := SStatus 10 STATUS_DESCRIPTOR_READABLE true.

Lemma demo_start : start demo.
Proof.
  split; [done|done|done|..].
  - intros [[] a] v; cbn; rewrite ?fmap_Some; [done|..]; intros (x & Hx & ->);
      repeat (apply lookup_insert_Some in Hx as [[<- <-]|[_ Hx]]; [by vm_compute|]); try (by apply lookup_empty_Some in Hx);
      apply lookup_singleton_Some in Hx as [<- <-]; by vm_compute.
  - intros t T HT. cbn in HT. apply lookup_insert_Some in HT as [[<- <-]|[_ HT]];
      [|apply lookup_singleton_Some in HT as [<- <-]]; cbn; split_and!; try done; by eexists.
  - intros p P HP. cbn in HP. by apply lookup_singleton_Some in HP as [<- <-].
Qed.

Lemma demo_can_block : can_block demo 5 50 on_readable 10 (60, 61).
Proof.
  split.
  - exists (mkThread 1 3 0), (mkProcess 3 false). by vm_compute.
  - by split.
  - by repeat split.
  - intros _. by eexists.
  - intros _. eexists. split; [by vm_compute|done].
Qed.

Definition after w (ss : list Step) : W := default w (run demo_keys w ss).

Lemma demo_allowed : allowed_run demo_keys demo [demo_block; demo_set].
Proof.
  split; [exact demo_can_block|]. destruct (step demo_keys demo demo_block) as [w|] eqn:E; [|done].
  vm_compute in E. injection E as <-. split; [by eexists|]. by destruct (step _ _ _).
Qed.

Lemma conditions_safe_witness : ∃ w, run demo_keys demo [demo_block; demo_set] = Some w ∧
  ∀ c C, conds (mem w) !! c = Some C → c_referenceCount C = 1 + n_listeners C + Z.b2z (signalPending C).
Proof.
  destruct (conditions_safe demo_keys demo _ demo_start demo_allowed) as (w & E & H & _).
  exists w. split; [done|]. intros c C HC. exact (proj1 (H c C HC)).
Defined.

Lemma no_lost_wakeup_witness : ∃ b, (50, b) ∈ tasks (mem (after demo [demo_block; demo_set])).
Proof.
  destruct (run demo_keys demo [demo_block]) as [w1|] eqn:E1; [|by vm_compute in E1].
  destruct (run demo_keys w1 [demo_set]) as [w|] eqn:E; [|vm_compute in E1; injection E1 as <-; by vm_compute in E].
  assert (Er : run demo_keys demo ([demo_block] ++ [demo_set]) = Some w) by (rewrite run_app, E1; exact E).
  unfold after. cbn [app] in Er. rewrite Er. cbn [default].
  assert (∃ T C1 v1 C v, threads (mem w) !! 5 = Some T ∧ th_cond T = 50 ∧
    conds (mem w1) !! 50 = Some C1 ∧ has_status C1 = true ∧ o_get w1 (trigger_obj C1) = Some v1 ∧
    has_flag (v_status v1) (t_status (trigger C1)) = false ∧
    conds (mem w) !! 50 = Some C ∧ has_status C = true ∧ o_get w (trigger_obj C) = Some v ∧
    has_flag (v_status v) (t_status (trigger C)) = true) as (T & C1 & v1 & C & v & HT & Et & H1 & H2 & H3 & H4 & H5 & H6 & H7 & H8).
  { clear Er. vm_compute in E1. injection E1 as <-. vm_compute in E. injection E as <-.
    do 5 eexists. split; [by vm_compute|]. split; [by vm_compute|]. split; [by vm_compute|]. split; [by vm_compute|].
    split; [by vm_compute|]. split; [by vm_compute|]. split; [by vm_compute|]. split; [by vm_compute|]. by split; vm_compute. }
  rewrite <-Et in H1, H5.
  assert (Hnb : ∀ s, s ∈ [demo_set] → ¬ blocks (th_cond T) s) by (intros s ->%list_elem_of_singleton; by intros []).
  destruct (no_lost_wakeup demo_keys demo [demo_block] [demo_set] w1 w 5 T C1 v1 C v demo_start demo_allowed E1 E HT H1 H2 H3 H4
    Hnb H5 H6 H7 H8) as [[b Hb] _]. rewrite Et in Hb. by exists b.
Defined.

Lemma task_outcome_witness : ∃ w w', run demo_keys demo [demo_block; demo_set] = Some w ∧ run_task w = Some w' ∧
  continued (mem w') = [(3, 5)] ∧ conds (mem w') !! 50 = None.
Proof.
  destruct (run demo_keys demo [demo_block; demo_set]) as [w|] eqn:E; [|by vm_compute in E].
  assert (Et : tasks (mem w) = [(50, false)]) by (vm_compute in E; injection E as <-; reflexivity).
  destruct (task_outcome demo_keys demo _ w 50 false [] demo_start demo_allowed E Et) as (C & w' & HC & Er & _ & H).
  exists w, w'. split; [done|]. split; [done|].
  assert (false || valid w C = true ∧ continued (mem w) = [] ∧ c_proc C = 3 ∧ c_thread C = 5) as (Eb & Ec & Ep & Eh).
  { clear H Er Et. vm_compute in E. injection E as <-. vm_compute in HC. injection HC as <-. by vm_compute. }
  rewrite Eb, Ec, Ep, Eh in H. destruct H as (H1 & H2 & _). by split.
Defined.

(** ** Findings *)

(** A process that exits while the task of one of its threads is scheduled
    clears the process of the condition; the task continues the null
    process. *)
Theorem exit_before_task :
  ∃ w w', run demo_keys demo [demo_block; demo_set] = Some w ∧ process_exit w 3 [5; 6] = Some w' ∧
    tasks (mem w') = [(50, false)] ∧ run_task w' = None.
Proof.
  destruct (run demo_keys demo [demo_block; demo_set]) as [w|] eqn:E; [|by vm_compute in E].
  destruct (process_exit w 3 [5; 6]) as [w'|] eqn:E'; exists w; [exists w'|exfalso].
  - split_and!; [done|done|..]; vm_compute in E; injection E as <-; vm_compute in E'; injection E' as <-; by vm_compute.
  - vm_compute in E. injection E as <-. by vm_compute in E'.
Qed.

(** A call that blocks on a status that is there - as a UDP send does when the
    buffer has some space, but less than the datagram needs - gets no task, and
    none when the status is set again. *)
Theorem blocked_while_present :
  allowed_run demo_keys demo [demo_set; demo_block; demo_set] ∧
  ∃ w C, run demo_keys demo [demo_set; demo_block; demo_set] = Some w ∧ tasks (mem w) = [] ∧
    (th_cond <$> threads (mem w) !! 5) = Some 50 ∧ conds (mem w) !! 50 = Some C ∧ valid w C = true.
Proof.
  split.
  - split; [by eexists|]. destruct (step demo_keys demo demo_set) as [w|] eqn:E; [|done].
    vm_compute in E. injection E as <-. split.
    + split; [exists (mkThread 1 3 0), (mkProcess 3 false); by vm_compute|by split|by repeat split|intros _; by eexists|].
      intros _. eexists. split; [by vm_compute|done].
    + destruct (step demo_keys _ demo_block) as [w|] eqn:E; [|done]. vm_compute in E. injection E as <-.
      split; [by eexists|]. by destruct (step _ _ _).
  - destruct (run demo_keys demo _) as [w|] eqn:E; [|by vm_compute in E].
    destruct (conds (mem w) !! 50) as [C|] eqn:EC; [|vm_compute in E; injection E as <-; by vm_compute in EC].
    exists w, C. vm_compute in E. injection E as <-. vm_compute in EC. injection EC as <-. by vm_compute.
Qed.

(** The timer expires while the task of a status change is scheduled, and the
    status is gone when it runs: the timeout is not delivered, and nothing is
    scheduled that would. *)
Theorem timeout_lost :
  ∃ w, run demo_keys demo [demo_block; demo_set; demo_timeout; demo_clear; STask] = Some w ∧
    tasks (mem w) = [] ∧ continued (mem w) = [] ∧
    (status <$> descriptors w !! 10) = Some (Z.lor STATUS_DESCRIPTOR_ACTIVE STATUS_DESCRIPTOR_READABLE) ∧
    (th_cond <$> threads (mem w) !! 5) = Some 50.
Proof.
  destruct (run demo_keys demo _) as [w|] eqn:E; [|by vm_compute in E].
  exists w. vm_compute in E. injection E as <-. by vm_compute.
Qed.


End Blocking.
