(* ===== verification/Tally.v ===== *)
(** * What a TCP socket believes is lost
    (src/phantom/src/main/host/descriptor/tcp_retransmit_tally.cc and .h)

    Sets of sequence numbers as sorted vectors of half-open ranges: packets
    marked as lost, packets that the peer has selectively acknowledged, and
    packets that were sent again.  What is to be retransmitted is the first
    set without the others.  [None] is a failed assertion. *)

From S2P Require Import Prelude.

Module Tally.

(** ** Ranges *)

Abbreviation SeqRange := (Z * Z)%type.
Abbreviation Ranges := (list (Z * Z)).

Fixpoint still_sorted_ (r : Ranges) : bool :=
  match r with
  | x :: ((y :: _) as r') => (x.1 <? x.2) && (x.2 <? y.1) && still_sorted_ r'
  | _ => true
  end.

Definition range_contains (range : SeqRange) (value : Z) : bool := (range.1 <=? value) && (value <? range.2).
Definition range_overlap (lhs rhs : SeqRange) : bool := (lhs.1 <? rhs.2) && (rhs.1 <? lhs.2).
Definition range_adj (lhs rhs : SeqRange) : bool := (lhs.2 =? rhs.1) || (rhs.2 =? lhs.1).
Definition ranges_contains (ranges : Ranges) (value : Z) : bool := existsb (λ range, range_contains range value) ranges.

(** The loop, with the position of the iterator: the first range that can be
    merged, and the end of those that can. *)
Fixpoint mergable_loop (ranges : Ranges) (value : SeqRange) (itr : nat) (first : option nat) : option nat * nat :=
  match ranges with
  | [] => (first, itr)
  | r :: ranges =>
      if r.1 <=? value.2 then
        mergable_loop ranges value (S itr)
          (match first with
           | None => if range_overlap r value || range_adj r value then Some itr else None
           | Some _ => first
           end)
      else (first, itr)
  end.

Definition ranges_mergable (ranges : Ranges) (value : SeqRange) : option (option nat * nat) :=
  if still_sorted_ ranges then Some (mergable_loop ranges value 0 None) else None.

Definition range_merge (x y : SeqRange) : SeqRange := (Z.min x.1 y.1, Z.max x.2 y.2).

Definition ranges_insert (ranges : Ranges) (value : SeqRange) : option Ranges :=
  '(first, second) ← ranges_mergable ranges value;
  result ← (match first with
            | None => Some (take second ranges ++ value :: drop second ranges)
            | Some i =>
                x ← ranges !! i;
                let merged := foldl range_merge (range_merge x value) (take (second - S i) (drop (S i) ranges)) in
                Some (take i ranges ++ merged :: drop second ranges)
            end);
  if still_sorted_ result then Some result else None.

Definition range_subtract (lhs rhs : SeqRange) : option Ranges :=
  let result :=
    if range_overlap lhs rhs then
      (if lhs.1 <? rhs.1 then [(lhs.1, rhs.1)] else []) ++ (if rhs.2 <? lhs.2 then [(rhs.2, lhs.2)] else [])
    else [lhs] in
  if still_sorted_ result then Some result else None.

(** The loop over both vectors: [cur] is what is left of the range that is
    being considered, [lhs] are the ranges after it.  The vectors that remain
    are returned as well. *)
Fixpoint subtract_loop (fuel : nat) (cur : SeqRange) (lhs rhs result : Ranges)
    : option (option SeqRange * Ranges * Ranges * Ranges) :=
  match fuel with
  | O => None
  | S fuel =>
      match rhs with
      | [] => Some (Some cur, lhs, rhs, result)
      | j :: rhs' =>
          let advance result :=
            match lhs with
            | [] => Some (None, [], rhs, result)
            | l :: lhs' => subtract_loop fuel l lhs' rhs result
            end in
          if j.2 <=? cur.1 then subtract_loop fuel cur lhs rhs' result
          else if cur.2 <=? j.1 then advance (result ++ [cur])
          else
            sub ← range_subtract cur j;
            match sub with
            | [] => advance result
            | [x] => subtract_loop fuel x lhs rhs result
            | x :: sub => subtract_loop fuel (List.last sub x) lhs rhs (result ++ [x])
            end
      end
  end.

Definition ranges_subtract (lhs rhs : Ranges) : option Ranges :=
  result ← (match rhs, lhs with
            | [], _ => Some lhs
            | _, [] => Some []
            | _, cur :: lhs =>
                '(cur, lhs, rhs, result) ← subtract_loop (2 * (length lhs + length rhs) + 3) cur lhs rhs [];
                match rhs, cur with
                | [], Some cur => Some (result ++ cur :: lhs)
                | _, _ => Some result
                end
            end);
  if forallb (λ range, range.1 <? range.2) result && still_sorted_ result then Some result else None.

(** ** The tally *)

Definition TCP_PF_NONE_ : Z := 0.
Definition TCP_PF_DATA_LOST_ : Z := Z.shiftl 1 4.
Definition kDuplAckLostThresh : Z := 3.

Record RetransmitTally := mkTally {
  last_ack_ : Z;
  num_dupl_ack_ : Z;
  marked_lost_ : Ranges;
  sacked_ : Ranges;
  retransmitted_ : Ranges;
  lost_ : Ranges;
}.

#[export] Instance tally_eta : Eta RetransmitTally := fun t =>
  mkTally (last_ack_ t) (num_dupl_ack_ t) (marked_lost_ t) (sacked_ t) (retransmitted_ t) (lost_ t).

Definition retransmit_tally_init : RetransmitTally := mkTally (-1) 0 [] [] [] [].

Definition compute_lost (rt : RetransmitTally) : option RetransmitTally :=
  lost ← ranges_subtract (marked_lost_ rt) (sacked_ rt);
  lost ← ranges_subtract lost (retransmitted_ rt);
  Some (rt <| lost_ := lost |>).

Definition tidy_ranges (last_ack : Z) (ranges : Ranges) : option Ranges :=
  if still_sorted_ ranges then
    let result :=
      match ranges with
      | [] => []
      | front :: rest =>
          if (front.1 <=? last_ack) && (last_ack <? front.2 - 1) then (last_ack, front.2) :: rest
          else if front.2 - 1 <=? last_ack then List.filter (λ range, negb (range.2 <=? last_ack)) ranges
          else ranges
      end in
    if still_sorted_ result then Some result else None
  else None.

Definition retransmit_tally_update (rt : RetransmitTally) (last_ack max_ack : Z) (is_dup : bool)
    : option (RetransmitTally * Z) :=
  rt ← (if is_dup && (last_ack =? last_ack_ rt) then
          Some (rt <| num_dupl_ack_ := u64 (num_dupl_ack_ rt + 1) |>)
        else if last_ack_ rt <? last_ack then
          let rt := rt <| last_ack_ := last_ack |> <| num_dupl_ack_ := 0 |> in
          marked_lost ← tidy_ranges last_ack (marked_lost_ rt);
          sacked ← tidy_ranges last_ack (sacked_ rt);
          retransmitted ← tidy_ranges last_ack (retransmitted_ rt);
          Some (rt <| marked_lost_ := marked_lost |> <| sacked_ := sacked |> <| retransmitted_ := retransmitted |>)
        else Some rt);
  if (kDuplAckLostThresh <=? num_dupl_ack_ rt) && negb (ranges_contains (retransmitted_ rt) (last_ack_ rt)) then
    let right_edge_exclusive := u32 (last_ack_ rt + 1) in
    marked_lost ← ranges_insert (marked_lost_ rt) (last_ack_ rt, right_edge_exclusive);
    rt ← compute_lost (rt <| marked_lost_ := marked_lost |>);
    Some (rt, if (0 <? length (lost_ rt))%nat then TCP_PF_DATA_LOST_ else TCP_PF_NONE_)
  else Some (rt, TCP_PF_NONE_).

(** The loop over the list, whose elements are taken as signed integers
    ([GPOINTER_TO_INT]); -1 stands for a block that has not begun.  The
    addition [s + 1] must not overflow. *)
Fixpoint mark_sacked_loop (ranges : Ranges) (first : Z) (sacked : list Z) : option Ranges :=
  match sacked with
  | [] => Some ranges
  | n :: next =>
      let s := i32 n in
      let first := if first =? -1 then s else first in
      if s =? 2 ^ 31 - 1 then None
      else if match next with [] => true | n :: _ => negb (i32 n =? s + 1) end then
        ranges ← ranges_insert ranges (first, s + 1); mark_sacked_loop ranges (-1) next
      else mark_sacked_loop ranges first next
  end.

Definition retransmit_tally_mark_sacked (rt : RetransmitTally) (sacked : list Z) : option RetransmitTally :=
  ranges ← mark_sacked_loop (sacked_ rt) (-1) sacked; Some (rt <| sacked_ := ranges |>).

Definition retransmit_tally_mark_lost (rt : RetransmitTally) (begin end_ : Z) : option RetransmitTally :=
  if begin =? u32 (end_ + 1) then Some rt else
  let end_ := if begin =? end_ then u32 (end_ + 1) else end_ in
  if begin <? end_ then
    marked_lost ← ranges_insert (marked_lost_ rt) (begin, end_);
    compute_lost (rt <| marked_lost_ := marked_lost |>)
  else None.

Definition retransmit_tally_mark_retransmitted (rt : RetransmitTally) (begin end_ : Z) : option RetransmitTally :=
  retransmitted ← ranges_insert (retransmitted_ rt) (begin, end_);
  compute_lost (rt <| retransmitted_ := retransmitted |>).

Definition retransmit_tally_clear_retransmitted (rt : RetransmitTally) : RetransmitTally := rt <| retransmitted_ := [] |>.

Definition retransmit_tally_num_lost_ranges (rt : RetransmitTally) : nat := length (lost_ rt).
Definition retransmit_tally_populate_lost_ranges (rt : RetransmitTally) : list (Z * Z) :=
  map (λ range, (u32 range.1, u32 range.2)) (lost_ rt).

(** ** Ranges as sets *)

(** Non-empty ranges with gaps between them, the first after [b]. *)
Fixpoint sorted (b : Z) (r : Ranges) : Prop :=
  match r with
  | [] => True
  | x :: r => b < x.1 ∧ x.1 < x.2 ∧ sorted x.2 r
  end.

Definition within (r : Ranges) (v : Z) : Prop := ∃ x, x ∈ r ∧ x.1 ≤ v < x.2.

Lemma within_nil v : ¬ within [] v.
Proof. intros (x & Hx & _). by apply not_elem_of_nil in Hx. Qed.

Lemma within_cons x r v : within (x :: r) v ↔ x.1 ≤ v < x.2 ∨ within r v.
Proof.
  split.
  - intros (y & [->|Hy]%elem_of_cons & Hv); [by left|right; by exists y].
  - intros [Hv|(y & Hy & Hv)]; [exists x|exists y]; (split; [|done]); [left|by right].
Qed.

Lemma within_app r1 r2 v : within (r1 ++ r2) v ↔ within r1 v ∨ within r2 v.
Proof.
  induction r1 as [|x r1 IH]; cbn [app].
  - split; [by right|intros [H|H]; [by apply within_nil in H|done]].
  - rewrite !within_cons, IH. tauto.
Qed.

Lemma sorted_weaken a b r : a ≤ b → sorted b r → sorted a r.
Proof. destruct r as [|x r]; [done|]. cbn. intros ? (?&?&?). split_and!; [lia|done|done]. Qed.

Lemma sorted_still b r : sorted b r → still_sorted_ r = true ∧ forallb (λ x, x.1 <? x.2) r = true.
Proof.
  revert b. induction r as [|x r IH]; intros b H; [done|]. cbn in H. destruct H as (H1 & H2 & H3).
  destruct (IH _ H3) as [E1 E2]. cbn [forallb]. rewrite E2, (proj2 (Z.ltb_lt x.1 x.2)) by done. split; [|done].
  destruct r as [|y r]; [done|]. change (still_sorted_ (x :: y :: r)) with ((x.1 <? x.2) && (x.2 <? y.1) && still_sorted_ (y :: r)).
  cbn in H3. destruct H3 as (H3 & _). by rewrite E1, (proj2 (Z.ltb_lt x.1 x.2)), (proj2 (Z.ltb_lt x.2 y.1)) by done.
Qed.

Lemma sorted_within b r v : sorted b r → within r v → b < v.
Proof.
  revert b. induction r as [|x r IH]; intros b H Hv; [by apply within_nil in Hv|]. cbn in H. destruct H as (H1 & H2 & H3).
  apply within_cons in Hv as [Hv|Hv]; [lia|]. pose proof (IH _ H3 Hv). lia.
Qed.

Lemma ranges_contains_within r v : ranges_contains r v = true ↔ within r v.
Proof.
  unfold ranges_contains. rewrite existsb_exists. unfold within. split; intros (x & Hx & Hv); exists x.
  - split; [by apply list_elem_of_In|]. unfold range_contains in Hv.
    apply andb_true_iff in Hv as [?%Z.leb_le ?%Z.ltb_lt]. done.
  - split; [by apply list_elem_of_In|]. unfold range_contains. apply andb_true_iff. by rewrite Z.leb_le, Z.ltb_lt.
Qed.

(** ** Insertion is union *)

Definition touches (v x : SeqRange) : Prop := x.1 ≤ v.2 ∧ v.1 ≤ x.2.

Lemma ranges_sorted_split v b r : sorted b r → ∃ l m t, r = l ++ m ++ t ∧
  Forall (λ x, x.2 < v.1) l ∧ Forall (touches v) m ∧ Forall (λ x, v.2 < x.1) t.
Proof.
  revert b. induction r as [|x r IH]; intros b H; [by exists [], [], []|]. cbn in H. destruct H as (H1 & H2 & H3).
  destruct (IH _ H3) as (l & m & t & -> & Hl & Hm & Ht).
  destruct (decide (x.2 < v.1)) as [D|D]; [exists (x :: l), m, t; split_and!; auto|].
  assert (l = []) as ->.
  { destruct l as [|y l]; [done|]. apply Forall_cons in Hl as [Hy _]. cbn in H3. lia. }
  destruct (decide (x.1 ≤ v.2)) as [E|E]; [exists [], (x :: m), t; split_and!; auto; constructor; [split; lia|done]|].
  assert (m = []) as ->.
  { destruct m as [|y m]; [done|]. apply Forall_cons in Hm as [[Hy _] _]. cbn in H3. lia. }
  exists [], [], (x :: t). split_and!; auto. constructor; [lia|done].
Qed.

Lemma ranges_sorted_app b l r : sorted b (l ++ r) → sorted b l ∧ ∃ c, b ≤ c ∧ sorted c r.
Proof.
  revert b. induction l as [|x l IH]; intros b H; [split; [done|by exists b]|]. cbn in H. destruct H as (H1 & H2 & H3).
  destruct (IH _ H3) as [H4 (c & Hc & H5)]. split; [done|]. exists c. split; [lia|done].
Qed.

Lemma mergable_rest v m t f k : Forall (touches v) m → Forall (λ x, v.2 < x.1) t →
  mergable_loop (m ++ t) v k (Some f) = (Some f, (k + length m)%nat).
Proof.
  intros Hm Ht. revert k. induction m as [|y m IHm]; intros k; cbn [app length].
  - destruct t as [|y t]; [by rewrite Nat.add_0_r|]. cbn. apply Forall_cons in Ht as [Hy _].
    rewrite (proj2 (Z.leb_gt _ _)) by done. by rewrite Nat.add_0_r.
  - cbn. apply Forall_cons in Hm as [[Hy _] Hm]. rewrite (proj2 (Z.leb_le _ _)) by done.
    rewrite IHm by done. f_equal. lia.
Qed.

Lemma mergable_loop_split v l m t i b : v.1 < v.2 → sorted b (l ++ m ++ t) →
  Forall (λ x, x.2 < v.1) l → Forall (touches v) m → Forall (λ x, v.2 < x.1) t →
  mergable_loop (l ++ m ++ t) v i None =
    (match m with [] => None | _ => Some (i + length l)%nat end, (i + length l + length m)%nat).
Proof.
  intros Hv. revert i b. induction l as [|x l IH]; intros i b Hs Hl Hm Ht.
  - cbn [app length]. replace (i + 0)%nat with i by lia. clear b Hs.
    destruct m as [|y m]; cbn [app].
    + destruct t as [|y t]; [cbn; by rewrite Nat.add_0_r|]. cbn. apply Forall_cons in Ht as [Hy _].
      rewrite (proj2 (Z.leb_gt _ _)) by done. by rewrite Nat.add_0_r.
    + cbn. apply Forall_cons in Hm as [[Hy1 Hy2] Hm]. rewrite (proj2 (Z.leb_le y.1 v.2)) by done.
      assert (range_overlap y v || range_adj y v = true) as ->.
      { unfold range_overlap, range_adj. destruct (Z.ltb_spec y.1 v.2), (Z.ltb_spec v.1 y.2); [done|..];
        apply orb_true_iff; right; apply orb_true_iff; rewrite !Z.eqb_eq; lia. }
      rewrite mergable_rest by done. f_equal. lia.
  - cbn [app] in Hs |- *. cbn in Hs. destruct Hs as (H1 & H2 & H3). apply Forall_cons in Hl as [Hx Hl]. cbn.
    rewrite (proj2 (Z.leb_le x.1 v.2)) by lia.
    assert (range_overlap x v || range_adj x v = false) as ->.
    { unfold range_overlap, range_adj. rewrite (proj2 (Z.ltb_ge v.1 x.2)) by lia.
      rewrite (proj2 (Z.eqb_neq x.2 v.1)), (proj2 (Z.eqb_neq v.2 x.1)) by lia. by rewrite andb_false_r. }
    rewrite (IH (S i) _ H3 Hl Hm Ht). f_equal; [destruct m; [done|f_equal; lia]|lia].
Qed.

Lemma merged_spec v ms a : a.1 ≤ v.1 → v.2 ≤ a.2 → Forall (touches v) ms →
  let m := foldl range_merge a ms in
  m.1 ≤ a.1 ∧ a.2 ≤ m.2 ∧
  (∀ c, c < a.1 → Forall (λ x, c < x.1) ms → c < m.1) ∧
  (∀ c, a.2 < c → Forall (λ x, x.2 < c) ms → m.2 < c) ∧
  ∀ w, m.1 ≤ w < m.2 ↔ a.1 ≤ w < a.2 ∨ within ms w.
Proof.
  revert a. induction ms as [|x ms IH]; intros a H1 H2 Hms; cbn [foldl].
  - cbn. split_and!; [lia|lia|done|done|]. intros w. split; [by left|intros [?|H]; [done|by apply within_nil in H]].
  - apply Forall_cons in Hms as [[T1 T2] Hms].
    destruct (IH (range_merge a x)) as (I1 & I2 & I3 & I4 & I5); [cbn; lia..|done|]. cbn [range_merge fst snd] in I1, I2, I3, I4, I5.
    cbn zeta. split_and!; [lia|lia| | |].
    + intros c Hc [Hx Hf]%Forall_cons. apply I3; [lia|done].
    + intros c Hc [Hx Hf]%Forall_cons. apply I4; [lia|done].
    + intros w. rewrite I5, within_cons. split; [intros [H|H]; [|tauto]|intros [H|[H|H]]; [left; lia|left; lia|by right]].
      destruct (decide (a.1 ≤ w < a.2)); [tauto|]. right. left. lia.
Qed.

Lemma sorted_front b r x : sorted b r → x ∈ r → b < x.1 ∧ x.1 < x.2.
Proof.
  revert b. induction r as [|y r IH]; intros b H Hx; [by apply not_elem_of_nil in Hx|]. cbn in H. destruct H as (H1 & H2 & H3).
  apply elem_of_cons in Hx as [->|Hx]; [done|]. destruct (IH _ H3 Hx). lia.
Qed.

Lemma sorted_join b l r : sorted b l → (∀ x y, x ∈ l → y ∈ r → x.2 < y.1) → sorted b r → sorted b (l ++ r).
Proof.
  revert b. induction l as [|x l IH]; intros b H Hlr Hr; [done|]. cbn in H |- *. destruct H as (H1 & H2 & H3).
  split_and!; [done|done|]. apply IH; [done| |].
  - intros y z Hy Hz. apply Hlr; [by right|done].
  - destruct r as [|y r]; [done|]. cbn in Hr |- *. destruct Hr as (_ & ? & ?). split_and!; [|done|done].
    apply Hlr; left.
Qed.

Lemma sorted_cross b l r x y : sorted b (l ++ r) → x ∈ l → y ∈ r → x.2 < y.1.
Proof.
  revert b. induction l as [|z l IH]; intros b H Hx Hy; [by apply not_elem_of_nil in Hx|]. cbn in H. destruct H as (H1 & H2 & H3).
  apply elem_of_cons in Hx as [->|Hx]; [|by apply (IH _ H3)].
  apply (sorted_front _ _ y H3). apply elem_of_app. by right.
Qed.

Lemma splice_spec b l m t v : sorted b (l ++ m ++ t) → v.1 < v.2 →
  ∀ x, b < x.1 → x.1 ≤ v.1 → v.2 ≤ x.2 → (∀ y, y ∈ t → x.2 < y.1) → (∀ y, y ∈ l → y.2 < x.1) →
    (∀ w, x.1 ≤ w < x.2 ↔ v.1 ≤ w < v.2 ∨ within m w) →
  sorted b (l ++ x :: t) ∧ ∀ w, within (l ++ x :: t) w ↔ within (l ++ m ++ t) w ∨ v.1 ≤ w < v.2.
Proof.
  intros Hs Hv x X1 X2 X3 Xt Xl Xm. apply ranges_sorted_app in Hs as [Hsl (c & Hc & Hs)]. apply ranges_sorted_app in Hs as [_ (d & Hd & Hst)]. split.
  - apply sorted_join; [done| |].
    + intros y z Hy [->|Hz]%elem_of_cons; [by apply Xl|]. specialize (Xl _ Hy). specialize (Xt _ Hz). lia.
    + cbn. split_and!; [lia|lia|]. destruct t as [|y t]; [done|]. cbn in Hst |- *. destruct Hst as (_ & ? & ?).
      split_and!; [|done|done]. apply Xt. left.
  - intros w. rewrite !within_app, within_cons, Xm. tauto.
Qed.

(** Inserting a range gives a well-formed vector with the union. *)
Lemma ranges_insert_spec b r v : sorted b r → b < v.1 → v.1 < v.2 →
  ∃ r', ranges_insert r v = Some r' ∧ sorted b r' ∧ ∀ w, within r' w ↔ within r w ∨ v.1 ≤ w < v.2.
Proof.
  intros Hs Hb Hv. destruct (ranges_sorted_split v _ _ Hs) as (l & m & t & -> & Hl & Hm & Ht).
  pose proof (splice_spec b l m t v) as G. specialize (G Hs Hv).
  unfold ranges_insert, ranges_mergable. rewrite (proj1 (sorted_still _ _ Hs)). cbn [mbind option_bind].
  rewrite (mergable_loop_split _ _ _ _ _ _ Hv Hs Hl Hm Ht). cbn [Nat.add].
  rewrite Forall_forall in Hl, Ht. destruct m as [|x m].
  - cbn [length]. rewrite Nat.add_0_r, take_app_length, drop_app_length. cbn [mbind option_bind].
    destruct (G v) as [G1 G2]; [lia..|done|done| |].
    { intros w. split; [by left|intros [?|H]; [done|by apply within_nil in H]]. }
    exists (l ++ v :: t). cbn [app]. by rewrite (proj1 (sorted_still _ _ G1)).
  - cbn [length]. assert (Hx : (l ++ (x :: m) ++ t) !! length l = Some x) by (by apply list_lookup_middle). rewrite Hx. cbn [mbind option_bind].
    apply Forall_cons in Hm as [[T1 T2] Hm].
    replace (drop (S (length l)) (l ++ (x :: m) ++ t)) with (m ++ t).
    2:{ change (l ++ (x :: m) ++ t) with (l ++ [x] ++ (m ++ t)). rewrite app_assoc.
        rewrite drop_app_length'; [done|]. rewrite length_app. cbn. lia. }
    replace (length l + S (length m) - S (length l))%nat with (length m) by lia. rewrite take_app_length, take_app_length.
    replace (drop (length l + S (length m)) (l ++ (x :: m) ++ t)) with t.
    2:{ rewrite app_assoc, drop_app_length'; [done|]. rewrite length_app. done. }
    destruct (merged_spec v m (range_merge x v)) as (I1 & I2 & I3 & I4 & I5); [cbn; lia..|done|].
    set (y := foldl range_merge (range_merge x v) m) in *. cbn [range_merge fst snd] in I1, I2, I3, I4, I5.
    assert (Hxs : x ∈ x :: m) by left.
    assert (Hms : ∀ z, z ∈ x :: m → b < z.1 ∧ z.1 < z.2).
    { intros z Hz. apply (sorted_front _ _ z Hs). apply elem_of_app. right. apply elem_of_app. by left. }
    assert (Hlm : ∀ z u, z ∈ l → u ∈ x :: m → z.2 < u.1).
    { intros z u Hz Hu. apply (sorted_cross _ _ _ _ _ Hs Hz). apply elem_of_app. by left. }
    assert (Hmt : ∀ z u, z ∈ x :: m → u ∈ t → z.2 < u.1).
    { intros z u Hz Hu. rewrite app_assoc in Hs. apply (sorted_cross _ _ _ _ _ Hs); [|done]. apply elem_of_app. by right. }
    destruct (G y) as [G1 G2].
    + apply I3; [destruct (Hms _ Hxs); lia|]. apply Forall_forall. intros z Hz. apply Hms. by right.
    + lia.
    + lia.
    + intros z Hz. apply I4; [specialize (Ht _ Hz); specialize (Hmt _ _ Hxs Hz); lia|].
      apply Forall_forall. intros u Hu. apply Hmt; [by right|done].
    + intros z Hz. apply I3; [specialize (Hl _ Hz); specialize (Hlm _ _ Hz Hxs); lia|].
      apply Forall_forall. intros u Hu. apply Hlm; [done|by right].
    + intros w. rewrite I5, within_cons. destruct (decide (v.1 ≤ w < v.2)); [intuition lia|]. split; [intros [H|H]; [right; left; lia|tauto]|intros [H|[H|H]]; [left; lia|left; lia|tauto]].
    + exists (l ++ y :: t). by rewrite (proj1 (sorted_still _ _ G1)).
Qed.

(** ** Subtraction is difference *)

Definition loop_final (cur : option SeqRange) (lhs rhs out : Ranges) : Ranges :=
  match rhs, cur with [], Some cur => out ++ cur :: lhs | _, _ => out end.

Definition loop_measure (cur : SeqRange) (lhs rhs : Ranges) : nat :=
  2 * (length lhs + length rhs) + match rhs with j :: _ => if range_overlap cur j then 1 else 0 | [] => 0 end.

Lemma loop_measure_le cur lhs rhs : (loop_measure cur lhs rhs ≤ 2 * (length lhs + length rhs) + 1)%nat.
Proof. unfold loop_measure. destruct rhs; [lia|]. destruct (range_overlap _ _); lia. Qed.

(** What the loop promises for the ranges that are left. *)
Definition loop_ok (b : Z) (todo rhs result : Ranges) (r : option (option SeqRange * Ranges * Ranges * Ranges)) : Prop :=
  ∃ ocur lhs' rhs' out, r = Some (ocur, lhs', rhs', result ++ out) ∧
    sorted b (loop_final ocur lhs' rhs' out) ∧
    ∀ w, within (loop_final ocur lhs' rhs' out) w ↔ within todo w ∧ ¬ within rhs w.

Lemma loop_final_cons ocur lhs rhs x out : loop_final ocur lhs rhs (x :: out) = x :: loop_final ocur lhs rhs out.
Proof. by destruct rhs, ocur. Qed.

(** A range that is settled goes in front of the rest. *)
Lemma loop_ok_push b c x todo0 rhs0 todo rhs result r : b < x.1 → x.1 < x.2 → x.2 ≤ c →
  loop_ok c todo rhs (result ++ [x]) r →
  (∀ w, within todo0 w ∧ ¬ within rhs0 w ↔ x.1 ≤ w < x.2 ∨ (within todo w ∧ ¬ within rhs w)) →
  loop_ok b todo0 rhs0 result r.
Proof.
  intros H1 H2 H3 (ocur & lhs' & rhs' & out & -> & Hs & Hw) Heq. exists ocur, lhs', rhs', (x :: out).
  rewrite <-app_assoc, loop_final_cons. split_and!; [done|cbn; split_and!; [done|done|by apply (sorted_weaken _ c)]|].
  intros w. by rewrite within_cons, Hw, Heq.
Qed.

Lemma loop_ok_same b c todo0 rhs0 todo rhs result r : b ≤ c → loop_ok c todo rhs result r →
  (∀ w, within todo0 w ∧ ¬ within rhs0 w ↔ (within todo w ∧ ¬ within rhs w)) →
  loop_ok b todo0 rhs0 result r.
Proof.
  intros Hbc (ocur & lhs' & rhs' & out & -> & Hs & Hw) Heq. exists ocur, lhs', rhs', out.
  split_and!; [done|by apply (sorted_weaken _ c)|]. intros w. by rewrite Hw, Heq.
Qed.

Lemma disjoint_overlap x y : x.2 ≤ y.1 ∨ y.2 ≤ x.1 → range_overlap x y = false.
Proof.
  unfold range_overlap. intros [H|H]; [rewrite (proj2 (Z.ltb_ge y.1 x.2)) by done|rewrite (proj2 (Z.ltb_ge x.1 y.2)) by done].
  - by rewrite andb_false_r.
  - done.
Qed.

Lemma subtract_loop_spec fuel : ∀ cur lhs rhs result b c,
  sorted b (cur :: lhs) → sorted c rhs → (loop_measure cur lhs rhs < fuel)%nat →
  loop_ok b (cur :: lhs) rhs result (subtract_loop fuel cur lhs rhs result).
Proof.
  induction fuel as [|fuel IH]; intros cur lhs rhs result b c Hl Hr Hf; [lia|]. cbn [subtract_loop].
  destruct rhs as [|j rhs].
  { exists (Some cur), lhs, [], []. rewrite app_nil_r. cbn [loop_final app]. split_and!; [done|done|].
    intros w. split; [intros ?; split; [done|apply within_nil]|tauto]. }
  cbn in Hl, Hr. destruct Hl as (L1 & L2 & L3). pose proof Hr as (R1 & R2 & R3).
  assert (HL : ∀ w, within lhs w → cur.2 < w) by (intros w Hw; by apply (sorted_within _ _ _ L3)).
  assert (HR : ∀ w, within rhs w → j.2 < w) by (intros w Hw; by apply (sorted_within _ _ _ R3)).
  assert (Adv : ∀ res, loop_ok cur.2 lhs (j :: rhs) res
    match lhs with [] => Some (None, [], j :: rhs, res) | l :: lhs' => subtract_loop fuel l lhs' (j :: rhs) res end).
  { intros res. destruct lhs as [|l lhs].
    - exists None, [], (j :: rhs), []. rewrite app_nil_r. split_and!; [done|done|]. intros w.
      split; [intros H|intros [H _]]; by apply within_nil in H.
    - apply (IH _ _ _ _ _ c); [done|done|]. pose proof (loop_measure_le l lhs (j :: rhs)).
      unfold loop_measure in Hf. cbn [length] in *. lia. }
  assert (Hlen : ∀ cur', loop_measure cur' lhs (j :: rhs) = (2 * (length lhs + length (j :: rhs)) + if range_overlap cur' j then 1 else 0)%nat)
    by done.
  destruct (Z.leb_spec j.2 cur.1) as [D1|D1].
  - apply (loop_ok_same b b _ _ (cur :: lhs) rhs); [lia| |].
    + apply (IH _ _ _ _ _ j.2); [done|done|]. pose proof (loop_measure_le cur lhs rhs). rewrite Hlen in Hf. cbn [length] in Hf. lia.
    + intros w. rewrite (within_cons j). setoid_rewrite within_cons. specialize (HL w). intuition lia.
  - destruct (Z.leb_spec cur.2 j.1) as [D2|D2].
    + apply (loop_ok_push b cur.2 cur _ _ lhs (j :: rhs)); [done|done|lia|apply Adv|].
      intros w. rewrite !within_cons. specialize (HL w). specialize (HR w). destruct (Z.lt_ge_cases w j.1); intuition lia.
    + assert (Hov : range_overlap cur j = true).
      { unfold range_overlap. by rewrite (proj2 (Z.ltb_lt cur.1 j.2)), (proj2 (Z.ltb_lt j.1 cur.2)) by lia. }
      assert (Hlow : ∀ cur', cur'.2 ≤ j.1 ∨ j.2 ≤ cur'.1 → (loop_measure cur' lhs (j :: rhs) < fuel)%nat).
      { intros cur' Hd. rewrite Hlen, Hov in Hf. rewrite Hlen, disjoint_overlap by done. lia. }
      unfold range_subtract. rewrite Hov.
      destruct (Z.ltb_spec cur.1 j.1) as [D3|D3], (Z.ltb_spec j.2 cur.2) as [D4|D4];
        cbn [app still_sorted_ fst snd mbind option_bind].
      * rewrite (proj2 (Z.ltb_lt cur.1 j.1)), (proj2 (Z.ltb_lt j.1 j.2)) by lia. cbn [andb mbind option_bind List.last].
        apply (loop_ok_push b j.1 (cur.1, j.1) _ _ ((j.2, cur.2) :: lhs) (j :: rhs)); [done|done|cbn; lia| |].
        -- apply (IH _ _ _ _ _ c); [cbn; done|done|]. apply Hlow. cbn. lia.
        -- intros w. rewrite !within_cons. cbn [fst snd]. specialize (HL w). specialize (HR w). destruct (Z.lt_ge_cases w j.1); intuition lia.
      * apply (loop_ok_same b b _ _ ((cur.1, j.1) :: lhs) (j :: rhs)); [lia| |].
        -- apply (IH _ _ _ _ _ c); [|done|apply Hlow; cbn; lia]. cbn. split_and!; [done|done|].
           apply (sorted_weaken _ cur.2); [lia|done].
        -- intros w. rewrite !within_cons. cbn [fst snd]. specialize (HL w). specialize (HR w). destruct (Z.lt_ge_cases w j.1); intuition lia.
      * apply (loop_ok_same b b _ _ ((j.2, cur.2) :: lhs) (j :: rhs)); [lia| |].
        -- apply (IH _ _ _ _ _ c); [|done|apply Hlow; cbn; lia]. cbn. split_and!; [lia|done|done].
        -- intros w. rewrite !within_cons. cbn [fst snd]. specialize (HL w). specialize (HR w). destruct (Z.lt_ge_cases w j.1); intuition lia.
      * apply (loop_ok_same b cur.2 _ _ lhs (j :: rhs)); [lia|apply Adv|].
        intros w. rewrite !within_cons. specialize (HL w). specialize (HR w). destruct (Z.lt_ge_cases w j.1); intuition lia.
Qed.

(** Subtracting gives a well-formed vector with the difference; the loop
    always ends. *)
Lemma ranges_subtract_spec b c lhs rhs : sorted b lhs → sorted c rhs →
  ∃ r, ranges_subtract lhs rhs = Some r ∧ sorted b r ∧ ∀ w, within r w ↔ within lhs w ∧ ¬ within rhs w.
Proof.
  intros Hl Hr. assert (Done : ∀ r, sorted b r →
    (if forallb (λ range, range.1 <? range.2) r && still_sorted_ r then Some r else None) = Some r).
  { intros r H. destruct (sorted_still _ _ H) as [-> ->]. done. }
  unfold ranges_subtract. destruct rhs as [|j rhs]; cbn [mbind option_bind].
  { exists lhs. split_and!; [by apply Done|done|]. intros w. split; [intros ?; split; [done|apply within_nil]|tauto]. }
  destruct lhs as [|cur lhs]; cbn [mbind option_bind].
  { exists []. split_and!; [done|done|]. intros w. split; [intros H|intros [H _]]; by apply within_nil in H. }
  destruct (subtract_loop_spec (2 * (length lhs + length (j :: rhs)) + 3) cur lhs (j :: rhs) [] _ _ Hl Hr) as (ocur & lhs' & rhs' & out & E & Hs & Hw).
  { pose proof (loop_measure_le cur lhs (j :: rhs)). lia. }
  rewrite E. cbn [mbind option_bind app]. exists (loop_final ocur lhs' rhs' out).
  assert (Hf : (match rhs', ocur with [], Some cur => Some (out ++ cur :: lhs') | _, _ => Some out end)
    = Some (loop_final ocur lhs' rhs' out)) by (by destruct rhs', ocur).
  rewrite Hf. cbn [mbind option_bind]. split_and!; [by apply Done|done|done].
Qed.

(** ** Every history of a tally *)

Record tally_ok (rt : RetransmitTally) : Prop := mkTallyOk {
  to_last : -1 ≤ last_ack_ rt < 2 ^ 32 - 1;
  to_dups : 0 < num_dupl_ack_ rt → 0 ≤ last_ack_ rt;
  to_marked : sorted (-1) (marked_lost_ rt);
  to_sacked : sorted (-1) (sacked_ rt);
  to_retransmitted : sorted (-1) (retransmitted_ rt);
  to_lost : sorted (-1) (lost_ rt);
}.

(** Lost is what was marked, not acknowledged selectively and not sent again. *)
Definition lost_exact (rt : RetransmitTally) : Prop :=
  ∀ w, within (lost_ rt) w ↔ within (marked_lost_ rt) w ∧ ¬ within (sacked_ rt) w ∧ ¬ within (retransmitted_ rt) w.

Lemma compute_lost_spec rt : tally_ok rt → ∃ lost, compute_lost rt = Some (rt <| lost_ := lost |>) ∧
  tally_ok (rt <| lost_ := lost |>) ∧ lost_exact (rt <| lost_ := lost |>).
Proof.
  intros [A B C D E F]. unfold compute_lost.
  destruct (ranges_subtract_spec _ _ _ _ C D) as (l1 & -> & S1 & W1). cbn [mbind option_bind].
  destruct (ranges_subtract_spec _ _ _ _ S1 E) as (l2 & -> & S2 & W2). cbn [mbind option_bind].
  exists l2. split_and!; [done|by constructor|]. intros w. cbn. rewrite W2, W1. tauto.
Qed.

Lemma sorted_filter b r f : sorted b r → sorted b (List.filter f r).
Proof.
  revert b. induction r as [|x r IH]; intros b H; [done|]. cbn in H |- *. destruct H as (H1 & H2 & H3).
  destruct (f x); [cbn; split_and!; [done|done|by apply IH]|]. apply (sorted_weaken _ x.2); [lia|by apply IH].
Qed.

(** An acknowledgement forgets only what is before it. *)
Lemma tidy_ranges_spec a r : -1 < a → sorted (-1) r → ∃ r', tidy_ranges a r = Some r' ∧ sorted (-1) r' ∧
  (∀ w, within r' w → within r w) ∧ ∀ w, a ≤ w → within r w → within r' w.
Proof.
  intros Ha H. unfold tidy_ranges. rewrite (proj1 (sorted_still _ _ H)).
  assert (Done : ∀ r', sorted (-1) r' → (if still_sorted_ r' then Some r' else None) = Some r').
  { intros r' Hr. by rewrite (proj1 (sorted_still _ _ Hr)). }
  destruct r as [|x r]; [exists []; split_and!; auto|]. pose proof H as (H1 & H2 & H3).
  destruct (Z.leb_spec x.1 a) as [L1|L1], (Z.ltb_spec a (x.2 - 1)) as [L2|L2]; cbn [andb].
  - exists ((a, x.2) :: r). assert (S : sorted (-1) ((a, x.2) :: r)) by (cbn; split_and!; [lia|lia|done]).
    split_and!; [by apply Done|done|..].
    + intros w. rewrite !within_cons. cbn. intros [?|?]; [left; lia|by right].
    + intros w Hw. rewrite !within_cons. cbn. intros [?|?]; [left; lia|by right].
  - rewrite (proj2 (Z.leb_le (x.2 - 1) a)) by lia. set (f := λ range : SeqRange, _).
    pose proof (sorted_filter _ _ f H) as S. exists (List.filter f (x :: r)). split_and!; [by apply Done|done|..].
    + intros w (y & Hy & Hv). exists y. split; [|done]. apply list_elem_of_In, filter_In in Hy as [Hy _]. by apply list_elem_of_In.
    + intros w Hw (y & Hy & Hv). exists y. split; [|done]. apply list_elem_of_In, filter_In. split; [by apply list_elem_of_In|].
      unfold f. by rewrite (proj2 (Z.leb_gt y.2 a)) by lia.
  - rewrite (proj2 (Z.leb_gt (x.2 - 1) a)) by lia. exists (x :: r). split_and!; auto.
  - lia.
Qed.

(** What TCP does to a tally. *)
Inductive TallyOp :=
| OpUpdate (last_ack max_ack : Z) (is_dup : bool)
| OpSacked (l : list Z)
| OpLost (begin end_ : Z)
| OpRetransmitted (begin end_ : Z)
| OpClear.

Definition tally_op (rt : RetransmitTally) (op : TallyOp) : option RetransmitTally :=
  match op with
  | OpUpdate a m d => '(rt, _) ← retransmit_tally_update rt a m d; Some rt
  | OpSacked l => retransmit_tally_mark_sacked rt l
  | OpLost b e => retransmit_tally_mark_lost rt b e
  | OpRetransmitted b e => retransmit_tally_mark_retransmitted rt b e
  | OpClear => Some (retransmit_tally_clear_retransmitted rt)
  end.

Fixpoint tally_run (rt : RetransmitTally) (ops : list TallyOp) : option RetransmitTally :=
  match ops with [] => Some rt | op :: ops => rt ← tally_op rt op; tally_run rt ops end.

(** The sequence numbers that have not wrapped around, and acknowledged
    selectively those that a signed integer can hold with their successor. *)
Definition sackable (s : Z) : Prop := 0 ≤ s < 2 ^ 31 - 1.

Definition op_in_range (op : TallyOp) : Prop :=
  match op with
  | OpUpdate a _ _ => 0 ≤ a < 2 ^ 32 - 1
  | OpSacked l => Forall sackable l
  | OpLost b e => 0 ≤ b ≤ e + 1 ∧ e < 2 ^ 32 - 1
  | OpRetransmitted b e => 0 ≤ b < e ∧ e < 2 ^ 32
  | OpClear => True
  end.

(** The block that has begun, up to the next element of the list. *)
Definition pending (first : Z) (l : list Z) (w : Z) : Prop :=
  first ≠ -1 ∧ match l with s :: _ => first ≤ w < s | [] => False end.

Lemma i32_sackable s : sackable s → i32 s = s.
Proof. unfold sackable. intros H. apply i32_small. lia. Qed.

(** A sequence number from the upper half is taken for a negative one. *)
Example sacked_upper_half :
  mark_sacked_loop [] (-1) [2 ^ 31 + 5] = Some [(- 2 ^ 31 + 5, - 2 ^ 31 + 6)] ∧
  mark_sacked_loop [] (-1) [2 ^ 31 - 1] = None.
Proof. done. Qed.

Lemma mark_sacked_loop_spec l : ∀ ranges first, sorted (-1) ranges → Forall sackable l →
  (first = -1 ∨ 0 ≤ first ∧ match l with s :: _ => first < s | [] => False end) →
  ∃ r, mark_sacked_loop ranges first l = Some r ∧ sorted (-1) r ∧
    ∀ w, within r w ↔ within ranges w ∨ w ∈ l ∨ pending first l w.
Proof.
  induction l as [|s l IH]; intros ranges first Hr Hl Hf; cbn [mark_sacked_loop].
  { exists ranges. split_and!; [done|done|]. intros w. unfold pending. split; [by left|].
    intros [?|[H|[_ []]]]; [done|by apply not_elem_of_nil in H]. }
  apply Forall_cons in Hl as [Hs Hl]. rewrite (i32_sackable s Hs). unfold sackable in Hs. cbn zeta.
  rewrite (proj2 (Z.eqb_neq s (2 ^ 31 - 1))) by lia. set (first' := if first =? -1 then s else first).
  assert (F : 0 ≤ first' ≤ s ∧ ∀ w, first' ≤ w < s + 1 ↔ w = s ∨ pending first (s :: l) w).
  { unfold first', pending. destruct (Z.eqb_spec first (-1)) as [E|E].
    - split; [lia|]. intros w. split; [left; lia|intros [?|[? _]]; [lia|done]].
    - destruct Hf as [?|[? ?]]; [done|]. split; [lia|]. intros w.
      destruct (decide (w = s)) as [->|N]; [split; [by left|lia]|]. split; [right; split; [done|lia]|intros [?|[_ ?]]; [done|lia]]. }
  destruct F as [F1 F2].
  assert (G : ∀ r q, (∀ w, within r w ↔ within ranges w ∨ first' ≤ w < s + 1 ∨ w ∈ l ∨ q w) → (∀ w, ¬ q w) →
    ∀ w, within r w ↔ within ranges w ∨ w ∈ s :: l ∨ pending first (s :: l) w).
  { intros r q Hw Hq w. rewrite Hw, F2, elem_of_cons. specialize (Hq w). tauto. }
  destruct (match l with [] => true | n :: _ => negb (i32 n =? s + 1) end) eqn:En.
  - destruct (ranges_insert_spec _ _ (first', s + 1) Hr) as (r1 & E1 & S1 & W1); [cbn; lia..|].
    rewrite E1. cbn [mbind option_bind]. destruct (IH r1 (-1) S1 Hl) as (r2 & -> & S2 & W2); [by left|].
    exists r2. split_and!; [done|done|]. apply (G _ (λ _, False)); [|tauto]. intros w. rewrite W2, W1. unfold pending. cbn. tauto.
  - destruct l as [|n l]; [done|]. apply negb_false_iff, Z.eqb_eq in En.
    rewrite (i32_sackable n) in En by (by apply Forall_cons in Hl as [? _]).
    destruct (IH ranges first' Hr Hl) as (r2 & -> & S2 & W2); [right; split; [lia|lia]|].
    exists r2. split_and!; [done|done|]. apply (G _ (λ _, False)); [|tauto]. intros w. rewrite W2. unfold pending. rewrite En.
    assert (first' ≠ -1) by lia. tauto.
Qed.

(** What an acknowledgement does before losses are considered. *)
Definition dups_after (ack dups a : Z) (is_dup : bool) : Z :=
  if is_dup && (a =? ack) then u64 (dups + 1) else if ack <? a then 0 else dups.

Definition tally_acked (rt rt' : RetransmitTally) (a : Z) (d : bool) : Prop :=
  last_ack_ rt' = Z.max (last_ack_ rt) a ∧
  num_dupl_ack_ rt' = dups_after (last_ack_ rt) (num_dupl_ack_ rt) a d ∧
  ∀ w, last_ack_ rt' ≤ w →
    (within (sacked_ rt') w ↔ within (sacked_ rt) w) ∧
    (within (retransmitted_ rt') w ↔ within (retransmitted_ rt) w).

Definition acked_step (rt : RetransmitTally) (last_ack : Z) (is_dup : bool) : option RetransmitTally :=
  if is_dup && (last_ack =? last_ack_ rt) then Some (rt <| num_dupl_ack_ := u64 (num_dupl_ack_ rt + 1) |>)
  else if last_ack_ rt <? last_ack then
    let rt := rt <| last_ack_ := last_ack |> <| num_dupl_ack_ := 0 |> in
    marked_lost ← tidy_ranges last_ack (marked_lost_ rt);
    sacked ← tidy_ranges last_ack (sacked_ rt);
    retransmitted ← tidy_ranges last_ack (retransmitted_ rt);
    Some (rt <| marked_lost_ := marked_lost |> <| sacked_ := sacked |> <| retransmitted_ := retransmitted |>)
  else Some rt.

Lemma acked_step_spec rt a d : tally_ok rt → 0 ≤ a < 2 ^ 32 - 1 →
  ∃ rt', acked_step rt a d = Some rt' ∧ tally_ok rt' ∧ tally_acked rt rt' a d ∧
    ∀ w, last_ack_ rt' ≤ w → (within (marked_lost_ rt') w ↔ within (marked_lost_ rt) w).
Proof.
  intros [A B C D E F] Ha. unfold acked_step, tally_acked. destruct (d && (a =? last_ack_ rt)) eqn:Ed.
  { pose proof Ed as [_ ->%Z.eqb_eq]%andb_true_iff. unfold dups_after. rewrite Ed.
    eexists. split_and!; [done|constructor; cbn; [done|lia|done..]|cbn; lia|done|done|done]. }
  destruct (Z.ltb_spec (last_ack_ rt) a) as [L|L].
  - cbn. destruct (tidy_ranges_spec a _ ltac:(lia) C) as (r1 & -> & S1 & I1 & O1).
    destruct (tidy_ranges_spec a _ ltac:(lia) D) as (r2 & -> & S2 & I2 & O2).
    destruct (tidy_ranges_spec a _ ltac:(lia) E) as (r3 & -> & S3 & I3 & O3). cbn [mbind option_bind].
    eexists. split; [done|]. unfold dups_after. rewrite Ed, (proj2 (Z.ltb_lt _ _)) by done.
    cbn. split_and!; [constructor; cbn; [lia|lia|done..]|lia|done|intros w Hw; split; split; auto|].
    intros w Hw. split; auto.
  - unfold dups_after. rewrite Ed, (proj2 (Z.ltb_ge _ _)) by done.
    exists rt. split_and!; [done|by constructor|lia|done|done|done].
Qed.

(** Every acknowledgement is processed; a third duplicate marks the packet
    that is asked for, unless it was already sent again. *)
Lemma tally_update_spec rt a m d : tally_ok rt → 0 ≤ a < 2 ^ 32 - 1 →
  ∃ rt' f, retransmit_tally_update rt a m d = Some (rt', f) ∧ tally_ok rt' ∧ tally_acked rt rt' a d ∧
    (∀ w, last_ack_ rt' ≤ w → (within (marked_lost_ rt') w ↔ within (marked_lost_ rt) w ∨
       (w = last_ack_ rt' ∧ kDuplAckLostThresh ≤ num_dupl_ack_ rt' ∧ ¬ within (retransmitted_ rt') w))) ∧
    (kDuplAckLostThresh ≤ num_dupl_ack_ rt' → ¬ within (retransmitted_ rt') (last_ack_ rt') → lost_exact rt') ∧
    (f = TCP_PF_DATA_LOST_ → lost_exact rt' ∧ ∃ w, within (lost_ rt') w).
Proof.
  intros Hok Ha. destruct (acked_step_spec rt a d Hok Ha) as (rt1 & E1 & Hok1 & Hacked & Hm).
  unfold retransmit_tally_update. fold (acked_step rt a d). rewrite E1. cbn [mbind option_bind].
  destruct (Z.leb_spec kDuplAckLostThresh (num_dupl_ack_ rt1)) as [L|L]; cbn [andb].
  2:{ exists rt1, TCP_PF_NONE_. split_and!; [done|done|done| |lia|done]. intros w Hw. rewrite (Hm w Hw). split; [by left|].
      intros [?|(_ & ? & _)]; [done|lia]. }
  destruct (ranges_contains (retransmitted_ rt1) (last_ack_ rt1)) eqn:Ec; cbn [negb].
  { exists rt1, TCP_PF_NONE_. apply ranges_contains_within in Ec. split_and!; [done|done|done| |done|done]. intros w Hw. rewrite (Hm w Hw). split; [by left|].
    intros [?|(-> & _ & H)]; [done|]. by destruct H. }
  pose proof Hok1 as [A B C D E F]. assert (H0 : 0 ≤ last_ack_ rt1) by (apply B; unfold kDuplAckLostThresh in L; lia).
  rewrite u32_small by lia.
  destruct (ranges_insert_spec _ _ (last_ack_ rt1, last_ack_ rt1 + 1) C) as (r & -> & S & W); [cbn; lia..|].
  cbn [mbind option_bind].
  destruct (compute_lost_spec (rt1 <| marked_lost_ := r |>)) as (lost & -> & Hok2 & Hex); [by constructor|].
  cbn [mbind option_bind]. do 2 eexists. split; [done|]. split_and!; [done|done| |done|].
  - intros w Hw. cbn. rewrite W, (Hm w Hw). cbn. split; (intros [?|H]; [by left|right]); [|lia].
    assert (w = last_ack_ rt1) as -> by lia. split_and!; [done|done|]. intros Hx. apply ranges_contains_within in Hx. congruence.
  - intros Hf. split; [done|]. pose proof (to_lost _ Hok2) as S2. cbn in Hf, S2 |- *. destruct lost as [|x lost]; [done|].
    exists x.1. apply within_cons. left. destruct S2 as (_ & ? & _). lia.
Qed.

Lemma tally_sacked_spec rt l : tally_ok rt → Forall sackable l →
  ∃ r, retransmit_tally_mark_sacked rt l = Some (rt <| sacked_ := r |>) ∧ tally_ok (rt <| sacked_ := r |>) ∧
    ∀ w, within r w ↔ within (sacked_ rt) w ∨ w ∈ l.
Proof.
  intros [A B C D E F] Hl. unfold retransmit_tally_mark_sacked.
  destruct (mark_sacked_loop_spec l _ (-1) D Hl) as (r & -> & S & W); [by left|]. cbn [mbind option_bind].
  exists r. split_and!; [done|by constructor|]. intros w. rewrite W. unfold pending. tauto.
Qed.

Lemma tally_lost_spec rt b e : tally_ok rt → 0 ≤ b ≤ e + 1 → e < 2 ^ 32 - 1 →
  ∃ rt', retransmit_tally_mark_lost rt b e = Some rt' ∧ tally_ok rt' ∧ last_ack_ rt' = last_ack_ rt ∧
    num_dupl_ack_ rt' = num_dupl_ack_ rt ∧
    sacked_ rt' = sacked_ rt ∧ retransmitted_ rt' = retransmitted_ rt ∧ (b ≤ e → lost_exact rt') ∧
    ∀ w, within (marked_lost_ rt') w ↔ within (marked_lost_ rt) w ∨ b ≤ w < Z.max e (Z.min (b + 1) (e + 1)).
Proof.
  intros Hok Hb He. unfold retransmit_tally_mark_lost. rewrite u32_small by lia.
  destruct (Z.eqb_spec b (e + 1)) as [E1|E1].
  { exists rt. split_and!; [done|done|done|done|done|done|lia|]. intros w. split; [by left|]. intros [?|?]; [done|lia]. }
  pose proof Hok as [A B C D E F].
  set (e' := if b =? e then e + 1 else e). assert (He' : b < e' ∧ Z.max e (Z.min (b + 1) (e + 1)) = e').
  { unfold e'. destruct (Z.eqb_spec b e); lia. }
  destruct He' as [L ->]. rewrite (proj2 (Z.ltb_lt _ _)) by done.
  destruct (ranges_insert_spec _ _ (b, e') C) as (r & -> & S & W); [cbn; lia..|]. cbn [mbind option_bind].
  destruct (compute_lost_spec (rt <| marked_lost_ := r |>)) as (lost & -> & Hok2 & Hex); [by constructor|].
  eexists. split_and!; [done|done|done|done|done|done|done|]. intros w. cbn. by rewrite W.
Qed.

Lemma tally_retransmitted_spec rt b e : tally_ok rt → 0 ≤ b < e →
  ∃ rt', retransmit_tally_mark_retransmitted rt b e = Some rt' ∧ tally_ok rt' ∧ last_ack_ rt' = last_ack_ rt ∧
    num_dupl_ack_ rt' = num_dupl_ack_ rt ∧
    sacked_ rt' = sacked_ rt ∧ marked_lost_ rt' = marked_lost_ rt ∧ lost_exact rt' ∧
    ∀ w, within (retransmitted_ rt') w ↔ within (retransmitted_ rt) w ∨ b ≤ w < e.
Proof.
  intros [A B C D E F] Hb. unfold retransmit_tally_mark_retransmitted.
  destruct (ranges_insert_spec _ _ (b, e) E) as (r & -> & S & W); [cbn; lia..|]. cbn [mbind option_bind].
  destruct (compute_lost_spec (rt <| retransmitted_ := r |>)) as (lost & -> & Hok2 & Hex); [by constructor|].
  eexists. split_and!; [done|done|done|done|done|done|done|]. intros w. cbn. by rewrite W.
Qed.

(** ** What TCP was told, and what the tally says *)

(** Sets of sequence numbers, as the operations name them, with the highest
    acknowledgement and the duplicates of it. *)
Record Told := mkTold {
  told_ack : Z;
  told_dups : Z;
  told_lost : Z → Prop;
  told_sacked : Z → Prop;
  told_resent : Z → Prop;
}.

#[export] Instance told_eta : Eta Told := fun t =>
  mkTold (told_ack t) (told_dups t) (told_lost t) (told_sacked t) (told_resent t).

Definition told_nothing : Told := mkTold (-1) 0 (λ _, False) (λ _, False) (λ _, False).

(** Enough duplicates ask for a packet that was not sent again. *)
Definition asked_for (t : Told) : Prop := kDuplAckLostThresh ≤ told_dups t ∧ ¬ told_resent t (told_ack t).

Definition told (t : Told) (op : TallyOp) : Told :=
  match op with
  | OpUpdate a _ d =>
      let t := t <| told_dups := dups_after (told_ack t) (told_dups t) a d |> <| told_ack := Z.max (told_ack t) a |> in
      t <| told_lost := λ w, told_lost t w ∨ w = told_ack t ∧ asked_for t |>
  | OpSacked l => t <| told_sacked := λ w, told_sacked t w ∨ w ∈ l |>
  | OpLost b e => t <| told_lost := λ w, told_lost t w ∨ b ≤ w < e ∨ b = e ∧ w = b |>
  | OpRetransmitted b e => t <| told_resent := λ w, told_resent t w ∨ b ≤ w < e |>
  | OpClear => t <| told_resent := λ _, False |>
  end.

(** The operations that find out anew what is lost. *)
Definition recounts (t : Told) (op : TallyOp) : Prop :=
  match op with
  | OpUpdate _ _ _ => asked_for (told t op)
  | OpLost b e => b ≤ e
  | OpRetransmitted _ _ => True
  | OpSacked _ | OpClear => False
  end.

Record agrees (rt : RetransmitTally) (t : Told) : Prop := {
  ag_ack : last_ack_ rt = told_ack t;
  ag_dups : num_dupl_ack_ rt = told_dups t;
  ag_lost : ∀ w, told_ack t ≤ w → (within (marked_lost_ rt) w ↔ told_lost t w);
  ag_sacked : ∀ w, told_ack t ≤ w → (within (sacked_ rt) w ↔ told_sacked t w);
  ag_resent : ∀ w, told_ack t ≤ w → (within (retransmitted_ rt) w ↔ told_resent t w);
}.

Lemma update_agrees rt rt' t a m d : agrees rt t → tally_acked rt rt' a d →
  (∀ w, last_ack_ rt' ≤ w → (within (marked_lost_ rt') w ↔ within (marked_lost_ rt) w ∨
     (w = last_ack_ rt' ∧ kDuplAckLostThresh ≤ num_dupl_ack_ rt' ∧ ¬ within (retransmitted_ rt') w))) →
  agrees rt' (told t (OpUpdate a m d)).
Proof.
  intros [A1 A2 A3 A4 A5] (L & D & H) M. rewrite A1 in L. rewrite A1, A2 in D. rewrite L, D in M. rewrite L in H.
  constructor; cbn; [done|done|..]; intros w Hw; specialize (H w Hw) as [H1 H2].
  - rewrite (M w Hw), (A3 w) by lia. unfold asked_for. cbn. rewrite H2, (A5 w) by lia.
    split; (intros [?|Hx]; [by left|right]); [|by destruct Hx as (-> & ? & ?)].
    destruct Hx as (-> & ? & ?). done.
  - rewrite H1. apply A4. lia.
  - rewrite H2. apply A5. lia.
Qed.

Lemma tally_op_ok rt t op : tally_ok rt → agrees rt t → op_in_range op →
  ∃ rt', tally_op rt op = Some rt' ∧ tally_ok rt' ∧ agrees rt' (told t op) ∧ (recounts t op → lost_exact rt').
Proof.
  intros Hok Ha Hop. destruct op as [a m d|l|b e|b e|]; cbn [tally_op op_in_range] in *.
  - destruct (tally_update_spec rt a m d Hok Hop) as (rt' & f & -> & Hok' & Hk & Hm & Hex & _). exists rt'.
    pose proof (update_agrees rt rt' t a m d Ha Hk Hm) as Ha'. split_and!; [done|done|done|].
    intros [H1 H2]. apply Hex; [by rewrite (ag_dups _ _ Ha')|]. rewrite (ag_ack _ _ Ha'), (ag_resent _ _ Ha') by done. done.
  - destruct (tally_sacked_spec rt l Hok Hop) as (r & -> & Hok' & W). eexists. split_and!; [done|done| |done].
    destruct Ha as [A1 A2 A3 A4 A5]. constructor; cbn; [done|done|done| |done]. intros w Hw. by rewrite W, A4.
  - destruct Hop as [H1 H2]. destruct (tally_lost_spec rt b e Hok H1 H2) as (rt' & -> & Hok' & E1 & E0 & E2 & E3 & Hex & W).
    exists rt'. split_and!; [done|done| |done]. destruct Ha as [A1 A2 A3 A4 A5].
    constructor; cbn; [by rewrite E1|by rewrite E0|intros w Hw|by rewrite E2|by rewrite E3].
    rewrite W, A3 by done. split; (intros [?|?]; [by left|right; lia]).
  - destruct (tally_retransmitted_spec rt b e Hok (proj1 Hop)) as (rt' & -> & Hok' & E1 & E0 & E2 & E3 & Hex & W).
    exists rt'. split_and!; [done|done| |done]. destruct Ha as [A1 A2 A3 A4 A5].
    constructor; cbn; [by rewrite E1|by rewrite E0|by rewrite E3|by rewrite E2|intros w Hw]. by rewrite W, A5.
  - eexists. split_and!; [done|destruct Hok; by constructor| |done].
    destruct Ha as [A1 A2 A3 A4 A5]. constructor; cbn; try done. intros w _. split; [apply within_nil|done].
Qed.

Lemma tally_run_ok ops : ∀ rt t, tally_ok rt → agrees rt t → Forall op_in_range ops →
  ∃ rt', tally_run rt ops = Some rt' ∧ tally_ok rt' ∧ agrees rt' (foldl told t ops).
Proof.
  induction ops as [|op ops IH]; intros rt t Hok Ha Hops; cbn [tally_run foldl]; [by exists rt|].
  apply Forall_cons in Hops as [Hop Hops]. destruct (tally_op_ok rt t op Hok Ha Hop) as (rt1 & -> & Hok1 & Ha1 & _).
  by apply IH.
Qed.

Lemma tally_run_snoc op ops : ∀ rt, tally_run rt (ops ++ [op]) = rt ← tally_run rt ops; tally_op rt op.
Proof.
  induction ops as [|op' ops IH]; intros rt; cbn [app tally_run mbind option_bind]; [by destruct (tally_op rt op)|].
  destruct (tally_op rt op'); [apply IH|done].
Qed.

Lemma tally_init_ok : tally_ok retransmit_tally_init ∧ agrees retransmit_tally_init told_nothing.
Proof. split; constructor; try done; intros w _; (split; [apply within_nil|done]). Qed.

(** C38: a retransmission tally never fails an assertion, whatever it is told
    about sequence numbers that have not wrapped around (those acknowledged
    selectively below 2^31 - 1, since the code converts them to signed
    integers), and its loops end.  It knows the highest acknowledgement and
    its duplicates.  Whenever it finds out anew what is lost, after a timeout
    marks a range, after a retransmission, or when a third duplicate asks for
    a packet that was not sent again, the packets that it reports are, from
    the highest acknowledgement on, exactly those that it was told to be lost
    (in a marked range, or asked for by three duplicates), except the
    selectively acknowledged and those sent again since the last timeout. *)
Theorem tally_sound (ops : list TallyOp) (op : TallyOp) :
  Forall op_in_range (ops ++ [op]) →
  ∃ rt, tally_run retransmit_tally_init (ops ++ [op]) = Some rt ∧
    let t := foldl told told_nothing (ops ++ [op]) in
    last_ack_ rt = told_ack t ∧ num_dupl_ack_ rt = told_dups t ∧
    (recounts (foldl told told_nothing ops) op →
     ∀ w, told_ack t ≤ w → (within (lost_ rt) w ↔ told_lost t w ∧ ¬ told_sacked t w ∧ ¬ told_resent t w)).
Proof.
  intros [Hops [Hop _]%Forall_cons]%Forall_app. destruct tally_init_ok as [Hok0 Ha0].
  destruct (tally_run_ok ops _ _ Hok0 Ha0 Hops) as (rt & E & Hok & Ha).
  destruct (tally_op_ok rt _ op Hok Ha Hop) as (rt' & E' & _ & Ha' & Hex).
  exists rt'. rewrite tally_run_snoc, E, foldl_app. split; [done|]. cbn [foldl]. cbn zeta.
  split_and!; [apply Ha'|apply Ha'|]. intros Hr w Hw.
  by rewrite (Hex Hr w), (ag_lost _ _ Ha'), (ag_sacked _ _ Ha'), (ag_resent _ _ Ha') by done.
Qed.

Lemma tally_sound_witness :
  let ops := [OpUpdate 3 9 false; OpSacked [5; 6; 8]; OpRetransmitted 3 4; OpUpdate 4 9 true] in
  ∃ rt, tally_run retransmit_tally_init (ops ++ [OpLost 4 9]) = Some rt ∧ lost_ rt = [(4, 5); (7, 8)] ∧
    within (lost_ rt) 7 ∧ ¬ within (lost_ rt) 100.
Proof.
  intros ops. destruct (tally_sound ops (OpLost 4 9)) as (rt & E & _ & _ & H).
  { unfold ops. repeat (apply Forall_cons; split); try apply Forall_nil; cbn; unfold sackable; lia. }
  exists rt. assert (Hrt : Some rt = tally_run retransmit_tally_init (ops ++ [OpLost 4 9])) by done.
  vm_compute in Hrt. injection Hrt as ->. specialize (H ltac:(cbn; lia)). split_and!; [done|done|..].
  - apply H; [cbn; lia|]. cbn. split_and!; [lia| |lia]. intros [?|Hin]; [done|]. apply list_elem_of_In in Hin. cbn in Hin. lia.
  - rewrite H by (cbn; lia). cbn. unfold asked_for. cbn. unfold kDuplAckLostThresh. lia.
Defined.

End Tally.
